(* ===== verification/_CoqProject ===== *)
-Q . S2P
Prelude.v
StdMap.v
Numeric.v
Utils.v
Property.v
Container.v
Module.v
World.v
Log.v
Wiring.v
Lifecycle.v
Threads.v
Catalogue.v
Factory.v
Pipeline.v
PipelineSafe.v
PipelineRuns.v
Tracker.v
Greedy.v
Tracking.v
Munkres.v
MunkresBase.v
Matching.v
MunkresSteps.v
MunkresRun.v
MunkresTracker.v
OscData.v
OscMessage.v
OscCodec.v
OscBundle.v
Tuio.v
TuioSpec.v
Tuio2Spec.v
FloatExact.v
Calibration.v
Peaks.v
FingerTip.v
HuObject.v
Filters.v
Blobs.v
Images.v
Segment.v
SegmentGraph.v
SegmentLabels.v
SegmentRefs.v
SegmentSpec.v
Fidtrack.v
TreeIds.v
FidtrackX.v
DepthString.v
FidtrackForest.v
FidtrackSafe.v
FidtrackSeen.v
FidtrackStrings.v
FidtrackPlace.v
Fiducials.v
Json.v
JsonText.v
Evbuffer.v
MinHeap.v
Events.v
EventLoop.v
EventRuns.v
HttpText.v
HttpUri.v
Http.v
HttpSpec.v
HttpReply.v
HttpChunks.v
ImageStream.v
Web.v
Removal.v
WebStream.v
WebSafe.v
WebFiles.v
HttpWeb.v
