(* ===== verification/Prelude.v ===== *)
(** Movid: a verification of the framework, the trackers, the senders and the
    web server.

    Movid is a tracking program for multitouch tables.  A pipeline is a graph
    of modules (camera, image filters, blob finders, trackers, senders)
    connected by data streams; a factory builds modules by name, a
    configuration file or a web page describes and edits the graph, and the
    main loop runs it.  Touches leave the program as TUIO messages over OSC; the
    web page talks to it through the HTTP server of libevent with JSON replies, and
    fiducial markers are found by libfidtrack.
    This library models that program as Rocq functions and proves what makes it
    correct.

    *** Parts and files

    Generic parts.
    - Prelude: faults, the error monad [res], strings, tactics and hints.
    - StdMap: [std::map] as an ordered association list.
    - Numeric: [int] as 32-bit [Z], [double] as binary64 [spec_float], and the C
      conversions (atoi, atof, printf, ostream); FloatExact: integers as doubles.
    - Utils: src/src/moUtils.cpp (tokenize, inList, angles).

    Values and objects.
    - Property: src/src/moProperty.{h,cpp}, the typed values with conversion,
      read-only flag and callbacks.
    - Container: src/src/moDataGenericContainer.{h,cpp}, the blobs.
    - Module: src/src/moModule.{h,cpp}, one module (ports, properties, errors,
      statistics, saving); World: the heap of modules, streams and threads, the
      state and error monad [M], moDataStream.{h,cpp} and the operations of
      moModule.cpp that reach other objects.  The methods classes override are
      the class [Virtuals].
    - Threads: src/src/moThread.{h,cpp} and the trigger of ptypes, the loop of a
      module thread as steps that interleave with notifyUpdate and stop.
    - Catalogue: the constructors under src/src/modules/, statement by statement;
      Factory: src/src/moFactory.cpp.
    - Pipeline: src/src/moPipeline.{h,cpp}, the parser and the serializer.
    - Log: src/src/moLog.{h,cpp} and src/src/moDaemon.cpp.

    Trackers and calibration.
    - Tracker: moAbstractBlobTrackerModule.cpp and moGreedyBlobTrackerModule.cpp.
    - Munkres: src/contrib/bitmap_munkres/match.{c,h}, the Hungarian algorithm as
      a state machine over its five mutually calling steps.
    - MunkresTracker: moMunkresBlobTrackerModule.cpp (and its theorem).
    - Calibration: moCalibrationModule.{h,cpp}; the Delaunay subdivision of OpenCV
      is an interface with laws.

    Images and finders.
    - Filters: moImageFilterModule.{h,cpp}, the buffers of the image filters, and
      what Roi, Threshold, Smooth, Highpass, MirrorImage and BackgroundSubtract
      decide besides calling OpenCV.
    - Peaks: moPeakFinderModule.cpp; FingerTip: moFingerTipFinderModule.cpp;
      HuObject: moHuObjectFinderModule.cpp; Blobs: moBlobFinderModule.cpp, the
      blobs of moFiducialFinderModule.cpp, and moJustifyModule.cpp,
      moDumpModule.cpp, moVideoModule.cpp.  Contours, their measures and std::sort
      are interfaces ([Contours], [Shapes], [StdSort]); the list of fiducials is an
      argument of Blobs, computed in Fiducials.
    - Images: moCombineModule.cpp, moBinaryMaskModule.cpp, moMaskModule.cpp,
      moDistanceTransformModule.cpp, moCameraModule.cpp, moImageModule.cpp and
      moImageDisplayModule.cpp, with the images at addresses of a store.

    Fiducials (src/contrib/libfidtrack).
    - Segment: segment.cpp, the regions of a binary image with the references and the
      lists of adjacent regions.
    - Fidtrack: the search of fidtrackX.cpp for the roots of fiducials; FidtrackX: the
      rest of fidtrackX.cpp, from a root to its position, angle, string of depths and id.
    - TreeIds: treeidmap.cpp and the trees of default_trees.h.
    - Fiducials: how moFiducialFinderModule.cpp sets libfidtrack up and uses it (and its
      theorem).  The functions atan and qsort are interfaces ([Libm], [Qsort]).

    Senders.
    - OscData, OscMessage, OscBundle: the strings, blobs, time tags, messages and
      bundles of src/contrib/WOscLib-00.09 and src/src/moOSC.cpp, to bytes and back
      (OscCodec: the theorems on messages).
    - Tuio: moTuioModule.cpp and moTuio2Module.cpp, from blobs to datagrams.

    Server.
    - Json: src/contrib/cJSON/cJSON.c, trees, printing and parsing.
    - Evbuffer: src/contrib/libevent-1.4.13-stable/buffer.c, with the memory of the
      buffer and its sizes.
    - MinHeap, Events: min_heap.h and event.c of the same library, the timers and the
      event loop.  The system call that waits for files and the callbacks of the
      program are interfaces ([Backend], [Callbacks]).
    - HttpText, Http: src/contrib/libevent-1.4.13-stable/http.c.  HttpText holds
      URIs, queries and headers; Http requests, replies, bodies, chunks and the
      connection of the server as a state machine over what the socket brings.
    - Web: src/src/movid.cpp, the handlers, the file server, the command line and
      the main loop; ImageStream, WebStream: the image streams, what they send and how
      their module is connected.
    - HttpWeb: the handlers behind the HTTP server.

    The other files hold theorems about these: Wiring, Lifecycle, PipelineSafe,
    PipelineRuns, Greedy, Tracking, MunkresBase, Matching, MunkresSteps,
    MunkresRun, TuioSpec, Tuio2Spec, SegmentGraph, SegmentLabels, SegmentRefs,
    SegmentSpec, DepthString, FidtrackForest, FidtrackSafe, FidtrackSeen,
    FidtrackStrings, FidtrackPlace, JsonText, EventLoop, EventRuns, HttpUri, HttpSpec,
    HttpReply, HttpChunks, Removal, WebSafe, WebFiles.

    *** How the model reads

    A C++ object is a record at an address of the heap [world]; a method is a
    function of the monad [M A = world -> res (A * world)].  Undefined or fatal
    behaviour is a value: [FAssert] (a failed assert), [FBadAccess] (a null
    pointer, a deleted object, an index out of an array, a cast at the wrong
    type), [FOutOfRange] (a thrown std::out_of_range), [FDivZero], [FOverflow] (a sum of
    the assignment solver that does not fit an int).  A theorem that an
    operation returns [Ok] therefore says that none of these happens.  The C code
    of libevent has more ways to end, the type [outcome] of Evbuffer: a loop
    whose fuel ran out is told from a fault.  What the program cannot decide (the
    clock, files, dates, which files can be written, how many bytes a socket takes
    or brings) is part of the state or an argument.

    *** What is shown

    - Wiring: [world_wf], the agreement of inputs and observer lists, is kept by
      setInput and removeObservers on every branch; the restarting loop of
      removeObservers ends.  Removal: taking a module out keeps it.
    - Lifecycle: the framework runs methods that module classes override (start,
      stop, update, poll, notifyData, callbacks, the interface).  Of these it is only
      assumed that one that returns has not rewired the graph ([VirtualLaws]); they may
      fault, as a camera does that is started twice.  The theorems then say that start,
      stop, update, poll, property changes and pushes never rewire and that a fault is
      that of a method they call on a live module ([blamed]).  The base class, which is
      never to blame ([base_never_blamed]), and the camera are instances.
    - Threads: under any interleaving a notified module updates within four
      turns of its thread, and a stopped one leaves its loop within six.
    - Factory: each of the 35 registered classes builds a well-formed,
      unconnected module on fresh streams.
    - PipelineSafe, PipelineRuns: parsing any text keeps ids unique, reads out of
      range in two named situations or stops in a method of a class; clear deletes each module once; the
      error loop of main ends, and does not end once a file failed to open.
    - Property, Container, Utils, Module: conversions, round trips, totality.
    - Greedy, Tracking, MunkresTracker: the greedy tracker meets the interface
      [TrackLaws], the Munkres tracker does what it asks for fewer than 32 blobs and
      fails its assertion from 32 on.  A frame then returns, ids stay distinct and the
      blobs output are exactly those of the right age ([tracker_frame]).
    - Matching, MunkresSteps, MunkresRun: the index vector of mtdev_match is a
      cheapest complete assignment, for distances up to INT_MAX / 4; no array is
      left, no addition overflows.
    - Calibration: with [duration_per_point] 1, one touch of two frames per point
      completes the calibration, and calibrated touches land exactly on the screen
      points; touches of one frame are ignored, and with a longer duration the code
      reads a dead local.
    - Peaks, FingerTip, HuObject: the peaks are the pixels between the limits,
      the palm is the mean of the strongest pixels (read as signed chars), finger tips are apart, the
      object recognised is the best match, registered objects survive a preset.
      Blobs: every list a finder pushes is one every tracker takes, and none
      that Justify takes.  Filters: the buffers of the inverting and smoothing modules fit
      the frames while their size stays.
      Images: combining and masking give what a reference without buffers gives; where
      an image is released while a stream still holds it, a theorem says so.
    - SegmentGraph, SegmentLabels, SegmentRefs, SegmentSpec: the regions of the segmenter
      are the connected components of the image, with the flags of the border, the boxes
      of the regions that do not touch it, and the lists of the regions they touch.
    - FidtrackForest, FidtrackSafe: no assertion of the search fails on any binary image,
      and the traversed regions form trees in which each counts those below it.
      DepthString: the string of depths names a tree up to the order of its branches.
      FidtrackSeen, FidtrackStrings, FidtrackPlace, Fiducials: the strings are written
      inside their block, and the fiducials of a frame have the ids of their trees.
    - Log: one line for each message; the parent of the daemon leaves.
    - OscCodec, OscBundle: messages and bundles come back from their bytes, parsed
      messages are well typed, parsing any buffer returns.  TuioSpec, Tuio2Spec:
      the datagram of a frame parses to the messages of the protocol.
    - JsonText: a tree of integers and strings is printed without leaving a buffer
      and parsed back.
    - Evbuffer: every operation implements a queue of bytes.  MinHeap: the heap is a
      priority queue.  EventLoop, EventRuns: whatever the program adds and deletes, the
      queues agree with the flags of the events, timers fire in order, and a turn of the
      loop returns.
    - HttpUri: encoded queries are read back.  HttpSpec: a request sent in pieces
      reaches the handler as it was made.  HttpReply, HttpChunks: a reply, whole or
      in chunks, is read back by a client, and the connection ends as the request
      asked.  HttpWeb: the composition, from the page that asks to the JSON tree the
      page reads.
    - WebSafe, WebFiles: every request but slot loading keeps the invariant of the
      server and is answered, unless it asks for the interface of a module that has
      none or a method of a class stops; so do all states the main loop reaches
      without loading a slot; /pipeline/remove takes out the module it names;
      files served are confined; slots give back what was saved.  WebStream: opening and
      closing an image stream keep the graph well formed.  ImageStream: the images
      reach the client one by one.

    *** Fuel and bounds

    Loops that are not structural carry fuel, and a theorem shows it is enough:
    tokenize and inList need one round per character ([tokenize_total]),
    removeObservers one per observer ([removeObservers_disconnects]), the late
    settings of the parser one per entry ([late_loop_spec]), the error loop one
    per module ([drain_errors_terminates]), /pipeline/set one per parameter
    ([set_applies_pairs]), the matching algorithm [match_fuel]
    ([mtdev_match_optimal], which says that the run returns), a bundle one level
    per byte ([parse_bundle_returns]), the JSON parser one per character
    ([json_roundtrip]), the growth of a buffer 64 doublings and a formatted
    addition two rounds ([evbuffer_refines]), the query one per character, the
    headers one per byte and the chunks two per byte ([request_roundtrip],
    [chunked_roundtrip]), the restoring of contours one per property
    ([restore_terminates]), the redirections of the segmenter one per reference and
    the common neighbours of two regions one per entry ([step_segmenter_correct]), the
    search for roots one per region ([find_roots_safe]), the walk through a fiducial one
    per region ([fiducials_identified]), the timers one per event
    ([timers_fire_in_order]), a turn of the event loop one round ([poll_returns]).

    Sizes are machine sizes and the theorems name their limits: frames of 2^20
    blobs (2^12 for TUIO 2), JSON texts below 2^31 bytes, event buffers below 2^58
    bytes, requests below 2^31 bytes, images of at most 2^15 pixels a side for the
    segmenter, and 2^12 with fewer than 2^15 regions for the ids of fiducials (the
    counts of regions are 16 bits wide).

    *** Not modelled

    Image processing (the OpenCV calls inside update of the image modules) and the
    encoding of images; what finders draw on their output images.  Of libevent: the
    system-call backends, signals, sockets, DNS and the connections a client opens.  Of
    libfidtrack: the thresholds, the older tracker and find_regionsX, which the program
    does not call.  Of ptypes: all but the trigger.  Of WOscLib: the receiver and the
    patterns, of cJSON: detaching and replacing items; the program uses neither.
    [VirtualLaws] is a hypothesis on the methods of module classes: those that return
    have not rewired the graph.  A stream module with scale 0, which divides by zero
    ([scale_zero_divides]), is one that faults, which the theorems allow. *)
From stdpp Require Export base list strings pretty numbers option sets sorting gmap.
From Stdlib Require Export ZArith Ascii.

(** ** Faults: the ways the C++ code stops without returning *)

(** An expression of the program either yields a value or stops the process:
    a failed [assert], a [std::out_of_range] nobody catches, an access
    through a null pointer / past the end of a vector, a division of
    integers by zero, or a sum that does not fit its type. *)
Inductive fault :=
  | FAssert
  | FOutOfRange
  | FBadAccess
  | FDivZero
  | FOverflow.

Inductive res (A : Type) :=
  | Ok (a : A)
  | Fault (f : fault).
Arguments Ok {A} a.
Arguments Fault {A} f.

#[export] Instance fault_eq_dec : EqDecision fault.
Proof. solve_decision. Defined.
#[export] Instance res_eq_dec `{EqDecision A} : EqDecision (res A).
Proof. solve_decision. Defined.

#[export] Instance res_ret : MRet res := @Ok.
#[export] Instance res_bind : MBind res := λ A B k m,
  match m with Ok a => k a | Fault f => Fault f end.
#[export] Instance res_fmap : FMap res := λ A B g m,
  match m with Ok a => Ok (g a) | Fault f => Fault f end.

Definition assert_ (b : bool) : res unit := if b then Ok tt else Fault FAssert.

Definition deref {A} (o : option A) : res A :=
  match o with Some a => Ok a | None => Fault FBadAccess end.

Definition is_ok {A} (r : res A) : bool := match r with Ok _ => true | _ => false end.

Lemma res_bind_Ok {A B} (m : res A) (k : A → res B) b :
  m ≫= k = Ok b ↔ ∃ a, m = Ok a ∧ k a = Ok b.
Proof. destruct m as [a|f]; (split; [intros|intros (?&?&?)]); simplify_eq/=; eauto. Qed.

Lemma res_fmap_Ok {A B} (m : res A) (k : A → B) b :
  k <$> m = Ok b ↔ ∃ a, m = Ok a ∧ b = k a.
Proof. destruct m as [a|f]; (split; [intros|intros (?&?&?)]); simplify_eq/=; eauto. Qed.

(** ** Strings *)

(** [std::string] and C strings are [string]; [chars] is the list view. *)
Fixpoint chars (s : string) : list ascii :=
  match s with EmptyString => [] | String c s => c :: chars s end.

Fixpoint unchars (l : list ascii) : string :=
  match l with [] => EmptyString | c :: l => String c (unchars l) end.

Lemma unchars_chars s : unchars (chars s) = s.
Proof. induction s; simpl; congruence. Qed.
Lemma chars_unchars l : chars (unchars l) = l.
Proof. induction l; simpl; congruence. Qed.

Definition slen (s : string) : nat := length (chars s).

(** [s.substr(0, n)] and [s.substr(n)] for [n <= s.size()]. *)
Fixpoint stake (n : nat) (s : string) : string :=
  match n, s with S n, String c s => String c (stake n s) | _, _ => EmptyString end.
Fixpoint sdrop (n : nat) (s : string) : string :=
  match n, s with
  | 0, s => s
  | S n, String _ s => sdrop n s
  | S _, EmptyString => EmptyString
  end.

(** [std::string::substr(pos, len)]: throws [std::out_of_range] when
    [pos > size()]; the length is clipped to what is left. *)
Definition substr (pos len : nat) (s : string) : res string :=
  if decide (pos ≤ slen s) then Ok (stake len (sdrop pos s)) else Fault FOutOfRange.

Lemma sapp_cons c s t : String c s +:+ t = String c (s +:+ t).
Proof. reflexivity. Qed.
Lemma sapp_nil_l (s : string) : EmptyString +:+ s = s.
Proof. reflexivity. Qed.
Lemma sapp_nil_r (s : string) : s +:+ EmptyString = s.
Proof. induction s as [|c s IH]; [done|]. rewrite sapp_cons. by f_equal. Qed.
Lemma sapp_assoc (s t u : string) : s +:+ (t +:+ u) = (s +:+ t) +:+ u.
Proof. induction s as [|c s IH]; [done|]. rewrite !sapp_cons. by f_equal. Qed.
Lemma chars_app s t : chars (s +:+ t) = chars s ++ chars t.
Proof. induction s as [|c s IH]; [done|]. rewrite sapp_cons. simpl. by f_equal. Qed.
Lemma unchars_app l k : unchars (l ++ k) = unchars l +:+ unchars k.
Proof. induction l as [|c l IH]; [done|]. simpl. rewrite sapp_cons. by f_equal. Qed.
Lemma slen_app s t : slen (s +:+ t) = slen s + slen t.
Proof. unfold slen. by rewrite chars_app, length_app. Qed.
Lemma stake_sdrop n s : stake n s +:+ sdrop n s = s.
Proof. revert n. induction s as [|c s IH]; intros [|n]; try done.
  simpl. rewrite sapp_cons. by f_equal. Qed.
Lemma slen_stake n s : slen (stake n s) = n `min` slen s.
Proof. unfold slen. revert n. induction s as [|c s IH]; intros [|n]; simpl; auto. Qed.
Lemma chars_stake n s : chars (stake n s) = take n (chars s).
Proof. revert n. induction s as [|c s IH]; intros [|n]; simpl; congruence. Qed.
Lemma chars_sdrop n s : chars (sdrop n s) = drop n (chars s).
Proof. revert n. induction s as [|c s IH]; intros [|n]; simpl; congruence. Qed.
Lemma slen_sdrop n s : slen (sdrop n s) = slen s - n.
Proof. unfold slen. by rewrite chars_sdrop, length_drop. Qed.
Lemma chars_inj s t : chars s = chars t → s = t.
Proof. intros H. by rewrite <-(unchars_chars s), H, unchars_chars. Qed.

(** Does [c] occur in [s]?  (The membership test behind [find_first_of].) *)
Fixpoint smem (c : ascii) (s : string) : bool :=
  match s with
  | EmptyString => false
  | String d s => bool_decide (c = d) || smem c s
  end.

Lemma smem_elem c s : smem c s = true ↔ c ∈ chars s.
Proof.
  induction s as [|d s IH]; simpl; [split; [done|by intros ?%elem_of_nil]|].
  rewrite orb_true_iff, bool_decide_eq_true, IH, elem_of_cons. done.
Qed.
Lemma smem_app c s t : smem c (s +:+ t) = smem c s || smem c t.
Proof. induction s as [|d s IH]; [done|]. rewrite sapp_cons. simpl.
  rewrite IH. by destruct (bool_decide _). Qed.

(** ** C strings *)

(** The characters before the first NUL. *)
Fixpoint c_chars (l : list ascii) : list ascii :=
  match l with
  | [] => []
  | c :: l => if bool_decide (c = zero) then [] else c :: c_chars l
  end.
Lemma c_chars_nonzero l : zero ∉ c_chars l.
Proof. induction l as [|c l IH]; simpl; [apply not_elem_of_nil|]. case_bool_decide; [apply not_elem_of_nil|]. set_solver. Qed.
Lemma c_chars_id l : zero ∉ l → c_chars l = l.
Proof.
  induction l as [|c l IH]; [done|]. rewrite not_elem_of_cons. intros [Hc Hl]. simpl.
  rewrite bool_decide_false by done. by rewrite IH.
Qed.

(** ** Proof automation of the development *)

Create HintDb movid.
Create Rewrite HintDb movid.
#[export] Hint Rewrite sapp_cons sapp_nil_l sapp_nil_r chars_app slen_app : movid.
#[export] Hint Resolve unchars_chars chars_unchars : movid.

(** Open every [res] computation known to have succeeded. *)
Ltac inv_res :=
  repeat match goal with
  | H : Ok _ = Ok _ |- _ => injection H as H; try subst
  | H : Fault _ = Ok _ |- _ => discriminate H
  | H : mret _ = Ok _ |- _ => injection H as H; try subst
  | H : _ ≫= _ = Ok _ |- _ =>
      apply res_bind_Ok in H as (? & ? & H)
  | H : (if ?b then _ else _) = Ok _ |- _ =>
      let E := fresh "E" in destruct b eqn:E; try discriminate H
  end.

(** Split on the innermost [match]/[if] of the goal. *)
Ltac split_match :=
  match goal with
  | |- context [match ?x with _ => _ end] => destruct x eqn:?
  end.
