(* ===== verification/StdMap.v ===== *)
(** [std::map]: an ordered association list.

    The program keeps its tables in [std::map] (properties by name, inputs and
    outputs by index, the factory's database, the callbacks of a property) and
    iterates over them in key order, which is visible in the preset files it
    writes and in the JSON it serves.  [smap K V] is the in-order sequence of
    the tree's entries; [find] is [m.find(k)], [insert] is [m[k] = v] and
    [erase] is [m.erase(k)].  Keys are compared by a [KeyOrd] instance:
    numerically for [int], byte by byte for [std::string]. *)
From S2P Require Import Prelude.

Class KeyOrd (K : Type) := {
  kcmp : K → K → comparison;
  kcmp_eq a b : kcmp a b = Eq ↔ a = b;
  kcmp_antisym a b : kcmp b a = CompOpp (kcmp a b);
  kcmp_trans a b c : kcmp a b = Lt → kcmp b c = Lt → kcmp a c = Lt;
}.

Definition klt `{KeyOrd K} (a b : K) : Prop := kcmp a b = Lt.

#[export] Instance Z_key : KeyOrd Z.
Proof.
  refine {| kcmp := Z.compare |}.
  - apply Z.compare_eq_iff.
  - apply Z.compare_antisym.
  - intros a b c. rewrite !Z.compare_lt_iff. lia.
Defined.

#[export] Instance nat_key : KeyOrd nat.
Proof.
  refine {| kcmp := Nat.compare |}.
  - apply Nat.compare_eq_iff.
  - apply Nat.compare_antisym.
  - intros a b c. rewrite !Nat.compare_lt_iff. lia.
Defined.

(** Lexicographic order on unsigned bytes, as [std::string::compare]. *)
Fixpoint string_cmp (a b : string) : comparison :=
  match a, b with
  | EmptyString, EmptyString => Eq
  | EmptyString, String _ _ => Lt
  | String _ _, EmptyString => Gt
  | String x a, String y b =>
      match N.compare (N_of_ascii x) (N_of_ascii y) with
      | Eq => string_cmp a b
      | r => r
      end
  end.

Lemma N_of_ascii_inj x y : N_of_ascii x = N_of_ascii y → x = y.
Proof. intros H. by rewrite <-(ascii_N_embedding x), H, ascii_N_embedding. Qed.

#[export] Instance string_key : KeyOrd string.
Proof.
  refine {| kcmp := string_cmp |}.
  - induction a as [|x a IH]; intros [|y b]; simpl; try done.
    destruct (N.compare_spec (N_of_ascii x) (N_of_ascii y)) as [E|E|E].
    + apply N_of_ascii_inj in E as ->. rewrite IH. naive_solver.
    + split; [done|]. intros [= -> ->]. lia.
    + split; [done|]. intros [= -> ->]. lia.
  - induction a as [|x a IH]; intros [|y b]; simpl; try done.
    rewrite N.compare_antisym. destruct (N_of_ascii x ?= N_of_ascii y)%N; naive_solver.
  - induction a as [|x a IH]; intros [|y b] [|z c]; simpl; try done.
    destruct (N.compare_spec (N_of_ascii x) (N_of_ascii y)) as [E|E|E]; try done;
    destruct (N.compare_spec (N_of_ascii y) (N_of_ascii z)) as [F|F|F]; try done;
    destruct (N.compare_spec (N_of_ascii x) (N_of_ascii z)) as [G|G|G];
    try done; try lia; eauto.
Defined.

Section KeyOrd.
  Context `{KeyOrd K}.
Lemma kcmp_refl (a : K) : kcmp a a = Eq.
  Proof. by apply kcmp_eq. Qed.
Lemma klt_irrefl (a : K) : ¬ klt a a.
  Proof. unfold klt. by rewrite kcmp_refl. Qed.
Lemma kcmp_Gt (a b : K) : kcmp a b = Gt → klt b a.
  Proof. unfold klt. rewrite (kcmp_antisym a b). by intros ->. Qed.
#[export] Instance klt_trans : Transitive (klt (K:=K)).
  Proof. intros a b c. apply kcmp_trans. Qed.
#[export] Instance key_eq_dec : EqDecision K.
  Proof.
    intros a b. destruct (kcmp a b) eqn:E.
    - left. by apply kcmp_eq.
    - right. intros ->. by rewrite kcmp_refl in E.
    - right. intros ->. by rewrite kcmp_refl in E.
  Defined.
End KeyOrd.
#[export] Remove Hints key_eq_dec : typeclass_instances.

#[global] Arguments kcmp : simpl never.

(** ** The map and its operations *)

Definition smap (K V : Type) : Type := list (K * V).

Section Smap.
  Context `{KeyOrd K} {V : Type}.
  Implicit Types (m : smap K V) (k : K) (v : V).

Fixpoint find k m : option V :=
    match m with
    | [] => None
    | (k', v) :: m => match kcmp k k' with Eq => Some v | _ => find k m end
    end.

Fixpoint insert k v m : smap K V :=
    match m with
    | [] => [(k, v)]
    | (k', v') :: m' =>
        match kcmp k k' with
        | Lt => (k, v) :: m
        | Eq => (k, v) :: m'
        | Gt => (k', v') :: insert k v m'
        end
    end.

Fixpoint erase k m : smap K V :=
    match m with
    | [] => []
    | (k', v') :: m' => match kcmp k k' with Eq => m' | _ => (k', v') :: erase k m' end
    end.

Definition keys m : list K := m.*1.

  (** The class invariant of [std::map]: entries in strictly increasing key order. *)
Definition ordered m : Prop := StronglySorted klt (keys m).

Lemma find_insert_eq k v m : find k (insert k v m) = Some v.
  Proof.
    induction m as [|[k' v'] m IH]; simpl; [by rewrite kcmp_refl|].
    destruct (kcmp k k') eqn:E; simpl; rewrite ?kcmp_refl; try done. by rewrite E.
  Qed.

Lemma find_insert_ne k k' v m : k ≠ k' → find k' (insert k v m) = find k' m.
  Proof.
    intros Hne. assert (Hn : kcmp k' k ≠ Eq) by (rewrite kcmp_eq; congruence).
    induction m as [|[j w] m IH]; simpl.
    - by destruct (kcmp k' k).
    - destruct (kcmp k j) eqn:E; simpl.
      + apply kcmp_eq in E as ->. by destruct (kcmp k' j).
      + by destruct (kcmp k' k).
      + by rewrite IH.
  Qed.

Lemma find_Some_elem k v m : find k m = Some v → (k, v) ∈ m.
  Proof.
    induction m as [|[j w] m IH]; simpl; [done|].
    destruct (kcmp k j) eqn:E; intros; simplify_eq; [|set_unfold; eauto..].
    apply kcmp_eq in E as ->. by left.
  Qed.

Lemma find_None_keys k m : find k m = None ↔ k ∉ keys m.
  Proof.
    induction m as [|[j w] m IH]; simpl; [split; [by intros _ ?%elem_of_nil|done]|].
    rewrite not_elem_of_cons, <-IH. destruct (kcmp k j) eqn:E.
    - apply kcmp_eq in E as ->. naive_solver.
    - split; [|naive_solver]. intros; split; [|done]. intros ->. by rewrite kcmp_refl in E.
    - split; [|naive_solver]. intros; split; [|done]. intros ->. by rewrite kcmp_refl in E.
  Qed.

Lemma keys_insert k v m j : j ∈ keys (insert k v m) ↔ j = k ∨ j ∈ keys m.
  Proof.
    induction m as [|[i w] m IH]; simpl; [set_solver|].
    destruct (kcmp k i) eqn:E; simpl; [apply kcmp_eq in E as ->|..]; set_solver.
  Qed.

Lemma ordered_nil : ordered [].
  Proof. constructor. Qed.

Lemma ordered_insert k v m : ordered m → ordered (insert k v m).
  Proof.
    unfold ordered. induction m as [|[i w] m IH]; simpl; intros Hs.
    { repeat constructor. }
    apply StronglySorted_inv in Hs as [Hs Hall].
    destruct (kcmp k i) eqn:E; simpl.
    - apply kcmp_eq in E as ->. by constructor.
    - constructor; [by constructor|]. constructor; [done|].
      eapply Forall_impl; [exact Hall|]. intros x Hx. by etrans.
    - constructor; [by apply IH|]. apply Forall_forall. intros x Hx.
      apply keys_insert in Hx as [->|Hx].
      + by apply kcmp_Gt.
      + by eapply Forall_forall in Hall.
  Qed.

Lemma keys_erase_subset k m j : j ∈ keys (erase k m) → j ∈ keys m.
  Proof. induction m as [|[i w] m IH]; simpl; [done|]. destruct (kcmp k i); set_solver. Qed.

Lemma ordered_erase k m : ordered m → ordered (erase k m).
  Proof.
    unfold ordered. induction m as [|[i w] m IH]; simpl; [done|].
    intros [Hs Hall]%StronglySorted_inv.
    destruct (kcmp k i); simpl; try done; (constructor; [by apply IH|]);
      apply Forall_forall; intros x Hx%keys_erase_subset; by eapply Forall_forall in Hall.
  Qed.

Lemma ordered_NoDup m : ordered m → NoDup (keys m).
  Proof.
    unfold ordered. induction (keys m) as [|k l IH]; [constructor|].
    intros [Hs Hall]%StronglySorted_inv. constructor; [|by apply IH].
    intros Hk. eapply Forall_forall in Hall; [|exact Hk]. by apply klt_irrefl in Hall.
  Qed.

Lemma find_elem_ordered k v m : ordered m → (k, v) ∈ m → find k m = Some v.
  Proof.
    intros Hnd%ordered_NoDup. induction m as [|[i w] m IH]; simpl; [by intros ?%elem_of_nil|].
    apply NoDup_cons in Hnd as [Hni Hnd]. intros [[= -> ->]|Hin]%elem_of_cons.
    { by rewrite kcmp_refl. }
    destruct (kcmp k i) eqn:E; eauto. apply kcmp_eq in E as ->.
    destruct Hni. apply (list_elem_of_fmap_2 fst) in Hin. done.
  Qed.

  (** Two maps with the same lookups are the same map. *)
Lemma ordered_ext m1 m2 :
    ordered m1 → ordered m2 → (∀ k, find k m1 = find k m2) → m1 = m2.
  Proof.
    unfold ordered. revert m2. induction m1 as [|[k v] m1 IH]; intros [|[j w] m2] H1 H2 Hf.
    - done.
    - specialize (Hf j). simpl in Hf. by rewrite kcmp_refl in Hf.
    - specialize (Hf k). simpl in Hf. by rewrite kcmp_refl in Hf.
    - simpl in H1, H2. apply StronglySorted_inv in H1 as [S1 A1].
      apply StronglySorted_inv in H2 as [S2 A2].
      assert (k = j) as ->.
      { destruct (kcmp k j) eqn:E; [by apply kcmp_eq| |]; exfalso.
        - pose proof (Hf k) as Hk. simpl in Hk. rewrite kcmp_refl, E in Hk.
          symmetry in Hk. apply find_Some_elem, (list_elem_of_fmap_2 fst) in Hk.
          simpl in Hk. eapply Forall_forall in A2; [|exact Hk].
          assert (klt k k) by (by etrans). by eapply klt_irrefl.
        - apply kcmp_Gt in E.
          pose proof (Hf j) as Hk. simpl in Hk. rewrite kcmp_refl, E in Hk.
          apply find_Some_elem, (list_elem_of_fmap_2 fst) in Hk.
          simpl in Hk. eapply Forall_forall in A1; [|exact Hk].
          assert (klt j j) by (by etrans). by eapply klt_irrefl. }
      pose proof (Hf j) as Hj. simpl in Hj. rewrite !kcmp_refl in Hj. simplify_eq.
      f_equal. apply IH; try done. intros i. specialize (Hf i). simpl in Hf.
      destruct (kcmp i j) eqn:E; [|done..].
      apply kcmp_eq in E as ->.
      assert (∀ m, Forall (klt j) (keys m) → find j m = None) as Hn.
      { intros m Hm. apply find_None_keys. intros Hin.
        eapply Forall_forall in Hm; [|exact Hin]. by apply klt_irrefl in Hm. }
      by rewrite !Hn.
  Qed.

Lemma find_erase_eq k m : ordered m → find k (erase k m) = None.
  Proof.
    unfold ordered. induction m as [|[i w] m IH]; simpl; [done|].
    intros [Hs Hall]%StronglySorted_inv. destruct (kcmp k i) eqn:E; simpl; rewrite ?E; auto.
    apply kcmp_eq in E as ->. apply find_None_keys. intros Hin.
    eapply Forall_forall in Hall; [|exact Hin]. by apply klt_irrefl in Hall.
  Qed.

Lemma find_erase_ne k k' m : k ≠ k' → find k' (erase k m) = find k' m.
  Proof.
    intros Hne. induction m as [|[i w] m IH]; simpl; [done|].
    destruct (kcmp k i) eqn:E; simpl; [|by rewrite IH..].
    apply kcmp_eq in E as ->. destruct (kcmp k' i) eqn:F; [|done..].
    apply kcmp_eq in F. congruence.
  Qed.
End Smap.

(** Mapping over the values keeps keys, hence order. *)
Definition smap_fmap {K V W} (f : V → W) (m : smap K V) : smap K W := (λ kv, (kv.1, f kv.2)) <$> m.

Lemma find_smap_fmap `{KeyOrd K} {V W} (f : V → W) k (m : smap K V) :
  find k (smap_fmap f m) = f <$> find k m.
Proof. induction m as [|[i w] m IH]; simpl; [done|]. by destruct (kcmp k i). Qed.

Lemma keys_smap_fmap {K V W} (f : V → W) (m : smap K V) : keys (smap_fmap f m) = keys m.
Proof. unfold keys, smap_fmap. rewrite <-list_fmap_compose. by apply list_fmap_ext. Qed.

#[export] Hint Rewrite @find_insert_eq @find_smap_fmap @keys_smap_fmap : movid.
#[export] Hint Resolve ordered_nil ordered_insert ordered_erase : movid.
