(* ===== verification/Numeric.v ===== *)
(** Machine numbers and the C conversions the program uses.

    - [int] is [Z] kept in the 32-bit range by [wrap32];
    - [double] is IEEE-754 binary64 as the Standard Library's [spec_float]
      (53 bits, largest exponent 1024), [float] is binary32;
    - [atoi], [atof], [printf("%d")], [printf("%f")] and the default
      [ostream << double] (six significant digits) are functions on strings.

    Everything computes, so a property can be evaluated on a concrete input. *)
From Stdlib Require Import SpecFloat.
From S2P Require Import Prelude.

Local Open Scope Z_scope.

(** ** 32-bit integers *)

Definition INT_MIN : Z := - 2 ^ 31.
Definition INT_MAX : Z := 2 ^ 31 - 1.
Definition in_int (z : Z) : bool := (INT_MIN <=? z) && (z <=? INT_MAX).
Definition wrap32 (z : Z) : Z := (z + 2 ^ 31) mod 2 ^ 32 - 2 ^ 31.

Lemma in_int_iff z : in_int z = true ↔ - 2 ^ 31 <= z < 2 ^ 31.
Proof. unfold in_int, INT_MIN, INT_MAX. lia. Qed.

Lemma wrap32_id z : in_int z = true → wrap32 z = z.
Proof. rewrite in_int_iff. unfold wrap32. intros. rewrite Z.mod_small; lia. Qed.

Lemma wrap32_range z : in_int (wrap32 z) = true.
Proof. apply in_int_iff. unfold wrap32. pose proof (Z.mod_pos_bound (z + 2 ^ 31) (2 ^ 32)). lia. Qed.

(** C's [a % b] and [a / b] truncate toward zero. *)
Definition cmod (a b : Z) : Z := Z.rem a b.
Definition cdiv (a b : Z) : Z := Z.quot a b.

(** ** Decimal integers in text *)

Fixpoint skip_space (s : string) : string :=
  match s with
  | String c s' => if Ascii.is_space c then skip_space s' else s
  | EmptyString => EmptyString
  end.

(** The longest run of decimal digits, folded into an accumulator. *)
Fixpoint digits_val (acc : Z) (s : string) : Z :=
  match s with
  | String c s' =>
      match Ascii.is_nat c with
      | Some d => digits_val (acc * 10 + Z.of_nat d) s'
      | None => acc
      end
  | EmptyString => acc
  end.

Definition clamp64 (z : Z) : Z := Z.max (- 2 ^ 63) (Z.min (2 ^ 63 - 1) z).

(** [strtol(s, NULL, 10)] on a 64-bit platform: saturates. *)
Definition strtol (s : string) : Z :=
  clamp64
    match skip_space s with
    | String "-" s' => - digits_val 0 s'
    | String "+" s' => digits_val 0 s'
    | s' => digits_val 0 s'
    end.

(** [atoi]: [(int) strtol(s, NULL, 10)]. *)
Definition atoi (s : string) : Z := wrap32 (strtol s).

(** [printf("%d")] and [ostream << int]. *)
Definition print_int (z : Z) : string := pretty z.

(** ** Binary64 and binary32 *)

Definition double := spec_float.
Definition dzero : double := S754_zero false.
Definition d_of_Z (z : Z) : double := binary_normalize 53 1024 z 0 false.
Definition d_add : double → double → double := SFadd 53 1024.
Definition d_sub : double → double → double := SFsub 53 1024.
Definition d_mul : double → double → double := SFmul 53 1024.
Definition d_div : double → double → double := SFdiv 53 1024.
Definition d_sqrt : double → double := SFsqrt 53 1024.
Definition d_ltb : double → double → bool := SFltb.
Definition d_eqb : double → double → bool := SFeqb.
Definition d_abs : double → double := SFabs.

#[export] Instance spec_float_eq_dec : EqDecision spec_float.
Proof. solve_decision. Defined.

(** [(float) d], exact when widened back to [double]. *)
Definition f_of_d (d : double) : spec_float :=
  match d with
  | S754_finite s m e => binary_round 24 128 s m e
  | _ => d
  end.

(** The integer part of a finite double, truncated toward zero. *)
Definition d_trunc (s : bool) (m : positive) (e : Z) : Z :=
  let a := if 0 <=? e then Z.pos m * 2 ^ e else Z.pos m / 2 ^ (- e) in
  if s then - a else a.

(** [(int) d]; out of range the x86-64 instruction yields [INT_MIN]. *)
Definition d_to_int (d : double) : Z :=
  match d with
  | S754_zero _ => 0
  | S754_finite s m e => let z := d_trunc s m e in if in_int z then z else INT_MIN
  | _ => INT_MIN
  end.

(** The double nearest to the ratio [p / q] (ties to even). *)
Definition d_of_ratio (s : bool) (p q : Z) : double :=
  if p =? 0 then S754_zero s
  else let '(mz, ez, lz) := SFdiv_core_binary 53 1024 p 0 q 0 in
       binary_round_aux 53 1024 s mz ez lz.

(** ** Reading a double: [atof] *)

Definition hex_val (c : ascii) : option nat :=
  let n := N_of_ascii c in
  if (48 <=? n)%N && (n <=? 57)%N then Some (N.to_nat (n - 48))
  else if (97 <=? n)%N && (n <=? 102)%N then Some (N.to_nat (n - 87))
  else if (65 <=? n)%N && (n <=? 70)%N then Some (N.to_nat (n - 55))
  else None.

(** Reads digits of base [b]: (value, number of digits read, rest). *)
Fixpoint read_digits (dig : ascii → option nat) (b acc : Z) (n : nat) (s : string)
    : Z * nat * string :=
  match s with
  | String c s' =>
      match dig c with
      | Some d => read_digits dig b (acc * b + Z.of_nat d) (S n) s'
      | None => (acc, n, s)
      end
  | EmptyString => (acc, n, s)
  end.

(** A mantissa with an optional point: (value, all digits, digits after the point, rest). *)
Definition read_mantissa (dig : ascii → option nat) (b : Z) (s : string)
    : Z * nat * nat * string :=
  let '(v, n, r) := read_digits dig b 0 0 s in
  match r with
  | String "." r' =>
      let '(v', n', r'') := read_digits dig b v n r' in
      (v', n', (n' - n)%nat, r'')
  | _ => (v, n, 0%nat, r)
  end.

(** An optional exponent introduced by one of the letters of [marks]. *)
Definition read_exponent (marks : string) (s : string) : Z :=
  match s with
  | String c r =>
      if smem c marks then
        match r with
        | String "-" r' => - digits_val 0 r'
        | String "+" r' => digits_val 0 r'
        | _ => digits_val 0 r
        end
      else 0
  | EmptyString => 0
  end.

Definition lower (c : ascii) : ascii :=
  let n := N_of_ascii c in
  if (65 <=? n)%N && (n <=? 90)%N then ascii_of_N (n + 32) else c.

(** Does [s] start with the (lower case) word [w], ignoring case? *)
Fixpoint starts_ci (w s : string) : bool :=
  match w, s with
  | EmptyString, _ => true
  | String a w, String c s => bool_decide (a = lower c) && starts_ci w s
  | _, _ => false
  end.

Definition scale10 (s : bool) (m e : Z) : double :=
  let d := Z.of_nat (slen (pretty m)) in
  if m =? 0 then S754_zero s
  else if 310 <? d + e then S754_infinity s
  else if d + e <? -330 then S754_zero s
  else if 0 <=? e then d_of_ratio s (m * 10 ^ e) 1
  else d_of_ratio s m (10 ^ (- e)).

Definition scale2 (s : bool) (m e : Z) : double :=
  match m with
  | Z.pos p => if 5000 <? e then S754_infinity s
               else if e <? -5000 - 4 * Z.of_nat (slen (pretty m)) then S754_zero s
               else binary_round 53 1024 s p e
  | _ => S754_zero s
  end.

Definition atof_unsigned (s : bool) (t : string) : double :=
  if starts_ci "inf" t then S754_infinity s
  else if starts_ci "nan" t then S754_nan
  else
    let hex :=
      if starts_ci "0x" t then
        let '(v, n, frac, r) := read_mantissa hex_val 16 (sdrop 2 t) in
        if (0 <? n)%nat then Some (scale2 s v (read_exponent "pP" r - 4 * Z.of_nat frac))
        else None
      else None in
    match hex with
    | Some d => d
    | None =>
        let '(v, n, frac, r) := read_mantissa Ascii.is_nat 10 t in
        if (0 <? n)%nat then scale10 s v (read_exponent "eE" r - Z.of_nat frac)
        else S754_zero false
    end.

(** [atof(s)], in the "C" locale. *)
Definition atof (s : string) : double :=
  match skip_space s with
  | String "-" t => atof_unsigned true t
  | String "+" t => atof_unsigned false t
  | t => atof_unsigned false t
  end.

(** ** Printing a double *)

Definition round_half_even (p q : Z) : Z :=
  let n := p / q in
  match 2 * (p mod q) ?= q with
  | Lt => n
  | Gt => n + 1
  | Eq => if Z.even n then n else n + 1
  end.

Definition ratio_of (m : positive) (e : Z) : Z * Z :=
  if 0 <=? e then (Z.pos m * 2 ^ e, 1) else (Z.pos m, 2 ^ (- e)).

Fixpoint zeros (n : nat) : string :=
  match n with O => EmptyString | S n => String "0" (zeros n) end.

Definition pad0 (n : nat) (s : string) : string := zeros (n - slen s) +:+ s.

(** A nonnegative integer in decimal. *)
Definition pN (z : Z) : string := pretty (Z.to_N z).

Definition fmt_fixed6 (p q : Z) : string :=
  let n := round_half_even (p * 10 ^ 6) q in
  pN (n / 10 ^ 6) +:+ "." +:+ pad0 6 (pN (n mod 10 ^ 6)).

Definition sign_str (s : bool) : string := if s then "-" else EmptyString.

(** [printf("%f", d)]. *)
Definition print_f (d : double) : string :=
  match d with
  | S754_nan => "nan"
  | S754_infinity s => sign_str s +:+ "inf"
  | S754_zero s => sign_str s +:+ "0.000000"
  | S754_finite s m e => let '(p, q) := ratio_of m e in sign_str s +:+ fmt_fixed6 p q
  end.

(** [snprintf(buffer, n, ...)] keeps the first [n - 1] characters. *)
Definition snprintf (n : nat) (s : string) : string := stake (n - 1) s.

(** Least [k] in [i, i + fuel) with [p * 10^k >= q]. *)
Fixpoint neg_exp10 (fuel : nat) (k p q : Z) : Z :=
  match fuel with
  | O => k
  | S f => if q <=? p * 10 ^ k then k else neg_exp10 f (k + 1) p q
  end.

(** floor(log10(p / q)) for 0 < p, 0 < q; 400 steps exceed the 324 decimal
    places of the least positive double. *)
Definition exp10 (p q : Z) : Z :=
  if q <=? p then Z.of_nat (slen (pN (p / q))) - 1 else - neg_exp10 400 1 p q.

Fixpoint strip_zeros_rev (l : list ascii) : list ascii :=
  match l with
  | c :: l' => if bool_decide (c = "0"%char) then strip_zeros_rev l' else l
  | [] => []
  end.

(** Drops trailing zeros of a fraction; no point when nothing is left. *)
Definition frac_str (f : string) : string :=
  match rev (strip_zeros_rev (rev (chars f))) with
  | [] => EmptyString
  | l => "." +:+ unchars l
  end.

Definition fmt_g (p q : Z) : string :=
  let x := exp10 p q in
  let n := if x <=? 5 then round_half_even (p * 10 ^ (5 - x)) q
           else round_half_even p (q * 10 ^ (x - 5)) in
  let '(n, x) := if n =? 10 ^ 6 then (10 ^ 5, x + 1) else (n, x) in
  let ds := pN n in
  if (x <? -4) || (5 <? x) then
    stake 1 ds +:+ frac_str (sdrop 1 ds) +:+ "e"
      +:+ (if x <? 0 then "-" else "+") +:+ pad0 2 (pN (Z.abs x))
  else if 0 <=? x then
    stake (Z.to_nat (x + 1)) ds +:+ frac_str (sdrop (Z.to_nat (x + 1)) ds)
  else
    "0" +:+ frac_str (zeros (Z.to_nat (- x - 1)) +:+ ds).

(** [ostream << double] with the default format: [%g]. *)
Definition print_g (d : double) : string :=
  match d with
  | S754_nan => "nan"
  | S754_infinity s => sign_str s +:+ "inf"
  | S754_zero s => sign_str s +:+ "0"
  | S754_finite s m e => let '(p, q) := ratio_of m e in sign_str s +:+ fmt_g p q
  end.

(** ** Facts: decimal integers survive printing and reading *)

Definition is_digit (c : ascii) : Prop := is_Some (Ascii.is_nat c).

#[export] Instance is_digit_dec c : Decision (is_digit c).
Proof. unfold is_digit. apply _. Defined.

Definition digit_headed (s : string) : Prop :=
  match s with String c _ => is_digit c | EmptyString => False end.

Lemma pretty_N_char_digit x : (x < 10)%N → Ascii.is_nat (pretty_N_char x) = Some (N.to_nat x).
Proof.
  intros. assert (x = 0 ∨ x = 1 ∨ x = 2 ∨ x = 3 ∨ x = 4 ∨ x = 5 ∨ x = 6
    ∨ x = 7 ∨ x = 8 ∨ x = 9)%N as Hx by lia.
  repeat destruct Hx as [->|Hx]; try reflexivity. by subst.
Qed.

Lemma pretty_N_go_ind (P : N → string → Prop) (x : N) :
  (∀ s, P 0%N s) →
  (∀ x s, (0 < x)%N → P (x / 10)%N (String (pretty_N_char (x mod 10)) s) → P x s) →
  ∀ s, P x s.
Proof.
  intros H0 HS. induction (N.lt_wf_0 x) as [x _ IH]; intros s.
  destruct (decide (x = 0)%N) as [->|]; [done|].
  apply HS; [lia|]. apply IH. apply N.div_lt; lia.
Qed.

Lemma digits_val_pretty_go x s : digits_val 0 (pretty_N_go x s) = digits_val (Z.of_N x) s.
Proof.
  revert s. apply (pretty_N_go_ind (λ x s, digits_val 0 (pretty_N_go x s) = digits_val (Z.of_N x) s)).
  - done.
  - clear. intros x s Hx IH. rewrite pretty_N_go_step by done. rewrite IH. simpl.
    rewrite pretty_N_char_digit by (apply N.mod_lt; lia).
    f_equal. pose proof (N.div_mod x 10). lia.
Qed.

Lemma slen_pretty_go_bound n x s : (x < 10 ^ N.of_nat n)%N → (slen (pretty_N_go x s) ≤ n + slen s)%nat.
Proof.
  revert x s. induction n as [|n IH]; intros x s Hx.
  - apply N.lt_1_r in Hx as ->. rewrite pretty_N_go_0. lia.
  - destruct (decide (x = 0)%N) as [->|]; [rewrite pretty_N_go_0; lia|].
    rewrite pretty_N_go_step by lia. etrans; [apply IH|unfold slen; simpl; lia].
    apply N.Div0.div_lt_upper_bound. by rewrite Nat2N.inj_succ, N.pow_succ_r' in Hx.
Qed.

Lemma pretty_go_digit_headed x s : (0 < x)%N → digit_headed (pretty_N_go x s).
Proof.
  revert s. apply (pretty_N_go_ind (λ x s, (0 < x)%N → digit_headed (pretty_N_go x s))).
  - lia.
  - clear. intros x s Hx IH _. rewrite pretty_N_go_step by done.
    destruct (decide (x / 10 = 0)%N) as [E|E].
    + rewrite E, pretty_N_go_0. simpl. unfold is_digit.
      rewrite pretty_N_char_digit by (apply N.mod_lt; lia). eauto.
    + apply IH. by apply N.neq_0_lt_0.
Qed.

Lemma pretty_N_digit_headed (x : N) : digit_headed (pretty x).
Proof.
  unfold pretty, pretty_N. case_decide; [by eexists|].
  apply pretty_go_digit_headed. lia.
Qed.

Lemma digits_val_pretty_N (x : N) : digits_val 0 (pretty x) = Z.of_N x.
Proof.
  unfold pretty, pretty_N. case_decide; [by subst|]. by rewrite digits_val_pretty_go.
Qed.

Lemma strtol_digit_headed s : digit_headed s → strtol s = clamp64 (digits_val 0 s).
Proof.
  destruct s as [|c s]; [done|]. simpl. intros Hd. unfold strtol. f_equal.
  destruct c as [[] [] [] [] [] [] [] []]; vm_compute in Hd;
    try (by destruct Hd); reflexivity.
Qed.

Lemma clamp64_int z : in_int z = true → clamp64 z = z.
Proof. rewrite in_int_iff. unfold clamp64. lia. Qed.

(** [atoi] reads back what ["%d"] wrote. *)
Lemma atoi_print_int z : in_int z = true → atoi (print_int z) = z.
Proof.
  intros Hz. unfold atoi, print_int. rewrite <-(wrap32_id z) at 2 by done. f_equal.
  rewrite <-(clamp64_int z) at 2 by done.
  destruct z as [|p|p]; unfold pretty, pretty_Z.
  - reflexivity.
  - rewrite strtol_digit_headed by apply (pretty_N_digit_headed (N.pos p)).
    f_equal. apply (digits_val_pretty_N (N.pos p)).
  - unfold strtol. f_equal.
    change (- digits_val 0 (pretty (N.pos p)) = Z.neg p).
    by rewrite digits_val_pretty_N.
Qed.

(** ** Facts: a 32-bit integer is exactly representable as a double *)

Lemma digits2_pos_iter_xO p k :
  Z.pos (digits2_pos (Pos.iter xO p k)) = Z.pos (digits2_pos p) + Z.pos k.
Proof.
  induction k using Pos.peano_ind; simpl; [lia|].
  rewrite Pos.iter_succ. simpl. lia.
Qed.

Lemma Zpos_iter_xO p k : Z.pos (Pos.iter xO p k) = Z.pos p * 2 ^ Z.pos k.
Proof.
  induction k using Pos.peano_ind; [simpl; lia|].
  rewrite Pos.iter_succ, Pos2Z.inj_succ, Z.pow_succ_r by lia.
  change (Z.pos (Pos.iter xO p k)~0) with (2 * Z.pos (Pos.iter xO p k)). lia.
Qed.

Lemma digits2_pos_bound p n : Z.pos p < 2 ^ n → Z.pos (digits2_pos p) <= n.
Proof.
  revert n. induction p as [p IH|p IH|]; intros n Hn; simpl.
  1,2: assert (0 < n) by (destruct (Z.lt_trichotomy n 0) as [Hl|[->|?]];
      [rewrite Z.pow_neg_r in Hn by done; lia|simpl in Hn; lia|done]);
    assert (2 ^ n = 2 * 2 ^ (n - 1)) as E
      by (replace n with (Z.succ (n - 1)) at 1 by lia; apply Z.pow_succ_r; lia);
    specialize (IH (n - 1)); lia.
  destruct (Z.lt_trichotomy n 0) as [Hl|[->|?]];
    [rewrite Z.pow_neg_r in Hn by done; lia|simpl in Hn; lia|lia].
Qed.

Lemma binary_round_int s p :
  Z.pos p < 2 ^ 52 →
  ∃ k, binary_round 53 1024 s p 0 = S754_finite s (Pos.iter xO p k) (Z.neg k).
Proof.
  intros Hp. pose proof (digits2_pos_bound p 52 Hp) as Hd.
  unfold binary_round, shl_align.
  assert (fexp 53 1024 (Z.pos (digits2_pos p) + 0) = Z.pos (digits2_pos p) - 53) as ->
    by (unfold fexp, emin; lia).
  destruct (Z.pos (digits2_pos p) - 53 - 0) as [|k|k] eqn:Ek; try lia.
  exists k. unfold binary_round_aux, shr_fexp.
  set (m := Pos.iter xO p k). assert (Hm : Z.pos (digits2_pos m) = 53)
    by (subst m; rewrite digits2_pos_iter_xO; lia).
  assert (Hf : fexp 53 1024 (Zdigits2 (Z.pos m) + (Z.pos (digits2_pos p) - 53))
          - (Z.pos (digits2_pos p) - 53) = 0)
    by (simpl Zdigits2; rewrite Hm; unfold fexp, emin; lia).
  rewrite Hf. simpl shr. cbv beta iota zeta. simpl shr_m. simpl loc_of_shr_record.
  simpl round_nearest_even. rewrite Hf. simpl.
  destruct (Z.leb _ _) eqn:El; [|lia]. f_equal. lia.
Qed.

(** [(int)(double) z = z]. *)
Lemma d_to_int_of_Z z : in_int z = true → d_to_int (d_of_Z z) = z.
Proof.
  intros Hz. pose proof (proj1 (in_int_iff z) Hz) as Hr.
  assert (∀ (s : bool) p, z = (if s then Z.neg p else Z.pos p) →
    d_to_int (binary_round 53 1024 s p 0) = z) as Hgen.
  { intros s p ->. destruct (binary_round_int s p) as [k ->]; [destruct s; lia|].
    unfold d_to_int, d_trunc. simpl (0 <=? Z.neg k). cbv iota.
    rewrite Zpos_iter_xO. simpl (- Z.neg k). rewrite Z.div_mul by lia.
    change (0 <=? Z.neg k) with false. cbv iota.
    destruct s; [change (- Z.pos p) with (Z.neg p)|]; by rewrite Hz. }
  unfold d_of_Z, binary_normalize. destruct z as [|p|p]; [done|..].
  - by apply (Hgen false).
  - by apply (Hgen true).
Qed.

(** ** Facts: the characters of printed numbers *)

(** Digits, signs, the point and the letters of [e], [inf] and [nan]. *)
Definition numchar (c : ascii) : bool := smem c "0123456789+-.einfa".
Definition numeric (s : string) : Prop := Forall (λ c, numchar c = true) (chars s).

Lemma numeric_app s t : numeric s → numeric t → numeric (s +:+ t).
Proof. unfold numeric. rewrite chars_app. apply Forall_app_2. Qed.
Lemma numeric_stake n s : numeric s → numeric (stake n s).
Proof. unfold numeric. rewrite chars_stake. apply Forall_take. Qed.
Lemma numeric_sdrop n s : numeric s → numeric (sdrop n s).
Proof. unfold numeric. rewrite chars_sdrop. apply Forall_drop. Qed.
Lemma numeric_zeros n : numeric (zeros n).
Proof. unfold numeric. induction n; simpl; constructor; done. Qed.
Lemma numeric_pad0 n s : numeric s → numeric (pad0 n s).
Proof. intros. apply numeric_app; [apply numeric_zeros|done]. Qed.
Lemma numeric_sign s : numeric (sign_str s).
Proof. destruct s; repeat constructor. Qed.

Lemma pretty_N_char_numchar x : numchar (pretty_N_char x) = true.
Proof. unfold pretty_N_char. by repeat case_match. Qed.

Lemma numeric_pretty_go x s : numeric s → numeric (pretty_N_go x s).
Proof.
  revert s. apply (pretty_N_go_ind (λ x s, numeric s → numeric (pretty_N_go x s))).
  - done.
  - clear. intros x s Hx IH Hs. rewrite pretty_N_go_step by done. apply IH.
    constructor; [apply pretty_N_char_numchar|done].
Qed.

Lemma numeric_pretty_N (x : N) : numeric (pretty x).
Proof.
  unfold pretty, pretty_N. case_decide; [by repeat constructor|].
  apply numeric_pretty_go. constructor.
Qed.

Lemma numeric_pN z : numeric (pN z).
Proof. apply numeric_pretty_N. Qed.

Lemma numeric_print_int z : numeric (print_int z).
Proof.
  destruct z; unfold print_int, pretty, pretty_Z; [by repeat constructor|..].
  - apply (numeric_pretty_N (N.pos p)).
  - apply numeric_app; [by repeat constructor|]. apply (numeric_pretty_N (N.pos p)).
Qed.

Lemma strip_zeros_rev_sub l P : Forall P l → Forall P (strip_zeros_rev l).
Proof. induction l as [|c l IH]; [done|]. intros [? ?]%Forall_cons. simpl.
  case_bool_decide; [auto|by constructor]. Qed.

Lemma numeric_frac_str f : numeric f → numeric (frac_str f).
Proof.
  intros Hf. unfold frac_str.
  assert (Forall (λ c, numchar c = true) (rev (strip_zeros_rev (rev (chars f))))) as H.
  { apply Forall_rev, strip_zeros_rev_sub, Forall_rev, Hf. }
  destruct (rev _); [constructor|]. apply numeric_app; [by repeat constructor|].
  unfold numeric. by rewrite chars_unchars.
Qed.

#[export] Hint Resolve numeric_app numeric_stake numeric_sdrop numeric_zeros numeric_pad0
  numeric_sign numeric_pN numeric_frac_str numeric_print_int : movid.

Ltac solve_numeric :=
  repeat match goal with
  | |- numeric (_ +:+ _) => apply numeric_app
  | |- numeric (String _ _) => by repeat constructor
  | |- numeric EmptyString => by constructor
  | |- numeric (frac_str _) => apply numeric_frac_str
  | |- numeric _ => by auto with movid
  end.

Lemma numeric_print_g d : numeric (print_g d).
Proof.
  assert (∀ s, numeric (sign_str s)) by auto with movid.
  destruct d as [s|s| |s m e]; unfold print_g; [by apply numeric_app; [|repeat constructor]..|
    by repeat constructor|].
  destruct (ratio_of m e) as [p q]. apply numeric_app; [done|]. unfold fmt_g.
  match goal with |- context [let '(_, _) := ?t in _] => destruct t as [n x] end.
  destruct (orb _ _); [destruct (x <? 0)|destruct (0 <=? x)]; solve_numeric.
Qed.

Lemma numeric_print_f d : numeric (print_f d).
Proof.
  assert (∀ s, numeric (sign_str s)) by auto with movid.
  destruct d as [s|s| |s m e]; unfold print_f; [by apply numeric_app; [|repeat constructor]..|
    by repeat constructor|].
  destruct (ratio_of m e) as [p q]. apply numeric_app; [done|]. unfold fmt_fixed6.
  solve_numeric.
Qed.

Lemma numeric_not_mem c s : numeric s → numchar c = false → smem c s = false.
Proof.
  intros Hs Hc. destruct (smem c s) eqn:E; [|done].
  apply smem_elem in E. unfold numeric in Hs. rewrite Forall_forall in Hs.
  apply Hs in E. congruence.
Qed.

(** ** Facts: the order of doubles *)

Lemma d_ltb_trans a b c : d_ltb a b = true → d_ltb b c = true → d_ltb a c = true.
Proof.
  unfold d_ltb, SFltb, SFcompare.
  destruct a as [[]|[]| |[] m1 e1], b as [[]|[]| |[] m2 e2], c as [[]|[]| |[] m3 e3];
    intros; try done.
  all: destruct (Z.compare_spec e1 e2), (Z.compare_spec e2 e3); subst; try done.
  all: try (rewrite Z.compare_refl); try done.
  all: rewrite ?Pos.compare_cont_spec in *.
  all: repeat match goal with
  | H : context [(?a ?= ?b)%positive] |- _ => destruct (Pos.compare_spec a b); subst
  end; try done.
  all: repeat match goal with
  | |- context [(?a ?= ?b)%Z] => destruct (Z.compare_spec a b); try lia
  | |- context [(?a ?= ?b)%positive] => destruct (Pos.compare_spec a b); try lia
  end; try done.
Qed.

Lemma d_ltb_irrefl a : d_ltb a a = false.
Proof.
  unfold d_ltb, SFltb, SFcompare. destruct a as [[]|[]| |[] m e]; try done;
    by rewrite Z.compare_refl, Pos.compare_cont_spec, Pos.compare_refl.
Qed.
