(* ===== verification/Utils.v ===== *)
(** [moUtils] (src/src/moUtils.cpp): splitting strings.

    [tokenize] cuts a string at the first of a set of delimiter characters and
    [inList] looks a word up in a delimited list; the pipeline uses them for
    point lists, GUI feedback, stream types and the [implements] of blobs.
    They are modelled loop by loop with [std::string] positions ([None] is
    [npos]), and shown equal to structural definitions of splitting. *)
From S2P Require Import Prelude.

(** ** [std::string] searches *)

(** Position of the first character satisfying [p]. *)
Fixpoint find_char (p : ascii → bool) (s : string) : option nat :=
  match s with
  | EmptyString => None
  | String c s => if p c then Some 0 else S <$> find_char p s
  end.

Definition find_first_of (d : string) : string → option nat := find_char (λ c, smem c d).
Definition find_first_not_of (d : string) : string → option nat :=
  find_char (λ c, negb (smem c d)).

(** The same searches starting at a position; [npos] finds nothing. *)
Definition search_from (f : string → option nat) (s : string) (pos : option nat) : option nat :=
  pos ≫= λ i, (Nat.add i) <$> f (sdrop i s).

(** [s.substr(pos, len)] with [size_t] arguments that may be [npos]. *)
Definition substr_sz (pos len : option nat) (s : string) : res string :=
  match pos with
  | None => Fault FOutOfRange
  | Some i => substr i (default (slen s) len) s
  end.

(** ** [moUtils::tokenize] *)

(** One fuel unit per turn of the loop; [None] means the fuel ran out. *)
Fixpoint tokenize_loop (fuel : nat) (delimiters client : string) (result : list string)
    : option (res (list string)) :=
  match fuel with
  | O => None
  | S fuel =>
      match client with
      | EmptyString => Some (Ok (result ++ [EmptyString]))
      | _ =>
          match find_first_of delimiters client with
          | Some 0 =>
              match substr (slen delimiters) (slen client) client with
              | Ok client => tokenize_loop fuel delimiters client (result ++ [EmptyString])
              | Fault f => Some (Fault f)
              end
          | None => Some (Ok (result ++ [client]))
          | Some dPos =>
              match substr (dPos + slen delimiters) (slen client) client with
              | Ok client' =>
                  tokenize_loop fuel delimiters client' (result ++ [stake dPos client])
              | Fault f => Some (Fault f)
              end
          end
      end
  end.

(** Every turn of the loop consumes a character, so [slen str + 1] turns are
    enough ([tokenize_loop_terminates]). *)
Definition tokenize (str delimiters : string) : res (list string) :=
  default (Fault FAssert) (tokenize_loop (S (slen str)) delimiters str []).

(** ** [moUtils::inList] *)

Fixpoint inList_loop (fuel : nat) (pattern str delimiters : string) (lastPos pos : option nat)
    : option (res bool) :=
  match fuel with
  | O => None
  | S fuel =>
      match pos, lastPos with
      | None, None => Some (Ok false)
      | _, _ =>
          let len := match pos, lastPos with
                     | Some p, Some l => Some (p - l)
                     | _, _ => None
                     end in
          match substr_sz lastPos len str with
          | Fault f => Some (Fault f)
          | Ok w =>
              if bool_decide (w = pattern) then Some (Ok true)
              else
                let lastPos := search_from (find_first_not_of delimiters) str pos in
                let pos := search_from (find_first_of delimiters) str lastPos in
                inList_loop fuel pattern str delimiters lastPos pos
          end
      end
  end.

Definition inList (pattern str delimiters : string) : res bool :=
  let lastPos := search_from (find_first_not_of delimiters) str (Some 0) in
  let pos := search_from (find_first_of delimiters) str lastPos in
  default (Fault FAssert) (inList_loop (S (S (slen str))) pattern str delimiters lastPos pos).

(** ** Reference definitions *)

(** Fields between the characters of [d]; always at least one field. *)
Fixpoint split_any (d s : string) : list string :=
  match s with
  | EmptyString => [EmptyString]
  | String c s =>
      if smem c d then EmptyString :: split_any d s
      else match split_any d s with
           | f :: fs => String c f :: fs
           | [] => [String c EmptyString]
           end
  end.

Definition split_on (c : ascii) : string → list string := split_any (String c EmptyString).

Fixpoint join (c : ascii) (l : list string) : string :=
  match l with
  | [] => EmptyString
  | [w] => w
  | w :: l => w +:+ String c (join c l)
  end.

(** The nonempty fields: the words of a delimited list. *)
Definition words_of (d s : string) : list string := filter (λ w, w ≠ EmptyString) (split_any d s).

(** [w] contains none of the characters of [d]. *)
Definition avoids (d w : string) : Prop := ∀ c, smem c d = true → smem c w = false.

(** ** Lemmas on searching *)

Lemma find_char_None p s : find_char p s = None ↔ ∀ c, c ∈ chars s → p c = false.
Proof.
  induction s as [|c s IH]; simpl; [split; [by intros _ ? ?%elem_of_nil|done]|].
  setoid_rewrite elem_of_cons. destruct (p c) eqn:E.
  - split; [done|]. intros H. rewrite H in E; [done|by left].
  - rewrite fmap_None, IH. naive_solver.
Qed.

Lemma find_char_Some p s i :
  find_char p s = Some i →
  ∃ c, s = stake i s +:+ String c (sdrop (S i) s) ∧ p c = true ∧ i < slen s
       ∧ ∀ c, c ∈ chars (stake i s) → p c = false.
Proof.
  revert i. induction s as [|c s IH]; intros i; simpl; [done|].
  destruct (p c) eqn:E.
  - intros [= <-]. exists c. split_and!; [done|done|unfold slen; simpl; lia|].
    by intros ? ?%elem_of_nil.
  - intros (j & Hj & ->)%fmap_Some. destruct (IH j Hj) as (c' & Hs & Hc & Hl & Hall).
    exists c'. split_and!; [|done|unfold slen in *; simpl; lia|].
    + rewrite Hs at 1. done.
    + simpl. intros x [->|Hx]%elem_of_cons; auto.
Qed.

Lemma avoids_alt d w : avoids d w ↔ ∀ c, c ∈ chars w → smem c d = false.
Proof.
  unfold avoids. split.
  - intros H c Hc. destruct (smem c d) eqn:E; [|done].
    apply H in E. apply smem_elem in Hc. congruence.
  - intros H c Hd. destruct (smem c w) eqn:E; [|done].
    apply smem_elem, H in E. congruence.
Qed.

Lemma find_first_of_Some d s i :
  find_first_of d s = Some i →
  ∃ c, s = stake i s +:+ String c (sdrop (S i) s) ∧ smem c d = true ∧ i < slen s
       ∧ avoids d (stake i s).
Proof.
  intros (c & H1 & H2 & H3 & H4)%find_char_Some. exists c. split_and!; try done.
  by apply avoids_alt.
Qed.

Lemma find_first_of_None d s : find_first_of d s = None ↔ avoids d s.
Proof. unfold find_first_of. by rewrite find_char_None, avoids_alt. Qed.

(** ** Lemmas on splitting *)

Lemma split_any_nonempty d s : split_any d s ≠ [].
Proof. destruct s as [|c s]; simpl; [done|]. destruct (smem c d); [done|].
  by destruct (split_any d s). Qed.

Lemma split_any_avoids_id d w : avoids d w → split_any d w = [w].
Proof.
  rewrite avoids_alt. induction w as [|c w IH]; intros H; simpl; [done|].
  rewrite H by (simpl; set_solver). rewrite IH; [done|]. intros; apply H; simpl; set_solver.
Qed.

Lemma split_any_cut d w c t :
  avoids d w → smem c d = true → split_any d (w +:+ String c t) = w :: split_any d t.
Proof.
  rewrite avoids_alt. induction w as [|a w IH]; intros H Hc.
  - rewrite sapp_nil_l. simpl. by rewrite Hc.
  - rewrite sapp_cons. simpl. rewrite H by (simpl; set_solver).
    rewrite IH; [done| |done]. intros; apply H; simpl; set_solver.
Qed.

Lemma split_any_avoids d s : Forall (avoids d) (split_any d s).
Proof.
  induction s as [|c s IH]; simpl; [repeat constructor|].
  destruct (smem c d) eqn:E; [constructor; [done|exact IH]|].
  assert (∀ f, avoids d f → avoids d (String c f)) as Hc.
  { intros f Hf x Hx. simpl. rewrite (Hf x Hx). rewrite orb_false_r.
    apply bool_decide_eq_false. intros ->. congruence. }
  destruct (split_any d s) as [|f fs]; [by repeat constructor; apply Hc|].
  apply Forall_cons in IH as [Hf Hfs]. constructor; auto.
Qed.

Lemma smem_single x c : smem x (String c EmptyString) = bool_decide (x = c).
Proof. simpl. apply orb_false_r. Qed.

Lemma join_split_on c s : join c (split_on c s) = s.
Proof.
  unfold split_on. induction s as [|d s IH]; [done|]. cbn [split_any].
  rewrite smem_single.
  destruct (split_any (String c EmptyString) s) as [|f fs] eqn:E; [by apply split_any_nonempty in E|].
  case_bool_decide as H; [subst d; by rewrite <-IH|].
  destruct fs; simpl in *; rewrite ?sapp_cons; by f_equal.
Qed.

Lemma split_on_join c l :
  l ≠ [] → Forall (avoids (String c EmptyString)) l → split_on c (join c l) = l.
Proof.
  intros Hne Hl. unfold split_on. induction l as [|w l IH]; [done|].
  apply Forall_cons in Hl as [Hw Hl]. destruct l as [|v l].
  - simpl. by apply split_any_avoids_id.
  - change (join c (w :: v :: l)) with (w +:+ String c (join c (v :: l))).
    rewrite split_any_cut; [|done|rewrite smem_single; by apply bool_decide_eq_true].
    by rewrite IH.
Qed.

(** ** [tokenize] terminates, and with one delimiter it splits *)

Lemma substr_ok i n s : i ≤ slen s → substr i n s = Ok (stake n (sdrop i s)).
Proof. intros. unfold substr. by rewrite decide_True. Qed.

Lemma stake_all n s : slen s ≤ n → stake n s = s.
Proof. intros. apply chars_inj. rewrite chars_stake. by apply take_ge. Qed.

Lemma substr_tail i s : i ≤ slen s → substr i (slen s) s = Ok (sdrop i s).
Proof. intros. rewrite substr_ok by done. rewrite stake_all; [done|]. rewrite slen_sdrop. lia. Qed.

Lemma tokenize_loop_terminates fuel d s acc :
  slen s < fuel → is_Some (tokenize_loop fuel d s acc).
Proof.
  revert s acc. induction fuel as [|fuel IH]; intros s acc Hf; [lia|]. simpl.
  destruct s as [|c s]; [eauto|].
  destruct (find_first_of d (String c s)) as [i|] eqn:E; [|eauto].
  pose proof (find_first_of_Some _ _ _ E) as (x & Hs & Hx & Hi & Ha).
  assert (0 < slen d) by (destruct d; [done|unfold slen; simpl; lia]).
  assert (∀ n, 0 < n → ∀ acc, is_Some
    match substr n (slen (String c s)) (String c s) with
    | Ok client => tokenize_loop fuel d client acc
    | Fault f => Some (Fault f)
    end) as Hgen.
  { intros n Hn acc'. destruct (decide (n ≤ slen (String c s))).
    - rewrite substr_tail by done. apply IH. rewrite slen_sdrop. unfold slen in *; simpl in *. lia.
    - unfold substr. rewrite decide_False by done. eauto. }
  destruct i; apply Hgen; lia.
Qed.

Lemma tokenize_loop_single c fuel s acc :
  slen s < fuel →
  tokenize_loop fuel (String c EmptyString) s acc = Some (Ok (acc ++ split_on c s)).
Proof.
  set (d := String c EmptyString).
  revert s acc. induction fuel as [|fuel IH]; intros s acc Hf; [lia|]. simpl.
  destruct s as [|x s]; [done|].
  destruct (find_first_of d (String x s)) as [i|] eqn:E.
  - apply find_first_of_Some in E as (y & Hs & Hy & Hi & Ha).
    assert (split_on c (String x s) = stake i (String x s) :: split_on c (sdrop (S i) (String x s)))
      as Hsplit by (unfold split_on; rewrite Hs at 1; by apply split_any_cut).
    assert (slen (String x s) ≤ fuel) by lia.
    destruct i as [|i].
    + change (slen d) with 1. rewrite substr_tail by done.
      rewrite IH by (rewrite slen_sdrop; lia).
      rewrite Hsplit, <-(assoc_L (++)). done.
    + replace (S i + slen d) with (S (S i)) by (unfold d, slen; simpl; lia).
      rewrite substr_tail by lia. rewrite IH by (rewrite slen_sdrop; lia).
      rewrite Hsplit, <-(assoc_L (++)). done.
  - apply find_first_of_None in E. unfold split_on. by rewrite (split_any_avoids_id d).
Qed.

(** With a single delimiter character [tokenize] never throws and returns
    exactly the fields of the string. *)
Lemma tokenize_single s c : tokenize s (String c EmptyString) = Ok (split_on c s).
Proof. unfold tokenize. rewrite tokenize_loop_single by lia. done. Qed.

(** ** [inList] is membership among the words *)

Lemma sdrop_add i j s : sdrop i (sdrop j s) = sdrop (j + i) s.
Proof. apply chars_inj. by rewrite !chars_sdrop, drop_drop. Qed.

Lemma words_of_skip d c s : smem c d = true → words_of d (String c s) = words_of d s.
Proof. intros H. unfold words_of. simpl. by rewrite H. Qed.

Lemma words_of_avoids d w : avoids d w → w ≠ EmptyString → words_of d w = [w].
Proof. intros. unfold words_of. rewrite split_any_avoids_id by done.
  rewrite filter_cons_True by done. done. Qed.

Lemma words_of_cut d w c s :
  avoids d w → w ≠ EmptyString → smem c d = true →
  words_of d (w +:+ String c s) = w :: words_of d s.
Proof. intros. unfold words_of. rewrite split_any_cut by done.
  by rewrite filter_cons_True by done. Qed.

Lemma split_any_app d s c t :
  smem c d = true → split_any d (s +:+ String c t) = split_any d s ++ split_any d t.
Proof.
  intros Hc. induction s as [|x s IH]; [by simpl; rewrite Hc|]. rewrite sapp_cons. simpl.
  rewrite IH. destruct (smem x d); [done|].
  destruct (split_any d s) eqn:E; [by apply split_any_nonempty in E|done].
Qed.

Lemma words_of_app d s c t :
  smem c d = true → words_of d (s +:+ String c t) = words_of d s ++ words_of d t.
Proof. intros. unfold words_of. by rewrite split_any_app, filter_app. Qed.

(** Skipping leading delimiters does not change the words. *)
Lemma words_of_not_of d s :
  words_of d s = match find_first_not_of d s with
                 | None => []
                 | Some i => words_of d (sdrop i s)
                 end.
Proof.
  induction s as [|c s IH]; [done|]. unfold find_first_not_of in *. simpl.
  destruct (smem c d) eqn:E; simpl; [|done].
  rewrite words_of_skip by done. rewrite IH. by destruct (find_char _ s).
Qed.

Lemma find_first_not_of_head d s i :
  find_first_not_of d s = Some i →
  i < slen s ∧ ∃ c t, sdrop i s = String c t ∧ smem c d = false.
Proof.
  intros H. apply find_char_Some in H as (c & Hs & Hc & Hi & _). split; [done|].
  exists c, (sdrop (S i) s). split; [|by apply negb_true_iff].
  apply (f_equal (sdrop i)) in Hs. rewrite Hs. apply chars_inj.
  rewrite chars_sdrop, chars_app, chars_stake, drop_app_length'; [done|].
  rewrite length_take. unfold slen in Hi. lia.
Qed.

Lemma inList_loop_step fuel p s d l pos :
  inList_loop (S fuel) p s d (Some l) pos =
  match substr l (match pos with Some q => q - l | None => slen s end) s with
  | Fault f => Some (Fault f)
  | Ok w =>
      if bool_decide (w = p) then Some (Ok true)
      else let l' := search_from (find_first_not_of d) s pos in
           inList_loop fuel p s d l' (search_from (find_first_of d) s l')
  end.
Proof. by destruct pos. Qed.

(** The first word of a string that starts with one, and what follows it. *)
Lemma words_of_head d r c t :
  r = String c t → smem c d = false →
  words_of d r = match find_first_of d r with
                 | None => [r]
                 | Some j => stake j r :: words_of d (sdrop j r)
                 end.
Proof.
  intros Hr Hc. destruct (find_first_of d r) as [j|] eqn:E.
  - pose proof E as (x & Hs & Hx & Hj & Ha)%find_first_of_Some.
    assert (0 < j).
    { destruct j; [|lia]. rewrite Hr in E. unfold find_first_of in E. simpl in E.
      rewrite Hc in E. by apply fmap_Some in E as (? & ? & ?). }
    assert (stake j r ≠ EmptyString).
    { intros Hn%(f_equal slen). rewrite slen_stake in Hn. unfold slen in *. simpl in *. lia. }
    rewrite Hs at 1. rewrite words_of_cut by done. f_equal.
    rewrite <-(words_of_skip d x) by done. f_equal.
    apply (f_equal (sdrop j)) in Hs. rewrite Hs. apply chars_inj.
    rewrite chars_sdrop, chars_app, chars_stake, drop_app_length'; [done|].
    rewrite length_take. unfold slen in *. lia.
  - apply find_first_of_None in E. apply words_of_avoids; [done|]. by rewrite Hr.
Qed.

Lemma inList_loop_spec fuel p s d i :
  i < slen s → (∃ c t, sdrop i s = String c t ∧ smem c d = false) →
  slen s - i < fuel →
  inList_loop (S fuel) p s d (Some i) (search_from (find_first_of d) s (Some i))
  = Some (Ok (bool_decide (p ∈ words_of d (sdrop i s)))).
Proof.
  revert i. induction fuel as [|fuel IH]; intros i Hi (c & t & Hd & Hc) Hf; [lia|].
  rewrite (words_of_head d _ c t) by done. rewrite inList_loop_step.
  change (search_from (find_first_of d) s (Some i))
    with (Nat.add i <$> find_first_of d (sdrop i s)).
  destruct (find_first_of d (sdrop i s)) as [j|] eqn:E; cbn [fmap option_fmap option_map].
  - assert (0 < j).
    { destruct j; [|lia]. rewrite Hd in E. unfold find_first_of in E. simpl in E.
      rewrite Hc in E. by apply fmap_Some in E as (? & ? & ?). }
    replace (i + j - i) with j by lia. rewrite substr_ok by lia.
    case_bool_decide as Hp.
    { rewrite bool_decide_true; [done|]. rewrite Hp. by left. }
    rewrite sdrop_add, (words_of_not_of d (sdrop (i + j) s)).
    change (search_from (find_first_not_of d) s (Some (i + j)))
      with (Nat.add (i + j) <$> find_first_not_of d (sdrop (i + j) s)).
    destruct (find_first_not_of d (sdrop (i + j) s)) as [k|] eqn:F;
      cbn [fmap option_fmap option_map].
    + apply find_first_not_of_head in F as [Hk Hh]. rewrite slen_sdrop in Hk.
      rewrite sdrop_add in Hh |- *. rewrite IH; [|lia|done|lia]. do 2 f_equal.
      apply bool_decide_ext. rewrite elem_of_cons. naive_solver.
    + destruct fuel; [lia|]. cbn. do 2 f_equal. symmetry. apply bool_decide_eq_false.
      rewrite list_elem_of_singleton. congruence.
  - rewrite substr_ok by lia. rewrite stake_all by (rewrite slen_sdrop; lia).
    case_bool_decide as Hp.
    { rewrite bool_decide_true; [done|]. rewrite Hp. by left. }
    destruct fuel; [lia|]. cbn. do 2 f_equal. symmetry. apply bool_decide_eq_false.
    rewrite list_elem_of_singleton. congruence.
Qed.

(** [inList p s d] is [true] exactly when [p] is one of the nonempty
    [d]-separated words of [s]; it never throws. *)
Lemma inList_words p s d : inList p s d = Ok (bool_decide (p ∈ words_of d s)).
Proof.
  unfold inList. rewrite (words_of_not_of d s).
  change (search_from (find_first_not_of d) s (Some 0))
    with (Nat.add 0 <$> find_first_not_of d s).
  destruct (find_first_not_of d s) as [i|] eqn:E; cbn [fmap option_fmap option_map]; [|done].
  apply find_first_not_of_head in E as [Hi Hh].
  change (Nat.add 0 i) with i. rewrite inList_loop_spec by (done || lia). done.
Qed.

(** The words of a comma-separated list with nonempty comma-free entries are
    its entries. *)
Lemma words_of_join c l :
  Forall (λ w, avoids (String c EmptyString) w ∧ w ≠ EmptyString) l →
  words_of (String c EmptyString) (join c l) = l.
Proof.
  intros H. destruct l as [|w l]; [done|]. unfold words_of.
  change (split_any (String c EmptyString)) with (split_on c).
  rewrite (split_on_join c (w :: l)); [|done|by eapply Forall_impl; [done|]; naive_solver].
  clear -H. induction H as [|v k [_ Hv] _ IH]; [done|].
  rewrite filter_cons_True by done. by f_equal.
Qed.

(** ** Properties *)

(** For every string and every single delimiter
    character, [tokenize] returns normally, none of the tokens contains the
    delimiter, and joining the tokens with it gives the string back. *)
Theorem tokenize_roundtrip (s : string) (c : ascii) :
  ∃ ts, tokenize s (String c EmptyString) = Ok ts
        ∧ Forall (avoids (String c EmptyString)) ts ∧ join c ts = s.
Proof.
  exists (split_on c s). split_and!.
  - apply tokenize_single.
  - apply split_any_avoids.
  - apply join_split_on.
Qed.

(** Conversely, a nonempty list of fields free of the
    delimiter is recovered exactly from its joined text. *)
Theorem tokenize_of_join (c : ascii) (l : list string) :
  l ≠ [] → Forall (avoids (String c EmptyString)) l →
  tokenize (join c l) (String c EmptyString) = Ok l.
Proof. intros. rewrite tokenize_single. f_equal. by apply split_on_join. Qed.

Lemma tokenize_of_join_witness :
  tokenize "down;0.25;0.5" ";" = Ok ["down"; "0.25"; "0.5"].
Proof.
  apply (tokenize_of_join ";" ["down"; "0.25"; "0.5"]); [done|].
  rewrite !Forall_cons, !avoids_alt.
  split_and!; try (intros c Hc; simpl in Hc; set_unfold in Hc; intuition subst; reflexivity).
  constructor.
Defined.

(** Whatever the delimiters, the loop of [tokenize] ends:
    it returns a list or throws [std::out_of_range]. *)
Theorem tokenize_total (s d : string) :
  (∃ ts, tokenize_loop (S (slen s)) d s [] = Some (Ok ts) ∧ tokenize s d = Ok ts)
  ∨ (∃ f, tokenize_loop (S (slen s)) d s [] = Some (Fault f) ∧ tokenize s d = Fault f).
Proof.
  destruct (tokenize_loop_terminates (S (slen s)) d s []) as [[ts|f] E]; [lia|..];
    unfold tokenize; rewrite E; eauto.
Qed.

(** [inList p s d] never throws, ends, and says exactly whether [p]
    is one of the nonempty [d]-separated words of [s]. *)
Theorem inList_correct (p s d : string) :
  inList p s d = Ok (bool_decide (p ∈ words_of d s)).
Proof. apply inList_words. Qed.
