(* ===== verification/Property.v ===== *)
(** [moProperty] (src/src/moProperty.{h,cpp}): the typed, self-converting
    values modules expose and presets store.

    A property keeps a type tag and an untyped pointer to its value; every
    access casts the pointer according to the tag ([CASTEDGET]).  The model
    keeps both, so that a cast at the wrong type is a [FBadAccess] and the tag
    invariant [prop_wf] is something to prove.  Setters convert what they are
    given to the property's own type ([AUTOCONVERT]) and then call the
    registered callbacks in map order; here a setter returns the calls it
    makes, which the owner of the property (Module.v) carries out. *)
From Stdlib Require Import SpecFloat.
From S2P Require Import Prelude StdMap Numeric Utils.

(** ** Data *)

Record moPoint := { pt_x : double; pt_y : double }.
Definition moPointList := list moPoint.

Inductive moPropertyType :=
  | MO_PROPERTY_NONE
  | MO_PROPERTY_BOOL
  | MO_PROPERTY_STRING
  | MO_PROPERTY_INTEGER
  | MO_PROPERTY_DOUBLE
  | MO_PROPERTY_POINTLIST.

(** What [val] points to. *)
Inductive pvalue :=
  | VBool (b : bool)
  | VString (s : string)
  | VInt (z : Z)
  | VDouble (d : double)
  | VPoints (l : moPointList).

#[export] Instance moPoint_eq_dec : EqDecision moPoint.
Proof. solve_decision. Defined.
#[export] Instance moPropertyType_eq_dec : EqDecision moPropertyType.
Proof. solve_decision. Defined.
#[export] Instance pvalue_eq_dec : EqDecision pvalue.
Proof. solve_decision. Defined.

Definition type_of (v : pvalue) : moPropertyType :=
  match v with
  | VBool _ => MO_PROPERTY_BOOL
  | VString _ => MO_PROPERTY_STRING
  | VInt _ => MO_PROPERTY_INTEGER
  | VDouble _ => MO_PROPERTY_DOUBLE
  | VPoints _ => MO_PROPERTY_POINTLIST
  end.

(** [callbacks] maps the address of a function to its user data (the address
    of the module that registered it). *)
Record moProperty := {
  p_type : moPropertyType;
  p_callbacks : smap Z nat;
  p_description : string;
  p_val : option pvalue;
  p_readonly : bool;
  p_have_min : bool;
  p_have_max : bool;
  p_have_choices : bool;
  p_is_text : bool;
  p_val_min : Z;
  p_val_max : Z;
  p_val_choices : string;
}.

(** A callback invocation: function address and user data. *)
Definition call : Type := Z * nat.

Definition with_val (v : option pvalue) (p : moProperty) : moProperty :=
  {| p_type := p_type p; p_callbacks := p_callbacks p; p_description := p_description p;
     p_val := v; p_readonly := p_readonly p; p_have_min := p_have_min p;
     p_have_max := p_have_max p; p_have_choices := p_have_choices p; p_is_text := p_is_text p;
     p_val_min := p_val_min p; p_val_max := p_val_max p; p_val_choices := p_val_choices p |}.

(** ** Conversions *)

Definition convertToBool (type : moPropertyType) (val : pvalue) : res bool :=
  match type with
  | MO_PROPERTY_BOOL => match val with VBool b => Ok b | _ => Fault FBadAccess end
  | MO_PROPERTY_STRING =>
      match val with
      | VString s => Ok (bool_decide (s = "True") || bool_decide (s = "true")
                         || bool_decide (s = "TRUE") || bool_decide (s = "1"))
      | _ => Fault FBadAccess
      end
  | MO_PROPERTY_INTEGER =>
      match val with VInt z => Ok (negb (z =? 0)%Z) | _ => Fault FBadAccess end
  | MO_PROPERTY_DOUBLE =>
      match val with VDouble d => Ok (negb (d_eqb d dzero)) | _ => Fault FBadAccess end
  | MO_PROPERTY_POINTLIST =>
      match val with VPoints l => Ok (0 <? length l) | _ => Fault FBadAccess end
  | MO_PROPERTY_NONE => Fault FAssert
  end.

Fixpoint print_points (l : moPointList) : string :=
  match l with
  | [] => EmptyString
  | p :: l => print_g (pt_x p) +:+ "," +:+ print_g (pt_y p) +:+ ";" +:+ print_points l
  end.

Definition convertToString (type : moPropertyType) (val : pvalue) : res string :=
  match type with
  | MO_PROPERTY_STRING => match val with VString s => Ok s | _ => Fault FBadAccess end
  | MO_PROPERTY_BOOL =>
      match val with VBool b => Ok (if b then "true" else "false") | _ => Fault FBadAccess end
  | MO_PROPERTY_INTEGER =>
      match val with VInt z => Ok (snprintf 64 (print_int z)) | _ => Fault FBadAccess end
  | MO_PROPERTY_DOUBLE =>
      match val with VDouble d => Ok (snprintf 64 (print_f d)) | _ => Fault FBadAccess end
  | MO_PROPERTY_POINTLIST =>
      match val with VPoints l => Ok (print_points l) | _ => Fault FBadAccess end
  | MO_PROPERTY_NONE => Fault FAssert
  end.

Definition convertToDouble (type : moPropertyType) (val : pvalue) : res double :=
  match type with
  | MO_PROPERTY_STRING => match val with VString s => Ok (atof s) | _ => Fault FBadAccess end
  | MO_PROPERTY_BOOL =>
      match val with VBool b => Ok (if b then d_of_Z 1 else dzero) | _ => Fault FBadAccess end
  | MO_PROPERTY_INTEGER => match val with VInt z => Ok (d_of_Z z) | _ => Fault FBadAccess end
  | MO_PROPERTY_DOUBLE => match val with VDouble d => Ok d | _ => Fault FBadAccess end
  | MO_PROPERTY_POINTLIST | MO_PROPERTY_NONE => Fault FAssert
  end.

Definition convertToInteger (type : moPropertyType) (val : pvalue) : res Z :=
  match type with
  | MO_PROPERTY_STRING => match val with VString s => Ok (atoi s) | _ => Fault FBadAccess end
  | MO_PROPERTY_BOOL =>
      match val with VBool b => Ok (if b then 1 else 0)%Z | _ => Fault FBadAccess end
  | MO_PROPERTY_INTEGER => match val with VInt z => Ok z | _ => Fault FBadAccess end
  | MO_PROPERTY_DOUBLE => match val with VDouble d => Ok (d_to_int d) | _ => Fault FBadAccess end
  | MO_PROPERTY_POINTLIST =>
      match val with VPoints l => Ok (wrap32 (Z.of_nat (length l))) | _ => Fault FBadAccess end
  | MO_PROPERTY_NONE => Fault FAssert
  end.

(** The loop over the [;]-separated items: an item that is not a pair is
    forgotten. *)
Fixpoint parse_points (items : list string) : res moPointList :=
  match items with
  | [] => Ok []
  | item :: items =>
      point ← tokenize item ",";
      rest ← parse_points items;
      match point with
      | [x; y] => Ok ({| pt_x := atof x; pt_y := atof y |} :: rest)
      | _ => Ok rest
      end
  end.

Definition convertToPointList (type : moPropertyType) (val : pvalue) : res moPointList :=
  match type with
  | MO_PROPERTY_STRING =>
      match val with
      | VString s => points ← tokenize s ";"; parse_points points
      | _ => Fault FBadAccess
      end
  | MO_PROPERTY_POINTLIST => match val with VPoints l => Ok l | _ => Fault FBadAccess end
  | _ => Ok []
  end.

(** ** Construction *)

Definition setDescription (description : string) (p : moProperty) : moProperty :=
  {| p_type := p_type p; p_callbacks := p_callbacks p; p_description := description;
     p_val := p_val p; p_readonly := p_readonly p; p_have_min := p_have_min p;
     p_have_max := p_have_max p; p_have_choices := p_have_choices p; p_is_text := p_is_text p;
     p_val_min := p_val_min p; p_val_max := p_val_max p; p_val_choices := p_val_choices p |}.

(** [moProperty::init]; the type tag is set by the constructor afterwards. *)
Definition prop_init (description : string) : moProperty :=
  setDescription description
    {| p_type := MO_PROPERTY_NONE; p_callbacks := []; p_description := EmptyString;
       p_val := None; p_readonly := false; p_have_min := false; p_have_max := false;
       p_have_choices := false; p_is_text := false; p_val_min := 0; p_val_max := 0;
       p_val_choices := EmptyString |}.

(** The constructors' first three statements: init, the tag, a
    default-constructed value. *)
Definition alloc (type : moPropertyType) (blank : pvalue) (description : string) : moProperty :=
  let p := with_val (Some blank) (prop_init description) in
  {| p_type := type; p_callbacks := p_callbacks p; p_description := p_description p;
     p_val := p_val p; p_readonly := p_readonly p; p_have_min := p_have_min p;
     p_have_max := p_have_max p; p_have_choices := p_have_choices p; p_is_text := p_is_text p;
     p_val_min := p_val_min p; p_val_max := p_val_max p; p_val_choices := p_val_choices p |}.

(** ** Setting *)

Definition isReadOnly (p : moProperty) : bool := p_readonly p.

(** The [AUTOCONVERT] macro: store the converted value. *)
Definition autoconvert (typein : moPropertyType) (value : pvalue) (p : moProperty)
    : res moProperty :=
  match p_type p with
  | MO_PROPERTY_BOOL => b ← convertToBool typein value; Ok (with_val (Some (VBool b)) p)
  | MO_PROPERTY_STRING => s ← convertToString typein value; Ok (with_val (Some (VString s)) p)
  | MO_PROPERTY_INTEGER => z ← convertToInteger typein value; Ok (with_val (Some (VInt z)) p)
  | MO_PROPERTY_DOUBLE => d ← convertToDouble typein value; Ok (with_val (Some (VDouble d)) p)
  | MO_PROPERTY_POINTLIST =>
      l ← convertToPointList typein value; Ok (with_val (Some (VPoints l)) p)
  | MO_PROPERTY_NONE => Ok p
  end.

(** [fireCallback]: every registered function, in map order. *)
Definition fireCallback (p : moProperty) : list call := p_callbacks p.

(** The body shared by the six overloads of [set]. *)
Definition set_value (typein : moPropertyType) (value : pvalue) (p : moProperty)
    : res (moProperty * list call) :=
  if isReadOnly p then Ok (p, [])
  else p ← autoconvert typein value p; Ok (p, fireCallback p).

Definition set_bool (value : bool) := set_value MO_PROPERTY_BOOL (VBool value).
Definition set_string (value : string) := set_value MO_PROPERTY_STRING (VString value).
Definition set_cstr (value : string) := set_value MO_PROPERTY_STRING (VString value).
Definition set_int (value : Z) := set_value MO_PROPERTY_INTEGER (VInt value).
Definition set_double (value : double) := set_value MO_PROPERTY_DOUBLE (VDouble value).
Definition set_points (value : moPointList) := set_value MO_PROPERTY_POINTLIST (VPoints value).

(** The constructors: a fresh property has no callback, so [set] calls none. *)
Definition new_bool (value : bool) (description : string) : res moProperty :=
  fst <$> set_bool value (alloc MO_PROPERTY_BOOL (VBool false) description).
Definition new_cstr (value description : string) : res moProperty :=
  fst <$> set_cstr value (alloc MO_PROPERTY_STRING (VString EmptyString) description).
Definition new_string (value description : string) : res moProperty :=
  fst <$> set_string value (alloc MO_PROPERTY_STRING (VString EmptyString) description).
Definition new_int (value : Z) (description : string) : res moProperty :=
  fst <$> set_int value (alloc MO_PROPERTY_INTEGER (VInt 0) description).
Definition new_double (value : double) (description : string) : res moProperty :=
  fst <$> set_double value (alloc MO_PROPERTY_DOUBLE (VDouble dzero) description).
Definition new_points (value : moPointList) (description : string) : res moProperty :=
  fst <$> set_points value (alloc MO_PROPERTY_POINTLIST (VPoints []) description).

(** ** Reading *)

Definition getType (p : moProperty) : moPropertyType := p_type p.
Definition asBool (p : moProperty) : res bool := v ← deref (p_val p); convertToBool (p_type p) v.
Definition asString (p : moProperty) : res string :=
  v ← deref (p_val p); convertToString (p_type p) v.
Definition asDouble (p : moProperty) : res double :=
  v ← deref (p_val p); convertToDouble (p_type p) v.
Definition asInteger (p : moProperty) : res Z :=
  v ← deref (p_val p); convertToInteger (p_type p) v.
Definition asPointList (p : moProperty) : res moPointList :=
  v ← deref (p_val p); convertToPointList (p_type p) v.

(** [moProperty::free]: which allocation is released, and the null pointer
    left behind.  There is no case for a point list. *)
Definition free (p : moProperty) : moProperty * option pvalue :=
  match p_val p with
  | None => (p, None)
  | Some v =>
      (with_val None p,
       match p_type p with
       | MO_PROPERTY_STRING | MO_PROPERTY_BOOL | MO_PROPERTY_INTEGER | MO_PROPERTY_DOUBLE => Some v
       | _ => None
       end)
  end.

Definition getPropertyTypeName (type : moPropertyType) : string :=
  match type with
  | MO_PROPERTY_DOUBLE => "double"
  | MO_PROPERTY_INTEGER => "integer"
  | MO_PROPERTY_STRING => "string"
  | MO_PROPERTY_BOOL => "bool"
  | MO_PROPERTY_POINTLIST => "pointlist"
  | MO_PROPERTY_NONE => "unknown"
  end.

(** [ostream << moProperty].  A point list has no [operator<<] of its own, so
    [o << f->asPointList()] converts it back to a temporary [moProperty] and
    calls this operator again; [None] is fuel exhausted. *)
Fixpoint operator_out (fuel : nat) (p : moProperty) : option (res string) :=
  match fuel with
  | O => None
  | S fuel =>
      match getType p with
      | MO_PROPERTY_STRING => Some (asString p)
      | MO_PROPERTY_BOOL => Some (b ← asBool p; Ok (if b : bool then "1" else "0"))
      | MO_PROPERTY_INTEGER => Some (z ← asInteger p; Ok (print_int z))
      | MO_PROPERTY_DOUBLE => Some (d ← asDouble p; Ok (print_g d))
      | MO_PROPERTY_POINTLIST =>
          match asPointList p ≫= λ l, new_points l EmptyString with
          | Ok q => operator_out fuel q
          | Fault f => Some (Fault f)
          end
      | MO_PROPERTY_NONE => Some (Ok EmptyString)
      end
  end.

(** ** Attributes *)

Definition getDescription (p : moProperty) : string := p_description p.
Definition haveMin (p : moProperty) : bool := p_have_min p.
Definition haveMax (p : moProperty) : bool := p_have_max p.
Definition haveChoices (p : moProperty) : bool := p_have_choices p.
Definition getMin (p : moProperty) : Z := p_val_min p.
Definition getMax (p : moProperty) : Z := p_val_max p.
Definition getChoices (p : moProperty) : string := p_val_choices p.
Definition isText (p : moProperty) : bool := p_is_text p.

Definition setReadOnly (ro : bool) (p : moProperty) : moProperty :=
  {| p_type := p_type p; p_callbacks := p_callbacks p; p_description := p_description p;
     p_val := p_val p; p_readonly := ro; p_have_min := p_have_min p;
     p_have_max := p_have_max p; p_have_choices := p_have_choices p; p_is_text := p_is_text p;
     p_val_min := p_val_min p; p_val_max := p_val_max p; p_val_choices := p_val_choices p |}.

Definition setMin (val : Z) (p : moProperty) : moProperty :=
  {| p_type := p_type p; p_callbacks := p_callbacks p; p_description := p_description p;
     p_val := p_val p; p_readonly := p_readonly p; p_have_min := true;
     p_have_max := p_have_max p; p_have_choices := p_have_choices p; p_is_text := p_is_text p;
     p_val_min := val; p_val_max := p_val_max p; p_val_choices := p_val_choices p |}.

Definition setMax (val : Z) (p : moProperty) : moProperty :=
  {| p_type := p_type p; p_callbacks := p_callbacks p; p_description := p_description p;
     p_val := p_val p; p_readonly := p_readonly p; p_have_min := p_have_min p;
     p_have_max := true; p_have_choices := p_have_choices p; p_is_text := p_is_text p;
     p_val_min := p_val_min p; p_val_max := val; p_val_choices := p_val_choices p |}.

Definition setChoices (val : string) (p : moProperty) : moProperty :=
  {| p_type := p_type p; p_callbacks := p_callbacks p; p_description := p_description p;
     p_val := p_val p; p_readonly := p_readonly p; p_have_min := p_have_min p;
     p_have_max := p_have_max p; p_have_choices := true; p_is_text := p_is_text p;
     p_val_min := p_val_min p; p_val_max := p_val_max p; p_val_choices := val |}.

Definition setText (is_text : bool) (p : moProperty) : moProperty :=
  {| p_type := p_type p; p_callbacks := p_callbacks p; p_description := p_description p;
     p_val := p_val p; p_readonly := p_readonly p; p_have_min := p_have_min p;
     p_have_max := p_have_max p; p_have_choices := p_have_choices p; p_is_text := is_text;
     p_val_min := p_val_min p; p_val_max := p_val_max p; p_val_choices := p_val_choices p |}.

Definition with_callbacks (cbs : smap Z nat) (p : moProperty) : moProperty :=
  {| p_type := p_type p; p_callbacks := cbs; p_description := p_description p;
     p_val := p_val p; p_readonly := p_readonly p; p_have_min := p_have_min p;
     p_have_max := p_have_max p; p_have_choices := p_have_choices p; p_is_text := p_is_text p;
     p_val_min := p_val_min p; p_val_max := p_val_max p; p_val_choices := p_val_choices p |}.

(** Asserts that the function is not registered yet. *)
Definition addCallback (callback : Z) (userdata : nat) (p : moProperty) : res moProperty :=
  assert_ (bool_decide (find callback (p_callbacks p) = None));;
  Ok (with_callbacks (insert callback userdata (p_callbacks p)) p).

Definition removeCallback (callback : Z) (p : moProperty) : moProperty :=
  with_callbacks (erase callback (p_callbacks p)) p.

(** ** Invariant *)

Definition val_ok (v : pvalue) : Prop :=
  match v with VInt z => in_int z = true | _ => True end.

(** The pointer is allocated, its content has the type the tag announces, an
    [int] is in range, and the callback table is a proper map. *)
Definition prop_wf (p : moProperty) : Prop :=
  (∃ v, p_val p = Some v ∧ type_of v = p_type p ∧ val_ok v) ∧ ordered (p_callbacks p).

Lemma d_to_int_range d : in_int (d_to_int d) = true.
Proof. destruct d; simpl; try done. by destruct (in_int (d_trunc s m e)) eqn:E. Qed.

Lemma in_int_wrap z : in_int (wrap32 z) = true.
Proof. apply wrap32_range. Qed.

Lemma convertToInteger_range t v z :
  type_of v = t → val_ok v → convertToInteger t v = Ok z → in_int z = true.
Proof.
  intros <- Hv. destruct v; simpl; intros [= <-].
  - by destruct b.
  - apply in_int_wrap.
  - exact Hv.
  - apply d_to_int_range.
  - apply in_int_wrap.
Qed.

Lemma parse_points_total l : ∃ ps, parse_points l = Ok ps.
Proof.
  induction l as [|w l [ps IH]]; simpl; [eauto|].
  change (tokenize w ",") with (tokenize w (String "," EmptyString)).
  rewrite tokenize_single, IH. simpl. repeat case_match; eauto.
Qed.

Lemma convertToPointList_total v : ∃ l, convertToPointList (type_of v) v = Ok l.
Proof.
  destruct v; simpl; eauto.
  change (tokenize s ";") with (tokenize s (String ";" EmptyString)).
  rewrite tokenize_single. simpl. apply parse_points_total.
Qed.

Ltac stored := try done; simpl; eexists; split_and!; [reflexivity|reflexivity|done].

(** Storing succeeds for every pair of types but one: a point list into a
    [double], where [convertToDouble] reaches its [assert(0)]. *)
Lemma autoconvert_spec v p :
  prop_wf p → val_ok v →
  (p_type p = MO_PROPERTY_DOUBLE ∧ type_of v = MO_PROPERTY_POINTLIST
     ∧ autoconvert (type_of v) v p = Fault FAssert)
  ∨ (¬ (p_type p = MO_PROPERTY_DOUBLE ∧ type_of v = MO_PROPERTY_POINTLIST)
     ∧ ∃ w, autoconvert (type_of v) v p = Ok (with_val (Some w) p)
            ∧ type_of w = p_type p ∧ val_ok w).
Proof.
  intros [(v0 & Hp & Ht & Hv0) _] Hv. unfold autoconvert.
  destruct (p_type p) eqn:E.
  - by destruct v0.
  - right. split; [naive_solver|]. destruct v; stored.
  - right. split; [naive_solver|]. destruct v; stored.
  - right. split; [naive_solver|].
    destruct (convertToInteger (type_of v) v) as [z|] eqn:F; [|by destruct v].
    apply convertToInteger_range in F; [|done|done]. stored.
  - destruct v; simpl; [right; split; [naive_solver|]; stored..|left; done].
  - right. split; [naive_solver|]. destruct (convertToPointList_total v) as [l ->]. stored.
Qed.

Lemma with_val_wf v p : prop_wf p → type_of v = p_type p → val_ok v → prop_wf (with_val (Some v) p).
Proof. intros [_ Ho] Ht Hv. split; [|done]. simpl. eauto. Qed.

Lemma set_value_cases v p :
  prop_wf p → val_ok v →
  match set_value (type_of v) v p with
  | Fault f => f = FAssert ∧ isReadOnly p = false
               ∧ p_type p = MO_PROPERTY_DOUBLE ∧ type_of v = MO_PROPERTY_POINTLIST
  | Ok (p', calls) =>
      if isReadOnly p then p' = p ∧ calls = []
      else calls = p_callbacks p
           ∧ ∃ w, p' = with_val (Some w) p ∧ type_of w = p_type p ∧ val_ok w
  end.
Proof.
  intros Hp Hv. unfold set_value. destruct (isReadOnly p) eqn:E; [done|].
  destruct (autoconvert_spec v p Hp Hv) as [(H1 & H2 & ->)|(_ & w & -> & Ht & Hw)]; [done|].
  simpl. split; [done|]. eauto.
Qed.

Lemma set_value_wf v p p' calls :
  prop_wf p → val_ok v → set_value (type_of v) v p = Ok (p', calls) → prop_wf p'.
Proof.
  intros Hp Hv Hs. pose proof (set_value_cases v p Hp Hv) as H. rewrite Hs in H.
  destruct (isReadOnly p); [by destruct H as [-> _]|].
  destruct H as (_ & w & -> & Ht & Hw). by apply with_val_wf.
Qed.

Lemma alloc_wf v d : val_ok v → prop_wf (alloc (type_of v) v d).
Proof. intros. split; [simpl; eauto|apply ordered_nil]. Qed.

(** A decimal [int] fits the 64-byte buffer of [convertToString]. *)
Lemma slen_pretty_pos (p : positive) : (Z.pos p < 10 ^ 11)%Z → slen (pretty p) ≤ 11.
Proof.
  intros H. change (pretty p) with (pretty (N.pos p)).
  unfold pretty, pretty_N. rewrite decide_False by done.
  etrans; [apply (slen_pretty_go_bound 11)|unfold slen; simpl; lia].
  simpl. lia.
Qed.

Lemma snprintf_print_int z : in_int z = true → snprintf 64 (print_int z) = print_int z.
Proof.
  rewrite in_int_iff. intros Hz. unfold snprintf. apply stake_all.
  destruct z as [|p|p].
  - unfold slen; simpl; lia.
  - change (print_int (Z.pos p)) with (pretty p).
    assert (slen (pretty p) ≤ 11) by (apply slen_pretty_pos; lia). lia.
  - change (print_int (Z.neg p)) with ("-" +:+ pretty p).
    rewrite slen_app. change (slen "-") with 1.
    assert (slen (pretty p) ≤ 11) by (apply slen_pretty_pos; lia). lia.
Qed.

(** Reading the printed form of a value back at the same type. *)
Lemma autoconvert_asString p s :
  prop_wf p → asString p = Ok s →
  p_type p ∈ [MO_PROPERTY_BOOL; MO_PROPERTY_STRING; MO_PROPERTY_INTEGER] →
  autoconvert MO_PROPERTY_STRING (VString s) p = Ok p.
Proof.
  intros [(v & Hp & Ht & Hv) _] Hs Hin. unfold asString in Hs. rewrite Hp, <-Ht in Hs. simpl in Hs.
  assert (Hself : with_val (Some v) p = p) by (destruct p; simpl in *; by subst).
  unfold autoconvert. rewrite <-Ht in *.
  destruct v as [b|w|z|d|l]; simpl in *; try (exfalso; set_solver).
  - injection Hs as <-. rewrite <-Hself at 2. by destruct b.
  - injection Hs as <-. by rewrite Hself.
  - injection Hs as <-. rewrite snprintf_print_int, atoi_print_int by done. by rewrite Hself.
Qed.

(** ** Properties *)

(** A setter called on a well-formed property with a
    value of the overload's type keeps the property well formed and of the
    same type, changes nothing but the value, runs all the registered
    callbacks exactly when the property is not read-only, and aborts only in
    one case: a point list stored into a writable [double]. *)
Theorem set_value_invariant (v : pvalue) (p : moProperty) :
  prop_wf p → val_ok v →
  match set_value (type_of v) v p with
  | Ok (p', calls) =>
      prop_wf p' ∧ p_type p' = p_type p ∧ p' = with_val (p_val p') p
      ∧ calls = (if isReadOnly p then [] else p_callbacks p)
      ∧ (isReadOnly p = true → p' = p)
  | Fault f =>
      f = FAssert ∧ isReadOnly p = false
      ∧ p_type p = MO_PROPERTY_DOUBLE ∧ type_of v = MO_PROPERTY_POINTLIST
  end.
Proof.
  intros Hp Hv. pose proof (set_value_cases v p Hp Hv) as H.
  pose proof (set_value_wf v p) as Hwf.
  destruct (set_value (type_of v) v p) as [[p' calls]|f]; [|done].
  specialize (Hwf p' calls Hp Hv eq_refl).
  destruct (isReadOnly p); [destruct H as [-> ->]; by destruct p|].
  destruct H as (-> & w & -> & Ht & Hw). done.
Qed.

Definition sample_int : moProperty := alloc MO_PROPERTY_INTEGER (VInt 7) "size".

Lemma set_value_invariant_witness :
  prop_wf sample_int ∧
  match set_value MO_PROPERTY_STRING (VString "12") sample_int with
  | Ok (p', calls) =>
      prop_wf p' ∧ p_type p' = p_type sample_int ∧ p' = with_val (p_val p') sample_int
      ∧ calls = [] ∧ (false = true → p' = sample_int)
  | Fault f => f = FAssert ∧ false = false ∧ p_type sample_int = MO_PROPERTY_DOUBLE
               ∧ MO_PROPERTY_STRING = MO_PROPERTY_POINTLIST
  end.
Proof.
  assert (H : prop_wf sample_int).
  { split; [exists (VInt 7); split_and!; reflexivity|constructor]. }
  split; [exact H|]. exact (set_value_invariant (VString "12") sample_int H I).
Defined.

(** Reading a well-formed property never fails, whatever
    the requested type, except [asDouble] of a point list, which aborts. *)
Theorem read_total (p : moProperty) :
  prop_wf p →
  is_ok (asBool p) = true ∧ is_ok (asString p) = true ∧ is_ok (asInteger p) = true
  ∧ is_ok (asPointList p) = true
  ∧ is_ok (asDouble p) = negb (bool_decide (p_type p = MO_PROPERTY_POINTLIST))
  ∧ (∀ z, asInteger p = Ok z → in_int z = true).
Proof.
  intros [(v & Hp & Ht & Hv) _].
  unfold asBool, asString, asInteger, asPointList, asDouble. rewrite Hp, <-Ht. simpl.
  split_and!; try (by destruct v).
  - by destruct (convertToPointList_total v) as [l ->].
  - intros z. by apply convertToInteger_range.
Qed.

Lemma read_total_witness :
  is_ok (asString sample_int) = true ∧ asInteger sample_int = Ok 7%Z.
Proof.
  assert (H : prop_wf sample_int).
  { split; [exists (VInt 7); split_and!; reflexivity|constructor]. }
  split; [exact (proj1 (proj2 (read_total sample_int H)))|reflexivity].
Defined.

(** For a writable boolean, string or integer
    property, setting the property to its own [asString] leaves it unchanged;
    this is why such properties survive being written to a preset and parsed
    again. *)
Theorem string_roundtrip (p : moProperty) (s : string) :
  prop_wf p → isReadOnly p = false →
  p_type p ∈ [MO_PROPERTY_BOOL; MO_PROPERTY_STRING; MO_PROPERTY_INTEGER] →
  asString p = Ok s → set_string s p = Ok (p, p_callbacks p).
Proof.
  intros Hp Hr Hin Hs. unfold set_string, set_value. rewrite Hr.
  by rewrite (autoconvert_asString p s).
Qed.

Lemma string_roundtrip_witness :
  asString sample_int = Ok "7" ∧ set_string "7" sample_int = Ok (sample_int, []).
Proof.
  split; [reflexivity|]. apply (string_roundtrip sample_int "7").
  - split; [exists (VInt 7); split_and!; reflexivity|constructor].
  - reflexivity.
  - simpl. set_solver.
  - reflexivity.
Defined.

(** A [double] does not have this property: ["%f"] keeps six decimals. *)
Example double_string_lossy :
  asString (alloc MO_PROPERTY_DOUBLE (VDouble (atof "0.1234567")) EmptyString) = Ok "0.123457"
  ∧ bool_decide (atof "0.123457" = atof "0.1234567") = false.
Proof. split; vm_compute; reflexivity. Qed.

(** Printed coordinates contain neither separator. *)
Lemma print_g_avoids d c : numchar c = false → avoids (String c EmptyString) (print_g d).
Proof.
  intros Hc x Hx. rewrite smem_single in Hx. apply bool_decide_eq_true in Hx as ->.
  by apply numeric_not_mem; [apply numeric_print_g|].
Qed.

Lemma avoids_app d v w : avoids d v → avoids d w → avoids d (v +:+ w).
Proof. intros Hv Hw c Hc. by rewrite smem_app, (Hv c Hc), (Hw c Hc). Qed.

Lemma avoids_single_lit c x : x ≠ c → avoids (String c EmptyString) (String x EmptyString).
Proof.
  intros Hne y Hy. rewrite smem_single in *. apply bool_decide_eq_true in Hy as ->.
  apply bool_decide_eq_false. congruence.
Qed.

(** One printed point, as [tokenize] sees it. *)
Definition print_point (p : moPoint) : string := print_g (pt_x p) +:+ "," +:+ print_g (pt_y p).

Lemma print_point_semicolon p : avoids ";" (print_point p).
Proof.
  unfold print_point. apply avoids_app; [by apply print_g_avoids|].
  apply avoids_app; [by apply avoids_single_lit|by apply print_g_avoids].
Qed.

Lemma split_print_point p :
  split_on "," (print_point p) = [print_g (pt_x p); print_g (pt_y p)].
Proof.
  apply (split_on_join "," [print_g (pt_x p); print_g (pt_y p)]); [done|].
  rewrite !Forall_cons. split_and!; try by apply print_g_avoids. constructor.
Qed.

Lemma split_print_points l :
  split_on ";" (print_points l) = (print_point <$> l) ++ [EmptyString].
Proof.
  induction l as [|p l IH]; [done|].
  assert (print_points (p :: l) = print_point p +:+ String ";" (print_points l)) as ->
    by (unfold print_point; simpl print_points; by rewrite <-!sapp_assoc).
  unfold split_on. rewrite split_any_cut; [|apply print_point_semicolon|done].
  simpl. by f_equal.
Qed.

Lemma parse_print_points l :
  parse_points ((print_point <$> l) ++ [EmptyString])
  = Ok ((λ p, {| pt_x := atof (print_g (pt_x p)); pt_y := atof (print_g (pt_y p)) |}) <$> l).
Proof.
  induction l as [|p l IH]; [reflexivity|]. rewrite !fmap_cons. cbn [app parse_points].
  change (tokenize (print_point p) ",") with (tokenize (print_point p) (String "," EmptyString)).
  rewrite tokenize_single, split_print_point. cbn [mbind res_bind]. by rewrite IH.
Qed.

(** A point list written by [asString] is read back
    by [convertToPointList] as a list of the same length, in the same order,
    each coordinate being the one the six printed digits denote. *)
Theorem pointlist_roundtrip (l : moPointList) :
  ∃ s, convertToString MO_PROPERTY_POINTLIST (VPoints l) = Ok s
       ∧ convertToPointList MO_PROPERTY_STRING (VString s)
         = Ok ((λ p, {| pt_x := atof (print_g (pt_x p));
                        pt_y := atof (print_g (pt_y p)) |}) <$> l).
Proof.
  exists (print_points l). split; [done|]. simpl.
  change (tokenize (print_points l) ";") with (tokenize (print_points l) (String ";" EmptyString)).
  rewrite tokenize_single, split_print_points. apply parse_print_points.
Qed.

(** Streaming a point list property with [<<] never
    ends: no number of nested calls produces an output, since the operator
    converts the list to a temporary property and calls itself on it. *)
Theorem operator_out_pointlist_diverges (fuel : nat) (l : moPointList) (d : string) :
  operator_out fuel (alloc MO_PROPERTY_POINTLIST (VPoints l) d) = None.
Proof.
  revert l d. induction fuel as [|fuel IH]; intros l d; [done|].
  exact (IH l EmptyString).
Qed.

(** Registering a callback that is not registered
    succeeds, makes [set] call it with its user data, and removing it restores
    the property; registering it twice aborts. *)
Theorem callback_add_remove (p : moProperty) (cb : Z) (userdata : nat) :
  prop_wf p → find cb (p_callbacks p) = None →
  ∃ q, addCallback cb userdata p = Ok q
       ∧ find cb (fireCallback q) = Some userdata
       ∧ (∀ cb', cb' ≠ cb → find cb' (fireCallback q) = find cb' (fireCallback p))
       ∧ removeCallback cb q = p
       ∧ addCallback cb userdata q = Fault FAssert.
Proof.
  intros [_ Ho] Hn. unfold addCallback. rewrite Hn. rewrite bool_decide_true by done. simpl.
  eexists. split; [reflexivity|]. simpl. split_and!.
  - apply find_insert_eq.
  - intros. by apply find_insert_ne.
  - unfold removeCallback. simpl. replace (erase cb _) with (p_callbacks p).
    { by destruct p. }
    apply ordered_ext; [done|auto with movid|]. intros k.
    destruct (decide (cb = k)) as [<-|Hne].
    + by rewrite find_erase_eq by auto with movid.
    + by rewrite find_erase_ne, find_insert_ne.
  - rewrite find_insert_eq. by rewrite bool_decide_false.
Qed.

Lemma callback_add_remove_witness :
  ∃ q, addCallback 5 1 sample_int = Ok q
       ∧ find 5%Z (fireCallback q) = Some 1
       ∧ (∀ cb', cb' ≠ 5%Z → find cb' (fireCallback q) = find cb' (fireCallback sample_int))
       ∧ removeCallback 5 q = sample_int
       ∧ addCallback 5 1 q = Fault FAssert.
Proof.
  apply (callback_add_remove sample_int 5 1); [|reflexivity].
  split; [exists (VInt 7); split_and!; reflexivity|constructor].
Defined.

#[global] Arguments asString : simpl never.
#[global] Arguments asInteger : simpl never.
#[global] Arguments asDouble : simpl never.
#[global] Arguments asBool : simpl never.
#[global] Arguments set_value : simpl never.
