(* ===== verification/Container.v ===== *)
(** [moDataGenericContainer] (src/src/moDataGenericContainer.{h,cpp}): the
    bags of named properties (blobs, fiducials, ...) that travel on blob
    streams.  See docs/container.txt for the property names in use. *)
From S2P Require Import Prelude StdMap Numeric Utils Property.

Record container := { c_properties : smap string moProperty }.

(** [moDataGenericList]: the pointed-to containers in order. *)
Definition container_list := list container.

Definition new_container : container := {| c_properties := [] |}.

(** [properties[name]->...]: [operator[]] yields a null pointer for an absent
    name, which the arrow then follows. *)
Definition prop_at (name : string) (c : container) : res moProperty :=
  deref (find name (c_properties c)).

(** [properties[name] = p]. *)
Definition put_prop (name : string) (p : moProperty) (c : container) : container :=
  {| c_properties := insert name p (c_properties c) |}.

Definition hasProperty (name : string) (c : container) : bool :=
  match find name (c_properties c) with None => false | Some _ => true end.

(** The loop of [clone]: every property becomes a string property holding the
    original's [asString]. *)
Fixpoint clone_loop (entries : smap string moProperty) (acc : container) : res container :=
  match entries with
  | [] => Ok acc
  | (name, p) :: entries =>
      s ← asString p;
      q ← new_string s EmptyString;
      clone_loop entries (put_prop name q acc)
  end.

Definition clone (c : container) : res container := clone_loop (c_properties c) new_container.

(** The destructor: what is freed, and the empty table left. *)
Definition delete_container (c : container) : container * list (moProperty * option pvalue) :=
  ({| c_properties := [] |}, (λ e, free e.2) <$> c_properties c).

(** ** Reading helpers used by the modules *)

Definition get_string (name : string) (c : container) : res string := prop_at name c ≫= asString.
Definition get_int (name : string) (c : container) : res Z := prop_at name c ≫= asInteger.
Definition get_double (name : string) (c : container) : res double := prop_at name c ≫= asDouble.

(** [properties[name]->set(v)]; container properties carry no callbacks. *)
Definition set_prop (name : string) (typein : moPropertyType) (v : pvalue) (c : container)
    : res container :=
  p ← prop_at name c;
  pc ← set_value typein v p;
  Ok (put_prop name pc.1 c).

(** ** Invariant and lemmas *)

Definition container_wf (c : container) : Prop :=
  ordered (c_properties c) ∧ ∀ k p, find k (c_properties c) = Some p → prop_wf p.

Definition string_prop (s : string) : moProperty := alloc MO_PROPERTY_STRING (VString s) EmptyString.

Lemma new_string_eq s : new_string s EmptyString = Ok (string_prop s).
Proof. reflexivity. Qed.

Lemma string_prop_wf s : prop_wf (string_prop s).
Proof. by apply (alloc_wf (VString s)). Qed.

Lemma asString_wf p : prop_wf p → ∃ s, asString p = Ok s.
Proof.
  intros [(v & Hp & Ht & _) _]. unfold asString. rewrite Hp, <-Ht. simpl. destruct v; simpl; eauto.
Qed.

Lemma new_container_wf : container_wf new_container.
Proof. split; [constructor|done]. Qed.

Lemma put_prop_wf k p c : container_wf c → prop_wf p → container_wf (put_prop k p c).
Proof.
  intros [Ho Hw] Hp. split; [by apply ordered_insert|]. intros j q. simpl.
  destruct (decide (k = j)) as [<-|Hne].
  - rewrite find_insert_eq. by intros [= <-].
  - rewrite find_insert_ne by done. apply Hw.
Qed.

(** What [clone] computes, as a map over the entries. *)
Lemma clone_loop_spec es acc :
  ordered es → (∀ k p, (k, p) ∈ es → prop_wf p) →
  ∃ c, clone_loop es acc = Ok c
       ∧ (ordered (c_properties acc) → ordered (c_properties c))
       ∧ ∀ k, find k (c_properties c) =
              match find k es with
              | Some p => match asString p with Ok s => Some (string_prop s) | _ => None end
              | None => find k (c_properties acc)
              end.
Proof.
  revert acc. induction es as [|[k p] es IH]; intros acc Ho Hw; simpl; [eauto|].
  destruct (asString_wf p) as [s Hs]; [eapply Hw; by left|]. rewrite Hs. simpl.
  apply StronglySorted_inv in Ho as [Ho Hlt].
  destruct (IH (put_prop k (string_prop s) acc)) as (c & Hc & Hoc & Hf);
    [done|intros j q Hj; eapply Hw; by right|].
  exists c. split_and!; [done|intros; apply Hoc; by apply ordered_insert|].
  intros j. rewrite Hf. destruct (kcmp j k) eqn:E.
  - apply (kcmp_eq (K:=string)) in E as ->.
    assert (find k es = None) as ->.
    { apply find_None_keys. intros Hin. eapply Forall_forall in Hlt; [|exact Hin].
      by apply klt_irrefl in Hlt. }
    simpl. rewrite find_insert_eq. by rewrite Hs.
  - destruct (find j es); [done|]. simpl. apply find_insert_ne.
    intros ->. by rewrite kcmp_refl in E.
  - destruct (find j es); [done|]. simpl. apply find_insert_ne.
    intros ->. by rewrite kcmp_refl in E.
Qed.

Lemma clone_spec c :
  container_wf c →
  ∃ c', clone c = Ok c' ∧ container_wf c' ∧
        ∀ k, find k (c_properties c') =
             match find k (c_properties c) with
             | Some p => match asString p with Ok s => Some (string_prop s) | _ => None end
             | None => None
             end.
Proof.
  intros [Ho Hw].
  destruct (clone_loop_spec (c_properties c) new_container) as (c' & Hc & Hoc & Hf); [done| |].
  { intros k p Hin. eapply Hw. by apply find_elem_ordered. }
  exists c'. split_and!; [done| |].
  - split; [apply Hoc; constructor|]. intros k p. rewrite Hf.
    destruct (find k (c_properties c)) as [q|]; [|done].
    destruct (asString q); [|done]. intros [= <-]. apply string_prop_wf.
  - intros k. rewrite Hf. by destruct (find k (c_properties c)).
Qed.

Lemma clone_find c c' k p :
  container_wf c → clone c = Ok c' → find k (c_properties c) = Some p →
  ∃ s, asString p = Ok s ∧ find k (c_properties c') = Some (string_prop s).
Proof.
  intros Hc Hcl Hk. destruct (clone_spec c Hc) as (c'' & Hcl' & _ & Hf).
  rewrite Hcl in Hcl'. simplify_eq. specialize (Hf k). rewrite Hk in Hf.
  destruct (asString_wf p) as [s Hs]; [by eapply (proj2 Hc)|]. rewrite Hs in Hf. eauto.
Qed.

(** ** Slots: what a module may rely on when it reads and sets a property *)

(** The property [k] is there, is writable and holds the value [v]. *)
Definition slot (k : string) (v : pvalue) (c : container) : Prop :=
  ∃ p, find k (c_properties c) = Some p ∧ p_type p = type_of v ∧ p_val p = Some v
       ∧ p_readonly p = false.

(** Two containers agree except possibly on the listed properties. *)
Definition same_but (ks : list string) (c c' : container) : Prop :=
  ∀ k, k ∉ ks → find k (c_properties c') = find k (c_properties c).

Lemma same_but_refl ks c : same_but ks c c.
Proof. by intros k _. Qed.
Lemma same_but_trans ks c1 c2 c3 : same_but ks c1 c2 → same_but ks c2 c3 → same_but ks c1 c3.
Proof. intros H1 H2 k Hk. by rewrite H2, H1. Qed.
Lemma same_but_sub ks ks' c c' : ks ⊆ ks' → same_but ks c c' → same_but ks' c c'.
Proof. intros Hs H k Hk. apply H. set_solver. Qed.

Lemma slot_same ks k v c c' : same_but ks c c' → k ∉ ks → slot k v c → slot k v c'.
Proof. intros H Hk (p & Hp & Hr). exists p. by rewrite H. Qed.

Lemma slot_inj k v w c : slot k v c → slot k w c → v = w.
Proof. intros (p & Hp & _ & Hv & _) (q & Hq & _ & Hw & _). congruence. Qed.

Lemma get_string_slot k s c : slot k (VString s) c → get_string k c = Ok s.
Proof. intros (p & Hp & Ht & Hv & _). unfold get_string, prop_at. rewrite Hp. simpl.
  unfold asString. by rewrite Hv, Ht. Qed.
Lemma get_int_slot k z c : slot k (VInt z) c → get_int k c = Ok z.
Proof. intros (p & Hp & Ht & Hv & _). unfold get_int, prop_at. rewrite Hp. simpl.
  unfold asInteger. by rewrite Hv, Ht. Qed.
Lemma get_int_string k s c : slot k (VString s) c → get_int k c = Ok (atoi s).
Proof. intros (p & Hp & Ht & Hv & _). unfold get_int, prop_at. rewrite Hp. simpl.
  unfold asInteger. by rewrite Hv, Ht. Qed.
Lemma get_double_string k s c : slot k (VString s) c → get_double k c = Ok (atof s).
Proof. intros (p & Hp & Ht & Hv & _). unfold get_double, prop_at. rewrite Hp. simpl.
  unfold asDouble. by rewrite Hv, Ht. Qed.

Lemma put_prop_same k p c : same_but [k] c (put_prop k p c).
Proof. intros j Hj. simpl. apply find_insert_ne. set_solver. Qed.

Lemma put_prop_slot k v c : slot k v (put_prop k (alloc (type_of v) v EmptyString) c).
Proof. eexists. simpl. rewrite find_insert_eq. by split_and!. Qed.

Lemma new_int_eq z : new_int z EmptyString = Ok (alloc MO_PROPERTY_INTEGER (VInt z) EmptyString).
Proof. reflexivity. Qed.

(** Setting a slot to a value of its own type, or a number in a string slot. *)
Lemma set_prop_slot k w v v' c :
  slot k w c →
  (∀ p, p_type p = type_of w → autoconvert (type_of v) v p = Ok (with_val (Some v') p)) →
  type_of v' = type_of w →
  ∃ c', set_prop k (type_of v) v c = Ok c' ∧ slot k v' c' ∧ same_but [k] c c'.
Proof.
  intros (p & Hp & Ht & Hv & Hr) Hconv Hty. unfold set_prop, prop_at. rewrite Hp. simpl.
  unfold set_value, isReadOnly. rewrite Hr, Hconv by done. simpl.
  eexists. split_and!; [done| |apply put_prop_same].
  eexists. simpl. rewrite find_insert_eq. by split_and!; [done|simpl; congruence|..].
Qed.

Lemma set_prop_int k z z' c :
  slot k (VInt z) c →
  ∃ c', set_prop k MO_PROPERTY_INTEGER (VInt z') c = Ok c' ∧ slot k (VInt z') c' ∧ same_but [k] c c'.
Proof. intros H. apply (set_prop_slot k _ (VInt z') (VInt z') c H); [|done].
  intros p Hp. unfold autoconvert. by rewrite Hp. Qed.

Lemma set_prop_string k s v t c :
  slot k (VString s) c → convertToString (type_of v) v = Ok t →
  ∃ c', set_prop k (type_of v) v c = Ok c' ∧ slot k (VString t) c' ∧ same_but [k] c c'.
Proof. intros H Hv. apply (set_prop_slot k _ v (VString t) c H); [|done].
  intros p Hp. unfold autoconvert. rewrite Hp. simpl. by rewrite Hv. Qed.

Lemma clone_slot c c' k :
  container_wf c → clone c = Ok c' → hasProperty k c = true →
  ∃ s, get_string k c = Ok s ∧ slot k (VString s) c'.
Proof.
  intros Hc Hcl. unfold hasProperty, get_string, prop_at.
  destruct (find k (c_properties c)) as [p|] eqn:E; [|done]. intros _.
  destruct (clone_find c c' k p Hc Hcl E) as (s & Hs & Hk). exists s. split; [done|].
  eexists. by split_and!; [exact Hk|..].
Qed.

(** ** Properties *)

(** Cloning a well-formed container succeeds; the clone is well
    formed, has exactly the same property names, every property of it is a
    string whose text is the original's [asString], an integer property keeps
    its integer value, and cloning the clone again changes nothing. *)
Theorem clone_correct (c : container) :
  container_wf c →
  ∃ c', clone c = Ok c' ∧ container_wf c'
        ∧ (∀ k, hasProperty k c' = hasProperty k c)
        ∧ (∀ k, hasProperty k c = true → get_string k c' = get_string k c)
        ∧ (∀ k p, find k (c_properties c) = Some p → p_type p = MO_PROPERTY_INTEGER →
             get_int k c' = get_int k c)
        ∧ clone c' = Ok c'.
Proof.
  intros Hc. destruct (clone_spec c Hc) as (c' & Hcl & Hc' & Hf). exists c'.
  assert (Hget : ∀ k p, find k (c_properties c) = Some p →
    ∃ s, asString p = Ok s ∧ find k (c_properties c') = Some (string_prop s))
    by (intros k p Hk; exact (clone_find c c' k p Hc Hcl Hk)).
  split_and!; [done|done|..].
  - intros k. unfold hasProperty. destruct (find k (c_properties c)) as [p|] eqn:E.
    + by destruct (Hget k p E) as (s & _ & ->).
    + specialize (Hf k). rewrite E in Hf. by rewrite Hf.
  - intros k Hk. unfold hasProperty in Hk. unfold get_string, prop_at.
    destruct (find k (c_properties c)) as [p|] eqn:E; [|done].
    by destruct (Hget k p E) as (s & Hs & ->).
  - intros k p E Ht. destruct (Hget k p E) as (s & Hs & Hk).
    unfold get_int, prop_at. rewrite E, Hk. simpl.
    destruct (proj2 Hc k p E) as [(v & Hv & Htv & Hok) _].
    unfold asString in Hs. unfold asInteger. rewrite Hv, Ht in *. simpl in *.
    destruct v as [| |z| |]; simplify_eq/=.
    by rewrite snprintf_print_int, atoi_print_int.
  - destruct (clone_spec c' Hc') as (c'' & Hcl' & Hc'' & Hf').
    rewrite Hcl'. f_equal. destruct c' as [m], c'' as [m']; simpl in *. f_equal.
    apply ordered_ext; [apply Hc''|apply Hc'|]. intros k. rewrite Hf'.
    destruct (find k m) as [q|] eqn:E; [|done]. specialize (Hf k). rewrite E in Hf.
    destruct (find k (c_properties c)) as [p|]; [|done].
    destruct (asString p); [|done]. by simplify_eq.
Qed.

Definition sample_blob : container :=
  put_prop "implements" (string_prop "pos,size")
    (put_prop "width" (alloc MO_PROPERTY_INTEGER (VInt 12) EmptyString) new_container).

Lemma clone_correct_witness :
  ∃ c', clone sample_blob = Ok c' ∧ container_wf c'
        ∧ (∀ k, hasProperty k c' = hasProperty k sample_blob)
        ∧ (∀ k, hasProperty k sample_blob = true → get_string k c' = get_string k sample_blob)
        ∧ (∀ k p, find k (c_properties sample_blob) = Some p → p_type p = MO_PROPERTY_INTEGER →
             get_int k c' = get_int k sample_blob)
        ∧ clone c' = Ok c'.
Proof.
  apply (clone_correct sample_blob).
  apply put_prop_wf; [apply put_prop_wf; [apply new_container_wf|]|apply string_prop_wf].
  by apply (alloc_wf (VInt 12)).
Defined.
