(* ===== verification/Module.v ===== *)
(** [moModule] (src/src/moModule.{h,cpp}), the parts that concern one module.

    A module is a record of the C++ object's members.  The stream pointers a
    module connects are member variables ([moDataStream *input]); [declareInput]
    and [declareOutput] register the address of such a member under an index.
    Here [m_fields] holds the members by name and [m_input_map]/[m_output_map]
    map an index to the name of the member, so that two indexes sharing a
    member would share its content, as in C++.  Streams and modules are
    referred to by their address (a [nat]); the heap that resolves addresses
    is in World.v. *)
From S2P Require Import Prelude StdMap Numeric Utils Property.

(** ** Stream information and statistics *)

Record moDataStreamInfo := { i_name : string; i_type : string; i_description : string }.

#[export] Instance moDataStreamInfo_eq_dec : EqDecision moDataStreamInfo.
Proof. solve_decision. Defined.

Definition info_setType (type : string) (i : moDataStreamInfo) : moDataStreamInfo :=
  {| i_name := i_name i; i_type := type; i_description := i_description i |}.

(** [isStreamValid], on the format of the stream ([None]: no stream). *)
Definition isStreamValid (i : moDataStreamInfo) (format : option string) : res bool :=
  match format with
  | None => Ok false
  | Some f => if bool_decide (i_type i = "*") then Ok true else inList f (i_type i) ","
  end.

Record mo_module_stats_t := {
  average_fps : double;
  average_process_time : double;
  average_wait_time : double;
  total_process_time : double;
  total_wait_time : double;
  total_process_frame : Z;
  st_process_frame : Z;
  st_process_time : double;
  st_wait_time : double;
  st_last_time : double;
}.

(** [memset(&stats, 0, sizeof stats)]. *)
Definition stats_zero : mo_module_stats_t :=
  {| average_fps := dzero; average_process_time := dzero; average_wait_time := dzero;
     total_process_time := dzero; total_wait_time := dzero; total_process_frame := 0;
     st_process_frame := 0; st_process_time := dzero; st_wait_time := dzero;
     st_last_time := dzero |}.

(** [unsigned long long] arithmetic. *)
Definition wrap_u64 (z : Z) : Z := z mod 2 ^ 64.

(** [curtime] is the value [moUtils::time()] returns. *)
Definition stats_init (curtime : double) (s : mo_module_stats_t) : mo_module_stats_t :=
  {| average_fps := average_fps s; average_process_time := average_process_time s;
     average_wait_time := average_wait_time s; total_process_time := total_process_time s;
     total_wait_time := total_wait_time s; total_process_frame := total_process_frame s;
     st_process_frame := st_process_frame s; st_process_time := st_process_time s;
     st_wait_time := st_wait_time s; st_last_time := curtime |}.

Definition stats_wait (curtime : double) (s : mo_module_stats_t) : mo_module_stats_t :=
  {| average_fps := average_fps s; average_process_time := average_process_time s;
     average_wait_time := average_wait_time s; total_process_time := total_process_time s;
     total_wait_time := total_wait_time s; total_process_frame := total_process_frame s;
     st_process_frame := st_process_frame s; st_process_time := st_process_time s;
     st_wait_time := d_add (st_wait_time s) (d_sub curtime (st_last_time s));
     st_last_time := curtime |}.

Definition stats_process (curtime : double) (s : mo_module_stats_t) : mo_module_stats_t :=
  let ptime := d_add (st_process_time s) (d_sub curtime (st_last_time s)) in
  let frames := wrap_u64 (st_process_frame s + 1) in
  let period := d_add ptime (st_wait_time s) in
  if d_ltb (d_of_Z 1) period then
    {| average_process_time := d_div ptime (d_of_Z frames);
       average_wait_time := d_div (st_wait_time s) (d_of_Z frames);
       average_fps := d_div (d_of_Z frames) period;
       total_wait_time := d_add (total_wait_time s) (st_wait_time s);
       total_process_time := d_add (total_process_time s) ptime;
       total_process_frame := wrap_u64 (total_process_frame s + frames);
       st_process_frame := 0; st_process_time := dzero; st_wait_time := dzero;
       st_last_time := curtime |}
  else
    {| average_fps := average_fps s; average_process_time := average_process_time s;
       average_wait_time := average_wait_time s; total_process_time := total_process_time s;
       total_wait_time := total_wait_time s; total_process_frame := total_process_frame s;
       st_process_frame := frames; st_process_time := ptime;
       st_wait_time := st_wait_time s; st_last_time := curtime |}.

(** ** The module object *)

Definition MO_MODULE_NONE : Z := 0.
Definition MO_MODULE_INPUT : Z := 1.
Definition MO_MODULE_OUTPUT : Z := 2.
Definition MO_MODULE_GUI : Z := 4.

(** [m_name], [m_description] and [m_author] are what the virtual [getName],
    [getDescription] and [getAuthor] of the class return.  [m_thread] is the
    [moThread] it runs, [m_trigger] the trigger it waits on ([Some b]: created,
    signalled iff [b]).  [m_dtor_fields] lists the stream members the class's
    destructor deletes. *)
Record moModule := {
  m_name : string;
  m_description : string;
  m_author : string;
  m_capabilities : Z;
  m_is_started : bool;
  m_is_error : bool;
  m_error_msg : string;
  m_thread : option nat;
  m_use_thread : bool;
  m_need_update : bool;
  m_need_gui_build : bool;
  m_trigger : option bool;
  m_owner : option nat;
  m_is_internal : bool;
  m_input_map : smap Z string;
  m_output_map : smap Z string;
  m_input_infos : smap Z moDataStreamInfo;
  m_output_infos : smap Z moDataStreamInfo;
  m_properties : smap string moProperty;
  m_fields : smap string (option nat);
  m_dtor_fields : list string;
  m_gui : list string;
  m_stats : mo_module_stats_t;
}.

Definition upd_m_is_started (g : bool → bool) (r : moModule) : moModule :=
  {| m_name := m_name r; m_description := m_description r; m_author := m_author r;
     m_capabilities := m_capabilities r; m_is_started := g (m_is_started r); m_is_error :=
     m_is_error r; m_error_msg := m_error_msg r; m_thread := m_thread r; m_use_thread :=
     m_use_thread r; m_need_update := m_need_update r; m_need_gui_build := m_need_gui_build
     r; m_trigger := m_trigger r; m_owner := m_owner r; m_is_internal := m_is_internal r;
     m_input_map := m_input_map r; m_output_map := m_output_map r; m_input_infos :=
     m_input_infos r; m_output_infos := m_output_infos r; m_properties := m_properties r;
     m_fields := m_fields r; m_dtor_fields := m_dtor_fields r; m_gui := m_gui r; m_stats :=
     m_stats r |}.
Definition upd_m_is_error (g : bool → bool) (r : moModule) : moModule :=
  {| m_name := m_name r; m_description := m_description r; m_author := m_author r;
     m_capabilities := m_capabilities r; m_is_started := m_is_started r; m_is_error := g
     (m_is_error r); m_error_msg := m_error_msg r; m_thread := m_thread r; m_use_thread :=
     m_use_thread r; m_need_update := m_need_update r; m_need_gui_build := m_need_gui_build
     r; m_trigger := m_trigger r; m_owner := m_owner r; m_is_internal := m_is_internal r;
     m_input_map := m_input_map r; m_output_map := m_output_map r; m_input_infos :=
     m_input_infos r; m_output_infos := m_output_infos r; m_properties := m_properties r;
     m_fields := m_fields r; m_dtor_fields := m_dtor_fields r; m_gui := m_gui r; m_stats :=
     m_stats r |}.
Definition upd_m_error_msg (g : string → string) (r : moModule) : moModule :=
  {| m_name := m_name r; m_description := m_description r; m_author := m_author r;
     m_capabilities := m_capabilities r; m_is_started := m_is_started r; m_is_error :=
     m_is_error r; m_error_msg := g (m_error_msg r); m_thread := m_thread r; m_use_thread :=
     m_use_thread r; m_need_update := m_need_update r; m_need_gui_build := m_need_gui_build
     r; m_trigger := m_trigger r; m_owner := m_owner r; m_is_internal := m_is_internal r;
     m_input_map := m_input_map r; m_output_map := m_output_map r; m_input_infos :=
     m_input_infos r; m_output_infos := m_output_infos r; m_properties := m_properties r;
     m_fields := m_fields r; m_dtor_fields := m_dtor_fields r; m_gui := m_gui r; m_stats :=
     m_stats r |}.
Definition upd_m_thread (g : option nat → option nat) (r : moModule) : moModule :=
  {| m_name := m_name r; m_description := m_description r; m_author := m_author r;
     m_capabilities := m_capabilities r; m_is_started := m_is_started r; m_is_error :=
     m_is_error r; m_error_msg := m_error_msg r; m_thread := g (m_thread r); m_use_thread :=
     m_use_thread r; m_need_update := m_need_update r; m_need_gui_build := m_need_gui_build
     r; m_trigger := m_trigger r; m_owner := m_owner r; m_is_internal := m_is_internal r;
     m_input_map := m_input_map r; m_output_map := m_output_map r; m_input_infos :=
     m_input_infos r; m_output_infos := m_output_infos r; m_properties := m_properties r;
     m_fields := m_fields r; m_dtor_fields := m_dtor_fields r; m_gui := m_gui r; m_stats :=
     m_stats r |}.
Definition upd_m_use_thread (g : bool → bool) (r : moModule) : moModule :=
  {| m_name := m_name r; m_description := m_description r; m_author := m_author r;
     m_capabilities := m_capabilities r; m_is_started := m_is_started r; m_is_error :=
     m_is_error r; m_error_msg := m_error_msg r; m_thread := m_thread r; m_use_thread := g
     (m_use_thread r); m_need_update := m_need_update r; m_need_gui_build := m_need_gui_build
     r; m_trigger := m_trigger r; m_owner := m_owner r; m_is_internal := m_is_internal r;
     m_input_map := m_input_map r; m_output_map := m_output_map r; m_input_infos :=
     m_input_infos r; m_output_infos := m_output_infos r; m_properties := m_properties r;
     m_fields := m_fields r; m_dtor_fields := m_dtor_fields r; m_gui := m_gui r; m_stats :=
     m_stats r |}.
Definition upd_m_need_update (g : bool → bool) (r : moModule) : moModule :=
  {| m_name := m_name r; m_description := m_description r; m_author := m_author r;
     m_capabilities := m_capabilities r; m_is_started := m_is_started r; m_is_error :=
     m_is_error r; m_error_msg := m_error_msg r; m_thread := m_thread r; m_use_thread :=
     m_use_thread r; m_need_update := g (m_need_update r); m_need_gui_build :=
     m_need_gui_build r; m_trigger := m_trigger r; m_owner := m_owner r; m_is_internal :=
     m_is_internal r; m_input_map := m_input_map r; m_output_map := m_output_map r;
     m_input_infos := m_input_infos r; m_output_infos := m_output_infos r; m_properties :=
     m_properties r; m_fields := m_fields r; m_dtor_fields := m_dtor_fields r; m_gui := m_gui
     r; m_stats := m_stats r |}.
Definition upd_m_need_gui_build (g : bool → bool) (r : moModule) : moModule :=
  {| m_name := m_name r; m_description := m_description r; m_author := m_author r;
     m_capabilities := m_capabilities r; m_is_started := m_is_started r; m_is_error :=
     m_is_error r; m_error_msg := m_error_msg r; m_thread := m_thread r; m_use_thread :=
     m_use_thread r; m_need_update := m_need_update r; m_need_gui_build := g
     (m_need_gui_build r); m_trigger := m_trigger r; m_owner := m_owner r; m_is_internal :=
     m_is_internal r; m_input_map := m_input_map r; m_output_map := m_output_map r;
     m_input_infos := m_input_infos r; m_output_infos := m_output_infos r; m_properties :=
     m_properties r; m_fields := m_fields r; m_dtor_fields := m_dtor_fields r; m_gui := m_gui
     r; m_stats := m_stats r |}.
Definition upd_m_trigger (g : option bool → option bool) (r : moModule) : moModule :=
  {| m_name := m_name r; m_description := m_description r; m_author := m_author r;
     m_capabilities := m_capabilities r; m_is_started := m_is_started r; m_is_error :=
     m_is_error r; m_error_msg := m_error_msg r; m_thread := m_thread r; m_use_thread :=
     m_use_thread r; m_need_update := m_need_update r; m_need_gui_build := m_need_gui_build
     r; m_trigger := g (m_trigger r); m_owner := m_owner r; m_is_internal := m_is_internal r;
     m_input_map := m_input_map r; m_output_map := m_output_map r; m_input_infos :=
     m_input_infos r; m_output_infos := m_output_infos r; m_properties := m_properties r;
     m_fields := m_fields r; m_dtor_fields := m_dtor_fields r; m_gui := m_gui r; m_stats :=
     m_stats r |}.
Definition upd_m_owner (g : option nat → option nat) (r : moModule) : moModule :=
  {| m_name := m_name r; m_description := m_description r; m_author := m_author r;
     m_capabilities := m_capabilities r; m_is_started := m_is_started r; m_is_error :=
     m_is_error r; m_error_msg := m_error_msg r; m_thread := m_thread r; m_use_thread :=
     m_use_thread r; m_need_update := m_need_update r; m_need_gui_build := m_need_gui_build
     r; m_trigger := m_trigger r; m_owner := g (m_owner r); m_is_internal := m_is_internal r;
     m_input_map := m_input_map r; m_output_map := m_output_map r; m_input_infos :=
     m_input_infos r; m_output_infos := m_output_infos r; m_properties := m_properties r;
     m_fields := m_fields r; m_dtor_fields := m_dtor_fields r; m_gui := m_gui r; m_stats :=
     m_stats r |}.
Definition upd_m_is_internal (g : bool → bool) (r : moModule) : moModule :=
  {| m_name := m_name r; m_description := m_description r; m_author := m_author r;
     m_capabilities := m_capabilities r; m_is_started := m_is_started r; m_is_error :=
     m_is_error r; m_error_msg := m_error_msg r; m_thread := m_thread r; m_use_thread :=
     m_use_thread r; m_need_update := m_need_update r; m_need_gui_build := m_need_gui_build
     r; m_trigger := m_trigger r; m_owner := m_owner r; m_is_internal := g (m_is_internal r);
     m_input_map := m_input_map r; m_output_map := m_output_map r; m_input_infos :=
     m_input_infos r; m_output_infos := m_output_infos r; m_properties := m_properties r;
     m_fields := m_fields r; m_dtor_fields := m_dtor_fields r; m_gui := m_gui r; m_stats :=
     m_stats r |}.
Definition upd_m_input_map (g : smap Z string → smap Z string) (r : moModule) : moModule :=
  {| m_name := m_name r; m_description := m_description r; m_author := m_author r;
     m_capabilities := m_capabilities r; m_is_started := m_is_started r; m_is_error :=
     m_is_error r; m_error_msg := m_error_msg r; m_thread := m_thread r; m_use_thread :=
     m_use_thread r; m_need_update := m_need_update r; m_need_gui_build := m_need_gui_build
     r; m_trigger := m_trigger r; m_owner := m_owner r; m_is_internal := m_is_internal r;
     m_input_map := g (m_input_map r); m_output_map := m_output_map r; m_input_infos :=
     m_input_infos r; m_output_infos := m_output_infos r; m_properties := m_properties r;
     m_fields := m_fields r; m_dtor_fields := m_dtor_fields r; m_gui := m_gui r; m_stats :=
     m_stats r |}.
Definition upd_m_output_map (g : smap Z string → smap Z string) (r : moModule) : moModule :=
  {| m_name := m_name r; m_description := m_description r; m_author := m_author r;
     m_capabilities := m_capabilities r; m_is_started := m_is_started r; m_is_error :=
     m_is_error r; m_error_msg := m_error_msg r; m_thread := m_thread r; m_use_thread :=
     m_use_thread r; m_need_update := m_need_update r; m_need_gui_build := m_need_gui_build
     r; m_trigger := m_trigger r; m_owner := m_owner r; m_is_internal := m_is_internal r;
     m_input_map := m_input_map r; m_output_map := g (m_output_map r); m_input_infos :=
     m_input_infos r; m_output_infos := m_output_infos r; m_properties := m_properties r;
     m_fields := m_fields r; m_dtor_fields := m_dtor_fields r; m_gui := m_gui r; m_stats :=
     m_stats r |}.
Definition upd_m_input_infos (g : smap Z moDataStreamInfo → smap Z moDataStreamInfo) (r : moModule) : moModule :=
  {| m_name := m_name r; m_description := m_description r; m_author := m_author r;
     m_capabilities := m_capabilities r; m_is_started := m_is_started r; m_is_error :=
     m_is_error r; m_error_msg := m_error_msg r; m_thread := m_thread r; m_use_thread :=
     m_use_thread r; m_need_update := m_need_update r; m_need_gui_build := m_need_gui_build
     r; m_trigger := m_trigger r; m_owner := m_owner r; m_is_internal := m_is_internal r;
     m_input_map := m_input_map r; m_output_map := m_output_map r; m_input_infos := g
     (m_input_infos r); m_output_infos := m_output_infos r; m_properties := m_properties r;
     m_fields := m_fields r; m_dtor_fields := m_dtor_fields r; m_gui := m_gui r; m_stats :=
     m_stats r |}.
Definition upd_m_output_infos (g : smap Z moDataStreamInfo → smap Z moDataStreamInfo) (r : moModule) : moModule :=
  {| m_name := m_name r; m_description := m_description r; m_author := m_author r;
     m_capabilities := m_capabilities r; m_is_started := m_is_started r; m_is_error :=
     m_is_error r; m_error_msg := m_error_msg r; m_thread := m_thread r; m_use_thread :=
     m_use_thread r; m_need_update := m_need_update r; m_need_gui_build := m_need_gui_build
     r; m_trigger := m_trigger r; m_owner := m_owner r; m_is_internal := m_is_internal r;
     m_input_map := m_input_map r; m_output_map := m_output_map r; m_input_infos :=
     m_input_infos r; m_output_infos := g (m_output_infos r); m_properties := m_properties r;
     m_fields := m_fields r; m_dtor_fields := m_dtor_fields r; m_gui := m_gui r; m_stats :=
     m_stats r |}.
Definition upd_m_properties (g : smap string moProperty → smap string moProperty) (r : moModule) : moModule :=
  {| m_name := m_name r; m_description := m_description r; m_author := m_author r;
     m_capabilities := m_capabilities r; m_is_started := m_is_started r; m_is_error :=
     m_is_error r; m_error_msg := m_error_msg r; m_thread := m_thread r; m_use_thread :=
     m_use_thread r; m_need_update := m_need_update r; m_need_gui_build := m_need_gui_build
     r; m_trigger := m_trigger r; m_owner := m_owner r; m_is_internal := m_is_internal r;
     m_input_map := m_input_map r; m_output_map := m_output_map r; m_input_infos :=
     m_input_infos r; m_output_infos := m_output_infos r; m_properties := g (m_properties r);
     m_fields := m_fields r; m_dtor_fields := m_dtor_fields r; m_gui := m_gui r; m_stats :=
     m_stats r |}.
Definition upd_m_fields (g : smap string (option nat) → smap string (option nat)) (r : moModule) : moModule :=
  {| m_name := m_name r; m_description := m_description r; m_author := m_author r;
     m_capabilities := m_capabilities r; m_is_started := m_is_started r; m_is_error :=
     m_is_error r; m_error_msg := m_error_msg r; m_thread := m_thread r; m_use_thread :=
     m_use_thread r; m_need_update := m_need_update r; m_need_gui_build := m_need_gui_build
     r; m_trigger := m_trigger r; m_owner := m_owner r; m_is_internal := m_is_internal r;
     m_input_map := m_input_map r; m_output_map := m_output_map r; m_input_infos :=
     m_input_infos r; m_output_infos := m_output_infos r; m_properties := m_properties r;
     m_fields := g (m_fields r); m_dtor_fields := m_dtor_fields r; m_gui := m_gui r; m_stats
     := m_stats r |}.
Definition upd_m_dtor_fields (g : list string → list string) (r : moModule) : moModule :=
  {| m_name := m_name r; m_description := m_description r; m_author := m_author r;
     m_capabilities := m_capabilities r; m_is_started := m_is_started r; m_is_error :=
     m_is_error r; m_error_msg := m_error_msg r; m_thread := m_thread r; m_use_thread :=
     m_use_thread r; m_need_update := m_need_update r; m_need_gui_build := m_need_gui_build
     r; m_trigger := m_trigger r; m_owner := m_owner r; m_is_internal := m_is_internal r;
     m_input_map := m_input_map r; m_output_map := m_output_map r; m_input_infos :=
     m_input_infos r; m_output_infos := m_output_infos r; m_properties := m_properties r;
     m_fields := m_fields r; m_dtor_fields := g (m_dtor_fields r); m_gui := m_gui r; m_stats
     := m_stats r |}.
Definition upd_m_gui (g : list string → list string) (r : moModule) : moModule :=
  {| m_name := m_name r; m_description := m_description r; m_author := m_author r;
     m_capabilities := m_capabilities r; m_is_started := m_is_started r; m_is_error :=
     m_is_error r; m_error_msg := m_error_msg r; m_thread := m_thread r; m_use_thread :=
     m_use_thread r; m_need_update := m_need_update r; m_need_gui_build := m_need_gui_build
     r; m_trigger := m_trigger r; m_owner := m_owner r; m_is_internal := m_is_internal r;
     m_input_map := m_input_map r; m_output_map := m_output_map r; m_input_infos :=
     m_input_infos r; m_output_infos := m_output_infos r; m_properties := m_properties r;
     m_fields := m_fields r; m_dtor_fields := m_dtor_fields r; m_gui := g (m_gui r); m_stats
     := m_stats r |}.
Definition upd_m_stats (g : mo_module_stats_t → mo_module_stats_t) (r : moModule) : moModule :=
  {| m_name := m_name r; m_description := m_description r; m_author := m_author r;
     m_capabilities := m_capabilities r; m_is_started := m_is_started r; m_is_error :=
     m_is_error r; m_error_msg := m_error_msg r; m_thread := m_thread r; m_use_thread :=
     m_use_thread r; m_need_update := m_need_update r; m_need_gui_build := m_need_gui_build
     r; m_trigger := m_trigger r; m_owner := m_owner r; m_is_internal := m_is_internal r;
     m_input_map := m_input_map r; m_output_map := m_output_map r; m_input_infos :=
     m_input_infos r; m_output_infos := m_output_infos r; m_properties := m_properties r;
     m_fields := m_fields r; m_dtor_fields := m_dtor_fields r; m_gui := m_gui r; m_stats := g
     (m_stats r) |}.

(** Address of [module_gui_feedback_cb]. *)
Definition CB_gui_feedback : Z := 1.

(** ** Properties of a module *)

(** [property(name)]: creates the property when it does not exist. *)
Definition property (name : string) (m : moModule) : moProperty * moModule :=
  match find name (m_properties m) with
  | Some p => (p, m)
  | None =>
      let p := alloc MO_PROPERTY_STRING (VString EmptyString) "?? auto created ??" in
      (p, upd_m_properties (insert name p) m)
  end.

(** Writes a property back where [property(name)] found it. *)
Definition store_property (name : string) (p : moProperty) (m : moModule) : moModule :=
  upd_m_properties (insert name p) m.

Definition getCapabilities (m : moModule) : Z := m_capabilities m.
Definition has_cap (flag : Z) (m : moModule) : bool := negb (Z.land (m_capabilities m) flag =? 0)%Z.

(** ** Inputs and outputs *)

Definition getInputCount (m : moModule) : Z := Z.of_nat (length (m_input_infos m)).
Definition getOutputCount (m : moModule) : Z := Z.of_nat (length (m_output_infos m)).
Definition getInputInfos (n : Z) (m : moModule) : option moDataStreamInfo := find n (m_input_infos m).
Definition getOutputInfos (n : Z) (m : moModule) : option moDataStreamInfo := find n (m_output_infos m).

(** Content of a stream member; every registered member exists. *)
Definition field (f : string) (m : moModule) : option nat := default None (find f (m_fields m)).

Definition getInput (n : Z) (m : moModule) : option nat :=
  match find n (m_input_map m) with None => None | Some f => field f m end.
Definition getOutput (n : Z) (m : moModule) : option nat :=
  match find n (m_output_map m) with None => None | Some f => field f m end.

Definition set_field (f : string) (s : option nat) (m : moModule) : moModule :=
  upd_m_fields (insert f s) m.

(** [declareInput(n, &this->f, info)]; neither pointer is null at any call. *)
Definition declareInput (n : Z) (f : string) (info : moDataStreamInfo) (m : moModule) : moModule :=
  upd_m_input_infos (insert n info) (upd_m_input_map (insert n f) m).
Definition declareOutput (n : Z) (f : string) (info : moDataStreamInfo) (m : moModule) : moModule :=
  upd_m_output_infos (insert n info) (upd_m_output_map (insert n f) m).

(** [for (int i = 0; i < count; i++) if (ds == get(i)) return i; return -1]. *)
Fixpoint index_loop (fuel : nat) (get : Z → option nat) (ds : option nat) (i count : Z) : Z :=
  match fuel with
  | O => -1
  | S fuel =>
      if (i <? count)%Z then
        if bool_decide (ds = get i) then i else index_loop fuel get ds (i + 1) count
      else -1
  end.

Definition getInputIndex (ds : option nat) (m : moModule) : Z :=
  index_loop (S (length (m_input_infos m))) (λ i, getInput i m) ds 0 (getInputCount m).
Definition getOutputIndex (ds : option nat) (m : moModule) : Z :=
  index_loop (S (length (m_output_infos m))) (λ i, getOutput i m) ds 0 (getOutputCount m).

(** ** Errors *)

Definition haveError (m : moModule) : bool := m_is_error m.
Definition setError (msg : string) (m : moModule) : moModule :=
  upd_m_is_error (λ _, true) (upd_m_error_msg (λ _, msg) m).

(** [getLastError]: clears the error state and formats the message. *)
Definition getLastError (m : moModule) : res (string * moModule) :=
  let m := upd_m_is_error (λ _, false) m in
  let '(p, m) := property "id" m in
  id ← asString p;
  Ok ("<" +:+ id +:+ "> " +:+ m_error_msg m, m).

(** [needUpdate(false)]: consumes the update flag. *)
Definition needUpdate (m : moModule) : bool * moModule :=
  if m_need_update m then (true, upd_m_need_update (λ _, false) m) else (false, m).

Definition notifyGui (m : moModule) : moModule := upd_m_need_gui_build (λ _, true) m.

(** ** Construction *)

(** [moModule::moModule(capabilities)]; [self] is the address being
    constructed, the user data of the GUI feedback callback. *)
Definition new_module (name description author : string) (capabilities : Z) (self : nat)
    : moModule :=
  {| m_name := name; m_description := description; m_author := author;
     m_capabilities := capabilities; m_is_started := false; m_is_error := false;
     m_error_msg := EmptyString; m_thread := None; m_use_thread := false;
     m_need_update := false; m_need_gui_build := false; m_trigger := None; m_owner := None;
     m_is_internal := false; m_input_map := []; m_output_map := []; m_input_infos := [];
     m_output_infos := [];
     m_properties :=
       insert "gui_feedback"
         (with_callbacks (insert CB_gui_feedback self [])
            (alloc MO_PROPERTY_STRING (VString EmptyString) EmptyString))
         (insert "use_thread" (alloc MO_PROPERTY_BOOL (VBool false) EmptyString) []);
     m_fields := []; m_dtor_fields := []; m_gui := []; m_stats := stats_zero |}.

(** ** Saving a module *)

Definition endl : string := String "010" EmptyString.
Definition PIPELINE_BOUNDARY : string := "==============================".

(** One [pipeline set] or [pipeline settext] line per property, in name order. *)
Fixpoint serialize_sets (id : string) (props : smap string moProperty) : res string :=
  match props with
  | [] => Ok EmptyString
  | (name, p) :: props =>
      line ← (if isText p then
                Ok ("pipeline settext " +:+ id +:+ " " +:+ name +:+ " "
                      +:+ id +:+ "_" +:+ name +:+ endl)
              else
                s ← asString p;
                Ok ("pipeline set " +:+ id +:+ " " +:+ name +:+ " " +:+ s +:+ endl));
      rest ← serialize_sets id props;
      Ok (line +:+ rest)
  end.

(** The data blocks of the text properties; the flag is [have_text]. *)
Fixpoint serialize_texts (id : string) (props : smap string moProperty) : res (string * bool) :=
  match props with
  | [] => Ok (EmptyString, false)
  | (name, p) :: props =>
      if isText p then
        s ← asString p;
        rest ← serialize_texts id props;
        Ok (PIPELINE_BOUNDARY +:+ " " +:+ id +:+ "_" +:+ name +:+ endl
              +:+ s +:+ endl +:+ rest.1, true)
      else serialize_texts id props
  end.

(** [moModule::serializeCreation(oss, do_data)]. *)
Definition serializeCreation (do_data : bool) (m : moModule) : res (string * moModule) :=
  let '(p, m) := property "id" m in
  id ← asString p;
  if do_data then
    t ← serialize_texts id (m_properties m);
    Ok (t.1 +:+ (if t.2 : bool then PIPELINE_BOUNDARY +:+ endl else EmptyString), m)
  else
    sets ← serialize_sets id (m_properties m);
    Ok ("pipeline create " +:+ m_name m +:+ " " +:+ id +:+ endl +:+ sets +:+ endl, m).

(** [moModule::describe]: the text written to standard output. *)
Fixpoint describe_props (props : smap string moProperty) : res string :=
  match props with
  | [] => Ok EmptyString
  | (name, p) :: props =>
      s ← asString p;
      rest ← describe_props props;
      Ok (" " +:+ name +:+ ": " +:+ "type=" +:+ getPropertyTypeName (getType p) +:+ ", "
            +:+ "default=" +:+ s +:+ endl +:+ rest)
  end.

Fixpoint describe_ports (get : Z → option moDataStreamInfo) (fuel : nat) (i : Z) : res string :=
  match fuel with
  | O => Ok EmptyString
  | S fuel =>
      info ← deref (get i);
      rest ← describe_ports get fuel (i + 1)%Z;
      Ok (" " +:+ print_int i +:+ ": name=" +:+ i_name info +:+ ", type=" +:+ i_type info
            +:+ ", desc=" +:+ i_description info +:+ endl +:+ rest)
  end.

Definition describe (m : moModule) : res string :=
  let cap f w := if has_cap f m then w else EmptyString in
  props ← (if 0 <? length (m_properties m) then
             s ← describe_props (m_properties m); Ok (endl +:+ "Properties: " +:+ endl +:+ s)
           else Ok EmptyString);
  ins ← (if has_cap MO_MODULE_INPUT m then
           s ← describe_ports (λ i, getInputInfos i m) (length (m_input_infos m)) 0;
           Ok (endl +:+ "Input :" +:+ endl +:+ s)
         else Ok EmptyString);
  outs ← (if has_cap MO_MODULE_OUTPUT m then
            s ← describe_ports (λ i, getOutputInfos i m) (length (m_output_infos m)) 0;
            Ok (endl +:+ "Output :" +:+ endl +:+ s)
          else Ok EmptyString);
  Ok ("Module: " +:+ m_name m +:+ endl +:+ "Author: " +:+ m_author m +:+ endl
        +:+ "Description: " +:+ m_description m +:+ endl
        +:+ "Capabilities: " +:+ cap MO_MODULE_INPUT "input," +:+ cap MO_MODULE_OUTPUT "output,"
        +:+ cap MO_MODULE_GUI "gui," +:+ endl +:+ props +:+ ins +:+ outs +:+ endl).

(** ** Invariant *)

(** Indexes 0, 1, ..., n - 1, the way every class declares its ports. *)
Definition contiguous (ks : list Z) : Prop := ks = Z.of_nat <$> seq 0 (length ks).

(** A well-formed module: its tables are proper maps, its properties are well
    formed, ports are numbered from 0, described and backed by a member each,
    the destructor deletes output streams only, each once, and a module that
    runs a thread has the thread and its trigger. *)
Record module_wf (m : moModule) : Prop := {
  mwf_props_ordered : ordered (m_properties m);
  mwf_props k p : find k (m_properties m) = Some p → prop_wf p;
  mwf_fields_ordered : ordered (m_fields m);
  mwf_in_keys : keys (m_input_map m) = keys (m_input_infos m);
  mwf_in_contig : contiguous (keys (m_input_infos m));
  mwf_out_keys : keys (m_output_map m) = keys (m_output_infos m);
  mwf_out_contig : contiguous (keys (m_output_infos m));
  mwf_in_fields n f : find n (m_input_map m) = Some f → is_Some (find f (m_fields m));
  mwf_in_inj n n' f : find n (m_input_map m) = Some f → find n' (m_input_map m) = Some f → n = n';
  mwf_disjoint n n' f : find n (m_input_map m) = Some f → find n' (m_output_map m) ≠ Some f;
  mwf_dtor f : f ∈ m_dtor_fields m → ∃ n, find n (m_output_map m) = Some f;
  mwf_dtor_NoDup : NoDup (m_dtor_fields m);
  mwf_thread : m_use_thread m = true → is_Some (m_thread m) ∧ is_Some (m_trigger m);
}.

(** Callbacks are registered by the module itself. *)
Definition cbs_self (self : nat) (m : moModule) : Prop :=
  ∀ k p c, find k (m_properties m) = Some p → c ∈ p_callbacks p → c.2 = self.

(** ** Lemmas *)

Lemma property_wf k m :
  module_wf m → prop_wf (property k m).1 ∧ module_wf (property k m).2.
Proof.
  intros Hm. unfold property. destruct (find k (m_properties m)) as [p|] eqn:E; simpl.
  - split; [by eapply mwf_props|done].
  - assert (prop_wf (alloc MO_PROPERTY_STRING (VString EmptyString) "?? auto created ??"))
      as Hp by (by apply (alloc_wf (VString EmptyString))).
    split; [done|]. destruct Hm. split; simpl; try assumption; auto with movid.
    intros j q. destruct (decide (k = j)) as [<-|]; [rewrite find_insert_eq; by intros [= <-]|].
    rewrite find_insert_ne by done. eauto.
Qed.

Lemma store_property_wf k p m : module_wf m → prop_wf p → module_wf (store_property k p m).
Proof.
  intros Hm Hp. destruct Hm. split; simpl; try assumption; auto with movid.
  intros j q. destruct (decide (k = j)) as [<-|]; [rewrite find_insert_eq; by intros [= <-]|].
  rewrite find_insert_ne by done. eauto.
Qed.

Lemma cbs_self_store self k p m :
  cbs_self self m → (∀ c, c ∈ p_callbacks p → c.2 = self) → cbs_self self (store_property k p m).
Proof.
  intros Hm Hp j q c. simpl. destruct (decide (k = j)) as [<-|].
  - rewrite find_insert_eq. intros [= <-]. apply Hp.
  - rewrite find_insert_ne by done. apply Hm.
Qed.

Lemma cbs_self_property self k m :
  cbs_self self m →
  cbs_self self (property k m).2 ∧ (∀ c, c ∈ p_callbacks (property k m).1 → c.2 = self).
Proof.
  intros Hm. unfold property. destruct (find k (m_properties m)) as [p|] eqn:E; simpl.
  - split; [done|]. intros c. by apply (Hm k).
  - split; [|by intros c ?%elem_of_nil]. apply cbs_self_store; [done|].
    by intros c ?%elem_of_nil.
Qed.

Lemma cbs_self_new name description author capabilities self :
  cbs_self self (new_module name description author capabilities self).
Proof.
  intros k p c. simpl. destruct (kcmp k "gui_feedback"), (kcmp k "use_thread"); intros Hp Hc;
    simplify_eq; simpl in Hc; try (by apply elem_of_nil in Hc);
    by apply list_elem_of_singleton in Hc as ->.
Qed.

Lemma property_idem k m : property k (property k m).2 = ((property k m).1, (property k m).2).
Proof.
  unfold property at 2 3 4. destruct (find k (m_properties m)) as [p|] eqn:E; simpl.
  - unfold property. by rewrite E.
  - unfold property. simpl. by rewrite find_insert_eq.
Qed.

Lemma index_loop_spec fuel get ds i count :
  (0 <= i <= count)%Z → (count - i < Z.of_nat fuel)%Z →
  let r := index_loop fuel get ds i count in
  (r = -1 ∧ ∀ j, (i <= j < count)%Z → get j ≠ ds)%Z
  ∨ ((i <= r < count)%Z ∧ get r = ds ∧ ∀ j, (i <= j < r)%Z → get j ≠ ds).
Proof.
  revert i. induction fuel as [|fuel IH]; intros i Hi Hf; [lia|]. simpl.
  destruct (i <? count)%Z eqn:E; [|left; split; [done|lia]].
  case_bool_decide as Hd.
  - right. split_and!; [lia..|done|lia].
  - destruct (IH (i + 1)%Z) as [[Hr Hn]|(Hr & Hg & Hn)]; [lia..| |].
    + left. split; [done|]. intros j Hj. destruct (decide (j = i)) as [->|]; [congruence|].
      apply Hn. lia.
    + right. split_and!; [lia..|done|]. intros j Hj.
      destruct (decide (j = i)) as [->|]; [congruence|]. apply Hn. lia.
Qed.

Lemma set_field_wf f s m : module_wf m → module_wf (set_field f s m).
Proof.
  intros Hm. destruct Hm. split; simpl; try assumption; auto with movid.
  intros n g Hn. destruct (decide (f = g)) as [<-|]; [rewrite find_insert_eq; eauto|].
  rewrite find_insert_ne by done. eauto.
Qed.

Lemma new_module_wf name description author capabilities self :
  module_wf (new_module name description author capabilities self).
Proof.
  split; try done.
  - apply (ordered_insert "gui_feedback"), ordered_insert, ordered_nil.
  - intros k p. simpl. destruct (kcmp k "gui_feedback"), (kcmp k "use_thread"); intros; simplify_eq;
      (split; [eexists; by split_and!|repeat constructor]).
  - apply ordered_nil.
  - intros f Hf. by apply elem_of_nil in Hf.
  - constructor.
Qed.

(** Declaring the next port appends to the tables. *)
Lemma insert_next {V} (n : Z) (v : V) (m : smap Z V) :
  (∀ k, k ∈ keys m → (k < n)%Z) → insert n v m = m ++ [(n, v)].
Proof.
  induction m as [|[k w] m IH]; intros Hk; [done|]. simpl.
  assert (k < n)%Z as Hlt by (apply Hk; by left).
  assert (kcmp n k = Gt) as -> by (by apply Z.compare_gt_iff).
  rewrite IH; [done|]. intros j Hj. apply Hk. by right.
Qed.

Lemma contiguous_lt l n : contiguous l → n ∈ l → (0 <= n < Z.of_nat (length l))%Z.
Proof.
  unfold contiguous. intros -> Hn. apply list_elem_of_fmap in Hn as (k & -> & Hk).
  apply elem_of_seq in Hk. rewrite length_fmap, length_seq. lia.
Qed.

Lemma insert_port {V} (n : Z) (v : V) (m : smap Z V) :
  contiguous (keys m) → n = Z.of_nat (length m) → insert n v m = m ++ [(n, v)].
Proof.
  intros Hc ->. apply insert_next. intros k Hk%contiguous_lt; [|done].
  unfold keys in Hk. rewrite length_fmap in Hk. lia.
Qed.

Lemma contiguous_snoc {V} (n : Z) (v : V) (m : smap Z V) :
  contiguous (keys m) → n = Z.of_nat (length m) → contiguous (keys (m ++ [(n, v)])).
Proof.
  unfold contiguous, keys. intros Hc ->. rewrite length_fmap, length_app, seq_app.
  rewrite !fmap_app. simpl. rewrite Hc. rewrite !length_fmap. done.
Qed.

Lemma keys_insert_port {A B} (n : Z) (a : A) (b : B) (m1 : smap Z A) (m2 : smap Z B) :
  keys m1 = keys m2 → contiguous (keys m2) → n = Z.of_nat (length m2) →
  keys (insert n a m1) = keys (insert n b m2) ∧ contiguous (keys (insert n b m2)).
Proof.
  intros Hk Hc Hn. assert (length m1 = length m2) as Hl.
  { apply (f_equal length) in Hk. unfold keys in Hk. by rewrite !length_fmap in Hk. }
  rewrite (insert_port n a m1), (insert_port n b m2) by (congruence || by rewrite ?Hk, ?Hl).
  split; [|by apply contiguous_snoc]. unfold keys in *. rewrite !fmap_app, Hk. done.
Qed.

Lemma find_insert_Some `{KeyOrd K, EqDecision K} {V} (k j : K) (v x : V) (m : smap K V) :
  find j (insert k v m) = Some x → (j = k ∧ x = v) ∨ (j ≠ k ∧ find j m = Some x).
Proof.
  destruct (decide (k = j)) as [<-|]; [rewrite find_insert_eq; intros [= <-]; by left|].
  rewrite find_insert_ne by done. auto.
Qed.

(** Port [n] of [m] is the next one and member [f] is not registered yet. *)
Definition unregistered (f : string) (m : moModule) : Prop :=
  is_Some (find f (m_fields m)) ∧ (∀ k, find k (m_input_map m) ≠ Some f)
  ∧ (∀ k, find k (m_output_map m) ≠ Some f).

Lemma declareInput_wf n f info m :
  module_wf m → n = Z.of_nat (length (m_input_infos m)) → unregistered f m →
  module_wf (declareInput n f info m).
Proof.
  intros Hm Hn (Hf & Hi & Ho). destruct Hm.
  destruct (keys_insert_port n f info (m_input_map m) (m_input_infos m)) as [Hk Hc]; [done..|].
  split; simpl; try done.
  - intros k g [[_ ->]|[_ Hg]]%find_insert_Some; eauto.
  - intros k k' g [[-> ->]|[Hne Hg]]%find_insert_Some [[-> Hg']|[Hne' Hg']]%find_insert_Some;
      try done; subst; [by destruct (Hi k')|by destruct (Hi k)|eauto].
  - intros k k' g [[-> ->]|[Hne Hg]]%find_insert_Some; eauto.
Qed.

Lemma declareOutput_wf n f info m :
  module_wf m → n = Z.of_nat (length (m_output_infos m)) → unregistered f m →
  module_wf (declareOutput n f info m).
Proof.
  intros Hm Hn (Hf & Hi & Ho). destruct Hm.
  destruct (keys_insert_port n f info (m_output_map m) (m_output_infos m)) as [Hk Hc]; [done..|].
  split; simpl; try done.
  - intros k k' g Hg [[-> ->]|[Hne Hg']]%find_insert_Some; [by destruct (Hi k)|by eapply mwf_disjoint0].
  - intros g [k Hk']%mwf_dtor0. exists k.
    rewrite find_insert_ne; [done|]. intros ->.
    assert (find k (m_output_map m) = None) as Hnone; [|congruence].
    apply find_None_keys. rewrite mwf_out_keys0. intros Hin%contiguous_lt; [|done].
    unfold keys in Hin. rewrite length_fmap in Hin. lia.
Qed.

(** ** Properties *)

(** Every processed frame is counted exactly once: the frames
    already totalled plus those of the current period grow by one (modulo
    2^64), whether or not the one-second period is closed by this frame; and a
    closed period restarts from zero. *)
Theorem stats_process_counts (curtime : double) (s : mo_module_stats_t) :
  let s' := stats_process curtime s in
  wrap_u64 (total_process_frame s' + st_process_frame s')
    = wrap_u64 (total_process_frame s + st_process_frame s + 1)
  ∧ (d_ltb (d_of_Z 1) (d_add (d_add (st_process_time s) (d_sub curtime (st_last_time s)))
                             (st_wait_time s)) = true →
     st_process_frame s' = 0%Z ∧ st_process_time s' = dzero ∧ st_wait_time s' = dzero)
  ∧ st_last_time s' = curtime.
Proof.
  unfold stats_process. destruct (d_ltb _ _); simpl; (split_and!; [|done|done]).
  - unfold wrap_u64. rewrite Z.add_0_r, Z.mod_mod, Zplus_mod_idemp_r by lia. f_equal. lia.
  - unfold wrap_u64. rewrite Zplus_mod_idemp_r. f_equal. lia.
Qed.

(** [getInputIndex(ds)] is the least index whose input is
    [ds], and -1 when there is none. *)
Theorem getInputIndex_least (ds : option nat) (m : moModule) :
  (getInputIndex ds m = -1 ∧ ∀ j, (0 <= j < getInputCount m)%Z → getInput j m ≠ ds)%Z
  ∨ ((0 <= getInputIndex ds m < getInputCount m)%Z
     ∧ getInput (getInputIndex ds m) m = ds
     ∧ ∀ j, (0 <= j < getInputIndex ds m)%Z → getInput j m ≠ ds).
Proof.
  unfold getInputIndex, getInputCount.
  apply (index_loop_spec _ (λ i, getInput i m)); lia.
Qed.
