(* ===== verification/World.v ===== *)
(** The object graph: modules, data streams and how they are connected.

    Models [moDataStream] (src/src/moDataStream.{h,cpp}) and the operations of
    [moModule] (src/src/moModule.cpp) that reach other objects.  The heap maps
    an address to the object; following a dangling address is [FBadAccess],
    so a theorem that an operation returns also says it touches no deleted
    object.  Methods the classes override are the fields of [Virtuals]: the
    operations are written against that interface and the base class is one
    instance of it ([base_virtuals]).

    Locks: in this sequential model [lock]/[unlock] pairs are not recorded;
    [push] hands the data over and then notifies the observers one by one. *)
From S2P Require Import Prelude StdMap Numeric Utils Property Container Module.

(** ** Data streams *)

Record IplImage := { img_width : Z; img_height : Z; img_depth : Z; img_nChannels : Z }.

(** What the [void *data] of a stream points to. *)
Inductive payload :=
  | PImage (img : IplImage)
  | PBlobs (l : container_list).

Record moDataStream := {
  s_format : string;
  s_data : option payload;
  s_observers : list nat;
}.

Definition new_stream (format : string) : moDataStream :=
  {| s_format := format; s_data := None; s_observers := [] |}.
Definition s_setFormat (format : string) (s : moDataStream) : moDataStream :=
  {| s_format := format; s_data := s_data s; s_observers := s_observers s |}.
Definition s_setData (d : option payload) (s : moDataStream) : moDataStream :=
  {| s_format := s_format s; s_data := d; s_observers := s_observers s |}.
Definition upd_observers (g : list nat → list nat) (s : moDataStream) : moDataStream :=
  {| s_format := s_format s; s_data := s_data s; s_observers := g (s_observers s) |}.

(** [observers.erase(it)] at the first occurrence. *)
Fixpoint remove1 (a : nat) (l : list nat) : list nat :=
  match l with
  | [] => []
  | b :: l => if bool_decide (b = a) then l else b :: remove1 a l
  end.

Definition s_addObserver (a : nat) : moDataStream → moDataStream := upd_observers (λ l, l ++ [a]).
Definition s_removeObserver (a : nat) : moDataStream → moDataStream := upd_observers (remove1 a).
Definition getObserverCount (s : moDataStream) : nat := length (s_observers s).
Definition getObserver (index : nat) (s : moDataStream) : res nat :=
  match s_observers s !! index with Some a => Ok a | None => Fault FAssert end.

(** ** The heap *)

(** [w_threads]: the running threads, each with the module it serves and its
    [want_quit] flag.  [w_idcount] is the counter of [createId], [w_loglevel]
    is [g_loglevel], [w_config_delay] is [g_config_delay], [w_now] is what
    [moUtils::time()] returns and [w_display_count] is the [_count] of
    moImageDisplayModule.cpp. *)
Record world := {
  w_modules : gmap nat moModule;
  w_streams : gmap nat moDataStream;
  w_threads : gmap nat (nat * bool);
  w_next : nat;
  w_idcount : Z;
  w_loglevel : Z;
  w_config_delay : Z;
  w_now : double;
  w_display_count : Z;
}.

Definition upd_w_modules (g : gmap nat moModule → gmap nat moModule) (r : world) : world :=
  {| w_modules := g (w_modules r); w_streams := w_streams r; w_threads := w_threads r; w_next
     := w_next r; w_idcount := w_idcount r; w_loglevel := w_loglevel r; w_config_delay :=
     w_config_delay r; w_now := w_now r;
     w_display_count := w_display_count r |}.
Definition upd_w_streams (g : gmap nat moDataStream → gmap nat moDataStream) (r : world) : world :=
  {| w_modules := w_modules r; w_streams := g (w_streams r); w_threads := w_threads r; w_next
     := w_next r; w_idcount := w_idcount r; w_loglevel := w_loglevel r; w_config_delay :=
     w_config_delay r; w_now := w_now r;
     w_display_count := w_display_count r |}.
Definition upd_w_threads (g : gmap nat (nat * bool) → gmap nat (nat * bool)) (r : world) : world :=
  {| w_modules := w_modules r; w_streams := w_streams r; w_threads := g (w_threads r); w_next
     := w_next r; w_idcount := w_idcount r; w_loglevel := w_loglevel r; w_config_delay :=
     w_config_delay r; w_now := w_now r;
     w_display_count := w_display_count r |}.
Definition upd_w_next (g : nat → nat) (r : world) : world :=
  {| w_modules := w_modules r; w_streams := w_streams r; w_threads := w_threads r; w_next :=
     g (w_next r); w_idcount := w_idcount r; w_loglevel := w_loglevel r; w_config_delay :=
     w_config_delay r; w_now := w_now r;
     w_display_count := w_display_count r |}.
Definition upd_w_idcount (g : Z → Z) (r : world) : world :=
  {| w_modules := w_modules r; w_streams := w_streams r; w_threads := w_threads r; w_next :=
     w_next r; w_idcount := g (w_idcount r); w_loglevel := w_loglevel r; w_config_delay :=
     w_config_delay r; w_now := w_now r;
     w_display_count := w_display_count r |}.
Definition upd_w_config_delay (g : Z → Z) (r : world) : world :=
  {| w_modules := w_modules r; w_streams := w_streams r; w_threads := w_threads r; w_next :=
     w_next r; w_idcount := w_idcount r; w_loglevel := w_loglevel r; w_config_delay := g
     (w_config_delay r); w_now := w_now r;
     w_display_count := w_display_count r |}.
Definition upd_w_now (g : double → double) (r : world) : world :=
  {| w_modules := w_modules r; w_streams := w_streams r; w_threads := w_threads r; w_next :=
     w_next r; w_idcount := w_idcount r; w_loglevel := w_loglevel r; w_config_delay :=
     w_config_delay r; w_now := g (w_now r);
     w_display_count := w_display_count r |}.
Definition upd_w_display_count (g : Z → Z) (r : world) : world :=
  {| w_modules := w_modules r; w_streams := w_streams r; w_threads := w_threads r; w_next :=
     w_next r; w_idcount := w_idcount r; w_loglevel := w_loglevel r; w_config_delay :=
     w_config_delay r; w_now := w_now r; w_display_count := g (w_display_count r) |}.

(** ** The state and error monad of the program *)

Definition M (A : Type) : Type := world → res (A * world).
#[export] Instance M_ret : MRet M := λ A a w, Ok (a, w).
#[export] Instance M_bind : MBind M := λ A B k m w,
  match m w with Ok (a, w') => k a w' | Fault f => Fault f end.

Definition lift {A} (r : res A) : M A := λ w,
  match r with Ok a => Ok (a, w) | Fault f => Fault f end.
Definition modify (g : world → world) : M unit := λ w, Ok (tt, g w).
Definition gets {A} (g : world → A) : M A := λ w, Ok (g w, w).
Definition skip : M unit := mret tt.

Fixpoint for_each {A} (f : A → M unit) (l : list A) : M unit :=
  match l with
  | [] => skip
  | a :: l => f a;; for_each f l
  end.

Definition getm (a : nat) : M moModule := λ w,
  match w_modules w !! a with Some m => Ok (m, w) | None => Fault FBadAccess end.
Definition gets_at (s : nat) : M moDataStream := λ w,
  match w_streams w !! s with Some st => Ok (st, w) | None => Fault FBadAccess end.

Definition put_module (a : nat) (m : moModule) : world → world := upd_w_modules (<[a:=m]>).
Definition put_stream (s : nat) (st : moDataStream) : world → world := upd_w_streams (<[s:=st]>).

Definition mod_module (a : nat) (g : moModule → moModule) : M unit :=
  m ← getm a; modify (put_module a (g m)).
Definition mod_stream (s : nat) (g : moDataStream → moDataStream) : M unit :=
  st ← gets_at s; modify (put_stream s (g st)).

(** [new moDataStream(format)]. *)
Definition alloc_stream (format : string) : M nat := λ w,
  let s := w_next w in
  Ok (s, upd_w_next S (put_stream s (new_stream format) w)).

(** ** Log levels *)

Definition MO_CRITICAL : Z := 0.
Definition MO_ERROR : Z := 1.
Definition MO_WARNING : Z := 2.
Definition MO_INFO : Z := 3.
Definition MO_DEBUG : Z := 4.
Definition MO_TRACE : Z := 5.

(** [a->property(name)]. *)
Definition property_of (a : nat) (name : string) : M moProperty :=
  m ← getm a;
  let '(p, m) := property name m in
  modify (put_module a m);; mret p.

(** [LOGM] and [LOG(level, ... property("id") ...)]: only when the level is
    enabled is the id looked up (and created when missing). *)
Definition log_id (level : Z) (a : nat) : M unit :=
  lvl ← gets w_loglevel;
  if (level <=? lvl)%Z then
    p ← property_of a "id"; _ ← lift (asString p); skip
  else skip.

(** ** Overridable methods *)

Class Virtuals := {
  v_start : nat → M unit;
  v_stop : nat → M unit;
  v_update : nat → M unit;
  v_poll : nat → M unit;
  v_notifyData : nat → nat → M unit;
  v_guiFeedback : nat → string → double → double → M unit;
  v_guiBuild : nat → M unit;
  v_callback : Z → nat → string → M unit;
}.

(** [moModule::start]. *)
Definition moModule_start (a : nat) : M unit :=
  p ← property_of a "use_thread";
  b ← lift (asBool p);
  now ← gets w_now;
  mod_module a (λ m, upd_m_stats (stats_init now) (upd_m_use_thread (λ _, b) m));;
  (if b : bool then
     m ← getm a;
     (match m_trigger m with
      | None => log_id MO_TRACE a;; mod_module a (upd_m_trigger (λ _, Some false))
      | Some _ => skip
      end);;
     log_id MO_TRACE a;;
     t ← gets w_next;
     modify (λ w, upd_w_next S (upd_w_threads (<[t := (a, false)]>) w));;
     mod_module a (upd_m_thread (λ _, Some t))
   else skip);;
  mod_module a (upd_m_is_started (λ _, true));;
  log_id MO_DEBUG a.

(** [moModule::stop].  [waitfor] returns once the thread has left its loop,
    which the quit flag and the posted trigger make it do. *)
Definition moModule_stop (a : nat) : M unit :=
  m ← getm a;
  (match m_use_thread m, m_thread m with
   | true, Some t =>
       _ ← lift (deref (m_trigger m));
       modify (upd_w_threads (delete t));;
       mod_module a (λ m, upd_m_use_thread (λ _, false)
                            (upd_m_thread (λ _, None)
                               (upd_m_trigger (λ _, Some true) m)))
   | _, _ => skip
   end);;
  mod_module a (λ m, upd_m_is_started (λ _, false) (upd_m_need_update (λ _, false) m));;
  log_id MO_DEBUG a.

(** [moModule::poll]; [update] is the one of the class. *)
Definition poll (update : nat → M unit) (a : nat) : M unit :=
  m ← getm a;
  if m_use_thread m then skip
  else
    let '(b, m) := needUpdate m in
    modify (put_module a m);;
    if b : bool then
      now ← gets w_now;
      mod_module a (upd_m_stats (stats_wait now));;
      update a;;
      now ← gets w_now;
      mod_module a (upd_m_stats (stats_process now))
    else skip.

(** [moModule::notifyUpdate]; [start] is the one of the class. *)
Definition notifyUpdate (start : nat → M unit) (a : nat) : M unit :=
  m ← getm a;
  (if m_is_started m then skip else start a);;
  mod_module a (upd_m_need_update (λ _, true));;
  m ← getm a;
  if m_use_thread m then
    _ ← lift (deref (m_trigger m));
    mod_module a (upd_m_trigger (λ _, Some true))
  else skip.

(** The base class: nothing overridden.  [update] is pure virtual. *)
Definition base_virtuals : Virtuals := {|
  v_start := moModule_start;
  v_stop := moModule_stop;
  v_update := λ _, skip;
  v_poll := poll (λ _, skip);
  v_notifyData := λ _ _, skip;
  v_guiFeedback := λ _ _ _ _, skip;
  v_guiBuild := λ _, skip;
  v_callback := λ _ _ _, skip;
|}.

Section Operations.
  Context {V : Virtuals}.

  (** *** Properties with their callbacks *)

  (** [module_gui_feedback_cb]: splits "type;x;y" and forwards it. *)
Definition module_gui_feedback_cb (owner : nat) (name : string) (userdata : nat) : M unit :=
    p ← property_of owner name;
    s ← lift (asString p);
    if bool_decide (s = EmptyString) then skip
    else
      tokens ← lift (tokenize s ";");
      match tokens with
      | [type; x; y] => v_guiFeedback userdata type (atof x) (atof y)
      | _ => skip
      end.

Definition run_call (owner : nat) (name : string) (c : call) : M unit :=
    if (c.1 =? CB_gui_feedback)%Z then module_gui_feedback_cb owner name c.2
    else v_callback c.1 c.2 name.

  (** [a->property(name).set(v)]. *)
Definition set_property (a : nat) (name : string) (typein : moPropertyType) (v : pvalue)
      : M unit :=
    p ← property_of a name;
    pc ← lift (set_value typein v p);
    mod_module a (store_property name pc.1);;
    for_each (run_call a name) pc.2.

Definition set_property_string (a : nat) (name value : string) : M unit :=
    set_property a name MO_PROPERTY_STRING (VString value).

  (** *** Running *)

  (** [moModule::getGui]. *)
Definition getGui (a : nat) : M (list string) :=
    m ← getm a;
    lift (assert_ (has_cap MO_MODULE_GUI m));;
    (if m_need_gui_build m then
       mod_module a (upd_m_need_gui_build (λ _, false));; v_guiBuild a
     else skip);;
    m ← getm a;
    mret (m_gui m).

  (** *** Streams *)

  (** [moDataStream::notifyObservers] and [push]. *)
Definition notifyObservers (s : nat) : M unit :=
    st ← gets_at s;
    for_each (λ a, v_notifyData a s) (s_observers st).

Definition push (s : nat) (data : option payload) : M unit :=
    mod_stream s (s_setData data);;
    notifyObservers s.
End Operations.

(** [moModule::setInput]. *)
Definition setInput (a : nat) (stream : option nat) (n : Z) : M unit :=
  m ← getm a;
  match find n (m_input_map m) with
  | None => mod_module a (setError "Invalid input index")
  | Some input =>
      let info := find n (m_input_infos m) in
      (match field input m with
       | Some s => mod_stream s (s_removeObserver a)
       | None => skip
       end);;
      mod_module a (set_field input stream);;
      match stream with
      | None => skip
      | Some s =>
          st ← gets_at s;
          info ← lift (deref info);
          valid ← lift (isStreamValid info (Some (s_format st)));
          if valid : bool then mod_stream s (s_addObserver a)
          else
            mod_module a (setError ("Input " +:+ print_int n +:+ " accepts <" +:+ i_type info
                            +:+ "> but got <" +:+ s_format st +:+ ">"));;
            mod_module a (set_field input None)
      end
  end.

(** [setInputType] and [setOutputType]. *)
Definition setInputType (a : nat) (n : Z) (type : string) : M unit :=
  m ← getm a;
  (match getInput n m with Some s => mod_stream s (s_setFormat type) | None => skip end);;
  match getInputInfos n m with
  | Some i => mod_module a (upd_m_input_infos (insert n (info_setType type i)))
  | None => skip
  end.

Definition setOutputType (a : nat) (n : Z) (type : string) : M unit :=
  m ← getm a;
  (match getOutput n m with Some s => mod_stream s (s_setFormat type) | None => skip end);;
  match getOutputInfos n m with
  | Some i => mod_module a (upd_m_output_infos (insert n (info_setType type i)))
  | None => skip
  end.

(** The inner loop of [removeObservers]: the first input of [a] fed by [s]. *)
Fixpoint scan_inputs (s : nat) (m : moModule) (fuel : nat) (i : Z) : option Z :=
  match fuel with
  | O => None
  | S fuel =>
      if bool_decide (getInput i m = Some s) then Some i else scan_inputs s m fuel (i + 1)
  end.

(** The outer loop: the first observer with such an input. *)
Fixpoint scan_observers (s : nat) (obs : list nat) : M (option (nat * Z)) :=
  match obs with
  | [] => mret None
  | a :: obs =>
      m ← getm a;
      match scan_inputs s m (length (m_input_infos m)) 0 with
      | Some i => mret (Some (a, i))
      | None => scan_observers s obs
      end
  end.

(** [moDataStream::removeObservers]: disconnect one input and restart, until
    no observer has an input on this stream ([goto restartremove]).  The
    boolean is [false] when the fuel ran out. *)
Fixpoint removeObservers_loop (fuel : nat) (s : nat) : M bool :=
  match fuel with
  | O => mret false
  | S fuel =>
      st ← gets_at s;
      r ← scan_observers s (s_observers st);
      match r with
      | Some (a, i) => setInput a None i;; removeObservers_loop fuel s
      | None => mod_stream s (upd_observers (λ _, []));; mret true
      end
  end.

(** Every restart has erased one entry of [observers]
    ([removeObservers_disconnects]), so this fuel is enough. *)
Definition removeObservers (s : nat) : M bool :=
  st ← gets_at s;
  removeObservers_loop (S (length (s_observers st))) s.

(** [delete a]: the class's destructor deletes the streams it owns, then
    [~moModule] stops the module and releases it. *)
Definition delete_module (a : nat) : M unit :=
  m ← getm a;
  for_each (λ f, match field f m with
                 | Some s => _ ← gets_at s; modify (upd_w_streams (delete s))
                 | None => skip
                 end) (m_dtor_fields m);;
  moModule_stop a;;
  modify (upd_w_modules (delete a)).

(** [moModule::createId(base)]. *)
Definition createId (base : string) : M string := λ w,
  Ok (base +:+ print_int (w_idcount w), upd_w_idcount (λ n, (n + 1) mod 2 ^ 32)%Z w).

(** [moModule::serializeConnections]: for every output, one line per observer
    that is not internal. *)
Fixpoint connect_lines (id : string) (i : Z) (s : nat) (obs : list nat) : M string :=
  match obs with
  | [] => mret EmptyString
  | o :: obs =>
      m ← getm o;
      if m_is_internal m then connect_lines id i s obs
      else
        p ← property_of o "id";
        oid ← lift (asString p);
        m ← getm o;
        rest ← connect_lines id i s obs;
        mret ("pipeline connect " +:+ id +:+ " " +:+ print_int i +:+ " " +:+ oid +:+ " "
                +:+ print_int (getInputIndex (Some s) m) +:+ " " +:+ endl +:+ rest)
  end.

Fixpoint connections_loop (a : nat) (id : string) (fuel : nat) (i : Z) : M string :=
  match fuel with
  | O => mret EmptyString
  | S fuel =>
      m ← getm a;
      line ← match getOutput i m with
             | None => mret EmptyString
             | Some s => st ← gets_at s; connect_lines id i s (s_observers st)
             end;
      rest ← connections_loop a id fuel (i + 1)%Z;
      mret (line +:+ rest)
  end.

Definition serializeConnections (a : nat) : M string :=
  p ← property_of a "id";
  id ← lift (asString p);
  m ← getm a;
  connections_loop a id (length (m_output_infos m)) 0.
