(* ===== verification/Log.v ===== *)
(** The log and the daemon: src/src/moLog.{h,cpp} and src/src/moDaemon.cpp.

    A message is built piece by piece and written when it goes out of scope:
    to the system log or to the standard output.  The clock, the environment
    and the result of fork are arguments; what is written is the result. *)
From S2P Require Import Prelude StdMap Numeric Utils Property Container Module World.
#[local] Open Scope Z_scope.

(** ** The log *)

(** [g_loglevel] and [g_use_syslog]. *)
Record log_state := { g_loglevel : Z; g_use_syslog : bool }.
(** [moLog::init]; [mo_debug] and [mo_trace] tell whether the environment has
    MO_DEBUG and MO_TRACE. *)
Definition log_init (use_syslog mo_debug mo_trace : bool) : log_state :=
  let level := MO_INFO in
  let level := if mo_debug then MO_DEBUG else level in
  let level := if mo_trace then MO_TRACE else level in
  {| g_loglevel := level; g_use_syslog := use_syslog |}.
Definition getLogLevel (st : log_state) : Z := g_loglevel st.
Definition setLogLevel (n : Z) (st : log_state) : log_state := {| g_loglevel := n; g_use_syslog := g_use_syslog st |}.

(** The priorities of syslog.h. *)
Definition LOG_EMERG : Z := 0.
Definition LOG_CRIT : Z := 2.
Definition LOG_ERR : Z := 3.
Definition LOG_WARNING : Z := 4.
Definition LOG_INFO : Z := 6.
Definition LOG_DEBUG : Z := 7.
Definition LOG_USER : Z := 8.
Definition getSysLogLevel (n : Z) : Z :=
  if n =? MO_CRITICAL then LOG_CRIT else if n =? MO_ERROR then LOG_ERR else if n =? MO_WARNING then LOG_WARNING
  else if n =? MO_INFO then LOG_INFO else if n =? MO_DEBUG then LOG_DEBUG else 0.
Definition getLogLevelName (n : Z) : string :=
  if n =? MO_CRITICAL then "Critical" else if n =? MO_ERROR then "Error" else if n =? MO_WARNING then "Warning"
  else if n =? MO_INFO then "Info" else if n =? MO_DEBUG then "Debug" else if n =? MO_TRACE then "Trace" else "Unknown".

Inductive log_line := ToSyslog (priority : Z) (text : string) | ToStdout (text : string).
Record moLogMessage := { lm_os : string; lm_level : Z }.
(** The constructor; [clock] is the time as strftime prints it. *)
Definition new_log_message (st : log_state) (clock name : string) (level : Z) : moLogMessage :=
  {| lm_os := (if g_use_syslog st then EmptyString else clock +:+ " | ") +:+ getLogLevelName level +:+ " | " +:+ name +:+ " | ";
     lm_level := level |}.
(** [operator<<], the argument as the stream prints it. *)
Definition add_piece (st : log_state) (m : moLogMessage) (piece : string) : moLogMessage :=
  if lm_level m <=? g_loglevel st then {| lm_os := lm_os m +:+ piece; lm_level := lm_level m |} else m.
(** The destructor. *)
Definition write_message (st : log_state) (m : moLogMessage) : list log_line :=
  if lm_level m <=? g_loglevel st then
    if g_use_syslog st then [ToSyslog (Z.lor LOG_USER (getSysLogLevel (lm_level m))) (lm_os m)] else [ToStdout (lm_os m)]
  else [].
(** The macro [LOG]. *)
Definition LOG (st : log_state) (clock name : string) (level : Z) (pieces : list string) : list log_line :=
  if level <=? g_loglevel st then write_message st (foldl (add_piece st) (new_log_message st clock name level) pieces) else [].

(** ** The daemon *)

(** What [moDaemon::detach] does with the pid file and the log, and whether the
    process goes on. *)
Record detached := { dt_go_on : bool; dt_pidfile : option string; dt_log : list log_line }.
Definition detach (st : log_state) (clock : string) (pid : Z) (writable : bool) (pidfilename : string) : detached :=
  let log := LOG st clock "Daemon" in
  let file := if (0 <? pid) && writable then Some (print_int pid +:+ String (Ascii.ascii_of_nat 10) EmptyString) else None in
  {| dt_go_on := pid <=? 0;
     dt_pidfile := file;
     dt_log :=
       (if 0 <? pid then
          log MO_INFO ["child process created with pid "; print_int pid]
          ++ (if writable then [] else log MO_ERROR ["Cannot write pidfile "; pidfilename])
        else [])
       ++ (if pid <? 0 then log MO_ERROR ["no child process could be created, but this process is still living"] else []) |}.

(** ** Theorems *)

Lemma add_pieces st pieces : ∀ m, lm_level m <= g_loglevel st →
  foldl (add_piece st) m pieces = {| lm_os := lm_os m +:+ foldr String.append EmptyString pieces; lm_level := lm_level m |}.
Proof.
  induction pieces as [|p pieces IH]; intros m Hm; simpl; [destruct m; simpl; by rewrite sapp_nil_r|].
  unfold add_piece at 2. rewrite (proj2 (Z.leb_le _ _) Hm). rewrite IH by done. simpl. by rewrite sapp_assoc.
Qed.
(** A message of an enabled level gives one line, in which its pieces follow the
    time (but for the system log), the level and the name; one of a level that
    is not enabled gives none. *)
Theorem log_one_line (st : log_state) (clock name : string) (level : Z) (pieces : list string) :
  LOG st clock name level pieces =
  if level <=? g_loglevel st then
    let text := getLogLevelName level +:+ " | " +:+ name +:+ " | " +:+ foldr String.append EmptyString pieces in
    [if g_use_syslog st then ToSyslog (Z.lor LOG_USER (getSysLogLevel level)) text else ToStdout (clock +:+ " | " +:+ text)]
  else [].
Proof.
  unfold LOG. destruct (Z.leb_spec level (g_loglevel st)) as [H|H]; [|done]. rewrite add_pieces by done.
  unfold write_message, new_log_message. cbn [lm_os lm_level]. rewrite (proj2 (Z.leb_le _ _) H).
  destruct (g_use_syslog st); cbv zeta; by rewrite <-?sapp_assoc.
Qed.
(** More severe levels have more severe priorities, except that a trace is
    logged as an emergency. *)
Theorem syslog_priorities (a b : Z) :
  MO_CRITICAL <= a < b → b <= MO_DEBUG → getSysLogLevel a < getSysLogLevel b ∧ getSysLogLevel MO_TRACE = LOG_EMERG.
Proof.
  unfold MO_CRITICAL, MO_DEBUG. intros Ha Hb. assert (a = 0 ∨ a = 1 ∨ a = 2 ∨ a = 3) as Hc by lia. assert (b = 1 ∨ b = 2 ∨ b = 3 ∨ b = 4) as Hd by lia.
  destruct Hc as [->|[->|[->| ->]]], Hd as [->|[->|[->| ->]]]; try lia; done.
Qed.
(** The parent leaves and has written the pid of its child, which atoi reads
    back; the child, and a process that could not fork, go on. *)
Theorem detach_parent_leaves (st : log_state) (clock pidfilename : string) (pid : Z) :
  in_int pid = true →
  dt_go_on (detach st clock pid true pidfilename) = negb (0 <? pid)
  ∧ (0 < pid → ∃ text, dt_pidfile (detach st clock pid true pidfilename) = Some (text +:+ String (Ascii.ascii_of_nat 10) EmptyString) ∧ atoi text = pid).
Proof.
  intros Hp. split; [unfold detach; simpl; by rewrite Z.leb_antisym|]. intros Hpos. unfold detach. cbn [dt_pidfile].
  rewrite (proj2 (Z.ltb_lt _ _) Hpos). exists (print_int pid). split; [done|]. by apply atoi_print_int.
Qed.
