(* ===== verification/Wiring.v ===== *)
(** The wiring invariant of the object graph and the operations that edit it.

    [world_wf] says that connections are recorded consistently on both sides:
    a module occurs in the observer list of a live stream exactly as many
    times as it has inputs on that stream, and neither side refers to a
    deleted object.  [moModule::setInput], [moDataStream::removeObservers] and
    module deletion are shown to keep it, on every branch. *)
From S2P Require Import Prelude StdMap Numeric Utils Property Container Module World.

(** ** The invariant *)

Definition occ (a : nat) (l : list nat) : nat := length (filter (λ b, b = a) l).

Definition inputs_on (s : nat) (m : moModule) : nat :=
  length (filter (λ n, getInput n m = Some s) (keys (m_input_map m))).

(** Ownership: every output is a live stream that belongs to one port of one
    module, and addresses in use are below the allocation counter. *)
Record own_wf (w : world) : Prop := {
  own_out_live a m n s :
    w_modules w !! a = Some m → getOutput n m = Some s → is_Some (w_streams w !! s);
  own_owned a m n b m' n' s :
    w_modules w !! a = Some m → w_modules w !! b = Some m' →
    getOutput n m = Some s → getOutput n' m' = Some s → a = b ∧ n = n';
  own_mod_fresh a : is_Some (w_modules w !! a) → a < w_next w;
  own_str_fresh s : is_Some (w_streams w !! s) → s < w_next w;
}.

Record world_wf (w : world) : Prop := {
  wwf_modules a m : w_modules w !! a = Some m → module_wf m;
  wwf_wired s st a m :
    w_streams w !! s = Some st → w_modules w !! a = Some m →
    occ a (s_observers st) = inputs_on s m;
  wwf_obs_live s st a :
    w_streams w !! s = Some st → a ∈ s_observers st → is_Some (w_modules w !! a);
  wwf_in_live a m n s :
    w_modules w !! a = Some m → getInput n m = Some s → is_Some (w_streams w !! s);
  wwf_own : own_wf w;
  wwf_cbs a m : w_modules w !! a = Some m → cbs_self a m;
}.

(** ** Counting *)

Lemma filter_ext_elem {A} (P Q : A → Prop) `{∀ x, Decision (P x)} `{∀ x, Decision (Q x)} (l : list A) :
  (∀ x, x ∈ l → P x ↔ Q x) → filter P l = filter Q l.
Proof.
  intros Hpq. induction l as [|x l IH]; [done|]. rewrite !filter_cons.
  rewrite IH by (intros; apply Hpq; by right).
  specialize (Hpq x ltac:(by left)). repeat case_decide; tauto || done.
Qed.

Lemma count_update {A} (P Q : A → Prop) `{∀ x, Decision (P x)} `{∀ x, Decision (Q x)} (l : list A) n :
  NoDup l → n ∈ l → (∀ k, k ≠ n → P k ↔ Q k) →
  length (filter P l) + (if decide (Q n) then 1 else 0)
  = length (filter Q l) + (if decide (P n) then 1 else 0).
Proof.
  intros Hnd Hin Hpq. induction l as [|k l IH]; [by apply elem_of_nil in Hin|].
  apply NoDup_cons in Hnd as [Hk Hnd]. rewrite !filter_cons.
  apply elem_of_cons in Hin as [->|Hin].
  - assert (filter P l = filter Q l) as ->.
    { apply filter_ext_elem. intros x Hx. apply Hpq. congruence. }
    repeat case_decide; simpl; lia.
  - specialize (IH Hnd Hin). assert (k ≠ n) as Hne by congruence.
    specialize (Hpq k Hne). repeat case_decide; simpl in *; try lia; tauto.
Qed.

Lemma occ_app a l k : occ a (l ++ k) = occ a l + occ a k.
Proof. unfold occ. by rewrite filter_app, length_app. Qed.

Lemma occ_single a b : occ a [b] = if decide (b = a) then 1 else 0.
Proof. unfold occ. rewrite filter_cons, filter_nil. by case_decide. Qed.

Lemma occ_elem a (l : list nat) : a ∈ l ↔ 0 < occ a l.
Proof.
  unfold occ. induction l as [|b l IH]; [simpl; split; [by intros ?%elem_of_nil|lia]|].
  rewrite elem_of_cons, IH, filter_cons. case_decide; simpl; naive_solver lia.
Qed.

Lemma occ_remove1 a b l :
  occ a (remove1 b l) = if decide (a = b) then occ a l - 1 else occ a l.
Proof.
  unfold occ. induction l as [|c l IH]; simpl; [by case_decide|].
  case_bool_decide as Hc; rewrite !filter_cons.
  - subst. repeat case_decide; simpl; try lia; congruence.
  - destruct (decide (c = a)) as [->|Hca].
    + rewrite decide_False in * by congruence. simpl. by rewrite IH.
    + exact IH.
Qed.

Lemma elem_of_remove1 a b (l : list nat) : a ∈ remove1 b l → a ∈ l.
Proof.
  induction l as [|c l IH]; simpl; [done|]. case_bool_decide; [by right|].
  rewrite !elem_of_cons. naive_solver.
Qed.

Lemma length_remove1 a l : a ∈ l → length l = S (length (remove1 a l)).
Proof.
  induction l as [|c l IH]; simpl; [by intros ?%elem_of_nil|].
  intros [->|Hin]%elem_of_cons; [by rewrite bool_decide_true|].
  case_bool_decide; [done|]. simpl. by rewrite <-IH.
Qed.

(** ** Fields and inputs of a module *)

Lemma insert_insert `{KeyOrd K} {V} (k : K) (v v' : V) (m : smap K V) :
  insert k v (insert k v' m) = insert k v m.
Proof.
  induction m as [|[j w] m IH]; simpl; [by rewrite kcmp_refl|].
  destruct (kcmp k j) eqn:E; simpl; rewrite ?kcmp_refl; [done|done|]. by rewrite E, IH.
Qed.

Lemma set_field_set_field f v v' m : set_field f v (set_field f v' m) = set_field f v m.
Proof. unfold set_field, upd_m_fields. simpl. by rewrite insert_insert. Qed.

Lemma field_set_eq f v m : field f (set_field f v m) = v.
Proof. unfold field. simpl. by rewrite find_insert_eq. Qed.
Lemma field_set_ne f g v m : f ≠ g → field g (set_field f v m) = field g m.
Proof. intros. unfold field. simpl. by rewrite find_insert_ne. Qed.

Lemma getInput_set_field f v m k :
  getInput k (set_field f v m) =
  if decide (find k (m_input_map m) = Some f) then v else getInput k m.
Proof.
  unfold getInput. simpl. destruct (find k (m_input_map m)) as [g|]; [|done].
  destruct (decide (f = g)) as [->|Hne].
  - rewrite decide_True by done. apply field_set_eq.
  - rewrite decide_False by congruence. by apply field_set_ne.
Qed.

Lemma find_key `{KeyOrd K} {V} (k : K) (m : smap K V) v : find k m = Some v → k ∈ keys m.
Proof. intros Hk%find_Some_elem. by apply (list_elem_of_fmap_2 fst) in Hk. Qed.

Lemma contiguous_NoDup l : contiguous l → NoDup l.
Proof. unfold contiguous. intros ->. apply NoDup_fmap; [apply _|]. apply NoDup_seq. Qed.

Lemma mwf_in_NoDup m : module_wf m → NoDup (keys (m_input_map m)).
Proof. intros H. rewrite (mwf_in_keys m H). apply contiguous_NoDup, mwf_in_contig, H. Qed.

Lemma inputs_on_set_field m n f s v :
  module_wf m → find n (m_input_map m) = Some f →
  inputs_on s (set_field f v m) + (if decide (field f m = Some s) then 1 else 0)
  = inputs_on s m + (if decide (v = Some s) then 1 else 0).
Proof.
  intros Hm Hn. unfold inputs_on.
  pose proof (count_update (λ k, getInput k (set_field f v m) = Some s)
    (λ k, getInput k m = Some s) (keys (m_input_map m)) n) as H.
  change (m_input_map (set_field f v m)) with (m_input_map m).
  cbv beta in H. rewrite getInput_set_field in H.
  rewrite (decide_True (P := find n (m_input_map m) = Some f)) in H by exact Hn.
  assert (getInput n m = field f m) as E by (unfold getInput; by rewrite Hn).
  rewrite E in H. apply H.
  - by apply mwf_in_NoDup.
  - by eapply find_key.
  - intros k Hk. rewrite getInput_set_field, decide_False; [done|].
    intros Hf. apply Hk. eapply mwf_in_inj; eauto.
Qed.

Lemma inputs_on_pos m n s : getInput n m = Some s → 0 < inputs_on s m.
Proof.
  intros Hn. unfold inputs_on. destruct (find n (m_input_map m)) as [f|] eqn:E;
    [|unfold getInput in Hn; by rewrite E in Hn].
  apply find_key in E.
  assert (n ∈ filter (λ n, getInput n m = Some s) (keys (m_input_map m))) as Hin
    by (by apply list_elem_of_filter).
  destruct (filter _ _); [by apply elem_of_nil in Hin|simpl; lia].
Qed.

Lemma inputs_on_0 m s : inputs_on s m = 0 → ∀ n, getInput n m ≠ Some s.
Proof. intros H n Hn%inputs_on_pos. lia. Qed.

Lemma setError_wf msg m : module_wf m → module_wf (setError msg m).
Proof. intros []. by split. Qed.
Lemma setError_inputs msg m s : inputs_on s (setError msg m) = inputs_on s m.
Proof. done. Qed.

(** ** Ownership *)

(** A module changed in place keeps ownership as long as its outputs and the
    set of live streams stay. *)
Lemma own_wf_step a m m' w w' :
  own_wf w → w_modules w !! a = Some m → (∀ n, getOutput n m' = getOutput n m) →
  (∀ b, w_modules w' !! b = if decide (a = b) then Some m' else w_modules w !! b) →
  (∀ s, is_Some (w_streams w' !! s) ↔ is_Some (w_streams w !! s)) →
  w_next w' = w_next w → own_wf w'.
Proof.
  intros Hw Hm Hout Hmod Hstr Hnext.
  assert (Hget : ∀ b x n s, w_modules w' !! b = Some x → getOutput n x = Some s →
            ∃ y, w_modules w !! b = Some y ∧ getOutput n y = Some s).
  { intros b x n s. rewrite Hmod. case_decide; [|eauto]. intros [= <-]. subst.
    rewrite Hout. eauto. }
  split.
  - intros b x n s Hb Hs. destruct (Hget b x n s Hb Hs) as (y & Hy & Hn).
    rewrite Hstr. by eapply own_out_live.
  - intros b x n c y n' s Hb Hc Hs Hs'.
    destruct (Hget b x n s Hb Hs) as (x' & Hx & Hxs), (Hget c y n' s Hc Hs') as (y' & Hy & Hys).
    by eapply (own_owned w Hw b x' n c y' n').
  - intros b. rewrite Hnext, Hmod. case_decide; [|by apply own_mod_fresh].
    intros _. subst. apply own_mod_fresh; eauto.
  - intros s. rewrite Hnext, Hstr. by apply own_str_fresh.
Qed.

Lemma getOutput_set_field m n f v k :
  module_wf m → find n (m_input_map m) = Some f → getOutput k (set_field f v m) = getOutput k m.
Proof.
  intros Hm Hn. unfold getOutput. simpl. destruct (find k (m_output_map m)) as [g|] eqn:E; [|done].
  apply field_set_ne. intros ->. by eapply mwf_disjoint.
Qed.

(** ** The two elementary rewirings *)

(** Input member [f] of [a] becomes null and its stream forgets [a] once. *)
Definition detach (a : nat) (m : moModule) (f : string) (w : world) : world :=
  put_module a (set_field f None m)
    match field f m with
    | Some s => match w_streams w !! s with
                | Some st => put_stream s (s_removeObserver a st) w
                | None => w
                end
    | None => w
    end.

(** Input member [f] of [a], null before, is connected to [s]. *)
Definition attach (a : nat) (m : moModule) (f : string) (s : nat) (st : moDataStream) (w : world)
    : world :=
  put_module a (set_field f (Some s) m) (put_stream s (s_addObserver a st) w).

Lemma lookup_put_module a m w b :
  w_modules (put_module a m w) !! b = if decide (a = b) then Some m else w_modules w !! b.
Proof. unfold put_module. simpl. apply lookup_insert. Qed.
Lemma lookup_put_stream s st w t :
  w_streams (put_stream s st w) !! t = if decide (s = t) then Some st else w_streams w !! t.
Proof. unfold put_stream. simpl. apply lookup_insert. Qed.

(** Streams after [detach]: the same addresses, with one entry erased. *)
Lemma detach_streams a m f w t :
  w_streams (detach a m f w) !! t =
  if decide (field f m = Some t) then s_removeObserver a <$> w_streams w !! t
  else w_streams w !! t.
Proof.
  unfold detach. change (w_streams (put_module ?x ?y ?z)) with (w_streams z).
  destruct (field f m) as [s|]; [|done].
  destruct (w_streams w !! s) as [st|] eqn:E.
  - rewrite lookup_put_stream. repeat case_decide; simplify_eq; by rewrite ?E.
  - case_decide; simplify_eq; by rewrite ?E.
Qed.

Lemma detach_modules a m f w b :
  w_modules (detach a m f w) !! b =
  if decide (a = b) then Some (set_field f None m) else w_modules w !! b.
Proof.
  unfold detach. rewrite lookup_put_module. case_decide; [done|].
  repeat case_match; done.
Qed.

Lemma detach_wf a m n f w :
  world_wf w → w_modules w !! a = Some m → find n (m_input_map m) = Some f →
  world_wf (detach a m f w).
Proof.
  intros Hw Hm Hn. pose proof (wwf_modules w Hw a m Hm) as Hwf.
  assert (is_Some (find f (m_fields m))) as Hf by (by eapply mwf_in_fields).
  split.
  - intros b m'. rewrite detach_modules. case_decide; [|by apply (wwf_modules w Hw)].
    intros [= <-]. by apply set_field_wf.
  - intros s st b m'. rewrite detach_streams, detach_modules. intros Hst Hm'.
    pose proof (inputs_on_set_field m n f s None Hwf Hn) as Hcount.
    rewrite (decide_False (P := None = Some s)) in Hcount by done.
    destruct (decide (field f m = Some s)) as [Hfs|Hfs].
    + apply fmap_Some in Hst as (st0 & Hst0 & ->). simpl. rewrite occ_remove1.
      case_decide; simplify_eq.
      * rewrite decide_True by done. rewrite (wwf_wired w Hw s st0 b m) by done. lia.
      * rewrite decide_False by congruence. by apply (wwf_wired w Hw).
    + case_decide; simplify_eq; [|by apply (wwf_wired w Hw)].
      rewrite (wwf_wired w Hw s st b m) by done. lia.
  - intros s st b. rewrite detach_streams, detach_modules. intros Hst Hb.
    destruct (decide (a = b)); [eauto|]. case_decide.
    + apply fmap_Some in Hst as (st0 & Hst0 & ->). simpl in Hb.
      apply elem_of_remove1 in Hb. by eapply (wwf_obs_live w Hw).
    + by eapply (wwf_obs_live w Hw).
  - intros b m' k s. rewrite detach_streams, detach_modules. intros Hm' Hk.
    assert (is_Some (w_streams w !! s)) as Hs.
    { case_decide; simplify_eq; [|by eapply (wwf_in_live w Hw)].
      rewrite getInput_set_field in Hk. case_decide; [done|]. by eapply (wwf_in_live w Hw). }
    destruct Hs as [st ->]. destruct (decide (field f m = Some s)); simpl; eauto.
  - eapply (own_wf_step a m (set_field f None m) w);
      [apply Hw|done|by intros; eapply getOutput_set_field|apply detach_modules| |].
    + intros s. rewrite detach_streams. case_decide; [|done]. by rewrite fmap_is_Some.
    + unfold detach. repeat case_match; done.
  - intros b m'. rewrite detach_modules. case_decide; [|by apply (wwf_cbs w Hw)].
    intros [= <-]. subst. by apply (wwf_cbs w Hw b m).
Qed.

Lemma attach_wf a m n f s st w :
  world_wf w → w_modules w !! a = Some m → find n (m_input_map m) = Some f →
  field f m = None → w_streams w !! s = Some st →
  world_wf (attach a m f s st w).
Proof.
  intros Hw Hm Hn Hnone Hs. pose proof (wwf_modules w Hw a m Hm) as Hwf.
  assert (is_Some (find f (m_fields m))) as Hf by (by eapply mwf_in_fields).
  assert (Hmod : ∀ b, w_modules (attach a m f s st w) !! b =
    if decide (a = b) then Some (set_field f (Some s) m) else w_modules w !! b)
    by (intros; unfold attach; by rewrite lookup_put_module).
  assert (Hstr : ∀ t, w_streams (attach a m f s st w) !! t =
    if decide (s = t) then Some (s_addObserver a st) else w_streams w !! t)
    by (intros; unfold attach; apply (lookup_put_stream s)).
  split.
  - intros b m'. rewrite Hmod. case_decide; [|by apply (wwf_modules w Hw)].
    intros [= <-]. by apply set_field_wf.
  - intros t st' b m'. rewrite Hstr, Hmod. intros Hst Hm'.
    pose proof (inputs_on_set_field m n f t (Some s) Hwf Hn) as Hcount.
    rewrite Hnone, (decide_False (P := None = Some t)) in Hcount by done.
    destruct (decide (s = t)) as [->|Hst'].
    + rewrite decide_True in Hcount by done. injection Hst as <-. simpl.
      rewrite occ_app, occ_single. case_decide; simplify_eq.
      * rewrite (wwf_wired w Hw t st b m) by done. lia.
      * rewrite (wwf_wired w Hw t st b m') by done. lia.
    + rewrite decide_False in Hcount by congruence.
      case_decide; simplify_eq; [|by apply (wwf_wired w Hw)].
      rewrite (wwf_wired w Hw t st' b m) by done. lia.
  - intros t st' b. rewrite Hstr, Hmod. intros Hst Hb.
    destruct (decide (a = b)); [eauto|].
    case_decide; simplify_eq; [|by eapply (wwf_obs_live w Hw)].
    simpl in Hb. apply elem_of_app in Hb as [Hb|Hb%list_elem_of_singleton]; [|congruence].
    by eapply (wwf_obs_live w Hw).
  - intros b m' k t. rewrite Hstr, Hmod. intros Hm' Hk.
    destruct (decide (s = t)); [eauto|].
    case_decide; simplify_eq; [|by eapply (wwf_in_live w Hw)].
    rewrite getInput_set_field in Hk. case_decide; [congruence|]. by eapply (wwf_in_live w Hw).
  - eapply (own_wf_step a m (set_field f (Some s) m) w);
      [apply Hw|done|by intros; eapply getOutput_set_field|apply Hmod| |done].
    intros t. rewrite Hstr. case_decide; [subst; rewrite Hs; naive_solver|done].
  - intros b m'. rewrite Hmod. case_decide; [|by apply (wwf_cbs w Hw)].
    intros [= <-]. subst. by apply (wwf_cbs w Hw b m).
Qed.

(** A module may be replaced by one with the same connections. *)
Lemma put_module_wf_gen a m m' w :
  world_wf w → w_modules w !! a = Some m → module_wf m' → cbs_self a m' →
  (∀ s, inputs_on s m' = inputs_on s m) →
  (∀ n s, getInput n m' = Some s → ∃ k, getInput k m = Some s) →
  own_wf (put_module a m' w) → world_wf (put_module a m' w).
Proof.
  intros Hw Hm Hm' Hcbs Hon Hin Hown. split; [..|done|].
  - intros b x. rewrite lookup_put_module. case_decide; [by intros [= <-]|].
    by apply (wwf_modules w Hw).
  - intros s st b x Hst. rewrite lookup_put_module. case_decide; [|by apply (wwf_wired w Hw)].
    intros [= <-]. rewrite Hon. subst. by eapply (wwf_wired w Hw).
  - intros s st b Hst Hb. rewrite lookup_put_module. case_decide; [done|].
    by eapply (wwf_obs_live w Hw).
  - intros b x n s. rewrite lookup_put_module. case_decide; [|by apply (wwf_in_live w Hw)].
    intros [= <-] Hs. destruct (Hin n s Hs) as [k Hk]. by eapply (wwf_in_live w Hw).
  - intros b x. rewrite lookup_put_module. case_decide; [|by apply (wwf_cbs w Hw)].
    intros [= <-]. by subst.
Qed.

(** Changes that keep the ports of a module keep the invariant. *)
Lemma put_module_wf a m m' w :
  world_wf w → w_modules w !! a = Some m → module_wf m' →
  m_input_map m' = m_input_map m → (∀ n, getInput n m' = getInput n m) →
  (∀ n, getOutput n m' = getOutput n m) → cbs_self a m' →
  world_wf (put_module a m' w).
Proof.
  intros Hw Hm Hm' Hmap Hin Hout Hcbs. eapply put_module_wf_gen; eauto.
  - intros s. unfold inputs_on. rewrite Hmap. f_equal.
    apply list_filter_iff. intros n. by rewrite Hin.
  - intros n s. rewrite Hin. eauto.
  - eapply (own_wf_step a m m' w); [apply Hw|done|done|apply lookup_put_module|done|done].
Qed.

(** ** Creating streams and modules *)

Definition world0 : world :=
  {| w_modules := ∅; w_streams := ∅; w_threads := ∅; w_next := 0; w_idcount := 0;
     w_loglevel := MO_INFO; w_config_delay := 5; w_now := dzero;
     w_display_count := 0 |}.

Lemma world0_wf : world_wf world0.
Proof.
  split; [| | | |split|]; simpl; intros *; rewrite ?lookup_empty; try done;
    by intros [? ?].
Qed.

(** The world after [new moDataStream(format)]. *)
Definition add_stream (format : string) (w : world) : world :=
  upd_w_next S (put_stream (w_next w) (new_stream format) w).

Lemma add_stream_lookup format w s :
  w_streams (add_stream format w) !! s
  = if decide (w_next w = s) then Some (new_stream format) else w_streams w !! s.
Proof. apply lookup_put_stream. Qed.

Lemma fresh_stream w : world_wf w → w_streams w !! w_next w = None.
Proof.
  intros Hw. destruct (w_streams w !! w_next w) eqn:E; [|done].
  assert (w_next w < w_next w) by (apply (own_str_fresh w (wwf_own w Hw)); eauto). lia.
Qed.
Lemma fresh_module w : world_wf w → w_modules w !! w_next w = None.
Proof.
  intros Hw. destruct (w_modules w !! w_next w) eqn:E; [|done].
  assert (w_next w < w_next w) by (apply (own_mod_fresh w (wwf_own w Hw)); eauto). lia.
Qed.

Lemma add_stream_live format w s :
  is_Some (w_streams w !! s) → is_Some (w_streams (add_stream format w) !! s).
Proof. rewrite add_stream_lookup. case_decide; eauto. Qed.

Lemma inputs_on_dead w a m s :
  world_wf w → w_modules w !! a = Some m → w_streams w !! s = None → inputs_on s m = 0.
Proof.
  intros Hw Hm Hs. unfold inputs_on.
  destruct (filter _ _) as [|n l] eqn:E; [done|exfalso].
  assert (n ∈ filter (λ n, getInput n m = Some s) (keys (m_input_map m))) as Hn
    by (rewrite E; by left).
  apply list_elem_of_filter in Hn as [Hg _].
  destruct (wwf_in_live w Hw a m n s Hm Hg). congruence.
Qed.

Lemma add_stream_wf format w : world_wf w → world_wf (add_stream format w).
Proof.
  intros Hw. pose proof (fresh_stream w Hw) as Hf. split; [| | | |split|].
  - apply (wwf_modules w Hw).
  - intros s st a m. rewrite add_stream_lookup. case_decide; [|by apply (wwf_wired w Hw)].
    intros [= <-] Hm. subst. symmetry. by eapply (inputs_on_dead w).
  - intros s st a. rewrite add_stream_lookup. case_decide; [|by apply (wwf_obs_live w Hw)].
    intros [= <-]. by intros ?%elem_of_nil.
  - intros a m n s Hm Hs. apply add_stream_live. by eapply (wwf_in_live w Hw).
  - intros a m n s Hm Hs. apply add_stream_live. by eapply (own_out_live w (wwf_own w Hw)).
  - apply (own_owned w (wwf_own w Hw)).
  - intros a Ha. simpl. apply Nat.lt_lt_succ_r, (own_mod_fresh w (wwf_own w Hw)), Ha.
  - intros s. rewrite add_stream_lookup. simpl. case_decide; [lia|].
    intros Hs. apply Nat.lt_lt_succ_r, (own_str_fresh w (wwf_own w Hw)), Hs.
  - apply (wwf_cbs w Hw).
Qed.

(** The world after [new]: the object gets the next address. *)
Definition add_module (m : moModule) (w : world) : world :=
  upd_w_next S (put_module (w_next w) m w).

Lemma add_module_lookup m w b :
  w_modules (add_module m w) !! b = if decide (w_next w = b) then Some m else w_modules w !! b.
Proof. apply lookup_put_module. Qed.

(** Streams no module has as an output. *)
Definition unowned (w : world) (s : nat) : Prop :=
  ∀ b m n, w_modules w !! b = Some m → getOutput n m ≠ Some s.

Lemma add_module_wf m w :
  world_wf w → module_wf m → cbs_self (w_next w) m → (∀ n, getInput n m = None) →
  (∀ n s, getOutput n m = Some s → is_Some (w_streams w !! s) ∧ unowned w s) →
  (∀ n n' s, getOutput n m = Some s → getOutput n' m = Some s → n = n') →
  world_wf (add_module m w).
Proof.
  intros Hw Hm Hcbs Hin Hout Hinj. pose proof (fresh_module w Hw) as Hf.
  assert (inputs_on_m : ∀ s, inputs_on s m = 0).
  { intros s. unfold inputs_on. destruct (filter _ _) as [|n l] eqn:E; [done|exfalso].
    assert (n ∈ filter (λ n, getInput n m = Some s) (keys (m_input_map m))) as Hn
      by (rewrite E; by left).
    apply list_elem_of_filter in Hn as [Hg _]. by rewrite Hin in Hg. }
  assert (Hobs : ∀ s st, w_streams w !! s = Some st → w_next w ∉ s_observers st).
  { intros s st Hs Ha. destruct (wwf_obs_live w Hw s st (w_next w) Hs Ha). congruence. }
  split; [| | | |split|].
  - intros a x. rewrite add_module_lookup. case_decide; [by intros [= <-]|].
    by apply (wwf_modules w Hw).
  - intros s st a x Hs. rewrite add_module_lookup. case_decide; [|by apply (wwf_wired w Hw)].
    intros [= <-]. subst. rewrite inputs_on_m. specialize (Hobs s st Hs).
    rewrite occ_elem in Hobs. lia.
  - intros s st a Hs Ha. rewrite add_module_lookup. case_decide; [done|].
    by eapply (wwf_obs_live w Hw).
  - intros a x n s. rewrite add_module_lookup. case_decide; [|by apply (wwf_in_live w Hw)].
    intros [= <-]. by rewrite Hin.
  - intros a x n s. rewrite add_module_lookup.
    case_decide; [|by apply (own_out_live w (wwf_own w Hw))].
    intros [= <-] Hs. by apply Hout in Hs as [? _].
  - intros a x n b y n' s. rewrite !add_module_lookup.
    repeat case_decide; intros Ha Hb Hx Hy; simplify_eq.
    + split; [done|]. by eapply Hinj.
    + exfalso. by apply (proj2 (Hout n s Hx) b y n').
    + exfalso. by apply (proj2 (Hout n' s Hy) a x n).
    + by eapply (own_owned w (wwf_own w Hw)).
  - intros a. rewrite add_module_lookup. simpl. case_decide; [lia|].
    intros Ha. apply Nat.lt_lt_succ_r, (own_mod_fresh w (wwf_own w Hw)), Ha.
  - intros s Hs. simpl. apply Nat.lt_lt_succ_r, (own_str_fresh w (wwf_own w Hw)), Hs.
  - intros a x. rewrite add_module_lookup. case_decide; [|by apply (wwf_cbs w Hw)].
    intros [= <-]. by subst.
Qed.

(** ** [setInput] in closed form *)

Lemma bind_run {A B} (m : M A) (k : A → M B) w :
  (m ≫= k) w = match m w with Ok (a, w') => k a w' | Fault f => Fault f end.
Proof. reflexivity. Qed.

Lemma getm_run a m w : w_modules w !! a = Some m → getm a w = Ok (m, w).
Proof. unfold getm. by intros ->. Qed.
Lemma gets_at_run s st w : w_streams w !! s = Some st → gets_at s w = Ok (st, w).
Proof. unfold gets_at. by intros ->. Qed.
Lemma mod_module_run a m g w :
  w_modules w !! a = Some m → mod_module a g w = Ok (tt, put_module a (g m) w).
Proof. intros H. unfold mod_module. by rewrite bind_run, (getm_run a m). Qed.
Lemma mod_stream_run s st g w :
  w_streams w !! s = Some st → mod_stream s g w = Ok (tt, put_stream s (g st) w).
Proof. intros H. unfold mod_stream. by rewrite bind_run, (gets_at_run s st). Qed.

Lemma put_module_twice a m m' w : put_module a m (put_module a m' w) = put_module a m w.
Proof. unfold put_module, upd_w_modules. simpl. by rewrite insert_insert_eq. Qed.
Lemma put_module_stream a m s st w :
  put_stream s st (put_module a m w) = put_module a m (put_stream s st w).
Proof. reflexivity. Qed.
Lemma put_module_lookup a m w : w_modules (put_module a m w) !! a = Some m.
Proof. rewrite lookup_put_module. by rewrite decide_True. Qed.

(** The format test of a port. *)
Definition accepts (i : moDataStreamInfo) (format : string) : bool :=
  bool_decide (i_type i = "*") || bool_decide (format ∈ words_of "," (i_type i)).

Lemma isStreamValid_accepts i fmt : isStreamValid i (Some fmt) = Ok (accepts i fmt).
Proof.
  unfold isStreamValid, accepts. case_bool_decide; [done|].
  rewrite inList_words. done.
Qed.

(** The world between the two halves of [setInput]. *)
Definition unhooked (a : nat) (m : moModule) (f : string) (w : world) : world :=
  match field f m with
  | Some s => match w_streams w !! s with
              | Some st => put_stream s (s_removeObserver a st) w
              | None => w
              end
  | None => w
  end.

Lemma detach_unhooked a m f w : detach a m f w = put_module a (set_field f None m) (unhooked a m f w).
Proof. reflexivity. Qed.

Lemma unhooked_modules a m f w : w_modules (unhooked a m f w) = w_modules w.
Proof. unfold unhooked. by repeat case_match. Qed.

Lemma setInput_unhook a m n f w :
  world_wf w → w_modules w !! a = Some m → find n (m_input_map m) = Some f →
  (match field f m with Some s => mod_stream s (s_removeObserver a) | None => skip end) w
  = Ok (tt, unhooked a m f w).
Proof.
  intros Hw Hm Hn. unfold unhooked. destruct (field f m) as [s|] eqn:E; [|done].
  assert (getInput n m = Some s) as Hin by (unfold getInput; by rewrite Hn).
  destruct (wwf_in_live w Hw a m n s Hm Hin) as [st Hst].
  rewrite (mod_stream_run s st) by done. by rewrite Hst.
Qed.

Lemma setInput_none a m n f w :
  world_wf w → w_modules w !! a = Some m → find n (m_input_map m) = Some f →
  setInput a None n w = Ok (tt, detach a m f w).
Proof.
  intros Hw Hm Hn. unfold setInput. rewrite bind_run, (getm_run a m), Hn by done.
  cbv beta iota zeta. rewrite bind_run, (setInput_unhook a m n f) by done.
  cbv beta iota. rewrite bind_run, (mod_module_run a m) by (by rewrite unhooked_modules).
  reflexivity.
Qed.

(** The message recorded when the formats do not agree. *)
Definition format_error (n : Z) (i : moDataStreamInfo) (format : string) : string :=
  "Input " +:+ print_int n +:+ " accepts <" +:+ i_type i +:+ "> but got <" +:+ format +:+ ">".

Lemma setInput_some a m n f i s st w :
  world_wf w → w_modules w !! a = Some m → find n (m_input_map m) = Some f →
  find n (m_input_infos m) = Some i → w_streams (detach a m f w) !! s = Some st →
  setInput a (Some s) n w
  = Ok (tt, if accepts i (s_format st)
            then attach a (set_field f None m) f s st (detach a m f w)
            else put_module a (setError (format_error n i (s_format st)) (set_field f None m))
                   (detach a m f w)).
Proof.
  intros Hw Hm Hn Hi Hst. unfold setInput. rewrite bind_run, (getm_run a m), Hn by done.
  cbv beta iota zeta. rewrite bind_run, (setInput_unhook a m n f) by done.
  cbv beta iota. rewrite bind_run, (mod_module_run a m) by (by rewrite unhooked_modules).
  cbv beta iota. rewrite bind_run, (gets_at_run s st) by done. cbv beta iota.
  rewrite bind_run, Hi. cbn [lift deref]. rewrite bind_run, isStreamValid_accepts. cbn [lift].
  destruct (accepts i (s_format st)).
  - rewrite (mod_stream_run s st) by done. do 2 f_equal.
    unfold attach. rewrite detach_unhooked, !put_module_stream, put_module_twice.
    by rewrite set_field_set_field.
  - rewrite bind_run. rewrite (mod_module_run a (set_field f (Some s) m)) by apply put_module_lookup.
    rewrite (mod_module_run a (setError (format_error n i (s_format st)) (set_field f (Some s) m)))
      by apply put_module_lookup.
    do 2 f_equal. rewrite detach_unhooked, !put_module_twice. f_equal.
    unfold set_field, setError, upd_m_is_error, upd_m_error_msg, upd_m_fields. simpl.
    by rewrite insert_insert.
Qed.

Lemma keys_find_Some {A B} (m1 : smap Z A) (m2 : smap Z B) n v :
  keys m1 = keys m2 → find n m1 = Some v → is_Some (find n m2).
Proof.
  intros Hk Hn. destruct (find n m2) as [x|] eqn:E; [eauto|].
  apply find_None_keys in E. rewrite <-Hk in E. by apply find_key in Hn.
Qed.

Lemma getInput_field m n f : find n (m_input_map m) = Some f → getInput n m = field f m.
Proof. unfold getInput. by intros ->. Qed.

Lemma detach_stream_live a m f w s :
  is_Some (w_streams w !! s) →
  ∃ st0 st, w_streams w !! s = Some st0 ∧ w_streams (detach a m f w) !! s = Some st
            ∧ s_format st = s_format st0.
Proof.
  intros [st0 Hst0]. rewrite detach_streams. rewrite Hst0. case_decide; simpl; eauto 10.
Qed.

(** ** [removeObservers] *)

Lemma scan_inputs_spec s m fuel i :
  match scan_inputs s m fuel i with
  | Some j => getInput j m = Some s
  | None => ∀ j, (i <= j < i + Z.of_nat fuel)%Z → getInput j m ≠ Some s
  end.
Proof.
  revert i. induction fuel as [|fuel IH]; intros i; simpl; [lia|].
  case_bool_decide as Hi; [done|]. specialize (IH (i + 1)%Z).
  destruct (scan_inputs s m fuel (i + 1)); [done|].
  intros j Hj. destruct (decide (j = i)) as [->|]; [done|]. apply IH. lia.
Qed.

(** A module whose scan finds nothing has no input on the stream. *)
Lemma scan_inputs_None s m :
  module_wf m → scan_inputs s m (length (m_input_infos m)) 0 = None → inputs_on s m = 0.
Proof.
  intros Hm Hscan. pose proof (scan_inputs_spec s m (length (m_input_infos m)) 0) as H.
  rewrite Hscan in H. unfold inputs_on.
  destruct (filter _ _) as [|n l] eqn:E; [done|exfalso].
  assert (n ∈ filter (λ n, getInput n m = Some s) (keys (m_input_map m))) as Hn
    by (rewrite E; by left).
  apply list_elem_of_filter in Hn as [Hg Hn]. rewrite (mwf_in_keys m Hm) in Hn.
  apply (H n); [|done]. apply contiguous_lt in Hn; [|apply mwf_in_contig, Hm].
  unfold keys in Hn. rewrite length_fmap in Hn. lia.
Qed.

Lemma scan_observers_spec s obs w :
  world_wf w → (∀ a, a ∈ obs → is_Some (w_modules w !! a)) →
  ∃ r, scan_observers s obs w = Ok (r, w) ∧
    match r with
    | Some (a, i) => a ∈ obs ∧ ∃ m, w_modules w !! a = Some m ∧ getInput i m = Some s
    | None => ∀ a m, a ∈ obs → w_modules w !! a = Some m → inputs_on s m = 0
    end.
Proof.
  intros Hw. induction obs as [|a obs IH]; intros Hlive; simpl.
  { exists None. split; [done|]. by intros ? ? ?%elem_of_nil. }
  destruct (Hlive a ltac:(by left)) as [m Hm].
  rewrite bind_run, (getm_run a m) by done.
  pose proof (scan_inputs_spec s m (length (m_input_infos m)) 0) as Hscan.
  destruct (scan_inputs s m (length (m_input_infos m)) 0) as [i|] eqn:E.
  { exists (Some (a, i)). split; [done|]. split; [by left|eauto]. }
  destruct IH as (r & -> & Hr); [intros; apply Hlive; by right|].
  exists r. split; [done|]. destruct r as [[b j]|].
  - destruct Hr as [Hb Hr]. split; [by right|done].
  - intros b m' [->|Hb]%elem_of_cons Hm'; [|eauto].
    simplify_eq. apply scan_inputs_None; [by eapply wwf_modules|done].
Qed.

Lemma upd_observers_nil st : s_observers st = [] → upd_observers (λ _, []) st = st.
Proof. destruct st. simpl. by intros ->. Qed.

Lemma put_stream_id s st w : w_streams w !! s = Some st → put_stream s st w = w.
Proof. intros H. unfold put_stream, upd_w_streams. destruct w; simpl in *. f_equal. by apply insert_id. Qed.

Lemma removeObservers_loop_spec fuel s st w :
  world_wf w → w_streams w !! s = Some st → length (s_observers st) < fuel →
  ∃ w', removeObservers_loop fuel s w = Ok (true, w') ∧ world_wf w'
        ∧ (∃ st', w_streams w' !! s = Some st' ∧ s_observers st' = [])
        ∧ (∀ t, t ≠ s → w_streams w' !! t = w_streams w !! t)
        ∧ dom (w_modules w') = dom (w_modules w).
Proof.
  revert st w. induction fuel as [|fuel IH]; intros st w Hw Hst Hlen; [lia|]. simpl.
  rewrite bind_run, (gets_at_run s st) by done. cbv beta iota.
  destruct (scan_observers_spec s (s_observers st) w Hw) as (r & Hscan & Hr);
    [intros; by eapply wwf_obs_live|].
  rewrite bind_run, Hscan. destruct r as [[a i]|].
  - destruct Hr as (Ha & m & Hm & Hi).
    destruct (find i (m_input_map m)) as [f|] eqn:Hf;
      [|unfold getInput in Hi; by rewrite Hf in Hi].
    rewrite bind_run, (setInput_none a m i f) by done.
    rewrite (getInput_field m i f Hf) in Hi.
    destruct (IH (s_removeObserver a st) (detach a m f w)) as (w' & Hrun & Hw' & Hobs & Hoth & Hdom).
    + by eapply detach_wf.
    + rewrite detach_streams, decide_True by done. by rewrite Hst.
    + simpl. rewrite (length_remove1 a) in Hlen by done. lia.
    + exists w'. split_and!; try done.
      * intros t Ht. rewrite Hoth by done. rewrite detach_streams, decide_False; [done|congruence].
      * rewrite Hdom. apply set_eq. intros b. rewrite !elem_of_dom, detach_modules.
        case_decide; [subst; rewrite Hm; naive_solver|done].
  - assert (Hnil : s_observers st = []).
    { destruct (s_observers st) as [|a obs] eqn:E; [done|exfalso].
      destruct (wwf_obs_live w Hw s st a Hst) as [m Hm]; [rewrite E; by left|].
      pose proof (wwf_wired w Hw s st a m Hst Hm) as Hocc.
      rewrite (Hr a m) in Hocc; [|by left|done]. rewrite E in Hocc.
      assert (0 < occ a (a :: obs)) by (apply occ_elem; by left). lia. }
    rewrite bind_run, (mod_stream_run s st) by done.
    rewrite upd_observers_nil, put_stream_id by done. exists w. split_and!; eauto.
Qed.

(** ** Properties *)

(** C6: connecting input [n] of a live module to a live stream (or to
    nothing) always returns and keeps the wiring invariant.  On an undeclared
    index the module gets the error ["Invalid input index"] and nothing is
    rewired.  On a declared index the input ends up on the given stream when
    the port accepts the stream's format, and disconnected with the module in
    error otherwise; other inputs and other modules are untouched. *)
Theorem setInput_correct (w : world) (a : nat) (m : moModule) (stream : option nat) (n : Z) :
  world_wf w → w_modules w !! a = Some m →
  (∀ s, stream = Some s → is_Some (w_streams w !! s)) →
  ∃ w' m',
    setInput a stream n w = Ok (tt, w') ∧ world_wf w' ∧ w_modules w' !! a = Some m'
    ∧ (∀ b, b ≠ a → w_modules w' !! b = w_modules w !! b)
    ∧ (∀ k, k ≠ n → getInput k m' = getInput k m)
    ∧ match find n (m_input_map m), stream with
      | None, _ => m' = setError "Invalid input index" m ∧ w_streams w' = w_streams w
      | Some _, None => getInput n m' = None ∧ haveError m' = haveError m
      | Some _, Some s =>
          ∃ st i, w_streams w !! s = Some st ∧ find n (m_input_infos m) = Some i ∧
          if accepts i (s_format st)
          then getInput n m' = Some s ∧ haveError m' = haveError m
          else getInput n m' = None ∧ haveError m' = true
               ∧ m_error_msg m' = format_error n i (s_format st)
      end.
Proof.
  intros Hw Hm Hs. pose proof (wwf_modules w Hw a m Hm) as Hwf.
  destruct (find n (m_input_map m)) as [f|] eqn:Hn.
  2: { exists (put_module a (setError "Invalid input index" m) w), (setError "Invalid input index" m).
       split_and!; try done.
       - unfold setInput. rewrite bind_run, (getm_run a m), Hn by done.
         by rewrite (mod_module_run a m).
       - eapply put_module_wf; eauto using setError_wf. by apply (wwf_cbs w Hw a m).
       - apply put_module_lookup.
       - intros b Hb. rewrite lookup_put_module. by rewrite decide_False. }
  assert (Hd : world_wf (detach a m f w)) by (by eapply detach_wf).
  assert (Hda : w_modules (detach a m f w) !! a = Some (set_field f None m))
    by (rewrite detach_modules; by rewrite decide_True).
  assert (Hother : ∀ b, b ≠ a → w_modules (detach a m f w) !! b = w_modules w !! b)
    by (intros b Hb; rewrite detach_modules; by rewrite decide_False).
  assert (Hget : ∀ v k, k ≠ n → getInput k (set_field f v m) = getInput k m).
  { intros v k Hk. rewrite getInput_set_field, decide_False; [done|].
    intros Hf. apply Hk. by eapply mwf_in_inj. }
  assert (Hgetn : ∀ v, getInput n (set_field f v m) = v)
    by (intros; rewrite getInput_set_field; by rewrite decide_True).
  destruct stream as [s|].
  2: { exists (detach a m f w), (set_field f None m). split_and!; auto.
       by apply (setInput_none a m n f w). }
  destruct (keys_find_Some _ (m_input_infos m) n f (mwf_in_keys m Hwf) Hn) as [i Hi].
  destruct (detach_stream_live a m f w s (Hs s eq_refl)) as (st0 & st & Hst0 & Hst & Hfmt).
  rewrite (setInput_some a m n f i s st w) by done. rewrite Hfmt.
  destruct (accepts i (s_format st0)) eqn:Hacc.
  - eexists _, (set_field f (Some s) m). split_and!; [reflexivity|..].
    + eapply attach_wf; eauto. apply field_set_eq.
    + unfold attach. by rewrite set_field_set_field, put_module_lookup.
    + intros b Hb. rewrite <-Hother by done. unfold attach. rewrite lookup_put_module.
      by rewrite decide_False.
    + auto.
    + exists st0, i. rewrite Hacc. auto.
  - eexists _, (setError (format_error n i (s_format st0)) (set_field f None m)).
    split_and!; [reflexivity|..].
    + eapply put_module_wf; eauto; [|by apply (wwf_cbs w Hw a m)].
      apply setError_wf. by apply (wwf_modules _ Hd a).
    + apply put_module_lookup.
    + intros b Hb. rewrite <-Hother by done. rewrite lookup_put_module. by rewrite decide_False.
    + apply Hget.
    + exists st0, i. rewrite Hacc. split_and!; try done. apply Hgetn.
Qed.

(** C30: the restarting loop of [removeObservers] terminates;
    afterwards the stream has no observer, no module has an input on it, the
    wiring invariant holds, and no other stream changed. *)
Theorem removeObservers_disconnects (w : world) (s : nat) (st : moDataStream) :
  world_wf w → w_streams w !! s = Some st →
  ∃ w', removeObservers s w = Ok (true, w') ∧ world_wf w'
        ∧ (∃ st', w_streams w' !! s = Some st' ∧ s_observers st' = [])
        ∧ (∀ a m n, w_modules w' !! a = Some m → getInput n m ≠ Some s)
        ∧ (∀ t, t ≠ s → w_streams w' !! t = w_streams w !! t).
Proof.
  intros Hw Hst. unfold removeObservers. rewrite bind_run, (gets_at_run s st) by done.
  destruct (removeObservers_loop_spec (S (length (s_observers st))) s st w)
    as (w' & Hrun & Hw' & (st' & Hst' & Hnil) & Hoth & _); [done|done|lia|].
  exists w'. split_and!; [done|done|eauto| |done].
  intros a m n Hm. apply inputs_on_0. rewrite <-(wwf_wired w' Hw' s st' a m) by done.
  by rewrite Hnil.
Qed.

(** *** A concrete graph *)

(** A display-like module at address 1, its input on the stream at address 0. *)
Definition demo_module : moModule :=
  declareInput 0 "input" {| i_name := "image"; i_type := "IplImage"; i_description := "Show" |}
    (set_field "input" None (new_module "Demo" "demo" "native" MO_MODULE_INPUT 1)).
Definition demo_world : world := add_module demo_module (add_stream "IplImage" world0).

Lemma demo_module_wf : module_wf demo_module.
Proof.
  apply declareInput_wf; [apply set_field_wf, new_module_wf|done|].
  split; [by eexists|done].
Qed.

Lemma demo_world_wf : world_wf demo_world.
Proof.
  apply add_module_wf; [apply add_stream_wf, world0_wf|apply demo_module_wf|apply cbs_self_new|..];
    try done.
  intros n. unfold getInput. cbn. by destruct (kcmp n 0%Z).
Qed.

(** [setInput_correct] on the demo graph: port 0 gets connected. *)
Lemma setInput_correct_witness :
  ∃ w' m', setInput 1 (Some 0) 0 demo_world = Ok (tt, w') ∧ w_modules w' !! 1 = Some m'
           ∧ getInput 0 m' = Some 0.
Proof.
  destruct (setInput_correct demo_world 1 demo_module (Some 0) 0) as
    (w' & m' & Hrun & _ & Hm' & _ & _ & st & i & Hst & Hi & Hacc).
  - exact demo_world_wf.
  - reflexivity.
  - intros s [= <-]. by eexists.
  - exists w', m'. split; [done|]. split; [done|].
    injection Hst as <-. injection Hi as <-. apply Hacc.
Defined.

(** The demo graph with the input connected to the stream. *)
Definition wired_world : world := attach 1 demo_module "input" 0 (new_stream "IplImage") demo_world.
Definition wired_stream : moDataStream := s_addObserver 1 (new_stream "IplImage").
Lemma wired_world_wf : world_wf wired_world.
Proof. by apply (attach_wf 1 demo_module 0%Z); [apply demo_world_wf|..]. Qed.
Lemma removeObservers_disconnects_witness :
  s_observers wired_stream = [1]
  ∧ (m ← w_modules wired_world !! 1; getInput 0 m) = Some 0
  ∧ ∃ w', removeObservers 0 wired_world = Ok (true, w')
        ∧ (∃ st', w_streams w' !! 0 = Some st' ∧ s_observers st' = [])
        ∧ ∀ a m n, w_modules w' !! a = Some m → getInput n m ≠ Some 0.
Proof.
  split; [reflexivity|]. split; [reflexivity|].
  destruct (removeObservers_disconnects wired_world 0 wired_stream)
    as (w' & Hrun & _ & Hst & Hin & _); [exact wired_world_wf|reflexivity|eauto].
Defined.
