(* ===== verification/Lifecycle.v ===== *)
(** Running modules: starting, stopping, updating, setting properties and
    pushing data never rewires the graph, and faults only where a class does.

    [quiet w w'] relates two worlds with the same objects, the same ports and
    the same connections, in which modules kept their id (other properties,
    statistics, flags, threads and stream data may differ); it is a preorder and
    keeps [world_wf].  [VirtualLaws] is the interface between the framework and
    the module classes: a method a class overrides may fault, and is quiet when
    it returns.  [blamed K w f]: the fault [f] is that of a method of one of the
    kinds [K], called in a well-formed world where the modules of [w] live.  The
    base class ([base_virtuals]) and the camera ([camera_virtuals]) implement the
    interface. *)
From S2P Require Import Prelude StdMap Numeric Utils Property Container Module World Wiring.

(** ** Quiet changes *)

Definition ports (m : moModule) :=
  (m_input_map m, m_output_map m, m_input_infos m, m_output_infos m, m_fields m, m_dtor_fields m).

(** Type, value, read-only flag and callbacks of a property. *)
Definition core (p : moProperty) := (p_type p, p_val p, p_readonly p, p_callbacks p).

(** The id of a module; [property("id")] creates an empty one when missing. *)
Definition id_view (m : moModule) :=
  match find "id" (m_properties m) with
  | Some p => core p
  | None => core (alloc MO_PROPERTY_STRING (VString EmptyString) "?? auto created ??")
  end.

(** Ports stay, and so does the id. *)
Record kept (m m' : moModule) : Prop := {
  kept_ports : ports m' = ports m;
  kept_id : id_view m' = id_view m;
}.
#[export] Instance kept_preorder : PreOrder kept.
Proof.
  split; [by split|]. intros m1 m2 m3 [H1 R1] [H2 R2]. split; congruence.
Qed.
Lemma kept_flags m m' : ports m' = ports m → m_properties m' = m_properties m → kept m m'.
Proof. intros Hp Hq. split; [done|]. unfold id_view. by rewrite Hq. Qed.

Record quiet (w w' : world) : Prop := {
  q_mod a m : w_modules w !! a = Some m →
    ∃ m', w_modules w' !! a = Some m' ∧ kept m m'
          ∧ (module_wf m ∧ cbs_self a m → module_wf m' ∧ cbs_self a m');
  q_mod_back a : is_Some (w_modules w' !! a) → is_Some (w_modules w !! a);
  q_str s st : w_streams w !! s = Some st →
    ∃ st', w_streams w' !! s = Some st' ∧ s_observers st' = s_observers st
           ∧ s_format st' = s_format st;
  q_str_back s : is_Some (w_streams w' !! s) → is_Some (w_streams w !! s);
  q_next : w_next w ≤ w_next w';
}.

#[export] Instance quiet_preorder : PreOrder quiet.
Proof.
  split.
  - intros w. split; try done; [|by eauto 10]. intros a m Hm. by exists m.
  - intros w1 w2 w3 H12 H23. split.
    + intros a m Hm. destruct (q_mod w1 w2 H12 a m Hm) as (m2 & Hm2 & Hp2 & Hw2).
      destruct (q_mod w2 w3 H23 a m2 Hm2) as (m3 & Hm3 & Hp3 & Hw3).
      exists m3. split_and!; [done|by trans m2|auto].
    + intros a Ha. by apply (q_mod_back w1 w2 H12), (q_mod_back w2 w3 H23).
    + intros s st Hs. destruct (q_str w1 w2 H12 s st Hs) as (st2 & Hs2 & Ho2 & Hf2).
      destruct (q_str w2 w3 H23 s st2 Hs2) as (st3 & Hs3 & Ho3 & Hf3).
      exists st3. split_and!; [done|congruence..].
    + intros s Hs. by apply (q_str_back w1 w2 H12), (q_str_back w2 w3 H23).
    + etrans; [apply H12|apply H23].
Qed.

Lemma ports_getInput m m' n : ports m' = ports m → getInput n m' = getInput n m.
Proof. unfold getInput, field, ports. by intros [= -> _ _ _ -> _]. Qed.
Lemma ports_getOutput m m' n : ports m' = ports m → getOutput n m' = getOutput n m.
Proof. unfold getOutput, field, ports. by intros [= _ -> _ _ -> _]. Qed.
Lemma ports_inputs_on m m' s : ports m' = ports m → inputs_on s m' = inputs_on s m.
Proof.
  intros Hp. unfold inputs_on. assert (m_input_map m' = m_input_map m) as ->
    by (by injection Hp). f_equal. apply list_filter_iff. intros n. by rewrite (ports_getInput m m').
Qed.

Lemma quiet_same w w' :
  w_modules w' = w_modules w → w_streams w' = w_streams w → w_next w ≤ w_next w' → quiet w w'.
Proof.
  intros Hm Hs Hn. split; rewrite ?Hm, ?Hs; try done; [|by eauto].
  intros a m Ha. by exists m.
Qed.

(** What was in the world before a quiet change. *)
Lemma quiet_mod_inv w w' a m' :
  quiet w w' → w_modules w' !! a = Some m' →
  ∃ m, w_modules w !! a = Some m ∧ kept m m'
       ∧ (module_wf m ∧ cbs_self a m → module_wf m' ∧ cbs_self a m').
Proof.
  intros Hq Hm'. destruct (q_mod_back w w' Hq a (mk_is_Some _ _ Hm')) as [m Hm].
  destruct (q_mod w w' Hq a m Hm) as (x & Hx & Hp & Hwf).
  rewrite Hm' in Hx. injection Hx as <-. exists m. auto.
Qed.
Lemma quiet_str_inv w w' s st' :
  quiet w w' → w_streams w' !! s = Some st' →
  ∃ st, w_streams w !! s = Some st ∧ s_observers st' = s_observers st ∧ s_format st' = s_format st.
Proof.
  intros Hq Hs'. destruct (q_str_back w w' Hq s (mk_is_Some _ _ Hs')) as [st Hst].
  destruct (q_str w w' Hq s st Hst) as (x & Hx & ? & ?).
  rewrite Hs' in Hx. injection Hx as <-. exists st. auto.
Qed.

Lemma quiet_live w w' a : quiet w w' → is_Some (w_modules w !! a) → is_Some (w_modules w' !! a).
Proof. intros Hq [m Hm]. destruct (q_mod w w' Hq a m Hm) as (m' & ? & _). eauto. Qed.
Lemma quiet_live_str w w' s : quiet w w' → is_Some (w_streams w !! s) → is_Some (w_streams w' !! s).
Proof. intros Hq [st Hs]. destruct (q_str w w' Hq s st Hs) as (st' & ? & _). eauto. Qed.

Lemma quiet_wf w w' : world_wf w → quiet w w' → world_wf w'.
Proof.
  intros Hw Hq. split; [| | | |split|].
  - intros a m' Hm'. destruct (quiet_mod_inv w w' a m' Hq Hm') as (m & Hm & _ & Hwf).
    apply Hwf. split; [by eapply (wwf_modules w Hw)|by apply (wwf_cbs w Hw)].
  - intros s st' a m' Hs' Hm'.
    destruct (quiet_mod_inv w w' a m' Hq Hm') as (m & Hm & Hp & _).
    destruct (quiet_str_inv w w' s st' Hq Hs') as (st & Hs & -> & _).
    rewrite (ports_inputs_on m m') by apply Hp. by apply (wwf_wired w Hw).
  - intros s st' a Hs' Ha. destruct (quiet_str_inv w w' s st' Hq Hs') as (st & Hs & Ho & _).
    rewrite Ho in Ha. eapply quiet_live; [done|]. by eapply (wwf_obs_live w Hw).
  - intros a m' n s Hm' Hn. destruct (quiet_mod_inv w w' a m' Hq Hm') as (m & Hm & Hp & _).
    rewrite (ports_getInput m m') in Hn by apply Hp.
    eapply quiet_live_str; [done|]. by eapply (wwf_in_live w Hw).
  - intros a m' n s Hm' Hn. destruct (quiet_mod_inv w w' a m' Hq Hm') as (m & Hm & Hp & _).
    rewrite (ports_getOutput m m') in Hn by apply Hp.
    eapply quiet_live_str; [done|]. by eapply (own_out_live w (wwf_own w Hw)).
  - intros a m' n b x' n' s Hm' Hx' Hn Hn'.
    destruct (quiet_mod_inv w w' a m' Hq Hm') as (m & Hm & Hp & _).
    destruct (quiet_mod_inv w w' b x' Hq Hx') as (x & Hx & Hpx & _).
    rewrite (ports_getOutput m m') in Hn by apply Hp. rewrite (ports_getOutput x x') in Hn' by apply Hpx.
    by eapply (own_owned w (wwf_own w Hw)).
  - intros a Ha. eapply Nat.lt_le_trans; [|apply (q_next w w' Hq)].
    apply (own_mod_fresh w (wwf_own w Hw)). by apply (q_mod_back w w' Hq).
  - intros s Hs. eapply Nat.lt_le_trans; [|apply (q_next w w' Hq)].
    apply (own_str_fresh w (wwf_own w Hw)). by apply (q_str_back w w' Hq).
  - intros a m' Hm'. destruct (quiet_mod_inv w w' a m' Hq Hm') as (m & Hm & _ & Hwf).
    apply Hwf. split; [by eapply (wwf_modules w Hw)|by apply (wwf_cbs w Hw)].
Qed.

(** The ports of a module, whatever is connected to them. *)
Definition shape (m : moModule) := (m_input_map m, m_output_map m).
(** Modules of [w] still exist and have the same ports. *)
Definition alive (w w' : world) : Prop :=
  ∀ a m, w_modules w !! a = Some m → ∃ m', w_modules w' !! a = Some m' ∧ shape m' = shape m.
#[export] Instance alive_preorder : PreOrder alive.
Proof.
  split; [intros w a m; eauto|]. intros w1 w2 w3 H12 H23 a m Hm.
  destruct (H12 a m Hm) as (m2 & Hm2 & E2). destruct (H23 a m2 Hm2) as (m3 & Hm3 & E3). exists m3. split; congruence.
Qed.
Lemma alive_live w w' a : alive w w' → is_Some (w_modules w !! a) → is_Some (w_modules w' !! a).
Proof. intros Hl [m Hm]. destruct (Hl a m Hm) as (m' & ? & _). eauto. Qed.
Lemma quiet_alive w w' : quiet w w' → alive w w'.
Proof.
  intros Hq a m Hm. destruct (q_mod w w' Hq a m Hm) as (m' & Hm' & Hk & _).
  exists m'. split; [done|]. pose proof (kept_ports m m' Hk) as E. unfold ports in E. unfold shape. congruence.
Qed.

(** ** Safe computations *)

(** [x] returns from [w] and the change is quiet. *)
Definition safe {A} (x : M A) (w : world) : Prop :=
  world_wf w → ∃ r w', x w = Ok (r, w') ∧ quiet w w'.

Lemma safe_ret {A} (a : A) w : safe (mret a) w.
Proof. intros _. by exists a, w. Qed.

Lemma safe_bind {A B} (x : M A) (k : A → M B) w :
  safe x w → (∀ r w', x w = Ok (r, w') → quiet w w' → safe (k r) w') → safe (x ≫= k) w.
Proof.
  intros Hx Hk Hw. destruct (Hx Hw) as (r & w1 & Hrun & Hq).
  destruct (Hk r w1 Hrun Hq (quiet_wf w w1 Hw Hq)) as (r2 & w2 & Hrun2 & Hq2).
  exists r2, w2. rewrite bind_run, Hrun. split; [done|]. by etrans.
Qed.

Lemma safe_getm a w : is_Some (w_modules w !! a) → safe (getm a) w.
Proof. intros [m Hm] _. exists m, w. by rewrite (getm_run a m). Qed.
Lemma safe_gets {A} (g : world → A) w : safe (gets g) w.
Proof. intros _. by exists (g w), w. Qed.
Lemma safe_lift {A} (r : res A) a w : r = Ok a → safe (lift r) w.
Proof. intros -> _. by exists a, w. Qed.

Lemma quiet_put a m m' w :
  w_modules w !! a = Some m → kept m m' →
  (module_wf m ∧ cbs_self a m → module_wf m' ∧ cbs_self a m') → quiet w (put_module a m' w).
Proof.
  intros Hm Hp Hwf. split; simpl; eauto 10.
  - intros b x Hx. destruct (decide (a = b)) as [<-|].
    + rewrite Hm in Hx. injection Hx as <-. exists m'. by rewrite lookup_insert_eq.
    + rewrite lookup_insert_ne by done. by exists x.
  - intros b. destruct (decide (a = b)) as [<-|]; [eauto|]. by rewrite lookup_insert_ne.
Qed.

Lemma safe_mod a g w :
  is_Some (w_modules w !! a) → (∀ m, kept m (g m)) →
  (∀ m, module_wf m ∧ cbs_self a m → module_wf (g m) ∧ cbs_self a (g m)) →
  safe (mod_module a g) w.
Proof.
  intros [m Hm] Hp Hwf _. exists tt, (put_module a (g m) w).
  rewrite (mod_module_run a m) by done. split; [done|]. eapply quiet_put; eauto.
Qed.

Lemma safe_for_each {A} (f : A → M unit) l w :
  (∀ a w', a ∈ l → quiet w w' → safe (f a) w') → safe (for_each f l) w.
Proof.
  revert w. induction l as [|a l IH]; intros w Hf; simpl; [apply safe_ret|].
  apply safe_bind; [apply Hf; [by left|done]|].
  intros _ w1 _ Hq. apply IH. intros b w2 Hb Hq2. apply Hf; [by right|]. by etrans.
Qed.

(** Flags do not matter to well-formedness. *)
Lemma flag_wf a m m' :
  ports m' = ports m → m_properties m' = m_properties m →
  (m_use_thread m' = true → is_Some (m_thread m') ∧ is_Some (m_trigger m')) →
  module_wf m ∧ cbs_self a m → module_wf m' ∧ cbs_self a m'.
Proof.
  unfold ports, cbs_self. intros [= Hi Ho Hii Hoi Hf Hd] Hp Ht [[] Hc]. rewrite Hp.
  split; [|done]. split; rewrite ?Hi, ?Ho, ?Hii, ?Hoi, ?Hf, ?Hd, ?Hp; done.
Qed.

(** ** Properties of a module in the heap *)

Record props_wf (a : nat) (m : moModule) : Prop := {
  pw_ordered : ordered (m_properties m);
  pw_wf k p : find k (m_properties m) = Some p → prop_wf p;
  pw_cbs : cbs_self a m;
}.

Lemma module_props_wf a m : module_wf m ∧ cbs_self a m → props_wf a m.
Proof. intros [[] ?]. by split. Qed.

Lemma property_props_wf a k m :
  props_wf a m →
  props_wf a (property k m).2 ∧ prop_wf (property k m).1
  ∧ (∀ c, c ∈ p_callbacks (property k m).1 → c.2 = a).
Proof.
  intros [Ho Hp Hc]. pose proof (cbs_self_property a k m Hc) as [Hc1 Hc2].
  unfold property in *. destruct (find k (m_properties m)) as [p|] eqn:E; simpl in *;
    [by split_and!; eauto|].
  assert (prop_wf (alloc MO_PROPERTY_STRING (VString EmptyString) "?? auto created ??"))
    by (by apply (alloc_wf (VString EmptyString))).
  split_and!; [|done|done]. split; simpl; auto with movid.
  intros j q [[_ ->]|[_ Hq]]%find_insert_Some; eauto.
Qed.

Lemma property_ports k m : ports (property k m).2 = ports m.
Proof. unfold property. by destruct (find k (m_properties m)). Qed.
Lemma property_found k m : find k (m_properties (property k m).2) = Some (property k m).1.
Proof. unfold property. destruct (find k (m_properties m)) eqn:E; [done|]. apply find_insert_eq. Qed.
Lemma property_kept k m : kept m (property k m).2.
Proof.
  split; [apply property_ports|]. unfold property, id_view.
  destruct (find k (m_properties m)) eqn:E; [done|]. simpl.
  destruct (decide (k = "id")) as [->|]; [by rewrite find_insert_eq, E|].
  by rewrite find_insert_ne.
Qed.
(** Storing a property: the id is kept unless it is the one stored. *)
Lemma store_kept k p q m :
  find k (m_properties m) = Some p → (k = "id" → core q = core p) → kept m (store_property k q m).
Proof.
  intros Hk Hc. split; [done|]. unfold id_view. simpl.
  destruct (decide (k = "id")) as [->|]; [rewrite find_insert_eq, Hk; auto|].
  by rewrite find_insert_ne.
Qed.
Lemma property_flags k m :
  m_use_thread (property k m).2 = m_use_thread m ∧ m_thread (property k m).2 = m_thread m
  ∧ m_trigger (property k m).2 = m_trigger m.
Proof. unfold property. by destruct (find k (m_properties m)). Qed.

Definition thread_ok (m : moModule) : Prop :=
  m_use_thread m = true → is_Some (m_thread m) ∧ is_Some (m_trigger m).

Lemma rebuild_wf a m m' :
  ports m' = ports m → props_wf a m' → thread_ok m' →
  module_wf m ∧ cbs_self a m → module_wf m' ∧ cbs_self a m'.
Proof.
  unfold ports. intros [= Hi Ho Hii Hoi Hf Hd] [] Ht [[] _].
  split; [|done]. split; rewrite ?Hi, ?Ho, ?Hii, ?Hoi, ?Hf, ?Hd; done.
Qed.

Lemma asString_total p : prop_wf p → ∃ s, asString p = Ok s.
Proof.
  intros [(v & Hv & Ht & _) _]. unfold asString. rewrite Hv, <-Ht. destruct v; simpl; eauto.
Qed.
Lemma asBool_total p : prop_wf p → ∃ b, asBool p = Ok b.
Proof.
  intros [(v & Hv & Ht & _) _]. unfold asBool. rewrite Hv, <-Ht. destruct v; simpl; eauto.
Qed.

Lemma property_of_run a k m w :
  w_modules w !! a = Some m →
  property_of a k w = Ok ((property k m).1, put_module a (property k m).2 w).
Proof.
  intros Hm. unfold property_of. rewrite bind_run, (getm_run a m) by done.
  cbv beta iota. by destruct (property k m).
Qed.

Lemma put_module_id a m w : w_modules w !! a = Some m → put_module a m w = w.
Proof.
  intros H. unfold put_module, upd_w_modules. destruct w; simpl in *. f_equal. by apply insert_id.
Qed.

(** A log statement changes nothing but, at most, the id property. *)
Lemma log_id_run level a m w :
  w_modules w !! a = Some m → props_wf a m →
  ∃ m', log_id level a w = Ok (tt, put_module a m' w) ∧ (m' = m ∨ m' = (property "id" m).2).
Proof.
  intros Hm Hp. unfold log_id. rewrite bind_run. cbn [gets].
  destruct (level <=? w_loglevel w)%Z.
  - rewrite bind_run, (property_of_run a "id" m) by done. cbv beta iota.
    destruct (property_props_wf a "id" m Hp) as (_ & Hwf & _).
    destruct (asString_total _ Hwf) as [s Hs]. rewrite bind_run, Hs. cbn [lift].
    exists (property "id" m).2. auto.
  - exists m. rewrite put_module_id by done. auto.
Qed.

(** What [log_id] keeps. *)
Lemma logged_ok a m m' :
  m' = m ∨ m' = (property "id" m).2 → props_wf a m →
  props_wf a m' ∧ kept m m' ∧ m_use_thread m' = m_use_thread m
  ∧ m_thread m' = m_thread m ∧ m_trigger m' = m_trigger m.
Proof.
  intros [->| ->] Hp; [by split_and!|].
  destruct (property_flags "id" m) as (? & ? & ?).
  split_and!; [by apply property_props_wf|apply property_kept|done..].
Qed.

Lemma safe_log level a w : is_Some (w_modules w !! a) → safe (log_id level a) w.
Proof.
  intros [m Hm] Hw. assert (module_wf m ∧ cbs_self a m) as Hwf
    by (split; [by eapply (wwf_modules w Hw)|by apply (wwf_cbs w Hw)]).
  destruct (log_id_run level a m w Hm) as (m' & Hrun & Hm'); [by apply module_props_wf|].
  destruct (logged_ok a m m' Hm') as (Hp & Hpo & Hu & Ht & Htr); [by apply module_props_wf|].
  exists tt, (put_module a m' w). split; [done|]. eapply quiet_put; eauto.
  apply rebuild_wf; [apply Hpo|done|]. unfold thread_ok. rewrite Hu, Ht, Htr. apply (mwf_thread m), Hwf.
Qed.

(** ** A small program logic for code that only touches one module *)

(** [w] is [w0] with another module at [a], other threads and, possibly, more
    addresses used; the module satisfies [Q]. *)
Definition At (a : nat) (w0 : world) (Q : moModule → Prop) (w : world) : Prop :=
  ∃ m th n, w = put_module a m (upd_w_next (λ _, n) (upd_w_threads (λ _, th) w0))
            ∧ w_next w0 ≤ n ∧ Q m.

Definition local {A} (a : nat) (x : M A) (Q : moModule → Prop) (R : A → moModule → Prop) : Prop :=
  ∀ w0 w, At a w0 Q w → ∃ r w', x w = Ok (r, w') ∧ At a w0 (R r) w'.

Lemma At_start a m w : w_modules w !! a = Some m → At a w (λ x, x = m) w.
Proof.
  intros Hm. exists m, (w_threads w), (w_next w). split_and!; [|done|done].
  rewrite <-(put_module_id a m w) at 1 by done. by destruct w.
Qed.

Section Local.
  Context (a : nat).
  Implicit Types (Q : moModule → Prop).

Lemma local_ret {A} (v : A) Q : local a (mret v) Q (λ r m, r = v ∧ Q m).
  Proof. intros w0 w (m & th & n & -> & Hn & HQ). eexists _, _. split; [done|]. by exists m, th, n. Qed.
Lemma local_skip Q R : (∀ m, Q m → R m) → local a skip Q (λ _, R).
  Proof.
    intros HR w0 w (m & th & n & -> & Hn & HQ). eexists _, _. split; [done|].
    exists m, th, n. auto.
  Qed.
Lemma local_bind {A B} (x : M A) (k : A → M B) Q R S :
    local a x Q R → (∀ r, local a (k r) (R r) S) → local a (x ≫= k) Q S.
  Proof.
    intros Hx Hk w0 w Hw. destruct (Hx w0 w Hw) as (r & w1 & Hrun & Hw1).
    destruct (Hk r w0 w1 Hw1) as (r2 & w2 & Hrun2 & Hw2).
    exists r2, w2. by rewrite bind_run, Hrun.
  Qed.
Lemma local_conseq {A} (x : M A) Q Q' R R' :
    local a x Q R → (∀ m, Q' m → Q m) → (∀ r m, R r m → R' r m) → local a x Q' R'.
  Proof.
    intros Hx HQ HR w0 w (m & th & n & -> & Hn & HQm).
    destruct (Hx w0 (put_module a m (upd_w_next (λ _, n) (upd_w_threads (λ _, th) w0))))
      as (r & w1 & Hrun & m1 & th1 & n1 & -> & Hn1 & HR1); [by exists m, th, n; auto|].
    eexists r, _. split; [done|]. exists m1, th1, n1. auto.
  Qed.
Lemma local_pre {A} (x : M A) Q Q' R : (∀ m, Q' m → Q m) → local a x Q R → local a x Q' R.
  Proof. intros HQ Hx. by eapply local_conseq. Qed.
Lemma local_getm Q : local a (getm a) Q (λ r m, r = m ∧ Q m).
  Proof.
    intros w0 w (m & th & n & -> & Hn & HQ). eexists m, _.
    rewrite (getm_run a m) by apply put_module_lookup. split; [done|]. by exists m, th, n.
  Qed.
Lemma local_gets {A} (g : world → A) Q : local a (gets g) Q (λ _, Q).
  Proof. intros w0 w (m & th & n & -> & Hn & HQ). eexists _, _. split; [done|]. by exists m, th, n. Qed.
Lemma local_lift {A} (x : res A) Q R :
    (∀ m, Q m → ∃ v, x = Ok v ∧ R v m) → local a (lift x) Q R.
  Proof.
    intros Hx w0 w (m & th & n & -> & Hn & HQ). destruct (Hx m HQ) as (v & -> & HR).
    eexists v, _. split; [done|]. by exists m, th, n.
  Qed.
Lemma local_mod g Q R : (∀ m, Q m → R (g m)) → local a (mod_module a g) Q (λ _, R).
  Proof.
    intros HR w0 w (m & th & n & -> & Hn & HQ). eexists tt, _.
    rewrite (mod_module_run a m) by apply put_module_lookup.
    rewrite put_module_twice. split; [done|]. exists (g m), th, n. auto.
  Qed.
Lemma local_put g Q R :
    (∀ m, Q m → R (g m)) → ∀ m0, local a (modify (put_module a (g m0))) (λ m, m = m0 ∧ Q m) (λ _, R).
  Proof.
    intros HR m0 w0 w (m & th & n & -> & Hn & -> & HQ). eexists tt, _. split; [done|].
    rewrite put_module_twice. exists (g m0), th, n. auto.
  Qed.
Lemma local_property k Q R :
    (∀ m, Q m → R (property k m).1 (property k m).2) → local a (property_of a k) Q R.
  Proof.
    intros HR w0 w (m & th & n & -> & Hn & HQ). eexists _, _.
    rewrite (property_of_run a k m) by apply put_module_lookup.
    split; [done|]. rewrite put_module_twice. exists (property k m).2, th, n. auto.
  Qed.
Lemma local_log level Q :
    (∀ m, Q m → props_wf a m) → (∀ m, Q m → Q (property "id" m).2) →
    local a (log_id level a) Q (λ _, Q).
  Proof.
    intros Hp HQ w0 w (m & th & n & -> & Hn & HQm).
    destruct (log_id_run level a m (put_module a m (upd_w_next (λ _, n) (upd_w_threads (λ _, th) w0))))
      as (m' & Hrun & Hm'); [apply put_module_lookup|auto|].
    eexists tt, _. split; [done|]. rewrite put_module_twice. exists m', th, n.
    destruct Hm' as [->| ->]; auto.
  Qed.
Lemma local_threads f Q :
    local a (modify (λ w, upd_w_next S (upd_w_threads f w))) Q (λ _, Q).
  Proof.
    intros w0 w (m & th & n & -> & Hn & HQ). eexists tt, _. split; [done|].
    exists m, (f th), (S n). split_and!; [done|lia|done].
  Qed.
Lemma local_unthread f Q : local a (modify (upd_w_threads f)) Q (λ _, Q).
  Proof.
    intros w0 w (m & th & n & -> & Hn & HQ). eexists tt, _. split; [done|].
    exists m, (f th), n. split_and!; done.
  Qed.

  (** Code that is local to a live module and ends in a proper state is safe. *)
Lemma local_run {A} (x : M A) (R : A → moModule → Prop) w m :
    w_modules w !! a = Some m →
    (props_wf a m → thread_ok m →
     local a x (λ y, y = m) (λ r m', R r m' ∧ kept m m' ∧ props_wf a m' ∧ thread_ok m')) →
    module_wf m ∧ cbs_self a m →
    ∃ r w' m', x w = Ok (r, w') ∧ At a w (λ y, y = m') w' ∧ quiet w w'
               ∧ w_modules w' !! a = Some m' ∧ R r m'.
  Proof.
    intros Hm Hx Hwf.
    destruct (Hx (module_props_wf a m Hwf) (mwf_thread m (proj1 Hwf)) w w (At_start a m w Hm))
      as (r & w' & Hrun & m' & th & n & -> & Hn & HR & Hp & Hpw & Ht).
    exists r, (put_module a m' (upd_w_next (λ _, n) (upd_w_threads (λ _, th) w))), m'.
    split_and!; [done|by exists m', th, n| |apply put_module_lookup|done].
    trans (upd_w_next (λ _, n) (upd_w_threads (λ _, th) w)); [by apply quiet_same|].
    eapply quiet_put; [done..|]. apply rebuild_wf; [apply Hp|done|done].
  Qed.

Lemma local_safe {A} (x : M A) (R : A → moModule → Prop) w m :
    w_modules w !! a = Some m →
    (props_wf a m → thread_ok m →
     local a x (λ y, y = m) (λ r m', R r m' ∧ kept m m' ∧ props_wf a m' ∧ thread_ok m')) →
    world_wf w →
    ∃ r w' m', x w = Ok (r, w') ∧ quiet w w' ∧ w_modules w' !! a = Some m' ∧ R r m'.
  Proof.
    intros Hm Hx Hw. destruct (local_run x R w m Hm Hx) as (r & w' & m' & ? & _ & ?); [|eauto].
    split; [by eapply (wwf_modules w Hw)|by apply (wwf_cbs w Hw)].
  Qed.
End Local.

(** ** Starting and stopping *)

(** The shape a module keeps while it is started or stopped. *)
Definition same_shape (a : nat) (m0 m : moModule) : Prop :=
  kept m0 m ∧ props_wf a m.

Lemma same_shape_property a m0 k m : same_shape a m0 m → same_shape a m0 (property k m).2.
Proof. intros [Hp Hw]. split; [|by apply property_props_wf].
  trans m; [done|apply property_kept]. Qed.

(** A change that leaves ports and properties alone. *)
Lemma same_shape_upd a m0 m m' :
  ports m' = ports m → m_properties m' = m_properties m → same_shape a m0 m → same_shape a m0 m'.
Proof.
  intros Hp Hq [Hs []]. split; [trans m; [done|by apply kept_flags]|]. unfold cbs_self in *.
  split; unfold cbs_self; by rewrite Hq.
Qed.

Lemma start_local a m :
  props_wf a m →
  local a (moModule_start a) (λ y, y = m)
    (λ _ m', (m_is_started m' = true ∧ (∀ p, (property "use_thread" m).1 = p → asBool p = Ok (m_use_thread m')))
             ∧ kept m m' ∧ props_wf a m' ∧ thread_ok m').
Proof.
  intros Hm. unfold moModule_start.
  destruct (property_props_wf a "use_thread" m Hm) as (_ & Hut & _).
  destruct (asBool_total _ Hut) as [b Hb].
  eapply local_bind;
    [apply (local_property a "use_thread" _ (λ p m', p = (property "use_thread" m).1 ∧ same_shape a m m'))|].
  { intros ? ->. split; [done|]. by apply same_shape_property. }
  intros p. eapply local_bind; [apply (local_lift a _ _ (λ b' m', b' = b ∧ same_shape a m m'))|].
  { intros m' [-> H]. eauto. }
  intros b'. eapply local_bind; [apply local_gets|]. intros now.
  eapply local_bind;
    [apply (local_mod a _ _ (λ m', (b' = b ∧ m_use_thread m' = b) ∧ same_shape a m m'))|].
  { intros m' [-> H]. split; [done|]. by apply (same_shape_upd a m m'). }
  intros ?.
  set (J := λ (b : bool) m', same_shape a m m' ∧ m_use_thread m' = b ∧ thread_ok m').
  eapply local_bind with (R := λ _, J b).
  { destruct b'.
    - eapply local_bind; [apply local_getm|]. intros m1.
      eapply local_bind with (R := λ _ m', same_shape a m m' ∧ (true = b ∧ m_use_thread m' = b) ∧ is_Some (m_trigger m')).
      { destruct (m_trigger m1) eqn:E.
        - apply local_skip. intros m' (-> & H & Hs). rewrite E. eauto.
        - apply (local_pre a _ (λ m', (true = b ∧ m_use_thread m' = b) ∧ same_shape a m m')); [by intros m' [_ ?]|].
          eapply local_bind; [apply local_log|].
          + by intros m' [_ [_ ?]].
          + intros m' [[? Hu] Hs]. destruct (property_flags "id" m') as [-> _].
            split; [done|]. by apply same_shape_property.
          + intros ?. apply local_mod. intros m' [[? Hu] Hs]. split_and!; eauto.
            by apply (same_shape_upd a m m'). }
      intros ?. eapply local_bind; [apply local_log|].
      + by intros m' [[_ ?] _].
      + intros m' (Hs & Hu & Ht). destruct (property_flags "id" m') as (-> & _ & ->).
        split_and!; try apply Hu; [by apply same_shape_property|done].
      + intros ?. eapply local_bind; [apply local_gets|]. intros t.
        eapply local_bind; [apply local_threads|]. intros ?.
        apply local_mod. intros m' (Hs & [? Hu] & Ht). split_and!; [by apply (same_shape_upd a m m')|done|].
        intros _. eauto.
    - apply local_skip. intros m' [[<- Hu] Hs]. split_and!; [done|done|]. intros Ht. congruence. }
  intros ?. eapply local_bind; [apply (local_mod a _ _ (λ m', J b m' ∧ m_is_started m' = true))|].
  { intros m' (Hs & Hu & Ht). split; [|done]. split_and!; [by apply (same_shape_upd a m m')|done|done]. }
  intros ?. eapply local_conseq; [apply (local_log a _ (λ m', J b m' ∧ m_is_started m' = true))|exact (λ m H, H)|].
  - by intros m' [[[_ ?] _] _].
  - intros m' [(Hs & Hu & Ht) Hst]. unfold J, thread_ok.
    destruct (property_flags "id" m') as (-> & -> & ->).
    split_and!; [by apply same_shape_property|done|done|].
    unfold property. by destruct (find _ _).
  - intros _ m' [((Hp & Hw) & Hu & Ht) Hst]. split_and!; [done|intros q <-; congruence|done..].
Qed.

Lemma stop_local a m :
  props_wf a m → thread_ok m →
  local a (moModule_stop a) (λ y, y = m)
    (λ _ m', (m_is_started m' = false ∧ m_need_update m' = false
              ∧ (m_use_thread m = true → m_thread m' = None))
             ∧ kept m m' ∧ props_wf a m' ∧ thread_ok m').
Proof.
  intros Hm Hth. unfold moModule_stop.
  set (J := λ m', same_shape a m m' ∧ m_use_thread m' = false
                  ∧ (m_use_thread m = true → m_thread m' = None)).
  eapply local_bind; [apply local_getm|]. intros m1.
  eapply local_bind with (R := λ _, J).
  { destruct (m_use_thread m1) eqn:Hu; [destruct (m_thread m1) as [t|] eqn:Ht|].
    - eapply local_bind; [apply (local_lift a _ _ (λ _ m', m1 = m ∧ m' = m))|].
      { intros m' [-> ->]. destruct Hth as [_ [b ->]]; [done|]. exists b. by split_and!. }
      intros b. eapply local_bind; [apply local_unthread|]. intros ?.
      apply local_mod. intros m' [-> ->]. split_and!; [|done|done].
      by apply (same_shape_upd a m m).
    - apply local_skip. intros m' [-> ->]. destruct Hth as [[? H] _]; [done|congruence].
    - apply local_skip. intros m' [-> ->]. split_and!; [done|done|congruence]. }
  intros ?. eapply local_bind;
    [apply (local_mod a _ _ (λ m', J m' ∧ m_is_started m' = false ∧ m_need_update m' = false))|].
  { intros m' (Hs & Hu & Ht). split; [|done]. split_and!; [|done|done].
    by apply (same_shape_upd a m m'). }
  intros ?. eapply local_conseq;
    [apply (local_log a _ (λ m', J m' ∧ m_is_started m' = false ∧ m_need_update m' = false))
    |exact (λ m H, H)|].
  - by intros m' [[[_ ?] _] _].
  - intros m' [(Hs & Hu & Ht) Hst]. unfold J. destruct (property_flags "id" m') as (-> & -> & _).
    split_and!; [by apply same_shape_property|done|done|..];
      unfold property; by destruct (find _ _), Hst.
  - intros _ m' [((Hp & Hw) & Hu & Ht) [Hs Hn]]. split_and!; try done. intros Hu'. congruence.
Qed.

Lemma safe_start a w : is_Some (w_modules w !! a) → safe (moModule_start a) w.
Proof.
  intros [m Hm] Hw. destruct (local_safe a (moModule_start a) (λ _ _, True) w m Hm) as
    (r & w' & m' & Hrun & Hq & _); [|done|eauto].
  intros Hp _. eapply local_conseq; [by apply start_local|done|]. by intros _ m' [_ ?].
Qed.

Lemma safe_stop a w : is_Some (w_modules w !! a) → safe (moModule_stop a) w.
Proof.
  intros [m Hm] Hw. destruct (local_safe a (moModule_stop a) (λ _ _, True) w m Hm) as
    (r & w' & m' & Hrun & Hq & _); [|done|eauto].
  intros Hp Ht. eapply local_conseq; [by apply stop_local|done|]. by intros _ m' [_ ?].
Qed.

(** ** The interface of the module classes *)

(** A call of a method that classes override. *)
Inductive vkind := KStart | KStop | KUpdate | KPoll | KNotifyData | KGuiFeedback | KGuiBuild | KCallback.
Inductive vcall :=
  | CallStart (a : nat)
  | CallStop (a : nat)
  | CallUpdate (a : nat)
  | CallPoll (a : nat)
  | CallNotifyData (a s : nat)
  | CallGuiFeedback (a : nat) (type : string) (x y : double)
  | CallGuiBuild (a : nat)
  | CallCallback (cb : Z) (a : nat) (name : string).

Definition kind_of (c : vcall) : vkind :=
  match c with
  | CallStart _ => KStart | CallStop _ => KStop | CallUpdate _ => KUpdate | CallPoll _ => KPoll
  | CallNotifyData _ _ => KNotifyData | CallGuiFeedback _ _ _ _ => KGuiFeedback
  | CallGuiBuild _ => KGuiBuild | CallCallback _ _ _ => KCallback
  end.
Definition run_vcall {V : Virtuals} (c : vcall) : M unit :=
  match c with
  | CallStart a => v_start a | CallStop a => v_stop a | CallUpdate a => v_update a | CallPoll a => v_poll a
  | CallNotifyData a s => v_notifyData a s | CallGuiFeedback a type x y => v_guiFeedback a type x y
  | CallGuiBuild a => v_guiBuild a | CallCallback cb a name => v_callback cb a name
  end.

(** When the framework makes a call: on a live module, and [notifyData] for a
    stream the module has an input on. *)
Definition callable (c : vcall) (w : world) : Prop :=
  match c with
  | CallStart a | CallStop a | CallUpdate a | CallPoll a | CallGuiFeedback a _ _ _ | CallGuiBuild a
  | CallCallback _ a _ => is_Some (w_modules w !! a)
  | CallNotifyData a s => ∃ m n, w_modules w !! a = Some m ∧ getInput n m = Some s
  end.

(** What a class promises: a method that returns has not rewired the graph.  It
    may fault ([moCameraModule::start] asserts that no camera is open). *)
Class VirtualLaws (V : Virtuals) :=
  vl_quiet c w r w' : world_wf w → callable c w → run_vcall c w = Ok (r, w') → quiet w w'.

(** The fault of an overridden method of one of the kinds [K], called in a
    well-formed world in which the modules of [w] still live. *)
Definition blamed {V : Virtuals} (K : list vkind) (w : world) (f : fault) : Prop :=
  ∃ c w', kind_of c ∈ K ∧ world_wf w' ∧ alive w w' ∧ callable c w' ∧ run_vcall c w' = Fault f.

(** [x] returns with [Q], or stops with a fault that [B] admits. *)
Definition yields {A} (B : world → fault → Prop) (x : M A) (w : world) (Q : A → world → Prop) : Prop :=
  match x w with Ok (r, w') => Q r w' | Fault f => B w f end.
Definition guarded {A} (B : world → fault → Prop) (x : M A) (w : world) : Prop :=
  world_wf w → yields B x w (λ _ w', quiet w w').

(** Faults admitted later are admitted earlier. *)
Class Pulls (B : world → fault → Prop) := pulls w w' f : alive w w' → B w' f → B w f.
#[export] Instance blamed_pulls {V : Virtuals} K : Pulls (blamed K).
Proof. intros w w' f Hl (c & w2 & Hk & Hw2 & Hl2 & Hc). exists c, w2. split_and!; try done; [by trans w'|apply Hc..]. Qed.
Definition any_fault : world → fault → Prop := λ _ _, True.
#[export] Instance any_fault_pulls : Pulls any_fault.
Proof. done. Qed.

Lemma blamed_none {V : Virtuals} w f : ¬ blamed [] w f.
Proof. by intros (c & w' & Hk%elem_of_nil & _). Qed.
Lemma blamed_sub {V : Virtuals} K K' w f : K ⊆ K' → blamed K w f → blamed K' w f.
Proof. intros Hs (c & w' & Hk & H). exists c, w'. split; [by apply Hs|done]. Qed.

Lemma yields_run {A} B (x : M A) w (Q : A → world → Prop) r w' :
  x w = Ok (r, w') → Q r w' → yields B x w Q.
Proof. unfold yields. by intros ->. Qed.
Lemma yields_impl {A} (B B' : world → fault → Prop) (x : M A) w (Q Q' : A → world → Prop) :
  yields B x w Q → (∀ f, B w f → B' w f) → (∀ r w', x w = Ok (r, w') → Q r w' → Q' r w') → yields B' x w Q'.
Proof. unfold yields. destruct (x w) as [[r w']|]; auto. Qed.
Lemma yields_bind {A A'} B `{!Pulls B} (x : M A) (k : A → M A') w (P : A → world → Prop) Q :
  yields B x w P → (∀ r w', x w = Ok (r, w') → P r w' → alive w w' ∧ yields B (k r) w' Q) →
  yields B (x ≫= k) w Q.
Proof.
  unfold yields. intros Hx Hk. rewrite bind_run. destruct (x w) as [[r w1]|f]; [|done].
  destruct (Hk r w1 eq_refl Hx) as [Hl H]. destruct (k r w1) as [[r2 w2]|f]; [done|]. by eapply pulls.
Qed.
(** A first step that is known to return. *)
Lemma yields_after {A A'} B `{!Pulls B} (x : M A) (k : A → M A') w r w1 Q :
  x w = Ok (r, w1) → alive w w1 → yields B (k r) w1 Q → yields B (x ≫= k) w Q.
Proof.
  intros Hx Hl Hk. apply (yields_bind B x k w (λ r' w', r' = r ∧ w' = w1)); [by eapply yields_run|].
  intros ? ? _ [-> ->]. done.
Qed.

Section Guarded.
Context (B : world → fault → Prop) {HB : Pulls B}.

Lemma guarded_safe {A} (x : M A) w : safe x w → guarded B x w.
Proof. intros Hx Hw. destruct (Hx Hw) as (r & w' & Hrun & Hq). by eapply yields_run. Qed.
Lemma guarded_ret {A} (a : A) w : guarded B (mret a) w.
Proof. apply guarded_safe, safe_ret. Qed.
Lemma guarded_bind {A A'} (x : M A) (k : A → M A') w :
  guarded B x w → (∀ r w', x w = Ok (r, w') → quiet w w' → guarded B (k r) w') → guarded B (x ≫= k) w.
Proof.
  intros Hx Hk Hw. eapply (yields_bind B); [by apply Hx|]. intros r w1 Hrun Hq.
  split; [by apply quiet_alive|].
  eapply yields_impl; [apply (Hk r w1 Hrun Hq), (quiet_wf w w1 Hw Hq)|done|]. intros r2 w2 _ Hq2. by trans w1.
Qed.
Lemma guarded_for_each {A} (f : A → M unit) l w :
  (∀ a w', a ∈ l → quiet w w' → guarded B (f a) w') → guarded B (for_each f l) w.
Proof.
  revert w. induction l as [|a l IH]; intros w Hf; simpl; [apply guarded_ret|].
  apply guarded_bind; [apply Hf; [by left|done]|].
  intros _ w1 _ Hq. apply IH. intros b w2 Hb Hq2. apply Hf; [by right|]. by etrans.
Qed.
(** Computations that leave the world alone. *)
Lemma guarded_lift {A} (r : res A) w : (∀ f, r = Fault f → B w f) → guarded B (lift r) w.
Proof. intros Hr _. unfold yields. destruct r as [v|f]; simpl; [done|auto]. Qed.
End Guarded.

Lemma guarded_impl {A} (B B' : world → fault → Prop) (x : M A) w :
  (∀ f, B w f → B' w f) → guarded B x w → guarded B' x w.
Proof. intros HB Hx Hw. eapply yields_impl; [by apply Hx|done|done]. Qed.
Lemma guarded_quiet {A} B (x : M A) w r w' : guarded B x w → world_wf w → x w = Ok (r, w') → quiet w w'.
Proof. intros Hx Hw Hrun. specialize (Hx Hw). unfold yields in Hx. by rewrite Hrun in Hx. Qed.

Lemma safe_property a k w :
  is_Some (w_modules w !! a) → world_wf w →
  ∃ p w' m', property_of a k w = Ok (p, w') ∧ quiet w w' ∧ prop_wf p
          ∧ (∀ c, c ∈ p_callbacks p → c.2 = a)
          ∧ w_modules w' !! a = Some m' ∧ find k (m_properties m') = Some p.
Proof.
  intros [m Hm] Hw.
  destruct (local_safe a (property_of a k)
    (λ p m', (prop_wf p ∧ ∀ c, c ∈ p_callbacks p → c.2 = a)
             ∧ find k (m_properties m') = Some p) w m Hm)
    as (p & w' & m' & Hrun & Hq & Hm' & [HR Hf]); [|done|by exists p, w', m'; destruct HR].
  intros Hp Ht. apply local_property. intros ? ->.
  destruct (property_props_wf a k m Hp) as (? & ? & ?).
  unfold thread_ok. destruct (property_flags k m) as (-> & -> & ->).
  split_and!; [done|done|apply property_found|apply property_kept|done|done].
Qed.

Lemma set_value_callbacks t v p p' calls :
  set_value t v p = Ok (p', calls) →
  p_callbacks p' = p_callbacks p ∧ (∀ c, c ∈ calls → c ∈ p_callbacks p).
Proof.
  unfold set_value. destruct (isReadOnly p).
  { intros [= <- <-]. split; [done|]. by intros c ?%elem_of_nil. }
  intros Hs. apply res_bind_Ok in Hs as (q & Hq & [= <- <-]).
  assert (p_callbacks q = p_callbacks p) as E; [|by unfold fireCallback; rewrite E].
  unfold autoconvert in Hq. destruct (p_type p); simpl in Hq; inv_res; done.
Qed.

(** Setting a property of a live module: the value is stored, unless a point
    list is written to a [double], and then the callbacks of the property run,
    for the module itself.  The id must be read-only for the change to be quiet. *)
Lemma set_property_run {V : Virtuals} a m k v w :
  world_wf w → w_modules w !! a = Some m → val_ok v → type_of v ≠ MO_PROPERTY_POINTLIST →
  ∃ calls w2, set_property a k (type_of v) v w = for_each (run_call a k) calls w2
    ∧ world_wf w2 ∧ alive w w2
    ∧ ((k = "id" → (id_view m).1.2 = true) → quiet w w2)
    ∧ ∀ c, c ∈ calls → c.2 = a ∧ c ∈ p_callbacks (property k m).1.
Proof.
  intros Hw Hm Hv Ht. unfold set_property.
  assert (module_wf m ∧ cbs_self a m) as Hwf
    by (split; [by eapply (wwf_modules w Hw)|by apply (wwf_cbs w Hw)]).
  destruct (property_props_wf a k m (module_props_wf a m Hwf)) as ([] & Hp & Hc).
  set (p := (property k m).1) in *. set (m1 := (property k m).2) in *.
  pose proof (property_found k m) as Hf. fold p m1 in Hf.
  pose proof (set_value_cases v p Hp Hv) as Hset.
  destruct (set_value (type_of v) v p) as [[p' calls]|f] eqn:E; [|by destruct Hset as (_ & _ & _ & ?)].
  destruct (set_value_callbacks _ v p p' calls E) as [Hcb' Hcalls].
  assert (prop_wf p') as Hp' by (by eapply set_value_wf).
  set (m2 := store_property k p' m1).
  assert (Hwf2 : module_wf m2 ∧ cbs_self a m2).
  { split; [apply store_property_wf; [by apply property_wf, Hwf|done]|].
    apply cbs_self_store; [apply (cbs_self_property a k m), Hwf|]. by rewrite Hcb'. }
  assert (ports m2 = ports m) as Hports by apply (property_ports k m).
  exists calls, (put_module a m2 w). split_and!.
  - rewrite bind_run, (property_of_run a k m) by done. fold p m1. cbv beta iota.
    rewrite bind_run, E. cbn [lift fst snd].
    rewrite bind_run, (mod_module_run a m1) by apply put_module_lookup. by rewrite put_module_twice.
  - eapply (put_module_wf a m); [done|done|apply Hwf2|by injection Hports|..|apply Hwf2].
    + intros n. by apply ports_getInput.
    + intros n. by apply ports_getOutput.
  - intros b x Hx. rewrite lookup_put_module. case_decide; [|eauto]. subst. simplify_eq.
    exists m2. split; [done|]. unfold m2, m1, property. by destruct (find k (m_properties m)).
  - intros Hid. eapply quiet_put; [done| |done]. trans m1; [apply property_kept|].
    apply (store_kept k p); [done|]. intros ->.
    assert (isReadOnly p = true) as Hro.
    { specialize (Hid eq_refl). unfold id_view in Hid. unfold p, property.
      by destruct (find "id" (m_properties m)). }
    unfold set_value in E. rewrite Hro in E. by injection E as <- <-.
  - intros c Hin%Hcalls. auto.
Qed.

(** Without callbacks, setting a property depends on no class. *)
Lemma safe_set_uncalled {V : Virtuals} a m k v w :
  w_modules w !! a = Some m → val_ok v → type_of v ≠ MO_PROPERTY_POINTLIST → k ≠ "id" →
  p_callbacks (property k m).1 = [] → safe (set_property a k (type_of v) v) w.
Proof.
  intros Hm Hv Ht Hk Hcb Hw. destruct (set_property_run a m k v w Hw Hm Hv Ht)
    as (calls & w2 & Hrun & _ & _ & Hq & Hc).
  destruct calls as [|c calls]; [exists tt, w2; split; [done|by apply Hq]|].
  destruct (Hc c) as [_ Hin]; [by left|]. rewrite Hcb in Hin. by apply elem_of_nil in Hin.
Qed.

Lemma safe_flag a g w :
  is_Some (w_modules w !! a) → (∀ m, ports (g m) = ports m) →
  (∀ m, m_properties (g m) = m_properties m) → (∀ m, thread_ok m → thread_ok (g m)) →
  safe (mod_module a g) w.
Proof.
  intros Ha Hp Hq Ht. apply safe_mod; [done|by intros; apply kept_flags|]. intros m Hm.
  apply (flag_wf a m); [done|done| |done]. apply Ht. exact (mwf_thread m (proj1 Hm)).
Qed.

(** [notifyUpdate] and [poll] of a class that starts and updates so. *)
Section Running.
Context (B : world → fault → Prop) {HB : Pulls B}.

Lemma guarded_notifyUpdate start a w :
  is_Some (w_modules w !! a) → (∀ w', quiet w w' → guarded B (start a) w') →
  guarded B (notifyUpdate start a) w.
Proof.
  intros Ha Hstart. apply guarded_bind; [done|by apply guarded_safe, safe_getm|]. intros m w1 _ Hq1.
  assert (is_Some (w_modules w1 !! a)) as Ha1 by (by eapply quiet_live).
  apply guarded_bind; [done|destruct (m_is_started m); [by apply guarded_ret|by apply Hstart]|].
  intros _ w2 _ Hq2. assert (is_Some (w_modules w2 !! a)) as Ha2 by (by eapply quiet_live).
  apply guarded_safe. apply safe_bind; [by apply safe_flag|]. intros _ w3 _ Hq3.
  assert (is_Some (w_modules w3 !! a)) as [m3 Hm3] by (by eapply quiet_live).
  intros Hw3. rewrite bind_run, (getm_run a m3) by done. cbv beta iota.
  destruct (m_use_thread m3) eqn:Hu; [|by apply safe_ret].
  destruct (mwf_thread m3 (wwf_modules w3 Hw3 a m3 Hm3) Hu) as [Ht [b Hb]].
  rewrite bind_run, Hb. cbn [deref lift]. apply safe_flag; eauto.
  intros m' H Hu'. destruct (H Hu') as [? _]. simpl. eauto.
Qed.

Lemma guarded_poll update a w :
  is_Some (w_modules w !! a) → (∀ w', quiet w w' → guarded B (update a) w') →
  guarded B (poll update a) w.
Proof.
  intros [m Hm] Hup Hw. unfold poll. eapply (yields_after B); [by apply (getm_run a m)|done|].
  destruct (m_use_thread m) eqn:Hu; [by apply guarded_ret|].
  unfold needUpdate. destruct (m_need_update m).
  2: { eapply (yields_after B); [done|..]; rewrite put_module_id by done; [done|by apply guarded_ret]. }
  set (w1 := put_module a (upd_m_need_update (λ _, false) m) w).
  assert (Hq : quiet w w1).
  { eapply quiet_put; [done|by apply kept_flags|]. intros Hwf. apply (flag_wf a m); [done|done| |done].
    exact (mwf_thread m (proj1 Hwf)). }
  assert (Hlive : ∀ w', quiet w1 w' → is_Some (w_modules w' !! a))
    by (intros w' H; eapply quiet_live; [by trans w1|by eexists]).
  eapply (yields_after B); [done|by apply quiet_alive|].
  assert (Hrest : guarded B (now ← gets w_now; mod_module a (upd_m_stats (stats_wait now));;
      update a;; now ← gets w_now; mod_module a (upd_m_stats (stats_process now))) w1).
  { apply guarded_bind; [done|apply guarded_safe, safe_gets|]. intros now w2 _ Hq2.
    apply guarded_bind; [done|apply guarded_safe, safe_flag; auto|]. intros _ w3 _ Hq3.
    apply guarded_bind; [done|apply Hup; trans w1; [done|]; by trans w2|]. intros _ w4 _ Hq4.
    apply guarded_bind; [done|apply guarded_safe, safe_gets|]. intros now' w5 _ Hq5.
    apply guarded_safe, safe_flag; auto. apply Hlive. trans w2; [done|]. trans w3; [done|]. by trans w4. }
  eapply yields_impl; [apply Hrest, (quiet_wf w w1 Hw Hq)|done|]. intros r w' _ Hq'. by trans w1.
Qed.
End Running.

Lemma base_calls_safe c w : callable c w → guarded (λ _ _, False) (run_vcall (V := base_virtuals) c) w.
Proof.
  intros Hc. destruct c; simpl in *; try (by apply guarded_ret); auto using guarded_safe, safe_start, safe_stop.
  apply guarded_poll; [by intros ??|done|]. intros. by apply guarded_ret.
Qed.
#[export] Instance base_virtual_laws : VirtualLaws base_virtuals.
Proof. intros c w r w' Hw Hc. by apply (guarded_quiet _ _ w r w' (base_calls_safe c w Hc)). Qed.
(** The base class is never to blame: where no class overrides a method, what is
    shown up to blame holds without. *)
Lemma base_never_blamed K w f : ¬ blamed (V := base_virtuals) K w f.
Proof.
  intros (c & w' & _ & Hw' & _ & Hc & Hf). pose proof (base_calls_safe c w' Hc Hw') as H.
  unfold yields in H. by rewrite Hf in H.
Qed.

(** ** The framework *)

Section Framework.
Context {V : Virtuals} {VL : VirtualLaws V} (K : list vkind).

Lemma guarded_call c w : callable c w → kind_of c ∈ K → guarded (blamed K) (run_vcall c) w.
Proof.
  intros Hc Hk Hw. unfold yields. destruct (run_vcall c w) as [[r w']|f] eqn:E; [by eapply vl_quiet|].
  by exists c, w.
Qed.

Lemma guarded_run_call owner name c w :
  KGuiFeedback ∈ K → KCallback ∈ K → is_Some (w_modules w !! owner) → c.2 = owner →
  guarded (blamed K) (run_call owner name c) w.
Proof.
  intros Hk1 Hk2 Ho Hc. unfold run_call. rewrite Hc.
  destruct (_ =? _)%Z; [|by apply (guarded_call (CallCallback c.1 owner name))].
  unfold module_gui_feedback_cb. intros Hw.
  destruct (safe_property owner name w Ho Hw) as (p & w1 & _ & Hrun & Hq & Hp & _).
  destruct (asString_total p Hp) as [s Hs].
  eapply (yields_after _); [done|by apply quiet_alive|]. rewrite Hs.
  eapply (yields_after _); [done|done|].
  assert (guarded (blamed K) (if bool_decide (s = EmptyString) then skip else
      tokens ← lift (tokenize s ";");
      match tokens with
      | [type; x; y] => v_guiFeedback owner type (atof x) (atof y)
      | _ => skip
      end) w1) as Hrest.
  { case_bool_decide; [by apply guarded_ret|]. apply guarded_bind; [apply _| |].
    { apply guarded_safe. change (tokenize s ";") with (tokenize s (String ";" EmptyString)).
      by rewrite tokenize_single; eapply safe_lift. }
    intros tokens w2 _ Hq2. repeat case_match; try by apply guarded_ret.
    apply (guarded_call (CallGuiFeedback owner _ _ _)); [|done]. simpl. eapply quiet_live; [|done]. by etrans. }
  eapply yields_impl; [apply Hrest, (quiet_wf _ _ Hw Hq)|done|]. intros r w' _ Hq'. by trans w1.
Qed.

Lemma guarded_calls a k calls w :
  KGuiFeedback ∈ K → KCallback ∈ K → is_Some (w_modules w !! a) → (∀ c, c ∈ calls → c.2 = a) →
  guarded (blamed K) (for_each (run_call a k) calls) w.
Proof.
  intros Hk1 Hk2 Ha Hc. apply guarded_for_each; [apply _|]. intros c w1 Hin Hq1.
  apply guarded_run_call; [done|done| |by apply Hc]. by eapply quiet_live.
Qed.

(** Setting a property of a live module, callbacks included; an id must be
    read-only. *)
Lemma guarded_set_property a k v w :
  KGuiFeedback ∈ K → KCallback ∈ K →
  is_Some (w_modules w !! a) → val_ok v → type_of v ≠ MO_PROPERTY_POINTLIST →
  (k = "id" → ∀ m, w_modules w !! a = Some m → (id_view m).1.2 = true) →
  guarded (blamed K) (set_property a k (type_of v) v) w.
Proof.
  intros Hk1 Hk2 [m Hm] Hv Ht Hid Hw.
  destruct (set_property_run a m k v w Hw Hm Hv Ht) as (calls & w2 & Hrun & Hw2 & Hl & Hq & Hc).
  specialize (Hq (λ E, Hid E m Hm)).
  pose proof (guarded_calls a k calls w2 Hk1 Hk2 ltac:(eapply quiet_live; [done|by eexists])
    (λ c Hin, proj1 (Hc c Hin)) Hw2) as Hrest. unfold yields in *. rewrite Hrun.
  destruct (for_each _ calls w2) as [[r w3]|f]; [by trans w2|by eapply (pulls (B := blamed K))].
Qed.

Lemma observer_has_input w s st a :
  world_wf w → w_streams w !! s = Some st → a ∈ s_observers st →
  ∃ m n, w_modules w !! a = Some m ∧ getInput n m = Some s.
Proof.
  intros Hw Hs Ha. destruct (wwf_obs_live w Hw s st a Hs Ha) as [m Hm].
  apply occ_elem in Ha. rewrite (wwf_wired w Hw s st a m Hs Hm) in Ha. unfold inputs_on in Ha.
  destruct (filter _ _) as [|n l] eqn:E; [simpl in Ha; lia|].
  assert (n ∈ filter (λ n, getInput n m = Some s) (keys (m_input_map m))) as Hn
    by (rewrite E; by left).
  apply list_elem_of_filter in Hn as [Hg _]. eauto.
Qed.

Lemma guarded_push s data w :
  KNotifyData ∈ K → is_Some (w_streams w !! s) → guarded (blamed K) (push s data) w.
Proof.
  intros Hk [st Hs]. apply guarded_bind; [apply _|apply guarded_safe|].
  { intros _. exists tt, (put_stream s (s_setData data st) w).
    rewrite (mod_stream_run s st) by done. split; [done|]. split; simpl; try done.
    - intros b x Hx. by exists x.
    - intros t st' Ht. destruct (decide (s = t)) as [<-|].
      + simplify_eq. rewrite lookup_insert_eq. by eexists.
      + rewrite lookup_insert_ne by done. eauto.
    - intros t. destruct (decide (s = t)) as [<-|]; [eauto|]. by rewrite lookup_insert_ne. }
  intros _ w1 _ Hq1. assert (is_Some (w_streams w1 !! s)) as [st1 Hs1]
    by (eapply quiet_live_str; eauto).
  intros Hw1. unfold notifyObservers. eapply (yields_after _); [by apply (gets_at_run s st1)|done|].
  apply guarded_for_each; [apply _| |done]. intros a w2 Ha Hq2 Hw2.
  destruct (q_str w1 w2 Hq2 s st1 Hs1) as (st2 & Hs2 & Ho & _).
  apply (guarded_call (CallNotifyData a s)); [|done|done]. apply (observer_has_input w2 s st2 a); [done..|].
  by rewrite Ho.
Qed.

Lemma guarded_getGui a m w :
  KGuiBuild ∈ K → w_modules w !! a = Some m → has_cap MO_MODULE_GUI m = true →
  guarded (blamed K) (getGui a) w.
Proof.
  intros Hk Hm Hc Hw. unfold getGui. eapply (yields_after _); [by apply (getm_run a m)|done|].
  rewrite Hc. eapply (yields_after _); [done|done|].
  assert (is_Some (w_modules w !! a)) as Ha by eauto.
  apply guarded_bind; [apply _| |intros _ w1 _ Hq|done].
  - destruct (m_need_gui_build m); [|by apply guarded_ret].
    apply guarded_bind; [apply _|by apply guarded_safe, safe_flag|].
    intros _ w1 _ Hq. apply (guarded_call (CallGuiBuild a)); [|done]. by eapply quiet_live.
  - apply guarded_bind; [apply _|apply guarded_safe, safe_getm; by eapply quiet_live|].
    intros. by apply guarded_ret.
Qed.
End Framework.

(** ** Properties *)

(** Notifying, polling, setting a property and pushing leave the objects, ports,
    connections and module ids of the graph as they were, and the only faults are
    those of the methods of the classes they call. *)
Theorem framework_never_rewires (V : Virtuals) (VL : VirtualLaws V) (w : world) (a s : nat) :
  world_wf w → is_Some (w_modules w !! a) → is_Some (w_streams w !! s) →
  yields (blamed [KStart]) (notifyUpdate v_start a) w (λ _ w', quiet w w' ∧ world_wf w')
  ∧ yields (blamed [KUpdate]) (poll v_update a) w (λ _ w', quiet w w' ∧ world_wf w')
  ∧ (∀ k value, k ≠ "id" →
       yields (blamed [KGuiFeedback; KCallback]) (set_property_string a k value) w (λ _ w', quiet w w' ∧ world_wf w'))
  ∧ (∀ data, yields (blamed [KNotifyData]) (push s data) w (λ _ w', quiet w w' ∧ world_wf w')).
Proof.
  intros Hw Ha Hs.
  assert (Hg : ∀ B (x : M unit), guarded B x w → yields B x w (λ _ w', quiet w w' ∧ world_wf w')).
  { intros B x Hx. eapply yields_impl; [by apply Hx|done|]. intros r w' _ Hq. eauto using quiet_wf. }
  split_and!; intros; apply Hg.
  - apply guarded_notifyUpdate; [apply _|done|]. intros w' Hq.
    apply (guarded_call [KStart] (CallStart a)); [by eapply quiet_live|by left].
  - apply guarded_poll; [apply _|done|]. intros w' Hq.
    apply (guarded_call [KUpdate] (CallUpdate a)); [by eapply quiet_live|by left].
  - by apply (guarded_set_property [KGuiFeedback; KCallback] a k (VString value)); [by left|right; left|..].
  - by apply guarded_push; [left|].
Qed.

(** ** A class that overrides: moCameraModule

    On a machine where every device opens, [camera] is set exactly while the
    module is started; [img] is what the device shows. *)
Section Camera.
Context (img : IplImage).

Definition moCameraModule_start (a : nat) : M unit :=
  m ← getm a;
  lift (assert_ (negb (m_is_started m)));;
  log_id MO_TRACE a;;
  p ← property_of a "index"; _ ← lift (asInteger p);
  moModule_start a.
Definition moCameraModule_stop (a : nat) : M unit :=
  m ← getm a;
  moModule_stop a;;
  if m_is_started m then log_id MO_TRACE a else skip.
Definition moCameraModule_update (a : nat) : M unit :=
  m ← getm a;
  if m_is_started m then
    log_id MO_TRACE a;;
    (if (img_nChannels img =? 3)%Z then s ← lift (deref (getOutput 0 m)); push (V := base_virtuals) s (Some (PImage img))
     else if (img_nChannels img =? 1)%Z then s ← lift (deref (getOutput 1 m)); push (V := base_virtuals) s (Some (PImage img))
     else lift (assert_ false));;
    notifyUpdate moCameraModule_start a
  else skip.
Definition moCameraModule_poll (a : nat) : M unit :=
  notifyUpdate moCameraModule_start a;; poll moCameraModule_update a.

(** Cameras among modules that override nothing. *)
Definition if_camera (camera base : nat → M unit) (a : nat) : M unit :=
  m ← getm a; (if bool_decide (m_name m = "Camera") then camera else base) a.
Definition camera_virtuals : Virtuals := {|
  v_start := if_camera moCameraModule_start moModule_start;
  v_stop := if_camera moCameraModule_stop moModule_stop;
  v_update := if_camera moCameraModule_update (λ _, skip);
  v_poll := if_camera moCameraModule_poll (poll (λ _, skip));
  v_notifyData := λ _ _, skip;
  v_guiFeedback := λ _ _ _ _, skip;
  v_guiBuild := λ _, skip;
  v_callback := λ _ _ _, skip;
|}.

(** With no fault excluded, a value read from the world needs no reason. *)
Lemma tame_lift_bind {A A'} (r : res A) (k : A → M A') w :
  (∀ v, r = Ok v → guarded any_fault (k v) w) → guarded any_fault (lift r ≫= k) w.
Proof.
  intros Hk Hw. unfold yields. rewrite bind_run. destruct r as [v|f]; [by apply (Hk v)|done].
Qed.
Lemma tame_getm_bind {A} a (k : moModule → M A) w :
  (∀ m, w_modules w !! a = Some m → guarded any_fault (k m) w) → guarded any_fault (getm a ≫= k) w.
Proof.
  intros Hk Hw. unfold yields. rewrite bind_run. unfold getm.
  destruct (w_modules w !! a) as [m|] eqn:E; [by apply (Hk m)|done].
Qed.
Lemma tame_if_camera camera base a w :
  is_Some (w_modules w !! a) → guarded any_fault (camera a) w → guarded any_fault (base a) w →
  guarded any_fault (if_camera camera base a) w.
Proof. intros Ha Hc Hb. apply tame_getm_bind. intros m Hm. by case_bool_decide. Qed.

Lemma camera_start_tame a w : is_Some (w_modules w !! a) → guarded any_fault (moCameraModule_start a) w.
Proof.
  intros Ha. apply tame_getm_bind. intros m Hm. apply tame_lift_bind. intros _ _.
  apply guarded_bind; [done|by apply guarded_safe, safe_log|]. intros _ w1 _ Hq1.
  assert (Ha1 : is_Some (w_modules w1 !! a)) by (by eapply quiet_live).
  apply guarded_bind; [done| |].
  { apply guarded_safe. intros Hw1. destruct (safe_property a "index" w1 Ha1 Hw1) as (p & w2 & _ & ? & ? & _). eauto. }
  intros p w2 _ Hq2. apply tame_lift_bind. intros _ _. apply guarded_safe, safe_start.
  by eapply quiet_live.
Qed.
Lemma camera_stop_tame a w : is_Some (w_modules w !! a) → guarded any_fault (moCameraModule_stop a) w.
Proof.
  intros Ha. apply tame_getm_bind. intros m Hm. apply guarded_safe, safe_bind; [by apply safe_stop|].
  intros _ w1 _ Hq1. destruct (m_is_started m); [|apply safe_ret]. apply safe_log. by eapply quiet_live.
Qed.
Lemma camera_push_tame a w n data m :
  w_modules w !! a = Some m → guarded any_fault (s ← lift (deref (getOutput n m)); push (V := base_virtuals) s data) w.
Proof.
  intros Hm. apply tame_lift_bind. intros s Hs Hw.
  apply (guarded_impl (blamed (V := base_virtuals) [KNotifyData])); [done| |done].
  apply guarded_push; [by left|]. apply (own_out_live w (wwf_own w Hw) a m n); [done|].
  destruct (getOutput n m); [by injection Hs as ->|done].
Qed.
Lemma camera_update_tame a w : is_Some (w_modules w !! a) → guarded any_fault (moCameraModule_update a) w.
Proof.
  intros Ha. apply tame_getm_bind. intros m Hm. destruct (m_is_started m); [|by apply guarded_ret].
  apply guarded_bind; [done|by apply guarded_safe, safe_log|]. intros _ w1 _ Hq1.
  destruct (q_mod w w1 Hq1 a m Hm) as (m1 & Hm1 & Hk & _).
  rewrite <-!(ports_getOutput m m1) by apply Hk.
  apply guarded_bind; [done| |].
  { destruct (_ =? 3)%Z; [by apply (camera_push_tame a)|]. destruct (_ =? 1)%Z; [by apply (camera_push_tame a)|].
    by apply guarded_lift. }
  intros _ w2 _ Hq2. apply guarded_notifyUpdate; [done|eapply quiet_live; [done|by eexists]|].
  intros w3 Hq3. apply camera_start_tame. eapply quiet_live; [|by eexists]. by trans w2.
Qed.

#[export] Instance camera_virtual_laws : VirtualLaws camera_virtuals.
Proof.
  assert (Hbase : ∀ a w, is_Some (w_modules w !! a) → guarded any_fault (poll (λ _, skip) a) w).
  { intros a w Ha. apply guarded_poll; [done|done|]. intros. by apply guarded_ret. }
  assert (Hsafe : ∀ c w, callable c w → guarded any_fault (run_vcall (V := camera_virtuals) c) w).
  { intros [] w Hc; simpl in *; try (by apply guarded_ret); apply tame_if_camera; try done;
      auto using guarded_safe, safe_start, safe_stop, camera_start_tame, camera_stop_tame, camera_update_tame.
    - by apply guarded_ret.
    - apply guarded_bind; [done|apply guarded_notifyUpdate; [done|done|]|]; intros; [apply camera_start_tame|
        apply guarded_poll; [done|by eapply quiet_live|]; intros; apply camera_update_tame];
        (eapply quiet_live; [|done]); [done|by etrans]. }
  intros c w r w' Hw Hc. by apply (guarded_quiet any_fault _ w r w' (Hsafe c w Hc)).
Qed.
End Camera.

(** What the device of the examples shows. *)
Definition demo_shot : IplImage := {| img_width := 640; img_height := 480; img_depth := 8; img_nChannels := 3 |}.

(** [moModule::start] leaves the module started, with the
    threading mode its [use_thread] property asks for and, in threaded mode,
    with a thread and its trigger; [moModule::stop] afterwards leaves it
    stopped, with no pending update and no thread of a threaded run.  Neither
    faults. *)
Theorem start_stop_state (w : world) (a : nat) (m : moModule) :
  world_wf w → w_modules w !! a = Some m →
  ∃ w1 m1 w2 m2,
    moModule_start a w = Ok (tt, w1) ∧ w_modules w1 !! a = Some m1
    ∧ m_is_started m1 = true ∧ asBool (property "use_thread" m).1 = Ok (m_use_thread m1)
    ∧ (m_use_thread m1 = true → is_Some (m_thread m1) ∧ is_Some (m_trigger m1))
    ∧ moModule_stop a w1 = Ok (tt, w2) ∧ w_modules w2 !! a = Some m2
    ∧ m_is_started m2 = false ∧ m_need_update m2 = false
    ∧ (m_use_thread m1 = true → m_thread m2 = None) ∧ quiet w w2.
Proof.
  intros Hw Hm.
  destruct (local_safe a (moModule_start a) (λ _ m', (m_is_started m' = true
      ∧ (∀ p, (property "use_thread" m).1 = p → asBool p = Ok (m_use_thread m')))) w m Hm)
    as ([] & w1 & m1 & Hrun1 & Hq1 & Hm1 & Hs1 & Hb1); [by intros; apply start_local|done|].
  pose proof (quiet_wf w w1 Hw Hq1) as Hw1.
  destruct (local_safe a (moModule_stop a) (λ _ m', (m_is_started m' = false
      ∧ m_need_update m' = false ∧ (m_use_thread m1 = true → m_thread m' = None))) w1 m1 Hm1)
    as ([] & w2 & m2 & Hrun2 & Hq2 & Hm2 & Hs2 & Hn2 & Ht2); [by intros; apply stop_local|done|].
  exists w1, m1, w2, m2. split_and!; auto.
  - by apply mwf_thread, (wwf_modules w1 Hw1 a).
  - by trans w1.
Qed.

Lemma start_stop_state_witness :
  ∃ w1 m1, moModule_start 1 demo_world = Ok (tt, w1) ∧ w_modules w1 !! 1 = Some m1
           ∧ m_is_started m1 = true ∧ m_use_thread m1 = false.
Proof.
  destruct (start_stop_state demo_world 1 demo_module)
    as (w1 & m1 & w2 & m2 & Hrun & Hm1 & Hs & Hb & _); [exact demo_world_wf|reflexivity|].
  exists w1, m1. split_and!; try done.
  assert (asBool (property "use_thread" demo_module).1 = Ok false) as E by reflexivity.
  rewrite E in Hb. by injection Hb as <-.
Defined.
