(* ===== verification/Threads.v ===== *)
(** A module with its own thread: src/src/moThread.cpp, the loop
    [_thread_process] and the locked half of [needUpdate] in
    src/src/moModule.cpp, and the trigger of
    src/contrib/ptypes-2.1.1/src/ptrigger.cxx.

    The worker and the threads that call [notifyUpdate] and [stop] share the
    flag [need_update], the trigger and the quit flag.  An action is one access
    to that state; a schedule is the list of the actors that got their turn, in
    any order, and an actor that cannot proceed (a wait on a trigger that is not
    posted) loses its turn.  The flags are plain [bool] in the source; the model
    gives every access a place in one order (sequential consistency). *)
From S2P Require Import Prelude StdMap Numeric Utils Property Container Module World Wiring.
From S2P Require Import Lifecycle.

(** ** The trigger *)

(** [pt::trigger(true, false)]: [autoreset] is set; both operations hold the
    trigger's mutex from beginning to end. *)
Record trigger := { tr_state : bool; tr_autoreset : bool }.
Definition new_trigger (autoreset state : bool) : trigger :=
  {| tr_state := state; tr_autoreset := autoreset |}.
Definition post (t : trigger) : trigger := {| tr_state := true; tr_autoreset := tr_autoreset t |}.
(** [None]: the caller stays in [pthread_cond_wait]. *)
Definition wait (t : trigger) : option trigger :=
  if tr_state t then
    Some {| tr_state := if tr_autoreset t then false else true; tr_autoreset := tr_autoreset t |}
  else None.

(** ** The shared state *)

(** Where the worker is: the loop's condition, the first test of
    [needUpdate(true)], the assignment after either test, the wait, the second
    test, the call of [update], and after the loop. *)
Inductive wpc := WCheck | WTest | WClear | WWait | WRetest | WRun | WExit.

(** Where [stop] is: not called, quit flag set, trigger posted, returned from
    [waitfor]. *)
Inductive spc := SIdle | SQuit | SPosted | SJoined.

#[export] Instance wpc_eq_dec : EqDecision wpc.
Proof. solve_decision. Defined.
#[export] Instance spc_eq_dec : EqDecision spc.
Proof. solve_decision. Defined.

(** [t_posts] counts the calls of [notifyUpdate] between the assignment of the
    flag and the post; [t_updates] counts the calls of [update] and
    [t_notified] those of [notifyUpdate]. *)
Record tstate := {
  t_need : bool;
  t_trig : trigger;
  t_quit : bool;
  t_pc : wpc;
  t_stop : spc;
  t_posts : nat;
  t_updates : nat;
  t_notified : nat;
}.

(** After [moModule::start] made the thread and started it. *)
Definition started_thread : tstate :=
  {| t_need := false; t_trig := new_trigger true false; t_quit := false; t_pc := WCheck; t_stop := SIdle;
     t_posts := 0; t_updates := 0; t_notified := 0 |}.

Definition with_worker (need : bool) (trig : trigger) (pc : wpc) (updates : nat) (s : tstate) : tstate :=
  {| t_need := need; t_trig := trig; t_quit := t_quit s; t_pc := pc; t_stop := t_stop s;
     t_posts := t_posts s; t_updates := updates; t_notified := t_notified s |}.

Definition goto (pc : wpc) (s : tstate) : tstate := with_worker (t_need s) (t_trig s) pc (t_updates s) s.

(** ** Actions *)

(** [_thread_process] with [needUpdate(true)] in place. *)
Definition worker_step (s : tstate) : option tstate :=
  match t_pc s with
  | WCheck => Some (goto (if t_quit s then WExit else WTest) s)
  | WTest => Some (goto (if t_need s then WClear else WWait) s)
  | WWait => t ← wait (t_trig s); Some (with_worker (t_need s) t WRetest (t_updates s) s)
  | WRetest => Some (goto (if t_need s then WClear else WCheck) s)
  | WClear => Some (with_worker false (t_trig s) WRun (t_updates s) s)
  | WRun => Some (with_worker (t_need s) (t_trig s) WCheck (S (t_updates s)) s)
  | WExit => None
  end.

(** The two halves of [notifyUpdate] on a started module. *)
Definition notify_set (s : tstate) : option tstate :=
  Some {| t_need := true; t_trig := t_trig s; t_quit := t_quit s; t_pc := t_pc s; t_stop := t_stop s;
          t_posts := S (t_posts s); t_updates := t_updates s; t_notified := S (t_notified s) |}.
Definition notify_post (s : tstate) : option tstate :=
  match t_posts s with
  | O => None
  | S n => Some {| t_need := t_need s; t_trig := post (t_trig s); t_quit := t_quit s; t_pc := t_pc s;
                   t_stop := t_stop s; t_posts := n; t_updates := t_updates s; t_notified := t_notified s |}
  end.

(** [thread->stop()], [thread_trigger->post()], [thread->waitfor()] and the
    reset of the flag. *)
Definition stop_step (s : tstate) : option tstate :=
  let put need trig quit st :=
    {| t_need := need; t_trig := trig; t_quit := quit; t_pc := t_pc s; t_stop := st;
       t_posts := t_posts s; t_updates := t_updates s; t_notified := t_notified s |} in
  match t_stop s with
  | SIdle => Some (put (t_need s) (t_trig s) true SQuit)
  | SQuit => Some (put (t_need s) (post (t_trig s)) (t_quit s) SPosted)
  | SPosted => if bool_decide (t_pc s = WExit) then Some (put false (t_trig s) (t_quit s) SJoined) else None
  | SJoined => None
  end.

Inductive actor := Worker | NotifySet | NotifyPost | Stop.
#[export] Instance actor_eq_dec : EqDecision actor.
Proof. solve_decision. Defined.

Definition act (a : actor) (s : tstate) : option tstate :=
  match a with
  | Worker => worker_step s
  | NotifySet => notify_set s
  | NotifyPost => notify_post s
  | Stop => stop_step s
  end.

(** A turn; a blocked actor loses it. *)
Definition turn_of (a : actor) (s : tstate) : tstate := default s (act a s).
Fixpoint run_schedule (l : list actor) (s : tstate) : tstate :=
  match l with
  | [] => s
  | a :: l => run_schedule l (turn_of a s)
  end.

Definition turns (a : actor) (l : list actor) : nat := length (filter (λ b, b = a) l).

Lemma run_schedule_app l k s : run_schedule (l ++ k) s = run_schedule k (run_schedule l s).
Proof. revert s. induction l as [|a l IH]; intros s; simpl; [done|apply IH]. Qed.

(** Closes a field of the invariant once the step is known. *)
Ltac solve_field := simpl in *;
  try match goal with H : t_need ?s = _ |- context [t_need ?s] => rewrite H end; solve [intuition (try congruence; try lia)].

(** ** The invariant *)

Record tinv (s : tstate) : Prop := {
  ti_auto : tr_autoreset (t_trig s) = true;
  (** A worker that waits while an update is due is about to be woken. *)
  ti_awake : t_need s = true → t_pc s = WWait → tr_state (t_trig s) = true ∨ 0 < t_posts s;
  (** So is one that should quit. *)
  ti_quit : t_stop s = SPosted → t_pc s = WTest ∨ t_pc s = WWait → tr_state (t_trig s) = true;
  ti_stop : t_stop s ≠ SIdle ↔ t_quit s = true;
  ti_joined : t_stop s = SJoined → t_pc s = WExit;
  ti_clear : t_pc s = WClear → t_need s = true;
  ti_exit : t_pc s = WExit → t_quit s = true;
  (** Every update was asked for. *)
  ti_count : t_updates s + (match t_pc s with WRun => 1 | _ => 0 end) + (if t_need s then 1 else 0)
             ≤ t_notified s;
}.

Lemma started_inv : tinv started_thread.
Proof. by split. Qed.

Lemma worker_inv s s' : tinv s → worker_step s = Some s' → tinv s'.
Proof.
  intros [Ha Hw Hq Hs Hj Hc Hx Hn] Hstep. unfold worker_step in Hstep.
  destruct (t_pc s) eqn:Hpc; rewrite ?Hpc in *.
  - injection Hstep as <-. destruct (t_quit s) eqn:E; split; solve_field.
  - injection Hstep as <-. destruct (t_need s) eqn:E; split; solve_field.
  - injection Hstep as <-. rewrite (Hc eq_refl) in Hn. split; solve_field.
  - unfold wait in Hstep. destruct (tr_state (t_trig s)); [|done]. rewrite Ha in Hstep.
    injection Hstep as <-. split; solve_field.
  - injection Hstep as <-. destruct (t_need s) eqn:E; split; solve_field.
  - injection Hstep as <-. split; solve_field.
  - done.
Qed.

Lemma act_inv a s s' : tinv s → act a s = Some s' → tinv s'.
Proof.
  intros Hi. destruct a; simpl; [by apply worker_inv|..]; destruct Hi as [Ha Hw Hq Hs Hj Hc Hx Hn].
  - intros [= <-]. destruct (t_need s) eqn:E; split; solve_field.
  - unfold notify_post. destruct (t_posts s) eqn:Ep; [done|]. intros [= <-]. split; solve_field.
  - unfold stop_step. destruct (t_stop s) eqn:Es.
    + intros [= <-]. split; solve_field.
    + intros [= <-]. split; solve_field.
    + case_bool_decide as Hpc; [|done]. intros [= <-]. rewrite Hpc in *. destruct (t_need s) eqn:En; split; solve_field.
    + done.
Qed.

Lemma run_inv l s : tinv s → tinv (run_schedule l s).
Proof.
  revert s. induction l as [|a l IH]; intros s Hi; simpl; [done|]. apply IH. unfold turn_of.
  destruct (act a s) as [s'|] eqn:E; simpl; [by eapply act_inv|done].
Qed.

(** ** Progress *)

Lemma turn_mono a s :
  t_updates s ≤ t_updates (turn_of a s) ∧ (t_quit s = true → t_quit (turn_of a s) = true).
Proof.
  unfold turn_of. destruct a; simpl.
  - unfold worker_step, wait. destruct (t_pc s); simpl; try (split; [lia|done]).
    destruct (tr_state (t_trig s)); simpl; split; (lia || done).
  - split; [lia|done].
  - unfold notify_post. destruct (t_posts s); simpl; split; (lia || done).
  - unfold stop_step. destruct (t_stop s); simpl; try (split; [lia|done]).
    case_bool_decide; simpl; split; (lia || done).
Qed.

Lemma run_mono l s :
  t_updates s ≤ t_updates (run_schedule l s) ∧ (t_quit s = true → t_quit (run_schedule l s) = true).
Proof.
  revert s. induction l as [|a l IH]; intros s; simpl; [split; [lia|done]|].
  destruct (turn_mono a s), (IH (turn_of a s)). split; [lia|auto].
Qed.

Lemma turns_cons a b l : turns a (b :: l) = (if decide (b = a) then 1 else 0) + turns a l.
Proof. unfold turns. rewrite filter_cons. by case_decide. Qed.

(** An update is due and nothing keeps the worker from it. *)
Definition ready (s : tstate) : Prop :=
  t_need s = true ∧ (t_pc s = WWait → tr_state (t_trig s) = true) ∨ t_pc s = WRun.

(** Turns the worker needs to finish the update that is due. *)
Definition to_update (pc : wpc) : nat :=
  match pc with WRun => 1 | WClear => 2 | WTest | WRetest => 3 | WCheck | WWait => 4 | WExit => 0 end.

Lemma ready_step s :
  tinv s → ready s → t_quit s = false →
  ∃ s', worker_step s = Some s' ∧ (t_updates s < t_updates s' ∨ ready s' ∧ to_update (t_pc s) = S (to_update (t_pc s'))).
Proof.
  intros Hi Hr Hq. pose proof (ti_exit s Hi) as Hx. pose proof (ti_auto s Hi) as Ha. unfold ready, worker_step in *.
  destruct (t_pc s) eqn:Hpc; eexists; rewrite ?Hq.
  - split; [done|]. right. split; [left|done]. by destruct Hr as [[? _]|?].
  - destruct Hr as [[Hn _]|?]; [|done]. rewrite Hn. split; [done|]. right. split; [|done]. by left.
  - split; [done|]. right. split; [by right|done].
  - destruct Hr as [[Hn Ht]|?]; [|done]. unfold wait. rewrite (Ht eq_refl). split; [done|].
    right. split; [|done]. by left.
  - destruct Hr as [[Hn _]|?]; [|done]. rewrite Hn. split; [done|]. right. split; [|done]. by left.
  - split; [done|]. left. simpl. lia.
  - specialize (Hx eq_refl). congruence.
  Unshelve. done.
Qed.

Lemma ready_env a s :
  ready s → a ≠ Worker → t_quit (turn_of a s) = false → tinv s →
  ready (turn_of a s) ∧ t_pc (turn_of a s) = t_pc s ∧ t_updates (turn_of a s) = t_updates s.
Proof.
  intros Hr Ha Hq Hi. pose proof (ti_stop s Hi) as Hs. unfold turn_of, ready in *. destruct a; [done|..]; simpl in *.
  - split; [|done]. destruct Hr as [[Hn Ht]|?]; auto.
  - unfold notify_post in *. destruct (t_posts s); simpl in *; [done|]. split; [|done].
    destruct Hr as [[Hn Ht]|?]; auto.
  - unfold stop_step in *. destruct (t_stop s); simpl in *; try done.
    + split; [|done]. destruct Hr as [[Hn Ht]|?]; auto.
    + case_bool_decide; simpl in *; [|done]. exfalso.
      destruct Hs as [Hs _]. rewrite Hs in Hq; done.
Qed.

Lemma ready_runs l s :
  tinv s → ready s → to_update (t_pc s) ≤ turns Worker l →
  t_quit (run_schedule l s) = true ∨ t_updates s < t_updates (run_schedule l s).
Proof.
  revert s. induction l as [|a l IH]; intros s Hi Hr Hd.
  { left. unfold turns in Hd. simpl in Hd. apply (ti_exit s Hi). destruct (t_pc s); simpl in Hd; (done || lia). }
  simpl. destruct (t_quit s) eqn:Hq.
  { left. apply run_mono, turn_mono. done. }
  rewrite turns_cons in Hd. destruct (decide (a = Worker)) as [->|Ha].
  - destruct (ready_step s Hi Hr Hq) as (s' & Hstep & Hs'). unfold turn_of. simpl. rewrite Hstep. simpl.
    destruct Hs' as [Hu|[Hr' Hd']]; [right; pose proof (proj1 (run_mono l s')); lia|].
    assert (Hu : t_updates s ≤ t_updates s').
    { pose proof (proj1 (turn_mono Worker s)) as H. unfold turn_of in H. simpl in H. by rewrite Hstep in H. }
    destruct (IH s') as [?|?]; [by eapply (act_inv Worker)|done|lia|by left|right; lia].
  - destruct (t_quit (turn_of a s)) eqn:Hq'; [left; by apply run_mono|].
    destruct (ready_env a s Hr Ha Hq' Hi) as (Hr' & Hpc & Hu).
    destruct (IH (turn_of a s)) as [?|?]; [by apply (run_inv [a])|done|rewrite Hpc; lia|by left|right; lia].
Qed.

(** Turns the worker needs to leave its loop once [stop] has posted. *)
Definition to_exit (pc : wpc) : nat :=
  match pc with
  | WExit => 0 | WCheck => 1 | WRun => 2 | WClear => 3 | WRetest => 4 | WWait => 5 | WTest => 6
  end.

Lemma exit_step s :
  tinv s → t_stop s = SPosted → t_pc s ≠ WExit →
  ∃ s', worker_step s = Some s' ∧ t_stop s' = SPosted ∧ to_exit (t_pc s') < to_exit (t_pc s).
Proof.
  intros Hi Hs Hne. pose proof (ti_quit s Hi Hs) as Ht. pose proof (proj1 (ti_stop s Hi)) as Hq.
  rewrite Hs in Hq. specialize (Hq ltac:(done)). unfold worker_step, wait.
  destruct (t_pc s) eqn:Hpc; rewrite ?Hq; try done;
    try (eexists; split; [done|]; split; [done|]; simpl; destruct (t_need s); simpl; lia).
  rewrite Ht by auto. eexists. split; [done|]. split; [done|]. simpl. lia.
Qed.

(** Once posted, [stop] only goes on to wait for the thread. *)
Definition stopping (s : tstate) : Prop := t_stop s = SPosted ∨ t_stop s = SJoined.

Lemma stopping_turn a s : stopping s → stopping (turn_of a s).
Proof.
  unfold stopping, turn_of. intros Hs. destruct a; simpl.
  - unfold worker_step, wait. destruct (t_pc s); simpl; try done. by destruct (tr_state _).
  - done.
  - unfold notify_post. by destruct (t_posts s).
  - unfold stop_step. destruct (t_stop s) eqn:E; try (by destruct Hs); [|by right].
    case_bool_decide; simpl; auto.
Qed.
Lemma stopping_run l s : stopping s → stopping (run_schedule l s).
Proof. revert s. induction l as [|a l IH]; intros s Hs; simpl; [done|]. by apply IH, stopping_turn. Qed.

Lemma exited_turn a s :
  t_pc s = WExit → t_pc (turn_of a s) = WExit ∧ t_updates (turn_of a s) = t_updates s.
Proof.
  intros Hx. unfold turn_of. destruct a; simpl; [unfold worker_step; by rewrite Hx|done|..].
  - unfold notify_post. by destruct (t_posts s).
  - unfold stop_step. destruct (t_stop s); try done. by case_bool_decide.
Qed.
Lemma exited_run l s :
  t_pc s = WExit → t_pc (run_schedule l s) = WExit ∧ t_updates (run_schedule l s) = t_updates s.
Proof.
  revert s. induction l as [|a l IH]; intros s Hx; simpl; [done|].
  destruct (exited_turn a s Hx) as [Hx' <-]. by apply IH.
Qed.

Lemma exit_runs l s :
  tinv s → stopping s → to_exit (t_pc s) ≤ turns Worker l → t_pc (run_schedule l s) = WExit.
Proof.
  revert s. induction l as [|a l IH]; intros s Hi Hs Hd.
  { unfold turns in Hd. simpl in Hd. simpl. destruct (t_pc s); simpl in Hd; (done || lia). }
  destruct (decide (t_pc s = WExit)) as [Hx|Hx]; [by apply (exited_run (a :: l))|].
  simpl. rewrite turns_cons in Hd. pose proof (run_inv [a] s Hi) as Hi'. simpl in Hi'.
  apply IH; [done|by apply stopping_turn|].
  destruct Hs as [Hs|Hs]; [|by rewrite (ti_joined s Hi Hs) in Hx]. unfold turn_of.
  destruct a; simpl in *.
  - destruct (exit_step s Hi Hs Hx) as (s' & Hstep & _ & Hlt). rewrite Hstep. simpl. lia.
  - lia.
  - unfold notify_post. destruct (t_posts s); simpl; lia.
  - unfold stop_step. rewrite Hs, bool_decide_false by done. simpl. lia.
Qed.

(** ** The sequential view

    World.v performs [notifyUpdate] in one go; on a running threaded module it
    is the two halves, one after the other, on the flag and the trigger. *)
Definition thread_view (m : moModule) (s : tstate) : Prop :=
  t_need s = m_need_update m ∧ Some (tr_state (t_trig s)) = m_trigger m.

Lemma notifyUpdate_halves start a m s w :
  w_modules w !! a = Some m → m_is_started m = true → m_use_thread m = true → thread_view m s →
  ∃ m', notifyUpdate start a w = Ok (tt, put_module a m' w)
        ∧ thread_view m' (run_schedule [NotifySet; NotifyPost] s).
Proof.
  intros Hm Hs Hu [Hn Ht]. unfold notifyUpdate. rewrite bind_run, (getm_run a m) by done. cbv beta iota.
  rewrite Hs, bind_run. cbn [skip mret M_ret]. rewrite bind_run, (mod_module_run a m) by done. cbv beta iota.
  rewrite bind_run, (getm_run a (upd_m_need_update (λ _, true) m)) by apply put_module_lookup. cbv beta iota.
  change (m_use_thread (upd_m_need_update (λ _, true) m)) with (m_use_thread m). rewrite Hu.
  rewrite bind_run. change (m_trigger (upd_m_need_update (λ _, true) m)) with (m_trigger m). rewrite <-Ht.
  cbn [deref lift]. rewrite (mod_module_run a (upd_m_need_update (λ _, true) m)) by apply put_module_lookup.
  rewrite put_module_twice. eexists. split; [done|]. by split.
Qed.

(** ** Properties *)

(** C27: no wake-up is lost.  Whatever happened before, once a call of
    [notifyUpdate] has set the flag and every such call has posted the trigger,
    the thread runs [update] before it has had four more turns, however the
    other threads are interleaved, unless [stop] was called meanwhile; and the
    thread never runs [update] more often than it was notified. *)
Theorem notified_module_updates (before after : list actor) :
  let s := run_schedule before started_thread in
  t_need s = true → t_posts s = 0 → 4 ≤ turns Worker after →
  (t_quit (run_schedule after s) = true ∨ t_updates s < t_updates (run_schedule after s))
  ∧ t_updates (run_schedule after s) ≤ t_notified (run_schedule after s).
Proof.
  intros s Hn Hp Hl. assert (Hi : tinv s) by apply run_inv, started_inv.
  split; [|pose proof (ti_count _ (run_inv after s Hi)); lia].
  apply ready_runs; [done| |destruct (t_pc s); simpl; lia].
  left. split; [done|]. intros Hpc. destruct (ti_awake s Hi Hn Hpc); [done|lia].
Qed.

(** The worker sleeps on the trigger, then is notified. *)
Lemma notified_module_updates_witness :
  let s := run_schedule [Worker; Worker; Worker; NotifySet; NotifyPost] started_thread in
  t_pc s = WWait ∧ t_updates (run_schedule [Worker; NotifySet; Worker; Worker; Worker] s) = 1.
Proof.
  intros s. split; [reflexivity|].
  destruct (notified_module_updates [Worker; Worker; Worker; NotifySet; NotifyPost]
    [Worker; NotifySet; Worker; Worker; Worker] eq_refl eq_refl ltac:(vm_compute; lia)) as [[H|H] _];
    [vm_compute in H; discriminate|reflexivity].
Defined.

(** C37: [stop] returns: once it has posted the trigger, the thread has left its
    loop after at most six more turns, whatever the other threads do, so that
    [waitfor] comes back; from then on [update] is never called again. *)
Theorem stop_returns (before after later : list actor) :
  let s := run_schedule before started_thread in
  t_stop s = SPosted → 6 ≤ turns Worker after →
  t_pc (run_schedule after s) = WExit
  ∧ t_stop (run_schedule (after ++ [Stop]) s) = SJoined
  ∧ t_updates (run_schedule later (run_schedule (after ++ [Stop]) s))
    = t_updates (run_schedule (after ++ [Stop]) s).
Proof.
  intros s Hs Hl. assert (Hi : tinv s) by apply run_inv, started_inv.
  assert (Hx : t_pc (run_schedule after s) = WExit)
    by (apply exit_runs; [done|by left|destruct (t_pc s); simpl; lia]).
  rewrite run_schedule_app. simpl. pose proof (stopping_run after s (or_introl Hs)) as Hs2.
  destruct (exited_turn Stop _ Hx) as [Hx2 _]. split_and!; [done| |by apply exited_run].
  unfold turn_of. simpl. unfold stop_step. destruct Hs2 as [E|E]; rewrite E; [|done].
  by rewrite bool_decide_true.
Qed.

Lemma stop_returns_witness :
  let s := run_schedule [Worker; Worker; Stop; Stop; NotifySet] started_thread in
  t_stop (run_schedule ([Worker; Worker; Worker; Worker; Worker; Worker] ++ [Stop]) s) = SJoined.
Proof.
  apply (stop_returns [Worker; Worker; Stop; Stop; NotifySet]
    [Worker; Worker; Worker; Worker; Worker; Worker] [Worker]); [reflexivity|vm_compute; lia].
Defined.
