(* ===== verification/Catalogue.v ===== *)
(** The module classes: what each constructor under src/src/modules/ builds.

    A constructor is the list of the statements that build the [moModule] part
    of the object, in the source's order ([ctor_step]), run on the heap by
    [run_step]; a derived class appends its statements to those of its base
    ([image_filter_ctor], [image_filter8_ctor], [abstract_blob_tracker_ctor]).
    Members that are not streams, ports or properties (image buffers, OpenCV
    storage, counters) belong to the processing code and are not part of this
    picture. *)
From S2P Require Import Prelude StdMap Numeric Utils Property Container Module World.

(** ** Statements of a constructor *)

Inductive ctor_step :=
  | MODULE_INIT (module_name : string)
  | NullStream (f : string)
  | NewStream (f format : string)
  | DeclareInput (n : Z) (f name type description : string)
  | DeclareOutput (n : Z) (f name type description : string)
  | NewProperty (k : string) (v : pvalue)
  | SetMin (k : string) (z : Z)
  | SetMax (k : string) (z : Z)
  | SetChoices (k choices : string)
  | AddCallback (k : string) (cb : Z)
  | SetInputType (n : Z) (type : string)
  | SetOutputType (n : Z) (type : string)
  | DisplayName
  | BuildScreenPoints.

Record module_class := {
  c_name : string;
  c_author : string;
  c_description : string;
  c_capabilities : Z;
  c_steps : list ctor_step;
  c_dtor : list string;
}.

(** Addresses of the property callbacks the classes register. *)
Definition CB_calibration_size : Z := 2.
Definition CB_calibration_surface : Z := 3.
Definition CB_calibration_activate : Z := 4.
Definition CB_image_file : Z := 5.
Definition CB_hu_register : Z := 6.
Definition CB_mask_saveas : Z := 7.
Definition CB_mask_file : Z := 8.

Definition MAX_FIDUCIALS : Z := 512.

(** [new moProperty(v)]: the overload for the type of [v]. *)
Definition new_property (v : pvalue) : res moProperty :=
  match v with
  | VBool b => new_bool b EmptyString
  | VString s => new_cstr s EmptyString
  | VInt z => new_int z EmptyString
  | VDouble d => new_double d EmptyString
  | VPoints l => new_points l EmptyString
  end.

(** The text [moCalibrationModule::buildScreenPoints] writes: a grid of
    [mx] by [my] points over the unit square, column by column, computed in
    single precision. *)
Definition grid_step (n : Z) : double :=
  f_of_d (d_div (d_of_Z 1) (f_of_d (d_sub (f_of_d (d_of_Z n)) (d_of_Z 1)))).
Definition grid_coord (i : nat) (step : double) : string :=
  print_g (f_of_d (d_mul (f_of_d (d_of_Z (Z.of_nat i))) step)).
Definition screen_points_text (mx my : Z) : string :=
  foldr (λ x rest,
    foldr (λ y rest,
      grid_coord x (grid_step mx) +:+ "," +:+ grid_coord y (grid_step my) +:+ ";" +:+ rest)
      rest (seq 0 (Z.to_nat my)))
    EmptyString (seq 0 (Z.to_nat mx)).

Section Construct.
  Context {V : Virtuals}.

  (** [this->properties[k]->...]: the property must exist. *)
Definition on_property (self : nat) (k : string) (g : moProperty → res moProperty) : M unit :=
    m ← getm self;
    p ← lift (deref (find k (m_properties m)));
    p ← lift (g p);
    modify (put_module self (store_property k p m)).

  (** [moCalibrationModule::buildScreenPoints]. *)
Definition buildScreenPoints (self : nat) : M unit :=
    p ← property_of self "cols"; mx ← lift (asInteger p);
    p ← property_of self "rows"; my ← lift (asInteger p);
    set_property_string self "screenPoints" (screen_points_text mx my);;
    mod_module self notifyGui.

Definition run_step (self : nat) (step : ctor_step) : M unit :=
    match step with
    | MODULE_INIT module_name =>
        id ← createId module_name;
        p ← lift (new_string id EmptyString);
        mod_module self (store_property "id" p);;
        log_id MO_DEBUG self
    | NullStream f => mod_module self (set_field f None)
    | NewStream f format => s ← alloc_stream format; mod_module self (set_field f (Some s))
    | DeclareInput n f name type description =>
        mod_module self (declareInput n f
          {| i_name := name; i_type := type; i_description := description |})
    | DeclareOutput n f name type description =>
        mod_module self (declareOutput n f
          {| i_name := name; i_type := type; i_description := description |})
    | NewProperty k v => p ← lift (new_property v); mod_module self (store_property k p)
    | SetMin k z => on_property self k (λ p, Ok (setMin z p))
    | SetMax k z => on_property self k (λ p, Ok (setMax z p))
    | SetChoices k choices => on_property self k (λ p, Ok (setChoices choices p))
    | AddCallback k cb => on_property self k (addCallback cb self)
    | SetInputType n type => setInputType self n type
    | SetOutputType n type => setOutputType self n type
    | DisplayName =>
        count ← gets w_display_count;
        modify (upd_w_display_count (λ n, (n + 1) mod 2 ^ 32)%Z);;
        p ← lift (new_string ("Movid" +:+ print_int count) EmptyString);
        mod_module self (store_property "name" p)
    | BuildScreenPoints => buildScreenPoints self
    end.

  (** [new moXModule()]: the object, then the constructor's statements.  What
      the destructor deletes is a constant of the class. *)
Definition construct (c : module_class) : M nat :=
    self ← gets w_next;
    modify (λ w, upd_w_next S (put_module self
      (new_module (c_name c) (c_description c) (c_author c) (c_capabilities c) self) w));;
    for_each (run_step self) (c_steps c);;
    mod_module self (upd_m_dtor_fields (λ _, c_dtor c));;
    mret self.
End Construct.

(** ** Base classes *)

Definition image_filter_ctor : list ctor_step :=
  [NullStream "input"; NewStream "output" "IplImage";
   DeclareInput 0 "input" "image" "IplImage" "Input image stream";
   DeclareOutput 0 "output" "image" "IplImage" "Output image stream"].

Definition image_filter8_ctor : list ctor_step :=
  image_filter_ctor ++
  [NewStream "output8" "IplImage8"; SetInputType 0 "IplImage,IplImage8";
   DeclareOutput 1 "output8" "image8" "IplImage8" "Output image stream (1 channel)"].

Definition abstract_blob_tracker_ctor : list ctor_step :=
  [MODULE_INIT "AbstractBlobTracker"; NullStream "input"; NewStream "output" "trackedblob";
   DeclareInput 0 "input" "data" "blob" "Data stream of type 'blob'";
   DeclareOutput 0 "output" "data" "trackedblob" "Data stream of type 'trackedblob'";
   NewProperty "max_age" (VInt 10); NewProperty "min_age" (VInt 3);
   NewProperty "max_rotation_speed" (VInt 46)].

(** ** The classes *)

Definition moAmplify : module_class :=
  {| c_name := "Amplify"; c_author := "native";
     c_description := "Amplifies input image (for every pixel: p = p^amp, so larger values get larger quicker";
     c_capabilities := (Z.lor MO_MODULE_INPUT MO_MODULE_OUTPUT);
     c_steps := image_filter_ctor ++
      [MODULE_INIT "Amplify";
       NewProperty "amplification" (VDouble (atof "0.2"))];
     c_dtor := ["output"] |}.

Definition moBackgroundSubtract : module_class :=
  {| c_name := "BackgroundSubtract"; c_author := "native";
     c_description := ("Subtracts the background from the current input image." +:+ endl
     +:+ "If 'toggle' is set to true, subtract each second frame." +:+ endl
     +:+ "Otherwise stores next frame as background once when 'recapture is set to true.'");
     c_capabilities := (Z.lor MO_MODULE_INPUT MO_MODULE_OUTPUT);
     c_steps := image_filter8_ctor ++
      [MODULE_INIT "BackgroundSubtract";
       NewProperty "recapture" (VBool true);
       NewProperty "toggle" (VBool false);
       NewProperty "absolute" (VBool false)];
     c_dtor := ["output8"; "output"] |}.

Definition moBinaryMask : module_class :=
  {| c_name := "BinaryMask"; c_author := "native";
     c_description := "Everything that's black in the second image is black in the output image. Rest unchanged.";
     c_capabilities := (Z.lor MO_MODULE_INPUT MO_MODULE_OUTPUT);
     c_steps :=
      [MODULE_INIT "BinaryMask";
       NullStream "input";
       NullStream "mask";
       NewStream "output" "IplImage8";
       DeclareInput 0 "input" "image" "IplImage8" "Original image";
       DeclareInput 1 "mask" "mask" "IplImage8" "Binary mask image.";
       DeclareOutput 0 "output" "masked" "IplImage8" "Result of the masking."];
     c_dtor := [] |}.

Definition moBlobFinder : module_class :=
  {| c_name := "BlobFinder"; c_author := "native";
     c_description := "ContourBlobs Description";
     c_capabilities := (Z.lor MO_MODULE_INPUT MO_MODULE_OUTPUT);
     c_steps := image_filter_ctor ++
      [MODULE_INIT "BlobFinder";
       NewStream "output_data" "blob";
       DeclareOutput 1 "output_data" "data" "blob" "Data stream with Blob info";
       SetInputType 0 "IplImage8";
       NewProperty "min_size" (VInt (2 * 2));
       NewProperty "max_size" (VInt (50 * 50))];
     c_dtor := ["output"] |}.

Definition moCalibration : module_class :=
  {| c_name := "Calibration"; c_author := "native";
     c_description := "Calibration";
     c_capabilities := (Z.lor (Z.lor MO_MODULE_INPUT MO_MODULE_OUTPUT) MO_MODULE_GUI);
     c_steps :=
      [MODULE_INIT "Calibration";
       NullStream "input";
       NewStream "output" "trackedblob";
       DeclareInput 0 "input" "data" "trackedblob" "Data stream with type of 'trackedblob'";
       DeclareOutput 0 "output" "data" "trackedblob" "Data stream with type of 'trackedblob'";
       NewProperty "rows" (VInt 3);
       SetMin "rows" 2;
       AddCallback "rows" CB_calibration_size;
       NewProperty "cols" (VInt 3);
       SetMin "cols" 2;
       AddCallback "cols" CB_calibration_size;
       NewProperty "screenPoints" (VPoints []);
       NewProperty "surfacePoints" (VPoints []);
       AddCallback "surfacePoints" CB_calibration_surface;
       NewProperty "calibrate" (VBool false);
       AddCallback "calibrate" CB_calibration_activate;
       NewProperty "duration_per_point" (VInt 50);
       AddCallback "duration_per_point" CB_calibration_activate;
       BuildScreenPoints];
     c_dtor := [] |}.

Definition moCamera : module_class :=
  {| c_name := "Camera"; c_author := "native";
     c_description := "Fetch camera stream";
     c_capabilities := MO_MODULE_OUTPUT;
     c_steps :=
      [MODULE_INIT "Camera";
       NewStream "stream" "IplImage";
       NewStream "monochrome" "IplImage8";
       DeclareOutput 0 "stream" "camera" "IplImage" "Image stream of the camera";
       DeclareOutput 1 "monochrome" "camera" "IplImage8" "Image stream of the camera";
       NewProperty "index" (VInt 0)];
     c_dtor := [] |}.

Definition moCanny : module_class :=
  {| c_name := "Canny"; c_author := "native";
     c_description := "Apply the Canny edge detector to an image";
     c_capabilities := (Z.lor MO_MODULE_INPUT MO_MODULE_OUTPUT);
     c_steps := image_filter_ctor ++
      [MODULE_INIT "Canny";
       NewProperty "lower_threshold" (VInt 100);
       SetMin "lower_threshold" 0;
       SetMax "lower_threshold" 500;
       NewProperty "upper_threshold" (VInt 200);
       SetMin "upper_threshold" 0;
       SetMax "upper_threshold" 500;
       SetInputType 0 "IplImage8";
       SetOutputType 0 "IplImage8"];
     c_dtor := ["output"] |}.

Definition moCombine : module_class :=
  {| c_name := "Combine"; c_author := "native";
     c_description := "Take the maximum color from 2 image";
     c_capabilities := (Z.lor MO_MODULE_INPUT MO_MODULE_OUTPUT);
     c_steps :=
      [MODULE_INIT "Combine";
       NullStream "input1";
       NullStream "input2";
       NewStream "output" "IplImage";
       DeclareInput 0 "input1" "image1" "IplImage" "Background image";
       DeclareInput 1 "input2" "image2" "IplImage" "Image to combine to background (black is transparent)";
       DeclareOutput 0 "output" "combine" "IplImage" "Result of the combine"];
     c_dtor := [] |}.

Definition moDilate : module_class :=
  {| c_name := "Dilate"; c_author := "native";
     c_description := "Dilates the image (make bright regions bigger)";
     c_capabilities := (Z.lor MO_MODULE_INPUT MO_MODULE_OUTPUT);
     c_steps := image_filter_ctor ++
      [MODULE_INIT "Dilate";
       NewProperty "iterations" (VInt 1);
       SetInputType 0 "IplImage8";
       SetOutputType 0 "IplImage8"];
     c_dtor := ["output"] |}.

Definition moDistanceTransform : module_class :=
  {| c_name := "DistanceTransform"; c_author := "native";
     c_description := "Assign each pixel a color representing pixel's distance to the closest contour.";
     c_capabilities := (Z.lor MO_MODULE_INPUT MO_MODULE_OUTPUT);
     c_steps := image_filter_ctor ++
      [MODULE_INIT "DistanceTransform";
       NewProperty "scale" (VInt 5);
       SetMin "scale" 1;
       SetMax "scale" 255;
       NewProperty "mask_size" (VString "5");
       SetChoices "mask_size" "3;5;Precise";
       NewProperty "metric" (VString "L2");
       SetChoices "metric" "L2;L1;L12;Fair;Welsch"];
     c_dtor := ["output"] |}.

Definition moDump : module_class :=
  {| c_name := "Dump"; c_author := "native";
     c_description := "Dump all data informations in console";
     c_capabilities := MO_MODULE_INPUT;
     c_steps :=
      [NullStream "stream";
       DeclareInput 0 "stream" "data" "*" "Show any data input in text format"];
     c_dtor := [] |}.

Definition moErode : module_class :=
  {| c_name := "Erode"; c_author := "native";
     c_description := "Erodes the image (make bright regions smaller)";
     c_capabilities := (Z.lor MO_MODULE_INPUT MO_MODULE_OUTPUT);
     c_steps := image_filter_ctor ++
      [MODULE_INIT "Erode";
       NewProperty "iterations" (VInt 1);
       SetInputType 0 "IplImage8";
       SetOutputType 0 "IplImage8"];
     c_dtor := ["output"] |}.

Definition moEqualizeHist : module_class :=
  {| c_name := "EqualizeHist"; c_author := "native";
     c_description := "EqualizeHist an image with one of several filters";
     c_capabilities := (Z.lor MO_MODULE_INPUT MO_MODULE_OUTPUT);
     c_steps := image_filter8_ctor ++
      [MODULE_INIT "EqualizeHist"];
     c_dtor := ["output8"; "output"] |}.

Definition moFiducialFinder : module_class :=
  {| c_name := "FiducialFinder"; c_author := "native";
     c_description := "Find Fiducials";
     c_capabilities := (Z.lor MO_MODULE_INPUT MO_MODULE_OUTPUT);
     c_steps := image_filter_ctor ++
      [MODULE_INIT "FiducialFinder";
       NewStream "output_data" "blob";
       DeclareOutput 1 "output_data" "data" "blob" "Data stream with fiducial info";
       SetInputType 0 "IplImage8"];
     c_dtor := ["output"] |}.

Definition moFingerTipFinder : module_class :=
  {| c_name := "FingerTipFinder"; c_author := "native";
     c_description := "Module capable of detecting hands in an image. Detection is based on color-segmentation, contour-shape and distance transform. Finds fingertips & centerpoint of the palm.";
     c_capabilities := (Z.lor MO_MODULE_INPUT MO_MODULE_OUTPUT);
     c_steps := image_filter_ctor ++
      [MODULE_INIT "FingerTipFinder";
       NewStream "output_data" "blob";
       DeclareOutput 1 "output_data" "data" "blob" "Data stream with blobs";
       NewProperty "min_distance" (VDouble (atof "20."));
       NewProperty "min_area" (VDouble (atof "150."));
       NewProperty "merge_distance" (VDouble (atof "25."));
       SetMin "merge_distance" 0;
       SetMax "merge_distance" 100;
       NewProperty "adaptive_merge" (VBool true);
       SetInputType 0 "IplImage8";
       SetOutputType 0 "IplImage8"];
     c_dtor := ["output"] |}.

Definition moGrayScale : module_class :=
  {| c_name := "GrayScale"; c_author := "native";
     c_description := "Converts input image to a one bit channel image";
     c_capabilities := (Z.lor MO_MODULE_INPUT MO_MODULE_OUTPUT);
     c_steps := image_filter_ctor ++
      [MODULE_INIT "GrayScale";
       SetOutputType 0 "IplImage8"];
     c_dtor := ["output"] |}.

Definition moGreedyBlobTracker : module_class :=
  {| c_name := "GreedyBlobTracker"; c_author := "native";
     c_description := "Track Blobs based on a simple greedy algorithm";
     c_capabilities := (Z.lor MO_MODULE_INPUT MO_MODULE_OUTPUT);
     c_steps := abstract_blob_tracker_ctor ++
      [MODULE_INIT "GreedyBlobTracker";
       NewProperty "max_distance" (VDouble (atof "0.1"))];
     c_dtor := ["output"] |}.

Definition moHighpass : module_class :=
  {| c_name := "Highpass"; c_author := "native";
     c_description := "Highpass filter";
     c_capabilities := (Z.lor MO_MODULE_INPUT MO_MODULE_OUTPUT);
     c_steps := image_filter_ctor ++
      [MODULE_INIT "Highpass";
       NewProperty "size" (VInt 2);
       NewProperty "blur" (VInt 2)];
     c_dtor := ["output"] |}.

Definition moHsv : module_class :=
  {| c_name := "Hsv"; c_author := "native";
     c_description := "Hsv filter (can be used for color tracking)";
     c_capabilities := (Z.lor MO_MODULE_INPUT MO_MODULE_OUTPUT);
     c_steps := image_filter_ctor ++
      [MODULE_INIT "Hsv";
       NewProperty "hmin" (VInt 0);
       SetMin "hmin" 0;
       SetMax "hmin" 180;
       NewProperty "hmax" (VInt 20);
       SetMin "hmax" 0;
       SetMax "hmax" 180;
       NewProperty "smin" (VInt 0);
       SetMin "smin" 0;
       SetMax "smin" 255;
       NewProperty "smax" (VInt 20);
       SetMin "smax" 0;
       SetMax "smax" 255;
       NewProperty "vmin" (VInt 0);
       SetMin "vmin" 0;
       SetMax "vmin" 255;
       NewProperty "vmax" (VInt 255);
       SetMin "vmax" 0;
       SetMax "vmax" 255;
       SetOutputType 0 "IplImage8"];
     c_dtor := ["output"] |}.

Definition moHuObjectFinder : module_class :=
  {| c_name := "HuObjectFinder"; c_author := "native";
     c_description := "Find objects based on Hu moments";
     c_capabilities := (Z.lor MO_MODULE_INPUT MO_MODULE_OUTPUT);
     c_steps := image_filter_ctor ++
      [MODULE_INIT "HuObjectFinder";
       NewStream "output_data" "blob";
       DeclareOutput 1 "output_data" "data" "blob" "Data stream with blobs";
       NewStream "output_mask" "IplImage8";
       DeclareOutput 2 "output_mask" "data" "IplImage8" "Binary image mask. Found objects are black, else white.";
       SetInputType 0 "IplImage8";
       SetOutputType 0 "IplImage8";
       NewProperty "min_id" (VInt (MAX_FIDUCIALS + 1));
       NewProperty "max_size_difference" (VInt 1500);
       NewProperty "max_match_score" (VDouble (atof "0.5"));
       NewProperty "min_area" (VDouble (atof "150."));
       SetMin "min_area" 0;
       SetMax "min_area" 1000;
       NewProperty "register" (VBool false);
       AddCallback "register" CB_hu_register;
       NewProperty "consider_holes" (VBool false);
       NewProperty "consider_shape" (VBool true);
       NewProperty "draw_bounding_box" (VBool true)];
     c_dtor := ["output"] |}.

Definition moImage : module_class :=
  {| c_name := "Image"; c_author := "native";
     c_description := "Use a static image as source";
     c_capabilities := MO_MODULE_OUTPUT;
     c_steps :=
      [MODULE_INIT "Image";
       NewStream "stream" "IplImage";
       DeclareOutput 0 "stream" "image" "IplImage" "Image stream on a static image";
       NewProperty "filename" (VString EmptyString);
       AddCallback "filename" CB_image_file];
     c_dtor := [] |}.

Definition moImageDisplay : module_class :=
  {| c_name := "ImageDisplay"; c_author := "native";
     c_description := "Display image on a window";
     c_capabilities := MO_MODULE_INPUT;
     c_steps :=
      [MODULE_INIT "ImageDisplay";
       NullStream "input";
       DeclareInput 0 "input" "image" "IplImage,IplImage8" "Show image stream in a window";
       DisplayName];
     c_dtor := [] |}.

Definition moInvert : module_class :=
  {| c_name := "Invert"; c_author := "native";
     c_description := "Calculate the invert of an image";
     c_capabilities := (Z.lor MO_MODULE_INPUT MO_MODULE_OUTPUT);
     c_steps := image_filter8_ctor ++
      [MODULE_INIT "Invert"];
     c_dtor := ["output8"; "output"] |}.

Definition moJustify : module_class :=
  {| c_name := "Justify"; c_author := "native";
     c_description := "Justify the x/y data: (X/Y) = ((ma,mb)/(mc,md)) * (x/y) + (dx/dy)";
     c_capabilities := (Z.lor MO_MODULE_INPUT MO_MODULE_OUTPUT);
     c_steps :=
      [MODULE_INIT "Justify";
       NewProperty "dx" (VDouble (atof "0.0"));
       NewProperty "dx" (VDouble (atof "0.0"));
       NewProperty "ma" (VDouble (atof "1.0"));
       NewProperty "mb" (VDouble (atof "0.0"));
       NewProperty "mc" (VDouble (atof "0.0"));
       NewProperty "md" (VDouble (atof "1.0"));
       NullStream "input";
       DeclareInput 0 "input" "data" "blob" "Data stream with type of blob";
       NewStream "output" "GenericTouch";
       DeclareOutput 0 "output" "data" "blob" "Result of the justify"];
     c_dtor := ["output"] |}.

Definition moMask : module_class :=
  {| c_name := "Mask"; c_author := "native";
     c_description := "Mask Description";
     c_capabilities := (Z.lor MO_MODULE_INPUT MO_MODULE_OUTPUT);
     c_steps := image_filter_ctor ++
      [MODULE_INIT "Mask";
       NewProperty "saveas" (VString EmptyString);
       AddCallback "saveas" CB_mask_saveas;
       NewProperty "filename" (VString EmptyString);
       AddCallback "filename" CB_mask_file];
     c_dtor := ["output"] |}.

Definition moMirrorImage : module_class :=
  {| c_name := "MirrorImage"; c_author := "native";
     c_description := "Mirror an image. Flip it around x or y axis or both.";
     c_capabilities := (Z.lor MO_MODULE_INPUT MO_MODULE_OUTPUT);
     c_steps := image_filter_ctor ++
      [MODULE_INIT "MirrorImage";
       NewProperty "mirrorAxis" (VString "x")];
     c_dtor := ["output"] |}.

Definition moMunkresBlobTracker : module_class :=
  {| c_name := "MunkresBlobTracker"; c_author := "native";
     c_description := "Track Blobs based on munkres algorithm.";
     c_capabilities := (Z.lor MO_MODULE_INPUT MO_MODULE_OUTPUT);
     c_steps := abstract_blob_tracker_ctor ++
      [MODULE_INIT "MunkresBlobTracker"];
     c_dtor := ["output"] |}.

Definition moPeakFinder : module_class :=
  {| c_name := "PeakFinder"; c_author := "native";
     c_description := "PeakFinder Description";
     c_capabilities := (Z.lor MO_MODULE_INPUT MO_MODULE_OUTPUT);
     c_steps := image_filter_ctor ++
      [MODULE_INIT "PeakFinder";
       NewProperty "min_value" (VDouble (atof "0."));
       NewProperty "max_value" (VDouble (atof "255."));
       NewProperty "max_peaks" (VInt 1);
       NewProperty "merge_distance" (VDouble (atof "4."))];
     c_dtor := ["output"] |}.

Definition moRoi : module_class :=
  {| c_name := "Roi"; c_author := "native";
     c_description := "Roi filter";
     c_capabilities := (Z.lor MO_MODULE_INPUT MO_MODULE_OUTPUT);
     c_steps := image_filter_ctor ++
      [MODULE_INIT "Roi";
       NewProperty "left" (VInt 20);
       NewProperty "top" (VInt 10);
       NewProperty "width" (VInt 200);
       NewProperty "height" (VInt 100)];
     c_dtor := ["output"] |}.

Definition moSmooth : module_class :=
  {| c_name := "Smooth"; c_author := "native";
     c_description := "Smooth an image with one of several filters";
     c_capabilities := (Z.lor MO_MODULE_INPUT MO_MODULE_OUTPUT);
     c_steps := image_filter8_ctor ++
      [MODULE_INIT "Smooth";
       NewProperty "size" (VInt 1);
       SetMin "size" 1;
       SetMax "size" 6;
       NewProperty "filter" (VString "median");
       SetChoices "filter" "median;gaussian;blur;blur_no_scale"];
     c_dtor := ["output8"; "output"] |}.

Definition moThreshold : module_class :=
  {| c_name := "Threshold"; c_author := "native";
     c_description := "Thresholding to throw away all values below or above certain threshold";
     c_capabilities := (Z.lor MO_MODULE_INPUT MO_MODULE_OUTPUT);
     c_steps := image_filter_ctor ++
      [MODULE_INIT "Threshold";
       NewProperty "threshold" (VInt 50);
       SetMin "threshold" 0;
       SetMax "threshold" 255;
       NewProperty "adaptive" (VBool false);
       NewProperty "block_size" (VInt 21);
       NewProperty "mode" (VString "mean");
       SetChoices "mode" "mean;gaussian";
       NewProperty "type" (VString "binary");
       SetChoices "type" "binary;binary_inv;trunc;tozero;tozero_inv";
       SetInputType 0 "IplImage8";
       SetOutputType 0 "IplImage8"];
     c_dtor := ["output"] |}.

Definition moTuio : module_class :=
  {| c_name := "Tuio"; c_author := "native";
     c_description := "Convert stream to TUIO format (touch & fiducial)";
     c_capabilities := MO_MODULE_INPUT;
     c_steps :=
      [MODULE_INIT "Tuio";
       NullStream "input";
       DeclareInput 0 "input" "data" "trackedblob" "Data stream with type of 'trackedblob'";
       NewProperty "ip" (VString "127.0.0.1");
       NewProperty "port" (VInt 3333);
       NewProperty "sendsize" (VBool true)];
     c_dtor := [] |}.

Definition moTuio2 : module_class :=
  {| c_name := "Tuio2"; c_author := "native";
     c_description := "Convert stream to TUIO2 format";
     c_capabilities := MO_MODULE_INPUT;
     c_steps :=
      [MODULE_INIT "Tuio2";
       NullStream "input";
       NewProperty "ip" (VString "127.0.0.1");
       NewProperty "port" (VInt 3333);
       DeclareInput 0 "input" "data" "trackedblob" "Data stream with type of 'trackedblob'"];
     c_dtor := [] |}.

Definition moVideo : module_class :=
  {| c_name := "Video"; c_author := "native";
     c_description := "Provide a stream from a video file";
     c_capabilities := MO_MODULE_OUTPUT;
     c_steps :=
      [MODULE_INIT "Video";
       NewStream "stream" "IplImage";
       DeclareOutput 0 "stream" "video" "IplImage" "Video image stream";
       NewProperty "filename" (VString EmptyString);
       NewProperty "loop" (VBool true)];
     c_dtor := ["stream"] |}.

Definition moYCrCbThreshold : module_class :=
  {| c_name := "YCrCbThreshold"; c_author := "native";
     c_description := "YCrCbThreshold filter (can be used for color tracking)";
     c_capabilities := (Z.lor MO_MODULE_INPUT MO_MODULE_OUTPUT);
     c_steps := image_filter_ctor ++
      [MODULE_INIT "YCrCbThreshold";
       NewProperty "Y_min" (VInt 0);
       SetMin "Y_min" 0;
       SetMax "Y_min" 255;
       NewProperty "Y_max" (VInt 255);
       SetMin "Y_max" 0;
       SetMax "Y_max" 255;
       NewProperty "Cr_min" (VInt 145);
       SetMin "Cr_min" 0;
       SetMax "Cr_min" 255;
       NewProperty "Cr_max" (VInt 175);
       SetMin "Cr_max" 0;
       SetMax "Cr_max" 255;
       NewProperty "Cb_min" (VInt 100);
       SetMin "Cb_min" 0;
       SetMax "Cb_min" 255;
       NewProperty "Cb_max" (VInt 130);
       SetMin "Cb_max" 0;
       SetMax "Cb_max" 255;
       SetOutputType 0 "IplImage8"];
     c_dtor := ["output"] |}.

(** [moPipeline::moPipeline]. *)
Definition moPipeline_class : module_class :=
  {| c_name := "Pipeline"; c_author := "native"; c_description := "Handle object list";
     c_capabilities := MO_MODULE_NONE; c_steps := [MODULE_INIT "Pipeline"]; c_dtor := [] |}.
