(* ===== verification/Factory.v ===== *)
(** [moFactory] (src/src/moFactory.{h,cpp}) and what creating a module
    guarantees.

    [class_ok] checks a constructor statically (ports declared in order, each
    on a member of its own; properties exist before they are configured; the
    destructor deletes declared outputs only).  A class that passes builds, in
    any well-formed world, a well-formed module that is connected to nothing
    and shares no stream with another one ([construct_spec]); all the classes
    of the catalogue pass. *)
From S2P Require Import Prelude StdMap Numeric Utils Property Container Module World Wiring.
From S2P Require Import Lifecycle Catalogue.

(** ** The factory *)

(** [database]: the registered names and their creation callbacks, here the
    class the callback instantiates. *)
Definition database := smap string module_class.

Definition registerModule (c : module_class) (db : database) : database := insert (c_name c) c db.

(** [REGISTER_MODULE] calls of [moFactory::init], in order. *)
Definition registered : list module_class :=
  [moAmplify; moBackgroundSubtract; moBinaryMask; moBlobFinder; moCalibration; moCamera; moCanny;
   moCombine; moDilate; moDistanceTransform; moDump; moErode; moEqualizeHist; moFiducialFinder;
   moFingerTipFinder; moGrayScale; moGreedyBlobTracker; moHighpass; moHsv; moHuObjectFinder; moImage;
   moImageDisplay; moInvert; moJustify; moMask; moMirrorImage; moMunkresBlobTracker; moPeakFinder;
   moRoi; moSmooth; moThreshold; moTuio; moTuio2; moVideo; moYCrCbThreshold].

Definition factory_init : database := foldl (λ db c, registerModule c db) [] registered.

(** The name normalisation at the head of [create]. *)
Definition strip_prefix (sname : string) : string :=
  if (2 <? slen sname) && bool_decide (stake 2 sname = "mo") then sdrop 2 sname else sname.
Definition strip_suffix (sname : string) : string :=
  if (6 <? slen sname) && bool_decide (sdrop (slen sname - 6) sname = "Module")
  then stake (slen sname - 6) sname else sname.
Definition short_name (name : string) : string := strip_suffix (strip_prefix name).

Definition factory_create {V : Virtuals} (db : database) (name : string) : M (option nat) :=
  match find (short_name name) db with
  | None => mret None
  | Some c => a ← construct c; mret (Some a)
  end.

Definition factory_list (db : database) : list string := keys db.

(** ** A static check of constructors *)

(** What is known of the object under construction: null and fresh stream
    members not yet declared, declared inputs and outputs in order, and the
    properties with the callbacks each has. *)
Record cstate := {
  cs_null : list string;
  cs_new : list string;
  cs_in : list string;
  cs_out : list string;
  cs_props : smap string (list Z);
}.

Definition cs_start : cstate :=
  {| cs_null := []; cs_new := []; cs_in := []; cs_out := [];
     cs_props := [("gui_feedback", [CB_gui_feedback]); ("use_thread", [])] |}.

Definition cs_fields (cs : cstate) : list string := cs_null cs ++ cs_new cs ++ cs_in cs ++ cs_out cs.

Definition val_okb (v : pvalue) : bool := match v with VInt z => in_int z | _ => true end.

Definition set_props (cs : cstate) (props : smap string (list Z)) : cstate :=
  {| cs_null := cs_null cs; cs_new := cs_new cs; cs_in := cs_in cs; cs_out := cs_out cs;
     cs_props := props |}.

Definition guard_ {A} (b : bool) (x : A) : option A := if b then Some x else None.

Definition check_step (cs : cstate) (step : ctor_step) : option cstate :=
  match step with
  | MODULE_INIT _ => Some (set_props cs (insert "id" [] (cs_props cs)))
  | NullStream f =>
      guard_ (bool_decide (f ∉ cs_fields cs))
        {| cs_null := f :: cs_null cs; cs_new := cs_new cs; cs_in := cs_in cs;
           cs_out := cs_out cs; cs_props := cs_props cs |}
  | NewStream f _ =>
      guard_ (bool_decide (f ∉ cs_fields cs))
        {| cs_null := cs_null cs; cs_new := f :: cs_new cs; cs_in := cs_in cs;
           cs_out := cs_out cs; cs_props := cs_props cs |}
  | DeclareInput n f _ _ _ =>
      guard_ (bool_decide (n = Z.of_nat (length (cs_in cs))) && bool_decide (f ∈ cs_null cs)
              && bool_decide (f ∉ cs_in cs ++ cs_out cs))
        {| cs_null := cs_null cs; cs_new := cs_new cs; cs_in := f :: cs_in cs;
           cs_out := cs_out cs; cs_props := cs_props cs |}
  | DeclareOutput n f _ _ _ =>
      guard_ (bool_decide (n = Z.of_nat (length (cs_out cs))) && bool_decide (f ∈ cs_new cs)
              && bool_decide (f ∉ cs_in cs ++ cs_out cs))
        {| cs_null := cs_null cs; cs_new := cs_new cs; cs_in := cs_in cs;
           cs_out := f :: cs_out cs; cs_props := cs_props cs |}
  | NewProperty k v => guard_ (val_okb v && bool_decide (k ≠ "id")) (set_props cs (insert k [] (cs_props cs)))
  | SetMin k _ | SetMax k _ | SetChoices k _ =>
      guard_ (bool_decide (is_Some (find k (cs_props cs)))) cs
  | AddCallback k cb =>
      match find k (cs_props cs) with
      | Some l => guard_ (bool_decide (cb ∉ l) && bool_decide (k ≠ "id"))
                    (set_props cs (insert k (cb :: l) (cs_props cs)))
      | None => None
      end
  | SetInputType _ _ | SetOutputType _ _ => Some cs
  | BuildScreenPoints =>
      guard_ (bool_decide (find "screenPoints" (cs_props cs) = Some [])) (set_props cs [])
  | DisplayName => Some (set_props cs (insert "name" [] (cs_props cs)))
  end.

Fixpoint check_steps (cs : cstate) (steps : list ctor_step) : option cstate :=
  match steps with
  | [] => Some cs
  | step :: steps => match check_step cs step with
                     | Some cs => check_steps cs steps
                     | None => None
                     end
  end.

Definition class_ok (c : module_class) : bool :=
  match check_steps cs_start (c_steps c) with
  | Some cs => bool_decide (NoDup (c_dtor c)) && forallb (λ f, bool_decide (f ∈ cs_out cs)) (c_dtor c)
  | None => false
  end.

Example registered_ok : forallb class_ok (moPipeline_class :: registered) = true.
Proof. vm_compute. reflexivity. Qed.

(** ** What holds during construction *)

(** The rest of the world [w0], seen from [w]: other modules keep their ports
    and id, streams their observers and format. *)
Record frame (w0 : world) (self : nat) (w : world) : Prop := {
  fr_mod a m : w_modules w0 !! a = Some m → ∃ m', w_modules w !! a = Some m' ∧ kept m m';
  fr_back a : is_Some (w_modules w !! a) → a = self ∨ is_Some (w_modules w0 !! a);
  fr_new : w_modules w0 !! self = None;
  fr_str s st : w_streams w0 !! s = Some st →
    ∃ st', w_streams w !! s = Some st' ∧ s_observers st' = s_observers st ∧ s_format st' = s_format st;
  fr_next : w_next w0 ≤ w_next w;
}.

(** A writable string id, without callbacks. *)
Definition plain_id (m : moModule) : Prop :=
  ∃ id, id_view m = (MO_PROPERTY_STRING, Some (VString id), false, []).

Lemma plain_id_eq m m' : m_properties m' = m_properties m → plain_id m → plain_id m'.
Proof. unfold plain_id, id_view. by intros ->. Qed.

Record cinv (w0 : world) (self : nat) (cs : cstate) (w : world) (m : moModule) : Prop := {
  ci_wf : world_wf w;
  ci_m : w_modules w !! self = Some m;
  ci_frame : frame w0 self w;
  ci_null f : f ∈ cs_null cs → find f (m_fields m) = Some None;
  ci_new f : f ∈ cs_new cs → ∃ s, find f (m_fields m) = Some (Some s) ∧ is_Some (w_streams w !! s)
               ∧ w_streams w0 !! s = None ∧ (f ∉ cs_out cs → unowned w s);
  ci_new_inj f g s : f ∈ cs_new cs → g ∈ cs_new cs →
    find f (m_fields m) = Some (Some s) → find g (m_fields m) = Some (Some s) → f = g;
  ci_in_len : length (m_input_infos m) = length (cs_in cs);
  ci_in n f : find n (m_input_map m) = Some f → f ∈ cs_in cs ∧ f ∈ cs_null cs;
  ci_out_len : length (m_output_infos m) = length (cs_out cs);
  ci_out n f : find n (m_output_map m) = Some f → f ∈ cs_out cs ∧ f ∈ cs_new cs;
  ci_out_all f : f ∈ cs_out cs → ∃ n, find n (m_output_map m) = Some f;
  ci_props k l : find k (cs_props cs) = Some l →
    ∃ p, find k (m_properties m) = Some p ∧ ∀ cb, is_Some (find cb (p_callbacks p)) → cb ∈ l;
  ci_dtor : m_dtor_fields m = [];
  ci_id : plain_id m;
}.

Lemma frame_put w0 self m w :
  frame w0 self w → is_Some (w_modules w !! self) → frame w0 self (put_module self m w).
Proof.
  intros [Hm Hb Hn Hs Hx] Hself. split; try done.
  - intros a x Ha. rewrite lookup_put_module. case_decide; [|auto]. subst. congruence.
  - intros a. rewrite lookup_put_module. case_decide; auto.
Qed.

Lemma frame_quiet w0 self w w' : frame w0 self w → quiet w w' → frame w0 self w'.
Proof.
  intros [Hm Hb Hn Hs Hx] Hq. split; try done.
  - intros a m Ha. destruct (Hm a m Ha) as (m1 & Hm1 & Hp1).
    destruct (q_mod w w' Hq a m1 Hm1) as (m2 & Hm2 & Hp2 & _). exists m2. split; [done|by trans m1].
  - intros a Ha. by apply Hb, (q_mod_back w w' Hq).
  - intros s st Hst. destruct (Hs s st Hst) as (st1 & Hst1 & Ho1 & Hf1).
    destruct (q_str w w' Hq s st1 Hst1) as (st2 & Hst2 & Ho2 & Hf2).
    exists st2. split_and!; congruence.
  - etrans; [done|apply Hq].
Qed.

Lemma unowned_ports w w' s :
  (∀ a m', w_modules w' !! a = Some m' →
    ∃ m, w_modules w !! a = Some m ∧ ∀ n, getOutput n m' = getOutput n m) →
  unowned w s → unowned w' s.
Proof. intros H Hu a m' n Hm'. destruct (H a m' Hm') as (m & Hm & ->). by eapply Hu. Qed.

(** Quiet steps: nothing the construction relies on changes, except that the
    properties are no longer known. *)
Lemma cinv_quiet w0 self cs w w' m :
  cinv w0 self cs w m → quiet w w' →
  ∃ m', cinv w0 self (set_props cs []) w' m'.
Proof.
  intros [] Hq. destruct (q_mod w w' Hq self m ci_m0) as (m' & Hm' & Hk & _).
  exists m'. pose proof (kept_ports m m' Hk) as Hp. unfold ports in Hp.
  injection Hp as Hi Ho Hii Hoi Hf Hd.
  split; rewrite ?Hi, ?Ho, ?Hii, ?Hoi, ?Hf, ?Hd; try done.
  - by eapply quiet_wf.
  - by eapply frame_quiet.
  - intros f Hin. destruct (ci_new0 f Hin) as (s & Hs & Hl & H0 & Hu). exists s.
    split_and!; [done|by eapply quiet_live_str|done|]. intros Hout.
    apply (unowned_ports w); [|by apply Hu]. intros a x Hx.
    destruct (quiet_mod_inv w w' a x Hq Hx) as (y & Hy & Hky & _). exists y. split; [done|].
    intros n. by apply ports_getOutput, kept_ports.
  - unfold plain_id. by rewrite (kept_id m m' Hk).
Qed.

(** Counters may change. *)
Lemma cinv_same w0 self cs w w' m :
  w_modules w' = w_modules w → w_streams w' = w_streams w → w_next w' = w_next w →
  cinv w0 self cs w m → cinv w0 self cs w' m.
Proof.
  intros Hm Hs Hn []. assert (quiet w w') as Hq by (apply quiet_same; [done|done|lia]).
  split; try done; [by eapply quiet_wf|by rewrite Hm|by eapply frame_quiet|].
  intros f Hf. destruct (ci_new0 f Hf) as (s & ? & ? & ? & Hu). exists s. rewrite Hs.
  split_and!; [done..|]. intros Ho. unfold unowned. rewrite Hm. by apply Hu.
Qed.

(** Properties of the module under construction may change. *)
Lemma cinv_props w0 self cs w m m' props :
  cinv w0 self cs w m → ports m' = ports m → props_wf self m' → thread_ok m' → plain_id m' →
  (∀ k l, find k props = Some l →
     ∃ p, find k (m_properties m') = Some p ∧ ∀ cb, is_Some (find cb (p_callbacks p)) → cb ∈ l) →
  cinv w0 self (set_props cs props) (put_module self m' w) m'.
Proof.
  intros [] Hp Hpw Ht Hid Hprops. pose proof Hp as Hports. unfold ports in Hp.
  injection Hp as Hi Ho Hii Hoi Hf Hd.
  assert (Hwf : module_wf m' ∧ cbs_self self m').
  { apply (rebuild_wf self m); [done..|]. split; [by eapply (wwf_modules w)|by apply (wwf_cbs w)]. }
  split; rewrite ?Hi, ?Ho, ?Hii, ?Hoi, ?Hf, ?Hd; try done.
  - eapply put_module_wf; [done|done|apply Hwf|done| | |apply Hwf];
      intros; [by apply ports_getInput|by apply ports_getOutput].
  - apply put_module_lookup.
  - apply frame_put; eauto.
  - intros f Hin. destruct (ci_new0 f Hin) as (s & Hs & Hl & H0 & Hu). exists s.
    split_and!; [done..|]. intros Hout. apply (unowned_ports w); [|by apply Hu].
    intros a x. rewrite lookup_put_module. case_decide; [|eauto].
    intros [= <-]. subst. exists m. split; [done|]. intros. by apply ports_getOutput.
Qed.

(** ** Stream members *)

Lemma cs_fields_out cs f :
  f ∉ cs_fields cs ↔ (f ∉ cs_null cs) ∧ (f ∉ cs_new cs) ∧ (f ∉ cs_in cs) ∧ (f ∉ cs_out cs).
Proof. unfold cs_fields. rewrite !not_elem_of_app. tauto. Qed.

Lemma cinv_set_field w0 self cs w m f v :
  cinv w0 self cs w m → f ∉ cs_fields cs →
  cinv w0 self cs (put_module self (set_field f v m) w) (set_field f v m).
Proof.
  intros Hci (Hnull & Hnew & Hin & Hout)%cs_fields_out. pose proof Hci as [].
  assert (Hg : ∀ n, getInput n (set_field f v m) = getInput n m).
  { intros n. rewrite getInput_set_field, decide_False; [done|]. intros H. by apply ci_in0 in H as [? _]. }
  assert (Ho : ∀ n, getOutput n (set_field f v m) = getOutput n m).
  { intros n. unfold getOutput. simpl. destruct (find n (m_output_map m)) as [g|] eqn:E; [|done].
    apply field_set_ne. intros ->. by apply ci_out0 in E as [? _]. }
  assert (Hf : ∀ g, g ≠ f → find g (m_fields (set_field f v m)) = find g (m_fields m)).
  { intros g Hne. simpl. by apply find_insert_ne. }
  split; try done.
  - eapply put_module_wf; [done|done| |done|done|done|by apply (wwf_cbs w ci_wf0 self m)].
    apply set_field_wf. by eapply (wwf_modules w).
  - apply put_module_lookup.
  - apply frame_put; eauto.
  - intros g Hgn. rewrite Hf; [auto|]. by intros ->.
  - intros g Hgn. rewrite Hf by (by intros ->). destruct (ci_new0 g Hgn) as (s & ? & ? & ? & Hu).
    exists s. split_and!; [done..|]. intros Hgo. apply (unowned_ports w); [|by apply Hu].
    intros a x. rewrite lookup_put_module. case_decide; [|eauto]. intros [= <-]. subst. eauto.
  - intros g h s Hg1 Hh1. rewrite !Hf by (by intros ->). by apply ci_new_inj0.
Qed.

Lemma cinv_null_step w0 self cs cs' w m f :
  cinv w0 self cs w m → check_step cs (NullStream f) = Some cs' →
  cinv w0 self cs' (put_module self (set_field f None m) w) (set_field f None m).
Proof.
  intros Hci. simpl. unfold guard_. case_bool_decide as Hf; [|done]. intros [= <-].
  pose proof (cinv_set_field w0 self cs w m f None Hci Hf) as [].
  split; try done.
  - intros g [->|Hg]%elem_of_cons; [apply find_insert_eq|auto].
  - intros n g Hn. destruct (ci_in0 n g Hn). simpl. set_solver.
Qed.

(** *** New streams *)

Lemma alloc_stream_run format w : alloc_stream format w = Ok (w_next w, add_stream format w).
Proof. done. Qed.

Lemma cinv_add_stream w0 self cs w m format :
  cinv w0 self cs w m → cinv w0 self cs (add_stream format w) m.
Proof.
  intros []. split; try done; [by apply add_stream_wf| |].
  - destruct ci_frame0 as [Hm Hb Hn Hs Hx]. split; try done; [|simpl; lia].
    intros s st Hst. destruct (Hs s st Hst) as (st' & Hst' & ? & ?). exists st'.
    rewrite add_stream_lookup, decide_False; [done|]. intros <-.
    rewrite (fresh_stream w) in Hst'; done.
  - intros f Hf. destruct (ci_new0 f Hf) as (s & ? & ? & ? & ?). exists s.
    split_and!; [done|by apply add_stream_live|done|done].
Qed.

Lemma cinv_new_step w0 self cs cs' w m f format :
  cinv w0 self cs w m → check_step cs (NewStream f format) = Some cs' →
  let m' := set_field f (Some (w_next w)) m in
  cinv w0 self cs' (put_module self m' (add_stream format w)) m'.
Proof.
  intros Hci. simpl. unfold guard_. case_bool_decide as Hf; [|done]. intros [= <-].
  pose proof (ci_wf _ _ _ _ _ Hci) as Hw. pose proof (fresh_stream w Hw) as Hfresh.
  pose proof (ci_frame _ _ _ _ _ Hci) as Hfr.
  assert (Hun : unowned w (w_next w)).
  { intros a x n Ha Hs. destruct (own_out_live w (wwf_own w Hw) a x n _ Ha Hs). congruence. }
  assert (Hold : ∀ g s, g ∈ cs_new cs → find g (m_fields m) = Some (Some s) → s ≠ w_next w).
  { intros g s Hg Hs ->. destruct (ci_new _ _ _ _ _ Hci g Hg) as (s' & Hs' & [? Hl] & _).
    congruence. }
  assert (H0 : w_streams w0 !! w_next w = None).
  { destruct (w_streams w0 !! w_next w) as [st|] eqn:E; [|done].
    destruct (fr_str w0 self w Hfr _ st E) as (st' & Hst' & _). congruence. }
  pose proof (cinv_set_field w0 self cs (add_stream format w) m f (Some (w_next w))
    (cinv_add_stream w0 self cs w m format Hci) Hf) as Hci'.
  apply cs_fields_out in Hf as (Hfn & Hfw & Hfi & Hfo).
  assert (Hfind : ∀ g, g ∈ cs_new cs → find g (m_fields (set_field f (Some (w_next w)) m)) = find g (m_fields m)).
  { intros g Hg. simpl. apply find_insert_ne. by intros ->. }
  destruct Hci'. split; try done.
  - intros g [->|Hg]%elem_of_cons; [|auto]. exists (w_next w).
    split_and!; [apply find_insert_eq| |done|].
    + eexists. simpl. apply lookup_insert_eq.
    + intros _. apply (unowned_ports w); [|done]. intros a x. rewrite lookup_put_module.
      case_decide; [|by intros; exists x]. intros [= <-]. subst. exists m.
      split; [by apply (ci_m _ _ _ _ _ Hci)|]. intros n. unfold getOutput. simpl.
      destruct (find n (m_output_map m)) as [g|] eqn:E; [|done].
      apply field_set_ne. intros ->. by apply (ci_out _ _ _ _ _ Hci) in E as [? _].
  - intros g h s [->|Hg]%elem_of_cons [->|Hh]%elem_of_cons; [done| | |by apply ci_new_inj0].
    + rewrite (Hfind h Hh). simpl. rewrite find_insert_eq. intros [= <-] Hs.
      by destruct (Hold h (w_next w)).
    + rewrite (Hfind g Hg). simpl. rewrite find_insert_eq. intros Hs [= <-].
      by destruct (Hold g (w_next w)).
  - intros n g Hn. destruct (ci_out0 n g Hn). simpl. set_solver.
Qed.

(** ** Ports *)

(** A member the checker knows and has not seen declared is unregistered. *)
Lemma cinv_unregistered w0 self cs w m f :
  cinv w0 self cs w m → f ∈ cs_null cs ∨ f ∈ cs_new cs → f ∉ cs_in cs ++ cs_out cs →
  unregistered f m.
Proof.
  intros Hci Hf [Hi Ho]%not_elem_of_app. split_and!.
  - destruct Hf as [Hf|Hf]; [rewrite (ci_null _ _ _ _ _ Hci f Hf); eauto|].
    destruct (ci_new _ _ _ _ _ Hci f Hf) as (s & -> & _). eauto.
  - intros k Hk. by apply (ci_in _ _ _ _ _ Hci) in Hk as [? _].
  - intros k Hk. by apply (ci_out _ _ _ _ _ Hci) in Hk as [? _].
Qed.

Lemma getInput_declare n f info m k :
  getInput k (declareInput n f info m) = if decide (n = k) then field f m else getInput k m.
Proof.
  unfold getInput. simpl. case_decide; [subst; by rewrite find_insert_eq|].
  by rewrite find_insert_ne.
Qed.
Lemma getOutput_declare n f info m k :
  getOutput k (declareOutput n f info m) = if decide (n = k) then field f m else getOutput k m.
Proof.
  unfold getOutput. simpl. case_decide; [subst; by rewrite find_insert_eq|].
  by rewrite find_insert_ne.
Qed.

Lemma inputs_on_declare n f info m s :
  module_wf m → n = Z.of_nat (length (m_input_infos m)) → field f m = None →
  inputs_on s (declareInput n f info m) = inputs_on s m.
Proof.
  intros Hm Hn Hf. unfold inputs_on.
  assert (length (m_input_map m) = length (m_input_infos m)) as Hl.
  { pose proof (f_equal length (mwf_in_keys m Hm)) as H. unfold keys in H.
    by rewrite !length_fmap in H. }
  assert (m_input_map (declareInput n f info m) = m_input_map m ++ [(n, f)]) as ->.
  { simpl. apply insert_port; [|by rewrite Hl]. rewrite (mwf_in_keys m Hm). apply mwf_in_contig, Hm. }
  unfold keys. rewrite fmap_app, filter_app, length_app. simpl. rewrite filter_cons.
  rewrite decide_False; [|rewrite getInput_declare, decide_True by done; congruence].
  rewrite filter_nil. simpl. rewrite Nat.add_0_r. f_equal.
  apply filter_ext_elem. intros k Hk. rewrite getInput_declare, decide_False; [done|].
  intros <-. assert (n ∈ keys (m_input_infos m)) as Hin by (by rewrite <-(mwf_in_keys m Hm)).
  apply contiguous_lt in Hin; [|apply mwf_in_contig, Hm]. unfold keys in Hin.
  rewrite length_fmap in Hin. lia.
Qed.

Lemma cinv_input_step w0 self cs cs' w m n f name type descr :
  cinv w0 self cs w m → check_step cs (DeclareInput n f name type descr) = Some cs' →
  let m' := declareInput n f {| i_name := name; i_type := type; i_description := descr |} m in
  cinv w0 self cs' (put_module self m' w) m'.
Proof.
  intros Hci. simpl. unfold guard_. destruct (_ && _) eqn:E; [|done]. intros [= <-].
  rewrite !andb_true_iff, !bool_decide_eq_true in E. destruct E as [[Hn Hf] Hfo].
  pose proof (cinv_unregistered w0 self cs w m f Hci (or_introl Hf) Hfo) as Hreg.
  destruct Hci. set (info := {| i_name := _ |}).
  assert (Hwf : module_wf m) by (by eapply (wwf_modules w)).
  assert (Hfield : field f m = None) by (unfold field; by rewrite ci_null0).
  assert (Hlen : n = Z.of_nat (length (m_input_infos m))) by (by rewrite ci_in_len0).
  assert (Hgone : ∀ s, unowned w s → unowned (put_module self (declareInput n f info m) w) s).
  { intros s Hu. apply (unowned_ports w); [|done]. intros a x. rewrite lookup_put_module.
    case_decide; [|by intros; exists x]. intros [= <-]. subst. eauto. }
  split; try done.
  - eapply put_module_wf_gen; [done|done|by apply declareInput_wf|by apply (wwf_cbs w ci_wf0 self m)|..].
    + intros s. by apply inputs_on_declare.
    + intros k s. rewrite getInput_declare. case_decide; [congruence|eauto].
    + apply (own_wf_step self m (declareInput n f info m) w); try done;
        [apply (wwf_own w ci_wf0)|apply lookup_put_module].
  - apply put_module_lookup.
  - apply frame_put; eauto.
  - intros g Hg. destruct (ci_new0 g Hg) as (s & ? & ? & ? & ?). exists s. split_and!; auto.
  - simpl. rewrite (insert_port n info) by (done || apply mwf_in_contig, Hwf).
    rewrite length_app, ci_in_len0. simpl. lia.
  - intros k g. simpl. intros [[-> ->]|[_ Hk]]%find_insert_Some; [set_solver|].
    apply ci_in0 in Hk as [? ?]. set_solver.
Qed.

Lemma cinv_output_step w0 self cs cs' w m n f name type descr :
  cinv w0 self cs w m → check_step cs (DeclareOutput n f name type descr) = Some cs' →
  let m' := declareOutput n f {| i_name := name; i_type := type; i_description := descr |} m in
  cinv w0 self cs' (put_module self m' w) m'.
Proof.
  intros Hci. simpl. unfold guard_. destruct (_ && _) eqn:E; [|done]. intros [= <-].
  rewrite !andb_true_iff, !bool_decide_eq_true in E. destruct E as [[Hn Hf] Hfo].
  pose proof (cinv_unregistered w0 self cs w m f Hci (or_intror Hf) Hfo) as Hreg.
  apply not_elem_of_app in Hfo as [_ Hfo].
  destruct Hci. set (info := {| i_name := _ |}).
  assert (Hwf : module_wf m) by (by eapply (wwf_modules w)).
  destruct (ci_new0 f Hf) as (s & Hs & Hlive & H0 & Hu). specialize (Hu Hfo).
  assert (Hfield : field f m = Some s) by (unfold field; by rewrite Hs).
  assert (Hlen : n = Z.of_nat (length (m_output_infos m))) by (by rewrite ci_out_len0).
  assert (Hget : ∀ b x k t, w_modules (put_module self (declareOutput n f info m) w) !! b = Some x →
    getOutput k x = Some t →
    (b = self ∧ k = n ∧ t = s) ∨ ∃ y, w_modules w !! b = Some y ∧ getOutput k y = Some t).
  { intros b x k t. rewrite lookup_put_module. case_decide; [|eauto]. intros [= <-]. subst.
    rewrite getOutput_declare. case_decide; [|eauto]. intros ?. left. split_and!; congruence. }
  split; try done.
  - eapply put_module_wf_gen; [done|done|by apply declareOutput_wf|by apply (wwf_cbs w ci_wf0 self m)|..];
      [done|eauto|].
    pose proof (wwf_own w ci_wf0) as Hown. split.
    + intros b x k t Hb Hk. destruct (Hget b x k t Hb Hk) as [(_ & _ & ->)|(y & Hy & Hky)]; [done|].
      by eapply (own_out_live w Hown).
    + intros b x k c z k' t Hb Hc Hk Hk'.
      destruct (Hget b x k t Hb Hk) as [(-> & -> & ->)|(y & Hy & Hky)],
        (Hget c z k' _ Hc Hk') as [(-> & -> & He)|(y' & Hy' & Hky')]; try done; subst.
      * by destruct (Hu c y' k').
      * by destruct (Hu b y k).
      * by eapply (own_owned w Hown).
    + intros b. rewrite lookup_put_module. case_decide; intros; apply (own_mod_fresh w Hown); [|done].
      subst. eauto.
    + apply (own_str_fresh w Hown).
  - apply put_module_lookup.
  - apply frame_put; eauto.
  - intros g Hg. destruct (ci_new0 g Hg) as (t & Hgt & ? & ? & Hgu). exists t. split_and!; try done.
    intros [Hgf Hgo]%not_elem_of_cons b x k Hb Hk.
    destruct (Hget b x k t Hb Hk) as [(-> & -> & ->)|(y & Hy & Hky)];
      [apply Hgf; by eapply ci_new_inj0|by apply (Hgu Hgo b y k)].
  - simpl. rewrite (insert_port n info) by (done || apply mwf_out_contig, Hwf).
    rewrite length_app, ci_out_len0. simpl. lia.
  - intros k g. simpl. intros [[-> ->]|[_ Hk]]%find_insert_Some; [set_solver|].
    apply ci_out0 in Hk as [? ?]. set_solver.
  - intros g [->|Hg]%elem_of_cons; simpl; [exists n; apply find_insert_eq|].
    destruct (ci_out_all0 g Hg) as [k Hk]. exists k. rewrite find_insert_ne; [done|].
    intros <-. apply find_key in Hk. rewrite (mwf_out_keys m Hwf) in Hk.
    apply contiguous_lt in Hk; [|apply mwf_out_contig, Hwf]. unfold keys in Hk.
    rewrite length_fmap in Hk. lia.
Qed.

(** ** Retyping a port *)

Lemma keys_insert_present `{KeyOrd K} {W} (k : K) (v x : W) (m : smap K W) :
  ordered m → find k m = Some x → keys (insert k v m) = keys m.
Proof.
  intros Ho Hk. unfold keys. revert Ho Hk. induction m as [|[j y] m IH]; simpl; [done|].
  intros Ho Hk. apply StronglySorted_inv in Ho as [Ho Hall]. destruct (kcmp k j) eqn:E; simpl.
  - apply kcmp_eq in E. by subst.
  - exfalso. apply find_Some_elem in Hk. apply (list_elem_of_fmap_2 fst) in Hk. simpl in Hk.
    rewrite Forall_forall in Hall. specialize (Hall k Hk).
    apply (klt_irrefl k). by trans j.
  - f_equal. by apply IH.
Qed.

Lemma contiguous_ordered {W} (m : smap Z W) : contiguous (keys m) → ordered m.
Proof.
  unfold contiguous, ordered, keys. intros ->. rewrite length_fmap.
  generalize (length m) as k. intros k. generalize 0 as b. induction k as [|k IH]; intros b; simpl;
    constructor; [apply IH|].
  apply Forall_forall. intros z Hz. apply list_elem_of_fmap in Hz as (j & -> & Hj).
  apply elem_of_seq in Hj. apply Z.compare_lt_iff. lia.
Qed.

Lemma retype_wf m n i t (g : moModule → moModule) :
  module_wf m →
  (g = upd_m_input_infos (insert n (info_setType t i)) ∧ find n (m_input_infos m) = Some i
   ∨ g = upd_m_output_infos (insert n (info_setType t i)) ∧ find n (m_output_infos m) = Some i) →
  module_wf (g m) ∧ length (m_input_infos (g m)) = length (m_input_infos m)
  ∧ length (m_output_infos (g m)) = length (m_output_infos m).
Proof.
  intros Hm Hg.
  assert (Hlen : ∀ l l' : smap Z moDataStreamInfo, keys l = keys l' → length l = length l').
  { intros l l' Hk%(f_equal length). unfold keys in Hk. by rewrite !length_fmap in Hk. }
  destruct Hg as [[-> Hi]|[-> Hi]].
  - assert (keys (insert n (info_setType t i) (m_input_infos m)) = keys (m_input_infos m)) as Hk
      by (eapply keys_insert_present; [apply contiguous_ordered, mwf_in_contig, Hm|done]).
    split; [|by split; [apply Hlen|]]. destruct Hm. split; simpl; rewrite ?Hk; done.
  - assert (keys (insert n (info_setType t i) (m_output_infos m)) = keys (m_output_infos m)) as Hk
      by (eapply keys_insert_present; [apply contiguous_ordered, mwf_out_contig, Hm|done]).
    split; [|by split; [|apply Hlen]]. destruct Hm. split; simpl; rewrite ?Hk; done.
Qed.

(** A module with the same members and port members, at the same place. *)
Lemma cinv_reinfo w0 self cs w m m' :
  cinv w0 self cs w m → module_wf m' →
  m_input_map m' = m_input_map m → m_output_map m' = m_output_map m → m_fields m' = m_fields m →
  m_properties m' = m_properties m → m_dtor_fields m' = m_dtor_fields m →
  length (m_input_infos m') = length (m_input_infos m) →
  length (m_output_infos m') = length (m_output_infos m) →
  cinv w0 self cs (put_module self m' w) m'.
Proof.
  intros [] Hwf Hi Ho Hf Hp Hd Hli Hlo.
  assert (Hgi : ∀ n, getInput n m' = getInput n m) by (intros; unfold getInput, field; by rewrite Hi, Hf).
  assert (Hgo : ∀ n, getOutput n m' = getOutput n m) by (intros; unfold getOutput, field; by rewrite Ho, Hf).
  split; rewrite ?Hi, ?Ho, ?Hf, ?Hp, ?Hd, ?Hli, ?Hlo; try done.
  - eapply put_module_wf; [done|done|done|done|done|done|].
    unfold cbs_self. rewrite Hp. by apply (wwf_cbs w ci_wf0 self m).
  - apply put_module_lookup.
  - apply frame_put; eauto.
  - intros g Hg. destruct (ci_new0 g Hg) as (t & ? & ? & ? & Hgu). exists t. split_and!; try done.
    intros Hout. apply (unowned_ports w); [|by apply Hgu]. intros a x. rewrite lookup_put_module.
    case_decide; [|by intros; exists x]. intros [= <-]. subst. eauto.
  - by apply (plain_id_eq m).
Qed.

(** A stream of the module under construction changes its format. *)
Lemma cinv_format w0 self cs w m s st t :
  cinv w0 self cs w m → w_streams w !! s = Some st → w_streams w0 !! s = None →
  cinv w0 self cs (put_stream s (s_setFormat t st) w) m.
Proof.
  intros [] Hs H0.
  assert (Hlive : ∀ r, is_Some (w_streams (put_stream s (s_setFormat t st) w) !! r)
                       ↔ is_Some (w_streams w !! r)).
  { intros r. rewrite lookup_put_stream. case_decide; [subst; rewrite Hs; naive_solver|done]. }
  split; try done.
  - rename ci_wf0 into Hw. split; [apply (wwf_modules w Hw)|..|apply (wwf_cbs w Hw)].
    + intros r st' a x. rewrite lookup_put_stream. case_decide; [|by apply (wwf_wired w Hw)].
      intros [= <-]. subst. by apply (wwf_wired w Hw r st).
    + intros r st' a. rewrite lookup_put_stream. case_decide; [|by apply (wwf_obs_live w Hw)].
      intros [= <-]. subst. by apply (wwf_obs_live w Hw r st).
    + intros a x n r Ha Hn. apply Hlive. by eapply (wwf_in_live w Hw).
    + pose proof (wwf_own w Hw) as Hown. split; [|apply (own_owned w Hown)|apply (own_mod_fresh w Hown)|].
      * intros a x n r Ha Hn. apply Hlive. by eapply (own_out_live w Hown).
      * intros r Hr%Hlive. by apply (own_str_fresh w Hown).
  - destruct ci_frame0 as [Hm Hb Hn Hst Hx]. split; try done.
    intros r st' Hr. rewrite lookup_put_stream. case_decide; [congruence|auto].
  - intros g Hg. destruct (ci_new0 g Hg) as (r & ? & ? & ? & Hgu). exists r. rewrite Hlive. eauto.
Qed.

Lemma cinv_input_type w0 self cs w m n t :
  cinv w0 self cs w m →
  ∃ w' m', setInputType self n t w = Ok (tt, w') ∧ cinv w0 self cs w' m'.
Proof.
  intros Hci. pose proof (ci_m _ _ _ _ _ Hci) as Hm. unfold setInputType.
  rewrite bind_run, (getm_run self m) by done. cbv beta iota.
  assert (getInput n m = None) as ->.
  { unfold getInput. destruct (find n (m_input_map m)) as [f|] eqn:E; [|done].
    apply (ci_in _ _ _ _ _ Hci) in E as [_ E]. unfold field. by rewrite (ci_null _ _ _ _ _ Hci f E). }
  rewrite bind_run. cbn [skip mret M_ret]. unfold getInputInfos.
  destruct (find n (m_input_infos m)) as [i|] eqn:Hi; [|by exists w, m].
  rewrite (mod_module_run self m) by done. eexists _, _. split; [done|].
  destruct (retype_wf m n i t (upd_m_input_infos (insert n (info_setType t i)))) as (? & ? & ?);
    [by eapply (wwf_modules w (ci_wf _ _ _ _ _ Hci))|by left|].
  by eapply cinv_reinfo.
Qed.

Lemma cinv_output_type w0 self cs w m n t :
  cinv w0 self cs w m →
  ∃ w' m', setOutputType self n t w = Ok (tt, w') ∧ cinv w0 self cs w' m'.
Proof.
  intros Hci. pose proof (ci_m _ _ _ _ _ Hci) as Hm. unfold setOutputType.
  rewrite bind_run, (getm_run self m) by done. cbv beta iota.
  assert (∃ w1, (match getOutput n m with Some s => mod_stream s (s_setFormat t) | None => skip end) w
                = Ok (tt, w1) ∧ cinv w0 self cs w1 m) as (w1 & Hrun & Hci1).
  { destruct (getOutput n m) as [s|] eqn:Hs; [|by exists w].
    unfold getOutput in Hs. destruct (find n (m_output_map m)) as [f|] eqn:E; [|done].
    apply (ci_out _ _ _ _ _ Hci) in E as [_ E].
    destruct (ci_new _ _ _ _ _ Hci f E) as (s' & Hs' & [st Hst] & H0 & _).
    unfold field in Hs. rewrite Hs' in Hs. injection Hs as ->.
    exists (put_stream s (s_setFormat t st) w). rewrite (mod_stream_run s st) by done.
    split; [done|]. by apply cinv_format. }
  rewrite bind_run, Hrun. unfold getOutputInfos.
  destruct (find n (m_output_infos m)) as [i|] eqn:Hi; [|by exists w1, m].
  rewrite (mod_module_run self m) by apply (ci_m _ _ _ _ _ Hci1). eexists _, _. split; [done|].
  destruct (retype_wf m n i t (upd_m_output_infos (insert n (info_setType t i)))) as (? & ? & ?);
    [by eapply (wwf_modules w (ci_wf _ _ _ _ _ Hci))|by right|].
  by eapply cinv_reinfo.
Qed.

(** ** Properties of the module under construction *)

Lemma new_property_ok v :
  val_okb v = true → ∃ p, new_property v = Ok p ∧ prop_wf p ∧ p_callbacks p = [].
Proof.
  intros Hv. destruct v; (eexists; split; [reflexivity|]); (split; [|done]);
    (split; [eexists; by split_and!|apply ordered_nil]).
Qed.

Lemma cinv_module_ok w0 self cs w m :
  cinv w0 self cs w m → props_wf self m ∧ thread_ok m.
Proof.
  intros []. split; [apply module_props_wf; split|].
  - by eapply (wwf_modules w).
  - by apply (wwf_cbs w).
  - exact (mwf_thread m (wwf_modules w ci_wf0 self m ci_m0)).
Qed.

(** Storing a property: the checker may remember it with its callbacks. *)
Lemma cinv_store w0 self cs w m k p props :
  cinv w0 self cs w m → prop_wf p → (∀ c, c ∈ p_callbacks p → c.2 = self) →
  (∀ j l, find j props = Some l →
     (j = k ∧ ∀ cb, is_Some (find cb (p_callbacks p)) → cb ∈ l)
     ∨ (j ≠ k ∧ find j (cs_props cs) = Some l)) →
  (k = "id" → ∃ id, core p = (MO_PROPERTY_STRING, Some (VString id), false, [])) →
  cinv w0 self (set_props cs props) (put_module self (store_property k p m) w) (store_property k p m).
Proof.
  intros Hci Hp Hc Hprops Hid. destruct (cinv_module_ok w0 self cs w m Hci) as [[Ho Hw Hcb] Ht].
  eapply cinv_props; [done|done| |done| |].
  - split; simpl; auto with movid; [|by apply cbs_self_store].
    intros j q [[_ ->]|[_ Hq]]%find_insert_Some; eauto.
  - unfold plain_id, id_view. simpl. destruct (decide (k = "id")) as [->|].
    + rewrite find_insert_eq. auto.
    + rewrite find_insert_ne by done. apply (ci_id _ _ _ _ _ Hci).
  - intros j l [[-> Hl]|[Hne Hj]]%Hprops; simpl; [rewrite find_insert_eq; eauto|].
    rewrite find_insert_ne by done. by apply (ci_props _ _ _ _ _ Hci).
Qed.

Lemma set_props_id cs : set_props cs (cs_props cs) = cs.
Proof. by destruct cs. Qed.

Lemma cinv_log w0 self cs w m level :
  cinv w0 self cs w m →
  ∃ w' m', log_id level self w = Ok (tt, w') ∧ cinv w0 self cs w' m'.
Proof.
  intros Hci. destruct (cinv_module_ok w0 self cs w m Hci) as [Hp Ht].
  destruct (log_id_run level self m w (ci_m _ _ _ _ _ Hci) Hp) as (m' & Hrun & Hm').
  eexists _, m'. split; [done|]. destruct (logged_ok self m m' Hm' Hp) as (Hpw & Hk & Hu & Htd & Htr).
  rewrite <-(set_props_id cs). eapply cinv_props; [done|apply Hk|done| | |].
  - unfold thread_ok. by rewrite Hu, Htd, Htr.
  - unfold plain_id. rewrite (kept_id m m' Hk). apply (ci_id _ _ _ _ _ Hci).
  - intros k l Hl. destruct (ci_props _ _ _ _ _ Hci k l Hl) as (p & Hpk & Hcb). exists p.
    split; [|done]. destruct Hm' as [->| ->]; [done|]. unfold property.
    destruct (find "id" (m_properties m)) eqn:E; [done|]. simpl.
    rewrite find_insert_ne; [done|]. congruence.
Qed.

Lemma cinv_on_property w0 self cs w m k l l' g :
  cinv w0 self cs w m → find k (cs_props cs) = Some l →
  (k = "id" → ∀ p p', g p = Ok p' → core p' = core p) →
  (∀ p, prop_wf p → (∀ cb, is_Some (find cb (p_callbacks p)) → cb ∈ l) →
    ∃ p', g p = Ok p' ∧ prop_wf p'
          ∧ (∀ c, c ∈ p_callbacks p' → c ∈ p_callbacks p ∨ c.2 = self)
          ∧ (∀ cb, is_Some (find cb (p_callbacks p')) → cb ∈ l')) →
  ∃ w' m', on_property self k g w = Ok (tt, w')
           ∧ cinv w0 self (set_props cs (insert k l' (cs_props cs))) w' m'.
Proof.
  intros Hci Hl Hcore Hg. destruct (ci_props _ _ _ _ _ Hci k l Hl) as (p & Hpk & Hcb).
  destruct (cinv_module_ok w0 self cs w m Hci) as [[Ho Hw Hcbs] Ht].
  destruct (Hg p (Hw k p Hpk) Hcb) as (p' & Hgp & Hp' & Hsub & Hcb').
  unfold on_property. rewrite bind_run, (getm_run self m) by apply (ci_m _ _ _ _ _ Hci).
  cbv beta iota. rewrite bind_run, Hpk. cbn [deref lift]. rewrite bind_run, Hgp. cbn [lift].
  eexists _, _. split; [done|]. eapply cinv_store; [done|done| | |].
  - intros c [Hc|Hc]%Hsub; [by eapply Hcbs|done].
  - intros j x [[-> ->]|[Hne Hx]]%find_insert_Some; auto.
  - intros ->. rewrite (Hcore eq_refl p p' Hgp). pose proof (ci_id _ _ _ _ _ Hci) as Hid.
    unfold plain_id, id_view in Hid. by rewrite Hpk in Hid.
Qed.

(** [this->properties[k] = new moProperty(v)]. *)
Lemma cinv_new_property w0 self cs w m k v :
  cinv w0 self cs w m → val_okb v = true → (k = "id" → type_of v = MO_PROPERTY_STRING) →
  ∃ p m', new_property v = Ok p ∧ mod_module self (store_property k p) w = Ok (tt, put_module self m' w)
        ∧ cinv w0 self (set_props cs (insert k [] (cs_props cs))) (put_module self m' w) m'.
Proof.
  intros Hci Hv Hid. destruct (new_property_ok v Hv) as (p & Hp & Hpw & Hpc).
  exists p, (store_property k p m). split; [done|].
  rewrite (mod_module_run self m) by apply (ci_m _ _ _ _ _ Hci). split; [done|].
  apply cinv_store; [done|done|by rewrite Hpc; intros c ?%elem_of_nil| |].
  - intros j l [[-> ->]|[Hne Hj]]%find_insert_Some; [left|by right]. split; [done|].
    rewrite Hpc. by intros cb [? ?].
  - intros Hk. destruct v; specialize (Hid Hk); try done. injection Hp as <-. by eexists.
Qed.

(** Attributes ([setMin], [setMax], [setChoices]). *)
Lemma cinv_attribute w0 self cs w m k g :
  cinv w0 self cs w m → is_Some (find k (cs_props cs)) →
  (∀ p, core (g p) = core p) →
  ∃ w' m', on_property self k (λ p, Ok (g p)) w = Ok (tt, w') ∧ cinv w0 self cs w' m'.
Proof.
  intros Hci [l Hl] Hg.
  destruct (cinv_on_property w0 self cs w m k l l (λ p, Ok (g p)) Hci Hl) as (w' & m' & Hrun & Hci').
  - intros _ p p' [= <-]. apply Hg.
  - intros p Hp Hcb. exists (g p). specialize (Hg p). unfold core in Hg. injection Hg as Ht Hv _ Hc.
    unfold prop_wf. rewrite Hv, Ht, Hc.
    split_and!; auto; apply Hp.
  - exists w', m'. split; [done|].
    destruct Hci'. split; try done. intros j x Hx. apply ci_props0. simpl.
    destruct (decide (k = j)) as [<-|]; [rewrite find_insert_eq; congruence|].
    by rewrite find_insert_ne.
Qed.

Lemma cinv_callback w0 self cs w m k cb l :
  cinv w0 self cs w m → find k (cs_props cs) = Some l → cb ∉ l → k ≠ "id" →
  ∃ w' m', on_property self k (addCallback cb self) w = Ok (tt, w')
           ∧ cinv w0 self (set_props cs (insert k (cb :: l) (cs_props cs))) w' m'.
Proof.
  intros Hci Hl Hcb Hk. apply (cinv_on_property w0 self cs w m k l); [done|done|done|].
  intros p Hp Hin. unfold addCallback. rewrite bool_decide_true.
  2: { destruct (find cb (p_callbacks p)) eqn:E; [|done]. destruct Hcb. apply Hin. by rewrite E. }
  cbn. eexists. split; [done|]. destruct Hp as [Hv Ho]. split_and!.
  - split; [done|]. simpl. by apply ordered_insert.
  - intros [c u] Hc. simpl in *. apply find_elem_ordered in Hc; [|by apply ordered_insert].
    apply find_insert_Some in Hc as [[-> ->]|[_ Hc]]; [by right|left].
    by apply find_Some_elem.
  - intros c [u Hu]. simpl in Hu. apply find_insert_Some in Hu as [[-> _]|[_ Hu]]; [by left|].
    right. apply Hin. eauto.
Qed.

Lemma asInteger_total p : prop_wf p → ∃ z, asInteger p = Ok z.
Proof.
  intros [(v & Hv & Ht & _) _]. unfold asInteger. rewrite Hv, <-Ht. destruct v; simpl; eauto.
Qed.

(** The property of the screen points has no callback yet: no class is asked. *)
Lemma safe_buildScreenPoints {V : Virtuals} a m p w :
  w_modules w !! a = Some m → find "screenPoints" (m_properties m) = Some p → p_callbacks p = [] →
  safe (buildScreenPoints a) w.
Proof.
  intros Hm Hp Hcb Hw.
  assert (Hread : ∀ k w m, world_wf w → w_modules w !! a = Some m → find "screenPoints" (m_properties m) = Some p →
    k ≠ "screenPoints" →
    ∃ q z m1, property_of a k w = Ok (q, put_module a m1 w) ∧ asInteger q = Ok z
      ∧ quiet w (put_module a m1 w) ∧ find "screenPoints" (m_properties m1) = Some p).
  { clear. intros k w m Hw Hm Hp Hk. destruct (property_wf k m (wwf_modules w Hw a m Hm)) as [Hq Hm1].
    destruct (asInteger_total _ Hq) as [z Hz]. exists (property k m).1, z, (property k m).2.
    split_and!; [by apply property_of_run|done| |].
    - eapply quiet_put; [done|apply property_kept|]. intros [_ Hc]. split; [done|]. by apply cbs_self_property.
    - unfold property. destruct (find k (m_properties m)); [done|]. simpl. by rewrite find_insert_ne. }
  destruct (Hread "cols" w m Hw Hm Hp ltac:(done)) as (q & mx & m1 & Hrun1 & Hmx & Hq1 & Hp1).
  destruct (Hread "rows" _ m1 (quiet_wf _ _ Hw Hq1) (put_module_lookup _ _ _) Hp1 ltac:(done))
    as (q2 & my & m2 & Hrun2 & Hmy & Hq2 & Hp2). rewrite put_module_twice in Hrun2, Hq2.
  set (w2 := put_module a m2 w) in *.
  assert (Hrest : safe (set_property_string a "screenPoints" (screen_points_text mx my);;
                        mod_module a notifyGui) w2).
  { apply safe_bind.
    - apply (safe_set_uncalled a m2 "screenPoints" (VString _)); try done; [apply put_module_lookup|].
      unfold property. by rewrite Hp2.
    - intros _ w3 _ Hq3. apply safe_flag; [|done..]. eapply quiet_live; [done|]. eexists.
      apply put_module_lookup. }
  destruct (Hrest (quiet_wf _ _ (quiet_wf _ _ Hw Hq1) Hq2)) as (r & w3 & Hrun3 & Hq3).
  exists r, w3. unfold buildScreenPoints.
  rewrite bind_run, Hrun1. cbv beta iota. rewrite bind_run, Hmx. cbn [lift].
  rewrite bind_run, Hrun2. cbv beta iota. rewrite bind_run, Hmy. cbn [lift].
  split; [done|]. etrans; [done|]. by trans w2.
Qed.

(** Every statement that passes the check runs and keeps the invariant. *)
Lemma run_step_spec {V : Virtuals} w0 self cs cs' step w m :
  cinv w0 self cs w m → check_step cs step = Some cs' →
  ∃ w' m', run_step self step w = Ok (tt, w') ∧ cinv w0 self cs' w' m'.
Proof.
  intros Hci Hcheck. pose proof (ci_m _ _ _ _ _ Hci) as Hm.
  destruct step; unfold run_step; try (rewrite (mod_module_run self m) by done).
  - injection Hcheck as <-. rewrite bind_run. cbn [createId].
    set (w1 := upd_w_idcount _ w). set (id := module_name +:+ _).
    destruct (cinv_new_property w0 self cs w1 m "id" (VString id)) as (p & m' & Hp & Hrun & Hci');
      [by eapply (cinv_same w0 self cs w)|done|done|].
    rewrite bind_run. change (new_string id EmptyString) with (new_property (VString id)).
    rewrite Hp. cbn [lift]. rewrite bind_run, Hrun. by apply (cinv_log w0 self _ _ m').
  - eexists _, _. split; [done|]. by apply (cinv_null_step w0 self cs).
  - rewrite bind_run, alloc_stream_run, (mod_module_run self m) by done.
    eexists _, _. split; [done|]. by apply (cinv_new_step w0 self cs).
  - eexists _, _. split; [done|]. by apply (cinv_input_step w0 self cs).
  - eexists _, _. split; [done|]. by apply (cinv_output_step w0 self cs).
  - simpl in Hcheck. unfold guard_ in Hcheck. destruct (val_okb v && _) eqn:Hv; [|done].
    injection Hcheck as <-. apply andb_true_iff in Hv as [Hv Hk%bool_decide_eq_true].
    destruct (cinv_new_property w0 self cs w m k v) as (p & m' & Hp & Hrun & Hci'); [done..|].
    rewrite bind_run, Hp. cbn [lift]. eauto.
  - simpl in Hcheck. unfold guard_ in Hcheck. case_bool_decide; [|done]. injection Hcheck as <-.
    by apply (cinv_attribute w0 self cs w m k).
  - simpl in Hcheck. unfold guard_ in Hcheck. case_bool_decide; [|done]. injection Hcheck as <-.
    by apply (cinv_attribute w0 self cs w m k).
  - simpl in Hcheck. unfold guard_ in Hcheck. case_bool_decide; [|done]. injection Hcheck as <-.
    by apply (cinv_attribute w0 self cs w m k).
  - simpl in Hcheck. unfold guard_ in Hcheck.
    destruct (find k (cs_props cs)) as [l|] eqn:Hl; [|done].
    destruct (_ && _) eqn:E; [|done]. rewrite andb_true_iff, !bool_decide_eq_true in E.
    destruct E. injection Hcheck as <-. by apply (cinv_callback w0 self cs w m).
  - injection Hcheck as <-. by eapply cinv_input_type.
  - injection Hcheck as <-. by eapply cinv_output_type.
  - injection Hcheck as <-. rewrite bind_run. cbn [gets]. rewrite bind_run. cbn [modify].
    set (w1 := upd_w_display_count _ w). set (id := "Movid" +:+ _).
    destruct (cinv_new_property w0 self cs w1 m "name" (VString id)) as (p & m' & Hp & Hrun & Hci');
      [by eapply (cinv_same w0 self cs w)|done|done|].
    rewrite bind_run. change (new_string id EmptyString) with (new_property (VString id)).
    rewrite Hp. cbn [lift]. eauto.
  - simpl in Hcheck. unfold guard_ in Hcheck. case_bool_decide as Hsp; [|done]. injection Hcheck as <-.
    destruct (ci_props _ _ _ _ _ Hci "screenPoints" [] Hsp) as (p & Hpk & Hcb).
    destruct (safe_buildScreenPoints self m p w) as ([] & w' & Hrun & Hq); [done|done| |apply Hci|].
    { destruct (p_callbacks p) as [|[cb u] l] eqn:E; [done|]. exfalso. apply (elem_of_nil cb), Hcb.
      exists u. rewrite ?E. simpl. by rewrite kcmp_refl. }
    destruct (cinv_quiet w0 self cs w w' m Hci Hq) as [m' Hci']. eauto.
Qed.

Lemma run_steps_spec {V : Virtuals} w0 self steps cs cs' w m :
  cinv w0 self cs w m → check_steps cs steps = Some cs' →
  ∃ w' m', for_each (run_step self) steps w = Ok (tt, w') ∧ cinv w0 self cs' w' m'.
Proof.
  revert cs w m. induction steps as [|step steps IH]; intros cs w m Hci Hcheck; simpl in *.
  { injection Hcheck as <-. by exists w, m. }
  destruct (check_step cs step) as [cs1|] eqn:E; [|done].
  destruct (run_step_spec w0 self cs cs1 step w m Hci E) as (w1 & m1 & Hrun & Hci1).
  rewrite bind_run, Hrun. by eapply IH.
Qed.

Lemma cinv_start w name description author capabilities :
  world_wf w →
  let m := new_module name description author capabilities (w_next w) in
  cinv w (w_next w) cs_start (add_module m w) m.
Proof.
  intros Hw m. pose proof (fresh_module w Hw) as Hfresh. split; try done.
  - apply add_module_wf; [done|apply new_module_wf|apply cbs_self_new|done..].
  - rewrite add_module_lookup. by rewrite decide_True.
  - split; [..|done|by eauto|simpl; lia].
    + intros a x Ha. exists x. split; [|done]. rewrite add_module_lookup, decide_False; [done|].
      intros <-. congruence.
    + intros a. rewrite add_module_lookup. case_decide; [by left|by right].
  - by intros f Hf%elem_of_nil.
  - by intros f Hf%elem_of_nil.
  - by intros f Hf%elem_of_nil.
  - intros k l. simpl. destruct (kcmp k "gui_feedback"), (kcmp k "use_thread"); intros Hl; simplify_eq;
      (eexists; split; [done|]); simpl; intros cb [x Hx]; try done;
      destruct (kcmp cb CB_gui_feedback) eqn:E; simplify_eq; apply kcmp_eq in E; subst; by left.
  - by exists EmptyString.
Qed.

(** A checked class builds a proper, unconnected module and touches no other
    object. *)
Lemma construct_spec {V : Virtuals} c w :
  class_ok c = true → world_wf w →
  ∃ w' m, construct c w = Ok (w_next w, w') ∧ world_wf w' ∧ w_modules w' !! w_next w = Some m
          ∧ (∀ n, getInput n m = None)
          ∧ (∀ n s, getOutput n m = Some s → w_streams w !! s = None)
          ∧ m_dtor_fields m = c_dtor c ∧ frame w (w_next w) w' ∧ plain_id m.
Proof.
  intros Hok Hw. unfold class_ok in Hok.
  destruct (check_steps cs_start (c_steps c)) as [cs|] eqn:Hcheck; [|done].
  rewrite andb_true_iff, bool_decide_eq_true, forallb_forall in Hok. destruct Hok as [Hnd Hdt].
  destruct (run_steps_spec w (w_next w) (c_steps c) cs_start cs _ _
    (cinv_start w (c_name c) (c_description c) (c_author c) (c_capabilities c) Hw) Hcheck)
    as (w1 & m & Hrun & Hci).
  pose proof Hci as []. set (m' := upd_m_dtor_fields (λ _, c_dtor c) m).
  exists (put_module (w_next w) m' w1), m'. split_and!.
  - unfold construct. rewrite bind_run. cbn [gets]. rewrite bind_run. cbn [modify].
    rewrite bind_run. unfold add_module in Hrun. rewrite Hrun. cbv beta iota.
    rewrite bind_run, (mod_module_run (w_next w) m) by done. done.
  - eapply put_module_wf; [done|done| |done|done|done|by apply (wwf_cbs w1 ci_wf0 _ m)].
    destruct (wwf_modules w1 ci_wf0 _ m ci_m0). split; try done. simpl.
    intros f Hf. apply ci_out_all0. apply list_elem_of_In in Hf. by apply Hdt, bool_decide_eq_true in Hf.
  - apply put_module_lookup.
  - intros n. unfold getInput, field. simpl. destruct (find n (m_input_map m)) as [f|] eqn:E; [|done].
    apply ci_in0 in E as [_ E]. by rewrite ci_null0.
  - intros n s. unfold getOutput, field. simpl. destruct (find n (m_output_map m)) as [f|] eqn:E; [|done].
    apply ci_out0 in E as [_ E]. destruct (ci_new0 f E) as (s' & -> & _ & H0 & _). by intros [= <-].
  - done.
  - apply frame_put; eauto.
  - by apply (plain_id_eq m).
Qed.

(** ** Properties *)

Lemma find_registered l db name c :
  find name (foldl (λ db c, registerModule c db) db l) = Some c → c ∈ l ∨ find name db = Some c.
Proof.
  revert db. induction l as [|d l IH]; intros db; simpl; [by right|].
  intros [Hc|Hc]%IH; [left; by right|].
  apply find_insert_Some in Hc as [[_ ->]|[_ Hc]]; [left; by left|by right].
Qed.

Lemma factory_find_ok name c : find name factory_init = Some c → class_ok c = true ∧ c ∈ registered.
Proof.
  intros [Hc|Hc]%find_registered; [|done]. split; [|done].
  pose proof registered_ok as Hok. rewrite forallb_forall in Hok. apply Hok. right.
  by apply list_elem_of_In.
Qed.

(** C31: creating a module by name either returns nothing and
    changes nothing, when the normalised name is not registered, or returns a
    fresh object of the registered class: the graph stays well formed, the new
    module is connected to nothing, its outputs are streams that did not exist
    before, its id is a writable string, and every other module keeps its ports, connections and id. *)
Theorem factory_create_correct (V : Virtuals) (name : string) (w : world) :
  world_wf w →
  match find (short_name name) factory_init with
  | None => factory_create factory_init name w = Ok (None, w)
  | Some c =>
      ∃ w' m, factory_create factory_init name w = Ok (Some (w_next w), w')
        ∧ c ∈ registered ∧ world_wf w' ∧ w_modules w' !! w_next w = Some m
        ∧ (∀ n, getInput n m = None)
        ∧ (∀ n s, getOutput n m = Some s → w_streams w !! s = None)
        ∧ m_dtor_fields m = c_dtor c ∧ plain_id m ∧ frame w (w_next w) w'
  end.
Proof.
  intros Hw. unfold factory_create.
  destruct (find (short_name name) factory_init) as [c|] eqn:E; [|done].
  apply factory_find_ok in E as [Hok Hreg].
  destruct (construct_spec c w Hok Hw) as (w' & m & Hrun & H). exists w', m.
  rewrite bind_run, Hrun. tauto.
Qed.

Lemma factory_create_correct_witness :
  ∃ w' m, factory_create (V := base_virtuals) factory_init "moSmoothModule" world0
          = Ok (Some 0, w') ∧ w_modules w' !! 0 = Some m ∧ getInput 0 m = None.
Proof.
  destruct (factory_create_correct base_virtuals "moSmoothModule" world0 world0_wf)
    as (w' & m & Hrun & _ & _ & Hm & Hin & _). eauto.
Defined.

(** Every registered module can be created under its name,
    under the class name of the sources and under either half of it, and the
    names listed are 35, without repetition. *)
Theorem factory_names :
  (∀ c, c ∈ registered →
     ∀ name, name ∈ [c_name c; "mo" +:+ c_name c; c_name c +:+ "Module"; "mo" +:+ c_name c +:+ "Module"] →
     find (short_name name) factory_init = Some c)
  ∧ NoDup (factory_list factory_init) ∧ length (factory_list factory_init) = 35.
Proof.
  split; [|split; [apply (bool_decide_unpack _); vm_compute; exact I|vm_compute; reflexivity]].
  assert (Hall : Forall (λ c, Forall (λ name, find (short_name name) factory_init = Some c)
    [c_name c; "mo" +:+ c_name c; c_name c +:+ "Module"; "mo" +:+ c_name c +:+ "Module"]) registered).
  { unfold registered. repeat (constructor; [repeat (constructor; [vm_compute; reflexivity|]); constructor|]).
    constructor. }
  intros c Hc. rewrite Forall_forall in Hall. specialize (Hall c Hc).
  by rewrite Forall_forall in Hall.
Qed.
