(* ===== verification/Pipeline.v ===== *)
(** [moPipeline] (src/src/moPipeline.{h,cpp}): an ordered list of modules, its
    configuration file parser and its serializer.

    A pipeline is itself a module (at address [pl_self]) that owns the modules
    of [pl_modules].  [parse] is written on the content of the file; a line is
    interpreted by [parse_line] the way the loop body does, with the data mode
    ([settext] blocks) as explicit state.  [parse_line] returns [false] where
    the code leaves through [PIPELINE_PARSE_ERROR]. *)
From S2P Require Import Prelude StdMap Numeric Utils Property Container Module World Wiring.
From S2P Require Import Lifecycle Catalogue Factory.

Record moPipeline := {
  pl_self : nat;
  pl_modules : list nat;
  pl_is_group : option bool;
  pl_error : string;
}.

(** [moPipeline::moPipeline]: [is_group] is left uninitialised. *)
Definition new_pipeline {V : Virtuals} : M moPipeline :=
  self ← construct moPipeline_class;
  mret {| pl_self := self; pl_modules := []; pl_is_group := None; pl_error := EmptyString |}.

Definition with_modules (l : list nat) (pl : moPipeline) : moPipeline :=
  {| pl_self := pl_self pl; pl_modules := l; pl_is_group := pl_is_group pl; pl_error := pl_error pl |}.
Definition with_error (e : string) (pl : moPipeline) : moPipeline :=
  {| pl_self := pl_self pl; pl_modules := pl_modules pl; pl_is_group := pl_is_group pl;
     pl_error := e |}.

(** ** Modules of a pipeline *)

Definition firstModule (pl : moPipeline) : M nat :=
  lift (assert_ (0 <? length (pl_modules pl)));; lift (deref (pl_modules pl !! 0)).
Definition lastModule (pl : moPipeline) : M nat :=
  lift (assert_ (0 <? length (pl_modules pl)));; lift (deref (last (pl_modules pl))).

Definition addElement (a : nat) (pl : moPipeline) : M moPipeline :=
  log_id MO_TRACE a;; log_id MO_TRACE (pl_self pl);;
  mod_module a (upd_m_owner (λ _, Some (pl_self pl)));;
  mret (with_modules (pl_modules pl ++ [a]) pl).

Definition removeElement (a : nat) (pl : moPipeline) : M moPipeline :=
  log_id MO_TRACE a;; log_id MO_TRACE (pl_self pl);;
  mret (with_modules (remove1 a (pl_modules pl)) pl).

Definition size (pl : moPipeline) : nat := length (pl_modules pl).
Definition getModule (index : nat) (pl : moPipeline) : M nat :=
  lift (assert_ (index <? size pl));; lift (deref (pl_modules pl !! index)).

(** [getModuleById]: the first module whose id is the one asked for. *)
Fixpoint find_by_id (mods : list nat) (id : string) : M (option nat) :=
  match mods with
  | [] => mret None
  | a :: mods =>
      p ← property_of a "id";
      s ← lift (asString p);
      if bool_decide (s = id) then mret (Some a) else find_by_id mods id
  end.
Definition getModuleById (id : string) (pl : moPipeline) : M (option nat) :=
  find_by_id (pl_modules pl) id.

(** *** The pipeline seen as a module *)

Definition pipeline_setInput (stream : option nat) (n : Z) (pl : moPipeline) : M unit :=
  a ← firstModule pl; setInput a stream n.
(** The code asks the last module, not the first one. *)
Definition pipeline_getInput (n : Z) (pl : moPipeline) : M (option nat) :=
  a ← lastModule pl; m ← getm a; mret (getInput n m).
Definition pipeline_getOutput (n : Z) (pl : moPipeline) : M (option nat) :=
  a ← lastModule pl; m ← getm a; mret (getOutput n m).
Definition pipeline_getInputCount (pl : moPipeline) : M Z :=
  a ← firstModule pl; m ← getm a; mret (getInputCount m).
Definition pipeline_getOutputCount (pl : moPipeline) : M Z :=
  a ← lastModule pl; m ← getm a; mret (getOutputCount m).
Definition pipeline_getInputInfos (n : Z) (pl : moPipeline) : M (option moDataStreamInfo) :=
  a ← firstModule pl; m ← getm a; mret (getInputInfos n m).
Definition pipeline_getOutputInfos (n : Z) (pl : moPipeline) : M (option moDataStreamInfo) :=
  a ← lastModule pl; m ← getm a; mret (getOutputInfos n m).

Definition setGroup (group : bool) (pl : moPipeline) : moPipeline :=
  {| pl_self := pl_self pl; pl_modules := pl_modules pl; pl_is_group := Some group;
     pl_error := pl_error pl |}.

(** ** Errors *)

Fixpoint any_error (mods : list nat) : M bool :=
  match mods with
  | [] => mret false
  | a :: mods => m ← getm a; if haveError m then mret true else any_error mods
  end.
Definition pipeline_haveError (pl : moPipeline) : M bool :=
  if bool_decide (pl_error pl ≠ EmptyString) then mret true else any_error (pl_modules pl).

(** [module->getLastError()]. *)
Definition module_getLastError (a : nat) : M string :=
  m ← getm a;
  r ← lift (getLastError m);
  modify (put_module a r.2);; mret r.1.

Fixpoint first_error (mods : list nat) : M string :=
  match mods with
  | [] => mret EmptyString
  | a :: mods => m ← getm a; if haveError m then module_getLastError a else first_error mods
  end.
Definition pipeline_getLastError (pl : moPipeline) : M string :=
  if bool_decide (pl_error pl ≠ EmptyString) then mret (pl_error pl)
  else first_error (pl_modules pl).

(** The reporting loop of [main] (src/src/movid.cpp):
    [while (pipeline->haveError()) LOG(MO_ERROR, ... getLastError())].  The
    result is [None] when the fuel ran out. *)
Fixpoint drain_errors (fuel : nat) (pl : moPipeline) : M (option (list string)) :=
  match fuel with
  | O => mret None
  | S fuel =>
      b ← pipeline_haveError pl;
      if b : bool then
        e ← pipeline_getLastError pl;
        r ← drain_errors fuel pl;
        mret (cons e <$> r)
      else mret (Some [])
  end.

Section Running.
Context {V : Virtuals}.

(** ** Running *)

Definition pipeline_start (pl : moPipeline) : M unit :=
  moModule_start (pl_self pl);; for_each v_start (pl_modules pl).
Definition pipeline_stop (pl : moPipeline) : M unit :=
  moModule_stop (pl_self pl);; for_each v_stop (pl_modules pl).
Definition pipeline_poll (pl : moPipeline) : M unit :=
  log_id MO_TRACE (pl_self pl);; for_each v_poll (pl_modules pl).

(** [clear]: stop everything, then delete the modules from the first on. *)
Definition clear (pl : moPipeline) : M moPipeline :=
  pipeline_stop pl;; for_each delete_module (pl_modules pl);; mret (with_modules [] pl).

(** ** The parser *)

(** Words of a line, as [istream_iterator<string>] reads them. *)
Definition blanks : string :=
  String " " (String "009" (String "010" (String "011" (String "012" (String "013" EmptyString))))).
Definition words (line : string) : list string := words_of blanks line.

Record pstate := {
  ps_pl : moPipeline;
  ps_datamode : bool;
  ps_lateset : list (string * string * string);
  ps_data_id : string;
  ps_oss : string;
}.
Definition ps_start (pl : moPipeline) : pstate :=
  {| ps_pl := pl; ps_datamode := false; ps_lateset := []; ps_data_id := EmptyString;
     ps_oss := EmptyString |}.
Definition with_pl (pl : moPipeline) (st : pstate) : pstate :=
  {| ps_pl := pl; ps_datamode := ps_datamode st; ps_lateset := ps_lateset st;
     ps_data_id := ps_data_id st; ps_oss := ps_oss st |}.
Definition with_late (l : list (string * string * string)) (st : pstate) : pstate :=
  {| ps_pl := ps_pl st; ps_datamode := ps_datamode st; ps_lateset := l;
     ps_data_id := ps_data_id st; ps_oss := ps_oss st |}.
Definition with_data (datamode : bool) (data_id oss : string) (st : pstate) : pstate :=
  {| ps_pl := ps_pl st; ps_datamode := datamode; ps_lateset := ps_lateset st;
     ps_data_id := data_id; ps_oss := oss |}.

(** [if (module->haveError()) PIPELINE_PARSE_ERROR("..." << getLastError())];
    the message is only built when errors are logged. *)
Definition error_check (a : nat) : M bool :=
  m ← getm a;
  if haveError m then
    lvl ← gets w_loglevel;
    (if (MO_ERROR <=? lvl)%Z then _ ← module_getLastError a; skip else skip);;
    mret true
  else mret false.

(** [property(k).setX()] on the property of a module. *)
Definition mod_property (a : nat) (k : string) (g : moProperty → moProperty) : M unit :=
  p ← property_of a k; mod_module a (store_property k (g p)).

(** One pass of the [for] over [data_lateset]: the first entry waiting for
    [data_id] is set and removed.  [Some true]: an entry was set ([have_set]),
    [Some false]: none left, [None]: parse error. *)
Fixpoint late_pass (tokens : list string) (data_id oss : string) (done todo : list (string * string * string))
    (pl : moPipeline) : M (option bool * list (string * string * string)) :=
  match todo with
  | [] => mret (Some false, done)
  | ((id, key), d) :: todo =>
      if bool_decide (d = data_id) then
        r ← getModuleById id pl;
        match r with
        | None =>
            lvl ← gets w_loglevel;
            (if (MO_ERROR <=? lvl)%Z then _ ← lift (deref (tokens !! 2)); skip else skip);;
            mret (None, done ++ (id, key, d) :: todo)
        | Some a =>
            set_property_string a key oss;;
            mod_property a key (setText true);;
            e ← error_check a;
            if e : bool then mret (None, done ++ (id, key, d) :: todo)
            else mret (Some true, done ++ todo)
        end
      else late_pass tokens data_id oss (done ++ [(id, key, d)]) todo pl
  end.

(** [do ... while (have_set)]: every round removes an entry. *)
Fixpoint late_loop (fuel : nat) (tokens : list string) (data_id oss : string)
    (late : list (string * string * string)) (pl : moPipeline)
    : M (bool * list (string * string * string)) :=
  match fuel with
  | O => mret (true, late)
  | S fuel =>
      r ← late_pass tokens data_id oss [] late pl;
      match r.1 with
      | None => mret (false, r.2)
      | Some true => late_loop fuel tokens data_id oss r.2 pl
      | Some false => mret (true, r.2)
      end
  end.

Definition parse_boundary (tokens : list string) (st : pstate) : M (bool * pstate) :=
  r ← (if ps_datamode st then
         r ← late_loop (S (length (ps_lateset st))) tokens (ps_data_id st) (ps_oss st)
               (ps_lateset st) (ps_pl st);
         mret (r.1, with_late r.2 (with_data false (ps_data_id st)
                 (if r.1 : bool then EmptyString else ps_oss st) st))
       else mret (true, st));
  if r.1 : bool then
    match tokens with
    | [_; data_id] => mret (true, with_data true data_id (ps_oss r.2) r.2)
    | _ => mret (true, r.2)
    end
  else mret r.

(** [pipeline create name id]. *)
Definition parse_create (db : database) (name id : string) (st : pstate) : M (bool * pstate) :=
  r ← getModuleById id (ps_pl st);
  match r with
  | Some _ => mret (false, st)
  | None =>
      r ← factory_create db name;
      match r with
      | None => mret (false, st)
      | Some a =>
          e ← error_check a;
          if e : bool then mret (false, st) else
          set_property_string a "id" id;;
          mod_property a "id" (setReadOnly true);;
          e ← error_check a;
          if e : bool then mret (false, st) else
          pl ← addElement a (ps_pl st);
          mret (true, with_pl pl st)
      end
  end.

(** [pipeline set id key \[value\]]. *)
Definition parse_set (id key value : string) (st : pstate) : M (bool * pstate) :=
  r ← getModuleById id (ps_pl st);
  match r with
  | None => mret (false, st)
  | Some a =>
      set_property_string a key value;;
      e ← error_check a;
      mret (negb e, st)
  end.

(** [pipeline connect out_id out_idx in_id in_idx]. *)
Definition parse_connect (out_id out_idx in_id in_idx : string) (st : pstate) : M (bool * pstate) :=
  r1 ← getModuleById out_id (ps_pl st);
  match r1 with
  | None => mret (false, st)
  | Some a1 =>
      r2 ← getModuleById in_id (ps_pl st);
      match r2 with
      | None => mret (false, st)
      | Some a2 =>
          m1 ← getm a1;
          setInput a2 (getOutput (atoi out_idx) m1) (atoi in_idx);;
          e1 ← error_check a1;
          if e1 : bool then mret (false, st) else
          e2 ← error_check a2;
          mret (negb e2, st)
      end
  end.

Definition parse_pipeline (db : database) (tokens : list string) (st : pstate) : M (bool * pstate) :=
  match tokens with
  | _ :: sub :: args =>
      if bool_decide (sub = "create") then
        match args with [name; id] => parse_create db name id st | _ => mret (false, st) end
      else if bool_decide (sub = "set") then
        match args with
        | [id; key; value] => parse_set id key value st
        | [id; key] => parse_set id key EmptyString st
        | _ => mret (false, st)
        end
      else if bool_decide (sub = "settext") then
        match args with
        | [id; key; d] => mret (true, with_late (ps_lateset st ++ [(id, key, d)]) st)
        | _ => mret (false, st)
        end
      else if bool_decide (sub = "connect") then
        match args with
        | [out_id; out_idx; in_id; in_idx] => parse_connect out_id out_idx in_id in_idx st
        | _ => mret (false, st)
        end
      else mret (false, st)
  | _ => mret (false, st)
  end.

(** [config key value]. *)
Definition parse_config (tokens : list string) (st : pstate) : M (bool * pstate) :=
  match tokens with
  | _ :: key :: value :: _ =>
      (if bool_decide (key = "delay") then modify (upd_w_config_delay (λ _, atoi value)) else skip);;
      mret (true, st)
  | _ => mret (false, st)
  end.

(** The body of the line loop. *)
Definition parse_line (db : database) (line : string) (st : pstate) : M (bool * pstate) :=
  match line with
  | EmptyString => mret (true, st)
  | String c _ =>
      if bool_decide (c = "#"%char) then mret (true, st)
      else
        let tokens := words line in
        if (length tokens <=? 1) && negb (ps_datamode st) then mret (false, st)
        else
          t0 ← lift (deref (tokens !! 0));
          if bool_decide (t0 = PIPELINE_BOUNDARY) then parse_boundary tokens st
          else if ps_datamode st then
            mret (true, with_data true (ps_data_id st) (ps_oss st +:+ line +:+ endl) st)
          else if bool_decide (t0 = "config") then parse_config tokens st
          else if bool_decide (t0 = "pipeline") then parse_pipeline db tokens st
          else mret (false, st)
  end.

Fixpoint parse_lines (db : database) (lines : list string) (st : pstate) : M (bool * pstate) :=
  match lines with
  | [] => mret (true, st)
  | line :: lines =>
      r ← parse_line db line st;
      if r.1 : bool then parse_lines db lines r.2 else mret r
  end.

(** [parse(filename)]; [content] is what the file holds, [None] when it cannot
    be opened.  [getline] yields the pieces between line feeds. *)
Definition parse (db : database) (content : option string) (pl : moPipeline) : M (bool * moPipeline) :=
  match content with
  | None => mret (false, with_error "unable to open file" pl)
  | Some text =>
      r ← parse_lines db (split_on "010" text) (ps_start pl);
      mret (r.1, ps_pl r.2)
  end.

(** ** Saving *)

Fixpoint concat_all (f : nat → M string) (mods : list nat) : M string :=
  match mods with
  | [] => mret EmptyString
  | a :: mods => s ← f a; rest ← concat_all f mods; mret (s +:+ rest)
  end.

Definition module_serialize (do_data : bool) (a : nat) : M string :=
  m ← getm a;
  r ← lift (serializeCreation do_data m);
  modify (put_module a r.2);; mret r.1.

Definition rule : string := "# ================================================================".

(** [moPipeline::serializeCreation]; [date] is what [strftime] wrote. *)
Definition pipeline_serializeCreation (date : string) (pl : moPipeline) : M string :=
  creations ← concat_all (module_serialize false) (pl_modules pl);
  connections ← concat_all serializeConnections (pl_modules pl);
  data ← concat_all (module_serialize true) (pl_modules pl);
  mret (rule +:+ endl +:+ "# PIPELINE AUTOGENERATED on " +:+ date +:+ endl +:+ rule +:+ endl
          +:+ endl +:+ creations +:+ connections +:+ data).
End Running.
