(* ===== verification/PipelineSafe.v ===== *)
(** What the pipeline guarantees: looking modules up by id, parsing any file,
    and reporting errors.

    [ids_ok] says that the modules of a pipeline are live objects with distinct
    read-only ids; [parse_inv] adds the wiring invariant.  Every command of the
    configuration language keeps [parse_inv], so whatever the file holds, the
    parser leaves a consistent pipeline behind. *)
From S2P Require Import Prelude StdMap Numeric Utils Property Container Module World Wiring.
From S2P Require Import Lifecycle Catalogue Factory Pipeline.

(** ** Ids *)

Definition fixed_id (m : moModule) (id : string) : Prop :=
  ∃ cbs, id_view m = (MO_PROPERTY_STRING, Some (VString id), true, cbs).

Definition id_is (w : world) (a : nat) (id : string) : Prop :=
  ∃ m, w_modules w !! a = Some m ∧ fixed_id m id.

Definition ids_ok (pl : moPipeline) (w : world) (ids : list string) : Prop :=
  Forall2 (id_is w) (pl_modules pl) ids ∧ NoDup ids.

(** Modules of [w] still exist and have the same id and the same ports. *)
Definition stable (w w' : world) : Prop :=
  ∀ a m, w_modules w !! a = Some m → ∃ m', w_modules w' !! a = Some m' ∧ id_view m' = id_view m ∧ shape m' = shape m.

#[export] Instance stable_preorder : PreOrder stable.
Proof.
  split; [intros w a m; eauto|]. intros w1 w2 w3 H12 H23 a m Hm.
  destruct (H12 a m Hm) as (m2 & Hm2 & E2 & S2). destruct (H23 a m2 Hm2) as (m3 & Hm3 & E3 & S3).
  exists m3. split_and!; congruence.
Qed.

Lemma quiet_stable w w' : quiet w w' → stable w w'.
Proof.
  intros Hq a m Hm. destruct (q_mod w w' Hq a m Hm) as (m' & Hm' & Hk & _).
  exists m'. split_and!; [done|apply Hk|]. pose proof (kept_ports m m' Hk) as E. unfold ports in E. unfold shape. congruence.
Qed.
Lemma stable_alive w w' : stable w w' → alive w w'.
Proof. intros Hs a m Hm. destruct (Hs a m Hm) as (m' & ? & _ & ?). eauto. Qed.
Lemma frame_stable w0 self w : frame w0 self w → stable w0 w.
Proof.
  intros Hf a m Hm. destruct (fr_mod w0 self w Hf a m Hm) as (m' & Hm' & Hk).
  exists m'. split_and!; [done|apply Hk|]. pose proof (kept_ports m m' Hk) as E. unfold ports in E. unfold shape. congruence.
Qed.

Lemma stable_id w w' a id : stable w w' → id_is w a id → id_is w' a id.
Proof.
  intros Hs (m & Hm & cbs & Hid). destruct (Hs a m Hm) as (m' & Hm' & E & _).
  exists m'. split; [done|]. exists cbs. congruence.
Qed.
Lemma stable_live w w' a : stable w w' → is_Some (w_modules w !! a) → is_Some (w_modules w' !! a).
Proof. intros Hs [m Hm]. destruct (Hs a m Hm) as (m' & ? & _). eauto. Qed.
Lemma stable_ids pl w w' ids : stable w w' → ids_ok pl w ids → ids_ok pl w' ids.
Proof.
  intros Hs [Hf Hnd]. split; [|done]. eapply Forall2_impl; [done|]. intros. by eapply stable_id.
Qed.
Lemma id_is_live w a id : id_is w a id → is_Some (w_modules w !! a).
Proof. intros (m & Hm & _). eauto. Qed.

Lemma fixed_id_property m id :
  fixed_id m id → property "id" m = ((property "id" m).1, m) ∧ asString (property "id" m).1 = Ok id
  ∧ isReadOnly (property "id" m).1 = true.
Proof.
  intros [cbs Hid]. unfold id_view in Hid. unfold property.
  destruct (find "id" (m_properties m)) as [p|]; [|done]. simpl.
  unfold core in Hid. injection Hid as Ht Hv Hr Hc. split_and!; [done| |done].
  unfold asString. by rewrite Hv, Ht.
Qed.

(** Looking up an id in a list of modules with known ids. *)
Lemma find_by_id_spec w mods ids id :
  Forall2 (id_is w) mods ids →
  ∃ r, find_by_id mods id w = Ok (r, w) ∧
    match r with
    | Some a => ∃ i, mods !! i = Some a ∧ ids !! i = Some id ∧ ∀ j, j < i → ids !! j ≠ Some id
    | None => id ∉ ids
    end.
Proof.
  induction 1 as [|a i mods ids Hid Hall (r & IH & Hr)]; simpl.
  { exists None. split; [done|apply not_elem_of_nil]. }
  destruct Hid as (m & Hm & Hfix). destruct (fixed_id_property m i Hfix) as (Hp & Hs & _).
  rewrite bind_run, (property_of_run a "id" m) by done. cbv beta iota.
  rewrite Hp. simpl. rewrite put_module_id by done. rewrite bind_run, Hs. cbn [lift].
  case_bool_decide as E.
  - subst. exists (Some a). split; [done|]. exists 0. split_and!; [done|done|lia].
  - exists r. split; [done|]. destruct r as [b|].
    + destruct Hr as (k & Hk & Hik & Hmin). exists (S k). split_and!; [done|done|].
      intros [|j] Hj; simpl; [congruence|]. apply Hmin. lia.
    + apply not_elem_of_cons. split; [congruence|done].
Qed.

(** ** Commands that return *)

(** [x] returns from [w] in a well-formed world where modules and ids are
    still there. *)
Definition good {A} (x : M A) (w : world) (Q : A → world → Prop) : Prop :=
  ∃ r w', x w = Ok (r, w') ∧ world_wf w' ∧ stable w w' ∧ Q r w'.

Lemma good_ret {A} (a : A) w (Q : A → world → Prop) : world_wf w → Q a w → good (mret a) w Q.
Proof. intros. by exists a, w. Qed.

Lemma good_bind {A B} (x : M A) (k : A → M B) w (P : A → world → Prop) Q :
  good x w P → (∀ r w', world_wf w' → stable w w' → P r w' → good (k r) w' Q) →
  good (x ≫= k) w Q.
Proof.
  intros (r & w1 & Hrun & Hw1 & Hs1 & HP) Hk.
  destruct (Hk r w1 Hw1 Hs1 HP) as (r2 & w2 & Hrun2 & Hw2 & Hs2 & HQ).
  exists r2, w2. rewrite bind_run, Hrun. split_and!; [done|done|by trans w1|done].
Qed.

(** The same when the rest is only stable as seen from the start. *)
Lemma good_bind_from {A B} (x : M A) (k : A → M B) w (P : A → world → Prop) Q :
  good x w P →
  (∀ r w1, world_wf w1 → stable w w1 → P r w1 →
     ∃ r2 w2, k r w1 = Ok (r2, w2) ∧ world_wf w2 ∧ stable w w2 ∧ Q r2 w2) →
  good (x ≫= k) w Q.
Proof.
  intros (r & w1 & Hrun & Hw1 & Hs1 & HP) Hk.
  destruct (Hk r w1 Hw1 Hs1 HP) as (r2 & w2 & Hrun2 & Hw2 & Hs2 & HQ).
  exists r2, w2. by rewrite bind_run, Hrun.
Qed.

Lemma good_run {A B} (x : M A) (k : A → M B) r w Q :
  x w = Ok (r, w) → good (k r) w Q → good (x ≫= k) w Q.
Proof. intros Hx (r2 & w2 & Hrun & H). exists r2, w2. by rewrite bind_run, Hx. Qed.

Lemma good_from {A} (x : M A) w w1 (Q : A → world → Prop) :
  stable w w1 → good x w1 Q → ∃ r2 w2, x w1 = Ok (r2, w2) ∧ world_wf w2 ∧ stable w w2 ∧ Q r2 w2.
Proof. intros Hs (r & w2 & Hrun & Hw2 & Hs2 & HQ). exists r, w2. split_and!; try done. by trans w1. Qed.

Lemma good_safe {A} (x : M A) w : world_wf w → safe x w → good x w (λ _ w', quiet w w').
Proof.
  intros Hw Hx. destruct (Hx Hw) as (r & w' & Hrun & Hq). exists r, w'.
  split_and!; [done|by eapply quiet_wf|by apply quiet_stable|done].
Qed.

Lemma good_getById pl w ids id :
  world_wf w → ids_ok pl w ids →
  good (getModuleById id pl) w (λ r w', w' = w ∧
    match r with Some a => a ∈ pl_modules pl ∧ id_is w a id | None => id ∉ ids end).
Proof.
  intros Hw [Hf _]. destruct (find_by_id_spec w (pl_modules pl) ids id Hf) as (r & Hrun & Hr).
  exists r, w. split_and!; [done|done|done|done|]. destruct r as [a|]; [|done].
  destruct Hr as (i & Hi & Hid & _). split; [by eapply list_elem_of_lookup_2|].
  by eapply (Forall2_lookup_lr _ _ _ i a id) in Hf.
Qed.

(** [getLastError] and the error tests of the parser. *)
Lemma module_getLastError_run a m w :
  world_wf w → w_modules w !! a = Some m →
  ∃ s m', module_getLastError a w = Ok (s, put_module a m' w) ∧ haveError m' = false
          ∧ quiet w (put_module a m' w).
Proof.
  intros Hw Hm. unfold module_getLastError. rewrite bind_run, (getm_run a m) by done. cbv beta iota.
  set (m1 := upd_m_is_error (λ _, false) m).
  assert (module_wf m ∧ cbs_self a m) as Hwf
    by (split; [by eapply (wwf_modules w Hw)|by apply (wwf_cbs w Hw)]).
  assert (Hwf1 : module_wf m1 ∧ cbs_self a m1)
    by (apply (flag_wf a m); [done|done|exact (mwf_thread m (proj1 Hwf))|done]).
  destruct (property_props_wf a "id" m1 (module_props_wf a m1 Hwf1)) as (Hp2 & Hpw & _).
  destruct (asString_total _ Hpw) as [s Hs].
  assert (getLastError m = Ok ("<" +:+ s +:+ "> " +:+ m_error_msg m, (property "id" m1).2)) as E.
  { unfold getLastError. fold m1. rewrite (surjective_pairing (property "id" m1)), Hs. simpl.
    do 3 f_equal. unfold property. by destruct (find "id" (m_properties m1)). }
  eexists _, (property "id" m1).2. split_and!.
  - rewrite bind_run, E. cbn [lift]. rewrite bind_run. done.
  - unfold property. by destruct (find "id" (m_properties m1)).
  - eapply quiet_put; [done| |].
    + trans m1; [by apply kept_flags|]. apply property_kept.
    + intros _. apply (rebuild_wf a m1); [apply property_ports|done| |done].
      unfold thread_ok. destruct (property_flags "id" m1) as (-> & -> & ->).
      exact (mwf_thread m1 (proj1 Hwf1)).
Qed.

Lemma safe_module_getLastError a w : is_Some (w_modules w !! a) → safe (module_getLastError a) w.
Proof.
  intros [m Hm] Hw. destruct (module_getLastError_run a m w Hw Hm) as (s & m' & Hrun & _ & Hq). eauto.
Qed.

Lemma safe_error_check a w : is_Some (w_modules w !! a) → safe (error_check a) w.
Proof.
  intros Ha. apply safe_bind; [by apply safe_getm|]. intros m w1 _ Hq.
  destruct (haveError m); [|apply safe_ret]. apply safe_bind; [apply safe_gets|].
  intros lvl w2 _ Hq2. apply safe_bind; [|intros; apply safe_ret].
  destruct (_ <=? _)%Z; [|apply safe_ret]. apply safe_bind; [|intros; apply safe_ret].
  apply safe_module_getLastError. eapply quiet_live; [|done]. by trans w1.
Qed.

(** [property(k).setText(true)] and the like. *)
Lemma safe_mod_property a k g w :
  is_Some (w_modules w !! a) → (∀ p, core (g p) = core p) → safe (mod_property a k g) w.
Proof.
  intros Ha Hg Hw. destruct (safe_property a k w Ha Hw) as (p & w1 & m1 & Hrun & Hq & Hp & Hc & Hm1 & Hf).
  exists tt, (put_module a (store_property k (g p) m1) w1). unfold mod_property.
  rewrite bind_run, Hrun. rewrite (mod_module_run a m1) by done. split; [done|].
  trans w1; [done|]. specialize (Hg p). unfold core in Hg. injection Hg as Ht Hv Hr Hcb.
  eapply quiet_put; [done| |].
  - apply (store_kept k p); [done|]. intros _. unfold core. congruence.
  - intros [Hm Hcbs]. split.
    + apply store_property_wf; [done|]. unfold prop_wf. rewrite Ht, Hv, Hcb. apply Hp.
    + apply cbs_self_store; [done|]. by rewrite Hcb.
Qed.

Lemma stable_put a m m' w w' :
  w_modules w !! a = Some m → id_view m' = id_view m → shape m' = shape m →
  (∀ b, w_modules w' !! b = if decide (a = b) then Some m' else w_modules w !! b) → stable w w'.
Proof.
  intros Hm Hid Hsh Hw' b x Hx. rewrite Hw'. case_decide; [|eauto]. subst. exists m'.
  split_and!; [done|congruence..].
Qed.

(** Connecting keeps modules and ids. *)
Lemma good_setInput a m stream n w :
  world_wf w → w_modules w !! a = Some m →
  (∀ s, stream = Some s → is_Some (w_streams w !! s)) →
  good (setInput a stream n) w (λ _ w', True).
Proof.
  intros Hw Hm Hs. pose proof (wwf_modules w Hw a m Hm) as Hwf.
  destruct (find n (m_input_map m)) as [f|] eqn:Hn.
  2: { set (m' := setError "Invalid input index" m). exists tt, (put_module a m' w). split_and!; [..|done].
       - unfold setInput. rewrite bind_run, (getm_run a m), Hn by done. by rewrite (mod_module_run a m).
       - eapply put_module_wf; eauto using setError_wf. by apply (wwf_cbs w Hw a m).
       - apply (stable_put a m m'); [done|done|done|apply lookup_put_module]. }
  assert (Hd : world_wf (detach a m f w)) by (by eapply detach_wf).
  assert (Hda : w_modules (detach a m f w) !! a = Some (set_field f None m))
    by (rewrite detach_modules; by rewrite decide_True).
  assert (Hsd : stable w (detach a m f w))
    by (apply (stable_put a m (set_field f None m)); [done|done|done|apply detach_modules]).
  destruct stream as [s|].
  2: { exists tt, (detach a m f w). split_and!; [by apply (setInput_none a m n f)|done..]. }
  destruct (keys_find_Some _ (m_input_infos m) n f (mwf_in_keys m Hwf) Hn) as [i Hi].
  destruct (detach_stream_live a m f w s (Hs s eq_refl)) as (st0 & st & _ & Hst & _).
  eexists tt, _. split; [by apply (setInput_some a m n f i s st w)|].
  destruct (accepts i (s_format st)).
  - split_and!; [|trans (detach a m f w); [done|]|done].
    + eapply attach_wf; eauto. apply field_set_eq.
    + apply (stable_put a (set_field f None m) (set_field f (Some s) (set_field f None m))
        (detach a m f w)); [done|done|done|]. intros b.
      unfold attach. by rewrite lookup_put_module.
  - split_and!; [|trans (detach a m f w); [done|]|done].
    + eapply put_module_wf; eauto; [|by apply (wwf_cbs w Hw a m)].
      apply setError_wf. by apply (wwf_modules _ Hd a).
    + eapply (stable_put a (set_field f None m) _ (detach a m f w)); [done| | |apply lookup_put_module]; done.
Qed.

(** ** Commands that return, or stop in a callback of a class *)

(** The methods a change of a property calls. *)
Definition on_set : list vkind := [KGuiFeedback; KCallback].

Definition fair {V : Virtuals} {A} (x : M A) (w : world) (Q : A → world → Prop) : Prop :=
  yields (blamed on_set) x w (λ r w', world_wf w' ∧ stable w w' ∧ Q r w').

Section Parser.
Context {V : Virtuals} {VL : VirtualLaws V}.

Lemma fair_good {A} (x : M A) w (Q : A → world → Prop) : good x w Q → fair x w Q.
Proof. intros (r & w' & Hrun & H). by eapply yields_run. Qed.
Lemma fair_ret {A} (a : A) w (Q : A → world → Prop) : world_wf w → Q a w → fair (mret a) w Q.
Proof. intros. by apply fair_good, good_ret. Qed.
Lemma fair_bind {A B} (x : M A) (k : A → M B) w (P : A → world → Prop) Q :
  fair x w P → (∀ r w', world_wf w' → stable w w' → P r w' → fair (k r) w' Q) →
  fair (x ≫= k) w Q.
Proof.
  intros Hx Hk. eapply (yields_bind _); [exact Hx|]. intros r w1 _ (Hw1 & Hs1 & HP).
  split; [by apply stable_alive|]. eapply yields_impl; [by apply Hk|done|].
  intros r2 w2 _ (? & ? & ?). split_and!; [done|by trans w1|done].
Qed.
Lemma fair_run {A B} (x : M A) (k : A → M B) r w Q :
  x w = Ok (r, w) → fair (k r) w Q → fair (x ≫= k) w Q.
Proof. intros Hx Hk. by eapply (yields_after _). Qed.
Lemma fair_impl {A} (x : M A) w (Q Q' : A → world → Prop) :
  fair x w Q → (∀ r w', Q r w' → Q' r w') → fair x w Q'.
Proof. intros Hx HQ. eapply yields_impl; [exact Hx|done|]. intros r w' _ (? & ? & ?). auto. Qed.

(** ** The parser's invariant *)

Definition parse_inv (st : pstate) (w : world) (ids : list string) : Prop :=
  is_Some (w_modules w !! pl_self (ps_pl st)) ∧ ids_ok (ps_pl st) w ids.

(** The ids in use after a command: the old ones, possibly followed by one. *)
Definition parsed (ids : list string) (st : pstate) (r : bool * pstate) (w : world) : Prop :=
  ps_lateset r.2 = ps_lateset st ∧ ∃ ids', ids `prefix_of` ids' ∧ parse_inv r.2 w ids'.

Lemma parse_inv_stable st w w' ids : stable w w' → parse_inv st w ids → parse_inv st w' ids.
Proof. intros Hs [Hl Hi]. split; [by eapply stable_live|by eapply stable_ids]. Qed.

Lemma parsed_ret b st w ids : world_wf w → parse_inv st w ids → good (mret (b, st)) w (parsed ids st).
Proof. intros Hw Hi. apply good_ret; [done|]. split; [done|]. by exists ids. Qed.

Lemma fair_set w a id k value :
  world_wf w → id_is w a id → fair (set_property_string a k value) w (λ _ w', quiet w w').
Proof.
  intros Hw Hid.
  assert (Hg : guarded (blamed on_set) (set_property_string a k value) w).
  { apply (guarded_set_property on_set a k (VString value));
      [by left|by right; left|by eapply id_is_live|done|done|].
    intros -> m Hm. destruct Hid as (m' & Hm' & cbs & Hv). simplify_eq. by rewrite Hv. }
  eapply yields_impl; [by apply Hg|done|]. intros r w' _ Hq.
  split_and!; [by eapply quiet_wf|by apply quiet_stable|done].
Qed.

Lemma parse_set_fair st w ids id key value :
  world_wf w → parse_inv st w ids → fair (parse_set id key value st) w (parsed ids st).
Proof.
  intros Hw Hi. eapply fair_bind; [by apply fair_good, good_getById, Hi|].
  intros r w1 _ _ [-> Hr]. destruct r as [a|]; [|by apply fair_good, parsed_ret].
  destruct Hr as [_ Hid]. eapply fair_bind; [by eapply fair_set|].
  intros ? w2 Hw2 Hs2 Hq2. apply fair_good. eapply good_bind.
  { apply good_safe; [done|]. apply safe_error_check. eapply stable_live; [done|]. by eapply id_is_live. }
  intros e w3 Hw3 Hs3 _. apply parsed_ret; [done|].
  eapply parse_inv_stable; [|done]. by trans w2.
Qed.

Lemma parse_connect_good st w ids out_id out_idx in_id in_idx :
  world_wf w → parse_inv st w ids →
  good (parse_connect out_id out_idx in_id in_idx st) w (parsed ids st).
Proof.
  intros Hw Hi. eapply good_bind; [by apply good_getById, Hi|].
  intros r1 w1 _ _ [-> Hr1]. destruct r1 as [a1|]; [|by apply parsed_ret].
  eapply good_bind; [by apply good_getById, Hi|].
  intros r2 w2 _ _ [-> Hr2]. destruct r2 as [a2|]; [|by apply parsed_ret].
  destruct Hr1 as [_ H1], Hr2 as [_ H2].
  destruct H1 as (m1 & Hm1 & _), H2 as (m2 & Hm2 & _).
  eapply good_bind with (P := λ r w', r = m1 ∧ w' = w).
  { exists m1, w. rewrite (getm_run a1 m1) by done. by split_and!. }
  intros ? ? _ _ [-> ->]. eapply good_bind.
  { apply (good_setInput a2 m2); [done|done|]. intros s Hs.
    by apply (own_out_live w (wwf_own w Hw) a1 m1 (atoi out_idx)). }
  intros ? w3 Hw3 Hs3 _. eapply good_bind.
  { apply good_safe; [done|]. apply safe_error_check. eapply stable_live; eauto. }
  intros e1 w4 Hw4 Hs4 _. assert (stable w w4) by (by trans w3).
  destruct e1; [apply parsed_ret; [done|by eapply parse_inv_stable]|].
  eapply good_bind.
  { apply good_safe; [done|]. apply safe_error_check. eapply stable_live; eauto. }
  intros e2 w5 Hw5 Hs5 _. apply parsed_ret; [done|].
  eapply parse_inv_stable; [|done]. by trans w4.
Qed.

Lemma parse_config_good st w ids tokens :
  world_wf w → parse_inv st w ids → good (parse_config tokens st) w (parsed ids st).
Proof.
  intros Hw Hi. unfold parse_config. destruct tokens as [|t0 [|key [|value rest]]];
    try by apply parsed_ret.
  assert (Hq : ∀ z, quiet w (upd_w_config_delay (λ _, z) w)) by (intros; by apply quiet_same).
  case_bool_decide.
  - exists (true, st), (upd_w_config_delay (λ _, atoi value) w). split_and!; [done|..].
    + by eapply quiet_wf.
    + by apply quiet_stable.
    + split; [done|]. exists ids. split; [done|].
      eapply parse_inv_stable; [by apply quiet_stable|done].
  - by apply parsed_ret.
Qed.

(** *** Creating a module *)

(** [module->property("id").set(id)] then [setReadOnly(true)] on a new module. *)
Lemma fix_id_spec a m id w :
  world_wf w → w_modules w !! a = Some m → plain_id m →
  ∃ w', (set_property_string a "id" id;; mod_property a "id" (setReadOnly true)) w = Ok (tt, w')
        ∧ world_wf w' ∧ (∀ b, b ≠ a → w_modules w' !! b = w_modules w !! b) ∧ id_is w' a id.
Proof.
  intros Hw Hm [old Hid].
  assert (module_wf m ∧ cbs_self a m) as Hwf
    by (split; [by eapply (wwf_modules w Hw)|by apply (wwf_cbs w Hw)]).
  set (p := (property "id" m).1). set (m1 := (property "id" m).2).
  assert (core p = (MO_PROPERTY_STRING, Some (VString old), false, [])) as Hp.
  { rewrite <-Hid. unfold p, property, id_view. by destruct (find "id" (m_properties m)). }
  unfold core in Hp. injection Hp as Ht Hv Hr Hc.
  set (q := with_val (Some (VString id)) p).
  assert (set_value MO_PROPERTY_STRING (VString id) p = Ok (q, [])) as Hset.
  { unfold set_value, isReadOnly, autoconvert. rewrite Hr, Ht. simpl. do 2 f_equal.
    unfold fireCallback. simpl. done. }
  set (m2 := store_property "id" q m1).
  assert (find "id" (m_properties m2) = Some q) as Hq by apply find_insert_eq.
  set (m3 := store_property "id" (setReadOnly true q) m2).
  exists (put_module a m3 w). split_and!.
  - rewrite bind_run. unfold set_property_string, set_property.
    rewrite bind_run, (property_of_run a "id" m) by done. fold p m1. cbv beta iota.
    rewrite bind_run, Hset. cbn [lift fst snd].
    rewrite bind_run, (mod_module_run a m1) by apply put_module_lookup. rewrite put_module_twice.
    cbn [for_each skip mret M_ret]. unfold mod_property.
    rewrite bind_run, (property_of_run a "id" m2) by apply put_module_lookup. cbv beta iota.
    assert (property "id" m2 = (q, m2)) as -> by (unfold property; by rewrite Hq).
    cbn [fst snd]. rewrite (mod_module_run a m2) by apply put_module_lookup.
    by rewrite !put_module_twice.
  - destruct (property_wf "id" m (proj1 Hwf)) as [Hpw Hm1]. fold p in Hpw. fold m1 in Hm1.
    assert (prop_wf q) as Hqw by (by apply with_val_wf).
    assert (ports m3 = ports m) as Hports by apply (property_ports "id" m).
    eapply (put_module_wf a m); [done|done| |by injection Hports| | |].
    + apply store_property_wf; [by apply store_property_wf|]. destruct Hqw. by split.
    + intros n. by apply ports_getInput.
    + intros n. by apply ports_getOutput.
    + apply cbs_self_store; [apply cbs_self_store|]; simpl; rewrite ?Hc;
        try (by intros c ?%elem_of_nil). apply (cbs_self_property a "id" m), Hwf.
  - intros b Hb. rewrite lookup_put_module. by rewrite decide_False.
  - exists m3. split; [apply put_module_lookup|]. exists []. unfold id_view. simpl.
    rewrite find_insert_eq. unfold core. simpl. by rewrite Ht, Hc.
Qed.

Lemma addElement_good a pl w :
  world_wf w → is_Some (w_modules w !! a) → is_Some (w_modules w !! pl_self pl) →
  good (addElement a pl) w (λ r w', r = with_modules (pl_modules pl ++ [a]) pl).
Proof.
  intros Hw Ha Hself.
  destruct (safe_bind (log_id MO_TRACE a) (λ _, log_id MO_TRACE (pl_self pl);;
    mod_module a (upd_m_owner (λ _, Some (pl_self pl)))) w) as (r & w' & Hrun & Hq); [..|done|].
  - by apply safe_log.
  - intros _ w1 _ Hq1. apply safe_bind; [apply safe_log; by eapply quiet_live|].
    intros _ w2 _ Hq2. apply safe_flag; [|done..]. eapply quiet_live; [|done]. by trans w1.
  - unfold addElement. exists (with_modules (pl_modules pl ++ [a]) pl), w'.
    split_and!; [|by eapply quiet_wf|by apply quiet_stable|done].
    rewrite bind_run in Hrun. rewrite bind_run.
    destruct (log_id MO_TRACE a w) as [[[] w1]|]; [|done].
    rewrite bind_run in Hrun. rewrite bind_run.
    destruct (log_id MO_TRACE (pl_self pl) w1) as [[[] w2]|]; [|done].
    rewrite bind_run, Hrun. done.
Qed.

(** The end of [create]: the module joins the pipeline under its new id. *)
Lemma register_good a id st w ids :
  world_wf w → parse_inv st w ids → id ∉ ids → id_is w a id →
  good (e ← error_check a; if e : bool then mret (false, st) else
        pl ← addElement a (ps_pl st); mret (true, with_pl pl st)) w (parsed ids st).
Proof.
  intros Hw Hinv Hnew Hid. eapply good_bind.
  { apply good_safe; [done|]. apply safe_error_check. by eapply id_is_live. }
  intros e w4 Hw4 Hs4 _. destruct e; [apply parsed_ret; [done|by eapply parse_inv_stable]|].
  eapply good_bind.
  { apply addElement_good; [done|eapply stable_live; [done|by eapply id_is_live]|].
    eapply stable_live; [done|]. apply Hinv. }
  intros pl w5 Hw5 Hs5 ->. apply good_ret; [done|].
  assert (Hs35 : stable w w5) by (by trans w4). split; [done|]. exists (ids ++ [id]). split; [by apply prefix_app_r|].
  destruct Hinv as [Hl [Hf Hnd]]. split; [by eapply stable_live|]. split; simpl.
  - apply Forall2_app; [|constructor; [by eapply stable_id|constructor]].
    eapply Forall2_impl; [done|]. intros. by eapply stable_id.
  - apply NoDup_app. split_and!; [done| |apply NoDup_singleton].
    intros x Hx Hx'. apply list_elem_of_singleton in Hx'. by subst.
Qed.

Lemma parse_create_good st w ids name id :
  world_wf w → parse_inv st w ids → good (parse_create factory_init name id st) w (parsed ids st).
Proof.
  intros Hw Hi. eapply good_bind; [by apply good_getById, Hi|].
  intros r w0 _ _ [-> Hr]. destruct r as [b|]; [by apply parsed_ret|].
  set (a := w_next w).
  assert (Hfac : good (factory_create factory_init name) w (λ r w1,
    r = None ∨ r = Some a ∧ ∃ m, w_modules w1 !! a = Some m ∧ plain_id m)).
  { unfold factory_create. destruct (find (short_name name) factory_init) as [c|] eqn:E.
    2: { apply good_ret; [done|by left]. }
    apply factory_find_ok in E as [Hok _].
    destruct (construct_spec c w Hok Hw) as (w1 & m & Hrun & Hw1 & Hm & _ & _ & _ & Hf & Hid).
    exists (Some a), w1. rewrite bind_run, Hrun.
    split_and!; [done|done|by eapply frame_stable|right; eauto]. }
  eapply good_bind_from; [exact Hfac|].
  intros r w1 Hw1 Hs1 [-> |(-> & m & Hm & Hid)];
    [apply good_from; [done|]; apply parsed_ret; [done|by eapply parse_inv_stable]|].
  destruct (safe_error_check a w1 (mk_is_Some _ _ Hm) Hw1) as (e & w2 & Hrun2 & Hq2).
  assert (Hw2 : world_wf w2) by (by eapply quiet_wf).
  assert (Hs02 : stable w w2) by (trans w1; [done|by apply quiet_stable]).
  rewrite bind_run, Hrun2.
  destruct e; [apply good_from; [done|]; apply parsed_ret; [done|by eapply parse_inv_stable]|].
  destruct (q_mod w1 w2 Hq2 a m Hm) as (m2 & Hm2 & Hk2 & _).
  assert (plain_id m2) as Hid2 by (unfold plain_id; by rewrite (kept_id m m2 Hk2)).
  destruct (fix_id_spec a m2 id w2 Hw2 Hm2 Hid2) as (w3 & Hrun3 & Hw3 & Hoth & Hida).
  assert (Hfresh : ∀ b, is_Some (w_modules w !! b) → b ≠ a).
  { intros b Hb ->. pose proof (own_mod_fresh w (wwf_own w Hw) a Hb). unfold a in *. lia. }
  assert (Hs03 : stable w w3).
  { intros b x Hb. destruct (Hs02 b x Hb) as (x2 & Hx2 & E2). exists x2. split; [|done].
    rewrite Hoth; [done|]. apply Hfresh. eauto. }
  destruct (good_from _ w w3 (parsed ids st) Hs03
    (register_good a id st w3 ids Hw3 (parse_inv_stable st w w3 ids Hs03 Hi) Hr Hida))
    as (r & w6 & Hrun6 & Hrest).
  exists r, w6. split; [|done]. rewrite bind_run in Hrun3. rewrite bind_run.
  destruct (set_property_string a "id" id w2) as [[[] wx]|]; [|done].
  rewrite bind_run, Hrun3. done.
Qed.

(** *** Data blocks *)

Definition entry : Type := string * string * string.

(** An entry whose module is not in the pipeline. *)
Definition orphan (ids : list string) (data_id : string) (late : list entry) : Prop :=
  ∃ id key, (id, key, data_id) ∈ late ∧ id ∉ ids.

Lemma late_pass_spec pl ids tokens data_id oss todo don w :
  world_wf w → ids_ok pl w ids →
  fair (late_pass tokens data_id oss don todo pl) w (λ r _,
    r.2 ⊆ don ++ todo
    ∧ (r.1 = Some true → length r.2 < length (don ++ todo))
    ∧ (r.1 = Some false → r.2 = don ++ todo ∧ ∀ e, e ∈ todo → e.2 ≠ data_id))
  ∨ late_pass tokens data_id oss don todo pl w = Fault FBadAccess ∧ orphan ids data_id todo.
Proof.
  intros Hw Hids. revert don. induction todo as [|[[id key] d] todo IH]; intros don; simpl.
  { left. apply fair_ret; [done|]. rewrite app_nil_r. split_and!; [done|done|].
    intros _. split; [done|]. by intros e ?%elem_of_nil. }
  case_bool_decide as Hd.
  2: { destruct (IH (don ++ [(id, key, d)])) as [Hfair|[Hf (i & k & Hin & Hi)]].
       - left. eapply fair_impl; [exact Hfair|]. intros r w' Hr. rewrite <-app_assoc in Hr.
         destruct Hr as (Hsub & Ht & Hn). split_and!; [done|done|]. intros E. destruct (Hn E) as [-> Hall].
         split; [done|]. intros e [->|He]%elem_of_cons; [done|auto].
       - right. split; [done|]. exists i, k. split; [by right|done]. }
  subst d. destruct (good_getById pl w ids id Hw Hids) as (r & w1 & Hrun & _ & _ & -> & Hr).
  destruct r as [a|].
  - left. eapply fair_run; [done|]. destruct Hr as [_ Hid]. eapply fair_bind; [by eapply fair_set|].
    intros ? w2 Hw2 Hs2 _. apply fair_good. eapply good_bind.
    { apply good_safe; [done|]. apply safe_mod_property; [|done]. eapply stable_live; [done|].
      by eapply id_is_live. }
    intros ? w3 Hw3 Hs3 _. eapply good_bind.
    { apply good_safe; [done|]. apply safe_error_check. eapply stable_live; [by trans w2|].
      by eapply id_is_live. }
    intros e w4 Hw4 Hs4 _. destruct e; (apply good_ret; [done|]; simpl; split_and!; try done).
    + set_solver.
    + intros _. rewrite !length_app. simpl. lia.
  - destruct (MO_ERROR <=? w_loglevel w)%Z eqn:Hlvl; [destruct (tokens !! 2) as [t|] eqn:Ht|].
    + left. apply fair_good. eapply good_run; [done|]. eapply good_run; [done|]. rewrite Hlvl.
      eapply good_run; [by rewrite bind_run|]. apply good_ret; [done|]. by split_and!.
    + right. rewrite bind_run, Hrun. cbv beta iota. rewrite bind_run. cbn [gets]. rewrite Hlvl.
      rewrite bind_run, bind_run. split; [done|]. exists id, key. split; [by left|done].
    + left. apply fair_good. eapply good_run; [done|]. eapply good_run; [done|]. rewrite Hlvl.
      eapply good_run; [done|]. apply good_ret; [done|]. by split_and!.
Qed.

Lemma late_loop_spec pl ids tokens data_id oss fuel late w :
  world_wf w → ids_ok pl w ids → length late < fuel →
  fair (late_loop fuel tokens data_id oss late pl) w (λ r _,
    r.2 ⊆ late ∧ (r.1 = true → ∀ e, e ∈ r.2 → e.2 ≠ data_id))
  ∨ late_loop fuel tokens data_id oss late pl w = Fault FBadAccess ∧ orphan ids data_id late.
Proof.
  revert late w. induction fuel as [|fuel IH]; intros late w Hw Hids Hlen; [lia|]. simpl.
  destruct (late_pass_spec pl ids tokens data_id oss late [] w Hw Hids) as [Hpass|[Hf Ho]].
  2: { right. rewrite bind_run, Hf. done. }
  unfold fair, yields in *. simpl in Hpass. rewrite bind_run.
  destruct (late_pass tokens data_id oss [] late pl w) as [[[o l] w1]|f]; [|by left].
  destruct Hpass as (Hw1 & Hs1 & Hsub & Ht & Hn). simpl in *. destruct o as [[]|].
  - specialize (IH l w1 Hw1 (stable_ids pl w w1 ids Hs1 Hids)).
    destruct IH as [Hrest|[Hf (i & k & Hin & Hi)]]; [specialize (Ht eq_refl); lia|left|].
    + destruct (late_loop _ _ _ _ _ _ w1) as [[r w2]|f].
      * destruct Hrest as (Hw2 & Hs2 & Hsub2 & Hall). split_and!; [done|by trans w1|set_solver|done].
      * eapply (pulls (B := blamed on_set)); [by apply stable_alive|done].
    + right. split; [done|]. exists i, k. split; [set_solver|done].
  - left. destruct (Hn eq_refl) as [-> Hall]. by split_and!.
  - left. by split_and!.
Qed.

(** ** One line *)

(** The two ways a line can make the program read out of range: a line of
    blanks in a data block, and a data block for a module that is not there. *)
Definition parse_fault (ids : list string) (line : string) (st : pstate) : Prop :=
  line ≠ EmptyString ∧ words line = [] ∨ orphan ids (ps_data_id st) (ps_lateset st).

(** Entries of the parser's late list come from [settext] lines. *)
Definition is_settext (line : string) (e : entry) : Prop :=
  words line = ["pipeline"; "settext"; e.1.1; e.1.2; e.2].

Definition line_post (line : string) (ids : list string) (st : pstate) (r : bool * pstate) (w : world)
    : Prop :=
  (∃ ids', ids `prefix_of` ids' ∧ parse_inv r.2 w ids')
  ∧ ∀ e, e ∈ ps_lateset r.2 → e ∈ ps_lateset st ∨ is_settext line e.

Lemma fair_line x w ids line st : fair x w (parsed ids st) → fair x w (line_post line ids st).
Proof.
  intros Hx. eapply fair_impl; [done|]. intros r w' [Hl Hp]. split; [done|]. intros e He. left. by rewrite Hl in He.
Qed.

(** States that agree on the pipeline. *)
Lemma parse_inv_pl st st' w ids : ps_pl st' = ps_pl st → parse_inv st w ids → parse_inv st' w ids.
Proof. unfold parse_inv. by intros ->. Qed.

Lemma line_ret b st st' w ids line :
  world_wf w → parse_inv st w ids → ps_pl st' = ps_pl st →
  (∀ e, e ∈ ps_lateset st' → e ∈ ps_lateset st ∨ is_settext line e) →
  fair (mret (b, st')) w (line_post line ids st).
Proof.
  intros Hw Hi Hpl Hl. apply fair_ret; [done|]. split; [|done]. exists ids. split; [done|].
  by apply (parse_inv_pl st).
Qed.

Lemma parse_pipeline_fair st w ids line tokens :
  world_wf w → parse_inv st w ids → words line = tokens → tokens !! 0 = Some "pipeline" →
  fair (parse_pipeline factory_init tokens st) w (line_post line ids st).
Proof.
  intros Hw Hi Hwords H0. assert (Hno : ∀ b, fair (mret (b, st)) w (line_post line ids st))
    by (intros; by apply fair_line, fair_good, parsed_ret).
  destruct tokens as [|t0 [|sub args]]; [apply Hno..|]. injection H0 as ->. unfold parse_pipeline.
  case_bool_decide; [destruct args as [|x1 [|x2 [|]]]; try apply Hno; by apply fair_line, fair_good, parse_create_good|].
  case_bool_decide; [destruct args as [|x1 [|x2 [|x3 [|]]]]; try apply Hno; by apply fair_line, parse_set_fair|].
  case_bool_decide; [destruct args as [|x1 [|x2 [|x3 [|]]]]; try apply Hno|].
  { subst sub. apply line_ret; [done|done|done|]. simpl. intros e [He|He]%elem_of_app; [by left|right].
    apply list_elem_of_singleton in He as ->. done. }
  case_bool_decide; [destruct args as [|x1 [|x2 [|x3 [|x4 [|]]]]]; try apply Hno|apply Hno].
  by apply fair_line, fair_good, parse_connect_good.
Qed.

Lemma parse_boundary_fair st w ids line tokens :
  world_wf w → parse_inv st w ids →
  fair (parse_boundary tokens st) w (line_post line ids st)
  ∨ parse_boundary tokens st w = Fault FBadAccess ∧ orphan ids (ps_data_id st) (ps_lateset st).
Proof.
  intros Hw Hi. unfold parse_boundary.
  assert (Hend : ∀ st' w', world_wf w' → parse_inv st' w' ids →
    (∀ e, e ∈ ps_lateset st' → e ∈ ps_lateset st) →
    fair (match tokens with
          | [_; data_id] => mret (true, with_data true data_id (ps_oss st') st')
          | _ => mret (true, st')
          end) w' (line_post line ids st)).
  { intros st' w' Hw' Hi' Hl. assert (Hpost : ∀ st2, ps_pl st2 = ps_pl st' → ps_lateset st2 = ps_lateset st' →
      fair (mret (true, st2)) w' (line_post line ids st)).
    { intros st2 Hpl Hlate. apply fair_ret; [done|]. split.
      - exists ids. split; [done|]. by apply (parse_inv_pl st').
      - simpl. rewrite Hlate. auto. }
    repeat case_match; by apply Hpost. }
  destruct (ps_datamode st) eqn:Hd.
  2: { left. eapply fair_run; [done|]. cbn [fst snd]. apply Hend; auto. }
  destruct (late_loop_spec (ps_pl st) ids tokens (ps_data_id st) (ps_oss st)
    (S (length (ps_lateset st))) (ps_lateset st) w Hw (proj2 Hi)) as [Hg|[Hf Ho]]; [lia| |].
  - left. eapply fair_bind.
    { eapply fair_bind; [exact Hg|]. intros r w1 Hw1 Hs1 Hr.
      apply (fair_ret _ _ (λ x w', (∃ r : bool * list entry, x = (r.1, with_late r.2 (with_data false
        (ps_data_id st) (if r.1 then EmptyString else ps_oss st) st)) ∧ r.2 ⊆ ps_lateset st) ∧ stable w w'));
        [done|]. split; [|done]. exists r. split; [done|apply Hr]. }
    intros x w1 Hw1 Hs1 [(r & -> & Hsub) Hs]. cbn [fst snd].
    assert (Hi1 : parse_inv (with_late r.2 (with_data false (ps_data_id st)
      (if r.1 then EmptyString else ps_oss st) st)) w1 ids)
      by (apply (parse_inv_pl st); [done|by eapply parse_inv_stable]).
    destruct (r.1) eqn:E; [apply Hend; auto|].
    apply fair_ret; [done|]. split; [by exists ids|]. simpl. auto.
  - right. rewrite bind_run, bind_run, Hf. done.
Qed.

Lemma parse_line_spec st w ids line :
  world_wf w → parse_inv st w ids →
  fair (parse_line factory_init line st) w (line_post line ids st)
  ∨ parse_line factory_init line st w = Fault FBadAccess ∧ parse_fault ids line st.
Proof.
  intros Hw Hi. assert (Hno : ∀ b, fair (mret (b, st)) w (line_post line ids st))
    by (intros; by apply fair_line, fair_good, parsed_ret).
  unfold parse_line, parse_fault. destruct line as [|c rest] eqn:Hline; [left; apply Hno|].
  rewrite <-Hline in *. case_bool_decide; [left; apply Hno|].
  destruct (_ && _) eqn:Hshort; [left; apply Hno|].
  destruct (words line) as [|t0 tokens] eqn:Hwords.
  { right. rewrite bind_run. split; [done|]. left. by subst. }
  destruct (decide (t0 = PIPELINE_BOUNDARY)) as [Hb|Hb].
  { destruct (parse_boundary_fair st w ids line (t0 :: tokens) Hw Hi) as [Hg|[Hf Ho]].
    - left. eapply fair_run; [done|]. by rewrite bool_decide_true.
    - right. rewrite bind_run. cbn [lookup list_lookup deref lift].
      rewrite bool_decide_true by done. auto. }
  left. eapply fair_run; [done|]. rewrite bool_decide_false by done.
  destruct (ps_datamode st); [apply line_ret; auto|].
  case_bool_decide; [by apply fair_line, fair_good, parse_config_good|].
  case_bool_decide as E; [|apply Hno]. apply parse_pipeline_fair; [done|done|done|by rewrite E].
Qed.

(** ** The whole file *)

(** Why a parse can read out of range: a line of blanks, or a text set on a
    module the pipeline does not have. *)
Definition file_fault (lines : list string) (ids : list string) (st : pstate) : Prop :=
  (∃ line, line ∈ lines ∧ line ≠ EmptyString ∧ words line = [])
  ∨ ∃ e : entry, (e.1.1 ∉ ids) ∧ (e ∈ ps_lateset st ∨ ∃ line, line ∈ lines ∧ is_settext line e).

Lemma parse_lines_spec lines st w ids :
  world_wf w → parse_inv st w ids →
  yields (blamed on_set) (parse_lines factory_init lines st) w (λ r w',
    ∃ ids', world_wf w' ∧ ids `prefix_of` ids' ∧ parse_inv r.2 w' ids')
  ∨ parse_lines factory_init lines st w = Fault FBadAccess ∧ file_fault lines ids st.
Proof.
  revert st w ids. induction lines as [|line lines IH]; intros st w ids Hw Hi; simpl.
  { left. by exists ids. }
  destruct (parse_line_spec st w ids line Hw Hi) as [Hline|[Hf Hbad]].
  2: { right. rewrite bind_run, Hf. split; [done|].
       destruct Hbad as [[Hne Hnil]|(id & key & Hin & Hid)]; [left|right].
       - exists line. split; [by left|done].
       - exists (id, key, ps_data_id st). auto. }
  unfold fair, yields in *. rewrite bind_run.
  destruct (parse_line factory_init line st w) as [[r w1]|f]; [|by left].
  destruct Hline as (Hw1 & Hs1 & (ids1 & Hp1 & Hi1) & Hl).
  destruct r as [[] st1]; simpl in *; [|by left; exists ids1].
  destruct (IH st1 w1 ids1 Hw1 Hi1) as [Hrest|[Hf Hbad]].
  - left. destruct (parse_lines _ lines st1 w1) as [[r w2]|f].
    + destruct Hrest as (ids2 & Hw2 & Hp2 & Hi2). exists ids2. split_and!; [done|by trans ids1|done].
    + eapply (pulls (B := blamed on_set)); [by apply stable_alive|done].
  - right. split; [done|]. destruct Hbad as [(x & Hx & Hb)|(e & He & Hin)]; [left|right].
    + exists x. split; [by right|done].
    + exists e. split; [intros Hid; by apply He, (elem_of_prefix ids ids1)|].
      destruct Hin as [[Hin|Hin]%Hl|(x & Hx & Hin)]; [by left|right; exists line; split; [by left|done]|].
      right. exists x. split; [by right|done].
Qed.
End Parser.

(** ** Properties *)

(** C4: parsing any file into a consistent pipeline has three outcomes.  It
    returns, true or false, in a well-formed world where the pipeline's modules
    are live and have pairwise distinct read-only ids that extend the ids used
    before (so no two [pipeline create] lines can ever share an id); a file that
    cannot be opened changes nothing but records the error.  Or it reads out of
    range, which needs a line of blanks, or a [settext] command for a module that
    the pipeline did not have before the file.  Or a callback or [guiFeedback] of
    a class, run because a line set a property, stops by a fault of its own.  Of
    the classes it is only assumed that a method that returns has not rewired the
    graph ([VirtualLaws]). *)
Theorem parse_keeps_ids (V : Virtuals) (VL : VirtualLaws V) (content : option string)
    (pl : moPipeline) (ids : list string) (w : world) :
  world_wf w → is_Some (w_modules w !! pl_self pl) → ids_ok pl w ids →
  match parse factory_init content pl w with
  | Ok ((b, pl'), w') =>
      world_wf w' ∧ (∃ ids', ids `prefix_of` ids' ∧ ids_ok pl' w' ids')
      ∧ (content = None → b = false ∧ w' = w ∧ pl' = with_error "unable to open file" pl)
  | Fault f =>
      ∃ text, content = Some text ∧
        (f = FBadAccess ∧ (∃ line, line ∈ split_on "010" text
           ∧ (line ≠ EmptyString ∧ words line = [] ∨ ∃ e, is_settext line e ∧ (e.1.1 ∉ ids)))
         ∨ blamed [KGuiFeedback; KCallback] w f)
  end.
Proof.
  intros Hw Hself Hids. unfold parse. destruct content as [text|].
  2: { split_and!; [done|by exists ids|done]. }
  rewrite bind_run.
  destruct (parse_lines_spec (split_on "010" text) (ps_start pl) w ids Hw (conj Hself Hids)) as [Hp|[-> Hbad]].
  - unfold yields in Hp. destruct (parse_lines _ _ _ w) as [[[b st] w']|f]; [|eauto].
    destruct Hp as (ids' & Hw' & Hp & _ & Hi). cbn. split_and!; [done|by exists ids'|done].
  - exists text. split; [done|]. left. split; [done|].
    destruct Hbad as [(x & Hx & Hb)|(e & He & [Hl|(x & Hx & Hs)])].
    + exists x. auto.
    + by apply elem_of_nil in Hl.
    + exists x. eauto 10.
Qed.

Definition demo_text : string :=
  "# demo" +:+ endl +:+ "config delay 10" +:+ endl +:+ "pipeline create Image img" +:+ endl
  +:+ "pipeline create Smooth s" +:+ endl +:+ "pipeline set s size 3" +:+ endl
  +:+ "pipeline connect img 0 s 0" +:+ endl.

(** A pipeline at address 1 of the demo world (any live module will do). *)
Definition demo_pipeline : moPipeline :=
  {| pl_self := 1; pl_modules := []; pl_is_group := None; pl_error := EmptyString |}.

(** The demo file with a camera, a class that overrides. *)
Definition camera_text : string := demo_text +:+ "pipeline create Camera cam" +:+ endl +:+ "pipeline set cam index 1" +:+ endl.

Lemma parse_keeps_ids_witness :
  match parse (V := camera_virtuals demo_shot) factory_init (Some camera_text) demo_pipeline demo_world with
  | Ok ((b, pl'), w') => b = true ∧ pl_modules pl' = [2; 4; 7] ∧ world_wf w'
  | Fault _ => False
  end.
Proof.
  pose proof (parse_keeps_ids (camera_virtuals demo_shot) (camera_virtual_laws demo_shot) (Some camera_text)
    demo_pipeline [] demo_world demo_world_wf (mk_is_Some _ _ eq_refl)) as H.
  assert (ids_ok demo_pipeline demo_world []) as Hi by (split; constructor).
  specialize (H Hi).
  assert (match parse (V := camera_virtuals demo_shot) factory_init (Some camera_text) demo_pipeline demo_world with
          | Ok ((b, pl'), w') => b = true ∧ pl_modules pl' = [2; 4; 7]
          | Fault _ => False
          end) as E by (vm_compute; split; reflexivity).
  destruct (parse factory_init (Some camera_text) demo_pipeline demo_world) as [[[b pl'] w']|f];
    [|destruct E]. destruct E, H. auto.
Defined.

(** Loading the file, saving the pipeline, loading that into another pipeline
    and saving again yields the same text. *)
Example save_load_demo :
  let run := (pl ← new_pipeline (V := base_virtuals);
              r1 ← parse (V := base_virtuals) factory_init (Some demo_text) pl;
              s1 ← pipeline_serializeCreation "today" r1.2;
              pl ← new_pipeline (V := base_virtuals);
              r2 ← parse (V := base_virtuals) factory_init (Some s1) pl;
              s2 ← pipeline_serializeCreation "today" r2.2;
              mret (r1.1 && r2.1 && bool_decide (s1 = s2))) world0 in
  match run with Ok (b, _) => b = true | Fault _ => False end.
Proof. vm_compute. reflexivity. Qed.
