(* ===== verification/PipelineRuns.v ===== *)
(** The pipeline while it runs: looking modules up, reporting errors, tearing
    everything down, and the lines a saved pipeline consists of. *)
From S2P Require Import Prelude StdMap Numeric Utils Property Container Module World Wiring.
From S2P Require Import Lifecycle Catalogue Factory Pipeline PipelineSafe.

(** ** Errors *)

Definition err_of (w : world) (a : nat) : bool :=
  match w_modules w !! a with Some m => haveError m | None => false end.
Definition erroneous (w : world) (mods : list nat) : list nat := filter (λ a, err_of w a = true) mods.

Definition all_live (w : world) (mods : list nat) : Prop := ∀ a, a ∈ mods → is_Some (w_modules w !! a).

Lemma any_error_run mods w :
  all_live w mods →
  any_error mods w = Ok (bool_decide (erroneous w mods ≠ []), w).
Proof.
  unfold erroneous. induction mods as [|a mods IH]; intros Hl; simpl; [done|].
  destruct (Hl a ltac:(by left)) as [m Hm]. rewrite bind_run, (getm_run a m) by done.
  rewrite filter_cons. assert (err_of w a = haveError m) as -> by (unfold err_of; by rewrite Hm).
  destruct (haveError m) eqn:E; [rewrite decide_True by done; by rewrite bool_decide_true|].
  rewrite decide_False by done. apply IH. intros b Hb. apply Hl. by right.
Qed.

Lemma first_error_run mods w :
  world_wf w → all_live w mods → erroneous w mods ≠ [] →
  ∃ s a m', first_error mods w = Ok (s, put_module a m' w) ∧ a ∈ mods ∧ err_of w a = true
            ∧ haveError m' = false ∧ quiet w (put_module a m' w).
Proof.
  intros Hw. unfold erroneous. induction mods as [|a mods IH]; intros Hl Hne; [done|]. simpl.
  destruct (Hl a ltac:(by left)) as [m Hm]. rewrite bind_run, (getm_run a m) by done.
  destruct (haveError m) eqn:E.
  - destruct (module_getLastError_run a m w Hw Hm) as (s & m' & Hrun & He & Hq).
    exists s, a, m'. split_and!; [done|by left| |done|done]. unfold err_of. by rewrite Hm.
  - rewrite filter_cons in Hne. rewrite decide_False in Hne by (unfold err_of; rewrite Hm; congruence).
    destruct IH as (s & b & m' & Hrun & Hb & Hrest); [intros b Hb; apply Hl; by right|done|].
    exists s, b, m'. split_and!; [done|by right|apply Hrest..].
Qed.

Lemma erroneous_put w a m' mods :
  err_of w a = true → a ∈ mods → haveError m' = false →
  length (erroneous (put_module a m' w) mods) < length (erroneous w mods).
Proof.
  intros He Ha Hm'. assert (Hput : ∀ b, err_of (put_module a m' w) b = if decide (a = b) then false else err_of w b).
  { intros b. unfold err_of. rewrite lookup_put_module. by case_decide. }
  assert (Hle : ∀ l, length (erroneous (put_module a m' w) l) ≤ length (erroneous w l)).
  { unfold erroneous. induction l as [|b l IH]; [done|]. rewrite !filter_cons, Hput.
    repeat case_decide; simpl in *; try done; lia. }
  unfold erroneous in *. induction mods as [|b mods IH]; [by apply elem_of_nil in Ha|].
  rewrite !filter_cons, Hput. destruct (decide (a = b)) as [<-|Hne].
  - rewrite decide_False by done. rewrite decide_True by done. simpl. specialize (Hle mods). lia.
  - apply elem_of_cons in Ha as [->|Ha]; [done|]. specialize (IH Ha).
    case_decide; simpl; lia.
Qed.

(** [getModuleById] returns the first module of the pipeline with
    that id, [NULL] when there is none, and changes nothing. *)
Theorem getModuleById_first (pl : moPipeline) (ids : list string) (id : string) (w : world) :
  Forall2 (id_is w) (pl_modules pl) ids →
  ∃ r, getModuleById id pl w = Ok (r, w) ∧
    match r with
    | Some a => ∃ i, pl_modules pl !! i = Some a ∧ ids !! i = Some id ∧ ∀ j, j < i → ids !! j ≠ Some id
    | None => id ∉ ids
    end.
Proof. apply find_by_id_spec. Qed.

(** Module 1 of the demo world with a fixed id. *)
Definition named_world : world :=
  put_module 1 (store_property "id" (setReadOnly true (alloc MO_PROPERTY_STRING (VString "in") EmptyString))
                  demo_module) demo_world.

Lemma getModuleById_first_witness :
  getModuleById "in" (with_modules [1] demo_pipeline) named_world = Ok (Some 1, named_world).
Proof.
  destruct (getModuleById_first (with_modules [1] demo_pipeline) ["in"] "in" named_world)
    as (r & Hrun & Hr).
  - constructor; [|constructor]. eexists. split; [reflexivity|]. by exists [].
  - rewrite Hrun. destruct r as [a|].
    + destruct Hr as ([|i] & Ha & _); [by injection Ha as <-|done].
    + exfalso. apply Hr. by left.
Defined.

(** Each report leaves one module in error less. *)
Lemma drain_errors_run (pl : moPipeline) fuel w :
  pl_error pl = EmptyString → world_wf w → all_live w (pl_modules pl) →
  length (erroneous w (pl_modules pl)) < fuel →
  ∃ msgs w', drain_errors fuel pl w = Ok (Some msgs, w') ∧ length msgs ≤ length (erroneous w (pl_modules pl))
             ∧ erroneous w' (pl_modules pl) = [] ∧ quiet w w'.
Proof.
  intros Hpe. revert w. induction fuel as [|fuel IH]; intros w Hw Hl Hlt; [lia|]. simpl.
  rewrite bind_run. unfold pipeline_haveError. rewrite Hpe, bool_decide_false by tauto.
  rewrite any_error_run by done.
  case_bool_decide as Hne.
  2: { exists [], w. split_and!; [done|simpl; lia| |done].
       by destruct (erroneous w (pl_modules pl)); [|destruct Hne]. }
  destruct (first_error_run (pl_modules pl) w Hw Hl Hne) as (s & a & m' & Hrun & Ha & He & Hm' & Hq).
  rewrite bind_run. unfold pipeline_getLastError. rewrite Hpe, bool_decide_false, Hrun by tauto.
  pose proof (erroneous_put w a m' (pl_modules pl) He Ha Hm') as Hdec.
  destruct (IH (put_module a m' w)) as (msgs & w' & Hrun' & Hlen & Hnil & Hq').
  - by eapply quiet_wf.
  - intros b Hb. eapply quiet_live; [done|]. auto.
  - lia.
  - exists (s :: msgs), w'. rewrite bind_run, Hrun'. split_and!; [done|simpl; lia|done|by etrans].
Qed.

Lemma erroneous_length w mods : length (erroneous w mods) ≤ length mods.
Proof. apply length_filter. Qed.

(** As long as no internal error is recorded, the error-reporting
    loop of the main program ends: at most one round per module, after which
    no module of the pipeline is in error and the graph is unchanged. *)
Theorem drain_errors_terminates (pl : moPipeline) (w : world) :
  world_wf w → all_live w (pl_modules pl) → pl_error pl = EmptyString →
  ∃ msgs w', drain_errors (S (length (pl_modules pl))) pl w = Ok (Some msgs, w')
             ∧ length msgs ≤ length (pl_modules pl) ∧ erroneous w' (pl_modules pl) = [] ∧ quiet w w'.
Proof.
  intros Hw Hl Hpe. pose proof (erroneous_length w (pl_modules pl)).
  destruct (drain_errors_run pl (S (length (pl_modules pl))) w) as (msgs & w' & Hrun & Hlen & Hrest);
    [done..|lia|]. exists msgs, w'. split_and!; [done|lia|apply Hrest..].
Qed.

Definition error_world : world :=
  put_module 1 (setError "boom" demo_module) demo_world.

Lemma drain_errors_terminates_witness :
  ∃ msgs w', drain_errors 2 (with_modules [1] demo_pipeline) error_world = Ok (Some msgs, w')
             ∧ erroneous w' [1] = [].
Proof.
  destruct (drain_errors_terminates (with_modules [1] demo_pipeline) error_world)
    as (msgs & w' & Hrun & _ & Hnil & _).
  - eapply put_module_wf; [exact demo_world_wf|reflexivity|apply setError_wf, demo_module_wf|done..|].
    apply (wwf_cbs demo_world demo_world_wf 1 demo_module). reflexivity.
  - intros a Ha%list_elem_of_singleton. subst. by eexists.
  - reflexivity.
  - eauto.
Defined.

(** Once an internal error is recorded (a file that could not
    be opened), nothing clears it: the same loop never ends, whatever the
    fuel, although the header says that reading the error resets it. *)
Theorem drain_errors_diverges (pl : moPipeline) (w : world) (fuel : nat) :
  drain_errors fuel (with_error "unable to open file" pl) w = Ok (None, w).
Proof.
  induction fuel as [|fuel IH]; [done|]. simpl.
  set (bad := with_error _ pl) in *.
  assert (pipeline_haveError bad w = Ok (true, w)) as E by reflexivity.
  assert (pipeline_getLastError bad w = Ok ("unable to open file", w)) as E' by reflexivity.
  by rewrite bind_run, E, bind_run, E', bind_run, IH.
Qed.

(** ** Tearing down *)

(** What deleting needs of the heap: well-formed modules, each output stream
    live and owned once.  Connections may dangle. *)
Record heap_wf (w : world) : Prop := {
  hw_mod a m : w_modules w !! a = Some m → module_wf m ∧ cbs_self a m;
  hw_own : own_wf w;
}.

Lemma world_heap_wf w : world_wf w → heap_wf w.
Proof.
  intros Hw. split; [|apply Hw]. intros a m Hm.
  split; [by eapply (wwf_modules w Hw)|by apply (wwf_cbs w Hw)].
Qed.

(** Deleting the streams of a list of members. *)
Lemma delete_fields_run m fs w :
  (∀ f s, f ∈ fs → field f m = Some s → is_Some (w_streams w !! s)) →
  (∀ f g s, f ∈ fs → g ∈ fs → field f m = Some s → field g m = Some s → f = g) → NoDup fs →
  ∃ w', for_each (λ f, match field f m with
                       | Some s => _ ← gets_at s; modify (upd_w_streams (delete s))
                       | None => skip
                       end) fs w = Ok (tt, w')
        ∧ w_modules w' = w_modules w ∧ w_next w' = w_next w
        ∧ (∀ s st, w_streams w' !! s = Some st → w_streams w !! s = Some st)
        ∧ (∀ s, (∀ f, f ∈ fs → field f m ≠ Some s) → w_streams w' !! s = w_streams w !! s).
Proof.
  revert w. induction fs as [|f fs IH]; intros w Hl Hinj Hnd; [by exists w|]. simpl.
  apply NoDup_cons in Hnd as [Hf Hnd]. destruct (field f m) as [s|] eqn:E.
  - destruct (Hl f s ltac:(by left) E) as [st Hst].
    set (w1 := upd_w_streams (delete s) w).
    destruct (IH w1) as (w' & Hrun & Hm & Hn & Hback & Hkeep).
    + intros g t Hg Ht. simpl. rewrite lookup_delete_ne; [apply (Hl g); [by right|done]|].
      intros <-. apply Hf. rewrite (Hinj f g s); [done|by left|by right|done|done].
    + intros g h t Hg Hh. apply Hinj; by right.
    + done.
    + exists w'. rewrite bind_run, bind_run, (gets_at_run s st) by done. split_and!; [done|done|done|..].
      * intros t x Ht. apply Hback in Ht. simpl in Ht. by apply lookup_delete_Some in Ht as [_ ?].
      * intros t Hno. rewrite Hkeep by (intros g Hg; apply Hno; by right). simpl.
        rewrite lookup_delete_ne; [done|]. intros <-. apply (Hno f); [by left|done].
  - destruct (IH w) as (w' & Hrun & Hm & Hn & Hback & Hkeep); [intros; eapply Hl; [by right|done]| |done|].
    + intros g h t Hg Hh. apply Hinj; by right.
    + exists w'. rewrite bind_run. split_and!; [done..|]. intros t Hno. apply Hkeep.
      intros g Hg. apply Hno. by right.
Qed.

Lemma delete_module_spec a m w :
  heap_wf w → w_modules w !! a = Some m →
  ∃ w', delete_module a w = Ok (tt, w') ∧ heap_wf w' ∧ w_modules w' = delete a (w_modules w)
        ∧ (∀ s st, w_streams w' !! s = Some st → w_streams w !! s = Some st)
        ∧ (∀ s, (∀ n, getOutput n m ≠ Some s) → w_streams w' !! s = w_streams w !! s).
Proof.
  intros Hw Hm. destruct (hw_mod w Hw a m Hm) as [Hwf Hcbs]. pose proof (hw_own w Hw) as Hown.
  assert (Hout : ∀ f s, f ∈ m_dtor_fields m → field f m = Some s → ∃ n, getOutput n m = Some s ∧ find n (m_output_map m) = Some f).
  { intros f s Hf Hs. destruct (mwf_dtor m Hwf f Hf) as [n Hn]. exists n.
    unfold getOutput. by rewrite Hn. }
  destruct (delete_fields_run m (m_dtor_fields m) w) as (w1 & Hrun1 & Hm1 & Hn1 & Hback & Hkeep).
  - intros f s Hf Hs. destruct (Hout f s Hf Hs) as (n & Hn & _). by eapply (own_out_live w Hown).
  - intros f g s Hf Hg Hfs Hgs. destruct (Hout f s Hf Hfs) as (n & Hn & Hnf), (Hout g s Hg Hgs) as (n' & Hn' & Hng).
    destruct (own_owned w Hown a m n a m n' s) as [_ <-]; [done..|]. congruence.
  - apply mwf_dtor_NoDup, Hwf.
  - assert (Hm1' : w_modules w1 !! a = Some m) by (by rewrite Hm1).
    destruct (local_run a (moModule_stop a) (λ _ _, True) w1 m Hm1') as
      ([] & w2 & m2 & Hrun2 & (m2' & th & n2 & -> & Hn2 & ->) & _); [|done|].
    { intros Hp Ht. eapply local_conseq; [by apply stop_local|done|]. by intros _ m' [_ ?]. }
    set (w2 := put_module a m2 _) in *.
    exists (upd_w_modules (delete a) w2). split_and!.
    + unfold delete_module. rewrite bind_run, (getm_run a m) by done. cbv beta iota.
      rewrite bind_run, Hrun1. cbv beta iota. rewrite bind_run, Hrun2. done.
    + assert (Hlk : ∀ b x, w_modules (upd_w_modules (delete a) w2) !! b = Some x →
        b ≠ a ∧ w_modules w !! b = Some x).
      { intros b x. simpl. rewrite delete_insert_eq, Hm1. intros Hb.
        apply lookup_delete_Some in Hb as [? ?]. auto. }
      split; [intros b x Hb; apply (hw_mod w Hw); by apply Hlk|]. split.
      * intros b x n s Hb Hs. apply Hlk in Hb as [Hne Hb].
        change (is_Some (w_streams w1 !! s)). rewrite Hkeep.
        -- by eapply (own_out_live w Hown).
        -- intros f Hf Hfs. destruct (Hout f s Hf Hfs) as (n' & Hn' & _).
           destruct (own_owned w Hown b x n a m n' s) as [-> _]; done.
      * intros b x n c y n' s Hb Hc. apply Hlk in Hb as [_ Hb], Hc as [_ Hc].
        by apply (own_owned w Hown).
      * intros b [x Hb]. apply Hlk in Hb as [_ Hb]. simpl.
        eapply Nat.lt_le_trans; [apply (own_mod_fresh w Hown); eauto|]. by rewrite <-Hn1.
      * intros s [st Hs%Hback]. simpl.
        eapply Nat.lt_le_trans; [apply (own_str_fresh w Hown); eauto|]. by rewrite <-Hn1.
    + simpl. by rewrite delete_insert_eq, Hm1.
    + intros s st Hs. by apply Hback.
    + intros s Hno. apply Hkeep. intros f Hf Hfs. destruct (Hout f s Hf Hfs) as (n & Hn & _).
      by apply (Hno n).
Qed.

Lemma delete_modules_run mods w :
  heap_wf w → all_live w mods → NoDup mods →
  ∃ w', for_each delete_module mods w = Ok (tt, w') ∧ heap_wf w'
        ∧ ∀ a, is_Some (w_modules w' !! a) ↔ is_Some (w_modules w !! a) ∧ a ∉ mods.
Proof.
  revert w. induction mods as [|a mods IH]; intros w Hw Hl Hnd.
  { exists w. split_and!; [done|done|]. intros a. set_solver. }
  apply NoDup_cons in Hnd as [Ha Hnd]. destruct (Hl a ltac:(by left)) as [m Hm].
  destruct (delete_module_spec a m w Hw Hm) as (w1 & Hrun & Hw1 & Hm1 & _).
  destruct (IH w1 Hw1) as (w2 & Hrun2 & Hw2 & Hiff); [|done|].
  { intros b Hb. rewrite Hm1, lookup_delete_ne by congruence. apply Hl. by right. }
  exists w2. simpl. rewrite bind_run, Hrun. split_and!; [done|done|].
  intros b. rewrite Hiff, Hm1. destruct (decide (a = b)) as [<-|Hne].
  - rewrite lookup_delete_eq. set_solver.
  - rewrite lookup_delete_ne by done. set_solver.
Qed.

Lemma guarded_pipeline_start {V : Virtuals} {VL : VirtualLaws V} pl w :
  is_Some (w_modules w !! pl_self pl) → all_live w (pl_modules pl) → guarded (blamed [KStart]) (pipeline_start pl) w.
Proof.
  intros Hs Hl. apply guarded_bind; [apply _|by apply guarded_safe, safe_start|]. intros _ w1 _ Hq1.
  apply guarded_for_each; [apply _|]. intros a w2 Ha Hq2.
  apply (guarded_call [KStart] (CallStart a)); [|by left]. eapply quiet_live; [|by apply Hl]. by trans w1.
Qed.
Lemma guarded_pipeline_stop {V : Virtuals} {VL : VirtualLaws V} pl w :
  is_Some (w_modules w !! pl_self pl) → all_live w (pl_modules pl) → guarded (blamed [KStop]) (pipeline_stop pl) w.
Proof.
  intros Hs Hl. apply guarded_bind; [apply _|by apply guarded_safe, safe_stop|]. intros _ w1 _ Hq1.
  apply guarded_for_each; [apply _|]. intros a w2 Ha Hq2.
  apply (guarded_call [KStop] (CallStop a)); [|by left]. eapply quiet_live; [|by apply Hl]. by trans w1.
Qed.

(** [clear] (also the destructor) stops the pipeline and deletes each
    of its modules exactly once: nothing is freed twice or used after being
    freed, the pipeline ends up empty, its modules are gone and every other
    module is still there; only the [stop] of a class can fault. *)
Theorem clear_deletes_once (V : Virtuals) (VL : VirtualLaws V) (pl : moPipeline) (w : world) :
  world_wf w → is_Some (w_modules w !! pl_self pl) → all_live w (pl_modules pl) →
  NoDup (pl_modules pl) →
  yields (blamed [KStop]) (clear pl) w (λ r w', r = with_modules [] pl ∧ heap_wf w'
    ∧ ∀ a, is_Some (w_modules w' !! a) ↔ is_Some (w_modules w !! a) ∧ a ∉ pl_modules pl).
Proof.
  intros Hw Hself Hl Hnd. unfold clear.
  eapply (yields_bind _); [by apply guarded_pipeline_stop|]. intros [] w1 _ Hq1.
  split; [by apply quiet_alive|].
  destruct (delete_modules_run (pl_modules pl) w1) as (w2 & Hrun2 & Hw2 & Hiff);
    [by apply world_heap_wf, (quiet_wf w)|intros a Ha; eapply quiet_live; eauto|done|].
  unfold yields. rewrite bind_run, Hrun2. split_and!; [done|done|].
  intros a. rewrite Hiff. split; intros [Ha ?]; (split; [|done]).
  - by apply (q_mod_back w w1 Hq1).
  - by eapply quiet_live.
Qed.

(** ** Saved files *)

(** A word: what [istream >> std::string] reads in one go. *)
Definition word (s : string) : Prop := avoids blanks s ∧ s ≠ EmptyString.

Lemma word_literal (w : string) : forallb (λ c, negb (smem c blanks)) (chars w) = true → avoids blanks w.
Proof.
  intros H. apply avoids_alt. intros c Hc. rewrite forallb_forall in H.
  apply list_elem_of_In in Hc. by apply H, negb_true_iff in Hc.
Qed.

Lemma words_cut w s : word w → words (w +:+ " " +:+ s) = w :: words s.
Proof. intros [Hw Hne]. by apply words_of_cut. Qed.

Lemma words_last v : avoids blanks v → words v = if decide (v = EmptyString) then [] else [v].
Proof. intros Hv. case_decide; [by subst|]. by apply words_of_avoids. Qed.

(** The text of a line, and its words. *)
Lemma line_split line rest : avoids endl line → split_on "010" (line +:+ endl +:+ rest) = line :: split_on "010" rest.
Proof. intros Hl. by apply split_any_cut. Qed.

Lemma avoids_endl s : avoids blanks s → avoids endl s.
Proof.
  intros H c Hc. apply H. unfold endl in Hc. rewrite smem_single in Hc.
  by apply bool_decide_eq_true in Hc as ->.
Qed.
Lemma avoids_endl_space s t : avoids endl s → avoids endl t → avoids endl (s +:+ " " +:+ t).
Proof. intros Hs Ht. apply avoids_app; [done|]. apply avoids_app; [by apply avoids_single_lit|done]. Qed.

(** The command [serializeCreation] writes for one property. *)
Definition set_words (id : string) (kp : string * moProperty) : list string :=
  match asString kp.2 with
  | Ok v => ["pipeline"; "set"; id; kp.1] ++ (if decide (v = EmptyString) then [] else [v])
  | Fault _ => []
  end.

Definition savable (id : string) (kp : string * moProperty) : Prop :=
  isText kp.2 = false ∧ word kp.1 ∧ ∃ v, asString kp.2 = Ok v ∧ avoids blanks v.

Lemma literal_words2 (u v s : string) :
  word u → word v → words (u +:+ " " +:+ v +:+ " " +:+ s) = u :: v :: words s.
Proof. intros Hu Hv. by rewrite !words_cut. Qed.

Lemma set_line_words id k v :
  word id → word k → avoids blanks v →
  let line := "pipeline set " +:+ id +:+ " " +:+ k +:+ " " +:+ v in
  words line = ["pipeline"; "set"; id; k] ++ (if decide (v = EmptyString) then [] else [v])
  ∧ avoids endl line.
Proof.
  intros Hid Hk Hv. change ("pipeline set " +:+ ?x) with ("pipeline" +:+ " " +:+ "set" +:+ " " +:+ x).
  cbv zeta. assert (word "pipeline") by (split; [by apply word_literal|done]).
  assert (word "set") by (split; [by apply word_literal|done]).
  split.
  - rewrite !words_cut by done. by rewrite words_last.
  - repeat apply avoids_endl_space; apply avoids_endl;
      (apply Hid || apply Hk || exact Hv || by apply word_literal).
Qed.

Lemma serialize_sets_lines id props text rest :
  word id → Forall (savable id) props → serialize_sets id props = Ok text →
  words <$> split_on "010" (text +:+ rest) = (set_words id <$> props) ++ (words <$> split_on "010" rest).
Proof.
  intros Hid. revert text. induction props as [|[k p] props IH]; intros text Hall; simpl.
  { by intros [= <-]. }
  apply Forall_cons in Hall as [(Ht & Hk & v & Hv & Hb) Hall]. simpl in *. rewrite Ht, Hv. cbn [mbind res_bind].
  destruct (serialize_sets id props) as [t|] eqn:E; [|done]. intros [= <-].
  destruct (set_line_words id k v Hid Hk Hb) as [Hw Hl].
  set (line := "pipeline set " +:+ id +:+ " " +:+ k +:+ " " +:+ v) in *.
  assert ((("pipeline set " +:+ id +:+ " " +:+ k +:+ " " +:+ v +:+ endl) +:+ t) +:+ rest
          = line +:+ endl +:+ (t +:+ rest)) as -> by (unfold line; by rewrite !sapp_assoc).
  rewrite line_split, fmap_cons, Hw, IH by done.
  unfold set_words at 2. simpl. by rewrite Hv.
Qed.

(** When ids, names and values contain no blank, the text
    [serializeCreation] writes for a module is read back, line by line, as the
    commands that re-create it: one [pipeline create] with the module's class
    and id, then one [pipeline set] per property in name order, with the value
    omitted when it is empty. *)
Theorem saved_module_lines (m m' : moModule) (id text : string) :
  serializeCreation false m = Ok (text, m') →
  asString (property "id" m).1 = Ok id → word id → word (m_name m) →
  Forall (savable id) (m_properties m') →
  words <$> split_on "010" text
  = ["pipeline"; "create"; m_name m; id] :: (set_words id <$> m_properties m') ++ [[]; []].
Proof.
  unfold serializeCreation. intros Hs Hid Hwid Hwn Hall.
  destruct (property "id" m) as [p m1] eqn:Ep. simpl in Hid. rewrite Hid in Hs. cbn [mbind res_bind] in Hs.
  destruct (serialize_sets id (m_properties m1)) as [sets|] eqn:Es; [|done].
  injection Hs as <- <-.
  assert (m_name m1 = m_name m) as ->.
  { unfold property in Ep. destruct (find "id" (m_properties m)); by injection Ep as <- <-. }
  assert (word "pipeline") by (split; [by apply word_literal|done]).
  assert (word "create") by (split; [by apply word_literal|done]).
  change ("pipeline create " +:+ ?x) with ("pipeline" +:+ " " +:+ "create" +:+ " " +:+ x).
  assert (("pipeline" +:+ " " +:+ "create" +:+ " " +:+ m_name m +:+ " " +:+ id +:+ endl +:+ sets +:+ endl)
    = ("pipeline" +:+ " " +:+ "create" +:+ " " +:+ m_name m +:+ " " +:+ id) +:+ endl +:+ (sets +:+ endl)) as ->
    by (by rewrite !sapp_assoc).
  rewrite line_split.
  2: { repeat apply avoids_endl_space; apply avoids_endl;
         (apply Hwid || apply Hwn || by apply word_literal). }
  rewrite fmap_cons, !words_cut by done. rewrite words_last by apply Hwid.
  rewrite decide_False by apply Hwid.
  by rewrite (serialize_sets_lines id _ sets endl Hwid Hall Es).
Qed.

Definition saved_demo : moModule :=
  store_property "id" (alloc MO_PROPERTY_STRING (VString "in") EmptyString) demo_module.

Lemma saved_module_lines_witness :
  ∃ text m', serializeCreation false saved_demo = Ok (text, m')
    ∧ words <$> split_on "010" text
      = [["pipeline"; "create"; "Demo"; "in"]; ["pipeline"; "set"; "in"; "gui_feedback"];
         ["pipeline"; "set"; "in"; "id"; "in"]; ["pipeline"; "set"; "in"; "use_thread"; "false"]; []; []].
Proof.
  assert (Hw : ∀ s, forallb (λ c, negb (smem c blanks)) (chars s) = true → s ≠ EmptyString → word s)
    by (intros; split; [by apply word_literal|done]).
  destruct (serializeCreation false saved_demo) as [[text m']|] eqn:E; [|vm_compute in E; discriminate].
  exists text, m'. split; [done|].
  rewrite (saved_module_lines saved_demo m' "in" text E eq_refl); [|by apply Hw|by apply Hw|].
  - vm_compute in E. injection E as _ <-. vm_compute. reflexivity.
  - vm_compute in E. injection E as _ <-.
    repeat (constructor; [split_and!; [reflexivity|by apply Hw|
      eexists; split; [reflexivity|by apply word_literal]]|]). constructor.
Defined.
