(* ===== verification/Tracker.v ===== *)
(** The blob trackers: moAbstractBlobTrackerModule.cpp (the frame update) and
    moGreedyBlobTrackerModule.cpp (the assignment of ids).

    A tracker keeps the blobs of the previous frame ([old_blobs]) and a counter
    of ids shared by all trackers.  Lists hold containers by value: inside a
    frame the new blobs are fresh clones, an old blob is either dropped or moved
    to the new list once, and the list of the previous frame is then forgotten,
    so no container is reachable from two entries of a list.  [trackBlobs] is
    virtual: the update is written against the interface [Track]. *)
From S2P Require Import Prelude StdMap Numeric Utils Property Container.

(** ** Greedy matching *)

(** [inList("fiducial", s) || inList("markerlessobject", s)]. *)
Definition is_fid (implements : string) : res bool :=
  b ← inList "fiducial" implements ",";
  if b : bool then Ok true else inList "markerlessobject" implements ",".

(** [pt::pincrement(&id_counter)]: the incremented value. *)
Definition pincrement (counter : Z) : Z := wrap32 (counter + 1).

(** [sqrt(pow(old_x - new_x, 2) + pow(old_y - new_y, 2))]; the square of a
    double is its correctly rounded product with itself. *)
Definition distance (old_x old_y new_x new_y : double) : double :=
  let dx := d_sub old_x new_x in
  let dy := d_sub old_y new_y in
  d_sqrt (d_add (d_mul dx dx) (d_mul dy dy)).

(** What the loops read of a new blob once. *)
Record new_view := { nv_x : double; nv_y : double; nv_fid : bool; nv_volatile : bool }.

Definition view (c : container) : res new_view :=
  new_x ← get_double "x" c;
  new_y ← get_double "y" c;
  implements ← get_string "implements" c;
  new_is_fid ← is_fid implements;
  new_is_volatile ← inList "volatile" implements ",";
  Ok {| nv_x := new_x; nv_y := new_y; nv_fid := new_is_fid; nv_volatile := new_is_volatile |}.

(** May this old blob be considered for the new blob [c] at all?  (The
    [continue]s of the inner loop.) *)
Definition candidate (c : container) (nv : new_view) (reused : list Z) (o : container) : res bool :=
  old_id ← get_int "blob_id" o;
  if bool_decide (old_id ∈ reused) then Ok false
  else
    old_implements ← get_string "implements" o;
    old_is_fid ← is_fid old_implements;
    same ← (if old_is_fid && nv_fid nv && negb (nv_volatile nv) then
              fid ← get_int "fiducial_id" c;
              old_fid ← get_int "fiducial_id" o;
              Ok (fid =? old_fid)%Z
            else Ok true);
    if same : bool then Ok (negb (negb old_is_fid && nv_fid nv)) else Ok false.

(** The inner loop: the closest candidate strictly below [min_distance]. *)
Fixpoint closest (c : container) (nv : new_view) (reused : list Z) (old : list container)
    (closest_blob : option container) (min_distance : double) : res (option container) :=
  match old with
  | [] => Ok closest_blob
  | o :: old =>
      ok ← candidate c nv reused o;
      if ok : bool then
        old_x ← get_double "x" o;
        old_y ← get_double "y" o;
        let d := distance old_x old_y (nv_x nv) (nv_y nv) in
        if d_ltb d min_distance then closest c nv reused old (Some o) d
        else closest c nv reused old closest_blob min_distance
      else closest c nv reused old closest_blob min_distance
  end.

(** Body of the loop over the new blobs. *)
Definition greedy_assign (max_distance : double) (old : list container) (reused : list Z)
    (counter : Z) (c : container) : res (container * list Z * Z) :=
  nv ← view c;
  best ← closest c nv reused old None max_distance;
  match best with
  | Some o =>
      old_id ← get_int "blob_id" o;
      c ← set_prop "blob_id" MO_PROPERTY_INTEGER (VInt old_id) c;
      old_implements ← get_string "implements" o;
      old_is_fid ← is_fid old_implements;
      c ← (if old_is_fid && nv_fid nv && nv_volatile nv then
             old_fid ← get_int "fiducial_id" o;
             set_prop "fiducial_id" MO_PROPERTY_INTEGER (VInt old_fid) c
           else Ok c);
      Ok (c, reused ++ [old_id], counter)
  | None =>
      let counter := pincrement counter in
      c ← set_prop "blob_id" MO_PROPERTY_INTEGER (VInt counter) c;
      Ok (c, reused, counter)
  end.

Fixpoint greedy_loop (max_distance : double) (old : list container) (reused : list Z)
    (counter : Z) (new : list container) : res (list container * Z) :=
  match new with
  | [] => Ok ([], counter)
  | c :: new =>
      r ← greedy_assign max_distance old reused counter c;
      rest ← greedy_loop max_distance old r.1.2 r.2 new;
      Ok (r.1.1 :: rest.1, rest.2)
  end.

(** Volatile objects that were not recognised expire at once. *)
Definition expire (max_age : Z) (c : container) : res container :=
  implements ← get_string "implements" c;
  new_is_volatile ← inList "volatile" implements ",";
  if new_is_volatile : bool then
    fid ← get_int "fiducial_id" c;
    if (fid =? -1)%Z then set_prop "age" MO_PROPERTY_INTEGER (VInt (wrap32 (max_age + 1))) c
    else Ok c
  else Ok c.

Fixpoint map_res {A B} (f : A → res B) (l : list A) : res (list B) :=
  match l with
  | [] => Ok []
  | a :: l => b ← f a; rest ← map_res f l; Ok (b :: rest)
  end.

(** [moGreedyBlobTrackerModule::trackBlobs]. *)
Definition greedy_trackBlobs (max_age : Z) (max_distance : double) (old new : list container)
    (counter : Z) : res (list container * Z) :=
  r ← greedy_loop max_distance old [] counter new;
  l ← map_res (expire max_age) r.1;
  Ok (l, r.2).

(** ** Angles *)

Definition PI : double := atof "3.14159265".
Definition radToDeg (rad : double) : double := d_mul rad (d_div (d_of_Z 180) PI).
Definition degToRad (deg : double) : double := d_mul deg (d_div PI (d_of_Z 180)).

(** The first blob of a list with this id. *)
Fixpoint find_id (id : Z) (l : list container) : res (option container) :=
  match l with
  | [] => Ok None
  | c :: l => i ← get_int "blob_id" c; if (i =? id)%Z then Ok (Some c) else find_id id l
  end.

(** [fabs((float)diff) > max_diff]. *)
Definition jumped (max_diff diff : Z) : bool :=
  d_ltb (f_of_d (d_of_Z max_diff)) (d_abs (f_of_d (d_of_Z diff))).

(** [fallen_over] after a step of the bounding box angle, and the angle
    reconstructed from it. *)
Definition next_quadrant (max_diff last_angle angle fallen_over : Z) : Z :=
  if jumped max_diff (wrap32 (last_angle - angle)) then
    if (angle <? last_angle)%Z then wrap32 (fallen_over + 1) else wrap32 (fallen_over - 1)
  else fallen_over.
Definition tracked_angle (angle fallen_over : Z) : Z :=
  cmod (cmod (wrap32 (angle + wrap32 (90 * fallen_over))) 360 + 360) 360.

(** Body of [trackAngles]. *)
Definition track_angle (max_diff : Z) (old : list container) (c : container) : res container :=
  implements ← get_string "implements" c;
  b ← inList "volatileangle" implements ",";
  if b : bool then
    a ← get_double "angle" c;
    let angle := d_to_int (radToDeg a) in
    id ← get_int "blob_id" c;
    r ← find_id id old;
    match r with
    | None =>
        pa ← new_int angle EmptyString;
        pf ← new_int 0 EmptyString;
        Ok (put_prop "fallen_over" pf (put_prop "last_angle" pa c))
    | Some o =>
        fallen_over ← get_int "fallen_over" o;
        last_angle ← get_int "last_angle" o;
        let fallen_over := next_quadrant max_diff last_angle angle fallen_over in
        pf ← new_int fallen_over EmptyString;
        pa ← new_int angle EmptyString;
        set_prop "angle" MO_PROPERTY_DOUBLE
          (VDouble (degToRad (d_of_Z (tracked_angle angle fallen_over))))
          (put_prop "last_angle" pa (put_prop "fallen_over" pf c))
    end
  else Ok c.

Definition trackAngles (max_diff : Z) (old new : list container) : res (list container) :=
  map_res (track_angle max_diff old) new.

(** ** One frame *)

(** The virtual [trackBlobs]: old blobs, new blobs and counter to new blobs
    and counter. *)
Definition Track : Type := list container → list container → Z → res (list container * Z).

Definition older (c : container) : res container :=
  age ← get_int "age" c;
  set_prop "age" MO_PROPERTY_INTEGER (VInt (wrap32 (age + 1))) c.

(** A blob of the input becomes a new blob. *)
Definition prepare (b : container) : res container :=
  blob ← clone b;
  implements ← get_string "implements" blob;
  blob ← set_prop "implements" MO_PROPERTY_STRING (VString (implements +:+ ",tracked")) blob;
  pid ← new_int 0 EmptyString;
  page ← new_int 0 EmptyString;
  Ok (put_prop "age" page (put_prop "blob_id" pid blob)).

Definition in_age (min_age max_age age : Z) : bool := (age <=? max_age)%Z && (min_age <=? age)%Z.

(** Sets the age of the first blob with that id; [None] when there is none. *)
Fixpoint set_age_of (id age : Z) (l : list container) : res (option (list container)) :=
  match l with
  | [] => Ok None
  | c :: l =>
      i ← get_int "blob_id" c;
      if (i =? id)%Z then c ← set_prop "age" MO_PROPERTY_INTEGER (VInt age) c; Ok (Some (c :: l))
      else r ← set_age_of id age l; Ok (match r with Some l => Some (c :: l) | None => None end)
  end.

(** The loop over the old blobs after the assignment: a blob that got lost
    stays for a while, one that was found again passes its age on. *)
Fixpoint keep_old (min_age max_age : Z) (old new : list container) : res (list container) :=
  match old with
  | [] => Ok new
  | o :: old =>
      oid ← get_int "blob_id" o;
      age ← get_int "age" o;
      r ← set_age_of oid (if in_age min_age max_age age then min_age else age) new;
      match r with
      | Some new => keep_old min_age max_age old new
      | None => keep_old min_age max_age old (if in_age min_age max_age age then new ++ [o] else new)
      end
  end.

Fixpoint adolescents (min_age max_age : Z) (l : list container) : res (list container) :=
  match l with
  | [] => Ok []
  | c :: l =>
      age ← get_int "age" c;
      rest ← adolescents min_age max_age l;
      Ok (if in_age min_age max_age age then c :: rest else rest)
  end.

(** [moAbstractBlobTrackerModule::update]: the list kept for the next frame,
    the list pushed on the output, and the id counter. *)
Definition tracker_update (track : Track) (min_age max_age max_diff : Z) (old blobs : list container)
    (counter : Z) : res (list container * list container * Z) :=
  old ← map_res older old;
  new ← map_res prepare blobs;
  r ← track old new counter;
  new ← trackAngles max_diff old r.1;
  new ← keep_old min_age max_age old new;
  out ← adolescents min_age max_age new;
  Ok (new, out, r.2).
