(* ===== verification/Greedy.v ===== *)
(** The greedy tracker against its specification.

    [tracked] is what a tracker relies on in a blob; [greedy_rel] is the rule the
    module promises (every new blob takes the id of the closest admissible old
    blob nobody took before, or a fresh id); [TrackLaws] is what the frame
    update needs from any implementation of [trackBlobs]. *)
From S2P Require Import Prelude StdMap Numeric Utils Property Container Tracker.

Local Open Scope Z_scope.

(** ** Blobs as a tracker sees them *)

Definition has (k : string) (c : container) : Prop := ∃ s, slot k (VString s) c.
Definition has_int (k : string) (c : container) : Prop := ∃ z, slot k (VInt z) c.

(** Does the blob's [implements] list name [w]? *)
Definition kind (w : string) (c : container) : Prop :=
  ∃ s, slot "implements" (VString s) c ∧ w ∈ words_of "," s.

Record tracked (c : container) : Prop := {
  tk_x : has "x" c;
  tk_y : has "y" c;
  tk_implements : has "implements" c;
  tk_blob_id : has_int "blob_id" c;
  tk_age : has_int "age" c;
  tk_fid : kind "fiducial" c ∨ kind "markerlessobject" c ∨ kind "volatile" c → has "fiducial_id" c;
}.

(** What a tracker may change in a blob. *)
Definition owned_keys : list string := ["blob_id"; "fiducial_id"; "age"].

(** Reading a well-formed blob. *)
Definition bid (c : container) : Z := match get_int "blob_id" c with Ok z => z | _ => 0 end.
Definition fid (c : container) : Z := match get_int "fiducial_id" c with Ok z => z | _ => 0 end.
Definition coord (k : string) (c : container) : double :=
  match get_double k c with Ok d => d | _ => dzero end.
Definition named (w : string) (c : container) : bool :=
  match get_string "implements" c with
  | Ok s => bool_decide (w ∈ words_of "," s)
  | _ => false
  end.
Definition object (c : container) : bool := named "fiducial" c || named "markerlessobject" c.

Definition dist (o c : container) : double :=
  distance (coord "x" o) (coord "y" o) (coord "x" c) (coord "y" c).

(** Could the new blob [c] be the old blob [o]?  A recognised object only
    continues an object, and the same one unless its recognition is volatile. *)
Definition admissible (c o : container) : bool :=
  if object c then object o && (named "volatile" c || (fid c =? fid o)) else true.

(** ** The rule *)

(** [greedy_rel max old used k new ids k']: the new blobs in order get [ids],
    starting with the ids [used] taken and the counter at [k]. *)
Inductive greedy_rel (max : double) (old : list container)
    : list Z → Z → list container → list Z → Z → Prop :=
  | greedy_done used k : greedy_rel max old used k [] [] k
  | greedy_match used k c o new ids k' :
      o ∈ old → bid o ∉ used → admissible c o = true →
      d_ltb (dist o c) max = true →
      (∀ o', o' ∈ old → bid o' ∉ used → admissible c o' = true →
         d_ltb (dist o' c) (dist o c) = false) →
      greedy_rel max old (used ++ [bid o]) k new ids k' →
      greedy_rel max old used k (c :: new) (bid o :: ids) k'
  | greedy_fresh used k c new ids k' :
      (∀ o', o' ∈ old → bid o' ∉ used → admissible c o' = true → d_ltb (dist o' c) max = false) →
      greedy_rel max old used (k + 1) new ids k' →
      greedy_rel max old used k (c :: new) (k + 1 :: ids) k'.

(** ** The interface between the frame update and [trackBlobs] *)

Record track_pre (old new : list container) (counter : Z) : Prop := {
  tp_old : Forall tracked old;
  tp_new : Forall tracked new;
  tp_distinct : NoDup (bid <$> old);
  tp_bound : Forall (λ o, bid o <= counter) old;
  tp_counter : 0 <= counter /\ counter + Z.of_nat (length new) <= INT_MAX;
}.

Record track_post (old new : list container) (counter : Z) (new' : list container) (counter' : Z)
    : Prop := {
  tq_frame : Forall2 (same_but owned_keys) new new';
  tq_tracked : Forall tracked new';
  tq_distinct : NoDup (bid <$> new');
  tq_counter : counter <= counter' /\ counter' <= counter + Z.of_nat (length new);
  tq_ids : Forall (λ c, bid c ∈ (bid <$> old) ∨ (counter < bid c /\ bid c <= counter')) new';
}.

Class TrackLaws (track : Track) : Prop :=
  track_ok old new counter :
    track_pre old new counter →
    ∃ new' counter', track old new counter = Ok (new', counter')
      ∧ track_post old new counter new' counter'.

(** ** Reading a tracked blob *)

Lemma bid_slot z c : slot "blob_id" (VInt z) c → bid c = z.
Proof. intros H. unfold bid. by rewrite (get_int_slot _ _ _ H). Qed.

Lemma tracked_bid c : tracked c → slot "blob_id" (VInt (bid c)) c.
Proof. intros [_ _ _ [z Hz] _ _]. by rewrite (bid_slot z). Qed.

Lemma get_bid c : tracked c → get_int "blob_id" c = Ok (bid c).
Proof. intros H. by apply get_int_slot, tracked_bid. Qed.

Lemma get_coord k c : has k c → get_double k c = Ok (coord k c).
Proof. intros [s Hs]. unfold coord. by rewrite (get_double_string _ _ _ Hs). Qed.

Lemma get_fid c : has "fiducial_id" c → get_int "fiducial_id" c = Ok (fid c).
Proof. intros [s Hs]. unfold fid. by rewrite (get_int_string _ _ _ Hs). Qed.

Lemma named_kind w c : named w c = true → has "implements" c → kind w c.
Proof.
  intros Hn [s Hs]. exists s. split; [done|]. unfold named in Hn.
  rewrite (get_string_slot _ _ _ Hs) in Hn. by apply bool_decide_eq_true in Hn.
Qed.

Lemma in_implements w c :
  has "implements" c → (s ← get_string "implements" c; inList w s ",") = Ok (named w c).
Proof.
  intros [s Hs]. unfold named. rewrite (get_string_slot _ _ _ Hs). simpl. apply inList_words.
Qed.

Lemma read_implements c :
  has "implements" c →
  ∃ s, get_string "implements" c = Ok s ∧ is_fid s = Ok (object c)
       ∧ ∀ w, inList w s "," = Ok (named w c).
Proof.
  intros [s Hs]. exists s. pose proof (get_string_slot _ _ _ Hs) as Hg.
  assert (∀ w, inList w s "," = Ok (named w c)) as Hin.
  { intros w. unfold named. rewrite Hg. apply inList_words. }
  split_and!; [done| |done]. unfold is_fid, object. rewrite !Hin. simpl.
  by destruct (named "fiducial" c).
Qed.

Lemma object_fid c : tracked c → object c = true → has "fiducial_id" c.
Proof.
  intros Hc Ho. apply (tk_fid c Hc). unfold object in Ho.
  apply orb_true_iff in Ho as [Ho|Ho]; (apply named_kind in Ho; [|apply Hc]); auto.
Qed.

Lemma volatile_fid c : tracked c → named "volatile" c = true → has "fiducial_id" c.
Proof. intros Hc Hv. apply (tk_fid c Hc). right; right. apply named_kind; [done|apply Hc]. Qed.

(** Nothing a tracker writes touches what the matching reads. *)
Lemma kind_same ks w c c' :
  "implements" ∉ ks → same_but ks c c' → kind w c' → kind w c.
Proof.
  intros Hk Hs (s & Hsl & Hw). exists s. split; [|done].
  destruct Hsl as (p & Hp & Hr). exists p. by rewrite <-Hs.
Qed.

Lemma has_same ks k c c' : same_but ks c c' → k ∉ ks → has k c → has k c'.
Proof. intros Hs Hk [s Hc]. exists s. by eapply slot_same. Qed.
Lemma has_int_same ks k c c' : same_but ks c c' → k ∉ ks → has_int k c → has_int k c'.
Proof. intros Hs Hk [s Hc]. exists s. by eapply slot_same. Qed.

(** The keys a frame may rewrite in a blob it tracks. *)
Definition frame_keys : list string :=
  ["blob_id"; "fiducial_id"; "age"; "angle"; "last_angle"; "fallen_over"].

Lemma tracked_same c c' :
  same_but frame_keys c c' → tracked c → has_int "blob_id" c' → has_int "age" c' →
  (has "fiducial_id" c → has "fiducial_id" c') → tracked c'.
Proof.
  intros Hs [Hx Hy Hi Hb Ha Hf] Hb' Ha' Hf'.
  split; try done; try (by eapply has_same; [exact Hs|set_solver|]).
  intros Hk. apply Hf', Hf.
  destruct Hk as [Hk|[Hk|Hk]]; [left|right; left|right; right];
    (eapply kind_same; [|exact Hs|exact Hk]; set_solver).
Qed.

Lemma owned_frame c c' : same_but owned_keys c c' → same_but frame_keys c c'.
Proof. apply same_but_sub. unfold owned_keys, frame_keys. set_solver. Qed.

(** ** The inner loop *)

Definition nv_of (c : container) : new_view :=
  {| nv_x := coord "x" c; nv_y := coord "y" c; nv_fid := object c; nv_volatile := named "volatile" c |}.

Lemma view_eq c : tracked c → view c = Ok (nv_of c).
Proof.
  intros Hc. unfold view, nv_of. destruct (read_implements c (tk_implements c Hc)) as (s & -> & Hf & Hi).
  rewrite (get_coord "x"), (get_coord "y") by apply Hc. simpl. rewrite Hf, Hi. done.
Qed.

(** An old blob that [c] may still take. *)
Definition free_for (c : container) (used : list Z) (o : container) : bool :=
  bool_decide (bid o ∉ used) && admissible c o.

Lemma candidate_eq c used o :
  tracked c → tracked o → candidate c (nv_of c) used o = Ok (free_for c used o).
Proof.
  intros Hc Ho. unfold candidate, free_for, admissible. rewrite (get_bid o) by done. simpl.
  case_bool_decide as Hu; [by rewrite bool_decide_eq_false_2 by tauto|].
  rewrite bool_decide_eq_true_2 by done. simpl.
  destruct (read_implements o (tk_implements o Ho)) as (s & -> & Hf & _). simpl. rewrite Hf. simpl.
  destruct (object o) eqn:Eo, (object c) eqn:Ec; simpl; try done.
  destruct (named "volatile" c) eqn:Ev; simpl; [done|].
  rewrite !get_fid by eauto using object_fid. simpl. by destruct (_ =? _).
Qed.

Lemma closest_spec c used old b m :
  tracked c → Forall tracked old →
  ∃ b' m', closest c (nv_of c) used old b m = Ok b'
    ∧ ((b' = b ∧ m' = m)
       ∨ ∃ o, o ∈ old ∧ b' = Some o ∧ m' = dist o c ∧ free_for c used o = true
              ∧ d_ltb m' m = true)
    ∧ ∀ o, o ∈ old → free_for c used o = true → d_ltb (dist o c) m' = false.
Proof.
  intros Hc. revert b m. induction old as [|o old IH]; intros b m Hold; simpl.
  { exists b, m. split_and!; [done|by left|by intros ? ?%elem_of_nil]. }
  apply Forall_cons in Hold as [Ho Hold]. rewrite candidate_eq by done. simpl.
  destruct (free_for c used o) eqn:Ef.
  - rewrite (get_coord "x"), (get_coord "y") by apply Ho. simpl.
    change (distance _ _ _ _) with (dist o c). destruct (d_ltb (dist o c) m) eqn:El.
    + destruct (IH (Some o) (dist o c) Hold) as (b' & m' & -> & Hb & Hmin).
      exists b', m'. split_and!; [done| |].
      * right. destruct Hb as [[-> ->]|(o' & Ho' & -> & -> & Hf & Hl)].
        -- exists o. split_and!; try done. by left.
        -- exists o'. split_and!; try done; [by right|by eapply d_ltb_trans].
      * intros o' [->|Ho']%elem_of_cons Hf; [|by apply Hmin].
        destruct (d_ltb (dist o c) m') eqn:E; [|done].
        destruct Hb as [[-> ->]|(o' & _ & _ & -> & _ & Hl)];
          [by rewrite d_ltb_irrefl in E|].
        by rewrite <-(d_ltb_irrefl (dist o c)), (d_ltb_trans _ _ _ E Hl).
    + destruct (IH b m Hold) as (b' & m' & -> & Hb & Hmin). exists b', m'. split_and!; [done| |].
      * destruct Hb as [Hb|(o' & Ho' & Hr)]; [by left|right; exists o'; split; [by right|done]].
      * intros o' [->|Ho']%elem_of_cons Hf; [|by apply Hmin].
        destruct (d_ltb (dist o c) m') eqn:E; [|done].
        destruct Hb as [[-> ->]|(o' & _ & _ & -> & _ & Hl)]; [congruence|].
        by rewrite (d_ltb_trans _ _ _ E Hl) in El.
  - destruct (IH b m Hold) as (b' & m' & -> & Hb & Hmin). exists b', m'. split_and!; [done| |].
    + destruct Hb as [Hb|(o' & Ho' & Hr)]; [by left|right; exists o'; split; [by right|done]].
    + intros o' [->|Ho']%elem_of_cons Hf; [congruence|by apply Hmin].
Qed.

(** ** The loops over the new blobs *)

(** A blob after the assignment: only its id and fiducial id changed. *)
Definition assigned (c : container) (id : Z) (c' : container) : Prop :=
  tracked c' ∧ bid c' = id ∧ same_but owned_keys c c'.

Lemma set_bid c z :
  tracked c → ∃ c', set_prop "blob_id" MO_PROPERTY_INTEGER (VInt z) c = Ok c' ∧ assigned c z c'
                    ∧ same_but ["blob_id"] c c'.
Proof.
  intros Hc. destruct (set_prop_int "blob_id" (bid c) z c) as (c' & Hs & Hsl & Hsame);
    [by apply tracked_bid|].
  assert (same_but owned_keys c c')
    by (eapply same_but_sub; [|done]; unfold owned_keys; set_solver).
  exists c'. split_and!; [done|split_and!; [|by apply bid_slot|done]|done].
  apply (tracked_same c); [by apply owned_frame|done|by eexists| |].
  - eapply has_int_same; [exact Hsame|set_solver|apply Hc].
  - eapply has_same; [exact Hsame|set_solver].
Qed.

Lemma set_fid c z :
  tracked c → has "fiducial_id" c →
  ∃ c', set_prop "fiducial_id" MO_PROPERTY_INTEGER (VInt z) c = Ok c' ∧ assigned c (bid c) c'.
Proof.
  intros Hc [s Hf].
  destruct (set_prop_string "fiducial_id" s (VInt z) (snprintf 64 (print_int z)) c)
    as (c' & Hs & Hsl & Hsame); [done|done|]. exists c'.
  assert (same_but owned_keys c c')
    by (eapply same_but_sub; [|done]; unfold owned_keys; set_solver).
  split; [done|]. split_and!; [|apply bid_slot|done].
  - apply (tracked_same c); [by apply owned_frame|done| | |by eexists].
    all: eapply has_int_same; [exact Hsame|set_solver|apply Hc].
  - eapply slot_same; [exact Hsame|set_solver|by apply tracked_bid].
Qed.

Lemma free_for_iff c used o :
  free_for c used o = true ↔ (bid o ∉ used) ∧ admissible c o = true.
Proof. unfold free_for. by rewrite andb_true_iff, bool_decide_eq_true. Qed.

Lemma greedy_assign_spec max old used k c :
  tracked c → Forall tracked old → 0 <= k → k + 1 <= INT_MAX →
  ∃ c' used' k', greedy_assign max old used k c = Ok (c', used', k')
    ∧ ∃ id, assigned c id c'
    ∧ ∀ new ids k'', greedy_rel max old used' k' new ids k'' →
                     greedy_rel max old used k (c :: new) (id :: ids) k''.
Proof.
  intros Hc Hold Hk Hk'. unfold greedy_assign. rewrite view_eq by done. simpl.
  destruct (closest_spec c used old None max Hc Hold) as (b & m & -> & Hb & Hmin). simpl.
  destruct Hb as [[-> ->]|(o & Ho & -> & -> & Hf & Hl)].
  - assert (pincrement k = k + 1) as ->.
    { apply wrap32_id, in_int_iff. unfold INT_MAX in *. lia. }
    destruct (set_bid c (k + 1) Hc) as (c' & -> & Hc' & _). simpl.
    do 3 eexists. split; [done|]. exists (k + 1). split; [done|]. intros.
    apply greedy_fresh; [|done]. intros o' Ho' ??. apply Hmin; [done|by apply free_for_iff].
  - assert (tracked o) as Hto by (by eapply Forall_forall in Hold).
    apply free_for_iff in Hf as [Hu Ha].
    assert (∀ new ids k'', greedy_rel max old (used ++ [bid o]) k new ids k'' →
              greedy_rel max old used k (c :: new) (bid o :: ids) k'') as Hstep.
    { intros. eapply greedy_match; try done.
      intros o' ???. apply Hmin; [done|by apply free_for_iff]. }
    rewrite (get_bid o) by done. simpl.
    destruct (set_bid c (bid o) Hc) as (c' & -> & Hc' & Hsame). simpl.
    destruct (read_implements o (tk_implements o Hto)) as (s & -> & Hof & _). simpl. rewrite Hof. simpl.
    destruct (object o && object c && named "volatile" c) eqn:Ev; simpl.
    + apply andb_true_iff in Ev as [[Eo Ec]%andb_true_iff _].
      rewrite get_fid by (by apply object_fid). simpl.
      destruct Hc' as (Htc & Hbc & Hsc).
      destruct (set_fid c' (fid o) Htc) as (c'' & -> & Htc' & Hbc' & Hsc').
      { eapply has_same; [exact Hsame|set_solver|by apply object_fid]. }
      simpl. do 3 eexists. split; [done|]. exists (bid o). split; [|done].
      split_and!; [done|congruence|by eapply same_but_trans].
    + do 3 eexists. split; [done|]. by exists (bid o).
Qed.

Lemma greedy_loop_spec max old new : ∀ used k,
  Forall tracked new → Forall tracked old → 0 <= k → k + Z.of_nat (length new) <= INT_MAX →
  ∃ new' ids k', greedy_loop max old used k new = Ok (new', k')
    ∧ greedy_rel max old used k new ids k'
    ∧ bid <$> new' = ids ∧ Forall tracked new' ∧ Forall2 (same_but owned_keys) new new'.
Proof.
  induction new as [|c new IH]; intros used k Hnew Hold Hk Hlen; simpl.
  { exists [], [], k. split_and!; try done. constructor. }
  apply Forall_cons in Hnew as [Hc Hnew]. simpl in Hlen.
  destruct (greedy_assign_spec max old used k c) as (c' & used' & k' & -> & id & (Ht & Hb & Hs) & Hrel);
    [done|done|done|lia|]. simpl.
  assert (0 <= k' /\ k' <= k + 1) as [??].
  { specialize (Hrel [] [] k' (greedy_done _ _ _ _)). inversion Hrel; subst;
      match goal with H : greedy_rel _ _ _ _ [] _ _ |- _ => inversion H; subst end; lia. }
  destruct (IH used' k') as (new' & ids & k'' & -> & Hr & Hids & Hts & Hfs); [done|done|done|lia|].
  exists (c' :: new'), (id :: ids), k''.
  split_and!; [done|by apply Hrel|by rewrite fmap_cons, Hb, Hids|by constructor|by constructor].
Qed.

Lemma get_kind c w :
  tracked c → (s ← get_string "implements" c; inList w s ",") = Ok (named w c).
Proof. intros Hc. apply in_implements, Hc. Qed.

(** Expiry only touches the age. *)
Lemma expire_spec max_age c :
  tracked c →
  ∃ c', expire max_age c = Ok c' ∧ assigned c (bid c) c'
    ∧ (named "volatile" c = true → fid c = -1 → slot "age" (VInt (wrap32 (max_age + 1))) c').
Proof.
  intros Hc. unfold expire.
  destruct (read_implements c (tk_implements c Hc)) as (s & -> & _ & Hi). simpl. rewrite Hi. simpl.
  destruct (named "volatile" c) eqn:Ev; simpl; [|by exists c; split_and!].
  rewrite get_fid by (by apply volatile_fid). simpl.
  destruct (Z.eqb_spec (fid c) (-1)) as [E|E]; simpl; [|by exists c; split_and!].
  destruct (tk_age c Hc) as [z Hz].
  destruct (set_prop_int "age" z (wrap32 (max_age + 1)) c Hz) as (c' & -> & Hsl & Hs).
  exists c'. split; [done|]. split; [|done].
  assert (same_but owned_keys c c')
    by (eapply same_but_sub; [|done]; unfold owned_keys; set_solver).
  split_and!; [|apply bid_slot|done].
  - apply (tracked_same c); [by apply owned_frame|done| |by eexists|].
    + eapply has_int_same; [exact Hs|set_solver|apply Hc].
    + eapply has_same; [exact Hs|set_solver].
  - eapply slot_same; [exact Hs|set_solver|by apply tracked_bid].
Qed.

Lemma map_res_Forall2 {A B} (f : A → res B) (P : A → Prop) (Q : A → B → Prop) l :
  (∀ a, P a → ∃ b, f a = Ok b ∧ Q a b) → Forall P l →
  ∃ l', map_res f l = Ok l' ∧ Forall2 Q l l'.
Proof.
  intros Hf. induction 1 as [|a l Ha _ (l' & IH & Hl)]; simpl; [by eexists|].
  destruct (Hf a Ha) as (b & -> & Hb). simpl. rewrite IH. simpl. eexists. by split; [|constructor].
Qed.

Lemma greedy_spec max_age max old new k :
  track_pre old new k →
  ∃ new' k', greedy_trackBlobs max_age max old new k = Ok (new', k')
    ∧ greedy_rel max old [] k new (bid <$> new') k'
    ∧ Forall tracked new' ∧ Forall2 (same_but owned_keys) new new'.
Proof.
  intros [Hold Hnew _ _ [Hk Hk']]. unfold greedy_trackBlobs.
  destruct (greedy_loop_spec max old new [] k) as (l & ids & k' & -> & Hr & <- & Ht & Hs);
    [done..|]. simpl.
  destruct (map_res_Forall2 (expire max_age) tracked (λ c c', assigned c (bid c) c') l)
    as (l' & -> & Hl); [|done|].
  { intros c Hc. destruct (expire_spec max_age c Hc) as (c' & -> & Ha & _). eauto. }
  simpl. exists l', k'. split_and!; [done| | |].
  - replace (bid <$> l') with (bid <$> l); [done|].
    clear -Hl. induction Hl as [|c c' l l' (_ & Hb & _) _ IH]; [done|].
    by rewrite !fmap_cons, IH, Hb.
  - clear -Hl. induction Hl as [|c c' l l' (? & _) _ IH]; by constructor.
  - clear -Hl Hs. revert new Hs. induction Hl as [|c c' l l' (_ & _ & Hc) _ IH]; intros new Hs;
      inversion Hs; subst; constructor; [by eapply same_but_trans|by apply IH].
Qed.

(** ** What the rule guarantees *)

Lemma greedy_rel_ids max old used k new ids k' :
  greedy_rel max old used k new ids k' → Forall (λ o, bid o <= k) old →
  NoDup ids
  ∧ Forall (λ i, ((i ∉ used) ∧ i ∈ bid <$> old) ∨ (k < i /\ i <= k')) ids
  ∧ (k <= k' /\ k' <= k + Z.of_nat (length new)).
Proof.
  induction 1 as [used k|used k c o new ids k' Ho Hu Ha Hd Hmin Hr IH|used k c new ids k' Hmin Hr IH];
    intros Hb.
  - split_and!; [apply NoDup_nil_2|apply Forall_nil_2|simpl; lia..].
  - destruct (IH Hb) as (Hnd & Hall & Hk). simpl. split_and!.
    + apply NoDup_cons. split; [|done]. intros Hin.
      eapply Forall_forall in Hall; [|done]. eapply Forall_forall in Hb; [|done].
      destruct Hall as [[Hx _]|Hx]; [set_solver|simpl in Hb; lia].
    + constructor; [left; split; [done|by apply list_elem_of_fmap_2]|].
      eapply Forall_impl; [done|]. intros i [[Hi ?]|?]; [left; set_solver|auto].
    + lia.
    + lia.
  - destruct IH as (Hnd & Hall & Hk).
    { eapply Forall_impl; [done|]. simpl. lia. }
    simpl. split_and!.
    + apply NoDup_cons. split; [|done]. intros Hin. eapply Forall_forall in Hall; [|done].
      destruct Hall as [[_ Hx]|Hx]; [|lia]. apply list_elem_of_fmap in Hx as (o & Heq & Ho).
      eapply Forall_forall in Hb; [|done]. simpl in Hb. lia.
    + constructor; [right; lia|]. eapply Forall_impl; [done|]. intros i [?|?]; [auto|right; lia].
    + lia.
    + lia.
Qed.

#[export] Instance greedy_track_laws max_age max : TrackLaws (greedy_trackBlobs max_age max).
Proof.
  intros old new k Hpre. pose proof Hpre as [_ _ _ Hb _].
  destruct (greedy_spec max_age max old new k Hpre) as (new' & k' & Heq & Hr & Ht & Hs).
  destruct (greedy_rel_ids _ _ _ _ _ _ _ Hr Hb) as (Hnd & Hall & Hk).
  exists new', k'. split; [done|]. split; [done|done|done|done|].
  rewrite Forall_fmap in Hall. eapply Forall_impl; [done|]. intros c [[_ ?]|?]; simpl; auto.
Qed.

(** ** Properties *)

(** C5: the greedy tracker implements its rule.  On well-formed blobs it
    returns; each new blob takes the id of an admissible old blob nearer than
    [max_distance] that no earlier blob took and than which no other free
    admissible old blob is nearer, and gets the next value of the counter exactly
    when there is none; the ids of the frame are pairwise distinct, and nothing
    but id, fiducial id and age changes. *)
Theorem greedy_tracks (max_age : Z) (max_distance : double) (old new : list container) (k : Z) :
  track_pre old new k →
  ∃ new' k', greedy_trackBlobs max_age max_distance old new k = Ok (new', k')
    ∧ greedy_rel max_distance old [] k new (bid <$> new') k'
    ∧ NoDup (bid <$> new')
    ∧ Forall2 (same_but owned_keys) new new'.
Proof.
  intros Hpre. destruct (greedy_spec max_age max_distance old new k Hpre)
    as (new' & k' & Heq & Hr & Ht & Hs).
  exists new', k'. split_and!; [done|done| |done].
  by eapply greedy_rel_ids; [done|apply Hpre].
Qed.

(** A blob with id [id] at ([x], [y]). *)
Definition demo_blob (id : Z) (x y : string) : container :=
  put_prop "age" (alloc MO_PROPERTY_INTEGER (VInt 4) EmptyString)
    (put_prop "blob_id" (alloc MO_PROPERTY_INTEGER (VInt id) EmptyString)
      (put_prop "x" (string_prop x)
        (put_prop "y" (string_prop y)
          (put_prop "implements" (string_prop "pos,tracked") new_container)))).

Lemma demo_blob_tracked id x y : tracked (demo_blob id x y).
Proof.
  split.
  1-5: unfold has, has_int; eexists; eexists; by split_and!.
  intros H. exfalso. destruct H as [H|[H|H]]; destruct H as (s & (p & Hp & _ & Hv & _) & Hw);
    vm_compute in Hp; simplify_eq; vm_compute in Hv; simplify_eq; by vm_compute in Hw; set_solver.
Qed.

Lemma demo_blob_bid id x y : bid (demo_blob id x y) = id.
Proof. apply bid_slot. eexists. by split_and!. Qed.

Lemma demo_pre :
  track_pre [demo_blob 1 "0.5" "0.5"; demo_blob 2 "0.2" "0.2"]
            [demo_blob 0 "0.21" "0.2"; demo_blob 0 "0.9" "0.9"] 2.
Proof.
  split; [repeat constructor; apply demo_blob_tracked..| | |].
  - rewrite !fmap_cons, !demo_blob_bid. apply (bool_decide_unpack _). by vm_compute.
  - repeat constructor; rewrite demo_blob_bid; lia.
  - unfold INT_MAX. simpl. lia.
Qed.

Lemma greedy_tracks_witness :
  ∃ new' k', greedy_trackBlobs 10 (atof "0.1") [demo_blob 1 "0.5" "0.5"; demo_blob 2 "0.2" "0.2"]
               [demo_blob 0 "0.21" "0.2"; demo_blob 0 "0.9" "0.9"] 2 = Ok (new', k')
    ∧ greedy_rel (atof "0.1") [demo_blob 1 "0.5" "0.5"; demo_blob 2 "0.2" "0.2"] [] 2
        [demo_blob 0 "0.21" "0.2"; demo_blob 0 "0.9" "0.9"] (bid <$> new') k'
    ∧ NoDup (bid <$> new')
    ∧ Forall2 (same_but owned_keys) [demo_blob 0 "0.21" "0.2"; demo_blob 0 "0.9" "0.9"] new'.
Proof. apply (greedy_tracks 10 (atof "0.1")). apply demo_pre. Defined.

Example greedy_demo :
  match greedy_trackBlobs 10 (atof "0.1") [demo_blob 1 "0.5" "0.5"; demo_blob 2 "0.2" "0.2"]
          [demo_blob 0 "0.21" "0.2"; demo_blob 0 "0.9" "0.9"] 2 with
  | Ok (l, k) => bid <$> l = [2; 3] ∧ k = 3
  | Fault _ => False
  end.
Proof. vm_compute. by split. Qed.
