(* ===== verification/Tracking.v ===== *)
(** The frame update of the blob trackers, for any [trackBlobs] that keeps
    [TrackLaws]: it returns, the invariant of the tracker holds again, and the
    blobs sent down the pipeline are the ones of the right age. *)
From S2P Require Import Prelude StdMap Numeric Utils Property Container Tracker Greedy.

Local Open Scope Z_scope.

(** ** Ages *)

Definition age_of (c : container) : Z := match get_int "age" c with Ok z => z | _ => 0 end.

Definition set_age (z : Z) (c : container) : container :=
  match set_prop "age" MO_PROPERTY_INTEGER (VInt z) c with Ok c' => c' | Fault _ => c end.

Lemma tracked_age c : tracked c → slot "age" (VInt (age_of c)) c.
Proof. intros [_ _ _ _ [z Hz] _]. unfold age_of. by rewrite (get_int_slot _ _ _ Hz). Qed.

Lemma get_age c : tracked c → get_int "age" c = Ok (age_of c).
Proof. intros H. by apply get_int_slot, tracked_age. Qed.

Lemma set_age_spec z c :
  tracked c →
  set_prop "age" MO_PROPERTY_INTEGER (VInt z) c = Ok (set_age z c)
  ∧ same_but ["age"] c (set_age z c) ∧ age_of (set_age z c) = z.
Proof.
  intros Hc. destruct (set_prop_int "age" (age_of c) z c (tracked_age c Hc)) as (c' & Hs & Hsl & Hb).
  unfold set_age at 2 3. rewrite Hs. split_and!; [by unfold set_age; rewrite Hs|done|].
  unfold age_of. by rewrite (get_int_slot _ _ _ Hsl).
Qed.

Lemma bid_same ks c c' : same_but ks c c' → "blob_id" ∉ ks → bid c' = bid c.
Proof. intros Hs Hk. unfold bid, get_int, prop_at. by rewrite Hs. Qed.

Lemma named_same ks w c c' : same_but ks c c' → "implements" ∉ ks → named w c' = named w c.
Proof. intros Hs Hk. unfold named, get_string, prop_at. by rewrite Hs. Qed.

Lemma set_age_same z c : tracked c → same_but ["age"] c (set_age z c).
Proof. intros Hc. apply (set_age_spec z c Hc). Qed.

Lemma set_age_bid z c : tracked c → bid (set_age z c) = bid c.
Proof. intros Hc. eapply bid_same; [by apply set_age_same|set_solver]. Qed.

Lemma set_age_tracked z c : tracked c → tracked (set_age z c).
Proof.
  intros Hc. pose proof (set_age_same z c Hc) as Hs. apply (tracked_same c); [|done|..].
  - eapply same_but_sub; [|done]. unfold frame_keys. set_solver.
  - eapply has_int_same; [exact Hs|set_solver|apply Hc].
  - exists z. destruct (set_prop_int "age" (age_of c) z c (tracked_age c Hc)) as (c' & E & ? & _).
    unfold set_age. by rewrite E.
  - eapply has_same; [exact Hs|set_solver].
Qed.

(** ** Blobs that are lost or found again *)

Section Ages.
  Variables min_age max_age : Z.

(** The age a blob inherits from the old blob it continues. *)
Definition passed_on (o : container) : Z :=
  if in_age min_age max_age (age_of o) then min_age else age_of o.

Fixpoint find_old (id : Z) (old : list container) : option container :=
  match old with
  | [] => None
  | o :: old => if bid o =? id then Some o else find_old id old
  end.

(** A new blob once it has met the old blob with its id. *)
Definition aged (old : list container) (c : container) : container :=
  match find_old (bid c) old with Some o => set_age (passed_on o) c | None => c end.

(** The old blobs nobody continues that stay for a while. *)
Definition lost (ids : list Z) (old : list container) : list container :=
  filter (λ o, (bid o ∉ ids) ∧ in_age min_age max_age (age_of o) = true) old.

Lemma find_old_None id old : id ∉ bid <$> old → find_old id old = None.
Proof.
  induction old as [|o old IH]; [done|]. rewrite fmap_cons. intros Hn. simpl.
  destruct (Z.eqb_spec (bid o) id); [set_solver|]. apply IH. set_solver.
Qed.

Lemma aged_other o old (new : list container) :
  bid o ∉ bid <$> new → aged (o :: old) <$> new = aged old <$> new.
Proof.
  intros Hin. induction new as [|c l IH]; [done|]. rewrite !fmap_cons in *.
  rewrite IH by set_solver. f_equal. unfold aged. simpl.
  destruct (Z.eqb_spec (bid o) (bid c)); [set_solver|done].
Qed.

Lemma lost_ext ids ids' old :
  (∀ o, o ∈ old → bid o ∈ ids ↔ bid o ∈ ids') → lost ids old = lost ids' old.
Proof.
  unfold lost. induction old as [|o old IH]; intros H; [done|]. rewrite !filter_cons.
  rewrite IH by (intros; apply H; by right).
  destruct (H o) as [H1 H2]; [by left|]. repeat case_decide; naive_solver.
Qed.

Lemma set_age_of_spec id z l :
  Forall tracked l → NoDup (bid <$> l) →
  set_age_of id z l =
    Ok (if bool_decide (id ∈ bid <$> l)
        then Some ((λ c, if bid c =? id then set_age z c else c) <$> l) else None).
Proof.
  induction l as [|c l IH]; intros Ht Hnd; [done|]. apply Forall_cons in Ht as [Hc Ht].
  rewrite fmap_cons in *. apply NoDup_cons in Hnd as [Hn Hnd]. simpl. rewrite get_bid by done. simpl.
  destruct (Z.eqb_spec (bid c) id) as [E|E].
  - destruct (set_age_spec z c Hc) as (-> & _ & _). simpl.
    rewrite bool_decide_eq_true_2 by (subst; set_solver). do 2 f_equal. f_equal.
    clear IH Ht Hnd. subst. induction l as [|c' l IH]; [done|]. rewrite fmap_cons in *.
    destruct (Z.eqb_spec (bid c') (bid c)); [set_solver|]. f_equal. apply IH. set_solver.
  - rewrite IH by done. simpl. f_equal.
    case_bool_decide; [rewrite bool_decide_eq_true_2 by set_solver|
      rewrite bool_decide_eq_false_2 by set_solver]; done.
Qed.

Lemma keep_old_spec old : ∀ new,
  Forall tracked old → Forall tracked new → NoDup (bid <$> old) → NoDup (bid <$> new) →
  keep_old min_age max_age old new = Ok ((aged old <$> new) ++ lost (bid <$> new) old).
Proof.
  induction old as [|o old IH]; intros new Ho Hn Hdo Hdn; simpl.
  { unfold lost, aged. simpl. by rewrite list_fmap_id, app_nil_r. }
  apply Forall_cons in Ho as [Ho Hold]. rewrite fmap_cons in Hdo.
  apply NoDup_cons in Hdo as [Hno Hdo].
  rewrite get_bid, get_age by done. simpl. rewrite set_age_of_spec by done. simpl.
  fold (passed_on o). case_bool_decide as Hin; simpl.
  - set (f := λ c, if bid c =? bid o then set_age (passed_on o) c else c).
    assert (∀ c, tracked c → bid (f c) = bid c) as Hbid.
    { intros c Hc. unfold f. destruct (_ =? _); [by apply set_age_bid|done]. }
    assert (bid <$> (f <$> new) = bid <$> new) as Hids.
    { clear -Hn Hbid. induction Hn; [done|]. rewrite !fmap_cons. f_equal; auto. }
    rewrite IH; [|done| |done|by rewrite Hids].
    2: { apply Forall_fmap. eapply Forall_impl; [done|]. intros c Hc. simpl. unfold f.
         destruct (_ =? _); [by apply set_age_tracked|done]. }
    rewrite Hids. f_equal. f_equal.
    + rewrite <-list_fmap_compose. clear -Hn Hbid Hno. induction Hn as [|c l Hc _ IH]; [done|].
      rewrite !fmap_cons, IH. f_equal. unfold compose, aged. rewrite Hbid by done. simpl. unfold f.
      rewrite (Z.eqb_sym (bid o)). destruct (Z.eqb_spec (bid c) (bid o)) as [E|E]; [|done].
      by rewrite E, find_old_None.
    + unfold lost. rewrite (filter_cons_False _ o); [done|tauto].
  - assert (tracked o) as Ht by done. destruct (in_age _ _ (age_of o)) eqn:Ea.
    + rewrite IH; [|done|by apply Forall_app; split; [|constructor]|done|].
      2: { rewrite fmap_app. apply NoDup_app. split_and!; [done| |apply NoDup_singleton].
           intros x Hx. simpl. intros ->%list_elem_of_singleton. done. }
      rewrite fmap_app, <-app_assoc. f_equal. f_equal.
      * by rewrite aged_other.
      * simpl. unfold aged. rewrite find_old_None by done. unfold lost.
        rewrite (filter_cons_True _ o) by (by split). f_equal. apply lost_ext.
        intros o' Ho'. rewrite fmap_app, elem_of_app. simpl. rewrite list_elem_of_singleton.
        split; [|auto]. intros [?|E]; [done|]. exfalso. apply Hno. rewrite <-E.
        by apply list_elem_of_fmap_2.
    + rewrite IH by done. f_equal. f_equal.
      * by rewrite aged_other.
      * unfold lost. rewrite (filter_cons_False _ o); [done|]. intros [_ ?]. congruence.
Qed.

Lemma adolescents_spec l :
  Forall tracked l →
  adolescents min_age max_age l = Ok (filter (λ c, in_age min_age max_age (age_of c) = true) l).
Proof.
  induction 1 as [|c l Hc _ IH]; [done|]. simpl. rewrite get_age, IH by done. simpl.
  rewrite filter_cons. f_equal. by destruct (in_age _ _ _) eqn:E; case_decide; congruence.
Qed.
End Ages.

(** ** From the input stream to the new blobs *)

(** What a finder promises of the blobs it emits; [va] says whether it leaves
    the tracking of angles to the tracker. *)
Record raw (va : bool) (b : container) : Prop := {
  raw_wf : container_wf b;
  raw_has : hasProperty "x" b = true /\ hasProperty "y" b = true
            /\ hasProperty "implements" b = true;
  raw_fid : (named "fiducial" b || named "markerlessobject" b || named "volatile" b) = true →
            hasProperty "fiducial_id" b = true;
  raw_va : named "volatileangle" b = va;
  raw_angle : va = true → hasProperty "angle" b = true;
}.

(** A blob the tracker keeps from one frame to the next. *)
Record kept_blob (va : bool) (c : container) : Prop := {
  kb_tracked : tracked c;
  kb_va : named "volatileangle" c = va;
  kb_angle : va = true → has_int "fallen_over" c ∧ has_int "last_angle" c;
}.

(** A new blob before its angle is tracked. *)
Definition fresh_blob (va : bool) (c : container) : Prop :=
  tracked c ∧ named "volatileangle" c = va ∧ (va = true → has "angle" c).

Lemma prepare_spec va b : raw va b → ∃ c, prepare b = Ok c ∧ fresh_blob va c ∧ age_of c = 0.
Proof.
  intros [Hwf (Hx & Hy & Hi) Hfid Hva Hang]. unfold prepare.
  destruct (clone_spec b Hwf) as (c & Hcl & _ & _). rewrite Hcl. simpl.
  destruct (clone_slot b c "x" Hwf Hcl Hx) as (sx & _ & Sx).
  destruct (clone_slot b c "y" Hwf Hcl Hy) as (sy & _ & Sy).
  destruct (clone_slot b c "implements" Hwf Hcl Hi) as (si & Gi & Si).
  rewrite (get_string_slot _ _ _ Si). simpl.
  destruct (set_prop_string "implements" si (VString (si +:+ ",tracked")) (si +:+ ",tracked") c Si)
    as (c1 & E1 & S1 & B1); [done|]. simpl in E1. rewrite E1. simpl.
  set (c2 := put_prop "blob_id" _ c1). set (c3 := put_prop "age" _ c2).
  assert (same_but ["blob_id"; "age"] c1 c3) as B3.
  { eapply same_but_trans; (eapply same_but_sub; [|apply put_prop_same]); set_solver. }
  assert (∀ k, k ∉ ["implements"; "blob_id"; "age"] → hasProperty k b = true → has k c3) as Hhas.
  { intros k Hk Hb. destruct (clone_slot b c k Hwf Hcl Hb) as (s & _ & S). exists s.
    eapply slot_same; [exact B3|set_solver|]. eapply slot_same; [exact B1|set_solver|done]. }
  assert (slot "implements" (VString (si +:+ ",tracked")) c3) as S3
    by (eapply slot_same; [exact B3|set_solver|done]).
  assert (∀ w, w ≠ "tracked" → named w c3 = named w b) as Hnamed.
  { intros w Hw. unfold named. rewrite (get_string_slot _ _ _ S3), Gi.
    apply bool_decide_ext.
    change ",tracked" with (String "," "tracked"). rewrite (words_of_app "," si "," "tracked") by done.
    change (words_of "," "tracked") with ["tracked"]. set_solver. }
  assert (∀ w, kind w c3 → named w c3 = true) as Hkn.
  { intros w (s & Hs & Hw). unfold named. rewrite (get_string_slot _ _ _ Hs).
    by apply bool_decide_eq_true_2. }
  exists c3. split; [done|]. unfold fresh_blob. split_and!.
  - split; [apply Hhas; [set_solver|done]..|by eexists| | |].
    + exists 0. eapply slot_same; [apply (put_prop_same "age")|set_solver|].
      apply (put_prop_slot "blob_id" (VInt 0)).
    + exists 0. apply (put_prop_slot "age" (VInt 0)).
    + intros Hk. apply Hhas; [set_solver|]. apply Hfid. rewrite !orb_true_iff.
      destruct Hk as [Hk|[Hk|Hk]]; apply Hkn in Hk; rewrite Hnamed in Hk by done; auto.
  - by rewrite Hnamed.
  - intros Hv. apply Hhas; [set_solver|auto].
  - assert (slot "age" (VInt 0) c3) as Sa by apply (put_prop_slot "age" (VInt 0)).
    unfold age_of. by rewrite (get_int_slot _ _ _ Sa).
Qed.

(** ** Angles *)

Definition angle_keys : list string := ["angle"; "last_angle"; "fallen_over"].

Lemma find_id_spec id old :
  Forall tracked old → find_id id old = Ok (find_old id old).
Proof.
  induction 1 as [|o old Ho _ IH]; [done|]. simpl. rewrite get_bid by done. simpl.
  by destruct (bid o =? id).
Qed.

Lemma find_old_elem id old o : find_old id old = Some o → o ∈ old ∧ bid o = id.
Proof.
  induction old as [|x old IH]; [done|]. simpl. destruct (Z.eqb_spec (bid x) id) as [E|E].
  - intros [= ->]. split; [by left|done].
  - intros H%IH. destruct H. split; [by right|done].
Qed.

Lemma angles_kept va c c' :
  fresh_blob va c → same_but angle_keys c c' →
  (va = true → has_int "fallen_over" c' ∧ has_int "last_angle" c') → kept_blob va c'.
Proof.
  intros (Ht & Hva & _) Hs Hint.
  assert (∀ k, k ∉ angle_keys → has_int k c → has_int k c') as Hk
    by (intros; by eapply has_int_same).
  split; [|rewrite <-Hva; eapply named_same; [exact Hs|unfold angle_keys; set_solver]|done].
  apply (tracked_same c); [|done|..].
  - eapply same_but_sub; [|done]. unfold angle_keys, frame_keys. set_solver.
  - apply Hk; [unfold angle_keys; set_solver|apply Ht].
  - apply Hk; [unfold angle_keys; set_solver|apply Ht].
  - eapply has_same; [exact Hs|unfold angle_keys; set_solver].
Qed.

Lemma put_two_ints k1 k2 z1 z2 c :
  k1 ≠ k2 →
  let c' := put_prop k2 (alloc MO_PROPERTY_INTEGER (VInt z2) EmptyString)
              (put_prop k1 (alloc MO_PROPERTY_INTEGER (VInt z1) EmptyString) c) in
  same_but [k1; k2] c c' ∧ has_int k1 c' ∧ has_int k2 c'.
Proof.
  intros Hk c'. split_and!.
  - eapply same_but_trans; (eapply same_but_sub; [|apply put_prop_same]); set_solver.
  - exists z1. eapply slot_same; [apply put_prop_same|set_solver|].
    apply (put_prop_slot k1 (VInt z1)).
  - exists z2. apply (put_prop_slot k2 (VInt z2)).
Qed.

Lemma track_angle_spec va max_diff old c :
  fresh_blob va c → Forall (kept_blob va) old →
  ∃ c', track_angle max_diff old c = Ok c' ∧ kept_blob va c' ∧ same_but angle_keys c c'.
Proof.
  intros Hc Hold. pose proof Hc as (Ht & Hva & Hang). unfold track_angle.
  assert (Forall tracked old) as Hto by (eapply Forall_impl; [done|by intros ? []]).
  destruct (read_implements c (tk_implements c Ht)) as (s & -> & _ & Hi). simpl. rewrite Hi, Hva. simpl.
  destruct va; simpl.
  2: { exists c. split_and!; [done| |apply same_but_refl].
       apply (angles_kept _ c); [done|apply same_but_refl|done]. }
  rewrite (get_coord "angle") by auto. simpl. rewrite get_bid by done. simpl.
  rewrite find_id_spec by done. simpl.
  destruct (find_old (bid c) old) as [o|] eqn:Ef; simpl.
  - destruct (find_old_elem _ _ _ Ef) as [Hin _].
    assert (kept_blob true o) as [_ _ Hint] by (by eapply Forall_forall in Hold).
    destruct (Hint eq_refl) as [[zf Hf] [zl Hl]].
    rewrite (get_int_slot _ _ _ Hf), (get_int_slot _ _ _ Hl). simpl.
    match goal with |- context [next_quadrant ?a ?b ?d ?e] => set (q := next_quadrant a b d e) end.
    match goal with |- context [d_to_int ?a] => set (z := d_to_int a) end.
    destruct (put_two_ints "fallen_over" "last_angle" q z c) as (Hs & H1 & H2); [done|].
    set (c1 := put_prop "last_angle" _ _) in *.
    destruct (Hang eq_refl) as [sa Hsa].
    destruct (set_prop_string "angle" sa (VDouble (degToRad (d_of_Z (tracked_angle z q))))
      (snprintf 64 (print_f (degToRad (d_of_Z (tracked_angle z q))))) c1)
      as (c2 & E2 & _ & Hs2); [eapply slot_same; [exact Hs|set_solver|done]|done|].
    simpl in E2. rewrite E2. exists c2.
    assert (same_but angle_keys c c2).
    { eapply same_but_trans; (eapply same_but_sub; [|done]); unfold angle_keys; set_solver. }
    split_and!; [done| |done]. apply (angles_kept _ c); [done|done|].
    split; (eapply has_int_same; [exact Hs2|set_solver|done]).
  - destruct (put_two_ints "last_angle" "fallen_over" (d_to_int (radToDeg (coord "angle" c))) 0 c)
      as (Hs & H1 & H2); [done|].
    eexists. split; [done|].
    match goal with |- kept_blob _ ?x ∧ _ => assert (same_but angle_keys c x) end.
    { eapply same_but_sub; [|done]. unfold angle_keys. set_solver. }
    split; [|done]. by apply (angles_kept _ c).
Qed.

(** ** One frame *)

Record tracker_inv (va : bool) (old : list container) (k : Z) : Prop := {
  tin_blobs : Forall (kept_blob va) old;
  tin_distinct : NoDup (bid <$> old);
  tin_bound : Forall (λ o, bid o <= k) old;
  tin_counter : 0 <= k;
}.

(** A blob one frame later, before it is looked for. *)
Definition grown (c : container) : container := set_age (wrap32 (age_of c + 1)) c.

Lemma older_spec c : tracked c → older c = Ok (grown c).
Proof.
  intros Hc. unfold older. rewrite get_age by done. simpl.
  destruct (set_age_spec (wrap32 (age_of c + 1)) c Hc) as (-> & _). done.
Qed.

Lemma map_res_total {A B} (f : A → res B) (g : A → B) (P : A → Prop) l :
  (∀ a, P a → f a = Ok (g a)) → Forall P l → map_res f l = Ok (g <$> l).
Proof.
  intros Hf. induction 1 as [|a l Ha _ IH]; [done|]. simpl. rewrite Hf by done. simpl.
  by rewrite IH.
Qed.

Lemma set_age_kept va z c : kept_blob va c → kept_blob va (set_age z c).
Proof.
  intros [Ht Hv Ha]. pose proof (set_age_same z c Ht) as Hs. split.
  - by apply set_age_tracked.
  - rewrite <-Hv. eapply named_same; [exact Hs|set_solver].
  - intros Hva. destruct (Ha Hva). split; (eapply has_int_same; [exact Hs|set_solver|done]).
Qed.

Lemma bids_fmap f (l : list container) :
  Forall tracked l → (∀ c, tracked c → bid (f c) = bid c) → bid <$> (f <$> l) = bid <$> l.
Proof. intros Hl Hf. induction Hl; [done|]. rewrite !fmap_cons. f_equal; auto. Qed.

Lemma bids_Forall2 (R : container → container → Prop) l l' :
  Forall2 R l l' → (∀ c c', R c c' → bid c' = bid c) → bid <$> l' = bid <$> l.
Proof. intros Hl Hf. induction Hl; [done|]. rewrite !fmap_cons. f_equal; auto. Qed.

Lemma kept_tracked va l : Forall (kept_blob va) l → Forall tracked l.
Proof. intros Hl. eapply Forall_impl; [done|]. by intros ? []. Qed.

Section Frame.
  Variables (va : bool) (min_age max_age max_diff : Z).

Lemma grown_inv old k : tracker_inv va old k → tracker_inv va (grown <$> old) k.
Proof.
  intros [Hk Hd Hb Hc]. pose proof (kept_tracked _ _ Hk) as Ht.
  assert (bid <$> (grown <$> old) = bid <$> old) as E
    by (apply bids_fmap; [done|]; intros; by apply set_age_bid).
  split; [|by rewrite E| |done].
  - apply Forall_fmap. eapply Forall_impl; [exact Hk|]. intros. by apply set_age_kept.
  - apply (Forall_fmap bid (λ i, i <= k)). rewrite E. by apply Forall_fmap.
Qed.

Lemma aged_kept old c : kept_blob va c → kept_blob va (aged min_age max_age old c).
Proof. intros. unfold aged. destruct (find_old _ _); [by apply set_age_kept|done]. Qed.

Lemma aged_bid old c : tracked c → bid (aged min_age max_age old c) = bid c.
Proof. intros. unfold aged. destruct (find_old _ _); [by apply set_age_bid|done]. Qed.

(** What the last loops leave. *)
Lemma keep_inv old new k k' :
  tracker_inv va old k → Forall (kept_blob va) new → NoDup (bid <$> new) → k <= k' →
  Forall (λ c, bid c <= k') new →
  tracker_inv va ((aged min_age max_age old <$> new) ++ lost min_age max_age (bid <$> new) old) k'.
Proof.
  intros [Hk Hd Hb Hc] Hn Hnd Hkk Hnb. pose proof (kept_tracked _ _ Hn) as Ht.
  assert (bid <$> (aged min_age max_age old <$> new) = bid <$> new) as E
    by (apply bids_fmap; [done|]; intros; by apply aged_bid).
  assert (∀ o, o ∈ lost min_age max_age (bid <$> new) old → (bid o ∉ bid <$> new) ∧ o ∈ old) as Hl
    by (intros o Ho; apply list_elem_of_filter in Ho; tauto).
  split; [| | |lia].
  - apply Forall_app. split.
    + apply Forall_fmap. eapply Forall_impl; [exact Hn|]. intros. by apply aged_kept.
    + apply Forall_forall. intros o [_ Ho]%Hl. by eapply Forall_forall in Hk.
  - rewrite fmap_app, E. apply NoDup_app. split_and!; [done| |].
    + intros i Hi Hi'. apply list_elem_of_fmap in Hi' as (o & -> & [Ho _]%Hl). done.
    + clear -Hd. unfold lost. induction old as [|o old IH]; [done|].
      rewrite fmap_cons in Hd. apply NoDup_cons in Hd as [Hn Hd]. rewrite filter_cons.
      case_decide; [|auto]. rewrite fmap_cons. apply NoDup_cons. split; [|auto].
      intros (x & E & Hx)%list_elem_of_fmap. apply Hn. rewrite E.
      apply list_elem_of_filter in Hx as [_ Hx]. by apply list_elem_of_fmap_2.
  - apply Forall_app. split.
    + apply (Forall_fmap bid (λ i, i <= k')). rewrite E. by apply Forall_fmap.
    + apply Forall_forall. intros o [_ Ho]%Hl. eapply Forall_forall in Hb; [|done]. simpl in *. lia.
Qed.

Context (track : Track).

(** What is asked of the assignment for one frame. *)
Definition fits (old blobs : list container) (k : Z) : Prop := ∀ new,
  map_res prepare blobs = Ok new → track_pre old new k →
  ∃ new' k', track old new k = Ok (new', k') ∧ track_post old new k new' k'.

Lemma new_blobs_spec old blobs k :
  fits old blobs k → tracker_inv va old k → Forall (raw va) blobs → k + Z.of_nat (length blobs) <= INT_MAX →
  ∃ new r new', map_res prepare blobs = Ok new ∧ track old new k = Ok r
    ∧ trackAngles max_diff old r.1 = Ok new'
    ∧ Forall (kept_blob va) new' ∧ NoDup (bid <$> new') ∧ length new' = length blobs
    ∧ k <= r.2 ∧ Forall (λ c, bid c ∈ bid <$> old ∨ (k < bid c /\ bid c <= r.2)) new'.
Proof.
  intros Hfits [Hk Hd Hb Hc] Hraw Hmax.
  destruct (map_res_Forall2 prepare (raw va) (λ _ c, fresh_blob va c) blobs) as (new & Hp & Hnew);
    [intros b Hr; destruct (prepare_spec va b Hr) as (c & -> & ? & _); eauto|done|].
  assert (Forall (fresh_blob va) new) as Hf by (clear -Hnew; by induction Hnew; constructor).
  apply Forall2_length in Hnew.
  assert (track_pre old new k) as Hpre.
  { split; [by eapply kept_tracked|eapply Forall_impl; [done|by intros ? []]|done|done|].
    rewrite <-Hnew. done. }
  destruct (Hfits new Hp Hpre) as (new1 & k' & Htr & [Hfr Htk Hdn Hcnt Hids]).
  assert (Forall (fresh_blob va) new1) as Hf1.
  { clear -Hfr Htk Hf. induction Hfr as [|c c' l l' Hs _ IH]; [constructor|].
    apply Forall_cons in Hf as [(_ & Hv & Ha) Hf]. apply Forall_cons in Htk as [Ht Htk].
    constructor; [|by apply IH]. split_and!; [done| |].
    - rewrite <-Hv. eapply named_same; [exact Hs|unfold owned_keys; set_solver].
    - intros Hva. eapply has_same; [exact Hs|unfold owned_keys; set_solver|auto]. }
  destruct (map_res_Forall2 (track_angle max_diff old) (fresh_blob va)
    (λ c c', kept_blob va c' ∧ same_but angle_keys c c') new1) as (new2 & Ha & Hn2);
    [intros c Hfc; by apply track_angle_spec|done|].
  assert (bid <$> new2 = bid <$> new1) as E.
  { eapply bids_Forall2; [done|]. intros c c' [_ Hs].
    eapply bid_same; [exact Hs|unfold angle_keys; set_solver]. }
  exists new, (new1, k'), new2. split_and!; try done.
  - clear -Hn2. by induction Hn2 as [|???? []]; constructor.
  - by rewrite E.
  - apply Forall2_length in Hn2, Hfr. congruence.
  - simpl. lia.
  - apply (Forall_fmap bid (λ i, i ∈ bid <$> old ∨ (k < i /\ i <= k'))). rewrite E.
    by apply Forall_fmap.
Qed.
End Frame.

(** ** Properties *)

(** One frame of a blob tracker.  The update returns; the blobs kept for the next
    frame are again well formed with pairwise distinct ids not above the counter; ids
    are the old ones or new values of the counter; every input blob is tracked; exactly
    the blobs with an age from [min_age] to [max_age] are sent on; and a blob whose age
    is in that range is not forgotten even when the frame lacks it. *)
Definition tracks_frame (track : Track) (va : bool) (min_age max_age max_diff : Z)
    (old blobs : list container) (k : Z) : Prop :=
  ∃ old' out k', tracker_update track min_age max_age max_diff old blobs k = Ok (old', out, k')
    ∧ tracker_inv va old' k'
    ∧ (∀ c, c ∈ old' → bid c ∈ bid <$> old ∨ (k < bid c /\ bid c <= k'))
    ∧ (length blobs <= length old')%nat
    ∧ out = filter (λ c, in_age min_age max_age (age_of c) = true) old'
    ∧ (∀ o, o ∈ old → in_age min_age max_age (wrap32 (age_of o + 1)) = true →
         bid o ∈ bid <$> old').

Lemma fits_frame (track : Track) (va : bool) (min_age max_age max_diff : Z)
    (old blobs : list container) (k : Z) :
  fits track (grown <$> old) blobs k → tracker_inv va old k → Forall (raw va) blobs →
  k + Z.of_nat (length blobs) <= INT_MAX →
  tracks_frame track va min_age max_age max_diff old blobs k.
Proof.
  intros Hfits Hinv Hraw Hmax. pose proof (grown_inv va old k Hinv) as Hg.
  pose proof (kept_tracked _ _ (tin_blobs _ _ _ Hinv)) as Hto.
  pose proof (kept_tracked _ _ (tin_blobs _ _ _ Hg)) as Htg.
  assert (bid <$> (grown <$> old) = bid <$> old) as E
    by (apply bids_fmap; [done|]; intros; by apply set_age_bid).
  destruct (new_blobs_spec va max_diff track (grown <$> old) blobs k)
    as (new & [new1 k'] & new2 & Hp & Ht & Ha & Hk & Hd & Hlen & Hkk & Hids); [done..|].
  simpl in *. rewrite E in Hids.
  assert (Forall (λ c, bid c <= k') new2) as Hb.
  { eapply Forall_impl; [exact Hids|]. intros c [Hc|Hc]; [|simpl; lia].
    apply list_elem_of_fmap in Hc as (o & -> & Ho).
    pose proof (tin_bound _ _ _ Hinv) as Hbo. eapply Forall_forall in Hbo; [|done]. simpl in *. lia. }
  pose proof (keep_inv va min_age max_age _ new2 k k' Hg Hk Hd Hkk Hb) as Hres.
  unfold tracks_frame, tracker_update. rewrite (map_res_total older grown tracked) by eauto using older_spec.
  simpl. rewrite Hp. simpl. rewrite Ht. simpl. rewrite Ha. simpl.
  rewrite keep_old_spec; [|done|by eapply kept_tracked|apply Hg|done]. simpl.
  rewrite adolescents_spec by (eapply kept_tracked, Hres). simpl.
  do 3 eexists. split; [done|]. split; [done|]. split_and!; [| |done|].
  - intros c [Hc|Hc]%elem_of_app.
    + apply list_elem_of_fmap in Hc as (x & -> & Hx).
      rewrite aged_bid by (by eapply Forall_forall in Hk as []).
      by eapply Forall_forall in Hids.
    + left. rewrite <-E. apply list_elem_of_filter in Hc as [_ Hc].
      by apply list_elem_of_fmap_2.
  - rewrite length_app, length_fmap. lia.
  - intros o Ho Hage. rewrite fmap_app.
    destruct (decide (bid o ∈ bid <$> new2)) as [Hin|Hout]; apply elem_of_app; [left|right].
    + by rewrite bids_fmap; [|by eapply kept_tracked|intros; by apply aged_bid].
    + assert (tracked o) as Htr by (by eapply Forall_forall in Hto).
      apply list_elem_of_fmap. exists (grown o). split; [symmetry; by apply set_age_bid|].
      apply list_elem_of_filter. split; [|by apply list_elem_of_fmap_2]. split.
      * unfold grown. by rewrite set_age_bid.
      * unfold grown. destruct (set_age_spec (wrap32 (age_of o + 1)) o Htr) as (_ & _ & ->). done.
Qed.

(** Any assignment of ids that keeps its contract will do. *)
Lemma tracker_frame_run (track : Track) (va : bool) (min_age max_age max_diff : Z)
    (old blobs : list container) (k : Z) :
  TrackLaws track → tracker_inv va old k → Forall (raw va) blobs →
  k + Z.of_nat (length blobs) <= INT_MAX →
  tracks_frame track va min_age max_age max_diff old blobs k.
Proof. intros Hlaws. apply fits_frame. intros new _ Hpre. by apply track_ok. Qed.

Definition demo_raw (x y : string) : container :=
  put_prop "x" (string_prop x)
    (put_prop "y" (string_prop y)
      (put_prop "implements" (string_prop "pos") new_container)).

Lemma demo_raw_raw x y : raw false (demo_raw x y).
Proof.
  split; [|by split_and!|by vm_compute|by vm_compute|done].
  repeat apply put_prop_wf; try apply string_prop_wf. apply new_container_wf.
Qed.

Lemma demo_inv : tracker_inv false [demo_blob 1 "0.5" "0.5"; demo_blob 2 "0.2" "0.2"] 2.
Proof.
  split; [|apply demo_pre|apply demo_pre|done].
  repeat constructor; try apply demo_blob_tracked; done.
Qed.

(** The reconstructed angle is always in [0, 360), a rotation by four
    quadrants changes nothing, and without a jump of the bounding box the angle
    is the box's own plus the quadrants counted so far. *)
Theorem tracked_angle_range (angle q : Z) :
  (-360 <= angle /\ angle <= 360) → (-1000000 <= q /\ q <= 1000000) →
  (0 <= tracked_angle angle q /\ tracked_angle angle q < 360)
  ∧ tracked_angle angle q = (angle + 90 * q) mod 360
  ∧ tracked_angle angle (q + 4) = tracked_angle angle q.
Proof.
  intros Ha Hq. assert (∀ q, -2000000 <= q /\ q <= 2000000 →
    tracked_angle angle q = (angle + 90 * q) mod 360) as H.
  { clear q Hq. intros q Hq. unfold tracked_angle, cmod.
    rewrite !wrap32_id by (rewrite ?wrap32_id; apply in_int_iff; lia).
    pose proof (Z.rem_bound_abs (angle + 90 * q) 360).
    rewrite (Z.rem_mod_nonneg (_ + 360)) by lia.
    rewrite <-(Z.mod_add (angle + 90 * q) 1 360) by lia.
    pose proof (Z.quot_rem' (angle + 90 * q) 360).
    replace (angle + 90 * q + 1 * 360)
      with (Z.rem (angle + 90 * q) 360 + 360 + Z.quot (angle + 90 * q) 360 * 360) by lia.
    by rewrite Z.mod_add by lia. }
  rewrite !H by lia. split_and!; [apply Z.mod_pos_bound; lia..|done|].
  replace (angle + 90 * (q + 4)) with (angle + 90 * q + 1 * 360) by lia.
  by rewrite Z.mod_add by lia.
Qed.

Lemma tracked_angle_range_witness :
  (0 <= tracked_angle 80 (-3) /\ tracked_angle 80 (-3) < 360)
  ∧ tracked_angle 80 (-3) = (80 + 90 * -3) mod 360
  ∧ tracked_angle 80 (-3 + 4) = tracked_angle 80 (-3).
Proof. apply (tracked_angle_range 80 (-3)); lia. Defined.
