(* ===== verification/Munkres.v ===== *)
(** The bitmap implementation of the Hungarian algorithm
    (src/contrib/bitmap_munkres/match.c, match.h).

    [mdist] is the distance matrix stored by columns ([mdist[row + nrows * col]]);
    the sets of starred and primed zeros are one 32-bit word of rows per column;
    the covered rows and columns are one word each.  The C functions step2a,
    step2b, step3, step4, step5 call each other in tail position only: [pc] says
    which one runs next, with one more value for each head of a [while] loop, and
    [exec] runs the calls.  An access outside an array is the fault [FBadAccess]. *)
From S2P Require Import Prelude Numeric.

(** ** Arrays and bit sets *)

Definition rd (l : list Z) (i : nat) : res Z := deref (l !! i).
Definition wr (l : list Z) (i : nat) (v : Z) : res (list Z) :=
  if decide (i < length l) then Ok (<[i := v]> l) else Fault FBadAccess.

Definition DIM_FINGER : nat := 32.

Definition u32 (z : Z) : Z := (z mod 2 ^ 32)%Z.

Definition GET1 (m : Z) (x : nat) : bool :=
  negb (Z.land (Z.shiftr m (Z.of_nat x)) 1 =? 0)%Z.
Definition SET1 (m : Z) (x : nat) : Z := Z.lor m (u32 (Z.shiftl 1 (Z.of_nat x))).
Definition CLEAR1 (m : Z) (x : nat) : Z :=
  Z.land m (u32 (Z.lnot (u32 (Z.shiftl 1 (Z.of_nat x))))).

Definition GET2 (m : list Z) (row col : nat) : res bool := w ← rd m col; Ok (GET1 w row).
Definition SET2 (m : list Z) (row col : nat) : res (list Z) := w ← rd m col; wr m col (SET1 w row).
Definition CLEAR2 (m : list Z) (row col : nat) : res (list Z) :=
  w ← rd m col; wr m col (CLEAR1 w row).

(** [for (i = i0; i < i0 + k; i++) if (p(i)) break;]: where the loop stops. *)
Fixpoint seek (k i : nat) (p : nat → res bool) : res nat :=
  match k with
  | 0 => Ok i
  | S k => b ← p i; if b : bool then Ok i else seek k (S i) p
  end.

(** [for (i = i0; i < i0 + k; i++) s = f(i, s);] *)
Fixpoint for_to {S} (k i : nat) (f : nat → S → res S) (s : S) : res S :=
  match k with
  | 0 => Ok s
  | Datatypes.S k => s ← f i s; for_to k (Datatypes.S i) f s
  end.

(** ** The state of a match *)

Record hung := {
  mdist : list Z;
  mstar : list Z;
  nmstar : list Z;
  mprime : list Z;
  ccol : Z;
  crow : Z;
}.

Definition w_mdist (v : list Z) (s : hung) : hung :=
  {| mdist := v; mstar := mstar s; nmstar := nmstar s; mprime := mprime s; ccol := ccol s; crow := crow s |}.
Definition w_mstar (v : list Z) (s : hung) : hung :=
  {| mdist := mdist s; mstar := v; nmstar := nmstar s; mprime := mprime s; ccol := ccol s; crow := crow s |}.
Definition w_nmstar (v : list Z) (s : hung) : hung :=
  {| mdist := mdist s; mstar := mstar s; nmstar := v; mprime := mprime s; ccol := ccol s; crow := crow s |}.
Definition w_mprime (v : list Z) (s : hung) : hung :=
  {| mdist := mdist s; mstar := mstar s; nmstar := nmstar s; mprime := v; ccol := ccol s; crow := crow s |}.
Definition w_ccol (v : Z) (s : hung) : hung :=
  {| mdist := mdist s; mstar := mstar s; nmstar := nmstar s; mprime := mprime s; ccol := v; crow := crow s |}.
Definition w_crow (v : Z) (s : hung) : hung :=
  {| mdist := mdist s; mstar := mstar s; nmstar := nmstar s; mprime := mprime s; ccol := ccol s; crow := v |}.

(** What runs next: a step, the head of the loop of step 3 or 4, or nothing. *)
Inductive pc :=
  | P2a
  | P2b
  | P3
  | P4 (row col : nat)
  | P4w (rstar cstar : nat)
  | P5
  | PFinish
  | PGiveUp.

Section Steps.
  Variables nrows ncols dmin : nat.

(** [memset(m, 0, sizeof(mat_t))]. *)
Definition blank : list Z := replicate DIM_FINGER 0%Z.

Definition at_ (row col : nat) : nat := row + nrows * col.

(** *** [buildixvector] *)
Definition buildixvector (ms : list Z) (ix : list Z) : res (list Z) :=
  for_to nrows 0 (λ row ix,
    col ← seek ncols 0 (λ col, GET2 ms row col);
    if decide (col < ncols) then wr ix row (Z.of_nat col) else Ok ix) ix.

(** *** [step2a]: cover every column containing a starred zero *)
Definition step2a (s : hung) : res (pc * hung) :=
  cc ← for_to ncols 0 (λ col cc,
         row ← seek nrows 0 (λ row, GET2 (mstar s) row col);
         Ok (if decide (row < nrows) then SET1 cc col else cc)) (ccol s);
  Ok (P2b, w_ccol cc s).

(** *** [step2b]: count the covered columns *)
Definition step2b (s : hung) : res (pc * hung) :=
  ncc ← for_to ncols 0 (λ col ncc, Ok (if GET1 (ccol s) col then S ncc else ncc)) 0;
  Ok (if decide (ncc = dmin) then PFinish else P3, s).

(** *** [step3] *)

(** The first uncovered zero of a column. *)
Definition zero_row (s : hung) (col : nat) : res nat :=
  seek nrows 0 (λ row,
    v ← rd (mdist s) (at_ row col);
    Ok (if (v =? 0)%Z then negb (GET1 (crow s) row) else false)).

(** One turn of the [while], from column [col] on. *)
Fixpoint step3_cols (k col : nat) (zerosFound : bool) (s : hung) : res (pc * hung) :=
  match k with
  | 0 => Ok (if zerosFound then P3 else P5, s)
  | S k =>
      if GET1 (ccol s) col then step3_cols k (S col) zerosFound s
      else
        row ← zero_row s col;
        if decide (row < nrows) then
          mp ← SET2 (mprime s) row col;
          cstar ← seek ncols 0 (λ cstar, GET2 (mstar s) row cstar);
          if decide (cstar = ncols) then Ok (P4 row col, w_mprime mp s)
          else step3_cols k (S col) true
                 (w_ccol (CLEAR1 (ccol s) cstar) (w_crow (SET1 (crow s) row) (w_mprime mp s)))
        else step3_cols k (S col) zerosFound s
  end.
Definition step3 (s : hung) : res (pc * hung) := step3_cols ncols 0 false s.

(** *** [step4] *)

(** The starred zero of a column; [nrows] when there is none. *)
Definition star_row (s : hung) (col : nat) : res nat :=
  seek nrows 0 (λ row, GET2 (mstar s) row col).

Definition step4 (row col : nat) (s : hung) : res (pc * hung) :=
  nm ← SET2 (mstar s) row col;
  rstar ← star_row s col;
  Ok (P4w rstar col, w_nmstar nm s).

(** The head of the [while]: follow the chain, or leave the loop. *)
Definition step4_while (rstar cstar : nat) (s : hung) : res (pc * hung) :=
  if decide (rstar < nrows) then
    nm ← CLEAR2 (nmstar s) rstar cstar;
    primeCol ← seek ncols 0 (λ primeCol, GET2 (mprime s) rstar primeCol);
    nm ← SET2 nm rstar primeCol;
    rstar' ← star_row s primeCol;
    Ok (P4w rstar' primeCol, w_nmstar nm s)
  else
    Ok (P2a, w_crow 0 (w_mprime blank (w_mstar (nmstar s) s))).

(** *** [step5] *)

(** The smallest uncovered element; [None] while nothing is found. *)
Definition smallest (s : hung) : res (option Z) :=
  for_to nrows 0 (λ row h,
    if GET1 (crow s) row then Ok h
    else for_to ncols 0 (λ col h,
           if GET1 (ccol s) col then Ok h
           else value ← rd (mdist s) (at_ row col);
                Ok (match h with
                    | Some h => Some (if (value <? h)%Z then value else h)
                    | None => Some value
                    end)) h) None.

(** An element of [mdist] is changed in place; a sum outside [int] is undefined
    in C, a fault here. *)
Definition bump (d : Z) (i : nat) (l : list Z) : res (list Z) :=
  v ← rd l i;
  if in_int (v + d) then wr l i (v + d)%Z else Fault FOverflow.

Definition add_rows (h : Z) (cr : Z) (l : list Z) : res (list Z) :=
  for_to nrows 0 (λ row l,
    if GET1 cr row then for_to ncols 0 (λ col l, bump h (at_ row col) l) l else Ok l) l.

Definition sub_cols (h : Z) (cc : Z) (l : list Z) : res (list Z) :=
  for_to ncols 0 (λ col l,
    if GET1 cc col then Ok l else for_to nrows 0 (λ row l, bump (- h) (at_ row col) l) l) l.

Definition step5 (s : hung) : res (pc * hung) :=
  h ← smallest s;
  match h with
  | None => Ok (PGiveUp, s)
  | Some h =>
      l ← add_rows h (crow s) (mdist s);
      l ← sub_cols h (ccol s) l;
      Ok (P3, w_mdist l s)
  end.

(** *** The calls *)

Definition step (p : pc) (s : hung) : res (pc * hung) :=
  match p with
  | P2a => step2a s
  | P2b => step2b s
  | P3 => step3 s
  | P4 row col => step4 row col s
  | P4w rstar cstar => step4_while rstar cstar s
  | P5 => step5 s
  | PFinish => Ok (PFinish, s)
  | PGiveUp => Ok (PGiveUp, s)
  end.

(** [None]: still running when the fuel is used up. *)
Fixpoint exec (fuel : nat) (p : pc) (s : hung) : res (option (pc * hung)) :=
  match p with
  | PFinish | PGiveUp => Ok (Some (p, s))
  | _ =>
      match fuel with
      | 0 => Ok None
      | S fuel => ps ← step p s; exec fuel ps.1 ps.2
      end
  end.

(** *** The preliminary steps of [ixoptimal] *)

(** [while (p < end) { value = *p; if (value < minValue) minValue = value; p += stride; }] *)
Fixpoint scan_min (fuel : nat) (l : list Z) (p stride end_ : nat) (minValue : Z) : res Z :=
  match fuel with
  | 0 => Ok minValue
  | S fuel =>
      if decide (p < end_) then
        value ← rd l p;
        scan_min fuel l (p + stride) stride end_ (if (value <? minValue)%Z then value else minValue)
      else Ok minValue
  end.

(** [while (p < end) { *p -= minValue; p += stride; }] *)
Fixpoint sub_all (fuel : nat) (l : list Z) (p stride end_ : nat) (minValue : Z) : res (list Z) :=
  match fuel with
  | 0 => Ok l
  | S fuel =>
      if decide (p < end_) then
        l ← bump (- minValue) p l;
        sub_all fuel l (p + stride) stride end_ minValue
      else Ok l
  end.

(** Subtract the smallest element of one row or column; the loops make at most
    one turn per element of [mdist]. *)
Definition reduce_line (start stride end_ : nat) (l : list Z) : res (list Z) :=
  minValue ← rd l start;
  minValue ← scan_min (nrows * ncols) l (start + stride) stride end_ minValue;
  sub_all (nrows * ncols) l start stride end_ minValue.

Definition reduce_rows (l : list Z) : res (list Z) :=
  for_to nrows 0 (λ row, reduce_line row nrows (nrows * ncols)) l.
Definition reduce_cols (l : list Z) : res (list Z) :=
  for_to ncols 0 (λ col, reduce_line (nrows * col) 1 (nrows * col + nrows)) l.

(** Steps 1 and 2a when there are no more rows than columns. *)
Definition star_rows (s : hung) : res hung :=
  for_to nrows 0 (λ row s,
    col ← seek ncols 0 (λ col,
            v ← rd (mdist s) (at_ row col);
            Ok (if (v =? 0)%Z then negb (GET1 (ccol s) col) else false));
    if decide (col < ncols) then
      ms ← SET2 (mstar s) row col;
      Ok (w_ccol (SET1 (ccol s) col) (w_mstar ms s))
    else Ok s) s.

(** Steps 1 and 2a when there are more rows than columns. *)
Definition star_cols (s : hung) : res hung :=
  s ← for_to ncols 0 (λ col s,
        row ← zero_row s col;
        if decide (row < nrows) then
          ms ← SET2 (mstar s) row col;
          Ok (w_crow (SET1 (crow s) row) (w_ccol (SET1 (ccol s) col) (w_mstar ms s)))
        else Ok s) s;
  Ok (w_crow 0 s).
End Steps.

Definition init_hung (A : list Z) : hung :=
  {| mdist := A; mstar := blank; nmstar := blank; mprime := blank; ccol := 0; crow := 0 |}.

(** The preliminary part of [ixoptimal], up to the call of step2b. *)
Definition prepare_match (A : list Z) (nrows ncols : nat) : res hung :=
  if decide (nrows ≤ ncols) then
    l ← reduce_rows nrows ncols A;
    star_rows nrows ncols (init_hung l)
  else
    l ← reduce_cols nrows ncols A;
    star_cols nrows ncols (init_hung l).

(** Steps run by a match: each of the at most [dmin + 1] rounds between two new
    stars covers at most [nrows] rows and follows a chain of at most [nrows]
    starred zeros. *)
Definition match_fuel (nrows ncols : nat) : nat := S (Nat.min nrows ncols) * (4 * nrows + 12).

(** [ixoptimal] and [mtdev_match]: the index vector, and the distance matrix
    left behind; [None] when the steps did not finish within the fuel. *)
Definition ixoptimal (ix A : list Z) (nrows ncols : nat) : res (option (list Z * list Z)) :=
  let dmin := if decide (nrows ≤ ncols) then nrows else ncols in
  ix ← for_to nrows 0 (λ row ix, wr ix row (-1)%Z) ix;
  s ← prepare_match A nrows ncols;
  r ← exec nrows ncols dmin (match_fuel nrows ncols) P2b s;
  match r with
  | None => Ok None
  | Some (PFinish, s) =>
      ix ← buildixvector nrows ncols (mstar s) ix;
      Ok (Some (ix, mdist s))
  | Some (_, s) => Ok (Some (ix, mdist s))
  end.

Definition mtdev_match (ix A : list Z) (nrow ncol : nat) : res (option (list Z * list Z)) :=
  ixoptimal ix A nrow ncol.

(** ** Distances *)

Definition clamp15 (x : Z) : Z :=
  if (x <? -32767)%Z then (-32767)%Z else if (32767 <? x)%Z then 32767%Z else x.
Definition dist2 (dx dy : Z) : Z :=
  let dx := clamp15 dx in
  let dy := clamp15 dy in
  wrap32 (wrap32 (dx * dx) + wrap32 (dy * dy)).

(** Rows (4, 1, 5) and (2, 0, 7): the cheapest match takes 1 and 2. *)
Example match_2x3 :
  match mtdev_match (replicate 32 0%Z) ([4; 2; 1; 0; 5; 7] ++ replicate 1018 0)%Z 2 3 with
  | Ok (Some (ix, _)) => take 2 ix = [1; 0]%Z
  | _ => False
  end.
Proof. vm_compute. reflexivity. Qed.
