(* ===== verification/MunkresBase.v ===== *)
(** Reasoning about the arrays, bit sets and loops of the matching algorithm:
    each is a total function on the cells the algorithm uses. *)
From S2P Require Import Prelude Numeric Munkres.

(** ** Loops *)

Lemma seek_spec k i (p : nat → res bool) (q : nat → bool) :
  (∀ j, i ≤ j < i + k → p j = Ok (q j)) →
  ∃ j, seek k i p = Ok j ∧ i ≤ j ≤ i + k
       ∧ (∀ x, i ≤ x < j → q x = false) ∧ (j < i + k → q j = true).
Proof.
  revert i. induction k as [|k IH]; intros i Hp; simpl.
  { exists i. split_and!; [done|lia..]. }
  rewrite Hp by lia. simpl. destruct (q i) eqn:E.
  - exists i. split_and!; [done|lia|lia|lia|done].
  - destruct (IH (S i)) as (j & -> & Hj & Hlt & Hat); [intros; apply Hp; lia|].
    exists j. split_and!; [done|lia|lia| |intros; apply Hat; lia].
    intros x Hx. destruct (decide (x = i)) as [->|]; [done|apply Hlt; lia].
Qed.

Lemma for_to_spec {T} (P : nat → T → Prop) k i (f : nat → T → res T) s :
  P i s →
  (∀ j t, i ≤ j < i + k → P j t → ∃ t', f j t = Ok t' ∧ P (S j) t') →
  ∃ t, for_to k i f s = Ok t ∧ P (i + k) t.
Proof.
  revert i s. induction k as [|k IH]; intros i s Hs Hf; simpl.
  { exists s. by rewrite Nat.add_0_r. }
  destruct (Hf i s) as (t & -> & Ht); [lia|done|]. simpl.
  destruct (IH (S i) t Ht) as (t' & -> & Ht'); [intros; apply Hf; [lia|done]|].
  exists t'. split; [done|]. by rewrite <-Nat.add_succ_comm.
Qed.

(** Turning one more flag on leaves fewer flags off. *)
Lemma filter_drops (f g : nat → bool) x l :
  x ∈ l → f x = false → g x = true → (∀ y, f y = true → g y = true) →
  length (filter (λ y, g y = false) l) < length (filter (λ y, f y = false) l).
Proof.
  intros Hx Hf Hg Hfg.
  assert (∀ l, length (filter (λ y, g y = false) l) ≤ length (filter (λ y, f y = false) l)) as Hle.
  { clear -Hfg. induction l as [|y l IH]; [done|]. rewrite !filter_cons.
    specialize (Hfg y). destruct (f y), (g y); simpl; try (lia || naive_solver). }
  induction Hx as [x l|x y l Hx IH]; rewrite !filter_cons.
  - rewrite Hf, Hg. simpl. specialize (Hle l). lia.
  - specialize (IH Hf Hg). specialize (Hfg y). destruct (f y), (g y); simpl; try (lia || naive_solver).
Qed.

(** ** Bits *)

Lemma GET1_testbit w x : GET1 w x = Z.testbit w (Z.of_nat x).
Proof.
  unfold GET1.
  destruct (Z.testbit w (Z.of_nat x)) eqn:E.
  - destruct (Z.eqb_spec (Z.land (Z.shiftr w (Z.of_nat x)) 1) 0) as [H|H]; [|done].
    exfalso. assert (Z.testbit (Z.land (Z.shiftr w (Z.of_nat x)) 1) 0 = true) as Hb.
    { rewrite Z.land_spec, Z.shiftr_spec by lia. rewrite Z.add_0_l, E. done. }
    rewrite H in Hb. done.
  - destruct (Z.eqb_spec (Z.land (Z.shiftr w (Z.of_nat x)) 1) 0) as [H|H]; [done|].
    exfalso. apply H. apply Z.bits_inj'. intros k Hk. rewrite Z.land_spec, Z.bits_0.
    destruct (decide (k = 0%Z)) as [->|Hne].
    + rewrite Z.shiftr_spec by lia. by rewrite Z.add_0_l, E.
    + change 1%Z with (2 ^ 0)%Z. rewrite Z.pow2_bits_false by lia. apply andb_false_r.
Qed.

Lemma u32_bit x : x < 32 → u32 (Z.shiftl 1 (Z.of_nat x)) = (2 ^ Z.of_nat x)%Z.
Proof.
  intros Hx. unfold u32. rewrite Z.shiftl_1_l. apply Z.mod_small. split; [lia|].
  apply Z.pow_lt_mono_r; lia.
Qed.

Lemma GET1_SET1 w x y : x < 32 → GET1 (SET1 w x) y = bool_decide (x = y) || GET1 w y.
Proof.
  intros Hx. rewrite !GET1_testbit. unfold SET1. rewrite u32_bit by done.
  rewrite Z.lor_spec, Z.pow2_bits_eqb by lia. rewrite orb_comm. f_equal.
  destruct (Z.eqb_spec (Z.of_nat x) (Z.of_nat y)); symmetry;
    [apply bool_decide_eq_true_2|apply bool_decide_eq_false_2]; lia.
Qed.

Lemma GET1_CLEAR1 w x y :
  x < 32 → y < 32 → GET1 (CLEAR1 w x) y = GET1 w y && bool_decide (x ≠ y).
Proof.
  intros Hx Hy. rewrite !GET1_testbit. unfold CLEAR1. rewrite u32_bit by done.
  rewrite Z.land_spec. f_equal. unfold u32. rewrite Z.mod_pow2_bits_low by lia.
  rewrite Z.lnot_spec, Z.pow2_bits_eqb by lia.
  destruct (Z.eqb_spec (Z.of_nat x) (Z.of_nat y)); symmetry; simpl;
    [apply bool_decide_eq_false_2|apply bool_decide_eq_true_2]; lia.
Qed.

Lemma GET1_0 y : GET1 0 y = false.
Proof. rewrite GET1_testbit. apply Z.bits_0. Qed.

(** ** Bit matrices *)

Definition bit2 (m : list Z) (row col : nat) : bool := GET1 (m !!! col) row.

Lemma GET2_ok m row col : col < length m → GET2 m row col = Ok (bit2 m row col).
Proof.
  intros [w Hw]%lookup_lt_is_Some_2. unfold GET2, rd, bit2. rewrite Hw. simpl.
  by rewrite (list_lookup_total_correct _ _ _ Hw).
Qed.

Lemma wr_ok l i v : i < length l → wr l i v = Ok (<[i := v]> l).
Proof. intros. unfold wr. by rewrite decide_True. Qed.
Lemma rd_ok l i : i < length l → rd l i = Ok (l !!! i).
Proof. intros [w Hw]%lookup_lt_is_Some_2. unfold rd. rewrite Hw. simpl.
  by rewrite (list_lookup_total_correct _ _ _ Hw). Qed.

Lemma lookup_total_insert_if (l : list Z) i j v :
  i < length l → <[i := v]> l !!! j = if decide (i = j) then v else l !!! j.
Proof.
  intros. case_decide; [subst; by rewrite list_lookup_total_insert_eq|by rewrite list_lookup_total_insert_ne].
Qed.

Lemma SET2_ok m row col :
  col < length m → row < 32 →
  ∃ m', SET2 m row col = Ok m' ∧ length m' = length m
        ∧ ∀ r c, bit2 m' r c = bool_decide (row = r ∧ col = c) || bit2 m r c.
Proof.
  intros Hc Hr. unfold SET2. rewrite rd_ok by done. simpl. rewrite wr_ok by done.
  eexists. split_and!; [done|apply length_insert|]. intros r c. unfold bit2.
  rewrite lookup_total_insert_if by done. case_decide as E.
  - subst. rewrite GET1_SET1 by done. f_equal. apply bool_decide_ext. tauto.
  - rewrite bool_decide_eq_false_2 by tauto. done.
Qed.

Lemma CLEAR2_ok m row col :
  col < length m → row < 32 →
  ∃ m', CLEAR2 m row col = Ok m' ∧ length m' = length m
        ∧ ∀ r c, r < 32 → bit2 m' r c = bit2 m r c && negb (bool_decide (row = r ∧ col = c)).
Proof.
  intros Hc Hr. unfold CLEAR2. rewrite rd_ok by done. simpl. rewrite wr_ok by done.
  eexists. split_and!; [done|apply length_insert|]. intros r c Hr'. unfold bit2.
  rewrite lookup_total_insert_if by done. case_decide as E.
  - subst. rewrite GET1_CLEAR1 by done. f_equal. rewrite <-bool_decide_not.
    apply bool_decide_ext. tauto.
  - rewrite bool_decide_eq_false_2 by tauto. by rewrite andb_true_r.
Qed.

Lemma length_blank : length blank = 32.
Proof. reflexivity. Qed.

Lemma bit2_blank r c : c < 32 → bit2 blank r c = false.
Proof.
  intros. unfold bit2, blank. rewrite lookup_total_replicate_2 by done. apply GET1_0.
Qed.

(** ** The distance matrix *)

Section Matrix.
  Variables nrows ncols : nat.

Definition cell (l : list Z) (r c : nat) : Z := l !!! at_ nrows r c.

Definition big (l : list Z) : Prop := nrows * ncols ≤ length l.

Lemma at_bound r c : r < nrows → c < ncols → at_ nrows r c < nrows * ncols.
Proof. unfold at_. intros. nia. Qed.

Lemma at_inj r c r' c' : r < nrows → r' < nrows → at_ nrows r c = at_ nrows r' c' → r = r' ∧ c = c'.
Proof.
  unfold at_. intros Hr Hr' E.
  assert (c = c') by nia. subst. split; [lia|done].
Qed.

Lemma cell_rd l r c : big l → r < nrows → c < ncols → rd l (at_ nrows r c) = Ok (cell l r c).
Proof. intros Hb Hr Hc. apply rd_ok. pose proof (at_bound r c Hr Hc). unfold big in Hb. lia. Qed.

Lemma bump_ok d l r c :
  big l → r < nrows → c < ncols → in_int (cell l r c + d) = true →
  ∃ l', bump d (at_ nrows r c) l = Ok l' ∧ big l' ∧ length l' = length l
        ∧ ∀ r' c', r' < nrows →
            cell l' r' c' = if decide (r = r' ∧ c = c') then (cell l r c + d)%Z else cell l r' c'.
Proof.
  intros Hb Hr Hc Hi. pose proof (at_bound r c Hr Hc) as Hat. unfold bump. rewrite cell_rd by done.
  simpl. rewrite Hi. rewrite wr_ok by (unfold big in Hb; lia).
  eexists. split; [done|]. split; [unfold big in *; by rewrite length_insert|].
  split; [apply length_insert|]. intros r' c' Hr'. unfold cell at 1.
  rewrite lookup_total_insert_if by (unfold big in Hb; lia).
  destruct (decide (r = r' ∧ c = c')) as [[-> ->]|Hne]; [by rewrite decide_True|].
  rewrite decide_False; [done|]. intros E. apply Hne. by apply at_inj.
Qed.

(** A pass over the cells of one line [i] of a family of lines [L] (the rows, or
    the columns), adding [d] to each. *)
Lemma bump_line (L : nat → nat → nat) i d k (at_cell : nat → nat * nat) t :
  big t →
  (∀ r c, r < nrows → c < ncols → L r c = i ↔ ∃ j, j < k ∧ at_cell j = (r, c)) →
  (∀ j, j < k → (at_cell j).1 < nrows ∧ (at_cell j).2 < ncols
     ∧ in_int (cell t (at_cell j).1 (at_cell j).2 + d) = true
     ∧ ∀ j', j' < k → at_cell j' = at_cell j → j' = j) →
  ∃ t', for_to k 0 (λ j l, bump d (at_ nrows (at_cell j).1 (at_cell j).2) l) t = Ok t'
    ∧ big t' ∧ length t' = length t
    ∧ ∀ r c, r < nrows → c < ncols →
        cell t' r c = (cell t r c + if decide (L r c = i) then d else 0)%Z.
Proof.
  intros Hb HL Hc.
  destruct (for_to_spec (λ j t', big t' ∧ length t' = length t
      ∧ (∀ x, x < k → j ≤ x → cell t' (at_cell x).1 (at_cell x).2 = cell t (at_cell x).1 (at_cell x).2)
      ∧ (∀ x, x < j → cell t' (at_cell x).1 (at_cell x).2 = (cell t (at_cell x).1 (at_cell x).2 + d)%Z)
      ∧ ∀ r c, r < nrows → c < ncols → L r c ≠ i → cell t' r c = cell t r c)
    k 0 (λ j l, bump d (at_ nrows (at_cell j).1 (at_cell j).2) l) t)
    as (t' & -> & Hb' & Hl' & _ & Hset & Hother).
  { split_and!; [done..|lia|done]. }
  { intros j t1 Hj (Hb1 & Hl1 & Hold & Hset & Hother).
    destruct (Hc j) as (Hr & Hcl & Hi & Hinj); [lia|].
    destruct (bump_ok d t1 (at_cell j).1 (at_cell j).2) as (t2 & -> & Hb2 & Hl2 & H2);
      [done..|rewrite Hold by lia; done|].
    exists t2. split; [done|]. split_and!; [done|congruence|..].
    - intros x Hx Hjx. destruct (Hc x Hx) as (? & ? & _). rewrite H2, decide_False; [apply Hold; lia| |done].
      intros [E1 E2]. assert (x = j); [|lia]. apply Hinj; [done|]. destruct (at_cell x), (at_cell j). simpl in *. by subst.
    - intros x Hx. destruct (Hc x) as (? & ? & _); [lia|]. rewrite H2 by done. case_decide as E.
      + destruct E as [<- <-]. rewrite Hold by lia. done.
      + apply Hset. assert (x ≠ j) by (intros ->; by apply E). lia.
    - intros r c Hrn Hcm Hne. rewrite H2, decide_False; [by apply Hother| |done].
      intros [E1 E2]. apply Hne, HL; [done|done|]. exists j. split; [lia|].
      destruct (at_cell j). simpl in *. by subst. }
  exists t'. split_and!; [done..|]. intros r c Hr Hcm. case_decide as E.
  - apply HL in E as (j & Hj & E); [|done|done]. specialize (Hset j Hj). by rewrite E in Hset.
  - rewrite Hother by done. lia.
Qed.

(** A loop over the lines, each pass changing its own line by [delta i]. *)
Lemma lines_spec (L : nat → nat → nat) (delta : nat → Z) k (f : nat → list Z → res (list Z)) l :
  big l → (∀ r c, r < nrows → c < ncols → L r c < k) →
  (∀ i t, i < k → big t →
     (∀ r c, r < nrows → c < ncols → L r c = i → cell t r c = cell l r c) →
     ∃ t', f i t = Ok t' ∧ big t' ∧ length t' = length t
       ∧ ∀ r c, r < nrows → c < ncols →
           cell t' r c = (cell t r c + if decide (L r c = i) then delta i else 0)%Z) →
  ∃ l', for_to k 0 f l = Ok l' ∧ big l' ∧ length l' = length l
    ∧ ∀ r c, r < nrows → c < ncols → cell l' r c = (cell l r c + delta (L r c))%Z.
Proof.
  intros Hb HL Hf.
  destruct (for_to_spec (λ j t, big t ∧ length t = length l
      ∧ ∀ r c, r < nrows → c < ncols →
          cell t r c = (cell l r c + if decide (L r c < j)%nat then delta (L r c) else 0)%Z) k 0 f l)
    as (l' & -> & Hb' & Hl' & H').
  { split_and!; [done|done|]. intros. rewrite decide_False by lia. lia. }
  { intros j t Hj (Hbt & Hlt & Ht). destruct (Hf j t) as (t' & -> & Hbt' & Hlt' & Ht'); [lia|done| |].
    { intros r c Hr Hc E. rewrite Ht, decide_False by (done || lia). lia. }
    exists t'. split; [done|]. split_and!; [done|congruence|]. intros r c Hr Hc.
    rewrite Ht', Ht by done. destruct (decide (L r c = j)) as [E|E].
    - rewrite decide_False, decide_True by lia. rewrite E. lia.
    - destruct (decide (L r c < j)); [rewrite decide_True by lia|rewrite decide_False by lia]; lia. }
  exists l'. split_and!; [done..|]. intros r c Hr Hc. rewrite H' by done.
  rewrite decide_True; [done|]. specialize (HL r c Hr Hc). lia.
Qed.
End Matrix.
