(* ===== verification/Matching.v ===== *)
(** Matchings of rows and columns, their potentials and the cost of an
    assignment: the mathematics behind the matching algorithm. *)
From S2P Require Import Prelude.

Section Matching.
  Variables n m : nat.

(** A set of cells of the [n] by [m] matrix. *)
Implicit Types X : nat → nat → bool.

(** At most one cell of [X] per row and per column. *)
Record matching X : Prop := {
  ma_row r c c' : r < n → c < m → c' < m → X r c = true → X r c' = true → c = c';
  ma_col r r' c : r < n → r' < n → c < m → X r c = true → X r' c = true → r = r';
}.

Definition srow X r : Prop := ∃ c, c < m ∧ X r c = true.
Definition scol X c : Prop := ∃ r, r < n ∧ X r c = true.

Definition cells : list (nat * nat) := seq 0 n ≫= λ r, pair r <$> seq 0 m.
Definition stars X : list (nat * nat) := filter (λ p, X p.1 p.2 = true) cells.
Definition count X : nat := length (stars X).

Lemma elem_of_cells r c : (r, c) ∈ cells ↔ r < n ∧ c < m.
Proof.
  unfold cells. rewrite list_elem_of_bind. setoid_rewrite list_elem_of_fmap.
  setoid_rewrite elem_of_seq. split.
  - intros (? & (? & [= -> ->] & ?) & ?). lia.
  - intros []. exists r. split; [|lia]. exists c. split; [done|lia].
Qed.

Lemma elem_of_stars X r c : (r, c) ∈ stars X ↔ r < n ∧ c < m ∧ X r c = true.
Proof. unfold stars. rewrite list_elem_of_filter, elem_of_cells. simpl. tauto. Qed.

Lemma NoDup_cells : NoDup cells.
Proof.
  unfold cells. apply NoDup_bind; [|intros; apply NoDup_fmap; [by intros ?? [=]|apply NoDup_seq]|apply NoDup_seq].
  intros r r' p _ _ (? & -> & _)%list_elem_of_fmap (? & [=] & _)%list_elem_of_fmap. done.
Qed.

Lemma NoDup_stars X : NoDup (stars X).
Proof. apply NoDup_filter, NoDup_cells. Qed.

Lemma NoDup_rows X : matching X → NoDup (stars X).*1.
Proof.
  intros [Hr _]. apply NoDup_fmap_2_strong; [|apply NoDup_stars].
  intros [r c] [r' c'] H H' E. simpl in E. subst.
  apply elem_of_stars in H as (? & ? & ?), H' as (? & ? & ?). f_equal. by eapply Hr.
Qed.

Lemma NoDup_cols X : matching X → NoDup (stars X).*2.
Proof.
  intros [_ Hc]. apply NoDup_fmap_2_strong; [|apply NoDup_stars].
  intros [r c] [r' c'] H H' E. simpl in E. subst.
  apply elem_of_stars in H as (? & ? & ?), H' as (? & ? & ?). f_equal. by eapply Hc.
Qed.

Lemma elem_of_rows X r : r ∈ (stars X).*1 ↔ r < n ∧ srow X r.
Proof.
  rewrite list_elem_of_fmap. split.
  - intros ([r' c] & -> & (? & ? & ?)%elem_of_stars). split; [done|]. by exists c.
  - intros (? & c & ? & ?). exists (r, c). split; [done|]. by apply elem_of_stars.
Qed.

Lemma elem_of_cols X c : c ∈ (stars X).*2 ↔ c < m ∧ scol X c.
Proof.
  rewrite list_elem_of_fmap. split.
  - intros ([r c'] & -> & (? & ? & ?)%elem_of_stars). split; [done|]. by exists r.
  - intros (? & r & ? & ?). exists (r, c). split; [done|]. by apply elem_of_stars.
Qed.

(** A list of distinct numbers below [k] that has [k] elements has them all,
    and misses one when it is shorter. *)
Lemma short_misses (l : list nat) k : length l < k → ∃ i, i < k ∧ i ∉ l.
Proof.
  intros Hl. destruct (decide (Exists (λ i, i ∉ l) (seq 0 k))) as [H|H].
  - apply Exists_exists in H as (i & Hi%elem_of_seq & Hn). exists i. split; [lia|done].
  - exfalso. apply not_Exists_Forall in H; [|apply _]. rewrite Forall_forall in H.
    assert (length (seq 0 k) ≤ length l); [|rewrite length_seq in *; lia].
    apply submseteq_length, NoDup_submseteq; [apply NoDup_seq|].
    intros i Hi. specialize (H i Hi). simpl in H. by destruct (decide (i ∈ l)).
Qed.

Lemma full_perm (l : list nat) k :
  NoDup l → Forall (λ i, i < k) l → length l = k → l ≡ₚ seq 0 k.
Proof.
  intros Hd Hl Hk. apply submseteq_length_Permutation; [|rewrite length_seq; lia].
  apply NoDup_submseteq; [done|]. intros i Hi. apply elem_of_seq.
  eapply Forall_forall in Hl; [|done]. simpl in Hl. lia.
Qed.

Lemma unstarred_row X : count X < n → ∃ r, r < n ∧ ¬ srow X r.
Proof.
  intros Hc. destruct (short_misses (stars X).*1 n) as (r & Hr & Hn);
    [by rewrite length_fmap|]. exists r. split; [done|]. intros Hs. apply Hn.
  by apply elem_of_rows.
Qed.

Lemma unstarred_col X : count X < m → ∃ c, c < m ∧ ¬ scol X c.
Proof.
  intros Hc. destruct (short_misses (stars X).*2 m) as (c & Hr & Hn);
    [by rewrite length_fmap|]. exists c. split; [done|]. intros Hs. apply Hn.
  by apply elem_of_cols.
Qed.

Lemma count_rows X : matching X → count X ≤ n.
Proof.
  intros HX. unfold count. rewrite <-(length_fmap fst), <-(length_seq n 0).
  apply submseteq_length, NoDup_submseteq; [by apply NoDup_rows|].
  intros r [Hr _]%elem_of_rows. apply elem_of_seq. lia.
Qed.

Lemma count_cols X : matching X → count X ≤ m.
Proof.
  intros HX. unfold count. rewrite <-(length_fmap snd), <-(length_seq m 0).
  apply submseteq_length, NoDup_submseteq; [by apply NoDup_cols|].
  intros r [Hr _]%elem_of_cols. apply elem_of_seq. lia.
Qed.

(** A matching that has one more column than another one has one more star. *)
Lemma count_grow X Y c0 :
  matching X → matching Y → c0 < m → ¬ scol X c0 →
  (∀ c, c < m → scol Y c ↔ scol X c ∨ c = c0) → count Y = S (count X).
Proof.
  intros HX HY Hc0 Hn Hcols. unfold count.
  rewrite <-(length_fmap snd (stars X)), <-(length_fmap snd (stars Y)).
  change (S (length (stars X).*2)) with (length (c0 :: (stars X).*2)).
  apply Permutation_length, NoDup_Permutation; [by apply NoDup_cols| |].
  - apply NoDup_cons. split; [|by apply NoDup_cols]. by intros [_ ?]%elem_of_cols.
  - intros c. rewrite elem_of_cons, !elem_of_cols. split.
    + intros [Hc Hs]. apply Hcols in Hs as [?| ->]; [by right|by left|done].
    + intros [->|[Hc Hs]]; (split; [done|]); apply Hcols; auto.
Qed.

(** Counting the columns of a set that contains exactly the starred ones. *)
Lemma count_as_cols X (f : nat → bool) :
  matching X → (∀ c, c < m → f c = true ↔ scol X c) →
  length (filter (λ c, f c = true) (seq 0 m)) = count X.
Proof.
  intros HX Hf. unfold count. rewrite <-(length_fmap snd (stars X)).
  apply Permutation_length, NoDup_Permutation; [apply NoDup_filter, NoDup_seq|by apply NoDup_cols|].
  intros c. rewrite list_elem_of_filter, elem_of_cols, elem_of_seq. split.
  - intros [Hc ?]. split; [lia|]. apply Hf; [lia|done].
  - intros [Hc ?]. split; [|lia]. by apply Hf.
Qed.
End Matching.

(** ** Costs *)

Local Open Scope Z_scope.

Fixpoint sumf {T} (f : T → Z) (l : list T) : Z :=
  match l with [] => 0 | x :: l => f x + sumf f l end.

Lemma sumf_app {T} (f : T → Z) l k : sumf f (l ++ k) = sumf f l + sumf f k.
Proof. induction l; simpl; lia. Qed.

#[export] Instance sumf_perm {T} (f : T → Z) : Proper ((≡ₚ) ==> eq) (sumf f).
Proof. induction 1; simpl; lia. Qed.

Lemma sumf_fmap {S T} (f : T → Z) (g : S → T) l : sumf f (g <$> l) = sumf (f ∘ g) l.
Proof. induction l; [done|]. rewrite fmap_cons. simpl. lia. Qed.

Lemma sumf_nonpos {T} (f : T → Z) l : (∀ x, x ∈ l → f x <= 0) → sumf f l <= 0.
Proof.
  induction l as [|x l IH]; intros H; simpl; [lia|].
  pose proof (H x (list_elem_of_here x l)). assert (sumf f l <= 0) by (apply IH; intros; apply H; by right).
  lia.
Qed.

Lemma sumf_zero {T} (f : T → Z) l : (∀ x, x ∈ l → f x = 0) → sumf f l = 0.
Proof.
  induction l as [|x l IH]; intros H; simpl; [lia|].
  rewrite (H x (list_elem_of_here x l)), IH; [lia|]. intros; apply H; by right.
Qed.

(** Dropping some terms of a sum of nonpositive terms does not make it smaller. *)
Lemma sumf_part (f : nat → Z) (l : list nat) k :
  NoDup l → Forall (λ i, (i < k)%nat) l → (∀ i, (i < k)%nat → f i <= 0) →
  sumf f (seq 0 k) <= sumf f l.
Proof.
  intros Hd Hl Hf. assert (l ⊆+ seq 0 k) as Hs.
  { apply NoDup_submseteq; [done|]. intros i Hi. eapply Forall_forall in Hl; [|done].
    apply elem_of_seq. simpl in Hl. lia. }
  apply submseteq_Permutation in Hs as [l' Hp]. rewrite Hp, sumf_app.
  assert (sumf f l' <= 0); [|lia]. apply sumf_nonpos. intros i Hi. apply Hf.
  assert (i ∈ seq 0 k) as Hi' by (rewrite Hp; apply elem_of_app; by right).
  apply elem_of_seq in Hi'. lia.
Qed.

Lemma sumf_support (f : nat → Z) (l : list nat) k :
  NoDup l → Forall (λ i, (i < k)%nat) l → (∀ i, (i < k)%nat → f i ≠ 0 → i ∈ l) →
  sumf f (seq 0 k) = sumf f l.
Proof.
  intros Hd Hl Hf. assert (l ⊆+ seq 0 k) as Hs.
  { apply NoDup_submseteq; [done|]. intros i Hi. eapply Forall_forall in Hl; [|done].
    apply elem_of_seq. simpl in Hl. lia. }
  apply submseteq_Permutation in Hs as [l' Hp]. rewrite Hp, sumf_app.
  rewrite (sumf_zero f l'); [lia|]. intros i Hi.
  assert (i ∈ seq 0 k) as Hi' by (rewrite Hp; apply elem_of_app; by right).
  apply elem_of_seq in Hi'. destruct (decide (f i = 0)) as [|Hne]; [done|].
  apply Hf in Hne; [|lia]. exfalso.
  pose proof (NoDup_seq 0 k) as Hnd. rewrite Hp in Hnd. apply NoDup_app in Hnd as (_ & Hdis & _).
  by apply (Hdis i).
Qed.

Section Cost.
  Variables (n m : nat) (A : nat → nat → Z).

Definition cost (T : list (nat * nat)) : Z := sumf (λ p, A p.1 p.2) T.

(** As many pairs as possible, no row and no column twice. *)
Record assignment (T : list (nat * nat)) : Prop := {
  as_rows : NoDup T.*1;
  as_cols : NoDup T.*2;
  as_range : Forall (λ p, (p.1 < n)%nat /\ (p.2 < m)%nat) T;
  as_length : length T = Nat.min n m;
}.

(** The reduced matrix [D] differs from [A] by a number per row and per column;
    on the longer side that number has one sign, and is 0 on unmatched lines. *)
Definition potentials (X : nat → nat → bool) (D : nat → nat → Z) (a b : nat → Z) : Prop :=
  (∀ r c, (r < n)%nat → (c < m)%nat → D r c = A r c - a r - b c)
  ∧ if decide (n ≤ m)%nat
    then (∀ r, (r < n)%nat → 0 <= a r)
         ∧ (∀ c, (c < m)%nat → b c <= 0 /\ (b c ≠ 0 → scol n X c))
    else (∀ c, (c < m)%nat → 0 <= b c)
         ∧ (∀ r, (r < n)%nat → a r <= 0 /\ (a r ≠ 0 → srow m X r)).

(** The invariant of the reduced matrix. *)
Record reduced (X : nat → nat → bool) (D : nat → nat → Z) : Prop := {
  re_match : matching n m X;
  re_zero r c : (r < n)%nat → (c < m)%nat → X r c = true → D r c = 0;
  re_pos r c : (r < n)%nat → (c < m)%nat → 0 <= D r c;
  re_pot : ∃ a b, potentials X D a b;
}.

Lemma cost_split (D : nat → nat → Z) (a b : nat → Z) T :
  (∀ r c, (r < n)%nat → (c < m)%nat → D r c = A r c - a r - b c) →
  Forall (λ p, (p.1 < n)%nat /\ (p.2 < m)%nat) T →
  cost T = sumf (λ p, D p.1 p.2) T + sumf a T.*1 + sumf b T.*2.
Proof.
  intros HD. unfold cost. induction 1 as [|[r c] T [Hr Hc] _ IH]; [done|].
  rewrite !fmap_cons. simpl in *. rewrite HD by done. lia.
Qed.

Lemma sumf_nonneg {T} (f : T → Z) l : (∀ x, x ∈ l → 0 <= f x) → 0 <= sumf f l.
Proof.
  induction l as [|x l IH]; intros H; simpl; [lia|].
  pose proof (H x (list_elem_of_here x l)). assert (0 <= sumf f l) by (apply IH; intros; apply H; by right).
  lia.
Qed.

Lemma stars_range X : Forall (λ p, (p.1 < n)%nat /\ (p.2 < m)%nat) (stars n m X).
Proof. apply Forall_forall. intros [r c] H%elem_of_stars. simpl. tauto. Qed.

Lemma range_rows T : Forall (λ p, (p.1 < n)%nat /\ (p.2 < m)%nat) T → Forall (λ i, (i < n)%nat) T.*1.
Proof. intros. apply Forall_fmap. eapply Forall_impl; [done|]. by intros ? []. Qed.
Lemma range_cols T : Forall (λ p, (p.1 < n)%nat /\ (p.2 < m)%nat) T → Forall (λ i, (i < m)%nat) T.*2.
Proof. intros. apply Forall_fmap. eapply Forall_impl; [done|]. by intros ? []. Qed.

Lemma stars_assignment X : matching n m X → count n m X = Nat.min n m → assignment (stars n m X).
Proof.
  intros HX Hc. split; [by apply NoDup_rows|by apply NoDup_cols|apply stars_range|done].
Qed.

(** A complete matching on zeros of a reduced matrix is a cheapest assignment. *)
Lemma reduced_optimal X D T :
  reduced X D → count n m X = Nat.min n m → assignment T → cost (stars n m X) <= cost T.
Proof.
  intros [HX Hz Hp (a & b & HD & Hab)] Hcnt HT.
  pose proof (stars_assignment X HX Hcnt) as HS.
  pose proof HS as [Sr Sc Sg Sl]. pose proof HT as [Tr Tc Tg Tl].
  rewrite (cost_split D a b T), (cost_split D a b (stars n m X)) by done.
  assert (0 <= sumf (λ p, D p.1 p.2) T).
  { apply sumf_nonneg. intros p Hin. eapply Forall_forall in Tg as [??]; [|done]. by apply Hp. }
  assert (sumf (λ p, D p.1 p.2) (stars n m X) = 0).
  { apply sumf_zero. intros [r c] (?&?&?)%elem_of_stars. by apply Hz. }
  apply range_rows in Sg as Sgr. apply range_cols in Sg as Sgc.
  apply range_rows in Tg as Tgr. apply range_cols in Tg as Tgc.
  destruct (decide (n ≤ m)%nat) as [Hle|Hle]; destruct Hab as [Ha Hb].
  - rewrite (full_perm _ n Sr), (full_perm _ n Tr) by (rewrite ?length_fmap; lia || done).
    rewrite <-(sumf_support b _ m Sc Sgc).
    + assert (sumf b (seq 0 m) <= sumf b T.*2); [|lia].
      apply sumf_part; [done|done|]. intros i Hi. by apply Hb.
    + intros c Hc Hne. apply elem_of_cols. split; [done|]. by apply Hb.
  - rewrite (full_perm _ m Sc), (full_perm _ m Tc) by (rewrite ?length_fmap; lia || done).
    rewrite <-(sumf_support a _ n Sr Sgr).
    + assert (sumf a (seq 0 n) <= sumf a T.*1); [|lia].
      apply sumf_part; [done|done|]. intros i Hi. by apply Hb.
    + intros c Hc Hne. apply elem_of_rows. split; [done|]. by apply Hb.
Qed.

(** While the matching is incomplete the reduced matrix stays small. *)
Lemma reduced_bound X D M :
  reduced X D → (count n m X < Nat.min n m)%nat →
  (∀ r c, (r < n)%nat → (c < m)%nat → 0 <= A r c /\ A r c <= M) →
  ∀ r c, (r < n)%nat → (c < m)%nat → 0 <= D r c /\ D r c <= 2 * M.
Proof.
  intros [HX Hz Hp (a & b & HD & Hab)] Hcnt HA r c Hr Hc. split; [by apply Hp|].
  rewrite HD by done. pose proof (HA r c Hr Hc).
  destruct (decide (n ≤ m)%nat) as [Hle|Hle]; destruct Hab as [Ha Hb].
  - destruct (unstarred_col n m X) as (c0 & Hc0 & Hn0); [lia|].
    assert (b c0 = 0) as E0 by (destruct (decide (b c0 = 0)); [done|]; by apply Hb in Hc0 as [_ ?]; tauto).
    assert (∀ r, (r < n)%nat → a r <= M) as HaM.
    { intros r' Hr'. pose proof (Hp r' c0 Hr' Hc0) as Hd. rewrite HD in Hd by done.
      pose proof (HA r' c0 Hr' Hc0). lia. }
    destruct (Hb c Hc) as [Hbc Hs]. pose proof (Ha r Hr).
    destruct (decide (b c = 0)) as [->|Hne]; [lia|]. destruct (Hs Hne) as (r' & Hr' & Hx).
    pose proof (Hz r' c Hr' Hc Hx) as Hd. rewrite HD in Hd by done.
    pose proof (HA r' c Hr' Hc). pose proof (HaM r' Hr'). lia.
  - destruct (unstarred_row n m X) as (r0 & Hr0 & Hn0); [lia|].
    assert (a r0 = 0) as E0 by (destruct (decide (a r0 = 0)); [done|]; by apply Hb in Hr0 as [_ ?]; tauto).
    assert (∀ c, (c < m)%nat → b c <= M) as HbM.
    { intros c' Hc'. pose proof (Hp r0 c' Hr0 Hc') as Hd. rewrite HD in Hd by done.
      pose proof (HA r0 c' Hr0 Hc'). lia. }
    destruct (Hb r Hr) as [Har Hs]. pose proof (Ha c Hc).
    destruct (decide (a r = 0)) as [->|Hne]; [lia|]. destruct (Hs Hne) as (c' & Hc' & Hx).
    pose proof (Hz r c' Hr Hc' Hx) as Hd. rewrite HD in Hd by done.
    pose proof (HA r c' Hr Hc'). pose proof (HbM c' Hc'). lia.
Qed.

(** Lines covering the stars: each star by exactly one line, no line in vain. *)
Record covering (X : nat → nat → bool) (CC CR : nat → bool) : Prop := {
  cv_star r c : (r < n)%nat → (c < m)%nat → X r c = true → CC c = negb (CR r);
  cv_col c : (c < m)%nat → CC c = true → scol n X c;
  cv_row r : (r < n)%nat → CR r = true → srow m X r;
}.

(** Step 5: moving [h] between covered and uncovered lines. *)
Lemma reduced_adjust X D D' CC CR h :
  reduced X D → covering X CC CR → 0 <= h →
  (∀ r c, (r < n)%nat → (c < m)%nat → CC c = false → CR r = false → h <= D r c) →
  (∀ r c, (r < n)%nat → (c < m)%nat →
     D' r c = D r c + (if CR r then h else 0) - (if CC c then 0 else h)) →
  reduced X D'.
Proof.
  intros [HX Hz Hp (a & b & HD & Hab)] [Hs Hcc Hcr] Hh Hmin HD'. split; [done| | |].
  - intros r c Hr Hc Hx. rewrite HD' by done. rewrite (Hs r c Hr Hc Hx), (Hz r c) by done.
    destruct (CR r); simpl; lia.
  - intros r c Hr Hc. rewrite HD' by done. pose proof (Hp r c Hr Hc).
    destruct (CR r) eqn:Er, (CC c) eqn:Ec; try lia. pose proof (Hmin r c Hr Hc Ec Er). lia.
  - unfold potentials. destruct (decide (n ≤ m)%nat); destruct Hab as [Ha Hb].
    + exists (λ r, a r + if CR r then 0 else h), (λ c, b c - if CC c then h else 0). split_and!.
      * intros r c Hr Hc. rewrite HD', HD by done. destruct (CR r), (CC c); lia.
      * intros r Hr. specialize (Ha r Hr). destruct (CR r); lia.
      * intros c Hc. destruct (Hb c Hc) as [Hle Hst]. split; [destruct (CC c); lia|].
        intros Hne. destruct (CC c) eqn:Ec; [by apply Hcc|]. apply Hst. lia.
    + exists (λ r, a r - if CR r then h else 0), (λ c, b c + if CC c then 0 else h). split_and!.
      * intros r c Hr Hc. rewrite HD', HD by done. destruct (CR r), (CC c); lia.
      * intros r Hr. specialize (Ha r Hr). destruct (CC r); lia.
      * intros c Hc. destruct (Hb c Hc) as [Hle Hst]. split; [destruct (CR c); lia|].
        intros Hne. destruct (CR c) eqn:Ec; [by apply Hcr|]. apply Hst. lia.
Qed.

(** A matching that keeps the matched lines keeps the potentials. *)
Lemma reduced_rematch X Y D :
  reduced X D → matching n m Y →
  (∀ r c, (r < n)%nat → (c < m)%nat → Y r c = true → D r c = 0) →
  (∀ r, (r < n)%nat → srow m X r → srow m Y r) →
  (∀ c, (c < m)%nat → scol n X c → scol n Y c) → reduced Y D.
Proof.
  intros [HX Hz Hp (a & b & HD & Hab)] HY Hy Hr Hc. split; [done|done|done|].
  exists a, b. split; [done|]. destruct (decide (n ≤ m)%nat); destruct Hab as [Ha Hb];
    (split; [done|]); intros i Hi; destruct (Hb i Hi) as [? Hs]; (split; [done|]); auto.
Qed.
End Cost.
