(* ===== verification/MunkresSteps.v ===== *)
(** The steps of the matching algorithm keep its invariant and make progress. *)
From S2P Require Import Prelude Numeric Munkres MunkresBase Matching.

Section Steps.
  Variables (n m : nat) (A : nat → nat → Z) (M : Z).
  Hypothesis Hn : n ≤ 32.
  Hypothesis Hm : m ≤ 32.
  Hypothesis HM : (4 * M <= INT_MAX)%Z.
  Hypothesis HA : ∀ r c, r < n → c < m → (0 <= A r c /\ A r c <= M)%Z.

Implicit Types s : hung.

Definition dmin : nat := Nat.min n m.

(** ** The state as sets of cells and lines *)

Definition star s : nat → nat → bool := bit2 (mstar s).
Definition prime s : nat → nat → bool := bit2 (mprime s).
Definition nstar s : nat → nat → bool := bit2 (nmstar s).
Definition CC s : nat → bool := GET1 (ccol s).
Definition CR s : nat → bool := GET1 (crow s).
Definition dist s : nat → nat → Z := cell n (mdist s).

Record base s : Prop := {
  ba_mstar : length (mstar s) = 32;
  ba_nmstar : length (nmstar s) = 32;
  ba_mprime : length (mprime s) = 32;
  ba_mdist : big n m (mdist s);
  ba_red : reduced n m A (star s) (dist s);
}.

(** The primed zeros, with the order in which their rows were primed. *)
Record primes (rk : nat → nat) s : Prop := {
  pm_zero r c : r < n → c < m → prime s r c = true → dist s r c = 0%Z;
  pm_cc r c : r < n → c < m → prime s r c = true → CC s c = false;
  pm_row r c c' : r < n → c < m → c' < m → prime s r c = true → prime s r c' = true → c = c';
  pm_rank r r' c : r < n → r' < n → c < m → prime s r c = true → star s r' c = true → rk r' < rk r;
  pm_cov r : r < n → CR s r = true → ∃ c, c < m ∧ prime s r c = true;
}.

(** No row covered, no prime, and only starred columns covered. *)
Record clean s : Prop := {
  cl_row r : r < n → CR s r = false;
  cl_prime r c : r < n → c < m → prime s r c = false;
  cl_col c : c < m → CC s c = true → scol n (star s) c;
}.

(** Rows not covered yet. *)
Definition unc s : nat := length (filter (λ r, CR s r = false) (seq 0 n)).

Definition uncovered_zero s : Prop :=
  ∃ r c, r < n ∧ c < m ∧ CR s r = false ∧ CC s c = false ∧ dist s r c = 0%Z.

(** The loop of step 4: the chain has reached the starred zero of column [cs]
    in row [rs] (no row when [rs = n]); [nstar] is the matching under way. *)
Record chain (rk : nat → nat) (rs cs : nat) s : Prop := {
  ch_rs : rs ≤ n;
  ch_cs : cs < m;
  ch_at : rs < n → star s rs cs = true;
  ch_end : rs = n → ¬ scol n (star s) cs;
  ch_new : ∃ x, x < n ∧ x ≠ rs ∧ nstar s x cs = true;
  ch_old r c : rs < n → r < n → c < m → rk r ≤ rk rs → nstar s r c = star s r c;
  ch_row r c c' : r < n → c < m → c' < m → nstar s r c = true → nstar s r c' = true → c = c';
  ch_col r r' c : r < n → r' < n → c < m → nstar s r c = true → nstar s r' c = true →
    r = r' ∨ (c = cs ∧ (r = rs ∨ r' = rs));
  ch_vis r c : r < n → c < m → nstar s r c = true → star s r c = false →
    c = cs ∨ ∃ r', r' < n ∧ star s r' c = true ∧ (rs < n → rk rs < rk r');
  ch_cols c : c < m → scol n (nstar s) c ↔ scol n (star s) c ∨ c = cs;
  ch_rows r : r < n → srow m (star s) r → srow m (nstar s) r;
  ch_zero r c : r < n → c < m → nstar s r c = true → dist s r c = 0%Z;
  ch_cc : CC s cs = false;
}.

(** How many steps may still follow at most, in rounds of [4 n + 6]. *)
Definition rounds s (off : nat) : nat := (dmin - count n m (star s)) * (4 * n + 6) + off.

Definition open_ s : Prop := count n m (star s) < dmin.

Definition pcinv (p : pc) s (left_ : nat) : Prop :=
  base s ∧
  match p with
  | P2a => clean s ∧ left_ = rounds s (4 * n + 5)
  | P2b => clean s ∧ (∀ c, c < m → scol n (star s) c → CC s c = true) ∧ left_ = rounds s (4 * n + 4)
  | P3 =>
      open_ s ∧ covering n m (star s) (CC s) (CR s)
      ∧ (∀ r c, r < n → c < m → prime s r c = true → CR s r = true)
      ∧ (∃ rk, primes rk s)
      ∧ (left_ = rounds s (n + 3 + 3 * unc s)
         ∨ (uncovered_zero s ∧ left_ = rounds s (n + 1 + 3 * unc s)))
  | P5 =>
      open_ s ∧ covering n m (star s) (CC s) (CR s)
      ∧ (∀ r c, r < n → c < m → prime s r c = true → CR s r = true)
      ∧ (∃ rk, primes rk s)
      ∧ ¬ uncovered_zero s ∧ left_ = rounds s (n + 2 + 3 * unc s)
  | P4 row col =>
      open_ s ∧ covering n m (star s) (CC s) (CR s)
      ∧ (∃ rk, primes rk s)
      ∧ row < n ∧ col < m ∧ prime s row col = true ∧ ¬ srow m (star s) row
      ∧ left_ = rounds s (n + 1)
  | P4w rs cs =>
      open_ s ∧ covering n m (star s) (CC s) (CR s)
      ∧ (∃ rk, primes rk s ∧ chain rk rs cs s
         ∧ left_ = rounds s (if decide (rs < n)
                             then S (length (filter (λ r, rk r < rk rs) (seq 0 n))) else 0))
  | PFinish => count n m (star s) = dmin
  | PGiveUp => False
  end.

Lemma matching_star s : base s → matching n m (star s).
Proof. intros []. by eapply re_match. Qed.

Lemma count_dmin s : base s → count n m (star s) ≤ dmin.
Proof.
  intros Hb. apply matching_star in Hb. pose proof (count_rows n m _ Hb).
  pose proof (count_cols n m _ Hb). unfold dmin. lia.
Qed.

(** ** Steps 2a and 2b *)

Lemma star_row_spec s c :
  base s → c < m →
  ∃ r, star_row n s c = Ok r ∧ r ≤ n ∧ (r < n → star s r c = true)
       ∧ (r = n → ¬ scol n (star s) c).
Proof.
  intros Hb Hc. unfold star_row.
  destruct (seek_spec n 0 (λ row, GET2 (mstar s) row c) (λ row, star s row c))
    as (r & -> & Hr & Hlt & Hat).
  { intros j Hj. apply GET2_ok. rewrite (ba_mstar s Hb). lia. }
  exists r. split_and!; [done|lia|intros; apply Hat; lia|].
  intros -> (r' & Hr' & Hs). by rewrite Hlt in Hs by lia.
Qed.

Lemma step2a_ok s l : pcinv P2a s l → ∃ s' l', step2a n m s = Ok (P2b, s') ∧ pcinv P2b s' l' ∧ l' < l.
Proof.
  intros (Hb & [Hr Hp Hc] & ->). unfold step2a.
  destruct (for_to_spec (λ j cc, ∀ c, c < m →
      (GET1 cc c = true → scol n (star s) c) ∧ (c < j → scol n (star s) c → GET1 cc c = true))
    m 0 (λ col cc, row ← seek n 0 (λ row, GET2 (mstar s) row col);
         Ok (if decide (row < n) then SET1 cc col else cc)) (ccol s)) as (cc & -> & Hcc).
  { intros c Hcm. split; [by apply Hc|lia]. }
  { intros j cc Hj IH. destruct (star_row_spec s j Hb) as (r & Hs & Hrn & Hat & Hend); [lia|].
    unfold star_row in Hs. rewrite Hs. simpl. eexists. split; [done|]. intros c Hcm.
    destruct (IH c Hcm) as [H1 H2]. case_decide as Hlt.
    - rewrite GET1_SET1 by lia. split.
      + intros [->%bool_decide_eq_true|?]%orb_true_iff; [|auto]. exists r. auto.
      + intros Hcj Hsc. apply orb_true_iff. destruct (decide (j = c)) as [->|];
          [left; by apply bool_decide_eq_true|right; apply H2; [lia|done]].
    - split; [done|]. intros Hcj Hsc. destruct (decide (j = c)) as [->|]; [|apply H2; [lia|done]].
      exfalso. apply Hend; [lia|done]. }
  simpl. do 2 eexists. split; [done|]. split; [split|].
  - by destruct Hb.
  - split_and!; [|intros c Hcm; by apply Hcc|reflexivity].
    split; [done|done|]. intros c Hcm. by apply Hcc.
  - unfold rounds, star. simpl. lia.
Qed.

Lemma count_loop (f : nat → bool) k i (z : nat) :
  for_to k i (λ col ncc, Ok (if f col then S ncc else ncc)) z
  = Ok (z + length (filter (λ c, f c = true) (seq i k))).
Proof.
  revert i z. induction k as [|k IH]; intros i z; simpl; [by rewrite Nat.add_0_r|].
  rewrite IH, filter_cons. destruct (f i); [rewrite decide_True by done|rewrite decide_False by done];
    simpl; f_equal; lia.
Qed.

Lemma step2b_ok s l :
  pcinv P2b s l → ∃ p' l', step2b m dmin s = Ok (p', s) ∧ pcinv p' s l' ∧ l' < l.
Proof.
  intros (Hb & [Hr Hp Hc] & Hcc & ->). unfold step2b. rewrite (count_loop (GET1 (ccol s))). simpl.
  rewrite (count_as_cols n m (star s)) by (try apply matching_star; try done; naive_solver).
  case_decide as E.
  - exists PFinish, 0. split_and!; [done|done|]. unfold rounds. lia.
  - eexists P3, _. split; [done|]. split; [split; [done|]|].
    + split_and!; [|split| | |by left].
      * pose proof (count_dmin s Hb). unfold open_. lia.
      * intros r c Hrn Hcm Hs. rewrite Hr by done. apply Hcc; [done|]. by exists r.
      * done.
      * intros r Hrn HR. by rewrite Hr in HR.
      * intros r c Hrn Hcm HP. by rewrite Hp in HP.
      * exists (λ _, 0). split; intros; exfalso.
        1-4: match goal with H : prime _ _ _ = true |- _ => by rewrite Hp in H end.
        match goal with H : CR _ _ = true |- _ => by rewrite Hr in H end.
    + assert (unc s ≤ n); [|unfold rounds; lia]. unfold unc.
      etrans; [apply length_filter|by rewrite length_seq].
Qed.

(** ** Step 3 *)

Definition inv3 s : Prop :=
  base s ∧ open_ s ∧ covering n m (star s) (CC s) (CR s)
  ∧ (∀ r c, r < n → c < m → prime s r c = true → CR s r = true)
  ∧ ∃ rk, primes rk s.

Lemma rank_bound (rk : nat → nat) k : ∃ B, ∀ r, r < k → rk r < B.
Proof.
  induction k as [|k [B HB]]; [exists 0; lia|]. exists (S (Nat.max B (rk k))). intros r Hr.
  destruct (decide (r = k)) as [->|]; [lia|]. pose proof (HB r). lia.
Qed.

(** A new prime in an uncovered row and column. *)
Lemma add_prime s row col mp :
  inv3 s → row < n → col < m → CR s row = false → CC s col = false → dist s row col = 0%Z →
  length mp = 32 →
  (∀ r c, bit2 mp r c = bool_decide (row = r ∧ col = c) || prime s r c) →
  base (w_mprime mp s) ∧ ∃ rk, primes rk (w_mprime mp s).
Proof.
  intros (Hb & _ & Hcov & Hin & rk & [Hz Hcc Hrow Hrk Hcv]) Hr Hc HR HC HD Hl Hmp.
  split; [by destruct Hb; split|]. destruct (rank_bound rk n) as [B HB].
  set (s' := w_mprime mp s).
  assert (∀ r c, prime s' r c = true → (row = r ∧ col = c) ∨ prime s r c = true) as Hp.
  { intros r c. change (prime s' r c) with (bit2 mp r c). rewrite Hmp, orb_true_iff, bool_decide_eq_true.
    done. }
  assert (∀ c, c < m → prime s row c = false) as Hno.
  { intros c Hcm. destruct (prime s row c) eqn:E; [|done]. apply Hin in E; [congruence|done..]. }
  exists (λ r, if decide (r = row) then B else rk r). split.
  - intros r c Hrn Hcm [[<- <-]|?]%Hp; [done|by apply Hz].
  - intros r c Hrn Hcm [[<- <-]|?]%Hp; [done|by apply (Hcc r)].
  - intros r c c' Hrn Hcm Hcm' H1 H2.
    apply Hp in H1 as [[<- <-]|H1], H2 as [[H2 <-]|H2]; subst; [done| | |by eapply Hrow].
    + by rewrite Hno in H2.
    + by rewrite Hno in H1.
  - intros r r' c Hrn Hrn' Hcm Hpr Hst. change (star s' r' c) with (star s r' c) in Hst.
    assert (CC s c = false → r' ≠ row) as Hne.
    { intros HC' ->. rewrite (cv_star _ _ _ _ _ Hcov row c) in HC' by done. by rewrite HR in HC'. }
    apply Hp in Hpr as [[<- <-]|Hpr].
    + rewrite (decide_True (P:=row = row)), decide_False by auto. by apply HB.
    + assert (r ≠ row) by (intros ->; by rewrite Hno in Hpr).
      assert (r' ≠ row) by (apply Hne; by apply (Hcc r)).
      rewrite !decide_False by done. by apply (Hrk r r' c).
  - intros r Hrn HRr. destruct (Hcv r Hrn HRr) as (c & Hcm & Hpc). exists c. split; [done|].
    change (prime s' r c) with (bit2 mp r c). by rewrite Hmp, Hpc, orb_true_r.
Qed.

(** Covering the row of a new prime and uncovering the column of its star. *)
Lemma shift_cover s row col mp cstar :
  inv3 s → row < n → col < m → CR s row = false → CC s col = false → dist s row col = 0%Z →
  length mp = 32 →
  (∀ r c, bit2 mp r c = bool_decide (row = r ∧ col = c) || prime s r c) →
  cstar < m → star s row cstar = true →
  let s' := w_ccol (CLEAR1 (ccol s) cstar) (w_crow (SET1 (crow s) row) (w_mprime mp s)) in
  inv3 s' ∧ unc s' < unc s.
Proof.
  intros Hinv Hr Hc HR HC HD Hl Hmp Hcs Hst s'.
  destruct (add_prime s row col mp Hinv Hr Hc HR HC HD Hl Hmp) as (Hb' & rk & [Hz Hcc Hrow Hrk Hcv]).
  pose proof Hinv as (Hb & Ho & [Hs Hsc Hsr] & Hin & _).
  pose proof (matching_star s Hb) as HX.
  assert (∀ r, CR s' r = bool_decide (row = r) || CR s r) as ECR
    by (intros r; apply GET1_SET1; lia).
  assert (∀ c, c < m → CC s' c = CC s c && bool_decide (cstar ≠ c)) as ECC
    by (intros c Hcm; apply GET1_CLEAR1; lia).
  split; [split_and!|].
  - by destruct Hb'; split.
  - done.
  - split.
    + intros r c Hrn Hcm Hx. rewrite ECR, ECC by done. destruct (decide (row = r)) as [<-|Hne].
      * assert (c = cstar) as -> by (by eapply (ma_row n m _ HX)).
        rewrite (bool_decide_eq_true_2 (row = row)) by done.
        rewrite bool_decide_eq_false_2 by (by intros []). apply andb_false_r.
      * rewrite (bool_decide_eq_false_2 (row = r)) by done. simpl. rewrite <-(Hs r c) by done.
        rewrite bool_decide_eq_true_2; [apply andb_true_r|]. intros ->.
        apply Hne. by eapply (ma_col n m _ HX).
    + intros c Hcm. rewrite ECC by done. intros [? _]%andb_true_iff. by apply Hsc.
    + intros r Hrn. rewrite ECR. intros [<-%bool_decide_eq_true|?]%orb_true_iff;
        [by exists cstar|by apply Hsr].
  - intros r c Hrn Hcm Hp. rewrite ECR, orb_true_iff, bool_decide_eq_true.
    change (prime s' r c) with (bit2 mp r c) in Hp. rewrite Hmp, orb_true_iff, bool_decide_eq_true in Hp.
    destruct Hp as [[-> _]|?]; [by left|right; by eapply Hin].
  - exists rk. split; [done| |done|done|].
    + intros r c Hrn Hcm Hp. rewrite ECC by done. apply andb_false_iff. left. by apply (Hcc r c).
    + intros r Hrn. rewrite ECR. intros [<-%bool_decide_eq_true|?]%orb_true_iff; [|by apply Hcv].
      exists col. split; [done|]. change (prime s' row col) with (bit2 mp row col).
      rewrite Hmp, bool_decide_eq_true_2 by done. done.
  - unfold unc. apply (filter_drops (λ r, CR s r) (λ r, CR s' r) row); [by apply elem_of_seq; lia|done|..].
    + by rewrite ECR, bool_decide_eq_true_2.
    + intros r HRr. by rewrite ECR, HRr, orb_true_r.
Qed.

(** Step 3 found a zero to start step 4 from. *)
Definition ready4 (row col : nat) s : Prop :=
  base s ∧ open_ s ∧ covering n m (star s) (CC s) (CR s) ∧ (∃ rk, primes rk s)
  ∧ row < n ∧ col < m ∧ prime s row col = true ∧ ¬ srow m (star s) row.

Lemma zero_row_spec s c :
  base s → c < m →
  ∃ r, zero_row n s c = Ok r ∧ r ≤ n ∧ (r < n → dist s r c = 0%Z ∧ CR s r = false)
       ∧ (r = n → ∀ r', r' < n → CR s r' = false → dist s r' c ≠ 0%Z).
Proof.
  intros Hb Hc. unfold zero_row.
  destruct (seek_spec n 0 (λ row, v ← rd (mdist s) (at_ n row c);
      Ok (if (v =? 0)%Z then negb (GET1 (crow s) row) else false))
    (λ row, if (dist s row c =? 0)%Z then negb (CR s row) else false)) as (r & -> & Hr & Hlt & Hat).
  { intros j Hj. rewrite (cell_rd n m) by (try apply Hb; lia). done. }
  exists r. split_and!; [done|lia| |].
  - intros Hrn. specialize (Hat Hrn). destruct (Z.eqb_spec (dist s r c) 0); [|done].
    by destruct (CR s r).
  - intros -> r' Hr' HR. specialize (Hlt r'). rewrite HR in Hlt.
    destruct (Z.eqb_spec (dist s r' c) 0); [|done]. simpl in Hlt. discriminate Hlt. lia.
Qed.

Lemma star_col_spec s r :
  base s → r < n →
  ∃ c, seek m 0 (λ c, GET2 (mstar s) r c) = Ok c ∧ c ≤ m ∧ (c < m → star s r c = true)
       ∧ (c = m → ¬ srow m (star s) r).
Proof.
  intros Hb Hr.
  destruct (seek_spec m 0 (λ c, GET2 (mstar s) r c) (λ c, star s r c)) as (c & -> & Hc & Hlt & Hat).
  { intros j Hj. apply GET2_ok. rewrite (ba_mstar s Hb). lia. }
  exists c. split_and!; [done|lia|intros; apply Hat; lia|].
  intros -> (c' & Hc' & Hs). by rewrite Hlt in Hs by lia.
Qed.

Lemma step3_cols_ok k : ∀ col zf s,
  col + k = m → inv3 s →
  ∃ p' s', step3_cols n m k col zf s = Ok (p', s') ∧ mstar s' = mstar s ∧
    ((∃ row c, p' = P4 row c ∧ ready4 row c s')
     ∨ (p' = P3 ∧ inv3 s' ∧ (unc s' < unc s ∨ (zf = true ∧ s' = s)))
     ∨ (p' = P5 ∧ zf = false ∧ s' = s
        ∧ ∀ r c, r < n → col ≤ c < m → CC s c = false → CR s r = false → dist s r c ≠ 0%Z)).
Proof.
  induction k as [|k IH]; intros col zf s Hk Hinv; simpl.
  { exists (if zf then P3 else P5), s. split; [done|]. split; [done|]. right.
    destruct zf; [left; auto|right; split_and!; [done..|lia]]. }
  pose proof Hinv as (Hb & Ho & Hcov & Hin & _).
  change (GET1 (ccol s) col) with (CC s col). destruct (CC s col) eqn:HC.
  { destruct (IH (S col) zf s) as (p' & s' & -> & Hms & H); [lia|done|].
    exists p', s'. split; [done|]. split; [done|].
    destruct H as [H|[H|(-> & Hzf & Hs & Hno)]]; [by left|by right; left|right; right].
    split_and!; [done..|]. intros r c Hr Hc HCc. apply Hno; [done| |done].
    destruct (decide (c = col)) as [->|]; [congruence|lia]. }
  destruct (zero_row_spec s col Hb) as (row & -> & Hrow & Hat & Hend); [lia|]. simpl.
  destruct (decide (row < n)) as [Hlt|Hge].
  - destruct (Hat Hlt) as [HD HR].
    destruct (SET2_ok (mprime s) row col) as (mp & -> & Hmpl & Hmp);
      [rewrite (ba_mprime s Hb); lia|lia|]. simpl. rewrite (ba_mprime s Hb) in Hmpl.
    destruct (star_col_spec s row Hb Hlt) as (cstar & -> & Hcs & Hst & Hno). simpl.
    destruct (decide (cstar = m)) as [->|Hne].
    + exists (P4 row col), (w_mprime mp s). split; [done|]. split; [done|]. left.
      destruct (add_prime s row col mp) as [Hb' Hrk]; [done|done|lia|done..|].
      exists row, col. split; [done|]. split_and!; [done..|lia| |auto].
      change (bit2 mp row col = true). by rewrite Hmp, bool_decide_eq_true_2.
    + destruct (shift_cover s row col mp cstar) as [Hinv' Hunc];
        [done|done|lia|done|done|done|done|done|lia|apply Hst; lia|].
      destruct (IH (S col) true
        (w_ccol (CLEAR1 (ccol s) cstar) (w_crow (SET1 (crow s) row) (w_mprime mp s))))
        as (p' & s' & Heq & Hms & H); [lia|done|].
      exists p', s'. split; [exact Heq|]. split; [done|].
      destruct H as [H|[(-> & Hi & H)|(_ & ? & _)]]; [by left|right; left|done].
      split_and!; [done..|]. left. destruct H as [?|[_ ->]]; lia.
  - destruct (IH (S col) zf s) as (p' & s' & -> & Hms & H); [lia|done|].
    exists p', s'. split; [done|]. split; [done|].
    destruct H as [H|[H|(-> & Hzf & Hs & Hno)]]; [by left|by right; left|right; right].
    split_and!; [done..|]. intros r c Hr Hc HCc HRr. destruct (decide (c = col)) as [->|].
    + apply Hend; [lia|done..].
    + apply Hno; [done|lia|done..].
Qed.

Lemma rounds_mono s s' a b : mstar s' = mstar s → a < b → rounds s' a < rounds s b.
Proof. intros E Hab. unfold rounds, star. rewrite E. lia. Qed.

Lemma uncovered_unc s : uncovered_zero s → 0 < unc s.
Proof.
  intros (r & c & Hr & _ & HR & _). unfold unc.
  destruct (filter _ _) eqn:E; [|simpl; lia].
  assert (r ∈ filter (λ r, CR s r = false) (seq 0 n)) as Hin
    by (apply list_elem_of_filter; split; [done|apply elem_of_seq; lia]).
  rewrite E in Hin. by apply elem_of_nil in Hin.
Qed.

Lemma step3_ok s l :
  pcinv P3 s l → ∃ p' s' l', step3 n m s = Ok (p', s') ∧ pcinv p' s' l' ∧ l' < l.
Proof.
  intros (Hb & Ho & Hcov & Hin & Hrk & Hl). unfold step3.
  destruct (step3_cols_ok m 0 false s) as (p' & s' & -> & Hms & H); [lia|done|].
  exists p', s'. destruct H as [(row & c & -> & Hb' & Ho' & Hcov' & Hrk' & H4)
    |[(-> & (Hb' & Ho' & Hcov' & Hin' & Hrk') & [Hu|[? _]])|(-> & _ & -> & Hno)]]; [| |done|].
  - eexists. split; [done|]. split; [split; [done|]; split_and!; try apply H4; done|].
    destruct Hl as [->|[Hz ->]]; apply rounds_mono; [done|lia|done|].
    apply uncovered_unc in Hz. lia.
  - eexists. split; [done|]. split; [split; [done|]; split_and!; [done..|by left]|].
    destruct Hl as [->|[_ ->]]; apply rounds_mono; [done|lia|done|lia].
  - eexists. split; [done|].
    assert (¬ uncovered_zero s) as Hnz.
    { intros (r & c & Hr & Hc & HR & HC & HD). eapply Hno; [exact Hr| |done..]. lia. }
    split; [split; [done|]; split_and!; done|].
    destruct Hl as [->|[? _]]; [apply rounds_mono; [done|lia]|done].
Qed.

(** ** Step 4 *)

Definition left4 (rk : nat → nat) (rs : nat) : nat :=
  if decide (rs < n) then S (length (filter (λ r, rk r < rk rs) (seq 0 n))) else 0.

Lemma filter_strict (P Q : nat → Prop) `{∀ x, Decision (P x), ∀ x, Decision (Q x)} x l :
  x ∈ l → ¬ P x → Q x → (∀ y, P y → Q y) → length (filter P l) < length (filter Q l).
Proof.
  intros Hx HP HQ HPQ.
  assert (∀ l, length (filter P l) ≤ length (filter Q l)) as Hle.
  { clear -HPQ. induction l as [|y l IH]; [done|]. rewrite !filter_cons.
    repeat case_decide; simpl; try (lia || naive_solver). }
  induction Hx as [x l|x y l Hx IH]; rewrite !filter_cons.
  - rewrite decide_False, decide_True by done. simpl. specialize (Hle l). lia.
  - specialize (IH HP HQ). repeat case_decide; simpl; try (lia || naive_solver).
Qed.

Lemma left4_bound rk rs : left4 rk rs ≤ n.
Proof.
  unfold left4. case_decide; [|lia].
  assert (length (filter (λ r, rk r < rk rs) (seq 0 n)) < length (filter (λ _, True) (seq 0 n))) as Hl.
  { apply (filter_strict _ _ rs); [apply elem_of_seq; lia|lia|done|done]. }
  assert (length (filter (λ _, True) (seq 0 n)) ≤ n) by (etrans; [apply length_filter|by rewrite length_seq]).
  lia.
Qed.

Lemma left4_lt rk rs rs' : rs < n → (rs' < n → rk rs' < rk rs) → left4 rk rs' < left4 rk rs.
Proof.
  intros Hr Hrk. unfold left4. rewrite (decide_True (P:=rs < n)) by done. case_decide; [|lia].
  specialize (Hrk ltac:(done)). apply -> Nat.succ_lt_mono.
  apply (filter_strict _ _ rs'); [apply elem_of_seq; lia|lia|done|intros; lia].
Qed.

Lemma step4_chain rk row col s nm rs :
  base s → covering n m (star s) (CC s) (CR s) → primes rk s →
  row < n → col < m → prime s row col = true → ¬ srow m (star s) row →
  (∀ r c, bit2 nm r c = bool_decide (row = r ∧ col = c) || star s r c) →
  rs ≤ n → (rs < n → star s rs col = true) → (rs = n → ¬ scol n (star s) col) →
  chain rk rs col (w_nmstar nm s).
Proof.
  intros Hb Hcov [Hz Hcc Hrow Hrk Hcv] Hr Hc Hp Hns Hnm Hrs Hat Hend.
  pose proof (matching_star s Hb) as [HXr HXc]. set (s' := w_nmstar nm s).
  assert (∀ r c, nstar s' r c = true ↔ (row = r ∧ col = c) ∨ star s r c = true) as HN.
  { intros r c. change (nstar s' r c) with (bit2 nm r c).
    rewrite Hnm, orb_true_iff, bool_decide_eq_true. done. }
  assert (∀ c, c < m → star s row c = false) as Hno.
  { intros c Hcm. destruct (star s row c) eqn:E; [|done]. exfalso. apply Hns. by exists c. }
  assert (∀ r, r < n → star s r col = true → r = rs) as Hrs'.
  { intros r Hrn Hst. destruct (decide (rs = n)) as [E|E].
    - exfalso. apply Hend; [done|]. by exists r.
    - apply (HXc r rs col); [done|lia|done|done|apply Hat; lia]. }
  split; try done.
  - exists row. split_and!; [done| |apply HN; by left].
    intros <-. by rewrite Hno in Hat by done; discriminate Hat.
  - intros r c Hrs2 Hrn Hcm Hle. apply eq_true_iff_eq. rewrite HN. split; [|auto].
    intros [[<- <-]|?]; [|done]. exfalso. specialize (Hrk row rs col). specialize (Hat Hrs2).
    assert (rk rs < rk row) by (by apply Hrk). lia.
  - intros r c c' Hrn Hcm Hcm' H1%HN H2%HN.
    destruct H1 as [[<- <-]|H1], H2 as [[E <-]|H2]; subst; [done| | |by eapply HXr].
    + by rewrite Hno in H2.
    + by rewrite Hno in H1.
  - intros r r' c Hrn Hrn' Hcm H1%HN H2%HN.
    destruct H1 as [[<- <-]|H1], H2 as [[E E']|H2]; subst; auto.
    left. by eapply HXc.
  - intros r c Hrn Hcm [[<- <-]|H]%HN Hf; [by left|]. change (star s' r c) with (star s r c) in Hf.
    congruence.
  - intros c Hcm. split.
    + intros (r & Hrn & [[_ <-]|H]%HN); [by right|left; by exists r].
    + intros [(r & Hrn & H)| ->]; [exists r|exists row]; (split; [done|]); apply HN; auto.
  - intros r Hrn (c & Hcm & H). exists c. split; [done|]. apply HN. by right.
  - intros r c Hrn Hcm [[<- <-]|H]%HN; [by apply Hz|]. by eapply (re_zero _ _ _ _ _ (ba_red s Hb)).
  - by apply (Hcc row).
Qed.

Lemma step4_ok row col s l :
  pcinv (P4 row col) s l →
  ∃ p' s' l', step4 n row col s = Ok (p', s') ∧ pcinv p' s' l' ∧ l' < l.
Proof.
  intros (Hb & Ho & Hcov & (rk & Hrk) & Hr & Hc & Hp & Hns & ->). unfold step4.
  destruct (SET2_ok (mstar s) row col) as (nm & -> & Hl & Hnm); [rewrite (ba_mstar s Hb); lia|lia|].
  simpl. destruct (star_row_spec s col Hb Hc) as (rs & -> & Hrs & Hat & Hend). simpl.
  rewrite (ba_mstar s Hb) in Hl.
  do 3 eexists. split; [done|]. split; [split; [|split_and!; [done|done|exists rk; split_and!]]|].
  - by destruct Hb; split.
  - by destruct Hrk; split.
  - by apply (step4_chain rk row).
  - reflexivity.
  - apply rounds_mono; [done|]. pose proof (left4_bound rk rs) as H. unfold left4 in H. lia.
Qed.

(** One link of the chain: the star in row [rs] moves to the prime of that row. *)
Lemma chain_step rk rs cs s pcol nm rs' :
  base s → covering n m (star s) (CC s) (CR s) → primes rk s → chain rk rs cs s → rs < n →
  pcol < m → prime s rs pcol = true →
  (∀ r c, r < n → bit2 nm r c
     = bool_decide (rs = r ∧ pcol = c) || (nstar s r c && negb (bool_decide (rs = r ∧ cs = c)))) →
  rs' ≤ n → (rs' < n → star s rs' pcol = true) → (rs' = n → ¬ scol n (star s) pcol) →
  chain rk rs' pcol (w_nmstar nm s) ∧ (rs' < n → rk rs' < rk rs).
Proof.
  intros Hb Hcov [Hz Hcc Hrow Hrk Hcv] [_ Hcs Hat _ Hnew Hold Hrw Hcl Hvis Hcols Hrows Hzero HCC]
    Hrs Hpc Hp Hnm Hrs' Hat' Hend'.
  pose proof (matching_star s Hb) as [HXr HXc]. set (s' := w_nmstar nm s).
  specialize (Hat Hrs).
  assert (∀ r, r < n → star s r pcol = true → rk r < rk rs) as Hdown by (intros; by apply (Hrk rs r pcol)).
  assert (pcol ≠ cs) as Hpcs by (intros ->; specialize (Hdown rs Hrs Hat); lia).
  assert (∀ r c, r < n → nstar s' r c = true ↔
    (rs = r ∧ pcol = c) ∨ (nstar s r c = true ∧ ¬ (rs = r ∧ cs = c))) as HN.
  { intros r c Hrn. change (nstar s' r c) with (bit2 nm r c).
    by rewrite Hnm, orb_true_iff, andb_true_iff, negb_true_iff, bool_decide_eq_true,
      bool_decide_eq_false. }
  assert (∀ c, c < m → nstar s rs c = true → c = cs) as Hrs_row.
  { intros c Hcm HNs. rewrite Hold in HNs by (done || lia). by apply (HXr rs). }
  assert (∀ r, r < n → nstar s r pcol = true → r ≠ rs → star s r pcol = true) as Hpcol.
  { intros r Hrn HNr Hne. destruct (star s r pcol) eqn:E; [done|].
    destruct (Hvis r pcol Hrn Hpc HNr E) as [?|(r' & Hr' & Hs' & Hlt)]; [done|].
    specialize (Hlt Hrs). specialize (Hdown r' Hr' Hs'). lia. }
  assert (∀ r, r < n → star s r pcol = true → r = rs') as Hrs_uniq.
  { intros r Hrn Hst. destruct (decide (rs' = n)) as [E|E].
    - exfalso. apply Hend'; [done|]. by exists r.
    - apply (HXc r rs' pcol); [done|lia|done|done|apply Hat'; lia]. }
  split; [split; try done|intros; by apply Hdown; auto].
  - exists rs. split_and!; [done| |apply HN; [done|by left]].
    intros <-. specialize (Hdown rs Hrs (Hat' Hrs)). lia.
  - intros r c Hrs2 Hrn Hcm Hle. change (star s' r c) with (star s r c).
    specialize (Hdown rs' Hrs2 (Hat' Hrs2)). rewrite <-(Hold r c) by (done || lia).
    apply eq_true_iff_eq. rewrite HN by done. split.
    + intros [[<- <-]|[? _]]; [lia|done].
    + intros ?. right. split; [done|]. intros [<- _]. lia.
  - intros r c c' Hrn Hcm Hcm' H1%HN H2%HN; try done.
    destruct H1 as [[<- <-]|[H1 N1]], H2 as [[E <-]|[H2 N2]]; subst; [done| | |by eapply Hrw].
    + exfalso. apply N2. split; [done|]. symmetry. by apply Hrs_row.
    + exfalso. apply N1. split; [done|]. symmetry. by apply Hrs_row.
  - intros r r' c Hrn Hrn' Hcm H1%HN H2%HN; try done.
    destruct H1 as [[<- <-]|[H1 N1]], H2 as [[E E']|[H2 N2]]; subst.
    + by left.
    + destruct (decide (r' = rs)) as [->|Hne]; [by left|]. right. split; [done|]. right.
      by apply Hrs_uniq, Hpcol.
    + destruct (decide (r = r')) as [->|Hne]; [by left|]. right. split; [done|]. left.
      by apply Hrs_uniq, Hpcol.
    + left. destruct (Hcl r r' c) as [?|[-> [->| ->]]]; try done; tauto.
  - intros r c Hrn Hcm [[<- <-]|[H N1]]%HN Hf; [by left| |done]. right.
    change (star s' r c) with (star s r c) in Hf.
    destruct (Hvis r c Hrn Hcm H Hf) as [->|(r' & Hr' & Hs' & Hlt)].
    + exists rs. split_and!; [done|done|]. intros ?. by apply Hdown; auto.
    + exists r'. split_and!; [done|done|]. intros ?. specialize (Hlt Hrs).
      assert (rk rs' < rk rs) by (apply Hdown; auto). lia.
  - intros c Hcm. split.
    + intros (r & Hrn & [[_ <-]|[H _]]%HN); [by right| |done].
      assert (scol n (nstar s) c) as Hs by (by exists r). apply Hcols in Hs as [?| ->]; [by left| |done].
      left. by exists rs.
    + intros [Hs| ->]; [|exists rs; split; [done|]; apply HN; [done|by left]].
      assert (scol n (nstar s) c) as (r & Hrn & HNr) by (apply Hcols; [done|by left]).
      destruct (decide (rs = r ∧ cs = c)) as [[<- <-]|Hne].
      * destruct Hnew as (x & Hxn & Hxne & Hx). exists x. split; [done|]. apply HN; [done|].
        right. split; [done|]. intros [? _]. congruence.
      * exists r. split; [done|]. apply HN; auto.
  - intros r Hrn Hs. destruct (decide (rs = r)) as [<-|Hne].
    + exists pcol. split; [done|]. apply HN; auto.
    + destruct (Hrows r Hrn Hs) as (c & Hcm & HNr). exists c. split; [done|].
      apply HN; [done|]. right. split; [done|]. tauto.
  - intros r c Hrn Hcm [[<- <-]|[H _]]%HN; [by apply Hz|by apply Hzero|done].
  - by apply (Hcc rs).
Qed.

(** The chain is complete: one more star. *)
Lemma chain_done rk cs s :
  base s → chain rk n cs s →
  matching n m (nstar s) ∧ count n m (nstar s) = S (count n m (star s)).
Proof.
  intros Hb [_ Hcs _ Hend _ _ Hrw Hcl _ Hcols _ _ _].
  assert (matching n m (nstar s)) as HY.
  { split; [done|]. intros r r' c Hr Hr' Hc H1 H2.
    destruct (Hcl r r' c) as [?|[_ [?|?]]]; try done; lia. }
  split; [done|]. apply (count_grow n m (star s) (nstar s) cs); [by apply matching_star|done|done|auto|done].
Qed.

Lemma prime_col_spec rk s rs cs :
  base s → covering n m (star s) (CC s) (CR s) → primes rk s → chain rk rs cs s → rs < n →
  ∃ c, seek m 0 (λ c, GET2 (mprime s) rs c) = Ok c ∧ c < m ∧ prime s rs c = true.
Proof.
  intros Hb Hcov Hpr Hch Hrs.
  assert (CR s rs = true) as HR.
  { pose proof (cv_star _ _ _ _ _ Hcov rs cs Hrs (ch_cs _ _ _ _ Hch) (ch_at _ _ _ _ Hch Hrs)) as E.
    rewrite (ch_cc _ _ _ _ Hch) in E. by destruct (CR s rs). }
  destruct (pm_cov _ _ Hpr rs Hrs HR) as (c0 & Hc0 & Hp0).
  destruct (seek_spec m 0 (λ c, GET2 (mprime s) rs c) (λ c, prime s rs c)) as (c & -> & Hc & Hlt & Hat).
  { intros j Hj. apply GET2_ok. rewrite (ba_mprime s Hb). lia. }
  exists c. assert (c < m).
  { destruct (decide (c < m)); [done|]. exfalso. by rewrite Hlt in Hp0 by lia. }
  split_and!; [done|done|]. apply Hat. lia.
Qed.

Lemma step4_leave rk cs s :
  base s → open_ s → covering n m (star s) (CC s) (CR s) → chain rk n cs s →
  let s' := w_crow 0 (w_mprime blank (w_mstar (nmstar s) s)) in
  base s' ∧ clean s' ∧ rounds s' (4 * n + 5) < rounds s 0.
Proof.
  intros Hb Ho Hcov Hch s'. destruct (chain_done rk cs s Hb Hch) as [HY Hcnt].
  pose proof Hch as [_ Hcs _ _ _ _ _ _ _ Hcols Hrows Hzero _]. split_and!.
  - destruct Hb as [H1 H2 H3 H4 H5]. split; [done|done|done|done|].
    apply (reduced_rematch n m A (star s)); [done|done|done|done|].
    intros c Hc Hs. apply Hcols; [done|by left].
  - split.
    + intros r _. apply GET1_0.
    + intros r c Hr Hc. apply bit2_blank. lia.
    + intros c Hc HC. apply Hcols; [done|]. left. by apply (cv_col _ _ _ _ _ Hcov).
  - unfold rounds, open_ in *. change (star s') with (nstar s). rewrite Hcnt.
    destruct (dmin - count n m (star s)) as [|k] eqn:E; [lia|].
    assert (dmin - S (count n m (star s)) = k) as -> by lia. nia.
Qed.

Lemma step4_while_ok rs cs s l :
  pcinv (P4w rs cs) s l →
  ∃ p' s' l', step4_while n m rs cs s = Ok (p', s') ∧ pcinv p' s' l' ∧ l' < l.
Proof.
  intros (Hb & Ho & Hcov & rk & Hpr & Hch & ->). unfold step4_while.
  fold (left4 rk rs). destruct (decide (rs < n)) as [Hrs|Hrs].
  - pose proof (ch_cs _ _ _ _ Hch) as Hcs.
    destruct (CLEAR2_ok (nmstar s) rs cs) as (nm1 & -> & Hl1 & Hnm1); [rewrite (ba_nmstar s Hb); lia|lia|].
    simpl. destruct (prime_col_spec rk s rs cs Hb Hcov Hpr Hch Hrs) as (c & -> & Hc & Hp). simpl.
    rewrite (ba_nmstar s Hb) in Hl1.
    destruct (SET2_ok nm1 rs c) as (nm2 & -> & Hl2 & Hnm2); [lia|lia|]. simpl.
    destruct (star_row_spec s c Hb Hc) as (rs' & -> & Hrs' & Hat' & Hend'). simpl.
    destruct (chain_step rk rs cs s c nm2 rs') as [Hch' Hdown]; try done.
    { intros r x Hr. rewrite Hnm2, Hnm1 by lia. done. }
    do 3 eexists. split; [done|]. split; [split; [|split_and!; [done|done|exists rk; split_and!]]|].
    + destruct Hb; split; try done. simpl. lia.
    + by destruct Hpr; split.
    + done.
    + reflexivity.
    + apply rounds_mono; [done|]. by apply left4_lt.
  - assert (rs = n) as -> by (pose proof (ch_rs _ _ _ _ Hch); lia).
    destruct (step4_leave rk cs s Hb Ho Hcov Hch) as (Hb' & Hcl & Hlt).
    do 3 eexists. split; [done|]. split; [split; [exact Hb'|split; [exact Hcl|reflexivity]]|].
    unfold left4. rewrite decide_False by lia. exact Hlt.
Qed.

(** ** Step 5 *)

Local Open Scope Z_scope.

(** [o] is the least value of [D] on the cells [Q]. *)
Definition least (D : nat → nat → Z) (Q : nat → nat → Prop) (o : option Z) : Prop :=
  match o with
  | None => ∀ r c, ¬ Q r c
  | Some h => (∃ r c, Q r c ∧ D r c = h) ∧ ∀ r c, Q r c → h <= D r c
  end.

Lemma least_ext D (Q Q' : nat → nat → Prop) o :
  (∀ r c, Q r c ↔ Q' r c) → least D Q o → least D Q' o.
Proof.
  intros HQ. destruct o as [h|]; simpl; [|by intros H r c ?%HQ%H].
  intros [(r & c & ?%HQ & ?) Hle]. split; [by exists r, c|]. by intros r' c' ?%HQ%Hle.
Qed.

Lemma least_add D (Q Q' : nat → nat → Prop) o r0 c0 :
  least D Q o → (∀ r c, Q' r c ↔ Q r c ∨ (r = r0 ∧ c = c0)) →
  least D Q' (match o with
              | Some h => Some (if D r0 c0 <? h then D r0 c0 else h)
              | None => Some (D r0 c0)
              end).
Proof.
  intros Ho HQ. destruct o as [h|]; simpl in *.
  - destruct Ho as [(r & c & Hrc & Hh) Hle]. destruct (Z.ltb_spec (D r0 c0) h).
    + split; [exists r0, c0; split; [apply HQ; by right|done]|].
      intros r' c' [?%Hle|[-> ->]]%HQ; lia.
    + split; [exists r, c; split; [apply HQ; by left|done]|].
      intros r' c' [?%Hle|[-> ->]]%HQ; lia.
  - split; [exists r0, c0; split; [apply HQ; by right|done]|].
    intros r' c' [?%Ho|[-> ->]]%HQ; [done|lia].
Qed.

Definition open_cell s (r c : nat) : Prop :=
  (r < n)%nat ∧ (c < m)%nat ∧ CR s r = false ∧ CC s c = false.

Lemma smallest_spec s : base s → ∃ o, smallest n m s = Ok o ∧ least (dist s) (open_cell s) o.
Proof.
  intros Hb. unfold smallest.
  match goal with |- context [for_to n 0 ?f None] => set (F := f) end.
  destruct (for_to_spec (λ j o, least (dist s) (λ r c, (r < j)%nat ∧ open_cell s r c) o) n 0 F None)
    as (o & -> & Ho).
  { intros r c [? _]. lia. }
  { intros j o Hj IH. unfold F. change (GET1 (crow s) j) with (CR s j). destruct (CR s j) eqn:HR.
    - exists o. split; [done|]. eapply least_ext; [|exact IH]. intros r c. unfold open_cell.
      split; [intros (? & ?); split; [lia|done]|]. intros (Hr & ? & ? & HRr & ?).
      split_and!; try done. destruct (decide (r = j)) as [->|]; [congruence|lia].
    - match goal with |- context [for_to m 0 ?f o] => set (G := f) end.
      destruct (for_to_spec (λ k o, least (dist s) (λ r c, open_cell s r c ∧
          ((r < j)%nat ∨ (r = j ∧ (c < k)%nat))) o) m 0 G o) as (o' & -> & Ho').
      + eapply least_ext; [|exact IH]. intros r c. simpl. split; [intros []; auto|].
        intros [? [?|[_ ?]]]; [done|lia].
      + intros k o1 Hk IHk. unfold G. change (GET1 (ccol s) k) with (CC s k).
        destruct (CC s k) eqn:HC.
        * exists o1. split; [done|]. eapply least_ext; [|exact IHk]. intros r c. unfold open_cell.
          split; [intros (? & ?); split; [done|lia]|]. intros ((? & ? & ? & HCc) & Hrc).
          split; [done|]. destruct (decide (c = k)) as [->|]; [congruence|lia].
        * rewrite (cell_rd n m) by (try apply Hb; lia). simpl. eexists. split; [done|].
          apply (least_add (dist s) _ _ o1 j k IHk). intros r c. unfold open_cell. split.
          -- intros (? & Hrc). destruct (decide (r = j ∧ c = k)); [by right|left]. split; [done|lia].
          -- intros [(? & Hrc)|[-> ->]]; [split; [done|lia]|]. split_and!; try done; lia.
      + exists o'. split; [done|]. eapply least_ext; [|exact Ho']. intros r c. unfold open_cell. simpl.
        split; [intros ((? & ? & ?) & Hrc); split; [lia|done]|].
        intros (? & ? & ? & ?). split; [done|]. lia. }
  exists o. split; [done|]. eapply least_ext; [|exact Ho]. intros r c. simpl.
  split; [by intros []|]. intros H. split; [apply H|done].
Qed.

Lemma add_rows_spec h cr l :
  big n m l → (∀ r c, (r < n)%nat → (c < m)%nat → in_int (cell n l r c + h) = true) →
  ∃ l', add_rows n m h cr l = Ok l' ∧ big n m l' ∧ length l' = length l
    ∧ ∀ r c, (r < n)%nat → (c < m)%nat →
        cell n l' r c = cell n l r c + (if GET1 cr r then h else 0).
Proof.
  intros Hb Hi. unfold add_rows.
  apply (lines_spec n m (λ r c, r) (λ i, if GET1 cr i then h else 0) n); [done|done|].
  intros i t Hin Hbt Heq. destruct (GET1 cr i).
  - apply (bump_line n m (λ r c, r) i h m (λ col, (i, col))); [done| |].
    + intros r c Hr Hc. split; [intros <-; by exists c|intros (j & _ & [= -> ->]); done].
    + intros j Hj. simpl. split_and!; [done|done|rewrite Heq by done; by apply Hi|].
      intros j' _ [= ->]. done.
  - exists t. split_and!; try done. intros. case_decide; lia.
Qed.

Lemma sub_cols_spec h cc l :
  big n m l → (∀ r c, (r < n)%nat → (c < m)%nat → in_int (cell n l r c - h) = true) →
  ∃ l', sub_cols n m h cc l = Ok l' ∧ big n m l' ∧ length l' = length l
    ∧ ∀ r c, (r < n)%nat → (c < m)%nat →
        cell n l' r c = cell n l r c - (if GET1 cc c then 0 else h).
Proof.
  intros Hb Hi. unfold sub_cols.
  destruct (lines_spec n m (λ r c, c) (λ i, if GET1 cc i then 0 else - h) m
    (λ col l, if GET1 cc col then Ok l else for_to n 0 (λ row l, bump (- h) (at_ n row col) l) l) l)
    as (l' & -> & Hb' & Hl' & H'); [done|done| |].
  - intros i t Hin Hbt Heq. destruct (GET1 cc i).
    + exists t. split_and!; try done. intros. case_decide; lia.
    + apply (bump_line n m (λ r c, c) i (- h) n (λ row, (row, i))); [done| |].
      * intros r c Hr Hc. split; [intros <-; by exists r|intros (j & _ & [= -> ->]); done].
      * intros j Hj. simpl. split_and!; [done|done|rewrite Heq by done; by apply Hi|].
        intros j' _ [= ->]. done.
  - exists l'. split_and!; try done. intros r c Hr Hc. rewrite H' by done. destruct (GET1 cc c); lia.
Qed.

Lemma open_bound s : base s → open_ s → ∀ r c, (r < n)%nat → (c < m)%nat →
  0 <= dist s r c /\ dist s r c <= 2 * M.
Proof. intros Hb Ho. by apply (reduced_bound n m A (star s)); [apply Hb|..]. Qed.

Lemma open_cell_exists s :
  base s → open_ s → covering n m (star s) (CC s) (CR s) → ∃ r c, open_cell s r c.
Proof.
  intros Hb Ho Hcov. unfold open_, dmin in Ho.
  destruct (unstarred_row n m (star s)) as (r & Hr & Hnr); [lia|].
  destruct (unstarred_col n m (star s)) as (c & Hc & Hnc); [lia|].
  exists r, c. split_and!; [done|done|..].
  - destruct (CR s r) eqn:E; [|done]. exfalso. by apply Hnr, (cv_row _ _ _ _ _ Hcov).
  - destruct (CC s c) eqn:E; [|done]. exfalso. by apply Hnc, (cv_col _ _ _ _ _ Hcov).
Qed.

Lemma step5_ok s l :
  pcinv P5 s l → ∃ p' s' l', step5 n m s = Ok (p', s') ∧ pcinv p' s' l' ∧ (l' < l)%nat.
Proof.
  intros (Hb & Ho & Hcov & Hin & (rk & [Hz Hcc Hrow Hrk Hcv]) & Hnz & ->). unfold step5.
  destruct (smallest_spec s Hb) as (o & -> & Hleast). simpl.
  destruct o as [h|]; simpl in Hleast.
  2: { exfalso. destruct (open_cell_exists s Hb Ho Hcov) as (r & c & H). by apply (Hleast r c). }
  destruct Hleast as [(r0 & c0 & (Hr0 & Hc0 & HR0 & HC0) & Hh) Hmin].
  pose proof (open_bound s Hb Ho) as HD. pose proof (HD r0 c0 Hr0 Hc0) as Hh0.
  unfold INT_MAX in HM.
  destruct (add_rows_spec h (crow s) (mdist s)) as (l1 & -> & Hb1 & Hl1 & H1);
    [apply Hb|intros r c Hr Hc; apply in_int_iff; pose proof (HD r c Hr Hc); unfold dist in *; lia|].
  simpl. destruct (sub_cols_spec h (ccol s) l1) as (l2 & -> & Hb2 & Hl2 & H2); [done| |].
  { intros r c Hr Hc. rewrite H1 by done. apply in_int_iff. pose proof (HD r c Hr Hc).
    unfold dist in *. destruct (GET1 _ _); lia. }
  simpl. set (s' := w_mdist l2 s).
  assert (∀ r c, (r < n)%nat → (c < m)%nat →
    dist s' r c = dist s r c + (if CR s r then h else 0) - (if CC s c then 0 else h)) as HD'.
  { intros r c Hr Hc. unfold dist at 1. simpl. rewrite H2, H1 by done. done. }
  exists P3, s'. eexists. split; [done|]. split; [split|].
  - destruct Hb as [B1 B2 B3 B4 B5]. split; try done.
    apply (reduced_adjust n m A (star s) (dist s) (dist s') (CC s) (CR s) h); try done; [lia|].
    intros r c Hr Hc HC HR. by apply Hmin.
  - split_and!; [done|done|done| |].
    + exists rk. split; try done. intros r c Hr Hc Hp. change (prime s' r c) with (prime s r c) in Hp.
      rewrite HD', Hz, (Hin r c), (Hcc r c) by done. lia.
    + right. split; [|reflexivity]. exists r0, c0. split_and!; try done.
      rewrite HD' by done. rewrite HR0, HC0. lia.
  - apply rounds_mono; [done|]. change (unc s') with (unc s). lia.
Qed.

(** ** The run *)

Definition final (p : pc) : bool := match p with PFinish | PGiveUp => true | _ => false end.

Lemma step_ok p s l :
  pcinv p s l → final p = false →
  ∃ p' s' l', step n m dmin p s = Ok (p', s') ∧ pcinv p' s' l' ∧ (l' < l)%nat.
Proof.
  intros Hp Hf. destruct p; simpl; try done.
  - destruct (step2a_ok s l Hp) as (s' & l' & -> & ? & ?). by exists P2b, s', l'.
  - destruct (step2b_ok s l Hp) as (p' & l' & -> & ? & ?). by exists p', s, l'.
  - by apply step3_ok.
  - by apply step4_ok.
  - by apply step4_while_ok.
  - by apply step5_ok.
Qed.

Lemma exec_ok fuel : ∀ p s l,
  pcinv p s l → (l < fuel)%nat →
  ∃ s', exec n m dmin fuel p s = Ok (Some (PFinish, s')) ∧ base s' ∧ count n m (star s') = dmin.
Proof.
  induction fuel as [|fuel IH]; intros p s l Hp Hl; [lia|].
  destruct (final p) eqn:Ef.
  - destruct p; try done; [|by destruct Hp]. exists s. by destruct Hp.
  - destruct (step_ok p s l Hp Ef) as (p' & s' & l' & Hs & Hp' & Hlt).
    destruct (IH p' s' l' Hp') as (s'' & Hx & ?); [lia|]. exists s''. split; [|done].
    destruct p; try done; simpl in *; rewrite Hs; simpl; exact Hx.
Qed.
End Steps.
