(* ===== verification/MunkresRun.v ===== *)
(** The whole match: preliminary steps, run and result.  [mtdev_match] returns
    a cheapest assignment. *)
From S2P Require Import Prelude Numeric Munkres MunkresBase Matching MunkresSteps.

Local Open Scope Z_scope.

(** ** The preliminary reduction *)

Section Reduce.
  Variables (n m : nat).

(** The smallest of [v] and the values of [f] from [i] on. *)
Fixpoint scan (f : nat → Z) (k i : nat) (v : Z) : Z :=
  match k with
  | O => v
  | S k => scan f k (S i) (if f i <? v then f i else v)
  end.

Lemma scan_le f k i v : scan f k i v <= v ∧ ∀ j, (i <= j < i + k)%nat → scan f k i v <= f j.
Proof.
  revert i v. induction k as [|k IH]; intros i v; simpl; [split; [lia|intros; lia]|].
  destruct (IH (S i) (if f i <? v then f i else v)) as [H1 H2].
  destruct (Z.ltb_spec (f i) v); (split; [lia|]); intros j Hj;
    (destruct (decide (j = i)) as [->|]; [lia|apply H2; lia]).
Qed.

Lemma scan_bound f k i v lo hi :
  lo <= v <= hi → (∀ j, (i <= j < i + k)%nat → lo <= f j <= hi) → lo <= scan f k i v <= hi.
Proof.
  revert i v. induction k as [|k IH]; intros i v Hv Hf; simpl; [done|].
  apply IH; [|intros; apply Hf; lia]. specialize (Hf i). destruct (f i <? v); lia.
Qed.

(** The pointer loops visit the positions [start + j * stride] below [end_]. *)
Section Stride.
  Variables (start stride end_ k : nat).
  Hypothesis Hin : ∀ j, (j < k)%nat → (start + j * stride < end_)%nat.
  Hypothesis Hout : (end_ ≤ start + k * stride)%nat.

Lemma scan_min_spec l fuel i v :
  (i <= k)%nat → (k - i <= fuel)%nat → (end_ <= length l)%nat →
  scan_min fuel l (start + i * stride) stride end_ v
  = Ok (scan (λ j, l !!! (start + j * stride)%nat) (k - i) i v).
Proof.
  revert i v. induction fuel as [|fuel IH]; intros i v Hi Hf Hl; simpl.
  { by replace (k - i)%nat with 0%nat by lia. }
  case_decide as E.
  - destruct (decide (i = k)) as [->|Hne]; [lia|].
    rewrite rd_ok by lia. simpl.
    replace (start + i * stride + stride)%nat with (start + S i * stride)%nat by lia.
    rewrite IH by lia. replace (k - i)%nat with (S (k - S i)) by lia. done.
  - destruct (decide (i = k)) as [->|Hne]; [by rewrite Nat.sub_diag|].
    specialize (Hin i). lia.
Qed.

Lemma sub_all_for l fuel i v :
  (i <= k)%nat → (k - i <= fuel)%nat →
  sub_all fuel l (start + i * stride) stride end_ v
  = for_to (k - i) i (λ j l, bump (- v) (start + j * stride) l) l.
Proof.
  revert i l. induction fuel as [|fuel IH]; intros i l Hi Hf; simpl.
  { by replace (k - i)%nat with 0%nat by lia. }
  case_decide as E.
  - destruct (decide (i = k)) as [->|Hne]; [lia|].
    replace (k - i)%nat with (S (k - S i)) by lia. simpl.
    destruct (bump (- v) (start + i * stride) l) as [l'|]; simpl; [|done].
    replace (start + i * stride + stride)%nat with (start + S i * stride)%nat by lia.
    by rewrite IH by lia.
  - destruct (decide (i = k)) as [->|Hne]; [by rewrite Nat.sub_diag|].
    specialize (Hin i). lia.
Qed.
End Stride.

Lemma for_to_ext {T} k i (f g : nat → T → res T) s :
  (∀ j t, (i <= j < i + k)%nat → f j t = g j t) → for_to k i f s = for_to k i g s.
Proof.
  revert i s. induction k as [|k IH]; intros i s Hfg; simpl; [done|].
  rewrite Hfg by lia. destruct (g i s); simpl; [|done]. apply IH. intros. apply Hfg. lia.
Qed.

(** Reducing the line [i] of a family of lines. *)
Lemma reduce_line_spec (L : nat → nat → nat) i k (at_cell : nat → nat * nat) start stride end_ t hi :
  (0 < k)%nat → (k <= n * m)%nat → big n m t → (end_ <= n * m)%nat →
  (∀ j, (j < k)%nat → at_ n (at_cell j).1 (at_cell j).2 = (start + j * stride)%nat) →
  (∀ j, (j < k)%nat → (start + j * stride < end_)%nat) → (end_ ≤ start + k * stride)%nat →
  (∀ r c, (r < n)%nat → (c < m)%nat → L r c = i ↔ ∃ j, (j < k)%nat ∧ at_cell j = (r, c)) →
  (∀ j, (j < k)%nat → ((at_cell j).1 < n)%nat ∧ ((at_cell j).2 < m)%nat
     ∧ 0 <= cell n t (at_cell j).1 (at_cell j).2 <= hi
     ∧ ∀ j', (j' < k)%nat → at_cell j' = at_cell j → j' = j) →
  hi <= INT_MAX →
  let f j := cell n t (at_cell j).1 (at_cell j).2 in
  let mn := scan f (k - 1) 1 (f 0%nat) in
  ∃ t', reduce_line n m start stride end_ t = Ok t' ∧ big n m t' ∧ length t' = length t
    ∧ ∀ r c, (r < n)%nat → (c < m)%nat →
        cell n t' r c = cell n t r c + if decide (L r c = i) then - mn else 0.
Proof.
  intros Hk Hkn Hb He Hat Hin Hout HL Hc Hhi f mn. unfold reduce_line, big in *.
  assert (∀ j, (j < k)%nat → t !!! (start + j * stride)%nat = f j) as Hf
    by (intros j Hj; unfold f, cell; by rewrite Hat).
  assert (rd t start = Ok (f 0%nat)) as ->.
  { specialize (Hin 0%nat Hk). rewrite Nat.mul_0_l, Nat.add_0_r in Hin.
    rewrite rd_ok by lia. rewrite <-Hf by done. by rewrite Nat.mul_0_l, Nat.add_0_r. }
  simpl. replace (start + stride)%nat with (start + 1 * stride)%nat by lia.
  rewrite (scan_min_spec start stride end_ k) by (done || lia). simpl.
  assert (∀ k' i v, (i + k' <= k)%nat →
    scan (λ j, t !!! (start + j * stride)%nat) k' i v = scan f k' i v) as Hscan.
  { clear -Hf. induction k' as [|k' IH]; intros i v Hik; simpl; [done|].
    rewrite Hf by lia. apply IH. lia. }
  rewrite Hscan by lia. fold mn.
  pose proof (sub_all_for start stride end_ k Hin Hout t (n * m) 0 mn) as Hsub.
  rewrite Nat.mul_0_l, Nat.add_0_r, Nat.sub_0_r in Hsub. rewrite Hsub by lia.
  assert (0 <= mn <= hi) as Hmn.
  { apply scan_bound; [by apply Hc|]. intros j Hj. apply Hc. lia. }
  destruct (bump_line n m L i (- mn) k at_cell t) as (t' & Heq & Hrest); [done|done| |].
  - intros j Hj. destruct (Hc j Hj) as (? & ? & Hv & ?). split_and!; try done.
    apply in_int_iff. unfold INT_MAX in *. lia.
  - exists t'. split; [|done]. rewrite <-Heq.
    apply for_to_ext. intros j l Hj. by rewrite Hat by lia.
Qed.
End Reduce.

(** ** The state before the first step *)

Section Start.
  Variables (n m : nat) (A : list Z) (M : Z).
  Hypothesis Hn : (n ≤ 32)%nat.
  Hypothesis Hm : (m ≤ 32)%nat.
  Hypothesis HM : 4 * M <= INT_MAX.
  Hypothesis Hbig : big n m A.
  Hypothesis HA : ∀ r c, (r < n)%nat → (c < m)%nat → 0 <= cell n A r c /\ cell n A r c <= M.

Definition none_ (_ _ : nat) : bool := false.

Lemma matching_none : matching n m none_.
Proof. by split. Qed.

Definition row_min (r : nat) : Z := scan (λ j, cell n A r j) (m - 1) 1 (cell n A r 0).
Definition col_min (c : nat) : Z := scan (λ j, cell n A j c) (n - 1) 1 (cell n A 0 c).

Lemma row_min_le r c : (r < n)%nat → (c < m)%nat → 0 <= row_min r /\ row_min r <= cell n A r c.
Proof.
  intros Hr Hc. unfold row_min. split.
  - apply (scan_bound _ _ _ _ 0 M); [apply HA; lia|]. intros j Hj. apply HA; lia.
  - destruct (scan_le (λ j, cell n A r j) (m - 1) 1 (cell n A r 0)) as [H0 Hj].
    destruct c; [done|]. apply Hj. lia.
Qed.

Lemma col_min_le r c : (r < n)%nat → (c < m)%nat → 0 <= col_min c /\ col_min c <= cell n A r c.
Proof.
  intros Hr Hc. unfold col_min. split.
  - apply (scan_bound _ _ _ _ 0 M); [apply HA; lia|]. intros j Hj. apply HA; lia.
  - destruct (scan_le (λ j, cell n A j c) (n - 1) 1 (cell n A 0 c)) as [H0 Hj].
    destruct r; [done|]. apply Hj. lia.
Qed.

Lemma scan_ext f g k i v : (∀ j, (i <= j < i + k)%nat → f j = g j) → scan f k i v = scan g k i v.
Proof.
  revert i v. induction k as [|k IH]; intros i v H; simpl; [done|].
  rewrite H by lia. apply IH. intros. apply H. lia.
Qed.

Lemma reduce_rows_spec :
  (n ≤ m)%nat → ∃ l, reduce_rows n m A = Ok l ∧ big n m l ∧ reduced n m (cell n A) none_ (cell n l).
Proof.
  intros Hle. unfold reduce_rows.
  destruct (lines_spec n m (λ r _, r) (λ r, - row_min r) n (λ row, reduce_line n m row n (n * m)) A)
    as (l & -> & Hb & _ & Hl); [done|done| |].
  - intros i t Hi Hbt Heq.
    destruct (reduce_line_spec n m (λ r _, r) i m (λ j, (i, j)) i n (n * m) t M)
      as (t' & Ht & Hb' & Hlen & Hc);
      [nia|nia|done|nia|intros; unfold at_; simpl; lia|intros; nia|nia| | |unfold INT_MAX in *; lia|].
    + intros r c Hr Hc. split; [intros <-; by exists c|by intros (j & _ & [= -> _])].
    + intros j Hj. simpl. rewrite Heq by done. split_and!; try done; [apply HA; done..|].
      by intros j' _ [= ->].
    + exists t'. split_and!; [done..|]. intros r c Hr Hcm. rewrite Hc by done. case_decide; [|done].
      f_equal. f_equal. unfold row_min. simpl. rewrite (Heq i 0%nat) by lia.
      apply scan_ext. intros j Hj. apply Heq; lia.
  - exists l. split_and!; [done..|]. split.
    + apply matching_none.
    + done.
    + intros r c Hr Hc. rewrite Hl by done. pose proof (row_min_le r c Hr Hc). lia.
    + exists row_min, (λ _, 0). split; [intros; rewrite Hl by done; lia|].
      rewrite decide_True by done. split; [intros r Hr|done].
      apply (row_min_le r 0); lia.
Qed.

Lemma reduce_cols_spec :
  ¬ (n ≤ m)%nat → ∃ l, reduce_cols n m A = Ok l ∧ big n m l ∧ reduced n m (cell n A) none_ (cell n l).
Proof.
  intros Hle. unfold reduce_cols.
  destruct (lines_spec n m (λ _ c, c) (λ c, - col_min c) m
    (λ col, reduce_line n m (n * col) 1 (n * col + n)) A) as (l & -> & Hb & _ & Hl); [done|done| |].
  - intros i t Hi Hbt Heq.
    destruct (reduce_line_spec n m (λ _ c, c) i n (λ j, (j, i)) (n * i) 1 (n * i + n) t M)
      as (t' & Ht & Hb' & Hlen & Hc);
      [nia|nia|done|nia|intros; unfold at_; simpl; lia|intros; nia|nia| | |unfold INT_MAX in *; lia|].
    + intros r c Hr Hc. split; [intros <-; by exists r|by intros (j & _ & [= _ ->])].
    + intros j Hj. simpl. rewrite Heq by done. split_and!; try done; [apply HA; done..|].
      by intros j' _ [= ->].
    + exists t'. split_and!; [done..|]. intros r c Hr Hcm. rewrite Hc by done. case_decide; [|done].
      f_equal. f_equal. unfold col_min. simpl. rewrite (Heq 0%nat i) by lia.
      apply scan_ext. intros j Hj. apply Heq; lia.
  - exists l. split_and!; [done..|]. split.
    + apply matching_none.
    + done.
    + intros r c Hr Hc. rewrite Hl by done. pose proof (col_min_le r c Hr Hc). lia.
    + exists (λ _, 0), col_min. split; [intros; rewrite Hl by done; lia|].
      rewrite decide_False by done. split; [intros c Hc|done].
      apply (col_min_le 0 c); lia.
Qed.

(** *** The first stars *)

Abbreviation base := (base n m (cell n A)).

Lemma base_init l : big n m l → reduced n m (cell n A) none_ (cell n l) → base (init_hung l).
Proof.
  intros Hb Hr. split; try done.
  assert (∀ r c, (c < m)%nat → star (init_hung l) r c = false) as Hf
    by (intros; apply bit2_blank; lia).
  apply (reduced_rematch n m _ none_); [done| | |by intros ?? (? & _ & ?)..].
  - split; intros; by rewrite Hf in * by done.
  - intros r c Hrn Hcm H. by rewrite Hf in H.
Qed.

(** One more star, in a row and a column without one. *)
Lemma add_star s row col ms :
  base s → (row < n)%nat → (col < m)%nat → dist n s row col = 0 →
  ¬ srow m (star s) row → ¬ scol n (star s) col → length ms = 32%nat →
  (∀ r c, bit2 ms r c = bool_decide (row = r ∧ col = c) || star s r c) →
  base (w_mstar ms s)
  ∧ (∀ c, scol n (star (w_mstar ms s)) c ↔ scol n (star s) c ∨ c = col)
  ∧ (∀ r, srow m (star (w_mstar ms s)) r ↔ srow m (star s) r ∨ r = row).
Proof.
  intros Hb Hr Hc HD Hnr Hnc Hl Hms.
  assert (∀ r c, star (w_mstar ms s) r c = true ↔ (row = r ∧ col = c) ∨ star s r c = true) as HS.
  { intros r c. change (star (w_mstar ms s) r c) with (bit2 ms r c).
    by rewrite Hms, orb_true_iff, bool_decide_eq_true. }
  assert (∀ c, scol n (star (w_mstar ms s)) c ↔ scol n (star s) c ∨ c = col) as Hcols.
  { intros c. split.
    - intros (r & Hrn & [[_ <-]|H]%HS); [by right|left; by exists r].
    - intros [(r & Hrn & H)| ->]; [exists r|exists row]; (split; [done|]); apply HS; auto. }
  assert (∀ r, srow m (star (w_mstar ms s)) r ↔ srow m (star s) r ∨ r = row) as Hrows.
  { intros r. split.
    - intros (c & Hcm & [[<- _]|H]%HS); [by right|left; by exists c].
    - intros [(c & Hcm & H)| ->]; [exists c|exists col]; (split; [done|]); apply HS; auto. }
  split; [|done]. destruct Hb as [H1 H2 H3 H4 H5]. split; try done.
  apply (reduced_rematch n m _ (star s)); [done| | |intros; apply Hrows; by left|intros; apply Hcols; by left].
  - pose proof (re_match _ _ _ _ _ H5) as [HXr HXc]. split.
    + intros r c c' Hrn Hcm Hcm' [[<- <-]|S1]%HS [[E <-]|S2]%HS; subst; [done| | |by eapply HXr].
      * exfalso. apply Hnr. by exists c'.
      * exfalso. apply Hnr. by exists c.
    + intros r r' c Hrn Hrn' Hcm [[<- <-]|S1]%HS [[E E']|S2]%HS; subst; [done| | |by eapply HXc].
      * exfalso. apply Hnc. by exists r'.
      * exfalso. apply Hnc. by exists r.
  - intros r c Hrn Hcm [[<- <-]|S1]%HS; [done|by apply (re_zero _ _ _ _ _ H5)].
Qed.

(** What the loops that place the first stars keep. *)
Record starting (s : hung) : Prop := {
  sg_base : base s;
  sg_cc c : (c < m)%nat → CC s c = true ↔ scol n (star s) c;
  sg_prime : mprime s = blank;
}.

Definition started (s : hung) : Prop := starting s ∧ crow s = 0.

Lemma star_rows_spec s :
  started s → (∀ r, ¬ srow m (star s) r) → ∃ s', star_rows n m s = Ok s' ∧ started s'.
Proof.
  intros Hs Hno. unfold star_rows.
  match goal with |- context [for_to n 0 ?f s] => set (F := f) end.
  destruct (for_to_spec (λ j t, started t ∧ ∀ r, (j <= r)%nat → ¬ srow m (star t) r) n 0 F s)
    as (s' & -> & Hs' & _); [auto| |by exists s'].
  intros j t Hj ([[Hb Hcc Hp] Hcr] & Hnr). unfold F.
  destruct (seek_spec m 0 (λ col, v ← rd (mdist t) (at_ n j col);
      Ok (if v =? 0 then negb (GET1 (ccol t) col) else false))
    (λ col, if dist n t j col =? 0 then negb (CC t col) else false)) as (col & -> & Hcol & _ & Hat).
  { intros c Hc. rewrite (cell_rd n m) by (try apply Hb; lia). done. }
  simpl. case_decide as Hlt.
  2: { exists t. split; [done|]. split; [done|]. intros r Hr. apply Hnr. lia. }
  specialize (Hat Hlt). destruct (Z.eqb_spec (dist n t j col) 0) as [HD|]; [|done].
  destruct (CC t col) eqn:HC; [done|].
  destruct (SET2_ok (mstar t) j col) as (ms & -> & Hl & Hms); [rewrite (ba_mstar _ _ _ _ Hb); lia|lia|].
  simpl. rewrite (ba_mstar _ _ _ _ Hb) in Hl.
  destruct (add_star t j col ms) as (Hb' & Hcols & Hrows); try done; [lia|apply Hnr; lia| |].
  { intros H%Hcc; [congruence|lia]. }
  eexists. split; [done|]. split; [split; [split|done]|].
  - by destruct Hb'.
  - intros c Hc. change (star _) with (star (w_mstar ms t)).
    change (CC _ c) with (GET1 (SET1 (ccol t) col) c).
    rewrite Hcols, <-Hcc by done. rewrite GET1_SET1 by lia.
    rewrite orb_true_iff, bool_decide_eq_true. unfold CC. naive_solver.
  - done.
  - intros r Hr. change (star _) with (star (w_mstar ms t)). rewrite Hrows.
    intros [?| ->]; [|lia]. by apply (Hnr r); [lia|].
Qed.

Lemma star_cols_spec s :
  started s → (∀ c, (c < m)%nat → ¬ scol n (star s) c) → (∀ r, ¬ srow m (star s) r) →
  ∃ s', star_cols n m s = Ok s' ∧ started s'.
Proof.
  intros [Hs Hcr] Hnoc Hnor. unfold star_cols.
  match goal with |- context [for_to m 0 ?f s] => set (F := f) end.
  destruct (for_to_spec (λ j t, starting t ∧ (∀ c, (j <= c < m)%nat → ¬ scol n (star t) c)
      ∧ ∀ r, (r < n)%nat → CR t r = true ↔ srow m (star t) r) m 0 F s)
    as (s' & -> & Hs' & _).
  { split_and!; [done|intros; apply Hnoc; lia|]. intros r Hr. unfold CR. rewrite Hcr, GET1_0.
    split; [done|]. by intros ?%Hnor. }
  { intros j t Hj ([Hb Hcc Hp] & Hnc & HR). unfold F.
    destruct (zero_row_spec n m (cell n A) Hn Hm t j Hb) as (row & -> & Hrow & Hat & _); [lia|].
    simpl. case_decide as Hlt.
    2: { exists t. split; [done|]. split; [done|]. split; [|done]. intros c Hc. apply Hnc. lia. }
    destruct (Hat Hlt) as [HD HRf].
    destruct (SET2_ok (mstar t) row j) as (ms & -> & Hl & Hms); [rewrite (ba_mstar _ _ _ _ Hb); lia|lia|].
    simpl. rewrite (ba_mstar _ _ _ _ Hb) in Hl.
    destruct (add_star t row j ms) as (Hb' & Hcols & Hrows); try done; [lia| |apply Hnc; lia|].
    { intros H%HR; [congruence|lia]. }
    eexists. split; [done|]. split_and!; [split|..].
    - by destruct Hb'.
    - intros c Hc. change (star _) with (star (w_mstar ms t)).
      change (CC _ c) with (GET1 (SET1 (ccol t) j) c).
      rewrite Hcols, <-Hcc by done. rewrite GET1_SET1 by lia.
      rewrite orb_true_iff, bool_decide_eq_true. unfold CC. naive_solver.
    - done.
    - intros c Hc. change (star _) with (star (w_mstar ms t)). rewrite Hcols.
      intros [?| ->]; [|lia]. by apply (Hnc c); [lia|].
    - intros r Hr. change (star _) with (star (w_mstar ms t)).
      change (CR _ r) with (GET1 (SET1 (crow t) row) r).
      rewrite Hrows, <-HR by done. rewrite GET1_SET1 by lia.
      rewrite orb_true_iff, bool_decide_eq_true. unfold CR. naive_solver. }
  simpl. eexists. split; [done|]. destruct Hs' as [Hb Hcc Hp]. split; [split; [|done..]|done].
  by destruct Hb.
Qed.

Lemma prepare_match_spec : ∃ s, prepare_match A n m = Ok s ∧ started s.
Proof.
  assert (∀ l, big n m l → reduced n m (cell n A) none_ (cell n l) →
    started (init_hung l) ∧ (∀ c, (c < m)%nat → ¬ scol n (star (init_hung l)) c)
    ∧ (∀ r, ¬ srow m (star (init_hung l)) r)) as Hinit.
  { intros l Hb Hr.
    assert (∀ r c, (c < m)%nat → star (init_hung l) r c = false) as Hf
      by (intros; apply bit2_blank; lia).
    assert (∀ c, (c < m)%nat → ¬ scol n (star (init_hung l)) c) as Hc
      by (intros c Hc (r & _ & H); by rewrite Hf in H).
    split_and!; [|done|intros r (c & Hcm & H); by rewrite Hf in H].
    split; [split; [by apply base_init| |done]|done].
    intros c Hcm. unfold CC. simpl. rewrite GET1_0. split; [done|]. by intros ?%Hc. }
  unfold prepare_match. case_decide as Hle.
  - destruct (reduce_rows_spec Hle) as (l & -> & Hb & Hr). simpl.
    destruct (Hinit l Hb Hr) as (H1 & H2 & H3). by apply star_rows_spec.
  - destruct (reduce_cols_spec Hle) as (l & -> & Hb & Hr). simpl.
    destruct (Hinit l Hb Hr) as (H1 & H2 & H3). by apply star_cols_spec.
Qed.

Lemma started_pcinv s :
  started s → pcinv n m (cell n A) P2b s (rounds n m s (4 * n + 4)).
Proof.
  intros [[Hb Hcc Hp] Hcr]. split; [done|]. split_and!; [|intros c Hc; by apply Hcc|done].
  split.
  - intros r _. unfold CR. by rewrite Hcr, GET1_0.
  - intros r c Hr Hc. unfold prime. rewrite Hp. apply bit2_blank. lia.
  - intros c Hc. by apply Hcc.
Qed.

Lemma run_spec :
  ∃ s0 s, prepare_match A n m = Ok s0
    ∧ exec n m (Nat.min n m) (match_fuel n m) P2b s0 = Ok (Some (PFinish, s))
    ∧ base s ∧ count n m (star s) = Nat.min n m.
Proof.
  destruct prepare_match_spec as (s0 & -> & Hs0).
  destruct (exec_ok n m (cell n A) M Hn Hm HM HA (match_fuel n m) P2b s0 (rounds n m s0 (4 * n + 4)))
    as (s & ? & ? & ?); [by apply started_pcinv| |by exists s0, s].
  unfold rounds, match_fuel, dmin. nia.
Qed.
End Start.

(** ** The index vector *)

(** The pairs an index vector describes. *)
Definition chosen (n : nat) (ix : list Z) : list (nat * nat) :=
  omap (λ r, if 0 <=? ix !!! r then Some (r, Z.to_nat (ix !!! r)) else None) (seq 0 n).

Lemma elem_of_chosen n ix r c :
  (r, c) ∈ chosen n ix ↔ (r < n)%nat ∧ ix !!! r = Z.of_nat c.
Proof.
  unfold chosen. rewrite list_elem_of_omap. split.
  - intros (x & Hx%elem_of_seq & H). destruct (Z.leb_spec 0 (ix !!! x)); [|done].
    injection H as -> <-. split; lia.
  - intros [Hr Hi]. exists r. rewrite elem_of_seq, Hi. split; [lia|].
    rewrite (proj2 (Z.leb_le _ _)) by lia. by rewrite Nat2Z.id.
Qed.

Lemma NoDup_chosen n ix : NoDup (chosen n ix).
Proof.
  unfold chosen. generalize (NoDup_seq 0 n). generalize (seq 0 n). intros l.
  induction 1 as [|r l Hr Hl IH]; simpl; [constructor|]. destruct (0 <=? ix !!! r); [|done].
  apply NoDup_cons. split; [|done]. intros H. apply list_elem_of_omap in H as (x & Hx & E).
  destruct (0 <=? ix !!! x); [|done]. injection E as ->. done.
Qed.

Lemma fill_spec n (ix : list Z) :
  (n <= length ix)%nat →
  ∃ ix', for_to n 0 (λ row ix, wr ix row (-1)) ix = Ok ix' ∧ length ix' = length ix
    ∧ ∀ r, ix' !!! r = if decide (r < n)%nat then -1 else ix !!! r.
Proof.
  intros Hl.
  destruct (for_to_spec (λ j t, length t = length ix
      ∧ ∀ r, t !!! r = if decide (r < j)%nat then -1 else ix !!! r) n 0 (λ row ix, wr ix row (-1)) ix)
    as (t & -> & Ht & H); [done| |by exists t].
  intros j t Hj [Ht H]. rewrite wr_ok by lia. eexists. split; [done|].
  split; [by rewrite length_insert|]. intros r. rewrite lookup_total_insert_if by lia. rewrite H.
  repeat case_decide; (lia || done).
Qed.

Lemma buildix_spec n m A s (ix : list Z) :
  (m <= 32)%nat → base n m A s → (n <= length ix)%nat → (∀ r, (r < n)%nat → ix !!! r = -1) →
  ∃ ix', buildixvector n m (mstar s) ix = Ok ix' ∧ length ix' = length ix
    ∧ (∀ r, (n <= r)%nat → ix' !!! r = ix !!! r)
    ∧ (∀ r, (r < n)%nat → (ix' !!! r = -1 ∧ ¬ srow m (star s) r)
                         ∨ ∃ c, (c < m)%nat ∧ ix' !!! r = Z.of_nat c ∧ star s r c = true).
Proof.
  intros Hm Hb Hl Hix. unfold buildixvector.
  match goal with |- context [for_to n 0 ?f ix] => set (F := f) end.
  destruct (for_to_spec (λ j t, length t = length ix ∧ (∀ r, (j <= r)%nat → t !!! r = ix !!! r)
      ∧ ∀ r, (r < j)%nat → (t !!! r = -1 ∧ ¬ srow m (star s) r)
             ∨ ∃ c, (c < m)%nat ∧ t !!! r = Z.of_nat c ∧ star s r c = true) n 0 F ix)
    as (t & -> & Ht & Hout & Hin); [split_and!; [done|done|lia]| |by exists t].
  intros j t Hj (Ht & Hout & Hin). unfold F.
  destruct (seek_spec m 0 (λ c, GET2 (mstar s) j c) (λ c, star s j c)) as (c & -> & Hc & Hlt & Hat).
  { intros x Hx. apply GET2_ok. rewrite (ba_mstar _ _ _ _ Hb). lia. }
  simpl. case_decide as E.
  - rewrite wr_ok by lia. eexists. split; [done|]. split_and!; [by rewrite length_insert|..].
    + intros r Hr. rewrite lookup_total_insert_if, decide_False by lia. apply Hout. lia.
    + intros r Hr. rewrite lookup_total_insert_if by lia. case_decide as Ej.
      * subst. right. exists c. split_and!; [done|done|]. apply Hat. lia.
      * apply Hin. lia.
  - exists t. split; [done|]. split_and!; [done|intros; apply Hout; lia|]. intros r Hr.
    destruct (decide (r = j)) as [->|]; [|apply Hin; lia]. left. rewrite Hout, Hix by lia.
    split; [done|]. intros (c' & Hc' & Hs). by rewrite Hlt in Hs by lia.
Qed.

(** The vector describes exactly the stars. *)
Lemma chosen_stars n m A s (ix : list Z) :
  base n m A s →
  (∀ r, (r < n)%nat → (ix !!! r = -1 ∧ ¬ srow m (star s) r)
                     ∨ ∃ c, (c < m)%nat ∧ ix !!! r = Z.of_nat c ∧ star s r c = true) →
  chosen n ix ≡ₚ stars n m (star s).
Proof.
  intros Hb Hix. apply NoDup_Permutation; [apply NoDup_chosen|apply NoDup_stars|].
  intros [r c]. rewrite elem_of_chosen, elem_of_stars. split.
  - intros [Hr E]. destruct (Hix r Hr) as [[E' _]|(c' & Hc & E' & Hs)]; [lia|].
    assert (c' = c) as -> by lia. done.
  - intros (Hr & Hc & Hs). split; [done|]. destruct (Hix r Hr) as [[_ Hn]|(c' & Hc' & E' & Hs')].
    + exfalso. apply Hn. by exists c.
    + rewrite E'. f_equal. by eapply (ma_row _ _ _ (matching_star _ _ _ _ Hb)).
Qed.

#[export] Instance assignment_perm n m : Proper ((≡ₚ) ==> iff) (assignment n m).
Proof.
  assert (∀ T T', T ≡ₚ T' → assignment n m T → assignment n m T') as H.
  { intros T T' Hp [H1 H2 H3 H4]. split; by rewrite <-Hp. }
  intros T T' Hp. split; by apply H.
Qed.

Lemma mtdev_match_run (n m : nat) (ix A : list Z) :
  (n <= 32)%nat → (m <= 32)%nat → (n <= length ix)%nat → (n * m <= length A)%nat →
  (∀ r c, (r < n)%nat → (c < m)%nat → 0 <= A !!! (r + n * c)%nat <= INT_MAX / 4) →
  ∃ ix' A', mtdev_match ix A n m = Ok (Some (ix', A'))
    ∧ length ix' = length ix ∧ (∀ r, (n <= r)%nat → ix' !!! r = ix !!! r)
    ∧ (∀ r, (r < n)%nat → -1 <= ix' !!! r < Z.of_nat m)
    ∧ assignment n m (chosen n ix')
    ∧ ∀ T, assignment n m T →
        cost (λ r c, A !!! (r + n * c)%nat) (chosen n ix') <= cost (λ r c, A !!! (r + n * c)%nat) T.
Proof.
  intros Hn Hm Hix HlA HA. unfold mtdev_match, ixoptimal.
  destruct (fill_spec n ix Hix) as (ix1 & -> & Hl1 & Hf1). simpl.
  destruct (run_spec n m A (INT_MAX / 4)) as (s0 & s & -> & Hx & Hb & Hcnt); [done|done| |done|done|].
  { pose proof (Z.mul_div_le INT_MAX 4). lia. }
  simpl. replace (if decide (n ≤ m)%nat then n else m) with (Nat.min n m) by (case_decide; lia).
  rewrite Hx. simpl.
  destruct (buildix_spec n m (cell n A) s ix1) as (ix2 & -> & Hl2 & Hout & Hin);
    [done|done|lia|intros; by rewrite Hf1, decide_True|]. simpl.
  pose proof (chosen_stars n m (cell n A) s ix2 Hb Hin) as Hp.
  exists ix2, (mdist s). split_and!; [done|lia| | | |].
  - intros r Hr. rewrite Hout, Hf1 by done. by rewrite decide_False by lia.
  - intros r Hr. destruct (Hin r Hr) as [[-> _]|(c & Hc & -> & _)]; lia.
  - rewrite Hp. apply (stars_assignment n m (cell n A)); [by apply (matching_star n m (cell n A))|done].
  - intros T HT. unfold cost. rewrite Hp.
    by apply (reduced_optimal n m (cell n A) (star s) (dist n s)); [apply Hb|..].
Qed.

(** ** Properties *)

(** C1: [mtdev_match] solves the assignment problem.  For up to 32 rows
    and columns and distances up to a quarter of the largest [int] it returns
    without leaving an array or overflowing an [int]; the index vector pairs rows
    with columns, no row and no column twice and as many as possible; no other
    such assignment is cheaper; entries past the rows are left alone. *)
Theorem mtdev_match_optimal (n m : nat) (ix A : list Z) :
  (n <= 32)%nat → (m <= 32)%nat → (n <= length ix)%nat → (n * m <= length A)%nat →
  (∀ r c, (r < n)%nat → (c < m)%nat → 0 <= A !!! (r + n * c)%nat <= INT_MAX / 4) →
  ∃ ix' A', mtdev_match ix A n m = Ok (Some (ix', A'))
    ∧ length ix' = length ix ∧ (∀ r, (n <= r)%nat → ix' !!! r = ix !!! r)
    ∧ (∀ r, (r < n)%nat → -1 <= ix' !!! r < Z.of_nat m)
    ∧ assignment n m (chosen n ix')
    ∧ ∀ T, assignment n m T →
        cost (λ r c, A !!! (r + n * c)%nat) (chosen n ix') <= cost (λ r c, A !!! (r + n * c)%nat) T.
Proof. apply mtdev_match_run. Qed.

Definition demo_matrix : list Z := [4; 2; 1; 0; 5; 7].

Lemma mtdev_match_optimal_witness :
  ∃ ix' A', mtdev_match [0; 0] demo_matrix 2 3 = Ok (Some (ix', A'))
    ∧ length ix' = 2%nat ∧ (∀ r, (2 <= r)%nat → ix' !!! r = [0; 0] !!! r)
    ∧ (∀ r, (r < 2)%nat → -1 <= ix' !!! r < Z.of_nat 3)
    ∧ assignment 2 3 (chosen 2 ix')
    ∧ ∀ T, assignment 2 3 T →
        cost (λ r c, demo_matrix !!! (r + 2 * c)%nat) (chosen 2 ix')
        <= cost (λ r c, demo_matrix !!! (r + 2 * c)%nat) T.
Proof.
  apply (mtdev_match_optimal 2 3 [0; 0] demo_matrix); [lia|lia|simpl; lia|simpl; lia|].
  intros r c Hr Hc. destruct r as [|[|r]], c as [|[|[|c]]]; try lia; vm_compute; split; discriminate.
Defined.
