(* ===== verification/MunkresTracker.v ===== *)
(** moMunkresBlobTrackerModule.cpp: the tracker that assigns ids by the cheapest
    match between the old and the new blobs. *)
From S2P Require Import Prelude StdMap Numeric Utils Property Container Tracker Greedy Tracking.
From S2P Require Import Munkres MunkresBase Matching MunkresSteps MunkresRun.

Local Open Scope Z_scope.

(** [properties[k]->asDouble() * NORMALIZATION_FACTOR], stored in an [int]. *)
Definition NORMALIZATION_FACTOR : double := d_of_Z 10000.
Definition normal (k : string) (c : container) : res Z :=
  v ← get_double k c; Ok (d_to_int (d_mul v NORMALIZATION_FACTOR)).

Definition old_point (c : container) : res (Z * Z * Z) :=
  id ← get_int "blob_id" c;
  x ← normal "x" c;
  y ← normal "y" c;
  Ok (id, x, y).
Definition new_point (c : container) : res (Z * Z) :=
  x ← normal "x" c;
  y ← normal "y" c;
  Ok (x, y).

Definition DIM2_FINGER : nat := DIM_FINGER * DIM_FINGER.

(** [A[nn * j + i] = dist2(nx[i] - sx[j], ny[i] - sy[j])]. *)
Definition distances (news : list (Z * Z)) (olds : list (Z * Z * Z)) (A : list Z) : res (list Z) :=
  let nn := length news in
  for_to (length olds) 0 (λ j A,
    for_to nn 0 (λ i A,
      p ← deref (news !! i);
      q ← deref (olds !! j);
      wr A (at_ nn i j) (dist2 (wrap32 (p.1 - q.1.2)) (wrap32 (p.2 - q.2)))) A) A.

(** The loop over the new blobs that sets their ids. *)
Fixpoint assign_ids (olds : list (Z * Z * Z)) (n2s : list Z) (i : nat) (counter : Z)
    (new : list container) : res (list container * Z) :=
  match new with
  | [] => Ok ([], counter)
  | c :: new =>
      j ← rd n2s i;
      id ← (if 0 <=? j then q ← deref (olds !! Z.to_nat j); Ok q.1.1 else Ok (-10));
      let '(id, counter) :=
        if id =? -10 then (pincrement counter, pincrement counter) else (id, counter) in
      c ← set_prop "blob_id" MO_PROPERTY_INTEGER (VInt id) c;
      rest ← assign_ids olds n2s (S i) counter new;
      Ok (c :: rest.1, rest.2)
  end.

(** [moMunkresBlobTrackerModule::trackBlobs]; the arrays on the stack start with
    arbitrary content [junkA], [junkI].  [None]: the match does not end. *)
Definition munkres_trackBlobs (junkA junkI : list Z) (old new : list container) (counter : Z)
    : res (option (list container * Z)) :=
  _ ← assert_ (Nat.ltb (length old) DIM_FINGER);
  _ ← assert_ (Nat.ltb (length new) DIM_FINGER);
  olds ← map_res old_point old;
  news ← map_res new_point new;
  A ← distances news olds junkA;
  r ← mtdev_match junkI A (length new) (length old);
  match r with
  | None => Ok None
  | Some (n2s, _) => l ← assign_ids olds n2s 0 counter new; Ok (Some l)
  end.

(** ** Distances *)

(** A coordinate in the range the integer arithmetic is exact for. *)
Definition norm_of (k : string) (c : container) : Z := d_to_int (d_mul (coord k c) NORMALIZATION_FACTOR).
Definition in_frame (c : container) : Prop :=
  (0 <= norm_of "x" c /\ norm_of "x" c <= 16383) /\ (0 <= norm_of "y" c /\ norm_of "y" c <= 16383).

(** The squared distance of two blobs in normalised coordinates. *)
Definition sqdist (c o : container) : Z :=
  (norm_of "x" c - norm_of "x" o) ^ 2 + (norm_of "y" c - norm_of "y" o) ^ 2.

Lemma dist2_exact dx dy :
  Z.abs dx <= 16383 → Z.abs dy <= 16383 → dist2 dx dy = dx ^ 2 + dy ^ 2.
Proof.
  intros Hx Hy. unfold dist2, clamp15.
  assert (∀ d, Z.abs d <= 16383 →
    (if d <? -32767 then -32767 else if 32767 <? d then 32767 else d) = d) as Hc.
  { intros d Hd. destruct (Z.ltb_spec d (-32767)); [lia|]. destruct (Z.ltb_spec 32767 d); lia. }
  rewrite !Hc by done. rewrite !wrap32_id; [lia|..]; rewrite ?wrap32_id; apply in_int_iff; nia.
Qed.

Lemma sqdist_bound c o : in_frame c → in_frame o → 0 <= sqdist c o /\ sqdist c o <= INT_MAX / 4.
Proof.
  intros [Hx Hy] [Hx' Hy']. unfold sqdist.
  assert (INT_MAX / 4 = 536870911) as -> by reflexivity.
  assert (∀ a b, 0 <= a <= 16383 → 0 <= b <= 16383 → 0 <= (a - b) ^ 2 <= 268402689) as H by (intros; nia).
  pose proof (H _ _ Hx Hx'). pose proof (H _ _ Hy Hy'). lia.
Qed.

Lemma normal_eq k c : has k c → normal k c = Ok (norm_of k c).
Proof. intros H. unfold normal. by rewrite get_coord. Qed.

Definition old_view (c : container) : Z * Z * Z := (bid c, norm_of "x" c, norm_of "y" c).
Definition new_view_of (c : container) : Z * Z := (norm_of "x" c, norm_of "y" c).

Lemma old_point_eq c : tracked c → old_point c = Ok (old_view c).
Proof.
  intros H. unfold old_point. rewrite get_bid by done. simpl.
  rewrite !normal_eq by apply H. done.
Qed.
Lemma new_point_eq c : tracked c → new_point c = Ok (new_view_of c).
Proof. intros H. unfold new_point. rewrite !normal_eq by apply H. done. Qed.

Lemma distances_spec (new old : list container) A :
  Forall in_frame new → Forall in_frame old → (length new * length old <= length A)%nat →
  ∃ A', distances (new_view_of <$> new) (old_view <$> old) A = Ok A' ∧ length A' = length A
    ∧ ∀ i j c o, new !! i = Some c → old !! j = Some o →
        A' !!! (i + length new * j)%nat = sqdist c o.
Proof.
  intros Hn Ho HA. unfold distances. rewrite !length_fmap.
  set (nn := length new). set (sn := length old).
  match goal with |- context [for_to sn 0 ?f A] => set (F := f) end.
  destruct (for_to_spec (λ b A', length A' = length A ∧ ∀ i j c o, new !! i = Some c → old !! j = Some o →
      (j < b)%nat → A' !!! (at_ nn i j) = sqdist c o) sn 0 F A) as (A' & -> & Hl & H).
  { split; [done|]. intros. lia. }
  { intros b A1 Hb [Hl1 H1]. unfold F.
    match goal with |- context [for_to nn 0 ?f A1] => set (G := f) end.
    destruct (for_to_spec (λ a A', length A' = length A ∧ ∀ i j c o, new !! i = Some c → old !! j = Some o →
        (j < b)%nat ∨ (j = b ∧ (i < a)%nat) → A' !!! (at_ nn i j) = sqdist c o) nn 0 G A1)
      as (A2 & -> & Hl2 & H2).
    - split; [done|]. intros i j c o Hc Hoj [?|[_ ?]]; [by eapply H1|lia].
    - intros a A2 Ha [Hl2 H2]. unfold G.
      destruct (lookup_lt_is_Some_2 new a) as [c Hc]; [lia|].
      destruct (lookup_lt_is_Some_2 old b) as [o Hob]; [lia|].
      rewrite !list_lookup_fmap, Hc, Hob. simpl.
      assert (in_frame c) as [Fx Fy] by (by eapply Forall_lookup_1 in Hn).
      assert (in_frame o) as [Gx Gy] by (by eapply Forall_lookup_1 in Ho).
      rewrite !wrap32_id by (apply in_int_iff; lia). rewrite dist2_exact by lia.
      assert (at_ nn a b < length A2)%nat as Hat by (unfold at_; nia).
      rewrite wr_ok by done. eexists. split; [done|]. split; [by rewrite length_insert|].
      intros i j c' o' Hc' Ho' Hij. rewrite lookup_total_insert_if by done. case_decide as E.
      + apply at_inj in E as [<- <-]; [|lia|by eapply lookup_lt_Some]. simplify_eq. done.
      + eapply H2; [done|done|]. assert (¬ (j = b ∧ i = a)) by (by intros [-> ->]). lia.
    - exists A2. split; [done|]. split; [done|]. intros i j c o Hc Hoj Hj.
      eapply H2; [done|done|]. apply lookup_lt_Some in Hc. lia. }
  exists A'. split; [done|]. split; [done|]. intros i j c o Hc Hoj.
  eapply H; [done|done|]. by eapply lookup_lt_Some.
Qed.

(** ** Ids *)

Lemma set_bid_only c z :
  tracked c → ∃ c', set_prop "blob_id" MO_PROPERTY_INTEGER (VInt z) c = Ok c'
    ∧ tracked c' ∧ bid c' = z ∧ same_but owned_keys c c'.
Proof. intros Hc. destruct (set_bid c z Hc) as (c' & ? & (? & ? & ?) & _). eauto. Qed.

(** The id of the new blob at position [i], with [counter] before its turn. *)
Lemma assign_ids_spec (old : list container) (ix : list Z) (new : list container) : ∀ i k,
  Forall tracked new → Forall (λ o, 0 < bid o) old →
  (i + length new <= length ix)%nat →
  (∀ a, (a < length new)%nat → -1 <= ix !!! (i + a)%nat < Z.of_nat (length old)) →
  0 <= k → k + Z.of_nat (length new) <= INT_MAX →
  ∃ new' k', assign_ids (old_view <$> old) ix i k new = Ok (new', k')
    ∧ Forall2 (same_but owned_keys) new new' ∧ Forall tracked new'
    ∧ k <= k' <= k + Z.of_nat (length new)
    ∧ (∀ a c, new' !! a = Some c → ix !!! (i + a)%nat = -1 → k < bid c <= k')
    ∧ (∀ a c j o, new' !! a = Some c → ix !!! (i + a)%nat = Z.of_nat j → old !! j = Some o → bid c = bid o)
    ∧ (∀ a b c d, new' !! a = Some c → new' !! b = Some d → (a < b)%nat →
         ix !!! (i + a)%nat = -1 → ix !!! (i + b)%nat = -1 → bid c < bid d).
Proof.
  induction new as [|c new IH]; intros i k Ht Hpos Hlen Hix Hk Hmax; simpl.
  { exists [], k. split_and!; try done; lia. }
  apply Forall_cons in Ht as [Hc Ht]. simpl in *. rewrite rd_ok by lia. simpl.
  pose proof (Hix 0%nat ltac:(lia)) as H0. rewrite Nat.add_0_r in H0.
  assert (∃ id k1, (id0 ← (if 0 <=? ix !!! i then q ← deref ((old_view <$> old) !! Z.to_nat (ix !!! i)); Ok q.1.1
                           else Ok (-10));
                    let '(id, counter) := if id0 =? -10 then (pincrement k, pincrement k) else (id0, k) in
                    Ok (id, counter)) = Ok (id, k1)
    ∧ (ix !!! i = -1 → id = k + 1 ∧ k1 = k + 1)
    ∧ (∀ j o, ix !!! i = Z.of_nat j → old !! j = Some o → id = bid o)
    ∧ (k1 = k ∨ k1 = k + 1)) as (id & k1 & Hid & Hfresh & Hold & Hk1).
  { destruct (Z.leb_spec 0 (ix !!! i)) as [Hge|Hlt].
    - destruct (lookup_lt_is_Some_2 old (Z.to_nat (ix !!! i))) as [o Ho]; [lia|].
      rewrite list_lookup_fmap, Ho. simpl.
      assert (0 < bid o) by (by eapply Forall_lookup_1 in Hpos).
      destruct (Z.eqb_spec (bid o) (-10)); [lia|]. exists (bid o), k. split_and!; [done|lia| |by left].
      intros j o' Hj Ho'. rewrite Hj, Nat2Z.id in Ho. congruence.
    - simpl. exists (k + 1), (k + 1). unfold pincrement. unfold INT_MAX in Hmax.
      rewrite wrap32_id by (apply in_int_iff; lia). split_and!; [done|done| |by right].
      intros j o Hj. lia. }
  apply res_bind_Ok in Hid as (id0 & -> & Hid). simpl.
  destruct (if id0 =? -10 then _ else _) as [id' k1']. injection Hid as -> ->.
  destruct (set_bid_only c id Hc) as (c' & -> & Hc' & Hb & Hs). simpl.
  destruct (IH (S i) k1) as (new' & k' & -> & Hfr & Htr & Hkk & Hf & Ho & Hmono);
    [done|done|lia|intros a Ha; specialize (Hix (S a)); rewrite Nat.add_succ_r in Hix; apply Hix; lia|lia|lia|].
  exists (c' :: new'), k'. simpl. split_and!; [done|by constructor|by constructor|lia|lia|..].
  - intros [|a] d Hd; simpl in Hd; [rewrite Nat.add_0_r|rewrite Nat.add_succ_r]; intros E.
    + injection Hd as <-. destruct (Hfresh E). lia.
    + specialize (Hf a d Hd E). lia.
  - intros [|a] d j o Hd; simpl in Hd; [rewrite Nat.add_0_r|rewrite Nat.add_succ_r]; intros E Hj.
    + injection Hd as <-. rewrite Hb. by eapply Hold.
    + by eapply Ho.
  - intros [|a] [|b] d e Hd He Hab; simpl in *; try lia.
    + rewrite Nat.add_0_r, Nat.add_succ_r. intros E1 E2. injection Hd as <-.
      destruct (Hfresh E1). specialize (Hf b e He E2). lia.
    + rewrite !Nat.add_succ_r. intros E1 E2. eapply (Hmono a b); try done. lia.
Qed.

Lemma NoDup_fmap_eq {A B} (f : A → B) l x y : NoDup (f <$> l) → x ∈ l → y ∈ l → f x = f y → x = y.
Proof.
  induction l as [|a l IH]; [by intros _ ?%elem_of_nil|]. rewrite fmap_cons.
  intros [Ha Hl]%NoDup_cons [->|Hx]%elem_of_cons [->|Hy]%elem_of_cons E; [done|..|by apply IH];
    exfalso; apply Ha; apply list_elem_of_fmap; eauto.
Qed.

(** The ids are distinct because the matched columns are. *)
Lemma ids_distinct (old new' : list container) (ix : list Z) k k' n :
  length new' = n → NoDup (bid <$> old) → Forall (λ o, bid o <= k) old →
  assignment n (length old) (chosen n ix) →
  (∀ r, (r < n)%nat → -1 <= ix !!! r < Z.of_nat (length old)) →
  (∀ a c, new' !! a = Some c → ix !!! a = -1 → k < bid c <= k') →
  (∀ a c j o, new' !! a = Some c → ix !!! a = Z.of_nat j → old !! j = Some o → bid c = bid o) →
  (∀ a b c d, new' !! a = Some c → new' !! b = Some d → (a < b)%nat →
     ix !!! a = -1 → ix !!! b = -1 → bid c < bid d) →
  NoDup (bid <$> new').
Proof.
  intros Hlen Hnd Hle Has Hix Hf Ho Hmono. apply NoDup_alt. intros a b z Ha Hb.
  rewrite list_lookup_fmap in Ha, Hb.
  destruct (new' !! a) as [c|] eqn:Ea; [|done]. destruct (new' !! b) as [d|] eqn:Eb; [|done].
  simpl in *. simplify_eq.
  pose proof (lookup_lt_Some _ _ _ Ea). pose proof (lookup_lt_Some _ _ _ Eb).
  assert (∀ a c, new' !! a = Some c → ix !!! a = -1 ∨
    ∃ j o, ix !!! a = Z.of_nat j ∧ old !! j = Some o ∧ bid c = bid o ∧ bid c <= k) as Hcase.
  { intros x e Hx. pose proof (lookup_lt_Some _ _ _ Hx) as Hlt. specialize (Hix x Hlt).
    destruct (decide (ix !!! x = -1)) as [|Hne]; [by left|right].
    destruct (lookup_lt_is_Some_2 old (Z.to_nat (ix !!! x))) as [o Hox]; [lia|].
    assert (bid e = bid o) as E by (eapply Ho; [done| |done]; lia).
    eapply Forall_lookup_1 in Hle; [|done]. simpl in Hle.
    exists (Z.to_nat (ix !!! x)), o. split_and!; [lia|done|done|lia]. }
  destruct (Hcase a c Ea) as [Na|(j & o & Ja & Hoj & E1 & L1)];
    destruct (Hcase b d Eb) as [Nb|(j' & o' & Jb & Hoj' & E2 & L2)].
  - destruct (Nat.lt_trichotomy a b) as [Hab|[?|Hab]]; [|done|].
    + pose proof (Hmono a b c d Ea Eb Hab Na Nb). lia.
    + pose proof (Hmono b a d c Eb Ea Hab Nb Na). lia.
  - pose proof (Hf a c Ea Na). lia.
  - pose proof (Hf b d Eb Nb). lia.
  - assert (j = j') as <-.
    { eapply (NoDup_lookup (bid <$> old)); [done|by rewrite list_lookup_fmap, Hoj|].
      rewrite list_lookup_fmap, Hoj'. simpl. congruence. }
    assert ((a, j) = (b, j)) as E; [|congruence].
    apply (NoDup_fmap_eq snd (chosen (length new') ix)); [apply Has|by apply elem_of_chosen..|done].
Qed.

(** ** Properties *)

Lemma cost_ext (f g : nat → nat → Z) T :
  (∀ r c, (r, c) ∈ T → f r c = g r c) → cost f T = cost g T.
Proof.
  unfold cost. induction T as [|[r c] T IH]; intros H; [done|]. simpl.
  rewrite (H r c) by (by left). rewrite IH; [done|]. intros. apply H. by right.
Qed.

Lemma munkres_too_many junkA junkI old new k :
  ¬ (length old < DIM_FINGER ∧ length new < DIM_FINGER)%nat → munkres_trackBlobs junkA junkI old new k = Fault FAssert.
Proof.
  intros Hlt. unfold munkres_trackBlobs. destruct (Nat.ltb_spec (length old) DIM_FINGER); simpl; [|done].
  destruct (Nat.ltb_spec (length new) DIM_FINGER); simpl; [|done]. tauto.
Qed.

(** The tracker on fewer than 32 old and new blobs. *)
Lemma munkres_run (junkA junkI : list Z) (old new : list container) (k : Z) :
  length junkA = DIM2_FINGER → length junkI = DIM_FINGER →
  track_pre old new k → Forall (λ o, 0 < bid o) old →
  Forall in_frame old → Forall in_frame new →
  (length old < DIM_FINGER)%nat → (length new < DIM_FINGER)%nat →
  ∃ new' k' T, munkres_trackBlobs junkA junkI old new k = Ok (Some (new', k'))
    ∧ assignment (length new) (length old) T
    ∧ (∀ T', assignment (length new) (length old) T' →
         ∀ d, (∀ i j c o, new !! i = Some c → old !! j = Some o → d i j = sqdist c o) →
              cost d T <= cost d T')
    ∧ (∀ i j c o, (i, j) ∈ T → new' !! i = Some c → old !! j = Some o → bid c = bid o)
    ∧ (∀ i c, new' !! i = Some c → i ∉ T.*1 → k < bid c <= k')
    ∧ track_post old new k new' k'.
Proof.
  intros HlA HlI [Hold Hnew Hdist Hbound [Hk Hmax]] Hpos Hfo Hfn Hlo Hln. unfold munkres_trackBlobs.
  rewrite !(proj2 (Nat.ltb_lt _ _)) by done. simpl.
  rewrite (map_res_total old_point old_view tracked) by eauto using old_point_eq. simpl.
  rewrite (map_res_total new_point new_view_of tracked) by eauto using new_point_eq. simpl.
  unfold DIM2_FINGER, DIM_FINGER in *.
  destruct (distances_spec new old junkA) as (A & -> & HAl & HA); [done|done|nia|]. simpl.
  destruct (mtdev_match_run (length new) (length old) junkI A) as (ix & A' & -> & Hixl & _ & Hixr & Has & Hopt);
    [lia|lia|lia|nia| |].
  { intros i j Hi Hj. destruct (lookup_lt_is_Some_2 new i Hi) as [c Hc].
    destruct (lookup_lt_is_Some_2 old j Hj) as [o Ho]. rewrite (HA i j c o Hc Ho).
    apply sqdist_bound; [by apply (Forall_lookup_1 _ _ i c Hfn)|by apply (Forall_lookup_1 _ _ j o Hfo)]. }
  simpl. destruct (assign_ids_spec old ix new 0 k) as (new' & k' & -> & Hfr & Htr & Hkk & Hf & Ho & Hmono);
    [done|done|lia|done|done|done|]. simpl.
  pose proof (Forall2_length _ _ _ Hfr) as Hl'.
  exists new', k', (chosen (length new) ix). split_and!; [done|done|..].
  - intros T' HT' d Hd.
    assert (∀ T, assignment (length new) (length old) T →
      cost d T = cost (λ r c, A !!! (r + length new * c)%nat) T) as Hcost.
    { intros T HT. apply cost_ext. intros i j Hij. pose proof (as_range _ _ _ HT) as Hrg.
      eapply Forall_forall in Hrg as [Hi Hj]; [|done]. simpl in *.
      destruct (lookup_lt_is_Some_2 new i Hi) as [c Hc]. destruct (lookup_lt_is_Some_2 old j Hj) as [o Hoj].
      by rewrite (HA i j c o Hc Hoj), (Hd i j c o). }
    rewrite !Hcost by done. by apply Hopt.
  - intros i j c o [Hi E]%elem_of_chosen Hc Hoj. by eapply (Ho i c j o).
  - intros i c Hc Hni. apply (Hf i c Hc). pose proof (lookup_lt_Some _ _ _ Hc) as Hi. rewrite <-Hl' in Hi.
    specialize (Hixr i Hi). destruct (decide (ix !!! (0 + i)%nat = -1)) as [|Hne]; [done|].
    exfalso. apply Hni. apply list_elem_of_fmap. exists (i, Z.to_nat (ix !!! i)). split; [done|].
    apply elem_of_chosen. simpl in Hne. split; [done|]. lia.
  - split; [done|done|by eapply (ids_distinct old new' ix k k' (length new))|lia|].
    apply Forall_forall. intros c [a Hc]%list_elem_of_lookup. pose proof (lookup_lt_Some _ _ _ Hc) as Ha.
    rewrite <-Hl' in Ha. specialize (Hixr a Ha).
    destruct (decide (ix !!! a = -1)) as [E|E]; [right; by apply (Hf a c)|left].
    destruct (lookup_lt_is_Some_2 old (Z.to_nat (ix !!! a))) as [o Hoa]; [lia|].
    rewrite (Ho a c (Z.to_nat (ix !!! a)) o Hc); [|simpl; lia|done]. apply list_elem_of_fmap_2.
    by eapply list_elem_of_lookup_2.
Qed.


(** C11: fewer than 32 old and new blobs with coordinates in the
    frame are tracked without a fault: the new blobs are paired with old ones so
    that the total squared distance is minimal among all pairings of that many
    blobs; a paired blob gets the id of its old blob, the others get fresh values
    of the counter, and all ids differ; nothing but the id changes.  With 32 blobs
    or more the assertion fails. *)
Theorem munkres_tracks (junkA junkI : list Z) (old new : list container) (k : Z) :
  length junkA = DIM2_FINGER → length junkI = DIM_FINGER →
  track_pre old new k → Forall (λ o, 0 < bid o) old →
  Forall in_frame old → Forall in_frame new →
  if decide (length old < DIM_FINGER ∧ length new < DIM_FINGER)%nat then
    ∃ new' k' T, munkres_trackBlobs junkA junkI old new k = Ok (Some (new', k'))
      ∧ assignment (length new) (length old) T
      ∧ (∀ T', assignment (length new) (length old) T' →
           ∀ d, (∀ i j c o, new !! i = Some c → old !! j = Some o → d i j = sqdist c o) →
                cost d T <= cost d T')
      ∧ (∀ i j c o, (i, j) ∈ T → new' !! i = Some c → old !! j = Some o → bid c = bid o)
      ∧ (∀ i c, new' !! i = Some c → i ∉ T.*1 → k < bid c <= k')
      ∧ NoDup (bid <$> new')
      ∧ Forall2 (same_but owned_keys) new new'
  else munkres_trackBlobs junkA junkI old new k = Fault FAssert.
Proof.
  intros HlA HlI Hpre Hpos Hfo Hfn. case_decide as Hlt; [|by apply munkres_too_many].
  destruct (munkres_run junkA junkI old new k) as (new' & k' & T & ? & ? & ? & ? & ? & []); try done; [apply Hlt..|].
  by exists new', k', T.
Qed.

Definition demo_old : list container := [demo_blob 1 "0.5" "0.5"; demo_blob 2 "0.2" "0.2"].
Definition demo_new : list container := [demo_blob 0 "0.21" "0.2"; demo_blob 0 "0.9" "0.9"].

Lemma munkres_tracks_witness :
  if decide (length demo_old < DIM_FINGER ∧ length demo_new < DIM_FINGER)%nat then
    ∃ new' k' T, munkres_trackBlobs (replicate DIM2_FINGER 0) (replicate DIM_FINGER 0) demo_old demo_new 2
        = Ok (Some (new', k'))
      ∧ assignment (length demo_new) (length demo_old) T
      ∧ (∀ T', assignment (length demo_new) (length demo_old) T' →
           ∀ d, (∀ i j c o, demo_new !! i = Some c → demo_old !! j = Some o → d i j = sqdist c o) →
                cost d T <= cost d T')
      ∧ (∀ i j c o, (i, j) ∈ T → new' !! i = Some c → demo_old !! j = Some o → bid c = bid o)
      ∧ (∀ i c, new' !! i = Some c → i ∉ T.*1 → 2 < bid c <= k')
      ∧ NoDup (bid <$> new')
      ∧ Forall2 (same_but owned_keys) demo_new new'
  else munkres_trackBlobs (replicate DIM2_FINGER 0) (replicate DIM_FINGER 0) demo_old demo_new 2
       = Fault FAssert.
Proof.
  apply (munkres_tracks (replicate DIM2_FINGER 0) (replicate DIM_FINGER 0) demo_old demo_new 2).
  - apply length_replicate.
  - apply length_replicate.
  - exact demo_pre.
  - constructor; [by vm_compute|constructor; [by vm_compute|constructor]].
  - constructor; [|constructor; [|constructor]]; vm_compute; split; split; discriminate.
  - constructor; [|constructor; [|constructor]]; vm_compute; split; split; discriminate.
Defined.

Example munkres_demo :
  match munkres_trackBlobs (replicate DIM2_FINGER 0) (replicate DIM_FINGER 0) demo_old demo_new 2 with
  | Ok (Some (l, k)) => bid <$> l = [2; 1] ∧ k = 2
  | _ => False
  end.
Proof. vm_compute. by split. Qed.

(** ** A frame, for both trackers *)

Definition munkres_track (junkA junkI : list Z) : Track := λ old new k,
  r ← munkres_trackBlobs junkA junkI old new k; deref r.

Lemma coord_same ks k c c' : same_but ks c c' → k ∉ ks → coord k c' = coord k c.
Proof. intros Hs Hk. unfold coord, get_double, prop_at. by rewrite Hs. Qed.
Lemma grown_in_frame va old : Forall (kept_blob va) old → Forall in_frame old → Forall in_frame (grown <$> old).
Proof.
  intros Hk Hf. apply Forall_fmap. rewrite Forall_forall in Hk, Hf |- *. intros o Ho. specialize (Hf o Ho).
  pose proof (set_age_same (wrap32 (age_of o + 1)) o (kb_tracked _ _ (Hk o Ho))) as Hs.
  unfold in_frame, norm_of in *. simpl. unfold grown. by rewrite !(coord_same _ _ _ _ Hs) by set_solver.
Qed.


