(* ===== verification/OscData.v ===== *)
(** The values of the OSC library (src/contrib/WOscLib-00.09): WOscUtil,
    WOscString, WOscBlob and WOscTimeTag.

    A byte is a [Z] from 0 to 255 and a [char *] is the list of the bytes that
    can be read from it on; reading further is the fault [FBadAccess].  A
    [float] is its 32-bit pattern.  The build is little endian (config.h). *)
From S2P Require Import Prelude Numeric.
#[local] Open Scope Z_scope.

(** ** Outcomes *)

(** The codes of WOscException the modelled classes throw; [BAD_ALLOC] is the
    exception of [new char[n]] for a negative [n]. *)
Inductive osc_error :=
  | ERR_INVALID_ADDRESS_NO_SLASH
  | ERR_NULL_ADDRESS
  | ERR_OSC_STR_BUFF_TOO_SMALL
  | ERR_NULL_BUFFER
  | ERR_INVALID_INDEX
  | ERR_BUFFER_TO_SMALL
  | ERR_TOO_FEW_BUNDLE_INITIALIZERS
  | ERR_INVALID_BUNDLE_TAG
  | ERR_CORRUPT_BUNDLE_INITIALIZATION_DATA
  | ERR_UNKN_EXC_DURING_INITBUNDLE_FROM_BUF
  | BAD_ALLOC.

#[export] Instance osc_error_eq_dec : EqDecision osc_error.
Proof. solve_decision. Defined.

(** A call returns, throws, or leaves the memory it may use. *)
Inductive ores (A : Type) :=
  | Good (a : A)
  | Throw (e : osc_error)
  | Crash (f : fault).
Arguments Good {A} a.
Arguments Throw {A} e.
Arguments Crash {A} f.

#[export] Instance ores_ret : MRet ores := @Good.
#[export] Instance ores_bind : MBind ores := λ A B k m,
  match m with Good a => k a | Throw e => Throw e | Crash f => Crash f end.

Definition readable {A} (o : option A) : ores A :=
  match o with Some a => Good a | None => Crash FBadAccess end.

Lemma ores_bind_Good {A B} (m : ores A) (k : A → ores B) b :
  m ≫= k = Good b ↔ ∃ a, m = Good a ∧ k a = Good b.
Proof. destruct m; (split; [intros|intros (?&?&?)]); simplify_eq/=; eauto. Qed.

Lemma ogood_bind {A B} (a : A) (k : A → ores B) : Good a ≫= k = k a.
Proof. reflexivity. Qed.

(** Open every call known to have returned. *)
Ltac inv_ores :=
  repeat match goal with
  | H : Good _ = Good _ |- _ => injection H as H; try subst
  | H : Throw _ = Good _ |- _ => discriminate H
  | H : Crash _ = Good _ |- _ => discriminate H
  | H : mret _ = Good _ |- _ => injection H as H; try subst
  | H : _ ≫= _ = Good _ |- _ => apply ores_bind_Good in H as (? & ? & H)
  | H : readable ?o = Good _ |- _ =>
      let E := fresh "E" in destruct o eqn:E; simpl in H
  | H : (if ?b then _ else _) = Good _ |- _ =>
      let E := fresh "E" in destruct b eqn:E; try discriminate H
  end.

(** ** Bytes *)

Definition zlen {A} (l : list A) : Z := Z.of_nat (length l).

(** The characters of a literal, without its terminating zero. *)
Definition bytes_of (s : string) : list Z := (λ c, Z.of_N (N_of_ascii c)) <$> chars s.

(** The first [n] bytes behind a pointer. *)
Definition read_n (n : Z) (mem : list Z) : option (list Z) :=
  if (0 <=? n) && (n <=? zlen mem) then Some (take (Z.to_nat n) mem) else None.

(** The C string behind a pointer; its length is [strlen]. *)
Fixpoint cstr (mem : list Z) : option (list Z) :=
  match mem with
  | [] => None
  | b :: mem => if b =? 0 then Some [] else cons b <$> cstr mem
  end.

(** A literal as the callee sees it. *)
Definition literal (s : string) : list Z := bytes_of s ++ [0].

(** ** WOscUtil *)

Definition OSC_INT_SIZE : Z := 4.
Definition OSC_FLOAT_SIZE : Z := 4.

(** [GetSizeFourByteAligned(const int)], with the remainder of C; the sums of
    [int]s wrap. *)
Definition GetSizeFourByteAligned (length : Z) : Z := wrap32 (length + cmod (4 - cmod length 4) 4).
(** [GetSizeFourByteAligned(const char * )]. *)
Definition GetStringSizeAligned (s : list Z) : Z := GetSizeFourByteAligned (zlen s + 1).

(** [PadStringWithZeros]: the string, its zero, and zeros up to the size. *)
Definition PadStringWithZeros (s : list Z) : list Z :=
  s ++ [0] ++ replicate (Z.to_nat (GetStringSizeAligned s - (zlen s + 1))) 0.

Definition PadBufferWithZeros (source : list Z) (destLen srcLen : Z) : ores (list Z) :=
  if destLen <=? srcLen then readable (read_n destLen source)
  else l ← readable (read_n srcLen source); Good (l ++ replicate (Z.to_nat (destLen - srcLen)) 0).

(** Byte [i] of the little-endian representation of an object. *)
Definition le_byte (arg : Z) (i : nat) : Z := Z.land (Z.shiftr arg (8 * Z.of_nat i)) 255.
(** [buffer[i] = ((char * )&arg)[n-1-i]] for an object of [n] bytes. *)
Fixpoint be_bytes (n : nat) (arg : Z) : list Z :=
  match n with O => [] | S n => le_byte arg n :: be_bytes n arg end.
(** The converse: the unsigned value of the object. *)
Fixpoint be_value (acc : Z) (l : list Z) : Z :=
  match l with [] => acc | b :: l => be_value (256 * acc + b) l end.

Definition WriteBuffer (arg : Z) : list Z := be_bytes 4 arg.
Definition CharBufToInt (buf : list Z) : ores Z :=
  l ← readable (read_n OSC_INT_SIZE buf); Good (wrap32 (be_value 0 l)).
Definition CharBufToFloat (buf : list Z) : ores Z :=
  l ← readable (read_n OSC_FLOAT_SIZE buf); Good (be_value 0 l).

(** ** WOscString *)

(** [ws_buffer] is [None] for the null pointer of the default constructor. *)
Record WOscString := { ws_buffer : option (list Z); ws_bufferLen : Z }.

#[export] Instance WOscString_eq_dec : EqDecision WOscString.
Proof. solve_decision. Defined.

Definition empty_string : WOscString := {| ws_buffer := None; ws_bufferLen := 0 |}.
(** [WOscString(const char * )] and [operator=(const char * )]. *)
Definition WOscString_of (string : list Z) : ores WOscString :=
  s ← readable (cstr string);
  Good {| ws_buffer := Some (PadStringWithZeros s); ws_bufferLen := GetStringSizeAligned s |}.
(** The copy constructor and [operator=(const WOscString&)]: [new char[0]] is
    not null. *)
Definition string_assign (rhs : WOscString) : ores WOscString :=
  l ← readable (read_n (ws_bufferLen rhs) (default [] (ws_buffer rhs)));
  Good {| ws_buffer := Some l; ws_bufferLen := ws_bufferLen rhs |}.

(** [operator+=(const WOscString&)]. *)
Definition string_append (lhs rhs : WOscString) : ores WOscString :=
  match ws_buffer lhs with
  | Some l =>
      lhs_s ← readable (cstr l);
      rhs_b ← readable (ws_buffer rhs);
      rhs_s ← readable (cstr rhs_b);
      let newLen := GetSizeFourByteAligned (zlen rhs_s + zlen lhs_s + 1) in
      Good {| ws_buffer := Some (lhs_s ++ rhs_s
                ++ replicate (Z.to_nat (newLen - (zlen lhs_s + zlen rhs_s))) 0);
              ws_bufferLen := newLen |}
  | None => string_assign rhs
  end.
(** [operator+=(const char * )], [operator+=(const char)], [operator=(const char)]
    and [operator+]. *)
Definition string_append_cstr (lhs : WOscString) (rhs : list Z) : ores WOscString :=
  tmp ← WOscString_of rhs; string_append lhs tmp.
Definition string_append_char (lhs : WOscString) (c : Z) : ores WOscString :=
  string_append_cstr lhs [c; 0].
Definition string_assign_char (lhs : WOscString) (c : Z) : ores WOscString :=
  string_append_char {| ws_buffer := None; ws_bufferLen := ws_bufferLen lhs |} c.
Definition string_plus (lhs rhs : WOscString) : ores WOscString :=
  match ws_buffer lhs with
  | Some _ => t ← string_append empty_string lhs; string_append t rhs
  | None => string_assign rhs
  end.

Definition GetSize (s : WOscString) : Z := ws_bufferLen s.
(** [GetBuffer(buffer, bufferLen)] copies [bufferLen] bytes, not
    [m_bufferLen]. *)
Definition string_GetBuffer (s : WOscString) (bufferLen : Z) : ores (list Z) :=
  if bufferLen <? ws_bufferLen s then Throw ERR_OSC_STR_BUFF_TOO_SMALL
  else readable (ws_buffer s ≫= read_n bufferLen).
(** [operator==]: [strcmp]. *)
Definition string_eq (s t : WOscString) : ores bool :=
  a ← readable (ws_buffer s ≫= cstr); b ← readable (ws_buffer t ≫= cstr); Good (bool_decide (a = b)).

(** ** WOscBlob *)

Definition BLOB_SIZE_SIZE : Z := 4.
Record WOscBlob := { wb_dataLen : Z; wb_bufferLen : Z; wb_buffer : list Z }.

#[export] Instance WOscBlob_eq_dec : EqDecision WOscBlob.
Proof. solve_decision. Defined.

(** [new char[n]]. *)
Definition new_chars (n : Z) : ores unit := if n <? 0 then Throw BAD_ALLOC else Good tt.

(** From the binary form of a blob. *)
Definition blob_of_raw (binaryData : list Z) : ores WOscBlob :=
  dataLen ← CharBufToInt binaryData;
  let bufferLen := wrap32 (GetSizeFourByteAligned dataLen + BLOB_SIZE_SIZE) in
  new_chars bufferLen;;
  l ← readable (read_n bufferLen binaryData);
  Good {| wb_dataLen := dataLen; wb_bufferLen := bufferLen; wb_buffer := l |}.

(** From [dataLen] bytes of data. *)
Definition blob_of_data (binaryData : list Z) (dataLen : Z) : ores WOscBlob :=
  let bufferLen := wrap32 (GetSizeFourByteAligned dataLen + BLOB_SIZE_SIZE) in
  new_chars bufferLen;;
  l ← readable (read_n dataLen binaryData);
  Good {| wb_dataLen := dataLen; wb_bufferLen := bufferLen;
          wb_buffer := WriteBuffer dataLen ++ l
            ++ replicate (Z.to_nat (bufferLen - (dataLen + BLOB_SIZE_SIZE))) 0 |}.

(** [operator=] and the copy constructors. *)
Definition blob_copy (b : WOscBlob) : ores WOscBlob :=
  l ← readable (read_n (wb_bufferLen b) (wb_buffer b));
  Good {| wb_dataLen := wb_dataLen b; wb_bufferLen := wb_bufferLen b; wb_buffer := l |}.

Definition blob_GetData (b : WOscBlob) : list Z := drop (Z.to_nat BLOB_SIZE_SIZE) (wb_buffer b).
Definition blob_GetDataLen (b : WOscBlob) : Z := wb_dataLen b.
Definition blob_GetBufferLen (b : WOscBlob) : Z := wb_bufferLen b.
Definition blob_GetBuffer (b : WOscBlob) (bufferLen : Z) : ores (list Z) :=
  if bufferLen <? wb_bufferLen b then Throw ERR_BUFFER_TO_SMALL
  else readable (read_n (wb_bufferLen b) (wb_buffer b)).

(** ** WOscTimeTag *)

(** A 64-bit unsigned integer. *)
Definition wrapu64 (z : Z) : Z := z mod 2 ^ 64.
Definition TIME_TAG_SIZE : Z := 8.
Definition SECONDS_FROM_1900_TO_1970 : Z := 2208988800.

Definition GetImmediateTime : Z := 1.
Definition GetLargestTimeTag : Z := 2 ^ 64 - 1.
Definition GetSmallestTimeTag : Z := GetImmediateTime.
(** [WOscSystemTime::GetSystemTime]; [now] is what [time(NULL)] returns. *)
Definition GetSystemTime (now : Z) : Z := wrapu64 (wrapu64 now + SECONDS_FROM_1900_TO_1970).
Definition tag_add (a b : Z) : Z := wrapu64 (a + b).
Definition tag_sub (a b : Z) : Z := wrapu64 (a - b).
(** [operator+=]: the source reads [m_timeTag =+ rhs.m_timeTag]. *)
Definition tag_add_assign (a b : Z) : Z := b.
Definition tag_sub_assign (a b : Z) : Z := wrapu64 (a - b).
(** [operator<], [<=], [==], [!=], [>] and [>=]. *)
Definition tag_lt (a b : Z) : bool := a <? b.
Definition tag_le (a b : Z) : bool := a <=? b.
Definition tag_eq (a b : Z) : bool := a =? b.
Definition tag_ne (a b : Z) : bool := negb (a =? b).
Definition tag_gt (a b : Z) : bool := a >? b.
Definition tag_ge (a b : Z) : bool := a >=? b.

Definition WriteToCharArray (tag : Z) : list Z := be_bytes 8 tag.
Definition InitFromCharArray (buffer : list Z) : ores Z :=
  l ← readable (read_n TIME_TAG_SIZE buffer); Good (be_value 0 l).

(** [operator+=] forgets the left operand. *)
Lemma tag_add_assign_wrong : tag_add_assign 5 7 ≠ tag_add 5 7.
Proof. by vm_compute. Qed.
(** The system time puts the seconds in the low half: the high half, the
    seconds of the format, is zero for a clock before the year 2036. *)
Lemma GetSystemTime_low now :
  0 <= now < 2 ^ 32 - SECONDS_FROM_1900_TO_1970 → GetSystemTime now / 2 ^ 32 = 0.
Proof.
  intros H. unfold GetSystemTime, wrapu64, SECONDS_FROM_1900_TO_1970 in *.
  rewrite (Z.mod_small now), Z.mod_small by lia. apply Z.div_small. lia.
Qed.
