(* ===== verification/OscMessage.v ===== *)
(** OSC messages: src/contrib/WOscLib-00.09/WOscMessage.cpp.

    [m_floats], [m_ints], [m_strings] and [m_blobs] with their counters are
    lists (the pointer is null when the list is empty); the binary form
    [m_buffer] is regenerated by every [Add]. *)
From S2P Require Import Prelude Numeric OscData.
#[local] Open Scope Z_scope.

(** ** The object *)

Record WOscMessage := {
  wm_address : WOscString;
  wm_typeTag : WOscString;
  wm_floats : list Z;
  wm_ints : list Z;
  wm_strings : list WOscString;
  wm_blobs : list WOscBlob;
  wm_bufferLen : Z;
  wm_buffer : list Z;
}.

#[export] Instance WOscMessage_eq_dec : EqDecision WOscMessage.
Proof. solve_decision. Defined.

(** The characters the [switch]es over a type tag tell apart; zero and unknown
    characters both jump to the end. *)
Inductive tagchar := TInt | TFloat | TString | TBlob | TComma | TStop.

Definition c_int : Z := 105.
Definition c_float : Z := 102.
Definition c_string : Z := 115.
Definition c_blob : Z := 98.
Definition c_comma : Z := 44.
Definition c_slash : Z := 47.

Definition classify (c : Z) : tagchar :=
  if c =? c_int then TInt else if c =? c_float then TFloat else if c =? c_string then TString
  else if c =? c_blob then TBlob else if c =? c_comma then TComma else TStop.

(** The character constants are the letters of the source. *)
Example tag_letters :
  literal "ifsb,/" = [c_int; c_float; c_string; c_blob; c_comma; c_slash; 0].
Proof. reflexivity. Qed.

(** ** GenerateBufferFromMembers *)

(** First loop: the length of the binary form. *)
Fixpoint tag_len (tags : list Z) (strings : list WOscString) (blobs : list WOscBlob) (bufferLen : Z)
    : ores Z :=
  match tags with
  | [] => Good bufferLen
  | c :: tags =>
      match classify c with
      | TInt => tag_len tags strings blobs (wrap32 (bufferLen + OSC_INT_SIZE))
      | TFloat => tag_len tags strings blobs (wrap32 (bufferLen + OSC_FLOAT_SIZE))
      | TString =>
          match strings with
          | s :: strings => tag_len tags strings blobs (wrap32 (bufferLen + GetSize s))
          | [] => Crash FBadAccess
          end
      | TBlob =>
          match blobs with
          | b :: blobs => tag_len tags strings blobs (wrap32 (bufferLen + blob_GetBufferLen b))
          | [] => Crash FBadAccess
          end
      | TComma => tag_len tags strings blobs bufferLen
      | TStop => Good bufferLen
      end
  end.

(** Writing at [bufWrPos] into a buffer of [cap] bytes, everything before
    [bufWrPos] being [out]. *)
Definition put (cap : Z) (out bytes : list Z) : ores (list Z) :=
  if zlen out + zlen bytes <=? cap then Good (out ++ bytes) else Crash FBadAccess.

(** Second loop: the arguments in the order of the type tag. *)
Fixpoint tag_write (cap : Z) (tags ints floats : list Z) (strings : list WOscString)
    (blobs : list WOscBlob) (out : list Z) : ores (list Z) :=
  match tags with
  | [] => Good out
  | c :: tags =>
      match classify c with
      | TInt =>
          match ints with
          | i :: ints => out ← put cap out (WriteBuffer i); tag_write cap tags ints floats strings blobs out
          | [] => Crash FBadAccess
          end
      | TFloat =>
          match floats with
          | f :: floats => out ← put cap out (WriteBuffer f); tag_write cap tags ints floats strings blobs out
          | [] => Crash FBadAccess
          end
      | TString =>
          match strings with
          | s :: strings =>
              l ← string_GetBuffer s (GetSize s);
              out ← put cap out l; tag_write cap tags ints floats strings blobs out
          | [] => Crash FBadAccess
          end
      | TBlob =>
          match blobs with
          | b :: blobs =>
              l ← blob_GetBuffer b (blob_GetBufferLen b);
              out ← put cap out l; tag_write cap tags ints floats strings blobs out
          | [] => Crash FBadAccess
          end
      | TComma => tag_write cap tags ints floats strings blobs out
      | TStop => Good out
      end
  end.

Definition GenerateBufferFromMembers (m : WOscMessage) : ores WOscMessage :=
  typeTag ← readable (ws_buffer (wm_typeTag m) ≫= read_n (GetSize (wm_typeTag m)));
  bufferLen ← tag_len typeTag (wm_strings m) (wm_blobs m)
    (wrap32 (GetSize (wm_address m) + GetSize (wm_typeTag m)));
  new_chars bufferLen;;
  a ← string_GetBuffer (wm_address m) (GetSize (wm_address m));
  out ← put bufferLen [] a;
  t ← string_GetBuffer (wm_typeTag m) (GetSize (wm_typeTag m));
  out ← put bufferLen out t;
  out ← tag_write bufferLen typeTag (wm_ints m) (wm_floats m) (wm_strings m) (wm_blobs m) out;
  Good {| wm_address := wm_address m; wm_typeTag := wm_typeTag m; wm_floats := wm_floats m;
          wm_ints := wm_ints m; wm_strings := wm_strings m; wm_blobs := wm_blobs m;
          wm_bufferLen := bufferLen; wm_buffer := out |}.

(** ** Construction *)

(** The members both constructors start from; [m_bufferLen] is not set yet. *)
Definition bare_message (address typeTag : WOscString) : WOscMessage :=
  {| wm_address := address; wm_typeTag := typeTag; wm_floats := []; wm_ints := [];
     wm_strings := []; wm_blobs := []; wm_bufferLen := 0; wm_buffer := [] |}.

(** [WOscMessage(const char *address)]; [None] is the null pointer. *)
Definition new_message (address : option (list Z)) : ores WOscMessage :=
  match address with
  | None => Throw ERR_NULL_ADDRESS
  | Some address =>
      c ← readable (head address);
      if negb (c =? c_slash) then Throw ERR_INVALID_ADDRESS_NO_SLASH
      else
        a ← WOscString_of address;
        t ← WOscString_of (literal ",");
        GenerateBufferFromMembers (bare_message a t)
  end.

Definition with_members (typeTag : WOscString) (floats ints : list Z) (strings : list WOscString)
    (blobs : list WOscBlob) (m : WOscMessage) : WOscMessage :=
  {| wm_address := wm_address m; wm_typeTag := typeTag; wm_floats := floats; wm_ints := ints;
     wm_strings := strings; wm_blobs := blobs; wm_bufferLen := wm_bufferLen m; wm_buffer := wm_buffer m |}.

Definition Add_float (f : Z) (m : WOscMessage) : ores WOscMessage :=
  t ← string_append_char (wm_typeTag m) c_float;
  GenerateBufferFromMembers
    (with_members t (wm_floats m ++ [f]) (wm_ints m) (wm_strings m) (wm_blobs m) m).

Definition Add_int (i : Z) (m : WOscMessage) : ores WOscMessage :=
  t ← string_append_char (wm_typeTag m) c_int;
  GenerateBufferFromMembers
    (with_members t (wm_floats m) (wm_ints m ++ [i]) (wm_strings m) (wm_blobs m) m).

(** [Add(const char * )]. *)
Definition Add_cstr (s : list Z) (m : WOscMessage) : ores WOscMessage :=
  t ← string_append_char (wm_typeTag m) c_string;
  s ← WOscString_of s;
  GenerateBufferFromMembers
    (with_members t (wm_floats m) (wm_ints m) (wm_strings m ++ [s]) (wm_blobs m) m).

(** [Add(WOscString&)]. *)
Definition Add_string (s : WOscString) (m : WOscMessage) : ores WOscMessage :=
  t ← string_append_char (wm_typeTag m) c_string;
  s ← string_assign s;
  GenerateBufferFromMembers
    (with_members t (wm_floats m) (wm_ints m) (wm_strings m ++ [s]) (wm_blobs m) m).

(** [Add(WOscBlob * )]: the new array has [m_numStrings] entries, and
    [m_numBlobs] of them are written. *)
Definition Add_blob (b : WOscBlob) (m : WOscMessage) : ores WOscMessage :=
  t ← string_append_char (wm_typeTag m) c_blob;
  b ← blob_copy b;
  let blobs := wm_blobs m ++ [b] in
  if bool_decide (wm_blobs m = []) || (zlen blobs <=? zlen (wm_strings m)) then
    GenerateBufferFromMembers
      (with_members t (wm_floats m) (wm_ints m) (wm_strings m) blobs m)
  else Crash FBadAccess.

(** ** Reading a message *)

(** The loop over the type tag; [buf] is [buffer + pos]. *)
Fixpoint scan_args (tags buf : list Z) (m : WOscMessage) : ores WOscMessage :=
  match tags with
  | [] => Good m
  | c :: tags =>
      match classify c with
      | TInt =>
          i ← CharBufToInt buf; m ← Add_int i m; scan_args tags (drop (Z.to_nat OSC_INT_SIZE) buf) m
      | TFloat =>
          f ← CharBufToFloat buf; m ← Add_float f m; scan_args tags (drop (Z.to_nat OSC_FLOAT_SIZE) buf) m
      | TString =>
          m ← Add_cstr buf m;
          s ← readable (last (wm_strings m));
          scan_args tags (drop (Z.to_nat (GetSize s)) buf) m
      | TBlob =>
          blob ← blob_of_raw buf; m ← Add_blob blob m;
          scan_args tags (drop (Z.to_nat (blob_GetBufferLen blob)) buf) m
      | TComma => scan_args tags buf m
      | TStop => Good m
      end
  end.

(** [WOscMessage(const char *buffer, int bufferLen)]. *)
Definition parse_message (buffer : list Z) (bufferLen : Z) : ores WOscMessage :=
  if bufferLen <? 1 then Throw ERR_NULL_BUFFER
  else
    c ← readable (head buffer);
    if negb (c =? c_slash) then Throw ERR_INVALID_ADDRESS_NO_SLASH
    else
      a ← WOscString_of buffer;
      t ← WOscString_of (literal ",");
      let pos := GetSize a in
      let m := bare_message a t in
      if bufferLen <=? pos then GenerateBufferFromMembers m
      else
        OscTypeTag ← WOscString_of (drop (Z.to_nat pos) buffer);
        typeTag ← readable (ws_buffer OscTypeTag);
        m ← scan_args typeTag (drop (Z.to_nat (wrap32 (pos + GetSize OscTypeTag))) buffer) m;
        GenerateBufferFromMembers m.

(** ** Copying and reading *)

Fixpoint map_ores {A B} (f : A → ores B) (l : list A) : ores (list B) :=
  match l with
  | [] => Good []
  | a :: l => b ← f a; rest ← map_ores f l; Good (b :: rest)
  end.

(** [Copy], behind the copy constructors and [operator=]. *)
Definition message_copy (m : WOscMessage) : ores WOscMessage :=
  a ← string_assign (wm_address m);
  t ← string_assign (wm_typeTag m);
  strings ← map_ores string_assign (wm_strings m);
  blobs ← map_ores blob_copy (wm_blobs m);
  buffer ← (if 0 <? wm_bufferLen m then readable (read_n (wm_bufferLen m) (wm_buffer m)) else Good []);
  Good {| wm_address := a; wm_typeTag := t; wm_floats := wm_floats m; wm_ints := wm_ints m;
          wm_strings := strings; wm_blobs := blobs; wm_bufferLen := wm_bufferLen m; wm_buffer := buffer |}.

(** [operator+=] does nothing, and [operator+] is a copy. *)
Definition message_append (lhs rhs : WOscMessage) : WOscMessage := lhs.
Definition message_plus (lhs rhs : WOscMessage) : ores WOscMessage :=
  tmp ← message_copy lhs; Good (message_append tmp rhs).

Definition GetNumFloats (m : WOscMessage) : Z := zlen (wm_floats m).
Definition GetNumInts (m : WOscMessage) : Z := zlen (wm_ints m).
Definition GetNumStrings (m : WOscMessage) : Z := zlen (wm_strings m).
Definition GetNumBlobs (m : WOscMessage) : Z := zlen (wm_blobs m).
Definition GetOscAddress (m : WOscMessage) : ores WOscString := string_assign (wm_address m).

(** [GetInt], [GetFloat], [GetString], [GetBlob]: the index is refused when it
    is larger than the number of arguments. *)
Definition get_arg {A} (idx : Z) (l : list A) : ores A :=
  if idx >? zlen l then Throw ERR_INVALID_INDEX
  else if idx <? 0 then Crash FBadAccess
  else readable (l !! Z.to_nat idx).
Definition GetFloat (idx : Z) (m : WOscMessage) : ores Z := get_arg idx (wm_floats m).
Definition GetInt (idx : Z) (m : WOscMessage) : ores Z := get_arg idx (wm_ints m).
Definition GetString (idx : Z) (m : WOscMessage) : ores WOscString := get_arg idx (wm_strings m).
Definition GetBlob (idx : Z) (m : WOscMessage) : ores WOscBlob := get_arg idx (wm_blobs m).

(** [GetBuffer(buffer, bufferLen)] copies [bufferLen] bytes. *)
Definition message_GetBuffer (bufferLen : Z) (m : WOscMessage) : ores (list Z) :=
  if bufferLen <? wm_bufferLen m then Throw ERR_OSC_STR_BUFF_TOO_SMALL
  else readable (read_n bufferLen (wm_buffer m)).
Definition message_GetBufferLen (m : WOscMessage) : Z := wm_bufferLen m.
