(* ===== verification/OscCodec.v ===== *)
(** OSC messages against the format of the OSC specification: what the
    constructors and [Add] build, and reading it back. *)
From S2P Require Import Prelude Numeric OscData OscMessage.
#[local] Open Scope Z_scope.

(** ** The reference encoding *)

Inductive arg :=
  | AInt (i : Z)
  | AFloat (f : Z)
  | AString (s : list Z)
  | ABlob (d : list Z).

(** An OSC-string ends in one to four zeros, a blob is padded with none to
    three; both take a multiple of four bytes. *)
Definition padz (s : list Z) : list Z := s ++ replicate (4 - length s mod 4)%nat 0.
Definition padb (d : list Z) : list Z := d ++ replicate ((4 - length d mod 4) mod 4)%nat 0.

Definition arg_tag (a : arg) : Z :=
  match a with AInt _ => c_int | AFloat _ => c_float | AString _ => c_string | ABlob _ => c_blob end.
Definition arg_bytes (a : arg) : list Z :=
  match a with
  | AInt i => be_bytes 4 i
  | AFloat f => be_bytes 4 f
  | AString s => padz s
  | ABlob d => be_bytes 4 (zlen d) ++ padb d
  end.
Definition tag_string (args : list arg) : list Z := c_comma :: (arg_tag <$> args).
Definition message_bytes (addr : list Z) (args : list arg) : list Z :=
  padz addr ++ padz (tag_string args) ++ (args ≫= arg_bytes).

(** What an argument may be: a C string has no zero. *)
Definition arg_ok (a : arg) : Prop :=
  match a with
  | AInt i => in_int i = true
  | AFloat f => 0 <= f < 2 ^ 32
  | AString s => 0 ∉ s
  | ABlob d => True
  end.

(** ** The object that stands for an address and arguments *)

Definition osc_string (s : list Z) : WOscString :=
  {| ws_buffer := Some (padz s); ws_bufferLen := zlen (padz s) |}.
Definition osc_blob (d : list Z) : WOscBlob :=
  {| wb_dataLen := zlen d; wb_bufferLen := zlen (arg_bytes (ABlob d)); wb_buffer := arg_bytes (ABlob d) |}.

Definition floats_of (args : list arg) : list Z :=
  args ≫= λ a, match a with AFloat f => [f] | _ => [] end.
Definition ints_of (args : list arg) : list Z :=
  args ≫= λ a, match a with AInt i => [i] | _ => [] end.
Definition strings_of (args : list arg) : list WOscString :=
  args ≫= λ a, match a with AString s => [osc_string s] | _ => [] end.
Definition blobs_of (args : list arg) : list WOscBlob :=
  args ≫= λ a, match a with ABlob d => [osc_blob d] | _ => [] end.

Definition message_of (addr : list Z) (args : list arg) : WOscMessage :=
  {| wm_address := osc_string addr; wm_typeTag := osc_string (tag_string args);
     wm_floats := floats_of args; wm_ints := ints_of args; wm_strings := strings_of args;
     wm_blobs := blobs_of args; wm_bufferLen := zlen (message_bytes addr args);
     wm_buffer := message_bytes addr args |}.

(** [Add] at the type of the argument. *)
Definition Add (a : arg) (m : WOscMessage) : ores WOscMessage :=
  match a with
  | AInt i => Add_int i m
  | AFloat f => Add_float f m
  | AString s => Add_cstr (s ++ [0]) m
  | ABlob d => b ← blob_of_data d (zlen d); Add_blob b m
  end.
Fixpoint Add_all (args : list arg) (m : WOscMessage) : ores WOscMessage :=
  match args with
  | [] => Good m
  | a :: args => m ← Add a m; Add_all args m
  end.

(** The blobs [Add] has room for: at most one, or no more than the strings
    before it. *)
Fixpoint blobs_fit (strings blobs : nat) (args : list arg) : bool :=
  match args with
  | [] => true
  | AString _ :: args => blobs_fit (S strings) blobs args
  | ABlob _ :: args => ((blobs =? 0) || (S blobs <=? strings))%nat && blobs_fit strings (S blobs) args
  | _ :: args => blobs_fit strings blobs args
  end.

(** ** Lists and bytes *)

Lemma zlen_app {A} (l k : list A) : zlen (l ++ k) = zlen l + zlen k.
Proof. unfold zlen. rewrite length_app. lia. Qed.
Lemma zlen_nonneg {A} (l : list A) : 0 <= zlen l.
Proof. unfold zlen. lia. Qed.
Lemma zlen_to_nat {A} (l : list A) : Z.to_nat (zlen l) = length l.
Proof. unfold zlen. lia. Qed.
#[export] Hint Resolve zlen_nonneg : movid.
#[export] Hint Rewrite @zlen_app : movid.

Lemma read_n_app l k : read_n (zlen l) (l ++ k) = Some l.
Proof.
  unfold read_n. rewrite zlen_app. pose proof (zlen_nonneg l). pose proof (zlen_nonneg k).
  rewrite (proj2 (Z.leb_le _ _)), (proj2 (Z.leb_le _ _)) by lia. simpl.
  by rewrite zlen_to_nat, take_app_length.
Qed.
Lemma read_n_all l : read_n (zlen l) l = Some l.
Proof. pose proof (read_n_app l []) as H. by rewrite app_nil_r in H. Qed.
Lemma read_n_exact n l k : zlen l = n → read_n n (l ++ k) = Some l.
Proof. intros <-. apply read_n_app. Qed.
Lemma drop_zlen {A} (l k : list A) : drop (Z.to_nat (zlen l)) (l ++ k) = k.
Proof. by rewrite zlen_to_nat, drop_app_length. Qed.

Lemma cstr_app s k : 0 ∉ s → cstr (s ++ 0 :: k) = Some s.
Proof.
  induction s as [|b s IH]; intros H; [done|]. apply not_elem_of_cons in H as [Hb H]. simpl.
  rewrite (proj2 (Z.eqb_neq b 0)) by congruence. by rewrite IH.
Qed.

Lemma length_be_bytes n z : length (be_bytes n z) = n.
Proof. induction n; simpl; auto. Qed.
Lemma be_value_bytes n acc z : be_value acc (be_bytes n z) = acc * 2 ^ (8 * Z.of_nat n) + z mod 2 ^ (8 * Z.of_nat n).
Proof.
  revert acc. induction n as [|n IH]; intros acc.
  - simpl. rewrite Z.mod_1_r. lia.
  - cbn [be_bytes be_value]. rewrite IH. unfold le_byte.
    change 255 with (Z.ones 8). rewrite Z.land_ones, Z.shiftr_div_pow2 by lia.
    replace (8 * Z.of_nat (S n)) with (8 * Z.of_nat n + 8) by lia.
    rewrite (Z.pow_add_r 2 (8 * Z.of_nat n) 8), (Z.rem_mul_r z (2 ^ (8 * Z.of_nat n)) (2 ^ 8)) by lia. lia.
Qed.

Lemma wrap32_mod z : wrap32 (z mod 2 ^ 32) = wrap32 z.
Proof. unfold wrap32. by rewrite Z.add_mod_idemp_l. Qed.
Lemma wrap32_fits z : 0 <= z < 2 ^ 31 → wrap32 z = z.
Proof. intros ?. apply wrap32_id, in_int_iff. lia. Qed.

Lemma CharBufToInt_write z k : CharBufToInt (be_bytes 4 z ++ k) = Good (wrap32 z).
Proof.
  unfold CharBufToInt. rewrite (read_n_exact OSC_INT_SIZE (be_bytes 4 z)) by done.
  cbn [mbind ores_bind readable]. rewrite be_value_bytes. change (8 * Z.of_nat 4) with 32.
  by rewrite Z.mul_0_l, Z.add_0_l, wrap32_mod.
Qed.
Lemma CharBufToFloat_write f k : 0 <= f < 2 ^ 32 → CharBufToFloat (be_bytes 4 f ++ k) = Good f.
Proof.
  intros Hf. unfold CharBufToFloat. rewrite (read_n_exact OSC_FLOAT_SIZE (be_bytes 4 f)) by done.
  cbn [mbind ores_bind readable]. rewrite be_value_bytes. change (8 * Z.of_nat 4) with 32.
  by rewrite Z.mul_0_l, Z.add_0_l, Z.mod_small.
Qed.
Lemma InitFromCharArray_write t k :
  0 <= t < 2 ^ 64 → InitFromCharArray (WriteToCharArray t ++ k) = Good t.
Proof.
  intros Ht. unfold InitFromCharArray, WriteToCharArray.
  rewrite (read_n_exact TIME_TAG_SIZE (be_bytes 8 t)) by done.
  cbn [mbind ores_bind readable]. rewrite be_value_bytes. change (8 * Z.of_nat 8) with 64.
  by rewrite Z.mul_0_l, Z.add_0_l, Z.mod_small.
Qed.

(** ** Padding *)

Lemma mod4 (n : nat) : ∃ q r : nat, n = (4 * q + r)%nat ∧ (r < 4)%nat ∧ (n mod 4 = r)%nat.
Proof. exists (n / 4)%nat, (n mod 4)%nat. pose proof (Nat.div_mod_eq n 4). pose proof (Nat.mod_upper_bound n 4). lia. Qed.

Lemma aligned n : 0 <= n → n + 4 < 2 ^ 31 → GetSizeFourByteAligned n = 4 * ((n + 3) / 4).
Proof.
  intros H0 H. unfold GetSizeFourByteAligned, cmod.
  rewrite (Z.rem_mod_nonneg n 4), Z.rem_mod_nonneg by (pose proof (Z.mod_pos_bound n 4); lia).
  rewrite wrap32_fits; pose proof (Z.div_mod n 4); pose proof (Z.mod_pos_bound n 4);
    pose proof (Z.div_mod (n + 3) 4); pose proof (Z.mod_pos_bound (n + 3) 4);
    pose proof (Z.div_mod (4 - n mod 4) 4); pose proof (Z.mod_pos_bound (4 - n mod 4) 4); lia.
Qed.

Lemma zlen_padz s : zlen (padz s) = 4 * ((zlen s + 4) / 4).
Proof.
  unfold padz, zlen. rewrite length_app, length_replicate.
  destruct (mod4 (length s)) as (q & r & Hl & Hr & Hm). rewrite Hm, Hl.
  replace (Z.of_nat (4 * q + r) + 4) with (Z.of_nat r + (Z.of_nat q + 1) * 4) by lia.
  rewrite Z.div_add, (Z.div_small (Z.of_nat r)) by lia. lia.
Qed.
Lemma zlen_padb d : zlen (padb d) = 4 * ((zlen d + 3) / 4).
Proof.
  unfold padb, zlen. rewrite length_app, length_replicate.
  destruct (mod4 (length d)) as (q & r & Hl & Hr & Hm). rewrite Hm, Hl.
  replace (Z.of_nat (4 * q + r) + 3) with ((Z.of_nat r + 3) + Z.of_nat q * 4) by lia.
  rewrite Z.div_add by lia.
  assert (r = 0 ∨ r = 1 ∨ r = 2 ∨ r = 3)%nat as [->|[->|[->| ->]]] by lia;
    match goal with |- context [(Z.of_nat ?r + 3) / 4] =>
      let v := eval vm_compute in ((Z.of_nat r + 3) / 4) in change ((Z.of_nat r + 3) / 4) with v;
      let w := eval vm_compute in ((4 - r) mod 4)%nat in change ((4 - r) mod 4)%nat with w end; lia.
Qed.
Lemma padz_bound s : zlen s < zlen (padz s) <= zlen s + 4 ∧ zlen (padz s) mod 4 = 0.
Proof.
  rewrite zlen_padz. pose proof (Z.div_mod (zlen s + 4) 4). pose proof (Z.mod_pos_bound (zlen s + 4) 4).
  split; [lia|]. rewrite Z.mul_comm. by apply Z.mod_mul.
Qed.
Lemma padz_min s : 4 <= zlen (padz s).
Proof. pose proof (padz_bound s) as [H _]. pose proof (zlen_nonneg s). rewrite zlen_padz in *. lia. Qed.
Lemma padb_bound d : zlen d <= zlen (padb d) < zlen d + 4 ∧ zlen (padb d) mod 4 = 0.
Proof.
  rewrite zlen_padb. pose proof (Z.div_mod (zlen d + 3) 4). pose proof (Z.mod_pos_bound (zlen d + 3) 4).
  split; [lia|]. rewrite Z.mul_comm. by apply Z.mod_mul.
Qed.

(** A string, its zero and more zeros. *)
Lemma padz_zero s : ∃ k, padz s = s ++ 0 :: replicate k 0.
Proof.
  unfold padz. exists (3 - length s mod 4)%nat. f_equal.
  destruct (mod4 (length s)) as (q & r & Hl & Hr & ->).
  by replace (4 - r)%nat with (S (3 - r)) by lia.
Qed.
Lemma cstr_padz s k : 0 ∉ s → cstr (padz s ++ k) = Some s.
Proof. intros H. destruct (padz_zero s) as [n ->]. rewrite <-app_assoc. simpl. by apply cstr_app. Qed.
Lemma cstr_padz_all s : 0 ∉ s → cstr (padz s) = Some s.
Proof. intros H. pose proof (cstr_padz s [] H) as E. by rewrite app_nil_r in E. Qed.
Lemma padz_pad s n : Z.of_nat n = zlen (padz s) - zlen s → padz s = s ++ replicate n 0.
Proof.
  intros H. unfold padz in *. rewrite zlen_app in H. unfold zlen in H at 2. rewrite length_replicate in H.
  f_equal. f_equal. lia.
Qed.
Lemma padb_pad d n : Z.of_nat n = zlen (padb d) - zlen d → padb d = d ++ replicate n 0.
Proof.
  intros H. unfold padb in *. rewrite zlen_app in H. unfold zlen in H at 2. rewrite length_replicate in H.
  f_equal. f_equal. lia.
Qed.

(** ** WOscString and WOscBlob *)

Lemma zlen_cons {A} (a : A) l : zlen (a :: l) = 1 + zlen l.
Proof. unfold zlen. simpl. lia. Qed.

Lemma WOscString_of_spec s k :
  0 ∉ s → zlen s + 5 < 2 ^ 31 → WOscString_of (s ++ 0 :: k) = Good (osc_string s).
Proof.
  intros H0 Hs. unfold WOscString_of. rewrite cstr_app by done. cbn [readable mbind ores_bind].
  pose proof (zlen_nonneg s). pose proof (padz_bound s) as [Hb _].
  assert (E : GetStringSizeAligned s = zlen (padz s))
    by (unfold GetStringSizeAligned; rewrite aligned, zlen_padz by lia; do 2 f_equal; lia).
  unfold osc_string, PadStringWithZeros. rewrite E. do 3 f_equal.
  symmetry. apply (padz_pad s (S (Z.to_nat (zlen (padz s) - (zlen s + 1))))). lia.
Qed.
Lemma WOscString_of_padz s k :
  0 ∉ s → zlen s + 5 < 2 ^ 31 → WOscString_of (padz s ++ k) = Good (osc_string s).
Proof.
  intros H0 Hs. destruct (padz_zero s) as [n ->]. rewrite <-app_assoc. simpl. by apply WOscString_of_spec.
Qed.

Lemma string_append_spec s t :
  0 ∉ s → 0 ∉ t → zlen s + zlen t + 5 < 2 ^ 31 →
  string_append (osc_string s) (osc_string t) = Good (osc_string (s ++ t)).
Proof.
  intros Hs Ht Hl. unfold string_append. cbn [osc_string ws_buffer].
  rewrite !cstr_padz_all by done. cbn [readable mbind ores_bind].
  rewrite cstr_padz_all by done. cbn [readable mbind ores_bind].
  pose proof (zlen_nonneg s). pose proof (zlen_nonneg t).
  pose proof (padz_bound (s ++ t)) as [Hb _]. rewrite zlen_app in Hb.
  assert (E : GetSizeFourByteAligned (zlen t + zlen s + 1) = zlen (padz (s ++ t)))
    by (rewrite aligned, zlen_padz, zlen_app by lia; do 2 f_equal; lia).
  unfold osc_string. rewrite E. do 3 f_equal.
  rewrite app_assoc. symmetry. apply padz_pad. rewrite zlen_app. lia.
Qed.
Lemma string_append_char_spec s c :
  0 ∉ s → c ≠ 0 → zlen s + 6 < 2 ^ 31 →
  string_append_char (osc_string s) c = Good (osc_string (s ++ [c])).
Proof.
  intros Hs Hc Hl. unfold string_append_char, string_append_cstr.
  pose proof (zlen_nonneg s).
  assert (H1 : 0 ∉ [c]) by (intros Hx%list_elem_of_singleton; congruence).
  change [c; 0] with ([c] ++ 0 :: []).
  rewrite WOscString_of_spec by (done || (unfold zlen; simpl; lia)). cbn [mbind ores_bind].
  apply string_append_spec; [done..|]. change (zlen [c]) with 1. lia.
Qed.
Lemma string_GetBuffer_spec s : string_GetBuffer (osc_string s) (GetSize (osc_string s)) = Good (padz s).
Proof.
  unfold string_GetBuffer, GetSize, osc_string. cbn [ws_bufferLen ws_buffer].
  rewrite Z.ltb_irrefl. cbn [mbind option_bind]. by rewrite read_n_all.
Qed.
Lemma string_bytes s : ws_buffer (osc_string s) ≫= read_n (GetSize (osc_string s)) = Some (padz s).
Proof. apply read_n_all. Qed.
Lemma GetSize_spec s : GetSize (osc_string s) = zlen (padz s).
Proof. done. Qed.
Lemma string_assign_spec s : string_assign (osc_string s) = Good (osc_string s).
Proof. unfold string_assign, osc_string. cbn [ws_bufferLen ws_buffer default]. by rewrite read_n_all. Qed.

Lemma blob_bytes_len d : zlen (arg_bytes (ABlob d)) = 4 + zlen (padb d).
Proof. cbn [arg_bytes]. rewrite zlen_app. unfold zlen at 1. by rewrite length_be_bytes. Qed.
Lemma blob_size d :
  zlen d + 8 < 2 ^ 31 → wrap32 (GetSizeFourByteAligned (zlen d) + BLOB_SIZE_SIZE) = zlen (arg_bytes (ABlob d)).
Proof.
  intros Hd. pose proof (zlen_nonneg d). pose proof (padb_bound d) as [Hb _].
  rewrite aligned by lia. rewrite <-zlen_padb, blob_bytes_len, wrap32_fits; unfold BLOB_SIZE_SIZE; lia.
Qed.
Lemma new_chars_ok n : 0 <= n → new_chars n = Good tt.
Proof. intros H. unfold new_chars. by rewrite (proj2 (Z.ltb_ge n 0)). Qed.
Lemma blob_of_data_spec d : zlen d + 8 < 2 ^ 31 → blob_of_data d (zlen d) = Good (osc_blob d).
Proof.
  intros Hd. unfold blob_of_data. rewrite blob_size, new_chars_ok, read_n_all by auto with movid.
  cbn [readable mbind ores_bind]. unfold osc_blob. do 2 f_equal.
  cbn [arg_bytes]. unfold WriteBuffer. f_equal.
  pose proof (padb_bound d) as [Hb _]. symmetry. apply padb_pad.
  change (be_bytes 4 (zlen d) ++ padb d) with (arg_bytes (ABlob d)).
  rewrite blob_bytes_len. unfold BLOB_SIZE_SIZE. lia.
Qed.
Lemma blob_of_raw_spec d k : zlen d + 8 < 2 ^ 31 → blob_of_raw (arg_bytes (ABlob d) ++ k) = Good (osc_blob d).
Proof.
  intros Hd. unfold blob_of_raw. pose proof (zlen_nonneg d).
  assert (E : CharBufToInt (arg_bytes (ABlob d) ++ k) = Good (zlen d))
    by (cbn [arg_bytes]; rewrite <-app_assoc, CharBufToInt_write, wrap32_fits; [done|lia]).
  rewrite E. cbn [mbind ores_bind]. rewrite blob_size, new_chars_ok, read_n_app by auto with movid. done.
Qed.
Lemma blob_copy_spec d : blob_copy (osc_blob d) = Good (osc_blob d).
Proof. unfold blob_copy, osc_blob. cbn [wb_buffer wb_bufferLen wb_dataLen]. by rewrite read_n_all. Qed.
Lemma blob_GetBuffer_spec d :
  blob_GetBuffer (osc_blob d) (blob_GetBufferLen (osc_blob d)) = Good (arg_bytes (ABlob d)).
Proof.
  unfold blob_GetBuffer, blob_GetBufferLen, osc_blob. cbn [wb_buffer wb_bufferLen].
  by rewrite Z.ltb_irrefl, read_n_all.
Qed.

(** ** GenerateBufferFromMembers *)

Lemma classify_tag a :
  classify (arg_tag a) = match a with AInt _ => TInt | AFloat _ => TFloat | AString _ => TString | ABlob _ => TBlob end.
Proof. by destruct a. Qed.
Lemma tag_nonzero a : arg_tag a ≠ 0.
Proof. by destruct a. Qed.
Lemma tag_string_nonzero args : 0 ∉ tag_string args.
Proof.
  unfold tag_string. rewrite elem_of_cons, list_elem_of_fmap. intros [H|(a & H & _)]; [done|].
  by destruct (tag_nonzero a).
Qed.

Lemma tag_len_spec args r acc :
  0 <= acc → acc + zlen (args ≫= arg_bytes) < 2 ^ 31 →
  tag_len ((arg_tag <$> args) ++ 0 :: r) (strings_of args) (blobs_of args) acc
  = Good (acc + zlen (args ≫= arg_bytes)).
Proof.
  revert acc. induction args as [|a args IH]; intros acc H0 H.
  - simpl. unfold zlen. simpl. by rewrite Z.add_0_r.
  - rewrite bind_cons, zlen_app in *. pose proof (zlen_nonneg (args ≫= arg_bytes)).
    pose proof (zlen_nonneg (arg_bytes a)). cbn [fmap list_fmap app tag_len]. rewrite classify_tag.
    assert (Hw : wrap32 (acc + zlen (arg_bytes a)) = acc + zlen (arg_bytes a)) by (apply wrap32_fits; lia).
    destruct a as [i|f|s|d];
      [change OSC_INT_SIZE with (zlen (arg_bytes (AInt i)))
      |change OSC_FLOAT_SIZE with (zlen (arg_bytes (AFloat f)))
      |change (strings_of (AString s :: args)) with (osc_string s :: strings_of args); cbv beta iota;
       change (GetSize (osc_string s)) with (zlen (arg_bytes (AString s)))
      |change (blobs_of (ABlob d :: args)) with (osc_blob d :: blobs_of args); cbv beta iota;
       change (blob_GetBufferLen (osc_blob d)) with (zlen (arg_bytes (ABlob d)))];
      rewrite Hw; (etransitivity; [apply IH|f_equal]; lia).
Qed.

Lemma put_ok cap out l : zlen out + zlen l <= cap → put cap out l = Good (out ++ l).
Proof. intros H. unfold put. by rewrite (proj2 (Z.leb_le _ _)). Qed.

Lemma tag_write_spec cap args r out :
  zlen out + zlen (args ≫= arg_bytes) <= cap →
  tag_write cap ((arg_tag <$> args) ++ 0 :: r) (ints_of args) (floats_of args) (strings_of args)
    (blobs_of args) out = Good (out ++ (args ≫= arg_bytes)).
Proof.
  revert out. induction args as [|a args IH]; intros out H.
  - simpl. by rewrite app_nil_r.
  - rewrite bind_cons, zlen_app in *. pose proof (zlen_nonneg (args ≫= arg_bytes)).
    cbn [fmap list_fmap app tag_write]. rewrite classify_tag.
    assert (Hp : put cap out (arg_bytes a) = Good (out ++ arg_bytes a)) by (apply put_ok; lia).
    destruct a as [i|f|s|d].
    1: change (ints_of (AInt i :: args)) with (i :: ints_of args); cbv beta iota; change (WriteBuffer i) with (arg_bytes (AInt i)).
    2: change (floats_of (AFloat f :: args)) with (f :: floats_of args); cbv beta iota; change (WriteBuffer f) with (arg_bytes (AFloat f)).
    3: change (strings_of (AString s :: args)) with (osc_string s :: strings_of args); cbv beta iota;
       rewrite string_GetBuffer_spec; cbn [mbind ores_bind]; change (padz s) with (arg_bytes (AString s)).
    4: change (blobs_of (ABlob d :: args)) with (osc_blob d :: blobs_of args); cbv beta iota;
       rewrite blob_GetBuffer_spec; cbn [mbind ores_bind].
    all: rewrite Hp; cbn [mbind ores_bind]; rewrite app_assoc; apply IH; rewrite zlen_app; lia.
Qed.

(** Both loops on the padded type tag. *)
Lemma tag_len_padz args acc :
  0 <= acc → acc + zlen (args ≫= arg_bytes) < 2 ^ 31 →
  tag_len (padz (tag_string args)) (strings_of args) (blobs_of args) acc
  = Good (acc + zlen (args ≫= arg_bytes)).
Proof. intros ??. destruct (padz_zero (tag_string args)) as [n ->]. by apply (tag_len_spec args). Qed.
Lemma tag_write_padz cap args out :
  zlen out + zlen (args ≫= arg_bytes) <= cap →
  tag_write cap (padz (tag_string args)) (ints_of args) (floats_of args) (strings_of args)
    (blobs_of args) out = Good (out ++ (args ≫= arg_bytes)).
Proof. intros ?. destruct (padz_zero (tag_string args)) as [n ->]. by apply (tag_write_spec cap args). Qed.

(** A message with the members of [message_of]; the buffer may be stale. *)
Definition has_members (addr : list Z) (args : list arg) (m : WOscMessage) : Prop :=
  wm_address m = osc_string addr ∧ wm_typeTag m = osc_string (tag_string args)
  ∧ wm_floats m = floats_of args ∧ wm_ints m = ints_of args
  ∧ wm_strings m = strings_of args ∧ wm_blobs m = blobs_of args.

Lemma message_bytes_len addr args :
  zlen (message_bytes addr args) = zlen (padz addr) + zlen (padz (tag_string args)) + zlen (args ≫= arg_bytes).
Proof. unfold message_bytes. rewrite !zlen_app. lia. Qed.

Lemma Generate_spec addr args m :
  has_members addr args m → zlen (message_bytes addr args) < 2 ^ 31 →
  GenerateBufferFromMembers m = Good (message_of addr args).
Proof.
  intros (Ha & Ht & Hf & Hi & Hs & Hb) Hl. unfold GenerateBufferFromMembers, message_of.
  rewrite Ha, Ht, Hf, Hi, Hs, Hb. rewrite message_bytes_len in *.
  pose proof (zlen_nonneg (padz addr)). pose proof (zlen_nonneg (padz (tag_string args))).
  pose proof (zlen_nonneg (args ≫= arg_bytes)).
  rewrite string_bytes, !string_GetBuffer_spec, !GetSize_spec, wrap32_fits by lia. cbn [readable].
  cbn [mbind ores_bind].
  rewrite tag_len_padz, ogood_bind, new_chars_ok, ogood_bind by lia.
  rewrite put_ok by (unfold zlen at 1; simpl; lia). rewrite ogood_bind, app_nil_l.
  rewrite put_ok, ogood_bind by lia.
  rewrite tag_write_padz, ogood_bind by (rewrite zlen_app; lia).
  unfold message_bytes. by rewrite <-app_assoc.
Qed.

(** ** Add *)

Lemma arg_bytes_len a : 4 <= zlen (arg_bytes a) ∧ zlen (arg_bytes a) mod 4 = 0.
Proof.
  destruct a as [i|f|s|d]; [by unfold zlen; simpl..| |].
  - destruct (padz_bound s) as [? Hm]. cbn [arg_bytes]. split; [|done].
    apply padz_min.
  - destruct (padb_bound d) as [? Hm]. rewrite blob_bytes_len. pose proof (zlen_nonneg d).
    split; [lia|]. by rewrite <-Z.add_mod_idemp_r, Hm.
Qed.

Lemma message_bytes_snoc addr args a :
  zlen (message_bytes addr (args ++ [a])) < 2 ^ 31 →
  zlen (message_bytes addr args) < 2 ^ 31 ∧ zlen (tag_string args) + 6 < 2 ^ 31
  ∧ zlen (arg_bytes a) + 8 < 2 ^ 31.
Proof.
  rewrite !message_bytes_len, bind_app, zlen_app, bind_cons, zlen_app. simpl (mbind _ []).
  unfold tag_string. rewrite fmap_app.
  pose proof (arg_bytes_len a) as [? _]. pose proof (zlen_nonneg (args ≫= arg_bytes)).
  pose proof (zlen_nonneg addr).
  pose proof (padz_min addr). set (t := arg_tag <$> args). pose proof (zlen_nonneg t).
  assert (Hm : zlen (padz (c_comma :: t)) <= zlen (padz (c_comma :: t ++ (arg_tag <$> [a])))).
  { rewrite !zlen_padz. apply Z.mul_le_mono_nonneg_l; [lia|]. apply Z.div_le_mono; [lia|].
    rewrite !zlen_cons, zlen_app. pose proof (zlen_nonneg (arg_tag <$> [a])). lia. }
  pose proof (padz_bound (c_comma :: t)) as [Hb _]. pose proof (padz_min (c_comma :: t)).
  change (zlen []) with 0. intros Hfit. split_and!; lia.
Qed.

Lemma floats_of_snoc args a : floats_of (args ++ [a]) = floats_of args ++ floats_of [a].
Proof. apply bind_app. Qed.
Lemma ints_of_snoc args a : ints_of (args ++ [a]) = ints_of args ++ ints_of [a].
Proof. apply bind_app. Qed.
Lemma strings_of_snoc args a : strings_of (args ++ [a]) = strings_of args ++ strings_of [a].
Proof. apply bind_app. Qed.
Lemma blobs_of_snoc args a : blobs_of (args ++ [a]) = blobs_of args ++ blobs_of [a].
Proof. apply bind_app. Qed.
Lemma tag_string_snoc args a : tag_string (args ++ [a]) = tag_string args ++ [arg_tag a].
Proof. unfold tag_string. by rewrite fmap_app. Qed.
#[local] Hint Rewrite floats_of_snoc ints_of_snoc strings_of_snoc blobs_of_snoc tag_string_snoc : movid.

Section adding.
  Context (addr : list Z) (args : list arg) (m : WOscMessage) (a : arg).
  Hypothesis Hm : has_members addr args m.
  Hypothesis Hl : zlen (message_bytes addr (args ++ [a])) < 2 ^ 31.

  (** The type tag grows by the letter of the argument. *)
Lemma append_tag :
    string_append_char (wm_typeTag m) (arg_tag a) = Good (osc_string (tag_string (args ++ [a]))).
  Proof.
    destruct Hm as (_ & -> & _). rewrite tag_string_snoc.
    apply string_append_char_spec; [apply tag_string_nonzero|apply tag_nonzero|].
    by destruct (message_bytes_snoc _ _ _ Hl) as (_ & ? & _).
  Qed.

  (** Then the array of its type grows and the buffer is regenerated. *)
Lemma regenerate :
    GenerateBufferFromMembers
      (with_members (osc_string (tag_string (args ++ [a]))) (wm_floats m ++ floats_of [a])
        (wm_ints m ++ ints_of [a]) (wm_strings m ++ strings_of [a]) (wm_blobs m ++ blobs_of [a]) m)
    = Good (message_of addr (args ++ [a])).
  Proof.
    apply Generate_spec; [|done]. destruct Hm as (Ha & Ht & Hf & Hi & Hs & Hb).
    unfold has_members, with_members. autorewrite with movid. simpl wm_address.
    by rewrite Ha, Hf, Hi, Hs, Hb.
  Qed.
End adding.

Lemma Add_int_spec addr args m i :
  has_members addr args m → zlen (message_bytes addr (args ++ [AInt i])) < 2 ^ 31 →
  Add_int i m = Good (message_of addr (args ++ [AInt i])).
Proof.
  intros Hm Hl. unfold Add_int. change c_int with (arg_tag (AInt i)).
  rewrite (append_tag addr args) by done. rewrite ogood_bind.
  pose proof (regenerate addr args m _ Hm Hl) as HG. simpl in HG. by rewrite !app_nil_r in HG.
Qed.
Lemma Add_float_spec addr args m f :
  has_members addr args m → zlen (message_bytes addr (args ++ [AFloat f])) < 2 ^ 31 →
  Add_float f m = Good (message_of addr (args ++ [AFloat f])).
Proof.
  intros Hm Hl. unfold Add_float. change c_float with (arg_tag (AFloat f)).
  rewrite (append_tag addr args) by done. rewrite ogood_bind.
  pose proof (regenerate addr args m _ Hm Hl) as HG. simpl in HG. by rewrite !app_nil_r in HG.
Qed.
Lemma Add_cstr_spec addr args m s k :
  has_members addr args m → zlen (message_bytes addr (args ++ [AString s])) < 2 ^ 31 → 0 ∉ s →
  Add_cstr (s ++ 0 :: k) m = Good (message_of addr (args ++ [AString s])).
Proof.
  intros Hm Hl H0. unfold Add_cstr. change c_string with (arg_tag (AString s)).
  rewrite (append_tag addr args) by done. rewrite ogood_bind.
  destruct (message_bytes_snoc _ _ _ Hl) as (_ & _ & Hs). cbn [arg_bytes] in Hs.
  pose proof (padz_bound s) as [? _]. rewrite WOscString_of_spec, ogood_bind by (done || lia).
  pose proof (regenerate addr args m _ Hm Hl) as HG. simpl in HG. by rewrite !app_nil_r in HG.
Qed.
Lemma Add_blob_spec addr args m d :
  has_members addr args m → zlen (message_bytes addr (args ++ [ABlob d])) < 2 ^ 31 →
  (length (blobs_of args) = 0 ∨ S (length (blobs_of args)) ≤ length (strings_of args))%nat →
  Add_blob (osc_blob d) m = Good (message_of addr (args ++ [ABlob d])).
Proof.
  intros Hm Hl Hroom. unfold Add_blob. change c_blob with (arg_tag (ABlob d)).
  rewrite (append_tag addr args) by done. rewrite ogood_bind, blob_copy_spec, ogood_bind.
  assert (E : bool_decide (wm_blobs m = []) || (zlen (wm_blobs m ++ [osc_blob d]) <=? zlen (wm_strings m)) = true).
  { destruct Hm as (_ & _ & _ & _ & -> & ->). unfold zlen. rewrite length_app, orb_true_iff, bool_decide_eq_true, Z.leb_le.
    destruct Hroom as [?%nil_length_inv|?]; [by left|right; simpl; lia]. }
  rewrite E. pose proof (regenerate addr args m _ Hm Hl) as HG. simpl in HG. by rewrite !app_nil_r in HG.
Qed.

Lemma message_of_members addr args : has_members addr args (message_of addr args).
Proof. by unfold has_members. Qed.

(** Room for one more argument. *)
Definition room (args : list arg) (a : arg) : Prop :=
  match a with
  | ABlob _ => (length (blobs_of args) = 0 ∨ S (length (blobs_of args)) ≤ length (strings_of args))%nat
  | _ => True
  end.

Lemma Add_spec addr args m a :
  has_members addr args m → arg_ok a → room args a → zlen (message_bytes addr (args ++ [a])) < 2 ^ 31 →
  Add a m = Good (message_of addr (args ++ [a])).
Proof.
  intros Hm Ha Hr Hl. destruct a as [i|f|s|d]; cbn [Add].
  - by apply Add_int_spec.
  - by apply Add_float_spec.
  - by apply Add_cstr_spec.
  - destruct (message_bytes_snoc _ _ _ Hl) as (_ & _ & Hs). rewrite blob_bytes_len in Hs.
    pose proof (padb_bound d) as [? _]. rewrite blob_of_data_spec, ogood_bind by lia. by apply Add_blob_spec.
Qed.

(** The same argument read from its binary form. *)
Definition scan_one (a : arg) (buf : list Z) (m : WOscMessage) : ores (list Z * WOscMessage) :=
  match a with
  | AInt _ => i ← CharBufToInt buf; m ← Add_int i m; Good (drop 4 buf, m)
  | AFloat _ => f ← CharBufToFloat buf; m ← Add_float f m; Good (drop 4 buf, m)
  | AString _ =>
      m ← Add_cstr buf m; s ← readable (last (wm_strings m)); Good (drop (Z.to_nat (GetSize s)) buf, m)
  | ABlob _ =>
      b ← blob_of_raw buf; m ← Add_blob b m; Good (drop (Z.to_nat (blob_GetBufferLen b)) buf, m)
  end.

Lemma scan_one_spec addr args m a k :
  has_members addr args m → arg_ok a → room args a → zlen (message_bytes addr (args ++ [a])) < 2 ^ 31 →
  scan_one a (arg_bytes a ++ k) m = Good (k, message_of addr (args ++ [a])).
Proof.
  intros Hm Ha Hr Hl. destruct (message_bytes_snoc _ _ _ Hl) as (_ & _ & Hs).
  destruct a as [i|f|s|d]; cbn [scan_one].
  - cbn [arg_bytes]. rewrite CharBufToInt_write, wrap32_id, ogood_bind by done.
    by rewrite (Add_int_spec addr args), ogood_bind.
  - cbn [arg_bytes]. rewrite CharBufToFloat_write, ogood_bind by done.
    by rewrite (Add_float_spec addr args), ogood_bind.
  - cbn [arg_bytes]. destruct (padz_zero s) as [n En]. rewrite En at 1. rewrite <-app_assoc. cbn [app].
    rewrite (Add_cstr_spec addr args), ogood_bind by done.
    change (wm_strings (message_of addr (args ++ [AString s]))) with (strings_of (args ++ [AString s])).
    rewrite strings_of_snoc. change (strings_of [AString s]) with [osc_string s]. rewrite last_snoc.
    cbn [readable]. rewrite ogood_bind, GetSize_spec.
    replace (s ++ 0 :: replicate n 0 ++ k) with (padz s ++ k) by (rewrite En, <-app_assoc; done).
    by rewrite drop_zlen.
  - rewrite blob_bytes_len in Hs. pose proof (padb_bound d) as [? _].
    rewrite blob_of_raw_spec, ogood_bind by lia. rewrite (Add_blob_spec addr args), ogood_bind by done.
    by rewrite (drop_zlen (arg_bytes (ABlob d))).
Qed.

Lemma scan_args_cons a tags buf m :
  scan_args (arg_tag a :: tags) buf m = '(buf, m) ← scan_one a buf m; scan_args tags buf m.
Proof.
  cbn [scan_args]. rewrite classify_tag. destruct a; cbn [scan_one].
  - destruct (CharBufToInt buf) as [v| |]; [|done..]. rewrite !ogood_bind. by destruct (Add_int v m).
  - destruct (CharBufToFloat buf) as [v| |]; [|done..]. rewrite !ogood_bind. by destruct (Add_float v m).
  - destruct (Add_cstr buf m) as [m'| |]; [|done..]. rewrite !ogood_bind. by destruct (last (wm_strings m')).
  - destruct (blob_of_raw buf) as [b| |]; [|done..]. rewrite !ogood_bind. by destruct (Add_blob b m).
Qed.

Lemma room_step done a args :
  blobs_fit (length (strings_of done)) (length (blobs_of done)) (a :: args) = true →
  room done a
  ∧ blobs_fit (length (strings_of (done ++ [a]))) (length (blobs_of (done ++ [a]))) args = true.
Proof.
  rewrite strings_of_snoc, blobs_of_snoc, !length_app.
  destruct a; cbn [blobs_fit room]; simpl length; rewrite ?Nat.add_0_r, ?Nat.add_1_r; try done.
  rewrite andb_true_iff, orb_true_iff, Nat.eqb_eq, Nat.leb_le. done.
Qed.

Lemma message_bytes_prefix addr done args :
  zlen (message_bytes addr (done ++ args)) < 2 ^ 31 → zlen (message_bytes addr done) < 2 ^ 31.
Proof.
  revert done. induction args as [|a args IH]; intros done; [by rewrite app_nil_r|].
  rewrite cons_middle, app_assoc. intros H%IH. by apply message_bytes_snoc in H as [? _].
Qed.

(** The arguments still to come, added or read, end in the whole message. *)
Section remaining.
  Context (addr : list Z).

Lemma Add_all_spec args done :
    Forall arg_ok args →
    blobs_fit (length (strings_of done)) (length (blobs_of done)) args = true →
    zlen (message_bytes addr (done ++ args)) < 2 ^ 31 →
    Add_all args (message_of addr done) = Good (message_of addr (done ++ args)).
  Proof.
    revert done. induction args as [|a args IH]; intros done Ha Hb Hl; [by rewrite app_nil_r|].
    apply Forall_cons in Ha as [Ha Hr]. apply room_step in Hb as [Hroom Hb].
    rewrite (cons_middle a), (app_assoc done) in Hl. rewrite (cons_middle a), (app_assoc done). cbn [Add_all].
    rewrite (Add_spec addr done), ogood_bind by eauto using message_bytes_prefix, message_of_members.
    by apply IH.
  Qed.

Lemma scan_args_spec args done m r k :
    has_members addr done m → Forall arg_ok args →
    blobs_fit (length (strings_of done)) (length (blobs_of done)) args = true →
    zlen (message_bytes addr (done ++ args)) < 2 ^ 31 →
    ∃ m', scan_args ((arg_tag <$> args) ++ 0 :: r) ((args ≫= arg_bytes) ++ k) m = Good m'
          ∧ has_members addr (done ++ args) m'.
  Proof.
    revert done m. induction args as [|a args IH]; intros done m Hm Ha Hb Hl.
    - rewrite app_nil_r. by exists m.
    - apply Forall_cons in Ha as [Ha Hr]. apply room_step in Hb as [Hroom Hb].
      rewrite (cons_middle a), (app_assoc done) in Hl. rewrite (cons_middle a), (app_assoc done). rewrite bind_cons, <-app_assoc. cbn [fmap list_fmap app].
      rewrite scan_args_cons, (scan_one_spec addr done), ogood_bind by eauto using message_bytes_prefix.
      apply IH; auto using message_of_members.
  Qed.
End remaining.

(** What may be sent: an address, arguments, and a length that fits an [int]. *)
Record sendable (addr : list Z) (args : list arg) : Prop := {
  sb_slash : head addr = Some c_slash;
  sb_addr : 0 ∉ addr;
  sb_args : Forall arg_ok args;
  sb_blobs : blobs_fit 0 0 args = true;
  sb_fits : zlen (message_bytes addr args) < 2 ^ 31;
}.

Definition build (addr : list Z) (args : list arg) : ores WOscMessage :=
  m ← new_message (Some (addr ++ [0])); Add_all args m.

Lemma head_app {A} (l k : list A) a : head l = Some a → head (l ++ k) = Some a.
Proof. by destruct l. Qed.

Lemma addr_fits addr args : zlen (message_bytes addr args) < 2 ^ 31 → zlen addr + 5 < 2 ^ 31.
Proof.
  intros H. rewrite message_bytes_len in H. pose proof (padz_bound addr) as [? _].
  pose proof (padz_min (tag_string args)). pose proof (zlen_nonneg (args ≫= arg_bytes)). lia.
Qed.

Lemma build_spec addr args : sendable addr args → build addr args = Good (message_of addr args).
Proof.
  intros [Hs H0 Ha Hb Hl]. unfold build, new_message. rewrite (head_app _ _ c_slash) by done.
  cbn [readable]. rewrite ogood_bind. change (negb (c_slash =? c_slash)) with false. cbv iota.
  rewrite WOscString_of_spec by eauto using addr_fits. rewrite ogood_bind.
  change (WOscString_of (literal ",")) with (Good (osc_string (tag_string []))). rewrite ogood_bind.
  rewrite (Generate_spec addr []), ogood_bind;
    [|by unfold has_members|by apply (message_bytes_prefix addr [] args)].
  by apply (Add_all_spec addr args []).
Qed.

Lemma parse_spec addr args k n :
  sendable addr args → zlen (message_bytes addr args) <= n →
  parse_message (message_bytes addr args ++ k) n = Good (message_of addr args).
Proof.
  intros [Hs H0 Ha Hb Hl] Hn. pose proof (addr_fits _ _ Hl) as Hf.
  pose proof (padz_min addr) as Hpa. pose proof (padz_min (tag_string args)) as Hpt.
  pose proof (zlen_nonneg (args ≫= arg_bytes)) as Hpb. pose proof (message_bytes_len addr args) as El.
  unfold parse_message, message_bytes. rewrite (proj2 (Z.ltb_ge n 1)) by lia.
  rewrite <-!app_assoc. rewrite (head_app _ _ c_slash) by by apply head_app.
  cbn [readable]. rewrite ogood_bind. change (negb (c_slash =? c_slash)) with false. cbv iota.
  rewrite WOscString_of_padz by done. rewrite ogood_bind.
  change (WOscString_of (literal ",")) with (Good (osc_string (tag_string []))). rewrite ogood_bind, GetSize_spec.
  rewrite (proj2 (Z.leb_gt n _)) by lia. rewrite drop_zlen.
  pose proof (padz_bound (tag_string args)) as [? _].
  rewrite WOscString_of_padz, ogood_bind by (apply tag_string_nonzero || lia).
  cbn [osc_string ws_buffer readable]. rewrite ogood_bind. fold (osc_string (tag_string args)). rewrite GetSize_spec.
  rewrite wrap32_fits, <-zlen_app, app_assoc, drop_zlen by lia.
  destruct (padz_zero (tag_string args)) as [r ->]. cbn [tag_string app scan_args].
  change (classify c_comma) with TComma. cbv iota beta.
  destruct (scan_args_spec addr args [] (bare_message (osc_string addr) (osc_string (tag_string [])))
    (replicate r 0) k) as (m' & Em & Hm); [by unfold has_members|done..|].
  rewrite Em, ogood_bind. by apply Generate_spec.
Qed.

(** ** Typing *)

Definition count (c : Z) (tags : list Z) : nat := length (filter (λ d, d = c) tags).

(** The type tag is a comma and a letter per argument, and each array holds as
    many arguments as its letter occurs. *)
Definition typed_by (tags : list Z) (m : WOscMessage) : Prop :=
  wm_typeTag m = osc_string (c_comma :: tags)
  ∧ Forall (λ c, c ∈ [c_int; c_float; c_string; c_blob]) tags
  ∧ length (wm_ints m) = count c_int tags ∧ length (wm_floats m) = count c_float tags
  ∧ length (wm_strings m) = count c_string tags ∧ length (wm_blobs m) = count c_blob tags.

Lemma Generate_members m m' :
  GenerateBufferFromMembers m = Good m' →
  wm_typeTag m' = wm_typeTag m ∧ wm_ints m' = wm_ints m ∧ wm_floats m' = wm_floats m
  ∧ wm_strings m' = wm_strings m ∧ wm_blobs m' = wm_blobs m.
Proof. intros H. unfold GenerateBufferFromMembers in H. inv_ores; try done. Qed.

Lemma typed_generate tags m m' : typed_by tags m → GenerateBufferFromMembers m = Good m' → typed_by tags m'.
Proof.
  intros (Ht & Hl & Hi & Hf & Hs & Hb) H%Generate_members. destruct H as (E1 & E2 & E3 & E4 & E5).
  unfold typed_by. by rewrite E1, E2, E3, E4, E5.
Qed.

Lemma count_snoc c tags d : count c (tags ++ [d]) = (count c tags + count c [d])%nat.
Proof. unfold count. by rewrite filter_app, length_app. Qed.

Ltac count_lia :=
  rewrite ?length_app;
  repeat match goal with |- context [count ?a [?b]] =>
    let v := eval vm_compute in (count a [b]) in change (count a [b]) with v end;
  simpl; lia.

Section typing.
  Context (tags : list Z) (m : WOscMessage).
  Hypothesis Hm : typed_by tags m.
  Hypothesis Hl : zlen tags + 8 < 2 ^ 31.

Lemma typed_tag c :
    c ∈ [c_int; c_float; c_string; c_blob] →
    string_append_char (wm_typeTag m) c = Good (osc_string (c_comma :: tags ++ [c])).
  Proof.
    intros Hc. destruct Hm as (-> & Hall & _).
    apply (string_append_char_spec (c_comma :: tags)); [|set_solver|rewrite zlen_cons; lia].
    rewrite elem_of_cons. intros [?|Hx]; [done|]. rewrite Forall_forall in Hall. by apply Hall in Hx; set_solver.
  Qed.

  (** One more argument of the right type in its array. *)
Lemma typed_more c floats ints strings blobs m' :
    c ∈ [c_int; c_float; c_string; c_blob] →
    length ints = (count c_int tags + count c_int [c])%nat →
    length floats = (count c_float tags + count c_float [c])%nat →
    length strings = (count c_string tags + count c_string [c])%nat →
    length blobs = (count c_blob tags + count c_blob [c])%nat →
    GenerateBufferFromMembers (with_members (osc_string (c_comma :: tags ++ [c])) floats ints strings blobs m)
      = Good m' →
    typed_by (tags ++ [c]) m'.
  Proof.
    intros Hc Hi Hf Hs Hb H. eapply typed_generate, H. unfold typed_by. rewrite !count_snoc. simpl.
    split_and!; [done| |done..]. apply Forall_app. destruct Hm as (_ & ? & _). by rewrite Forall_singleton.
  Qed.

Lemma typed_Add_int i m' : Add_int i m = Good m' → typed_by (tags ++ [c_int]) m'.
  Proof.
    intros H. unfold Add_int in H. rewrite typed_tag, ogood_bind in H by set_solver.
    destruct Hm as (_ & _ & ? & ? & ? & ?). eapply typed_more, H; first [set_solver|count_lia].
  Qed.
Lemma typed_Add_float f m' : Add_float f m = Good m' → typed_by (tags ++ [c_float]) m'.
  Proof.
    intros H. unfold Add_float in H. rewrite typed_tag, ogood_bind in H by set_solver.
    destruct Hm as (_ & _ & ? & ? & ? & ?). eapply typed_more, H; first [set_solver|count_lia].
  Qed.
Lemma typed_Add_cstr s m' : Add_cstr s m = Good m' → typed_by (tags ++ [c_string]) m'.
  Proof.
    intros H. unfold Add_cstr in H. rewrite typed_tag, ogood_bind in H by set_solver.
    apply ores_bind_Good in H as (t & _ & H).
    destruct Hm as (_ & _ & ? & ? & ? & ?). eapply typed_more, H; first [set_solver|count_lia].
  Qed.
Lemma typed_Add_blob b m' : Add_blob b m = Good m' → typed_by (tags ++ [c_blob]) m'.
  Proof.
    intros H. unfold Add_blob in H. rewrite typed_tag, ogood_bind in H by set_solver.
    apply ores_bind_Good in H as (t & _ & H). case_match; [|done].
    destruct Hm as (_ & _ & ? & ? & ? & ?). eapply typed_more, H; first [set_solver|count_lia].
  Qed.
End typing.

Lemma typed_scan more tags buf m m' :
  typed_by tags m → zlen tags + zlen more + 8 < 2 ^ 31 → scan_args more buf m = Good m' →
  ∃ tags', typed_by tags' m' ∧ zlen tags' + 8 < 2 ^ 31.
Proof.
  revert tags buf m. induction more as [|c more IH]; intros tags buf m Hm Hl H.
  { simpl in H. inv_ores. exists tags. split; [done|]. unfold zlen in *. simpl in *. lia. }
  rewrite zlen_cons in Hl. pose proof (zlen_nonneg more). cbn [scan_args] in H.
  assert (Hl' : ∀ d, zlen (tags ++ [d]) + zlen more + 8 < 2 ^ 31)
    by (intros d; rewrite zlen_app; change (zlen [d]) with 1; lia).
  assert (Hl0 : zlen tags + 8 < 2 ^ 31) by lia.
  destruct (classify c); inv_ores;
    eauto 6 using typed_Add_int, typed_Add_float, typed_Add_cstr, typed_Add_blob with lia.
Qed.

Lemma zlen_take_le n (l : list Z) : zlen (take n l) <= zlen l.
Proof. unfold zlen. rewrite length_take. lia. Qed.
Lemma cstr_prefix mem s : cstr mem = Some s → zlen s + 1 <= zlen mem.
Proof.
  revert s. induction mem as [|b mem IH]; intros s H; simpl in H; [done|].
  rewrite zlen_cons. case_match; [simplify_eq; pose proof (zlen_nonneg mem); unfold zlen; simpl; lia|].
  apply fmap_Some in H as (t & Ht & ->). apply IH in Ht. rewrite zlen_cons. lia.
Qed.

(** ** Properties *)

Lemma mod4_add a b : a mod 4 = 0 → b mod 4 = 0 → (a + b) mod 4 = 0.
Proof. intros Ha Hb. by rewrite Z.add_mod, Ha, Hb. Qed.
Lemma args_len_mod args : zlen (args ≫= arg_bytes) mod 4 = 0.
Proof.
  induction args as [|a args IH]; [done|]. rewrite bind_cons, zlen_app.
  apply mod4_add; [apply arg_bytes_len|done].
Qed.
Lemma message_len_mod addr args : zlen (message_bytes addr args) mod 4 = 0.
Proof. rewrite message_bytes_len. repeat apply mod4_add; apply padz_bound || apply args_len_mod. Qed.

(** Whatever bytes are received, a message the parser returns is well typed:
    its type tag is a comma followed by one letter per argument, and each of the
    four argument arrays holds exactly as many arguments as its letter occurs,
    so that [GetInt] and its kin find an argument at every index below that
    number. *)
Theorem parsed_message_typed (buffer : list Z) (bufferLen : Z) (m : WOscMessage) :
  zlen buffer + 20 < 2 ^ 31 → parse_message buffer bufferLen = Good m →
  ∃ tags, typed_by tags m
          ∧ ∀ idx, 0 <= idx < Z.of_nat (count c_int tags) → ∃ i, GetInt idx m = Good i.
Proof.
  intros Hl H. assert (Ht : ∃ tags, typed_by tags m).
  2: { destruct Ht as [tags Ht]. exists tags. split; [done|]. intros idx Hi. destruct Ht as (_ & _ & En & _).
       unfold GetInt, get_arg, zlen. rewrite Z.gtb_ltb, !(proj2 (Z.ltb_ge _ _)) by lia.
       destruct (lookup_lt_is_Some_2 (wm_ints m) (Z.to_nat idx)) as [i Hi']; [lia|]. exists i. by rewrite Hi'. }
  unfold parse_message in H. inv_ores.
  all: assert (Hbare : ∀ a, typed_by [] (bare_message a (osc_string [c_comma]))) by (intros a; by unfold typed_by).
  all: match goal with H : WOscString_of (literal _) = Good ?t |- _ =>
         vm_compute in H; injection H as <- end.
  - exists []. eapply typed_generate; [apply Hbare|done].
  - match goal with H : WOscString_of (drop _ _) = Good _ |- _ => unfold WOscString_of in H; inv_ores end.
    match goal with H : cstr (drop ?n _) = Some ?s |- _ => pose proof (cstr_prefix _ _ H) as Hc;
      assert (zlen (drop n buffer) <= zlen buffer) by (unfold zlen; rewrite length_drop; lia) end.
    simplify_eq/=.
    match goal with H : scan_args (PadStringWithZeros ?s) _ _ = _ |- _ =>
      assert (zlen (PadStringWithZeros s) <= zlen s + 5) end.
    { unfold PadStringWithZeros. rewrite !zlen_app, zlen_cons. unfold zlen at 2 3. rewrite length_replicate.
      unfold GetStringSizeAligned. simpl.
      match goal with H : zlen ?s + 1 <= _ |- _ => pose proof (zlen_nonneg s); rewrite (aligned (zlen s + 1)) by lia;
        pose proof (Z.div_mod (zlen s + 1 + 3) 4); pose proof (Z.mod_pos_bound (zlen s + 1 + 3) 4) end. lia. }
    match goal with H : scan_args _ _ _ = Good _ |- _ =>
      apply (typed_scan _ []) in H as (tags & Ht & _); [|apply Hbare|change (zlen []) with 0; lia] end.
    exists tags. by eapply typed_generate.
Qed.

(** "/a" with the tag ",ii". *)
Definition sample_packet : list Z :=
  [47; 97; 0; 0; 44; 105; 105; 0; 0; 0; 0; 7; 255; 255; 255; 255].
Definition or_empty (r : ores WOscMessage) : WOscMessage :=
  match r with Good m => m | _ => bare_message empty_string empty_string end.
Lemma parsed_message_typed_witness :
  ∃ tags, typed_by tags (or_empty (parse_message sample_packet 16))
          ∧ ∀ idx, 0 <= idx < Z.of_nat (count c_int tags)
                   → ∃ i, GetInt idx (or_empty (parse_message sample_packet 16)) = Good i.
Proof. apply (parsed_message_typed sample_packet 16); [vm_compute; reflexivity|vm_compute; reflexivity]. Defined.

(** Every argument is found by the getter of its type, under its number among
    the arguments of that type, and there are no others. *)
Definition reads_back (args : list arg) (m : WOscMessage) : Prop :=
  (∀ k x, ints_of args !! k = Some x → GetInt (Z.of_nat k) m = Good x)
  ∧ (∀ k x, floats_of args !! k = Some x → GetFloat (Z.of_nat k) m = Good x)
  ∧ (∀ k x, strings_of args !! k = Some x → GetString (Z.of_nat k) m = Good x)
  ∧ (∀ k x, blobs_of args !! k = Some x → GetBlob (Z.of_nat k) m = Good x)
  ∧ GetNumInts m = zlen (ints_of args) ∧ GetNumFloats m = zlen (floats_of args)
  ∧ GetNumStrings m = zlen (strings_of args) ∧ GetNumBlobs m = zlen (blobs_of args).
Lemma get_arg_lookup {A} (l : list A) k x : l !! k = Some x → get_arg (Z.of_nat k) l = Good x.
Proof.
  intros H. pose proof (lookup_lt_Some _ _ _ H). unfold get_arg, zlen.
  by rewrite Z.gtb_ltb, !(proj2 (Z.ltb_ge _ _)), Nat2Z.id, H by lia.
Qed.
Lemma message_of_reads addr args : reads_back args (message_of addr args).
Proof. repeat split; intros; by apply get_arg_lookup. Qed.

(** C34: a message built from an address and arguments (ints, floats, strings and
    blobs; a further blob only where there are strings enough for the array the
    code allocates) by the constructor and [Add] has exactly the binary form of
    the OSC specification, of the length [GetBufferLen] announces, a multiple of
    four; reading those bytes, wherever they stand in a larger buffer, gives back
    the same message, from which [GetInt], [GetFloat], [GetString] and [GetBlob]
    get every argument; copying it gives the same message again. *)
Theorem message_roundtrip (addr : list Z) (args : list arg) (rest : list Z) :
  sendable addr args →
  ∃ m, build addr args = Good m
    ∧ wm_buffer m = message_bytes addr args
    ∧ message_GetBufferLen m = zlen (wm_buffer m) ∧ message_GetBufferLen m mod 4 = 0
    ∧ parse_message (wm_buffer m ++ rest) (message_GetBufferLen m) = Good m
    ∧ reads_back args m
    ∧ message_copy m = Good m.
Proof.
  intros Hs. exists (message_of addr args). split_and!; [by apply build_spec|done..| | |apply message_of_reads|].
  - change (message_GetBufferLen (message_of addr args)) with (zlen (message_bytes addr args)).
    apply message_len_mod.
  - apply parse_spec; [done|]. apply Z.le_refl.
  - unfold message_copy, message_of. cbn [wm_address wm_typeTag wm_strings wm_blobs wm_bufferLen wm_buffer].
    rewrite !string_assign_spec, !ogood_bind.
    assert (E1 : map_ores string_assign (strings_of args) = Good (strings_of args)).
    { clear. induction args as [|[] args IH]; try done. simpl. rewrite string_assign_spec, ogood_bind.
      by rewrite IH. }
    assert (E2 : map_ores blob_copy (blobs_of args) = Good (blobs_of args)).
    { clear. induction args as [|[] args IH]; try done. simpl. rewrite blob_copy_spec, ogood_bind.
      by rewrite IH. }
    rewrite E1, ogood_bind, E2, ogood_bind. pose proof (zlen_nonneg (args ≫= arg_bytes)).
    pose proof (padz_min addr). pose proof (padz_min (tag_string args)).
    rewrite (proj2 (Z.ltb_lt 0 _)) by (rewrite message_bytes_len; lia). by rewrite read_n_all.
Qed.

Definition sample_addr : list Z := bytes_of "/tuio/2Dcur".
Definition sample_args : list arg :=
  [AString (bytes_of "set"); AInt (-3); AFloat 1056964608; ABlob [1; 0; 2; 0; 3]; AInt 7].
Lemma sample_sendable : sendable sample_addr sample_args.
Proof.
  split; [reflexivity| | |reflexivity|vm_compute; reflexivity].
  - by apply (bool_decide_unpack _).
  - repeat constructor; [by apply (bool_decide_unpack _)|lia..].
Qed.
Lemma message_roundtrip_witness :
  sendable sample_addr sample_args
  ∧ parse_message (message_bytes sample_addr sample_args ++ [1; 2]) 60 = build sample_addr sample_args
  ∧ zlen (message_bytes sample_addr sample_args) = 48.
Proof.
  split; [exact sample_sendable|].
  destruct (message_roundtrip sample_addr sample_args [1; 2] sample_sendable) as (m & Hb & _).
  split; [rewrite Hb; revert Hb; vm_compute; congruence|reflexivity].
Defined.

(** Adding a second blob to a message with fewer than two strings writes past
    the end of the array that holds the blobs. *)
Lemma second_blob_overflows addr args d m :
  has_members addr args m → zlen (message_bytes addr (args ++ [ABlob d])) < 2 ^ 31 →
  (0 < length (blobs_of args))%nat → (length (strings_of args) < S (length (blobs_of args)))%nat →
  Add_blob (osc_blob d) m = Crash FBadAccess.
Proof.
  intros Hm Hl Hb Hs. unfold Add_blob. change c_blob with (arg_tag (ABlob d)).
  rewrite (append_tag addr args) by done. rewrite ogood_bind, blob_copy_spec, ogood_bind.
  destruct Hm as (_ & _ & _ & _ & -> & ->). rewrite bool_decide_false by (by intros E; rewrite E in Hb; inversion Hb).
  unfold zlen. rewrite length_app. simpl. by rewrite (proj2 (Z.leb_gt _ _)) by lia.
Qed.
