(* ===== verification/OscBundle.v ===== *)
(** OSC bundles: src/contrib/WOscLib-00.09/WOscBundle.cpp, their binary form
    and reading it back.  [m_buffer] is a cache every [GetBuffer] rebuilds and
    is not part of the object. *)
From S2P Require Import Prelude Numeric OscData OscMessage OscCodec.
#[local] Open Scope Z_scope.

(** The time tag comes from the base class WOscQueueItem. *)
Inductive WOscBundle := Bundle (timeTag : Z) (messages : list WOscMessage) (bundles : list WOscBundle).

Definition b_timeTag (b : WOscBundle) : Z := let 'Bundle t _ _ := b in t.
Definition b_messages (b : WOscBundle) : list WOscMessage := let 'Bundle _ ms _ := b in ms.
Definition b_bundles (b : WOscBundle) : list WOscBundle := let 'Bundle _ _ bs := b in bs.

Definition BUNDLE_HEADER_SIZE : Z := 8.
Definition SIZE_SIZE : Z := 4.
Definition END_OF_BUFFER : Z := -1.
Definition WOSC_BUNDLE_TAG : list Z := literal "#bundle".
Definition c_hash : Z := 35.

(** ** Building *)

(** [WOscBundle()] and [WOscBundle(timeTag)]. *)
Definition new_bundle_at (timeTag : Z) : WOscBundle := Bundle timeTag [] [].
Definition new_bundle : WOscBundle := new_bundle_at GetImmediateTime.

Definition Add_bundle (c : WOscBundle) (b : WOscBundle) : WOscBundle :=
  let 'Bundle t ms bs := b in Bundle t ms (bs ++ [c]).
Definition Add_message (m : WOscMessage) (b : WOscBundle) : WOscBundle :=
  let 'Bundle t ms bs := b in Bundle t (ms ++ [m]) bs.

Definition GetNumMessages (b : WOscBundle) : Z := zlen (b_messages b).
Definition GetNumBundles (b : WOscBundle) : Z := zlen (b_bundles b).

(** The two copying loops of [RemoveMessage] and [RemoveBundle]. *)
Definition remove_at {A} (idx : Z) (l : list A) : ores (list A) :=
  if (idx >=? zlen l) || (zlen l =? 0) || (idx <? 0) then Throw ERR_INVALID_INDEX
  else Good (take (Z.to_nat idx) l ++ drop (Z.to_nat (idx + 1)) l).
Definition RemoveMessage (idx : Z) (b : WOscBundle) : ores WOscBundle :=
  let 'Bundle t ms bs := b in ms ← remove_at idx ms; Good (Bundle t ms bs).
Definition RemoveBundle (idx : Z) (b : WOscBundle) : ores WOscBundle :=
  let 'Bundle t ms bs := b in bs ← remove_at idx bs; Good (Bundle t ms bs).

Definition GetMessage (idx : Z) (b : WOscBundle) : ores (WOscMessage * WOscBundle) :=
  if (idx <? 0) || (idx >=? GetNumMessages b) then Throw ERR_INVALID_INDEX
  else m ← readable (b_messages b !! Z.to_nat idx); b ← RemoveMessage idx b; Good (m, b).
Definition GetBundle (idx : Z) (b : WOscBundle) : ores (WOscBundle * WOscBundle) :=
  if (idx <? 0) || (idx >=? GetNumBundles b) then Throw ERR_INVALID_INDEX
  else c ← readable (b_bundles b !! Z.to_nat idx); b ← RemoveBundle idx b; Good (c, b).

(** ** The binary form *)

Fixpoint bundle_GetBufferLen (b : WOscBundle) : Z :=
  let 'Bundle _ ms bs := b in
  let n := foldl (λ n m, wrap32 (n + (SIZE_SIZE + message_GetBufferLen m)))
             (BUNDLE_HEADER_SIZE + TIME_TAG_SIZE) ms in
  foldl (λ n c, wrap32 (n + (SIZE_SIZE + bundle_GetBufferLen c))) n bs.

(** A size and an element of that size, copied to the write pointer. *)
Definition put_element (cap size : Z) (temp out : list Z) : ores (list Z) :=
  out ← put cap out (WriteBuffer size);
  l ← readable (read_n size temp);
  put cap out l.

Fixpoint put_messages (cap : Z) (ms : list WOscMessage) (out : list Z) : ores (list Z) :=
  match ms with
  | [] => Good out
  | m :: ms => out ← put_element cap (message_GetBufferLen m) (wm_buffer m) out; put_messages cap ms out
  end.

(** [GenerateBufferFromElements], the content of [m_buffer]; the elements are
    generated by their own [GetBuffer]. *)
Fixpoint GenerateBufferFromElements (b : WOscBundle) : ores (list Z) :=
  let 'Bundle t ms bs := b in
  let cap := bundle_GetBufferLen b in
  new_chars cap;;
  out ← put cap [] WOSC_BUNDLE_TAG;
  out ← put cap out (WriteToCharArray t);
  out ← put_messages cap ms out;
  (fix put_bundles bs out :=
     match bs with
     | [] => Good out
     | c :: bs =>
         temp ← GenerateBufferFromElements c;
         out ← put_element cap (bundle_GetBufferLen c) temp out;
         put_bundles bs out
     end) bs out.

(** [GetBuffer(buffer, bufferLen)]. *)
Definition bundle_GetBuffer (bufferLen : Z) (b : WOscBundle) : ores (list Z) :=
  l ← GenerateBufferFromElements b;
  if bundle_GetBufferLen b >? bufferLen then Throw ERR_BUFFER_TO_SMALL
  else readable (read_n (bundle_GetBufferLen b) l).

(** ** Reading a bundle *)

(** [rawData + pos]; a position before the buffer cannot be read. *)
Definition at_pos (pos : Z) (raw : list Z) : list Z :=
  if pos <? 0 then [] else drop (Z.to_nat pos) raw.

(** [CheckSize]; the sums are those of [int]. *)
Definition CheckSize (relReadPos dataLen : Z) (rawData : list Z) : ores Z :=
  if relReadPos =? dataLen then Good END_OF_BUFFER
  else if wrap32 (relReadPos + SIZE_SIZE) >? dataLen then Throw ERR_CORRUPT_BUNDLE_INITIALIZATION_DATA
  else
    elementSize ← CharBufToInt (at_pos relReadPos rawData);
    if (wrap32 (wrap32 (SIZE_SIZE + elementSize) + relReadPos) >? dataLen) || (elementSize <? 0)
    then Throw ERR_CORRUPT_BUNDLE_INITIALIZATION_DATA
    else Good elementSize.

(** [strcmp(raw, lit) == 0] for a literal with its zero. *)
Fixpoint strcmp_eq (raw lit : list Z) {struct lit} : ores bool :=
  match lit with
  | [] => Good true
  | c :: lit =>
      match raw with
      | [] => Crash FBadAccess
      | b :: raw => if b =? c then strcmp_eq raw lit else Good false
      end
  end.

(** The element loop; [sub] reads a bundle inside the bundle.  [None]: out of
    fuel. *)
Fixpoint parse_elements (sub : list Z → Z → option (ores WOscBundle)) (fuel : nat)
    (rawData : list Z) (dataLen relReadPos : Z) (b : WOscBundle) : option (ores WOscBundle) :=
  match CheckSize relReadPos dataLen rawData with
  | Throw e => Some (Throw e)
  | Crash f => Some (Crash f)
  | Good elementSize =>
      if elementSize =? END_OF_BUFFER then Some (Good b)
      else
        match fuel with
        | O => None
        | S fuel =>
            let element := at_pos (wrap32 (relReadPos + SIZE_SIZE)) rawData in
            let next := wrap32 (relReadPos + wrap32 (elementSize + SIZE_SIZE)) in
            match head element with
            | None => Some (Crash FBadAccess)
            | Some c =>
                if c =? c_hash then
                  match sub element elementSize with
                  | None => None
                  | Some (Good tmp) => parse_elements sub fuel rawData dataLen next (Add_bundle tmp b)
                  | Some (Throw e) => Some (Throw e)
                  | Some (Crash f) => Some (Crash f)
                  end
                else
                  match parse_message element elementSize with
                  | Good tmp => parse_elements sub fuel rawData dataLen next (Add_message tmp b)
                  | Throw e => Some (Throw e)
                  | Crash f => Some (Crash f)
                  end
            end
        end
  end.

(** The two [catch] clauses: a WOscException is thrown again, any other
    exception becomes one. *)
Definition catch (r : ores WOscBundle) : ores WOscBundle :=
  match r with
  | Throw BAD_ALLOC => Throw ERR_UNKN_EXC_DURING_INITBUNDLE_FROM_BUF
  | r => r
  end.

(** [WOscBundle(rawData, dataLen, ra)]; the fuel is the depth of nesting. *)
Fixpoint parse_bundle (fuel : nat) (rawData : list Z) (dataLen : Z) : option (ores WOscBundle) :=
  match fuel with
  | O => None
  | S fuel =>
      if dataLen <? BUNDLE_HEADER_SIZE + TIME_TAG_SIZE then Some (Throw ERR_TOO_FEW_BUNDLE_INITIALIZERS)
      else
        match strcmp_eq rawData WOSC_BUNDLE_TAG with
        | Good false => Some (Throw ERR_INVALID_BUNDLE_TAG)
        | Good true =>
            match InitFromCharArray (at_pos BUNDLE_HEADER_SIZE rawData) with
            | Good t =>
                if dataLen =? BUNDLE_HEADER_SIZE + TIME_TAG_SIZE then Some (Good (new_bundle_at t))
                else
                  catch <$> parse_elements (parse_bundle fuel) (length rawData) rawData dataLen
                              (BUNDLE_HEADER_SIZE + TIME_TAG_SIZE) (new_bundle_at t)
            | Throw e => Some (Throw e)
            | Crash f => Some (Crash f)
            end
        | Throw e => Some (Throw e)
        | Crash f => Some (Crash f)
        end
  end.

(** ** The reference form *)

Definition sized (l : list Z) : list Z := be_bytes 4 (zlen l) ++ l.
Fixpoint bundle_bytes (b : WOscBundle) : list Z :=
  let 'Bundle t ms bs := b in
  literal "#bundle" ++ be_bytes 8 t ++ concat ((λ m, sized (wm_buffer m)) <$> ms)
  ++ concat ((λ c, sized (bundle_bytes c)) <$> bs).

(** A message with an OSC address and arguments and its binary form. *)
Definition message_ok (m : WOscMessage) : Prop :=
  ∃ addr args, m = message_of addr args ∧ sendable addr args.
Inductive bundle_ok : WOscBundle → Prop :=
  bundle_ok_intro t ms bs :
    0 <= t < 2 ^ 64 → Forall message_ok ms → Forall bundle_ok bs → bundle_ok (Bundle t ms bs).

(** The elements of a bundle, each preceded by its size. *)
Definition elements {A} (g : A → list Z) (l : list A) : list Z := concat ((λ a, sized (g a)) <$> l).

Lemma WOscBundle_nested_ind (P : WOscBundle → Prop) :
  (∀ t ms bs, Forall P bs → P (Bundle t ms bs)) → ∀ b, P b.
Proof.
  intros H. fix IH 1. intros [t ms bs]. apply H.
  induction bs as [|b bs IHbs]; constructor; [apply IH|exact IHbs].
Qed.

Lemma bundle_bytes_eq t ms bs :
  bundle_bytes (Bundle t ms bs)
  = literal "#bundle" ++ be_bytes 8 t ++ elements wm_buffer ms ++ elements bundle_bytes bs.
Proof. reflexivity. Qed.

Lemma zlen_sized l : zlen (sized l) = 4 + zlen l.
Proof. unfold sized. rewrite zlen_app. unfold zlen at 1. by rewrite length_be_bytes. Qed.
Lemma elements_cons {A} (g : A → list Z) a l : elements g (a :: l) = sized (g a) ++ elements g l.
Proof. done. Qed.
Lemma elements_snoc {A} (g : A → list Z) a l : elements g (l ++ [a]) = elements g l ++ sized (g a).
Proof. unfold elements. rewrite fmap_app, concat_app. simpl. by rewrite app_nil_r. Qed.
Lemma zlen_bundle t ms bs :
  zlen (bundle_bytes (Bundle t ms bs)) = 16 + zlen (elements wm_buffer ms) + zlen (elements bundle_bytes bs).
Proof.
  rewrite bundle_bytes_eq, !zlen_app. unfold zlen at 1 2. rewrite length_be_bytes.
  change (length (literal "#bundle")) with 8%nat. lia.
Qed.

(** Both length loops add up the sizes. *)
Lemma foldl_sizes {A} (f : A → Z) (g : A → list Z) l n :
  0 <= n → n + zlen (elements g l) < 2 ^ 31 → Forall (λ a, f a = zlen (g a)) l →
  foldl (λ n a, wrap32 (n + (SIZE_SIZE + f a))) n l = n + zlen (elements g l).
Proof.
  revert n. induction l as [|a l IH]; intros n H0 Hl Hf.
  { cbn. unfold zlen. simpl. lia. }
  apply Forall_cons in Hf as [Ha Hf]. rewrite elements_cons, zlen_app, zlen_sized in *.
  pose proof (zlen_nonneg (g a)). pose proof (zlen_nonneg (elements g l)).
  cbn [foldl]. rewrite Ha. unfold SIZE_SIZE at 2. rewrite wrap32_fits by lia. rewrite IH by (done || lia). lia.
Qed.

Lemma message_ok_len m : message_ok m → message_GetBufferLen m = zlen (wm_buffer m).
Proof. by intros (addr & args & -> & _). Qed.

(** A part is no longer than the whole. *)
Lemma elements_part {A} (g : A → list Z) l : Forall (λ a, zlen (g a) + 4 <= zlen (elements g l)) l.
Proof.
  induction l as [|a l IH]; [done|]. rewrite elements_cons, zlen_app, zlen_sized.
  pose proof (zlen_nonneg (elements g l)). pose proof (zlen_nonneg (g a)).
  constructor; [lia|]. eapply Forall_impl; [exact IH|]. simpl. lia.
Qed.

Lemma GetBufferLen_spec b :
  bundle_ok b → zlen (bundle_bytes b) < 2 ^ 31 → bundle_GetBufferLen b = zlen (bundle_bytes b).
Proof.
  induction b as [t ms bs IH] using WOscBundle_nested_ind. intros Hok Hl.
  inversion_clear Hok as [? ? ? _ Hms Hbs]. rewrite zlen_bundle in *.
  pose proof (zlen_nonneg (elements wm_buffer ms)). pose proof (zlen_nonneg (elements bundle_bytes bs)).
  cbn [bundle_GetBufferLen].
  rewrite (foldl_sizes message_GetBufferLen wm_buffer);
    [|done|unfold BUNDLE_HEADER_SIZE, TIME_TAG_SIZE; lia|eapply Forall_impl; [exact Hms|apply message_ok_len]].
  unfold BUNDLE_HEADER_SIZE, TIME_TAG_SIZE. rewrite (foldl_sizes bundle_GetBufferLen bundle_bytes); [lia..|].
  pose proof (elements_part bundle_bytes bs) as Hp. rewrite Forall_forall in *.
  intros c Hc. apply IH; [done|auto|]. specialize (Hp c Hc). lia.
Qed.

Lemma put_element_spec cap l out :
  zlen out + zlen (sized l) <= cap → put_element cap (zlen l) l out = Good (out ++ sized l).
Proof.
  intros H. rewrite zlen_sized in H. pose proof (zlen_nonneg l). unfold put_element.
  assert (E : zlen (WriteBuffer (zlen l)) = 4) by done.
  rewrite put_ok, ogood_bind by lia. rewrite read_n_all. cbn [readable].
  rewrite ogood_bind, put_ok by (rewrite zlen_app; lia). by rewrite <-app_assoc.
Qed.

Lemma put_messages_spec cap ms out :
  Forall message_ok ms → zlen out + zlen (elements wm_buffer ms) <= cap →
  put_messages cap ms out = Good (out ++ elements wm_buffer ms).
Proof.
  revert out. induction ms as [|m ms IH]; intros out Hok H; [simpl; by rewrite app_nil_r|].
  apply Forall_cons in Hok as [Hm Hok]. rewrite elements_cons, zlen_app in *.
  pose proof (zlen_nonneg (elements wm_buffer ms)). cbn [put_messages]. rewrite message_ok_len by done.
  rewrite put_element_spec, ogood_bind by lia. rewrite IH by (done || (rewrite zlen_app; lia)).
  by rewrite <-app_assoc.
Qed.

Definition put_bundles (cap : Z) : list WOscBundle → list Z → ores (list Z) :=
  fix put_bundles bs out :=
    match bs with
    | [] => Good out
    | c :: bs =>
        temp ← GenerateBufferFromElements c;
        out ← put_element cap (bundle_GetBufferLen c) temp out;
        put_bundles bs out
    end.

Lemma put_bundles_spec cap bs out :
  Forall (λ c, GenerateBufferFromElements c = Good (bundle_bytes c)
               ∧ bundle_GetBufferLen c = zlen (bundle_bytes c)) bs →
  zlen out + zlen (elements bundle_bytes bs) <= cap →
  put_bundles cap bs out = Good (out ++ elements bundle_bytes bs).
Proof.
  revert out. induction bs as [|c bs IH]; intros out Hok H; [simpl; by rewrite app_nil_r|].
  apply Forall_cons in Hok as [[Hc Hn] Hok]. rewrite elements_cons, zlen_app in *.
  pose proof (zlen_nonneg (elements bundle_bytes bs)). cbn [put_bundles]. rewrite Hc, ogood_bind, Hn.
  rewrite put_element_spec, ogood_bind by lia. rewrite IH by (done || (rewrite zlen_app; lia)).
  by rewrite <-app_assoc.
Qed.

Lemma Generate_bundle_spec b :
  bundle_ok b → zlen (bundle_bytes b) < 2 ^ 31 → GenerateBufferFromElements b = Good (bundle_bytes b).
Proof.
  induction b as [t ms bs IH] using WOscBundle_nested_ind. intros Hok Hl.
  pose proof (GetBufferLen_spec _ Hok Hl) as En. inversion_clear Hok as [? ? ? _ Hms Hbs].
  cbn [GenerateBufferFromElements]. rewrite En, new_chars_ok, ogood_bind by auto with movid.
  rewrite zlen_bundle in *. set (cap := 16 + _ + _).
  assert (E8 : zlen WOSC_BUNDLE_TAG = 8) by done.
  assert (E8' : zlen (WriteToCharArray t) = 8) by done.
  pose proof (zlen_nonneg (elements wm_buffer ms)). pose proof (zlen_nonneg (elements bundle_bytes bs)).
  rewrite put_ok, ogood_bind by (rewrite E8; unfold zlen; simpl; lia). rewrite app_nil_l.
  rewrite put_ok, ogood_bind by lia.
  rewrite put_messages_spec, ogood_bind by (done || (rewrite zlen_app; lia)).
  fold (put_bundles cap). rewrite put_bundles_spec.
  - by rewrite bundle_bytes_eq, <-!app_assoc.
  - pose proof (elements_part bundle_bytes bs) as Hp. rewrite Forall_forall in *.
    intros c Hc. specialize (Hp c Hc). split; [apply IH|apply GetBufferLen_spec]; auto; lia.
  - rewrite !zlen_app, E8, E8'. lia.
Qed.

(** ** Reading back *)

Lemma at_pos_zlen pre l : at_pos (zlen pre) (pre ++ l) = l.
Proof.
  unfold at_pos. rewrite (proj2 (Z.ltb_ge _ _)) by apply zlen_nonneg. apply drop_zlen.
Qed.

Lemma CheckSize_spec pre l post dataLen :
  zlen pre + zlen (sized l) <= dataLen → dataLen < 2 ^ 31 →
  CheckSize (zlen pre) dataLen (pre ++ sized l ++ post) = Good (zlen l).
Proof.
  intros Hn Hl. rewrite zlen_sized in Hn. pose proof (zlen_nonneg l). pose proof (zlen_nonneg pre).
  unfold CheckSize. rewrite (proj2 (Z.eqb_neq _ _)) by lia. unfold SIZE_SIZE. rewrite at_pos_zlen.
  rewrite !Z.gtb_ltb, wrap32_fits, (proj2 (Z.ltb_ge _ _)) by lia.
  unfold sized. rewrite <-app_assoc, CharBufToInt_write, ogood_bind, (wrap32_fits (zlen l)) by lia.
  rewrite !wrap32_fits by (rewrite ?wrap32_fits; lia).
  by rewrite Z.gtb_ltb, (proj2 (Z.ltb_ge _ _)), (proj2 (Z.ltb_ge (zlen l) 0)) by lia.
Qed.

(** One round of the element loop on an element of the right size. *)
Lemma parse_elements_step sub fuel pre l post dataLen b :
  zlen pre + zlen (sized l) <= dataLen → dataLen < 2 ^ 31 →
  parse_elements sub (S fuel) (pre ++ sized l ++ post) dataLen (zlen pre) b
  = match head (l ++ post) with
    | None => Some (Crash FBadAccess)
    | Some c =>
        let continue := parse_elements sub fuel (pre ++ sized l ++ post) dataLen (zlen (pre ++ sized l)) in
        if c =? c_hash then
          match sub (l ++ post) (zlen l) with
          | None => None
          | Some (Good tmp) => continue (Add_bundle tmp b)
          | Some (Throw e) => Some (Throw e)
          | Some (Crash f) => Some (Crash f)
          end
        else
          match parse_message (l ++ post) (zlen l) with
          | Good tmp => continue (Add_message tmp b)
          | Throw e => Some (Throw e)
          | Crash f => Some (Crash f)
          end
    end.
Proof.
  intros Hn Hl. cbn [parse_elements]. rewrite CheckSize_spec by done.
  rewrite zlen_sized in Hn. pose proof (zlen_nonneg l). pose proof (zlen_nonneg pre).
  rewrite (proj2 (Z.eqb_neq _ _)) by (unfold END_OF_BUFFER; lia).
  assert (E : at_pos (wrap32 (zlen pre + SIZE_SIZE)) (pre ++ sized l ++ post) = l ++ post).
  { unfold sized. rewrite wrap32_fits by (unfold SIZE_SIZE; lia).
    replace (zlen pre + SIZE_SIZE) with (zlen (pre ++ be_bytes 4 (zlen l))) by (rewrite zlen_app; done).
    rewrite <-app_assoc, (app_assoc pre). apply at_pos_zlen. }
  assert (En : wrap32 (zlen pre + wrap32 (zlen l + SIZE_SIZE)) = zlen (pre ++ sized l)).
  { rewrite zlen_app, zlen_sized. unfold SIZE_SIZE.
    rewrite (wrap32_fits (zlen l + 4)) by lia. rewrite wrap32_fits by lia. lia. }
  by rewrite E, En.
Qed.

Lemma parse_elements_end sub fuel raw dataLen b :
  parse_elements sub fuel raw dataLen dataLen b = Some (Good b).
Proof. destruct fuel; simpl; unfold CheckSize; by rewrite Z.eqb_refl. Qed.

Lemma message_head m post : message_ok m → head (wm_buffer m ++ post) = Some c_slash.
Proof.
  intros (addr & args & -> & [Hs _ _ _ _]). simpl. unfold message_bytes, padz.
  by apply head_app, head_app, head_app.
Qed.

Lemma parse_messages_spec sub fuel ms pre post dataLen t bs done :
  Forall message_ok ms → zlen pre + zlen (elements wm_buffer ms) <= dataLen → dataLen < 2 ^ 31 →
  parse_elements sub (length ms + fuel) (pre ++ elements wm_buffer ms ++ post) dataLen (zlen pre) (Bundle t done bs)
  = parse_elements sub fuel (pre ++ elements wm_buffer ms ++ post) dataLen
      (zlen (pre ++ elements wm_buffer ms)) (Bundle t (done ++ ms) bs).
Proof.
  revert pre done. induction ms as [|m ms IH]; intros pre done Hok Hn Hl; [by rewrite !app_nil_r|].
  apply Forall_cons in Hok as [Hm Hok]. rewrite elements_cons, zlen_app in Hn.
  pose proof (zlen_nonneg (elements wm_buffer ms)). rewrite elements_cons, <-app_assoc.
  cbn [length Nat.add]. rewrite parse_elements_step by lia.
  rewrite message_head by done. change (c_slash =? c_hash) with false. cbv zeta iota.
  assert (Ep : parse_message (wm_buffer m ++ elements wm_buffer ms ++ post) (zlen (wm_buffer m)) = Good m).
  { destruct Hm as (addr & args & -> & Hs). apply parse_spec; [done|]. apply Z.le_refl. }
  rewrite Ep. cbn [Add_message].
  rewrite (app_assoc pre). rewrite IH by (done || (rewrite zlen_app; lia)).
  by rewrite <-!app_assoc.
Qed.

Definition reads_back (b : WOscBundle) : Prop :=
  ∀ fuel post, (length (bundle_bytes b) ≤ fuel)%nat →
  parse_bundle fuel (bundle_bytes b ++ post) (zlen (bundle_bytes b)) = Some (Good b).

Lemma parse_bundles_spec depth fuel bs pre post dataLen t ms done :
  Forall (λ c, reads_back c ∧ length (bundle_bytes c) ≤ depth)%nat bs →
  zlen pre + zlen (elements bundle_bytes bs) <= dataLen → dataLen < 2 ^ 31 →
  parse_elements (parse_bundle depth) (length bs + fuel) (pre ++ elements bundle_bytes bs ++ post) dataLen
    (zlen pre) (Bundle t ms done)
  = parse_elements (parse_bundle depth) fuel (pre ++ elements bundle_bytes bs ++ post) dataLen
      (zlen (pre ++ elements bundle_bytes bs)) (Bundle t ms (done ++ bs)).
Proof.
  revert pre done. induction bs as [|c bs IH]; intros pre done Hok Hn Hl; [by rewrite !app_nil_r|].
  apply Forall_cons in Hok as [[Hc Hd] Hok]. rewrite elements_cons, zlen_app in Hn.
  pose proof (zlen_nonneg (elements bundle_bytes bs)). rewrite elements_cons, <-app_assoc.
  cbn [length Nat.add]. rewrite parse_elements_step by lia.
  assert (Eh : head (bundle_bytes c ++ elements bundle_bytes bs ++ post) = Some c_hash) by by destruct c.
  rewrite Eh. change (c_hash =? c_hash) with true. cbv zeta iota. rewrite Hc by done. cbn [Add_bundle].
  rewrite (app_assoc pre). rewrite IH by (done || (rewrite zlen_app; lia)).
  by rewrite <-!app_assoc.
Qed.

Lemma elements_count {A} (g : A → list Z) l : (length l ≤ length (elements g l))%nat.
Proof.
  induction l as [|a l IH]; [done|]. rewrite elements_cons, length_app. unfold sized.
  rewrite length_app, length_be_bytes. simpl. lia.
Qed.

Lemma strcmp_eq_app l k : strcmp_eq (l ++ k) l = Good true.
Proof. induction l as [|b l IH]; [done|]. simpl. by rewrite Z.eqb_refl. Qed.

Lemma parse_bundle_spec b :
  bundle_ok b → zlen (bundle_bytes b) < 2 ^ 31 → reads_back b.
Proof.
  induction b as [t ms bs IH] using WOscBundle_nested_ind. intros Hok Hl fuel post Hf.
  inversion_clear Hok as [? ? ? Ht Hms Hbs].
  pose proof (zlen_bundle t ms bs) as El. set (dataLen := zlen (bundle_bytes (Bundle t ms bs))) in *.
  pose proof (zlen_nonneg (elements wm_buffer ms)). pose proof (zlen_nonneg (elements bundle_bytes bs)).
  destruct fuel as [|fuel]; [unfold zlen in dataLen; lia|].
  cbn [parse_bundle]. change (BUNDLE_HEADER_SIZE + TIME_TAG_SIZE) with 16.
  rewrite (proj2 (Z.ltb_ge dataLen 16)) by lia.
  rewrite bundle_bytes_eq, <-!app_assoc. rewrite strcmp_eq_app.
  change BUNDLE_HEADER_SIZE with (zlen (literal "#bundle")). rewrite at_pos_zlen.
  rewrite (InitFromCharArray_write t) by done.
  set (hdr := literal "#bundle" ++ be_bytes 8 t). assert (Eh : zlen hdr = 16) by done.
  rewrite (app_assoc (literal _)). fold hdr. rewrite <-Eh.
  destruct (dataLen =? zlen hdr) eqn:Hz.
  { apply Z.eqb_eq in Hz.
    destruct ms as [|m ms]; [|rewrite elements_cons, zlen_app, zlen_sized in *;
      pose proof (zlen_nonneg (wm_buffer m)); pose proof (zlen_nonneg (elements wm_buffer ms)); lia].
    destruct bs as [|c bs]; [done|]. rewrite elements_cons, zlen_app, zlen_sized in *.
    pose proof (zlen_nonneg (bundle_bytes c)). pose proof (zlen_nonneg (elements bundle_bytes bs)). lia. }
  set (raw := hdr ++ _).
  assert (Hraw : (length ms + length bs ≤ length raw)%nat).
  { unfold raw. rewrite !length_app. pose proof (elements_count wm_buffer ms). pose proof (elements_count bundle_bytes bs). lia. }
  replace (length raw) with (length ms + (length bs + (length raw - length ms - length bs)))%nat by lia.
  generalize (length raw - length ms - length bs)%nat. intros slack. unfold raw, new_bundle_at.
  rewrite parse_messages_spec by (done || lia).
  rewrite (app_assoc hdr (elements wm_buffer ms)), parse_bundles_spec; [|..|rewrite zlen_app; lia|lia].
  - rewrite !app_nil_l.
    replace (zlen ((hdr ++ elements wm_buffer ms) ++ elements bundle_bytes bs)) with dataLen
      by (rewrite !zlen_app; lia).
    by rewrite parse_elements_end.
  - pose proof (elements_part bundle_bytes bs) as Hp. rewrite Forall_forall in *.
    intros c Hc. specialize (Hp c Hc). unfold zlen in Hp, Hf, El, dataLen. split; [apply IH; auto; unfold zlen; lia|].
    unfold zlen in *. lia.
Qed.

(** ** Termination *)

Lemma CheckSize_reads pos dataLen raw n :
  CheckSize pos dataLen raw = Good n → n ≠ END_OF_BUFFER →
  0 <= pos ∧ pos + 4 <= zlen raw ∧ 0 <= n < 2 ^ 31.
Proof.
  unfold CheckSize. intros H Hn. case_match; [by simplify_eq|]. case_match; [done|].
  apply ores_bind_Good in H as (sz & Hs & H). case_match; [done|]. simplify_eq.
  match goal with H : _ || _ = false |- _ => apply orb_false_iff in H as [_ ?%Z.ltb_ge] end.
  unfold CharBufToInt in Hs. apply ores_bind_Good in Hs as (l & Hl & Hv). simplify_eq.
  destruct (read_n OSC_INT_SIZE (at_pos pos raw)) as [l'|] eqn:Er; [|done].
  unfold read_n in Er. case_match; [|done]. clear Er Hl.
  match goal with H : _ && _ = true |- _ => apply andb_true_iff in H as [_ Hle%Z.leb_le] end.
  unfold at_pos, OSC_INT_SIZE in Hle. pose proof (wrap32_range (be_value 0 l)) as Hw%in_int_iff.
  destruct (pos <? 0) eqn:Hp; [unfold zlen in Hle; simpl in Hle; lia|]. apply Z.ltb_ge in Hp.
  unfold zlen in *. rewrite length_drop in Hle. lia.
Qed.

(** Whatever the size read, the loop moves forward or leaves the buffer. *)
Lemma next_pos pos n :
  0 <= pos → pos + 20 < 2 ^ 31 → 0 <= n < 2 ^ 31 →
  let next := wrap32 (pos + wrap32 (n + SIZE_SIZE)) in pos + 4 <= next ∨ next < 0.
Proof.
  intros Hp Hl Hn. simpl. unfold wrap32, SIZE_SIZE. assert (E : n + 4 < 2 ^ 31 ∨ 2 ^ 31 <= n + 4) by lia.
  destruct E as [E|E].
  - rewrite (Z.mod_small (n + 4 + 2 ^ 31)) by lia. replace (n + 4 + 2 ^ 31 - 2 ^ 31) with (n + 4) by lia.
    assert (E' : pos + (n + 4) < 2 ^ 31 ∨ 2 ^ 31 <= pos + (n + 4)) by lia.
    destruct E' as [E'|E']; [left; rewrite Z.mod_small; lia|right].
    rewrite <-(Z.mod_unique (pos + (n + 4) + 2 ^ 31) (2 ^ 32) 1 (pos + (n + 4) + 2 ^ 31 - 2 ^ 32)) by lia. lia.
  - right. rewrite <-(Z.mod_unique (n + 4 + 2 ^ 31) (2 ^ 32) 1 (n + 4 + 2 ^ 31 - 2 ^ 32)) by lia.
    rewrite Z.mod_small by lia. lia.
Qed.

Lemma parse_elements_returns sub fuel raw dataLen pos b :
  (∀ r n, length r < length raw → sub r n ≠ None)%nat → zlen raw + 20 < 2 ^ 31 → 0 <= dataLen →
  (pos < 0 ∨ zlen raw - pos <= Z.of_nat fuel) → parse_elements sub fuel raw dataLen pos b ≠ None.
Proof.
  intros Hsub Hl Hd. revert pos b. induction fuel as [|fuel IH]; intros pos b Hf; cbn [parse_elements];
    (destruct (CheckSize pos dataLen raw) as [n| |] eqn:Hc; [|done..]);
    (destruct (n =? END_OF_BUFFER) eqn:Hn; [done|]); apply Z.eqb_neq in Hn;
    destruct (CheckSize_reads _ _ _ _ Hc Hn) as (Hp & Hp4 & Hn0); [lia|].
  pose proof (next_pos pos n Hp ltac:(lia) Hn0) as Hnext. simpl in Hnext.
  set (next := wrap32 (pos + wrap32 (n + SIZE_SIZE))) in *. set (el := at_pos _ raw).
  assert (Hcont : ∀ b, parse_elements sub fuel raw dataLen next b ≠ None) by (intros; apply IH; lia).
  destruct (head el) as [c|] eqn:Hh; [|done]. case_match.
  - assert (Hlt : (length el < length raw)%nat).
    { unfold el, at_pos. rewrite wrap32_fits by (unfold SIZE_SIZE; lia).
      rewrite (proj2 (Z.ltb_ge _ _)) by (unfold SIZE_SIZE; lia). rewrite length_drop.
      unfold SIZE_SIZE, zlen in *. lia. }
    specialize (Hsub el n Hlt). by destruct (sub el n) as [[]|].
  - destruct (parse_message el n); [apply Hcont|done..].
Qed.

Lemma parse_bundle_total fuel raw dataLen :
  zlen raw + 20 < 2 ^ 31 → (length raw < fuel)%nat → parse_bundle fuel raw dataLen ≠ None.
Proof.
  revert raw dataLen. induction fuel as [|fuel IH]; intros raw dataLen Hl Hf; [lia|]. cbn [parse_bundle].
  destruct (dataLen <? _) eqn:Hd; [done|]. apply Z.ltb_ge in Hd. unfold BUNDLE_HEADER_SIZE, TIME_TAG_SIZE in Hd.
  destruct (strcmp_eq raw WOSC_BUNDLE_TAG) as [[]| |]; try done.
  destruct (InitFromCharArray _) as [t| |]; try done. case_match; [done|].
  intros [=Hn%fmap_None]. revert Hn. apply parse_elements_returns; [|lia..|].
  - intros r n Hr. apply IH; unfold zlen in *; lia.
  - right. unfold zlen, BUNDLE_HEADER_SIZE, TIME_TAG_SIZE. lia.
Qed.

(** ** Properties *)

(** C26: the binary form of a bundle, nested bundles included, is that of the OSC
    specification and has the length [GetBufferLen] announces; reading those
    bytes gives back the bundle: its time tag, messages and bundles in order. *)
Theorem bundle_roundtrip (b : WOscBundle) (rest : list Z) :
  bundle_ok b → zlen (bundle_bytes b) < 2 ^ 31 →
  GenerateBufferFromElements b = Good (bundle_bytes b)
  ∧ bundle_GetBufferLen b = zlen (bundle_bytes b)
  ∧ bundle_GetBuffer (bundle_GetBufferLen b) b = Good (bundle_bytes b)
  ∧ parse_bundle (length (bundle_bytes b)) (bundle_bytes b ++ rest) (bundle_GetBufferLen b) = Some (Good b).
Proof.
  intros Hok Hl. assert (Eg := Generate_bundle_spec b Hok Hl). assert (En := GetBufferLen_spec b Hok Hl).
  split_and!; [done..| |].
  - unfold bundle_GetBuffer. rewrite Eg, ogood_bind, En, Z.gtb_ltb, Z.ltb_irrefl. by rewrite read_n_all.
  - rewrite En. by apply parse_bundle_spec.
Qed.

Definition sample_bundle : WOscBundle :=
  Bundle GetImmediateTime [message_of sample_addr sample_args; message_of sample_addr []]
    [Bundle 77 [message_of sample_addr [AInt 5]] []].
Lemma sample_bundle_ok : bundle_ok sample_bundle.
Proof.
  assert (H1 : sendable sample_addr [AInt 5]).
  { destruct sample_sendable. split; try done. by repeat constructor. }
  assert (H2 : sendable sample_addr []).
  { destruct sample_sendable. by split. }
  repeat constructor; try done; eexists _, _; (split; [reflexivity|done || apply sample_sendable]).
Qed.
Lemma bundle_roundtrip_witness :
  bundle_GetBufferLen sample_bundle = 132
  ∧ parse_bundle 132 (bundle_bytes sample_bundle) 132 = Some (Good sample_bundle).
Proof.
  destruct (bundle_roundtrip sample_bundle [] sample_bundle_ok ltac:(vm_compute; reflexivity)) as (_ & _ & _ & H).
  split; [reflexivity|]. rewrite app_nil_r in H. exact H.
Defined.

(** Whatever bytes are received and whatever length is announced, reading a
    bundle comes back, with a bundle, an exception or a read past the buffer:
    a nesting depth of the number of bytes received is never exceeded and
    the element loop always moves forward. *)
Theorem parse_bundle_returns (raw : list Z) (dataLen : Z) :
  zlen raw + 20 < 2 ^ 31 → is_Some (parse_bundle (S (length raw)) raw dataLen).
Proof. intros Hl. apply not_eq_None_Some, parse_bundle_total; [done|lia]. Qed.
Lemma parse_bundle_returns_witness :
  parse_bundle 21 (literal "#bundle" ++ be_bytes 8 1 ++ [127; 255; 255; 255]) 20 = Some (Crash FBadAccess)
  ∧ is_Some (parse_bundle 21 (literal "#bundle" ++ be_bytes 8 1 ++ [127; 255; 255; 255]) 20).
Proof.
  split; [vm_compute; reflexivity|].
  apply (parse_bundle_returns (literal "#bundle" ++ be_bytes 8 1 ++ [127; 255; 255; 255]) 20).
  vm_compute; reflexivity.
Defined.

(** The size check lets through an element of INT_MAX bytes in a packet of 20:
    the sum of the check overflows. *)
Lemma CheckSize_overflow :
  CheckSize 16 20 (literal "#bundle" ++ be_bytes 8 1 ++ [127; 255; 255; 255]) = Good INT_MAX.
Proof. vm_compute. reflexivity. Qed.
