(* ===== verification/Tuio.v ===== *)
(** The TUIO senders: moTuioModule.cpp, moTuio2Module.cpp and the UDP socket
    they send through, moOSC.cpp.

    The members a class adds to moModule are a state of their own, passed in
    and returned; the module with its properties and input is in the world.
    Sending returns the datagram handed to [sendto]; what the socket does with
    it is outside.  [new] objects that are deleted before the end of the call
    leave no trace. *)
From S2P Require Import Prelude StdMap Numeric Utils Property Container Module World Wiring.
From S2P Require Import Lifecycle Tracker OscData OscMessage OscCodec OscBundle.
From Stdlib Require Import SpecFloat.
#[local] Open Scope Z_scope.

(** ** moOSC *)

Record moOSC := { o_ip : string; o_port : Z; o_sock : Z }.
Record datagram := { d_ip : string; d_port : Z; d_payload : list Z }.

(** [moOSC(ip, port)] with [init]: [port] is an [unsigned short] and [sock] what
    [socket] returned, -1 included. *)
Definition new_moOSC (sock : Z) (ip : string) (port : Z) : moOSC :=
  {| o_ip := ip; o_port := port mod 2 ^ 16; o_sock := sock |}.

(** No exception of the library is caught by the modules. *)
Definition uncaught {A} (r : ores A) : res A :=
  match r with Good a => Ok a | Throw _ => Fault FOutOfRange | Crash f => Fault f end.

(** [sendto] is given [GetBufferLen] bytes of [GetBuffer]. *)
Definition send_message (o : moOSC) (msg : WOscMessage) : res datagram :=
  l ← uncaught (readable (read_n (message_GetBufferLen msg) (wm_buffer msg)));
  Ok {| d_ip := o_ip o; d_port := o_port o; d_payload := l |}.
Definition send_bundle (o : moOSC) (b : WOscBundle) : res datagram :=
  buf ← uncaught (GenerateBufferFromElements b);
  l ← uncaught (readable (read_n (bundle_GetBufferLen b) buf));
  Ok {| d_ip := o_ip o; d_port := o_port o; d_payload := l |}.

(** ** Building messages *)

(** The four bytes of a [float]; any NaN is sent as the quiet one. *)
Definition float_bits (f : spec_float) : Z :=
  let sign (s : bool) : Z := if s then 2 ^ 31 else 0 in
  match f with
  | S754_zero s => sign s
  | S754_infinity s => sign s + Z.shiftl 255 23
  | S754_nan => Z.shiftl 255 23 + 2 ^ 22
  | S754_finite s m e =>
      if Z.pos m <? 2 ^ 23 then sign s + Z.pos m
      else sign s + Z.shiftl (e + 150) 23 + (Z.pos m - 2 ^ 23)
  end mod 2 ^ 32.

(** [new WOscMessage("...")], [msg->Add(...)] for a literal, an [int] and a
    [float]. *)
Definition osc_message (path : string) : res WOscMessage := uncaught (new_message (Some (literal path))).
Definition add_str (s : string) (msg : WOscMessage) : res WOscMessage := uncaught (Add_cstr (literal s) msg).
Definition add_int (i : Z) (msg : WOscMessage) : res WOscMessage := uncaught (Add_int i msg).
Definition add_float (d : double) (msg : WOscMessage) : res WOscMessage :=
  uncaught (Add_float (float_bits (f_of_d d)) msg).
Definition add_int_prop (name : string) (c : container) (msg : WOscMessage) : res WOscMessage :=
  i ← get_int name c; add_int i msg.
Definition add_float_prop (name : string) (c : container) (msg : WOscMessage) : res WOscMessage :=
  d ← get_double name c; add_float d msg.

(** ** moTuioModule *)

Inductive tuio_type := TUIO_UNKNOWN | TUIO_2DCUR | TUIO_2DOBJ.
#[export] Instance tuio_type_eq_dec : EqDecision tuio_type.
Proof. solve_decision. Defined.

Record tuio_state := { tu_osc : option moOSC; tu_fseq : Z; tu_type : tuio_type }.
Definition new_tuio : tuio_state := {| tu_osc := None; tu_fseq := 0; tu_type := TUIO_UNKNOWN |}.

Definition open_osc (a : nat) (sock : Z) : M moOSC :=
  ip ← property_of a "ip"; ip ← lift (asString ip);
  port ← property_of a "port"; port ← lift (asInteger port);
  mret (new_moOSC sock ip port).
Definition tuio_start (a : nat) (sock : Z) (st : tuio_state) : M tuio_state :=
  o ← open_osc a sock;
  moModule_start a;;
  mret {| tu_osc := Some o; tu_fseq := tu_fseq st; tu_type := tu_type st |}.
Definition tuio_stop (a : nat) (st : tuio_state) : M tuio_state :=
  moModule_stop a;;
  mret {| tu_osc := None; tu_fseq := tu_fseq st; tu_type := tu_type st |}.

(** The list behind [getData()]; a stream without data is a null pointer. *)
Definition data_list (s : nat) : M container_list :=
  st ← gets_at s;
  lift (match s_data st with Some (PBlobs l) => Ok l | _ => Fault FBadAccess end).

(** The probe of the first blob; [None]: nothing to probe yet. *)
Definition tuio_probe (type : tuio_type) (l : container_list) : res (option tuio_type) :=
  match type, l with
  | TUIO_UNKNOWN, [] => Ok None
  | TUIO_UNKNOWN, c :: _ =>
      implements ← get_string "implements" c;
      fid ← is_fid implements;
      Ok (Some (if fid : bool then TUIO_2DOBJ else TUIO_2DCUR))
  | type, _ => Ok (Some type)
  end.

Definition osc_path (type : tuio_type) : string :=
  if decide (type = TUIO_2DOBJ) then "/tuio/2Dobj" else "/tuio/2Dcur".

Definition implements_in (word : string) (c : container) : res bool :=
  implements ← get_string "implements" c; inList word implements ",".

Fixpoint tuio_alive (l : container_list) (msg : WOscMessage) : res WOscMessage :=
  match l with
  | [] => Ok msg
  | c :: l =>
      tracked ← implements_in "tracked" c; assert_ tracked;;
      pos ← implements_in "pos" c; assert_ pos;;
      msg ← add_int_prop "blob_id" c msg;
      tuio_alive l msg
  end.

(** One set message. *)
Definition tuio_set (a : nat) (type : tuio_type) (c : container) : M WOscMessage :=
  msg ← lift (osc_message (osc_path type));
  msg ← lift (add_str "set" msg);
  match type with
  | TUIO_2DOBJ =>
      lift (msg ← add_int_prop "blob_id" c msg;
            msg ← add_int_prop "fiducial_id" c msg;
            msg ← add_float_prop "x" c msg;
            msg ← add_float_prop "y" c msg;
            msg ← add_float_prop "angle" c msg;
            msg ← add_float dzero msg; msg ← add_float dzero msg; msg ← add_float dzero msg;
            msg ← add_float dzero msg; add_float dzero msg)
  | TUIO_2DCUR =>
      msg ← lift (msg ← add_int_prop "blob_id" c msg;
                  msg ← add_float_prop "x" c msg;
                  msg ← add_float_prop "y" c msg;
                  msg ← add_float dzero msg; msg ← add_float dzero msg; add_float dzero msg);
      sendsize ← property_of a "sendsize"; sendsize ← lift (asBool sendsize);
      size ← lift (if sendsize : bool then implements_in "size" c else Ok false);
      lift (if size : bool then msg ← add_float_prop "width" c msg; add_float_prop "height" c msg
            else Ok msg)
  | TUIO_UNKNOWN => mret msg
  end.

Fixpoint tuio_sets (a : nat) (type : tuio_type) (l : container_list) (bundle : WOscBundle) : M WOscBundle :=
  match l with
  | [] => mret bundle
  | c :: l => msg ← tuio_set a type c; tuio_sets a type l (Add_message msg bundle)
  end.

(** The part of [notifyData] once the type is known. *)
Definition tuio_send_frame (a : nat) (st : tuio_state) (type : tuio_type) (l : container_list)
    : M (tuio_state * option datagram) :=
  msg ← lift (msg ← osc_message (osc_path type); msg ← add_str "alive" msg; tuio_alive l msg);
  bundle ← tuio_sets a type l (Add_message msg new_bundle);
  msg ← lift (msg ← osc_message (osc_path type); msg ← add_str "fseq" msg; add_int (tu_fseq st) msg);
  let bundle := Add_message msg bundle in
  log_id MO_TRACE a;;
  o ← lift (deref (tu_osc st));
  d ← lift (send_bundle o bundle);
  log_id MO_TRACE a;;
  mret ({| tu_osc := tu_osc st; tu_fseq := wrap32 (tu_fseq st + 1); tu_type := type |}, Some d).

(** [moTuioModule::notifyData]: the new state, and the datagram unless the type
    of the data could not be probed. *)
Definition tuio_notifyData (a : nat) (input : option nat) (st : tuio_state)
    : M (tuio_state * option datagram) :=
  m ← getm a;
  s ← lift (match input with Some s => Ok s | None => Fault FAssert end);
  lift (assert_ (bool_decide (field "input" m = Some s)));;
  log_id MO_TRACE a;;
  l ← data_list s;
  type ← lift (tuio_probe (tu_type st) l);
  match type with
  | None => mret (st, None)
  | Some type => tuio_send_frame a st type l
  end.

(** ** moTuio2Module *)

Inductive tuio2_format := TUIO2_UNKNOWN | TUIO2_CURSOR | TUIO2_FIDUCIAL.

Record tuio2_state := { t2_osc : option moOSC; t2_frame : Z }.
Definition new_tuio2 : tuio2_state := {| t2_osc := None; t2_frame := 0 |}.
Definition tuio2_start (a : nat) (sock : Z) (st : tuio2_state) : M tuio2_state :=
  o ← open_osc a sock;
  moModule_start a;;
  mret {| t2_osc := Some o; t2_frame := t2_frame st |}.
Definition tuio2_stop (a : nat) (st : tuio2_state) : M tuio2_state :=
  moModule_stop a;; mret {| t2_osc := None; t2_frame := t2_frame st |}.

Definition probe (l : container_list) : res tuio2_format :=
  match l with
  | [] => Ok TUIO2_UNKNOWN
  | c :: _ => fid ← implements_in "fiducial" c; Ok (if fid : bool then TUIO2_FIDUCIAL else TUIO2_CURSOR)
  end.

(** What the alive loop collects: the message, [map_node_blob], [ids_blob] and
    [ids_parent] ([have_relation] is set when the last two grow). *)
Record alive2 := { al_msg : WOscMessage; al_map : smap Z Z; al_blob : list Z; al_parent : list Z }.

Definition tuio2_alive_one (c : container) (r : alive2) : res alive2 :=
  tracked ← implements_in "tracked" c;
  if tracked : bool then
    id_blob ← get_int "blob_id" c;
    msg ← add_int id_blob (al_msg r);
    node ← implements_in "node" c;
    if node : bool then
      node_id ← get_int "node_id" c;
      let map := insert node_id id_blob (al_map r) in
      if hasProperty "parent_node_id" c then
        parent ← get_int "parent_node_id" c;
        Ok {| al_msg := msg; al_map := map; al_blob := al_blob r ++ [id_blob];
              al_parent := al_parent r ++ [parent] |}
      else Ok {| al_msg := msg; al_map := map; al_blob := al_blob r; al_parent := al_parent r |}
    else Ok {| al_msg := msg; al_map := al_map r; al_blob := al_blob r; al_parent := al_parent r |}
  else Ok r.
Fixpoint tuio2_alive (l : container_list) (r : alive2) : res alive2 :=
  match l with [] => Ok r | c :: l => r ← tuio2_alive_one c r; tuio2_alive l r end.

Definition tuio2_ptr (c : container) : res WOscMessage :=
  msg ← osc_message "/tuio2/ptr";
  msg ← add_int_prop "blob_id" c msg; msg ← add_int 1 msg; msg ← add_int_prop "blob_id" c msg;
  msg ← add_float_prop "x" c msg; msg ← add_float_prop "y" c msg;
  msg ← add_int 0 msg; add_int 1 msg.
Definition tuio2_bnd (c : container) : res WOscMessage :=
  msg ← osc_message "/tuio2/bnd";
  msg ← add_int_prop "blob_id" c msg;
  msg ← add_float_prop "x" c msg; msg ← add_float_prop "y" c msg; msg ← add_float dzero msg;
  msg ← add_float_prop "width" c msg; msg ← add_float_prop "height" c msg; add_float (d_of_Z 1) msg.
Fixpoint packBlob (l : container_list) (bundle : WOscBundle) : res WOscBundle :=
  match l with
  | [] => Ok bundle
  | c :: l =>
      msg ← tuio2_ptr c;
      let bundle := Add_message msg bundle in
      size ← implements_in "size" c;
      bundle ← (if size : bool then msg ← tuio2_bnd c; Ok (Add_message msg bundle) else Ok bundle);
      packBlob l bundle
  end.

Definition tuio2_tok (c : container) : res WOscMessage :=
  msg ← osc_message "/tuio2/tok";
  msg ← add_int_prop "blob_id" c msg; msg ← add_int_prop "blob_id" c msg; msg ← add_int_prop "blob_id" c msg;
  msg ← add_float_prop "x" c msg; msg ← add_float_prop "y" c msg; add_float_prop "angle" c msg.
Fixpoint packFiducial (l : container_list) (bundle : WOscBundle) : res WOscBundle :=
  match l with
  | [] => Ok bundle
  | c :: l => msg ← tuio2_tok c; packFiducial l (Add_message msg bundle)
  end.

(** [std::list::unique]: equal neighbours are merged. *)
Fixpoint unique (l : list Z) : list Z :=
  match l with
  | [] => []
  | x :: l => match unique l with
              | [] => [x]
              | y :: k => if x =? y then y :: k else x :: y :: k
              end
  end.

Fixpoint add_ints (l : list Z) (msg : WOscMessage) : res WOscMessage :=
  match l with [] => Ok msg | i :: l => msg ← add_int i msg; add_ints l msg end.
(** [map_node_blob[id]] adds a zero for an unknown node. *)
Definition map_index (k : Z) (m : smap Z Z) : Z * smap Z Z :=
  match find k m with Some v => (v, m) | None => (0, insert k 0 m) end.
Fixpoint add_parents (l : list Z) (m : smap Z Z) (msg : WOscMessage) : res (WOscMessage * smap Z Z) :=
  match l with
  | [] => Ok (msg, m)
  | p :: l => let '(v, m) := map_index p m in msg ← add_int v msg; add_parents l m msg
  end.

(** The children of one parent. *)
Fixpoint add_children (parent : Z) (l : container_list) (msg : WOscMessage) : res WOscMessage :=
  match l with
  | [] => Ok msg
  | c :: l =>
      node ← implements_in "node" c;
      if node && hasProperty "parent_node_id" c then
        id_parent ← get_int "parent_node_id" c;
        if negb (id_parent =? parent) then add_children parent l msg
        else msg ← add_int_prop "blob_id" c msg; add_children parent l msg
      else add_children parent l msg
  end.
Fixpoint tuio2_coa (parents : list Z) (m : smap Z Z) (l : container_list) (bundle : WOscBundle)
    : res WOscBundle :=
  match parents with
  | [] => Ok bundle
  | p :: parents =>
      let '(v, m) := map_index p m in
      msg ← osc_message "/tuio2/coa";
      msg ← add_int v msg; msg ← add_int 0 msg;
      msg ← add_children p l msg;
      tuio2_coa parents m l (Add_message msg bundle)
  end.

(** The bundle of a frame, and whether it is sent. *)
Definition tuio2_bundle (frame now : Z) (l : container_list) : res (WOscBundle * bool) :=
  msg ← osc_message "/tuio2/frm";
  msg ← add_int frame msg; msg ← add_int now msg; msg ← add_str "movid" msg;
  let bundle := Add_message msg new_bundle in
  msg ← osc_message "/tuio2/alv";
  r ← tuio2_alive l {| al_msg := msg; al_map := []; al_blob := []; al_parent := [] |};
  let bundle := Add_message (al_msg r) bundle in
  format ← probe l;
  packed ← match format with
           | TUIO2_FIDUCIAL => b ← packFiducial l bundle; Ok (b, true)
           | TUIO2_CURSOR => b ← packBlob l bundle; Ok (b, true)
           | TUIO2_UNKNOWN => Ok (bundle, false)
           end;
  let '(bundle, ret) := packed in
  if bool_decide (al_parent r = []) then Ok (bundle, ret)
  else
    let parents := unique (al_parent r) in
    msg ← osc_message "/tuio2/ala";
    pm ← add_parents parents (al_map r) msg;
    msg ← add_ints (unique (al_blob r)) pm.1;
    bundle ← tuio2_coa parents pm.2 l (Add_message msg bundle);
    Ok (bundle, ret).

(** [moTuio2Module::notifyData]. *)
Definition tuio2_notifyData (a : nat) (input : option nat) (st : tuio2_state)
    : M (tuio2_state * option datagram) :=
  m ← getm a;
  s ← lift (match input with Some s => Ok s | None => Fault FAssert end);
  lift (assert_ (bool_decide (field "input" m = Some s)));;
  now ← gets w_now;
  l ← data_list s;
  r ← lift (tuio2_bundle (t2_frame st) (d_to_int now) l);
  let st' := {| t2_osc := t2_osc st; t2_frame := wrap32 (t2_frame st + 1) |} in
  if r.2 : bool then
    o ← lift (deref (t2_osc st));
    d ← lift (send_bundle o r.1);
    mret (st', Some d)
  else mret (st', None).
