(* ===== verification/TuioSpec.v ===== *)
(** What the TUIO senders put on the wire: every frame becomes a bundle that a
    receiver reads back as the alive, set and sequence messages of the
    protocol. *)
From S2P Require Import Prelude StdMap Numeric Utils Property Container Module World Wiring.
From S2P Require Import Lifecycle Tracker OscData OscMessage OscCodec OscBundle Tuio.
#[local] Open Scope Z_scope.

Lemma ok_bind {A B} (a : A) (k : A → res B) : Ok a ≫= k = k a.
Proof. done. Qed.

(** ** Small messages *)

(** Ints, floats and short strings. *)
Definition small (a : arg) : Prop := zlen (arg_bytes a) <= 8.
Definition short (p : list Z) (args : list arg) : Prop :=
  zlen p <= 64 ∧ Forall small args ∧ zlen args <= 2 ^ 24.

Lemma small_bytes args : Forall small args → zlen (args ≫= arg_bytes) <= 8 * zlen args.
Proof.
  induction 1 as [|a args Ha _ IH]; [done|]. rewrite bind_cons, zlen_app, zlen_cons. unfold small in Ha. lia.
Qed.
Lemma short_fits p args : short p args → zlen (message_bytes p args) < 2 ^ 28.
Proof.
  intros (Hp & Hs & Hn). rewrite message_bytes_len. pose proof (small_bytes args Hs).
  pose proof (padz_bound p) as [? _]. pose proof (padz_bound (tag_string args)) as [Ht _].
  assert (E : zlen (tag_string args) = 1 + zlen args) by (unfold tag_string, zlen; simpl; rewrite length_fmap; lia).
  lia.
Qed.
Lemma short_snoc p args a : short p args → small a → zlen args < 2 ^ 24 → short p (args ++ [a]).
Proof.
  intros (Hp & Hs & Hn) Ha Hl. split_and!; [done|by apply Forall_app_2; [|constructor]|].
  rewrite zlen_app. change (zlen [a]) with 1. lia.
Qed.

Definition msg (p : list Z) (args : list arg) : WOscMessage := message_of p args.

Lemma add_int_msg p args i :
  short p (args ++ [AInt i]) → add_int i (msg p args) = Ok (msg p (args ++ [AInt i])).
Proof.
  intros H%short_fits. unfold add_int. rewrite (Add_int_spec p args); [done|apply message_of_members|lia].
Qed.
Lemma add_float_msg p args d :
  short p (args ++ [AFloat (float_bits (f_of_d d))]) →
  add_float d (msg p args) = Ok (msg p (args ++ [AFloat (float_bits (f_of_d d))])).
Proof.
  intros H%short_fits. unfold add_float. rewrite (Add_float_spec p args); [done|apply message_of_members|lia].
Qed.
Lemma add_str_msg p args s :
  short p (args ++ [AString (bytes_of s)]) → 0 ∉ bytes_of s →
  add_str s (msg p args) = Ok (msg p (args ++ [AString (bytes_of s)])).
Proof.
  intros H%short_fits H0. unfold add_str, literal.
  rewrite (Add_cstr_spec p args); [done|apply message_of_members|lia|done].
Qed.
Lemma osc_message_msg path :
  short (bytes_of path) [] → head (bytes_of path) = Some c_slash → 0 ∉ bytes_of path →
  osc_message path = Ok (msg (bytes_of path) []).
Proof.
  intros H%short_fits Hs H0. unfold osc_message. pose proof (build_spec (bytes_of path) []) as E.
  unfold build in E. cbn [Add_all] in E. unfold literal.
  assert (Hb : sendable (bytes_of path) []) by (split; [done..|lia]).
  specialize (E Hb). apply ores_bind_Good in E as (m & -> & [= ->]). done.
Qed.

(** ** TUIO 1.1, the reference *)

(** The session id of a blob that is tracked and has a position. *)
Definition alive_id (c : container) : res Z :=
  tracked ← implements_in "tracked" c; assert_ tracked;;
  pos ← implements_in "pos" c; assert_ pos;;
  get_int "blob_id" c.

Definition fl (d : double) : arg := AFloat (float_bits (f_of_d d)).
Definition word (s : string) : arg := AString (bytes_of s).

(** [/tuio/2Dobj set s i x y a X Y A m r] and [/tuio/2Dcur set s x y X Y m [w h]]. *)
Definition set_args (type : tuio_type) (sendsize : bool) (c : container) : res (list arg) :=
  match type with
  | TUIO_2DOBJ =>
      s ← get_int "blob_id" c; i ← get_int "fiducial_id" c;
      x ← get_double "x" c; y ← get_double "y" c; a ← get_double "angle" c;
      Ok [word "set"; AInt s; AInt i; fl x; fl y; fl a; fl dzero; fl dzero; fl dzero; fl dzero; fl dzero]
  | TUIO_2DCUR =>
      s ← get_int "blob_id" c; x ← get_double "x" c; y ← get_double "y" c;
      size ← (if sendsize then implements_in "size" c else Ok false);
      wh ← (if size : bool then w ← get_double "width" c; h ← get_double "height" c; Ok [fl w; fl h] else Ok []);
      Ok ([word "set"; AInt s; fl x; fl y; fl dzero; fl dzero; fl dzero] ++ wh)
  | TUIO_UNKNOWN => Ok [word "set"]
  end.

Definition tuio_path (type : tuio_type) : list Z := bytes_of (osc_path type).

(** The messages of one frame. *)
Definition tuio_frame (type : tuio_type) (sendsize : bool) (fseq : Z) (l : container_list)
    : res (list WOscMessage) :=
  ids ← map_res alive_id l;
  sets ← map_res (set_args type sendsize) l;
  let p := tuio_path type in
  Ok (msg p (word "alive" :: (AInt <$> ids)) :: (msg p <$> sets) ++ [msg p [word "fseq"; AInt fseq]]).

(** ** The loops *)

Lemma path_ok type :
  zlen (tuio_path type) <= 64 ∧ head (tuio_path type) = Some c_slash ∧ 0 ∉ tuio_path type.
Proof. unfold tuio_path, osc_path. destruct type; (split; [vm_compute; congruence|split; [done|]]); by apply (bool_decide_unpack _). Qed.

Lemma small_float b : small (AFloat b).
Proof. unfold small. cbn [arg_bytes]. unfold zlen. by rewrite length_be_bytes. Qed.
Lemma small_int i : small (AInt i).
Proof. unfold small. cbn [arg_bytes]. unfold zlen. by rewrite length_be_bytes. Qed.
Lemma small_word s : bool_decide (s ∈ ["alive"; "set"; "fseq"; "movid"]) = true → small (word s) ∧ 0 ∉ bytes_of s.
Proof.
  intros H%bool_decide_eq_true. rewrite !elem_of_cons, elem_of_nil in H.
  destruct H as [->|[->|[->|[->|[]]]]]; (split; [vm_compute; congruence|by apply (bool_decide_unpack _)]).
Qed.
#[export] Hint Resolve small_float small_int : movid.

(** A message of at most 64 arguments, each of them small. *)
Ltac shorts := cbn [app]; solve [split_and!; [eassumption
  | repeat (apply Forall_cons; split; [first [apply small_float|apply small_int|by apply small_word]|]);
    apply Forall_nil_2 | unfold zlen; cbn [length]; lia]].

Lemma tuio_alive_spec p l args :
  short p args → zlen args + zlen l <= 2 ^ 24 →
  tuio_alive l (msg p args) = ids ← map_res alive_id l; Ok (msg p (args ++ (AInt <$> ids))).
Proof.
  revert args. induction l as [|c l IH]; intros args Hs Hl.
  { cbn. by rewrite app_nil_r. }
  rewrite zlen_cons in Hl. pose proof (zlen_nonneg l).
  cbn [tuio_alive map_res].
  assert (Ea : alive_id c = (tracked ← implements_in "tracked" c; assert_ tracked;;
    pos ← implements_in "pos" c; assert_ pos;; get_int "blob_id" c)) by done.
  rewrite Ea. unfold add_int_prop.
  destruct (implements_in "tracked" c) as [tr|]; [|done]. destruct tr; [|done]. cbn [mbind res_bind assert_].
  destruct (implements_in "pos" c) as [po|]; [|done]. destruct po; [|done]. cbn [mbind res_bind assert_].
  destruct (get_int "blob_id" c) as [i|]; [|done]. cbn [mbind res_bind].
  assert (Hs' : short p (args ++ [AInt i])) by (apply short_snoc; [done|apply small_int|lia]).
  rewrite add_int_msg by done. cbn [mbind res_bind].
  rewrite IH by (done || (rewrite zlen_app; change (zlen [AInt i]) with 1; lia)).
  destruct (map_res alive_id l) as [ids|]; [|done]. cbn. by rewrite <-app_assoc.
Qed.

(** One [Add], and what comes after it. *)
Lemma add_int_bind {A} p args i (k : WOscMessage → res A) :
  short p (args ++ [AInt i]) → add_int i (msg p args) ≫= k = k (msg p (args ++ [AInt i])).
Proof. intros H. by rewrite add_int_msg. Qed.
Lemma add_float_bind {A} p args d (k : WOscMessage → res A) :
  short p (args ++ [fl d]) → add_float d (msg p args) ≫= k = k (msg p (args ++ [fl d])).
Proof. intros H. by rewrite add_float_msg. Qed.
Lemma add_float_last p args d :
  short p (args ++ [fl d]) → add_float d (msg p args) = Ok (msg p (args ++ [fl d])).
Proof. apply add_float_msg. Qed.

Ltac add_step :=
  first [rewrite add_int_bind by shorts | rewrite add_float_bind by shorts | rewrite add_float_last by shorts];
  cbn [app].
Ltac read_step :=
  match goal with
  | |- context [get_int ?k ?c] => destruct (get_int k c) as [?|]; [|done]
  | |- context [get_double ?k ?c] => destruct (get_double k c) as [?|]; [|done]
  end; rewrite !ok_bind.

Lemma set_obj_spec p c :
  zlen p <= 64 →
  (m ← add_int_prop "blob_id" c (msg p [word "set"]); m ← add_int_prop "fiducial_id" c m;
   m ← add_float_prop "x" c m; m ← add_float_prop "y" c m; m ← add_float_prop "angle" c m;
   m ← add_float dzero m; m ← add_float dzero m; m ← add_float dzero m; m ← add_float dzero m;
   add_float dzero m)
  = args ← set_args TUIO_2DOBJ false c; Ok (msg p args).
Proof.
  intros Hp. unfold add_int_prop, add_float_prop, set_args.
  do 5 (read_step; add_step). do 5 add_step. done.
Qed.

Lemma set_cur_spec p c :
  zlen p <= 64 →
  (m ← add_int_prop "blob_id" c (msg p [word "set"]);
   m ← add_float_prop "x" c m; m ← add_float_prop "y" c m;
   m ← add_float dzero m; m ← add_float dzero m; add_float dzero m)
  = s ← get_int "blob_id" c; x ← get_double "x" c; y ← get_double "y" c;
    Ok (msg p [word "set"; AInt s; fl x; fl y; fl dzero; fl dzero; fl dzero]).
Proof.
  intros Hp. unfold add_int_prop, add_float_prop. do 3 (read_step; add_step). do 3 add_step. done.
Qed.
Lemma set_size_spec p c s x y (size : bool) :
  zlen p <= 64 →
  (if size then
     m ← add_float_prop "width" c (msg p [word "set"; AInt s; fl x; fl y; fl dzero; fl dzero; fl dzero]);
     add_float_prop "height" c m
   else Ok (msg p [word "set"; AInt s; fl x; fl y; fl dzero; fl dzero; fl dzero]))
  = wh ← (if size then w ← get_double "width" c; h ← get_double "height" c; Ok [fl w; fl h] else Ok []);
    Ok (msg p ([word "set"; AInt s; fl x; fl y; fl dzero; fl dzero; fl dzero] ++ wh)).
Proof.
  intros Hp. destruct size; [|done]. unfold add_float_prop. do 2 (read_step; add_step). done.
Qed.

(** ** The module in the world *)

(** A constructed module [m], connected to a stream that holds the list [l]. *)
Record tuio_ready (a s : nat) (m : moModule) (sendsize : bool) (l : container_list) (w : world) : Prop := {
  tr_at : w_modules w !! a = Some m;
  tr_input : field "input" m = Some s;
  tr_id : ∃ p t, find "id" (m_properties m) = Some p ∧ asString p = Ok t;
  tr_sendsize : ∃ p, find "sendsize" (m_properties m) = Some p ∧ asBool p = Ok sendsize;
  tr_data : ∃ sd, w_streams w !! s = Some sd ∧ s_data sd = Some (PBlobs l);
}.

Lemma property_present a k m p w :
  w_modules w !! a = Some m → find k (m_properties m) = Some p → property_of a k w = Ok (p, w).
Proof.
  intros Hm Hp. rewrite (property_of_run a k m) by done. unfold property. rewrite Hp. simpl.
  by rewrite put_module_id.
Qed.
Lemma log_present level a m p t w :
  w_modules w !! a = Some m → find "id" (m_properties m) = Some p → asString p = Ok t →
  log_id level a w = Ok (tt, w).
Proof.
  intros Hm Hp Ht. unfold log_id. rewrite bind_run. cbn [gets]. case_match; [|done].
  rewrite bind_run, (property_present a "id" m p), bind_run by done. cbv iota beta. by rewrite Ht.
Qed.

Lemma lift_run {A} (r : res A) w : lift r w = x ← r; Ok (x, w).
Proof. by destruct r. Qed.
Lemma lift_bind_run {A B} (r : res A) (k : A → M B) w :
  (lift r ≫= k) w = x ← r; k x w.
Proof. by destruct r. Qed.

Lemma set_start type :
  (m ← osc_message (osc_path type); add_str "set" m) = Ok (msg (tuio_path type) [word "set"]).
Proof.
  destruct (path_ok type) as (Hp & Hs & H0). pose proof (small_word "set" eq_refl) as [Hw Hz].
  rewrite osc_message_msg; [|by split_and!|done..]. rewrite ok_bind. apply (add_str_msg _ []); [|done].
  by split_and!; [|repeat constructor|].
Qed.

Lemma tuio_set_spec a s m sendsize l w type c :
  tuio_ready a s m sendsize l w →
  tuio_set a type c w = args ← set_args type sendsize c; Ok (msg (tuio_path type) args, w).
Proof.
  intros [Hm _ _ (p & Hp & Hb) _]. unfold tuio_set. pose proof (set_start type) as E.
  apply res_bind_Ok in E as (m0 & E1 & E2). rewrite lift_bind_run, E1, ok_bind, lift_bind_run, E2, ok_bind.
  destruct (path_ok type) as (Hl & _ & _). destruct type; [done| |].
  - rewrite lift_bind_run, set_cur_spec by done. unfold set_args.
    destruct (get_int "blob_id" c) as [i|]; [|done]. rewrite !ok_bind.
    destruct (get_double "x" c) as [x|]; [|done]. rewrite !ok_bind.
    destruct (get_double "y" c) as [y|]; [|done]. rewrite !ok_bind.
    rewrite bind_run, (property_present a "sendsize" m p) by done. cbv beta iota.
    rewrite lift_bind_run, Hb, ok_bind, lift_bind_run.
    destruct (if sendsize then implements_in "size" c else Ok false) as [size|]; [|done]. rewrite !ok_bind.
    rewrite lift_run, set_size_spec by done.
    by destruct (if size then _ else _) as [wh|].
  - rewrite lift_run, set_obj_spec by done.
    change (set_args TUIO_2DOBJ sendsize c) with (set_args TUIO_2DOBJ false c).
    by destruct (set_args TUIO_2DOBJ false c).
Qed.

Lemma tuio_sets_spec a s m sendsize l w type k ms :
  tuio_ready a s m sendsize l w →
  tuio_sets a type k (Bundle GetImmediateTime ms []) w
  = sets ← map_res (set_args type sendsize) k;
    Ok (Bundle GetImmediateTime (ms ++ (msg (tuio_path type) <$> sets)) [], w).
Proof.
  intros Hr. revert ms. induction k as [|c k IH]; intros ms; [cbn; by rewrite app_nil_r|].
  cbn [tuio_sets map_res]. rewrite bind_run, (tuio_set_spec _ _ _ _ _ _ _ _ Hr).
  destruct (set_args type sendsize c) as [args|]; [|done]. rewrite !ok_bind. cbn [Add_message].
  rewrite IH. destruct (map_res (set_args type sendsize) k) as [sets|]; [|done].
  rewrite !ok_bind. by rewrite <-app_assoc.
Qed.

(** ** Sending *)

Lemma set_args_short type sendsize c args p :
  zlen p <= 64 → set_args type sendsize c = Ok args → short p args ∧ 1 <= zlen args <= 16.
Proof.
  intros Hp H. unfold set_args in H. pose proof (small_word "set" eq_refl) as [Hw _].
  destruct type; inv_res; (split; [split_and!; [done|
    cbn [app]; repeat (apply Forall_cons; split; [done||apply small_float||apply small_int|]);
    apply Forall_nil_2|]|]; unfold zlen; cbn [length app]; lia).
Qed.

(** A bundle of short messages fits. *)
Lemma elements_bound (ms : list WOscMessage) n :
  Forall (λ m, zlen (wm_buffer m) <= n) ms → 0 <= n → zlen (elements wm_buffer ms) <= (n + 4) * zlen ms.
Proof.
  intros Hms Hn. induction Hms as [|m ms Hm _ IH]; [unfold zlen; simpl; lia|].
  rewrite elements_cons, zlen_app, zlen_sized, zlen_cons. lia.
Qed.
Lemma short_bound p args k :
  short p args → zlen args <= k → zlen (message_bytes p args) <= 80 + 9 * k.
Proof.
  intros (Hp & Hs & Hn) Hk. rewrite message_bytes_len. pose proof (small_bytes args Hs).
  pose proof (padz_bound p) as [? _]. pose proof (padz_bound (tag_string args)) as [Ht _].
  assert (E : zlen (tag_string args) = 1 + zlen args) by (unfold tag_string, zlen; simpl; rewrite length_fmap; lia).
  lia.
Qed.

Lemma get_int_range c k z : container_wf c → get_int k c = Ok z → in_int z = true.
Proof.
  intros [_ Hc] H. unfold get_int, prop_at in H. apply res_bind_Ok in H as (p & Hp & H).
  destruct (find k (c_properties c)) as [q|] eqn:E; [|done]. injection Hp as ->.
  destruct (Hc k p E) as [(v & Hv & Ht & Hok) _]. unfold asInteger in H. rewrite Hv, <-Ht in H.
  exact (convertToInteger_range _ v z eq_refl Hok H).
Qed.
Lemma fl_ok d : arg_ok (fl d).
Proof. unfold fl, arg_ok, float_bits. apply Z.mod_pos_bound. lia. Qed.
Lemma word_ok s : bool_decide (s ∈ ["alive"; "set"; "fseq"; "movid"]) = true → arg_ok (word s).
Proof. intros H%small_word. apply H. Qed.

Lemma set_args_ok type sendsize c args :
  container_wf c → set_args type sendsize c = Ok args → Forall arg_ok args ∧ blobs_fit 0 0 args = true.
Proof.
  intros Hc H. unfold set_args in H. pose proof (word_ok "set" eq_refl) as Hw.
  destruct type; inv_res; (split; [|done]); cbn [app];
    repeat (apply Forall_cons; split; [first [exact Hw|apply fl_ok|by eapply get_int_range]|]); apply Forall_nil_2.
Qed.

Lemma map_res_Forall {A B} (f : A → res B) (P : A → Prop) (Q : B → Prop) l k :
  (∀ a b, P a → f a = Ok b → Q b) → Forall P l → map_res f l = Ok k → Forall Q k ∧ length k = length l.
Proof.
  intros HPQ. revert k. induction l as [|a l IH]; intros k Hl H; simpl in H; inv_res; [done|].
  apply Forall_cons in Hl as [Ha Hl]. destruct (IH _ Hl eq_refl) as [??] || edestruct IH as [??]; try done.
  simpl. split; [constructor; eauto|by f_equal].
Qed.

Lemma ints_fit n b l : blobs_fit n b (AInt <$> l) = true.
Proof. by induction l. Qed.
Lemma ints_small l : Forall small (AInt <$> l).
Proof. apply Forall_fmap, Forall_true. intros. apply small_int. Qed.

Lemma short_ok p args :
  short p args → head p = Some c_slash → 0 ∉ p → Forall arg_ok args → blobs_fit 0 0 args = true →
  message_ok (msg p args).
Proof.
  intros Hs Hh H0 Ha Hb. exists p, args. split; [done|]. split; try done. pose proof (short_fits _ _ Hs). lia.
Qed.

Lemma alive_short p l : zlen p <= 64 → zlen l <= 2 ^ 20 → short p (word "alive" :: (AInt <$> l)).
Proof.
  intros Hp Hl. split_and!; [done|constructor; [by apply small_word|apply ints_small]|].
  rewrite zlen_cons. unfold zlen in *. rewrite length_fmap. lia.
Qed.
Lemma fseq_short p i : zlen p <= 64 → short p [word "fseq"; AInt i].
Proof.
  intros Hp. split_and!; [done|repeat constructor; [by apply small_word|apply small_int]|].
  unfold zlen. simpl. lia.
Qed.

(** The messages of a frame are proper OSC messages and fit one bundle. *)
Lemma tuio_frame_ok type sendsize fseq l ms :
  tuio_frame type sendsize fseq l = Ok ms → Forall container_wf l → zlen l <= 2 ^ 20 → in_int fseq = true →
  Forall message_ok ms ∧ zlen (bundle_bytes (Bundle GetImmediateTime ms [])) < 2 ^ 31.
Proof.
  intros H Hwf Hl Hf. unfold tuio_frame in H. apply res_bind_Ok in H as (ids & Hids & H).
  apply res_bind_Ok in H as (sets & Hsets & [= <-]).
  destruct (path_ok type) as (Hp & Hh & H0). set (p := tuio_path type) in *.
  destruct (map_res_Forall alive_id container_wf (λ z, in_int z = true) l ids) as [Hi Hil]; [|done..|].
  { intros c z Hc Hz. unfold alive_id in Hz. inv_res. by eapply get_int_range. }
  destruct (map_res_Forall (set_args type sendsize) container_wf
    (λ args, message_ok (msg p args) ∧ zlen (message_bytes p args) <= 224) l sets) as [Hs Hsl]; [|done..|].
  { intros c args Hc Ha. destruct (set_args_short _ _ _ _ p Hp Ha) as [Hsh Hn].
    destruct (set_args_ok _ _ _ _ Hc Ha) as [Hok Hb]. split; [by apply short_ok|].
    pose proof (short_bound p args 16 Hsh). lia. }
  apply Forall_and in Hs as [Hs1 Hs2].
  assert (Hids2 : zlen ids <= 2 ^ 20) by (unfold zlen in *; lia).
  pose proof (alive_short p ids Hp Hids2) as Ha. pose proof (fseq_short p fseq Hp) as Hq.
  pose proof (word_ok "alive" eq_refl) as Hwa. pose proof (word_ok "fseq" eq_refl) as Hwf'. split.
  - constructor; [|apply Forall_app; split; [by apply Forall_fmap|constructor; [|done]]].
    + apply short_ok; try done; [|apply (ints_fit 1)]. constructor; [done|]. by apply Forall_fmap.
    + apply short_ok; try done. by repeat constructor.
  - rewrite zlen_bundle, elements_cons. unfold elements at 1. rewrite fmap_app, concat_app. fold (elements wm_buffer (msg p <$> sets)).
    fold (elements wm_buffer [msg p [word "fseq"; AInt fseq]]).
    rewrite !zlen_app, zlen_sized, elements_cons, zlen_app, zlen_sized.
    change (zlen (elements wm_buffer [])) with 0. change (zlen (elements bundle_bytes [])) with 0.
    pose proof (elements_bound (msg p <$> sets) 224) as He.
    assert (Hm : Forall (λ m, zlen (wm_buffer m) <= 224) (msg p <$> sets)) by by apply Forall_fmap.
    specialize (He Hm ltac:(lia)). assert (El : zlen (msg p <$> sets) = zlen l) by (unfold zlen; rewrite length_fmap; lia).
    pose proof (short_bound p _ (2 ^ 20 + 1) Ha) as B1. pose proof (short_bound p _ 2 Hq) as B2.
    cbn [msg message_of wm_buffer]. rewrite zlen_cons in B1. unfold zlen in B1 at 1. rewrite length_fmap in B1.
    fold (zlen ids) in B1. specialize (B1 ltac:(lia)). specialize (B2 ltac:(unfold zlen; simpl; lia)). lia.
Qed.

Lemma send_bundle_spec o b :
  bundle_ok b → zlen (bundle_bytes b) < 2 ^ 31 →
  send_bundle o b = Ok {| d_ip := o_ip o; d_port := o_port o; d_payload := bundle_bytes b |}.
Proof.
  intros Hok Hl. unfold send_bundle. rewrite Generate_bundle_spec, GetBufferLen_spec by done.
  cbn [uncaught]. by rewrite ok_bind, read_n_all.
Qed.

Lemma alive_start type l :
  zlen l <= 2 ^ 20 →
  (m ← osc_message (osc_path type); m ← add_str "alive" m; tuio_alive l m)
  = ids ← map_res alive_id l; Ok (msg (tuio_path type) (word "alive" :: (AInt <$> ids))).
Proof.
  intros Hl. destruct (path_ok type) as (Hp & Hs & H0). pose proof (small_word "alive" eq_refl) as [Hw Hz].
  rewrite osc_message_msg; [|by split_and!|done..]. rewrite ok_bind.
  assert (Hsh : short (tuio_path type) [word "alive"]) by by split_and!; [|repeat constructor|].
  rewrite (add_str_msg _ []) by done. rewrite ok_bind. apply (tuio_alive_spec _ _ [word "alive"]); [done|].
  change (zlen [word "alive"]) with 1. lia.
Qed.
Lemma fseq_message type i :
  (m ← osc_message (osc_path type); m ← add_str "fseq" m; add_int i m)
  = Ok (msg (tuio_path type) [word "fseq"; AInt i]).
Proof.
  destruct (path_ok type) as (Hp & Hs & H0). pose proof (small_word "fseq" eq_refl) as [Hw Hz].
  rewrite osc_message_msg; [|by split_and!|done..]. rewrite ok_bind.
  assert (Hsh : short (tuio_path type) [word "fseq"]) by by split_and!; [|repeat constructor|].
  rewrite (add_str_msg _ []) by done. rewrite ok_bind. apply (add_int_msg _ [word "fseq"]). by apply fseq_short.
Qed.

Lemma data_list_run s sd l w : w_streams w !! s = Some sd → s_data sd = Some (PBlobs l) → data_list s w = Ok (l, w).
Proof. intros Hs Hd. unfold data_list. rewrite bind_run, (gets_at_run s sd) by done. cbv iota beta. by rewrite Hd. Qed.

(** ** Properties *)

(** C24: on every new list of blobs the TUIO module either stops at the fault the
    list causes (a blob that is not tracked or has no position fails an
    assertion, a missing property is a null pointer), or sends one datagram to
    its address; a receiver that reads the datagram with the library gets, in
    this order, the alive message with the id of every blob, one set message
    per blob with its values (for a touch with a size also width and height, when
    [sendsize] is set), and the sequence number, which then increases by one.  With
    no blob seen yet the type is unknown and nothing is sent; once
    probed it never changes. *)
Theorem tuio_frame_sent (a s : nat) (m : moModule) (sendsize : bool) (l : container_list) (w : world)
    (st : tuio_state) (o : moOSC) :
  tuio_ready a s m sendsize l w → tu_osc st = Some o → in_int (tu_fseq st) = true →
  Forall container_wf l → zlen l <= 2 ^ 20 →
  match tuio_probe (tu_type st) l with
  | Fault f => tuio_notifyData a (Some s) st w = Fault f
  | Ok None => l = [] ∧ tu_type st = TUIO_UNKNOWN ∧ tuio_notifyData a (Some s) st w = Ok ((st, None), w)
  | Ok (Some type) =>
      (tu_type st ≠ TUIO_UNKNOWN → type = tu_type st) ∧
      match tuio_frame type sendsize (tu_fseq st) l with
      | Fault f => tuio_notifyData a (Some s) st w = Fault f
      | Ok ms =>
          ∃ d, tuio_notifyData a (Some s) st w
               = Ok (({| tu_osc := Some o; tu_fseq := wrap32 (tu_fseq st + 1); tu_type := type |}, Some d), w)
            ∧ d_ip d = o_ip o ∧ d_port d = o_port o
            ∧ parse_bundle (length (d_payload d)) (d_payload d) (zlen (d_payload d))
              = Some (Good (Bundle GetImmediateTime ms []))
      end
  end.
Proof.
  intros Hr Ho Hf Hwf Hl. pose proof Hr as [Hm Hin (p & t & Hp & Ht) _ (sd & Hsd & Hd)].
  assert (Hlog : ∀ lvl, log_id lvl a w = Ok (tt, w)) by (intros; by eapply log_present).
  assert (Erun : tuio_notifyData a (Some s) st w
    = (type ← lift (tuio_probe (tu_type st) l); match type with
       | None => mret (st, None) | Some type => tuio_send_frame a st type l end) w).
  { unfold tuio_notifyData. rewrite bind_run, (getm_run a m) by done. cbv beta iota.
    rewrite lift_bind_run, ok_bind, lift_bind_run, Hin, bool_decide_true by done. cbn [assert_].
    rewrite ok_bind, bind_run, Hlog. cbv beta iota. rewrite bind_run, (data_list_run s sd l) by done. reflexivity. }
  rewrite Erun, lift_bind_run. clear Erun.
  destruct (tuio_probe (tu_type st) l) as [[type|]|] eqn:Hprobe; rewrite ?ok_bind; [| |done].
  2: { unfold tuio_probe in Hprobe. destruct (tu_type st); try done. destruct l as [|c l']; [done|]. by inv_res. }
  split. { unfold tuio_probe in Hprobe. destruct (tu_type st); try done; by simplify_eq. }
  unfold tuio_send_frame. rewrite lift_bind_run, alive_start by done. unfold tuio_frame.
  destruct (map_res alive_id l) as [ids|] eqn:Hids; [|done]. rewrite !ok_bind, bind_run.
  unfold new_bundle, new_bundle_at. cbn [Add_message app]. rewrite (tuio_sets_spec _ _ _ _ _ _ _ _ _ Hr).
  destruct (map_res (set_args type sendsize) l) as [sets|] eqn:Hsets; [|done]. rewrite !ok_bind. cbv beta iota.
  rewrite lift_bind_run, fseq_message, ok_bind. cbn [Add_message app].
  set (ms := _ :: (msg (tuio_path type) <$> sets) ++ _).
  destruct (tuio_frame_ok type sendsize (tu_fseq st) l ms) as [Hok Hfit]; [|done..|].
  { unfold tuio_frame. by rewrite Hids, ok_bind, Hsets. }
  set (b := Bundle _ ms []) in *.
  assert (Hb : bundle_ok b) by (by constructor; [split; [done|]|..]).
  rewrite bind_run, Hlog. cbv beta iota. rewrite lift_bind_run, Ho. cbn [deref]. rewrite ok_bind, lift_bind_run.
  rewrite send_bundle_spec, ok_bind, bind_run, Hlog by done. cbv beta iota.
  eexists. split; [reflexivity|]. cbn [d_ip d_port d_payload]. split; [done|]. split; [done|].
  pose proof (parse_bundle_spec b Hb Hfit (length (bundle_bytes b)) [] (le_n _)) as Hparse.
  by rewrite app_nil_r in Hparse.
Qed.

Definition demo_cursor (id : Z) (x : string) : container :=
  put_prop "blob_id" (alloc MO_PROPERTY_INTEGER (VInt id) EmptyString)
    (put_prop "x" (string_prop x)
      (put_prop "y" (string_prop "0.25")
        (put_prop "implements" (string_prop "pos,tracked") new_container))).
Lemma demo_cursor_wf id x : in_int id = true → container_wf (demo_cursor id x).
Proof.
  intros Hi. repeat apply put_prop_wf; try apply string_prop_wf; [apply new_container_wf|].
  by apply (alloc_wf (VInt id)).
Qed.
Definition demo_tuio : moModule :=
  upd_m_properties (λ ps, insert "sendsize" (alloc MO_PROPERTY_BOOL (VBool true) EmptyString)
      (insert "id" (string_prop "tuio_1") ps))
    (set_field "input" (Some 0%nat) (new_module "Tuio" "t" "native" MO_MODULE_INPUT 1)).
Definition demo_cursors : container_list := [demo_cursor 4 "0.5"; demo_cursor 9 "0.75"].
Definition demo_tuio_world : world :=
  put_module 1 demo_tuio (put_stream 0 (s_setData (Some (PBlobs demo_cursors)) (new_stream "trackedblob")) world0).
Definition demo_tuio_state : tuio_state :=
  {| tu_osc := Some (new_moOSC 3 "127.0.0.1" 3333); tu_fseq := 7; tu_type := TUIO_UNKNOWN |}.

Lemma demo_cursors_wf : Forall container_wf demo_cursors.
Proof. apply Forall_cons; split; [|apply Forall_cons; split; [|apply Forall_nil_2]]; by apply demo_cursor_wf. Qed.
Lemma demo_tuio_ready : tuio_ready 1 0 demo_tuio true demo_cursors demo_tuio_world.
Proof. split; [reflexivity..|by eexists _, _|by eexists|by eexists]. Qed.

Lemma demo_probe : tuio_probe (tu_type demo_tuio_state) demo_cursors = Ok (Some TUIO_2DCUR).
Proof. vm_compute. reflexivity. Qed.
Definition demo_messages : list WOscMessage :=
  Eval vm_compute in
    match tuio_frame TUIO_2DCUR true 7 demo_cursors with Ok ms => ms | Fault _ => [] end.
Lemma demo_frame : tuio_frame TUIO_2DCUR true 7 demo_cursors = Ok demo_messages.
Proof. vm_compute. reflexivity. Qed.

(** Two cursors: the receiver sees both ids alive, two set messages and the
    sequence number 7. *)
Lemma tuio_frame_sent_witness :
  ∃ d, tuio_notifyData 1 (Some 0%nat) demo_tuio_state demo_tuio_world
       = Ok (({| tu_osc := Some (new_moOSC 3 "127.0.0.1" 3333); tu_fseq := 8; tu_type := TUIO_2DCUR |}, Some d),
             demo_tuio_world)
    ∧ d_port d = 3333
    ∧ (b ← parse_bundle (length (d_payload d)) (d_payload d) (zlen (d_payload d));
       match b with Good b => Some (wm_ints <$> b_messages b) | _ => None end)
      = Some [[4; 9]; [4]; [9]; [7]].
Proof.
  pose proof (tuio_frame_sent 1 0 demo_tuio true demo_cursors demo_tuio_world demo_tuio_state
    (new_moOSC 3 "127.0.0.1" 3333) demo_tuio_ready eq_refl eq_refl
    demo_cursors_wf ltac:(vm_compute; congruence)) as H.
  rewrite demo_probe in H. destruct H as [_ H]. cbn [tu_fseq demo_tuio_state] in H. rewrite demo_frame in H.
  destruct H as (d & Hrun & _ & Hport & Hparse). exists d. split; [exact Hrun|]. split; [exact Hport|].
  rewrite Hparse. reflexivity.
Defined.
