(* ===== verification/Tuio2Spec.v ===== *)
(** What the TUIO 2 sender puts on the wire (moTuio2Module.cpp): every message of
    the frame, the alive list, the pointers, bounds and tokens, and the relations
    between a node and its children. *)
From S2P Require Import Prelude StdMap Numeric Utils Property Container Module World Wiring.
From S2P Require Import Lifecycle Tracker OscData OscMessage OscCodec OscBundle Tuio TuioSpec.
#[local] Open Scope Z_scope.

(** ** TUIO 2, the reference *)

(** What the sender reads of a blob. *)
Definition int_of (k : string) (c : container) : Z := match get_int k c with Ok i => i | Fault _ => 0 end.
Definition float_of (k : string) (c : container) : arg :=
  fl (match get_double k c with Ok d => d | Fault _ => dzero end).
Definition implements (w : string) (c : container) : bool :=
  match implements_in w c with Ok b => b | Fault _ => false end.

(** [/tuio2/ptr s tu_id c_id x y w press], [/tuio2/bnd s x y a w h f] and
    [/tuio2/tok s tu_id c_id x y a]. *)
Definition ptr_message (c : container) : WOscMessage :=
  let s := int_of "blob_id" c in
  msg (bytes_of "/tuio2/ptr") [AInt s; AInt 1; AInt s; float_of "x" c; float_of "y" c; AInt 0; AInt 1].
Definition bnd_message (c : container) : WOscMessage :=
  msg (bytes_of "/tuio2/bnd")
    [AInt (int_of "blob_id" c); float_of "x" c; float_of "y" c; fl dzero;
     float_of "width" c; float_of "height" c; fl (d_of_Z 1)].
Definition tok_message (c : container) : WOscMessage :=
  let s := int_of "blob_id" c in
  msg (bytes_of "/tuio2/tok") [AInt s; AInt s; AInt s; float_of "x" c; float_of "y" c; float_of "angle" c].

Definition cursor_messages (c : container) : list WOscMessage :=
  ptr_message c :: (if implements "size" c then [bnd_message c] else []).
Definition component_messages (l : container_list) : list WOscMessage :=
  match l with
  | [] => []
  | c :: _ => if implements "fiducial" c then tok_message <$> l else l ≫= cursor_messages
  end.

(** The ids of the tracked blobs, the blob of every tracked node, and for every
    tracked node with a parent its blob and its parent's node. *)
Definition tracked_id (c : container) : option Z :=
  if implements "tracked" c then Some (int_of "blob_id" c) else None.
Definition tracked_ids (l : container_list) : list Z := omap tracked_id l.
Definition add_node (m : smap Z Z) (c : container) : smap Z Z :=
  if implements "tracked" c && implements "node" c then insert (int_of "node_id" c) (int_of "blob_id" c) m else m.
Definition node_blobs (l : container_list) : smap Z Z := foldl add_node [] l.
Definition link (c : container) : option (Z * Z) :=
  if implements "tracked" c && implements "node" c && hasProperty "parent_node_id" c
  then Some (int_of "blob_id" c, int_of "parent_node_id" c) else None.
Definition links (l : container_list) : list (Z * Z) := omap link l.
Definition blob_of (m : smap Z Z) (node : Z) : Z := default 0 (find node m).
Definition child_of (p : Z) (c : container) : option Z :=
  if implements "node" c && hasProperty "parent_node_id" c && (int_of "parent_node_id" c =? p)
  then Some (int_of "blob_id" c) else None.
Definition children (p : Z) (l : container_list) : list Z := omap (child_of p) l.

(** The elements that differ from the one before them: what is left of a list
    when each run of equal neighbours becomes one element. *)
Definition changes_after (prev : option Z) (l : list Z) : list Z :=
  (filter (λ p, p.1 ≠ Some p.2) (zip (prev :: (Some <$> l)) l)).*2.
Definition changes (l : list Z) : list Z := changes_after None l.

(** [/tuio2/ala parents... blobs...], then per parent [/tuio2/coa blob 0 children...]. *)
Definition ala_message (l : container_list) : WOscMessage :=
  msg (bytes_of "/tuio2/ala")
    (AInt <$> (blob_of (node_blobs l) <$> changes (links l).*2) ++ changes (links l).*1).
Definition coa_message (l : container_list) (p : Z) : WOscMessage :=
  msg (bytes_of "/tuio2/coa") (AInt <$> blob_of (node_blobs l) p :: 0 :: children p l).
Definition relation_messages (l : container_list) : list WOscMessage :=
  match links l with
  | [] => []
  | _ => ala_message l :: (coa_message l <$> changes (links l).*2)
  end.

Definition frm_message (frame now : Z) : WOscMessage :=
  msg (bytes_of "/tuio2/frm") [AInt frame; AInt now; word "movid"].
Definition alv_message (l : container_list) : WOscMessage :=
  msg (bytes_of "/tuio2/alv") (AInt <$> tracked_ids l).

(** The messages of one frame. *)
Definition tuio2_frame (frame now : Z) (l : container_list) : list WOscMessage :=
  frm_message frame now :: alv_message l :: component_messages l ++ relation_messages l.

(** ** Readable blobs *)

(** A blob with the properties the sender reads. *)
Record blob2 (c : container) : Prop := {
  b2_wf : container_wf c;
  b2_implements : is_ok (get_string "implements" c) = true;
  b2_id : is_ok (get_int "blob_id" c) = true;
  b2_x : is_ok (get_double "x" c) = true;
  b2_y : is_ok (get_double "y" c) = true;
  b2_width : implements "size" c = true → is_ok (get_double "width" c) = true;
  b2_height : implements "size" c = true → is_ok (get_double "height" c) = true;
  b2_node : implements "node" c = true → is_ok (get_int "node_id" c) = true;
}.
(** The list: readable blobs, with an angle when the first one is a fiducial. *)
Definition readable2 (l : container_list) : Prop :=
  Forall blob2 l ∧
  (match l with [] => false | c :: _ => implements "fiducial" c end = true →
   Forall (λ c, is_ok (get_double "angle" c) = true) l).

Section blob.
  Context (c : container).
  Hypothesis Hc : blob2 c.

Lemma implements_run w : implements_in w c = Ok (implements w c).
Proof.
  unfold implements, implements_in. destruct Hc as [_ H _ _ _ _ _ _].
  destruct (get_string "implements" c); [|done]. by rewrite ok_bind, inList_words.
Qed.
Lemma int_run k : is_ok (get_int k c) = true → get_int k c = Ok (int_of k c) ∧ in_int (int_of k c) = true.
Proof.
  intros H. unfold int_of. destruct (get_int k c) as [i|] eqn:E; [|done]. split; [done|].
  eapply get_int_range; [apply Hc|done].
Qed.
Lemma id_run : get_int "blob_id" c = Ok (int_of "blob_id" c).
Proof. apply int_run, Hc. Qed.
Lemma id_range : in_int (int_of "blob_id" c) = true.
Proof. apply int_run, Hc. Qed.
Lemma parent_run :
  hasProperty "parent_node_id" c = true → get_int "parent_node_id" c = Ok (int_of "parent_node_id" c).
Proof.
  intros H. apply int_run. destruct Hc as [[_ Hp] _ _ _ _ _ _ _]. unfold hasProperty in H. unfold get_int, prop_at.
  destruct (find "parent_node_id" (c_properties c)) as [p|] eqn:E; [|done]. simpl.
  destruct (Hp _ _ E) as [(v & Hv & Ht & _) _]. unfold asInteger. rewrite Hv, <-Ht. by destruct v.
Qed.
Lemma float_prop_run k m : is_ok (get_double k c) = true → add_float_prop k c m = add_float
  (match get_double k c with Ok d => d | Fault _ => dzero end) m.
Proof. intros H. unfold add_float_prop. by destruct (get_double k c). Qed.
Lemma int_prop_run k m : is_ok (get_int k c) = true → add_int_prop k c m = add_int (int_of k c) m.
Proof. intros H. unfold add_int_prop, int_of. by destruct (get_int k c). Qed.
End blob.

(** ** Messages *)

(** An argument that is in range and not a blob. *)
Definition plain (a : arg) : Prop :=
  arg_ok a ∧ small a ∧ match a with ABlob _ => False | _ => True end.
Lemma plain_fit args i j : Forall plain args → blobs_fit i j args = true.
Proof.
  intros H. revert i j. induction H as [|a args (_ & _ & Ha) _ IH]; intros i j; [done|]. destruct a; simpl; auto.
Qed.
Lemma plain_int i : in_int i = true → plain (AInt i).
Proof. intros. split_and!; [done|apply small_int|done]. Qed.
Lemma plain_float d : plain (fl d).
Proof. split_and!; [apply fl_ok|apply small_float|done]. Qed.
Lemma plain_movid : plain (word "movid").
Proof. split_and!; [by apply word_ok|by apply small_word|done]. Qed.

Definition path2 (p : list Z) : Prop := zlen p <= 64 ∧ head p = Some c_slash ∧ 0 ∉ p.
Lemma paths path :
  bool_decide (path ∈ ["/tuio2/frm"; "/tuio2/alv"; "/tuio2/ptr"; "/tuio2/bnd"; "/tuio2/tok"; "/tuio2/ala"; "/tuio2/coa"]) = true →
  path2 (bytes_of path).
Proof.
  intros H%bool_decide_eq_true. rewrite !elem_of_cons, elem_of_nil in H.
  destruct H as [->|[->|[->|[->|[->|[->|[->|[]]]]]]]];
    (split; [vm_compute; congruence|split; [done|by apply (bool_decide_unpack _)]]).
Qed.
Lemma start_run {A} path (k : WOscMessage → res A) :
  bool_decide (path ∈ ["/tuio2/frm"; "/tuio2/alv"; "/tuio2/ptr"; "/tuio2/bnd"; "/tuio2/tok"; "/tuio2/ala"; "/tuio2/coa"]) = true →
  osc_message path ≫= k = k (msg (bytes_of path) []).
Proof. intros (Hp & Hh & H0)%paths. rewrite osc_message_msg; [done|by split_and!|done..]. Qed.

(** A proper message of at most [n] plain arguments. *)
Definition sized_message (n : Z) (m : WOscMessage) : Prop :=
  ∃ p args, m = msg p args ∧ path2 p ∧ Forall plain args ∧ zlen args <= n.
Lemma sized_short n m :
  sized_message n m → n <= 2 ^ 24 → message_ok m ∧ zlen (wm_buffer m) <= 80 + 9 * n.
Proof.
  intros (p & args & -> & (Hp & Hh & H0) & Ha & Hl) Hn.
  assert (Hs : short p args) by (split_and!; [done| |lia]; eapply Forall_impl; [exact Ha|intros ? (_ & ? & _); done]).
  split; [apply short_ok; try done; [eapply Forall_impl; [exact Ha|by intros ? [? _]]|by apply plain_fit]|].
  apply (short_bound p args); [done|lia].
Qed.
Lemma sized_mono n n' m : sized_message n m → n <= n' → sized_message n' m.
Proof. intros (p & args & -> & ? & ? & ?) ?. exists p, args. split_and!; [done..|lia]. Qed.

Definition ints (l : list Z) : Prop := Forall (λ i, in_int i = true) l.
Lemma ints_sized p l n : path2 p → ints l → zlen l <= n → sized_message n (msg p (AInt <$> l)).
Proof.
  intros Hp Hi Hl. exists p, (AInt <$> l). split_and!; try done; [|unfold zlen in *; by rewrite length_fmap].
  apply Forall_fmap. eapply Forall_impl; [exact Hi|]. apply plain_int.
Qed.
(** One more id in a message of ids. *)
Lemma ids_add {A} p l i (k : WOscMessage → res A) :
  path2 p → zlen l < 2 ^ 24 → add_int i (msg p (AInt <$> l)) ≫= k = k (msg p (AInt <$> l ++ [i])).
Proof.
  intros (Hp & _ & _) Hl. rewrite fmap_app. apply add_int_bind. split_and!; [done| |].
  - apply Forall_app_2; [apply ints_small|constructor; [apply small_int|done]].
  - rewrite zlen_app. unfold zlen in *. rewrite length_fmap. simpl. lia.
Qed.
Lemma zlen_snoc {A} (l : list A) a : zlen (l ++ [a]) = zlen l + 1.
Proof. rewrite zlen_app. done. Qed.

Ltac plains := repeat (apply Forall_cons; split;
  [first [apply plain_float|by apply plain_int|apply plain_movid|apply plain_int; by apply id_range]|]); apply Forall_nil_2.
(** A message written by hand is sized. *)
Ltac sized := eexists _, _; split; [reflexivity|]; split; [by apply paths|]; split; [plains|unfold zlen; cbn [length]; lia].

Section components.
  Context (c : container).
  Hypothesis Hc : blob2 c.

(** Run one call that adds an argument. *)
Ltac run_add :=
  first [rewrite int_prop_run by apply Hc | rewrite float_prop_run by solve [done | apply Hc] | idtac];
  first [ rewrite (add_int_bind _ []) by shorts | rewrite add_int_bind by shorts
        | rewrite add_float_bind by shorts
        | rewrite add_int_msg by shorts | rewrite add_float_last by shorts ]; cbn [app].

Lemma ptr_run : tuio2_ptr c = Ok (ptr_message c).
Proof.
  unfold tuio2_ptr. rewrite start_run by done. pose proof (paths "/tuio2/ptr" eq_refl) as (Hp & _ & _).
  unfold ptr_message. set (p := bytes_of "/tuio2/ptr") in *. by do 7 run_add.
Qed.
Lemma bnd_run : implements "size" c = true → tuio2_bnd c = Ok (bnd_message c).
Proof.
  intros Hs. pose proof (b2_width c Hc Hs). pose proof (b2_height c Hc Hs).
  unfold tuio2_bnd. rewrite start_run by done. pose proof (paths "/tuio2/bnd" eq_refl) as (Hp & _ & _).
  unfold bnd_message. set (p := bytes_of "/tuio2/bnd") in *. by do 7 run_add.
Qed.
Lemma tok_run : is_ok (get_double "angle" c) = true → tuio2_tok c = Ok (tok_message c).
Proof.
  intros Ha. unfold tuio2_tok. rewrite start_run by done. pose proof (paths "/tuio2/tok" eq_refl) as (Hp & _ & _).
  unfold tok_message. set (p := bytes_of "/tuio2/tok") in *. by do 6 run_add.
Qed.

Lemma ptr_sized : sized_message 7 (ptr_message c).
Proof. sized. Qed.
Lemma bnd_sized : sized_message 7 (bnd_message c).
Proof. sized. Qed.
Lemma tok_sized : sized_message 7 (tok_message c).
Proof. sized. Qed.
End components.

Lemma packBlob_run l ms :
  Forall blob2 l →
  packBlob l (Bundle GetImmediateTime ms []) = Ok (Bundle GetImmediateTime (ms ++ (l ≫= cursor_messages)) []).
Proof.
  intros Hl. revert ms. induction Hl as [|c l Hc Hl IH]; intros ms; [cbn; by rewrite app_nil_r|].
  cbn [packBlob]. rewrite ptr_run, ok_bind, implements_run, ok_bind by done. cbn [Add_message].
  rewrite bind_cons. unfold cursor_messages at 1. destruct (implements "size" c) eqn:E.
  - rewrite bnd_run, !ok_bind by done. cbn [Add_message]. rewrite IH. by rewrite <-!app_assoc.
  - rewrite ok_bind, IH. by rewrite <-!app_assoc.
Qed.
Lemma packFiducial_run l ms :
  Forall blob2 l → Forall (λ c, is_ok (get_double "angle" c) = true) l →
  packFiducial l (Bundle GetImmediateTime ms []) = Ok (Bundle GetImmediateTime (ms ++ (tok_message <$> l)) []).
Proof.
  intros Hl. revert ms. induction Hl as [|c l Hc Hl IH]; intros ms Ha; [cbn; by rewrite app_nil_r|].
  apply Forall_cons in Ha as [Hac Ha]. cbn [packFiducial]. rewrite tok_run, ok_bind by done. cbn [Add_message].
  rewrite IH by done. by rewrite <-!app_assoc.
Qed.

(** ** The alive list *)

Lemma alive_one c ids m links :
  blob2 c → zlen ids < 2 ^ 24 →
  tuio2_alive_one c {| al_msg := msg (bytes_of "/tuio2/alv") (AInt <$> ids); al_map := m;
                       al_blob := links.*1; al_parent := links.*2 |}
  = Ok {| al_msg := msg (bytes_of "/tuio2/alv") (AInt <$> ids ++ option_list (tracked_id c));
          al_map := add_node m c; al_blob := (links ++ option_list (link c)).*1;
          al_parent := (links ++ option_list (link c)).*2 |}.
Proof.
  intros Hc Hl. unfold tuio2_alive_one, tracked_id, add_node, link. rewrite (implements_run c Hc "tracked"). rewrite ok_bind.
  destruct (implements "tracked" c); [|by rewrite !app_nil_r]. cbn [andb al_msg al_map al_blob al_parent option_list].
  rewrite id_run, ok_bind, ids_add by (done || by apply paths). cbv beta. rewrite implements_run, ok_bind by done.
  destruct (implements "node" c) eqn:En; [|by rewrite !app_nil_r]. cbn [andb].
  destruct (int_run c Hc "node_id") as [-> _]; [by apply Hc|]. rewrite ok_bind.
  destruct (hasProperty "parent_node_id" c) eqn:Ep; [|by rewrite !app_nil_r].
  rewrite parent_run, ok_bind by done. cbn [option_list]. by rewrite !fmap_app.
Qed.
Lemma omap_step {A B} (f : A → option B) (k : list B) a l :
  (k ++ option_list (f a)) ++ omap f l = k ++ omap f (a :: l).
Proof. rewrite <-app_assoc. simpl. by destruct (f a). Qed.
Lemma omap_zlen {A B} (f : A → option B) l : zlen (omap f l) <= zlen l.
Proof.
  induction l as [|a l IH]; [done|]. rewrite zlen_cons. change (omap f (a :: l)) with
    (match f a with Some b => b :: omap f l | None => omap f l end). destruct (f a); rewrite ?zlen_cons; lia.
Qed.
Lemma alive_run l ids m lk :
  Forall blob2 l → zlen ids + zlen l <= 2 ^ 24 →
  tuio2_alive l {| al_msg := msg (bytes_of "/tuio2/alv") (AInt <$> ids); al_map := m;
                   al_blob := lk.*1; al_parent := lk.*2 |}
  = Ok {| al_msg := msg (bytes_of "/tuio2/alv") (AInt <$> ids ++ tracked_ids l);
          al_map := foldl add_node m l; al_blob := (lk ++ links l).*1; al_parent := (lk ++ links l).*2 |}.
Proof.
  intros Hl. revert ids m lk. induction Hl as [|c l Hc Hl IH]; intros ids m lk Hn.
  { cbn. by rewrite !app_nil_r. }
  rewrite zlen_cons in Hn. pose proof (zlen_nonneg l). cbn [tuio2_alive]. rewrite alive_one by (done || lia). rewrite ok_bind.
  assert (Ho : zlen (option_list (tracked_id c)) <= 1) by (destruct (tracked_id c); by vm_compute).
  rewrite IH by (rewrite zlen_app; lia). unfold tracked_ids, links. by rewrite !omap_step.
Qed.

(** ** Relations *)

Lemma changes_cons p x l :
  changes_after p (x :: l) = (if decide (p = Some x) then [] else [x]) ++ changes_after (Some x) l.
Proof.
  unfold changes_after. cbn [fmap list_fmap zip zip_with]. rewrite filter_cons. cbn [fst snd].
  destruct (decide (p = Some x)); [rewrite decide_False by tauto|rewrite decide_True by done]; done.
Qed.
(** [std::list::unique] leaves exactly the changes. *)
Lemma unique_changes l : unique l = changes l.
Proof.
  assert (H : ∀ x k, unique (x :: k) = x :: changes_after (Some x) k).
  { intros x k. revert x. induction k as [|y k IH]; intros x; [done|].
    change (unique (x :: y :: k)) with (match unique (y :: k) with [] => [x]
      | z :: r => if x =? z then z :: r else x :: z :: r end). rewrite IH, changes_cons.
    destruct (Z.eqb_spec x y) as [->|Hn]; [by rewrite decide_True|by rewrite decide_False by congruence]. }
  destruct l as [|x l]; [done|]. unfold changes. by rewrite H, changes_cons, decide_False.
Qed.
Lemma unique_len l : zlen (unique l) <= zlen l.
Proof.
  induction l as [|x l IH]; [done|]. simpl. rewrite zlen_cons in *.
  destruct (unique l) as [|y k]; [unfold zlen in *; simpl in *; lia|]. case_match; rewrite ?zlen_cons in *; lia.
Qed.
Lemma unique_sub l x : x ∈ unique l → x ∈ l.
Proof.
  induction l as [|y l IH]; [done|]. simpl. rewrite elem_of_cons.
  destruct (unique l) as [|z k]; [set_solver|]. case_match; set_solver.
Qed.

(** [map_node_blob[id]] adds zeros, which change no later lookup. *)
Lemma map_index_run p (m m0 : smap Z Z) :
  (∀ k, blob_of m k = blob_of m0 k) →
  (map_index p m).1 = blob_of m0 p ∧ ∀ k, blob_of (map_index p m).2 k = blob_of m0 k.
Proof.
  intros Hm. rewrite <-Hm. unfold map_index, blob_of at 1. destruct (find p m) as [v|] eqn:E; [by split|].
  split; [done|]. intros k. rewrite <-Hm. cbn [snd]. unfold blob_of.
  destruct (decide (p = k)) as [->|Hk]; [by rewrite find_insert_eq, E|by rewrite find_insert_ne].
Qed.

Section relations.
  Context (path : list Z) (Hpath : path2 path).

Lemma add_ints_run l ids :
  zlen ids + zlen l <= 2 ^ 24 → add_ints l (msg path (AInt <$> ids)) = Ok (msg path (AInt <$> ids ++ l)).
Proof.
  revert ids. induction l as [|i l IH]; intros ids Hl; [by rewrite app_nil_r|].
  rewrite zlen_cons in Hl. pose proof (zlen_nonneg l). cbn [add_ints]. rewrite ids_add by (done || lia).
  rewrite IH by (rewrite zlen_snoc; lia). by rewrite <-app_assoc.
Qed.
Lemma add_parents_run l m m0 ids :
  (∀ k, blob_of m k = blob_of m0 k) → zlen ids + zlen l <= 2 ^ 24 →
  ∃ m', add_parents l m (msg path (AInt <$> ids)) = Ok (msg path (AInt <$> ids ++ (blob_of m0 <$> l)), m')
        ∧ ∀ k, blob_of m' k = blob_of m0 k.
Proof.
  revert m ids. induction l as [|p l IH]; intros m ids Hm Hl; [exists m; by rewrite app_nil_r|].
  rewrite zlen_cons in Hl. pose proof (zlen_nonneg l). cbn [add_parents].
  destruct (map_index_run p m m0 Hm) as [Hv Hm']. destruct (map_index p m) as [v m']. cbn [fst snd] in *. subst v.
  rewrite ids_add by (done || lia). destruct (IH m' (ids ++ [blob_of m0 p]) Hm') as (m'' & -> & Hm''); [rewrite zlen_snoc; lia|].
  exists m''. by rewrite <-app_assoc.
Qed.
Lemma add_children_run p l ids :
  Forall blob2 l → zlen ids + zlen l <= 2 ^ 24 →
  add_children p l (msg path (AInt <$> ids)) = Ok (msg path (AInt <$> ids ++ children p l)).
Proof.
  intros Hl. revert ids. induction Hl as [|c l Hc Hl IH]; intros ids Hn; [cbn; by rewrite app_nil_r|].
  rewrite zlen_cons in Hn. pose proof (zlen_nonneg l). cbn [add_children]. rewrite (implements_run c Hc "node"), ok_bind.
  unfold children. rewrite <-omap_step. unfold child_of at 1. fold (children p l).
  destruct (implements "node" c && hasProperty "parent_node_id" c) eqn:E; cbn [andb option_list];
    [|rewrite app_nil_r; apply IH; lia].
  apply andb_true_iff in E as [_ E]. rewrite parent_run, ok_bind by done.
  destruct (int_of "parent_node_id" c =? p); cbn [negb option_list]; [|rewrite app_nil_r; apply IH; lia].
  rewrite int_prop_run by apply Hc. rewrite ids_add by (done || lia). apply IH. rewrite zlen_app.
  unfold zlen in *. simpl. lia.
Qed.
End relations.

Lemma coa_run ps m l ms :
  Forall blob2 l → zlen l <= 2 ^ 20 → (∀ k, blob_of m k = blob_of (node_blobs l) k) →
  tuio2_coa ps m l (Bundle GetImmediateTime ms []) = Ok (Bundle GetImmediateTime (ms ++ (coa_message l <$> ps)) []).
Proof.
  intros Hl Hn. revert m ms. induction ps as [|p ps IH]; intros m ms Hm; [cbn; by rewrite app_nil_r|].
  cbn [tuio2_coa]. destruct (map_index_run p m _ Hm) as [Hv Hm']. destruct (map_index p m) as [v m']. cbn [fst snd] in *.
  subst v. rewrite start_run by done. pose proof (paths "/tuio2/coa" eq_refl) as Hp.
  change (msg (bytes_of "/tuio2/coa") []) with (msg (bytes_of "/tuio2/coa") (AInt <$> [])).
  rewrite !ids_add by done. cbn [app]. rewrite add_children_run by (done || (unfold zlen in *; simpl; lia)).
  rewrite ok_bind. cbn [Add_message]. rewrite IH by done. by rewrite <-app_assoc.
Qed.

(** ** The bundle of a frame *)

Lemma frm_run {A} frame now (k : WOscMessage → res A) :
  (m ← osc_message "/tuio2/frm"; m ← add_int frame m; m ← add_int now m; m ← add_str "movid" m; k m)
  = k (frm_message frame now).
Proof.
  rewrite start_run by done. pose proof (paths "/tuio2/frm" eq_refl) as (Hp & _ & _). unfold frm_message.
  set (p := bytes_of "/tuio2/frm") in *. pose proof (small_word "movid" eq_refl) as [Hw Hz].
  rewrite (add_int_bind p []) by shorts. cbn [app]. rewrite add_int_bind by shorts. cbn [app].
  by rewrite (add_str_msg p [AInt frame; AInt now]) by (done || shorts).
Qed.

Lemma component_run l ms :
  readable2 l →
  (format ← probe l;
   match format with
   | TUIO2_FIDUCIAL => b ← packFiducial l (Bundle GetImmediateTime ms []); Ok (b, true)
   | TUIO2_CURSOR => b ← packBlob l (Bundle GetImmediateTime ms []); Ok (b, true)
   | TUIO2_UNKNOWN => Ok (Bundle GetImmediateTime ms [], false)
   end)
  = Ok (Bundle GetImmediateTime (ms ++ component_messages l) [], negb (bool_decide (l = []))).
Proof.
  intros [Hl Ha]. destruct l as [|c l']; [cbn; by rewrite app_nil_r|]. set (l := c :: l') in *.
  assert (Hc : blob2 c) by by apply Forall_cons in Hl as [? _].
  assert (Hp : probe l = Ok (if implements "fiducial" c then TUIO2_FIDUCIAL else TUIO2_CURSOR)).
  { unfold l. cbn [probe]. by rewrite (implements_run c Hc "fiducial"). }
  assert (Em : component_messages l = if implements "fiducial" c then tok_message <$> l else l ≫= cursor_messages) by done.
  rewrite Hp, Em, ok_bind, bool_decide_false by done. destruct (implements "fiducial" c) eqn:E.
  - by rewrite packFiducial_run by (done || by apply Ha).
  - by rewrite packBlob_run.
Qed.

Lemma links_len l : zlen (unique (links l).*1) <= zlen l ∧ zlen (unique (links l).*2) <= zlen l.
Proof.
  pose proof (omap_zlen link l) as H. fold (links l) in H. pose proof (unique_len (links l).*1) as H1.
  pose proof (unique_len (links l).*2) as H2. unfold zlen in *. rewrite length_fmap in *. lia.
Qed.

Lemma tuio2_bundle_run frame now l :
  readable2 l → zlen l <= 2 ^ 12 →
  tuio2_bundle frame now l = Ok (Bundle GetImmediateTime (tuio2_frame frame now l) [], negb (bool_decide (l = []))).
Proof.
  intros Hr Hl. unfold tuio2_bundle. rewrite frm_run, start_run by done. pose proof (zlen_nonneg l).
  assert (Ea : tuio2_alive l {| al_msg := msg (bytes_of "/tuio2/alv") []; al_map := []; al_blob := []; al_parent := [] |}
    = Ok {| al_msg := alv_message l; al_map := node_blobs l; al_blob := (links l).*1; al_parent := (links l).*2 |})
    by (apply (alive_run l [] [] []); [apply Hr|unfold zlen in *; simpl; lia]).
  rewrite Ea, ok_bind. cbn [al_msg al_map al_blob al_parent]. unfold new_bundle, new_bundle_at. cbn [Add_message app].
  pose proof (component_run l [frm_message frame now; alv_message l] Hr) as Ec.
  destruct (probe l) as [fmt|]; [|done]. rewrite ok_bind in *. rewrite Ec, ok_bind.
  assert (Ef : tuio2_frame frame now l
    = [frm_message frame now; alv_message l] ++ component_messages l ++ relation_messages l) by done.
  rewrite Ef. unfold relation_messages, ala_message. rewrite <-!unique_changes. destruct (links_len l) as [H1 H2]. destruct (links l) as [|x lk] eqn:El.
  { rewrite bool_decide_true by done. by rewrite app_nil_r. }
  rewrite bool_decide_false by done. rewrite start_run by done. rewrite <-El in *. pose proof (paths "/tuio2/ala" eq_refl) as Hp.
  destruct (add_parents_run _ Hp (unique (links l).*2) (node_blobs l) (node_blobs l) []) as (m' & E & Hm'); [done|unfold zlen in *; simpl; lia|].
  change (msg (bytes_of "/tuio2/ala") []) with (msg (bytes_of "/tuio2/ala") (AInt <$> [])).
  rewrite E, ok_bind. cbn [fst snd app]. rewrite add_ints_run by (done || (unfold zlen in *; rewrite length_fmap; lia)).
  rewrite ok_bind. cbn [Add_message]. fold (ala_message l). rewrite coa_run by (apply Hr || lia || done).
  rewrite ok_bind. cbn [app]. by rewrite <-!app_assoc.
Qed.

(** ** The bundle fits *)

Lemma omap_ints f l :
  Forall blob2 l → (∀ c i, blob2 c → f c = Some i → in_int i = true) → ints (omap f l).
Proof.
  intros Hl Hf. apply Forall_forall. intros i (c & Hc & Hi)%list_elem_of_omap.
  eapply Hf; [|exact Hi]. by eapply (proj1 (Forall_forall _ _)).
Qed.
Lemma tracked_ids_ints l : Forall blob2 l → ints (tracked_ids l).
Proof.
  intros Hl. apply omap_ints; [done|]. intros c i Hc. unfold tracked_id. case_match; [|done].
  intros [= <-]. by apply id_range.
Qed.
Lemma children_ints p l : Forall blob2 l → ints (children p l).
Proof.
  intros Hl. apply omap_ints; [done|]. intros c i Hc. unfold child_of. case_match; [|done].
  intros [= <-]. by apply id_range.
Qed.
Lemma linked_ints l : Forall blob2 l → ints (unique (links l).*1).
Proof.
  intros Hl. apply Forall_forall. intros i Hi%unique_sub. apply list_elem_of_fmap in Hi as ([j q] & -> & Hj).
  apply list_elem_of_omap in Hj as (c & Hc & Hj). unfold link in Hj. case_match; [|done].
  injection Hj as <- _. apply id_range. by eapply (proj1 (Forall_forall _ _)).
Qed.
Lemma blob_of_range l p : Forall blob2 l → in_int (blob_of (node_blobs l) p) = true.
Proof.
  intros Hl. unfold node_blobs. assert (H0 : ∀ p, in_int (blob_of [] p) = true) by done. revert H0.
  generalize (@nil (Z * Z)) as m. induction Hl as [|c l Hc Hl IH]; intros m Hm; [apply Hm|]. cbn [foldl]. apply IH.
  intros q. unfold add_node. case_match; [|done]. unfold blob_of.
  destruct (decide (int_of "node_id" c = q)) as [->|Hq].
  - rewrite find_insert_eq. by apply id_range.
  - rewrite find_insert_ne by done. apply Hm.
Qed.

Section fits.
  Context (l : container_list) (Hr : readable2 l) (Hl : zlen l <= 2 ^ 12).

Lemma component_sized : Forall (sized_message 7) (component_messages l) ∧ zlen (component_messages l) <= 2 * zlen l.
Proof.
  destruct Hr as [Hb _]. clear Hr Hl. unfold component_messages. destruct l as [|c l'] eqn:E; [done|]. rewrite <-E in *. clear E.
  case_match.
  - split; [apply Forall_fmap; eapply Forall_impl; [exact Hb|apply tok_sized]|unfold zlen; rewrite length_fmap; lia].
  - clear - Hb. induction Hb as [|c l Hc _ [IH1 IH2]]; [done|]. rewrite bind_cons, zlen_app, zlen_cons.
    unfold cursor_messages at 1 3. split.
    + apply Forall_app_2; [|done]. constructor; [by apply ptr_sized|]. case_match; [|done].
      constructor; [by apply bnd_sized|done].
    + case_match; unfold zlen in *; simpl; lia.
Qed.
Lemma relation_sized :
  Forall (sized_message (2 + 2 ^ 13)) (relation_messages l) ∧ zlen (relation_messages l) <= 1 + zlen l.
Proof.
  destruct Hr as [Hb _]. destruct (links_len l) as [H1 H2]. pose proof (zlen_nonneg l).
  unfold relation_messages, ala_message. rewrite <-!unique_changes.
  destruct (links l) eqn:E; [split; [done|unfold zlen in *; simpl; lia]|]. rewrite <-E in *. clear E. split.
  - constructor.
    + apply ints_sized; [by apply paths| |rewrite zlen_app; unfold zlen in *; rewrite length_fmap; lia].
      apply Forall_app_2; [|by apply linked_ints]. apply Forall_fmap, Forall_true. intros q. by apply blob_of_range.
    + apply Forall_fmap, Forall_true. intros q. apply ints_sized; [by apply paths| |].
      * constructor; [by apply blob_of_range|]. constructor; [done|]. by apply children_ints.
      * rewrite !zlen_cons. pose proof (omap_zlen (child_of q) l). unfold children. lia.
  - rewrite zlen_cons. unfold zlen in *. rewrite length_fmap. lia.
Qed.

Lemma tuio2_frame_fits frame now :
  in_int frame = true → in_int now = true →
  let b := Bundle GetImmediateTime (tuio2_frame frame now l) [] in
  bundle_ok b ∧ zlen (bundle_bytes b) < 2 ^ 31.
Proof.
  intros Hf Hn b. destruct component_sized as [Hc1 Hc2]. destruct relation_sized as [Hr1 Hr2]. pose proof (zlen_nonneg l).
  assert (Hs : Forall (sized_message (2 + 2 ^ 13)) (tuio2_frame frame now l)).
  { constructor; [apply (sized_mono 3); [sized|lia]|]. constructor.
    - apply ints_sized; [by apply paths|apply tracked_ids_ints, Hr|]. pose proof (omap_zlen tracked_id l). unfold tracked_ids. lia.
    - apply Forall_app_2; [|done]. eapply Forall_impl; [exact Hc1|]. intros m Hm. eapply sized_mono; [exact Hm|lia]. }
  assert (Hall : Forall (λ m, message_ok m ∧ zlen (wm_buffer m) <= 80 + 9 * (2 + 2 ^ 13)) (tuio2_frame frame now l))
    by (eapply Forall_impl; [exact Hs|intros m Hm; apply (sized_short _ _ Hm); lia]).
  apply Forall_and in Hall as [Hok Hlen]. split; [by constructor; [split; [done|]|done|]|].
  unfold b. rewrite zlen_bundle. pose proof (elements_bound _ _ Hlen ltac:(lia)) as He.
  change (zlen (elements bundle_bytes [])) with 0.
  assert (zlen (tuio2_frame frame now l) <= 3 + 3 * zlen l)
    by (unfold tuio2_frame; rewrite !zlen_cons, zlen_app; lia). lia.
Qed.
End fits.

(** ** Property *)

(** C35: for a list of at most 4096 readable blobs (those with the properties the
    module reads; it faults on others) the TUIO 2 module returns, counts the
    frame, and sends exactly when the list is not empty; a receiver that reads
    the datagram with the library gets exactly the messages of the frame, in
    this order: the frame message with its number and the time, the alive
    message with the ids of the tracked blobs, one pointer (and its bounds, when
    it has a size) per blob or, when the first blob is a fiducial, one token per
    blob; and, when a tracked node has a parent, the relation message and the list
    of children per parent. Parents and blobs are named once per run of equal
    neighbours: a parent whose children are not next to each other is named
    again. *)
Theorem tuio2_frame_sent (a s : nat) (m : moModule) (sd : moDataStream) (l : container_list) (w : world)
    (st : tuio2_state) (o : moOSC) :
  w_modules w !! a = Some m → field "input" m = Some s → w_streams w !! s = Some sd →
  s_data sd = Some (PBlobs l) → t2_osc st = Some o → in_int (t2_frame st) = true →
  readable2 l → zlen l <= 2 ^ 12 →
  let st' := {| t2_osc := Some o; t2_frame := wrap32 (t2_frame st + 1) |} in
  (l = [] ∧ tuio2_notifyData a (Some s) st w = Ok ((st', None), w))
  ∨ (l ≠ [] ∧ ∃ d, tuio2_notifyData a (Some s) st w = Ok ((st', Some d), w)
       ∧ d_ip d = o_ip o ∧ d_port d = o_port o
       ∧ parse_bundle (length (d_payload d)) (d_payload d) (zlen (d_payload d))
         = Some (Good (Bundle GetImmediateTime (tuio2_frame (t2_frame st) (d_to_int (w_now w)) l) []))).
Proof.
  intros Hm Hin Hsd Hd Ho Hf Hr Hl st'. unfold tuio2_notifyData.
  rewrite bind_run, (getm_run a m) by done. cbv beta iota.
  rewrite lift_bind_run, ok_bind, lift_bind_run, Hin, bool_decide_true by done. cbn [assert_].
  rewrite ok_bind, bind_run. cbn [gets]. cbv beta iota.
  rewrite bind_run, (data_list_run s sd l) by done. cbv beta iota. rewrite lift_bind_run, Ho.
  assert (Hnow : in_int (d_to_int (w_now w)) = true) by apply d_to_int_range.
  rewrite tuio2_bundle_run by done. rewrite ok_bind. cbn [fst snd].
  case_bool_decide as Hnil; cbn [negb]; [by left|right; split; [done|]].
  destruct (tuio2_frame_fits l Hr Hl (t2_frame st) (d_to_int (w_now w)) Hf Hnow) as [Hb Hfit].
  rewrite lift_bind_run. cbn [deref]. rewrite ok_bind, lift_bind_run, send_bundle_spec, ok_bind by done.
  set (bb := Bundle _ _ _) in *. eexists. split; [reflexivity|]. cbn [d_ip d_port d_payload]. do 2 (split; [done|]).
  pose proof (parse_bundle_spec bb Hb Hfit (length (bundle_bytes bb)) [] (le_n _)) as Hparse.
  by rewrite app_nil_r in Hparse.
Qed.

(** Two cursors with sizes below the node 20 of a third, and a token. *)
Definition demo_item (implements : string) (id node : Z) (parent : option Z) : container :=
  let c := put_prop "blob_id" (alloc MO_PROPERTY_INTEGER (VInt id) EmptyString)
    (put_prop "x" (string_prop "0.5") (put_prop "y" (string_prop "0.25")
    (put_prop "width" (string_prop "0.1") (put_prop "height" (string_prop "0.2")
    (put_prop "angle" (string_prop "1.5")
    (put_prop "node_id" (alloc MO_PROPERTY_INTEGER (VInt node) EmptyString)
    (put_prop "implements" (string_prop implements) new_container))))))) in
  match parent with
  | Some p => put_prop "parent_node_id" (alloc MO_PROPERTY_INTEGER (VInt p) EmptyString) c
  | None => c
  end.
Lemma demo_item_readable w id node parent :
  in_int id = true → in_int node = true → (∀ p, parent = Some p → in_int p = true) →
  blob2 (demo_item w id node parent) ∧ is_ok (get_double "angle" (demo_item w id node parent)) = true.
Proof.
  intros Hi Hn Hp. split; [|by destruct parent]. split; intros; [|by destruct parent..].
  assert (H : ∀ v, in_int v = true → prop_wf (alloc MO_PROPERTY_INTEGER (VInt v) EmptyString))
    by (intros v Hv; by apply (alloc_wf (VInt v))).
  destruct parent as [p|]; repeat apply put_prop_wf; auto using string_prop_wf, new_container_wf.
Qed.
Definition demo_nodes : container_list :=
  [demo_item "pos,tracked,size,node" 4 21 (Some 20); demo_item "pos,tracked,size,node" 9 22 (Some 20);
   demo_item "pos,tracked,node" 5 20 None].
Definition demo_tokens : container_list := [demo_item "fiducial,pos,tracked" 6 0 None].
Lemma demo_readable2 : readable2 demo_nodes ∧ readable2 demo_tokens.
Proof.
  split; split; [|intros H; vm_compute in H; discriminate H| |intros _];
    repeat (apply Forall_cons; split; [apply demo_item_readable; (done || intros ? [= <-]; done)|]); by apply Forall_nil_2.
Qed.
Definition demo_tuio2_state : tuio2_state :=
  {| t2_osc := Some (new_moOSC 3 "127.0.0.1" 3333); t2_frame := 41 |}.
Definition demo_tuio2_stream (l : container_list) : moDataStream :=
  s_setData (Some (PBlobs l)) (new_stream "trackedblob").
Definition demo_tuio2_world (l : container_list) : world :=
  put_module 1 demo_tuio (put_stream 0 (demo_tuio2_stream l) world0).
Definition item (l : container_list) (i : nat) : container := nth i l new_container.
(** What the receiver reads of the datagram that is sent for [l]. *)
Definition received2 (l : container_list) (ms : list WOscMessage) : Prop :=
  ∃ d, tuio2_notifyData 1 (Some 0%nat) demo_tuio2_state (demo_tuio2_world l)
      = Ok (({| t2_osc := Some (new_moOSC 3 "127.0.0.1" 3333); t2_frame := 42 |}, Some d), demo_tuio2_world l)
    ∧ parse_bundle (length (d_payload d)) (d_payload d) (zlen (d_payload d))
      = Some (Good (Bundle GetImmediateTime ms [])).
Lemma tuio2_frame_sent_witness :
  received2 demo_nodes
    [frm_message 41 0; msg (bytes_of "/tuio2/alv") [AInt 4; AInt 9; AInt 5];
     ptr_message (item demo_nodes 0); bnd_message (item demo_nodes 0);
     ptr_message (item demo_nodes 1); bnd_message (item demo_nodes 1); ptr_message (item demo_nodes 2);
     msg (bytes_of "/tuio2/ala") [AInt 5; AInt 4; AInt 9];
     msg (bytes_of "/tuio2/coa") [AInt 5; AInt 0; AInt 4; AInt 9]]
  ∧ received2 demo_tokens
    [frm_message 41 0; msg (bytes_of "/tuio2/alv") [AInt 6]; tok_message (item demo_tokens 0)].
Proof.
  split.
  - destruct (tuio2_frame_sent 1 0 demo_tuio (demo_tuio2_stream demo_nodes) demo_nodes (demo_tuio2_world demo_nodes)
      demo_tuio2_state (new_moOSC 3 "127.0.0.1" 3333) eq_refl eq_refl eq_refl eq_refl eq_refl eq_refl
      (proj1 demo_readable2) ltac:(vm_compute; congruence)) as [[H _]|(_ & d & Hrun & _ & _ & Hp)]; [discriminate H|].
    exists d. split; [exact Hrun|]. rewrite Hp. vm_compute. reflexivity.
  - destruct (tuio2_frame_sent 1 0 demo_tuio (demo_tuio2_stream demo_tokens) demo_tokens (demo_tuio2_world demo_tokens)
      demo_tuio2_state (new_moOSC 3 "127.0.0.1" 3333) eq_refl eq_refl eq_refl eq_refl eq_refl eq_refl
      (proj2 demo_readable2) ltac:(vm_compute; congruence)) as [[H _]|(_ & d & Hrun & _ & _ & Hp)]; [discriminate H|].
    exists d. split; [exact Hrun|]. rewrite Hp. vm_compute. reflexivity.
Defined.

(** A node between two children of one parent: the parent is named twice. *)
Example parent_named_twice : changes [20; 30; 20] = [20; 30; 20] ∧ changes [20; 20; 30] = [20; 30].
Proof. done. Qed.
