(* ===== verification/FloatExact.v ===== *)
(** Arithmetic of doubles on small integers is exact: sums and products of
    integers below 2^52 are computed without rounding. *)
From Stdlib Require Import SpecFloat.
From S2P Require Import Prelude Numeric.
#[local] Open Scope Z_scope.

(** ** Exact shifts *)

Lemma iter_pos_iter {A} (f : A → A) n x : @SpecFloat.iter_pos A f n x = Pos.iter f x n.
Proof.
  revert x. induction n as [n IH|n IH|]; intros x; simpl; rewrite ?IH; [|done|done].
  by rewrite <-!Pos.iter_swap.
Qed.
Definition exact (z : Z) : shr_record := {| shr_m := z; shr_r := false; shr_s := false |}.
Lemma shr_exact q n : @SpecFloat.iter_pos _ shr_1 n (exact (Z.pos (Pos.iter xO q n))) = exact (Z.pos q).
Proof.
  rewrite iter_pos_iter. induction n as [|n IH] using Pos.peano_ind; [done|].
  rewrite Pos.iter_succ_r, Pos.iter_succ. exact IH.
Qed.
Lemma iter_xO_eq m p k : Z.pos m = Z.pos p * 2 ^ Z.pos k → m = Pos.iter xO p k.
Proof. rewrite <-Zpos_iter_xO. by intros [= ->]. Qed.

(** ** Normal forms *)

Definition digits (p : positive) : Z := Z.pos (digits2_pos p).
Lemma digits_shift m p j : 0 <= j → Z.pos m = Z.pos p * 2 ^ j → digits m = digits p + j.
Proof.
  intros Hj E. unfold digits. destruct j as [|k|]; [|by apply iter_xO_eq in E as ->; apply digits2_pos_iter_xO|lia].
  assert (m = p) as -> by lia. lia.
Qed.

Lemma digits_lt p : Z.pos p < 2 ^ digits p.
Proof.
  unfold digits. induction p as [p IH|p IH|]; cbn [digits2_pos]; [..|done];
    rewrite Pos2Z.inj_succ, Z.pow_succ_r by lia; lia.
Qed.
Lemma digits_low p : 2 ^ (digits p - 1) <= Z.pos p.
Proof.
  unfold digits. induction p as [p IH|p IH|]; cbn [digits2_pos]; [..|done];
    rewrite Pos2Z.inj_succ; replace (Z.succ (Z.pos (digits2_pos p)) - 1) with (Z.succ (Z.pos (digits2_pos p) - 1)) by lia;
    rewrite Z.pow_succ_r by lia; lia.
Qed.

(** The double of the integer [p] times its sign, [p] of at most 52 digits. *)
Definition normal_float (s : bool) (p : positive) : spec_float :=
  S754_finite s (Pos.iter xO p (Z.to_pos (53 - digits p))) (digits p - 53).
Lemma digits_52 p : Z.pos p < 2 ^ 52 → 1 <= digits p <= 52.
Proof. intros H%digits2_pos_bound. unfold digits. lia. Qed.
Lemma fexp_normal d : -1000 <= d → fexp 53 1024 d = d - 53.
Proof. unfold fexp, emin. lia. Qed.

Lemma aux_53 s m e : digits m = 53 → -1021 <= e <= 971 → binary_round_aux 53 1024 s (Z.pos m) e loc_Exact = S754_finite s m e.
Proof.
  intros Hd He. unfold binary_round_aux, shr_fexp. cbn [Zdigits2]. fold (digits m). rewrite Hd, fexp_normal by lia.
  replace (53 + e - 53 - e) with 0 by lia. cbn [shr shr_record_of_loc shr_m loc_of_shr_record round_nearest_even].
  cbn [Zdigits2]. fold (digits m). rewrite Hd, fexp_normal by lia. replace (53 + e - 53 - e) with 0 by lia.
  cbn [shr shr_record_of_loc shr_m]. by rewrite (proj2 (Z.leb_le _ _)) by lia.
Qed.

Lemma aux_exact s m p j :
  Z.pos p < 2 ^ 52 → 0 <= j <= 900 → Z.pos m = Z.pos p * 2 ^ j → 53 <= digits m →
  binary_round_aux 53 1024 s (Z.pos m) (- j) loc_Exact = normal_float s p.
Proof.
  intros Hp Hj Hm Hd. pose proof (digits_52 p Hp). pose proof (digits_shift m p j (proj1 Hj) Hm) as Hdm.
  unfold normal_float. set (k := Z.to_pos (53 - digits p)). set (q := Pos.iter xO p k).
  assert (Hq : Z.pos q = Z.pos p * 2 ^ (53 - digits p)).
  { unfold q, k. rewrite Zpos_iter_xO, Z2Pos.id by lia. done. }
  assert (Hdq : digits q = 53) by (rewrite (digits_shift q p (53 - digits p)) by lia; lia).
  destruct (Z.eq_dec (digits m) 53) as [E|E].
  - assert (m = q) as -> by (apply Pos2Z.inj; rewrite Hq, Hm; f_equal; f_equal; lia).
    rewrite aux_53 by lia. f_equal. lia.
  - unfold binary_round_aux at 1, shr_fexp at 1. cbn [Zdigits2]. fold (digits m). rewrite fexp_normal by lia.
    replace (digits m + - j - 53 - - j) with (digits m - 53) by lia.
    destruct (digits m - 53) as [|n|n] eqn:En; try lia. cbn [shr shr_record_of_loc].
    assert (m = Pos.iter xO q n) as ->.
    { apply iter_xO_eq. rewrite Hq, Hm, <-Z.mul_assoc, <-Z.pow_add_r by lia. f_equal. f_equal. lia. }
    fold (exact (Z.pos (Pos.iter xO q n))). rewrite shr_exact.
    cbn [exact shr_m loc_of_shr_record round_nearest_even].
    pose proof (aux_53 s q (- j + Z.pos n) Hdq ltac:(lia)) as H53. unfold binary_round_aux, shr_fexp in H53.
    cbn [Zdigits2] in H53. fold (digits q) in H53. rewrite Hdq, fexp_normal in H53 by lia.
    unfold shr_fexp. cbn [Zdigits2]. fold (digits q). rewrite Hdq, fexp_normal by lia.
    replace (53 + (- j + Z.pos n) - 53 - (- j + Z.pos n)) with 0 in * by lia.
    cbn [shr shr_record_of_loc shr_m] in *. rewrite (proj2 (Z.leb_le _ _)) by lia. f_equal. lia.
Qed.

Lemma round_exact s m p j :
  Z.pos p < 2 ^ 52 → 0 <= j <= 900 → Z.pos m = Z.pos p * 2 ^ j →
  binary_round 53 1024 s m (- j) = normal_float s p.
Proof.
  intros Hp Hj Hm. pose proof (digits_52 p Hp). pose proof (digits_shift m p j (proj1 Hj) Hm) as Hdm.
  unfold binary_round, shl_align. fold (digits m). rewrite fexp_normal by lia.
  replace (digits m + - j - 53 - - j) with (digits m - 53) by lia.
  destruct (digits m - 53) as [|n|n] eqn:En; [by apply aux_exact; lia..|].
  replace (digits m + - j - 53) with (- (j + Z.pos n)) by lia. apply aux_exact; [done|lia| |].
  - rewrite Zpos_iter_xO, Hm, <-Z.mul_assoc, <-Z.pow_add_r by lia. done.
  - rewrite (digits_shift _ m (Z.pos n)); [lia|lia|apply Zpos_iter_xO].
Qed.

(** ** Integers as doubles *)

Lemma d_of_Z_pos (s : bool) p : Z.pos p < 2 ^ 52 → d_of_Z (if s then Z.neg p else Z.pos p) = normal_float s p.
Proof.
  intros Hp. pose proof (round_exact s p p 0 Hp ltac:(lia) ltac:(lia)) as H.
  destruct s; exact H.
Qed.
Lemma normal_value p : Z.pos p < 2 ^ 52 → Z.pos (Pos.iter xO p (Z.to_pos (53 - digits p))) = Z.pos p * 2 ^ (53 - digits p).
Proof. intros Hp%digits_52. rewrite Zpos_iter_xO, Z2Pos.id by lia. done. Qed.

Lemma normal_low p : Z.pos p < 2 ^ 52 → 2 ^ 52 <= Z.pos (Pos.iter xO p (Z.to_pos (53 - digits p))).
Proof.
  intros Hp. rewrite normal_value by done. pose proof (digits_52 p Hp). pose proof (digits_low p).
  replace (2 ^ 52) with (2 ^ (digits p - 1) * 2 ^ (53 - digits p)) by (rewrite <-Z.pow_add_r by lia; f_equal; lia).
  apply Z.mul_le_mono_nonneg_r; [apply Z.pow_nonneg; lia|done].
Qed.

Lemma d_mul_exact a b :
  Z.abs a < 2 ^ 52 → Z.abs b < 2 ^ 52 → Z.abs (a * b) < 2 ^ 52 → (a = 0 → 0 <= b) → (b = 0 → 0 <= a) →
  d_mul (d_of_Z a) (d_of_Z b) = d_of_Z (a * b).
Proof.
  intros Ha Hb Hab Hz Hz'.
  assert (Hpos : ∀ sa sb p q, Z.pos p < 2 ^ 52 → Z.pos q < 2 ^ 52 → Z.pos (p * q) < 2 ^ 52 →
    d_mul (normal_float sa p) (normal_float sb q) = normal_float (xorb sa sb) (p * q)).
  { intros sa sb p q Hp Hq Hpq. pose proof (digits_52 p Hp). pose proof (digits_52 q Hq).
    change (binary_round_aux 53 1024 (xorb sa sb)
      (Z.pos (Pos.iter xO p (Z.to_pos (53 - digits p)) * Pos.iter xO q (Z.to_pos (53 - digits q))))
      (digits p - 53 + (digits q - 53)) loc_Exact = normal_float (xorb sa sb) (p * q)).
    replace (digits p - 53 + (digits q - 53)) with (- ((53 - digits p) + (53 - digits q))) by lia.
    apply aux_exact; [done|lia| |].
    - rewrite Pos2Z.inj_mul, !normal_value, Z.pow_add_r, Pos2Z.inj_mul by lia. ring.
    - pose proof (normal_low p Hp). pose proof (normal_low q Hq).
      set (P := Pos.iter xO p _) in *. set (Q := Pos.iter xO q _) in *.
      pose proof (digits_lt (P * Q)) as Hlt. rewrite Pos2Z.inj_mul in Hlt.
      destruct (Z_lt_le_dec (digits (P * Q)) 53) as [Hd|Hd]; [|done]. exfalso.
      assert (2 ^ digits (P * Q) <= 2 ^ 52) by (apply Z.pow_le_mono_r; lia). nia. }
  destruct a as [|p|p], b as [|q|q]; try reflexivity; try (exfalso; lia).
  - by rewrite (d_of_Z_pos false q) by lia.
  - by rewrite (d_of_Z_pos false p) by lia.
  - change (Z.pos p * Z.pos q) with (Z.pos (p * q)) in *.
    rewrite (d_of_Z_pos false p), (d_of_Z_pos false q), (d_of_Z_pos false (p * q)) by lia. apply Hpos; lia.
  - change (Z.pos p * Z.neg q) with (Z.neg (p * q)) in *.
    rewrite (d_of_Z_pos false p), (d_of_Z_pos true q), (d_of_Z_pos true (p * q)) by lia. apply Hpos; lia.
  - change (Z.neg p * Z.pos q) with (Z.neg (p * q)) in *.
    rewrite (d_of_Z_pos true p), (d_of_Z_pos false q), (d_of_Z_pos true (p * q)) by lia. apply Hpos; lia.
  - change (Z.neg p * Z.neg q) with (Z.pos (p * q)) in *.
    rewrite (d_of_Z_pos true p), (d_of_Z_pos true q), (d_of_Z_pos false (p * q)) by lia. apply Hpos; lia.
Qed.

Lemma align_value p e :
  Z.pos p < 2 ^ 52 → digits p - 53 >= e →
  Z.pos (fst (shl_align (Pos.iter xO p (Z.to_pos (53 - digits p))) (digits p - 53) e)) = Z.pos p * 2 ^ (- e).
Proof.
  intros Hp He. pose proof (digits_52 p Hp). unfold shl_align. destruct (e - (digits p - 53)) as [|n|n] eqn:E; try lia; cbn [fst].
  - rewrite normal_value by done. f_equal. f_equal. lia.
  - rewrite Zpos_iter_xO, normal_value, <-Z.mul_assoc, <-Z.pow_add_r by (done || lia). f_equal. f_equal. lia.
Qed.

Lemma d_add_exact a b :
  0 <= a < 2 ^ 51 → 0 <= b < 2 ^ 51 → d_add (d_of_Z a) (d_of_Z b) = d_of_Z (a + b).
Proof.
  intros Ha Hb. destruct a as [|p|p], b as [|q|q]; try lia; [done|..].
  - rewrite Z.add_0_l, (d_of_Z_pos false q) by lia. done.
  - rewrite Z.add_0_r, (d_of_Z_pos false p) by lia. done.
  - change (Z.pos p + Z.pos q) with (Z.pos (p + q)).
    rewrite (d_of_Z_pos false p), (d_of_Z_pos false q), (d_of_Z_pos false (p + q)) by lia.
    pose proof (digits_52 p ltac:(lia)). pose proof (digits_52 q ltac:(lia)).
    set (e := Z.min (digits p - 53) (digits q - 53)).
    change (binary_normalize 53 1024
      (Z.pos (fst (shl_align (Pos.iter xO p (Z.to_pos (53 - digits p))) (digits p - 53) e))
       + Z.pos (fst (shl_align (Pos.iter xO q (Z.to_pos (53 - digits q))) (digits q - 53) e))) e false = normal_float false (p + q)).
    rewrite !align_value by lia. rewrite <-Z.mul_add_distr_r.
    assert (Hm : ∃ m, Z.pos m = (Z.pos p + Z.pos q) * 2 ^ (- e)).
    { exists (Z.to_pos ((Z.pos p + Z.pos q) * 2 ^ (- e))). rewrite Z2Pos.id; [done|]. apply Z.mul_pos_pos; [lia|]. apply Z.pow_pos_nonneg; lia. }
    destruct Hm as [m Hm]. rewrite <-Hm. unfold binary_normalize. replace e with (- (- e)) by lia.
    apply round_exact; [lia|lia|]. rewrite Hm. done.
Qed.

(** ** Comparing integers as doubles *)

Lemma digits_mono p q : Z.pos p <= Z.pos q → digits p <= digits q.
Proof.
  intros H. destruct (Z_lt_le_dec (digits q) (digits p)) as [Hd|]; [|done]. exfalso.
  pose proof (digits_lt q). pose proof (digits_low p).
  assert (2 ^ digits q <= 2 ^ (digits p - 1)) by (apply Z.pow_le_mono_r; lia). lia.
Qed.
(** Normal forms compare as the integers do. *)
Lemma normal_compare p q :
  Z.pos p < 2 ^ 52 → Z.pos q < 2 ^ 52 → Z.pos p <= Z.pos q →
  match Z.compare (digits p - 53) (digits q - 53) with
  | Lt => Lt
  | Gt => Gt
  | Eq => Pos.compare_cont Eq (Pos.iter xO p (Z.to_pos (53 - digits p))) (Pos.iter xO q (Z.to_pos (53 - digits q)))
  end ≠ Gt.
Proof.
  intros Hp Hq H. pose proof (digits_mono p q H).
  destruct (Z.compare_spec (digits p - 53) (digits q - 53)) as [E|E|E]; [|done|lia].
  assert (Hd : digits q = digits p) by lia. pose proof (normal_value p Hp) as Ep. pose proof (normal_value q Hq) as Eq'.
  rewrite Hd in *.
  set (P := Pos.iter xO p _) in *. set (Q := Pos.iter xO q _) in *. change (P <= Q)%positive.
  assert (Z.pos P <= Z.pos Q) by (rewrite Ep, Eq'; apply Z.mul_le_mono_nonneg_r; [apply Z.pow_nonneg; lia|done]). lia.
Qed.
Lemma SFleb_of_Z a b :
  Z.abs a < 2 ^ 52 → Z.abs b < 2 ^ 52 → a <= b → SFleb (d_of_Z a) (d_of_Z b) = true.
Proof.
  intros Ha Hb Hab. destruct a as [|p|p], b as [|q|q]; try lia; try done.
  - by rewrite (d_of_Z_pos false q) by lia.
  - rewrite (d_of_Z_pos false p), (d_of_Z_pos false q) by lia. pose proof (normal_compare p q) as H.
    unfold SFleb, SFcompare, normal_float. specialize (H ltac:(lia) ltac:(lia) ltac:(lia)). destruct (Z.compare (digits p - 53) (digits q - 53)); [by destruct (Pos.compare_cont Eq _ _)|done|done].
  - by rewrite (d_of_Z_pos true p) by lia.
  - by rewrite (d_of_Z_pos true p), (d_of_Z_pos false q) by lia.
  - rewrite (d_of_Z_pos true p), (d_of_Z_pos true q) by lia. pose proof (normal_compare q p) as H.
    unfold SFleb, SFcompare, normal_float. specialize (H ltac:(lia) ltac:(lia) ltac:(lia)). rewrite Z.compare_antisym.
    destruct (Z.compare (digits q - 53) (digits p - 53)) eqn:E; cbn [CompOpp]; [|done|done].
    set (P := Pos.iter xO p _) in *. set (Q := Pos.iter xO q _) in *.
    change (Pos.compare_cont Eq P Q) with (P ?= Q)%positive. change (Pos.compare_cont Eq Q P) with (Q ?= P)%positive in H.
    rewrite <-Pos.compare_antisym. by destruct (Q ?= P)%positive.
Qed.
Lemma d_sub_self z : Z.abs z < 2 ^ 52 → d_sub (d_of_Z z) (d_of_Z z) = S754_zero false.
Proof.
  intros Hz. destruct z as [|p|p]; [done|rewrite (d_of_Z_pos false p) by lia|rewrite (d_of_Z_pos true p) by lia];
    unfold d_sub, SFsub, normal_float; by rewrite Z.sub_diag.
Qed.
Lemma normal_compare_lt p q :
  Z.pos p < 2 ^ 52 → Z.pos q < 2 ^ 52 → Z.pos p < Z.pos q →
  match Z.compare (digits p - 53) (digits q - 53) with
  | Lt => Lt
  | Gt => Gt
  | Eq => Pos.compare_cont Eq (Pos.iter xO p (Z.to_pos (53 - digits p))) (Pos.iter xO q (Z.to_pos (53 - digits q)))
  end = Lt.
Proof.
  intros Hp Hq H. pose proof (digits_mono p q ltac:(lia)).
  destruct (Z.compare_spec (digits p - 53) (digits q - 53)) as [E|E|E]; [|done|lia].
  assert (Hd : digits q = digits p) by lia. pose proof (normal_value p Hp) as Ep. pose proof (normal_value q Hq) as Eq'.
  rewrite Hd in *. pose proof (digits_52 p Hp).
  set (P := Pos.iter xO p _) in *. set (Q := Pos.iter xO q _) in *. change (P < Q)%positive.
  assert (Z.pos P < Z.pos Q) by (rewrite Ep, Eq'; apply Z.mul_lt_mono_pos_r; [apply Z.pow_pos_nonneg; lia|done]). lia.
Qed.
Lemma SFcompare_opp x y : SFcompare x y = CompOpp <$> SFcompare y x.
Proof.
  destruct x as [[]|[]| |[] m e], y as [[]|[]| |[] m' e']; simpl; try done.
  - rewrite (Z.compare_antisym e e'). destruct (e ?= e'); simpl; try done.
    change (Pos.compare_cont Eq m m') with (m ?= m')%positive. change (Pos.compare_cont Eq m' m) with (m' ?= m)%positive.
    rewrite (Pos.compare_antisym m' m). by destruct (m' ?= m)%positive.
  - rewrite (Z.compare_antisym e' e). destruct (e' ?= e); simpl; try done.
    change (Pos.compare_cont Eq m m') with (m ?= m')%positive. change (Pos.compare_cont Eq m' m) with (m' ?= m)%positive.
    rewrite (Pos.compare_antisym m' m). by destruct (m' ?= m)%positive.
Qed.
Lemma d_ltb_asym x y : d_ltb x y = true → d_ltb y x = false.
Proof. unfold d_ltb, SFltb. rewrite (SFcompare_opp y x). by destruct (SFcompare x y) as [[]|]. Qed.
Lemma d_ltb_of_Z_lt a b : Z.abs a < 2 ^ 52 → Z.abs b < 2 ^ 52 → a < b → d_ltb (d_of_Z a) (d_of_Z b) = true.
Proof.
  intros Ha Hb Hab. destruct a as [|p|p], b as [|q|q]; try lia; try done.
  - by rewrite (d_of_Z_pos false q) by lia.
  - rewrite (d_of_Z_pos false p), (d_of_Z_pos false q) by lia.
    unfold d_ltb, SFltb, SFcompare, normal_float. by rewrite (normal_compare_lt p q) by lia.
  - by rewrite (d_of_Z_pos true p) by lia.
  - by rewrite (d_of_Z_pos true p), (d_of_Z_pos false q) by lia.
  - rewrite (d_of_Z_pos true p), (d_of_Z_pos true q) by lia.
    unfold d_ltb, SFltb. rewrite SFcompare_opp. unfold SFcompare, normal_float. pose proof (normal_compare_lt q p ltac:(lia) ltac:(lia) ltac:(lia)) as H.
    destruct (Z.compare (digits q - 53) (digits p - 53)); simpl; [by rewrite H|done|done].
Qed.
Lemma d_ltb_of_Z a b : Z.abs a < 2 ^ 52 → Z.abs b < 2 ^ 52 → d_ltb (d_of_Z a) (d_of_Z b) = (a <? b).
Proof.
  intros Ha Hb. destruct (Z.lt_trichotomy a b) as [H|[->|H]].
  - rewrite d_ltb_of_Z_lt by done. symmetry. by apply Z.ltb_lt.
  - rewrite Z.ltb_irrefl. unfold d_ltb, SFltb. pose proof (SFcompare_opp (d_of_Z b) (d_of_Z b)) as H. by destruct (SFcompare _ _) as [[]|].
  - rewrite d_ltb_asym by (by apply d_ltb_of_Z_lt). symmetry. apply Z.ltb_ge. lia.
Qed.
(** Magnitudes are ordered by exponent, then by mantissa. *)
Definition lexc (e : Z) (m : positive) (e' : Z) (m' : positive) : comparison :=
  match (e ?= e')%Z with Lt => Lt | Gt => Gt | Eq => Pos.compare_cont Eq m m' end.
Lemma lexc_lt e m e' m' : lexc e m e' m' = Lt ↔ e < e' ∨ e = e' ∧ (m < m')%positive.
Proof.
  unfold lexc. change (Pos.compare_cont Eq m m') with (m ?= m')%positive.
  destruct (Z.compare_spec e e'); [rewrite Pos.compare_lt_iff|..]; naive_solver lia.
Qed.
Lemma lexc_gt e m e' m' : lexc e m e' m' = Gt ↔ e' < e ∨ e = e' ∧ (m' < m)%positive.
Proof.
  unfold lexc. change (Pos.compare_cont Eq m m') with (m ?= m')%positive.
  destruct (Z.compare_spec e e'); [rewrite Pos.compare_gt_iff|..]; naive_solver lia.
Qed.
Lemma SFcompare_finite s m e s' m' e' :
  SFcompare (S754_finite s m e) (S754_finite s' m' e') =
  Some (match s, s' with true, false => Lt | false, true => Gt | true, true => CompOpp (lexc e m e' m') | false, false => lexc e m e' m' end).
Proof. destruct s, s'; [|done|done|]; unfold lexc; simpl; by destruct (e ?= e'). Qed.
Lemma d_le_lt_trans x y z : SFleb x y = true → d_ltb y z = true → d_ltb x z = true.
Proof.
  unfold SFleb, d_ltb, SFltb.
  destruct x as [[]|[]| |[] m e], y as [[]|[]| |[] m' e'], z as [[]|[]| |[] m'' e'']; try done; rewrite !SFcompare_finite; try done.
  - destruct (lexc e m e' m') eqn:E1, (lexc e' m' e'' m'') eqn:E2; try done; intros _ _; simpl;
      (replace (lexc e m e'' m'') with Gt; [done|]); symmetry; apply lexc_gt; apply lexc_gt in E2;
      (assert (H1 : lexc e m e' m' ≠ Lt) by congruence); rewrite lexc_lt in H1; lia.
  - destruct (lexc e m e' m') eqn:E1, (lexc e' m' e'' m'') eqn:E2; try done; intros _ _; simpl;
      (replace (lexc e m e'' m'') with Lt; [done|]); symmetry; apply lexc_lt; apply lexc_lt in E2;
      (assert (H1 : lexc e m e' m' ≠ Gt) by congruence); rewrite lexc_gt in H1; lia.
Qed.
Lemma d_ltb_leb x y : d_ltb x y = true → SFleb x y = true.
Proof. unfold d_ltb, SFltb, SFleb. by destruct (SFcompare x y) as [[]|]. Qed.
