(* ===== verification/Calibration.v ===== *)
(** The calibration module (src/src/modules/moCalibrationModule.cpp): a state
    machine that collects one surface point per screen point, triangulates the
    surface points and maps every later touch to the screen.

    The Delaunay subdivision is OpenCV's; it is the interface [Delaunay], and
    [DelaunayLaws] is what its documentation says of the vertices.  The
    properties of the module are fields of the state, their callbacks are called
    by the setters, and [update] returns the list it pushes. *)
From Stdlib Require Import SpecFloat.
From S2P Require Import Prelude StdMap Numeric Utils Property Container Module World Catalogue.
#[local] Open Scope Z_scope.

(** ** Single precision *)

Definition fpoint : Type := spec_float * spec_float.
Definition f_add : spec_float → spec_float → spec_float := SFadd 24 128.
Definition f_sub : spec_float → spec_float → spec_float := SFsub 24 128.
Definition f_mul : spec_float → spec_float → spec_float := SFmul 24 128.
Definition f_div : spec_float → spec_float → spec_float := SFdiv 24 128.
(** A [float] widened to [double]. *)
Definition widen (f : spec_float) : double :=
  match f with S754_finite s m e => binary_round 53 1024 s m e | _ => f end.
(** [cvPoint2D32f(x, y)]. *)
Definition cvPoint2D32f (x y : double) : fpoint := (f_of_d x, f_of_d y).

(** ** OpenCV's planar subdivision *)

(** What [cvSubdiv2DLocate] finds: a vertex, or an edge of the facet the point
    lies in (on an edge included); a point outside the rectangle is an error. *)
Inductive location (vertex edge : Type) :=
  | AtVertex (v : vertex)
  | InFacet (e : edge)
  | OutsideRect.
Arguments AtVertex {vertex edge} v.
Arguments InFacet {vertex edge} e.
Arguments OutsideRect {vertex edge}.

Class Delaunay := {
  subdiv : Type;
  vertex : Type;
  edge : Type;
  vertex_eq_dec :: EqDecision vertex;
  (** [cvCreateSubdivDelaunay2D(rect, storage)] on the module's rectangle. *)
  sd_create : subdiv;
  (** [cvSubdivDelaunay2DInsert]; [None]: outside the rectangle. *)
  sd_insert : subdiv → fpoint → option (subdiv * vertex);
  sd_locate : subdiv → fpoint → location vertex edge;
  (** [cvSubdiv2DEdgeOrg], [cvSubdiv2DEdgeDst], [cvSubdiv2DGetEdge(_,
      CV_NEXT_AROUND_RIGHT)], [vertex->pt] and the edges of the set. *)
  sd_org : subdiv → edge → vertex;
  sd_dst : subdiv → edge → option vertex;
  sd_next_right : subdiv → edge → edge;
  sd_pt : subdiv → vertex → fpoint;
  sd_edges : subdiv → list edge;
}.

(** Inserting a point gives a vertex that is located at that point from then
    on; two different points give two different vertices; a point inside the
    rectangle can be inserted. *)
Class DelaunayLaws (D : Delaunay) := {
  sd_rel : subdiv → list (fpoint * vertex) → Prop;
  sd_rel_create : sd_rel sd_create [];
  sd_rel_insert d l p d' v :
    sd_rel d l → sd_insert d p = Some (d', v) → p ∉ l.*1 → (v ∉ l.*2) ∧ sd_rel d' (l ++ [(p, v)]);
  sd_inside : fpoint → Prop;
  sd_insert_inside d p : sd_inside p → is_Some (sd_insert d p);
  sd_rel_locate d l p v : sd_rel d l → (p, v) ∈ l → sd_locate d p = AtVertex v;
}.

(** ** The module *)

Section Calibration.
  Context {D : Delaunay}.

(** Where [current_touch] points between two calls: nowhere, or at a local
    variable of [calibrate] that is gone. *)
Inductive touch_pointer := TouchNull | TouchDangling.

Record calibration := {
  ca_screenPoints : moPointList;
  ca_surfacePoints : moPointList;
  ca_calibrate : bool;
  ca_duration_per_point : Z;
  ca_retriangulate : bool;
  ca_active_point : Z;
  ca_last_id : Z;
  ca_last_finished_id : Z;
  ca_current_duration : Z;
  ca_current_touch : touch_pointer;
  ca_calibrated : bool;
  ca_subdiv : option subdiv;
  ca_delaunayToScreen : list (vertex * moPoint);
  ca_blobs : container_list;
}.

Definition u32 (z : Z) : Z := z mod 2 ^ 32.

(** The constructor's members; [screen] is what [buildScreenPoints] made. *)
Definition new_calibration (screen : moPointList) : calibration :=
  {| ca_screenPoints := screen; ca_surfacePoints := []; ca_calibrate := false;
     ca_duration_per_point := 50; ca_retriangulate := false; ca_active_point := 0; ca_last_id := u32 (-1);
     ca_last_finished_id := u32 (-1); ca_current_duration := 0; ca_current_touch := TouchNull;
     ca_calibrated := false; ca_subdiv := None; ca_delaunayToScreen := []; ca_blobs := [] |}.

(** The fields [calibrate] changes. *)
Definition with_progress (active last finished duration : Z) (touch : touch_pointer) (st : calibration)
    : calibration :=
  {| ca_screenPoints := ca_screenPoints st; ca_surfacePoints := ca_surfacePoints st;
     ca_calibrate := ca_calibrate st; ca_duration_per_point := ca_duration_per_point st;
     ca_retriangulate := ca_retriangulate st; ca_active_point := active; ca_last_id := last;
     ca_last_finished_id := finished; ca_current_duration := duration; ca_current_touch := touch;
     ca_calibrated := ca_calibrated st; ca_subdiv := ca_subdiv st;
     ca_delaunayToScreen := ca_delaunayToScreen st; ca_blobs := ca_blobs st |}.
(** The properties and flags. *)
Definition with_points (screen surface : moPointList) (calibrate retriangulate calibrated : bool)
    (duration : Z) (st : calibration) : calibration :=
  {| ca_screenPoints := screen; ca_surfacePoints := surface; ca_calibrate := calibrate;
     ca_duration_per_point := duration; ca_retriangulate := retriangulate;
     ca_active_point := ca_active_point st; ca_last_id := ca_last_id st;
     ca_last_finished_id := ca_last_finished_id st; ca_current_duration := ca_current_duration st;
     ca_current_touch := ca_current_touch st; ca_calibrated := calibrated; ca_subdiv := ca_subdiv st;
     ca_delaunayToScreen := ca_delaunayToScreen st; ca_blobs := ca_blobs st |}.

Definition resetCalibration (st : calibration) : calibration :=
  with_progress 0 (u32 (-1)) (ca_last_finished_id st) (ca_current_duration st) (ca_current_touch st) st.
Definition notifyTriangulate (st : calibration) : calibration :=
  with_points (ca_screenPoints st) (ca_surfacePoints st) (ca_calibrate st) true (ca_calibrated st)
    (ca_duration_per_point st) st.

(** ** Property callbacks *)

(** [mocalibrationmodule_surfacepoints_changed]. *)
Definition surfacepoints_changed (st : calibration) : calibration :=
  if decide (length (ca_screenPoints st) = length (ca_surfacePoints st)) then
    let st := notifyTriangulate st in
    with_points (ca_screenPoints st) (ca_surfacePoints st) (ca_calibrate st) (ca_retriangulate st) true
      (ca_duration_per_point st) st
  else st.
(** [mocalibrationmodule_activate_calibration]; [b] is [property->asBool()]. *)
Definition activate_calibration (b : bool) (st : calibration) : calibration :=
  if b then resetCalibration st else st.

Definition set_surfacePoints (l : moPointList) (st : calibration) : calibration :=
  surfacepoints_changed
    (with_points (ca_screenPoints st) l (ca_calibrate st) (ca_retriangulate st) (ca_calibrated st)
      (ca_duration_per_point st) st).
Definition set_calibrate (b : bool) (st : calibration) : calibration :=
  activate_calibration b
    (with_points (ca_screenPoints st) (ca_surfacePoints st) b (ca_retriangulate st) (ca_calibrated st)
      (ca_duration_per_point st) st).
Definition set_duration (d : Z) (st : calibration) : calibration :=
  activate_calibration (negb (d =? 0))
    (with_points (ca_screenPoints st) (ca_surfacePoints st) (ca_calibrate st) (ca_retriangulate st)
      (ca_calibrated st) d st).
(** [mocalibrationmodule_update_size]: [buildScreenPoints] writes the text of
    the grid into the property [screenPoints]. *)
Definition set_size (cols rows : Z) (st : calibration) : res calibration :=
  l ← convertToPointList MO_PROPERTY_STRING (VString (screen_points_text cols rows));
  Ok (with_points l (ca_surfacePoints st) (ca_calibrate st) (ca_retriangulate st) (ca_calibrated st)
        (ca_duration_per_point st) st).

(** ** Triangulation *)

(** The loop over both lists in step. *)
Fixpoint insert_points (surface screen : moPointList) (d : subdiv) (m : list (vertex * moPoint))
    : res (subdiv * list (vertex * moPoint)) :=
  match surface, screen with
  | [], _ => Ok (d, m)
  | p :: surface, q :: screen =>
      match sd_insert d (cvPoint2D32f (pt_x p) (pt_y p)) with
      | None => Fault FOutOfRange
      | Some (d, v) => insert_points surface screen d ((v, q) :: m)
      end
  | _ :: _, [] => Fault FBadAccess
  end.

Definition triangulate (st : calibration) : res calibration :=
  assert_ (bool_decide (length (ca_screenPoints st) = length (ca_surfacePoints st)));;
  r ← insert_points (ca_surfacePoints st) (ca_screenPoints st) sd_create [];
  Ok {| ca_screenPoints := ca_screenPoints st; ca_surfacePoints := ca_surfacePoints st;
        ca_calibrate := ca_calibrate st; ca_duration_per_point := ca_duration_per_point st;
        ca_retriangulate := false; ca_active_point := ca_active_point st; ca_last_id := ca_last_id st;
        ca_last_finished_id := ca_last_finished_id st; ca_current_duration := ca_current_duration st;
        ca_current_touch := ca_current_touch st; ca_calibrated := ca_calibrated st;
        ca_subdiv := Some r.1; ca_delaunayToScreen := r.2; ca_blobs := ca_blobs st |}.

(** ** Collecting the points *)

(** [(a + b) / 2.]. *)
Definition mean (a b : double) : double := d_div (d_add a b) (d_of_Z 2).

(** The first half of [calibrate]: the touch seen on this frame.  [None]: the
    call returns; otherwise what [current_touch] points to, while the call
    lasts, [None] for null. *)
Definition calibrate_touch (blob_id : Z) (p : moPoint) (st : calibration)
    : res (option (option moPoint * calibration)) :=
  if blob_id =? ca_last_id st then
    if ca_last_finished_id st =? blob_id then Ok None
    else
      match ca_current_touch st with
      | TouchDangling => Fault FBadAccess
      | TouchNull =>
          assert_ (ca_current_duration st =? 0);;
          let q := {| pt_x := mean (pt_x p) (pt_x p); pt_y := mean (pt_y p) (pt_y p) |} in
          Ok (Some (Some q, with_progress (ca_active_point st) blob_id (ca_last_finished_id st)
                              (wrap32 (ca_current_duration st + 1)) TouchDangling st))
      end
  else Ok (Some (None, with_progress (ca_active_point st) blob_id (ca_last_finished_id st) 0 TouchNull st)).

(** The second half, once the touch lasted long enough. *)
Definition calibrate_point (blob_id : Z) (touch : option moPoint) (st : calibration) : res calibration :=
  q ← deref touch;
  let st := with_progress (ca_active_point st) (ca_last_id st) (ca_last_id st) 0 TouchNull st in
  assert_ (ca_last_id st =? blob_id);;
  let st := set_surfacePoints (ca_surfacePoints st ++ [q]) st in
  if ca_active_point st =? (Z.of_nat (length (ca_screenPoints st)) - 1) mod 2 ^ 64 then
    let st := with_progress 0 (ca_last_id st) (ca_last_finished_id st) (ca_current_duration st)
                (ca_current_touch st) st in
    let st := set_calibrate false st in
    triangulate (with_points (ca_screenPoints st) (ca_surfacePoints st) (ca_calibrate st)
                   (ca_retriangulate st) true (ca_duration_per_point st) st)
  else
    _ ← deref (ca_screenPoints st !! Z.to_nat (ca_active_point st));
    Ok (with_progress (u32 (ca_active_point st + 1)) (ca_last_id st) (ca_last_finished_id st)
          (ca_current_duration st) (ca_current_touch st) st).

Definition calibrate (blobs : container_list) (st : calibration) : res calibration :=
  match blobs with
  | [touch] =>
      let st := if ca_active_point st =? 0 then set_surfacePoints [] st else st in
      x ← get_double "x" touch;
      y ← get_double "y" touch;
      id ← get_int "blob_id" touch;
      r ← calibrate_touch (u32 id) {| pt_x := x; pt_y := y |} st;
      match r with
      | None => Ok st
      | Some (q, st) =>
          if ca_current_duration st <? ca_duration_per_point st then Ok st
          else calibrate_point (u32 id) q st
      end
  | _ => Ok st
  end.

(** ** Mapping touches to the screen *)

(** [delaunayToScreen[v]]: an unknown vertex is the point (0, 0). *)
Fixpoint to_screen (v : vertex) (m : list (vertex * moPoint)) : moPoint :=
  match m with
  | [] => {| pt_x := dzero; pt_y := dzero |}
  | (u, p) :: m => if decide (u = v) then p else to_screen v m
  end.

(** The barycentric coordinates of the blob in the triangle [a], [b], [c], and
    the same combination of the corners on the screen. *)
Definition interpolate (blob_x blob_y : double) (a b c : fpoint) (A B C : moPoint) : moPoint :=
  let '(ax, ay) := a in let '(bx, by_) := b in let '(cx, cy) := c in
  let entire_area := f_sub (f_mul (f_sub ax bx) (f_sub ay cy)) (f_mul (f_sub ay by_) (f_sub ax cx)) in
  let sub x f := d_sub x (widen f) in
  let area_a := f_of_d (d_sub (d_mul (sub blob_x bx) (sub blob_y cy)) (d_mul (sub blob_y by_) (sub blob_x cx))) in
  let area_b := f_of_d (d_sub (d_mul (d_sub (widen ax) blob_x) (widen (f_sub ay cy)))
                              (d_mul (d_sub (widen ay) blob_y) (widen (f_sub ax cx)))) in
  let alpha := f_div area_a entire_area in
  let beta := f_div area_b entire_area in
  let gamma := f_sub (f_sub (f_of_d (d_of_Z 1)) alpha) beta in
  let mix x y z := d_add (d_add (d_mul (widen alpha) x) (d_mul (widen beta) y)) (d_mul (widen gamma) z) in
  {| pt_x := mix (pt_x A) (pt_x B) (pt_x C); pt_y := mix (pt_y A) (pt_y B) (pt_y C) |}.

Definition double_prop (d : double) : moProperty := alloc MO_PROPERTY_DOUBLE (VDouble d) EmptyString.
Definition int_prop (z : Z) : moProperty := alloc MO_PROPERTY_INTEGER (VInt z) EmptyString.

(** The body of the loop of [transformPoints]. *)
Definition transform_blob (d : subdiv) (m : list (vertex * moPoint)) (it : container) : res container :=
  blob_x ← get_double "x" it;
  blob_y ← get_double "y" it;
  match sd_locate d (cvPoint2D32f blob_x blob_y) with
  | OutsideRect => Fault FOutOfRange
  | AtVertex v =>
      let screen_point := to_screen v m in
      id ← get_int "blob_id" it;
      implements ← get_string "implements" it;
      Ok (put_prop "y" (double_prop (pt_y screen_point))
           (put_prop "x" (double_prop (pt_x screen_point))
             (put_prop "implements" (string_prop implements)
               (put_prop "blob_id" (int_prop id)
                 (put_prop "type" (string_prop "trackedblob") new_container)))))
  | InFacet e =>
      let A := sd_org d e in
      let e := sd_next_right d e in
      let B := sd_org d e in
      let e := sd_next_right d e in
      let C := sd_org d e in
      let p := interpolate blob_x blob_y (sd_pt d A) (sd_pt d B) (sd_pt d C)
                 (to_screen A m) (to_screen B m) (to_screen C m) in
      blob ← clone it;
      Ok (put_prop "y" (double_prop (pt_y p))
           (put_prop "x" (double_prop (pt_x p))
             (put_prop "type" (string_prop "trackedblob") blob)))
  end.

Fixpoint transform_blobs (d : subdiv) (m : list (vertex * moPoint)) (l : container_list) : res container_list :=
  match l with
  | [] => Ok []
  | it :: l => b ← transform_blob d m it; rest ← transform_blobs d m l; Ok (b :: rest)
  end.

(** [cvSubdiv2DLocate] is an error on a null subdivision. *)
Definition transformPoints (blobs : container_list) (st : calibration) : res calibration :=
  l ← match blobs with
      | [] => Ok []
      | _ => match ca_subdiv st with
             | None => Fault FBadAccess
             | Some d => transform_blobs d (ca_delaunayToScreen st) blobs
             end
      end;
  Ok {| ca_screenPoints := ca_screenPoints st; ca_surfacePoints := ca_surfacePoints st;
        ca_calibrate := ca_calibrate st; ca_duration_per_point := ca_duration_per_point st;
        ca_retriangulate := ca_retriangulate st; ca_active_point := ca_active_point st;
        ca_last_id := ca_last_id st; ca_last_finished_id := ca_last_finished_id st;
        ca_current_duration := ca_current_duration st; ca_current_touch := ca_current_touch st;
        ca_calibrated := ca_calibrated st; ca_subdiv := ca_subdiv st;
        ca_delaunayToScreen := ca_delaunayToScreen st; ca_blobs := l |}.

(** [moCalibrationModule::update]; [input] is the list on the input, [None] for
    an unconnected module; the list pushed, if any. *)
Definition calibration_update (input : option container_list) (st : calibration)
    : res (calibration * option container_list) :=
  match input with
  | None => Fault FAssert
  | Some blobs =>
      if ca_calibrate st then st ← calibrate blobs st; Ok (st, None)
      else if ca_calibrated st then
        st ← (if ca_retriangulate st then triangulate st else Ok st);
        st ← transformPoints blobs st;
        Ok (st, Some (ca_blobs st))
      else Ok (st, None)
  end.

(** ** The interface drawn in the browser *)

Definition gui_int (d : double) : Z := d_to_int (d_mul d (d_of_Z 1000)).
Definition gui_circle (x y : Z) (r : string) : string :=
  "circle " +:+ print_int x +:+ " " +:+ print_int y +:+ " " +:+ r.
Definition gui_line (x0 y0 x1 y1 : Z) : string :=
  "line " +:+ print_int x0 +:+ " " +:+ print_int y0 +:+ " " +:+ print_int x1 +:+ " " +:+ print_int y1.

(** The screen points, the active one highlighted. *)
Fixpoint gui_points (active index : Z) (l : moPointList) : list string :=
  match l with
  | [] => []
  | p :: l =>
      let circle := gui_circle (gui_int (pt_x p)) (gui_int (pt_y p)) "50" in
      (if index =? active then ["color 255 255 255"; circle; "color 120 120 120"] else [circle])
      ++ gui_points active (index + 1) l
  end.

Definition known (v : vertex) (m : list (vertex * moPoint)) : bool := bool_decide (v ∈ m.*1).
(** An edge between two points of the calibration. *)
Definition gui_edge (d : subdiv) (m : list (vertex * moPoint)) (e : edge) : list string :=
  match sd_dst d e with
  | Some dst =>
      let org := sd_org d e in
      if known org m && known dst m then
        let o := to_screen org m in let t := to_screen dst m in
        [gui_line (gui_int (pt_x o)) (gui_int (pt_y o)) (gui_int (pt_x t)) (gui_int (pt_y t))]
      else []
  | None => []
  end.

Definition gui_touch (b : container) : res (list string) :=
  x ← get_double "x" b; y ← get_double "y" b;
  let x := gui_int x in let y := gui_int y in
  Ok ["color 121 0 184"; gui_circle x y "80"; "color 255 255 255";
      gui_line (wrap32 (x - 160)) y (wrap32 (x + 160)) y; gui_line x (wrap32 (y - 160)) x (wrap32 (y + 160))].
Fixpoint gui_touches (l : container_list) : res (list string) :=
  match l with
  | [] => Ok []
  | b :: l => t ← gui_touch b; rest ← gui_touches l; Ok (t ++ rest)
  end.

(** [moCalibrationModule::guiBuild]; [connected]: the module has an input. *)
Definition guiBuild (connected : bool) (st : calibration) : res (list string) :=
  let head := ["viewport 1000 1000"; "color 0 121 184"]
                ++ gui_points (ca_active_point st) 0 (ca_screenPoints st) in
  match ca_subdiv st with
  | None => Ok head
  | Some d =>
      let edges := sd_edges d ≫= gui_edge d (ca_delaunayToScreen st) in
      touches ← (if connected then gui_touches (ca_blobs st) else Ok []);
      Ok (head ++ ["color 255 255 255"] ++ edges ++ touches)
  end.

(** ** Frames *)

(** One [update] per list of blobs. *)
Fixpoint run_updates (frames : list container_list) (st : calibration) : res calibration :=
  match frames with
  | [] => Ok st
  | f :: frames => r ← calibration_update (Some f) st; run_updates frames r.1
  end.

(** A blob that reads as touch [id] at [p]. *)
Definition touch_at (id : Z) (p : moPoint) (c : container) : Prop :=
  get_double "x" c = Ok (pt_x p) ∧ get_double "y" c = Ok (pt_y p) ∧ get_int "blob_id" c = Ok id
  ∧ 0 <= id < 2 ^ 31.

Definition settled (p : moPoint) : moPoint :=
  {| pt_x := mean (pt_x p) (pt_x p); pt_y := mean (pt_y p) (pt_y p) |}.

Lemma u32_small z : 0 <= z < 2 ^ 31 → u32 z = z.
Proof. intros ?. unfold u32. apply Z.mod_small. lia. Qed.

(** The collecting state: [n] points of [screen] are done. *)
Record collecting (n : nat) (st : calibration) : Prop := {
  co_on : ca_calibrate st = true;
  co_active : ca_active_point st = Z.of_nat n;
  co_room : (n < length (ca_screenPoints st))%nat;
  co_small : Z.of_nat (length (ca_screenPoints st)) < 2 ^ 31;
  co_surface : n ≠ 0%nat → length (ca_surfacePoints st) = n;
}.

(** The surface points so far. *)
Definition collected (st : calibration) : moPointList :=
  if ca_active_point st =? 0 then [] else ca_surfacePoints st.

(** The calibration after [calibrate] dropped the points of an earlier one. *)
Lemma clear_surface n st :
  collecting n st →
  let st1 := if ca_active_point st =? 0 then set_surfacePoints [] st else st in
  collecting n st1 ∧ ca_surfacePoints st1 = collected st ∧ ca_last_id st1 = ca_last_id st
  ∧ ca_last_finished_id st1 = ca_last_finished_id st ∧ ca_current_duration st1 = ca_current_duration st
  ∧ ca_current_touch st1 = ca_current_touch st ∧ ca_duration_per_point st1 = ca_duration_per_point st
  ∧ ca_screenPoints st1 = ca_screenPoints st.
Proof.
  intros [Hon Hact Hroom Hsm Hsu] st1. unfold st1, collected. destruct (ca_active_point st =? 0) eqn:E.
  - apply Z.eqb_eq in E. assert (n = 0%nat) as -> by lia.
    unfold set_surfacePoints, surfacepoints_changed. case_decide as Hd; simpl in *; [lia|].
    split_and!; done.
  - split_and!; done.
Qed.

Section Touches.
  Context (id : Z) (p : moPoint) (c : container) (Hc : touch_at id p c).

  (** The readings of [calibrate]. *)
Lemma calibrate_unfold st :
    calibrate [c] st
    = (let st1 := if ca_active_point st =? 0 then set_surfacePoints [] st else st in
       r ← calibrate_touch id p st1;
       match r with
       | None => Ok st1
       | Some (q, st2) =>
           if ca_current_duration st2 <? ca_duration_per_point st2 then Ok st2
           else calibrate_point id q st2
       end).
  Proof.
    destruct Hc as (Hx & Hy & Hi & Hr). unfold calibrate. rewrite Hx, Hy, Hi. cbn [mbind res_bind].
    rewrite u32_small by done. by destruct p.
  Qed.

Lemma update_calibrate st :
    ca_calibrate st = true → calibration_update (Some [c]) st = st ← calibrate [c] st; Ok (st, None).
  Proof. intros H. unfold calibration_update. by rewrite H. Qed.

  (** First frame of a touch: the point is only noticed. *)
Lemma first_frame n st :
    collecting n st → ca_last_id st ≠ id → 1 <= ca_duration_per_point st →
    ∃ st', calibrate [c] st = Ok st' ∧ collecting n st' ∧ ca_surfacePoints st' = collected st
      ∧ collected st' = collected st
      ∧ ca_last_id st' = id ∧ ca_last_finished_id st' = ca_last_finished_id st ∧ ca_current_duration st' = 0
      ∧ ca_current_touch st' = TouchNull ∧ ca_duration_per_point st' = ca_duration_per_point st
      ∧ ca_screenPoints st' = ca_screenPoints st.
  Proof.
    intros Hst Hid Hd. rewrite calibrate_unfold. destruct (clear_surface n st Hst) as (H1 & Hs & Hl & Hf & _ & _ & Hdur & Hscr).
    set (st1 := if ca_active_point st =? 0 then set_surfacePoints [] st else st) in *. cbv zeta.
    unfold calibrate_touch. rewrite Hl, (proj2 (Z.eqb_neq id (ca_last_id st))) by done. cbn [mbind res_bind].
    cbn [with_progress ca_current_duration ca_duration_per_point]. rewrite Hdur, (proj2 (Z.ltb_lt 0 _)) by lia.
    eexists. split; [reflexivity|]. cbn. destruct H1 as [? Ha ? ? Hsu].
    assert (Hcol : collected (with_progress (ca_active_point st1) id (ca_last_finished_id st1) 0 TouchNull st1) = collected st).
    { unfold collected at 1. cbn. rewrite Hs. unfold collected. destruct Hst as [_ Ha' _ _ _].
      rewrite Ha, Ha'. by case_match. }
    split_and!; done.
  Qed.

  (** Second frame, with [duration_per_point] 1: the point is taken. *)
Lemma second_frame n st :
    collecting n st → ca_last_id st = id → ca_last_finished_id st ≠ id → ca_current_touch st = TouchNull →
    ca_current_duration st = 0 → ca_duration_per_point st = 1 → ca_surfacePoints st = collected st →
    ∃ st1, calibrate [c] st
           = (if decide (S n = length (ca_screenPoints st)) then triangulate st1 else Ok st1)
      ∧ ca_surfacePoints st1 = collected st ++ [settled p]
      ∧ ca_screenPoints st1 = ca_screenPoints st ∧ ca_duration_per_point st1 = 1
      ∧ ca_last_id st1 = id ∧ ca_last_finished_id st1 = id ∧ ca_current_duration st1 = 0
      ∧ ca_current_touch st1 = TouchNull
      ∧ (if decide (S n = length (ca_screenPoints st))
         then ca_calibrate st1 = false ∧ ca_calibrated st1 = true ∧ ca_active_point st1 = 0
         else collecting (S n) st1).
  Proof.
    intros Hst Hl Hf Ht Hd0 Hd1 Hsf. rewrite calibrate_unfold.
    destruct (clear_surface n st Hst) as (H1 & Hs & Hl1 & Hf1 & Hd & Ht1 & Hdur & Hscr).
    set (st1 := if ca_active_point st =? 0 then set_surfacePoints [] st else st) in *. cbv zeta.
    unfold calibrate_touch. rewrite Hl1, Hl, Z.eqb_refl, Hf1, (proj2 (Z.eqb_neq _ id)) by done.
    rewrite Ht1, Ht, Hd, Hd0. cbn [Z.eqb assert_ mbind res_bind with_progress ca_current_duration ca_duration_per_point].
    rewrite Hdur, Hd1. change (wrap32 (0 + 1) <? 1) with false. cbv iota.
    unfold calibrate_point. cbn [deref mbind res_bind with_progress ca_last_id]. rewrite Z.eqb_refl. cbn [assert_ mbind res_bind].
    destruct H1 as [Hon Ha Hroom Hsm Hsu]. rewrite Hscr in *.
    assert (Hlen : length (collected st) = n).
    { unfold collected. destruct Hst as [_ Ha' _ _ Hsu']. rewrite Ha'. destruct n as [|n]; [done|]. simpl. by apply Hsu'. }
    assert (Hmod : (Z.of_nat (length (ca_screenPoints st)) - 1) mod 2 ^ 64 = Z.of_nat (length (ca_screenPoints st)) - 1)
      by (apply Z.mod_small; lia).
    unfold set_surfacePoints, surfacepoints_changed.
    cbn [with_points with_progress ca_screenPoints ca_surfacePoints]. rewrite Hs, ?Hscr.
    destruct (decide (S n = length (ca_screenPoints st))) as [Hlast|Hmore].
    - rewrite decide_True by (rewrite length_app, Hlen; simpl; lia).
      cbn [with_points with_progress notifyTriangulate ca_active_point ca_screenPoints]. rewrite Ha, ?Hscr, Hmod.
      rewrite (proj2 (Z.eqb_eq _ _)) by lia. eexists. split; [reflexivity|]. cbn. rewrite ?Hs, ?Hscr, ?Hdur. by split_and!.
    - rewrite decide_False by (rewrite length_app, Hlen; simpl; lia).
      cbn [with_points with_progress ca_active_point ca_screenPoints]. rewrite Ha, ?Hscr, Hmod.
      rewrite (proj2 (Z.eqb_neq _ _)) by lia.
      match goal with |- context [deref ?x] => destruct x as [q|] eqn:Hq end;
        [|apply lookup_ge_None_1 in Hq; lia].
      cbn [deref mbind res_bind]. eexists. split; [reflexivity|]. cbn.
      rewrite ?Hs, ?Hscr, Hdur. split_and!; try done. split; cbn; rewrite ?Hscr; try done; [|lia|].
      + unfold u32. rewrite Z.mod_small; lia.
      + intros _. rewrite ?Hs, length_app, Hlen. simpl. lia.
  Qed.
End Touches.

(** Both frames of a touch that is not the last one. *)
Definition waiting (n : nat) (last : Z) (pts : moPointList) (screen : moPointList) (st : calibration) : Prop :=
  collecting n st ∧ collected st = pts ∧ ca_last_id st = last
  ∧ (ca_last_finished_id st = u32 (-1) ∨ ca_last_finished_id st = last)
  ∧ ca_duration_per_point st = 1 ∧ ca_screenPoints st = screen.

Lemma both_frames n last pts screen st id p c :
  waiting n last pts screen st → touch_at id p c → id ≠ last →
  ∃ st1, run_updates [[c]; [c]] st
         = (if decide (S n = length screen) then triangulate st1 else Ok st1)
    ∧ ca_surfacePoints st1 = pts ++ [settled p] ∧ ca_screenPoints st1 = screen
    ∧ (if decide (S n = length screen)
       then ca_calibrate st1 = false ∧ ca_calibrated st1 = true ∧ ca_active_point st1 = 0
       else waiting (S n) id (pts ++ [settled p]) screen st1).
Proof.
  intros (Hst & Hp & Hl & Hf & Hd & Hs) Hc Hid.
  assert (Hne : id ≠ u32 (-1)) by (destruct Hc as (_ & _ & _ & Hr); change (u32 (-1)) with 4294967295; lia).
  destruct (first_frame id p c Hc n st Hst) as (st2 & E1 & Hst2 & Hsf & Hcol & Hl2 & Hf2 & Hd2 & Ht2 & Hdur & Hscr);
    [congruence|lia|].
  destruct (second_frame id p c Hc n st2 Hst2) as (st1 & E2 & Hsu & Hscr1 & Hd1 & Hl1 & Hf1 & _ & _ & Hend);
    [done| |done..|by rewrite Hdur|congruence|].
  { rewrite Hf2. destruct Hf as [->| ->]; congruence. }
  exists st1. rewrite Hscr, Hs in *. rewrite Hcol, Hp in *.
  split; [|split_and!; [done..|]].
  - cbn [run_updates]. rewrite update_calibrate by apply Hst. rewrite E1. cbn [mbind res_bind fst].
    rewrite update_calibrate by apply Hst2. rewrite E2. by destruct (decide _), (triangulate st1).
  - destruct (decide _); [done|]. split_and!; try done; [|by right].
    unfold collected. destruct Hend as [_ -> _ _ _]. by rewrite Hsu.
Qed.

Lemma run_updates_app f g st : run_updates (f ++ g) st = st ← run_updates f st; run_updates g st.
Proof.
  revert st. induction f as [|b f IH]; intros st; [done|]. cbn [app run_updates].
  destruct (calibration_update (Some b) st); [|done]. cbn. apply IH.
Qed.

(** A touch lasting two frames. *)
Definition held (c : container) : list container_list := [[c]; [c]].

Inductive touches : Z → list (Z * moPoint) → list container → Prop :=
  | touches_nil last : touches last [] []
  | touches_cons last id p c ts cs :
      id ≠ last → touch_at id p c → touches id ts cs → touches last ((id, p) :: ts) (c :: cs).

Context {DL : DelaunayLaws D}.

Lemma insert_points_total surface screen d m :
  Forall (λ p, sd_inside (cvPoint2D32f (pt_x p) (pt_y p))) surface →
  (length surface ≤ length screen)%nat → ∃ r, insert_points surface screen d m = Ok r.
Proof.
  intros Hin. revert screen d m. induction Hin as [|p surface Hp _ IH]; intros [|q screen] d m Hl;
    try (simpl in Hl; lia); [by eexists..|].
  cbn [insert_points]. destruct (sd_insert_inside d _ Hp) as [[d' v] ->]. apply IH. simpl in Hl. lia.
Qed.

Lemma triangulate_total st :
  length (ca_surfacePoints st) = length (ca_screenPoints st) →
  Forall (λ p, sd_inside (cvPoint2D32f (pt_x p) (pt_y p))) (ca_surfacePoints st) →
  ∃ st', triangulate st = Ok st' ∧ ca_calibrate st' = ca_calibrate st ∧ ca_calibrated st' = ca_calibrated st
    ∧ ca_surfacePoints st' = ca_surfacePoints st ∧ ca_screenPoints st' = ca_screenPoints st
    ∧ ca_retriangulate st' = false ∧ ca_subdiv st' ≠ None.
Proof.
  intros Hl Hin. unfold triangulate. rewrite bool_decide_true by done. cbn [assert_ mbind res_bind].
  destruct (insert_points_total (ca_surfacePoints st) (ca_screenPoints st) sd_create []) as [r ->]; [done|lia|].
  eexists. split; [reflexivity|]. by split_and!.
Qed.

Lemma all_touches last ts cs : touches last ts cs →
  ∀ n pts screen st, waiting n last pts screen st → (n + length ts = length screen)%nat → ts ≠ [] →
  Forall (λ p, sd_inside (cvPoint2D32f (pt_x p) (pt_y p))) (pts ++ (settled <$> ts.*2)) →
  ∃ st', run_updates (cs ≫= held) st = Ok st' ∧ ca_calibrate st' = false ∧ ca_calibrated st' = true
    ∧ ca_surfacePoints st' = pts ++ (settled <$> ts.*2) ∧ ca_screenPoints st' = screen
    ∧ ca_retriangulate st' = false ∧ ca_subdiv st' ≠ None.
Proof.
  induction 1 as [|last id p c ts cs Hid Hc Hts IH]; intros n pts screen st Hst Hn Hne Hin; [done|].
  destruct (both_frames n last pts screen st id p c Hst Hc Hid) as (st1 & E & Hsu & Hscr & Hend).
  rewrite bind_cons, run_updates_app. change (held c) with [[c]; [c]]. rewrite E.
  cbn [fmap list_fmap snd] in *. rewrite cons_middle, app_assoc in Hin |- *.
  destruct (decide (S n = length screen)) as [Hlast|Hmore].
  - destruct ts as [|t ts]; [|simpl in Hn; lia]. assert (cs = []) as -> by by inversion Hts. cbn [fmap list_fmap] in *.
    rewrite app_nil_r in Hin |- *. destruct Hend as (Hon & Hcal & _).
    destruct (triangulate_total st1) as (st' & E' & H1 & H2 & H3 & H4 & H5 & H6); [|by rewrite Hsu|].
    { rewrite Hsu, Hscr. destruct Hst as (Hst & <- & _). unfold collected. destruct Hst as [_ -> _ _ Hl].
      rewrite length_app. destruct n; simpl; [lia|]. rewrite Hl by done. lia. }
    exists st'. rewrite E'. cbn. rewrite H1, H2, H3, H4. by split_and!.
  - cbn [mbind res_bind]. apply (IH (S n)); [done|simpl in Hn; lia| |done].
    intros ->. simpl in Hn. lia.
Qed.

(** ** Vertices *)

Definition cvp (p : moPoint) : fpoint := cvPoint2D32f (pt_x p) (pt_y p).

Lemma insert_points_vertices surface screen d m l d' m' :
  insert_points surface screen d m = Ok (d', m') → sd_rel d l → NoDup (l.*1 ++ (cvp <$> surface)) →
  ∃ vs, length vs = length surface ∧ sd_rel d' (l ++ zip (cvp <$> surface) vs)
    ∧ NoDup vs ∧ (∀ v, v ∈ vs → v ∉ l.*2)
    ∧ (∀ i v q, vs !! i = Some v → screen !! i = Some q → to_screen v m' = q)
    ∧ (∀ v, v ∉ vs → to_screen v m' = to_screen v m).
Proof.
  revert screen d m l. induction surface as [|p surface IH]; intros screen d m l Hrun Hrel Hnd.
  { injection Hrun as -> ->. exists []. rewrite app_nil_r. split_and!; try done; [constructor|set_solver]. }
  destruct screen as [|q screen]; [done|]. cbn [insert_points] in Hrun. fold (cvp p) in Hrun.
  destruct (sd_insert d (cvp p)) as [[d1 v]|] eqn:Ei; [|done].
  cbn [fmap list_fmap] in Hnd. rewrite cons_middle, app_assoc in Hnd.
  assert (Hp : cvp p ∉ l.*1).
  { apply NoDup_app in Hnd as (Hnd & _ & _). apply NoDup_app in Hnd as (_ & Hd & _). set_solver. }
  destruct (sd_rel_insert d l (cvp p) d1 v Hrel Ei Hp) as [Hv Hrel1].
  destruct (IH screen d1 ((v, q) :: m) (l ++ [(cvp p, v)])) as (vs & Hlen & Hrel' & Hvs & Hfresh & Hin & Hout);
    [done|done|by rewrite fmap_app|].
  assert (Hvvs : v ∉ vs) by (intros Hx; apply Hfresh in Hx; rewrite fmap_app in Hx; set_solver).
  exists (v :: vs). split_and!.
  - simpl. by f_equal.
  - by rewrite <-app_assoc in Hrel'.
  - by constructor.
  - intros u [->|Hu]%elem_of_cons; [done|]. apply Hfresh in Hu. rewrite fmap_app in Hu. set_solver.
  - intros [|i] u r Hu Hr; [|by eapply Hin]. injection Hu as ->. injection Hr as ->.
    rewrite Hout by done. simpl. by rewrite decide_True.
  - intros u Hu. apply not_elem_of_cons in Hu as [Hu Huvs]. rewrite Hout by done. simpl. by rewrite decide_False.
Qed.
End Calibration.

(** ** A concrete subdivision *)

(** The points in order; every other point is in the facet of the first three. *)
Definition find_point (p : fpoint) (d : list fpoint) : option nat :=
  fst <$> list_find (λ q, q = p) d.
Definition list_delaunay : Delaunay := {|
  subdiv := list fpoint; vertex := nat; edge := nat;
  sd_create := [];
  sd_insert d p := Some (match find_point p d with Some i => (d, i) | None => (d ++ [p], length d) end);
  sd_locate d p := match find_point p d with Some i => AtVertex i | None => InFacet 0%nat end;
  sd_org d e := e; sd_dst d e := Some (S e `mod` 3)%nat; sd_next_right d e := (S e `mod` 3)%nat;
  sd_pt d v := default (dzero, dzero) (d !! v); sd_edges d := [0; 1; 2]%nat
|}.

Lemma find_point_None p d : p ∉ d → find_point p d = None.
Proof.
  intros H. unfold find_point. destruct (list_find (λ q, q = p) d) as [[i q]|] eqn:E; [|done].
  apply list_find_Some in E as (Hi & -> & _). by apply list_elem_of_lookup_2 in Hi.
Qed.
Lemma find_point_Some p d i : NoDup d → d !! i = Some p → find_point p d = Some i.
Proof.
  intros Hd Hi. unfold find_point. assert (E : list_find (λ q, q = p) d = Some (i, p)); [|by rewrite E].
  apply list_find_Some. split_and!; [done|done|]. intros j q Hj Hlt ->.
  pose proof (NoDup_lookup _ _ _ _ Hd Hi Hj). lia.
Qed.

#[export] Instance list_delaunay_laws : DelaunayLaws list_delaunay.
Proof.
  refine {| sd_rel (d : subdiv (Delaunay := list_delaunay)) l := l = zip d (seq 0 (length d)) ∧ NoDup (d : list fpoint);
            sd_inside _ := True |}; simpl.
  - split; [done|constructor].
  - intros d l p d' v [-> Hnd] [= Hi] Hp.
    rewrite fst_zip in Hp by (rewrite length_seq; lia). rewrite find_point_None in Hi by done. injection Hi as <- <-.
    rewrite snd_zip by (rewrite length_seq; lia). split; [rewrite elem_of_seq; lia|]. split.
    + rewrite length_app, seq_app. simpl. by rewrite zip_with_app by by rewrite length_seq.
    + apply NoDup_app. split_and!; [done| |apply NoDup_singleton]. intros q Hq Hq'. by apply list_elem_of_singleton in Hq' as ->.
  - by eexists.
  - intros d l p v [-> Hnd] Hin. apply list_elem_of_lookup in Hin as [i Hi].
    apply lookup_zip_with_Some in Hi as (q & j & [= <- <-] & Hq & Hj).
    apply lookup_seq in Hj as [-> _]. by rewrite (find_point_Some p d i).
Defined.

(** ** Properties *)

(** C29: with [duration_per_point] 1 a calibration that has just begun (no point
    done, no last or finished id) completes when it gets as many touches as there are
    screen points, each held for exactly two frames, each with an id different from
    that of the touch before, and all inside the rectangle of the subdivision: it
    collects the surface points in order, never leaves an array, passes the assertion
    of [triangulate], and ends with the subdivision built, calibration mode off and the
    module calibrated.  Touches of a single frame do not suffice
    ([short_touches_ignored]). *)
Theorem calibration_completes (D : Delaunay) (DL : DelaunayLaws D) (st : calibration)
    (ts : list (Z * moPoint)) (cs : list container) :
  ca_calibrate st = true → ca_active_point st = 0 → ca_last_id st = u32 (-1) →
  ca_last_finished_id st = u32 (-1) → ca_duration_per_point st = 1 →
  touches (u32 (-1)) ts cs → length ts = length (ca_screenPoints st) → ts ≠ [] →
  Z.of_nat (length ts) < 2 ^ 31 → Forall (λ p, sd_inside (cvp p)) (settled <$> ts.*2) →
  ∃ st', run_updates (cs ≫= held) st = Ok st' ∧ ca_calibrate st' = false ∧ ca_calibrated st' = true
    ∧ ca_surfacePoints st' = settled <$> ts.*2 ∧ ca_screenPoints st' = ca_screenPoints st
    ∧ ca_retriangulate st' = false ∧ ca_subdiv st' ≠ None.
Proof.
  intros Hon Ha Hl Hf Hd Hts Hlen Hne Hsm Hin.
  apply (all_touches (u32 (-1)) ts cs Hts 0 [] (ca_screenPoints st) st); [|done..].
  split_and!; [|unfold collected; by rewrite Ha|done|by left|done..].
  split; try done; [|lia]. destruct ts; [done|]. simpl in Hlen. lia.
Qed.

(** Two screen points, touched one after the other. *)
Definition demo_touch (id : Z) (x : Z) : container :=
  put_prop "blob_id" (int_prop id)
    (put_prop "x" (double_prop (d_of_Z x)) (put_prop "y" (double_prop (d_of_Z 1))
      (put_prop "implements" (string_prop "tracked") new_container))).
Definition demo_point (x : Z) : moPoint := {| pt_x := d_of_Z x; pt_y := d_of_Z 1 |}.
Definition demo_calibration : calibration (D := list_delaunay) :=
  set_calibrate true (set_duration 1 (new_calibration [demo_point 0; demo_point 1])).
Lemma demo_touch_at id x : 0 <= id < 2 ^ 31 → touch_at id (demo_point x) (demo_touch id x).
Proof. intros H. split_and!; [reflexivity|reflexivity|reflexivity|lia..]. Qed.
Lemma demo_touches : touches (u32 (-1)) [(5, demo_point 3); (6, demo_point 4)] [demo_touch 5 3; demo_touch 6 4].
Proof.
  apply touches_cons; [discriminate|by apply demo_touch_at|].
  apply touches_cons; [discriminate|by apply demo_touch_at|apply touches_nil].
Qed.
Lemma demo_inside :
  Forall (λ p, sd_inside (DelaunayLaws := list_delaunay_laws) (cvp p))
    (settled <$> [(5, demo_point 3); (6, demo_point 4)].*2).
Proof. apply Forall_true. intros q. exact I. Qed.
Lemma calibration_completes_witness :
  ∃ st', run_updates ([demo_touch 5 3; demo_touch 6 4] ≫= held) demo_calibration = Ok st'
    ∧ ca_calibrated st' = true ∧ ca_surfacePoints st' = [demo_point 3; demo_point 4].
Proof.
  destruct (calibration_completes list_delaunay list_delaunay_laws demo_calibration
    [(5, demo_point 3); (6, demo_point 4)] [demo_touch 5 3; demo_touch 6 4]
    eq_refl eq_refl eq_refl eq_refl eq_refl demo_touches eq_refl ltac:(discriminate)
    ltac:(vm_compute; reflexivity) demo_inside) as (st' & Hrun & _ & Hc & Hs & _).
  exists st'. split; [exact Hrun|]. split; [exact Hc|]. rewrite Hs. vm_compute. reflexivity.
Defined.

(** Touches that last one frame each are not collected, however many come. *)
Example short_touches_ignored :
  match run_updates [[demo_touch 5 3]; [demo_touch 6 4]; [demo_touch 7 3]; [demo_touch 8 4]] demo_calibration with
  | Ok st => ca_calibrated st = false ∧ ca_active_point st = 0
  | Fault _ => False
  end.
Proof. vm_compute. split; reflexivity. Qed.

(** The mapping reproduces the calibration: once the surface points are
    triangulated (no two of them equal in single precision), a blob at the
    [i]-th surface point is sent to exactly the [i]-th screen point and keeps
    its id. *)
Theorem calibrated_points_exact (D : Delaunay) (DL : DelaunayLaws D) (st st' : calibration)
    (i : nat) (p q : moPoint) (it : container) (x y : double) (id : Z) (implements : string) :
  triangulate st = Ok st' → NoDup (cvp <$> ca_surfacePoints st) →
  ca_surfacePoints st !! i = Some p → ca_screenPoints st !! i = Some q →
  get_double "x" it = Ok x → get_double "y" it = Ok y → cvPoint2D32f x y = cvp p →
  get_int "blob_id" it = Ok id → get_string "implements" it = Ok implements →
  ∃ d b, ca_subdiv st' = Some d ∧ transform_blob d (ca_delaunayToScreen st') it = Ok b
    ∧ get_double "x" b = Ok (pt_x q) ∧ get_double "y" b = Ok (pt_y q)
    ∧ get_int "blob_id" b = Ok id ∧ get_string "implements" b = Ok implements.
Proof.
  intros Htri Hnd Hp Hq Hx Hy Hxy Hid Himp. unfold triangulate in Htri. apply res_bind_Ok in Htri as (_ & _ & Htri).
  apply res_bind_Ok in Htri as ([d m] & Hins & [= <-]). cbn [ca_subdiv ca_delaunayToScreen fst snd].
  destruct (insert_points_vertices _ _ _ _ [] _ _ Hins sd_rel_create Hnd) as (vs & Hlen & Hrel & _ & _ & Hmap & _).
  destruct (lookup_lt_is_Some_2 vs i) as [v Hv]; [rewrite Hlen; by eapply lookup_lt_Some|].
  assert (Hloc : sd_locate d (cvPoint2D32f x y) = AtVertex v).
  { rewrite Hxy. eapply sd_rel_locate; [exact Hrel|]. rewrite app_nil_l. apply list_elem_of_lookup. exists i.
    apply lookup_zip_with_Some. exists (cvp p), v. split_and!; [done| |done]. apply list_lookup_fmap_Some. by exists p. }
  exists d. unfold transform_blob. rewrite Hx, Hy. cbn [mbind res_bind]. rewrite Hloc, Hid, Himp. cbn [mbind res_bind].
  rewrite (Hmap i v q Hv Hq). eexists. split; [done|]. split; [reflexivity|]. by split_and!.
Qed.

Lemma calibrated_points_exact_witness :
  ∃ st' d b, triangulate (set_surfacePoints [demo_point 3; demo_point 4] demo_calibration) = Ok st'
    ∧ ca_subdiv st' = Some d ∧ transform_blob d (ca_delaunayToScreen st') (demo_touch 9 4) = Ok b
    ∧ get_double "x" b = Ok (d_of_Z 1) ∧ get_int "blob_id" b = Ok 9.
Proof.
  set (st := set_surfacePoints [demo_point 3; demo_point 4] demo_calibration).
  destruct (triangulate st) as [st'|] eqn:E; [|vm_compute in E; discriminate].
  destruct (calibrated_points_exact list_delaunay list_delaunay_laws st st' 1 (demo_point 4) (demo_point 1)
    (demo_touch 9 4) (d_of_Z 4) (d_of_Z 1) 9 "tracked" E) as (d & b & Hd & Hb & Hx & _ & Hi & _);
    try reflexivity.
  - by apply (bool_decide_unpack _); vm_compute.
  - by exists st', d, b.
Defined.

(** For any other [duration_per_point] no point can be calibrated.  With 2
    or more, the default 50 included, the third frame of a touch reads a local
    variable of an earlier call through [current_touch]; with 0 or less the
    first frame reads through a null pointer. *)
Theorem calibrate_faults (D : Delaunay) (st : calibration) (n : nat) (id : Z) (p : moPoint) (c : container) :
  collecting n st → touch_at id p c → ca_last_id st ≠ id → ca_last_finished_id st ≠ id →
  (2 <= ca_duration_per_point st → run_updates [[c]; [c]; [c]] st = Fault FBadAccess)
  ∧ (ca_duration_per_point st <= 0 → run_updates [[c]] st = Fault FBadAccess).
Proof.
  intros Hst Hc Hl Hf. split; intros Hd.
  - destruct (first_frame id p c Hc n st Hst Hl) as (st2 & E1 & Hst2 & _ & _ & Hl2 & Hf2 & Hd2 & Ht2 & Hdur & _); [lia|].
    cbn [run_updates]. rewrite update_calibrate by apply Hst. rewrite E1. cbn [mbind res_bind fst].
    rewrite update_calibrate by apply Hst2. rewrite (calibrate_unfold id p) by done.
    destruct (clear_surface n st2 Hst2) as (H3 & _ & Hl3 & Hf3 & Hd3 & Ht3 & Hdur3 & _).
    set (st3 := if ca_active_point st2 =? 0 then set_surfacePoints [] st2 else st2) in *. cbv zeta.
    unfold calibrate_touch at 1. rewrite Hl3, Hl2, Z.eqb_refl, Hf3, Hf2, (proj2 (Z.eqb_neq _ id)) by done.
    rewrite Ht3, Ht2, Hd3, Hd2. cbn [Z.eqb assert_ mbind res_bind with_progress ca_current_duration ca_duration_per_point].
    rewrite Hdur3, Hdur, (proj2 (Z.ltb_lt _ _)) by (change (wrap32 (0 + 1)) with 1; lia). cbn [mbind res_bind fst].
    set (st4 := with_progress _ _ _ _ TouchDangling st3).
    assert (Hst4 : collecting n st4) by (by destruct H3).
    rewrite update_calibrate by apply Hst4. rewrite (calibrate_unfold id p) by done.
    destruct (clear_surface n st4 Hst4) as (_ & _ & Hl5 & Hf5 & _ & Ht5 & _ & _).
    set (st5 := if ca_active_point st4 =? 0 then set_surfacePoints [] st4 else st4) in *. cbv zeta.
    unfold calibrate_touch. rewrite Hl5. cbn [st4 with_progress ca_last_id]. rewrite Z.eqb_refl, Hf5.
    cbn [st4 with_progress ca_last_finished_id]. rewrite (proj2 (Z.eqb_neq _ id)) by congruence. by rewrite Ht5.
  - cbn [run_updates]. rewrite update_calibrate by apply Hst. rewrite (calibrate_unfold id p) by done.
    destruct (clear_surface n st Hst) as (_ & _ & Hl1 & _ & _ & _ & Hdur1 & _).
    set (st1 := if ca_active_point st =? 0 then set_surfacePoints [] st else st) in *. cbv zeta.
    unfold calibrate_touch. rewrite Hl1, (proj2 (Z.eqb_neq id _)) by done.
    cbn [mbind res_bind with_progress ca_current_duration ca_duration_per_point].
    by rewrite Hdur1, (proj2 (Z.ltb_ge 0 _)).
Qed.
Lemma calibrate_faults_witness :
  run_updates [[demo_touch 5 3]; [demo_touch 5 3]; [demo_touch 5 3]]
    (set_calibrate true (new_calibration (D := list_delaunay) [demo_point 0; demo_point 1])) = Fault FBadAccess.
Proof.
  apply (calibrate_faults list_delaunay
    (set_calibrate true (new_calibration (D := list_delaunay) [demo_point 0; demo_point 1])) 0 5 (demo_point 3)).
  - split; try reflexivity; vm_compute; congruence || (intros []; lia) || lia.
  - by apply demo_touch_at.
  - discriminate.
  - discriminate.
  - vm_compute; congruence.
Defined.

(** Changing the size of the grid between the loading of a preset and the next
    frame makes [triangulate] fail its assertion. *)
Example resize_aborts :
  let loaded := set_surfacePoints [demo_point 3; demo_point 4]
                  (new_calibration (D := list_delaunay) [demo_point 0; demo_point 1]) in
  is_ok (calibration_update (Some []) loaded) = true
  ∧ (st ← set_size 2 2 loaded; calibration_update (Some []) st) = Fault FAssert.
Proof. vm_compute. by split. Qed.
