(* ===== verification/Peaks.v ===== *)
(** Peaks of an image: moPeakFinderModule.cpp, and the search of the palm in
    moFingerTipFinderModule.cpp.

    Both walk over the pixels of an image, column by column, and read them
    through a [char *], a signed type with the compilers the program is built
    with: a pixel of 128 or more is negative.  [std::sort] is an interface: it
    gives some sorted permutation. *)
From S2P Require Import Prelude StdMap Numeric Utils Property Container Module World Catalogue FloatExact Calibration.
#[local] Open Scope Z_scope.

(** ** Images *)

(** A one channel image: [ra_step] bytes per row, the bytes of [imageData]. *)
Record raster := { ra_width : Z; ra_height : Z; ra_step : Z; ra_data : list Z }.

Definition as_char (b : Z) : Z := if b <? 128 then b else b - 256.
(** [(int) data[k]]. *)
Definition char_at (img : raster) (k : Z) : res Z :=
  if k <? 0 then Fault FBadAccess else as_char <$> deref (ra_data img !! Z.to_nat k).

(** ** [std::sort] *)

(** What a comparison must be on the elements of a list. *)
Definition strict_weak {A} (lt : A → A → bool) (l : list A) : Prop :=
  (∀ a b, a ∈ l → b ∈ l → lt a b = true → lt b a = false)
  ∧ (∀ a b c, a ∈ l → b ∈ l → c ∈ l → lt a b = false → lt b c = false → lt a c = false).

Class StdSort := {
  std_sort {A} : (A → A → bool) → list A → list A;
  std_sort_perm {A} (lt : A → A → bool) l : std_sort lt l ≡ₚ l;
  std_sort_sorted {A} (lt : A → A → bool) l : strict_weak lt l → StronglySorted (λ a b, lt b a = false) (std_sort lt l);
}.

(** An instance. *)
Fixpoint insert_sorted {A} (lt : A → A → bool) (x : A) (l : list A) : list A :=
  match l with
  | [] => [x]
  | y :: l => if lt x y then x :: y :: l else y :: insert_sorted lt x l
  end.
Definition insertion_sort {A} (lt : A → A → bool) : list A → list A := foldr (insert_sorted lt) [].

Lemma insert_sorted_perm {A} (lt : A → A → bool) x l : insert_sorted lt x l ≡ₚ x :: l.
Proof. induction l as [|y l IH]; simpl; [done|]. destruct (lt x y); [done|]. rewrite IH. constructor. Qed.
Lemma insertion_sort_perm {A} (lt : A → A → bool) l : insertion_sort lt l ≡ₚ l.
Proof. induction l as [|x l IH]; simpl; [done|]. by rewrite insert_sorted_perm, IH. Qed.
Lemma strict_weak_perm {A} (lt : A → A → bool) l l' : l' ⊆ l → strict_weak lt l → strict_weak lt l'.
Proof. intros Hs [H1 H2]. split; [naive_solver|]. intros a b c Ha Hb Hc. apply H2; by apply Hs. Qed.
Lemma insert_sorted_sorted {A} (lt : A → A → bool) x l :
  strict_weak lt (x :: l) → StronglySorted (λ a b, lt b a = false) l → StronglySorted (λ a b, lt b a = false) (insert_sorted lt x l).
Proof.
  intros Hw Hs. induction Hs as [|y l Hs IH Hall]; simpl; [by repeat constructor|].
  destruct (lt x y) eqn:E.
  - apply Hw in E; [|set_solver..]. constructor; [by constructor|].
    apply Forall_cons. split; [done|]. rewrite Forall_forall in Hall |- *. intros z Hz.
    apply (proj2 Hw z y x); [set_solver..|by apply Hall|done].
  - constructor; [apply IH; eapply strict_weak_perm; [|done]; set_solver|].
    rewrite Forall_forall in Hall |- *. intros z. rewrite insert_sorted_perm. intros [->|Hz]%elem_of_cons; [done|by apply Hall].
Qed.
#[program] Definition insertion_std_sort : StdSort := {| std_sort := @insertion_sort; std_sort_perm := @insertion_sort_perm |}.
Next Obligation.
  intros A lt l. induction l as [|x l IH]; intros Hw; simpl; [constructor|].
  apply insert_sorted_sorted; [|apply IH; eapply strict_weak_perm; [|done]; set_solver].
  eapply strict_weak_perm; [|done]. intros z. by rewrite insertion_sort_perm.
Qed.

(** ** Pixels between two values *)

Section Scan.
  Context {P : Type} (at_point : Z → Z → P) (wrap : Z → Z).

  (** The inner loop, over the rows of a column. *)
Fixpoint range_column (img : raster) (min max : double) (i : Z) (rows : list Z) (peaks : list (double * P)) : res (list (double * P)) :=
    match rows with
    | [] => Ok peaks
    | j :: rows =>
        v ← char_at img (wrap (wrap (j * ra_step img) + i));
        let cur_val := d_of_Z v in
        let peaks := if d_ltb min cur_val && d_ltb cur_val max then peaks ++ [(cur_val, at_point i j)] else peaks in
        range_column img min max i rows peaks
    end.
Fixpoint range_columns (img : raster) (min max : double) (cols : list Z) (peaks : list (double * P)) : res (list (double * P)) :=
    match cols with
    | [] => Ok peaks
    | i :: cols => peaks ← range_column img min max i (seqZ 0 (ra_height img)) peaks; range_columns img min max cols peaks
    end.
Definition range_peaks (img : raster) (min max : double) : res (list (double * P)) :=
    range_columns img min max (seqZ 0 (ra_width img)) [].
End Scan.

(** [left.first > right.first]. *)
Definition stronger {P} (left right : double * P) : bool := d_ltb right.1 left.1.

(** ** moPeakFinderModule *)

Definition peak : Type := double * moPoint.
Definition int_point (i j : Z) : moPoint := {| pt_x := d_of_Z i; pt_y := d_of_Z j |}.
Definition findRange (img : raster) (min_value max_value : double) : res (list peak) :=
  range_peaks int_point wrap32 img min_value max_value.
Definition findMaxima {SO : StdSort} (max_peaks : Z) (peaks : list peak) : list peak :=
  let max_peaks := u32 max_peaks in
  if negb (max_peaks =? 0) && (max_peaks <? Z.of_nat (length peaks)) then take (Z.to_nat max_peaks) (std_sort stronger peaks) else peaks.
(** The corners of the rectangles [drawPeaks] draws; [cvRound] of an integral
    value is that integer. *)
Definition peak_box (p : peak) : (Z * Z) * (Z * Z) :=
  let radius := d_of_Z 5 in
  ((d_to_int (d_sub (pt_x p.2) radius), d_to_int (d_sub (pt_y p.2) radius)),
   (d_to_int (d_add (pt_x p.2) radius), d_to_int (d_add (pt_y p.2) radius))).
Definition drawPeaks (peaks : list peak) : list ((Z * Z) * (Z * Z)) := peak_box <$> peaks.
Definition peak_applyFilter {SO : StdSort} (min_value max_value : double) (max_peaks : Z) (src : raster)
    : res (list peak * list ((Z * Z) * (Z * Z))) :=
  peaks ← findRange src min_value max_value;
  let peaks := findMaxima max_peaks peaks in
  Ok (peaks, drawPeaks peaks).

(** ** What the scan finds *)

Definition byte (img : raster) (x y : Z) : Z := default 0 (ra_data img !! Z.to_nat (y * ra_step img + x)).
(** The value the code reads at a position. *)
Definition value (img : raster) (x y : Z) : Z := as_char (byte img x y).
Definition inside (img : raster) (x y : Z) : Prop := 0 <= x < ra_width img ∧ 0 <= y < ra_height img.
Record raster_ok (img : raster) : Prop := {
  ro_size : 0 <= ra_width img <= ra_step img ∧ 0 <= ra_height img;
  ro_data : ra_height img * ra_step img <= Z.of_nat (length (ra_data img));
  ro_int : ra_height img * ra_step img <= INT_MAX;
  ro_bytes : Forall (λ b, 0 <= b < 256) (ra_data img);
}.

Lemma char_at_ok img x y :
  raster_ok img → inside img x y → char_at img (y * ra_step img + x) = Ok (value img x y).
Proof.
  intros [Hs Hd _ _] [Hx Hy]. unfold char_at, value, byte. rewrite (proj2 (Z.ltb_ge _ _)) by nia.
  destruct (lookup_lt_is_Some_2 (ra_data img) (Z.to_nat (y * ra_step img + x))) as [b ->]; [nia|]. done.
Qed.
Lemma value_bound img x y : raster_ok img → -128 <= value img x y < 128.
Proof.
  intros H. unfold value, as_char. assert (0 <= byte img x y < 256).
  { unfold byte. destruct (_ !! _) as [b|] eqn:E; simpl; [|lia]. eapply (Forall_lookup_1 _ _ _ _ (ro_bytes _ H) E). }
  destruct (Z.ltb_spec (byte img x y) 128); lia.
Qed.

Lemma NoDup_omap {A B} (f : A → option B) l :
  (∀ x y b, x ∈ l → y ∈ l → f x = Some b → f y = Some b → x = y) → NoDup l → NoDup (omap f l).
Proof.
  induction l as [|x l IH]; intros Hinj Hnd; simpl; [constructor|]. apply NoDup_cons in Hnd as [Hx Hnd].
  specialize (IH ltac:(set_solver) Hnd). destruct (f x) as [b|] eqn:E; [|done]. apply NoDup_cons. split; [|done].
  intros (y & Hy & Ey)%list_elem_of_omap. rewrite (Hinj x y b) in Hx; set_solver.
Qed.

Section ScanSpec.
  Context {P : Type} (at_point : Z → Z → P) (wrap : Z → Z).
  Hypothesis wrap_id : ∀ z, 0 <= z <= INT_MAX → wrap z = z.
  Variables (img : raster) (min max : double).
  Hypothesis Hok : raster_ok img.

Definition pick (i j : Z) : option (double * P) :=
    let v := d_of_Z (value img i j) in if d_ltb min v && d_ltb v max then Some (v, at_point i j) else None.

Lemma range_column_ok i rows peaks :
    0 <= i < ra_width img → Forall (λ j, 0 <= j < ra_height img) rows →
    range_column at_point wrap img min max i rows peaks = Ok (peaks ++ omap (pick i) rows).
  Proof.
    intros Hi Hall. revert peaks. induction Hall as [|j rows Hj _ IH]; intros peaks; cbn [range_column omap list_omap]; [by rewrite app_nil_r|].
    destruct Hok as [Hs _ Hm _]. rewrite (wrap_id (j * _)), (wrap_id (_ + i)) by nia. rewrite char_at_ok by done. simpl.
    rewrite IH. unfold pick at 2. f_equal. destruct (_ && _); [|done]. by rewrite <-app_assoc.
  Qed.
Lemma range_columns_ok cols peaks :
    Forall (λ i, 0 <= i < ra_width img) cols →
    range_columns at_point wrap img min max cols peaks = Ok (peaks ++ (cols ≫= λ i, omap (pick i) (seqZ 0 (ra_height img)))).
  Proof.
    intros Hall. revert peaks. induction Hall as [|i cols Hi _ IH]; intros peaks; simpl; [by rewrite app_nil_r|].
    rewrite range_column_ok; [|done|apply Forall_forall; intros j; rewrite elem_of_seqZ; lia]. simpl. rewrite IH. by rewrite app_assoc.
  Qed.
Lemma range_peaks_ok :
    ∃ peaks, range_peaks at_point wrap img min max = Ok peaks
      ∧ (∀ v p, (v, p) ∈ peaks ↔ ∃ x y, inside img x y ∧ p = at_point x y ∧ v = d_of_Z (value img x y)
                                        ∧ d_ltb min v = true ∧ d_ltb v max = true)
      ∧ ((∀ x y x' y', inside img x y → inside img x' y' → at_point x y = at_point x' y' → x = x' ∧ y = y') → NoDup peaks).
  Proof.
    exists (seqZ 0 (ra_width img) ≫= λ i, omap (pick i) (seqZ 0 (ra_height img))).
    assert (Hmem : ∀ i v p, (v, p) ∈ omap (pick i) (seqZ 0 (ra_height img)) ↔
      ∃ y, 0 <= y < ra_height img ∧ p = at_point i y ∧ v = d_of_Z (value img i y) ∧ d_ltb min v = true ∧ d_ltb v max = true).
    { intros i v p. rewrite list_elem_of_omap. split.
      - intros (y & Hy & E). apply elem_of_seqZ in Hy. unfold pick in E. destruct (_ && _) eqn:Eb; [|done]. injection E as <- <-.
        apply andb_true_iff in Eb as [? ?]. exists y. split; [lia|]. done.
      - intros (y & Hy & -> & -> & H1 & H2). exists y. split; [apply elem_of_seqZ; lia|]. unfold pick. by rewrite H1, H2. }
    split; [apply range_columns_ok, Forall_forall; intros i; rewrite elem_of_seqZ; lia|]. split.
    - intros v p. rewrite list_elem_of_bind. setoid_rewrite Hmem. setoid_rewrite elem_of_seqZ. unfold inside. split.
      + intros (i & (y & Hy & Hp) & Hi). exists i, y. split; [lia|done].
      + intros (x & y & Hxy & Hp). exists x. split; [exists y; split; [lia|done]|lia].
    - intros Hinj. apply NoDup_bind.
      + intros i i' [v p] Hi Hi'. rewrite !Hmem. rewrite elem_of_seqZ in Hi, Hi'. intros (y & Hy & -> & _) (y' & Hy' & E & _).
        by destruct (Hinj i y i' y'); [split; lia..|done|].
      + intros i Hi. rewrite elem_of_seqZ in Hi. apply NoDup_omap; [|apply NoDup_seqZ].
        unfold pick. intros y y' b Hy Hy'. rewrite elem_of_seqZ in Hy, Hy'. destruct (_ && _); [|done]. destruct (_ && _); [|done].
        intros [= <-] [= _ E]. by destruct (Hinj i y' i y); [split; lia..|done|].
      + apply NoDup_seqZ.
  Qed.
End ScanSpec.

(** ** The strongest peaks *)

Lemma int_point_inj img x y x' y' :
  raster_ok img → inside img x y → inside img x' y' → int_point x y = int_point x' y' → x = x' ∧ y = y'.
Proof.
  assert (Hb : ∀ a b, 0 <= a <= INT_MAX → 0 <= b <= INT_MAX → d_of_Z a = d_of_Z b → a = b).
  { intros a b Ha Hb E. pose proof (d_ltb_of_Z a b) as H1. pose proof (d_ltb_of_Z b a) as H2. unfold INT_MAX in *.
    rewrite E in *. rewrite H1 in H2 by lia. specialize (H2 ltac:(lia) ltac:(lia)).
    destruct (Z.ltb_spec a b), (Z.ltb_spec b a); [lia|done|done|lia]. }
  intros [Hs _ Hm _] [Hx Hy] [Hx' Hy'] E. injection E as Ex Ey. apply Hb in Ex, Ey; [done|nia..].
Qed.
Lemma stronger_weak {P} img (l : list (double * P)) :
  raster_ok img → (∀ p, p ∈ l → ∃ x y, p.1 = d_of_Z (value img x y)) → strict_weak stronger l.
Proof.
  intros Hok Hall. unfold stronger. split; [intros a b _ _; apply d_ltb_asym|].
  intros a b c Ha Hb Hc. destruct (Hall a Ha) as (xa & ya & ->), (Hall b Hb) as (xb & yb & ->), (Hall c Hc) as (xc & yc & ->).
  pose proof (value_bound img xa ya Hok). pose proof (value_bound img xb yb Hok). pose proof (value_bound img xc yc Hok).
  rewrite !d_ltb_of_Z by lia. rewrite !Z.ltb_ge. lia.
Qed.

Section StrongestFirst.
  Context {SO : StdSort}.

Lemma take_strongest {A} (lt : A → A → bool) n l :
    strict_weak lt l → ∃ rest, take n (std_sort lt l) ++ rest ≡ₚ l ∧ ∀ a b, a ∈ take n (std_sort lt l) → b ∈ rest → lt b a = false.
  Proof.
    intros Hw. exists (drop n (std_sort lt l)). rewrite take_drop, std_sort_perm. split; [done|].
    pose proof (std_sort_sorted lt l Hw) as Hs. rewrite <-(take_drop n (std_sort lt l)) in Hs. intros a b Ha Hb.
    apply StronglySorted_app in Hs as (Hs & _ & _). by apply Hs.
  Qed.

(** The peak finder, on an image whose bytes are there and whose size
    fits an int, returns and reads nothing outside the image: the peaks are the
    pixels whose value, read as a signed char, lies strictly between the two
    limits, each once; with max_peaks it keeps that many of them (as an unsigned
    number; zero keeps all), and no peak left out is stronger than one kept. *)
Theorem peak_finder_correct (img : raster) (min_value max_value : double) (max_peaks : Z) :
    raster_ok img →
    ∃ all kept, findRange img min_value max_value = Ok all
      ∧ peak_applyFilter min_value max_value max_peaks img = Ok (kept, drawPeaks kept)
      ∧ NoDup all
      ∧ (∀ v p, (v, p) ∈ all ↔ ∃ x y, inside img x y ∧ p = int_point x y ∧ v = d_of_Z (value img x y)
                                      ∧ d_ltb min_value v = true ∧ d_ltb v max_value = true)
      ∧ ∃ left_out, kept ++ left_out ≡ₚ all
        ∧ length kept = (if u32 max_peaks =? 0 then length all else Nat.min (Z.to_nat (u32 max_peaks)) (length all))
        ∧ ∀ a b, a ∈ kept → b ∈ left_out → d_ltb a.1 b.1 = false.
  Proof.
    intros Hok. destruct (range_peaks_ok int_point wrap32 ltac:(intros; apply wrap32_id, in_int_iff; unfold INT_MIN, INT_MAX in *; lia) img min_value max_value Hok)
      as (all & Er & Hmem & Hnd).
    specialize (Hnd ltac:(intros; by eapply int_point_inj)).
    assert (Hw : strict_weak stronger all).
    { eapply (stronger_weak img); [done|]. intros [v p] (x & y & _ & _ & -> & _)%Hmem. by exists x, y. }
    exists all, (findMaxima max_peaks all). split; [done|]. split; [unfold peak_applyFilter, findRange; by rewrite Er|]. split; [exact Hnd|]. split; [exact Hmem|].
    unfold findMaxima, peak. destruct (Z.eqb_spec (u32 max_peaks) 0); cbn [negb andb].
    { exists []. rewrite app_nil_r. split; [done|]. split; [done|]. by intros a b _ ?%elem_of_nil. }
    destruct (Z.ltb_spec (u32 max_peaks) (Z.of_nat (length all))).
    - destruct (take_strongest stronger (Z.to_nat (u32 max_peaks)) all Hw) as (rest & Hp & Hs). exists rest. split; [exact Hp|].
      split; [|intros a b Ha Hb; exact (Hs a b Ha Hb)]. by rewrite length_take, (Permutation_length (std_sort_perm stronger all)).
    - exists []. rewrite app_nil_r. split; [done|]. split; [lia|]. by intros a b _ ?%elem_of_nil.
  Qed.
End StrongestFirst.

Definition demo_raster : raster := {| ra_width := 3; ra_height := 2; ra_step := 4; ra_data := [10; 20; 30; 0; 40; 200; 60; 0] |}.
Lemma peak_finder_correct_witness :
  ∃ kept, peak_applyFilter (SO := insertion_std_sort) (d_of_Z 0) (d_of_Z 255) 2 demo_raster = Ok (kept, drawPeaks kept) ∧ length kept = 2%nat.
Proof.
  destruct (peak_finder_correct (SO := insertion_std_sort) demo_raster (d_of_Z 0) (d_of_Z 255) 2) as (all & kept & Ea & Ek & _ & _ & left & _ & Hl & _).
  { split; [vm_compute; intuition discriminate|vm_compute; discriminate|vm_compute; discriminate|]. repeat (apply Forall_cons; split; [lia|]). apply Forall_nil. exact I. }
  exists kept. split; [exact Ek|]. rewrite Hl. assert (E : length <$> findRange demo_raster (d_of_Z 0) (d_of_Z 255) = Ok 5%nat) by (vm_compute; reflexivity).
  rewrite Ea in E. injection E as ->. reflexivity.
Defined.

(** A pixel of 128 or more is never a peak while the lower limit is not
    negative, however high the upper limit is: the bright half of the range is
    lost. *)
Theorem bright_pixels_missed (img : raster) (m : Z) (max_value : double) (peaks : list peak) (x y : Z) (v : double) :
  raster_ok img → 0 <= m < 2 ^ 31 → findRange img (d_of_Z m) max_value = Ok peaks →
  inside img x y → 128 <= byte img x y → (v, int_point x y) ∉ peaks.
Proof.
  intros Hok Hm Hf Hin Hb Hv.
  destruct (range_peaks_ok int_point wrap32 ltac:(intros; apply wrap32_id, in_int_iff; unfold INT_MIN, INT_MAX in *; lia) img (d_of_Z m) max_value Hok)
    as (all & Er & Hmem & _). unfold findRange in Hf. rewrite Er in Hf. injection Hf as ->.
  apply Hmem in Hv as (x' & y' & Hin' & Ep & -> & Hlt & _). destruct (int_point_inj img x y x' y' Hok Hin Hin' Ep) as [<- <-].
  pose proof (value_bound img x y Hok). rewrite d_ltb_of_Z in Hlt by lia. apply Z.ltb_lt in Hlt.
  unfold value, as_char in *. destruct (Z.ltb_spec (byte img x y) 128); [lia|].
  assert (byte img x y < 256); [|lia]. destruct Hok as [_ _ _ Hbytes]. unfold byte. destruct (_ !! _) as [b|] eqn:E; simpl; [|lia].
  by apply (Forall_lookup_1 _ _ _ _ Hbytes E).
Qed.
