(* ===== verification/FingerTip.v ===== *)
(** Hands: moFingerTipFinderModule.cpp, the palm and the finger tips.

    What OpenCV computes (contours, their area and convexity defects, the
    distance transform of the filled hand) is a parameter; the drawing on the
    output image is left out. *)
From Stdlib Require Import SpecFloat.
From S2P Require Import Prelude StdMap Numeric Utils Property Container Module World Catalogue FloatExact Calibration Peaks.
#[local] Open Scope Z_scope.

(** ** Data *)

Notation pixel := (Z * Z)%type (only parsing).
(** [CvConvexityDefect]: the ends of the defect on the hull and how deep it is. *)
Record defect := { de_depth : spec_float; de_start : pixel; de_end : pixel }.
(** What is asked of OpenCV about a contour: its area, and its convexity
    defects with respect to its convex hull. *)
Class Contours := {
  contour : Type;
  cvContourArea : contour → double;
  cvConvexityDefects : contour → list defect;
}.

(** [a / static_cast<float>(b)] on ints. *)
Definition float_ratio (a b : Z) : double := widen (f_div (f_of_d (d_of_Z a)) (f_of_d (d_of_Z b))).

(** ** The palm *)

Definition half : double := atof "0.5".
Definition sum32 (l : list Z) : Z := foldl (λ acc x, wrap32 (acc + x)) 0 l.
(** An [int] divided by a [size_t], stored in an [int]. *)
Definition div_size (a : Z) (n : nat) : Z := wrap32 ((a mod 2 ^ 64) / Z.of_nat n).
Definition palm_item (peak_x peak_y width height : Z) : container :=
  put_prop "node_id" (int_prop 0)
    (put_prop "y" (double_prop (float_ratio peak_y height))
       (put_prop "x" (double_prop (float_ratio peak_x width))
          (put_prop "implements" (string_prop "handcenter,pos,node")
             (put_prop "type" (string_prop "blob") new_container)))).
(** [searchPalmCenter]: [dist] is the scaled distance transform in the output
    buffer, [width] and [height] the size of the source. *)
Definition searchPalmCenter {SO : StdSort} (width height : Z) (dist : raster) : res (option container) :=
  peaks ← range_peaks pair u32 dist (d_of_Z 0) (d_of_Z 500);
  match std_sort stronger peaks with
  | [] => Ok None
  | (first :: _) as peaks =>
      let strong_peaks := filter (λ p : double * pixel, d_ltb (d_sub first.1 p.1) half = true) peaks in
      let xsum := sum32 ((λ p : double * pixel, p.2.1) <$> strong_peaks) in
      let ysum := sum32 ((λ p : double * pixel, p.2.2) <$> strong_peaks) in
      Ok (Some (palm_item (div_size xsum (length strong_peaks)) (div_size ysum (length strong_peaks)) width height))
  end.

(** ** The finger tips *)

(** The contour with the largest squared area, the last of them. *)
Fixpoint largest {C : Contours} (max_area : double) (max_cont : contour) (contours : list contour) : double * contour :=
  match contours with
  | [] => (max_area, max_cont)
  | c :: contours =>
      let area := cvContourArea c in
      let area := d_mul area area in
      if SFleb max_area area then largest area c contours else largest max_area max_cont contours
  end.
(** The ends of the best four defects, those that are deep enough. *)
Fixpoint defect_points (min_dist : double) (n : nat) (def_depths : list (spec_float * defect)) : list pixel :=
  match n, def_depths with
  | S n, (depth, d) :: def_depths =>
      (if d_ltb (widen depth) min_dist then [] else [de_start d; de_end d]) ++ defect_points min_dist n def_depths
  | _, _ => []
  end.
(** [sqrt(pow(p1->x - p2->x, 2.0) + pow(p1->y - p2->y, 2.0))]. *)
Definition pixel_distance (p1 p2 : pixel) : double :=
  let dx := d_of_Z (wrap32 (p1.1 - p2.1)) in
  let dy := d_of_Z (wrap32 (p1.2 - p2.2)) in
  d_sqrt (d_add (d_mul dx dx) (d_mul dy dy)).
(** The inner loop: the points after [p1], from index [j]. *)
Fixpoint merge_with (merge_distance : double) (p1 : pixel) (j : nat) (points : list pixel) (suppressed : list nat) (distances : list double)
    : list nat * list double :=
  match points with
  | [] => (suppressed, distances)
  | p2 :: points =>
      if bool_decide (j ∈ suppressed) then merge_with merge_distance p1 (S j) points suppressed distances
      else
        let distance := pixel_distance p1 p2 in
        merge_with merge_distance p1 (S j) points
          (if SFleb distance merge_distance then suppressed ++ [j] else suppressed) (distances ++ [distance])
  end.
Fixpoint merge_points (merge_distance : double) (i : nat) (points : list pixel) (suppressed : list nat) (distances : list double)
    : list nat * list double :=
  match points with
  | [] => (suppressed, distances)
  | p1 :: points =>
      let r := merge_with merge_distance p1 (S i) points suppressed distances in
      merge_points merge_distance (S i) points r.1 r.2
  end.
Definition finger_item (width height : Z) (i : nat) (p : pixel) : container :=
  put_prop "parent_node_id" (int_prop 0)
    (put_prop "node_id" (int_prop (wrap32 (Z.of_nat i + 1)))
       (put_prop "y" (double_prop (float_ratio p.2 height))
          (put_prop "x" (double_prop (float_ratio p.1 width))
             (put_prop "implements" (string_prop "fingertip,pos,node")
                (put_prop "type" (string_prop "blob") new_container))))).
Fixpoint push_fingers (width height : Z) (suppressed : list nat) (i : nat) (points : list pixel) : container_list :=
  match points with
  | [] => []
  | p :: points =>
      let rest := push_fingers width height suppressed (S i) points in
      if bool_decide (i ∈ suppressed) then rest else finger_item width height i p :: rest
  end.

Record finger_settings := { fs_min_area : double; fs_min_distance : double; fs_merge_distance : double; fs_adaptive_merge : bool }.

(** The new merge_distance, when it is adapted: a bit more than the third
    smallest distance. *)
Definition adapt_merge {SO : StdSort} (s : finger_settings) (found : nat) (distances : list double) : option double :=
  if fs_adaptive_merge s && (18 <=? length distances)%nat && negb (Nat.eqb found 5)
  then (λ d, d_add d (d_of_Z 1)) <$> (std_sort d_ltb distances !! 2%nat) else None.
(** [searchFingerTips]: the tips, and the value merge_distance is set to. *)
Definition searchFingerTips {SO : StdSort} {C : Contours} (s : finger_settings) (width height : Z) (first : contour) (others : list contour)
    : option (container_list * option double) :=
  let '(max_area, cont) := largest dzero first (first :: others) in
  if d_ltb max_area (fs_min_area s) then None
  else
    let def_depths := std_sort stronger ((λ d, (de_depth d, d)) <$> cvConvexityDefects cont) in
    let points := defect_points (fs_min_distance s) 4 def_depths in
    let '(suppressed, distances) := merge_points (fs_merge_distance s) 0 points [] [] in
    Some (push_fingers width height suppressed 0 points, adapt_merge s (length points - length suppressed) distances).

(** [applyFilter], from the contours found in the source: the list pushed. *)
Definition finger_applyFilter {SO : StdSort} {C : Contours} (s : finger_settings) (width height : Z) (contours : list contour) (dist : raster)
    : res (container_list * option double) :=
  match contours with
  | [] => Ok ([], None)
  | first :: others =>
      palm ← searchPalmCenter width height dist;
      match palm with
      | None => Ok ([], None)
      | Some item =>
          match searchFingerTips s width height first others with
          | None => Ok ([], None)
          | Some (tips, adapted) => Ok (item :: tips, adapted)
          end
      end
  end.

(** ** Merging *)

Lemma drop_cons_inv {A} (l : list A) j x rest : drop j l = x :: rest → l !! j = Some x ∧ drop (S j) l = rest.
Proof.
  intros Hd. assert (Hj : l !! j = Some x) by (by rewrite <-(Nat.add_0_r j), <-lookup_drop, Hd).
  split; [done|]. rewrite (drop_S _ _ _ Hj) in Hd. by injection Hd.
Qed.
Lemma drop_nil_inv {A} (l : list A) j : drop j l = [] → (length l ≤ j)%nat.
Proof. intros Hd. apply (f_equal length) in Hd. rewrite length_drop in Hd. simpl in Hd. lia. Qed.

Definition near (m : double) (p q : pixel) : Prop := SFleb (pixel_distance p q) m = true.

(** The state of the loops over [points]: what has been suppressed lies within
    the list, once, near an earlier point; the pairs handled so far ([handled i j])
    are apart unless one of them is suppressed. *)
Record merged (m : double) (points : list pixel) (handled : nat → nat → Prop) (suppressed : list nat) : Prop := {
  mg_nodup : NoDup suppressed;
  mg_near j : j ∈ suppressed → ∃ i p q, (i < j)%nat ∧ points !! i = Some p ∧ points !! j = Some q ∧ near m p q;
  mg_apart i j p q : (i < j)%nat → handled i j → points !! i = Some p → points !! j = Some q → j ∉ suppressed → ¬ near m p q;
}.

Lemma merged_weaken m points h h' s : (∀ i j, (i < j < length points)%nat → h' i j → h i j) → merged m points h s → merged m points h' s.
Proof.
  intros Hh [H1 H2 H3]. split; [done|done|]. intros i j p q Hij Hd Hi Hj. apply (H3 i j p q); try done.
  apply Hh; [|done]. apply lookup_lt_Some in Hj. lia.
Qed.
Lemma merge_with_spec m points p1 i : points !! i = Some p1 → ∀ rest j s ds,
  (i < j)%nat → drop j points = rest →
  merged m points (λ a b, a < i ∨ a = i ∧ b < j)%nat s →
  merged m points (λ a b, a < i ∨ a = i)%nat (merge_with m p1 j rest s ds).1.
Proof.
  intros Hi. induction rest as [|p2 rest IH]; intros j s ds Hij Hd Hm; cbn [merge_with].
  { apply drop_nil_inv in Hd. eapply merged_weaken; [|exact Hm]. simpl. lia. }
  apply drop_cons_inv in Hd as [Hj Hd'].
  destruct Hm as [H1 H2 H3]. case_bool_decide as Hs.
  - apply IH; [lia|done|]. split; [done|done|]. intros a b p q Hab Hh Ha Hb Hn. apply (H3 a b p q); try done.
    assert (b ≠ j) by (by intros ->). lia.
  - apply IH; [lia|done|]. destruct (SFleb (pixel_distance p1 p2) m) eqn:E.
    + split.
      * apply NoDup_app. split; [done|]. split; [set_solver|apply NoDup_singleton].
      * intros b [Hb| ->%list_elem_of_singleton]%elem_of_app; [by apply H2|]. by exists i, p1, p2.
      * intros a b p q Hab Hh Ha Hb Hn. assert (b ≠ j) by set_solver. assert (b ∉ s) by set_solver.
        apply (H3 a b p q); try done. lia.
    + split; [done|done|]. intros a b p q Hab Hh Ha Hb Hn.
      destruct (decide (a = i ∧ b = j)) as [[-> ->]|Hne]; [unfold near; simplify_eq; by rewrite E|]. apply (H3 a b p q); try done. lia.
Qed.
Lemma merge_points_spec m points : ∀ rest i s ds,
  drop i points = rest → merged m points (λ a b, a < i)%nat s → merged m points (λ _ _, True) (merge_points m i rest s ds).1.
Proof.
  induction rest as [|p1 rest IH]; intros i s ds Hd Hm; cbn [merge_points].
  { apply drop_nil_inv in Hd. eapply merged_weaken; [|exact Hm]. simpl. lia. }
  apply drop_cons_inv in Hd as [Hi Hd'].
  apply IH; [done|]. eapply merged_weaken; [|eapply (merge_with_spec m points p1 i Hi); [lia|done|]].
  - simpl. lia.
  - eapply merged_weaken; [|exact Hm]. simpl. lia.
Qed.

(** ** The tips *)

(** The points that are kept, with their index. *)
Fixpoint kept_from {A} (suppressed : list nat) (i : nat) (points : list A) : list (nat * A) :=
  match points with
  | [] => []
  | p :: points => (if bool_decide (i ∈ suppressed) then [] else [(i, p)]) ++ kept_from suppressed (S i) points
  end.
Lemma push_fingers_kept w h s points : ∀ i,
  push_fingers w h s i points = (λ e, finger_item w h e.1 e.2) <$> kept_from s i points.
Proof. induction points as [|p points IH]; intros i; simpl; [done|]. rewrite IH. by case_bool_decide. Qed.
Lemma kept_from_lookup {A} s (points : list A) : ∀ i j p,
  (j, p) ∈ kept_from s i points ↔ (i ≤ j)%nat ∧ points !! (j - i)%nat = Some p ∧ j ∉ s.
Proof.
  induction points as [|q points IH]; intros i j p; simpl.
  { rewrite elem_of_nil. naive_solver. }
  rewrite elem_of_app, IH. destruct (decide (j = i)) as [->|Hne].
  - rewrite Nat.sub_diag. case_bool_decide; rewrite ?elem_of_nil, ?list_elem_of_singleton; simpl; split; naive_solver lia.
  - assert (H : (j, p) ∉ (if bool_decide (i ∈ s) then [] else [(i, q)])) by (case_bool_decide; set_solver).
    split.
    + intros [?|(Hj & Hp & Hn)]; [done|]. split; [lia|]. replace (j - i)%nat with (S (j - S i)) by lia. done.
    + intros (Hj & Hp & Hn). right. split; [lia|]. replace (j - i)%nat with (S (j - S i)) in Hp by lia. done.
Qed.
Lemma kept_from_sorted {A} s (points : list A) : ∀ i, StronglySorted lt (kept_from s i points).*1.
Proof.
  induction points as [|q points IH]; intros i; simpl; [constructor|]. rewrite fmap_app.
  case_bool_decide; simpl; [apply IH|]. constructor; [apply IH|]. apply Forall_forall.
  intros j ([j' p] & -> & Hj)%list_elem_of_fmap. apply kept_from_lookup in Hj. simpl. lia.
Qed.
Lemma defect_points_spec min_dist ds : ∀ n,
  (length (defect_points min_dist n ds) ≤ 2 * n)%nat
  ∧ ∀ p, p ∈ defect_points min_dist n ds → ∃ d, d ∈ ds ∧ d_ltb (widen d.1) min_dist = false ∧ (p = de_start d.2 ∨ p = de_end d.2).
Proof.
  induction ds as [|[depth d] ds IH]; intros [|n]; cbn [defect_points]; try (split; [simpl; lia|by intros p ?%elem_of_nil]).
  destruct (IH n) as [Hl Hp]. split; [rewrite length_app; destruct (d_ltb _ _); simpl; lia|].
  intros p [Hin|Hin]%elem_of_app.
  - destruct (d_ltb (widen depth) min_dist) eqn:E; [by apply elem_of_nil in Hin|]. exists (depth, d).
    split; [apply elem_of_cons; by left|]. split; [done|]. set_solver.
  - destruct (Hp p Hin) as (d' & Hd & ?). exists d'. split; [apply elem_of_cons; by right|done].
Qed.
Lemma kept_from_length {A} s (points : list A) i :
  NoDup s → (∀ j, j ∈ s → (i ≤ j < i + length points)%nat) → (length (kept_from s i points) + length s = length points)%nat.
Proof.
  intros Hnd Hs. assert (Hp : (kept_from s i points).*1 ++ s ≡ₚ seq i (length points)).
  { apply NoDup_Permutation; [|apply NoDup_seq|].
    - apply NoDup_app. split; [|split; [|done]].
      + pose proof (kept_from_sorted s points i) as H. clear -H. induction H as [|x l _ IH Hx]; constructor; [|done].
        rewrite Forall_forall in Hx. intros Hin. specialize (Hx x Hin). lia.
      + intros j ([j' p] & -> & Hj)%list_elem_of_fmap. by apply kept_from_lookup in Hj as (_ & _ & Hj).
    - intros j. rewrite elem_of_app, elem_of_seq. split.
      + intros [([j' p] & -> & Hj)%list_elem_of_fmap|Hj]; [|by apply Hs].
        apply kept_from_lookup in Hj as (Hj & Hp%lookup_lt_Some & _). simpl. lia.
      + intros Hj. destruct (decide (j ∈ s)) as [|Hn]; [by right|left].
        destruct (lookup_lt_is_Some_2 points (j - i)) as [p Hp]; [lia|]. apply list_elem_of_fmap. exists (j, p).
        split; [done|]. apply kept_from_lookup. split; [lia|done]. }
  apply Permutation_length in Hp. by rewrite length_app, length_fmap, length_seq in Hp.
Qed.
Lemma largest_elem {C : Contours} (cs : list contour) : ∀ a c, (largest a c cs).2 ∈ c :: cs.
Proof.
  induction cs as [|c' cs IH]; intros a c; cbn [largest]; [set_solver|].
  destruct (SFleb _ _); [specialize (IH (d_mul (cvContourArea c') (cvContourArea c')) c')|specialize (IH a c)]; set_solver.
Qed.

Section Found.
  Context {SO : StdSort} {C : Contours}.

Lemma adapt_merge_spec s n ds : adapt_merge s n ds ≠ None → fs_adaptive_merge s = true ∧ n ≠ 5%nat.
  Proof.
    unfold adapt_merge. destruct (fs_adaptive_merge s); [|done]. cbn [andb]. destruct (Nat.leb _ _); [|done]. cbn [andb].
    by destruct (Nat.eqb_spec n 5).
  Qed.

End Found.

(** ** The palm *)

Definition Zsum (l : list Z) : Z := foldr Z.add 0 l.

Lemma sum32_exact l : Forall (λ x, 0 <= x) l → Zsum l <= INT_MAX → sum32 l = Zsum l.
Proof.
  assert (H : ∀ l acc, Forall (λ x, 0 <= x) l → 0 <= acc → acc + Zsum l <= INT_MAX → foldl (λ acc x, wrap32 (acc + x)) acc l = acc + Zsum l).
  { clear l. induction l as [|x l IH]; intros acc Hall Ha Hs; simpl; [lia|]. apply Forall_cons in Hall as [Hx Hall]. simpl in Hs.
    assert (0 <= Zsum l) by (clear -Hall; induction Hall; simpl; lia).
    rewrite wrap32_id by (apply in_int_iff; unfold INT_MAX in *; lia). rewrite IH by (done || lia). lia. }
  intros Hall Hs. unfold sum32. rewrite H by (done || lia). done.
Qed.
Lemma Zsum_bound l m : Forall (λ x, 0 <= x <= m) l → 0 <= Zsum l <= Z.of_nat (length l) * m.
Proof. induction 1; simpl; [lia|]. rewrite Nat2Z.inj_succ. lia. Qed.
Lemma div_size_exact a n : 0 <= a <= INT_MAX → (0 < n)%nat → div_size a n = a / Z.of_nat n.
Proof.
  intros Ha Hn. unfold div_size. rewrite (Z.mod_small a) by (unfold INT_MAX in *; lia). apply wrap32_id, in_int_iff.
  pose proof (Z.div_pos a (Z.of_nat n)). assert (a / Z.of_nat n <= a) by (apply Z.div_le_upper_bound; nia). unfold INT_MAX in *. lia.
Qed.
(** The mean of the coordinates of some pixels lies between them. *)
Lemma mean_in_range l m : l ≠ [] → Forall (λ x, 0 <= x < m) l → Z.of_nat (length l) * m <= INT_MAX →
  div_size (sum32 l) (length l) = Zsum l / Z.of_nat (length l) ∧ 0 <= Zsum l / Z.of_nat (length l) < m.
Proof.
  intros Hne Hall Hm. assert (0 < length l)%nat by (destruct l; [done|simpl; lia]).
  assert (Hb : 0 <= Zsum l <= Z.of_nat (length l) * (m - 1)) by (apply Zsum_bound; eapply Forall_impl; [exact Hall|]; simpl; lia).
  rewrite sum32_exact; [|eapply Forall_impl; [exact Hall|]; simpl; lia|lia]. split; [apply div_size_exact; lia|].
  split; [apply Z.div_pos; lia|]. apply Z.div_lt_upper_bound; nia.
Qed.

(** Two whole values are closer than a half only when they are the same. *)
Lemma half_apart a b : 0 < b <= a → a < 128 → d_ltb (d_sub (d_of_Z a) (d_of_Z b)) half = (a =? b).
Proof.
  intros Hb Ha.
  assert (H : forallb (λ a, forallb (λ b, (a <? b) || Bool.eqb (d_ltb (d_sub (d_of_Z a) (d_of_Z b)) half) (a =? b)) (seqZ 1 127)) (seqZ 1 127) = true)
    by (vm_compute; reflexivity).
  rewrite forallb_forall in H. specialize (H a ltac:(apply list_elem_of_In, elem_of_seqZ; lia)). rewrite forallb_forall in H.
  specialize (H b ltac:(apply list_elem_of_In, elem_of_seqZ; lia)). apply orb_true_iff in H as [H%Z.ltb_lt|H]; [lia|by apply Bool.eqb_prop].
Qed.
Lemma inside_count img (l : list pixel) : raster_ok img → NoDup l → (∀ p, p ∈ l → inside img p.1 p.2) → Z.of_nat (length l) <= ra_width img * ra_height img.
Proof.
  intros [Hs _ _ _] Hnd Hin.
  assert (Hsub : l ⊆+ list_prod (seqZ 0 (ra_width img)) (seqZ 0 (ra_height img))).
  { apply NoDup_submseteq; [done|]. intros [x y] [Hx Hy]%Hin. simpl in Hx, Hy. apply list_elem_of_In, in_prod; apply list_elem_of_In, elem_of_seqZ; lia. }
  apply submseteq_length in Hsub. rewrite length_prod, !length_seqZ in Hsub. nia.
Qed.

Section Palm.
  Context {SO : StdSort}.

(** The peaks the search starts from. *)
Lemma palm_peaks img : raster_ok img →
    ∃ peaks, range_peaks pair u32 img (d_of_Z 0) (d_of_Z 500) = Ok peaks ∧ NoDup peaks ∧ strict_weak stronger peaks
      ∧ ∀ v x y, (v, (x, y)) ∈ peaks ↔ inside img x y ∧ v = d_of_Z (value img x y) ∧ 0 < value img x y.
  Proof.
    intros Hok.
    destruct (range_peaks_ok pair u32 ltac:(intros z Hz; unfold u32, INT_MAX in *; apply Z.mod_small; lia) img (d_of_Z 0) (d_of_Z 500) Hok)
      as (peaks & Er & Hmem & Hnd). specialize (Hnd ltac:(by intros ???? _ _ [= -> ->])).
    assert (Hpk : ∀ v x y, (v, (x, y)) ∈ peaks ↔ inside img x y ∧ v = d_of_Z (value img x y) ∧ 0 < value img x y).
    { intros v x y. rewrite Hmem. split.
      - intros (x' & y' & Hin & [= <- <-] & -> & H1 & _). pose proof (value_bound img x y Hok).
        rewrite d_ltb_of_Z in H1 by lia. apply Z.ltb_lt in H1. done.
      - intros (Hin & -> & Hpos). pose proof (value_bound img x y Hok). exists x, y. do 3 (split; [done|]).
        rewrite !d_ltb_of_Z by lia. split; apply Z.ltb_lt; lia. }
    exists peaks. split; [done|]. split; [done|]. split; [|done].
    eapply (stronger_weak img); [done|]. intros [v [x y]] (_ & -> & _)%Hpk. by exists x, y.
  Qed.

  (** The peaks that are kept, once the first is known to be the strongest. *)
Lemma strong_positions img peaks sorted x0 y0 :
    raster_ok img → NoDup peaks → sorted ≡ₚ peaks →
    (∀ v x y, (v, (x, y)) ∈ peaks ↔ inside img x y ∧ v = d_of_Z (value img x y) ∧ 0 < value img x y) →
    (∀ x y, inside img x y → value img x y <= value img x0 y0) → value img x0 y0 < 128 →
    let strong := (filter (λ p : double * pixel, d_ltb (d_sub (d_of_Z (value img x0 y0)) p.1) half = true) sorted).*2 in
    (0 < value img x0 y0 → ∀ p, p ∈ strong ↔ inside img p.1 p.2 ∧ value img p.1 p.2 = value img x0 y0) ∧ NoDup strong.
  Proof.
    intros Hok Hnd Hperm Hpk Htop Hlt. set (top := value img x0 y0) in *. set (sp := filter _ sorted).
    assert (Hsp : ∀ v x y, (v, (x, y)) ∈ sp → inside img x y ∧ v = d_of_Z (value img x y) ∧ value img x y = top).
    { intros v x y. unfold sp. rewrite list_elem_of_filter, Hperm, Hpk. cbn [fst]. intros (Hh & Hin & -> & Hpos).
      pose proof (Htop x y Hin). rewrite half_apart in Hh by lia. apply Z.eqb_eq in Hh. by rewrite Hh. }
    split.
    - intros Hpos [x y]. rewrite list_elem_of_fmap. split; [intros ([v [x' y']] & [= -> ->] & H%Hsp); naive_solver|].
      intros [Hin Hv]. simpl in Hin, Hv. exists (d_of_Z top, (x, y)). split; [done|]. unfold sp.
      rewrite list_elem_of_filter, Hperm, Hpk, Hv. cbn [fst]. rewrite half_apart by lia. by rewrite Z.eqb_refl.
    - apply NoDup_fmap_2_strong; [|unfold sp; apply NoDup_filter; by rewrite Hperm].
      intros [v [x y]] [v' [x' y']] H%Hsp H'%Hsp E. simpl in E. naive_solver.
  Qed.

(** C28: the palm.  The pixels of the scaled distance transform are read as signed
    chars, so that a byte of 128 or more is negative and never strongest.  The search
    finds nothing exactly when no pixel, read so, is positive.  Otherwise it takes
    exactly the pixels whose signed value is the largest, and the palm is at the sums
    of their coordinates in 32 bits, divided by their number; when the number of these
    pixels times the longer side of the image is at most INT_MAX, this is their mean
    position rounded down, a position of the image. *)
Theorem palm_is_mean (img : raster) (width height : Z) :
    raster_ok img →
    (searchPalmCenter width height img = Ok None ∧ ∀ x y, inside img x y → value img x y <= 0)
    ∨ ∃ top strong, 0 < top ∧ NoDup strong ∧ strong ≠ []
        ∧ (∀ x y, (x, y) ∈ strong ↔ inside img x y ∧ value img x y = top)
        ∧ (∀ x y, inside img x y → value img x y <= top)
        ∧ searchPalmCenter width height img
          = Ok (Some (palm_item (div_size (sum32 strong.*1) (length strong)) (div_size (sum32 strong.*2) (length strong)) width height))
        ∧ (Z.of_nat (length strong) * Z.max (ra_width img) (ra_height img) <= INT_MAX →
           let cx := Zsum strong.*1 / Z.of_nat (length strong) in
           let cy := Zsum strong.*2 / Z.of_nat (length strong) in
           inside img cx cy ∧ searchPalmCenter width height img = Ok (Some (palm_item cx cy width height))).
  Proof.
    intros Hok. destruct (palm_peaks img Hok) as (peaks & Er & Hnd & Hw & Hpk).
    unfold searchPalmCenter. rewrite Er. cbn [mbind res_bind]. pose proof (std_sort_perm stronger peaks) as Hperm.
    pose proof (std_sort_sorted stronger peaks Hw) as Hsorted. destruct (std_sort stronger peaks) as [|[v0 [x0 y0]] rest] eqn:Es.
    { left. split; [done|]. apply Permutation_nil in Hperm. subst peaks. intros x y Hin.
      destruct (Z_lt_le_dec 0 (value img x y)); [|lia]. exfalso. apply (not_elem_of_nil (d_of_Z (value img x y), (x, y))), Hpk. done. }
    right. assert (Hin0 : (v0, (x0, y0)) ∈ peaks) by (rewrite <-Hperm; set_solver). apply Hpk in Hin0 as (Hin0 & -> & Hpos0).
    pose proof (value_bound img x0 y0 Hok) as Hb0.
    assert (Htop : ∀ x y, inside img x y → value img x y <= value img x0 y0).
    { intros x y Hin. destruct (Z_lt_le_dec (value img x0 y0) (value img x y)) as [Hlt|]; [|done].
      assert (Hp : (d_of_Z (value img x y), (x, y)) ∈ peaks) by (apply Hpk; split; [done|]; split; [done|lia]).
      rewrite <-Hperm in Hp. pose proof (value_bound img x y Hok). apply StronglySorted_inv in Hsorted as [_ Hf]. rewrite Forall_forall in Hf.
      apply elem_of_cons in Hp as [E|Hp%Hf]; [injection E as _ -> ->; lia|].
      unfold stronger in Hp. simpl in Hp. rewrite d_ltb_of_Z in Hp by lia. apply Z.ltb_ge in Hp. lia. }
    destruct (strong_positions img peaks _ x0 y0 Hok Hnd Hperm Hpk Htop ltac:(lia)) as [Hstrong Hsnd]. specialize (Hstrong Hpos0). cbn [fst] in *.
    set (sp := filter _ _) in *. exists (value img x0 y0), sp.*2. split; [done|]. split; [done|].
    assert (Hne : sp.*2 ≠ []). { intros E. apply (not_elem_of_nil (x0, y0)). rewrite <-E. by apply Hstrong. }
    split; [done|]. split; [intros x y; apply Hstrong|]. split; [done|].
    replace ((λ p : double * pixel, p.2.1) <$> sp) with sp.*2.*1 by (rewrite <-list_fmap_compose; done).
    replace ((λ p : double * pixel, p.2.2) <$> sp) with sp.*2.*2 by (rewrite <-list_fmap_compose; done).
    rewrite length_fmap. split; [done|]. intros Hfit.
    assert (Hsz := ro_size _ Hok). assert (Hpos : ∀ p, p ∈ sp.*2 → inside img p.1 p.2) by (intros p Hp%Hstrong; apply Hp).
    destruct (mean_in_range sp.*2.*1 (ra_width img)) as [Ex Hx].
    { by intros E%fmap_nil_inv. } { apply Forall_forall. by intros x (p & -> & [??]%Hpos)%list_elem_of_fmap. } { rewrite !length_fmap. nia. }
    destruct (mean_in_range sp.*2.*2 (ra_height img)) as [Ey Hy].
    { by intros E%fmap_nil_inv. } { apply Forall_forall. by intros x (p & -> & [??]%Hpos)%list_elem_of_fmap. } { rewrite !length_fmap. nia. }
    rewrite !length_fmap in *. cbv zeta. rewrite Ex, Ey. done.
  Qed.
End Palm.

(** ** A hand *)

Definition listed_contours : Contours :=
  {| contour := list defect; cvContourArea := λ l, d_of_Z (20 * Z.of_nat (length l)); cvConvexityDefects := id |}.
Definition demo_defect (depth : Z) (s e : pixel) : defect := {| de_depth := d_of_Z depth; de_start := s; de_end := e |}.
(** Three gaps between four fingers; the second and third tips are seen twice. *)
Definition demo_hand : list defect :=
  [demo_defect 40 (10, 10) (60, 0); demo_defect 60 (62, 1) (110, 5); demo_defect 50 (112, 6) (160, 20); demo_defect 3 (0, 90) (5, 95)].
Definition demo_settings : finger_settings :=
  {| fs_min_area := d_of_Z 150; fs_min_distance := d_of_Z 20; fs_merge_distance := d_of_Z 25; fs_adaptive_merge := true |}.


Lemma palm_is_mean_witness :
  ∃ cx cy, inside demo_raster cx cy
    ∧ searchPalmCenter (SO := insertion_std_sort) 3 2 demo_raster = Ok (Some (palm_item cx cy 3 2)).
Proof.
  assert (Hok : raster_ok demo_raster).
  { split; [vm_compute; intuition discriminate|vm_compute; discriminate|vm_compute; discriminate|].
    repeat (apply Forall_cons; split; [lia|]). apply Forall_nil. exact I. }
  destruct (palm_is_mean (SO := insertion_std_sort) demo_raster 3 2 Hok) as [[E _]|(top & strong & _ & Hnd & _ & Hstrong & _ & _ & Hmean)].
  - vm_compute in E. discriminate.
  - assert (Hfew : Z.of_nat (length strong) <= 3 * 2).
    { apply (inside_count demo_raster strong Hok Hnd). intros [x y] Hp. apply Hstrong in Hp as [Hp _]. exact Hp. }
    destruct Hmean as [Hin E]; [change (Z.max (ra_width demo_raster) (ra_height demo_raster)) with 3; unfold INT_MAX; lia|].
    eexists. eexists. split; [exact Hin|exact E].
Defined.
