(* ===== verification/HuObject.v ===== *)
(** Objects without markers: moHuObjectFinderModule.cpp.

    The finder compares the contours of a frame with stored ones, by the area
    of their bounding box, their holes and their shape; contours are stored on
    request, saved as properties of the module, and read back when a preset is
    loaded.  What OpenCV computes of a contour is the class [Shapes]; drawing on
    the output image and the mask is left out. *)
From Stdlib Require Import SpecFloat.
From S2P Require Import Prelude StdMap Numeric Utils Property Container Module World Catalogue FloatExact Calibration Tracker FingerTip.
#[local] Open Scope Z_scope.

(** ** Contours *)

(** [CvBox2D]. *)
Record box := { bx_x : spec_float; bx_y : spec_float; bx_width : spec_float; bx_height : spec_float; bx_angle : spec_float }.
(** [sh_holes]: the chain of holes behind [v_next]; [cvSave] and [cvLoad] write
    a contour to text and read it. *)
Class Shapes := {
  shape : Type;
  sh_area : shape → double;
  sh_holes : shape → list shape;
  cvMinAreaRect2 : shape → box;
  cvMatchShapes : shape → shape → double;
  cvSave : shape → string;
  cvLoad : string → shape;
}.

Section Finder.
  Context {SH : Shapes}.

Record hu_settings := {
    hs_min_id : Z; hs_max_size_difference : double; hs_max_match_score : double; hs_min_area : double;
    hs_consider_holes : bool; hs_consider_shape : bool;
  }.

  (** ** Matching *)

Definition boundingBoxCheck (cont1 cont2 : shape) : double :=
    let mar1 := cvMinAreaRect2 cont1 in
    let mar := cvMinAreaRect2 cont2 in
    d_abs (widen (f_sub (f_mul (bx_width mar1) (bx_height mar1)) (f_mul (bx_width mar) (bx_height mar)))).
Definition countHolesInContour (c : shape) : nat := length (sh_holes c).

  (** [min_index], [min_score], [min_diff_index] and [min_diff]. *)
Record best := { b_index : Z; b_score : double; b_diff_index : Z; b_diff : double }.
Definition match_step (s : hu_settings) (cont : shape) (index : Z) (it : shape) (b : best) : best :=
    let diff := boundingBoxCheck it cont in
    if SFleb diff (hs_max_size_difference s) then
      let b := if d_ltb diff (b_diff b) then {| b_index := b_index b; b_score := b_score b; b_diff_index := index; b_diff := diff |} else b in
      if hs_consider_holes s && negb (Nat.eqb (countHolesInContour it) (countHolesInContour cont)) then b
      else if hs_consider_shape s then
        let matchscore := cvMatchShapes it cont in
        if d_ltb matchscore (b_score b)
        then {| b_index := index; b_score := matchscore; b_diff_index := b_diff_index b; b_diff := b_diff b |} else b
      else {| b_index := index; b_score := b_score b; b_diff_index := b_diff_index b; b_diff := b_diff b |}
    else b.
Fixpoint match_loop (s : hu_settings) (cont : shape) (index : Z) (stored : list (option shape)) (b : best) : best :=
    match stored with
    | [] => b
    | it :: stored =>
        match_loop s cont (index + 1) stored (match it with None => b | Some it => match_step s cont index it b end)
    end.
  (** The index, or -1, and whether the contour may be an object that was not
      recognised. *)
Definition findMatchingShape (s : hu_settings) (stored : list (option shape)) (cont : shape) : Z * bool :=
    let b := match_loop s cont 0 stored
               {| b_index := -1; b_score := hs_max_match_score s; b_diff_index := -1; b_diff := hs_max_size_difference s |} in
    let considered := hs_consider_holes s || hs_consider_shape s in
    let possible := (0 <=? b_diff_index b) && (considered && negb (0 <=? b_index b)) in
    (if considered then b_index b else b_diff_index b, possible).

  (** ** Stored contours *)

  (** [contours_restored], [stored_contours] and the properties of the module. *)
Record hu := { hu_restored : bool; hu_stored : list (option shape); hu_props : smap string moProperty }.
Definition contour_name (n : Z) : string := "stored_contour_" +:+ print_int n.
  (** [new moProperty("")], [setText(true)], [set(buf)]. *)
Definition text_prop (text : string) : res moProperty :=
    p ← new_cstr EmptyString EmptyString;
    fst <$> set_cstr text (setText true p).
Definition serializeContour (s : hu_settings) (stored : list (option shape)) (cont : shape) (props : smap string moProperty)
      : res (smap string moProperty) :=
    let cur_num := wrap32 (hs_min_id s + Z.of_nat (length stored)) in
    p ← text_prop (cvSave cont);
    Ok (insert (contour_name cur_num) p props).
  (** The callback of the property register. *)
Definition register_object (h : hu) : hu :=
    if hu_restored h then {| hu_restored := true; hu_stored := hu_stored h ++ [None]; hu_props := hu_props h |} else h.
  (** The loop that reads the stored contours of a preset; [None] when the fuel
      ran out. *)
Fixpoint restore_loop (fuel : nat) (cur_id : Z) (props : smap string moProperty) (stored : list (option shape))
      : res (option (list (option shape))) :=
    match fuel with
    | O => Ok None
    | S fuel =>
        match find (contour_name cur_id) props with
        | None => Ok (Some stored)
        | Some cur_prop =>
            text ← asString cur_prop;
            restore_loop fuel (wrap32 (cur_id + 1)) props (stored ++ [Some (cvLoad (text +:+ String (Ascii.ascii_of_nat 10) EmptyString))])
        end
    end.
Definition restore (s : hu_settings) (h : hu) : res (option hu) :=
    if hu_restored h then Ok (Some h)
    else
      r ← restore_loop (S (length (hu_props h))) (wrap32 (hs_min_id s + 1)) (hu_props h) (hu_stored h);
      Ok (fmap (M := option) (λ stored, {| hu_restored := true; hu_stored := stored; hu_props := hu_props h |}) r).

  (** ** A frame *)

Definition hu_object (s : hu_settings) (width height : Z) (mar : box) (m : Z * bool) : container :=
    let ratio a b := widen (f_div a (f_of_d (d_of_Z b))) in
    put_prop "fiducial_id" (int_prop (if m.2 then -1 else wrap32 (hs_min_id s + m.1)))
      (put_prop "angle" (double_prop (degToRad (widen (bx_angle mar))))
         (put_prop "y" (double_prop (ratio (bx_y mar) height))
            (put_prop "x" (double_prop (ratio (bx_x mar) width))
               (put_prop "implements" (string_prop ("markerlessobject,pos,volatileangle" +:+ if m.2 then ",volatile" else EmptyString))
                  (put_prop "type" (string_prop "blob") new_container))))).
  (** [stored_contours.back() == NULL]. *)
Definition pending (stored : list (option shape)) : bool :=
    match last stored with Some None => true | _ => false end.
Fixpoint find_objects (s : hu_settings) (width height : Z) (h : hu) (contours : list shape) (objects : container_list)
      : res (hu * container_list) :=
    match contours with
    | [] => Ok (h, objects)
    | c :: contours =>
        if d_ltb (hs_min_area s) (sh_area c) then
          let m := findMatchingShape s (hu_stored h) c in
          if pending (hu_stored h) then
            let stored := removelast (hu_stored h) in
            if m.1 <? 0 then
              let stored := stored ++ [Some c] in
              props ← serializeContour s stored c (hu_props h);
              Ok ({| hu_restored := hu_restored h; hu_stored := stored; hu_props := props |}, objects)
            else Ok ({| hu_restored := hu_restored h; hu_stored := stored; hu_props := hu_props h |}, objects)
          else
            let objects := if (0 <=? m.1) || m.2 then objects ++ [hu_object s width height (cvMinAreaRect2 c) m] else objects in
            find_objects s width height h contours objects
        else find_objects s width height h contours objects
    end.
Definition hu_applyFilter (s : hu_settings) (width height : Z) (contours : list shape) (h : hu) : res (option (hu * container_list)) :=
    r ← restore s h;
    match r with
    | None => Ok None
    | Some h => Some <$> find_objects s width height h contours []
    end.
End Finder.

(** ** The best match *)

Section Matching.
  Context {SH : Shapes}.
  Variables (s : hu_settings) (cont : shape).

  (** A stored contour that passes the tests before the comparison of shapes. *)
Definition fits (c : shape) : Prop :=
    SFleb (boundingBoxCheck c cont) (hs_max_size_difference s) = true
    ∧ (hs_consider_holes s = true → countHolesInContour c = countHolesInContour cont).
Definition score (c : shape) : double := cvMatchShapes c cont.
Definition stored_at (stored : list (option shape)) (j : nat) (c : shape) : Prop := stored !! j = Some (Some c).

  (** The state of the loop after the contours of [pre]. *)
Definition best_shape (pre : list (option shape)) (b : best) : Prop :=
    (b_index b = -1 ∧ b_score b = hs_max_match_score s
     ∧ ∀ j c, stored_at pre j c → fits c → d_ltb (score c) (hs_max_match_score s) = false)
    ∨ (∃ i c, stored_at pre i c ∧ fits c ∧ b_index b = Z.of_nat i ∧ b_score b = score c
       ∧ d_ltb (score c) (hs_max_match_score s) = true
       ∧ ∀ j c', stored_at pre j c' → fits c' → d_ltb (score c') (score c) = false ∧ ((j < i)%nat → SFleb (score c') (score c) = false)).
Definition best_box (pre : list (option shape)) (b : best) : Prop :=
    (b_diff_index b = -1 ∧ b_diff b = hs_max_size_difference s
     ∧ ∀ j c, stored_at pre j c → d_ltb (boundingBoxCheck c cont) (hs_max_size_difference s) = false)
    ∨ (∃ i c, stored_at pre i c ∧ b_diff_index b = Z.of_nat i ∧ b_diff b = boundingBoxCheck c cont
       ∧ d_ltb (boundingBoxCheck c cont) (hs_max_size_difference s) = true).

Lemma stored_at_snoc pre x j c : stored_at (pre ++ [x]) j c ↔ stored_at pre j c ∨ (j = length pre ∧ x = Some c).
  Proof.
    unfold stored_at. destruct (lt_eq_lt_dec j (length pre)) as [[Hj| ->]|Hj].
    - rewrite lookup_app_l by done. split; [by left|]. intros [?|[-> _]]; [done|lia].
    - rewrite lookup_app_r, Nat.sub_diag by done. rewrite (lookup_ge_None_2 pre) by done. simpl. split; [intros [= ->]; by right|]. intros [?|[_ ->]]; done.
    - rewrite lookup_app_r by lia. destruct (j - length pre)%nat eqn:E; [lia|]. simpl. rewrite lookup_nil, (lookup_ge_None_2 pre) by lia.
      split; [done|]. intros [?|[-> _]]; [done|lia].
  Qed.
Lemma stored_at_lt pre j c : stored_at pre j c → (j < length pre)%nat.
  Proof. apply lookup_lt_Some. Qed.
Lemma best_shape_keep pre x b :
    best_shape pre b → (∀ c, x = Some c → fits c → d_ltb (score c) (b_score b) = false) → best_shape (pre ++ [x]) b.
  Proof.
    intros [(Hi & Hs & Hno)|(i & c & Hat & Hf & Hi & Hs & Hlt & Hbest)] Hx; [left|right].
    - do 2 (split; [done|]). intros j c [Hj|[-> E]]%stored_at_snoc Hf; [by eapply Hno|]. rewrite <-Hs. by apply Hx.
    - exists i, c. split; [apply stored_at_snoc; by left|]. do 4 (split; [done|]).
      intros j c' [Hj|[-> E]]%stored_at_snoc Hf'; [by apply Hbest|]. split; [rewrite <-Hs; by apply Hx|].
      apply stored_at_lt in Hat. lia.
  Qed.
Lemma best_shape_new pre c b b' :
    best_shape pre b → fits c → d_ltb (score c) (b_score b) = true → b_index b' = Z.of_nat (length pre) → b_score b' = score c →
    best_shape (pre ++ [Some c]) b'.
  Proof.
    intros Hb Hf Hlt Hi' Hs'. right. exists (length pre), c. split; [apply stored_at_snoc; by right|]. do 3 (split; [done|]).
    assert (Hirr : d_ltb (score c) (score c) = false).
    { destruct (d_ltb (score c) (score c)) eqn:E; [|done]. pose proof (d_ltb_asym _ _ E). congruence. }
    assert (Hold : ∀ c', d_ltb (score c') (b_score b) = false → SFleb (score c') (score c) = false).
    { intros c' H'. destruct (SFleb (score c') (score c)) eqn:E; [|done]. by rewrite (d_le_lt_trans _ _ _ E Hlt) in H'. }
    assert (Hpre : ∀ j c', stored_at pre j c' → fits c' → d_ltb (score c') (b_score b) = false).
    { destruct Hb as [(_ & -> & Hno)|(i & c0 & _ & _ & _ & -> & _ & Hbest)]; intros j c' Hj Hf'; [by eapply Hno|by eapply Hbest]. }
    split.
    - destruct Hb as [(_ & Hs & _)|(i & c0 & _ & _ & _ & Hs & Hlt0 & _)]; rewrite Hs in Hlt; [done|].
      eapply d_le_lt_trans; [apply d_ltb_leb, Hlt|done].
    - intros j c' [Hj|[-> [= ->]]]%stored_at_snoc Hf'; [|split; [done|lia]]. pose proof (Hold c' (Hpre j c' Hj Hf')) as Hle. split; [|done].
      destruct (d_ltb (score c') (score c)) eqn:E; [|done]. by rewrite (d_ltb_leb _ _ E) in Hle.
  Qed.
Lemma match_step_shape pre c b :
    hs_consider_shape s = true → best_shape pre b → best_shape (pre ++ [Some c]) (match_step s cont (Z.of_nat (length pre)) c b).
  Proof.
    intros Hc Hb. unfold match_step. rewrite Hc. destruct (SFleb _ _) eqn:Ebox.
    2: { apply best_shape_keep; [done|]. intros c' [= <-] [Hf _]. congruence. }
    set (b1 := if d_ltb _ _ then _ else b). assert (Hb1 : best_shape pre b1) by (unfold b1; by destruct (d_ltb _ (b_diff b))).
    destruct (hs_consider_holes s && _) eqn:Eh.
    { apply best_shape_keep; [done|]. intros c' [= <-] [_ Hf]. apply andb_true_iff in Eh as [Eh Eq]. rewrite Hf in Eq by done.
      by rewrite Nat.eqb_refl in Eq. }
    fold (score c). destruct (d_ltb (score c) (b_score b1)) eqn:El.
    - eapply best_shape_new; [exact Hb1| |exact El|done|done]. split; [done|]. intros Hh. rewrite Hh in Eh. cbn [andb] in Eh.
      by apply negb_false_iff, Nat.eqb_eq in Eh.
    - apply best_shape_keep; [done|]. by intros c' [= <-] _.
  Qed.
Lemma match_loop_shape : hs_consider_shape s = true → ∀ post pre b,
    best_shape pre b → best_shape (pre ++ post) (match_loop s cont (Z.of_nat (length pre)) post b).
  Proof.
    intros Hc. induction post as [|x post IH]; intros pre b Hb; cbn [match_loop]; [by rewrite app_nil_r|].
    replace (Z.of_nat (length pre) + 1) with (Z.of_nat (length (pre ++ [x]))) by (rewrite length_app; simpl; lia).
    rewrite cons_middle, app_assoc. apply IH. destruct x as [c|]; [by apply match_step_shape|by apply best_shape_keep].
  Qed.

Lemma best_box_step pre c b :
    best_box pre b → best_box (pre ++ [Some c]) (match_step s cont (Z.of_nat (length pre)) c b).
  Proof.
    intros Hb. set (diff := boundingBoxCheck c cont).
    assert (Hd : b_diff_index (match_step s cont (Z.of_nat (length pre)) c b) =
                   (if SFleb diff (hs_max_size_difference s) && d_ltb diff (b_diff b) then Z.of_nat (length pre) else b_diff_index b)
                 ∧ b_diff (match_step s cont (Z.of_nat (length pre)) c b) =
                   (if SFleb diff (hs_max_size_difference s) && d_ltb diff (b_diff b) then diff else b_diff b)).
    { unfold match_step. fold diff. destruct (SFleb _ _); [|done]. cbn [andb]. destruct (d_ltb diff _), (_ && _), (hs_consider_shape s); simpl;
        try destruct (d_ltb _ _); done. }
    destruct Hd as [Hi Hdf]. unfold best_box. rewrite Hi, Hdf. clear Hi Hdf. destruct (SFleb diff _) eqn:El; cbn [andb].
    2: { assert (Hn : d_ltb diff (hs_max_size_difference s) = false) by (destruct (d_ltb _ _) eqn:E; [by apply d_ltb_leb in E; congruence|done]).
         destruct Hb as [(? & ? & Hno)|(i & c' & Hat & ?)]; [left|right; exists i, c'; split; [apply stored_at_snoc; by left|done]].
         do 2 (split; [done|]). intros j c' [?|[_ [= <-]]]%stored_at_snoc; [by eapply Hno|done]. }
    destruct (d_ltb diff (b_diff b)) eqn:Elt.
    - right. exists (length pre), c. split; [apply stored_at_snoc; by right|]. do 2 (split; [done|]).
      destruct Hb as [(_ & E & _)|(i & c' & _ & _ & E & Hlt)]; rewrite E in Elt; [done|]. eapply d_le_lt_trans; [apply d_ltb_leb, Elt|done].
    - destruct Hb as [(? & E & Hno)|(i & c' & Hat & ?)]; [left|right; exists i, c'; split; [apply stored_at_snoc; by left|done]].
      do 2 (split; [done|]). intros j c' [?|[_ [= <-]]]%stored_at_snoc; [by eapply Hno|]. by rewrite <-E.
  Qed.
Lemma match_loop_box : ∀ post pre b, best_box pre b → best_box (pre ++ post) (match_loop s cont (Z.of_nat (length pre)) post b).
  Proof.
    induction post as [|x post IH]; intros pre b Hb; cbn [match_loop]; [by rewrite app_nil_r|].
    replace (Z.of_nat (length pre) + 1) with (Z.of_nat (length (pre ++ [x]))) by (rewrite length_app; simpl; lia).
    rewrite cons_middle, app_assoc. apply IH. destruct x as [c|]; [by apply best_box_step|].
    destruct Hb as [(? & ? & Hno)|(i & c' & Hat & ?)]; [left|right; exists i, c'; split; [apply stored_at_snoc; by left|done]].
    do 2 (split; [done|]). by intros j c' [?%Hno|[_ ?]]%stored_at_snoc.
  Qed.

(** C23: recognising an object by its shape: the index returned is that of a
    stored contour whose bounding box (and number of holes, when asked for)
    agrees with the contour and whose score is below max_match_score, the first
    of those with the lowest score; it is -1 exactly when there is none, and the
    contour is then reported as a possible object exactly when some stored
    contour has a bounding box closer than max_size_difference. *)
Theorem best_match_found (stored : list (option shape)) :
    hs_consider_shape s = true →
    ∃ i possible, findMatchingShape s stored cont = (i, possible)
      ∧ ((i = -1 ∧ (∀ j c, stored_at stored j c → fits c → d_ltb (score c) (hs_max_match_score s) = false)
          ∧ (possible = true ↔ ∃ j c, stored_at stored j c ∧ d_ltb (boundingBoxCheck c cont) (hs_max_size_difference s) = true))
         ∨ (possible = false ∧ ∃ n c, i = Z.of_nat n ∧ stored_at stored n c ∧ fits c ∧ d_ltb (score c) (hs_max_match_score s) = true
            ∧ ∀ j c', stored_at stored j c' → fits c' →
                d_ltb (score c') (score c) = false ∧ ((j < n)%nat → SFleb (score c') (score c) = false))).
  Proof.
    intros Hc. unfold findMatchingShape. rewrite Hc, orb_true_r. set (b0 := Build_best _ _ _ _).
    assert (H0 : best_shape [] b0) by (left; do 2 (split; [done|]); intros j c Hj; apply stored_at_lt in Hj; simpl in Hj; lia).
    assert (H1 : best_box [] b0) by (left; do 2 (split; [done|]); intros j c Hj; apply stored_at_lt in Hj; simpl in Hj; lia).
    pose proof (match_loop_shape Hc stored [] b0 H0) as Hs. pose proof (match_loop_box stored [] b0 H1) as Hd. cbn [app length Z.of_nat] in Hs, Hd.
    set (b := match_loop _ _ _ _ _) in *. cbv zeta. cbn [andb]. eexists _, _. split; [reflexivity|].
    destruct Hs as [(-> & _ & Hno)|(n & c & Hat & Hf & -> & _ & Hlt & Hbest)]; [left|right].
    - do 2 (split; [done|]). cbn. rewrite andb_true_r. destruct Hd as [(-> & _ & Hnb)|(i & c & Hat & -> & _ & Hlt)]; simpl.
      + split; [done|]. intros (j & c & Hj & Hlt). by rewrite (Hnb j c Hj) in Hlt.
      + split; [intros _; by exists i, c|]. intros _. apply Z.leb_le. lia.
    - split; [rewrite (proj2 (Z.leb_le 0 (Z.of_nat n))) by lia; apply andb_false_r|]. by exists n, c.
  Qed.
End Matching.

(** ** Stored contours survive *)

Definition newline : string := String (Ascii.ascii_of_nat 10) EmptyString.

Lemma contour_name_inj a b : contour_name a = contour_name b → a = b.
Proof. unfold contour_name. intros E. apply (inj (String.append "stored_contour_")) in E. by apply (inj pretty) in E. Qed.
Lemma wrap32_add_inj id a b : 0 <= a < 2 ^ 32 → 0 <= b < 2 ^ 32 → wrap32 (id + a) = wrap32 (id + b) → a = b.
Proof.
  unfold wrap32. intros Ha Hb E. assert (Em : (id + a + 2 ^ 31) mod 2 ^ 32 = (id + b + 2 ^ 31) mod 2 ^ 32) by lia.
  pose proof (Z.div_mod (id + a + 2 ^ 31) (2 ^ 32) ltac:(lia)). pose proof (Z.div_mod (id + b + 2 ^ 31) (2 ^ 32) ltac:(lia)). nia.
Qed.
(** As many names in a row as are found are properties of the module. *)
Lemma names_bound (props : smap string moProperty) id n :
  Z.of_nat n < 2 ^ 32 → (∀ k, (k < n)%nat → is_Some (find (contour_name (wrap32 (id + Z.of_nat k))) props)) → (n ≤ length props)%nat.
Proof.
  intros Hn Hall. set (names := (λ k, contour_name (wrap32 (id + Z.of_nat k))) <$> seq 0 n).
  assert (Hsub : names ⊆+ keys props).
  { apply NoDup_submseteq.
    - apply NoDup_fmap_2_strong; [|apply NoDup_seq]. intros a b Ha%elem_of_seq Hb%elem_of_seq E%contour_name_inj.
      apply wrap32_add_inj in E; lia.
    - intros k (i & -> & Hi%elem_of_seq)%list_elem_of_fmap. destruct (Hall i ltac:(lia)) as [p Hp].
      destruct (decide (contour_name (wrap32 (id + Z.of_nat i)) ∈ keys props)) as [|Hk]; [done|]. apply find_None_keys in Hk. congruence. }
  apply submseteq_length in Hsub. unfold names, keys in Hsub. by rewrite !length_fmap, length_seq in Hsub.
Qed.
Lemma text_prop_run text : ∃ p, text_prop text = Ok p ∧ asString p = Ok text.
Proof. eexists. split; reflexivity. Qed.

Section Stored.
  Context {SH : Shapes}.

  (** The loop ran out of fuel: every name it tried was there. *)
Lemma restore_loop_names fuel : ∀ id props stored,
    restore_loop fuel (wrap32 id) props stored = Ok None →
    ∀ k, (k < fuel)%nat → is_Some (find (contour_name (wrap32 (id + Z.of_nat k))) props).
  Proof.
    induction fuel as [|fuel IH]; intros id props stored Hr k Hk; [lia|]. cbn [restore_loop] in Hr.
    destruct (find _ props) as [p|] eqn:Ef; [|done]. destruct (asString p); [|done]. cbn [mbind res_bind] in Hr.
    destruct k as [|k]; [rewrite Z.add_0_r; by eexists|].
    replace (wrap32 (wrap32 id + 1)) with (wrap32 (id + 1)) in Hr.
    2: { unfold wrap32. f_equal. replace ((id + 2 ^ 31) mod 2 ^ 32 - 2 ^ 31 + 1 + 2 ^ 31) with ((id + 2 ^ 31) mod 2 ^ 32 + 1) by lia.
         rewrite Zplus_mod_idemp_l. f_equal. lia. }
    destruct (IH (id + 1) props _ Hr k ltac:(lia)) as [q Hq]. exists q. rewrite <-Hq. do 3 f_equal. lia.
  Qed.
Lemma restore_loop_runs fuel : ∀ id props stored,
    (∀ k p, find k props = Some p → ∃ t, asString p = Ok t) → ∃ r, restore_loop fuel id props stored = Ok r.
  Proof.
    induction fuel as [|fuel IH]; intros id props stored Hs; cbn [restore_loop]; [by eexists|].
    destruct (find _ props) as [p|] eqn:Ef; [|by eexists]. destruct (Hs _ _ Ef) as [t ->]. by apply IH.
  Qed.
Lemma restore_terminates s h :
    (∀ k p, find k (hu_props h) = Some p → ∃ t, asString p = Ok t) → Z.of_nat (length (hu_props h)) < 2 ^ 31 →
    ∃ h', restore s h = Ok (Some h') ∧ hu_restored h' = true.
  Proof.
    intros Hs Hl. unfold restore. destruct (hu_restored h) eqn:Er; [by exists h|].
    destruct (restore_loop_runs (S (length (hu_props h))) (wrap32 (hs_min_id s + 1)) (hu_props h) (hu_stored h) Hs) as [[stored|] E].
    { rewrite E. by eexists. }
    pose proof (names_bound (hu_props h) (hs_min_id s + 1) (S (length (hu_props h))) ltac:(lia) (restore_loop_names _ _ _ _ E)). lia.
  Qed.

  (** The properties hold the contours [cs], named one after the other. *)
Definition saved (s : hu_settings) (cs : list shape) (props : smap string moProperty) : Prop :=
    ∀ n, 0 <= n → hs_min_id s + 1 + n <= INT_MAX →
      match cs !! Z.to_nat n with
      | Some c => ∃ p, find (contour_name (hs_min_id s + 1 + n)) props = Some p ∧ asString p = Ok (cvSave c)
      | None => find (contour_name (hs_min_id s + 1 + n)) props = None
      end.

  (** A user asks for a registration, and a frame shows one contour. *)
Definition register_one (s : hu_settings) (width height : Z) (c : shape) (h : hu) : res (option hu) :=
    r ← hu_applyFilter s width height [c] (register_object h);
    Ok (fmap (M := option) fst r).
Fixpoint register_all (s : hu_settings) (width height : Z) (cs : list shape) (h : hu) : res (option hu) :=
    match cs with
    | [] => Ok (Some h)
    | c :: cs =>
        r ← register_one s width height c h;
        match r with None => Ok None | Some h => register_all s width height cs h end
    end.

Lemma register_one_run s width height c cs props :
    0 <= hs_min_id s → hs_min_id s + 1 + Z.of_nat (length cs) < INT_MAX → saved s cs props →
    d_ltb (hs_min_area s) (sh_area c) = true → (findMatchingShape s ((Some <$> cs) ++ [None]) c).1 < 0 →
    ∃ props', register_one s width height c {| hu_restored := true; hu_stored := Some <$> cs; hu_props := props |}
                = Ok (Some {| hu_restored := true; hu_stored := Some <$> (cs ++ [c]); hu_props := props' |})
      ∧ saved s (cs ++ [c]) props'.
  Proof.
    intros Hid Hint Hsaved Harea Hm. unfold register_one, hu_applyFilter, register_object, restore. cbn [hu_restored hu_stored hu_props].
    cbn [mbind res_bind find_objects hu_stored]. rewrite Harea. unfold pending. rewrite last_snoc. rewrite (proj2 (Z.ltb_lt _ _) Hm).
    rewrite removelast_last. unfold serializeContour.
    destruct (text_prop_run (cvSave c)) as (p & -> & Hp). cbn [mbind res_bind hu_restored hu_props fmap option_fmap option_map fst].
    eexists. split; [by rewrite fmap_app|].
    assert (Hnum : wrap32 (hs_min_id s + Z.of_nat (length ((Some <$> cs) ++ [Some c]))) = hs_min_id s + 1 + Z.of_nat (length cs)).
    { rewrite length_app, length_fmap. simpl. rewrite wrap32_id; [lia|]. apply in_int_iff. unfold INT_MAX in *. lia. }
    rewrite Hnum. intros n Hn Hmax. specialize (Hsaved n Hn Hmax).
    destruct (decide (n = Z.of_nat (length cs))) as [->|Hne].
    - rewrite Nat2Z.id, lookup_app_r, Nat.sub_diag by done. simpl. rewrite find_insert_eq. by exists p.
    - rewrite find_insert_ne by (intros E%contour_name_inj; lia).
      destruct (le_lt_dec (length cs) (Z.to_nat n)).
      + rewrite (lookup_ge_None_2 cs) in Hsaved by lia. rewrite lookup_ge_None_2; [done|]. rewrite length_app. simpl. lia.
      + by rewrite lookup_app_l.
  Qed.
Lemma register_all_run s width height cs : ∀ pre props,
    0 <= hs_min_id s → hs_min_id s + 1 + Z.of_nat (length (pre ++ cs)) < INT_MAX → saved s pre props →
    (∀ i c, cs !! i = Some c → d_ltb (hs_min_area s) (sh_area c) = true
                              ∧ (findMatchingShape s ((Some <$> (pre ++ take i cs)) ++ [None]) c).1 < 0) →
    ∃ props', register_all s width height cs {| hu_restored := true; hu_stored := Some <$> pre; hu_props := props |}
                = Ok (Some {| hu_restored := true; hu_stored := Some <$> (pre ++ cs); hu_props := props' |})
      ∧ saved s (pre ++ cs) props'.
  Proof.
    induction cs as [|c cs IH]; intros pre props Hid Hint Hsaved Hcs; cbn [register_all]; [rewrite app_nil_r; by eexists|].
    rewrite length_app in Hint. simpl in Hint.
    destruct (Hcs 0%nat c eq_refl) as [Harea Hm]. rewrite app_nil_r in Hm.
    destruct (register_one_run s width height c pre props) as (props1 & -> & Hs1); try done; [lia|]. cbn [mbind res_bind].
    destruct (IH (pre ++ [c]) props1) as (props' & E & Hs'); try done.
    { rewrite !length_app. simpl. lia. }
    { intros i c' Hi. destruct (Hcs (S i) c' Hi) as [? Hm']. split; [done|]. rewrite <-app_assoc. exact Hm'. }
    rewrite <-app_assoc in E, Hs'. exists props'. done.
  Qed.
Lemma restore_loop_run s cs props : saved s cs props → 0 <= hs_min_id s → hs_min_id s + 1 + Z.of_nat (length cs) < INT_MAX →
    (∀ c, cvLoad (cvSave c +:+ newline) = c) → ∀ rest pre fuel,
    cs = pre ++ rest → (length rest < fuel)%nat →
    restore_loop fuel (hs_min_id s + 1 + Z.of_nat (length pre)) props (Some <$> pre) = Ok (Some (Some <$> cs)).
  Proof.
    intros Hsaved Hid Hint Hload. induction rest as [|c rest IH]; intros pre fuel Ecs Hf; (destruct fuel as [|fuel]; [simpl in Hf; lia|]); cbn [restore_loop];
      assert (Hlen : (length pre ≤ length cs)%nat) by (rewrite Ecs, length_app; lia);
      specialize (Hsaved (Z.of_nat (length pre)) ltac:(lia) ltac:(lia)) as Hp; rewrite Nat2Z.id in Hp.
    - rewrite app_nil_r in Ecs. subst cs. rewrite lookup_ge_None_2 in Hp by done. by rewrite Hp.
    - rewrite Ecs, lookup_app_r, Nat.sub_diag in Hp by done. destruct Hp as (p & -> & ->). cbn [mbind res_bind].
      change (String (Ascii.ascii_of_nat 10) EmptyString) with newline. rewrite Hload. rewrite Ecs, length_app in Hint. simpl in Hint.
      rewrite wrap32_id by (apply in_int_iff; unfold INT_MAX in *; lia).
      replace (hs_min_id s + 1 + Z.of_nat (length pre) + 1) with (hs_min_id s + 1 + Z.of_nat (length (pre ++ [c]))) by (rewrite length_app; simpl; lia).
      change ([Some c]) with (Some <$> [c]). rewrite <-fmap_app. apply IH; [by rewrite <-app_assoc|simpl in Hf; lia].
  Qed.

(** Registered objects survive a preset: contours registered one
    after the other, each above min_area and none recognised as one before it,
    are stored in that order; a finder that starts with the properties of the
    module, and reads contours as they were written, has them all again in the
    same order after its first frame, so that every object keeps its id. *)
Theorem registered_objects_restored (s : hu_settings) (width height : Z) (cs : list shape) (props : smap string moProperty) :
    0 <= hs_min_id s → hs_min_id s + 1 + Z.of_nat (length cs) < INT_MAX →
    (∀ n, hs_min_id s < n <= INT_MAX → find (contour_name n) props = None) →
    (∀ i c, cs !! i = Some c → d_ltb (hs_min_area s) (sh_area c) = true
                              ∧ (findMatchingShape s ((Some <$> take i cs) ++ [None]) c).1 < 0) →
    (∀ c, cvLoad (cvSave c +:+ newline) = c) →
    ∃ props', register_all s width height cs {| hu_restored := true; hu_stored := []; hu_props := props |}
                = Ok (Some {| hu_restored := true; hu_stored := Some <$> cs; hu_props := props' |})
      ∧ restore s {| hu_restored := false; hu_stored := []; hu_props := props' |}
        = Ok (Some {| hu_restored := true; hu_stored := Some <$> cs; hu_props := props' |}).
  Proof.
    intros Hid Hint Hfresh Hcs Hload.
    destruct (register_all_run s width height cs [] props) as (props' & E & Hs); try done.
    { intros n Hn Hmax. rewrite lookup_nil. apply Hfresh. lia. }
    exists props'. split; [exact E|]. unfold restore. cbn [hu_restored hu_stored hu_props].
    rewrite wrap32_id by (apply in_int_iff; unfold INT_MAX in *; lia).
    pose proof (restore_loop_run s cs props' Hs Hid Hint Hload cs [] (S (length props')) eq_refl) as Hr. cbn [length Z.of_nat fmap list_fmap] in Hr.
    rewrite Z.add_0_r in Hr. rewrite Hr; [done|].
    assert (length cs ≤ length props')%nat; [|lia].
    apply (names_bound props' (hs_min_id s + 1)); [unfold INT_MAX in *; lia|]. intros k Hk.
    specialize (Hs (Z.of_nat k) ltac:(lia) ltac:(lia)). rewrite Nat2Z.id in Hs. destruct (lookup_lt_is_Some_2 cs k Hk) as [c Hc]. simpl in Hs. rewrite Hc in Hs.
    destruct Hs as (p & Hp & _). rewrite wrap32_id by (apply in_int_iff; unfold INT_MAX in *; lia). by exists p.
  Qed.
End Stored.

(** ** Two objects *)

Definition demo_shapes : Shapes := {|
  shape := bool;
  sh_area := λ _, d_of_Z 200;
  sh_holes := λ _, [];
  cvMinAreaRect2 := λ b, {| bx_x := d_of_Z 10; bx_y := d_of_Z 10; bx_width := d_of_Z (if b then 100 else 50); bx_height := d_of_Z 100; bx_angle := dzero |};
  cvMatchShapes := λ a b, if Bool.eqb a b then dzero else d_of_Z 1;
  cvSave := λ b, if b then "1" else "0";
  cvLoad := λ t, match t with String c _ => bool_decide (c = "1"%char) | EmptyString => false end;
|}.
Definition demo_hu_settings : hu_settings :=
  {| hs_min_id := 100; hs_max_size_difference := d_of_Z 1500; hs_max_match_score := half; hs_min_area := d_of_Z 150;
     hs_consider_holes := false; hs_consider_shape := true |}.

Lemma best_match_found_witness :
  ∃ possible n c, findMatchingShape (SH := demo_shapes) demo_hu_settings [Some true; None; Some false] false = (Z.of_nat n, possible)
    ∧ stored_at (SH := demo_shapes) [Some true; None; Some false] n c ∧ n = 2%nat.
Proof.
  destruct (best_match_found (SH := demo_shapes) demo_hu_settings false [Some true; None; Some false] eq_refl)
    as (i & possible & E & [(Hi & _)|(_ & n & c & -> & Hat & _)]).
  - exfalso. vm_compute in E. injection E as <- _. discriminate Hi.
  - exists possible, n, c. split; [exact E|]. split; [exact Hat|]. pose proof (f_equal fst E) as E'. change (2 = Z.of_nat n) in E'. lia.
Defined.

Definition demo_hu (restored : bool) (stored : list (option bool)) (props : smap string moProperty) : hu (SH := demo_shapes) :=
  @Build_hu demo_shapes restored stored props.
Lemma registered_objects_restored_witness :
  ∃ props', register_all (SH := demo_shapes) demo_hu_settings 320 240 [true; false] (demo_hu true [] [])
              = Ok (Some (demo_hu true [Some true; Some false] props'))
    ∧ restore (SH := demo_shapes) demo_hu_settings (demo_hu false [] props')
      = Ok (Some (demo_hu true [Some true; Some false] props')).
Proof.
  apply (registered_objects_restored (SH := demo_shapes) demo_hu_settings 320 240 [true; false] []).
  - vm_compute. discriminate.
  - vm_compute. reflexivity.
  - intros n _. reflexivity.
  - intros [|[|i]] c Hc; [injection Hc as <-; vm_compute; split; reflexivity..|discriminate Hc].
  - intros []; vm_compute; reflexivity.
Defined.

(** Two requests before a frame leave a null contour below the one registered
    first: its property is numbered by the length of the list, the loop that
    restores a preset stops at the missing number, and the object is lost. *)
Example double_registration_lost :
  let h0 := demo_hu true [] [] in
  match hu_applyFilter (SH := demo_shapes) demo_hu_settings 320 240 [true] (register_object (register_object h0)) with
  | Ok (Some (h, _)) =>
      hu_stored h = [None; Some true]
      ∧ match restore (SH := demo_shapes) demo_hu_settings (demo_hu false [] (hu_props h)) with
        | Ok (Some h') => hu_stored h' = []
        | _ => False
        end
  | _ => False
  end.
Proof. vm_compute. split; reflexivity. Qed.
