(* ===== verification/Filters.v ===== *)
(** Image filters: moImageFilterModule.cpp, the base class of the modules that
    turn an image into an image, and what its subclasses do besides calling
    OpenCV.

    Of an image only the header counts here: OpenCV asks that the source and
    the destination of an operation agree in it.  The private members of a
    filter are the record [image_filter]; the flags of the module that matter to it
    ([is_started], [need_update]) and the data of its input stream are part of
    the record, so that the events of the framework (data, poll, stop) are steps
    on it. *)
From S2P Require Import Prelude StdMap Numeric Utils Property Container Module World.
#[local] Open Scope Z_scope.

(** ** Buffers *)

Record image_filter := {
  fl_data : option IplImage;
  fl_output_buffer : option IplImage;
  fl_dispatch8 : bool;
  fl_is_started : bool;
  fl_need_update : bool;
  fl_error : string;
}.
Definition with_buffer (b : option IplImage) (f : image_filter) : image_filter :=
  {| fl_data := fl_data f; fl_output_buffer := b; fl_dispatch8 := fl_dispatch8 f; fl_is_started := fl_is_started f; fl_need_update := fl_need_update f; fl_error := fl_error f |}.
Definition with_dispatch (b : bool) (f : image_filter) : image_filter :=
  {| fl_data := fl_data f; fl_output_buffer := fl_output_buffer f; fl_dispatch8 := b; fl_is_started := fl_is_started f; fl_need_update := fl_need_update f; fl_error := fl_error f |}.
Definition with_flags (started need : bool) (f : image_filter) : image_filter :=
  {| fl_data := fl_data f; fl_output_buffer := fl_output_buffer f; fl_dispatch8 := fl_dispatch8 f; fl_is_started := started; fl_need_update := need; fl_error := fl_error f |}.
Definition with_data (d : option IplImage) (f : image_filter) : image_filter :=
  {| fl_data := d; fl_output_buffer := fl_output_buffer f; fl_dispatch8 := fl_dispatch8 f; fl_is_started := fl_is_started f; fl_need_update := fl_need_update f; fl_error := fl_error f |}.
(** [setError]. *)
Definition with_error (e : string) (f : image_filter) : image_filter :=
  {| fl_data := fl_data f; fl_output_buffer := fl_output_buffer f; fl_dispatch8 := fl_dispatch8 f; fl_is_started := fl_is_started f; fl_need_update := fl_need_update f; fl_error := e |}.
Definition new_filter : image_filter :=
  {| fl_data := None; fl_output_buffer := None; fl_dispatch8 := false; fl_is_started := false; fl_need_update := false; fl_error := EmptyString |}.

(** The virtual methods of a filter class; [applyFilter] gets the clone of the
    source. *)
Class Filter := {
  needBufferAllocation : image_filter → bool;
  allocateBuffers : image_filter → image_filter;
  applyFilter : IplImage → image_filter → res image_filter;
}.

Definition base_needBufferAllocation (f : image_filter) : bool := match fl_output_buffer f with None => true | Some _ => false end.
Definition base_allocateBuffers (f : image_filter) : image_filter :=
  match fl_data f with
  | None => f
  | Some src => with_buffer (Some {| img_width := img_width src; img_height := img_height src; img_depth := img_depth src; img_nChannels := img_nChannels src |}) f
  end.
(** moImageFilterModule8. *)
Definition filter8_allocateBuffers (f : image_filter) : image_filter :=
  let f := base_allocateBuffers f in
  match fl_output_buffer f with
  | None => f
  | Some b => with_dispatch (img_nChannels b =? 1) f
  end.
Definition filter8_needBufferAllocation (f : image_filter) : bool :=
  if base_needBufferAllocation f then true
  else
    match fl_data f, fl_output_buffer f with
    | Some src, Some b => negb (img_nChannels b =? img_nChannels src)
    | _, _ => false
    end.
(** The one channel output of moGrayScaleModule, moHsvModule and
    moYCrCbThresholdModule. *)
Definition gray_allocateBuffers (f : image_filter) : image_filter :=
  match fl_data f with
  | None => f
  | Some src => with_buffer (Some {| img_width := img_width src; img_height := img_height src; img_depth := img_depth src; img_nChannels := 1 |}) f
  end.

Section Events.
  Context {F : Filter}.

  (** [notifyData], once the stream has the new data; the stream is the input
      and has an image format. *)
Definition filter_notifyData (f : image_filter) : image_filter :=
    let f := if needBufferAllocation f then allocateBuffers f else f in
    with_flags true true f.
  (** [update]: what is pushed on which output. *)
Definition filter_update (f : image_filter) : res (image_filter * option (bool * option IplImage)) :=
    match fl_data f with
    | None => Ok (f, None)
    | Some src => f ← applyFilter src f; Ok (f, Some (fl_dispatch8 f, fl_output_buffer f))
    end.
Definition filter_stop (f : image_filter) : image_filter := with_buffer None (with_flags false false f).

  (** A frame arrives, the main loop polls the module, or it is stopped. *)
Inductive event := Frame (img : option IplImage) | Poll | Stop.
Definition filter_event (e : event) (f : image_filter) : res (image_filter * list (bool * option IplImage)) :=
    match e with
    | Frame img => Ok (filter_notifyData (with_data img f), [])
    | Poll =>
        if fl_need_update f then
          r ← filter_update (with_flags (fl_is_started f) false f);
          Ok (r.1, match r.2 with Some p => [p] | None => [] end)
        else Ok (f, [])
    | Stop => Ok (filter_stop f, [])
    end.
Fixpoint filter_run (es : list event) (f : image_filter) : res (image_filter * list (bool * option IplImage)) :=
    match es with
    | [] => Ok (f, [])
    | e :: es => r ← filter_event e f; rest ← filter_run es r.1; Ok (rest.1, r.2 ++ rest.2)
    end.
End Events.

(** What OpenCV asks of an operation from the clone of the source to the output
    buffer: both must agree in size, depth and channels. *)
Definition matched (src b : IplImage) : res unit :=
  assert_ ((img_width b =? img_width src) && (img_height b =? img_height src) && (img_depth b =? img_depth src) && (img_nChannels b =? img_nChannels src)).
Definition cv_matched (src : IplImage) (f : image_filter) : res image_filter :=
  b ← deref (fl_output_buffer f); _ ← matched src b; Ok f.

(** ** Decisions of the subclasses *)

(** moRoiModule: the rectangle the copy is limited to. *)
Definition roi_rect (left top width height : Z) (src : IplImage) : Z * Z * Z * Z :=
  let left := if left <? 0 then 0 else left in
  let left := if left >? img_width src then img_width src else left in
  let top := if top <? 0 then 0 else top in
  let top := if top >? img_height src then img_height src else top in
  let width := if width <? 0 then 0 else width in
  let width := if wrap32 (left + width) >? img_width src then wrap32 (img_width src - left) else width in
  let height := if height <? 0 then 0 else height in
  let height := if wrap32 (top + height) >? img_height src then wrap32 (img_height src - top) else height in
  (left, top, width, height).

(** Names of options, as the constants of OpenCV; [None] sets the error of the
    module and gives 0. *)
Definition threshold_getCvType (filter : string) : option Z :=
  if bool_decide (filter = "binary") then Some 0 else if bool_decide (filter = "binary_inv") then Some 1
  else if bool_decide (filter = "trunc") then Some 2 else if bool_decide (filter = "tozero") then Some 3
  else if bool_decide (filter = "tozero_inv") then Some 4 else None.
Definition threshold_getCvAdaptativeType (filter : string) : option Z :=
  if bool_decide (filter = "binary") then Some 0 else if bool_decide (filter = "binary_inv") then Some 1 else None.
Definition threshold_getCvMode (filter : string) : option Z :=
  if bool_decide (filter = "mean") then Some 0 else if bool_decide (filter = "gaussian") then Some 1 else None.
Definition threshold_block_size (block_size : Z) : Z := if cmod block_size 2 =? 0 then wrap32 (block_size + 1) else block_size.
(** [size * 2 + 1] of moSmoothModule and moHighpassModule. *)
Definition odd_size (size : Z) : Z := wrap32 (wrap32 (size * 2) + 1).
Definition mirror_toCvType (axis : string) : option Z :=
  if bool_decide (axis = "x") then Some 0 else if bool_decide (axis = "y") then Some 1 else if bool_decide (axis = "both") then Some (-1) else None.

(** moSmoothModule::toCvType; an unknown name sets the error of the module. *)
Definition smooth_toCvType (filter : string) : option Z :=
  if bool_decide (filter = "median") then Some 3 else if bool_decide (filter = "gaussian") then Some 2
  else if bool_decide (filter = "blur") then Some 1 else if bool_decide (filter = "blur_no_scale") then Some 0 else None.

(** moInvertModule and moSmoothModule, built on moImageFilterModule8; the
    operations of OpenCV are parameters. *)
Section Filters8.
Context (cvNot : IplImage → IplImage → res unit) (cvSmooth : IplImage → IplImage → Z → Z → res unit).
Definition invert_applyFilter (src : IplImage) (f : image_filter) : res image_filter :=
  b ← deref (fl_output_buffer f); _ ← cvNot src b; Ok f.
Definition smooth_applyFilter (filter : string) (size : Z) (src : IplImage) (f : image_filter) : res image_filter :=
  let f := match smooth_toCvType filter with Some _ => f | None => with_error "Unsupported filter type" f end in
  b ← deref (fl_output_buffer f); _ ← cvSmooth src b (default 0 (smooth_toCvType filter)) (odd_size size); Ok f.
Definition moInvertModule : Filter :=
  {| needBufferAllocation := filter8_needBufferAllocation; allocateBuffers := filter8_allocateBuffers; applyFilter := invert_applyFilter |}.
Definition moSmoothModule (filter : string) (size : Z) : Filter :=
  {| needBufferAllocation := filter8_needBufferAllocation; allocateBuffers := filter8_allocateBuffers; applyFilter := smooth_applyFilter filter size |}.
End Filters8.

(** moThresholdModule: an image of more channels sets the error and stops the
    module, which pushes the buffer that [stop] has just released. *)
Definition threshold_applyFilter (src : IplImage) (f : image_filter) : res image_filter :=
  if negb (img_nChannels src =? 1) then Ok (filter_stop (with_error "Threshold input image must be a single channel binary image." f)) else cv_matched src f.
Definition threshold_filter : Filter :=
  {| needBufferAllocation := base_needBufferAllocation; allocateBuffers := base_allocateBuffers; applyFilter := threshold_applyFilter |}.

(** *** moBackgroundSubtractModule *)

(** The content of images: what [cvAbsDiff] and [cvSub] make of two. *)
Class Pictures := { picture : Type; cvAbsDiff : picture → picture → picture; cvSub : picture → picture → picture }.

Section Background.
  Context {P : Pictures}.

  (** The contents of the two buffers, [None] while nothing was written to
      them, and the properties. *)
Record background := {
    bg_buffer : option picture; bg_output : option picture; bg_recapture : bool; bg_toggle : bool; bg_absolute : bool;
  }.
Definition new_background (toggle absolute : bool) : background :=
    {| bg_buffer := None; bg_output := None; bg_recapture := true; bg_toggle := toggle; bg_absolute := absolute |}.
Definition background_applyFilter (src : picture) (b : background) : res background :=
    if bg_recapture b then
      Ok {| bg_buffer := Some src; bg_output := bg_output b; bg_recapture := false; bg_toggle := bg_toggle b; bg_absolute := bg_absolute b |}
    else
      bg ← deref (bg_buffer b);
      let out := if bg_absolute b then cvAbsDiff src bg else cvSub src bg in
      Ok {| bg_buffer := bg_buffer b; bg_output := Some out; bg_recapture := bg_toggle b; bg_toggle := bg_toggle b; bg_absolute := bg_absolute b |}.
  (** [stop] releases the buffers and asks for a new background. *)
Definition background_stop (b : background) : background :=
    {| bg_buffer := None; bg_output := None; bg_recapture := true; bg_toggle := bg_toggle b; bg_absolute := bg_absolute b |}.
  (** The images pushed for a list of frames. *)
Fixpoint background_run (frames : list picture) (b : background) : res (background * list (option picture)) :=
    match frames with
    | [] => Ok (b, [])
    | src :: frames =>
        b ← background_applyFilter src b;
        r ← background_run frames b;
        Ok (r.1, bg_output b :: r.2)
    end.
Definition difference (absolute : bool) (src bg : picture) : picture := if absolute then cvAbsDiff src bg else cvSub src bg.
End Background.

(** ** Theorems *)

Definition same_size (w h d : Z) (img : IplImage) : Prop := img_width img = w ∧ img_height img = h ∧ img_depth img = d.
Definition frames_of (w h d : Z) (es : list event) : Prop := ∀ img, Frame (Some img) ∈ es → same_size w h d img.

(** What a filter should push: at each poll after new data, one image of the
    format of the last frame, on the output of one channel ([true]) exactly when it
    has one channel; nothing when the stream has no image. *)
Fixpoint expected (es : list event) (last : option IplImage) (pending : bool) : list (bool * option IplImage) :=
  match es with
  | [] => []
  | Frame img :: es => expected es img true
  | Poll :: es =>
      (match pending, last with true, Some src => [(img_nChannels src =? 1, Some src)] | _, _ => [] end) ++ expected es last false
  | Stop :: es => expected es last false
  end.

(** What holds of a filter between two events. *)
Record filter_inv (w h d : Z) (f : image_filter) : Prop := {
  fi_data src : fl_data f = Some src → same_size w h d src;
  fi_buffer b : fl_output_buffer f = Some b → same_size w h d b ∧ fl_dispatch8 f = (img_nChannels b =? 1);
  fi_ready src : fl_need_update f = true → fl_data f = Some src → fl_output_buffer f = Some src;
}.

Lemma same_format w h d a b : same_size w h d a → same_size w h d b → img_nChannels a = img_nChannels b → a = b.
Proof. destruct a, b. unfold same_size. simpl. intros (-> & -> & ->) (-> & -> & ->) ->. done. Qed.

(** A class built on moImageFilterModule8 whose operation takes two images of one
    format. *)
Section Filter8.
Context (F : Filter) (Hneed : @needBufferAllocation F = filter8_needBufferAllocation).
Context (Halloc : @allocateBuffers F = filter8_allocateBuffers).
Context (Hkeep : ∀ src f, fl_output_buffer f = Some src →
  ∃ f', @applyFilter F src f = Ok f' ∧ ∃ e, f' = with_error e f).

Lemma filter8_frame w h d img f :
  filter_inv w h d f → (∀ src, img = Some src → same_size w h d src) → filter_inv w h d (filter_notifyData (with_data img f)).
Proof.
  intros [_ Hb _] Himg. unfold filter_notifyData. rewrite Hneed, Halloc.
  unfold filter8_needBufferAllocation, filter8_allocateBuffers, base_allocateBuffers, base_needBufferAllocation.
  cbn [with_data fl_output_buffer fl_data].
  destruct (fl_output_buffer f) as [b|] eqn:Eb, img as [src|].
  - destruct (Hb b eq_refl) as [Hs Hd]. specialize (Himg src eq_refl). destruct (Z.eqb_spec (img_nChannels b) (img_nChannels src)) as [E|E].
    + rewrite (same_format w h d b src Hs Himg E) in *. split; simpl; intros; simplify_eq; eauto.
    + destruct src. split; simpl; intros; simplify_eq; eauto.
  - split; simpl; intros; simplify_eq; eauto.
  - specialize (Himg src eq_refl). destruct src. split; simpl; intros; simplify_eq; eauto.
  - simpl; rewrite Eb; split; simpl; intros; simplify_eq; eauto.
Qed.
Lemma notifyData_data img f :
  fl_data (filter_notifyData (with_data img f)) = img ∧ fl_need_update (filter_notifyData (with_data img f)) = true.
Proof.
  unfold filter_notifyData. rewrite Hneed, Halloc. unfold filter8_allocateBuffers, base_allocateBuffers.
  destruct (filter8_needBufferAllocation _), img, (fl_output_buffer f) eqn:E; simpl; by rewrite ?E.
Qed.

Lemma filter8_run w h d es f :
  filter_inv w h d f → frames_of w h d es →
  ∃ f', filter_run es f = Ok (f', expected es (fl_data f) (fl_need_update f)).
Proof.
  revert f. induction es as [|e es IH]; intros f Hf Hes; cbn [filter_run expected]; [by exists f|].
  assert (Hrest : frames_of w h d es) by (intros img Hin; apply Hes; apply elem_of_cons; by right).
  destruct e as [img| |]; cbn [filter_event mbind res_bind fst snd].
  - destruct (IH (filter_notifyData (with_data img f))) as (f' & E); [|done|].
    + apply filter8_frame; [done|]. intros src ->. apply Hes, elem_of_cons. by left.
    + destruct (notifyData_data img f) as [E1 E2]. rewrite E1, E2 in E. rewrite E. by exists f'.
  - destruct (fl_need_update f) eqn:En.
    2: { destruct (IH f Hf Hrest) as (f' & E). rewrite En in E. cbn [mbind res_bind fst snd]. rewrite E. by exists f'. }
    unfold filter_update. cbn [with_flags fl_data]. destruct Hf as [Hd Hb Hr].
    destruct (fl_data f) as [src|] eqn:Ed; cbn [mbind res_bind fst snd].
    + pose proof (Hr src En eq_refl) as Eb. destruct (Hb src Eb) as [Hs Hdis].
      destruct (Hkeep src (with_flags (fl_is_started f) false f)) as (f1 & -> & e & ->); [done|].
      cbn [mbind res_bind fst snd with_flags with_error fl_dispatch8 fl_output_buffer].
      destruct (IH (with_error e (with_flags (fl_is_started f) false f))) as (f' & E);
        [split; simpl; intros; simplify_eq; eauto|done|].
      rewrite E. cbn. rewrite Eb, Hdis, Ed. by exists f'.
    + destruct (IH (with_flags (fl_is_started f) false f)) as (f' & E); [split; simpl; intros; simplify_eq; eauto|done|].
      rewrite E. cbn. rewrite Ed. by exists f'.
  - destruct Hf as [Hd Hb Hr]. destruct (IH (filter_stop f)) as (f' & E); [split; simpl; naive_solver|done|].
    rewrite E. by exists f'.
Qed.
End Filter8.


Definition demo_image (w h c : Z) : IplImage := {| img_width := w; img_height := h; img_depth := 8; img_nChannels := c |}.

(** The size of the frames is not looked at again: after a change of size the
    next update hands OpenCV an output buffer of the old size. *)
Theorem size_change_mismatched (a b : IplImage) :
  img_nChannels a = img_nChannels b → (img_width a, img_height a) ≠ (img_width b, img_height b) →
  filter_run (F := moInvertModule matched) [Frame (Some a); Poll; Frame (Some b); Poll] new_filter = Fault FAssert.
Proof.
  intros Hc Hs. cbn. unfold invert_applyFilter, matched. cbn. rewrite !Z.eqb_refl. cbn. unfold filter_notifyData. cbn. unfold filter8_needBufferAllocation. cbn.
  rewrite Hc, Z.eqb_refl. cbn. unfold invert_applyFilter, matched. cbn.
  destruct (Z.eqb_spec (img_width a) (img_width b)), (Z.eqb_spec (img_height a) (img_height b)); cbn; try done. congruence.
Qed.
(** The threshold filter pushes a null image when it refuses one. *)
Example threshold_pushes_null :
  match filter_run (F := threshold_filter) [Frame (Some (demo_image 640 480 3)); Poll] new_filter with
  | Ok (f, pushed) => pushed = [(false, None)] ∧ fl_error f = "Threshold input image must be a single channel binary image."
  | Fault _ => False
  end.
Proof. split; reflexivity. Qed.

(** The region of interest lies within the image, for an image that is
    not empty and any rectangle whose far edges are ints: a corner inside, a size
    that is not negative, and no point past the image; a rectangle that lies in
    the image is kept as it is. *)
Theorem roi_within_image (left top width height : Z) (src : IplImage) :
  0 <= img_width src <= INT_MAX → 0 <= img_height src <= INT_MAX → Z.max left 0 + width <= INT_MAX → Z.max top 0 + height <= INT_MAX →
  let '(l, t, w, h) := roi_rect left top width height src in
  0 <= l ∧ 0 <= w ∧ l + w <= img_width src ∧ 0 <= t ∧ 0 <= h ∧ t + h <= img_height src
  ∧ (0 <= left → 0 <= width → left + width <= img_width src → l = left ∧ w = width)
  ∧ (0 <= top → 0 <= height → top + height <= img_height src → t = top ∧ h = height).
Proof.
  assert (Hw : ∀ z, 0 <= z <= INT_MAX → wrap32 z = z) by (intros z Hz; apply wrap32_id, in_int_iff; unfold INT_MAX in *; lia).
  assert (Haxis : ∀ off size len, 0 <= len <= INT_MAX → Z.max off 0 + size <= INT_MAX →
    let off1 := if off <? 0 then 0 else off in
    let off2 := if off1 >? len then len else off1 in
    let size1 := if size <? 0 then 0 else size in
    let size2 := if wrap32 (off2 + size1) >? len then wrap32 (len - off2) else size1 in
    0 <= off2 ∧ 0 <= size2 ∧ off2 + size2 <= len ∧ (0 <= off → 0 <= size → off + size <= len → off2 = off ∧ size2 = size)).
  { intros off size len Hlen Hmax. cbv zeta. rewrite !Z.gtb_ltb. destruct (Z.ltb_spec off 0), (Z.ltb_spec size 0);
      repeat (match goal with |- context [len <? ?x] => destruct (Z.ltb_spec len x) end); rewrite ?Hw in * by lia; lia. }
  intros Hwd Hht Hmx Hmy. unfold roi_rect. pose proof (Haxis left width _ Hwd Hmx) as Hx. pose proof (Haxis top height _ Hht Hmy) as Hy. cbv zeta in *.
  naive_solver.
Qed.
Lemma roi_within_image_witness : roi_rect (-10) 200 1000 100 (demo_image 640 480 3) = (0, 200, 640, 100)
  ∧ let '(l, t, w, h) := roi_rect (-10) 200 1000 100 (demo_image 640 480 3) in 0 <= l ∧ l + w <= 640.
Proof.
  split; [vm_compute; reflexivity|].
  pose proof (roi_within_image (-10) 200 1000 100 (demo_image 640 480 3) ltac:(vm_compute; split; discriminate) ltac:(vm_compute; split; discriminate)
    ltac:(vm_compute; discriminate) ltac:(vm_compute; discriminate)) as H.
  destruct (roi_rect _ _ _ _ _) as [[[l t] w] h]. split; apply H.
Defined.
(** Past that the sum overflows: the rectangle is taken to fit. *)
Example roi_overflow : roi_rect 1 0 INT_MAX 480 (demo_image 640 480 3) = (1, 0, INT_MAX, 480).
Proof. reflexivity. Qed.

Lemma odd_size_odd size : 0 <= size < 2 ^ 30 → odd_size size = 2 * size + 1.
Proof. intros Hs. unfold odd_size. rewrite (wrap32_id (size * 2)) by (apply in_int_iff; lia). rewrite wrap32_id by (apply in_int_iff; lia). lia. Qed.
Lemma block_size_odd n : 0 <= n < INT_MAX → Z.odd (threshold_block_size n) = true.
Proof.
  intros Hn. unfold threshold_block_size, cmod. rewrite Z.rem_mod_nonneg by lia. destruct (Z.eqb_spec (n mod 2) 0) as [E|E].
  - rewrite wrap32_id by (apply in_int_iff; unfold INT_MAX in *; lia). rewrite Z.odd_add. rewrite <-Z.negb_even, Zeven_mod. by rewrite E.
  - rewrite <-Z.negb_even, Zeven_mod. by destruct (Z.eqb_spec (n mod 2) 0).
Qed.

Section BackgroundTheorems.
  Context {P : Pictures}.

  (** With a background [bg] that is not captured again. *)
Lemma background_fixed absolute bg frames out :
    ∃ b, background_run frames {| bg_buffer := Some bg; bg_output := out; bg_recapture := false; bg_toggle := false; bg_absolute := absolute |}
         = Ok (b, (λ src, Some (difference absolute src bg)) <$> frames).
  Proof.
    revert out. induction frames as [|src frames IH]; intros out; [by eexists|]. cbn. destruct (IH (Some (difference absolute src bg))) as [b E].
    unfold difference in *. rewrite E. by eexists.
  Qed.
  (** Frames two by two: the first is the background of the second. *)
Fixpoint toggled (absolute : bool) (out : option picture) (frames : list picture) : list (option picture) :=
    match frames with
    | [] => []
    | [_] => [out]
    | bg :: src :: frames => out :: Some (difference absolute src bg) :: toggled absolute (Some (difference absolute src bg)) frames
    end.
Lemma background_toggled absolute n : ∀ frames bg out, (length frames ≤ n)%nat →
    ∃ b, background_run frames {| bg_buffer := bg; bg_output := out; bg_recapture := true; bg_toggle := true; bg_absolute := absolute |}
         = Ok (b, toggled absolute out frames).
  Proof.
    induction n as [|n IH]; intros [|bg [|src frames]] bg0 out Hn; simpl in Hn; try lia; try by eexists.
    cbn. destruct (IH frames (Some bg) (Some (difference absolute src bg)) ltac:(lia)) as [b E]. unfold difference in *. rewrite E. by eexists.
  Qed.

(** The background subtraction, from its start or after a stop,
    never reads a missing background.  Without toggle every image after the
    first is the difference to the first frame; with toggle the frames are
    taken two by two, the second minus the first.  While a background is
    captured the last image is pushed again, and the very first time a buffer
    nothing was written to. *)
Theorem background_subtracted (toggle absolute : bool) (first : picture) (frames : list picture) :
    ∃ b, background_run (first :: frames) (background_stop (new_background toggle absolute))
         = Ok (b, if toggle then toggled absolute None (first :: frames)
                  else None :: ((λ src, Some (difference absolute src first)) <$> frames)).
  Proof.
    destruct toggle; [by apply (background_toggled absolute (length (first :: frames)))|].
    cbn. destruct (background_fixed absolute first frames None) as [b E]. rewrite E. by eexists.
  Qed.
End BackgroundTheorems.
