(* ===== verification/Blobs.v ===== *)
(** Blobs and sources: moBlobFinderModule.cpp, the blobs of
    moFiducialFinderModule.cpp, moJustifyModule.cpp, moDumpModule.cpp and
    moVideoModule.cpp.

    Contours with their bounding rectangles, the fiducials of libfidtrack and
    the frames of a video file are parameters: lists of what those libraries
    return. *)
From Stdlib Require Import SpecFloat.
From S2P Require Import Prelude StdMap Numeric Utils Property Container Module World Catalogue FloatExact Calibration Tracker Greedy Tracking Peaks FingerTip HuObject.
#[local] Open Scope Z_scope.

(** ** moBlobFinderModule *)

(** [CvRect]. *)
Record rect := { re_x : Z; re_y : Z; re_width : Z; re_height : Z }.
Definition blob_of_rect (width height : Z) (r : rect) : container :=
  put_prop "height" (int_prop (re_height r))
    (put_prop "width" (int_prop (re_width r))
       (put_prop "y" (double_prop (d_div (d_of_Z (wrap32 (re_y r + cdiv (re_height r) 2))) (d_of_Z height)))
          (put_prop "x" (double_prop (d_div (d_of_Z (wrap32 (re_x r + cdiv (re_width r) 2))) (d_of_Z width)))
             (put_prop "implements" (string_prop "pos,size") new_container)))).
(** The loop of [applyFilter] over the bounding rectangles of the contours. *)
Fixpoint find_blobs (min_size max_size width height : Z) (contours : list rect) : container_list :=
  match contours with
  | [] => []
  | r :: contours =>
      let size := wrap32 (re_width r * re_height r) in
      let rest := find_blobs min_size max_size width height contours in
      if (min_size <=? size) && (size <=? max_size) then blob_of_rect width height r :: rest else rest
  end.

(** ** moFiducialFinderModule *)

(** [FiducialX]. *)
Record fiducialX := { fx_id : Z; fx_x : spec_float; fx_y : spec_float; fx_angle : spec_float; fx_leaf_size : spec_float; fx_root_size : spec_float; fx_root_colour : Z; fx_node_count : Z }.
Definition fiducial_blob (width height : Z) (f : fiducialX) : container :=
  put_prop "root_size" (double_prop (widen (fx_root_size f)))
    (put_prop "leaf_size" (double_prop (widen (fx_leaf_size f)))
       (put_prop "angle" (double_prop (widen (fx_angle f)))
          (put_prop "y" (double_prop (widen (f_div (fx_y f) (f_of_d (d_of_Z height)))))
             (put_prop "x" (double_prop (widen (f_div (fx_x f) (f_of_d (d_of_Z width)))))
                (put_prop "blob_id" (int_prop (fx_id f))
                   (put_prop "fiducial_id" (int_prop (fx_id f))
                      (put_prop "implements" (string_prop "fiducial,pos,tracked") new_container))))))).
(** What [applyFilter] pushes; [None] when it stops the module for an image of
    several channels. *)
Fixpoint valid_fiducials (width height : Z) (l : list fiducialX) : container_list :=
  match l with
  | [] => []
  | f :: l => let rest := valid_fiducials width height l in if fx_id f <? 0 then rest else fiducial_blob width height f :: rest
  end.
Definition fiducial_applyFilter (src : IplImage) (found : list fiducialX) : option container_list :=
  if negb (img_nChannels src =? 1) then None else Some (valid_fiducials (img_width src) (img_height src) found).

(** ** moJustifyModule *)

Record justify_settings := { js_ma : double; js_mb : double; js_mc : double; js_md : double; js_dx : double; js_dy : double }.
(** The body of the loop; [log_info] tells whether the log prints the id. *)
Definition justify_blob (log_info : bool) (s : justify_settings) (format : string) (it : container) : res container :=
  (if bool_decide (format = "GenericFiducial") then type ← get_string "type" it; assert_ (bool_decide (type = "fiducial"))
   else if bool_decide (format = "GenericTouch") then type ← get_string "type" it; assert_ (bool_decide (type = "touch"))
   else Ok tt) ≫= λ _,
  x ← get_double "x" it;
  y ← get_double "y" it;
  let x := f_of_d x in
  let y := f_of_d y in
  let row a b d := widen (f_add (f_add (f_mul (f_of_d a) x) (f_mul (f_of_d b) y)) (f_of_d d)) in
  _ ← (if log_info then get_int "id" it else Ok 0);
  type ← get_string "type" it;
  id ← get_int "id" it;
  let touch := put_prop "y" (double_prop (row (js_mc s) (js_md s) (js_dy s)))
                 (put_prop "x" (double_prop (row (js_ma s) (js_mb s) (js_dx s)))
                    (put_prop "id" (int_prop id) (put_prop "type" (string_prop type) new_container))) in
  touch ← (if bool_decide (format = "GenericFiducial") then
             angle ← get_double "angle" it;
             leaf_size ← get_double "leaf_size" it;
             root_size ← get_double "root_size" it;
             Ok (put_prop "root_size" (double_prop root_size) (put_prop "leaf_size" (double_prop leaf_size) (put_prop "angle" (double_prop angle) touch)))
           else Ok touch);
  if bool_decide (format = "GenericTouch") then
    w ← get_double "w" it;
    h ← get_double "h" it;
    Ok (put_prop "h" (double_prop h) (put_prop "w" (double_prop w) touch))
  else Ok touch.
(** [notifyData]: the list pushed. *)
Definition justify_notifyData (log_info : bool) (s : justify_settings) (format : string) (data : option container_list) : res container_list :=
  list ← deref data;
  map_res (justify_blob log_info s format) list.

(** ** moDumpModule *)

(** [notifyData]: the lines logged after the first; [LOG] evaluates what it
    prints only when the level is enabled. *)
Definition dump_notifyData (log_info : bool) (format : string) (data : option payload) : res (list string) :=
  if negb log_info then Ok []
  else if bool_decide (format = "IplImage") then
    match data with
    | Some (PImage img) =>
        Ok [" `- Image size=" +:+ print_int (img_width img) +:+ "x" +:+ print_int (img_height img) +:+ ", channels=" +:+ print_int (img_nChannels img)
            +:+ ", depth=" +:+ print_int (img_depth img)]
    | _ => Fault FBadAccess
    end
  else if bool_decide (format = "blob") || bool_decide (format = "trackedblob") then
    match data with
    | Some (PBlobs l) => Ok [" `- " +:+ format +:+ " size=" +:+ print_int (Z.of_nat (length l))]
    | _ => Fault FBadAccess
    end
  else Ok [].

(** ** moVideoModule *)

(** The frames of the open file, the position of the capture, [numframes] and
    the property loop. *)
Record video := { vi_frames : list IplImage; vi_pos : nat; vi_numframes : Z; vi_loop : bool }.
(** [start] on a file that can be opened. *)
Definition video_start (frames : list IplImage) (loop : bool) : video :=
  {| vi_frames := frames; vi_pos := 0; vi_numframes := Z.of_nat (length frames); vi_loop := loop |}.
(** [update]: the image pushed, null past the last frame. *)
Definition video_update (v : video) : video * option IplImage :=
  let img := vi_frames v !! vi_pos v in
  let pos := if img is Some _ then S (vi_pos v) else vi_pos v in
  let numframes := wrap32 (vi_numframes v - 1) in
  (if 0 <? vi_numframes v then {| vi_frames := vi_frames v; vi_pos := pos; vi_numframes := numframes; vi_loop := vi_loop v |}
   else if vi_loop v then video_start (vi_frames v) true
   else {| vi_frames := vi_frames v; vi_pos := pos; vi_numframes := numframes; vi_loop := vi_loop v |}, img).
Fixpoint video_run (n : nat) (v : video) : list (option IplImage) :=
  match n with
  | O => []
  | S n => let r := video_update v in r.2 :: video_run n r.1
  end.

(** ** The finders and the trackers *)

Lemma double_prop_wf d : prop_wf (double_prop d).
Proof. by apply (alloc_wf (VDouble d)). Qed.
Lemma int_prop_wf z : in_int z = true → prop_wf (int_prop z).
Proof. intros Hz. by apply (alloc_wf (VInt z)). Qed.
Ltac raw_blob :=
  split; [repeat apply put_prop_wf; first [apply string_prop_wf|apply double_prop_wf|apply int_prop_wf; first [done|apply in_int_wrap]|apply new_container_wf]
         |by split_and!|by vm_compute|by vm_compute|done].

Lemma blob_of_rect_raw w h r : in_int (re_width r) = true → in_int (re_height r) = true → raw false (blob_of_rect w h r).
Proof. intros Hw Hh. raw_blob. Qed.
Lemma fiducial_blob_raw w h f : in_int (fx_id f) = true → raw false (fiducial_blob w h f).
Proof. intros Hf. raw_blob. Qed.
Lemma palm_item_raw x y w h : raw false (palm_item x y w h).
Proof. raw_blob. Qed.
Lemma finger_item_raw w h i p : raw false (finger_item w h i p).
Proof. raw_blob. Qed.
Lemma hu_object_raw s w h mar m : raw true (hu_object s w h mar m).
Proof. destruct m as [i []]; raw_blob. Qed.
(** The lists the finders push; [va] tells whether the angles of the blobs are
    left to the tracker. *)
Inductive found : bool → container_list → Prop :=
  | found_blobs min_size max_size w h rects :
      Forall (λ r, in_int (re_width r) = true ∧ in_int (re_height r) = true) rects → found false (find_blobs min_size max_size w h rects)
  | found_fiducials src fids l :
      Forall (λ f, in_int (fx_id f) = true) fids → fiducial_applyFilter src fids = Some l → found false l
  | found_hand (SO : StdSort) (C : Contours) s w h contours dist l adapted :
      finger_applyFilter s w h contours dist = Ok (l, adapted) → found false l
  | found_objects (SH : Shapes) s w h contours st st' l :
      hu_applyFilter s w h contours st = Ok (Some (st', l)) → found true l.

(** What holds of each kind of blob holds of what is found. *)
Section FoundForall.
  Variable Q : bool → container → Prop.
  Hypothesis Qrect : ∀ w h r, in_int (re_width r) = true → in_int (re_height r) = true → Q false (blob_of_rect w h r).
  Hypothesis Qfid : ∀ w h f, in_int (fx_id f) = true → Q false (fiducial_blob w h f).
  Hypothesis Qpalm : ∀ x y w h, Q false (palm_item x y w h).
  Hypothesis Qfinger : ∀ w h i p, Q false (finger_item w h i p).
  Hypothesis Qhu : ∀ s w h mar m, Q true (hu_object s w h mar m).

Lemma push_fingers_forall w h s points : ∀ i, Forall (Q false) (push_fingers w h s i points).
  Proof. induction points as [|p points IH]; intros i; simpl; [constructor|]. case_bool_decide; [apply IH|]. constructor; [apply Qfinger|apply IH]. Qed.
Lemma finger_forall {SO : StdSort} {C : Contours} s w h contours dist l adapted :
    finger_applyFilter s w h contours dist = Ok (l, adapted) → Forall (Q false) l.
  Proof.
    unfold finger_applyFilter. intros E. destruct contours as [|c cs]; [by injection E as <- _; constructor|].
    destruct (searchPalmCenter w h dist) as [[item|]|] eqn:Ep; simpl in E; [|by injection E as <- _; constructor|done].
    destruct (searchFingerTips s w h c cs) as [[tips a]|] eqn:Et; [|by injection E as <- _; constructor]. injection E as <- _. constructor.
    - unfold searchPalmCenter in Ep. destruct (range_peaks _ _ _ _ _); [|done]. simpl in Ep. destruct (std_sort _ _); [done|].
      injection Ep as <-. apply Qpalm.
    - unfold searchFingerTips in Et. destruct (largest _ _ _), (d_ltb _ _); [done|]. destruct (merge_points _ _ _ _ _).
      injection Et as <- _. apply push_fingers_forall.
  Qed.
Lemma find_objects_forall {SH : Shapes} s w h cs : ∀ st objs st' objs',
    Forall (Q true) objs → find_objects s w h st cs objs = Ok (st', objs') → Forall (Q true) objs'.
  Proof.
    induction cs as [|c cs IH]; intros st objs st' objs' Ho E; cbn [find_objects] in E; [by injection E as _ <-|].
    destruct (d_ltb _ _); [|by eapply IH]. destruct (pending _).
    - destruct (_ <? 0); [|by injection E as _ <-]. destruct (serializeContour _ _ _ _); [|done]. by injection E as _ <-.
    - eapply IH; [|exact E]. destruct (_ || _); [|done]. apply Forall_app. split; [done|]. apply Forall_singleton, Qhu.
  Qed.
Lemma found_forall va l : found va l → Forall (Q va) l.
  Proof.
    destruct 1 as [min max w h rects Hr|src fids l Hf E|SO C s w h contours dist l adapted E|SH s w h contours st st' l E].
    - induction Hr as [|r rects [Hw Hh] _ IH]; simpl; [constructor|]. destruct (_ && _); [|done]. constructor; [by apply Qrect|done].
    - unfold fiducial_applyFilter in E. destruct (negb _); [done|]. injection E as <-.
      induction Hf as [|f fids Hf _ IH]; simpl; [constructor|]. destruct (_ <? 0); [done|]. constructor; [by apply Qfid|done].
    - by eapply finger_forall.
    - unfold hu_applyFilter in E. destruct (restore s st) as [[st1|]|]; simpl in E; [|done|done].
      destruct (find_objects s w h st1 contours []) as [[st2 l']|] eqn:Ef; simpl in E; [|done]. injection E as _ ->.
      eapply find_objects_forall; [constructor|exact Ef].
  Qed.
End FoundForall.

Lemma found_raw va l : found va l → Forall (raw va) l.
Proof.
  apply found_forall; eauto using blob_of_rect_raw, fiducial_blob_raw, palm_item_raw, finger_item_raw, hu_object_raw.
Qed.

(** C15: every finder feeds every tracker: whatever the blob finder, the
    fiducial finder, the finger tip finder or the object finder pushes for a
    frame, a tracker whose assignment of ids keeps its contract takes it: its
    update returns, every blob gets an id of its own, known or new, and no blob
    that is not too old is forgotten. *)
Theorem found_blobs_tracked (va : bool) (l : container_list) (track : Track) (min_age max_age max_diff : Z) (old : list container) (k : Z) :
  found va l → TrackLaws track → tracker_inv va old k → k + Z.of_nat (length l) <= INT_MAX →
  ∃ old' out k', tracker_update track min_age max_age max_diff old l k = Ok (old', out, k')
    ∧ tracker_inv va old' k' ∧ NoDup (bid <$> old') ∧ (length l <= length old')%nat
    ∧ (∀ c, c ∈ old' → bid c ∈ bid <$> old ∨ (k < bid c <= k'))
    ∧ (∀ o, o ∈ old → in_age min_age max_age (wrap32 (age_of o + 1)) = true → bid o ∈ bid <$> old').
Proof.
  intros Hf Hlaws Hinv Hk. destruct (tracker_frame_run track va min_age max_age max_diff old l k Hlaws Hinv (found_raw va l Hf) Hk)
    as (old' & out & k' & E & Hi & Hids & Hlen & _ & Hkeep).
  exists old', out, k'. split; [done|]. split; [done|]. split; [apply Hi|]. done.
Qed.
Lemma found_blobs_tracked_witness :
  ∃ old' out k', tracker_update (greedy_trackBlobs 10 (atof "0.1")) 3 10 46 [] (find_blobs 4 100 640 480
      [{| re_x := 10; re_y := 20; re_width := 4; re_height := 5 |}; {| re_x := 0; re_y := 0; re_width := 1; re_height := 1 |}]) 0 = Ok (old', out, k')
    ∧ NoDup (bid <$> old') ∧ (1 <= length old')%nat.
Proof.
  destruct (found_blobs_tracked false (find_blobs 4 100 640 480
      [{| re_x := 10; re_y := 20; re_width := 4; re_height := 5 |}; {| re_x := 0; re_y := 0; re_width := 1; re_height := 1 |}])
    (greedy_trackBlobs 10 (atof "0.1")) 3 10 46 [] 0) as (old' & out & k' & E & _ & Hnd & Hlen & _).
  - apply found_blobs. repeat constructor.
  - apply _.
  - split; [constructor|apply NoDup_nil_2|constructor|lia].
  - vm_compute. discriminate.
  - exists old', out, k'. split; [exact E|]. split; [exact Hnd|exact Hlen].
Defined.

(** ** What does not fit *)

(** C40: the justify module fits no finder: although its input takes
    blobs, it reads the properties type and id of every one, and each blob of
    each finder lacks one of them, so the first blob is a read through a null
    pointer. *)
Theorem justify_faults_on_found (log_info : bool) (s : justify_settings) (va : bool) (l : container_list) :
  found va l → l ≠ [] → justify_notifyData log_info s "blob" (Some l) = Fault FBadAccess.
Proof.
  intros Hf Hne. cut (Forall (λ c, justify_blob log_info s "blob" c = Fault FBadAccess) l).
  { destruct l as [|c l]; [done|]. intros [Hc _]%Forall_cons. unfold justify_notifyData. simpl. by rewrite Hc. }
  revert Hf. apply (found_forall (λ _ c, justify_blob log_info s "blob" c = Fault FBadAccess)); intros; by destruct log_info.
Qed.
Lemma justify_faults_on_found_witness :
  justify_notifyData true {| js_ma := d_of_Z 1; js_mb := dzero; js_mc := dzero; js_md := d_of_Z 1; js_dx := dzero; js_dy := dzero |} "blob"
    (Some (find_blobs 4 100 640 480 [{| re_x := 10; re_y := 20; re_width := 4; re_height := 5 |}])) = Fault FBadAccess.
Proof.
  apply (justify_faults_on_found true _ false).
  - apply found_blobs. repeat constructor.
  - vm_compute. discriminate.
Defined.

Lemma video_run_S n v : video_run (S n) v = (video_update v).2 :: video_run n (video_update v).1.
Proof. done. Qed.
(** A video that loops pushes its frames in order, then a null image,
    and starts again, for ever. *)
Theorem video_loops (frames : list IplImage) (k : nat) :
  Z.of_nat (length frames) <= INT_MAX →
  video_run (k * S (length frames)) (video_start frames true) = mjoin (replicate k ((Some <$> frames) ++ [None])).
Proof.
  intros Hn.
  assert (Hgo : ∀ rest pre m, frames = pre ++ rest →
    video_run (S (length rest) + m) {| vi_frames := frames; vi_pos := length pre; vi_numframes := Z.of_nat (length rest); vi_loop := true |}
    = (Some <$> rest) ++ [None] ++ video_run m (video_start frames true)).
  { induction rest as [|img rest IH]; intros pre m E.
    - cbn [length]. rewrite Nat.add_succ_l, video_run_S. unfold video_update. cbn [vi_frames vi_pos vi_numframes vi_loop]. rewrite lookup_ge_None_2 by (rewrite E, app_nil_r; done).
      done.
    - cbn [length]. rewrite Nat.add_succ_l, video_run_S. unfold video_update. cbn [vi_frames vi_pos vi_numframes vi_loop].
      assert (Hl : frames !! length pre = Some img) by (by rewrite E, list_lookup_middle). rewrite Hl. rewrite (proj2 (Z.ltb_lt 0 _)) by lia.
      cbn [fst snd]. rewrite wrap32_id by (apply in_int_iff; unfold INT_MAX in *; rewrite E, length_app in Hn; simpl in Hn; lia).
      replace (Z.of_nat (S (length rest)) - 1) with (Z.of_nat (length rest)) by lia.
      pose proof (IH (pre ++ [img]) m) as H. rewrite length_app, Nat.add_1_r in H. rewrite H by (by rewrite <-app_assoc). done. }
  induction k as [|k IH]; [done|]. cbn [Nat.mul replicate mjoin list_join]. rewrite (Hgo frames [] _ eq_refl), IH. by rewrite <-app_assoc.
Qed.
(** The null image after the last frame stops a dump of the stream. *)
Example dump_of_video_faults frames :
  Z.of_nat (length frames) <= INT_MAX →
  ∃ img, img ∈ video_run (S (length frames)) (video_start frames true)
    ∧ dump_notifyData true "IplImage" (PImage <$> img) = Fault FBadAccess.
Proof.
  intros Hn. pose proof (video_loops frames 1 Hn) as E. rewrite Nat.mul_1_l in E. cbn [replicate mjoin list_join] in E. rewrite E.
  exists None. split; [|done]. rewrite app_nil_r. apply elem_of_app. right. by apply list_elem_of_singleton.
Qed.
