(* ===== verification/Images.v ===== *)
(** The modules that make, combine, mask and show images: moCombineModule,
    moBinaryMaskModule, moMaskModule, moDistanceTransformModule, moCameraModule,
    moImageModule and moImageDisplayModule.

    Images are at addresses of a store, so that an image that is released, or
    never released, can be told; a stream holds the address its producer pushed.
    What OpenCV makes of the pixels is the interface [Opencv]; the header checks
    it is documented to make are written out here, and a failed one is [FAssert]. *)
From stdpp Require Import gmap.
From S2P Require Import Prelude StdMap Numeric Utils Property Container Module World Filters.
#[local] Open Scope Z_scope.

#[export] Instance IplImage_eq_dec : EqDecision IplImage.
Proof. solve_decision. Defined.

(** ** Pixels *)

Class Opencv := {
  canvas : Type;
  head : canvas → IplImage;
  pixel : canvas → Z → Z → list Z;
  blank : IplImage → canvas;
  cv_and : canvas → canvas → canvas;
  cv_first : canvas → canvas;
  cv_masked : canvas → canvas → canvas → canvas;
}.
(** What the operations are documented to do: [cv_masked src dst mask] is [dst]
    with the pixels of [src] where [mask] is not zero. *)
Class OpencvLaws (O : Opencv) : Prop := {
  head_blank h : head (blank h) = h;
  head_and a b : head (cv_and a b) = head a;
  head_first a : head (cv_first a) = {| img_width := img_width (head a); img_height := img_height (head a); img_depth := img_depth (head a); img_nChannels := 1 |};
  head_masked a b m : head (cv_masked a b m) = head b;
  pixel_and a b x y : pixel (cv_and a b) x y = zip_with Z.land (pixel a x y) (pixel b x y);
  pixel_first a x y : pixel (cv_first a) x y = take 1 (pixel a x y);
  pixel_masked a b m x y : pixel (cv_masked a b m) x y = if decide (pixel m x y = [0]) then pixel b x y else pixel a x y;
}.

Section Store.
Context {O : Opencv}.

(** ** Images in memory *)

Record store := { st_pics : gmap nat canvas; st_next : nat }.
Definition load_pic (a : nat) (s : store) : res canvas := deref (st_pics s !! a).
Definition write_pic (a : nat) (p : canvas) (s : store) : res store :=
  _ ← load_pic a s; Ok {| st_pics := <[a := p]> (st_pics s); st_next := st_next s |}.
Definition new_pic (p : canvas) (s : store) : nat * store :=
  (st_next s, {| st_pics := <[st_next s := p]> (st_pics s); st_next := S (st_next s) |}).
Definition cvCreateImage (h : IplImage) (s : store) : nat * store := new_pic (blank h) s.
Definition cvCloneImage (a : nat) (s : store) : res (nat * store) := p ← load_pic a s; Ok (new_pic p s).
(** [cvReleaseImage] on a pointer that may be null. *)
Definition cvReleaseImage (a : option nat) (s : store) : res store :=
  match a with
  | None => Ok s
  | Some a => _ ← load_pic a s; Ok {| st_pics := delete a (st_pics s); st_next := st_next s |}
  end.

Definition one_channel (h : IplImage) : IplImage :=
  {| img_width := img_width h; img_height := img_height h; img_depth := img_depth h; img_nChannels := 1 |}.
Definition check (b : bool) : res unit := if b then Ok () else Fault FAssert.

(** [cvCopy], without and with a mask; [cvSplit] to the first plane; [cvAnd]. *)
Definition cvCopy (src dst : nat) (s : store) : res store :=
  p ← load_pic src s; q ← load_pic dst s; _ ← check (bool_decide (head p = head q)); write_pic dst p s.
Definition cvCopy_mask (src dst mask : nat) (s : store) : res store :=
  p ← load_pic src s; q ← load_pic dst s; m ← load_pic mask s;
  _ ← check (bool_decide (head p = head q) && bool_decide (head m = one_channel (head q)) && (img_depth (head m) =? 8));
  write_pic dst (cv_masked p q m) s.
Definition cvSplit (src dst : nat) (s : store) : res store :=
  p ← load_pic src s; q ← load_pic dst s; _ ← check (bool_decide (head q = one_channel (head p))); write_pic dst (cv_first p) s.
Definition cvAnd (a b dst : nat) (s : store) : res store :=
  p ← load_pic a s; q ← load_pic b s; r ← load_pic dst s;
  _ ← check (bool_decide (head p = head q) && bool_decide (head p = head r)); write_pic dst (cv_and p q) s.

(** ** Two inputs: moCombineModule, moBinaryMaskModule *)

(** The input pointers: [None] is null, [Some d] a stream whose data is [d]. *)
Record two_inputs := {
  ti_first : option (option nat); ti_second : option (option nat);
  ti_output_buffer : option nat; ti_split : option nat; ti_need_update : bool;
}.
Definition two_new : two_inputs :=
  {| ti_first := None; ti_second := None; ti_output_buffer := None; ti_split := None; ti_need_update := false |}.
Definition two_set_buffers (o sp : nat) (m : two_inputs) : two_inputs :=
  {| ti_first := ti_first m; ti_second := ti_second m; ti_output_buffer := Some o; ti_split := Some sp; ti_need_update := ti_need_update m |}.
Definition two_need (n : bool) (m : two_inputs) : two_inputs :=
  {| ti_first := ti_first m; ti_second := ti_second m; ti_output_buffer := ti_output_buffer m; ti_split := ti_split m; ti_need_update := n |}.
(** [notifyData], of both modules; a different size is only logged. *)
Definition two_notifyData (data : option nat) (m : two_inputs) (s : store) : res (two_inputs * store) :=
  match data with
  | None => Ok (m, s)
  | Some a =>
      match ti_output_buffer m with
      | None =>
          src ← load_pic a s;
          let '(o, s) := cvCreateImage (head src) s in
          let '(sp, s) := cvCreateImage (one_channel (head src)) s in
          Ok (two_need true (two_set_buffers o sp m), s)
      | Some _ => Ok (two_need true m, s)
      end
  end.

(** [update]: what is pushed, if anything. *)
Definition combine_update (m : two_inputs) (s : store) : res (option nat * store) :=
  match ti_first m, ti_output_buffer m with
  | Some data1, Some out =>
      match data1 with
      | None => Ok (None, s)
      | Some d1 =>
          '(d1, s) ← cvCloneImage d1 s;
          match ti_second m with
          | None =>
              s ← cvCopy d1 out s;
              s ← cvReleaseImage (Some d1) s;
              Ok (Some out, s)
          | Some None =>
              s ← cvReleaseImage (Some d1) s;
              Ok (None, s)
          | Some (Some d2) =>
              '(d2, s) ← cvCloneImage d2 s;
              split ← deref (ti_split m);
              s ← cvSplit d2 split s;
              s ← cvCopy d1 out s;
              s ← cvCopy_mask d2 out split s;
              s ← cvReleaseImage (Some d1) s;
              s ← cvReleaseImage (Some d2) s;
              Ok (Some out, s)
          end
      end
  | _, _ => Ok (None, s)
  end.
(** Without a mask stream the clone is not released. *)
Definition binary_mask_update (m : two_inputs) (s : store) : res (option nat * store) :=
  match ti_first m, ti_output_buffer m with
  | Some data1, Some out =>
      match data1 with
      | None => Ok (None, s)
      | Some d1 =>
          '(d1, s) ← cvCloneImage d1 s;
          match ti_second m with
          | None => Ok (None, s)
          | Some None =>
              s ← cvReleaseImage (Some d1) s;
              Ok (None, s)
          | Some (Some d2) =>
              '(d2, s) ← cvCloneImage d2 s;
              s ← cvAnd d1 d2 out s;
              s ← cvReleaseImage (Some d1) s;
              s ← cvReleaseImage (Some d2) s;
              Ok (Some out, s)
          end
      end
  | _, _ => Ok (None, s)
  end.

(** A producer writes its image at [a] and pushes it on the stream of an input;
    the main loop polls the module. *)
Inductive two_event := Push (second : bool) (p : canvas) | PollTwo.
Definition two_receive (second : bool) (a : nat) (m : two_inputs) : two_inputs :=
  {| ti_first := if second then ti_first m else Some (Some a); ti_second := if second then Some (Some a) else ti_second m;
     ti_output_buffer := ti_output_buffer m; ti_split := ti_split m; ti_need_update := ti_need_update m |}.
Definition two_event_step (upd : two_inputs → store → res (option nat * store)) (a1 a2 : nat) (e : two_event) (m : two_inputs) (s : store)
    : res (two_inputs * store * list canvas) :=
  match e with
  | Push second p =>
      let a := if second then a2 else a1 in
      s ← write_pic a p s;
      '(m, s) ← two_notifyData (Some a) (two_receive second a m) s;
      Ok (m, s, [])
  | PollTwo =>
      if ti_need_update m then
        '(o, s) ← upd (two_need false m) s;
        match o with
        | None => Ok (two_need false m, s, [])
        | Some out => p ← load_pic out s; Ok (two_need false m, s, [p])
        end
      else Ok (m, s, [])
  end.
Fixpoint two_run (upd : two_inputs → store → res (option nat * store)) (a1 a2 : nat) (es : list two_event) (m : two_inputs) (s : store)
    : res (two_inputs * store * list canvas) :=
  match es with
  | [] => Ok (m, s, [])
  | e :: es =>
      '(m, s, out) ← two_event_step upd a1 a2 e m s;
      '(m, s, rest) ← two_run upd a1 a2 es m s;
      Ok (m, s, out ++ rest)
  end.

(** ** What is pushed *)

(** The reference: the images that arrived last, and what is made of them. *)
Definition overlay (p1 p2 : canvas) : canvas := cv_masked p2 p1 (cv_first p2).
Definition combined (c1 c2 : option canvas) : option canvas :=
  match c1, c2 with Some p1, Some p2 => Some (overlay p1 p2) | _, _ => c1 end.
Definition masked (c1 c2 : option canvas) : option canvas :=
  match c1, c2 with Some p1, Some p2 => Some (cv_and p1 p2) | _, _ => None end.
Fixpoint reference (f : option canvas → option canvas → option canvas) (es : list two_event) (c1 c2 : option canvas) (need : bool) : list canvas :=
  match es with
  | [] => []
  | Push false p :: es => reference f es (Some p) c2 true
  | Push true p :: es => reference f es c1 (Some p) true
  | PollTwo :: es => (if need then option_list (f c1 c2) else []) ++ reference f es c1 c2 false
  end.

Lemma load_run a s p : st_pics s !! a = Some p → load_pic a s = Ok p.
Proof. intros H. unfold load_pic. by rewrite H. Qed.
Lemma write_image_run a p q s : st_pics s !! a = Some q → write_pic a p s = Ok {| st_pics := <[a := p]> (st_pics s); st_next := st_next s |}.
Proof. intros H. unfold write_pic. by rewrite (load_run _ _ _ H). Qed.
Definition fresh (s : store) : Prop := ∀ a, is_Some (st_pics s !! a) → (a < st_next s)%nat.

(** One channel of eight bits for each pixel of [h]. *)
Record two_inv (h : IplImage) (D : gset nat) (a1 a2 : nat) (m : two_inputs) (s : store) (c1 c2 : option canvas) : Prop := {
  tv_fresh : fresh s;
  tv_first : ti_first m = (λ _, Some a1) <$> c1;
  tv_second : ti_second m = (λ _, Some a2) <$> c2;
  tv_live1 : is_Some (st_pics s !! a1);
  tv_live2 : is_Some (st_pics s !! a2);
  tv_pic1 p : c1 = Some p → st_pics s !! a1 = Some p ∧ head p = h;
  tv_pic2 p : c2 = Some p → st_pics s !! a2 = Some p ∧ head p = h;
  tv_buffers : match ti_output_buffer m with
               | None => c1 = None ∧ c2 = None ∧ dom (st_pics s) = D
               | Some o => ∃ sp q r, ti_split m = Some sp ∧ st_pics s !! o = Some q ∧ head q = h ∧ st_pics s !! sp = Some r ∧ head r = one_channel h
                   ∧ o ≠ sp ∧ (o ∉ D) ∧ (sp ∉ D) ∧ dom (st_pics s) = D ∪ {[o; sp]}
               end;
  tv_need : ti_need_update m = true → is_Some c1 ∨ is_Some c2;
}.
Context {L : OpencvLaws O}.

(** What the stores of the module do not touch. *)
Lemma two_inv_store h D a1 a2 m s s' c1 c2 o sp q r :
  two_inv h D a1 a2 m s c1 c2 → a1 ∈ D → a2 ∈ D → ti_output_buffer m = Some o → ti_split m = Some sp →
  dom (st_pics s') = dom (st_pics s) → (st_next s ≤ st_next s')%nat →
  st_pics s' !! o = Some q → head q = h → st_pics s' !! sp = Some r → head r = one_channel h →
  (∀ a, a ∈ D → st_pics s' !! a = st_pics s !! a) → two_inv h D a1 a2 (two_need false m) s' c1 c2.
Proof.
  intros [Hf H1 H2 L1 L2 P1 P2 Hb Hn] Ha1 Ha2 Eo Esp Ed En Hq Hh Hr Hhr Hsame. rewrite Eo in Hb.
  destruct Hb as (sp' & q' & r' & E & _ & _ & _ & _ & Hne & HoD & HsD & Hdom). split; cbn; try done.
  - intros a Ha. apply elem_of_dom in Ha. rewrite Ed in Ha. apply elem_of_dom in Ha. pose proof (Hf a Ha). lia.
  - by rewrite Hsame.
  - by rewrite Hsame.
  - intros p Hp. rewrite Hsame by done. by apply P1.
  - intros p Hp. rewrite Hsame by done. by apply P2.
  - rewrite Eo. assert (sp' = sp) as -> by congruence. exists sp, q, r. split_and!; try done. by rewrite Ed.
Qed.

Lemma two_push h D a1 a2 m s c1 c2 second p :
  two_inv h D a1 a2 m s c1 c2 → a1 ∈ D → a2 ∈ D → a1 ≠ a2 → head p = h → head (blank h) = h →
  ∀ upd, ∃ m' s', two_event_step upd a1 a2 (Push second p) m s = Ok (m', s', [])
    ∧ two_inv h D a1 a2 m' s' (if second then c1 else Some p) (if second then Some p else c2) ∧ ti_need_update m' = true.
Proof.
  intros Hi Ha1 Ha2 Hne Hp _ upd. set (a := if second then a2 else a1).
  assert (HaD : a ∈ D) by (unfold a; by destruct second).
  assert (Hlive : is_Some (st_pics s !! a)) by (unfold a; destruct second; apply Hi). destruct Hlive as [p0 Hp0].
  cbn [two_event_step]. fold a. rewrite (write_image_run _ _ _ _ Hp0). cbn [mbind res_bind]. set (s1 := {| st_pics := <[a := p]> (st_pics s); st_next := st_next s |}).
  destruct Hi as [Hf H1 H2 L1 L2 P1 P2 Hb Hn].
  assert (Hf1 : fresh s1).
  { intros x Hx. cbn in Hx |- *. destruct (decide (a = x)) as [<-|]; [apply Hf; by eexists|]. rewrite lookup_insert_ne in Hx by done. by apply Hf. }
  assert (Hd1 : dom (st_pics s1) = dom (st_pics s)) by (cbn; apply dom_insert_lookup_L; by eexists).
  assert (Hl : ∀ x, is_Some (st_pics s !! x) → is_Some (st_pics s1 !! x)) by (intros x; rewrite <-!elem_of_dom, Hd1; done).
  assert (Hpa : st_pics s1 !! a = Some p) by apply lookup_insert_eq.
  assert (Hpo : ∀ x, x ≠ a → st_pics s1 !! x = st_pics s !! x) by (intros x Hx; by apply lookup_insert_ne).
  assert (Hc1 : ∀ s2, (∀ x, x ∈ D → st_pics s2 !! x = st_pics s1 !! x) → ∀ q, (if second then c1 else Some p) = Some q → st_pics s2 !! a1 = Some q ∧ head q = h).
  { intros s2 Hs q Hq. rewrite Hs by done. destruct second; [rewrite Hpo by done; by apply P1|]. injection Hq as <-. done. }
  assert (Hc2 : ∀ s2, (∀ x, x ∈ D → st_pics s2 !! x = st_pics s1 !! x) → ∀ q, (if second then Some p else c2) = Some q → st_pics s2 !! a2 = Some q ∧ head q = h).
  { intros s2 Hs q Hq. rewrite Hs by done. destruct second; [injection Hq as <-; done|]. rewrite Hpo by (unfold a; done). by apply P2. }
  assert (Hsome : is_Some (if second then c1 else Some p) ∨ is_Some (if second then Some p else c2)) by (destruct second; eauto).
  unfold two_notifyData. cbn [two_receive ti_output_buffer].
  destruct (ti_output_buffer m) as [o|] eqn:Eo.
  - destruct Hb as (sp & q & r & Esp & Hq & Hhq & Hr & Hhr & Hos & HoD & HsD & Hdom). eexists _, _. split; [done|]. split; [|done]. split; cbn.
    + done. + destruct second; [done|]. by unfold a. + destruct second; [|done]. by unfold a. + by apply Hl. + by apply Hl.
    + by apply (Hc1 s1). + by apply (Hc2 s1).
    + rewrite Eo. exists sp, q, r. rewrite !Hpo by (intros ->; done). split_and!; try done. by rewrite <-Hdom.
    + done.
  - destruct Hb as (_ & _ & Hdom). rewrite (load_run _ _ _ Hpa). cbn [mbind res_bind cvCreateImage new_pic]. rewrite Hp.
    set (n := st_next s). assert (Hno : ∀ x, x ∈ D → (x < n)%nat) by (intros x Hx; apply Hf, elem_of_dom; by rewrite Hdom).
    eexists _, _. split; [done|]. split; [|done].
    assert (Hsame : ∀ x, x ∈ D → <[S n:=blank (one_channel h)]> (<[n:=blank h]> (st_pics s1)) !! x = st_pics s1 !! x).
    { intros x Hx. pose proof (Hno x Hx). rewrite !lookup_insert_ne by lia. done. }
    split; cbn; fold n.
    + intros x Hx. cbn in Hx |- *. fold n in Hx |- *. destruct (decide (S n = x)) as [<-|]; [lia|]. rewrite lookup_insert_ne in Hx by done.
      destruct (decide (n = x)) as [<-|]; [lia|]. rewrite lookup_insert_ne in Hx by done. pose proof (Hf1 x Hx : (x < n)%nat). lia.
    + destruct second; [done|]. by unfold a. + destruct second; [|done]. by unfold a.
    + rewrite Hsame by done. by apply Hl. + rewrite Hsame by done. by apply Hl.
    + by apply (Hc1 {| st_pics := _; st_next := 0 |}). + by apply (Hc2 {| st_pics := _; st_next := 0 |}).
    + exists (S n), (blank h), (blank (one_channel h)). rewrite lookup_insert_ne, !lookup_insert_eq by lia. rewrite !head_blank. split_and!; try done; [by (intros Hx%Hno; lia)..|].
      rewrite !dom_insert_L, Hdom. set_solver.
    + done.
Qed.

Ltac look := cbn [st_pics st_next]; repeat first [rewrite lookup_insert_eq | rewrite lookup_insert_ne by (lia || congruence) | rewrite lookup_delete_ne by (lia || congruence)]; try done.

Lemma clone_run a s p : st_pics s !! a = Some p → cvCloneImage a s = Ok (st_next s, {| st_pics := <[st_next s := p]> (st_pics s); st_next := S (st_next s) |}).
Proof. intros H. unfold cvCloneImage. by rewrite (load_run _ _ _ H). Qed.
Lemma release_run a s p : st_pics s !! a = Some p → cvReleaseImage (Some a) s = Ok {| st_pics := delete a (st_pics s); st_next := st_next s |}.
Proof. intros H. unfold cvReleaseImage. by rewrite (load_run _ _ _ H). Qed.
Lemma copy_image_run src dst s p q :
  st_pics s !! src = Some p → st_pics s !! dst = Some q → head p = head q →
  cvCopy src dst s = Ok {| st_pics := <[dst := p]> (st_pics s); st_next := st_next s |}.
Proof. intros Hp Hq Hh. unfold cvCopy. rewrite (load_run _ _ _ Hp), (load_run _ _ _ Hq). cbn [mbind res_bind]. rewrite bool_decide_true by done. cbn. by rewrite (write_image_run _ _ _ _ Hq). Qed.
Lemma split_run src dst s p q :
  st_pics s !! src = Some p → st_pics s !! dst = Some q → head q = one_channel (head p) →
  cvSplit src dst s = Ok {| st_pics := <[dst := cv_first p]> (st_pics s); st_next := st_next s |}.
Proof. intros Hp Hq Hh. unfold cvSplit. rewrite (load_run _ _ _ Hp), (load_run _ _ _ Hq). cbn [mbind res_bind]. rewrite bool_decide_true by done. cbn. by rewrite (write_image_run _ _ _ _ Hq). Qed.
Lemma copy_mask_run src dst mask s p q m :
  st_pics s !! src = Some p → st_pics s !! dst = Some q → st_pics s !! mask = Some m → head p = head q → head m = one_channel (head q) → img_depth (head q) = 8 →
  cvCopy_mask src dst mask s = Ok {| st_pics := <[dst := cv_masked p q m]> (st_pics s); st_next := st_next s |}.
Proof.
  intros Hp Hq Hm Hh Hhm Hd. unfold cvCopy_mask. rewrite (load_run _ _ _ Hp), (load_run _ _ _ Hq), (load_run _ _ _ Hm). cbn [mbind res_bind].
  rewrite !bool_decide_true by done. rewrite Hhm. cbn [one_channel img_depth]. rewrite Hd. cbn. by rewrite (write_image_run _ _ _ _ Hq).
Qed.
Lemma and_run a b dst s p q r :
  st_pics s !! a = Some p → st_pics s !! b = Some q → st_pics s !! dst = Some r → head p = head q → head p = head r →
  cvAnd a b dst s = Ok {| st_pics := <[dst := cv_and p q]> (st_pics s); st_next := st_next s |}.
Proof.
  intros Hp Hq Hr H1 H2. unfold cvAnd. rewrite (load_run _ _ _ Hp), (load_run _ _ _ Hq), (load_run _ _ _ Hr). cbn [mbind res_bind].
  rewrite !bool_decide_true by done. cbn. by rewrite (write_image_run _ _ _ _ Hr).
Qed.

(** What an update leaves, and what it pushes. *)
Definition updated (h : IplImage) (D : gset nat) (a1 a2 : nat) (m : two_inputs) (c1 c2 want : option canvas) (r : res (option nat * store)) : Prop :=
  ∃ o s', r = Ok (o, s') ∧ two_inv h D a1 a2 (two_need false m) s' c1 c2 ∧ (λ a, load_pic a s') <$> o = Ok <$> want.

Lemma combine_update_run h D a1 a2 m s c1 c2 :
  two_inv h D a1 a2 m s c1 c2 → a1 ∈ D → a2 ∈ D → a1 ≠ a2 → img_depth h = 8 →
  ti_output_buffer m ≠ None → updated h D a1 a2 m c1 c2 (combined c1 c2) (combine_update (two_need false m) s).
Proof.
  intros Hi Ha1 Ha2 Hne Hd Hbuf. destruct (ti_output_buffer m) as [o|] eqn:Eo; [|done]. pose proof (tv_buffers _ _ _ _ _ _ _ _ Hi) as Hb. rewrite Eo in Hb.
  destruct Hb as (sp & q & r & Esp & Hq & Hhq & Hr & Hhr & Hos & HoD & HsD & Hdom). unfold combine_update. cbn [two_need ti_first ti_second ti_output_buffer ti_split].
  rewrite (tv_first _ _ _ _ _ _ _ _ Hi), (tv_second _ _ _ _ _ _ _ _ Hi), Eo, Esp. destruct c1 as [p1|]; cbn [fmap option_fmap option_map].
  2: { exists None, s. split; [done|]. split; [|by destruct c2]. by eapply two_inv_store. }
  destruct (tv_pic1 _ _ _ _ _ _ _ _ Hi p1 eq_refl) as [Hp1 Hh1]. pose proof (tv_fresh _ _ _ _ _ _ _ _ Hi) as Hf. set (n := st_next s).
  assert (Hlt : ∀ x, x ∈ dom (st_pics s) → (x < n)%nat) by (intros x Hx; by apply Hf, elem_of_dom).
  assert (o < n ∧ sp < n ∧ a1 < n ∧ a2 < n)%nat as (? & ? & ? & ?) by (rewrite Hdom in Hlt; split_and!; apply Hlt; set_solver).
  assert (a1 ≠ o ∧ a1 ≠ sp ∧ a2 ≠ o ∧ a2 ≠ sp) as (? & ? & ? & ?) by (split_and!; by intros ->).
  assert (HD : ∀ x, x ∈ D → (x < n)%nat ∧ x ≠ o ∧ x ≠ sp) by (intros x Hx; split_and!; [apply Hlt; rewrite Hdom; set_solver|by intros ->|by intros ->]).
  rewrite (clone_run a1 s p1) by done. fold n. cbn [mbind res_bind]. destruct c2 as [p2|]; cbn [fmap option_fmap option_map].
  - destruct (tv_pic2 _ _ _ _ _ _ _ _ Hi p2 eq_refl) as [Hp2 Hh2].
    rewrite (clone_run a2 _ p2) by (by look). cbn [mbind res_bind st_next st_pics deref].
    rewrite (split_run (S n) sp _ p2 r); [|by look|by look|congruence]. cbn [mbind res_bind st_next st_pics].
    rewrite (copy_image_run n o _ p1 q); [|by look|by look|congruence]. cbn [mbind res_bind st_next st_pics].
    rewrite (copy_mask_run (S n) o sp _ p2 p1 (cv_first p2)); [|by look|by look|by look|congruence|rewrite head_first, Hh2, Hh1; done|congruence]. cbn [mbind res_bind st_next st_pics].
    rewrite (release_run n _ p1) by (by look). cbn [mbind res_bind st_next st_pics]. rewrite (release_run (S n) _ p2) by (by look). cbn [mbind res_bind st_next st_pics].
    eexists (Some o), _. split; [done|]. split; [|cbn; unfold load_pic; by look].
    eapply (two_inv_store h D a1 a2 m s _ _ _ o sp (overlay p1 p2) (cv_first p2)); try done; cbn [st_pics st_next].
    + rewrite !dom_delete_L, !dom_insert_L. apply set_eq. intros x. split; [|intros Hx; pose proof (Hlt x Hx); set_solver by lia].
      rewrite !elem_of_difference, !elem_of_union, !elem_of_singleton. intros [[Hx ?] ?]. rewrite Hdom. set_solver.
    + lia.
    + by look.
    + unfold overlay. by rewrite head_masked, Hh1.
    + by look.
    + by rewrite head_first, Hh2.
    + intros x Hx. destruct (HD x Hx) as (? & ? & ?). by look.
  - rewrite (copy_image_run n o _ p1 q); [|by look|by look|congruence]. cbn [mbind res_bind st_next st_pics].
    rewrite (release_run n _ p1) by (by look). cbn [mbind res_bind st_next st_pics].
    eexists (Some o), _. split; [done|]. split; [|cbn; unfold load_pic; by look].
    eapply (two_inv_store h D a1 a2 m s _ _ _ o sp p1 r); try done; cbn [st_pics st_next].
    + rewrite !dom_delete_L, !dom_insert_L. apply set_eq. intros x. split; [|intros Hx; pose proof (Hlt x Hx); set_solver by lia].
      rewrite !elem_of_difference, !elem_of_union, !elem_of_singleton. intros [Hx ?]. rewrite Hdom. set_solver.
    + lia.
    + by look.
    + by look.
    + intros x Hx. destruct (HD x Hx) as (? & ? & ?). by look.
Qed.

Lemma binary_mask_update_run h D a1 a2 m s c1 p2 :
  two_inv h D a1 a2 m s c1 (Some p2) → a1 ∈ D → a2 ∈ D → a1 ≠ a2 →
  ti_output_buffer m ≠ None → updated h D a1 a2 m c1 (Some p2) (masked c1 (Some p2)) (binary_mask_update (two_need false m) s).
Proof.
  intros Hi Ha1 Ha2 Hne Hbuf. destruct (ti_output_buffer m) as [o|] eqn:Eo; [|done]. pose proof (tv_buffers _ _ _ _ _ _ _ _ Hi) as Hb. rewrite Eo in Hb.
  destruct Hb as (sp & q & r & Esp & Hq & Hhq & Hr & Hhr & Hos & HoD & HsD & Hdom). unfold binary_mask_update. cbn [two_need ti_first ti_second ti_output_buffer].
  rewrite (tv_first _ _ _ _ _ _ _ _ Hi), (tv_second _ _ _ _ _ _ _ _ Hi), Eo. destruct c1 as [p1|]; cbn [fmap option_fmap option_map].
  2: { exists None, s. split; [done|]. split; [|done]. by eapply two_inv_store. }
  destruct (tv_pic1 _ _ _ _ _ _ _ _ Hi p1 eq_refl) as [Hp1 Hh1]. destruct (tv_pic2 _ _ _ _ _ _ _ _ Hi p2 eq_refl) as [Hp2 Hh2].
  pose proof (tv_fresh _ _ _ _ _ _ _ _ Hi) as Hf. set (n := st_next s).
  assert (Hlt : ∀ x, x ∈ dom (st_pics s) → (x < n)%nat) by (intros x Hx; by apply Hf, elem_of_dom).
  assert (o < n ∧ sp < n ∧ a1 < n ∧ a2 < n)%nat as (? & ? & ? & ?) by (rewrite Hdom in Hlt; split_and!; apply Hlt; set_solver).
  assert (HD : ∀ x, x ∈ D → (x < n)%nat ∧ x ≠ o ∧ x ≠ sp) by (intros x Hx; split_and!; [apply Hlt; rewrite Hdom; set_solver|by intros ->|by intros ->]).
  rewrite (clone_run a1 s p1) by done. fold n. cbn [mbind res_bind]. rewrite (clone_run a2 _ p2) by (by look). cbn [mbind res_bind st_next st_pics].
  rewrite (and_run n (S n) o _ p1 p2 q); [|by look|by look|by look|congruence|congruence]. cbn [mbind res_bind st_next st_pics].
  rewrite (release_run n _ p1) by (by look). cbn [mbind res_bind st_next st_pics]. rewrite (release_run (S n) _ p2) by (by look). cbn [mbind res_bind st_next st_pics].
  eexists (Some o), _. split; [done|]. split; [|cbn; unfold load_pic; by look].
  eapply (two_inv_store h D a1 a2 m s _ _ _ o sp (cv_and p1 p2) r); try done; cbn [st_pics st_next].
  - rewrite !dom_delete_L, !dom_insert_L. apply set_eq. intros x. split; [|intros Hx; pose proof (Hlt x Hx); set_solver by lia].
    rewrite !elem_of_difference, !elem_of_union, !elem_of_singleton. intros [[Hx ?] ?]. rewrite Hdom. set_solver.
  - lia.
  - by look.
  - by rewrite head_and.
  - by look.
  - intros x Hx. destruct (HD x Hx) as (? & ? & ?). by look.
Qed.

Lemma two_run_refines (f : option canvas → option canvas → option canvas) (Q : option canvas → Prop) upd h D a1 a2 :
  (∀ m s c1 c2, two_inv h D a1 a2 m s c1 c2 → Q c2 → ti_output_buffer m ≠ None → updated h D a1 a2 m c1 c2 (f c1 c2) (upd (two_need false m) s)) →
  (∀ p, Q (Some p)) → a1 ∈ D → a2 ∈ D → a1 ≠ a2 →
  ∀ es m s c1 c2, two_inv h D a1 a2 m s c1 c2 → Q c2 → (∀ b p, Push b p ∈ es → head p = h) →
  ∃ m' s' c1' c2', two_run upd a1 a2 es m s = Ok (m', s', reference f es c1 c2 (ti_need_update m)) ∧ two_inv h D a1 a2 m' s' c1' c2'.
Proof.
  intros Hupd HQ Ha1 Ha2 Hne. induction es as [|e es IH]; intros m s c1 c2 Hi Hq Hes; cbn [two_run reference]; [by eexists _, _, c1, c2|].
  assert (Hrest : ∀ b p, Push b p ∈ es → head p = h) by (intros b p Hin; apply (Hes b); by right).
  destruct e as [second p|].
  - assert (Hp : head p = h) by (apply (Hes second); by left).
    destruct (two_push h D a1 a2 m s c1 c2 second p Hi Ha1 Ha2 Hne Hp (head_blank h) upd) as (m1 & s1 & -> & Hi1 & Hn1). cbn [mbind res_bind].
    destruct (IH m1 s1 _ _ Hi1) as (m2 & s2 & d1 & d2 & -> & Hi2); [destruct second; [apply HQ|done]|done|]. cbn [mbind res_bind app].
    rewrite Hn1. destruct second; by eexists _, _, d1, d2.
  - cbn [two_event_step]. destruct (ti_need_update m) eqn:En.
    + assert (Hbuf : ti_output_buffer m ≠ None).
      { intros Hno. pose proof (tv_buffers _ _ _ _ _ _ _ _ Hi) as Hb. rewrite Hno in Hb. destruct Hb as (-> & -> & _). by destruct (tv_need _ _ _ _ _ _ _ _ Hi En) as [[? ?]|[? ?]]. }
      destruct (Hupd m s c1 c2 Hi Hq Hbuf) as (o & s1 & -> & Hi1 & Ho). cbn [mbind res_bind].
      destruct (IH (two_need false m) s1 c1 c2 Hi1 Hq Hrest) as (m2 & s2 & d1 & d2 & E & Hi2). change (ti_need_update (two_need false m)) with false in E.
      destruct o as [out|], (f c1 c2) as [p|]; cbn in Ho; try done; [injection Ho as Ho; rewrite Ho|]; cbn [mbind res_bind]; rewrite E; cbn [mbind res_bind]; by eexists _, _, d1, d2.
    + cbn [mbind res_bind]. destruct (IH m s c1 c2 Hi Hq Hrest) as (m2 & s2 & d1 & d2 & E & Hi2). rewrite En in E. rewrite E. cbn [mbind res_bind app]. by eexists _, _, d1, d2.
Qed.

(** The two producers and their buffers, before anything is pushed. *)
Definition producers (a1 a2 : nat) (s : store) : Prop :=
  a1 ≠ a2 ∧ fresh s ∧ is_Some (st_pics s !! a1) ∧ is_Some (st_pics s !! a2).
Lemma two_new_inv h a1 a2 s : producers a1 a2 s → two_inv h (dom (st_pics s)) a1 a2 two_new s None None.
Proof. intros (Hne & Hf & H1 & H2). by split. Qed.

(** moCombineModule shows its second image over the first.  Whatever
    frames of one size arrive on the two inputs and however the module is polled
    in between, it never hands OpenCV images that do not fit, the images pushed
    are, one for each poll after a frame, the last frame of the first input with
    the last frame of the second over it, and no memory is lost: besides the
    images of the producers only the two buffers of the module are left. *)
Theorem combine_overlays (h : IplImage) (a1 a2 : nat) (s : store) (es : list two_event) :
  producers a1 a2 s → img_depth h = 8 → (∀ b p, Push b p ∈ es → head p = h) →
  (∃ m' s', two_run combine_update a1 a2 es two_new s = Ok (m', s', reference combined es None None false)
     ∧ (size (st_pics s') ≤ size (st_pics s) + 2)%nat)
  ∧ ∀ p1 p2 x y, pixel (overlay p1 p2) x y = if decide (take 1 (pixel p2 x y) = [0]) then pixel p1 x y else pixel p2 x y.
Proof.
  intros Hpr Hd Hes. pose proof Hpr as (Hne & _ & H1 & H2). apply elem_of_dom in H1, H2. split.
  - destruct (two_run_refines combined (λ _, True) combine_update h (dom (st_pics s)) a1 a2) with (es := es) (m := two_new) (s := s) (c1 := @None canvas) (c2 := @None canvas)
      as (m' & s' & c1 & c2 & E & Hi); try done.
    + intros m t d1 d2 Hi _ Hbuf. by apply combine_update_run.
    + by apply two_new_inv.
    + exists m', s'. split; [done|]. pose proof (tv_buffers _ _ _ _ _ _ _ _ Hi) as Hb. rewrite <-!size_dom. destruct (ti_output_buffer m') as [o|].
      * destruct Hb as (sp & _ & _ & _ & _ & _ & _ & _ & _ & _ & _ & ->). rewrite !size_union_alt. 
        assert (size ({[o; sp]} ∖ dom (st_pics s)) ≤ size ({[o; sp]} : gset nat))%nat by (apply subseteq_size; set_solver).
        assert (size ({[o; sp]} : gset nat) ≤ 2)%nat; [|lia]. rewrite size_union_alt, size_singleton.
        assert (size ({[sp]} ∖ {[o]} : gset nat) ≤ size ({[sp]} : gset nat))%nat by (apply subseteq_size; set_solver). rewrite size_singleton in *. lia.
      * destruct Hb as (_ & _ & ->). lia.
  - intros p1 p2 x y. unfold overlay. by rewrite pixel_masked, pixel_first.
Qed.
End Store.

(** ** Masks *)

Section Masks.
Context {O : Opencv} {L : OpencvLaws O}.

(** moBinaryMaskModule keeps the pixels of the first image where the mask is
    white, in all its bits, and makes them black where it is black.  Once a mask
    has arrived, this is what is pushed, through any frames of one size. *)
Theorem binary_mask_correct (h : IplImage) (a1 a2 : nat) (s : store) (mask : canvas) (es : list two_event) :
  producers a1 a2 s → head mask = h → (∀ b p, Push b p ∈ es → head p = h) →
  (∃ m' s', two_run binary_mask_update a1 a2 (Push true mask :: es) two_new s = Ok (m', s', reference masked es None (Some mask) true))
  ∧ ∀ p1 p2 x y, Forall (λ c, 0 <= c < 256) (pixel p1 x y) → length (pixel p2 x y) = length (pixel p1 x y) →
      (Forall (λ c, c = 255) (pixel p2 x y) → pixel (cv_and p1 p2) x y = pixel p1 x y)
      ∧ (Forall (λ c, c = 0) (pixel p2 x y) → Forall (λ c, c = 0) (pixel (cv_and p1 p2) x y)).
Proof.
  intros Hpr Hm Hes. pose proof Hpr as (Hne & _ & H1 & H2). apply elem_of_dom in H1, H2. split.
  - destruct (two_push h (dom (st_pics s)) a1 a2 two_new s None None true mask (two_new_inv h a1 a2 s Hpr) H1 H2 Hne Hm (head_blank h) binary_mask_update)
      as (m1 & s1 & E1 & Hi1 & Hn1). cbn [two_run]. rewrite E1. cbn [mbind res_bind].
    destruct (two_run_refines masked is_Some binary_mask_update h (dom (st_pics s)) a1 a2) with (es := es) (m := m1) (s := s1) (c1 := @None canvas) (c2 := Some mask)
      as (m' & s' & c1 & c2 & -> & _); try done.
    + intros m t d1 d2 Hi [p2 ->] Hbuf. by apply binary_mask_update_run.
    + rewrite Hn1. cbn [mbind res_bind app]. by exists m', s'.
  - intros p1 p2 x y Hc Hl. rewrite pixel_and. revert Hc Hl. generalize (pixel p1 x y) as l1, (pixel p2 x y) as l2.
    induction l1 as [|c l1 IH]; intros [|d l2] Hc Hl; try done. apply Forall_cons in Hc as [Hc0 Hc]. injection Hl as Hl. cbn. destruct (IH l2 Hc Hl) as [IH1 IH2]. split.
    + intros [-> Hd]%Forall_cons. rewrite IH1 by done. f_equal. change 255 with (Z.ones 8). rewrite Z.land_ones by lia. apply Z.mod_small. lia.
    + intros [-> Hd]%Forall_cons. constructor; [apply Z.land_0_r|auto].
Qed.

(** *** moMaskModule *)

(** [cvLoadImage]: the picture in a file, if it can be read. *)
Context (cvLoadImage : string → option canvas).
Record mask_module := { mk_mask_buffer : option nat; mk_save_data : bool; mk_error : string; mk_need_update : bool }.
Definition new_mask : mask_module := {| mk_mask_buffer := None; mk_save_data := false; mk_error := EmptyString; mk_need_update := false |}.
Definition reloadMask (filename : string) (m : mask_module) (s : store) : res (mask_module * store) :=
  s ← cvReleaseImage (mk_mask_buffer m) s;
  match cvLoadImage filename with
  | None => Ok ({| mk_mask_buffer := None; mk_save_data := mk_save_data m; mk_error := "unable to load mask file"; mk_need_update := mk_need_update m |}, s)
  | Some p =>
      let '(a, s) := new_pic p s in
      Ok ({| mk_mask_buffer := Some a; mk_save_data := mk_save_data m; mk_error := mk_error m; mk_need_update := true |}, s)
  end.
Definition saveas_cb (m : mask_module) : mask_module :=
  {| mk_mask_buffer := mk_mask_buffer m; mk_save_data := true; mk_error := mk_error m; mk_need_update := mk_need_update m |}.
(** [applyFilter] on the clone at [src]: the picture that is saved, if any. *)
Definition mask_applyFilter (src : option nat) (out : option nat) (m : mask_module) (s : store) : res (option canvas * mask_module * store) :=
  out ← (match out with Some o => Ok o | None => Fault FAssert end);
  match src with
  | None => Ok (None, m, s)
  | Some src =>
      saved ← (if mk_save_data m then p ← load_pic src s; Ok (Some p) else Ok None);
      let m := {| mk_mask_buffer := mk_mask_buffer m; mk_save_data := false; mk_error := mk_error m; mk_need_update := mk_need_update m |} in
      s ← match mk_mask_buffer m with Some a => cvAnd src a out s | None => cvCopy src out s end;
      Ok (saved, m, s)
  end.

(** Whatever file names are tried, one after the other, the module holds the
    picture of the last one, or none when it cannot be read; the earlier ones are
    released. *)
Fixpoint reload_all (names : list string) (m : mask_module) (s : store) : res (mask_module * store) :=
  match names with
  | [] => Ok (m, s)
  | f :: names => '(m, s) ← reloadMask f m s; reload_all names m s
  end.
Definition mask_holds (D : gset nat) (m : mask_module) (s : store) (p : option canvas) : Prop :=
  fresh s ∧ match mk_mask_buffer m with
            | None => p = None ∧ dom (st_pics s) = D
            | Some a => (a ∉ D) ∧ st_pics s !! a = p ∧ is_Some p ∧ dom (st_pics s) = D ∪ {[a]}
            end.
Lemma mask_reload_holds D f m s p :
  mask_holds D m s p → ∃ m' s', reloadMask f m s = Ok (m', s') ∧ mask_holds D m' s' (cvLoadImage f)
    ∧ (cvLoadImage f = None → mk_error m' = "unable to load mask file").
Proof.
  intros [Hf Hb]. unfold reloadMask.
  assert (∃ s1, cvReleaseImage (mk_mask_buffer m) s = Ok s1 ∧ dom (st_pics s1) = D ∧ fresh s1) as (s1 & -> & Hd & Hf1).
  { destruct (mk_mask_buffer m) as [a|]; [|exists s; by destruct Hb as [_ Hd]]. destruct Hb as (Ha & Hp & [q ->] & Hd).
    rewrite (release_run a s q) by done. eexists. split; [done|]. cbn. split; [rewrite dom_delete_L, Hd; set_solver|].
    intros x Hx. cbn in Hx |- *. apply Hf. destruct (decide (a = x)) as [<-|]; [rewrite lookup_delete_eq in Hx; by destruct Hx|by rewrite lookup_delete_ne in Hx]. }
  cbn [mbind res_bind]. destruct (cvLoadImage f) as [q|]; cbn [new_pic]; (eexists _, _; split; [done|]; split; [|done]); split; cbn.
  - intros x Hx. cbn in Hx |- *. destruct (decide (st_next s1 = x)) as [<-|]; [lia|]. rewrite lookup_insert_ne in Hx by done. pose proof (Hf1 x Hx). lia.
  - assert (Hn : st_next s1 ∉ D) by (rewrite <-Hd; intros Hx%elem_of_dom%Hf1; lia). split; [done|]. rewrite lookup_insert_eq, dom_insert_L, Hd. split_and!; [done|by eexists|set_solver].
  - done.
  - done.
Qed.
Theorem mask_reloads (names : list string) (f : string) (s : store) :
  fresh s → ∃ m s', reload_all (names ++ [f]) new_mask s = Ok (m, s') ∧ mask_holds (dom (st_pics s)) m s' (cvLoadImage f).
Proof.
  intros Hf. assert (Hstart : mask_holds (dom (st_pics s)) new_mask s None) by (by split).
  revert Hstart. generalize (dom (st_pics s)) as D. intros D. generalize new_mask as m, (@None canvas) as p. clear Hf. revert s.
  induction names as [|n names IH]; intros s m p Hh; cbn [app reload_all].
  - destruct (mask_reload_holds D f m s p Hh) as (m' & s' & -> & Hh' & _). by exists m', s'.
  - destruct (mask_reload_holds D n m s p Hh) as (m' & s' & -> & Hh' & _). cbn [mbind res_bind]. by eapply IH.
Qed.
End Masks.

(** ** Sources and the display *)

Section Sources.
Context {O : Opencv}.
Context (cvLoadImage : string → option canvas).

(** *** moImageModule *)

(** [im_data] is what the stream of the module points to. *)
Record image_module := {
  im_image : option nat; im_data : option nat; im_filename : string; im_is_started : bool; im_need_update : bool; im_error : string;
}.
Definition new_image : image_module :=
  {| im_image := None; im_data := None; im_filename := EmptyString; im_is_started := false; im_need_update := false; im_error := EmptyString |}.
Definition im_set_image (i : option nat) (m : image_module) : image_module :=
  {| im_image := i; im_data := im_data m; im_filename := im_filename m; im_is_started := im_is_started m; im_need_update := im_need_update m; im_error := im_error m |}.
Definition im_set_flags (st nd : bool) (m : image_module) : image_module :=
  {| im_image := im_image m; im_data := im_data m; im_filename := im_filename m; im_is_started := st; im_need_update := nd; im_error := im_error m |}.
Definition im_set_error (e : string) (m : image_module) : image_module :=
  {| im_image := im_image m; im_data := im_data m; im_filename := im_filename m; im_is_started := im_is_started m; im_need_update := im_need_update m; im_error := e |}.

Definition image_stop (m : image_module) (s : store) : res (image_module * store) :=
  let m := im_set_flags false false m in
  s ← cvReleaseImage (im_image m) s;
  Ok (im_set_image None m, s).
(** Releasing and loading, up to the call of [notifyUpdate]: whether it is
    called. *)
Definition reload_load (m : image_module) (s : store) : res (bool * image_module * store) :=
  s ← cvReleaseImage (im_image m) s;
  match cvLoadImage (im_filename m) with
  | None => Ok (false, im_set_error "unable to load image" (im_set_image None m), s)
  | Some p => let '(a, s) := new_pic p s in Ok (true, im_set_image (Some a) m, s)
  end.
(** [start]: the module is started when [reloadImage] calls [notifyUpdate]. *)
Definition image_start (m : image_module) (s : store) : res (image_module * store) :=
  '(m, s) ← match im_image m with Some _ => image_stop m s | None => Ok (m, s) end;
  let m := im_set_flags true (im_need_update m) m in
  '(ok, m, s) ← reload_load m s;
  Ok (if ok : bool then im_set_flags true true m else m, s).
(** [reloadImage], called when the file name was changed: [notifyUpdate] starts a
    module that is not started. *)
Definition reloadImage (m : image_module) (s : store) : res (image_module * store) :=
  '(ok, m, s) ← reload_load m s;
  if ok : bool then
    '(m, s) ← (if im_is_started m then Ok (m, s) else image_start m s);
    Ok (im_set_flags (im_is_started m) true m, s)
  else Ok (m, s).
Definition image_update (m : image_module) : image_module :=
  match im_image m with
  | None => m
  | Some a => {| im_image := im_image m; im_data := Some a; im_filename := im_filename m; im_is_started := im_is_started m; im_need_update := im_need_update m; im_error := im_error m |}
  end.

Inductive image_event := SetFile (f : string) | StartImage | StopImage | PollImage.
Definition image_step (e : image_event) (m : image_module) (s : store) : res (image_module * store) :=
  match e with
  | SetFile f =>
      reloadImage {| im_image := im_image m; im_data := im_data m; im_filename := f; im_is_started := im_is_started m; im_need_update := im_need_update m; im_error := im_error m |} s
  | StartImage => image_start m s
  | StopImage => image_stop m s
  | PollImage => Ok (if im_need_update m then image_update (im_set_flags (im_is_started m) false m) else m, s)
  end.
Fixpoint image_steps (es : list image_event) (m : image_module) (s : store) : res (image_module * store) :=
  match es with
  | [] => Ok (m, s)
  | e :: es => '(m, s) ← image_step e m s; image_steps es m s
  end.

(** What the module holds: nothing, or one image of its own. *)
Definition image_holds (D : gset nat) (m : image_module) (s : store) : Prop :=
  fresh s ∧ match im_image m with
            | None => dom (st_pics s) = D
            | Some a => (a ∉ D) ∧ dom (st_pics s) = D ∪ {[a]}
            end.
Lemma image_release D m s :
  image_holds D m s → ∃ s', cvReleaseImage (im_image m) s = Ok s' ∧ fresh s' ∧ dom (st_pics s') = D.
Proof.
  intros [Hf Hb]. destruct (im_image m) as [a|]; [|by exists s]. destruct Hb as [Ha Hd].
  assert (is_Some (st_pics s !! a)) as [q Hq] by (apply elem_of_dom; rewrite Hd; set_solver).
  rewrite (release_run a s q) by done. eexists. split; [done|]. split; [|cbn; rewrite dom_delete_L, Hd; set_solver].
  intros x Hx. cbn in Hx |- *. apply Hf. destruct (decide (a = x)) as [<-|]; [rewrite lookup_delete_eq in Hx; by destruct Hx|by rewrite lookup_delete_ne in Hx].
Qed.
Lemma image_stop_holds D m s : image_holds D m s → ∃ m' s', image_stop m s = Ok (m', s') ∧ image_holds D m' s' ∧ im_image m' = None.
Proof.
  intros Hh. unfold image_stop. destruct (image_release D m s Hh) as (s1 & E & Hf & Hd). change (im_image (im_set_flags false false m)) with (im_image m). rewrite E.
  cbn [mbind res_bind]. eexists _, _. split; [done|]. split; [by split|done].
Qed.
Lemma reload_holds D m s : image_holds D m s → ∃ ok m' s', reload_load m s = Ok (ok, m', s') ∧ image_holds D m' s' ∧ im_is_started m' = im_is_started m.
Proof.
  intros Hh. unfold reload_load. destruct (image_release D m s Hh) as (s1 & -> & Hf & Hd). cbn [mbind res_bind].
  destruct (cvLoadImage (im_filename m)) as [p|]; cbn [new_pic]; eexists _, _, _; (split; [done|]; split; [|done]); [|by split]. split; cbn.
  - intros x Hx. cbn in Hx |- *. destruct (decide (st_next s1 = x)) as [<-|]; [lia|]. rewrite lookup_insert_ne in Hx by done. pose proof (Hf x Hx). lia.
  - assert (Hn : st_next s1 ∉ D) by (rewrite <-Hd; intros Hx%elem_of_dom%Hf; lia). split; [done|]. rewrite dom_insert_L, Hd. set_solver.
Qed.
Lemma image_start_holds D m s : image_holds D m s → ∃ m' s', image_start m s = Ok (m', s') ∧ image_holds D m' s'.
Proof.
  intros Hh. unfold image_start.
  assert (∃ m1 s1, match im_image m with Some _ => image_stop m s | None => Ok (m, s) end = Ok (m1, s1) ∧ image_holds D m1 s1) as (m1 & s1 & -> & Hh1).
  { destruct (im_image m) eqn:E; [|by exists m, s]. destruct (image_stop_holds D m s Hh) as (m1 & s1 & -> & Hh1 & _). by exists m1, s1. }
  cbn [mbind res_bind]. destruct (reload_holds D (im_set_flags true (im_need_update m1) m1) s1 Hh1) as (ok & m2 & s2 & -> & Hh2 & _). cbn [mbind res_bind].
  destruct ok; by eexists _, _.
Qed.

(** The module never releases an image twice and never loses one: whatever the
    sequence of starts, stops, polls and changes of the file, it returns, and
    holds at most one image besides those that were there before. *)
Theorem image_memory (es : list image_event) (s : store) :
  fresh s → ∃ m' s', image_steps es new_image s = Ok (m', s') ∧ image_holds (dom (st_pics s)) m' s'.
Proof.
  intros Hf. assert (Hh : image_holds (dom (st_pics s)) new_image s) by (by split). revert Hh.
  generalize (dom (st_pics s)) as D. intros D. clear Hf. generalize new_image as m. revert s.
  induction es as [|e es IH]; intros s m Hh; cbn [image_steps]; [by exists m, s|].
  assert (∃ m1 s1, image_step e m s = Ok (m1, s1) ∧ image_holds D m1 s1) as (m1 & s1 & -> & Hh1); [|cbn [mbind res_bind]; by apply IH].
  destruct e as [f| | |]; cbn [image_step].
  - unfold reloadImage. match goal with |- context [reload_load ?m0 s] => destruct (reload_holds D m0 s Hh) as (ok & m1 & s1 & -> & Hh1 & _) end. cbn [mbind res_bind].
    destruct ok; [|by exists m1, s1]. destruct (im_is_started m1); [cbn [mbind res_bind]; by eexists _, _|].
    destruct (image_start_holds D m1 s1 Hh1) as (m2 & s2 & -> & Hh2). cbn [mbind res_bind]. by eexists _, _.
  - by apply image_start_holds.
  - destruct (image_stop_holds D m s Hh) as (m1 & s1 & -> & Hh1 & _). by exists m1, s1.
  - destruct (im_need_update m); [|by exists m, s]. eexists _, s. split; [done|]. destruct Hh as [Hf Hh]. split; [done|].
    unfold image_update. cbn [im_set_flags im_image]. destruct (im_image m) eqn:E; cbn; by rewrite ?E.
Qed.

(** But its stream keeps pointing to an image that was released: after a stop,
    or while a new file waits for the next poll, a module that reads the stream
    reads freed memory. *)
Definition read_stream (m : image_module) (s : store) : res (option canvas) :=
  match im_data m with None => Ok None | Some a => p ← load_pic a s; Ok (Some p) end.
Theorem image_stream_dangles (f : string) (p : canvas) (s : store) :
  fresh s → cvLoadImage f = Some p →
  ∃ m1 s1 m2 s2, image_steps [SetFile f; StartImage; PollImage] new_image s = Ok (m1, s1) ∧ read_stream m1 s1 = Ok (Some p)
    ∧ image_step StopImage m1 s1 = Ok (m2, s2) ∧ read_stream m2 s2 = Fault FBadAccess.
Proof.
  intros Hf Hp. set (n := st_next s).
  assert (Hs : ∀ x q, st_pics s !! x = Some q → (x < n)%nat) by (intros x q Hx; apply Hf; by eexists).
  assert (Hrun : image_steps [SetFile f; StartImage; PollImage] new_image s
    = Ok ({| im_image := Some (S (S n)); im_data := Some (S (S n)); im_filename := f; im_is_started := true; im_need_update := false; im_error := EmptyString |},
          {| st_pics := <[S (S n) := p]> (delete (S n) (<[S n := p]> (delete n (<[n := p]> (st_pics s))))); st_next := S (S (S n)) |})).
  { cbn [image_steps image_step]. unfold reloadImage, reload_load. cbn. rewrite Hp. cbn. fold n. unfold image_start, image_stop. cbn. rewrite (load_run n _ p) by apply lookup_insert_eq. cbn.
    unfold reload_load. cbn. rewrite Hp. cbn. rewrite (load_run (S n) _ p) by apply lookup_insert_eq. cbn. rewrite Hp. cbn. done. }
  eexists _, _, _, _. split; [exact Hrun|]. split; [unfold read_stream; cbn; by rewrite (load_run _ _ p) by apply lookup_insert_eq|].
  cbn [image_step]. unfold image_stop. cbn [im_set_flags im_image]. rewrite (release_run _ _ p) by apply lookup_insert_eq. cbn [mbind res_bind]. split; [done|].
  unfold read_stream, load_pic. cbn. by rewrite lookup_delete_eq.
Qed.
End Sources.

(** *** moCameraModule *)

(** [cvCaptureFromCAM] opens a device; [cvQueryFrame] gives the next image. *)
Record camera_module := { ca_camera : option Z; ca_index : Z; ca_is_started : bool; ca_need_update : bool; ca_error : string }.
Definition ca_set (c : option Z) (st nd : bool) (e : string) (m : camera_module) : camera_module :=
  {| ca_camera := c; ca_index := ca_index m; ca_is_started := st; ca_need_update := nd; ca_error := e |}.
Section Camera.
Context (cvCaptureFromCAM : Z → bool).
Definition camera_start (m : camera_module) : res camera_module :=
  match ca_camera m with
  | Some _ => Fault FAssert
  | None =>
      if cvCaptureFromCAM (ca_index m) then Ok (ca_set (Some (ca_index m)) true (ca_need_update m) (ca_error m) m)
      else Ok (ca_set None true (ca_need_update m) "Unable to open camera" m)
  end.
Definition camera_stop (m : camera_module) : camera_module := ca_set None false false (ca_error m) m.
Definition camera_notifyUpdate (m : camera_module) : res camera_module :=
  m ← (if ca_is_started m then Ok m else camera_start m);
  Ok (ca_set (ca_camera m) (ca_is_started m) true (ca_error m) m).
(** The image goes to the stream of its number of channels: [true] for one. *)
Definition camera_update (frame : option IplImage) (m : camera_module) : res (camera_module * list (bool * IplImage)) :=
  match ca_camera m, frame with
  | Some _, Some img =>
      pushed ← (if img_nChannels img =? 3 then Ok (false, img) else if img_nChannels img =? 1 then Ok (true, img) else Fault FAssert);
      m ← camera_notifyUpdate m;
      Ok (m, [pushed])
  | _, _ => Ok (m, [])
  end.
(** [poll], with the image the device gives when it is asked. *)
Definition camera_poll (frame : option IplImage) (m : camera_module) : res (camera_module * list (bool * IplImage)) :=
  m ← camera_notifyUpdate m;
  if ca_need_update m then camera_update frame (ca_set (ca_camera m) (ca_is_started m) false (ca_error m) m) else Ok (m, []).

Definition new_camera (index : Z) : camera_module :=
  {| ca_camera := None; ca_index := index; ca_is_started := false; ca_need_update := false; ca_error := EmptyString |}.
Fixpoint camera_polls (frames : list (option IplImage)) (m : camera_module) : res (camera_module * list (bool * IplImage)) :=
  match frames with
  | [] => Ok (m, [])
  | f :: frames => '(m, out) ← camera_poll f m; '(m, rest) ← camera_polls frames m; Ok (m, out ++ rest)
  end.

(** A camera that opens pushes every image it gives, in order, each on the output
    of its format; one that does not open pushes none and reports the error. *)
Theorem camera_pushes_frames (index : Z) (frames : list (option IplImage)) :
  Forall (λ f, ∀ img, f = Some img → img_nChannels img = 1 ∨ img_nChannels img = 3) frames → frames ≠ [] →
  ∃ m, camera_polls frames (new_camera index)
    = Ok (m, if cvCaptureFromCAM index then (λ img, (img_nChannels img =? 1, img)) <$> omap id frames else [])
  ∧ (cvCaptureFromCAM index = false → ca_error m = "Unable to open camera").
Proof.
  intros Hall Hne.
  assert (Hstarted : ∀ m, ca_is_started m = true → ∃ m', camera_polls frames m
      = Ok (m', if bool_decide (is_Some (ca_camera m)) then (λ img, (img_nChannels img =? 1, img)) <$> omap id frames else []) ∧ ca_error m' = ca_error m).
  { clear Hne. induction Hall as [|f frames Hf _ IH]; intros m Hs; cbn [camera_polls]; [exists m; by destruct (ca_camera m)|].
    unfold camera_poll, camera_notifyUpdate. rewrite Hs. cbn [mbind res_bind ca_set ca_need_update ca_camera ca_is_started ca_error]. unfold camera_update. cbn [ca_set ca_camera].
    destruct (ca_camera m) as [c|] eqn:Ec.
    - destruct f as [img|]; cbn [mbind res_bind omap list_omap id].
      + assert (Hp : (if img_nChannels img =? 3 then Ok (false, img) else if img_nChannels img =? 1 then Ok (true, img) else Fault FAssert) = Ok (img_nChannels img =? 1, img)).
        { destruct (Hf img eq_refl) as [-> | ->]; done. }
        rewrite Hp. cbn [mbind res_bind]. unfold camera_notifyUpdate. cbn [ca_set ca_is_started mbind res_bind ca_camera ca_error]. rewrite ?Hs. cbn [ca_set ca_is_started mbind res_bind ca_camera ca_error].
        match goal with |- context [camera_polls frames ?m1] => destruct (IH m1) as (m' & -> & He); [cbn; by rewrite ?Hs|] end. cbn [mbind res_bind app fmap list_fmap ca_camera]. exists m'. by rewrite He.
      + match goal with |- context [camera_polls frames ?m1] => destruct (IH m1) as (m' & -> & He); [cbn; by rewrite ?Hs|] end. cbn [mbind res_bind app ca_camera]. exists m'. by rewrite He.
    - cbn [mbind res_bind]. match goal with |- context [camera_polls frames ?m1] => destruct (IH m1) as (m' & -> & He); [cbn; by rewrite ?Hs|] end. cbn [mbind res_bind app ca_camera]. exists m'. by rewrite He. }
  destruct frames as [|f frames]; [done|]. set (m0 := ca_set (if cvCaptureFromCAM index then Some index else None) true false (if cvCaptureFromCAM index then EmptyString else "Unable to open camera") (new_camera index)).
  assert (Hfirst : camera_polls (f :: frames) (new_camera index) = camera_polls (f :: frames) m0).
  { cbn [camera_polls]. unfold camera_poll, camera_notifyUpdate, camera_start, m0. cbn. by destruct (cvCaptureFromCAM index). }
  destruct (Hstarted m0 eq_refl) as (m & E & He). rewrite Hfirst, E. exists m. unfold m0 in *. cbn in *. destruct (cvCaptureFromCAM index); by rewrite ?He.
Qed.

(** Starting a camera that runs stops the program: [start] asserts that no camera
    is open, and moPipeline::start starts every module, running or not. *)
Theorem camera_restart_aborts (index : Z) :
  cvCaptureFromCAM index = true → ∃ m, camera_start (new_camera index) = Ok m ∧ camera_start m = Fault FAssert.
Proof. intros H. unfold camera_start. cbn. rewrite H. by eexists. Qed.
End Camera.

(** *** moImageDisplayModule *)

Section Display.
Context {O : Opencv}.
Record display := { di_input : option (option nat); di_img : option nat; di_need_update : bool }.
Definition new_display : display := {| di_input := None; di_img := None; di_need_update := false |}.
(** [notifyData]: the stream is the input and has an image format. *)
Definition display_notifyData (d : display) (s : store) : res (display * store) :=
  data ← (match di_input d with Some data => Ok data | None => Fault FAssert end);
  s ← cvReleaseImage (di_img d) s;
  match data with
  | None => Ok ({| di_input := di_input d; di_img := None; di_need_update := true |}, s)
  | Some a => '(c, s) ← cvCloneImage a s; Ok ({| di_input := di_input d; di_img := Some c; di_need_update := true |}, s)
  end.
(** [update] locks the input, which may be null by then; the picture shown. *)
Definition display_update (d : display) (s : store) : res (option canvas) :=
  _ ← deref (di_input d);
  match di_img d with None => Ok None | Some a => p ← load_pic a s; Ok (Some p) end.
Definition display_poll (d : display) (s : store) : res (display * list (option canvas)) :=
  if di_need_update d then
    let d := {| di_input := di_input d; di_img := di_img d; di_need_update := false |} in
    p ← display_update d s; Ok (d, [p])
  else Ok (d, []).
(** [setInput(NULL)]. *)
Definition display_disconnect (d : display) : display := {| di_input := None; di_img := di_img d; di_need_update := di_need_update d |}.
Definition display_frame (a : nat) (p : canvas) (d : display) (s : store) : res (display * store) :=
  s ← write_pic a p s;
  display_notifyData {| di_input := Some (Some a); di_img := di_img d; di_need_update := di_need_update d |} s.

Fixpoint display_shows (a : nat) (ps : list canvas) (d : display) (s : store) : res (display * store * list (option canvas)) :=
  match ps with
  | [] => Ok (d, s, [])
  | p :: ps =>
      '(d, s) ← display_frame a p d s;
      '(d, out) ← display_poll d s;
      '(d, s, rest) ← display_shows a ps d s;
      Ok (d, s, out ++ rest)
  end.
(** While it is connected, the display shows every frame and keeps one image. *)
Theorem display_shows_frames (a : nat) (ps : list canvas) (s : store) :
  fresh s → is_Some (st_pics s !! a) →
  ∃ d s', display_shows a ps new_display s = Ok (d, s', Some <$> ps) ∧ (size (st_pics s') ≤ size (st_pics s) + 1)%nat.
Proof.
  intros Hf Ha.
  assert (H : ∀ d t, fresh t → is_Some (st_pics t !! a) →
    match di_img d with Some c => c ≠ a ∧ is_Some (st_pics t !! c) | None => True end →
    ∃ d' t', display_shows a ps d t = Ok (d', t', Some <$> ps) ∧ (size (st_pics t') ≤ size (st_pics t) + if bool_decide (is_Some (di_img d)) then 0 else 1)%nat).
  2: { destruct (H new_display s Hf Ha I) as (d' & t' & E & Hsz). by exists d', t'. }
  clear Hf Ha s. induction ps as [|p ps IH]; intros d t Hf [q Hq] Hd; cbn [display_shows fmap list_fmap].
  { eexists _, _. split; [done|]. lia. }
  unfold display_frame. rewrite (write_image_run a p q t) by done. cbn [mbind res_bind]. set (t1 := {| st_pics := <[a := p]> (st_pics t); st_next := st_next t |}).
  unfold display_notifyData. cbn [di_input mbind res_bind di_img].
  assert (Hf1 : fresh t1).
  { intros x Hx. cbn in Hx |- *. destruct (decide (a = x)) as [<-|]; [apply Hf; by eexists|]. rewrite lookup_insert_ne in Hx by done. by apply Hf. }
  assert (Hsz1 : size (st_pics t1) = size (st_pics t)) by (cbn; apply map_size_insert_Some; by eexists).
  assert (∃ t2, cvReleaseImage (di_img d) t1 = Ok t2 ∧ fresh t2 ∧ st_pics t2 !! a = Some p
    ∧ (size (st_pics t2) + (if bool_decide (is_Some (di_img d)) then 1 else 0) = size (st_pics t))%nat) as (t2 & -> & Hf2 & Ha2 & Hsz2).
  { destruct (di_img d) as [c|]; [|exists t1; split_and!; [done|done|apply lookup_insert_eq|rewrite bool_decide_false by (by intros [? ?]); lia]]. destruct Hd as [Hca [pc Hc]].
    rewrite (release_run c t1 pc) by (cbn; by rewrite lookup_insert_ne). eexists. split; [done|]. split_and!.
    - intros x Hx. cbn in Hx |- *. destruct (decide (c = x)) as [<-|]; [rewrite lookup_delete_eq in Hx; by destruct Hx|]. rewrite lookup_delete_ne in Hx by done. by apply Hf1.
    - cbn. rewrite lookup_delete_ne by done. apply lookup_insert_eq.
    - cbn [st_pics]. assert (Hl : st_pics t1 !! c = Some pc) by (cbn; by rewrite lookup_insert_ne).
      change (<[a:=p]> (st_pics t)) with (st_pics t1). rewrite map_size_delete, Hl. rewrite bool_decide_true by (by eexists). assert (size (st_pics t1) ≠ 0)%nat; [|lia].
      intros Hz. apply map_size_empty_iff in Hz. rewrite Hz, lookup_empty in Hl. done. }
  cbn [mbind res_bind]. rewrite (clone_run a t2 p) by done. cbn [mbind res_bind]. unfold display_poll. cbn [di_need_update]. unfold display_update. cbn [di_input di_img deref mbind res_bind].
  set (t3 := {| st_pics := <[st_next t2 := p]> (st_pics t2); st_next := S (st_next t2) |}).
  rewrite (load_run (st_next t2) t3 p) by apply lookup_insert_eq. cbn [mbind res_bind].
  assert (Hnew : st_pics t2 !! st_next t2 = None).
  { destruct (st_pics t2 !! st_next t2) eqn:E; [|done]. assert (st_next t2 < st_next t2)%nat; [apply Hf2; by eexists|lia]. }
  match goal with |- context [display_shows a ps ?d1 t3] => destruct (IH d1 t3) as (d' & t' & -> & Hsz) end.
  { intros x Hx. cbn in Hx |- *. destruct (decide (st_next t2 = x)) as [<-|]; [lia|]. rewrite lookup_insert_ne in Hx by done. pose proof (Hf2 x Hx). lia. }
  { cbn. rewrite lookup_insert_ne; [by eexists|]. intros Heq. rewrite Heq in Hnew. congruence. }
  { cbn. split; [intros Heq; rewrite Heq in Hnew; congruence|]. rewrite lookup_insert_eq. by eexists. }
  cbn [mbind res_bind app]. exists d', t'. split; [done|]. cbn [di_img] in Hsz. unfold t3 in Hsz. cbn [st_pics] in Hsz. rewrite (map_size_insert_None _ _ _ Hnew) in Hsz.
  rewrite (bool_decide_true (is_Some (Some _))) in Hsz by (by eexists). case_bool_decide; lia.
Qed.
(** A display whose input is disconnected between a frame and the poll that
    would show it follows the null pointer. *)
Theorem display_disconnected_faults (d : display) (s : store) :
  di_need_update d = true → display_poll (display_disconnect d) s = Fault FBadAccess.
Proof. intros H. unfold display_poll. cbn. by rewrite H. Qed.
End Display.

(** *** moDistanceTransformModule *)

(** The filter has two more buffers, of which only the headers count. *)
Record distance_module := { dt_filter : image_filter; dt_converted : option IplImage; dt_dist : option IplImage }.
Definition sized (src : IplImage) (depth : Z) : IplImage :=
  {| img_width := img_width src; img_height := img_height src; img_depth := depth; img_nChannels := 1 |}.
Definition distance_allocateBuffers (m : distance_module) : distance_module :=
  match fl_data (dt_filter m) with
  | None => m
  | Some src => {| dt_filter := with_buffer (Some (sized src 8)) (dt_filter m); dt_converted := Some (sized src 8); dt_dist := Some (sized src 32) |}
  end.
Definition distance_toCvType (metric : string) (f : image_filter) : Z * image_filter :=
  if bool_decide (metric = "L2") then (2, f) else if bool_decide (metric = "L1") then (1, f) else if bool_decide (metric = "L12") then (4, f)
  else if bool_decide (metric = "Fair") then (5, f) else if bool_decide (metric = "Welsch") then (6, f)
  else (0, with_error "Unsupported distance metric" f).
Definition distance_toCvMaskSize (mask_size : string) (f : image_filter) : Z * image_filter :=
  if bool_decide (mask_size = "3") then (3, f) else if bool_decide (mask_size = "5") then (5, f) else if bool_decide (mask_size = "Precise") then (0, f)
  else (0, with_error "Unsupported mask size for distance transform" f).
Definition same_dims (a b : IplImage) : bool := (img_width a =? img_width b) && (img_height a =? img_height b).
(** [applyFilter]: the metric and the mask size given to [cvDistTransform], which
    needs buffers of the size of the source. *)
Definition distance_applyFilter (metric mask_size : string) (src : IplImage) (m : distance_module) : res (Z * Z * distance_module) :=
  converted ← deref (dt_converted m);
  dist ← deref (dt_dist m);
  out ← deref (fl_output_buffer (dt_filter m));
  _ ← check (same_dims src converted);
  let '(size, f) := distance_toCvMaskSize mask_size (dt_filter m) in
  let '(type, f) := distance_toCvType metric f in
  _ ← check (same_dims converted dist && same_dims dist out);
  Ok (type, size, {| dt_filter := f; dt_converted := dt_converted m; dt_dist := dt_dist m |}).
(** Each choice of the two properties is a constant that OpenCV knows, without an
    error; after the buffers are allocated for an image the filter applies to it. *)
Theorem distance_choices (metric mask_size : string) (src : IplImage) (f : image_filter) :
  metric ∈ ["L2"; "L1"; "L12"; "Fair"; "Welsch"] → mask_size ∈ ["3"; "5"; "Precise"] → fl_data f = Some src →
  ∃ type size m, distance_applyFilter metric mask_size src (distance_allocateBuffers {| dt_filter := f; dt_converted := None; dt_dist := None |}) = Ok (type, size, m)
    ∧ type ∈ [1; 2; 4; 5; 6] ∧ size ∈ [0; 3; 5] ∧ fl_error (dt_filter m) = fl_error f.
Proof.
  intros Hm Hs Hd. unfold distance_allocateBuffers, distance_applyFilter. cbn. rewrite Hd. cbn. unfold same_dims. cbn. rewrite !Z.eqb_refl. cbn.
  apply list_elem_of_In in Hm, Hs. cbn in Hm, Hs.
  destruct Hm as [<-|[<-|[<-|[<-|[<-|[]]]]]], Hs as [<-|[<-|[<-|[]]]]; (eexists _, _, _; split; [reflexivity|]; split_and!; [set_solver|set_solver|done]).
Qed.

(** ** A concrete library *)

(** Images as functions from coordinates to channels. *)
#[local] Instance plain_opencv : Opencv := {|
  canvas := IplImage * (Z → Z → list Z); head := fst; pixel := snd; blank h := (h, λ _ _, []);
  cv_and a b := (a.1, λ x y, zip_with Z.land (a.2 x y) (b.2 x y));
  cv_first a := (one_channel a.1, λ x y, take 1 (a.2 x y));
  cv_masked a b m := (b.1, λ x y, if decide (m.2 x y = [0]) then b.2 x y else a.2 x y) |}.
#[local] Instance plain_opencv_laws : OpencvLaws plain_opencv.
Proof. by split. Qed.
Definition flat (h : IplImage) (c : list Z) : @canvas plain_opencv := (h, λ _ _, c).
Definition hd : IplImage := {| img_width := 640; img_height := 480; img_depth := 8; img_nChannels := 3 |}.
Definition two_pics : store := {| st_pics := <[0%nat := flat hd []]> (<[1%nat := flat hd []]> ∅); st_next := 2 |}.
Lemma two_pics_producers : producers 0 1 two_pics.
Proof.
  split_and!; [done| |by eexists..]. intros a [p Hp]. cbn in Hp |- *. apply lookup_insert_Some in Hp as [[<- _]|[_ Hp]]; [lia|].
  apply lookup_insert_Some in Hp as [[<- _]|[_ Hp]]; [lia|]. by rewrite lookup_empty in Hp.
Qed.
(** Only the first channel decides: green over red stays red, as if green were
    black. *)
Lemma combine_overlays_witness :
  ∃ m' s', two_run combine_update 0 1 [Push false (flat hd [0; 0; 200]); Push true (flat hd [0; 255; 0]); PollTwo] two_new two_pics
      = Ok (m', s', [overlay (flat hd [0; 0; 200]) (flat hd [0; 255; 0])])
    ∧ pixel (overlay (flat hd [0; 0; 200]) (flat hd [0; 255; 0])) 0 0 = [0; 0; 200].
Proof.
  destruct (combine_overlays hd 0 1 two_pics [Push false (flat hd [0; 0; 200]); Push true (flat hd [0; 255; 0]); PollTwo] two_pics_producers eq_refl)
    as [(m' & s' & E & _) Hpix].
  - intros b p Hin. repeat (apply elem_of_cons in Hin as [Hin|Hin]; [by injection Hin as -> -> || discriminate Hin|]). by apply elem_of_nil in Hin.
  - exists m', s'. split; [exact E|]. by rewrite Hpix.
Defined.
(** Without a mask connected, each update loses a clone of the image. *)
Example binary_mask_leaks :
  match two_run binary_mask_update 0 1 [Push false (flat hd [1]); PollTwo; Push false (flat hd [2]); PollTwo] two_new two_pics with
  | Ok (_, s, pushed) => pushed = [] ∧ size (st_pics s) = (size (st_pics two_pics) + 2 + 2)%nat
  | Fault _ => False
  end.
Proof. split; reflexivity. Qed.

(** ** What the filters ask of OpenCV *)

(** The calls of [applyFilter], with the values of the properties; the source is
    the clone of the input and the destination the output buffer. *)
Inductive cv_call :=
  | CvSmooth (type size : Z)
  | CvSub
  | CvDilate (iterations : Z)
  | CvErode (iterations : Z)
  | CvMul (scale : double)
  | CvNot
  | CvEqualizeHist
  | CvCanny (lower upper aperture : Z)
  | CvFlip (mode : Z)
  | CvCvtColor (code : Z)
  | CvInRangeS (lower upper : Z * Z * Z)
  | CvThreshold (threshold : double) (type : Z)
  | CvAdaptiveThreshold (mode type block_size : Z) (threshold : double).

Definition CV_GAUSSIAN : Z := 2.
Definition CV_BGR2HSV : Z := 40.
Definition CV_BGR2YCrCb : Z := 36.
Definition CV_RGB2GRAY : Z := 7.
(** [0] and an error for a name that is not known. *)
Definition or_error (e : string) (o : option Z) (f : image_filter) : Z * image_filter :=
  match o with Some z => (z, f) | None => (0, with_error e f) end.
Definition smooth_calls (filter : string) (size : Z) (f : image_filter) : list cv_call * image_filter :=
  let '(type, f) := or_error "Unsupported filter type" (smooth_toCvType filter) f in ([CvSmooth type (odd_size size)], f).
Definition highpass_calls (size blur : Z) : list cv_call := [CvSmooth CV_GAUSSIAN (odd_size size); CvSub; CvSmooth CV_GAUSSIAN (odd_size blur)].
Definition dilate_calls (iterations : Z) : list cv_call := [CvDilate iterations].
Definition erode_calls (iterations : Z) : list cv_call := [CvErode iterations].
Definition amplify_calls (amplification : double) : list cv_call := [CvMul amplification].
Definition invert_calls : list cv_call := [CvNot].
Definition equalize_calls : list cv_call := [CvEqualizeHist].
Definition canny_calls (lower upper : Z) : list cv_call := [CvCanny lower upper 3].
Definition gray_calls : list cv_call := [CvCvtColor CV_RGB2GRAY].
Definition hsv_calls (hmin hmax smin smax vmin vmax : Z) : list cv_call := [CvCvtColor CV_BGR2HSV; CvInRangeS (hmin, smin, vmin) (hmax, smax, vmax)].
Definition ycrcb_calls (ymin ymax crmin crmax cbmin cbmax : Z) : list cv_call :=
  [CvCvtColor CV_BGR2YCrCb; CvInRangeS (ymin, crmin, cbmin) (ymax, crmax, cbmax)].
Definition mirror_calls (axis : string) (f : image_filter) : list cv_call * image_filter :=
  let '(mode, f) := or_error "Unsuported mirror axis" (mirror_toCvType axis) f in ([CvFlip mode], f).
(** Of the arguments of a call the last is evaluated first. *)
Definition threshold_calls (adaptive : bool) (mode type : string) (block_size : Z) (threshold : double) (f : image_filter) : list cv_call * image_filter :=
  if adaptive then
    let '(t, f) := or_error "Unsupported filter type" (threshold_getCvAdaptativeType type) f in
    let '(md, f) := or_error "Unsupported filter type" (threshold_getCvMode mode) f in
    ([CvAdaptiveThreshold md t (threshold_block_size block_size) (d_mul threshold (d_of_Z (-1)))], f)
  else
    let '(t, f) := or_error "Unsupported filter type" (threshold_getCvType type) f in
    ([CvThreshold threshold t], f).

(** OpenCV asks that the sizes of its kernels are odd and positive, and block
    sizes more than one: within the ranges of the properties they always are. *)
Definition call_ok (c : cv_call) : Prop :=
  match c with
  | CvSmooth type size => 0 <= type <= 3 ∧ Z.odd size = true ∧ 0 < size
  | CvAdaptiveThreshold mode type block_size _ => 0 <= mode <= 1 ∧ 0 <= type <= 1 ∧ Z.odd block_size = true ∧ 1 < block_size
  | CvThreshold _ type => 0 <= type <= 4
  | _ => True
  end.
Theorem filter_calls_ok (filter mode type : string) (size blur block_size : Z) (threshold : double) (adaptive : bool) (f : image_filter) :
  filter ∈ ["median"; "gaussian"; "blur"; "blur_no_scale"] → mode ∈ ["mean"; "gaussian"] → type ∈ ["binary"; "binary_inv"] →
  0 <= size < 2 ^ 30 → 0 <= blur < 2 ^ 30 → 2 <= block_size < INT_MAX →
  (smooth_calls filter size f).2 = f ∧ Forall call_ok (smooth_calls filter size f).1 ∧ Forall call_ok (highpass_calls size blur)
  ∧ (threshold_calls adaptive mode type block_size threshold f).2 = f ∧ Forall call_ok (threshold_calls adaptive mode type block_size threshold f).1.
Proof.
  intros Hf Hm Ht Hs Hb Hbl. apply list_elem_of_In in Hf, Hm, Ht. cbn in Hf, Hm, Ht.
  assert (Hodd : ∀ n, 0 <= n < 2 ^ 30 → Z.odd (odd_size n) = true ∧ 0 < odd_size n).
  { intros n Hn. rewrite odd_size_odd by done. rewrite Z.odd_add, Z.odd_mul. split; [done|lia]. }
  assert (Hblock : Z.odd (threshold_block_size block_size) = true ∧ 1 < threshold_block_size block_size).
  { split; [apply block_size_odd; lia|]. unfold threshold_block_size. case_match; [|lia]. rewrite wrap32_id by (apply in_int_iff; unfold INT_MAX in *; lia). lia. }
  destruct (Hodd size Hs), (Hodd blur Hb), Hblock. split_and!.
  - by destruct Hf as [<-|[<-|[<-|[<-|[]]]]].
  - destruct Hf as [<-|[<-|[<-|[<-|[]]]]]; (constructor; [|constructor]); cbn; (split; [lia|done]).
  - repeat constructor; cbn; lia || done.
  - by destruct adaptive, Hm as [<-|[<-|[]]], Ht as [<-|[<-|[]]].
  - destruct adaptive, Hm as [<-|[<-|[]]], Ht as [<-|[<-|[]]]; (constructor; [|constructor]); cbn; lia || (split_and!; lia || done).
Qed.
