(* ===== verification/Segment.v ===== *)
(** The segmenter of the fiducial finder: src/contrib/libfidtrack/segment.cpp.

    A binary image is cut into regions, the runs of pixels of one colour that
    hang together, in one pass over the pixels.  A region is an index of the
    buffer [regions]; a reference is an index of [region_refs], and leads through
    [redirect] to the reference that holds the region.  Each region lists the
    regions it touches, up to [max_adjacent_regions].

    This file holds the data and the operations; SegmentGraph holds the theorems on
    the lists of adjacent regions and SegmentSpec the ones on the whole pass. *)
From S2P Require Import Prelude.
Local Open Scope Z_scope.

(** ** Data *)

Definition NO_REGION_FLAG : Z := 0.
Definition FREE_REGION_FLAG : Z := 1.
Definition ADJACENT_TO_ROOT_REGION_FLAG : Z := 2.
Definition SATURATED_REGION_FLAG : Z := 4.
Definition FRAGMENTED_REGION_FLAG : Z := 8.
Definition LOST_SYMBOL_FLAG : Z := 16.
Definition UNKNOWN_REGION_LEVEL : Z := -1.

(** [if( flags & flag )] *)
Definition has_flag (flags flag : Z) : bool := negb (Z.land flags flag =? 0).

(** The cast [(short)]. *)
Definition to_short (z : Z) : Z := (z + 32768) `mod` 65536 - 32768.

(** [Region], less the fields the segmenter never writes ([center_x], [center_y],
    [depth_string]) and the spans, which it sets to NULL.  The links [previous]
    and [next] are read as the list of the freed regions below;
    [adjacent_regions] is the used part of the array, [adjacent_region_count]
    its length. *)
Record region := Region {
  colour : Z;
  left : Z; top : Z; right : Z; bottom : Z;
  area : Z;
  flags : Z;
  level : Z;
  depth : Z;
  children_visited_count : Z;
  descendent_count : Z;
  adjacent_regions : list nat;
}.

Record region_ref := RegionReference { region_of : option nat; redirect : nat }.

(** [Segmenter]: the used parts of the buffers [region_refs] and [regions] (their
    counts are the lengths), the regions chained from [freed_regions_head], and
    the two rows of [regions_under_construction].  [allocated] says that the
    three buffers were allocated. *)
Record segmenter := Segmenter {
  allocated : bool;
  region_refs : list region_ref;
  regions : list region;
  freed_regions : list nat;
  max_adjacent_regions : nat;
  width : nat; height : nat;
  regions_under_construction : list nat;
}.

Definition set_adjacent_regions (l : list nat) (r : region) : region :=
  Region (colour r) (left r) (top r) (right r) (bottom r) (area r) (flags r) (level r)
    (depth r) (children_visited_count r) (descendent_count r) l.
Definition set_flags (f : Z) (r : region) : region :=
  Region (colour r) (left r) (top r) (right r) (bottom r) (area r) f (level r)
    (depth r) (children_visited_count r) (descendent_count r) (adjacent_regions r).
Definition set_box (l t rt b : Z) (r : region) : region :=
  Region (colour r) l t rt b (area r) (flags r) (level r)
    (depth r) (children_visited_count r) (descendent_count r) (adjacent_regions r).

(** [flags |= flag] *)
Definition or_flag (flag : Z) (r : region) : region := set_flags (Z.lor (flags r) flag) r.

Definition set_regions (rs : list region) (s : segmenter) : segmenter :=
  Segmenter (allocated s) (region_refs s) rs (freed_regions s) (max_adjacent_regions s)
    (width s) (height s) (regions_under_construction s).
Definition set_refs (l : list region_ref) (s : segmenter) : segmenter :=
  Segmenter (allocated s) l (regions s) (freed_regions s) (max_adjacent_regions s)
    (width s) (height s) (regions_under_construction s).
Definition set_freed (l : list nat) (s : segmenter) : segmenter :=
  Segmenter (allocated s) (region_refs s) (regions s) l (max_adjacent_regions s)
    (width s) (height s) (regions_under_construction s).
Definition set_rows (l : list nat) (s : segmenter) : segmenter :=
  Segmenter (allocated s) (region_refs s) (regions s) (freed_regions s)
    (max_adjacent_regions s) (width s) (height s) l.

(** Writing through a region pointer. *)
Definition upd (rs : list region) (r : nat) (f : region → region) : res (list region) :=
  a ← deref (rs !! r); Ok (<[r := f a]> rs).

(** ** Adjacent regions *)

Definition is_adjacent (rs : list region) (r1 r2 : nat) : res bool :=
  a1 ← deref (rs !! r1); a2 ← deref (rs !! r2);
  Ok (if decide (length (adjacent_regions a2) < length (adjacent_regions a1))%nat
      then bool_decide (r1 ∈ adjacent_regions a2)
      else bool_decide (r2 ∈ adjacent_regions a1)).

Definition r1_adjacent_contains_r2 (rs : list region) (r1 r2 : nat) : res bool :=
  a1 ← deref (rs !! r1); Ok (bool_decide (r2 ∈ adjacent_regions a1)).

(** [l[i] = l[--count]] *)
Definition swap_remove (i : nat) (l : list nat) : list nat :=
  let c := pred (length l) in
  match l !! c with Some z => take c (<[i := z]> l) | None => l end.

(** Remove r2 from the list of r1. *)
Definition remove_adjacent_from (rs : list region) (r1 r2 : nat) : res (list region) :=
  a1 ← deref (rs !! r1);
  match list_find (eq r2) (adjacent_regions a1) with
  | Some (i, _) => upd rs r1 (set_adjacent_regions (swap_remove i (adjacent_regions a1)))
  | None => Fault FAssert
  end.

(** Replace r2 by r3 in the list of r1. *)
Definition replace_adjacent (rs : list region) (r1 r2 r3 : nat) : res (list region) :=
  a1 ← deref (rs !! r1);
  match list_find (eq r2) (adjacent_regions a1) with
  | Some (i, _) => upd rs r1 (set_adjacent_regions (<[i := r3]> (adjacent_regions a1)))
  | None => Fault FAssert
  end.

(** The loop of [make_saturated] over the [n] entries from [i] on. *)
Fixpoint detach_all (rs : list region) (r1 i n : nat) : res (list region) :=
  match n with
  | O => Ok rs
  | S n =>
      a1 ← deref (rs !! r1); a ← deref (adjacent_regions a1 !! i);
      rs ← remove_adjacent_from rs a r1;
      rs ← upd rs a (or_flag FRAGMENTED_REGION_FLAG);
      detach_all rs r1 (S i) n
  end.

Definition make_saturated (rs : list region) (r1 : nat) : res (list region) :=
  a1 ← deref (rs !! r1);
  rs ← detach_all rs r1 0 (length (adjacent_regions a1));
  upd rs r1 (λ a, or_flag SATURATED_REGION_FLAG (set_adjacent_regions [] a)).

Definition adjacent_count (rs : list region) (r : nat) : res nat :=
  a ← deref (rs !! r); Ok (length (adjacent_regions a)).
Definition region_has (rs : list region) (r : nat) (flag : Z) : res bool :=
  a ← deref (rs !! r); Ok (has_flag (flags a) flag).

(** [l[count++] = r2] *)
Definition push_adjacent (rs : list region) (mx r1 r2 : nat) : res (list region) :=
  a1 ← deref (rs !! r1);
  if decide (length (adjacent_regions a1) < mx)%nat
  then upd rs r1 (set_adjacent_regions (adjacent_regions a1 ++ [r2]))
  else Fault FBadAccess.

(** The branches of [make_adjacent] for regions that are not adjacent yet. *)
Definition link_or_saturate (rs : list region) (mx r1 r2 : nat) : res (list region) :=
  sat1 ← region_has rs r1 SATURATED_REGION_FLAG;
  if (sat1 : bool) then upd rs r2 (or_flag FRAGMENTED_REGION_FLAG) else
  sat2 ← region_has rs r2 SATURATED_REGION_FLAG;
  if (sat2 : bool) then upd rs r1 (or_flag FRAGMENTED_REGION_FLAG) else
  n1 ← adjacent_count rs r1;
  if decide (n1 = mx) then
    rs ← make_saturated rs r1;
    rs ← upd rs r2 (or_flag FRAGMENTED_REGION_FLAG);
    n2 ← adjacent_count rs r2;
    if decide (n2 = mx) then
      rs ← make_saturated rs r2; upd rs r1 (or_flag FRAGMENTED_REGION_FLAG)
    else Ok rs
  else
    n2 ← adjacent_count rs r2;
    if decide (n2 = mx) then
      rs ← make_saturated rs r2; upd rs r1 (or_flag FRAGMENTED_REGION_FLAG)
    else
      _ ← assert_ (negb sat1);
      _ ← assert_ (negb sat2);
      _ ← assert_ (bool_decide (n1 < mx)%nat);
      _ ← assert_ (bool_decide (n2 < mx)%nat);
      rs ← push_adjacent rs mx r1 r2;
      push_adjacent rs mx r2 r1.

Definition make_adjacent (rs : list region) (mx r1 r2 : nat) : res (list region) :=
  adj ← is_adjacent rs r1 r2;
  rs ← (if (adj : bool) then Ok rs else link_or_saturate rs mx r1 r2);
  c12 ← r1_adjacent_contains_r2 rs r1 r2;
  c21 ← r1_adjacent_contains_r2 rs r2 r1;
  _ ← assert_ (Bool.eqb c12 c21);
  Ok rs.

(** The first loop of [merge_regions]: drop from r2 what r1 already has.  The
    index moves on after a removal too, so the entry moved into the hole is not
    looked at.  [i] grows at each turn, so the number of entries at the start is
    enough fuel. *)
Fixpoint drop_common (rs : list region) (r1 r2 i fuel : nat) : res (list region) :=
  match fuel with
  | O => Ok rs
  | S fuel =>
      b ← deref (rs !! r2);
      match adjacent_regions b !! i with
      | None => Ok rs
      | Some a =>
          adj ← is_adjacent rs a r1;
          if (adj : bool) then
            rs ← remove_adjacent_from rs a r2;
            rs ← upd rs r2 (λ b, set_adjacent_regions (swap_remove i (adjacent_regions b)) b);
            drop_common rs r1 r2 (S i) fuel
          else drop_common rs r1 r2 (S i) fuel
      end
  end.

(** The second loop: hand the [n] entries of r2 from [i] on to r1. *)
Fixpoint transfer (rs : list region) (mx r1 r2 i n : nat) : res (list region) :=
  match n with
  | O => Ok rs
  | S n =>
      b ← deref (rs !! r2); a ← deref (adjacent_regions b !! i);
      rs ← replace_adjacent rs a r2 r1;
      rs ← push_adjacent rs mx r1 a;
      na ← adjacent_count rs a; n1 ← adjacent_count rs r1;
      _ ← assert_ (bool_decide (na ≤ mx)%nat);
      _ ← assert_ (bool_decide (n1 ≤ mx)%nat);
      transfer rs mx r1 r2 (S i) n
  end.

(** What [merge_regions] does to the lists of adjacent regions. *)
Definition merge_adjacent (rs : list region) (mx r1 r2 : nat) : res (list region) :=
  sat1 ← region_has rs r1 SATURATED_REGION_FLAG;
  if (sat1 : bool) then
    rs ← make_saturated rs r2;
    sat2 ← region_has rs r2 SATURATED_REGION_FLAG;
    if (sat2 : bool) then make_saturated rs r1 else Ok rs
  else
    sat2 ← region_has rs r2 SATURATED_REGION_FLAG;
    if (sat2 : bool) then make_saturated rs r1
    else
      n2 ← adjacent_count rs r2;
      rs ← drop_common rs r1 r2 0 n2;
      n1 ← adjacent_count rs r1; n2 ← adjacent_count rs r2;
      if decide (mx < n1 + n2)%nat then
        rs ← make_saturated rs r1; make_saturated rs r2
      else
        rs ← transfer rs mx r1 r2 0 n2;
        upd rs r2 (set_adjacent_regions []).

(** The flags and the box of r1 at the end of [merge_regions], from those of r2. *)
Definition merge_data (b a : region) : region :=
  or_flag (flags b) (set_box
    (if left b <? left a then left b else left a)
    (if top b <? top a then top b else top a)
    (if right a <? right b then right b else right a)
    (if bottom a <? bottom b then bottom b else bottom a) a).

Definition merge_regions (rs : list region) (mx r1 r2 : nat) : res (list region) :=
  _ ← assert_ (bool_decide (r1 ≠ r2));
  c12 ← r1_adjacent_contains_r2 rs r1 r2;
  c21 ← r1_adjacent_contains_r2 rs r2 r1;
  _ ← assert_ (negb c12 && negb c21);
  rs ← merge_adjacent rs mx r1 r2;
  b ← deref (rs !! r2);
  rs ← upd rs r1 (merge_data b);
  a ← deref (rs !! r1);
  _ ← assert_ (forallb (λ z, bool_decide (z ∈ adjacent_regions a)) (adjacent_regions a));
  Ok rs.

(** ** References *)

(** The region [new_region] leaves. *)
Definition fresh_region (x y colour : Z) : region :=
  Region colour (to_short x) (to_short y) (to_short x) (to_short y) 0 NO_REGION_FLAG
    UNKNOWN_REGION_LEVEL 0 0 0x7FFF [].

(** Both buffers hold [width * height] entries; going on past their end is an access
    outside of the memory. *)
Definition new_region (s : segmenter) (x y : nat) (colour : Z) : res (nat * segmenter) :=
  '(r, s) ← (match freed_regions s with
    | r :: rest => Ok (r, set_freed rest s)
    | [] =>
        if decide (length (regions s) < width s * height s)%nat
        then Ok (length (regions s), set_regions (regions s ++ [fresh_region 0 0 0]) s)
        else Fault FBadAccess
    end);
  _ ← assert_ ((colour =? 0) || (colour =? 255));
  rs ← upd (regions s) r (λ _, fresh_region (Z.of_nat x) (Z.of_nat y) colour);
  let s := set_regions rs s in
  let k := length (region_refs s) in
  if decide (k < width s * height s)%nat
  then Ok (k, set_refs (region_refs s ++ [RegionReference (Some r) k]) s)
  else Fault FBadAccess.

(** The loop of [RESOLVE_REGIONREF_REDIRECTS]: the reference at the end of the
    redirections. *)
Fixpoint follow (fuel : nat) (l : list region_ref) (z : nat) : option nat :=
  match fuel with
  | O => None
  | S fuel =>
      e ← l !! z;
      if decide (redirect e = z) then Some z else follow fuel l (redirect e)
  end.

(** [RESOLVE_REGIONREF_REDIRECTS( x, r )].  A chain with no repetition has at most
    as many links as there are references, which is the fuel; going round for ever
    is read as a fault. *)
Definition resolve (l : list region_ref) (z : nat) : res (nat * list region_ref) :=
  e ← deref (l !! z);
  if decide (redirect e = z) then Ok (z, l) else
  k ← deref (follow (length l) l z);
  Ok (k, <[z := RegionReference (region_of e) k]> l).

(** [regions_under_construction[i]], read and written. *)
Definition row_get (s : segmenter) (i : nat) : res nat :=
  deref (regions_under_construction s !! i).
Definition row_set (s : segmenter) (i z : nat) : res segmenter :=
  if decide (i < length (regions_under_construction s))%nat
  then Ok (set_rows (<[i := z]> (regions_under_construction s)) s)
  else Fault FBadAccess.

(** [RESOLVE_REGIONREF_REDIRECTS( row[i], row[i] )] *)
Definition resolve_cell (s : segmenter) (i : nat) : res (nat * segmenter) :=
  z ← row_get s i;
  '(k, l) ← resolve (region_refs s) z;
  s ← row_set (set_refs l s) i k;
  Ok (k, s).

(** [ref->region] and the region behind it. *)
Definition region_at (s : segmenter) (z : nat) : res nat :=
  e ← deref (region_refs s !! z); deref (region_of e).
Definition region_data (s : segmenter) (z : nat) : res region :=
  r ← region_at s z; deref (regions s !! r).

Definition on_region (s : segmenter) (z : nat) (f : region → region) : res segmenter :=
  r ← region_at s z; rs ← upd (regions s) r f; Ok (set_regions rs s).

Definition adjoin (s : segmenter) (z1 z2 : nat) : res segmenter :=
  r1 ← region_at s z1; r2 ← region_at s z2;
  rs ← make_adjacent (regions s) (max_adjacent_regions s) r1 r2;
  Ok (set_regions rs s).

(** The lines of the center span that merge the region of [c] into the one of [p]
    and free it. *)
Definition absorb (s : segmenter) (p c : nat) : res segmenter :=
  r1 ← region_at s p; r2 ← region_at s c;
  rs ← merge_regions (regions s) (max_adjacent_regions s) r1 r2;
  rs ← upd rs r2 (set_flags FREE_REGION_FLAG);
  Ok (set_refs (<[c := RegionReference None p]> (region_refs s))
       (set_freed (r2 :: freed_regions s) (set_regions rs s))).

(** ** One pass over the image *)

Section pass.
Variable source : list Z.

Definition src (i : nat) : res Z := deref (source !! i).

(** The top line from [x] on, [n] pixels; [cur] is where the current row starts. *)
Fixpoint top_line (s : segmenter) (cur x n : nat) : res segmenter :=
  match n with
  | O => Ok s
  | S n =>
      here ← src x; west ← src (x - 1);
      s ← (if here =? west then
             z ← row_get s (cur + (x - 1)); row_set s (cur + x) z
           else
             '(z, s) ← new_region s x 0 here;
             s ← row_set s (cur + x) z;
             s ← on_region s z (or_flag ADJACENT_TO_ROOT_REGION_FLAG);
             w ← row_get s (cur + (x - 1));
             adjoin s z w);
      top_line s cur (S x) n
  end.

Definition left_edge (s : segmenter) (cur prev y : nat) : res segmenter :=
  '(p, s) ← resolve_cell s prev;
  here ← src (y * width s);
  a ← region_data s p;
  if here =? colour a then row_set s cur p
  else
    '(z, s) ← new_region s 0 y here;
    s ← row_set s cur z;
    s ← on_region s z (or_flag ADJACENT_TO_ROOT_REGION_FLAG);
    adjoin s z p.

(** A pixel of the center span with the colour of its west neighbour; [p] is the
    reference of the pixel above it. *)
Definition extend_run (s : segmenter) (cur x p : nat) (here : Z) : res segmenter :=
  c ← row_get s (cur + (x - 1));
  s ← row_set s (cur + x) c;
  if decide (c = p) then Ok s else
  a ← region_data s p;
  if here =? colour a then
    s ← absorb s p c;
    row_set s (cur + x) p
  else Ok s.

(** A pixel of the center span with another colour. *)
Definition begin_run (s : segmenter) (cur y x p : nat) (here : Z) : res segmenter :=
  w ← row_get s (cur + (x - 1));
  s ← on_region s w (λ a, if right a <? Z.of_nat x - 1
         then set_box (left a) (top a) (to_short (Z.of_nat x - 1)) (bottom a) a else a);
  a ← region_data s p;
  if here =? colour a then
    s ← row_set s (cur + x) p;
    on_region s p (λ a, set_box (left a) (top a) (right a) (to_short (Z.of_nat y)) a)
  else
    '(z, s) ← new_region s x y here;
    s ← row_set s (cur + x) z;
    s ← adjoin s z p;
    rw ← region_at s w; rp ← region_at s p;
    if decide (rw = rp) then Ok s else adjoin s z w.

Definition center_pixel (s : segmenter) (cur prev y x : nat) : res segmenter :=
  '(p, s) ← resolve_cell s (prev + x);
  here ← src (y * width s + x); west ← src (y * width s + x - 1);
  if here =? west then extend_run s cur x p here else begin_run s cur y x p here.

Fixpoint center_span (s : segmenter) (cur prev y x n : nat) : res segmenter :=
  match n with
  | O => Ok s
  | S n => s ← center_pixel s cur prev y x; center_span s cur prev y (S x) n
  end.

Definition line (s : segmenter) (cur prev y : nat) : res segmenter :=
  s ← left_edge s cur prev y;
  s ← center_span s cur prev y 1 (width s - 1);
  z ← row_get s (cur + (width s - 1));
  on_region s z (or_flag ADJACENT_TO_ROOT_REGION_FLAG).

(** The lines from [y] on; [cur] and [prev] swap before each of them.  The result
    says which row is the current one at the end. *)
Fixpoint lines (s : segmenter) (cur prev y n : nat) : res (nat * segmenter) :=
  match n with
  | O => Ok (cur, s)
  | S n => s ← line s prev cur y; lines s prev cur (S y) n
  end.

Fixpoint bottom_row (s : segmenter) (cur x n : nat) : res segmenter :=
  match n with
  | O => Ok s
  | S n =>
      '(z, s) ← resolve_cell s (cur + x);
      s ← on_region s z (or_flag ADJACENT_TO_ROOT_REGION_FLAG);
      bottom_row s cur (S x) n
  end.

Definition first_pixel (s : segmenter) : res segmenter :=
  c0 ← src 0;
  '(z, s) ← new_region s 0 0 c0;
  s ← row_set s 0 z;
  on_region s z (or_flag ADJACENT_TO_ROOT_REGION_FLAG).

Definition build_regions (s : segmenter) : res segmenter :=
  let s := set_refs [] (set_regions [] (set_freed [] s)) in
  s ← first_pixel s;
  s ← top_line s 0 1 (width s - 1);
  '(cur, s) ← lines s 0 (width s) 1 (height s - 1);
  bottom_row s cur 0 (width s).
End pass.

(** [initialize_segmenter]: [mem] says whether the three [malloc] succeed and [rows]
    is what the memory of the rows holds. *)
Definition initialize_segmenter (mem : bool) (rows : list nat)
    (width height max_adjacent_regions : nat) : segmenter :=
  Segmenter mem [] [] [] max_adjacent_regions width height rows.

Definition step_segmenter (s : segmenter) (source : list Z) : res segmenter :=
  if allocated s then build_regions source s else Ok s.
