(* ===== verification/SegmentGraph.v ===== *)
(** The lists of adjacent regions of the segmenter (Segment.v): what
    [make_saturated], [make_adjacent] and [merge_regions] do to the graph they
    form, and that none of their assertions fails. *)
From S2P Require Import Prelude Segment.
From Stdlib Require Import List.
Local Open Scope nat_scope.

(** ** Views of the buffer of regions *)

Definition adj (rs : list region) (r : nat) : list nat :=
  from_option adjacent_regions [] (rs !! r).
Definition fl (rs : list region) (r : nat) : Z := from_option flags 0%Z (rs !! r).
Definition hasf (rs : list region) (r : nat) (f : Z) : bool := has_flag (fl rs r) f.
Definition col (rs : list region) (r : nat) : option Z := colour <$> rs !! r.

Definition occurs (l : list nat) (x : nat) : nat := count_occ Nat.eq_dec l x.
(** How often the list of [a] names [b]. *)
Definition edges (rs : list region) (a b : nat) : nat := occurs (adj rs a) b.

(** A region without its list and its two flags on lists. *)
Definition rest (a : region) : region :=
  set_adjacent_regions [] (set_flags (Z.land (flags a) 19) a).

Lemma occurs_elem l x : x ∈ l ↔ 0 < occurs l x.
Proof. unfold occurs. rewrite list_elem_of_In, (count_occ_In Nat.eq_dec). lia. Qed.
Lemma occurs_cons y l x : occurs (y :: l) x = (if decide (y = x) then 1 else 0) + occurs l x.
Proof. unfold occurs. simpl. destruct (Nat.eq_dec y x), (decide (y = x)); done. Qed.
Lemma occurs_app l k x : occurs (l ++ k) x = occurs l x + occurs k x.
Proof. unfold occurs. apply count_occ_app. Qed.
Lemma occurs_Permutation l k x : l ≡ₚ k → occurs l x = occurs k x.
Proof. intros H. unfold occurs. by apply (Permutation_count_occ Nat.eq_dec). Qed.
Lemma occurs_zero l x : occurs l x = 0 ↔ x ∉ l.
Proof. rewrite occurs_elem. lia. Qed.
Lemma occurs_all_zero l : (∀ x, occurs l x = 0) → l = [].
Proof. destruct l as [|x l]; [done|]. intros H. specialize (H x). rewrite occurs_cons in H.
  rewrite decide_True in H by done. lia. Qed.

Lemma edges_elem rs a b : b ∈ adj rs a ↔ 0 < edges rs a b.
Proof. apply occurs_elem. Qed.
Lemma adj_lookup rs r a : rs !! r = Some a → adj rs r = adjacent_regions a.
Proof. unfold adj. by intros ->. Qed.
Lemma fl_lookup rs r a : rs !! r = Some a → fl rs r = flags a.
Proof. unfold fl. by intros ->. Qed.
Lemma adj_in_range rs r z : z ∈ adj rs r → r < length rs.
Proof. unfold adj. destruct (rs !! r) eqn:E; [intros _; by eapply lookup_lt_Some|].
  by intros ?%elem_of_nil. Qed.

Lemma adj_insert_eq rs r a : r < length rs → adj (<[r:=a]> rs) r = adjacent_regions a.
Proof. intros H. unfold adj. by rewrite list_lookup_insert_eq. Qed.
Lemma adj_insert_ne rs r a z : z ≠ r → adj (<[r:=a]> rs) z = adj rs z.
Proof. intros H. unfold adj. by rewrite list_lookup_insert_ne. Qed.
Lemma fl_insert_eq rs r a : r < length rs → fl (<[r:=a]> rs) r = flags a.
Proof. intros H. unfold fl. by rewrite list_lookup_insert_eq. Qed.
Lemma fl_insert_ne rs r a z : z ≠ r → fl (<[r:=a]> rs) z = fl rs z.
Proof. intros H. unfold fl. by rewrite list_lookup_insert_ne. Qed.

Lemma has_flag_lor x y f : has_flag (Z.lor x y) f = has_flag x f || has_flag y f.
Proof.
  unfold has_flag. rewrite Z.land_lor_distr_l.
  destruct (Z.eqb_spec (Z.lor (Z.land x f) (Z.land y f)) 0) as [E|E];
    [apply Z.lor_eq_0_iff in E as [-> ->]; done|].
  destruct (Z.eqb_spec (Z.land x f) 0) as [E1|E1],
    (Z.eqb_spec (Z.land y f) 0) as [E2|E2]; simpl; try done.
  by rewrite E1, E2 in E.
Qed.
Lemma has_flag_split x f g : has_flag x (Z.lor f g) = has_flag x f || has_flag x g.
Proof. unfold has_flag. rewrite !(Z.land_comm x). apply has_flag_lor. Qed.

Lemma rest_set_adj l a : rest (set_adjacent_regions l a) = rest a.
Proof. done. Qed.
Lemma rest_or_flag f a : Z.land f 19 = 0%Z → rest (or_flag f a) = rest a.
Proof.
  intros H. unfold rest, or_flag, set_flags, set_adjacent_regions. simpl.
  by rewrite Z.land_lor_distr_l, H, Z.lor_0_r.
Qed.
Lemma rest_insert (rs : list region) r a b :
  rs !! r = Some a → rest b = rest a → rest <$> <[r:=b]> rs = rest <$> rs.
Proof.
  intros Hr E. rewrite list_fmap_insert, E. apply list_insert_id.
  by rewrite list_lookup_fmap, Hr.
Qed.
Lemma rest_length (rs rs' : list region) : rest <$> rs' = rest <$> rs → length rs' = length rs.
Proof. intros H. by rewrite <-(length_fmap rest rs'), H, length_fmap. Qed.
Lemma rest_col rs rs' r : rest <$> rs' = rest <$> rs → col rs' r = col rs r.
Proof.
  intros H. assert (E : rest <$> rs' !! r = rest <$> rs !! r)
    by (by rewrite <-!list_lookup_fmap, H).
  unfold col. destruct (rs' !! r), (rs !! r); simplify_eq/=; try done.
  by inversion E as [[E1]]; rewrite E1.
Qed.
#[export] Hint Resolve rest_set_adj : movid.

(** ** Removing and replacing one entry *)

Lemma swap_remove_perm i (l : list nat) x : l !! i = Some x → l ≡ₚ x :: swap_remove i l.
Proof.
  intros Hi. unfold swap_remove. pose proof (lookup_lt_Some _ _ _ Hi) as Hlt.
  destruct (lookup_lt_is_Some_2 l (pred (length l))) as [z Hz]; [lia|]. rewrite Hz.
  assert (Hl : take (pred (length l)) l ++ [z] = l).
  { rewrite <-(take_drop (pred (length l)) l) at 3. f_equal. symmetry.
    rewrite (drop_S _ z) by done. f_equal. apply drop_ge. lia. }
  destruct (decide (i = pred (length l))) as [->|Hne].
  - rewrite take_insert_ge by lia. rewrite Hi in Hz. simplify_eq. rewrite <-Hl at 1.
    symmetry. apply Permutation_cons_append.
  - rewrite take_insert_lt by lia. rewrite <-Hl at 1.
    assert (Ht : take (pred (length l)) l !! i = Some x) by (rewrite lookup_take_lt; [done|lia]).
    rewrite <-(take_drop_middle _ _ _ Ht) at 1.
    rewrite (insert_take_drop _ i z); [|rewrite length_take; lia].
    solve_Permutation.
Qed.

Lemma insert_perm i (l : list nat) x y : l !! i = Some x → y :: l ≡ₚ x :: <[i:=y]> l.
Proof.
  intros Hi. rewrite (insert_take_drop _ i y) by (by eapply lookup_lt_Some).
  rewrite <-(take_drop_middle _ _ _ Hi) at 1. solve_Permutation.
Qed.

Lemma list_find_elem (x : nat) l :
  x ∈ l → ∃ i, list_find (eq x) l = Some (i, x) ∧ l !! i = Some x.
Proof.
  intros H. destruct (list_find_elem_of (eq x) l x H eq_refl) as [[i y] E].
  pose proof E as (Hi & <- & _)%list_find_Some. eauto.
Qed.

Lemma remove_adjacent_run rs r1 r2 :
  r2 ∈ adj rs r1 →
  ∃ a k, rs !! r1 = Some a ∧ remove_adjacent_from rs r1 r2 = Ok (<[r1:=set_adjacent_regions k a]> rs)
    ∧ adjacent_regions a ≡ₚ r2 :: k.
Proof.
  intros H. pose proof (adj_in_range _ _ _ H) as [a Ha]%lookup_lt_is_Some.
  rewrite (adj_lookup _ _ _ Ha) in H.
  destruct (list_find_elem _ _ H) as (i & Hf & Hi).
  exists a, (swap_remove i (adjacent_regions a)). split_and!; [done| |by apply swap_remove_perm].
  unfold remove_adjacent_from, upd. rewrite Ha. simpl. by rewrite Hf.
Qed.

Lemma replace_adjacent_run rs r1 r2 r3 :
  r2 ∈ adj rs r1 →
  ∃ a k, rs !! r1 = Some a ∧ replace_adjacent rs r1 r2 r3 = Ok (<[r1:=set_adjacent_regions k a]> rs)
    ∧ r3 :: adjacent_regions a ≡ₚ r2 :: k.
Proof.
  intros H. pose proof (adj_in_range _ _ _ H) as [a Ha]%lookup_lt_is_Some.
  rewrite (adj_lookup _ _ _ Ha) in H.
  destruct (list_find_elem _ _ H) as (i & Hf & Hi).
  exists a, (<[i:=r3]> (adjacent_regions a)). split_and!; [done| |by apply insert_perm].
  unfold replace_adjacent, upd. rewrite Ha. simpl. by rewrite Hf.
Qed.

(** ** The graph *)

Record graph (mx : nat) (rs : list region) : Prop := Graph {
  graph_sym a b : edges rs a b = edges rs b a;
  graph_colours a b : b ∈ adj rs a → col rs a ≠ col rs b;
  graph_length a : length (adj rs a) ≤ mx;
  graph_saturated a : hasf rs a SATURATED_REGION_FLAG = true → adj rs a = [];
}.

Lemma graph_elem mx rs a b : graph mx rs → b ∈ adj rs a → a ∈ adj rs b.
Proof. intros G. rewrite !edges_elem. by rewrite (graph_sym _ _ G). Qed.
Lemma graph_irrefl mx rs a : graph mx rs → a ∉ adj rs a.
Proof. intros G H. by apply (graph_colours _ _ G) in H. Qed.

Lemma is_adjacent_run mx rs r1 r2 :
  graph mx rs → r1 < length rs → r2 < length rs →
  is_adjacent rs r1 r2 = Ok (bool_decide (r2 ∈ adj rs r1)).
Proof.
  intros G [a1 H1]%lookup_lt_is_Some [a2 H2]%lookup_lt_is_Some.
  unfold is_adjacent. rewrite H1, H2. simpl. rewrite <-(adj_lookup _ _ _ H1), <-(adj_lookup _ _ _ H2).
  case_decide; [|done]. f_equal. apply bool_decide_ext.
  split; apply (graph_elem _ _ _ _ G).
Qed.

Lemma contains_run rs r1 r2 :
  r1 < length rs → r1_adjacent_contains_r2 rs r1 r2 = Ok (bool_decide (r2 ∈ adj rs r1)).
Proof. intros [a H]%lookup_lt_is_Some. unfold r1_adjacent_contains_r2, adj. by rewrite H. Qed.
Lemma adjacent_count_run rs r :
  r < length rs → adjacent_count rs r = Ok (length (adj rs r)).
Proof. intros [a H]%lookup_lt_is_Some. unfold adjacent_count, adj. by rewrite H. Qed.
Lemma region_has_run rs r f : r < length rs → region_has rs r f = Ok (hasf rs r f).
Proof. intros [a H]%lookup_lt_is_Some. unfold region_has, hasf, fl. by rewrite H. Qed.
Lemma push_adjacent_run rs mx r z a :
  rs !! r = Some a → length (adjacent_regions a) < mx →
  push_adjacent rs mx r z = Ok (<[r:=set_adjacent_regions (adjacent_regions a ++ [z]) a]> rs).
Proof. intros H Hl. unfold push_adjacent, upd. rewrite H. simpl. by rewrite decide_True. Qed.
Lemma upd_run rs r f a : rs !! r = Some a → upd rs r f = Ok (<[r:=f a]> rs).
Proof. intros H. unfold upd. by rewrite H. Qed.

(** The loop of [make_saturated]: the lists it has still to visit name [r1] as often
    as what is left of the list of [r1] names them. *)
Lemma detach_all_run r1 n : ∀ i rs,
  i + n = length (adj rs r1) → r1 ∉ adj rs r1 →
  (∀ a, a ≠ r1 → edges rs a r1 = occurs (drop i (adj rs r1)) a) →
  ∃ rs', detach_all rs r1 i n = Ok rs' ∧ rest <$> rs' = rest <$> rs ∧ rs' !! r1 = rs !! r1 ∧
    (∀ a b, a ≠ r1 → edges rs' a b = if decide (b = r1) then 0 else edges rs a b) ∧
    (∀ a, a ≠ r1 → length (adj rs' a) ≤ length (adj rs a)) ∧
    (∀ a f, a ≠ r1 → hasf rs' a f = hasf rs a f ||
       (bool_decide (a ∈ drop i (adj rs r1)) && has_flag FRAGMENTED_REGION_FLAG f)).
Proof.
  induction n as [|n IH]; intros i rs Hn Hr Hocc; simpl.
  { exists rs. rewrite drop_ge in * by lia. split_and!; try done.
    - intros a b Ha. case_decide; [subst b; by rewrite Hocc|done].
    - intros a f Ha. rewrite bool_decide_false by apply not_elem_of_nil. by rewrite orb_false_r. }
  destruct (lookup_lt_is_Some_2 (adj rs r1) i) as [a Ha]; [lia|].
  assert (Hd : drop i (adj rs r1) = a :: drop (S i) (adj rs r1)) by (by apply drop_S).
  assert (a ≠ r1) by (intros ->; apply Hr; by eapply list_elem_of_lookup_2).
  assert (Hin : r1 ∈ adj rs a).
  { apply edges_elem. rewrite Hocc, Hd, occurs_cons, decide_True by done. lia. }
  destruct (rs !! r1) as [b|] eqn:Hb; [|unfold adj in Ha; by rewrite Hb in Ha].
  simpl. pose proof Ha as Ha'. rewrite (adj_lookup _ _ _ Hb) in Ha'. rewrite Ha'. simpl.
  destruct (remove_adjacent_run _ _ _ Hin) as (c & k & Hc & -> & Hk). simpl.
  pose proof (lookup_lt_Some _ _ _ Hc) as Hac.
  unfold upd at 1. rewrite list_lookup_insert_eq by done. simpl.
  rewrite list_insert_insert_eq.
  set (c' := or_flag _ _). set (rs1 := <[a:=c']> rs).
  assert (E1 : rs1 !! r1 = rs !! r1) by (unfold rs1; by rewrite list_lookup_insert_ne).
  assert (Ea : adj rs1 r1 = adj rs r1) by (unfold adj; by rewrite E1).
  assert (Eaa : adj rs1 a = k) by (unfold rs1; by rewrite adj_insert_eq).
  assert (Ene : ∀ z, z ≠ a → adj rs1 z = adj rs z) by (intros; by apply adj_insert_ne).
  assert (Hk' : ∀ x, edges rs a x = (if decide (r1 = x) then 1 else 0) + occurs k x).
  { intros x. unfold edges. by rewrite (adj_lookup _ _ _ Hc), (occurs_Permutation _ _ _ Hk), occurs_cons. }
  destruct (IH (S i) rs1) as (rs' & Hrun & Hrest & Hr1 & He & Hlen & Hf).
  { rewrite Ea. lia. } { by rewrite Ea. }
  { intros z Hz. rewrite Ea. specialize (Hocc z Hz). rewrite Hd, occurs_cons in Hocc.
    destruct (decide (a = z)) as [<-|].
    - unfold edges. rewrite Eaa. rewrite Hk', decide_True in Hocc by done. lia.
    - unfold edges in *. rewrite Ene by done. lia. }
  exists rs'. split_and!; [done| | | | |].
  - rewrite Hrest. apply rest_insert with c; [done|].
    unfold c'. by rewrite rest_or_flag.
  - by rewrite Hr1, E1.
  - intros z b0 Hz. rewrite He by done. case_decide; [done|].
    destruct (decide (z = a)) as [->|]; unfold edges; [|by rewrite Ene].
    rewrite Eaa. specialize (Hk' b0). rewrite decide_False in Hk' by done.
    unfold edges in Hk'. lia.
  - intros z Hz. etrans; [by apply Hlen|]. destruct (decide (z = a)) as [->|]; [|by rewrite Ene].
    rewrite Eaa, (adj_lookup _ _ _ Hc), Hk. simpl. lia.
  - intros z f Hz. rewrite Hf by done. rewrite Ea, Hd.
    destruct (decide (z = a)) as [->|Hza].
    + rewrite (bool_decide_true (a ∈ a :: _)) by set_solver.
      unfold hasf. unfold rs1 at 1. rewrite fl_insert_eq, (fl_lookup _ _ _ Hc) by done.
      unfold c', or_flag. simpl. rewrite has_flag_lor.
      by destruct (has_flag (flags c) f), (has_flag _ f), (bool_decide _).
    + unfold hasf. unfold rs1 at 1. rewrite fl_insert_ne by done. do 2 f_equal.
      apply bool_decide_ext. set_solver.
Qed.

Lemma edges_insert_ne rs r a z b : z ≠ r → edges (<[r:=a]> rs) z b = edges rs z b.
Proof. intros H. unfold edges. by rewrite adj_insert_ne. Qed.
Lemma hasf_insert_ne rs r a z f : z ≠ r → hasf (<[r:=a]> rs) z f = hasf rs z f.
Proof. intros H. unfold hasf. by rewrite fl_insert_ne. Qed.

(** [make_saturated] cuts every link of [r1]; the regions it was linked to are
    marked as fragmented. *)
Lemma make_saturated_run mx rs r1 :
  graph mx rs → r1 < length rs →
  ∃ rs', make_saturated rs r1 = Ok rs' ∧ rest <$> rs' = rest <$> rs ∧ graph mx rs' ∧
    (∀ a b, edges rs' a b = if decide (a = r1 ∨ b = r1) then 0 else edges rs a b) ∧
    (∀ a f, hasf rs' a f = hasf rs a f ||
       (if decide (a = r1) then has_flag SATURATED_REGION_FLAG f
        else bool_decide (a ∈ adj rs r1) && has_flag FRAGMENTED_REGION_FLAG f)).
Proof.
  intros G Hr. pose proof Hr as [b Hb]%lookup_lt_is_Some.
  destruct (detach_all_run r1 (length (adj rs r1)) 0 rs) as (rs1 & Hrun & Hrest & Hb1 & He & Hlen & Hf);
    [done|by eapply graph_irrefl|intros a Ha; apply (graph_sym _ _ G)|].
  unfold make_saturated. rewrite Hb. simpl. rewrite <-(adj_lookup _ _ _ Hb), Hrun. simpl.
  rewrite Hb in Hb1. rewrite (upd_run _ _ _ _ Hb1).
  set (b' := or_flag _ _).
  assert (Hr1 : r1 < length rs1) by (by eapply lookup_lt_Some).
  assert (HE : ∀ a b, edges (<[r1:=b']> rs1) a b =
    if decide (a = r1 ∨ b = r1) then 0 else edges rs a b).
  { intros a c. destruct (decide (a = r1)) as [->|Ha].
    - rewrite decide_True by auto. unfold edges. by rewrite adj_insert_eq.
    - rewrite edges_insert_ne, He by done. by repeat case_decide; try tauto. }
  assert (HR : rest <$> <[r1:=b']> rs1 = rest <$> rs).
  { rewrite <-Hrest. apply rest_insert with b; [done|].
    unfold b'. by rewrite rest_or_flag. }
  assert (HF : ∀ a f, hasf (<[r1:=b']> rs1) a f = hasf rs a f ||
       (if decide (a = r1) then has_flag SATURATED_REGION_FLAG f
        else bool_decide (a ∈ adj rs r1) && has_flag FRAGMENTED_REGION_FLAG f)).
  { intros a f. case_decide as Ha; [subst a|].
    - unfold hasf. rewrite fl_insert_eq, (fl_lookup _ _ _ Hb) by done. apply has_flag_lor.
    - rewrite hasf_insert_ne, Hf by done. done. }
  eexists. split_and!; [done|done| |done|done]. split.
  - intros a c. rewrite !HE, (graph_sym _ _ G). by repeat case_decide; try tauto.
  - intros a c. rewrite edges_elem, HE. rewrite !(rest_col _ _ _ HR).
    case_decide; [lia|]. rewrite <-edges_elem. apply (graph_colours _ _ G).
  - intros a. destruct (decide (a = r1)) as [->|Ha]; [rewrite adj_insert_eq by done; simpl; lia|].
    rewrite adj_insert_ne by done. etrans; [by apply Hlen|]. apply (graph_length _ _ G).
  - intros a Hs. apply occurs_all_zero. intros x. change (edges (<[r1:=b']> rs1) a x = 0).
    rewrite HE. case_decide; [done|]. rewrite HF, decide_False in Hs by tauto.
    rewrite andb_false_r, orb_false_r in Hs.
    apply occurs_zero. rewrite (graph_saturated _ _ G _ Hs). apply not_elem_of_nil.
Qed.

(** ** Making two regions adjacent *)

(** The link of [a] and [b] is known: each lists the other, or both are marked as
    regions whose list is not complete. *)
Definition incomplete (rs : list region) (a : nat) : bool :=
  hasf rs a (Z.lor SATURATED_REGION_FLAG FRAGMENTED_REGION_FLAG).
Definition linked (rs : list region) (a b : nat) : Prop :=
  b ∈ adj rs a ∨ incomplete rs a = true ∧ incomplete rs b = true.

Lemma incomplete_alt rs a :
  incomplete rs a = hasf rs a SATURATED_REGION_FLAG || hasf rs a FRAGMENTED_REGION_FLAG.
Proof. apply has_flag_split. Qed.

Lemma saturated_linked mx rs rs' r1 a b :
  graph mx rs →
  (∀ a b, edges rs' a b = if decide (a = r1 ∨ b = r1) then 0 else edges rs a b) →
  (∀ a f, hasf rs' a f = hasf rs a f ||
       (if decide (a = r1) then has_flag SATURATED_REGION_FLAG f
        else bool_decide (a ∈ adj rs r1) && has_flag FRAGMENTED_REGION_FLAG f)) →
  linked rs a b → linked rs' a b.
Proof.
  intros G HE HF [H|[Ha Hb]]; [|right; unfold incomplete in *; by rewrite !HF, Ha, Hb].
  unfold linked. rewrite edges_elem, HE. case_decide as Hd; [|left; by apply edges_elem].
  right. pose proof (graph_elem _ _ _ _ G H) as H'.
  unfold incomplete. rewrite !HF.
  destruct Hd as [->| ->].
  - rewrite decide_True by done. rewrite (bool_decide_true (b ∈ _)) by done.
    split; [by rewrite orb_comm|]. case_decide; by rewrite orb_comm.
  - rewrite (decide_True (P:=r1 = r1)) by done. rewrite (bool_decide_true (a ∈ _)) by done.
    split; [case_decide; by rewrite orb_comm|by rewrite orb_comm].
Qed.

(** Links are only cut, flags only raised, and what was known stays known. *)
Record cut (rs rs' : list region) : Prop := Cut {
  cut_rest : rest <$> rs' = rest <$> rs;
  cut_sub a b : b ∈ adj rs' a → b ∈ adj rs a;
  cut_linked a b : linked rs a b → linked rs' a b;
  cut_flags a f : hasf rs a f = true → hasf rs' a f = true;
}.
#[export] Instance cut_preorder : PreOrder cut.
Proof.
  split; [by split|]. intros r1 r2 r3 [A1 A2 A3 A4] [B1 B2 B3 B4].
  split; [congruence|eauto..].
Qed.
Lemma cut_length rs rs' : cut rs rs' → length rs' = length rs.
Proof. intros H. apply rest_length, (cut_rest _ _ H). Qed.
Lemma cut_incomplete rs rs' a : cut rs rs' → incomplete rs a = true → incomplete rs' a = true.
Proof. intros H. apply (cut_flags _ _ H). Qed.

Lemma make_saturated_cut mx rs r1 :
  graph mx rs → r1 < length rs →
  ∃ rs', make_saturated rs r1 = Ok rs' ∧ graph mx rs' ∧ cut rs rs' ∧
    hasf rs' r1 SATURATED_REGION_FLAG = true.
Proof.
  intros G Hr. destruct (make_saturated_run _ _ _ G Hr) as (rs' & -> & HR & G' & HE & HF).
  exists rs'. split_and!; [done|done| |].
  - split; [done| | |].
    + intros a b. rewrite !edges_elem, HE. case_decide; [lia|done].
    + intros a b. by eapply saturated_linked.
    + intros a f Ha. by rewrite HF, Ha.
  - rewrite HF, decide_True by done. by rewrite orb_comm.
Qed.

Lemma mark_run mx rs r :
  graph mx rs → r < length rs →
  ∃ rs', upd rs r (or_flag FRAGMENTED_REGION_FLAG) = Ok rs' ∧ graph mx rs' ∧ cut rs rs' ∧
    hasf rs' r FRAGMENTED_REGION_FLAG = true.
Proof.
  intros G [a Ha]%lookup_lt_is_Some. pose proof (lookup_lt_Some _ _ _ Ha) as Hr.
  rewrite (upd_run _ _ _ _ Ha). set (a' := or_flag _ a). set (rs' := <[r:=a']> rs).
  assert (HA : ∀ z, adj rs' z = adj rs z).
  { intros z. destruct (decide (z = r)) as [->|]; [|by apply adj_insert_ne].
    unfold rs'. by rewrite adj_insert_eq, (adj_lookup _ _ _ Ha). }
  assert (HF : ∀ z f, hasf rs' z f = hasf rs z f ||
    (bool_decide (z = r) && has_flag FRAGMENTED_REGION_FLAG f)).
  { intros z f. case_bool_decide as E; [subst z|by rewrite orb_false_r; apply hasf_insert_ne].
    unfold hasf, rs'. rewrite fl_insert_eq, (fl_lookup _ _ _ Ha) by done. apply has_flag_lor. }
  assert (HR : rest <$> rs' = rest <$> rs)
    by (apply rest_insert with a; [done|by apply rest_or_flag]).
  exists rs'. split_and!; [done| | |].
  - split.
    + intros x y. unfold edges. rewrite !HA. apply (graph_sym _ _ G).
    + intros x y. rewrite HA, !(rest_col _ _ _ HR). apply (graph_colours _ _ G).
    + intros x. rewrite HA. apply (graph_length _ _ G).
    + intros x. rewrite HA, HF, andb_false_r, orb_false_r. apply (graph_saturated _ _ G).
  - split; [done|intros x y; by rewrite HA| |intros z f Hz; by rewrite HF, Hz].
    unfold linked, incomplete. intros x y. rewrite HA, !HF.
    intros [?|[-> ->]]; [by left|by right].
  - rewrite HF, bool_decide_true by done. by rewrite orb_comm.
Qed.

Lemma push_both_run mx rs r1 r2 :
  graph mx rs → r1 < length rs → r2 < length rs → col rs r1 ≠ col rs r2 →
  length (adj rs r1) < mx → length (adj rs r2) < mx →
  hasf rs r1 SATURATED_REGION_FLAG = false → hasf rs r2 SATURATED_REGION_FLAG = false →
  ∃ rs1 rs', push_adjacent rs mx r1 r2 = Ok rs1 ∧ push_adjacent rs1 mx r2 r1 = Ok rs' ∧
    graph mx rs' ∧ rest <$> rs' = rest <$> rs ∧ (∀ a f, hasf rs' a f = hasf rs a f) ∧
    (∀ a b, edges rs' a b = edges rs a b +
       (if decide (a = r1 ∧ b = r2 ∨ a = r2 ∧ b = r1) then 1 else 0)).
Proof.
  intros G [a1 H1]%lookup_lt_is_Some [a2 H2]%lookup_lt_is_Some Hcol Hl1 Hl2 Hs1 Hs2.
  assert (Hne : r1 ≠ r2) by congruence.
  pose proof (lookup_lt_Some _ _ _ H1) as Hr1. pose proof (lookup_lt_Some _ _ _ H2) as Hr2.
  pose proof (adj_lookup _ _ _ H1) as Ha1. pose proof (adj_lookup _ _ _ H2) as Ha2.
  rewrite Ha1 in Hl1. rewrite Ha2 in Hl2.
  rewrite (push_adjacent_run _ _ _ _ _ H1) by done.
  set (rs1 := <[r1:=_]> rs).
  assert (H2' : rs1 !! r2 = Some a2) by (unfold rs1; by rewrite list_lookup_insert_ne).
  exists rs1. rewrite (push_adjacent_run _ _ _ _ _ H2') by done.
  set (rs' := <[r2:=_]> rs1). exists rs'.
  assert (Hr2' : r2 < length rs1) by (by eapply lookup_lt_Some).
  assert (A1 : adj rs' r1 = adjacent_regions a1 ++ [r2]).
  { unfold rs'. rewrite adj_insert_ne by done. unfold rs1. by rewrite adj_insert_eq. }
  assert (A2 : adj rs' r2 = adjacent_regions a2 ++ [r1]) by (unfold rs'; by rewrite adj_insert_eq).
  assert (A3 : ∀ z, z ≠ r1 → z ≠ r2 → adj rs' z = adj rs z).
  { intros z ??. unfold rs'. rewrite adj_insert_ne by done. by apply adj_insert_ne. }
  assert (HR : rest <$> rs' = rest <$> rs).
  { unfold rs'. rewrite (rest_insert _ _ _ _ H2') by done. by apply rest_insert with a1. }
  assert (HF : ∀ a f, hasf rs' a f = hasf rs a f).
  { intros z f. unfold rs', hasf. destruct (decide (z = r2)) as [->|].
    { by rewrite fl_insert_eq, (fl_lookup _ _ _ H2). }
    rewrite fl_insert_ne by done. unfold rs1. destruct (decide (z = r1)) as [->|].
    { by rewrite fl_insert_eq, (fl_lookup _ _ _ H1). } by rewrite fl_insert_ne. }
  assert (HE : ∀ a b, edges rs' a b = edges rs a b +
       (if decide (a = r1 ∧ b = r2 ∨ a = r2 ∧ b = r1) then 1 else 0)).
  { intros a b. unfold edges. destruct (decide (a = r1)) as [->|]; [|destruct (decide (a = r2)) as [->|]].
    - rewrite A1, Ha1, occurs_app, occurs_cons. simpl. repeat case_decide; naive_solver lia.
    - rewrite A2, Ha2, occurs_app, occurs_cons. simpl. repeat case_decide; naive_solver lia.
    - rewrite A3 by done. rewrite decide_False by tauto. lia. }
  split_and!; try done. split.
  - intros a b. rewrite !HE, (graph_sym _ _ G). f_equal. repeat case_decide; naive_solver.
  - intros a b. rewrite edges_elem, HE, !(rest_col _ _ _ HR). case_decide as E.
    + intros _. destruct E as [[-> ->]|[-> ->]]; congruence.
    + rewrite Nat.add_0_r, <-edges_elem. apply (graph_colours _ _ G).
  - intros a. destruct (decide (a = r1)) as [->|]; [rewrite A1, length_app; simpl; lia|].
    destruct (decide (a = r2)) as [->|]; [rewrite A2, length_app; simpl; lia|].
    rewrite A3 by done. apply (graph_length _ _ G).
  - intros a. rewrite HF. intros Ha. rewrite A3; [by apply (graph_saturated _ _ G)|congruence..].
Qed.

(** What making [r1] and [r2] adjacent does: the link is known afterwards, whatever
    was known still is, and no other link is new. *)
Record adjoined (r1 r2 : nat) (rs rs' : list region) : Prop := Adjoined {
  adjoined_rest : rest <$> rs' = rest <$> rs;
  adjoined_sub a b : b ∈ adj rs' a → b ∈ adj rs a ∨ a = r1 ∧ b = r2 ∨ a = r2 ∧ b = r1;
  adjoined_linked a b : linked rs a b → linked rs' a b;
  adjoined_link : linked rs' r1 r2;
}.

Lemma cut_adjoined rs rs' r1 r2 : cut rs rs' → linked rs' r1 r2 → adjoined r1 r2 rs rs'.
Proof. intros [A1 A2 A3 A4] H. split; try done. eauto. Qed.

Lemma link_or_saturate_run mx rs r1 r2 :
  graph mx rs → r1 < length rs → r2 < length rs → col rs r1 ≠ col rs r2 →
  ∃ rs', link_or_saturate rs mx r1 r2 = Ok rs' ∧ graph mx rs' ∧ adjoined r1 r2 rs rs'.
Proof.
  intros G H1 H2 Hc. unfold link_or_saturate. rewrite (region_has_run rs r1) by done. simpl.
  destruct (hasf rs r1 SATURATED_REGION_FLAG) eqn:S1.
  { destruct (mark_run mx rs r2 G H2) as (rs' & -> & G' & C & F).
    exists rs'. split_and!; [done|done|]. apply cut_adjoined; [done|].
    right. rewrite !incomplete_alt, F, (cut_flags _ _ C _ _ S1). by rewrite ?orb_true_r. }
  rewrite (region_has_run rs r2) by done. simpl.
  destruct (hasf rs r2 SATURATED_REGION_FLAG) eqn:S2.
  { destruct (mark_run mx rs r1 G H1) as (rs' & -> & G' & C & F).
    exists rs'. split_and!; [done|done|]. apply cut_adjoined; [done|].
    right. rewrite !incomplete_alt, F, (cut_flags _ _ C _ _ S2). by rewrite ?orb_true_r. }
  rewrite (adjacent_count_run rs r1), (adjacent_count_run rs r2) by done. simpl.
  case_decide as N1; [|case_decide as N2].
  - destruct (make_saturated_cut mx rs r1 G H1) as (rs1 & -> & G1 & C1 & F1). simpl.
    assert (L1 := cut_length _ _ C1).
    destruct (mark_run mx rs1 r2 G1) as (rs2 & -> & G2 & C2 & F2); [congruence|]. simpl.
    assert (L2 := cut_length _ _ C2).
    assert (I1 : incomplete rs2 r1 = true)
      by (rewrite incomplete_alt; by rewrite (cut_flags _ _ C2 _ _ F1)).
    assert (I2 : incomplete rs2 r2 = true) by (rewrite incomplete_alt, F2; by rewrite orb_comm).
    rewrite adjacent_count_run by congruence. simpl. case_decide.
    + destruct (make_saturated_cut mx rs2 r2 G2) as (rs3 & -> & G3 & C3 & F3); [congruence|]. simpl.
      assert (L3 := cut_length _ _ C3).
      destruct (mark_run mx rs3 r1 G3) as (rs4 & -> & G4 & C4 & F4); [congruence|].
      assert (C24 : cut rs2 rs4) by (by etrans).
      exists rs4. split_and!; [done|done|]. apply cut_adjoined; [by etrans; [|etrans]|].
      right. split; by eapply cut_incomplete.
    + exists rs2. split_and!; [done|done|]. apply cut_adjoined; [by etrans|by right].
  - destruct (make_saturated_cut mx rs r2 G H2) as (rs1 & -> & G1 & C1 & F1). simpl.
    assert (L1 := cut_length _ _ C1).
    destruct (mark_run mx rs1 r1 G1) as (rs2 & -> & G2 & C2 & F2); [congruence|].
    exists rs2. split_and!; [done|done|]. apply cut_adjoined; [by etrans|].
    right. rewrite !incomplete_alt, F2, (cut_flags _ _ C2 _ _ F1). by rewrite ?orb_true_r.
  - pose proof (graph_length _ _ G r1). pose proof (graph_length _ _ G r2).
    destruct (push_both_run mx rs r1 r2) as (rs1 & rs' & E1 & E2 & G' & R & F & E);
      [done..|lia|lia|done|done|].
    rewrite !bool_decide_true by lia. simpl. rewrite E1. simpl. rewrite E2.
    exists rs'. split_and!; [done|done|]. split; [done| | |].
    + intros a b. rewrite !edges_elem, E. case_decide; [tauto|]. intros; left; lia.
    + intros a b [L|[I1 I2]]; [left|right; unfold incomplete; by rewrite !F].
      apply edges_elem. rewrite E. apply edges_elem in L. lia.
    + left. apply edges_elem. rewrite E, decide_True by tauto. lia.
Qed.

(** [make_adjacent] passes its assertions and leaves the link of the two regions
    known. *)
Lemma make_adjacent_run mx rs r1 r2 :
  graph mx rs → r1 < length rs → r2 < length rs → col rs r1 ≠ col rs r2 →
  ∃ rs', make_adjacent rs mx r1 r2 = Ok rs' ∧ graph mx rs' ∧ adjoined r1 r2 rs rs'.
Proof.
  intros G H1 H2 Hc. unfold make_adjacent. rewrite (is_adjacent_run mx) by done. simpl.
  assert (∃ rs', (if bool_decide (r2 ∈ adj rs r1) then Ok rs else link_or_saturate rs mx r1 r2)
    = Ok rs' ∧ graph mx rs' ∧ adjoined r1 r2 rs rs') as (rs' & -> & G' & A).
  { case_bool_decide; [|by apply link_or_saturate_run].
    exists rs. split_and!; [done|done|]. apply cut_adjoined; [done|by left]. }
  simpl. assert (L := rest_length _ _ (adjoined_rest _ _ _ _ A)).
  rewrite !contains_run by congruence. simpl.
  rewrite (bool_decide_ext (r1 ∈ adj rs' r2) (r2 ∈ adj rs' r1))
    by (split; apply (graph_elem _ _ _ _ G')).
  rewrite eqb_reflx. simpl. eauto.
Qed.

(** ** Merging two regions *)

(** Links [a]–[b] are taken away, one from each list. *)
Lemma unlink_pair mx rs a b ca cb ka kb :
  graph mx rs → a ≠ b → rs !! a = Some ca → rs !! b = Some cb →
  adjacent_regions ca ≡ₚ b :: ka → adjacent_regions cb ≡ₚ a :: kb →
  let rs' := <[b:=set_adjacent_regions kb cb]> (<[a:=set_adjacent_regions ka ca]> rs) in
  graph mx rs' ∧ rest <$> rs' = rest <$> rs ∧ (∀ z f, hasf rs' z f = hasf rs z f) ∧
  (∀ x y, edges rs x y =
     edges rs' x y + (if decide (x = a ∧ y = b ∨ x = b ∧ y = a) then 1 else 0)).
Proof.
  intros G Hne Ha Hb Pa Pb rs'. set (rs1 := <[a:=_]> rs) in rs'.
  pose proof (lookup_lt_Some _ _ _ Ha) as La.
  assert (Hb' : rs1 !! b = Some cb) by (unfold rs1; by rewrite list_lookup_insert_ne).
  pose proof (lookup_lt_Some _ _ _ Hb') as Lb.
  assert (Ab : adj rs' b = kb) by (unfold rs'; by rewrite adj_insert_eq).
  assert (Aa : adj rs' a = ka).
  { unfold rs'. rewrite adj_insert_ne by done. unfold rs1. by rewrite adj_insert_eq. }
  assert (An : ∀ z, z ≠ a → z ≠ b → adj rs' z = adj rs z).
  { intros z ??. unfold rs'. rewrite adj_insert_ne by done. by apply adj_insert_ne. }
  assert (HR : rest <$> rs' = rest <$> rs).
  { unfold rs'. rewrite (rest_insert _ _ _ _ Hb') by done. by apply rest_insert with ca. }
  assert (HF : ∀ z f, hasf rs' z f = hasf rs z f).
  { intros z f. unfold rs', hasf. destruct (decide (z = b)) as [->|].
    { by rewrite fl_insert_eq, (fl_lookup _ _ _ Hb). }
    rewrite fl_insert_ne by done. unfold rs1. destruct (decide (z = a)) as [->|].
    { by rewrite fl_insert_eq, (fl_lookup _ _ _ Ha). } by rewrite fl_insert_ne. }
  assert (HE : ∀ x y, edges rs x y =
     edges rs' x y + (if decide (x = a ∧ y = b ∨ x = b ∧ y = a) then 1 else 0)).
  { intros x y. unfold edges. destruct (decide (x = a)) as [->|]; [|destruct (decide (x = b)) as [->|]].
    - rewrite Aa, (adj_lookup _ _ _ Ha), (occurs_Permutation _ _ _ Pa), occurs_cons.
      repeat case_decide; naive_solver lia.
    - rewrite Ab, (adj_lookup _ _ _ Hb), (occurs_Permutation _ _ _ Pb), occurs_cons.
      repeat case_decide; naive_solver lia.
    - rewrite An by done. rewrite decide_False by tauto. lia. }
  split_and!; try done. split.
  - intros x y. pose proof (HE x y). pose proof (HE y x). pose proof (graph_sym _ _ G x y).
    repeat case_decide; naive_solver lia.
  - intros x y Hxy. rewrite !(rest_col _ _ _ HR). apply (graph_colours _ _ G), edges_elem.
    rewrite HE. apply edges_elem in Hxy. lia.
  - intros x. pose proof (graph_length _ _ G x) as Hx.
    destruct (decide (x = a)) as [->|]; [|destruct (decide (x = b)) as [->|]].
    + rewrite (adj_lookup _ _ _ Ha), Pa in Hx. rewrite Aa. simpl in Hx. lia.
    + rewrite (adj_lookup _ _ _ Hb), Pb in Hx. rewrite Ab. simpl in Hx. lia.
    + by rewrite An.
  - intros x. rewrite HF. intros Hx. apply occurs_all_zero. intros y.
    pose proof (HE x y) as E. unfold edges in E. rewrite (graph_saturated _ _ G _ Hx) in E.
    unfold occurs in E at 1. simpl in E. lia.
Qed.

Lemma drop_common_run mx r1 r2 fuel : ∀ i rs,
  graph mx rs → r1 ≠ r2 → r1 < length rs → r2 < length rs →
  ∃ rs', drop_common rs r1 r2 i fuel = Ok rs' ∧ graph mx rs' ∧ rest <$> rs' = rest <$> rs ∧
    (∀ a f, hasf rs' a f = hasf rs a f) ∧
    (∀ a b, edges rs' a b ≤ edges rs a b) ∧
    (∀ a b, a ≠ r2 → b ≠ r2 → edges rs' a b = edges rs a b) ∧
    (∀ a, a ∈ adj rs r2 → a ∈ adj rs' r2 ∨ a ∈ adj rs' r1).
Proof.
  induction fuel as [|fuel IH]; intros i rs G H12 H1 H2; simpl; [by exists rs; split_and!; auto|].
  pose proof H2 as [b Hb]%lookup_lt_is_Some. rewrite Hb. simpl.
  destruct (adjacent_regions b !! i) as [a|] eqn:Ha; [|by exists rs; split_and!; auto].
  assert (Hab : a ∈ adj rs r2)
    by (rewrite (adj_lookup _ _ _ Hb); by eapply list_elem_of_lookup_2).
  pose proof (graph_elem _ _ _ _ G Hab) as Hba.
  pose proof (adj_in_range _ _ _ Hba) as La.
  rewrite (is_adjacent_run mx) by done. simpl.
  case_bool_decide as Hadj; [|by apply IH].
  assert (Hne : a ≠ r2) by (intros ->; by eapply graph_irrefl in Hab).
  destruct (remove_adjacent_run _ _ _ Hba) as (ca & ka & Hca & -> & Pa). simpl.
  rewrite (upd_run _ _ _ b) by (by rewrite list_lookup_insert_ne). simpl.
  destruct (unlink_pair mx rs a r2 ca b ka (swap_remove i (adjacent_regions b)))
    as (G1 & R1 & F1 & E1); [done..|by apply swap_remove_perm|].
  set (rs1 := <[r2:=_]> _) in *. assert (L := rest_length _ _ R1).
  destruct (IH (S i) rs1) as (rs' & -> & G' & R & F & Ele & Eeq & K);
    [done|done|congruence..|].
  exists rs'. split_and!; [done|done|congruence|intros; by rewrite F| | |].
  - intros x y. specialize (Ele x y). specialize (E1 x y). lia.
  - intros x y Hx Hy. rewrite Eeq by done. specialize (E1 x y).
    rewrite decide_False in E1 by naive_solver. lia.
  - intros z Hz. destruct (decide (z = a)) as [->|Hza].
    + right. apply edges_elem. rewrite (graph_sym _ _ G'), Eeq by done.
      apply edges_elem in Hadj. specialize (E1 a r1).
      rewrite decide_False in E1 by naive_solver. lia.
    + apply K. apply edges_elem. apply edges_elem in Hz. specialize (E1 r2 z).
      rewrite decide_False in E1 by naive_solver. lia.
Qed.

(** Handing the list of [r2] over to [r1]. *)
Lemma transfer_run mx r1 r2 n : ∀ i rs,
  r1 ≠ r2 → r1 < length rs → i + n = length (adj rs r2) →
  r1 ∉ adj rs r2 → r2 ∉ adj rs r2 →
  (∀ a, a ≠ r2 → edges rs a r2 = occurs (drop i (adj rs r2)) a) →
  length (adj rs r1) + n ≤ mx → (∀ a, length (adj rs a) ≤ mx) →
  ∃ rs', transfer rs mx r1 r2 i n = Ok rs' ∧ rest <$> rs' = rest <$> rs ∧
    (∀ a f, hasf rs' a f = hasf rs a f) ∧ rs' !! r2 = rs !! r2 ∧
    (∀ a, length (adj rs' a) ≤ mx) ∧
    (∀ a b, a ≠ r2 → edges rs' a b =
       if decide (b = r2) then 0
       else edges rs a b + (if decide (a = r1) then occurs (drop i (adj rs r2)) b
            else if decide (b = r1) then occurs (drop i (adj rs r2)) a else 0)).
Proof.
  induction n as [|n IH]; intros i rs H12 H1 Hn Hr1 Hr2 Hocc Hsum Hlen; simpl.
  { exists rs. rewrite drop_ge in * by lia. split_and!; try done.
    intros a b Ha. case_decide; [subst b; by rewrite Hocc|].
    unfold occurs. simpl. repeat case_decide; lia. }
  destruct (lookup_lt_is_Some_2 (adj rs r2) i) as [a Ha]; [lia|].
  assert (Hd : drop i (adj rs r2) = a :: drop (S i) (adj rs r2)) by (by apply drop_S).
  assert (Hin2 : a ∈ adj rs r2) by (by eapply list_elem_of_lookup_2).
  assert (a ≠ r2 ∧ a ≠ r1) as [Ha2 Ha1] by (split; congruence).
  assert (Hin : r2 ∈ adj rs a).
  { apply edges_elem. rewrite Hocc, Hd, occurs_cons, decide_True by done. lia. }
  destruct (rs !! r2) as [b|] eqn:Hb; [|unfold adj in Ha; by rewrite Hb in Ha].
  simpl. pose proof Ha as Ha'. rewrite (adj_lookup _ _ _ Hb) in Ha'. rewrite Ha'. simpl.
  destruct (replace_adjacent_run rs a r2 r1 Hin) as (c & k & Hc & -> & Hk). simpl.
  pose proof H1 as [d Hd1]%lookup_lt_is_Some.
  pose proof (lookup_lt_Some _ _ _ Hc) as Lc.
  assert (length k = length (adjacent_regions c)) as Lk
    by (apply Permutation_length in Hk; simpl in Hk; lia).
  rewrite (push_adjacent_run _ _ _ _ d);
    [|by rewrite list_lookup_insert_ne|rewrite <-(adj_lookup _ _ _ Hd1); lia]. simpl.
  set (rs0 := <[a:=_]> rs). set (rs1 := <[r1:=_]> rs0).
  assert (L1 : r1 < length rs0) by (unfold rs0; by rewrite length_insert).
  assert (A1 : adj rs1 r1 = adj rs r1 ++ [a])
    by (unfold rs1; by rewrite adj_insert_eq, (adj_lookup _ _ _ Hd1)).
  assert (Aa : adj rs1 a = k).
  { unfold rs1. rewrite adj_insert_ne by done. unfold rs0. by rewrite adj_insert_eq. }
  assert (An : ∀ z, z ≠ r1 → z ≠ a → rs1 !! z = rs !! z).
  { intros z ??. unfold rs1. rewrite list_lookup_insert_ne by done.
    unfold rs0. by rewrite list_lookup_insert_ne. }
  assert (An' : ∀ z, z ≠ r1 → z ≠ a → adj rs1 z = adj rs z)
    by (intros; unfold adj; by rewrite An).
  assert (La : length (adj rs1 a) ≤ mx)
    by (rewrite Aa, Lk, <-(adj_lookup _ _ _ Hc); apply Hlen).
  assert (Lr : length (adj rs1 r1) + n ≤ mx) by (rewrite A1, length_app; simpl; lia).
  assert (Lrs : length rs1 = length rs) by (unfold rs1, rs0; by rewrite !length_insert).
  rewrite !adjacent_count_run by congruence. simpl. rewrite !bool_decide_true by lia. simpl.
  assert (E1 : ∀ x y, x ≠ r2 → edges rs1 x y + (if decide (x = a ∧ y = r2) then 1 else 0) =
    edges rs x y + (if decide (x = a ∧ y = r1 ∨ x = r1 ∧ y = a) then 1 else 0)).
  { intros x y Hx. unfold edges. destruct (decide (x = a)) as [->|]; [|destruct (decide (x = r1)) as [->|]].
    - rewrite Aa, (adj_lookup _ _ _ Hc).
      pose proof (occurs_Permutation _ _ y Hk) as P. rewrite !occurs_cons in P.
      repeat case_decide; naive_solver lia.
    - rewrite A1, occurs_app, occurs_cons. unfold occurs at 2. simpl. repeat case_decide; naive_solver lia.
    - rewrite An' by done. repeat case_decide; naive_solver. }
  assert (Er2 : adj rs1 r2 = adj rs r2) by (apply An'; congruence).
  destruct (IH (S i) rs1) as (rs' & Hrun & R & F & Hr & Hl & E).
  { done. } { congruence. } { rewrite Er2. lia. } { by rewrite Er2. } { by rewrite Er2. }
  { intros x Hx. rewrite Er2. specialize (Hocc x Hx). rewrite Hd, occurs_cons in Hocc.
    specialize (E1 x r2 Hx). repeat case_decide; naive_solver lia. }
  { done. }
  { intros x. destruct (decide (x = r1)) as [->|]; [lia|].
    destruct (decide (x = a)) as [->|]; [done|]. rewrite An' by done. apply Hlen. }
  exists rs'. split_and!; [done| | | |done|].
  - rewrite R. unfold rs1, rs0. rewrite (rest_insert _ _ d) by (by rewrite ?list_lookup_insert_ne).
    by apply rest_insert with c.
  - intros x f. rewrite F. unfold hasf, rs1, rs0. destruct (decide (x = r1)) as [->|].
    { by rewrite fl_insert_eq, (fl_lookup _ _ _ Hd1). }
    rewrite fl_insert_ne by done. destruct (decide (x = a)) as [->|].
    { by rewrite fl_insert_eq, (fl_lookup _ _ _ Hc). } by rewrite fl_insert_ne.
  - rewrite Hr, An; congruence.
  - intros x y Hx. rewrite E, Er2 by done. case_decide; [done|]. specialize (E1 x y Hx).
    rewrite Hd, !occurs_cons. repeat case_decide; naive_solver lia.
Qed.

(** Where a region is after [r2] was merged into [r1]. *)
Definition redirected (r1 r2 z : nat) : nat := if decide (z = r2) then r1 else z.

(** What merging does to the links; the flags of [r1] and [r2] are still apart. *)
Record merged (r1 r2 : nat) (rs rs' : list region) : Prop := Merged {
  merged_rest : rest <$> rs' = rest <$> rs;
  merged_empty : adj rs' r2 = [];
  merged_saturated : hasf rs' r2 SATURATED_REGION_FLAG = true → adj rs' r1 = [];
  merged_sub a b : b ∈ adj rs' a →
    ∃ a0 b0, b0 ∈ adj rs a0 ∧ redirected r1 r2 a0 = a ∧ redirected r1 r2 b0 = b;
  merged_linked a b : linked rs a b →
    redirected r1 r2 b ∈ adj rs' (redirected r1 r2 a) ∨
    incomplete rs' a = true ∧ incomplete rs' b = true;
}.

Lemma elem_of_empty_list {A} (l : list A) x : l = [] → x ∉ l.
Proof. intros ->. apply not_elem_of_nil. Qed.

Lemma cut_merged mx r1 r2 rs rs' :
  cut rs rs' → graph mx rs' →
  hasf rs' r1 SATURATED_REGION_FLAG = true → hasf rs' r2 SATURATED_REGION_FLAG = true →
  merged r1 r2 rs rs'.
Proof.
  intros C G S1%(graph_saturated _ _ G) S2%(graph_saturated _ _ G).
  assert (Hr : ∀ a b, b ∈ adj rs' a → redirected r1 r2 a = a ∧ redirected r1 r2 b = b).
  { intros a b Hab. unfold redirected. rewrite !decide_False; [done| |].
    - intros ->. apply (graph_elem _ _ _ _ G) in Hab. by eapply elem_of_empty_list in Hab.
    - intros ->. by eapply elem_of_empty_list in Hab. }
  split; [apply (cut_rest _ _ C)|done|done| |].
  - intros a b Hab. destruct (Hr _ _ Hab). exists a, b. eauto using cut_sub.
  - intros a b Hl. destruct (cut_linked _ _ C _ _ Hl) as [Hab|?]; [|by right].
    left. by destruct (Hr _ _ Hab) as [-> ->].
Qed.

Lemma hand_over_merged mx rs r1 r2 :
  graph mx rs → r1 ≠ r2 → r1 < length rs → r2 < length rs → col rs r1 = col rs r2 →
  hasf rs r1 SATURATED_REGION_FLAG = false → hasf rs r2 SATURATED_REGION_FLAG = false →
  length (adj rs r1) + length (adj rs r2) ≤ mx →
  ∃ rs1 rs', transfer rs mx r1 r2 0 (length (adj rs r2)) = Ok rs1 ∧
    upd rs1 r2 (set_adjacent_regions []) = Ok rs' ∧ graph mx rs' ∧ merged r1 r2 rs rs' ∧
    (∀ a b, b ∈ adj rs a → redirected r1 r2 b ∈ adj rs' (redirected r1 r2 a)).
Proof.
  intros G H12 H1 H2 Hc S1 S2 Hsum.
  assert (N1 : r1 ∉ adj rs r2) by (intros ?%(graph_colours _ _ G); congruence).
  assert (N2 : r2 ∉ adj rs r2) by (by eapply graph_irrefl).
  assert (N3 : r1 ∉ adj rs r1) by (by eapply graph_irrefl).
  destruct (transfer_run mx r1 r2 (length (adj rs r2)) 0 rs)
    as (rs1 & Hrun & R1 & F1 & Hr & Hl & E);
    [done..|intros; apply (graph_sym _ _ G)|done|apply (graph_length _ _ G)|].
  pose proof H2 as [b Hb]%lookup_lt_is_Some. rewrite Hb in Hr.
  pose proof (lookup_lt_Some _ _ _ Hr) as L2.
  exists rs1. rewrite (upd_run _ _ _ _ Hr). set (rs' := <[r2:=_]> rs1). exists rs'.
  assert (R' : rest <$> rs' = rest <$> rs) by (rewrite <-R1; by apply rest_insert with b).
  assert (F' : ∀ a f, hasf rs' a f = hasf rs a f).
  { intros a f. rewrite <-F1. unfold hasf, rs'. destruct (decide (a = r2)) as [->|].
    - by rewrite fl_insert_eq, (fl_lookup _ _ _ Hr). - by rewrite fl_insert_ne. }
  assert (E' : ∀ x y, edges rs' x y = if decide (x = r2 ∨ y = r2) then 0 else
    edges rs x y + (if decide (x = r1) then edges rs r2 y
      else if decide (y = r1) then edges rs r2 x else 0)).
  { intros x y. unfold rs'. destruct (decide (x = r2)) as [->|].
    - rewrite decide_True by auto. unfold edges. by rewrite adj_insert_eq.
    - rewrite edges_insert_ne, E by done. repeat case_decide; naive_solver. }
  assert (L' : ∀ x, length (adj rs' x) ≤ mx).
  { intros x. unfold rs'. destruct (decide (x = r2)) as [->|]; [|by rewrite adj_insert_ne].
    rewrite adj_insert_eq by done. simpl. lia. }
  clearbody rs'. apply occurs_zero in N1, N2, N3.
  assert (K : ∀ x y, y ∈ adj rs x → redirected r1 r2 y ∈ adj rs' (redirected r1 r2 x)).
  { intros x y Hxy. apply edges_elem in Hxy. apply edges_elem. rewrite E'. unfold redirected.
    pose proof (graph_sym _ _ G x y). unfold edges in *. repeat case_decide; naive_solver lia. }
  split_and!; [done..| | |done].
  - split.
    + intros x y. rewrite !E', (graph_sym _ _ G x y). unfold edges in *.
      repeat case_decide; naive_solver.
    + intros x y. rewrite edges_elem, E', !(rest_col _ _ _ R').
      repeat case_decide; subst; intros Hp; try (exfalso; tauto || lia).
      * destruct (decide (0 < edges rs r1 y)) as [?%edges_elem|];
          [by apply (graph_colours _ _ G)|].
        rewrite Hc. apply (graph_colours _ _ G), edges_elem. lia.
      * destruct (decide (0 < edges rs x r1)) as [?%edges_elem|];
          [by apply (graph_colours _ _ G)|].
        rewrite Hc. apply not_eq_sym, (graph_colours _ _ G), edges_elem. lia.
      * apply (graph_colours _ _ G), edges_elem. lia.
    + done.
    + intros x. rewrite F'. intros Hx. apply occurs_all_zero. intros y. fold (edges rs' x y).
      assert (Z : ∀ z, edges rs x z = 0)
        by (intros z; unfold edges; by rewrite (graph_saturated _ _ G _ Hx)).
      rewrite E', Z, (graph_sym _ _ G r2 x), Z. repeat case_decide; simpl; congruence.
  - split; [done| | | |].
    + apply occurs_all_zero. intros y. fold (edges rs' r2 y). by rewrite E', decide_True by auto.
    + rewrite F'. congruence.
    + intros x y Hxy. apply edges_elem in Hxy. rewrite E' in Hxy. unfold redirected.
      assert (HD : ∀ z, z ≠ r2 → (if decide (z = r2) then r1 else z) = z)
        by (intros; by rewrite decide_False).
      case_decide as D; [lia|]. destruct (decide (0 < edges rs x y)) as [?%edges_elem|].
      { exists x, y. rewrite !HD by tauto. done. }
      case_decide; [subst x|case_decide; [subst y|lia]].
      * exists r2, y. rewrite (decide_True (P:=r2 = r2)), HD by (done || tauto). rewrite edges_elem. split_and!; [lia|done..].
      * exists x, r2. rewrite (decide_True (P:=r2 = r2)), HD by (done || tauto). rewrite edges_elem, (graph_sym _ _ G).
        split_and!; [lia|done..].
    + intros x y [Hxy|[I1 I2]]; [left; auto|right; unfold incomplete; by rewrite !F'].
Qed.

(** [merge_regions] on the lists: no assertion fails. *)
Lemma merge_adjacent_run mx rs r1 r2 :
  graph mx rs → r1 ≠ r2 → r1 < length rs → r2 < length rs → col rs r1 = col rs r2 →
  ∃ rs', merge_adjacent rs mx r1 r2 = Ok rs' ∧ graph mx rs' ∧ merged r1 r2 rs rs'.
Proof.
  intros G H12 H1 H2 Hc. unfold merge_adjacent. rewrite (region_has_run rs r1) by done. simpl.
  destruct (hasf rs r1 SATURATED_REGION_FLAG) eqn:S1.
  { destruct (make_saturated_cut mx rs r2 G H2) as (rs1 & -> & G1 & C1 & F1). simpl.
    assert (L1 := cut_length _ _ C1). rewrite region_has_run, F1 by congruence. simpl.
    destruct (make_saturated_cut mx rs1 r1 G1) as (rs2 & -> & G2 & C2 & F2); [congruence|].
    exists rs2. split_and!; [done|done|]. eapply cut_merged; [by etrans|done|done|].
    by apply (cut_flags _ _ C2). }
  rewrite (region_has_run rs r2) by done. simpl.
  destruct (hasf rs r2 SATURATED_REGION_FLAG) eqn:S2.
  { destruct (make_saturated_cut mx rs r1 G H1) as (rs1 & -> & G1 & C1 & F1).
    exists rs1. split_and!; [done|done|]. eapply cut_merged; [done..|].
    by apply (cut_flags _ _ C1). }
  rewrite (adjacent_count_run rs r2) by done. simpl.
  destruct (drop_common_run mx r1 r2 (length (adj rs r2)) 0 rs)
    as (rs1 & -> & G1 & R1 & F1 & Ele & Eeq & K); [done..|]. simpl.
  assert (L1 := rest_length _ _ R1).
  rewrite (adjacent_count_run rs1 r1), (adjacent_count_run rs1 r2) by congruence. simpl.
  assert (K1 : ∀ a b, linked rs a b → linked rs1 a b ∨
    a = r2 ∧ b ∈ adj rs1 r1 ∨ b = r2 ∧ a ∈ adj rs1 r1).
  { intros a b [Hab|?]; [|by left; right; unfold incomplete; rewrite !F1].
    destruct (decide (a = r2)) as [->|]; [destruct (K _ Hab); [by left; left|tauto]|].
    destruct (decide (b = r2)) as [->|].
    { apply (graph_elem _ _ _ _ G) in Hab. destruct (K _ Hab); [|tauto].
      left; left. by apply (graph_elem _ _ _ _ G1). }
    left; left. apply edges_elem. rewrite Eeq by done. by apply edges_elem. }
  assert (Sub : ∀ a b, b ∈ adj rs1 a → b ∈ adj rs a).
  { intros a b. rewrite !edges_elem. specialize (Ele a b). lia. }
  case_decide as Hs.
  - destruct (make_saturated_cut mx rs1 r1 G1) as (rs2 & -> & G2 & C2 & F2); [congruence|]. simpl.
    destruct (make_saturated_cut mx rs2 r2 G2) as (rs3 & -> & G3 & C3 & F3).
    { rewrite (cut_length _ _ C2). congruence. }
    assert (C : cut rs1 rs3) by (by etrans).
    apply (cut_flags _ _ C3) in F2.
    destruct (cut_merged mx r1 r2 rs1 rs3 C G3 F2 F3) as [M1 M2 MS M3 M4].
    assert (I : ∀ z, z ∈ adj rs1 r1 → incomplete rs3 z = true).
    { intros z Hz. destruct (cut_linked _ _ C r1 z) as [Hz'|[_ ?]]; [by left| |done].
      apply (graph_saturated _ _ G3) in F2. by eapply elem_of_empty_list in Hz'. }
    assert (I2 : incomplete rs3 r2 = true) by (by rewrite incomplete_alt, F3).
    exists rs3. split_and!; [done|done|]. split; [congruence|done|done| |].
    + intros a b (a0 & b0 & ?%Sub & ?)%M3. eauto.
    + intros a b [?|[[-> ?]|[-> ?]]]%K1; [by apply M4|right; split; auto..].
  - destruct (hand_over_merged mx rs1 r1 r2) as (rs2 & rs' & -> & Hu & G' & [M1 M2 MS M3 M4] & M5);
      [done|done|congruence|congruence|by rewrite !(rest_col _ _ _ R1)|by rewrite F1..|lia|].
    simpl. exists rs'. split_and!; [done|done|]. split; [congruence|done|done| |].
    + intros a b (a0 & b0 & ?%Sub & ?)%M3. eauto.
    + intros a b [?|[[-> H]|[-> H]]]%K1; [by apply M4|left..]; apply M5 in H;
        unfold redirected in *; rewrite (decide_False (P:=r1 = r2)) in H by done;
        rewrite (decide_True (P:=r2 = r2)) by done; [done|].
      by apply (graph_elem _ _ _ _ G').
Qed.

Lemma graph_insert_same mx rs r a b :
  graph mx rs → rs !! r = Some a → adjacent_regions b = adjacent_regions a →
  colour b = colour a →
  (has_flag (flags b) SATURATED_REGION_FLAG = true →
   has_flag (flags a) SATURATED_REGION_FLAG = true ∨ adjacent_regions a = []) →
  graph mx (<[r:=b]> rs).
Proof.
  intros G Ha Hadj Hcol Hsat. pose proof (lookup_lt_Some _ _ _ Ha) as Hr.
  assert (A : ∀ z, adj (<[r:=b]> rs) z = adj rs z).
  { intros z. destruct (decide (z = r)) as [->|]; [|by apply adj_insert_ne].
    by rewrite adj_insert_eq, (adj_lookup _ _ _ Ha). }
  assert (C : ∀ z, col (<[r:=b]> rs) z = col rs z).
  { intros z. unfold col. destruct (decide (z = r)) as [->|]; [|by rewrite list_lookup_insert_ne].
    rewrite list_lookup_insert_eq, Ha by done. simpl. congruence. }
  split.
  - intros x y. unfold edges. rewrite !A. apply (graph_sym _ _ G).
  - intros x y. rewrite A, !C. apply (graph_colours _ _ G).
  - intros x. rewrite A. apply (graph_length _ _ G).
  - intros x. rewrite A. destruct (decide (x = r)) as [->|].
    + unfold hasf. rewrite fl_insert_eq by done. intros [H|H]%Hsat; [|by rewrite (adj_lookup _ _ _ Ha)].
      apply (graph_saturated _ _ G). unfold hasf. by rewrite (fl_lookup _ _ _ Ha).
    + rewrite hasf_insert_ne by done. apply (graph_saturated _ _ G).
Qed.

Lemma rest_merge_data a a' b b' :
  rest a' = rest a → rest b' = rest b → rest (merge_data b' a') = rest (merge_data b a).
Proof.
  destruct a, a', b, b'. unfold rest, merge_data, or_flag, set_flags, set_box, set_adjacent_regions.
  simpl. intros E1 E2. injection E1. injection E2. intros. subst.
  rewrite !Z.land_lor_distr_l. congruence.
Qed.

Lemma rest_lookup (rs rs' : list region) r a :
  rest <$> rs' = rest <$> rs → rs !! r = Some a → ∃ a', rs' !! r = Some a' ∧ rest a' = rest a.
Proof.
  intros E H. assert (F : rest <$> rs' !! r = rest <$> rs !! r)
    by (by rewrite <-!list_lookup_fmap, E).
  rewrite H in F. destruct (rs' !! r) as [a'|]; [|done]. exists a'. split; [done|]. change (Some (rest a') = Some (rest a)) in F. congruence.
Qed.

(** [merge_regions] passes its assertions; every link of [r2] is known for [r1]
    afterwards, and [r1] has the flags and the box of both. *)
Lemma merge_regions_run mx rs r1 r2 a b :
  graph mx rs → r1 ≠ r2 → rs !! r1 = Some a → rs !! r2 = Some b → colour a = colour b →
  ∃ rs' c, merge_regions rs mx r1 r2 = Ok rs' ∧ graph mx rs' ∧ adj rs' r2 = [] ∧
    rs' !! r1 = Some c ∧ rest c = rest (merge_data b a) ∧ length rs' = length rs ∧
    (∀ z, z ≠ r1 → rest <$> rs' !! z = rest <$> rs !! z) ∧
    (∀ x y, y ∈ adj rs' x →
      ∃ x0 y0, y0 ∈ adj rs x0 ∧ redirected r1 r2 x0 = x ∧ redirected r1 r2 y0 = y) ∧
    (∀ x y, linked rs x y → linked rs' (redirected r1 r2 x) (redirected r1 r2 y)).
Proof.
  intros G H12 Ha Hb Hc.
  pose proof (lookup_lt_Some _ _ _ Ha) as L1. pose proof (lookup_lt_Some _ _ _ Hb) as L2.
  assert (Hcol : col rs r1 = col rs r2) by (unfold col; rewrite Ha, Hb; simpl; congruence).
  unfold merge_regions. rewrite bool_decide_true by done. simpl.
  rewrite !contains_run by done. simpl.
  rewrite !bool_decide_false by (intros ?%(graph_colours _ _ G); congruence). simpl.
  destruct (merge_adjacent_run mx rs r1 r2) as (rs1 & -> & G1 & [R M2 MS M3 M4]); [done..|]. simpl.
  destruct (rest_lookup _ _ _ _ R Ha) as (a' & Ha' & Ra).
  destruct (rest_lookup _ _ _ _ R Hb) as (b' & Hb' & Rb).
  rewrite Hb'. simpl. rewrite (upd_run _ _ _ _ Ha'). simpl.
  pose proof (lookup_lt_Some _ _ _ Ha') as L1'.
  rewrite list_lookup_insert_eq by done. simpl.
  assert (forallb (λ z, bool_decide (z ∈ adjacent_regions a')) (adjacent_regions a') = true) as ->.
  { apply forallb_forall. intros z Hz. by apply bool_decide_eq_true, list_elem_of_In. }
  simpl. set (rs' := <[r1:=_]> rs1). exists rs', (merge_data b' a').
  assert (A : ∀ z, adj rs' z = adj rs1 z).
  { intros z. unfold rs'. destruct (decide (z = r1)) as [->|]; [|by apply adj_insert_ne].
    by rewrite adj_insert_eq, (adj_lookup _ _ _ Ha'). }
  assert (F : ∀ z f, hasf rs1 z f = true → hasf rs' (redirected r1 r2 z) f = true).
  { intros z f Hz. unfold redirected, hasf, rs' in *.
    destruct (decide (z = r2)) as [->|]; [|destruct (decide (z = r1)) as [->|]].
    - rewrite fl_insert_eq by done. rewrite (fl_lookup _ _ _ Hb') in Hz.
      simpl. by rewrite has_flag_lor, Hz, orb_true_r.
    - rewrite fl_insert_eq by done. rewrite (fl_lookup _ _ _ Ha') in Hz.
      simpl. by rewrite has_flag_lor, Hz.
    - by rewrite fl_insert_ne. }
  split_and!; [done| |by rewrite A|by unfold rs'; rewrite list_lookup_insert_eq
    |by apply rest_merge_data|unfold rs'; rewrite length_insert; by apply rest_length| | |].
  - apply graph_insert_same with a'; try done.
    simpl. rewrite has_flag_lor. intros [?|Hs]%orb_true_iff; [by left|right].
    rewrite <-(adj_lookup _ _ _ Ha'). apply MS. unfold hasf. by rewrite (fl_lookup _ _ _ Hb').
  - intros z Hz. unfold rs'. rewrite list_lookup_insert_ne by done.
    by rewrite <-!list_lookup_fmap, R.
  - intros x y. rewrite A. apply M3.
  - intros x y [?|[??]]%M4; [left; by rewrite A|right; split; by apply F].
Qed.
