(* ===== verification/SegmentLabels.v ===== *)
(** The pixels behind the regions of the segmenter: a label for each pixel seen so
    far, and what the labels, the links and the boxes of the regions owe to the
    pairs of neighbouring pixels that were looked at.  One lemma for each thing the
    pass over the image does to them. *)
From stdpp Require Import relations.
From S2P Require Import Prelude Segment SegmentGraph.
Local Open Scope nat_scope.

Section labels.
Variable source : list Z.
Variable w : nat.
Variable mx : nat.

(** Pixel [i] is in column [X i] of row [Y i]. *)
Definition X (i : nat) : Z := Z.of_nat (i `mod` w).
Definition Y (i : nat) : Z := Z.of_nat (i / w).

(** [nb] holds the pairs of neighbours looked at so far. *)
Implicit Types nb : nat → nat → Prop.
Definition plus nb (i j : nat) : nat → nat → Prop := λ a b, nb a b ∨ a = i ∧ b = j.
Definition alike nb (i j : nat) : Prop := nb i j ∧ source !! i = source !! j.

(** ** Labels and connected pixels *)

(** Two pixels have the same label when pairs of neighbours of the same colour lead
    from one to the other, and only then. *)
Record labels (L : list nat) nb : Prop := Labels {
  labels_range i j : nb i j → i < length L ∧ j < length L;
  labels_sound i j r : L !! i = Some r → L !! j = Some r → rtsc (alike nb) i j;
  labels_complete i j : nb i j → source !! i = source !! j → L !! i = L !! j;
}.

Lemma rtsc_plus nb i j a b : rtsc (alike nb) a b → rtsc (alike (plus nb i j)) a b.
Proof. apply (rtsc_congruence id). intros x y [??]. split; [by left|done]. Qed.
Lemma rtsc_pair nb i j : source !! i = source !! j → rtsc (alike (plus nb i j)) i j.
Proof. intros H. apply rtsc_lr. split; [by right|done]. Qed.

Lemma labels_new L nb r : labels L nb → r ∉ L → labels (L ++ [r]) nb.
Proof.
  intros [A B C] Hr. split.
  - intros i j ?%A. rewrite length_app. lia.
  - intros i j z. rewrite !lookup_snoc_Some.
    intros [[? Hi]|[-> <-]] [[? Hj]|[-> E]]; [by eapply B| | |done].
    + subst z. by apply list_elem_of_lookup_2 in Hi.
    + by apply list_elem_of_lookup_2 in Hj.
  - intros i j Hn Hs. destruct (A _ _ Hn). rewrite !lookup_app_l by done. by apply C.
Qed.

Lemma labels_join L nb m r :
  labels L nb → L !! m = Some r → source !! m = source !! length L →
  labels (L ++ [r]) (plus nb m (length L)).
Proof.
  intros [A B C] Hm Hs. pose proof (lookup_lt_Some _ _ _ Hm) as Lm.
  pose proof (rtsc_pair nb _ _ Hs) as Hp. split.
  - intros i j [?%A|[-> ->]]; rewrite length_app; simpl; lia.
  - intros i j z. rewrite !lookup_snoc_Some.
    intros [[? Hi]|[-> <-]] [[? Hj]|[-> E]]; [|subst z| |done].
    + apply rtsc_plus. by eapply B.
    + etrans; [|exact Hp]. apply rtsc_plus. by eapply B.
    + etrans; [symmetry; exact Hp|]. apply rtsc_plus. by eapply B.
  - intros i j [Hn|[-> ->]] E.
    + destruct (A _ _ Hn). rewrite !lookup_app_l by done. by apply C.
    + rewrite lookup_app_l, lookup_app_r, Nat.sub_diag by lia. done.
Qed.

Lemma labels_plus L nb i j :
  labels L nb → i < length L → j < length L → (source !! i = source !! j → L !! i = L !! j) →
  labels L (plus nb i j).
Proof.
  intros [A B C] Hi Hj H. split.
  - intros a b [?%A|[-> ->]]; auto.
  - intros a b r Ha Hb. apply rtsc_plus. by eapply B.
  - intros a b [?|[-> ->]]; auto.
Qed.

Lemma lookup_redirected r1 r2 (L : list nat) i r :
  (redirected r1 r2 <$> L) !! i = Some r → ∃ z, L !! i = Some z ∧ redirected r1 r2 z = r.
Proof. rewrite list_lookup_fmap. destruct (L !! i); naive_solver. Qed.
Lemma redirected_cases r1 r2 z r :
  redirected r1 r2 z = r → z = r ∨ z = r2 ∧ r = r1.
Proof. unfold redirected. case_decide; naive_solver. Qed.

Lemma labels_merge L nb i j r1 r2 :
  labels L nb → L !! i = Some r1 → L !! j = Some r2 → source !! i = source !! j →
  labels (redirected r1 r2 <$> L) (plus nb i j).
Proof.
  intros [A B C] Hi Hj Hs.
  pose proof (lookup_lt_Some _ _ _ Hi). pose proof (lookup_lt_Some _ _ _ Hj).
  assert (Hall : ∀ a z, L !! a = Some z → redirected r1 r2 z = r1 → rtsc (alike (plus nb i j)) a i).
  { intros a z Ha [->|[-> _]]%redirected_cases; [apply rtsc_plus; by eapply B|].
    etrans; [apply rtsc_plus; by eapply (B a j)|]. symmetry. by apply rtsc_pair. }
  split.
  - intros a b [?%A|[-> ->]]; rewrite length_fmap; auto.
  - intros a b r (za & Ha & Ea)%lookup_redirected (zb & Hb & Eb)%lookup_redirected.
    destruct (decide (r = r1)) as [->|Hne].
    { etrans; [by eapply Hall|]. symmetry. by eapply Hall. }
    apply redirected_cases in Ea as [->|[_ ?]], Eb as [->|[_ ?]]; try done.
    apply rtsc_plus. by eapply B.
  - intros a b [Hn|[-> ->]] E; rewrite !list_lookup_fmap.
    + by rewrite (C _ _ Hn E).
    + rewrite Hi, Hj. simpl. f_equal. unfold redirected.
      rewrite (decide_True (P:=r2 = r2)) by done. by case_decide.
Qed.

(** ** Links and neighbouring regions *)

Record links_of (rs : list region) (freed : list nat) (L : list nat) nb : Prop := Links {
  links_graph : graph mx rs;
  links_freed r : r ∈ freed → adj rs r = [];
  links_sound a b : b ∈ adj rs a →
    ∃ i j, (nb i j ∨ nb j i) ∧ L !! i = Some a ∧ L !! j = Some b;
  links_complete i j a b : nb i j → source !! i ≠ source !! j →
    L !! i = Some a → L !! j = Some b → linked rs a b;
}.

Lemma linked_sym rs a b : graph mx rs → linked rs a b → linked rs b a.
Proof. intros G [H|[??]]; [left; by eapply graph_elem|by right]. Qed.

Lemma links_pixel rs freed L nb r :
  labels L nb → links_of rs freed L nb → links_of rs freed (L ++ [r]) nb.
Proof.
  intros HL [A B C D]. split; [done..| |].
  - intros a b (i & j & H & Hi & Hj)%C. exists i, j. split; [done|].
    split; by apply lookup_app_l_Some.
  - intros i j a b Hn Hs. destruct (labels_range _ _ HL _ _ Hn).
    rewrite !lookup_app_l by done. by apply D.
Qed.

Lemma links_plus rs freed L nb i j :
  links_of rs freed L nb →
  (∀ a b, L !! i = Some a → L !! j = Some b → source !! i ≠ source !! j → linked rs a b) →
  links_of rs freed L (plus nb i j).
Proof.
  intros [A B C D] H. split; [done..| |].
  - intros a b (x & y & Hn & ?)%C. exists x, y. unfold plus. tauto.
  - intros x y a b [?|[-> ->]]; eauto.
Qed.

Lemma links_adjoin rs rs' freed L nb i j a b :
  links_of rs freed L nb → graph mx rs' → adjoined a b rs rs' →
  L !! i = Some b → L !! j = Some a → a ∉ freed → b ∉ freed →
  links_of rs' freed L (plus nb i j).
Proof.
  intros [A B C D] G [R S K M] Hi Hj Fa Fb. split; [done| | |].
  - intros r Hr. apply elem_of_nil_inv. intros z [Hz|[[-> _]|[-> _]]]%S; [|done..].
    rewrite B in Hz by done. by apply elem_of_nil in Hz.
  - intros x y [(i' & j' & Hn & ?)%C|[[-> ->]|[-> ->]]]%S.
    + exists i', j'. unfold plus. tauto.
    + exists j, i. unfold plus. tauto.
    + exists i, j. unfold plus. tauto.
  - intros i' j' x y [Hn|[-> ->]] Hs Hx Hy; [apply K; by eapply D|].
    simplify_eq. by apply linked_sym.
Qed.

Lemma redirected_ne r1 r2 z : r1 ≠ r2 → redirected r1 r2 z ≠ r2.
Proof. unfold redirected. by case_decide. Qed.

Lemma links_merge rs rs1 freed L nb r1 r2 b :
  links_of rs freed L nb → r1 ≠ r2 → r1 ∉ freed → graph mx rs1 → adj rs1 r2 = [] →
  rs1 !! r2 = Some b →
  (∀ x y, y ∈ adj rs1 x →
    ∃ x0 y0, y0 ∈ adj rs x0 ∧ redirected r1 r2 x0 = x ∧ redirected r1 r2 y0 = y) →
  (∀ x y, linked rs x y → linked rs1 (redirected r1 r2 x) (redirected r1 r2 y)) →
  links_of (<[r2:=set_flags FREE_REGION_FLAG b]> rs1) (r2 :: freed) (redirected r1 r2 <$> L) nb.
Proof.
  intros [A B C D] H12 F1 G1 E1 Hb S1 K1. pose proof (lookup_lt_Some _ _ _ Hb) as Lb.
  set (b' := set_flags _ b).
  assert (HA : ∀ z, adj (<[r2:=b']> rs1) z = adj rs1 z).
  { intros z. destruct (decide (z = r2)) as [->|]; [|by apply adj_insert_ne].
    by rewrite adj_insert_eq, (adj_lookup _ _ _ Hb). }
  split.
  - by apply graph_insert_same with b.
  - intros r [->|Hr]%elem_of_cons; rewrite HA; [done|]. apply elem_of_nil_inv.
    intros z (x0 & y0 & H0 & [->|[-> ->]]%redirected_cases & _)%S1; [|done].
    rewrite B in H0 by done. by apply elem_of_nil in H0.
  - intros x y. rewrite HA. intros (x0 & y0 & (i & j & Hn & Hi & Hj)%C & <- & <-)%S1.
    exists i, j. by rewrite !list_lookup_fmap, Hi, Hj.
  - intros i j x y Hn Hs (x0 & Hi & <-)%lookup_redirected (y0 & Hj & <-)%lookup_redirected.
    destruct (K1 _ _ (D _ _ _ _ Hn Hs Hi Hj)) as [?|[??]]; [left; by rewrite HA|right].
    unfold incomplete. by rewrite !hasf_insert_ne by by apply redirected_ne.
Qed.

Lemma links_fresh rs rs' freed freed' L nb r a :
  links_of rs freed L nb → (∀ z, z ≠ r → rs' !! z = rs !! z) → rs' !! r = Some a →
  adjacent_regions a = [] → adj rs r = [] → r ∉ L → (∀ z, z ∈ freed' → z ∈ freed) →
  links_of rs' freed' L nb.
Proof.
  intros [A B C D] Hne Hr Ha0 Hr0 HrL Hf.
  assert (HA : ∀ z, adj rs' z = adj rs z).
  { intros z. destruct (decide (z = r)) as [->|]; [by rewrite Hr0, (adj_lookup _ _ _ Hr)|].
    unfold adj. by rewrite Hne. }
  assert (HN : ∀ x y, y ∈ adj rs x → x ≠ r ∧ y ≠ r).
  { intros x y Hxy. split; intros ->; [|apply (graph_elem _ _ _ _ A) in Hxy];
      rewrite Hr0 in Hxy; by apply elem_of_nil in Hxy. }
  split.
  - split.
    + intros x y. unfold edges. rewrite !HA. apply (graph_sym _ _ A).
    + intros x y. rewrite HA. intros Hxy. destruct (HN _ _ Hxy). unfold col. rewrite !Hne by done.
      by apply (graph_colours _ _ A).
    + intros x. rewrite HA. apply (graph_length _ _ A).
    + intros x. rewrite HA. destruct (decide (x = r)) as [->|]; [done|].
      unfold hasf, fl. rewrite Hne by done. apply (graph_saturated _ _ A).
  - intros z Hz. rewrite HA. auto.
  - intros x y. rewrite HA. apply C.
  - intros i j x y Hn Hs Hi Hj. destruct (D _ _ _ _ Hn Hs Hi Hj) as [?|[??]];
      [left; by rewrite HA|right].
    apply list_elem_of_lookup_2 in Hi, Hj. unfold incomplete, hasf, fl in *.
    rewrite !Hne by congruence. done.
Qed.

(** A write that leaves the list, the colour and the flags on the list alone. *)
Lemma links_data rs freed L nb r a b :
  links_of rs freed L nb → rs !! r = Some a → adjacent_regions b = adjacent_regions a →
  colour b = colour a →
  (∀ f, f = SATURATED_REGION_FLAG ∨ f = FRAGMENTED_REGION_FLAG →
     has_flag (flags b) f = has_flag (flags a) f) →
  links_of (<[r:=b]> rs) freed L nb.
Proof.
  intros [A B C D] Ha Hadj Hcol Hf. pose proof (lookup_lt_Some _ _ _ Ha) as Lr.
  assert (HA : ∀ z, adj (<[r:=b]> rs) z = adj rs z).
  { intros z. destruct (decide (z = r)) as [->|]; [|by apply adj_insert_ne].
    by rewrite adj_insert_eq, (adj_lookup _ _ _ Ha). }
  assert (HI : ∀ z, incomplete (<[r:=b]> rs) z = incomplete rs z).
  { intros z. rewrite !incomplete_alt. destruct (decide (z = r)) as [->|];
      [|by rewrite !hasf_insert_ne].
    unfold hasf. rewrite fl_insert_eq, (fl_lookup _ _ _ Ha), !Hf by auto. done. }
  split.
  - apply graph_insert_same with a; try done. rewrite Hf by auto. tauto.
  - intros z. rewrite HA. apply B.
  - intros x y. rewrite HA. apply C.
  - intros i j x y. unfold linked. rewrite HA, !HI. apply D.
Qed.

(** ** Colours, boxes and the border *)

(** [bd] holds the pixels of the border that were marked, [op] the pixels of the run
    at the end of the current row, whose right end is not known yet. *)
Implicit Types bd op : nat → Prop.
Definition touches (L : list nat) bd (r : nat) : Prop := ∃ i, L !! i = Some r ∧ bd i.

Record boxed (L : list nat) bd op (r : nat) (a : region) : Prop := Boxed {
  boxed_left : ∃ i, L !! i = Some r ∧ left a = X i;
  boxed_top : ∃ i, L !! i = Some r ∧ top a = Y i;
  boxed_right : ∃ i, L !! i = Some r ∧ right a = X i;
  boxed_bottom : ∃ i, L !! i = Some r ∧ bottom a = Y i;
  boxed_in i : L !! i = Some r →
    (left a ≤ X i ∧ top a ≤ Y i ∧ (X i ≤ right a ∨ touches L bd r ∨ op i) ∧
    (Y i ≤ bottom a ∨ touches L bd r))%Z;
}.

Record data (rs : list region) (freed : list nat) (L : list nat) bd op : Prop := Data {
  data_colour i r : L !! i = Some r → ∃ a, rs !! r = Some a ∧ source !! i = Some (colour a);
  data_live r : r < length rs → r ∈ L ∨ r ∈ freed;
  data_NoDup : NoDup freed;
  data_freed r : r ∈ freed → r < length rs ∧ r ∉ L;
  data_flag r a : rs !! r = Some a → has_flag (flags a) FREE_REGION_FLAG = bool_decide (r ∈ freed);
  data_root r a : r ∈ L → rs !! r = Some a →
    has_flag (flags a) ADJACENT_TO_ROOT_REGION_FLAG = true ↔ touches L bd r;
  data_box r a : r ∈ L → rs !! r = Some a → boxed L bd op r a;
}.

Lemma has_flag_rest a f : Z.land 19 f = f → has_flag (flags (rest a)) f = has_flag (flags a) f.
Proof. intros H. unfold has_flag. simpl. by rewrite <-Z.land_assoc, H. Qed.

Lemma boxed_rest L bd op r a a' : rest a' = rest a → boxed L bd op r a → boxed L bd op r a'.
Proof.
  destruct a, a'. unfold rest, set_adjacent_regions, set_flags. simpl. intros E [A B C D F].
  injection E. intros; subst. by split.
Qed.

Lemma data_rest rs rs' freed L bd op :
  rest <$> rs' = rest <$> rs → data rs freed L bd op → data rs' freed L bd op.
Proof.
  intros E [A B C D F G H].
  assert (K : ∀ r a, rs' !! r = Some a → ∃ b, rs !! r = Some b ∧ rest b = rest a)
    by (intros r a; by apply rest_lookup).
  assert (KF : ∀ a b f, rest b = rest a → Z.land 19 f = f → has_flag (flags a) f = has_flag (flags b) f).
  { intros a b f Hr Hf. by rewrite <-(has_flag_rest a f Hf), <-Hr, has_flag_rest. }
  split; try done.
  - intros i r (a & Ha & Hs)%A. destruct (rest_lookup _ _ _ _ E Ha) as (a' & Ha' & R).
    exists a'. split; [done|]. rewrite Hs. f_equal.
    change (colour (rest a) = colour (rest a')). congruence.
  - intros r. rewrite (rest_length _ _ E). apply B.
  - intros r. rewrite (rest_length _ _ E). apply D.
  - intros r a (b & Hb & R)%K. rewrite (KF _ _ _ R) by done. by apply F.
  - intros r a Hr (b & Hb & R)%K. rewrite (KF _ _ _ R) by done. by apply G.
  - intros r a Hr (b & Hb & R)%K. eapply boxed_rest; [symmetry; exact R|]. by apply H.
Qed.

Definition none : nat → Prop := λ _, False.
Definition also (P : nat → Prop) (i : nat) : nat → Prop := λ j, P j ∨ j = i.

Lemma boxed_mono L bd bd' op op' r a :
  (touches L bd r → touches L bd' r) →
  (∀ i, L !! i = Some r → op i → op' i ∨ touches L bd' r) →
  boxed L bd op r a → boxed L bd' op' r a.
Proof.
  intros Ht Ho [A B C D E]. split; [done..|]. intros i Hi.
  destruct (E i Hi) as (?&?&Hr&Hb). specialize (Ho i Hi). tauto.
Qed.

Lemma boxed_flag L bd op r f a : boxed L bd op r a → boxed L bd op r (or_flag f a).
Proof. by intros [A B C D E]. Qed.

Lemma data_weaken rs freed L bd bd' op op' :
  (∀ i, i < length L → bd i ↔ bd' i) → (∀ i, op i → op' i) →
  data rs freed L bd op → data rs freed L bd' op'.
Proof.
  intros Hb Ho [A B C D F G H].
  assert (T : ∀ r, touches L bd r ↔ touches L bd' r).
  { intros r. unfold touches. split; intros (i & Hi & Hbd); exists i; split; try done;
      apply Hb; try done; by eapply lookup_lt_Some. }
  split; try done.
  - intros r a Hr Ha. rewrite <-T. by apply G.
  - intros r a Hr Ha. apply (boxed_mono L bd bd' op op'); [apply T|intros; left; auto|by apply H].
Qed.

Lemma touches_snoc L bd r z :
  ¬ bd (length L) → touches (L ++ [r]) bd z ↔ touches L bd z.
Proof.
  intros Hn. unfold touches. split.
  - intros (i & [[_ Hi]|[-> _]]%lookup_snoc_Some & Hb); [eauto|done].
  - intros (i & Hi & Hb). exists i. split; [by apply lookup_app_l_Some|done].
Qed.

(** A pixel joins the region [r] or another one. *)
Lemma boxed_snoc L bd op op' r z a :
  ¬ bd (length L) → (∀ i, op i → op' i) → boxed L bd op z a →
  (z = r → let n := length L in
    (left a ≤ X n ∧ top a ≤ Y n ∧ (X n ≤ right a ∨ touches L bd r ∨ op' n) ∧
    (Y n ≤ bottom a ∨ touches L bd r))%Z) →
  boxed (L ++ [r]) bd op' z a.
Proof.
  intros Hn Ho [A B C D E] Hz.
  assert (K : ∀ i, L !! i = Some z → (L ++ [r]) !! i = Some z)
    by (intros; by apply lookup_app_l_Some).
  split; [naive_solver..|]. intros i [[_ Hi]|[-> ->]]%lookup_snoc_Some; rewrite touches_snoc by done.
  - destruct (E i Hi) as (?&?&?&?). naive_solver.
  - by apply Hz.
Qed.

Lemma data_join_write rs freed L bd op op' r a b :
  let n := length L in
  data rs freed L bd op → r ∈ L → ¬ bd n → (∀ i, op i → op' i) →
  rs !! r = Some a → source !! n = Some (colour a) → colour b = colour a → flags b = flags a →
  boxed (L ++ [r]) bd op' r b →
  data (<[r:=b]> rs) freed (L ++ [r]) bd op'.
Proof.
  intros n [A B C D F G H] Hr Hn Ho Ha Hs Hc Hf Hbox.
  pose proof (lookup_lt_Some _ _ _ Ha) as Lr.
  assert (Hin : ∀ z, z ∈ L ++ [r] ↔ z ∈ L) by set_solver.
  assert (E : ∀ z c, <[r:=b]> rs !! z = Some c → z = r ∧ c = b ∨ z ≠ r ∧ rs !! z = Some c).
  { intros z c. destruct (decide (z = r)) as [->|].
    - rewrite list_lookup_insert_eq by done. naive_solver.
    - rewrite list_lookup_insert_ne by done. tauto. }
  assert (Hrb : <[r:=b]> rs !! r = Some b) by (by rewrite list_lookup_insert_eq).
  split; rewrite ?length_insert; try done.
  - intros i z [[_ Hi]|[-> <-]]%lookup_snoc_Some; [|exists b; split; [done|by rewrite Hc]].
    destruct (A _ _ Hi) as (c & Hz & Hsc). destruct (decide (z = r)) as [->|].
    + exists b. split; [done|]. congruence.
    + rewrite list_lookup_insert_ne by done. eauto.
  - intros z. rewrite Hin. apply B.
  - intros z. rewrite Hin. apply D.
  - intros z c [[-> ->]|[_ Hz]]%E; [rewrite Hf|]; by apply F.
  - intros z c Hz. rewrite Hin in Hz. rewrite touches_snoc by done.
    intros [[-> ->]|[Hne Hzc]]%E; [rewrite Hf|]; by apply G.
  - intros z c Hz. rewrite Hin in Hz. intros [[-> ->]|[Hne Hzc]]%E; [done|].
    eapply boxed_snoc; [done..|by apply H|done].
Qed.

Lemma data_join rs freed L bd op op' r a :
  let n := length L in
  data rs freed L bd op → r ∈ L → ¬ bd n → (∀ i, op i → op' i) →
  rs !! r = Some a → source !! n = Some (colour a) →
  (left a ≤ X n ∧ top a ≤ Y n ∧ (X n ≤ right a ∨ touches L bd r ∨ op' n) ∧
    (Y n ≤ bottom a ∨ touches L bd r))%Z →
  data rs freed (L ++ [r]) bd op'.
Proof.
  intros n H Hr Hn Ho Ha Hs Hbox. rewrite <-(list_insert_id rs r a Ha).
  eapply data_join_write; try done. eapply boxed_snoc; try done. by apply (data_box _ _ _ _ _ H).
Qed.

Lemma data_new rs rs' freed freed' L bd op r a :
  let n := length L in
  data rs freed L bd op → r ∉ L → ¬ bd n →
  (∀ z, z ≠ r → rs' !! z = rs !! z) → rs' !! r = Some a →
  NoDup freed' → (∀ z, z ∈ freed' ↔ z ∈ freed ∧ z ≠ r) →
  source !! n = Some (colour a) → flags a = NO_REGION_FLAG →
  left a = X n → right a = X n → top a = Y n → bottom a = Y n →
  data rs' freed' (L ++ [r]) bd op.
Proof.
  intros n [A B C D F G H] Hr Hn Hne Ha Hnd Hfr Hs Hfl H1 H2 H3 H4.
  assert (Hin : ∀ z, z ∈ L ++ [r] ↔ z ∈ L ∨ z = r) by set_solver.
  assert (Lr : (L ++ [r]) !! n = Some r) by (apply lookup_snoc_Some; by right).
  split; try done.
  - intros i z [[_ Hi]|[-> <-]]%lookup_snoc_Some; [|eauto].
    destruct (A _ _ Hi) as (b & Hb & ?). exists b. split; [|done].
    rewrite Hne; [done|]. intros ->. by apply list_elem_of_lookup_2 in Hi.
  - intros z Hz. rewrite Hin, Hfr. destruct (decide (z = r)); [by left; right|].
    apply lookup_lt_is_Some in Hz. rewrite Hne in Hz by done.
    apply lookup_lt_is_Some, B in Hz. tauto.
  - intros z [Hz Hzr]%Hfr. destruct (D z Hz) as [Hlt HL]. split; [|rewrite Hin; tauto].
    apply lookup_lt_is_Some. rewrite Hne by done. by apply lookup_lt_is_Some.
  - intros z b Hb. destruct (decide (z = r)) as [->|Hzr].
    + simplify_eq. rewrite Hfl. symmetry. apply bool_decide_eq_false. rewrite Hfr. tauto.
    + rewrite Hne in Hb by done. rewrite (F _ _ Hb). apply bool_decide_ext. rewrite Hfr. tauto.
  - intros z b Hz Hb. rewrite touches_snoc by done. destruct (decide (z = r)) as [->|Hzr].
    + simplify_eq. rewrite Hfl. split; [done|]. intros (i & Hi & _).
      by apply list_elem_of_lookup_2 in Hi.
    + rewrite Hne in Hb by done. apply G; [|done]. apply Hin in Hz. tauto.
  - intros z b Hz Hb. destruct (decide (z = r)) as [->|Hzr].
    + simplify_eq. split; [eauto..|]. intros i [[_ Hi]|[-> _]]%lookup_snoc_Some;
        [by apply list_elem_of_lookup_2 in Hi|]. fold n. lia.
    + rewrite Hne in Hb by done. apply Hin in Hz as [Hz|?]; [|done].
      by eapply boxed_snoc; [..|by apply H|].
Qed.

(** A write to a region of the image that keeps the colour and the flag of free
    regions. *)
Lemma data_write rs freed L bd bd' op op' r a b :
  data rs freed L bd op → r ∈ L → rs !! r = Some a → colour b = colour a →
  has_flag (flags b) FREE_REGION_FLAG = has_flag (flags a) FREE_REGION_FLAG →
  (has_flag (flags b) ADJACENT_TO_ROOT_REGION_FLAG = true ↔ touches L bd' r) →
  (boxed L bd op r a → boxed L bd' op' r b) →
  (∀ z, z ≠ r → touches L bd z ↔ touches L bd' z) →
  (∀ z c, z ≠ r → boxed L bd op z c → boxed L bd' op' z c) →
  data (<[r:=b]> rs) freed L bd' op'.
Proof.
  intros [A B C D F G H] Hr Ha Hc Hf Hroot Hbox Ht Hb.
  pose proof (lookup_lt_Some _ _ _ Ha) as Lr.
  assert (E : ∀ z c, <[r:=b]> rs !! z = Some c → z = r ∧ c = b ∨ z ≠ r ∧ rs !! z = Some c).
  { intros z c. destruct (decide (z = r)) as [->|].
    - rewrite list_lookup_insert_eq by done. naive_solver.
    - rewrite list_lookup_insert_ne by done. tauto. }
  split; rewrite ?length_insert; try done.
  - intros i z Hi. destruct (A _ _ Hi) as (c & Hz & Hs). destruct (decide (z = r)) as [->|].
    + rewrite list_lookup_insert_eq by done. exists b. split; [done|]. congruence.
    + rewrite list_lookup_insert_ne by done. eauto.
  - intros z c [[-> ->]|[_ Hz]]%E; [rewrite Hf|]; by apply F.
  - intros z c Hz [[-> ->]|[Hne Hzc]]%E; [done|]. rewrite <-Ht by done. by apply G.
  - intros z c Hz [[-> ->]|[Hne Hzc]]%E; [apply Hbox; by apply H|].
    apply Hb; [done|]. by apply H.
Qed.

Lemma touches_also L bd i r z :
  L !! i = Some r → touches L (also bd i) z ↔ touches L bd z ∨ z = r.
Proof.
  intros Hi. unfold touches, also. split.
  - intros (j & Hj & [?| ->]); [left; eauto|right; congruence].
  - intros [(j & ? & ?)| ->]; eauto.
Qed.

(** The border pixel [i] is marked; runs of its region need no right end any more. *)
Lemma data_mark rs freed L bd op op' i r a :
  data rs freed L bd op → L !! i = Some r → rs !! r = Some a →
  (∀ j, op j → op' j ∨ L !! j = Some r) →
  data (<[r:=or_flag ADJACENT_TO_ROOT_REGION_FLAG a]> rs) freed L (also bd i) op'.
Proof.
  intros H Hi Ha Ho. pose proof (list_elem_of_lookup_2 _ _ _ Hi) as Hr.
  apply (data_write _ _ _ _ _ _ _ _ _ _ H Hr Ha); simpl; try done.
  - rewrite has_flag_lor. by rewrite orb_false_r.
  - rewrite has_flag_lor, orb_true_r, (touches_also _ _ _ _ _ Hi). tauto.
  - intros Hbox. apply boxed_flag. revert Hbox.
    apply boxed_mono; [|intros j Hj _]; rewrite (touches_also _ _ _ _ _ Hi); tauto.
  - intros z Hz. rewrite (touches_also _ _ _ _ _ Hi). tauto.
  - intros z c Hz. apply boxed_mono; [rewrite (touches_also _ _ _ _ _ Hi); tauto|].
    intros j Hj [?|?]%Ho; [by left|congruence].
Qed.

(** The same where the region is known to touch the border. *)
Lemma data_mark_known rs freed L bd op op' i r :
  data rs freed L bd op → L !! i = Some r → touches L bd r →
  (∀ j, op j → op' j ∨ L !! j = Some r) →
  data rs freed L (also bd i) op'.
Proof.
  intros [A B C D F G H] Hi Ht Ho. split; try done.
  - intros z a Hz Ha. rewrite (touches_also _ _ _ _ _ Hi), (G _ _ Hz Ha). naive_solver.
  - intros z a Hz Ha. apply (boxed_mono L bd _ op); [| |by apply H].
    + rewrite (touches_also _ _ _ _ _ Hi). tauto.
    + intros j Hj Hop. rewrite (touches_also _ _ _ _ _ Hi).
      destruct (Ho j Hop); [by left|right; right; congruence].
Qed.

(** The run that ends at pixel [m] of region [r] gets its right end. *)
Lemma data_close rs freed L bd op m r a :
  data rs freed L bd op → L !! m = Some r → rs !! r = Some a →
  (∀ j, op j → L !! j = Some r ∧ (X j ≤ X m)%Z) →
  data (<[r:=if (right a <? X m)%Z then set_box (left a) (top a) (X m) (bottom a) a else a]> rs)
    freed L bd none.
Proof.
  intros H Hm Ha Ho. pose proof (list_elem_of_lookup_2 _ _ _ Hm) as Hr.
  set (b := if (right a <? X m)%Z then _ else _).
  assert (Hb : b = a ∧ (X m ≤ right a)%Z ∨
    b = set_box (left a) (top a) (X m) (bottom a) a ∧ (right a < X m)%Z).
  { unfold b. destruct (Z.ltb_spec (right a) (X m)); auto. }
  assert (E : colour b = colour a ∧ flags b = flags a) by (destruct Hb as [[-> _]|[-> _]]; done).
  destruct E as [E1 E2].
  apply (data_write _ _ _ _ _ _ _ _ _ _ H Hr Ha); rewrite ?E2; try done.
  - by apply (data_root _ _ _ _ _ H).
  - intros [A B C D F]. destruct Hb as [[-> ?]|[-> ?]].
    + split; [done..|]. intros j Hj. destruct (F j Hj) as (?&?&[?|[?|?]]&?); [tauto..|].
      destruct (Ho j) as [_ ?]; [done|]. split_and!; [done..| |done]. left. lia.
    + split; simpl; [done..|eauto|done|]. intros j Hj.
      destruct (F j Hj) as (?&?&[?|[?|?]]&?); [|tauto|].
      * split_and!; [done..| |done]. left. lia.
      * destruct (Ho j) as [_ ?]; [done|]. tauto.
  - intros z c Hz. apply boxed_mono; [done|]. intros j Hj [? _]%Ho. congruence.
Qed.

(** The next pixel joins the region of the pixel [m] above it. *)
Lemma data_join_below rs freed L bd m r a :
  let n := length L in
  data rs freed L bd none → L !! m = Some r → rs !! r = Some a → ¬ bd n →
  source !! n = Some (colour a) → X n = X m → (∀ i, i < n → (Y i ≤ Y n)%Z) →
  data (<[r:=set_box (left a) (top a) (right a) (Y n) a]> rs) freed (L ++ [r]) bd none.
Proof.
  intros n H Hm Ha Hn Hs HX HY. pose proof (list_elem_of_lookup_2 _ _ _ Hm) as Hr.
  pose proof (lookup_lt_Some _ _ _ Ha) as Lr.
  assert (HmY : (Y m ≤ Y n)%Z) by (apply HY; by eapply lookup_lt_Some).
  pose proof (data_box _ _ _ _ _ H _ _ Hr Ha) as [A B C D F].
  set (b := set_box _ _ _ _ a).
  eapply data_join_write; try done. split; simpl.
  - destruct A as (i & ? & ?). exists i. split; [by apply lookup_app_l_Some|done].
  - destruct B as (i & ? & ?). exists i. split; [by apply lookup_app_l_Some|done].
  - destruct C as (i & ? & ?). exists i. split; [by apply lookup_app_l_Some|done].
  - exists n. split; [apply lookup_snoc_Some; by right|done].
  - intros i Hi. rewrite touches_snoc by done.
    apply lookup_snoc_Some in Hi as [[? Hi]|[-> _]].
    + destruct (F i Hi) as (?&?&?&?). specialize (HY i). naive_solver.
    + fold n. destruct (F m Hm) as (?&?&?&?). rewrite HX. split_and!; [lia|lia|tauto|left; lia].
Qed.

Lemma lookup_merged r1 r2 (L : list nat) i z :
  r1 ≠ r2 → (redirected r1 r2 <$> L) !! i = Some z ↔
    z ≠ r2 ∧ (L !! i = Some z ∨ z = r1 ∧ L !! i = Some r2).
Proof.
  intros H. rewrite list_lookup_fmap. unfold redirected.
  destruct (L !! i) as [y|]; simpl; [|naive_solver]. case_decide; naive_solver.
Qed.
Lemma elem_merged r1 r2 (L : list nat) z :
  r1 ≠ r2 → r1 ∈ L → z ∈ redirected r1 r2 <$> L ↔ z ≠ r2 ∧ z ∈ L.
Proof.
  intros H H1. rewrite !list_elem_of_lookup.
  setoid_rewrite (λ i, lookup_merged r1 r2 L i z H). apply list_elem_of_lookup in H1. naive_solver.
Qed.
Lemma touches_merged r1 r2 L bd z :
  r1 ≠ r2 → touches (redirected r1 r2 <$> L) bd z ↔
    z ≠ r2 ∧ (touches L bd z ∨ z = r1 ∧ touches L bd r2).
Proof.
  intros H. unfold touches. setoid_rewrite (λ i, lookup_merged r1 r2 L i z H). naive_solver.
Qed.

(** The box around the pixels of both regions. *)
Lemma boxed_merge L bd op r1 r2 a b :
  r1 ≠ r2 → boxed L bd op r1 a → boxed L bd op r2 b →
  boxed (redirected r1 r2 <$> L) bd op r1 (merge_data b a).
Proof.
  intros H12 [A1 B1 C1 D1 E1] [A2 B2 C2 D2 E2].
  assert (K : ∀ i, (redirected r1 r2 <$> L) !! i = Some r1 ↔ L !! i = Some r1 ∨ L !! i = Some r2).
  { intros i. rewrite lookup_merged by done. naive_solver. }
  split; simpl.
  - setoid_rewrite K. destruct (Z.ltb_spec (left b) (left a)); naive_solver.
  - setoid_rewrite K. destruct (Z.ltb_spec (top b) (top a)); naive_solver.
  - setoid_rewrite K. destruct (Z.ltb_spec (right a) (right b)); naive_solver.
  - setoid_rewrite K. destruct (Z.ltb_spec (bottom a) (bottom b)); naive_solver.
  - assert (T : touches (redirected r1 r2 <$> L) bd r1 ↔ touches L bd r1 ∨ touches L bd r2)
      by (rewrite touches_merged by done; tauto).
    assert (M : (∀ x y : Z, (if x <? y then x else y) ≤ x ∧ (if x <? y then x else y) ≤ y ∧
      x ≤ (if y <? x then x else y) ∧ y ≤ (if y <? x then x else y))%Z).
    { intros x y. destruct (Z.ltb_spec x y), (Z.ltb_spec y x); lia. }
    destruct (M (left b) (left a)) as (?&?&_), (M (top b) (top a)) as (?&?&_).
    destruct (M (right b) (right a)) as (_&_&?&?), (M (bottom b) (bottom a)) as (_&_&?&?).
    intros i Hi. rewrite T. apply K in Hi as [Hi|Hi];
      [destruct (E1 i Hi) as (?&?&HR&HB)|destruct (E2 i Hi) as (?&?&HR&HB)];
      (split_and!; [lia|lia|destruct HR as [?|[?|?]]; [left; lia|tauto..]
        |destruct HB as [?|?]; [left; lia|tauto]]).
Qed.

Lemma boxed_unmerged L bd op r1 r2 z a :
  r1 ≠ r2 → z ≠ r1 → z ≠ r2 → boxed L bd op z a → boxed (redirected r1 r2 <$> L) bd op z a.
Proof.
  intros H12 Hz1 Hz2 [A B C D E].
  assert (K : ∀ i, (redirected r1 r2 <$> L) !! i = Some z ↔ L !! i = Some z).
  { intros i. rewrite lookup_merged by done. naive_solver. }
  split; [setoid_rewrite K; done..|]. intros i Hi%K. rewrite touches_merged by done.
  destruct (E i Hi) as (?&?&?&?). naive_solver.
Qed.

Lemma data_merge_rest rs freed L bd op r1 r2 a b :
  data rs freed L bd op → r1 ≠ r2 → r1 ∈ L → r2 ∈ L → rs !! r1 = Some a → rs !! r2 = Some b →
  colour a = colour b →
  data (<[r2:=set_flags FREE_REGION_FLAG b]> (<[r1:=merge_data b a]> rs))
    (r2 :: freed) (redirected r1 r2 <$> L) bd op.
Proof.
  intros [A B C D F G H] H12 H1 H2 Ha Hb Hc.
  pose proof (lookup_lt_Some _ _ _ Ha) as L1. pose proof (lookup_lt_Some _ _ _ Hb) as L2.
  set (rs2 := <[r2:=_]> _).
  assert (E2 : rs2 !! r2 = Some (set_flags FREE_REGION_FLAG b))
    by (unfold rs2; rewrite list_lookup_insert_eq; [done|by rewrite length_insert]).
  assert (E1 : rs2 !! r1 = Some (merge_data b a)).
  { unfold rs2. rewrite list_lookup_insert_ne by done. by rewrite list_lookup_insert_eq. }
  assert (En : ∀ z, z ≠ r1 → z ≠ r2 → rs2 !! z = rs !! z).
  { intros z ??. unfold rs2. by rewrite !list_lookup_insert_ne. }
  assert (El : length rs2 = length rs) by (unfold rs2; by rewrite !length_insert).
  assert (N1 : r1 ∉ freed) by (by intros [_ ?]%D). assert (N2 : r2 ∉ freed) by (by intros [_ ?]%D).
  clearbody rs2. split.
  - intros i z [Hz2 [Hi|[-> Hi]]]%lookup_merged; [|destruct (A _ _ Hi) as (c & ? & ?)|done].
    + destruct (A _ _ Hi) as (c & Hz & ?). destruct (decide (z = r1)) as [->|].
      * exists (merge_data b a). split; [done|]. by simplify_eq/=.
      * exists c. by rewrite En.
    + exists (merge_data b a). split; [done|]. simplify_eq/=. congruence.
  - intros z. rewrite El, elem_merged, elem_of_cons by done. destruct (decide (z = r2)); [tauto|].
    intros [?|?]%B; tauto.
  - by constructor.
  - intros z. rewrite El, elem_merged, elem_of_cons by done. intros [->|Hz]; [tauto|].
    destruct (D z Hz). tauto.
  - intros z c Hz. destruct (decide (z = r2)) as [->|]; [|destruct (decide (z = r1)) as [->|]].
    + simplify_eq. symmetry. by apply bool_decide_eq_true, elem_of_cons; left.
    + simplify_eq/=. rewrite has_flag_lor, (F _ _ Ha), (F _ _ Hb), !bool_decide_false; [done|..];
        rewrite ?not_elem_of_cons; done.
    + rewrite En in Hz by done. rewrite (F _ _ Hz). apply bool_decide_ext.
      rewrite elem_of_cons. tauto.
  - intros z c [Hz2 HzL]%elem_merged Hz; [|done..]. rewrite touches_merged by done.
    destruct (decide (z = r1)) as [->|].
    + simplify_eq/=. rewrite has_flag_lor, orb_true_iff, (G _ _ H1 Ha), (G _ _ H2 Hb). tauto.
    + rewrite En in Hz by done. rewrite (G _ _ HzL Hz). tauto.
  - intros z c [Hz2 HzL]%elem_merged Hz; [|done..]. destruct (decide (z = r1)) as [->|].
    + simplify_eq. apply boxed_merge; auto.
    + rewrite En in Hz by done. apply boxed_unmerged; auto.
Qed.

Lemma data_merge rs rs1 freed L bd op r1 r2 a b c b' :
  data rs freed L bd op → r1 ≠ r2 → r1 ∈ L → r2 ∈ L → rs !! r1 = Some a → rs !! r2 = Some b →
  colour a = colour b →
  rs1 !! r1 = Some c → rest c = rest (merge_data b a) → rs1 !! r2 = Some b' →
  (∀ z, z ≠ r1 → rest <$> rs1 !! z = rest <$> rs !! z) →
  data (<[r2:=set_flags FREE_REGION_FLAG b']> rs1) (r2 :: freed) (redirected r1 r2 <$> L) bd op.
Proof.
  intros H H12 H1 H2 Ha Hb Hc Hr1 Rc Hr2 Hz.
  pose proof (data_merge_rest _ _ _ _ _ _ _ _ _ H H12 H1 H2 Ha Hb Hc) as K.
  revert K. apply data_rest. rewrite !list_fmap_insert.
  assert (Rb : rest b' = rest b).
  { specialize (Hz r2 (not_eq_sym H12)). rewrite Hr2, Hb in Hz.
    change (Some (rest b') = Some (rest b)) in Hz. congruence. }
  replace (rest (set_flags FREE_REGION_FLAG b')) with (rest (set_flags FREE_REGION_FLAG b)).
  2:{ destruct b, b'. unfold rest, set_flags, set_adjacent_regions in *. simpl in *.
      injection Rb. intros; subst. done. }
  f_equal. apply list_eq. intros z. destruct (decide (z = r1)) as [->|Hne].
  - rewrite list_lookup_insert_eq by (rewrite length_fmap; by eapply lookup_lt_Some).
    rewrite list_lookup_fmap, Hr1. simpl. congruence.
  - rewrite list_lookup_insert_ne by done. rewrite !list_lookup_fmap. by apply Hz.
Qed.
End labels.
