(* ===== verification/SegmentRefs.v ===== *)
(** The references of the segmenter (Segment.v) as a forest: every chain of
    redirections ends at a reference that holds a region, and
    [RESOLVE_REGIONREF_REDIRECTS], [new_region] and the merging of two regions
    keep it so. *)
From stdpp Require Import relations.
From S2P Require Import Prelude Segment SegmentGraph SegmentLabels.
Local Open Scope nat_scope.

Definition root (l : list region_ref) (z r : nat) : Prop :=
  l !! z = Some (RegionReference (Some r) z).

(** [d] redirections lead from the reference [z] to the one that holds [r]. *)
Inductive leads (l : list region_ref) : nat → nat → nat → Prop :=
  | leads_root z r : root l z r → leads l 0 z r
  | leads_next d z z' r :
      l !! z = Some (RegionReference None z') → z' ≠ z → leads l d z' r → leads l (S d) z r.

(** The references without a region. *)
Definition nones (l : list region_ref) : nat := length (filter (λ e, region_of e = None) l).

Record refs_ok (l : list region_ref) (L : list nat) : Prop := RefsOk {
  refs_leads z : z < length l → ∃ d r, leads l d z r ∧ d ≤ nones l;
  refs_region k e r : l !! k = Some e → region_of e = Some r → redirect e = k ∧ r ∈ L;
  refs_unique k k' r : root l k r → root l k' r → k = k';
}.

Lemma leads_fun l d z r : leads l d z r → ∀ d' r', leads l d' z r' → r = r'.
Proof.
  unfold root. induction 1 as [z r H|d z z' r Hz Hne _ IH];
    intros d' r' H'; inversion H'; unfold root in *; simplify_eq; eauto.
Qed.
Lemma leads_lt l d z r : leads l d z r → z < length l.
Proof. destruct 1; unfold root in *; by eapply lookup_lt_Some. Qed.
Lemma leads_end l d z r : leads l d z r → ∃ k, root l k r.
Proof. induction 1; eauto. Qed.

Lemma nones_lt l z r : root l z r → nones l < length l.
Proof.
  unfold root, nones. intros H. rewrite <-(take_drop_middle _ _ _ H) at 1 2.
  rewrite filter_app, filter_cons_False by done. rewrite !length_app. simpl.
  pose proof (length_filter (λ e, region_of e = None) (take z l)).
  pose proof (length_filter (λ e, region_of e = None) (drop (S z) l)). lia.
Qed.

Lemma nones_insert l z e e' :
  l !! z = Some e →
  nones (<[z:=e']> l) + (if decide (region_of e = None) then 1 else 0) =
  nones l + (if decide (region_of e' = None) then 1 else 0).
Proof.
  intros H. unfold nones. rewrite (insert_take_drop _ _ _ (lookup_lt_Some _ _ _ H)).
  rewrite <-(take_drop_middle _ _ _ H) at 3. rewrite !filter_app, !filter_cons, !length_app.
  repeat case_decide; simpl; lia.
Qed.

Lemma follow_run l d z r :
  leads l d z r → ∀ fuel, d < fuel → ∃ k, follow fuel l z = Some k ∧ root l k r ∧ (k = z → d = 0).
Proof.
  induction 1 as [z r H|d z z' r Hz Hne Hl IH]; intros [|fuel] Hf; try lia; simpl.
  - exists z. unfold root in H. rewrite H. simpl. by rewrite decide_True.
  - rewrite Hz. simpl. rewrite decide_False by done.
    destruct (IH fuel) as (k & ? & Hk & _); [lia|]. exists k. split_and!; try done.
    intros ->. unfold root in Hk. congruence.
Qed.

(** [l'] leads everywhere [l] does, in no more steps. *)
Definition shortens (l l' : list region_ref) : Prop :=
  (∀ d z r, leads l d z r → ∃ d', leads l' d' z r ∧ d' ≤ d) ∧ (∀ z r, root l z r → root l' z r).

Lemma resolve_run l L z :
  refs_ok l L → z < length l →
  ∃ k r d l', resolve l z = Ok (k, l') ∧ root l' k r ∧ leads l d z r ∧ refs_ok l' L ∧
    length l' = length l ∧ shortens l l'.
Proof.
  intros [A B C] Hz. destruct (A z Hz) as (d & r & Hl & Hd).
  assert (Hn : d < length l) by (destruct (leads_end _ _ _ _ Hl) as [k ?%nones_lt]; lia).
  destruct (follow_run _ _ _ _ Hl _ Hn) as (k & Hf & Hk & Hkz). unfold resolve.
  inversion Hl as [z0 r0 Hr|d0 z0 z' r0 Hr Hne Hl']; subst.
  { exists z, r, 0, l. unfold root in Hr. rewrite Hr. simpl. rewrite decide_True by done.
    split_and!; try done. split; eauto. }
  rewrite Hr. simpl. rewrite decide_False by done. rewrite Hf. simpl.
  set (l' := <[z:=_]> l). exists k, r, (S d0), l'.
  assert (k ≠ z) as Hne' by (intros ?%Hkz; done).
  assert (Lk : ∀ x, x ≠ z → l' !! x = l !! x) by (intros; by apply list_lookup_insert_ne).
  assert (Lz : l' !! z = Some (RegionReference None k)) by (by apply list_lookup_insert_eq).
  assert (R : ∀ x y, root l x y → root l' x y).
  { intros x y H. unfold root in *. rewrite Lk; [done|]. intros ->. congruence. }
  assert (R' : ∀ x y, root l' x y → root l x y).
  { intros x y H. unfold root in *. rewrite Lk in H; [done|]. intros ->. congruence. }
  assert (S : ∀ e x y, leads l e x y → ∃ e', leads l' e' x y ∧ e' ≤ e).
  { induction 1 as [x y H|e x x' y Hx Hnx Hl'' (e' & He & Hle)].
    - exists 0. split; [|done]. by apply leads_root, R.
    - destruct (decide (x = z)) as [->|Hxz].
      + assert (y = r) as -> by (eapply leads_fun; [eapply leads_next|]; done).
        exists 1. split; [|lia]. eapply leads_next; [done..|]. by apply leads_root, R.
      + exists (S e'). split; [|lia]. eapply leads_next; [by rewrite Lk|done..]. }
  assert (Nn : nones l' = nones l).
  { pose proof (nones_insert _ _ _ (RegionReference None k) Hr) as E. simpl in E. fold l' in E. lia. }
  split_and!; [done|by apply R|done| |by apply length_insert|by split].
  split.
  - intros x Hx. unfold l' in Hx. rewrite length_insert in Hx. destruct (A x Hx) as (e & y & Hxy & He).
    destruct (S _ _ _ Hxy) as (e' & ? & ?). exists e', y. split; [done|lia].
  - intros x e y Hx He. destruct (decide (x = z)) as [->|]; [by simplify_eq|].
    rewrite Lk in Hx by done. eauto.
  - intros x x' y ?%R' ?%R'. eauto.
Qed.

Lemma refs_new l L r :
  refs_ok l L → r ∉ L →
  let l' := l ++ [RegionReference (Some r) (length l)] in
  refs_ok l' (L ++ [r]) ∧ root l' (length l) r ∧
  (∀ d z y, leads l d z y → leads l' d z y) ∧ (∀ z y, root l z y → root l' z y).
Proof.
  intros [A B C] Hr l'.
  assert (R : ∀ z y, root l z y → root l' z y) by (intros; by apply lookup_app_l_Some).
  assert (Rn : root l' (length l) r) by (apply lookup_snoc_Some; by right).
  assert (S : ∀ d z y, leads l d z y → leads l' d z y).
  { induction 1; [by apply leads_root, R|]. eapply leads_next; [|done..]. by apply lookup_app_l_Some. }
  assert (R' : ∀ z y, root l' z y → root l z y ∨ z = length l ∧ y = r).
  { intros z y [[_ ?]|[-> E]]%lookup_snoc_Some; [by left|right]. by injection E. }
  split_and!; try done. split.
  - intros z. unfold l'. rewrite length_app. simpl. intros Hz.
    destruct (decide (z = length l)) as [->|].
    + exists 0, r. split; [by apply leads_root|lia].
    + destruct (A z) as (d & y & ? & ?); [lia|]. exists d, y. split; [by apply S|].
      unfold nones, l' in *. rewrite filter_app, length_app. lia.
  - intros k e y [[_ ?]|[-> <-]]%lookup_snoc_Some He.
    + destruct (B _ _ _ H He). split; [done|]. apply elem_of_app. by left.
    + simpl in *. simplify_eq. split; [done|]. set_solver.
  - assert (N : ∀ k, ¬ root l k r) by (intros k Hk; destruct (B _ _ _ Hk eq_refl); done).
    intros k k' y [?|[-> ->]]%R' [?|[-> E]]%R'; eauto; subst; by exfalso; eapply N.
Qed.

Lemma refs_merge l L p c r1 r2 :
  refs_ok l L → root l p r1 → root l c r2 → p ≠ c → r1 ≠ r2 →
  let l' := <[c:=RegionReference None p]> l in
  refs_ok l' (redirected r1 r2 <$> L) ∧ root l' p r1 ∧
  (∀ d z r, leads l d z r → ∃ d', leads l' d' z (redirected r1 r2 r)).
Proof.
  intros [A B C] Hp Hc Hne H12 l'.
  assert (Lk : ∀ x, x ≠ c → l' !! x = l !! x) by (intros; by apply list_lookup_insert_ne).
  assert (Lc : l' !! c = Some (RegionReference None p))
    by (apply list_lookup_insert_eq; by eapply lookup_lt_Some).
  assert (Rp : root l' p r1) by (unfold root; by rewrite Lk).
  assert (S : ∀ d z r, leads l d z r → ∃ d', leads l' d' z (redirected r1 r2 r) ∧ d' ≤ S d).
  { induction 1 as [z r H|d z z' r Hz Hnz Hl (d' & Hd & Hle)].
    - destruct (decide (z = c)) as [->|Hzc].
      + assert (r = r2) as -> by (unfold root in *; congruence). exists 1. split; [|lia].
        eapply leads_next; [done..|]. unfold redirected. rewrite decide_True by done.
        by apply leads_root.
      + exists 0. split; [|lia]. unfold redirected. rewrite decide_False.
        * apply leads_root. unfold root. by rewrite Lk.
        * intros ->. apply Hzc. eauto.
    - assert (z ≠ c) by (unfold root in *; congruence).
      exists (S d'). split; [|lia]. eapply leads_next; [by rewrite Lk|done..]. }
  assert (Nn : nones l' = Datatypes.S (nones l)).
  { pose proof (nones_insert _ _ _ (RegionReference None p) Hc) as E. simpl in E. fold l' in E. lia. }
  split_and!; [|done|intros d z r H; destruct (S _ _ _ H) as (d' & ? & _); eauto].
  assert (R' : ∀ z y, root l' z y → root l z y ∧ z ≠ c).
  { intros z y H. unfold root in *. destruct (decide (z = c)) as [->|]; [congruence|].
    by rewrite Lk in H. }
  split.
  - intros z Hlt. unfold l' in Hlt. rewrite length_insert in Hlt. destruct (A z Hlt) as (d & r & Hz & Hd).
    destruct (S _ _ _ Hz) as (d' & ? & ?). exists d', (redirected r1 r2 r). split; [done|lia].
  - intros k e r Hk He. destruct (decide (k = c)) as [->|]; [by simplify_eq|].
    rewrite Lk in Hk by done. destruct (B _ _ _ Hk He) as [Hred Hr]. split; [done|].
    apply list_elem_of_fmap. exists r. split; [|done]. unfold redirected.
    rewrite decide_False; [done|]. intros ->.
    destruct e as [o d]. simpl in *. subst. assert (root l k r2) by done. eauto.
  - intros k k' r [? _]%R' [? _]%R'. eauto.
Qed.
