(* ===== verification/SegmentSpec.v ===== *)
(** The segmenter finds the connected regions of a binary image, with the graph of
    the regions that touch and the boxes around them: the invariant of the pass
    over the image of Segment.v, and the theorem on [step_segmenter]. *)
From stdpp Require Import relations.
From S2P Require Import Prelude Segment SegmentGraph SegmentLabels SegmentRefs.
Local Open Scope nat_scope.

(** ** Images *)

(** The pixel [j] is the one to the right of [i] or the one below it. *)
Definition neighbours (w i j : nat) : Prop := j = S i ∧ j `mod` w ≠ 0 ∨ j = i + w.

Definition connected (source : list Z) (w : nat) : nat → nat → Prop :=
  rtsc (λ i j, neighbours w i j ∧ j < length source ∧ source !! i = source !! j).

Definition on_border (w h i : nat) : Prop :=
  i < w ∨ i `mod` w = 0 ∨ i `mod` w = w - 1 ∨ (h - 1) * w ≤ i.

(** A binary image and a segmenter that was set up for its size. *)
Record segmentable (source : list Z) (w h : nat) : Prop := Segmentable {
  segmentable_size : length source = w * h;
  segmentable_width : 0 < w ≤ Z.to_nat 32768;
  segmentable_height : 0 < h ≤ Z.to_nat 32768;
  segmentable_binary : Forall (λ c, c = 0%Z ∨ c = 255%Z) source;
}.

(** The values the search for fiducials starts from. *)
Definition initial (a : region) : Prop :=
  level a = UNKNOWN_REGION_LEVEL ∧ children_visited_count a = 0%Z ∧ descendent_count a = 0x7FFF%Z ∧
  has_flag (flags a) LOST_SYMBOL_FLAG = false.

(** The segmenter holds the regions of the image, pixel [i] being in region
    [L !! i]. *)
Record segmented (source : list Z) (w h : nat) (s : segmenter) (L : list nat) : Prop := Segmented {
  segmented_length : length L = w * h;
  (** the regions that are not free are the connected components *)
  segmented_live r a : regions s !! r = Some a →
    has_flag (flags a) FREE_REGION_FLAG = false ↔ r ∈ L;
  segmented_connected i j : i < w * h → j < w * h →
    L !! i = L !! j ↔ connected source w i j;
  segmented_colour i r : L !! i = Some r →
    ∃ a, regions s !! r = Some a ∧ source !! i = Some (colour a);
  (** the flag of the regions at the border *)
  segmented_border r a : r ∈ L → regions s !! r = Some a →
    has_flag (flags a) ADJACENT_TO_ROOT_REGION_FLAG = true ↔
    ∃ i, L !! i = Some r ∧ on_border w h i;
  (** the boxes of the others are the smallest ones around their pixels *)
  segmented_box r a : r ∈ L → regions s !! r = Some a →
    has_flag (flags a) ADJACENT_TO_ROOT_REGION_FLAG = false →
    (∃ i, L !! i = Some r ∧ left a = X w i) ∧ (∃ i, L !! i = Some r ∧ right a = X w i) ∧
    (∃ i, L !! i = Some r ∧ top a = Y w i) ∧ (∃ i, L !! i = Some r ∧ bottom a = Y w i) ∧
    ∀ i, L !! i = Some r → (left a ≤ X w i ≤ right a)%Z ∧ (top a ≤ Y w i ≤ bottom a)%Z;
  (** the lists name regions that touch, and all of them unless a flag says that
      the list is not complete *)
  segmented_adjacent r a : r ∈ L → regions s !! r = Some a →
    length (adjacent_regions a) ≤ max_adjacent_regions s ∧
    ∀ b, (b ∈ adjacent_regions a →
        ∃ i j, (neighbours w i j ∨ neighbours w j i) ∧ L !! i = Some r ∧ L !! j = Some b) ∧
      (has_flag (flags a) SATURATED_REGION_FLAG = false →
       has_flag (flags a) FRAGMENTED_REGION_FLAG = false → b ≠ r →
       (∃ i j, (neighbours w i j ∨ neighbours w j i) ∧ L !! i = Some r ∧ L !! j = Some b) →
       b ∈ adjacent_regions a);
  (** the lists name each other as often, never two regions of one colour; free
      regions have none *)
  segmented_graph : graph (max_adjacent_regions s) (regions s);
  segmented_free r a : regions s !! r = Some a → r ∉ L → adjacent_regions a = [];
  segmented_initial r a : regions s !! r = Some a → initial a;
}.

(** ** The state during the pass *)

Section pass.
Context (source : list Z) (w h mx : nat).
Hypothesis Himg : segmentable source w h.

Record state (s : segmenter) (L : list nat) (nb : nat → nat → Prop) (bd op : nat → Prop)
    : Prop := State {
  state_width : width s = w;
  state_height : height s = h;
  state_max : max_adjacent_regions s = mx;
  state_rows : length (regions_under_construction s) = 2 * w;
  state_labels : labels source L nb;
  state_links : links_of source mx (regions s) (freed_regions s) L nb;
  state_data : data source w (regions s) (freed_regions s) L bd op;
  state_refs : refs_ok (region_refs s) L;
  state_size : length (regions s) ≤ length (region_refs s) ≤ length L;
  state_initial : Forall initial (regions s);
}.

Lemma initial_rest a b : rest a = rest b → initial b → initial a.
Proof.
  intros E (A & B & C & D). rewrite <-has_flag_rest, <-E, has_flag_rest in D by done. split_and!; [..|done].
  - by change (level (rest a) = UNKNOWN_REGION_LEVEL); rewrite E.
  - by change (children_visited_count (rest a) = 0%Z); rewrite E.
  - by change (descendent_count (rest a) = 0x7FFF%Z); rewrite E.
Qed.
Lemma initial_or_flag f a :
  has_flag f LOST_SYMBOL_FLAG = false → initial a → initial (or_flag f a).
Proof.
  intros Hf (A & B & C & D). split_and!; [done..|]. simpl. rewrite has_flag_lor. by rewrite Hf, D.
Qed.
Lemma initial_insert rs r a b :
  rs !! r = Some a → (initial a → initial b) → Forall initial rs → Forall initial (<[r:=b]> rs).
Proof. intros Ha Hab H. apply Forall_insert; [done|]. apply Hab. by eapply Forall_lookup_1. Qed.

(** The reference [z] leads to the region of pixel [p], in any number of steps or
    in none. *)
Definition follows (s : segmenter) (L : list nat) (z p : nat) : Prop :=
  ∃ d r, leads (region_refs s) d z r ∧ L !! p = Some r.
Definition stands (s : segmenter) (L : list nat) (z p : nat) : Prop :=
  ∃ r, root (region_refs s) z r ∧ L !! p = Some r.

Lemma stands_follows s L z p : stands s L z p → follows s L z p.
Proof. intros (r & ? & ?). exists 0, r. split; [by apply leads_root|done]. Qed.

Lemma state_weaken s L nb nb' bd bd' op op' :
  (∀ i j, nb i j ↔ nb' i j) → (∀ i, i < length L → bd i ↔ bd' i) → (∀ i, op i → op' i) →
  state s L nb bd op → state s L nb' bd' op'.
Proof.
  intros Hnb Hbd Hop [A B C D [E1 E2 E3] [F1 F2 F3 F4] G H I I']. split; try done.
  - split.
    + intros i j ?%Hnb. auto.
    + intros i j r Hi Hj. generalize (E2 i j r Hi Hj). apply (rtsc_congruence id).
      intros x y [??]; split; [by apply Hnb|done].
    + intros i j ?%Hnb. auto.
  - split; try done.
    + intros a b (i & j & Hn & ?)%F3. exists i, j. rewrite !Hnb in Hn. done.
    + intros i j a b ?%Hnb. eauto.
  - by eapply data_weaken.
Qed.

Lemma source_binary i c : source !! i = Some c → (c =? 0)%Z || (c =? 255)%Z = true.
Proof.
  intros Hi. pose proof (segmentable_binary _ _ _ Himg) as Hb.
  rewrite Forall_lookup in Hb. destruct (Hb i c Hi) as [-> | ->]; done.
Qed.
Lemma source_some i : i < w * h → ∃ c, source !! i = Some c.
Proof. intros H. apply lookup_lt_is_Some. by rewrite (segmentable_size _ _ _ Himg). Qed.

(** Colours of three pixels, two of which differ from the third. *)
Lemma source_two i j k a b c :
  source !! i = Some a → source !! j = Some b → source !! k = Some c → a ≠ b → c ≠ b → a = c.
Proof.
  intros Hi Hj Hk. pose proof (segmentable_binary _ _ _ Himg) as Hb. rewrite Forall_lookup in Hb.
  destruct (Hb _ _ Hi), (Hb _ _ Hj), (Hb _ _ Hk); congruence.
Qed.

Lemma to_short_id n : n < Z.to_nat 32768 → to_short (Z.of_nat n) = Z.of_nat n.
Proof. intros H. unfold to_short. rewrite Z.mod_small; lia. Qed.

(** ** The operations on the state *)

(** Where [new_region] takes the memory of the region from. *)
Definition take_region (s : segmenter) : res (nat * segmenter) :=
  match freed_regions s with
  | r :: rest => Ok (r, set_freed rest s)
  | [] =>
      if decide (length (regions s) < width s * height s)
      then Ok (length (regions s), set_regions (regions s ++ [fresh_region 0 0 0]) s)
      else Fault FBadAccess
  end.

Lemma take_region_run s L nb bd op :
  state s L nb bd op → length L < w * h →
  ∃ r rs freed, take_region s = Ok (r, set_regions rs (set_freed freed s)) ∧
    r < length rs ∧
    (length rs = length (regions s) ∨ length rs = S (length (regions s))) ∧
    (r ∉ L) ∧ adj (regions s) r = [] ∧ (∀ z, z ≠ r → rs !! z = regions s !! z) ∧
    NoDup freed ∧ (∀ z, z ∈ freed ↔ z ∈ freed_regions s ∧ z ≠ r).
Proof.
  intros [A1 A2 _ _ _ K D _ Hs _] Hn. unfold take_region.
  destruct (freed_regions s) as [|r rest] eqn:E.
  - rewrite A1, A2, decide_True by lia.
    exists (length (regions s)), (regions s ++ [fresh_region 0 0 0]), [].
    assert (Hl : length (regions s ++ [fresh_region 0 0 0]) = S (length (regions s)))
      by (rewrite length_app; simpl; lia).
    split_and!; [destruct s; simpl in *; by subst|lia|by right| | | |constructor|].
    + intros [i Hi]%list_elem_of_lookup. destruct (data_colour _ _ _ _ _ _ _ D _ _ Hi) as (a & Ha & _).
      apply lookup_lt_Some in Ha. lia.
    + unfold adj. by rewrite lookup_ge_None_2.
    + intros z Hz. destruct (decide (z < length (regions s))); [by apply lookup_app_l|].
      rewrite !lookup_ge_None_2; [done|lia..].
    + intros z. rewrite elem_of_nil. tauto.
  - destruct (data_freed _ _ _ _ _ _ _ D r) as [Hr HrL]; [by left|].
    pose proof (data_NoDup _ _ _ _ _ _ _ D) as [Hrr Hnd]%NoDup_cons.
    exists r, (regions s), rest. split_and!; try done; [by left|..].
    + apply (links_freed _ _ _ _ _ _ K). by left.
    + intros z. rewrite elem_of_cons. split; [|tauto]. intros Hz. split; [by right|]. congruence.
Qed.

Lemma new_region_run s L nb bd op c n :
  length L = n →
  state s L nb bd op → n < w * h → source !! n = Some c → ¬ bd n →
  ∃ z s' r, new_region s (n `mod` w) (n / w) c = Ok (z, s') ∧ (r ∉ L) ∧
    state s' (L ++ [r]) nb bd op ∧ stands s' (L ++ [r]) z n ∧
    regions_under_construction s' = regions_under_construction s ∧
    (∀ z p, follows s L z p → follows s' (L ++ [r]) z p) ∧
    (∀ z p, stands s L z p → stands s' (L ++ [r]) z p).
Proof.
  intros <-. set (n := length L). intros H Hn Hc Hb. pose proof (state_size _ _ _ _ _ H) as Hs.
  destruct (take_region_run _ _ _ _ _ H Hn)
    as (r & rs & freed & E & Hr & Hl & HrL & Hadj & Hz & Hnd & Hfr).
  destruct H as [A1 A2 A3 A4 A5 A6 A7 A8 A9 A10].
  set (fresh := fresh_region (Z.of_nat (n `mod` w)) (Z.of_nat (n / w)) c).
  destruct (refs_new _ _ r A8 HrL) as (B1 & B2 & B3 & B4).
  set (l' := region_refs s ++ _) in *.
  exists (length (region_refs s)), (set_refs l' (set_regions (<[r:=fresh]> rs) (set_freed freed s))), r.
  destruct Himg as [I1 I2 I3 I4].
  assert (HX : n `mod` w < Z.to_nat 32768)
    by (pose proof (Nat.mod_upper_bound n w); lia).
  assert (HY : n / w < Z.to_nat 32768)
    by (pose proof (Nat.Div0.div_lt_upper_bound n w h); lia).
  assert (Hrs : ∀ z, z ≠ r → <[r:=fresh]> rs !! z = regions s !! z)
    by (intros; rewrite list_lookup_insert_ne by done; by apply Hz).
  assert (Hrr : <[r:=fresh]> rs !! r = Some fresh) by (by apply list_lookup_insert_eq).
  split_and!; [|done| |by exists r; split; [|apply lookup_snoc_Some; right]|done| |].
  - unfold new_region. fold (take_region s). rewrite E. simpl.
    rewrite (source_binary _ _ Hc). simpl.
    apply lookup_lt_is_Some in Hr as [b Hb'].
    rewrite (upd_run _ _ _ _ Hb'). simpl. rewrite A1, A2, decide_True by lia. done.
  - split; try done; simpl.
    + by apply labels_new.
    + apply links_pixel; [done|].
      by apply (links_fresh _ _ _ _ _ _ _ _ r fresh A6); try done; intros z ?%Hfr; tauto.
    + eapply data_new; try done; simpl; try by apply to_short_id.
    + rewrite length_insert. unfold l'. rewrite !length_app. simpl. lia.
    + apply Forall_lookup. intros z a Hza. destruct (decide (z = r)) as [->|].
      * rewrite Hrr in Hza. by injection Hza as <-.
      * rewrite Hrs in Hza by done. by eapply Forall_lookup_1.
  - intros z p (d & y & ? & ?). exists d, y. split; [by apply B3|by apply lookup_app_l_Some].
  - intros z p (y & ? & ?). exists y. split; [by apply B4|by apply lookup_app_l_Some].
Qed.

(** References and rows are left alone. *)
Definition same_rows (s s' : segmenter) : Prop :=
  region_refs s' = region_refs s ∧ regions_under_construction s' = regions_under_construction s.
Lemma same_stands s s' L z p : same_rows s s' → stands s L z p → stands s' L z p.
Proof. intros [E _]. unfold stands. by rewrite E. Qed.
Lemma same_follows s s' L z p : same_rows s s' → follows s L z p → follows s' L z p.
Proof. intros [E _]. unfold follows. by rewrite E. Qed.

Lemma state_region s L nb bd op i r :
  state s L nb bd op → L !! i = Some r →
  ∃ a, regions s !! r = Some a ∧ source !! i = Some (colour a).
Proof. intros H. apply (data_colour _ _ _ _ _ _ _ (state_data _ _ _ _ _ H)). Qed.

Lemma region_at_run s z r : root (region_refs s) z r → region_at s z = Ok r.
Proof. intros H. unfold region_at, root in *. by rewrite H. Qed.
Lemma on_region_run s z r a f :
  root (region_refs s) z r → regions s !! r = Some a →
  on_region s z f = Ok (set_regions (<[r:=f a]> (regions s)) s).
Proof. intros H Ha. unfold on_region. rewrite (region_at_run _ _ _ H). simpl.
  by rewrite (upd_run _ _ _ _ Ha). Qed.
Lemma region_data_run s L nb bd op z i :
  state s L nb bd op → stands s L z i →
  ∃ a, region_data s z = Ok a ∧ source !! i = Some (colour a).
Proof.
  intros H (r & Hr & Hi). destruct (state_region _ _ _ _ _ _ _ H Hi) as (a & Ha & Hs).
  exists a. split; [|done]. unfold region_data. rewrite (region_at_run _ _ _ Hr). simpl. by rewrite Ha.
Qed.

Lemma mark_pixel s L nb bd op op' z i :
  state s L nb bd op → stands s L z i → (∀ j, op j → op' j ∨ L !! j = L !! i) →
  ∃ s', on_region s z (or_flag ADJACENT_TO_ROOT_REGION_FLAG) = Ok s' ∧
    state s' L nb (also bd i) op' ∧ same_rows s s'.
Proof.
  intros H (r & Hr & Hi) Ho. destruct (state_region _ _ _ _ _ _ _ H Hi) as (a & Ha & _).
  rewrite (on_region_run _ _ _ _ _ Hr Ha). eexists. split_and!; [done| |done].
  destruct H as [A1 A2 A3 A4 A5 A6 A7 A8 A9 A10]. split; simpl; try done.
  - eapply links_data; try done. intros f [-> | ->]; simpl; rewrite has_flag_lor; apply orb_false_r.
  - eapply data_mark; try done. by rewrite <-Hi.
  - by rewrite length_insert.
  - eapply initial_insert; [done| |done]. by apply initial_or_flag.
Qed.

Lemma mark_known s L nb bd op op' i j :
  state s L nb bd op → i < length L → L !! i = L !! j → bd j →
  (∀ k, op k → op' k ∨ L !! k = L !! i) → state s L nb (also bd i) op'.
Proof.
  intros [A1 A2 A3 A4 A5 A6 A7 A8 A9 A10] [r Hi]%lookup_lt_is_Some Hij Hj Ho. split; try done.
  eapply data_mark_known; try done; [exists j; by rewrite <-Hij|]. by rewrite <-Hi.
Qed.

(** The west region gets the right end of its run, which ends at pixel [m]. *)
Lemma close_run s L nb bd op z m x :
  state s L nb bd op → stands s L z m → X w m = (Z.of_nat x - 1)%Z → x ≤ w →
  (∀ j, op j → L !! j = L !! m ∧ (X w j ≤ X w m)%Z) →
  ∃ s', on_region s z (λ a, if (right a <? Z.of_nat x - 1)%Z
      then set_box (left a) (top a) (to_short (Z.of_nat x - 1)) (bottom a) a else a) = Ok s' ∧
    state s' L nb bd none ∧ same_rows s s'.
Proof.
  intros H (r & Hr & Hi) HX Hx Ho. destruct (state_region _ _ _ _ _ _ _ H Hi) as (a & Ha & _).
  rewrite (on_region_run _ _ _ _ _ Hr Ha). eexists. split_and!; [done| |done].
  pose proof (segmentable_width _ _ _ Himg).
  assert (Hsx : to_short (Z.of_nat x - 1) = X w m).
  { rewrite <-HX. unfold X. apply to_short_id. pose proof (Nat.mod_upper_bound m w). lia. }
  rewrite Hsx, <-HX.
  destruct H as [A1 A2 A3 A4 A5 A6 A7 A8 A9 A10]. split; simpl; try done.
  - eapply links_data; try done; by destruct (_ <? _)%Z.
  - apply (data_close _ _ _ _ _ _ op); try done. by rewrite <-Hi.
  - by rewrite length_insert.
  - eapply initial_insert; [done| |done]. by destruct (_ <? _)%Z.
Qed.

(** The regions of the pixels [i] and [j] are made adjacent. *)
Lemma adjoin_run s L nb bd op z1 z2 i j :
  state s L nb bd op → stands s L z1 j → stands s L z2 i → source !! i ≠ source !! j →
  ∃ s', adjoin s z1 z2 = Ok s' ∧ state s' L (plus nb i j) bd op ∧ same_rows s s'.
Proof.
  intros H (r1 & Hr1 & Hj) (r2 & Hr2 & Hi) Hne.
  destruct (state_region _ _ _ _ _ _ _ H Hi) as (a2 & Ha2 & Hs2).
  destruct (state_region _ _ _ _ _ _ _ H Hj) as (a1 & Ha1 & Hs1).
  destruct H as [A1 A2 A3 A4 A5 A6 A7 A8 A9 A10].
  unfold adjoin. rewrite (region_at_run _ _ _ Hr1), (region_at_run _ _ _ Hr2), A3. simpl.
  destruct (make_adjacent_run mx (regions s) r1 r2) as (rs' & -> & G & A).
  { apply A6. } { by eapply lookup_lt_Some. } { by eapply lookup_lt_Some. }
  { unfold col. rewrite Ha1, Ha2. simpl. congruence. }
  simpl. eexists. split_and!; [done| |done].
  assert (Hfree : ∀ r k, L !! k = Some r → r ∉ freed_regions s).
  { intros r k Hk Hr. apply (data_freed _ _ _ _ _ _ _ A7) in Hr as [_ Hr].
    by apply list_elem_of_lookup_2 in Hk. }
  split; simpl; try done.
  - apply labels_plus; try done; by eapply lookup_lt_Some.
  - eapply links_adjoin; eauto.
  - eapply data_rest; [by apply (adjoined_rest _ _ _ _ A)|done].
  - by rewrite (rest_length _ _ (adjoined_rest _ _ _ _ A)).
  - apply Forall_lookup. intros z b Hz.
    destruct (rest_lookup _ _ _ _ (eq_sym (adjoined_rest _ _ _ _ A)) Hz) as (b' & Hb' & R).
    eapply initial_rest; [by symmetry|]. by eapply Forall_lookup_1.
Qed.

(** The region of [c], of pixel [j], is merged into the one of [p], of pixel [i]. *)
Lemma absorb_run s L nb bd op p c i j :
  state s L nb bd op → stands s L p i → stands s L c j → p ≠ c → source !! i = source !! j →
  ∃ s' r1 r2, let L' := redirected r1 r2 <$> L in
    absorb s p c = Ok s' ∧ state s' L' (plus nb i j) bd op ∧ stands s' L' p i ∧
    regions_under_construction s' = regions_under_construction s ∧
    (∀ z q, follows s L z q → follows s' L' z q).
Proof.
  intros H (r1 & Hr1 & Hi) (r2 & Hr2 & Hj) Hpc Hs.
  destruct (state_region _ _ _ _ _ _ _ H Hi) as (a & Ha & Hsa).
  destruct (state_region _ _ _ _ _ _ _ H Hj) as (b & Hb & Hsb).
  destruct H as [A1 A2 A3 A4 A5 A6 A7 A8 A9 A10].
  assert (H12 : r1 ≠ r2) by (intros ->; apply Hpc; by eapply (refs_unique _ _ A8)).
  unfold absorb. rewrite (region_at_run _ _ _ Hr1), (region_at_run _ _ _ Hr2), A3. simpl.
  destruct (merge_regions_run mx (regions s) r1 r2 a b)
    as (rs1 & d & -> & G & E & Hd & Rd & Ll & Rz & Sub & K); [apply A6|done..|congruence|].
  simpl. pose proof (lookup_lt_Some _ _ _ Hb) as L2. rewrite <-Ll in L2.
  apply lookup_lt_is_Some in L2 as [b' Hb']. rewrite (upd_run _ _ _ _ Hb'). simpl.
  destruct (refs_merge _ _ p c r1 r2 A8) as (B1 & B2 & B3); [done..|].
  pose proof (list_elem_of_lookup_2 _ _ _ Hi). pose proof (list_elem_of_lookup_2 _ _ _ Hj).
  assert (r1 ∉ freed_regions s) by (by intros [_ ?]%(data_freed _ _ _ _ _ _ _ A7)).
  eexists _, r1, r2. split_and!; [done| | |done|].
  - split; simpl; try done.
    + by apply labels_merge.
    + apply links_plus; [by eapply links_merge|]. by intros.
    + eapply data_merge; try done. congruence.
    + rewrite !length_insert, length_fmap. lia.
    + eapply initial_insert; [done|by intros (? & ? & ? & _)|]. apply Forall_lookup. intros z e Hz.
      destruct (decide (z = r1)) as [->|Hz1].
      * rewrite Hd in Hz. injection Hz as <-. eapply initial_rest; [done|].
        apply initial_or_flag; [|change (initial a); by eapply Forall_lookup_1].
        by destruct (Forall_lookup_1 _ _ _ _ A10 Hb) as (_ & _ & _ & ?).
      * specialize (Rz z Hz1). rewrite Hz in Rz. destruct (regions s !! z) as [e'|] eqn:Ee; [|done].
        change (Some (rest e) = Some (rest e')) in Rz. apply (initial_rest e e'); [congruence|].
        by eapply Forall_lookup_1.
  - exists r1. split; [done|]. rewrite list_lookup_fmap, Hi. simpl. unfold redirected.
    by rewrite decide_False.
  - intros z q (d0 & r & Hl & Hq). destruct (B3 _ _ _ Hl) as (d' & Hl').
    exists d', (redirected r1 r2 r). split; [done|]. by rewrite list_lookup_fmap, Hq.
Qed.

Lemma row_set_run s L nb bd op i z :
  state s L nb bd op → i < 2 * w →
  row_set s i z = Ok (set_rows (<[i:=z]> (regions_under_construction s)) s) ∧
  state (set_rows (<[i:=z]> (regions_under_construction s)) s) L nb bd op.
Proof.
  intros [A1 A2 A3 A4 A5 A6 A7 A8 A9 A10] Hi. unfold row_set. rewrite decide_True by lia.
  split; [done|]. split; simpl; try done. by rewrite length_insert.
Qed.

Lemma resolve_cell_run s L nb bd op i z p :
  state s L nb bd op → regions_under_construction s !! i = Some z → follows s L z p →
  ∃ k s', resolve_cell s i = Ok (k, s') ∧ state s' L nb bd op ∧ stands s' L k p ∧
    regions_under_construction s' = <[i:=k]> (regions_under_construction s) ∧
    (∀ z p, follows s L z p → follows s' L z p) ∧ (∀ z p, stands s L z p → stands s' L z p).
Proof.
  intros H Hz (d & r & Hl & Hp). pose proof (state_refs _ _ _ _ _ H) as Hr.
  destruct (resolve_run _ _ z Hr) as (k & r' & d' & l' & E & Hk & Hl' & Hr' & Ll & [S1 S2]);
    [by eapply leads_lt|].
  assert (r' = r) as -> by (by eapply leads_fun).
  unfold resolve_cell, row_get. rewrite Hz. simpl. rewrite E. simpl.
  assert (H' : state (set_refs l' s) L nb bd op).
  { destruct H as [A1 A2 A3 A4 A5 A6 A7 A8 A9 A10]. split; simpl; try done. by rewrite Ll. }
  pose proof (lookup_lt_Some _ _ _ Hz) as Hi. rewrite (state_rows _ _ _ _ _ H) in Hi.
  destruct (row_set_run _ _ _ _ _ i k H' Hi) as [-> H'']. simpl.
  exists k, (set_rows (<[i:=k]> (regions_under_construction s)) (set_refs l' s)).
  split_and!; [done|done|by exists r|done| |].
  - intros z' p' (e & y & Hy & ?). destruct (S1 _ _ _ Hy) as (e' & ? & _). by exists e', y.
  - intros z' p' (y & ? & ?). exists y. split; [by apply S2|done].
Qed.

Lemma follows_snoc s L r z p : follows s L z p → follows s (L ++ [r]) z p.
Proof. intros (d & y & ? & ?). exists d, y. split; [done|by apply lookup_app_l_Some]. Qed.
Lemma stands_snoc s L r z p : stands s L z p → stands s (L ++ [r]) z p.
Proof. intros (y & ? & ?). exists y. split; [done|by apply lookup_app_l_Some]. Qed.
Lemma stands_join s L r z p n :
  length L = n → stands s L z p → L !! p = Some r → stands s (L ++ [r]) z n.
Proof. intros <- (y & ? & ?) ?. exists y. split; [done|]. simplify_eq. apply lookup_snoc_Some. by right. Qed.

(** The next pixel joins the region of its neighbour [m]. *)
Lemma join_run s L nb bd op op' m r n :
  length L = n →
  state s L nb bd op → L !! m = Some r → source !! m = source !! n → ¬ bd n →
  (X w m ≤ X w n)%Z → (Y w m ≤ Y w n)%Z → (∀ i, op i → op' i) →
  op' n ∨ bd m → Y w n = Y w m ∨ bd m →
  state s (L ++ [r]) (plus nb m n) bd op'.
Proof.
  intros <-. set (n := length L). intros H Hm Hs Hn HX HY Ho Hr Hb.
  destruct (state_region _ _ _ _ _ _ _ H Hm) as (a & Ha & Hsa).
  destruct H as [A1 A2 A3 A4 A5 A6 A7 [A8 A8' A8''] A9 A10].
  pose proof (list_elem_of_lookup_2 _ _ _ Hm) as HrL.
  assert (T : bd m → touches L bd r) by (intros; by exists m).
  split; try done.
  - by apply labels_join.
  - apply links_plus; [by apply links_pixel|]. intros ????. by rewrite Hs.
  - destruct (boxed_in _ _ _ _ _ _ (data_box _ _ _ _ _ _ _ A7 _ _ HrL Ha) m Hm) as (?&?&?&HB).
    eapply data_join; try done; [fold n; congruence|]. fold n.
    split_and!; [lia|lia|tauto|]. destruct Hb as [->|?]; tauto.
  - split; [done| |done]. intros k e y Hk He. destruct (A8' _ _ _ Hk He). split; [done|].
    apply elem_of_app. by left.
  - rewrite length_app. lia.
Qed.

(** The next pixel joins the region of the pixel above it, which gets a new bottom. *)
Lemma join_below_run s L nb bd m z n :
  length L = n →
  state s L nb bd none → stands s L z m → source !! m = source !! n → ¬ bd n →
  n = m + w → n < w * h →
  ∃ r s', L !! m = Some r ∧ on_region s z (λ a,
      set_box (left a) (top a) (right a) (to_short (Z.of_nat (n / w))) a) = Ok s' ∧
    state s' (L ++ [r]) (plus nb m n) bd none ∧ same_rows s s'.
Proof.
  intros <-. set (n := length L). intros H (r & Hr & Hm) Hs Hn Hnm Hlt. exists r.
  destruct (state_region _ _ _ _ _ _ _ H Hm) as (a & Ha & Hsa).
  rewrite (on_region_run _ _ _ _ _ Hr Ha). eexists. split_and!; [done|done| |done].
  destruct Himg as [I1 I2 I3 I4].
  rewrite to_short_id by (pose proof (Nat.Div0.div_lt_upper_bound n w h); lia).
  change (Z.of_nat (n / w)) with (Y w n).
  destruct H as [A1 A2 A3 A4 A5 A6 A7 [A8 A8' A8''] A9 A10].
  split; simpl; try done.
  - by apply labels_join.
  - apply links_plus; [apply links_pixel; [done|]; by eapply links_data|].
    intros ????. by rewrite Hs.
  - eapply data_join_below; try done; fold n; [congruence| |].
    + unfold X. f_equal. rewrite Hnm. replace (m + w) with (m + 1 * w) by lia.
      by rewrite Nat.Div0.mod_add.
    + intros i Hi. unfold Y. apply inj_le, Nat.Div0.div_le_mono. lia.
  - split; [done| |done]. intros k e y Hk He. destruct (A8' _ _ _ Hk He). split; [done|].
    apply elem_of_app. by left.
  - rewrite length_insert, length_app. lia.
  - by eapply initial_insert.
Qed.

Lemma state_plus s L nb bd op i j :
  state s L nb bd op → i < length L → j < length L →
  (source !! i = source !! j → L !! i = L !! j) →
  (∀ a b, L !! i = Some a → L !! j = Some b → source !! i ≠ source !! j → linked (regions s) a b) →
  state s L (plus nb i j) bd op.
Proof.
  intros [A1 A2 A3 A4 A5 A6 A7 A8 A9 A10] Hi Hj Hs Hl. split; try done.
  - by apply labels_plus. - by apply links_plus.
Qed.

(** ** The invariant of the pass *)

Definition pairs (n : nat) : nat → nat → Prop := λ i j, neighbours w i j ∧ j < n.
(** The border pixels marked before the end of row [y]. *)
Definition border (y n : nat) : nat → Prop :=
  λ i, i < n ∧ (i < w ∨ i `mod` w = 0 ∨ i `mod` w = w - 1 ∧ i < y * w).

(** The current row up to column [x] and the previous one from there on. *)
Record rows_ok (s : segmenter) (L : list nat) (cur prev y x : nat) : Prop := RowsOk {
  rows_offsets : cur = 0 ∧ prev = w ∨ cur = w ∧ prev = 0;
  rows_prev x' : 0 < y → x ≤ x' < w →
    ∃ z, regions_under_construction s !! (prev + x') = Some z ∧ follows s L z ((y - 1) * w + x');
  rows_cur x' : x' < x →
    ∃ z, regions_under_construction s !! (cur + x') = Some z ∧ follows s L z (y * w + x');
  rows_west : 0 < x →
    ∃ z, regions_under_construction s !! (cur + (x - 1)) = Some z ∧
      stands s L z (y * w + x - 1);
}.

Record inv (s : segmenter) (L : list nat) (cur prev y x : nat) : Prop := Inv {
  inv_length : length L = y * w + x;
  inv_state : ∃ op, state s L (pairs (y * w + x)) (border y (y * w + x)) op ∧
    ∀ j, op j → y * w ≤ j < y * w + x ∧ L !! j = L !! (y * w + x - 1);
  inv_rows : rows_ok s L cur prev y x;
}.

Lemma pixel_mod y x : x < w → (y * w + x) `mod` w = x.
Proof. intros H. rewrite Nat.add_comm, Nat.Div0.mod_add. by apply Nat.mod_small. Qed.
Lemma pixel_div y x : x < w → (y * w + x) / w = y.
Proof. intros H. rewrite Nat.add_comm, Nat.div_add, Nat.div_small by lia. lia. Qed.
Lemma pixel_X y x : x < w → X w (y * w + x) = Z.of_nat x.
Proof. intros H. unfold X. by rewrite pixel_mod. Qed.
Lemma pixel_Y y x : x < w → Y w (y * w + x) = Z.of_nat y.
Proof. intros H. unfold Y. by rewrite pixel_div. Qed.
Lemma pixel_lt y x : y < h → x < w → y * w + x < w * h.
Proof. intros. nia. Qed.

Lemma pairs_center y x i j :
  0 < y → 0 < x < w → let n := y * w + x in
  pairs (S n) i j ↔ plus (plus (pairs n) (n - 1) n) (n - w) n i j.
Proof.
  intros Hy Hx n. unfold pairs, plus, neighbours.
  pose proof (pixel_mod y x ltac:(lia)) as Hm. fold n in Hm. assert (Hwn : w ≤ n) by (unfold n; nia).
  split.
  - intros [H Hj]. destruct (decide (j = n)) as [->|]; [|left; left; split; [done|lia]].
    destruct H as [[-> _]| ->]; [left; right; lia|right; lia].
  - intros [[[? ?]|[-> ->]]|[-> ->]]; [split; [done|lia]|split; [left|lia]|split; [right|]; lia].
    split; [lia|]. rewrite Hm. lia.
Qed.

Lemma border_center y x i :
  0 < y → 0 < x < w → let n := y * w + x in
  i < S n → border y n i ↔ border y (S n) i.
Proof.
  intros Hy Hx n Hi. unfold border. pose proof (pixel_mod y x ltac:(lia)) as Hm. fold n in Hm.
  split; [intros [??]; split; [lia|done]|]. intros [_ H]. split; [|done].
  destruct (decide (i = n)) as [->|]; [|lia]. unfold n in *. nia.
Qed.

Lemma rows_step s L s' L' cur prev y x z :
  rows_ok s L cur prev y x → x < w →
  (∀ i, i ≠ cur + x → i ≠ prev + x →
     regions_under_construction s' !! i = regions_under_construction s !! i) →
  (∀ z p, follows s L z p → follows s' L' z p) →
  regions_under_construction s' !! (cur + x) = Some z → stands s' L' z (y * w + x) →
  rows_ok s' L' cur prev y (S x).
Proof.
  intros [A B C D] Hx Hr Hf Hz Hst. split; [done| | |].
  - intros x' Hy Hx'. destruct (B x') as (z' & ? & ?); [done|lia|].
    exists z'. split; [rewrite Hr; [done|lia..]|auto].
  - intros x' Hx'. destruct (decide (x' = x)) as [->|]; [exists z; eauto using stands_follows|].
    destruct (C x') as (z' & ? & ?); [lia|]. exists z'. split; [rewrite Hr; [done|lia..]|auto].
  - intros _. exists z. replace (S x - 1) with x by lia.
    by replace (y * w + S x - 1) with (y * w + x) by lia.
Qed.

(** The link of the pixels to the west and to the north is known: through the
    pixel between them. *)
Lemma corner_linked s L nb bd op y x a b :
  let n := y * w + x in
  state s L nb bd op → (∀ i j, pairs n i j → nb i j) → n ≤ length L → n < w * h → 0 < y → 0 < x < w →
  source !! (n - 1) ≠ source !! (n - w) →
  L !! (n - 1) = Some a → L !! (n - w) = Some b → linked (regions s) a b ∧ linked (regions s) b a.
Proof.
  intros n H Hnb Hlen Hn Hy Hx Hne Ha Hb. assert (w + 1 ≤ n) by (unfold n; nia).
  assert (P1 : nb (n - w - 1) (n - w)).
  { apply Hnb. split; [left|lia]. split; [lia|].
    replace (n - w) with ((y - 1) * w + x) by (unfold n; nia). rewrite pixel_mod; lia. }
  assert (P2 : nb (n - w - 1) (n - 1)) by (apply Hnb; split; [right|]; lia).
  destruct (source_some (n - 1)) as [c1 E1]; [lia|]. destruct (source_some (n - w)) as [c2 E2]; [lia|].
  destruct (source_some (n - w - 1)) as [c3 E3]; [lia|].
  pose proof (links_graph _ _ _ _ _ _ (state_links _ _ _ _ _ H)) as G.
  assert (linked (regions s) a b) as K; [|split; [done|by eapply linked_sym]].
  destruct (decide (c3 = c1)) as [->|Hne3].
  - pose proof (labels_complete _ _ _ (state_labels _ _ _ _ _ H) _ _ P2 ltac:(congruence)) as EL.
    apply (links_complete _ _ _ _ _ _ (state_links _ _ _ _ _ H) _ _ _ _ P1); congruence.
  - assert (c3 = c2) as -> by (eapply (source_two (n - w - 1) (n - 1) (n - w)); eauto; congruence).
    pose proof (labels_complete _ _ _ (state_labels _ _ _ _ _ H) _ _ P1 ltac:(congruence)) as EL.
    eapply linked_sym; [done|].
    apply (links_complete _ _ _ _ _ _ (state_links _ _ _ _ _ H) _ _ _ _ P2); congruence.
Qed.

Lemma inv_next s L s' L' nb op cur prev y x z :
  let n := y * w + x in
  rows_ok s L cur prev y x → 0 < y → 0 < x < w → length L' = S n →
  state s' L' nb (border y n) op → (∀ i j, nb i j ↔ plus (plus (pairs n) (n - 1) n) (n - w) n i j) →
  (∀ j, op j → y * w ≤ j < S n ∧ L' !! j = L' !! n) →
  (∀ i, i ≠ cur + x → i ≠ prev + x →
     regions_under_construction s' !! i = regions_under_construction s !! i) →
  (∀ z p, follows s L z p → follows s' L' z p) →
  regions_under_construction s' !! (cur + x) = Some z → stands s' L' z n →
  inv s' L' cur prev y (S x).
Proof.
  intros n Hrows Hy Hx Hlen Hst Hnb Hop Hr Hf Hz Hs.
  assert (E : y * w + S x = S n) by (unfold n; lia). split.
  - by rewrite E.
  - exists op. rewrite E. split.
    + eapply state_weaken; [| |done|done].
      * intros i j. rewrite Hnb. symmetry. by apply pairs_center.
      * intros i Hi. apply border_center; [done..|]. fold n. lia.
    + intros j ?%Hop. by replace (S n - 1) with n by lia.
  - by eapply rows_step; eauto; lia.
Qed.

Lemma extend_run_ok s L cur prev y x op p here :
  let n := y * w + x in
  state s L (pairs n) (border y n) op → length L = n →
  (∀ j, op j → y * w ≤ j < n ∧ L !! j = L !! (n - 1)) → rows_ok s L cur prev y x →
  stands s L p (n - w) → 0 < y < h → 0 < x < w →
  source !! n = Some here → source !! (n - 1) = Some here →
  ∃ s' L', extend_run s cur x p here = Ok s' ∧ inv s' L' cur prev y (S x).
Proof.
  intros n H Hlen Hop Hrows Hp Hy Hx Hh Hw. destruct (rows_west _ _ _ _ _ _ Hrows) as (c & Hc & Hcs); [lia|].
  fold n in Hcs. pose proof Hcs as (rw & Hrw & Hlw). unfold extend_run, row_get. rewrite Hc. simpl.
  assert (Hcur : cur + x < 2 * w) by (pose proof (rows_offsets _ _ _ _ _ _ Hrows); lia).
  assert (Hn : n < w * h) by (apply pixel_lt; lia). assert (Hwn : w < n) by (unfold n; nia).
  destruct (row_set_run _ _ _ _ _ _ c H Hcur) as [-> H1]. simpl.
  set (s1 := set_rows _ s) in *.
  assert (J : state s1 (L ++ [rw]) (plus (pairs n) (n - 1) n) (border y n) (also op n)).
  { eapply join_run; try done.
    - congruence.
    - unfold border. lia.
    - replace (n - 1) with (y * w + (x - 1)) by (unfold n; lia). unfold n. rewrite !pixel_X; lia.
    - replace (n - 1) with (y * w + (x - 1)) by (unfold n; lia). unfold n. rewrite !pixel_Y; lia.
    - by left. - by left; right.
    - left. replace (n - 1) with (y * w + (x - 1)) by (unfold n; lia). unfold n. rewrite !pixel_Y; lia. }
  assert (Hlen1 : length (L ++ [rw]) = S n) by (rewrite length_app, Hlen; simpl; lia).
  assert (Hln : (L ++ [rw]) !! n = Some rw) by (apply lookup_snoc_Some; right; by rewrite Hlen).
  assert (Hl1 : (L ++ [rw]) !! (n - 1) = Some rw) by (by apply lookup_app_l_Some).
  assert (Hop1 : ∀ j, also op n j → y * w ≤ j < S n ∧ (L ++ [rw]) !! j = (L ++ [rw]) !! n).
  { intros j [Hj| ->]; [|split; [unfold n; lia|done]]. destruct (Hop j Hj) as [? E].
    split; [lia|]. rewrite Hln, lookup_app_l by lia. by rewrite E. }
  assert (Hc1 : stands s1 (L ++ [rw]) c n) by (by eapply stands_join).
  assert (Hp1 : stands s1 (L ++ [rw]) p (n - w)) by (by apply stands_snoc).
  assert (Hr1 : regions_under_construction s1 !! (cur + x) = Some c)
    by (apply list_lookup_insert_eq; by rewrite (state_rows _ _ _ _ _ H)).
  assert (Hr2 : ∀ i, i ≠ cur + x → i ≠ prev + x →
     regions_under_construction s1 !! i = regions_under_construction s !! i)
    by (intros; by apply list_lookup_insert_ne).
  assert (Hf1 : ∀ z q, follows s L z q → follows s1 (L ++ [rw]) z q)
    by (intros; by apply follows_snoc).
  case_decide as Hcp; [subst p|destruct (region_data_run _ _ _ _ _ _ _ J Hp1) as (a & -> & Ha); simpl;
    destruct (Z.eqb_spec here (colour a)) as [E|E]].
  - exists s1, (L ++ [rw]). split; [done|].
    eapply (inv_next s L s1 (L ++ [rw]) (plus (plus (pairs n) (n - 1) n) (n - w) n)); [done|lia|lia|done| |by intros|done..].
    destruct Hp1 as (r' & Hr' & Hl'). assert (r' = rw) as -> by (unfold root in *; simpl in *; congruence).
    apply state_plus; [done|lia|lia|by rewrite Hl', Hln|].
    intros ???? []. destruct (state_region _ _ _ _ _ _ _ J Hl') as (a1 & ? & ->).
    destruct (state_region _ _ _ _ _ _ _ J Hln) as (a2 & ? & ->). congruence.
  - destruct (absorb_run _ _ _ _ _ _ _ _ _ J Hp1 Hc1) as (s2 & r1 & r2 & K); [done|congruence|].
    simpl in K. destruct K as (-> & H2 & Hp2 & Hrow & Hf2). simpl.
    destruct (row_set_run _ _ _ _ _ _ p H2 Hcur) as [-> H3].
    set (s3 := set_rows _ s2) in *. set (L2 := redirected r1 r2 <$> (L ++ [rw])) in *.
    exists s3, L2. split; [done|].
    assert (HL2 : L2 !! (n - w) = L2 !! n).
    { apply (labels_complete _ _ _ (state_labels _ _ _ _ _ H2)); [by right|]. congruence. }
    eapply (inv_next s L s3 L2); [done|lia|lia|by unfold L2; rewrite length_fmap|exact H3|by intros| | | | |].
    + intros j [? E2]%Hop1. split; [done|]. unfold L2. by rewrite !list_lookup_fmap, E2.
    + intros i Hi1 Hi2. unfold s3. simpl. rewrite list_lookup_insert_ne, Hrow by done. by apply Hr2.
    + intros z q Hz. by apply Hf2, Hf1.
    + apply list_lookup_insert_eq. by rewrite (state_rows _ _ _ _ _ H2).
    + destruct Hp2 as (r & ? & E2). exists r. split; [done|]. unfold n in *. congruence.
  - exists s1, (L ++ [rw]). split; [done|].
    eapply (inv_next s L s1 (L ++ [rw]) (plus (plus (pairs n) (n - 1) n) (n - w) n)); [done|lia|lia|done| |by intros|done..].
    apply state_plus; [done|lia|lia|congruence|].
    intros ra rb Hra Hrb Hne. rewrite Hln in Hrb. injection Hrb as <-.
    eapply proj2, (corner_linked s1 (L ++ [rw]) _ _ _ y x); [exact J|by left|..]; try done; try lia.
    fold n. congruence.
Qed.

(** Where the pixel above has the colour, the new run belongs to its region. *)
Lemma start_below s L cur prev y x p wz here :
  let n := y * w + x in
  state s L (pairs n) (border y n) none → length L = n → rows_ok s L cur prev y x →
  stands s L p (n - w) → stands s L wz (n - 1) → 0 < y < h → 0 < x < w →
  source !! n = Some here → source !! (n - 1) ≠ Some here → source !! (n - w) = Some here →
  ∃ s1 s' L', row_set s (cur + x) p = Ok s1 ∧
    on_region s1 p (λ a, set_box (left a) (top a) (right a) (to_short (Z.of_nat y)) a) = Ok s' ∧
    inv s' L' cur prev y (S x).
Proof.
  intros n H Hlen Hrows Hp Hwz Hy Hx Hh Hw Hnorth.
  assert (Hcur : cur + x < 2 * w) by (pose proof (rows_offsets _ _ _ _ _ _ Hrows); lia).
  assert (Hn : n < w * h) by (apply pixel_lt; lia). assert (Hwn : w < n) by (unfold n; nia).
  assert (Hd : n / w = y) by (apply pixel_div; lia).
  destruct (row_set_run _ _ _ _ _ _ p H Hcur) as [-> H1]. set (s1 := set_rows _ s) in *.
  exists s1. destruct (join_below_run s1 L (pairs n) (border y n) (n - w) p n)
    as (r & s' & Hr & E & J & [Jr Jw]); try done; [congruence|unfold border; lia|lia|].
  rewrite Hd in E. exists s', (L ++ [r]). split_and!; [done|done|].
  assert (Hlen1 : length (L ++ [r]) = S n) by (rewrite length_app, Hlen; simpl; lia).
  assert (Hln : (L ++ [r]) !! n = Some r) by (apply lookup_snoc_Some; right; by rewrite Hlen).
  eapply (inv_next s L s' (L ++ [r]) (plus (plus (pairs n) (n - w) n) (n - 1) n) none);
    [done|lia|lia|done| |unfold plus; tauto|done| | | |].
  - apply state_plus; [done|lia|lia|congruence|]. intros a b Ha Hb _.
    assert (b = r) as -> by congruence.
    assert (Hr' : (L ++ [r]) !! (n - w) = Some r) by (by apply lookup_app_l_Some).
    eapply proj1, (corner_linked s' (L ++ [r]) _ _ _ y x); [exact J|by left|..]; fold n; try done; try lia.
    congruence.
  - intros i ??. rewrite Jw. by apply list_lookup_insert_ne.
  - intros z q Hz. apply follows_snoc. by apply (same_follows s1); [split|].
  - rewrite Jw. apply list_lookup_insert_eq. by rewrite (state_rows _ _ _ _ _ H).
  - eapply stands_join; [done| |done]. by apply (same_stands s1); [split|].
Qed.

(** Where it has not, the new run starts a region. *)
Lemma start_region s L cur prev y x p wz here :
  let n := y * w + x in
  state s L (pairs n) (border y n) none → length L = n → rows_ok s L cur prev y x →
  stands s L p (n - w) → stands s L wz (n - 1) → 0 < y < h → 0 < x < w →
  source !! n = Some here → source !! (n - 1) ≠ Some here → source !! (n - w) ≠ Some here →
  ∃ z s1 s2 s3 rw rp s' L', new_region s x y here = Ok (z, s1) ∧ row_set s1 (cur + x) z = Ok s2 ∧
    adjoin s2 z p = Ok s3 ∧ region_at s3 wz = Ok rw ∧ region_at s3 p = Ok rp ∧
    (if decide (rw = rp) then Ok s3 else adjoin s3 z wz) = Ok s' ∧ inv s' L' cur prev y (S x).
Proof.
  intros n H Hlen Hrows Hp Hwz Hy Hx Hh Hw Hnorth.
  assert (Hcur : cur + x < 2 * w) by (pose proof (rows_offsets _ _ _ _ _ _ Hrows); lia).
  assert (Hn : n < w * h) by (apply pixel_lt; lia). assert (Hwn : w < n) by (unfold n; nia).
  destruct (new_region_run s L (pairs n) (border y n) none here n)
    as (z & s1 & r & E1 & HrL & H1 & Hz1 & Hrow1 & Hf1 & Hs1); try done; [unfold border; lia|].
  unfold n in E1 at 1 2. rewrite pixel_mod, pixel_div in E1 by lia.
  destruct (row_set_run _ _ _ _ _ _ z H1 Hcur) as [E2 H2]. set (s2 := set_rows _ s1) in *.
  assert (Hlen1 : length (L ++ [r]) = S n) by (rewrite length_app, Hlen; simpl; lia).
  destruct (adjoin_run s2 (L ++ [r]) (pairs n) (border y n) none z p (n - w) n)
    as (s3 & E3 & H3 & S3); [done|done|by apply Hs1|congruence|].
  assert (Hwz3 : stands s3 (L ++ [r]) wz (n - 1)) by (apply (same_stands s2); [done|by apply Hs1]).
  assert (Hp3 : stands s3 (L ++ [r]) p (n - w)) by (apply (same_stands s2); [done|by apply Hs1]).
  assert (Hz3 : stands s3 (L ++ [r]) z n) by (by apply (same_stands s2)).
  pose proof Hwz3 as (rw & Rw & Lw). pose proof Hp3 as (rp & Rp & Lp).
  assert (∃ s', (if decide (rw = rp) then Ok s3 else adjoin s3 z wz) = Ok s' ∧
    state s' (L ++ [r]) (plus (plus (pairs n) (n - w) n) (n - 1) n) (border y n) none ∧
    same_rows s3 s') as (s' & E4 & H4 & S4).
  { case_decide as Hd; [|apply adjoin_run; try done; congruence].
    exists s3. split_and!; [done| |done]. subst rp.
    apply state_plus; [done|lia|lia|congruence|]. intros a b Ha Hb Hne.
    assert (a = rw) as -> by congruence.
    eapply (links_complete _ _ _ _ _ _ (state_links _ _ _ _ _ H3) (n - w) n); try done;
      [by right|congruence]. }
  exists z, s1, s2, s3, rw, rp, s', (L ++ [r]).
  split_and!; [done|done|done|by apply region_at_run|by apply region_at_run|done|].
  pose proof S3 as [_ S3']. pose proof S4 as [_ S4'].
  assert (Hrow : regions_under_construction s' = <[cur+x:=z]> (regions_under_construction s))
    by (rewrite S4', S3', <-Hrow1; done).
  eapply (inv_next s L s' (L ++ [r]) _ none);
    [done|lia|lia|done|done|unfold plus; tauto|done| | | |].
  - intros i ??. rewrite Hrow. by apply list_lookup_insert_ne.
  - intros z' q Hz. apply (same_follows s3); [done|]. apply (same_follows s2); [done|]. by apply Hf1.
  - rewrite Hrow. apply list_lookup_insert_eq. by rewrite (state_rows _ _ _ _ _ H).
  - by apply (same_stands s3).
Qed.

Lemma begin_run_ok s L cur prev y x op p here :
  let n := y * w + x in
  state s L (pairs n) (border y n) op → length L = n →
  (∀ j, op j → y * w ≤ j < n ∧ L !! j = L !! (n - 1)) → rows_ok s L cur prev y x →
  stands s L p (n - w) → 0 < y < h → 0 < x < w →
  source !! n = Some here → source !! (n - 1) ≠ Some here →
  ∃ s' L', begin_run s cur y x p here = Ok s' ∧ inv s' L' cur prev y (S x).
Proof.
  intros n H Hlen Hop Hrows Hp Hy Hx Hh Hw.
  destruct (rows_west _ _ _ _ _ _ Hrows) as (wz & Hc & Hwz); [lia|]. fold n in Hwz.
  unfold begin_run, row_get. rewrite Hc. simpl.
  destruct (close_run s L (pairs n) (border y n) op wz (n - 1) x) as (s1 & -> & H1 & S1); try done.
  { replace (n - 1) with (y * w + (x - 1)) by (unfold n; lia). rewrite pixel_X; lia. } { lia. }
  { intros j Hj. destruct (Hop j Hj) as [Hr ->]. split; [done|].
    replace j with (y * w + (j - y * w)) by lia.
    replace (n - 1) with (y * w + (x - 1)) by (unfold n; lia). unfold n in Hr.
    rewrite !pixel_X; lia. }
  simpl.
  assert (Hrows1 : rows_ok s1 L cur prev y x).
  { destruct Hrows as [A B C D]. destruct S1 as [E1 E2]. unfold follows, stands in *.
    split; [done|..]; unfold follows, stands; by rewrite ?E1, ?E2. }
  apply (same_stands _ _ _ _ _ S1) in Hp, Hwz.
  destruct (region_data_run _ _ _ _ _ _ _ H1 Hp) as (a & -> & Ha). simpl.
  destruct (Z.eqb_spec here (colour a)) as [->|Hne].
  - destruct (start_below s1 L cur prev y x p wz (colour a)) as (s2 & s' & L' & -> & E & I);
      try done. simpl. eauto.
  - destruct (start_region s1 L cur prev y x p wz here)
      as (z & s2 & s3 & s4 & rw & rp & s' & L' & -> & E2 & E3 & E4 & E5 & E6 & I); try done.
    { fold n. congruence. }
    simpl. rewrite E2. simpl. rewrite E3. simpl. rewrite E4. simpl. rewrite E5. simpl. eauto.
Qed.

Lemma src_run i c : source !! i = Some c → src source i = Ok c.
Proof. intros H. unfold src. by rewrite H. Qed.

(** One pixel of the center span. *)
Lemma center_pixel_ok s L cur prev y x :
  inv s L cur prev y x → 0 < y < h → 0 < x < w →
  ∃ s' L', center_pixel source s cur prev y x = Ok s' ∧ inv s' L' cur prev y (S x).
Proof.
  intros [Hlen (op & H & Hop) Hrows] Hy Hx. set (n := y * w + x) in *.
  assert (Hn : n < w * h) by (apply pixel_lt; lia). assert (Hwn : w < n) by (unfold n; nia).
  destruct (rows_prev _ _ _ _ _ _ Hrows x) as (z & Hz & Hf); [lia..|].
  replace ((y - 1) * w + x) with (n - w) in Hf by (unfold n; nia).
  destruct (resolve_cell_run _ _ _ _ _ _ _ _ H Hz Hf) as (p & s1 & E & H1 & Hp & Hr1 & Hf1 & Hs1).
  unfold center_pixel. rewrite E. simpl.
  assert (Hrows1 : rows_ok s1 L cur prev y x).
  { destruct Hrows as [A B C D]. split; [done|..].
    - intros x' ? Hx'. rewrite Hr1. destruct (decide (x' = x)) as [->|].
      + exists p. split; [|apply stands_follows; by replace ((y - 1) * w + x) with (n - w) by (unfold n; nia)].
        apply list_lookup_insert_eq. by eapply lookup_lt_Some.
      + rewrite list_lookup_insert_ne by lia. destruct (B x') as (z' & ? & ?); eauto.
    - intros x' ?. rewrite Hr1, list_lookup_insert_ne by lia. destruct (C x') as (z' & ? & ?); eauto.
    - intros ?. rewrite Hr1, list_lookup_insert_ne by lia. destruct D as (z' & ? & ?); eauto. }
  destruct (source_some n) as [here Hh]; [lia|]. destruct (source_some (n - 1)) as [west Hw]; [lia|].
  rewrite (state_width _ _ _ _ _ H1). fold n.
  rewrite (src_run _ _ Hh), (src_run _ _ Hw). simpl.
  destruct (Z.eqb_spec here west) as [<-|Hne].
  - by apply (extend_run_ok s1 L cur prev y x op p here).
  - apply (begin_run_ok s1 L cur prev y x op p here); try done. fold n. congruence.
Qed.

Lemma center_span_ok k : ∀ s L cur prev y x,
  inv s L cur prev y x → 0 < y < h → 0 < x → x + k = w →
  ∃ s' L', center_span source s cur prev y x k = Ok s' ∧ inv s' L' cur prev y w.
Proof.
  induction k as [|k IH]; intros s L cur prev y x H Hy Hx Hk; simpl.
  - replace w with x by lia. eauto.
  - destruct (center_pixel_ok s L cur prev y x H) as (s1 & L1 & -> & H1); [done|lia|]. simpl.
    destruct (IH s1 L1 cur prev y (S x)) as (s' & L' & E & H'); [done|done|lia|lia|]. eauto.
Qed.

(** ** Rows *)

(** Row [y] is done; [cur] is where its references are. *)
Record row_done (s : segmenter) (L : list nat) (cur y : nat) : Prop := RowDone {
  done_length : length L = S y * w;
  done_state : state s L (pairs (S y * w)) (border (S y) (S y * w)) none;
  done_rows x : x < w →
    ∃ z, regions_under_construction s !! (cur + x) = Some z ∧ follows s L z (y * w + x);
}.

Lemma w_pos : 0 < w.
Proof. apply (segmentable_width _ _ _ Himg). Qed.

Lemma pairs_left y i j :
  0 < y → let n := y * w in pairs (S n) i j ↔ plus (pairs n) (n - w) n i j.
Proof.
  intros Hy n. pose proof w_pos as Hw. unfold pairs, plus, neighbours.
  assert (Hm : n `mod` w = 0) by apply Nat.Div0.mod_mul. assert (Hwn : w ≤ n) by (unfold n; nia).
  split.
  - intros [H Hj]. destruct (decide (j = n)) as [->|]; [|left; split; [done|lia]].
    destruct H as [[_ ?]| ->]; [lia|right; lia].
  - intros [[? ?]|[-> ->]]; [split; [done|lia]|split; [right|]; lia].
Qed.
Lemma border_left y i : let n := y * w in i < S n → also (border y n) n i ↔ border y (S n) i.
Proof.
  intros n Hi. assert (Hm : n `mod` w = 0) by apply Nat.Div0.mod_mul. unfold border, also. split.
  - intros [[? ?]| ->]; split; try lia; auto.
  - intros [? ?]. destruct (decide (i = n)); [by right|left; split; [lia|done]].
Qed.

Lemma rows_left s L s' L' cur prev y z :
  row_done s L prev y → cur = 0 ∧ prev = w ∨ cur = w ∧ prev = 0 →
  (∀ x, 0 < x < w → regions_under_construction s' !! (prev + x) = regions_under_construction s !! (prev + x)) →
  (∀ z p, follows s L z p → follows s' L' z p) →
  regions_under_construction s' !! cur = Some z → stands s' L' z (S y * w) →
  rows_ok s' L' cur prev (S y) 1.
Proof.
  intros [A B C] Ho Hr Hf Hz Hs. split; [done| | |].
  - intros x _ Hx. destruct (C x) as (z' & ? & ?); [lia|]. exists z'. rewrite Hr by lia.
    split; [done|]. replace ((S y - 1) * w + x) with (y * w + x) by lia. auto.
  - intros x Hx. exists z. replace x with 0 by lia. rewrite !Nat.add_0_r.
    split; [done|by apply stands_follows].
  - intros _. exists z. simpl. rewrite Nat.add_0_r. split; [done|].
    by replace (w + y * w + 1 - 1) with (S y * w) by lia.
Qed.

Lemma left_edge_ok s L cur prev y :
  row_done s L prev y → cur = 0 ∧ prev = w ∨ cur = w ∧ prev = 0 → S y < h →
  ∃ s' L', left_edge source s cur prev (S y) = Ok s' ∧ inv s' L' cur prev (S y) 1.
Proof.
  intros HD Ho Hy. pose proof HD as [Hlen H HR]. set (n := S y * w) in *. pose proof w_pos as Hw.
  assert (Hn : n < w * h) by (unfold n; nia). assert (Hwn : w ≤ n) by (unfold n; nia).
  assert (Hm : n `mod` w = 0) by apply Nat.Div0.mod_mul.
  assert (Hd : n / w = S y) by (apply Nat.div_mul; lia).
  assert (Hmw : (n - w) `mod` w = 0).
  { replace (n - w) with (y * w) by (unfold n; lia). apply Nat.Div0.mod_mul. }
  destruct (HR 0) as (z & Hz & Hf); [done|]. rewrite Nat.add_0_r in Hz.
  replace (y * w + 0) with (n - w) in Hf by (unfold n; lia).
  destruct (resolve_cell_run _ _ _ _ _ _ _ _ H Hz Hf) as (p & s1 & E & H1 & Hp & Hr1 & Hf1 & Hs1).
  unfold left_edge. rewrite E. simpl. destruct (source_some n) as [here Hh]; [lia|].
  rewrite (state_width _ _ _ _ _ H1). change (w + y * w) with n. rewrite (src_run _ _ Hh). simpl.
  destruct (region_data_run _ _ _ _ _ _ _ H1 Hp) as (a & -> & Ha). simpl.
  assert (Hcur : cur < 2 * w) by lia. assert (Hnb : ¬ border (S y) n n) by (unfold border; lia).
  assert (E1 : S y * w + 1 = S n) by (unfold n; lia).
  assert (PL : ∀ i j, plus (pairs n) (n - w) n i j ↔ pairs (S n) i j)
    by (intros; symmetry; apply (pairs_left (S y)); lia).
  destruct (Z.eqb_spec here (colour a)) as [->|Hne].
  - destruct (row_set_run _ _ _ _ _ _ p H1 Hcur) as [-> H2]. set (s2 := set_rows _ s1) in *.
    pose proof Hp as (r & Hr & Hl).
    assert (J : state s2 (L ++ [r]) (plus (pairs n) (n - w) n) (border (S y) n) none).
    { assert (border (S y) n (n - w)) by (unfold border; split; [lia|auto]).
      eapply join_run; try done; [congruence|..]; [| |by right|by right].
      - unfold X. rewrite Hm, Hmw. done.
      - unfold Y. apply inj_le, Nat.Div0.div_le_mono. lia. }
    assert (Hln : (L ++ [r]) !! n = Some r) by (apply lookup_snoc_Some; right; by rewrite Hlen).
    exists s2, (L ++ [r]). split; [done|]. split.
    + rewrite length_app, Hlen, E1. simpl. lia.
    + exists none. rewrite E1. split; [|done].
      eapply (state_weaken _ _ _ _ (also (border (S y) n) n)); [exact PL| |done|].
      { intros i. rewrite length_app, Hlen. simpl. intros. apply border_left. fold n. lia. }
      eapply (mark_known _ _ _ _ none _ n (n - w)); try done; [rewrite length_app, Hlen; simpl; lia|..].
      * rewrite Hln. symmetry. by apply lookup_app_l_Some.
      * unfold border. split; [lia|auto].
    + eapply (rows_left s L s2 (L ++ [r])); try done.
      * intros x Hx. simpl. rewrite list_lookup_insert_ne, Hr1, list_lookup_insert_ne by lia. done.
      * intros z' q Hq. apply follows_snoc. by apply (Hf1 z' q).
      * apply list_lookup_insert_eq. by rewrite (state_rows _ _ _ _ _ H1).
      * by eapply stands_join.
  - destruct (new_region_run s1 L (pairs n) (border (S y) n) none here n)
      as (k & s2 & r & E2 & HrL & H2 & Hk & Hr2 & Hf2 & Hs2); try done.
    rewrite Hm, Hd in E2. rewrite E2. simpl.
    destruct (row_set_run _ _ _ _ _ _ k H2 Hcur) as [-> H3]. set (s3 := set_rows _ s2) in *. simpl.
    destruct (mark_pixel s3 (L ++ [r]) (pairs n) (border (S y) n) none none k n)
      as (s4 & -> & H4 & S4); try done. simpl.
    destruct (adjoin_run s4 (L ++ [r]) (pairs n) (also (border (S y) n) n) none k p (n - w) n)
      as (s5 & -> & H5 & S5); [done|by apply (same_stands s3)| |congruence|].
    { apply (same_stands s3); [done|]. by apply Hs2. }
    exists s5, (L ++ [r]). split; [done|].
    assert (Hrow : regions_under_construction s5 = <[cur:=k]> (<[prev:=p]> (regions_under_construction s))).
    { destruct S4 as [_ S4], S5 as [_ S5]. rewrite S5, S4. simpl. by rewrite Hr2, Hr1. }
    split.
    + rewrite length_app, Hlen, E1. simpl. lia.
    + exists none. rewrite E1. split; [|done].
      eapply state_weaken; [exact PL| |done|done].
      intros i. rewrite length_app, Hlen. simpl. intros. apply border_left. fold n. lia.
    + eapply (rows_left s L s5 (L ++ [r])); try done.
      * intros x Hx. rewrite Hrow. by rewrite !list_lookup_insert_ne by lia.
      * intros z' q Hq. apply (same_follows s4); [done|]. apply (same_follows s3); [done|].
        by apply Hf2, Hf1.
      * rewrite Hrow. apply list_lookup_insert_eq. rewrite length_insert.
        by rewrite (state_rows _ _ _ _ _ H).
      * apply (same_stands s4); [done|]. by apply (same_stands s3).
Qed.

Lemma border_right y i :
  let n := S y * w in i < n → also (border y n) (n - 1) i ↔ border (S y) n i.
Proof.
  intros n Hi. pose proof w_pos as Hw. unfold border, also.
  assert (Hm : (n - 1) `mod` w = w - 1).
  { replace (n - 1) with (y * w + (w - 1)) by (unfold n; lia). apply pixel_mod. lia. }
  split.
  - intros [[_ [?|[?|[? ?]]]]| ->]; (split; [done|]); [by left|by right; left|..];
      right; right; (split; [done|]); fold n; lia.
  - intros [_ [?|[?|[Hi1 _]]]]; [left; auto..|].
    destruct (decide (i < y * w)); [left; auto|right].
    pose proof (Nat.div_mod_eq i w) as Ei.
    assert (i / w = y) as Ed; [|nia].
    symmetry. apply (Nat.div_unique i w y (i - y * w)); unfold n in *; lia.
Qed.

(** One line of the image. *)
Lemma line_ok s L cur prev y :
  row_done s L prev y → cur = 0 ∧ prev = w ∨ cur = w ∧ prev = 0 → S y < h →
  ∃ s' L', line source s cur prev (S y) = Ok s' ∧ row_done s' L' cur (S y).
Proof.
  intros HD Ho Hy. pose proof w_pos as Hw. unfold line.
  destruct (left_edge_ok _ _ _ _ _ HD Ho Hy) as (s1 & L1 & -> & I1). simpl.
  destruct (inv_state _ _ _ _ _ _ I1) as (op1 & H1 & _). rewrite (state_width _ _ _ _ _ H1).
  destruct (center_span_ok (w - 1) s1 L1 cur prev (S y) 1) as (s2 & L2 & -> & [Hlen (op & H2 & Hop) Hrows]);
    [done|lia..|]. simpl. rewrite (state_width _ _ _ _ _ H2).
  set (n := S (S y) * w). assert (En : S y * w + w = n) by (unfold n; lia). rewrite En in *.
  destruct (rows_west _ _ _ _ _ _ Hrows Hw) as (z & Hz & Hs). rewrite En in Hs.
  unfold row_get. rewrite Hz. simpl.
  destruct (mark_pixel s2 L2 _ _ op none z (n - 1) H2 Hs) as (s' & -> & H' & S').
  { intros j Hj. right. by destruct (Hop j Hj) as [_ ->]. }
  exists s', L2. split; [done|]. split; [done| |].
  - eapply state_weaken; [done| |done|done]. intros i. rewrite Hlen. apply (border_right (S y)).
  - intros x Hx. destruct (rows_cur _ _ _ _ _ _ Hrows x Hx) as (z' & Hz' & Hf).
    exists z'. destruct S' as [S1 S2]. rewrite S2. split; [done|]. by apply (same_follows s2).
Qed.

Lemma lines_ok k : ∀ s L cur prev y,
  row_done s L cur y → cur = 0 ∧ prev = w ∨ cur = w ∧ prev = 0 → S y + k = h →
  ∃ cur' s' L', lines source s cur prev (S y) k = Ok (cur', s') ∧ row_done s' L' cur' (h - 1) ∧
    (cur' = 0 ∨ cur' = w).
Proof.
  induction k as [|k IH]; intros s L cur prev y HD Ho Hk; simpl.
  - exists cur, s, L. split_and!; [done|by replace (h - 1) with y by lia|tauto].
  - destruct (line_ok s L prev cur y HD) as (s1 & L1 & -> & H1); [tauto|lia|]. simpl.
    apply (IH s1 L1 prev cur (S y)); [done|tauto|lia].
Qed.

(** The top line up to column [x]. *)
Record top_ok (s : segmenter) (L : list nat) (x : nat) : Prop := TopOk {
  top_length : length L = x;
  top_state : state s L (pairs x) (border 0 x) none;
  top_rows : rows_ok s L 0 w 0 x;
}.

Lemma pairs_top n i j : 0 < n < w → pairs (S n) i j ↔ plus (pairs n) (n - 1) n i j.
Proof.
  intros Hn. unfold pairs, plus, neighbours. assert (Hm : n `mod` w = n) by (apply Nat.mod_small; lia).
  split.
  - intros [H Hj]. destruct (decide (j = n)) as [->|]; [|left; split; [done|lia]].
    destruct H as [[-> _]| ?]; [right|]; lia.
  - intros [[? ?]|[-> ->]]; [split; [done|lia]|split; [left|]; lia].
Qed.
Lemma border_top n i : n < w → i < S n → also (border 0 n) n i ↔ border 0 (S n) i.
Proof.
  intros Hn Hi. unfold border, also. split; [intros [?| ->]; lia|]. intros [? ?].
  destruct (decide (i = n)); [by right|left; lia].
Qed.

Lemma top_next s L s' L' z n :
  0 < n < w → rows_ok s L 0 w 0 n → length L' = S n →
  state s' L' (plus (pairs n) (n - 1) n) (also (border 0 n) n) none →
  regions_under_construction s' = <[n:=z]> (regions_under_construction s) →
  n < length (regions_under_construction s) →
  (∀ z p, follows s L z p → follows s' L' z p) → stands s' L' z n →
  top_ok s' L' (S n).
Proof.
  intros Hn Hrows Hlen H Hr Hlt Hf Hs. split; [done| |].
  - eapply state_weaken; [intros; symmetry; by apply pairs_top| |done|done].
    intros i. rewrite Hlen. intros. apply border_top; lia.
  - eapply (rows_step s L s' L'); try done; [lia| |].
    + intros i Hi _. rewrite Hr. by apply list_lookup_insert_ne; simpl in *.
    + rewrite Hr. by apply list_lookup_insert_eq.
Qed.

Lemma top_pixel_ok s L x :
  top_ok s L x → 0 < x < w →
  ∃ here west s' L', src source x = Ok here ∧ src source (x - 1) = Ok west ∧
    (if (here =? west)%Z then z ← row_get s (0 + (x - 1)); row_set s (0 + x) z
     else '(z, s) ← new_region s x 0 here;
          s ← row_set s (0 + x) z;
          s ← on_region s z (or_flag ADJACENT_TO_ROOT_REGION_FLAG);
          w ← row_get s (0 + (x - 1));
          adjoin s z w) = Ok s' ∧ top_ok s' L' (S x).
Proof.
  intros [Hlen H Hrows] Hx. pose proof (segmentable_height _ _ _ Himg) as Hh0.
  assert (Hn : x < w * h) by nia.
  destruct (source_some x) as [here Hh]; [lia|]. destruct (source_some (x - 1)) as [west Hw]; [lia|].
  exists here, west. rewrite (src_run _ _ Hh), (src_run _ _ Hw).
  destruct (rows_west _ _ _ _ _ _ Hrows) as (c & Hc & Hcs); [lia|]. simpl in *.
  assert (Hb : border 0 x (x - 1)) by (unfold border; lia).
  assert (Hnb : ¬ border 0 x x) by (unfold border; lia).
  assert (Hrx : x < length (regions_under_construction s)) by (rewrite (state_rows _ _ _ _ _ H); lia).
  destruct (Z.eqb_spec here west) as [<-|Hne].
  - unfold row_get. rewrite Hc. simpl. destruct (row_set_run _ _ _ _ _ x c H) as [-> H1]; [lia|].
    set (s1 := set_rows _ s) in *. pose proof Hcs as (r & Hr & Hl).
    assert (J : state s1 (L ++ [r]) (plus (pairs x) (x - 1) x) (border 0 x) none).
    { eapply join_run; try done; [congruence|..]; [| |by right|by right].
      - unfold X. rewrite !Nat.mod_small by lia. lia.
      - unfold Y. rewrite !Nat.div_small by lia. done. }
    assert (Hln : (L ++ [r]) !! x = Some r) by (apply lookup_snoc_Some; right; by rewrite Hlen).
    exists s1, (L ++ [r]). split_and!; [done..|].
    assert (Hl1 : length (L ++ [r]) = S x) by (rewrite length_app, Hlen; simpl; lia).
    eapply (top_next s L s1 (L ++ [r])); try done.
    + eapply (mark_known _ _ _ _ none _ x (x - 1)); try done; [lia|].
      rewrite Hln. symmetry. by apply lookup_app_l_Some.
    + intros z q Hq. by apply follows_snoc.
    + by eapply stands_join.
  - destruct (new_region_run s L (pairs x) (border 0 x) none here x)
      as (k & s1 & r & E1 & HrL & H1 & Hk & Hr1 & Hf1 & Hs1); try done.
    rewrite Nat.mod_small, Nat.div_small in E1 by lia. rewrite E1. simpl.
    destruct (row_set_run _ _ _ _ _ x k H1) as [-> H2]; [lia|]. set (s2 := set_rows _ s1) in *. simpl.
    destruct (mark_pixel s2 (L ++ [r]) (pairs x) (border 0 x) none none k x)
      as (s3 & -> & H3 & S3); try done. simpl.
    assert (Hrow : regions_under_construction s3 = <[x:=k]> (regions_under_construction s))
      by (destruct S3 as [_ ->]; simpl; by rewrite Hr1).
    unfold row_get. rewrite Hrow, list_lookup_insert_ne, Hc by lia. simpl.
    destruct (adjoin_run s3 (L ++ [r]) (pairs x) (also (border 0 x) x) none k c (x - 1) x)
      as (s4 & -> & H4 & S4); [done|by apply (same_stands s2)| |congruence|].
    { apply (same_stands s2); [done|]. by apply Hs1. }
    exists s4, (L ++ [r]). split_and!; [done..|].
    eapply (top_next s L s4 (L ++ [r])); try done.
    + rewrite length_app, Hlen. simpl. lia.
    + by destruct S4 as [_ ->].
    + intros z q Hq. apply (same_follows s3); [done|]. apply (same_follows s2); [done|]. by apply Hf1.
    + apply (same_stands s3); [done|]. by apply (same_stands s2).
Qed.

Lemma top_line_ok k : ∀ s L x,
  top_ok s L x → 0 < x → x + k = w →
  ∃ s' L', top_line source s 0 x k = Ok s' ∧ top_ok s' L' w.
Proof.
  induction k as [|k IH]; intros s L x H Hx Hk; [replace w with x by lia; by exists s, L|].
  cbn [top_line].
  destruct (top_pixel_ok s L x H) as (here & west & s1 & L1 & -> & -> & E & H1); [lia|].
  simpl mbind. simpl in E. rewrite E. simpl. apply (IH s1 L1); [done|lia..].
Qed.

Definition cleared (s : segmenter) : segmenter := set_refs [] (set_regions [] (set_freed [] s)).

Lemma state_cleared s :
  width s = w → height s = h → max_adjacent_regions s = mx →
  length (regions_under_construction s) = 2 * w → state (cleared s) [] (pairs 0) (border 0 0) none.
Proof.
  intros. split; try done.
  - split; [intros i j [_ ?]; lia|done|intros i j [_ ?]; lia].
  - split; [|by intros r ?%elem_of_nil|by intros a b ?%elem_of_nil|intros i j a b [_ ?]; lia].
    split; [done|by intros a b ?%elem_of_nil|simpl; lia|done].
  - split; try done; [simpl; lia|constructor|by intros r ?%elem_of_nil..].
  - split; [simpl; lia|done|done].
Qed.

Lemma first_pixel_ok s :
  state s [] (pairs 0) (border 0 0) none →
  ∃ s' L', first_pixel source s = Ok s' ∧ top_ok s' L' 1.
Proof.
  intros H. destruct Himg as [_ Hw Hh _]. unfold first_pixel.
  destruct (source_some 0) as [c Hc]; [nia|]. rewrite (src_run _ _ Hc). simpl.
  assert (Hb : ¬ border 0 0 0) by (unfold border; lia).
  destruct (new_region_run s [] (pairs 0) (border 0 0) none c 0)
    as (k & s1 & r & E1 & HrL & H1 & Hk & Hr1 & Hf1 & Hs1); try done; [nia|].
  rewrite Nat.Div0.mod_0_l, Nat.Div0.div_0_l in E1. rewrite E1. simpl.
  destruct (row_set_run _ _ _ _ _ 0 k H1) as [-> H2]; [lia|]. set (s2 := set_rows _ s1) in *. simpl.
  destruct (mark_pixel s2 [r] (pairs 0) (border 0 0) none none k 0) as (s3 & -> & H3 & S3); try done.
  exists s3, [r]. split; [done|].
  assert (Hrow : regions_under_construction s3 = <[0:=k]> (regions_under_construction s))
    by (destruct S3 as [_ ->]; simpl; by rewrite Hr1).
  assert (Hk3 : stands s3 [r] k 0) by (by apply (same_stands s2)).
  assert (Hl0 : regions_under_construction s3 !! 0 = Some k).
  { rewrite Hrow. apply list_lookup_insert_eq. rewrite (state_rows _ _ _ _ _ H). lia. }
  split; [done| |].
  - eapply state_weaken; [| |done|exact H3].
    + intros i j. unfold pairs, neighbours. lia.
    + simpl. intros i Hi. apply border_top; lia.
  - split; [auto|lia| |].
    + intros x Hx. replace x with 0 by lia. exists k. split; [done|by apply stands_follows].
    + intros _. exists k. by split.
Qed.

Lemma bottom_row_ok k : ∀ s L cur x bd,
  state s L (pairs (w * h)) bd none → cur = 0 ∨ cur = w → x + k = w →
  (∀ x, x < w → ∃ z, regions_under_construction s !! (cur + x) = Some z ∧
     follows s L z ((h - 1) * w + x)) →
  ∃ s', bottom_row s cur x k = Ok s' ∧
    state s' L (pairs (w * h)) (λ i, bd i ∨ (h - 1) * w + x ≤ i < (h - 1) * w + w) none.
Proof.
  induction k as [|k IH]; intros s L cur x bd H Hc Hk Hr; simpl.
  - exists s. split; [done|]. eapply state_weaken; [done| |done|exact H]. intros i _. split; [auto|].
    intros [?|?]; [done|lia].
  - destruct (Hr x) as (z & Hz & Hf); [lia|].
    destruct (resolve_cell_run _ _ _ _ _ _ _ _ H Hz Hf) as (p & s1 & -> & H1 & Hp & Hr1 & Hf1 & _). simpl.
    destruct (mark_pixel _ _ _ _ none none _ _ H1 Hp) as (s2 & -> & H2 & [S2 S2']); [done|]. simpl.
    destruct (IH s2 L cur (S x) (also bd ((h - 1) * w + x))) as (s' & E & H'); [done|done|lia| |].
    + intros x' Hx'. rewrite S2', Hr1. destruct (decide (x' = x)) as [->|].
      * exists p. split; [apply list_lookup_insert_eq; by eapply lookup_lt_Some|].
        apply (same_follows s1); [done|]. by apply stands_follows.
      * rewrite list_lookup_insert_ne by lia. destruct (Hr x' Hx') as (z' & ? & ?). exists z'.
        split; [done|]. apply (same_follows s1); [done|]. by apply Hf1.
    + exists s'. split; [done|]. eapply state_weaken; [done| |done|exact H'].
      intros i _. unfold also. split; [|intros [?|?]]; [intros [[?| ->]|?]; auto; lia|by left; left|].
      destruct (decide (i = (h - 1) * w + x)); [left; by right|right; lia].
Qed.

(** The whole pass. *)
Lemma build_regions_ok s :
  width s = w → height s = h → max_adjacent_regions s = mx →
  length (regions_under_construction s) = 2 * w →
  ∃ s' L, build_regions source s = Ok s' ∧ length L = w * h ∧
    state s' L (pairs (w * h)) (on_border w h) none.
Proof.
  intros A1 A2 A3 A4. pose proof (state_cleared s A1 A2 A3 A4) as H0.
  destruct Himg as [Hs Hw Hh _]. unfold build_regions. fold (cleared s).
  destruct (first_pixel_ok _ H0) as (s1 & L1 & -> & H1). simpl.
  rewrite (state_width _ _ _ _ _ (top_state _ _ _ H1)).
  destruct (top_line_ok (w - 1) s1 L1 1) as (s2 & L2 & -> & [B1 B2 B3]); [done|lia..|]. simpl.
  rewrite (state_width _ _ _ _ _ B2), (state_height _ _ _ _ _ B2).
  destruct (lines_ok (h - 1) s2 L2 0 w 0) as (cur & s3 & L3 & -> & [C1 C2 C3] & Hcur); [|auto|lia|].
  { split; rewrite ?Nat.mul_1_l; [done| |].
    - eapply state_weaken; [done| |done|exact B2]. rewrite B1. intros i Hi. unfold border. lia.
    - intros x Hx. by apply (rows_cur _ _ _ _ _ _ B3). }
  simpl. rewrite (state_width _ _ _ _ _ C2).
  replace (S (h - 1)) with h in C1, C2 by lia. replace (h * w) with (w * h) in C1, C2 by lia.
  destruct (bottom_row_ok w s3 L3 cur 0 _ C2 Hcur) as (s' & -> & H'); [lia|done|].
  exists s', L3. split_and!; [done|done|].
  eapply state_weaken; [done| |done|exact H']. intros i. rewrite C1. intros Hi.
  unfold border, on_border. pose proof (Nat.mod_upper_bound i w). split; [lia|].
  intros [?|[?|[?|?]]]; [left; lia..| |right; nia]. left. split; [done|right; right; lia].
Qed.

Lemma connected_labels s L bd op i j :
  state s L (pairs (w * h)) bd op → length L = w * h → i < w * h → j < w * h →
  L !! i = L !! j ↔ connected source w i j.
Proof.
  intros H Hlen Hi Hj. pose proof (state_labels _ _ _ _ _ H) as [A B C].
  pose proof (segmentable_size _ _ _ Himg) as Hs. split.
  - intros E. rewrite <-Hlen in Hi. apply lookup_lt_is_Some in Hi as [r Hi].
    generalize (B i j r Hi ltac:(congruence)). apply (rtsc_congruence id).
    intros x y [[? ?] ?]. by rewrite Hs.
  - clear Hi Hj. induction 1 as [|x y z Hxy _ IH]; [done|]. rewrite <-IH.
    destruct Hxy as [(?&?&?)|(?&?&?)]; [|symmetry]; apply C; try done; split; congruence.
Qed.

Lemma state_segmented s L :
  state s L (pairs (w * h)) (on_border w h) none → length L = w * h → segmented source w h s L.
Proof.
  intros H Hlen. pose proof H as [_ _ H3 _ _ K D _ _ HI].
  pose proof (links_graph _ _ _ _ _ _ K) as G.
  assert (Hlive : ∀ r, r ∈ L → r ∉ freed_regions s)
    by (intros r Hr [_ ?]%(data_freed _ _ _ _ _ _ _ D); done).
  split.
  - done.
  - intros r a Ha. rewrite (data_flag _ _ _ _ _ _ _ D _ _ Ha), bool_decide_eq_false.
    split; [|apply Hlive]. intros Hr.
    destruct (data_live _ _ _ _ _ _ _ D r) as [?|?]; [by eapply lookup_lt_Some|done..].
  - intros i j. by eapply connected_labels.
  - apply (data_colour _ _ _ _ _ _ _ D).
  - intros r a Hr Ha. by apply (data_root _ _ _ _ _ _ _ D).
  - intros r a Hr Ha Hb. pose proof (data_root _ _ _ _ _ _ _ D _ _ Hr Ha) as Ht.
    destruct (data_box _ _ _ _ _ _ _ D _ _ Hr Ha) as [B1 B2 B3 B4 B5]. split_and!; try done.
    intros i Hi. destruct (B5 i Hi) as (?&?&HR&HB). rewrite <-Ht, Hb in HR, HB. unfold none in HR.
    naive_solver.
  - intros r a Hr Ha. rewrite <-(adj_lookup _ _ _ Ha), H3. split; [apply (graph_length _ _ G)|].
    intros b. split.
    + intros (i & j & [[? _]|[? _]] & ? & ?)%(links_sound _ _ _ _ _ _ K); exists i, j; auto.
    + intros Hs Hf Hne (i & j & Hn & Hi & Hj).
      pose proof (lookup_lt_Some _ _ _ Hi). pose proof (lookup_lt_Some _ _ _ Hj).
      assert (Hc : ∀ x y, neighbours w x y → x < length L → y < length L → L !! x ≠ L !! y →
        source !! x ≠ source !! y).
      { intros x y Hxy Hx Hy HL E. apply HL.
        apply (labels_complete _ _ _ (state_labels _ _ _ _ _ H)); [split; [done|lia]|done]. }
      assert (linked (regions s) r b) as [?|[Hi1 _]]; [|done|].
      * destruct Hn as [Hn|Hn]; [|apply (linked_sym mx); [done|]];
          (eapply (links_complete _ _ _ _ _ _ K); [split; [exact Hn|lia]|apply Hc; congruence|done..]).
      * rewrite incomplete_alt in Hi1. unfold hasf in Hi1. by rewrite (fl_lookup _ _ _ Ha), Hs, Hf in Hi1.
  - by rewrite H3.
  - intros r a Ha Hr. rewrite <-(adj_lookup _ _ _ Ha). apply (links_freed _ _ _ _ _ _ K).
    destruct (data_live _ _ _ _ _ _ _ D r) as [?|?]; [by eapply lookup_lt_Some|done..].
  - intros r a Ha. by eapply Forall_lookup_1.
Qed.
End pass.

(** C7: for a binary image of the size the segmenter was set up for,
    [step_segmenter] returns (no assertion fails, no buffer is overrun, and every chain
    of redirections ends) whatever the rows held before.  The regions that are not
    free are the 4-connected components of the pixels of one colour; the flag
    [ADJACENT_TO_ROOT_REGION_FLAG] marks the ones that touch the border of the image,
    the boxes of the others are exact (nothing is said of the box of a region at the
    border, see [border_box_short]), and the list of adjacent regions names only
    regions that touch, all of them unless the region is saturated or fragmented. *)
Theorem step_segmenter_correct source w h s :
  segmentable source w h → allocated s = true → width s = w → height s = h →
  length (regions_under_construction s) = 2 * w →
  ∃ s' L, step_segmenter s source = Ok s' ∧ segmented source w h s' L.
Proof.
  intros Himg Ha Hw Hh Hr. unfold step_segmenter. rewrite Ha.
  destruct (build_regions_ok source w h (max_adjacent_regions s) Himg s)
    as (s' & L & E & Hlen & H); try done.
  exists s', L. split; [done|]. by eapply state_segmented.
Qed.

(** A dark square with a hole in a light frame. *)
Definition ring_image : list Z :=
  [255; 255; 255; 255; 255;
   255; 0; 0; 0; 255;
   255; 0; 255; 0; 255;
   255; 0; 0; 0; 255;
   255; 255; 255; 255; 255]%Z.

Lemma ring_segmentable : segmentable ring_image 5 5.
Proof. split; [done|lia|lia|]. by apply (bool_decide_unpack _). Qed.

Lemma step_segmenter_correct_witness :
  ∃ s' L, step_segmenter (initialize_segmenter true (replicate 10 7) 5 5 19) ring_image = Ok s' ∧
    segmented ring_image 5 5 s' L.
Proof.
  apply (step_segmenter_correct ring_image 5 5 (initialize_segmenter true (replicate 10 7) 5 5 19));
    [exact ring_segmentable|reflexivity..].
Defined.

(** The box of a region at the border can be too small: the edges of the image do
    not extend it, and a white image is one region whose box is a single pixel. *)
Example border_box_short :
  match step_segmenter (initialize_segmenter true (replicate 10 7) 5 5 19) (replicate 25 255%Z) with
  | Ok s => (λ a, (left a, top a, right a, bottom a)) <$> regions s !! 0 = Some (0, 0, 0, 0)%Z
  | Fault _ => False
  end.
Proof. vm_compute. reflexivity. Qed.

(** The first loop of [merge_regions] moves on after a removal, so the entry that
    took the place of the removed one is not looked at: with three regions around,
    a region ends up twice in the list of another one. *)
Definition twice_image : list Z := [255; 255; 255; 255; 0; 255; 0; 255; 255]%Z.
Example merge_keeps_duplicates :
  segmentable twice_image 3 3 ∧
  (s ← step_segmenter (initialize_segmenter true (replicate 6 0) 3 3 19) twice_image;
   Ok (adjacent_regions <$> regions s)) = Ok [[1; 2; 2]; [0]; [0; 0]; []].
Proof.
  split; [split; [done|lia|lia|by apply (bool_decide_unpack _)]|vm_compute; reflexivity].
Qed.

(** A pixel that is neither 0 nor 255 stops the program. *)
Example grey_pixel_aborts :
  step_segmenter (initialize_segmenter true (replicate 2 0) 1 1 19) [128%Z] = Fault FAssert.
Proof. reflexivity. Qed.
