(* ===== verification/Fidtrack.v ===== *)
(** The search for fiducials in the regions of the segmenter:
    src/contrib/libfidtrack/fidtrackX.cpp, from the leaves of the graph of regions to
    the list of the candidates for roots.

    The counts [children_visited_count], [descendent_count] and [depth] are [short];
    assignments to them are cut to 16 bits. *)
From S2P Require Import Prelude Segment.
Local Open Scope Z_scope.

Definition NOT_TRAVERSED : Z := UNKNOWN_REGION_LEVEL.
Definition TRAVERSED : Z := NOT_TRAVERSED - 1.
Definition TRAVERSING : Z := NOT_TRAVERSED - 2.
Definition FUZZY_NODE_RANGE : Z := 2.

(** What [FidtrackerX] keeps about the trees it looks for. *)
Record fidtracker := Fidtracker {
  min_target_root_descendent_count : Z;
  max_target_root_descendent_count : Z;
  min_target_root_descendent_range : Z;
  max_target_root_descendent_range : Z;
  min_depth : Z; max_depth : Z;
}.

(** The first lines of [initialize_fidtrackerX], from the fields of the map of trees. *)
Definition initialize_fidtrackerX (min_node_count max_node_count min_dep max_dep : Z) : fidtracker :=
  let min_count := min_node_count - 1 in
  let max_count := max_node_count - 1 in
  let min_range := min_count - FUZZY_NODE_RANGE in
  Fidtracker min_count max_count (if min_range <? 3 then 3 else min_range)
    (max_count + FUZZY_NODE_RANGE) min_dep max_dep.

(** Writing the fields of the search. *)
Definition set_search (lv dp vis desc : Z) (a : region) : region :=
  Region (colour a) (left a) (top a) (right a) (bottom a) (area a) (flags a) lv dp vis desc
    (adjacent_regions a).
Definition set_visited (vis : Z) (a : region) : region :=
  set_search (level a) (depth a) vis (descendent_count a) a.

(** The loop over the adjacent regions in
    [propagate_descendent_count_and_max_depth_upwards]: the sum and the largest depth of
    those that were traversed, and the one that was not.  No region is adjacent to
    itself, so the fields of [r] the loop writes are not the ones it reads. *)
Fixpoint scan_adjacent (rs : list region) (r : nat) (l : list nat) (desc dep : Z)
    (parent : option nat) : res (Z * Z * option nat) :=
  match l with
  | [] => Ok (desc, dep, parent)
  | x :: l =>
      b ← deref (rs !! x);
      c ← r1_adjacent_contains_r2 rs x r;
      _ ← assert_ c;
      if level b =? TRAVERSED then
        scan_adjacent rs r l (to_short (desc + to_short (descendent_count b + 1)))
          (to_short (Z.max dep (depth b + 1))) parent
      else
        _ ← assert_ (bool_decide (parent = None));
        scan_adjacent rs r l desc dep (Some x)
  end.

Section search.
Variable ft : fidtracker.

Definition depth_in_range (dep : Z) : bool := (min_depth ft <=? dep) && (dep <=? max_depth ft).

(** Does the region become a candidate, and is it one with the wrong number of
    nodes? *)
Definition exact_count (desc dep : Z) : bool :=
  (desc =? max_target_root_descendent_count ft) && depth_in_range dep.
Definition target_count (desc dep : Z) : bool :=
  (min_target_root_descendent_count ft <=? desc) &&
  (desc <? max_target_root_descendent_count ft) && depth_in_range dep.
Definition fuzzy_count (desc dep : Z) : bool :=
  (min_target_root_descendent_range ft <=? desc) &&
  (desc <? max_target_root_descendent_range ft) && depth_in_range dep.

(** May the search go on at the parent [b]? *)
Definition parent_ready (b : region) : bool :=
  let n := Z.of_nat (length (adjacent_regions b)) in
  let partial := has_flag (flags b)
    (Z.lor ADJACENT_TO_ROOT_REGION_FLAG FRAGMENTED_REGION_FLAG) in
  negb (has_flag (flags b) SATURATED_REGION_FLAG) &&
  ((negb partial && (children_visited_count b =? n - 1)) ||
   (partial && (children_visited_count b =? n))).

(** The first half of [propagate_descendent_count_and_max_depth_upwards]: the counts
    of [r] and its parent. *)
Definition traverse (rs : list region) (r : nat) : res (list region * option nat) :=
  a ← deref (rs !! r);
  let n := Z.of_nat (length (adjacent_regions a)) in
  _ ← assert_ (level a =? NOT_TRAVERSED);
  _ ← assert_ ((children_visited_count a =? n - 1) || (children_visited_count a =? n));
  rs ← upd rs r (set_search TRAVERSING 0 (children_visited_count a) 0);
  '(desc, dep, parent) ← scan_adjacent rs r (adjacent_regions a) 0 0 None;
  rs ← upd rs r (set_search TRAVERSED dep (children_visited_count a) desc);
  Ok (rs, parent).

(** The candidate is linked at the end of the list of roots. *)
Definition link_candidate (rs : list region) (roots : list nat) (r : nat)
    : res (list region * list nat) :=
  a ← deref (rs !! r);
  let desc := descendent_count a in
  if exact_count desc (depth a) || target_count desc (depth a) then Ok (rs, roots ++ [r])
  else if fuzzy_count desc (depth a) then
    rs ← upd rs r (or_flag LOST_SYMBOL_FLAG); Ok (rs, roots ++ [r])
  else Ok (rs, roots).

(** [propagate_descendent_count_and_max_depth_upwards].  Each call traverses a
    region that was not, so that the number of regions is enough fuel. *)
Fixpoint propagate (fuel : nat) (rs : list region) (roots : list nat) (r : nat)
    : res (list region * list nat) :=
  match fuel with
  | O => Fault FBadAccess
  | S fuel =>
      '(rs, parent) ← traverse rs r;
      '(rs, roots) ← link_candidate rs roots r;
      a ← deref (rs !! r);
      match parent with
      | Some p =>
          if exact_count (descendent_count a) (depth a) ||
             has_flag (flags a) (Z.lor SATURATED_REGION_FLAG
               (Z.lor ADJACENT_TO_ROOT_REGION_FLAG FREE_REGION_FLAG))
          then Ok (rs, roots) else
          rs ← upd rs p (λ b, set_visited (to_short (children_visited_count b + 1)) b);
          b ← deref (rs !! p);
          if (descendent_count a <? max_target_root_descendent_count ft) &&
             (depth a <? max_depth ft) && parent_ready b
          then
            c1 ← r1_adjacent_contains_r2 rs r p; _ ← assert_ c1;
            c2 ← r1_adjacent_contains_r2 rs p r; _ ← assert_ c2;
            propagate fuel rs roots p
          else Ok (rs, roots)
      | None => Ok (rs, roots)
      end
  end.

(** Where the search starts: a region with one neighbour and no flag. *)
Definition is_leaf (a : region) : bool :=
  bool_decide (length (adjacent_regions a) = 1%nat) &&
  negb (has_flag (flags a) (Z.lor SATURATED_REGION_FLAG (Z.lor FRAGMENTED_REGION_FLAG
    (Z.lor ADJACENT_TO_ROOT_REGION_FLAG FREE_REGION_FLAG)))).

Fixpoint leaves_loop (rs : list region) (roots : list nat) (i n : nat)
    : res (list region * list nat) :=
  match n with
  | O => Ok (rs, roots)
  | S n =>
      a ← deref (rs !! i);
      if is_leaf a then
        _ ← assert_ (level a =? NOT_TRAVERSED);
        _ ← assert_ (children_visited_count a =? 0);
        '(rs, roots) ← propagate (length rs) rs roots i;
        leaves_loop rs roots (S i) n
      else leaves_loop rs roots (S i) n
  end.

(** [sanity_check_region_initial_values] *)
Definition initial_values (a : region) : bool :=
  (level a =? NOT_TRAVERSED) && (children_visited_count a =? 0) && (descendent_count a =? 0x7FFF).

(** [find_roots], with the empty list [find_fiducialsX] starts from. *)
Definition find_roots (s : segmenter) : res (segmenter * list nat) :=
  _ ← assert_ (forallb initial_values (regions s));
  '(rs, roots) ← leaves_loop (regions s) [] 0 (length (regions s));
  Ok (set_regions rs s, roots).
End search.
