(* ===== verification/TreeIds.v ===== *)
(** The ids of the fiducial trees: src/contrib/libfidtrack/treeidmap.cpp with the
    trees of default_trees.h. *)
From S2P Require Import Prelude StdMap.
Local Open Scope Z_scope.

(** [default_tree] *)
Definition default_tree : list string :=
  [
   "w0122222212212121111"; "w0122212221222121111"; "w0122212221221221111";
   "w0122212221212121111"; "w0122222212221211111"; "w0122221221221221111";
   "w0122212212212211111"; "w0122221222122121111"; "w0122222222212111111";
   "w0122221221212121111"; "w0122222122221211111"; "w0122221222122211111";
   "w0122222222222121111"; "w0122221212121211111"; "w0122222121212121111";
   "w0122222121212111111"; "w0122212212212121111"; "w0122222212222211111";
   "w0122222212212211111"; "w0122221222121211111"; "w0122222221221221111";
   "w0122222122222121111"; "w0122222222212211111"; "w0122212212121211111";
   "w0122222212222121111"; "w0122122122121211111"; "w0122222212121211111";
   "w0122222222122211111"; "w0122221221221211111"; "w0122222222222211111";
   "w0122222122212111111"; "w0122212221212111111"; "w0122222122122111111";
   "w0122212121212121111"; "w0122222221212111111"; "w0122222221221211111";
   "w0122222212222111111"; "w0122222221222211111"; "w0122212212212111111";
   "w0122222212221221111"; "w0122221222122111111"; "w0122222222122121111";
   "w0122221222212111111"; "w0122222222122111111"; "w0122222222222221111";
   "w0122222122212121111"; "w0122222122122121111"; "w0122222222121211111";
   "w0122212221221211111"; "w0121212121212121111"; "w0122222222212221111";
   "w0122222222221211111"; "w0122222222121111111"; "w0122222221222221111";
   "w0122222222222111111"; "w0122222212212111111"; "w0122222212222221111";
   "w0122222221212121111"; "w0122221222212211111"; "w0122121212121211111";
   "w0122222221222121111"; "w0122222221222111111"; "w0122222122221221111";
   "w0122122122122111111"; "w0122221222212121111"; "w0122222122212221111";
   "w0122222122212211111"; "w0122222222221221111"; "w0122221221221111111";
   "w0122212121212111111"; "w0122221222212221111"; "w0122212221221111111";
   "w0122222222122221111"; "w0122221212121111111"; "w0122122121212121111";
   "w0121212121212111111"; "w0122212221222111111"; "w0122222222221111111";
   "w0122221221212111111"; "w0122222222212121111"; "w0122222212221111111";
   "w0122221222211111111"; "w0122122122122121111"; "w0122221222121111111";
   "w0122222122121211111"; "w0122222122211111111"; "w0122222221221111111";
   "w0122222122222111111"; "w0122122121212111111"; "w0122222212211111111";
   "w0122222222211111111"; "w0122222222111111111"; "w0122222221211111111";
   "w0122222122221111111"; "w0122212212121111111"; "w0122222122121111111";
   "w0122222122111111111"; "w0122222121211111111"; "w0122222212121111111";
   "w0122222221111111111"; "w0122222212111111111"; "w0122221222111111111";
   "w0122212221211111111"; "w0122221221211111111"; "w0122122122121111111";
   "w0122212212211111111"; "w0122121212121111111"; "w0122212121211111111";
   "b0122222212212121111"; "b0122212221222121111"; "b0122212221221221111";
   "b0122212221212121111"; "b0122222212221211111"; "b0122221221221221111";
   "b0122212212212211111"; "b0122221222122121111"; "b0122222222212111111";
   "b0122221221212121111"; "b0122222122221211111"; "b0122221222122211111";
   "b0122222222222121111"; "b0122221212121211111"; "b0122222121212121111";
   "b0122222121212111111"; "b0122212212212121111"; "b0122222212222211111";
   "b0122222212212211111"; "b0122221222121211111"; "b0122222221221221111";
   "b0122222122222121111"; "b0122222222212211111"; "b0122212212121211111";
   "b0122222212222121111"; "b0122122122121211111"; "b0122222212121211111";
   "b0122222222122211111"; "b0122221221221211111"; "b0122222222222211111";
   "b0122222122212111111"; "b0122212221212111111"; "b0122222122122111111";
   "b0122212121212121111"; "b0122222221212111111"; "b0122222221221211111";
   "b0122222212222111111"; "b0122222221222211111"; "b0122212212212111111";
   "b0122222212221221111"; "b0122221222122111111"; "b0122222222122121111";
   "b0122221222212111111"; "b0122222222122111111"; "b0122222222222221111";
   "b0122222122212121111"; "b0122222122122121111"; "b0122222222121211111";
   "b0122212221221211111"; "b0121212121212121111"; "b0122222222212221111";
   "b0122222222221211111"; "b0122222222121111111"; "b0122222221222221111";
   "b0122222222222111111"; "b0122222212212111111"; "b0122222212222221111";
   "b0122222221212121111"; "b0122221222212211111"; "b0122121212121211111";
   "b0122222221222121111"; "b0122222221222111111"; "b0122222122221221111";
   "b0122122122122111111"; "b0122221222212121111"; "b0122222122212221111";
   "b0122222122212211111"; "b0122222222221221111"; "b0122221221221111111";
   "b0122212121212111111"; "b0122221222212221111"; "b0122212221221111111";
   "b0122222222122221111"; "b0122221212121111111"; "b0122122121212121111";
   "b0121212121212111111"; "b0122212221222111111"; "b0122222222221111111";
   "b0122221221212111111"; "b0122222222212121111"; "b0122222212221111111";
   "b0122221222211111111"; "b0122122122122121111"; "b0122221222121111111";
   "b0122222122121211111"; "b0122222122211111111"; "b0122222221221111111";
   "b0122222122222111111"; "b0122122121212111111"; "b0122222212211111111";
   "b0122222222211111111"; "b0122222222111111111"; "b0122222221211111111";
   "b0122222122221111111"; "b0122212212121111111"; "b0122222122121111111";
   "b0122222122111111111"; "b0122222121211111111"; "b0122222212121111111";
   "b0122222221111111111"; "b0122222212111111111"; "b0122221222111111111";
   "b0122212221211111111"; "b0122221221211111111"; "b0122122122121111111";
   "b0122212212211111111"; "b0122121212121111111"; "b0122212121211111111"
  ]%string.

(** [TreeIdMap] with the map of [TreeIdMapImplementation]; [next_id] is the local
    [id]. *)
Record treeidmap := TreeIdMap {
  treeIdMap : smap string Z;
  next_id : Z;
  min_node_count : Z; max_node_count : Z;
  tree_min_depth : Z; tree_max_depth : Z;
}.

Definition INVALID_TREE_ID : Z := -1.

(** [s[i] - '0'], where [char] is signed. *)
Definition tree_digit (c : ascii) : Z :=
  let n := Z.of_N (N_of_ascii c) in (if n <? 128 then n else n - 256) - 48.

(** [find_maximum_tree_depth]: the characters after the first one. *)
Fixpoint maximum_digit (s : string) (result : Z) : Z :=
  match s with
  | EmptyString => result
  | String c s => maximum_digit s (if result <? tree_digit c then tree_digit c else result)
  end.
Definition find_maximum_tree_depth (s : string) : Z :=
  match s with EmptyString => 0 | String _ s => maximum_digit s 0 end.

(** One tree: [insert] keeps the entry of a string that is there, and the id is used
    up either way. *)
Definition add_tree (length_ : Z) (s : string) (m : treeidmap) : treeidmap :=
  match find s (treeIdMap m) with
  | Some _ => TreeIdMap (treeIdMap m) (next_id m + 1) (min_node_count m) (max_node_count m)
                (tree_min_depth m) (tree_max_depth m)
  | None =>
      let d := find_maximum_tree_depth s in
      TreeIdMap (insert s (next_id m) (treeIdMap m)) (next_id m + 1)
        (if length_ <? min_node_count m then length_ else min_node_count m)
        (if max_node_count m <? length_ then length_ else max_node_count m)
        (if d <? tree_min_depth m then d else tree_min_depth m)
        (if tree_max_depth m <? d then d else tree_max_depth m)
  end.

Definition no_trees : treeidmap := TreeIdMap [] 0 0x7FFF 0 0x7FFF 0.

(** [TreeIdMapImplementation( treeidmap )], from the trees [default_tree]. *)
Fixpoint add_trees (l : list string) (m : treeidmap) : treeidmap :=
  match l with
  | [] => m
  | s :: l => add_trees l (add_tree (Z.of_nat (slen s) - 1) s m)
  end.
Definition initialize_treeidmap : treeidmap := add_trees default_tree no_trees.

(** [TreeIdMapImplementation( treeidmap, file_name )], from the words of the file:
    a word that starts with no colour is a white tree. *)
Fixpoint add_words (l : list string) (m : treeidmap) : treeidmap :=
  match l with
  | [] => m
  | s :: l =>
      match s with
      | EmptyString => add_words l m
      | String c _ =>
          if bool_decide (c = "w"%char) || bool_decide (c = "b"%char)
          then add_words l (add_tree (Z.of_nat (slen s) - 1) s m)
          else add_words l (add_tree (Z.of_nat (slen s)) (String "w" s) m)
      end
  end.
Definition initialize_treeidmap_from_file (words : option (list string)) : treeidmap :=
  match words with
  | Some l => add_words l no_trees
  | None => TreeIdMap [] 0 0 0 0 0
  end.

Definition treestring_to_id (m : treeidmap) (s : string) : Z :=
  match find s (treeIdMap m) with Some i => i | None => INVALID_TREE_ID end.

(** ** The ids *)

(** Where [s] comes first in [l]. *)
Fixpoint first_index (s : string) (l : list string) (i : Z) : option Z :=
  match l with
  | [] => None
  | x :: l => if bool_decide (x = s) then Some i else first_index s l (i + 1)
  end.

Lemma add_trees_find s l : ∀ m,
  find s (treeIdMap (add_trees l m)) =
    match find s (treeIdMap m) with Some i => Some i | None => first_index s l (next_id m) end.
Proof.
  induction l as [|x l IH]; intros m; simpl; [by destruct (find _ _)|].
  unfold add_tree. destruct (find x (treeIdMap m)) as [i|] eqn:Ex; rewrite IH; simpl; try done.
  - case_bool_decide as E; [subst; by rewrite Ex|done].
  - case_bool_decide as E; [subst; by rewrite find_insert_eq, Ex|by rewrite find_insert_ne].
Qed.

(** The id of a tree is its place in the list it comes from, the first one where it is
    there more than once; a tree that is not there has none. *)
Theorem tree_ids l s :
  treestring_to_id (add_trees l no_trees) s = default INVALID_TREE_ID (first_index s l 0).
Proof.
  unfold treestring_to_id. rewrite add_trees_find. simpl.
  by destruct (first_index s l 0).
Qed.

Lemma first_index_lookup s l i : ∀ k,
  NoDup l → l !! i = Some s → first_index s l k = Some (k + Z.of_nat i).
Proof.
  revert i. induction l as [|x l IH]; intros [|i] k Hnd Hi; simplify_eq/=.
  - rewrite bool_decide_true by done. f_equal. lia.
  - apply NoDup_cons in Hnd as [Hx Hnd]. rewrite bool_decide_false.
    + rewrite (IH i) by done. f_equal. lia.
    + intros ->. apply Hx. by eapply list_elem_of_lookup_2.
Qed.

(** The 216 trees the program is built with have the ids 0 to 215, and all have 19
    nodes and depth 2. *)
Theorem default_tree_ids i s :
  default_tree !! i = Some s → treestring_to_id initialize_treeidmap s = Z.of_nat i.
Proof.
  intros Hi. unfold initialize_treeidmap. rewrite tree_ids.
  rewrite (first_index_lookup s default_tree i 0); [done| |done].
  apply (bool_decide_unpack _). vm_compute. exact I.
Qed.
Lemma default_tree_ids_witness :
  treestring_to_id initialize_treeidmap "b0122212121211111111" = 215.
Proof. apply (default_tree_ids 215). reflexivity. Defined.

Lemma default_tree_counts :
  min_node_count initialize_treeidmap = 19 ∧ max_node_count initialize_treeidmap = 19 ∧
  tree_min_depth initialize_treeidmap = 2 ∧ tree_max_depth initialize_treeidmap = 2 ∧
  length (treeIdMap initialize_treeidmap) = 216%nat.
Proof. vm_compute. done. Qed.

Lemma initialize_treeidmap_ids s :
  treestring_to_id initialize_treeidmap s = default INVALID_TREE_ID (first_index s default_tree 0).
Proof. apply tree_ids. Qed.

Opaque initialize_treeidmap.
