(* ===== verification/FidtrackX.v ===== *)
(** The fiducials of a frame: the second half of
    src/contrib/libfidtrack/fidtrackX.cpp, from the list of roots to their position, angle
    and id.

    The strings of depths are written into the block [depth_strings]; every access is
    checked against it.  The field [depth_string] of the regions, which only
    [build_left_heavy_depth_string] uses, is the map [bd_strings] (an absent region has
    NULL).  The function [atan] of the mathematical library and [qsort] are interfaces. *)
From Stdlib Require Import SpecFloat.
From S2P Require Import Prelude StdMap Numeric Calibration Peaks Blobs Segment Fidtrack TreeIds.
Local Open Scope Z_scope.

(** ** Position and angle *)

Class Libm := { atan : double → double }.

Definition M_PI : double := d_of_ratio false 314159265358979323846 (10 ^ 20).
Definition d_half : double := d_of_ratio false 1 2.
Definition f_half : spec_float := f_of_d d_half.
(** An [int] as a [float]. *)
Definition f_of_Z (z : Z) : spec_float := binary_normalize 24 128 z 0 false.
(** [(int) f] for a [float]. *)
Definition f_to_int (f : spec_float) : Z := d_to_int (widen f).

Definition calculate_angle `{Libm} (dx dy : double) : double :=
  if d_ltb (d_of_ratio false 1 1000) (d_abs dx) then
    let result := d_sub (atan (d_div dy dx)) (d_mul M_PI d_half) in
    let result := if d_ltb dx dzero then d_sub result M_PI else result in
    if d_ltb result dzero then d_add result (d_mul (d_of_Z 2) M_PI) else result
  else if d_ltb dzero dy then dzero else M_PI.

(** What [FidtrackerX] adds up over the leaves of a fiducial: the sums of one colour,
    for both colours and before and after the correction of the pixels. *)
Record colour_sum := ColourSum { x_sum : double; y_sum : double; leaf_count : double }.
Record leaf_sums := LeafSums {
  black : colour_sum; white : colour_sum;
  black_warped : colour_sum; white_warped : colour_sum;
  total_leaf_count : Z;
  total_leaf_size : double;
}.
Definition no_colour : colour_sum := ColourSum dzero dzero dzero.
Definition no_leaves : leaf_sums := LeafSums no_colour no_colour no_colour no_colour 0 dzero.

Definition add_centre (x y : spec_float) (n : double) (c : colour_sum) : colour_sum :=
  ColourSum (d_add (x_sum c) (d_mul (widen x) n)) (d_add (y_sum c) (d_mul (widen y) n))
    (d_add (leaf_count c) n).

(** The weight of a leaf: the area of a circle for its depth. *)
Definition leaf_weight (depth : Z) : double :=
  let radius := d_add d_half (d_of_Z depth) in d_mul (d_mul radius radius) M_PI.

(** [ShortPoint *pixelwarp], which may be NULL. *)
Definition pixel_warp : Type := option (list (Z * Z)).

(** [width*(int)y + (int)x] when it is a pixel of the image. *)
Definition warp_pixel (width height x y : Z) : option nat :=
  let pixel := wrap32 (wrap32 (width * y) + x) in
  if (0 <=? pixel) && (pixel <? wrap32 (width * height)) then Some (Z.to_nat pixel) else None.

(** The branch of [sum_leaf_centers] for a leaf. *)
Definition add_leaf (warp : pixel_warp) (width height : Z) (a : region) (s : leaf_sums)
    : res leaf_sums :=
  let n := leaf_weight (depth a) in
  let leaf_size := f_mul (f_of_Z ((bottom a - top a) + (right a - left a))) f_half in
  let size := d_add (total_leaf_size s) (widen leaf_size) in
  let x := f_mul (f_of_Z (left a + right a)) f_half in
  let y := f_mul (f_of_Z (top a + bottom a)) f_half in
  '(x, y, bw, ww) ← match warp with
    | None => Ok (x, y, black_warped s, white_warped s)
    | Some m =>
        '(x, y) ← match warp_pixel width height (f_to_int x) (f_to_int y) with
          | Some i => q ← deref (m !! i); Ok (f_of_Z q.1, f_of_Z q.2)
          | None => Ok (x, y)
          end;
        Ok (if d_ltb dzero (widen x) && d_ltb dzero (widen y) then
              if colour a =? 0 then (x, y, add_centre x y n (black_warped s), white_warped s)
              else (x, y, black_warped s, add_centre x y n (white_warped s))
            else (x, y, black_warped s, white_warped s))
    end;
  let '(b, w) := if colour a =? 0 then (add_centre x y n (black s), white s)
                 else (black s, add_centre x y n (white s)) in
  Ok (LeafSums b w bw ww (d_to_int (d_add (d_of_Z (total_leaf_count s)) n)) size).

(** A loop over the adjacent regions that carries a state. *)
Fixpoint each {A} (f : A → nat → res A) (l : list nat) (s : A) : res A :=
  match l with [] => Ok s | x :: l => s ← f s x; each f l s end.

Definition is_single (a : region) : bool := bool_decide (length (adjacent_regions a) = 1%nat).

(** Is [b] a child of [a]? *)
Definition is_below (b a : region) : bool :=
  (level b =? TRAVERSED) && (descendent_count b <? descendent_count a).

(** The recursions below go to regions with fewer descendents; the number of regions
    is enough fuel for them. *)
Fixpoint sum_leaf_centers (fuel : nat) (warp : pixel_warp) (width height : Z) (rs : list region)
    (s : leaf_sums) (r : nat) : res leaf_sums :=
  match fuel with
  | O => Fault FBadAccess
  | S fuel =>
      a ← deref (rs !! r);
      if is_single a then add_leaf warp width height a s
      else each (λ s x, b ← deref (rs !! x);
        if is_below b a then sum_leaf_centers fuel warp width height rs s x else Ok s)
        (adjacent_regions a) s
  end.

Definition with_depth (d : Z) (a : region) : region :=
  set_search (level a) d (children_visited_count a) (descendent_count a) a.

Fixpoint set_depth (fuel : nat) (depth : Z) (rs : list region) (r : nat) : res (list region) :=
  match fuel with
  | O => Fault FBadAccess
  | S fuel =>
      let child_depth := to_short (depth + 1) in
      rs ← upd rs r (with_depth depth);
      a ← deref (rs !! r);
      if is_single a then Ok rs
      else each (λ rs x, b ← deref (rs !! x);
        if descendent_count b <? descendent_count a then set_depth fuel child_depth rs x else Ok rs)
        (adjacent_regions a) rs
  end.

(** ** The strings of depths *)

(** [qsort] gives some order of the elements in which no one is followed by a
    smaller one, for a comparison that is a total preorder. *)
Class Qsort := {
  qsort {A} : (A → A → Z) → list A → list A;
  qsort_perm {A} (cmp : A → A → Z) l : qsort cmp l ≡ₚ l;
  qsort_sorted {A} (cmp : A → A → Z) l :
    (∀ a b, cmp a b <= 0 ∨ cmp b a <= 0) → (∀ a b c, cmp a b <= 0 → cmp b c <= 0 → cmp a c <= 0) →
    StronglySorted (λ a b, cmp a b <= 0) (qsort cmp l);
}.

Definition char_code (c : ascii) : Z := Z.of_N (N_of_ascii c).

(** [strcmp], of which the sign is known. *)
Fixpoint strcmp (s t : list ascii) : Z :=
  match s, t with
  | [], [] => 0
  | [], _ :: _ => -1
  | _ :: _, [] => 1
  | c :: s, d :: t =>
      if char_code c <? char_code d then -1 else if char_code d <? char_code c then 1 else strcmp s t
  end.

(** [depth_string_cmp], on the strings the two regions point to. *)
Definition depth_string_cmp (a b : nat * option (list ascii)) : Z :=
  match a.2, b.2 with
  | None, None => 0
  | None, Some _ => 1
  | Some _, None => -1
  | Some s, Some t => - strcmp s t
  end.

Definition NUL : ascii := "000"%char.
Definition write_char (mem : list ascii) (p : nat) (c : ascii) : res (list ascii) :=
  if decide (p < length mem)%nat then Ok (<[p:=c]> mem) else Fault FBadAccess.

(** The characters from [p] to the next NUL. *)
Fixpoint until_nul (mem : list ascii) : res (list ascii) :=
  match mem with
  | [] => Fault FBadAccess
  | c :: mem => if bool_decide (c = NUL) then Ok [] else s ← until_nul mem; Ok (c :: s)
  end.
Definition string_at (mem : list ascii) (p : nat) : res (list ascii) := until_nul (drop p mem).

(** [while( *p2 ) *p++ = *p2++;] gives the new [p]; a source that is inside the block
    has at most as many characters as the block. *)
Fixpoint copy_depth_string (fuel : nat) (mem : list ascii) (p p2 : nat) : res (list ascii * nat) :=
  match fuel with
  | O => Fault FBadAccess
  | S fuel =>
      c ← deref (mem !! p2);
      if bool_decide (c = NUL) then Ok (mem, p)
      else mem ← write_char mem p c; copy_depth_string fuel mem (S p) (S p2)
  end.

(** The regions, their strings, the block and the number of strings in it. *)
Record builder := Builder {
  bd_regions : list region;
  bd_strings : gmap nat nat;
  bd_mem : list ascii;
  next_depth_string : nat;
}.
Definition with_regions (rs : list region) (s : builder) : builder :=
  Builder rs (bd_strings s) (bd_mem s) (next_depth_string s).
Definition with_mem (mem : list ascii) (s : builder) : builder :=
  Builder (bd_regions s) (bd_strings s) mem (next_depth_string s).
Definition with_string (x : nat) (p : option nat) (s : builder) : builder :=
  Builder (bd_regions s) (match p with Some p => <[x:=p]> (bd_strings s) | None => delete x (bd_strings s) end)
    (bd_mem s) (next_depth_string s).

(** What [qsort] compares. *)
Fixpoint depth_strings_of (s : builder) (l : list nat) : res (list (nat * option (list ascii))) :=
  match l with
  | [] => Ok []
  | x :: l =>
      k ← match bd_strings s !! x with
          | None => Ok None
          | Some p => str ← string_at (bd_mem s) p; Ok (Some str)
          end;
      rest ← depth_strings_of s l; Ok ((x, k) :: rest)
  end.

(** The last loop: the strings of the children one after the other. *)
Definition append_string (sp : builder * nat) (x : nat) : res (builder * nat) :=
  let '(s, p) := sp in
  match bd_strings s !! x with
  | None => Ok (s, p)
  | Some p2 =>
      '(mem, p) ← copy_depth_string (length (bd_mem s)) (bd_mem s) p p2;
      Ok (with_string x None (with_mem mem s), p)
  end.

Section build.
Context `{Qsort} (depth_string_length : nat).

(** The lists of [r] are not touched by the calls for its children, which have
    fewer descendents. *)
Fixpoint build_left_heavy_depth_string (fuel : nat) (s : builder) (r : nat) : res (builder * nat) :=
  match fuel with
  | O => Fault FBadAccess
  | S fuel =>
      a ← deref (bd_regions s !! r);
      let result := (depth_string_length * next_depth_string s)%nat in
      mem ← write_char (bd_mem s) result (ascii_of_N (Z.to_N ((48 + depth a) `mod` 256)));
      mem ← write_char mem (S result) NUL;
      let s := Builder (bd_regions s) (bd_strings s) mem (S (next_depth_string s)) in
      if is_single a then Ok (s, result)
      else
        s ← each (λ s x, b ← deref (bd_regions s !! x);
          if is_below b a then
            '(s, p) ← build_left_heavy_depth_string fuel s x; Ok (with_string x (Some p) s)
          else Ok (with_string x None s)) (adjacent_regions a) s;
        keys ← depth_strings_of s (adjacent_regions a);
        let l := (qsort depth_string_cmp keys).*1 in
        rs ← upd (bd_regions s) r (set_adjacent_regions l);
        '(s, p) ← each append_string l (with_regions rs s, S result);
        mem ← write_char (bd_mem s) p NUL;
        Ok (with_mem mem s, result)
  end.
End build.

(** ** The fiducials *)

(** The rest of [FidtrackerX]. *)
Record trackerX := TrackerX {
  tk_search : fidtracker;
  tk_treeidmap : treeidmap;
  tk_pixelwarp : pixel_warp;
  depth_string_length : nat;
  depth_strings : list ascii;
}.
Definition with_strings (mem : list ascii) (t : trackerX) : trackerX :=
  TrackerX (tk_search t) (tk_treeidmap t) (tk_pixelwarp t) (depth_string_length t) mem.

(** All of [initialize_fidtrackerX]; [junk] is what the memory holds. *)
Definition new_fidtrackerX (m : treeidmap) (warp : pixel_warp) (junk : nat → ascii) : trackerX :=
  let n := Z.to_nat (max_node_count m) in
  TrackerX
    (initialize_fidtrackerX (min_node_count m) (max_node_count m) (tree_min_depth m) (tree_max_depth m))
    m warp (S n) (junk <$> seq 0 (n * S n)).

(** [x], [y] and [angle] of a fiducial, and whether it is lost. *)
Definition place : Type := (spec_float * spec_float * spec_float) * bool.
Definition fzero : spec_float := S754_zero false.

Definition angle_of `{Libm} (all_x all_y black_x black_y : double) : spec_float :=
  f_of_d (calculate_angle (d_sub all_x black_x) (d_sub all_y black_y)).

(** The means of the leaves that were all corrected one by one. *)
Definition mean_place `{Libm} (b w : colour_sum) : place :=
  let count := d_add (leaf_count b) (leaf_count w) in
  let all_x := d_div (d_add (x_sum b) (x_sum w)) count in
  let all_y := d_div (d_add (y_sum b) (y_sum w)) count in
  ((f_of_d all_x, f_of_d all_y,
    angle_of all_x all_y (d_div (x_sum b) (leaf_count b)) (d_div (y_sum b) (leaf_count b))), false).

(** Some leaf has no corrected position: the means are corrected instead. *)
Definition corrected_place `{Libm} (m : list (Z * Z)) (width height : Z) (b w : colour_sum)
    (old : spec_float * spec_float * spec_float) : res place :=
  let count := d_add (leaf_count b) (leaf_count w) in
  let all_x := d_div (d_add (x_sum b) (x_sum w)) count in
  let all_y := d_div (d_add (y_sum b) (y_sum w)) count in
  let black_x := d_div (x_sum b) (leaf_count b) in
  let black_y := d_div (y_sum b) (leaf_count b) in
  match warp_pixel width height (d_to_int all_x) (d_to_int all_y) with
  | None => Ok (old, true)
  | Some i =>
      q ← deref (m !! i);
      if (0 <? q.1) || (0 <? q.2) then
        angle ← match warp_pixel width height (d_to_int black_x) (d_to_int black_y) with
          | None => Ok fzero
          | Some j =>
              q' ← deref (m !! j);
              Ok (if (0 <? q'.1) || (0 <? q'.2)
                  then angle_of (d_of_Z q.1) (d_of_Z q.2) (d_of_Z q'.1) (d_of_Z q'.2) else fzero)
          end;
        Ok ((f_of_d (d_of_Z q.1), f_of_d (d_of_Z q.2), angle), false)
      else Ok ((fzero, fzero, fzero), true)
  end.

Definition fiducial_place `{Libm} (warp : pixel_warp) (width height : Z) (s : leaf_sums)
    (old : spec_float * spec_float * spec_float) : res place :=
  match warp with
  | None => Ok (mean_place (black s) (white s))
  | Some m =>
      if d_ltb (d_add (leaf_count (black_warped s)) (leaf_count (white_warped s)))
               (d_of_Z (total_leaf_count s))
      then corrected_place m width height (black s) (white s) old
      else Ok (mean_place (black_warped s) (white_warped s))
  end.

(** The larger side of the box of the root. *)
Definition root_size (a : region) : spec_float :=
  let size := f_of_Z (right a - left a) in
  if SFltb size (f_of_Z (bottom a - top a)) then f_of_Z (bottom a - top a) else size.

Section statistics.
Context `{Libm, Qsort}.

(** The id of the root [r]: its colour and its string of depths, looked up. *)
Definition fiducial_id (t : trackerX) (rs : list region) (r : nat) : res (Z * list region * list ascii) :=
  '(s, p) ← build_left_heavy_depth_string (depth_string_length t) (length rs)
    (Builder rs ∅ (depth_strings t) 0) r;
  a ← deref (bd_regions s !! r);
  str ← string_at (bd_mem s) p;
  _ ← (if decide (length str + 2 ≤ depth_string_length t + 1)%nat then Ok tt else Fault FBadAccess);
  Ok (treestring_to_id (tk_treeidmap t) (unchars ((if colour a =? 0 then "b"%char else "w"%char) :: str)),
      bd_regions s, bd_mem s).

Definition compute_fiducial_statistics (t : trackerX) (width height : Z) (rs : list region)
    (f : fiducialX) (r : nat) : res (trackerX * list region * fiducialX) :=
  rs ← set_depth (length rs) 0 rs r;
  sums ← sum_leaf_centers (length rs) (tk_pixelwarp t) width height rs no_leaves r;
  let average_leaf_size := d_div (total_leaf_size sums) (d_of_Z (total_leaf_count sums)) in
  '(x, y, angle, lost) ← fiducial_place (tk_pixelwarp t) width height sums (fx_x f, fx_y f, fx_angle f);
  rs ← (if lost : bool then upd rs r (or_flag LOST_SYMBOL_FLAG) else Ok rs);
  a ← deref (rs !! r);
  '(id, rs, mem) ← (if has_flag (flags a) LOST_SYMBOL_FLAG then Ok (INVALID_TREE_ID, rs, depth_strings t)
                    else fiducial_id t rs r);
  Ok (with_strings mem t, rs,
      {| fx_id := id; fx_x := x; fx_y := y; fx_angle := angle;
         fx_leaf_size := f_of_d average_leaf_size; fx_root_size := root_size a;
         fx_root_colour := colour a; fx_node_count := descendent_count a |}).

(** The loop of [find_fiducialsX] over the roots. *)
Fixpoint roots_loop (t : trackerX) (width height : Z) (max_count : nat) (rs : list region)
    (fids : list fiducialX) (i : nat) (roots : list nat)
    : res (trackerX * list region * list fiducialX * nat) :=
  match roots with
  | [] => Ok (t, rs, fids, i)
  | r :: roots =>
      f ← deref (fids !! i);
      '(t, rs, f) ← compute_fiducial_statistics t width height rs f r;
      let fids := <[i:=f]> fids in
      if decide (max_count ≤ S i)%nat then Ok (t, rs, fids, S i)
      else roots_loop t width height max_count rs fids (S i) roots
  end.

Definition find_fiducialsX (t : trackerX) (width height : Z) (max_count : nat) (s : segmenter)
    (fids : list fiducialX) : res (trackerX * segmenter * list fiducialX * nat) :=
  '(s, roots) ← find_roots (tk_search t) s;
  '(t, rs, fids, n) ← roots_loop t width height max_count (regions s) fids 0 roots;
  Ok (t, set_regions rs s, fids, n).
End statistics.
