(* ===== verification/DepthString.v ===== *)
(** Strings of depths as names of trees: the left heavy depth string of a tree
    (src/contrib/libfidtrack/fidtrackX.cpp, [build_left_heavy_depth_string]) is the same for
    two trees exactly when one is the other with its branches in another order. *)
From stdpp Require Import sorting.
From S2P Require Import Prelude FidtrackX.
Local Open Scope nat_scope.


(** ** Trees of regions *)

Inductive rtree := RNode (r : nat) (ch : list rtree).

Section induction.
Context (P : rtree → Prop) (IH : ∀ r ch, Forall P ch → P (RNode r ch)).
Fixpoint rtree_nested_ind (t : rtree) : P t :=
  match t with
  | RNode r ch => IH r ch ((fix go (l : list rtree) : Forall P l :=
      match l with
      | [] => Forall_nil_2 _
      | t :: l => Forall_cons_2 _ _ _ (rtree_nested_ind t) (go l)
      end) ch)
  end.
End induction.

Definition root (t : rtree) : nat := match t with RNode r _ => r end.
Definition children (t : rtree) : list rtree := match t with RNode _ ch => ch end.
Fixpoint nodes (t : rtree) : list nat :=
  match t with RNode r ch => r :: concat (map nodes ch) end.
Definition tree_size (t : rtree) : nat := length (nodes t).
Fixpoint tree_height (t : rtree) : nat :=
  match t with RNode _ ch => foldr (λ t n, Nat.max (S (tree_height t)) n) 0 ch end.

Lemma size_node r ch : tree_size (RNode r ch) = S (sum_list (tree_size <$> ch)).
Proof.
  unfold tree_size. simpl. f_equal. induction ch as [|t ch IH]; [done|]. csimpl. rewrite length_app. auto.
Qed.
Lemma size_child r ch t : t ∈ ch → tree_size t < tree_size (RNode r ch).
Proof.
  intros Ht. rewrite size_node. apply Nat.lt_succ_r.
  induction Ht as [|? ? ? _ IH]; csimpl; lia.
Qed.
Lemma tree_height_child r ch t : t ∈ ch → tree_height t < tree_height (RNode r ch).
Proof. intros Ht. simpl. induction Ht as [|? ? ? _ IH]; simpl; lia. Qed.
Lemma height_size t : tree_height t < tree_size t.
Proof.
  induction t as [r ch IH] using rtree_nested_ind. rewrite size_node. apply Nat.lt_succ_r. simpl.
  induction IH as [|t ch Ht _ IH]; csimpl; lia.
Qed.
Lemma root_nodes t : root t ∈ nodes t.
Proof. destruct t. simpl. by left. Qed.
Lemma nodes_child t ch x : t ∈ ch → x ∈ nodes t → x ∈ concat (map nodes ch).
Proof.
  intros Ht Hx. apply list_elem_of_In, in_concat. exists (nodes t).
  split; [apply in_map|]; by apply list_elem_of_In.
Qed.

(** The same tree with the branches in another order and other regions. *)
Inductive alike : rtree → rtree → Prop :=
  | alike_node r r' ch l ch' : Forall2 alike ch l → l ≡ₚ ch' → alike (RNode r ch) (RNode r' ch').

(** ** The order of the strings *)

Lemma char_code_inj c d : char_code c = char_code d → c = d.
Proof.
  unfold char_code. intros E%N2Z.inj. by rewrite <-(ascii_N_embedding c), E, ascii_N_embedding.
Qed.
Lemma strcmp_opp s : ∀ t, strcmp t s = (- strcmp s t)%Z.
Proof.
  induction s as [|c s IH]; intros [|d t]; try done. simpl.
  destruct (Z.ltb_spec (char_code c) (char_code d)), (Z.ltb_spec (char_code d) (char_code c)); try done; lia.
Qed.
Lemma strcmp_eq s : ∀ t, strcmp s t = 0%Z ↔ s = t.
Proof.
  induction s as [|c s IH]; intros [|d t]; try done. simpl.
  destruct (Z.ltb_spec (char_code c) (char_code d)); [|destruct (Z.ltb_spec (char_code d) (char_code c))].
  1,2: split; [done|]; intros [= -> ->]; lia.
  rewrite IH. split; [|by intros [= ? ?]]. intros ->. f_equal. apply char_code_inj. lia.
Qed.

Definition left_heavy (s t : list ascii) : Prop := (0 <= strcmp s t)%Z.
#[export] Instance left_heavy_dec s t : Decision (left_heavy s t).
Proof. unfold left_heavy. apply _. Defined.
#[export] Instance left_heavy_total : Total left_heavy.
Proof. intros s t. unfold left_heavy. rewrite (strcmp_opp s t). lia. Qed.
#[export] Instance left_heavy_antisymm : AntiSymm (=) left_heavy.
Proof.
  intros s t H1 H2. unfold left_heavy in *. rewrite (strcmp_opp s t) in H2. apply strcmp_eq. lia.
Qed.
#[export] Instance left_heavy_trans : Transitive left_heavy.
Proof.
  unfold left_heavy. intros s. induction s as [|c s IH]; intros [|d t] [|e u]; try done; try lia. simpl.
  repeat match goal with |- context [(?a <? ?b)%Z] => destruct (Z.ltb_spec a b) end; try lia; eauto.
Qed.

(** Sorting is unique. *)
Lemma sorted_unique l k :
  Sorted left_heavy l → l ≡ₚ k → l = merge_sort left_heavy k.
Proof.
  intros Hl Hk. eapply (Sorted_unique left_heavy); [done|by apply Sorted_merge_sort, _|].
  by rewrite merge_sort_Permutation.
Qed.
Lemma merge_sort_perm l k : l ≡ₚ k → merge_sort left_heavy l = merge_sort left_heavy k.
Proof.
  intros H. apply sorted_unique; [by apply Sorted_merge_sort, _|by rewrite merge_sort_Permutation].
Qed.

(** ** The string of a tree *)

Definition depth_char (d : nat) : ascii := ascii_of_N (N.of_nat (48 + d) `mod` 256).
Fixpoint dstring (d : nat) (t : rtree) : list ascii :=
  match t with
  | RNode _ ch => depth_char d :: concat (merge_sort left_heavy (map (dstring (S d)) ch))
  end.

(** Depths whose characters are different from each other and from NUL. *)
Definition max_char_depth : nat := 207.

Lemma depth_char_code d : d ≤ max_char_depth → N_of_ascii (depth_char d) = N.of_nat (48 + d).
Proof.
  unfold max_char_depth, depth_char. intros Hd. rewrite N.mod_small by lia.
  apply N_ascii_embedding. lia.
Qed.
Lemma depth_char_inj d e :
  d ≤ max_char_depth → e ≤ max_char_depth → depth_char d = depth_char e → d = e.
Proof. intros Hd He E. apply (f_equal N_of_ascii) in E. rewrite !depth_char_code in E by done. lia. Qed.
Lemma depth_char_nul d : d ≤ max_char_depth → depth_char d ≠ NUL.
Proof. intros Hd E. apply (f_equal N_of_ascii) in E. rewrite depth_char_code in E by done. simpl in E. lia. Qed.

(** Every character below the root stands for a greater depth. *)
Lemma dstring_chars t : ∀ d,
  Forall (λ c, ∃ e, c = depth_char e ∧ d ≤ e ≤ d + tree_height t) (dstring d t).
Proof.
  induction t as [r ch IH] using rtree_nested_ind. intros d. simpl dstring. constructor; [exists d; split; [done|lia]|].
  apply Forall_concat. rewrite merge_sort_Permutation. apply Forall_fmap, Forall_forall.
  intros t Ht. simpl. eapply Forall_impl; [by apply (proj1 (Forall_forall _ _) IH t Ht)|]. simpl.
  intros c (e & -> & He). exists e. split; [done|]. pose proof (tree_height_child r ch t Ht). simpl in *. lia.
Qed.
Lemma dstring_not_nul t d : d + tree_height t ≤ max_char_depth → NUL ∉ dstring d t.
Proof.
  intros Hd Hin. destruct (proj1 (Forall_forall _ _) (dstring_chars t d) _ Hin) as (e & E & He).
  symmetry in E. revert E. apply depth_char_nul. lia.
Qed.

Lemma length_concat_perm {A} (l k : list (list A)) : l ≡ₚ k → length (concat l) = length (concat k).
Proof. intros H. induction H; simpl; rewrite ?length_app; lia. Qed.

Lemma length_dstring t : ∀ d, length (dstring d t) = tree_size t.
Proof.
  induction t as [r ch IH] using rtree_nested_ind. intros d. rewrite size_node. simpl. f_equal.
  rewrite (length_concat_perm _ _ (merge_sort_Permutation _ _)).
  induction IH as [|t ch Ht _ IH]; [done|]. csimpl. by rewrite length_app, Ht, IH.
Qed.

(** Blocks that begin with a character that is nowhere else in them can be told
    from what they are joined to. *)
Definition block (c : ascii) (b : list ascii) : Prop := ∃ u, b = c :: u ∧ c ∉ u.

Lemma split_at (c : ascii) (u : list ascii) : ∀ v x y, c ∉ u → c ∉ v → (x = [] ∨ head x = Some c) → (y = [] ∨ head y = Some c) →
  u ++ x = v ++ y → u = v ∧ x = y.
Proof.
  induction u as [|a u IH]; intros [|b v] x y Hu Hv Hx Hy E; simpl in E.
  - done.
  - subst x. destruct Hx as [?|[= ->]]; [done|]. set_solver.
  - subst y. destruct Hy as [?|[= ->]]; [done|]. set_solver.
  - injection E as -> E. destruct (IH v x y) as [-> ->]; set_solver.
Qed.
Lemma head_concat c bs : Forall (block c) bs → concat bs = [] ∨ head (concat bs) = Some c.
Proof. intros [|b bs' (u & -> & _) _]; [by left|by right]. Qed.
Lemma concat_blocks_inj c bs : ∀ bs',
  Forall (block c) bs → Forall (block c) bs' → concat bs = concat bs' → bs = bs'.
Proof.
  induction bs as [|b bs IH]; intros [|b' bs'] Hb Hb' E; simpl in E; [done| | |].
  1: by apply Forall_cons in Hb' as [(u & -> & _) _].
  1: by apply Forall_cons in Hb as [(u & -> & _) _].
  apply Forall_cons in Hb as [(u & -> & Hu) Hb], Hb' as [(v & -> & Hv) Hb']. simpl in E.
  injection E as E. destruct (split_at c u v (concat bs) (concat bs')) as [-> E'];
    [done|done|by apply head_concat|by apply head_concat|done|].
  f_equal. by apply IH.
Qed.

Lemma dstring_block d t : d + tree_height t ≤ max_char_depth → block (depth_char d) (dstring d t).
Proof.
  destruct t as [r ch]. intros Hd. eexists. split; [done|].
  intros (s & Hs & Hc)%list_elem_of_In%in_concat. apply list_elem_of_In in Hs, Hc.
  rewrite merge_sort_Permutation in Hs. apply list_elem_of_fmap in Hs as (t & -> & Ht).
  destruct (proj1 (Forall_forall _ _) (dstring_chars t (S d)) _ Hc) as (e & E & He).
  pose proof (tree_height_child r ch t Ht). apply depth_char_inj in E; lia.
Qed.

Lemma alike_same_string t : ∀ t' d, alike t t' → dstring d t = dstring d t'.
Proof.
  induction t as [r ch IH] using rtree_nested_ind. intros t' d H. inversion H as [? r' ? l ch' Hl Hp]; subst.
  simpl. f_equal. f_equal. apply merge_sort_perm. rewrite <-Hp.
  enough (map (dstring (S d)) ch = map (dstring (S d)) l) as -> by done.
  clear -IH Hl. induction Hl as [|t u ch l Htu Hl IHl]; [done|]. inversion IH as [|? ? H1 H2]; subst.
  simpl. by rewrite (H1 u (S d) Htu), IHl.
Qed.

Lemma map_perm_pick {A B} (f : A → B) (l : list A) : ∀ k,
  map f l ≡ₚ map f k → ∃ k', k' ≡ₚ k ∧ map f l = map f k'.
Proof.
  intros k H. apply Permutation_map_inv in H as (k' & E & Hk). exists k'. by rewrite Hk.
Qed.

(** The left heavy depth string names a tree up to the order of its
    branches: two trees have the same string if and only if they are alike. *)
Theorem depth_string_canonical t t' d :
  d + tree_height t ≤ max_char_depth → d + tree_height t' ≤ max_char_depth →
  dstring d t = dstring d t' ↔ alike t t'.
Proof.
  intros Ht Ht'. split; [|by apply alike_same_string].
  revert t' d Ht Ht'. induction t as [r ch IH] using rtree_nested_ind. intros [r' ch'] d Ht Ht' E.
  simpl in E. injection E as E.
  assert (B : ∀ q l, d + tree_height (RNode q l) ≤ max_char_depth →
    Forall (block (depth_char (S d))) (merge_sort left_heavy (map (dstring (S d)) l))).
  { intros q l Hl. rewrite merge_sort_Permutation. apply Forall_fmap, Forall_forall. intros t Hin.
    apply dstring_block. pose proof (tree_height_child q l t Hin). lia. }
  apply (concat_blocks_inj (depth_char (S d))) in E; [|by eapply B..].
  assert (P : map (dstring (S d)) ch ≡ₚ map (dstring (S d)) ch').
  { by rewrite <-(merge_sort_Permutation left_heavy (map _ ch)), E, merge_sort_Permutation. }
  apply map_perm_pick in P as (l & Hl & El). apply (alike_node r r' ch l); [|done].
  assert (Hh : Forall (λ t, S d + tree_height t ≤ max_char_depth) l).
  { rewrite Hl. apply Forall_forall. intros t Hin. pose proof (tree_height_child r' ch' t Hin). lia. }
  assert (Hc : Forall (λ t, S d + tree_height t ≤ max_char_depth) ch).
  { apply Forall_forall. intros t Hin. pose proof (tree_height_child r ch t Hin). lia. }
  clear -IH El Hh Hc. revert l El Hh. induction IH as [|t ch Ht _ IH]; intros [|t' l] El Hh; try done.
  injection El as E1 E2. inversion Hh; inversion Hc; subst. constructor; [by eapply Ht|auto].
Qed.
