(* ===== verification/FidtrackForest.v ===== *)
(** The regions a search for fiducials has traversed form trees: what
    [propagate_descendent_count_and_max_depth_upwards] counts below a region are the nodes
    of its tree. *)
From stdpp Require Import relations.
From S2P Require Import Prelude Segment SegmentGraph Fidtrack FidtrackX DepthString.
Local Open Scope nat_scope.

(** ** What the loop over the adjacent regions computes *)

Definition trav (rs : list region) (r : nat) : Prop := ∃ a, rs !! r = Some a ∧ level a = TRAVERSED.
Definition travb (rs : list region) (x : nat) : bool :=
  from_option (λ b, (level b =? TRAVERSED)%Z) false (rs !! x).
Lemma travb_trav rs x : travb rs x = true ↔ trav rs x.
Proof.
  unfold travb, trav. destruct (rs !! x) as [b|]; simpl; [|naive_solver].
  rewrite Z.eqb_eq. naive_solver.
Qed.

(** The sum and the depth the loop computes. *)
Fixpoint count_of (rs : list region) (l : list nat) (desc dep : Z) : Z * Z :=
  match l with
  | [] => (desc, dep)
  | x :: l =>
      match rs !! x with
      | Some b => if (level b =? TRAVERSED)%Z
          then count_of rs l (to_short (desc + to_short (descendent_count b + 1)))
                 (to_short (Z.max dep (depth b + 1)))
          else count_of rs l desc dep
      | None => count_of rs l desc dep
      end
  end.

Definition untraversed (rs : list region) (l : list nat) : list nat :=
  filter (λ x, travb rs x = false) l.

(** ** Trees *)

(** The regions of the tree are traversed, each counts those below it, and its list
    holds its children and at most one more region: its parent, or [up]. *)
Inductive grown (rs : list region) : option nat → rtree → Prop :=
  | grown_node up r ch a :
      rs !! r = Some a → level a = TRAVERSED →
      descendent_count a = (Z.of_nat (tree_size (RNode r ch)) - 1)%Z →
      adjacent_regions a ≡ₚ (root <$> ch) ++ option_list up →
      Forall (grown rs (Some r)) ch → grown rs up (RNode r ch).

Fixpoint subtrees (t : rtree) : list rtree :=
  match t with RNode r ch => RNode r ch :: concat (map subtrees ch) end.
(** Each region of the tree holds the tree_height of what is below it. *)
Definition deep (rs : list region) (t : rtree) : Prop :=
  Forall (λ u, ∃ a, rs !! root u = Some a ∧ depth a = Z.of_nat (tree_height u)) (subtrees t).

Definition all_nodes (F : list rtree) : list nat := concat (map nodes F).

(** [F] are the trees of all traversed regions; what a root waits for is not
    traversed. *)
Record forest (rs : list region) (F : list rtree) : Prop := Forest {
  forest_trees : Forall (λ t, deep rs t ∧ ∃ up, grown rs up t ∧ ∀ p, up = Some p → ¬ trav rs p) F;
  forest_once : NoDup (all_nodes F);
  forest_all r : trav rs r → r ∈ all_nodes F;
  forest_rest r a : rs !! r = Some a → level a ≠ TRAVERSED → descendent_count a = 0x7FFF%Z;
  forest_live r : trav rs r → adj rs r ≠ [];
  forest_leaves t u : t ∈ F → u ∈ subtrees t → children u = [] → ∃ a, rs !! root u = Some a ∧ is_leaf a = true;
}.

Lemma elem_concat_map {A B} (f : A → list B) (l : list A) x :
  x ∈ concat (map f l) ↔ ∃ t, t ∈ l ∧ x ∈ f t.
Proof.
  rewrite list_elem_of_In, in_concat. setoid_rewrite <-list_elem_of_In. split.
  - intros (y & (t & -> & Ht)%list_elem_of_fmap & Hx). eauto.
  - intros (t & Ht & Hx). exists (f t). split; [|done]. apply list_elem_of_fmap. eauto.
Qed.
Lemma concat_map_perm {A B} (f : A → list B) (l k : list A) :
  l ≡ₚ k → concat (map f l) ≡ₚ concat (map f k).
Proof.
  induction 1; simpl; [done|by f_equiv| |by etrans]. by rewrite !(assoc_L (++)), (comm (++) (f y)).
Qed.
Lemma all_nodes_app F G : all_nodes (F ++ G) = all_nodes F ++ all_nodes G.
Proof. unfold all_nodes. by rewrite map_app, concat_app. Qed.
Lemma elem_all_nodes F x : x ∈ all_nodes F ↔ ∃ t, t ∈ F ∧ x ∈ nodes t.
Proof. apply elem_concat_map. Qed.
Lemma length_all_nodes F : length (all_nodes F) = sum_list (tree_size <$> F).
Proof.
  unfold all_nodes. induction F as [|t F IH]; [done|]. csimpl. by rewrite length_app, IH.
Qed.

Lemma subtree_nodes t u : u ∈ subtrees t → root u ∈ nodes t.
Proof.
  revert u. induction t as [r ch IH] using rtree_nested_ind. intros u Hu.
  simpl in Hu. apply elem_of_cons in Hu as [->|Hu]; [simpl; by left|].
  apply elem_concat_map in Hu as (t & Ht & Hu). simpl. right.
  apply elem_concat_map. exists t. split; [done|]. by apply (proj1 (Forall_forall _ _) IH t Ht).
Qed.

(** ** Writes that keep the trees *)

(** What the trees depend on. *)
Definition same_node (a b : region) : Prop :=
  level b = level a ∧ descendent_count b = descendent_count a ∧
  adjacent_regions b ≡ₚ adjacent_regions a.
Definition same_nodes (rs rs' : list region) : Prop := ∀ r, option_Forall2 same_node (rs !! r) (rs' !! r).

Lemma same_some a o : option_Forall2 same_node (Some a) o → ∃ b, o = Some b ∧ same_node a b.
Proof. intros H. inversion H; eauto. Qed.

Lemma grown_same rs rs' t : ∀ up,
  (∀ x, x ∈ nodes t → option_Forall2 same_node (rs !! x) (rs' !! x)) →
  grown rs up t → grown rs' up t.
Proof.
  induction t as [r ch IH] using rtree_nested_ind. intros up Hx H.
  inversion H as [? ? ? a Ha Hl Hd Hadj Hch]; subst.
  pose proof (Hx r ltac:(simpl; by left)) as Hr. rewrite Ha in Hr.
  apply same_some in Hr as (b & Hb & E1 & E2 & E3). apply (grown_node _ _ _ _ b); try congruence.
  - by rewrite E3.
  - apply Forall_forall. intros t Ht. apply (proj1 (Forall_forall _ _) IH t Ht).
    + intros x Hin. apply Hx. simpl. right. by eapply nodes_child.
    + by apply (proj1 (Forall_forall _ _) Hch).
Qed.

Lemma grown_trav rs t : ∀ up x, grown rs up t → x ∈ nodes t → trav rs x.
Proof.
  induction t as [r ch IH] using rtree_nested_ind. intros up x H Hx.
  inversion H as [? ? ? a Ha Hl Hd Hadj Hch]; subst. simpl in Hx.
  apply elem_of_cons in Hx as [->|Hx]; [by exists a|].
  apply elem_concat_map in Hx as (t & Ht & Hx).
  eapply (proj1 (Forall_forall _ _) IH t Ht); [|done]. by apply (proj1 (Forall_forall _ _) Hch).
Qed.

(** Below the root all neighbours are traversed. *)
Lemma grown_closed rs t : ∀ up x y,
  grown rs up t → x ∈ nodes t → y ∈ adj rs x → trav rs y ∨ x = root t ∧ up = Some y.
Proof.
  induction t as [r ch IH] using rtree_nested_ind. intros up x y H Hx Hy.
  pose proof H as Hg. inversion H as [? ? ? a Ha Hl Hd Hadj Hch]; subst. simpl in Hx.
  apply elem_of_cons in Hx as [->|Hx].
  - rewrite (adj_lookup _ _ _ Ha), Hadj in Hy. apply elem_of_app in Hy as [Hy|Hy].
    + left. apply list_elem_of_fmap in Hy as (t & -> & Ht).
      eapply grown_trav; [by apply (proj1 (Forall_forall _ _) Hch t Ht)|apply root_nodes].
    + right. destruct up; simpl in Hy; [|by apply elem_of_nil in Hy].
      by apply list_elem_of_singleton in Hy as ->.
  - apply elem_concat_map in Hx as (t & Ht & Hx). left.
    destruct (proj1 (Forall_forall _ _) IH t Ht (Some r) x y) as [?|[_ [= <-]]]; try done.
    + by apply (proj1 (Forall_forall _ _) Hch).
    + by exists a.
Qed.

Lemma grown_root rs up t : grown rs up t → ∃ a, rs !! root t = Some a ∧ level a = TRAVERSED ∧
  descendent_count a = (Z.of_nat (tree_size t) - 1)%Z ∧ adjacent_regions a ≡ₚ (root <$> children t) ++ option_list up.
Proof. intros H. inversion H as [? ? ? a]; subst. by exists a. Qed.

(** ** A region is traversed *)

(** The sums without overflow. *)
Definition nodes_below (rs : list region) (x : nat) : Z :=
  from_option (λ b, descendent_count b + 1)%Z 0%Z (rs !! x).
Definition levels_below (rs : list region) (x : nat) : Z :=
  from_option (λ b, depth b + 1)%Z 0%Z (rs !! x).
Definition sum_Z (l : list Z) : Z := foldr Z.add 0%Z l.
Definition max_Z (l : list Z) : Z := foldr Z.max 0%Z l.

Lemma sum_Z_perm l k : l ≡ₚ k → sum_Z l = sum_Z k.
Proof. induction 1; simpl; lia. Qed.
Lemma max_Z_perm l k : l ≡ₚ k → max_Z l = max_Z k.
Proof. induction 1; simpl; lia. Qed.
Lemma sum_Z_nonneg l : Forall (λ z, 0 ≤ z)%Z l → (0 ≤ sum_Z l)%Z.
Proof. induction 1; simpl; lia. Qed.

Lemma to_short_small z : (0 ≤ z < 32768)%Z → to_short z = z.
Proof. intros H. unfold to_short. rewrite Z.mod_small; lia. Qed.

Lemma count_of_exact rs l : ∀ desc dep,
  let k := filter (λ x, travb rs x = true) l in
  Forall (λ x, 0 < nodes_below rs x ∧ 0 < levels_below rs x <= nodes_below rs x)%Z k →
  (0 ≤ desc ∧ 0 ≤ dep < 32768 ∧ desc + sum_Z (nodes_below rs <$> k) < 32768)%Z →
  count_of rs l desc dep =
    (desc + sum_Z (nodes_below rs <$> k), Z.max dep (max_Z (levels_below rs <$> k)))%Z.
Proof.
  induction l as [|x l IH]; intros desc dep k Hk Hd; subst k; [simpl; f_equal; lia|].
  cbn [count_of]. rewrite filter_cons in *.
  destruct (rs !! x) as [b|] eqn:Hx.
  2:{ rewrite decide_False in * by (unfold travb; by rewrite Hx). by apply IH. }
  destruct (level b =? TRAVERSED)%Z eqn:Hl.
  2:{ rewrite decide_False in * by (unfold travb; rewrite Hx; simpl; by rewrite Hl). by apply IH. }
  rewrite decide_True in * by (unfold travb; by rewrite Hx). csimpl in *.
  set (k := filter (λ x, travb rs x = true) l) in *.
  assert (E1 : nodes_below rs x = (descendent_count b + 1)%Z) by (unfold nodes_below; by rewrite Hx).
  assert (E2 : levels_below rs x = (depth b + 1)%Z) by (unfold levels_below; by rewrite Hx).
  apply Forall_cons in Hk as [P Hk]. rewrite E1, E2 in P. rewrite E1 in Hd. rewrite E1, E2.
  assert (0 ≤ sum_Z (nodes_below rs <$> k))%Z.
  { apply sum_Z_nonneg, Forall_fmap. eapply Forall_impl; [done|]. simpl. intros. lia. }
  cbn [sum_Z max_Z foldr] in *. fold (sum_Z (nodes_below rs <$> k)) (max_Z (levels_below rs <$> k)) in *.
  rewrite (to_short_small (descendent_count b + 1)), !to_short_small by lia.
  rewrite IH; [f_equal; lia|done|lia].
Qed.

Lemma forest_bound rs F : forest rs F → length (all_nodes F) ≤ length rs.
Proof.
  intros H. rewrite <-(length_seq (length rs) 0). apply submseteq_length, NoDup_submseteq; [apply H|].
  intros x (t & Ht & Hx)%elem_all_nodes. apply elem_of_seq.
  destruct (proj1 (Forall_forall _ _) (forest_trees _ _ H) t Ht) as (_ & up & Hg & _).
  destruct (grown_trav _ _ _ _ Hg Hx) as (a & Ha & _). apply lookup_lt_Some in Ha. lia.
Qed.

Lemma occurs_filter (P : nat → Prop) `{∀ x, Decision (P x)} l x :
  P x → occurs (filter P l) x = occurs l x.
Proof.
  intros Hx. unfold occurs. induction l as [|y l IH]; [done|]. rewrite filter_cons. simpl.
  case_decide; simpl; destruct (Nat.eq_dec y x) as [->|]; by rewrite ?IH.
Qed.
Lemma NoDup_occurs l : (∀ x, x ∈ l → occurs l x ≤ 1) → NoDup l.
Proof.
  intros H. apply NoDup_ListNoDup, (NoDup_count_occ Nat.eq_dec). intros x.
  destruct (decide (x ∈ l)); [by apply H|].
  rewrite (proj1 (count_occ_not_In Nat.eq_dec l x)); [lia|by rewrite <-list_elem_of_In].
Qed.

Section grow.
Context (rs : list region) (F : list rtree) (r : nat).
Hypothesis HF : forest rs F.
Hypothesis Hsym : ∀ a b, edges rs a b = edges rs b a.
Hypothesis Hnew : ¬ trav rs r.

(** The trees that wait for [r], and the others. *)
Definition waiting_trees : list rtree := filter (λ t, r ∈ adj rs (root t)) F.
Definition other_trees : list rtree := filter (λ t, r ∉ adj rs (root t)) F.

Lemma trees_split : F ≡ₚ waiting_trees ++ other_trees.
Proof. symmetry. apply filter_app_complement. Qed.

Lemma tree_up t up : grown rs up t → r ∈ adj rs (root t) → up = Some r.
Proof.
  intros Hg Hr. destruct (grown_closed _ _ _ _ _ Hg (root_nodes t) Hr) as [?|[_ ?]]; [|done].
  by exfalso; apply Hnew.
Qed.

Lemma waiting_grown t : t ∈ waiting_trees → grown rs (Some r) t ∧ deep rs t.
Proof.
  intros [Hr Ht]%list_elem_of_filter.
  destruct (proj1 (Forall_forall _ _) (forest_trees _ _ HF) t Ht) as (Hd & up & Hg & _).
  by rewrite <-(tree_up t up Hg Hr).
Qed.

(** A traversed neighbour of [r] names it once. *)
Lemma neighbour_once x : trav rs x → x ∈ adj rs r → edges rs r x = 1 ∧ ∃ t, t ∈ waiting_trees ∧ x = root t.
Proof.
  intros Hx Hxr. assert (Hrx : r ∈ adj rs x) by (rewrite edges_elem in *; by rewrite Hsym).
  apply (forest_all _ _ HF) in Hx as (t & Ht & Hx)%elem_all_nodes.
  destruct (proj1 (Forall_forall _ _) (forest_trees _ _ HF) t Ht) as (_ & up & Hg & _).
  destruct (grown_closed _ _ _ _ _ Hg Hx Hrx) as [?|[-> ->]]; [by exfalso; apply Hnew|].
  split; [|exists t; split; [by apply list_elem_of_filter|done]].
  rewrite Hsym. destruct (grown_root _ _ _ Hg) as (a & Ha & _ & _ & Hadj).
  unfold edges. rewrite (adj_lookup _ _ _ Ha).
  unfold occurs. rewrite (Permutation_count_occ Nat.eq_dec) in Hadj. rewrite Hadj, count_occ_app. simpl.
  destruct (Nat.eq_dec r r); [|done]. rewrite (proj1 (count_occ_not_In Nat.eq_dec _ _)); [done|].
  rewrite <-list_elem_of_In. intros (u & -> & Hu)%list_elem_of_fmap. apply Hnew.
  eapply grown_trav; [exact Hg|]. destruct t as [q ch]. simpl in *. right.
  eapply nodes_child; [done|apply root_nodes].
Qed.

Lemma NoDup_roots G : NoDup (all_nodes G) → NoDup (root <$> G).
Proof.
  induction G as [|t G IH]; [constructor|]. unfold all_nodes. simpl. intros (N1 & N2 & N3)%NoDup_app.
  csimpl. apply NoDup_cons. split; [|auto]. intros (u & E & Hu)%list_elem_of_fmap.
  eapply (N2 (root t)); [apply root_nodes|]. rewrite E. apply elem_all_nodes. exists u. split; [done|apply root_nodes].
Qed.

Lemma waiting_once : NoDup (all_nodes (waiting_trees ++ other_trees)).
Proof. unfold all_nodes. rewrite <-(concat_map_perm _ _ _ trees_split). apply HF. Qed.

Lemma traversed_neighbours :
  filter (λ x, travb rs x = true) (adj rs r) ≡ₚ root <$> waiting_trees.
Proof.
  pose proof waiting_once as Hn. rewrite all_nodes_app in Hn. apply NoDup_app in Hn as (Hn & _ & _).
  apply NoDup_Permutation; [|by apply NoDup_roots|].
  - apply NoDup_occurs. intros x [Hx Hin]%list_elem_of_filter. rewrite occurs_filter by done.
    apply travb_trav in Hx. destruct (neighbour_once x Hx Hin) as [E _]. unfold edges in E. by rewrite E.
  - intros x. rewrite list_elem_of_filter, travb_trav. split.
    + intros [Hx Hin]. destruct (neighbour_once x Hx Hin) as (_ & t & Ht & ->).
      apply list_elem_of_fmap. eauto.
    + intros (t & -> & Ht)%list_elem_of_fmap. destruct (waiting_grown t Ht) as [Hg _].
      split; [eapply grown_trav; [done|apply root_nodes]|].
      apply list_elem_of_filter in Ht as [Ht _]. rewrite edges_elem in *. by rewrite Hsym.
Qed.

Lemma tree_below t : t ∈ waiting_trees →
  nodes_below rs (root t) = Z.of_nat (tree_size t) ∧
  levels_below rs (root t) = Z.of_nat (S (tree_height t)).
Proof.
  intros Ht. destruct (waiting_grown t Ht) as [Hg Hd].
  destruct (grown_root _ _ _ Hg) as (a & Ha & _ & E & _).
  assert (t ∈ subtrees t) as Hs by (destruct t; simpl; by left).
  destruct (proj1 (Forall_forall _ _) Hd t Hs) as (a' & Ha' & E'). rewrite Ha in Ha'. injection Ha' as <-.
  unfold nodes_below, levels_below. rewrite Ha. simpl. rewrite E, E'. lia.
Qed.

Lemma waiting_sums :
  sum_Z (nodes_below rs <$> (root <$> waiting_trees)) = Z.of_nat (sum_list (tree_size <$> waiting_trees)) ∧
  max_Z (levels_below rs <$> (root <$> waiting_trees)) = Z.of_nat (tree_height (RNode r waiting_trees)).
Proof.
  pose proof tree_below as H. simpl. induction waiting_trees as [|t l IH]; [done|]. csimpl.
  destruct (H t ltac:(by left)) as [-> ->].
  destruct IH as [IH1 IH2]; [intros; apply H; by right|].
  cbn [sum_Z max_Z foldr] in *. fold (sum_Z (nodes_below rs <$> (root <$> l))).
  fold (max_Z (levels_below rs <$> (root <$> l))). rewrite IH1, IH2. lia.
Qed.

Lemma waiting_small : sum_list (tree_size <$> waiting_trees) ≤ length rs.
Proof.
  assert (H : sum_list (tree_size <$> waiting_trees) ≤ length (all_nodes F)).
  { unfold all_nodes. rewrite (concat_map_perm _ _ _ trees_split).
    fold (all_nodes (waiting_trees ++ other_trees)). rewrite all_nodes_app, length_app, length_all_nodes. lia. }
  pose proof (forest_bound _ _ HF). lia.
Qed.

Lemma deep_insert a t : r ∉ nodes t → deep rs t → deep (<[r:=a]> rs) t.
Proof.
  intros Hr. unfold deep. rewrite !Forall_forall. intros H u Hu. destruct (H u Hu) as (b & Hb & E).
  exists b. split; [|done]. rewrite list_lookup_insert_ne; [done|]. intros ->.
  by apply Hr, subtree_nodes.
Qed.
Lemma grown_insert a t up : r ∉ nodes t → grown rs up t → grown (<[r:=a]> rs) up t.
Proof.
  intros Hr. apply grown_same. intros x Hx. rewrite list_lookup_insert_ne by (by intros ->).
  destruct (rs !! x); by constructor.
Qed.

(** The new tree. *)
Lemma new_tree a0 a o :
  rs !! r = Some a0 → level a = TRAVERSED → adjacent_regions a = adjacent_regions a0 →
  (descendent_count a, depth a) = count_of rs (adj rs r) 0 0 →
  option_list o = untraversed rs (adj rs r) → length rs < Z.to_nat 32768 →
  deep (<[r:=a]> rs) (RNode r waiting_trees) ∧ grown (<[r:=a]> rs) o (RNode r waiting_trees).
Proof.
  intros Ha0 Hl Hadj Hc Ho Hlen.
  assert (Hr : <[r:=a]> rs !! r = Some a) by (apply list_lookup_insert_eq; by eapply lookup_lt_Some).
  assert (Hw : ∀ t, t ∈ waiting_trees → (r ∉ nodes t) ∧ grown rs (Some r) t ∧ deep rs t).
  { intros t Ht. destruct (waiting_grown t Ht) as [Hg Hd]. split_and!; [|done|done].
    intros Hin. by apply Hnew, (grown_trav _ _ _ _ Hg). }
  pose proof traversed_neighbours as Hp. pose proof waiting_small as Hs. destruct waiting_sums as [S1 S2].
  rewrite count_of_exact in Hc.
  2:{ rewrite Hp. apply Forall_fmap, Forall_forall. intros t Ht. simpl.
      destruct (tree_below t Ht) as [-> ->]. pose proof (height_size t). lia. }
  2:{ rewrite (sum_Z_perm _ (nodes_below rs <$> (root <$> waiting_trees))) by (by rewrite Hp). lia. }
  rewrite (sum_Z_perm _ (nodes_below rs <$> (root <$> waiting_trees))),
    (max_Z_perm _ (levels_below rs <$> (root <$> waiting_trees))), S1, S2 in Hc by (by rewrite Hp).
  injection Hc as E1 E2. split.
  - apply Forall_cons. split; [exists a; split; [done|]; rewrite E2; apply Z.max_r, Nat2Z.is_nonneg|].
    apply Forall_forall. intros u (t & Ht & Hu)%elem_concat_map. destruct (Hw t Ht) as (N & _ & D).
    by apply (proj1 (Forall_forall _ _) (deep_insert a t N D)).
  - apply (grown_node _ _ _ _ a); [done|done|rewrite size_node; lia| |].
    + rewrite Hadj, <-(adj_lookup _ _ _ Ha0), Ho, <-Hp. unfold untraversed.
      rewrite <-(filter_app_complement (λ x, travb rs x = true) (adj rs r)) at 1. f_equiv.
      rewrite (list_filter_iff _ (λ x, travb rs x = false)); [done|]. intros x. by destruct (travb rs x).
    + apply Forall_forall. intros t Ht. destruct (Hw t Ht) as (N & G & _). by apply grown_insert.
Qed.

Lemma waiting_in t : t ∈ waiting_trees → t ∈ F.
Proof. by intros [_ ?]%list_elem_of_filter. Qed.
Lemma other_in t : t ∈ other_trees → t ∈ F.
Proof. by intros [_ ?]%list_elem_of_filter. Qed.
Lemma new_leaves a t u : t ∈ F → u ∈ subtrees t → children u = [] →
  ∃ b, <[r:=a]> rs !! root u = Some b ∧ is_leaf b = true.
Proof.
  intros Ht Hu Hn. destruct (forest_leaves _ _ HF t u Ht Hu Hn) as (b & Hb & Hl). exists b.
  rewrite list_lookup_insert_ne; [done|]. intros ->. apply Hnew.
  destruct (proj1 (Forall_forall _ _) (forest_trees _ _ HF) t Ht) as (_ & up & Hg & _).
  eapply grown_trav; [exact Hg|]. by apply subtree_nodes.
Qed.

Lemma forest_grow a0 a o :
  rs !! r = Some a0 → level a = TRAVERSED → adjacent_regions a = adjacent_regions a0 →
  (descendent_count a, depth a) = count_of rs (adj rs r) 0 0 →
  option_list o = untraversed rs (adj rs r) → length rs < Z.to_nat 32768 → r ∉ adj rs r →
  adj rs r ≠ [] → ((∀ x, x ∈ adj rs r → ¬ trav rs x) → is_leaf a = true) →
  forest (<[r:=a]> rs) (RNode r waiting_trees :: other_trees).
Proof.
  intros Ha0 Hl Hadj Hc Ho Hlen Hirr Hlive Hleaf. destruct (new_tree a0 a o) as [Hd Hg]; try done.
  assert (Hr : <[r:=a]> rs !! r = Some a) by (apply list_lookup_insert_eq; by eapply lookup_lt_Some).
  assert (Hout : r ∉ all_nodes F).
  { intros (t & Ht & Hx)%elem_all_nodes. apply Hnew.
    destruct (proj1 (Forall_forall _ _) (forest_trees _ _ HF) t Ht) as (_ & up & Hg' & _).
    by eapply grown_trav. }
  assert (Hperm : all_nodes (RNode r waiting_trees :: other_trees) ≡ₚ r :: all_nodes F).
  { unfold all_nodes. rewrite (concat_map_perm _ _ _ trees_split), map_app, concat_app. done. }
  assert (Htr : ∀ x, trav (<[r:=a]> rs) x → x = r ∨ trav rs x).
  { intros x (b & Hb & Hbl). destruct (decide (x = r)) as [->|]; [by left|right].
    rewrite list_lookup_insert_ne in Hb by done. by exists b. }
  split.
  - constructor.
    + split; [done|]. exists o. split; [done|]. intros p -> [->|Hp]%Htr.
      * apply Hirr. assert (r ∈ untraversed rs (adj rs r)) as Hin by (rewrite <-Ho; by left).
        by apply list_elem_of_filter in Hin as [_ ?].
      * apply travb_trav in Hp. assert (p ∈ untraversed rs (adj rs r)) as Hin by (rewrite <-Ho; by left).
        apply list_elem_of_filter in Hin as [? _]. congruence.
    + apply Forall_forall. intros t [Hrt Ht]%list_elem_of_filter.
      destruct (proj1 (Forall_forall _ _) (forest_trees _ _ HF) t Ht) as (Dt & up & Gt & Ut).
      assert (r ∉ nodes t) by (intros ?; apply Hout, elem_all_nodes; eauto).
      split; [by apply deep_insert|]. exists up. split; [by apply grown_insert|].
      intros p -> [->|Hp]%Htr; [|by apply (Ut p)]. apply Hrt.
      destruct (grown_root _ _ _ Gt) as (b & Hb & _ & _ & Eb). rewrite (adj_lookup _ _ _ Hb), Eb. set_solver.
  - rewrite Hperm. apply NoDup_cons. split; [done|]. apply HF.
  - intros x [->|Hx]%Htr; rewrite Hperm; [by left|right]. by apply HF.
  - intros x b Hb Hbl. destruct (decide (x = r)) as [->|].
    + rewrite Hr in Hb. by injection Hb as <-.
    + rewrite list_lookup_insert_ne in Hb by done. by apply (forest_rest _ _ HF x).
  - intros x [->|Hx]%Htr.
    + rewrite adj_insert_eq, Hadj, <-(adj_lookup _ _ _ Ha0) by (by eapply lookup_lt_Some). done.
    + rewrite adj_insert_ne; [by apply HF|]. by intros ->.
  - intros t u [->|Ht]%elem_of_cons Hu Hn; [|eapply new_leaves; eauto using other_in].
    simpl in Hu. apply elem_of_cons in Hu as [->|(t & Ht & Hu)%elem_concat_map].
    + exists a. split; [done|]. apply Hleaf. intros x Hx Hxt. simpl in Hn.
      destruct (neighbour_once x Hxt Hx) as (_ & t & Ht & _). rewrite Hn in Ht. by apply elem_of_nil in Ht.
    + eapply new_leaves; eauto using waiting_in.
Qed.
End grow.

(** Writes that touch no tree keep the forest. *)
Lemma forest_write rs F r a b :
  forest rs F → rs !! r = Some a → level b = level a → descendent_count b = descendent_count a →
  depth b = depth a → adjacent_regions b = adjacent_regions a → is_leaf b = is_leaf a →
  forest (<[r:=b]> rs) F.
Proof.
  intros HF Ha E1 E2 E3 E4 E5.
  assert (Hr : <[r:=b]> rs !! r = Some b) by (apply list_lookup_insert_eq; by eapply lookup_lt_Some).
  assert (Hs : ∀ x, option_Forall2 same_node (rs !! x) (<[r:=b]> rs !! x)).
  { intros x. destruct (decide (x = r)) as [->|].
    - rewrite Ha, Hr. constructor. split_and!; [done|done|by rewrite E4].
    - rewrite list_lookup_insert_ne by done. destruct (rs !! x); by constructor. }
  assert (Ht : ∀ x, trav (<[r:=b]> rs) x → trav rs x).
  { intros x (c & Hc & Hl). destruct (decide (x = r)) as [->|].
    - exists a. split; [done|]. rewrite Hr in Hc. by injection Hc as <-; rewrite <-E1.
    - rewrite list_lookup_insert_ne in Hc by done. by exists c. }
  split.
  - eapply Forall_impl; [apply HF|]. intros t (D & up & G & U). split.
    + eapply Forall_impl; [exact D|]. simpl. intros u (c & Hc & Ec). destruct (decide (root u = r)) as [Eu|].
      * rewrite Eu in *. exists b. split; [done|]. rewrite Ha in Hc. by injection Hc as <-; rewrite E3.
      * exists c. by rewrite list_lookup_insert_ne by done.
    + exists up. split; [eapply grown_same; [|done]; intros; apply Hs|]. intros p Hp Hpt%Ht. by apply (U p).
  - apply HF.
  - intros x Hx%Ht. by apply HF.
  - intros x c Hc Hl. destruct (decide (x = r)) as [->|].
    + rewrite Hr in Hc. injection Hc as <-. rewrite E2. apply (forest_rest _ _ HF r a); congruence.
    + rewrite list_lookup_insert_ne in Hc by done. by apply (forest_rest _ _ HF x).
  - intros x Hx%Ht. apply (forest_live _ _ HF) in Hx. destruct (decide (x = r)) as [->|].
    + by rewrite adj_insert_eq, E4, <-(adj_lookup _ _ _ Ha) by (by eapply lookup_lt_Some).
    + by rewrite adj_insert_ne.
  - intros t u Hin Hu Hn. destruct (forest_leaves _ _ HF t u Hin Hu Hn) as (c & Hc & Hl).
    destruct (decide (root u = r)) as [Eu|]; [|exists c; by rewrite list_lookup_insert_ne by done].
    rewrite Eu in *. exists b. split; [done|]. rewrite E5. congruence.
Qed.
