(* ===== verification/FidtrackSafe.v ===== *)
(** The search for fiducials (Fidtrack.v) on the regions of any binary image: no
    assertion fails, every region is traversed at most once, and the list of roots
    holds each candidate once. *)
From stdpp Require Import relations.
From S2P Require Import Prelude Segment SegmentGraph SegmentLabels SegmentRefs SegmentSpec Fidtrack FidtrackX DepthString FidtrackForest.
Local Open Scope nat_scope.

(** ** Every region reaches one whose list is not complete or at the border *)

Definition open_flags : Z :=
  Z.lor SATURATED_REGION_FLAG (Z.lor FRAGMENTED_REGION_FLAG ADJACENT_TO_ROOT_REGION_FLAG).

Definition reaches_open (rs : list region) : Prop :=
  ∀ r, adj rs r ≠ [] → ∃ q, rtc (λ a b, b ∈ adj rs a) r q ∧ hasf rs q open_flags = true.

Lemma hasf_open rs r :
  hasf rs r open_flags = hasf rs r SATURATED_REGION_FLAG ||
    (hasf rs r FRAGMENTED_REGION_FLAG || hasf rs r ADJACENT_TO_ROOT_REGION_FLAG).
Proof. unfold hasf, open_flags. by rewrite !has_flag_split. Qed.

(** Going up in the image from any pixel meets the border; the regions on the way
    touch. *)
Lemma segmented_up source w h s L i r :
  segmented source w h s L → L !! i = Some r →
  ∃ q, rtc (λ a b, b ∈ adj (regions s) a) r q ∧ hasf (regions s) q open_flags = true.
Proof.
  intros H. revert r. induction i as [i IH] using lt_wf_ind. intros r Hi.
  destruct (segmented_colour _ _ _ _ _ H _ _ Hi) as (a & Ha & _).
  pose proof (list_elem_of_lookup_2 _ _ _ Hi) as HrL.
  destruct (hasf (regions s) r open_flags) eqn:Ho; [by exists r; split; [apply rtc_refl|]|].
  pose proof Ho as Ho'. rewrite hasf_open in Ho'. unfold hasf in Ho'.
  rewrite (fl_lookup _ _ _ Ha) in Ho'. apply orb_false_elim in Ho' as [O1 [O2 O3]%orb_false_elim].
  assert (Hb : ¬ on_border w h i).
  { intros Hb. assert (has_flag (flags a) ADJACENT_TO_ROOT_REGION_FLAG = true); [|congruence].
    apply (proj2 (segmented_border _ _ _ _ _ H r a HrL Ha)). eauto. }
  assert (Hw : w ≤ i) by (unfold on_border in Hb; lia).
  assert (Hw0 : 0 < w).
  { destruct w; [|lia]. pose proof (segmented_length _ _ _ _ _ H) as Hl. simpl in Hl.
    apply lookup_lt_Some in Hi. lia. }
  pose proof (lookup_lt_Some _ _ _ Hi) as Hlt.
  destruct (lookup_lt_is_Some_2 L (i - w)) as [r' Hi']; [lia|].
  destruct (IH (i - w) ltac:(lia) r' Hi') as (q & Hq & Hqo).
  destruct (decide (r' = r)) as [->|Hne]; [eauto|].
  exists q. split; [|done]. eapply rtc_l; [|exact Hq]. rewrite (adj_lookup _ _ _ Ha).
  destruct (segmented_adjacent _ _ _ _ _ H r a HrL Ha) as [_ K]. apply (K r'); try done.
  exists i, (i - w). split_and!; [right; right; lia|done|done].
Qed.

Lemma segmented_reaches_open source w h s L : segmented source w h s L → reaches_open (regions s).
Proof.
  intros H r Hr. destruct (regions s !! r) as [a|] eqn:Ha.
  - destruct (decide (r ∈ L)) as [[i Hi]%list_elem_of_lookup|HrL]; [by eapply segmented_up|].
    exfalso. apply Hr. rewrite (adj_lookup _ _ _ Ha). by eapply segmented_free.
  - exfalso. apply Hr. unfold adj. by rewrite Ha.
Qed.

(** ** The invariant of the search *)

Section search.
Context (ft : fidtracker) (mx : nat) (rs0 : list region).
Hypothesis Hgraph : graph mx rs0.
Hypothesis Hmx : mx < Z.to_nat 32768.
Hypothesis Hopen : reaches_open rs0.

(** What the search does not change. *)
Definition picture_part (a : region) : Z * (Z * Z) * (Z * Z) :=
  (colour a, (left a, top a), (right a, bottom a)).
Definition fixed_part (a : region) : list nat * Z * (Z * (Z * Z) * (Z * Z)) :=
  (adjacent_regions a, Z.land (flags a) 15, picture_part a).
Definition leaf (r : nat) : Prop := ∃ a, rs0 !! r = Some a ∧ is_leaf a = true.

(** [K] holds the pairs of a region and its parent that was told of it. *)
Definition kids (K : list (nat * nat)) (r : nat) : list nat := (filter (λ e, e.2 = r) K).*1.

Record search (i : nat) (rs : list region) (K : list (nat * nat)) : Prop := Search {
  search_fixed : fixed_part <$> rs = fixed_part <$> rs0;
  search_level r a : rs !! r = Some a → level a = NOT_TRAVERSED ∨ level a = TRAVERSED;
  search_visited r a : rs !! r = Some a → children_visited_count a = Z.of_nat (length (kids K r));
  search_once : NoDup K.*1;
  search_kid c p : (c, p) ∈ K → trav rs c ∧ hasf rs0 c open_flags = false ∧
    adj rs0 c ≡ₚ kids K c ++ [p];
  search_leaf r : trav rs r → leaf r → r < i;
  search_live r : trav rs r → adj rs0 r ≠ [];
}.

Lemma fixed_lookup rs r a :
  fixed_part <$> rs = fixed_part <$> rs0 → rs !! r = Some a →
  adj rs0 r = adjacent_regions a ∧ (∀ f, Z.land 15 f = f → hasf rs0 r f = has_flag (flags a) f) ∧
  r < length rs0.
Proof.
  intros E Ha. assert (F : (fixed_part <$> rs) !! r = (fixed_part <$> rs0) !! r) by (by rewrite E).
  rewrite !list_lookup_fmap, Ha in F. destruct (rs0 !! r) as [b|] eqn:Hb; [|done].
  change (Some (fixed_part a) = Some (fixed_part b)) in F. injection F as F1 F2 _.
  split_and!; [by rewrite (adj_lookup _ _ _ Hb)| |by eapply lookup_lt_Some].
  intros f Hf. unfold hasf. rewrite (fl_lookup _ _ _ Hb). unfold has_flag.
  by rewrite <-Hf, !Z.land_assoc, F2.
Qed.

Lemma elem_kids K c r : c ∈ kids K r ↔ (c, r) ∈ K.
Proof.
  unfold kids. rewrite list_elem_of_fmap. setoid_rewrite list_elem_of_filter. split.
  - intros ([x y] & -> & ? & ?). simpl in *. by subst.
  - intros H. by exists (c, r).
Qed.
Lemma NoDup_kids K r : NoDup K.*1 → NoDup (kids K r).
Proof.
  unfold kids. induction K as [|[c p] K IH]; simpl; [done|]. intros [Hc HK]%NoDup_cons.
  rewrite filter_cons. simpl. case_decide; simpl; [|auto]. apply NoDup_cons. split; [|auto].
  intros ([x y] & -> & [_ ?]%list_elem_of_filter)%list_elem_of_fmap. apply Hc.
  apply list_elem_of_fmap. by exists (x, y).
Qed.
Lemma kid_unique (K : list (nat * nat)) c p q : NoDup K.*1 → (c, p) ∈ K → (c, q) ∈ K → p = q.
Proof.
  intros HK [i Hi]%list_elem_of_lookup [j Hj]%list_elem_of_lookup.
  assert (i = j) as ->; [|congruence].
  eapply (NoDup_lookup K.*1 i j c); [done|by rewrite list_lookup_fmap, Hi|by rewrite list_lookup_fmap, Hj].
Qed.

(** A leaf that is not traversed was not told of any child: else the regions below
    it would be all it can reach, and none of them is open. *)
Lemma leaf_not_told i rs K r : search i rs K → leaf r → kids K r = [].
Proof.
  intros [A B C D E F G] (a & Ha & Hl). apply elem_of_nil_inv. intros p Hp%elem_kids.
  apply andb_true_iff in Hl as [Hlen%bool_decide_eq_true Hfl%negb_true_iff].
  destruct (E _ _ Hp) as (_ & _ & Pp).
  assert (Hpr : p ∈ adj rs0 r).
  { apply (graph_elem _ _ _ _ Hgraph). rewrite Pp. set_solver. }
  assert (Hadj : adj rs0 r = [p]).
  { rewrite (adj_lookup _ _ _ Ha) in *. destruct (adjacent_regions a) as [|x [|]]; try done.
    by apply list_elem_of_singleton in Hpr as ->. }
  assert (Hr : hasf rs0 r open_flags = false).
  { unfold hasf. rewrite (fl_lookup _ _ _ Ha). unfold open_flags in *.
    rewrite !has_flag_split in *. repeat (apply orb_false_elim in Hfl as [? Hfl]).
    by repeat (apply orb_false_intro). }
  destruct (Hopen r) as (q & Hq & Hqo); [by rewrite Hadj|].
  assert (Below : ∀ x, rtc (λ a b, b ∈ adj rs0 a) r x → rtc (λ x y, (y, x) ∈ K) r x).
  { apply rtc_ind_r; [apply rtc_refl|]. intros y z _ Hz IH.
    destruct (rtc_inv_r _ _ IH) as [<-|(t & Ht & Hyt)].
    - rewrite Hadj in Hz. apply list_elem_of_singleton in Hz as ->. by apply rtc_once.
    - destruct (E _ _ Hyt) as (_ & _ & Py). rewrite Py in Hz.
      apply elem_of_app in Hz as [Hz%elem_kids|Hz]; [eapply rtc_r; [exact IH|exact Hz]|].
      by apply list_elem_of_singleton in Hz as ->. }
  destruct (rtc_inv_r _ _ (Below q Hq)) as [<-|(t & _ & Ht)]; [congruence|].
  destruct (E _ _ Ht) as (_ & ? & _). congruence.
Qed.

(** ** One region is traversed *)

Lemma scan_adjacent_run rs r l : ∀ desc dep o,
  (∀ x, x ∈ l → r ∈ adj rs x) → length (option_list o ++ untraversed rs l) ≤ 1 →
  scan_adjacent rs r l desc dep o =
    Ok (count_of rs l desc dep, head (option_list o ++ untraversed rs l)).
Proof.
  induction l as [|x l IH]; intros desc dep o Hl Ho; simpl; [by destruct o|].
  assert (Hx : r ∈ adj rs x) by (apply Hl; set_solver).
  pose proof (adj_in_range _ _ _ Hx) as Hlt. pose proof Hlt as [b Hb]%lookup_lt_is_Some.
  rewrite Hb. simpl. rewrite contains_run by done. rewrite (bool_decide_true (r ∈ adj rs x)) by done. simpl.
  assert (Hl' : ∀ y, y ∈ l → r ∈ adj rs y) by set_solver.
  unfold untraversed in *. rewrite filter_cons in *.
  assert (Ht : travb rs x = (level b =? TRAVERSED)%Z) by (unfold travb; by rewrite Hb).
  rewrite Ht in *. destruct (level b =? TRAVERSED)%Z; simpl in *; [by apply IH|].
  destruct o as [p|]; simpl in *; [lia|].
  by apply (IH desc dep (Some x)).
Qed.

Definition partly (r : nat) : bool :=
  hasf rs0 r (Z.lor ADJACENT_TO_ROOT_REGION_FLAG FRAGMENTED_REGION_FLAG).
(** All neighbours of [r] but one have told it of themselves; all of them when it may
    have more. *)
Definition all_told (K : list (nat * nat)) (r : nat) : Prop :=
  length (adj rs0 r) = length (kids K r) + (if partly r then 0 else 1).

Lemma search_kids i rs K r :
  search i rs K → ∃ l, adj rs0 r ≡ₚ kids K r ++ l ∧ Forall (trav rs) (kids K r).
Proof.
  intros [A B C D E F G].
  destruct (submseteq_Permutation (kids K r) (adj rs0 r)) as [l Hl].
  { apply NoDup_submseteq; [by apply NoDup_kids|]. intros c Hc%elem_kids.
    destruct (E _ _ Hc) as (_ & _ & P). apply (graph_elem _ _ _ _ Hgraph). rewrite P. set_solver. }
  exists l. split; [done|]. apply Forall_forall. intros c Hc%elem_kids. by destruct (E _ _ Hc).
Qed.

Lemma untraversed_kids i rs K r l :
  search i rs K → adj rs0 r ≡ₚ kids K r ++ l → Forall (trav rs) (kids K r) →
  untraversed rs (adj rs0 r) ≡ₚ untraversed rs l.
Proof.
  intros H Pl Tl. unfold untraversed. rewrite Pl, filter_app.
  assert (filter (λ x, travb rs x = false) (kids K r) = []) as ->; [|done].
  apply elem_of_nil_inv. intros x [Hf Ht]%list_elem_of_filter.
  apply (proj1 (Forall_forall _ _) Tl), travb_trav in Ht. congruence.
Qed.

(** The loop does not look at [r]. *)
Lemma scan_other rs r a k :
  r ∉ k → untraversed (<[r:=a]> rs) k = untraversed rs k ∧
    ∀ d1 d2, count_of (<[r:=a]> rs) k d1 d2 = count_of rs k d1 d2.
Proof.
  induction k as [|x k IHk]; [done|]. intros [Hx Hk]%not_elem_of_cons. destruct (IHk Hk) as [I1 I2].
  assert (Ex : <[r:=a]> rs !! x = rs !! x) by (by apply list_lookup_insert_ne).
  assert (Htx : travb (<[r:=a]> rs) x = travb rs x) by (unfold travb; by rewrite Ex).
  unfold untraversed in *. rewrite !filter_cons, I1. split; [repeat case_decide; congruence|].
  intros. simpl. rewrite Ex. destruct (rs !! x) as [b|]; [destruct (level b =? TRAVERSED)%Z|]; apply I2.
Qed.

Lemma neighbour_lists i rs K r a x :
  search i rs K → x ∈ adj rs0 r → r ∈ adj (<[r:=a]> rs) x.
Proof.
  intros H Hx. assert (x ≠ r) by (intros ->; by eapply graph_irrefl in Hx).
  rewrite adj_insert_ne by done. apply (graph_elem _ _ _ _ Hgraph) in Hx as Hx'.
  pose proof (adj_in_range _ _ _ Hx') as Lx. pose proof (search_fixed _ _ _ H) as A.
  assert (length rs = length rs0) as Ell by (by rewrite <-(length_fmap fixed_part rs), A, length_fmap).
  rewrite <-Ell in Lx. apply lookup_lt_is_Some in Lx as [b Hb].
  destruct (fixed_lookup _ _ _ A Hb) as (Eb & _). by rewrite (adj_lookup _ _ _ Hb), <-Eb.
Qed.

(** What a traversal leaves: the region carries the count and the depth, [l] are its
    neighbours that were traversed and [o] the one that was not. *)
Record traversed (rs rs' : list region) (r : nat) (o : option nat) : Prop := Traversed {
  traversed_region : ∃ a a', rs !! r = Some a ∧ rs' !! r = Some a' ∧ rs' = <[r:=a']> rs ∧
    level a = NOT_TRAVERSED ∧ level a' = TRAVERSED ∧
    children_visited_count a' = children_visited_count a ∧ fixed_part a' = fixed_part a ∧
    (descendent_count a', depth a') = count_of rs (adj rs0 r) 0 0 ∧
    flags a' = flags a;
  traversed_parent : option_list o = untraversed rs (adj rs0 r);
}.

Lemma traverse_ok i rs K r :
  search i rs K → r < length rs → ¬ trav rs r → all_told K r →
  ∃ rs' o, traverse rs r = Ok (rs', o) ∧ traversed rs rs' r o ∧
    (o = None ∨ partly r = false ∧ ∃ p, o = Some p ∧ adj rs0 r ≡ₚ kids K r ++ [p]).
Proof.
  intros H Hr Hnt Hready. pose proof H as [A B C D E F G].
  destruct (search_kids _ _ _ r H) as (l & Pl & Tl).
  pose proof Hr as [a Ha]%lookup_lt_is_Some.
  destruct (fixed_lookup _ _ _ A Ha) as (Hadj & Hfl & _).
  assert (Hla : level a = NOT_TRAVERSED) by (destruct (B _ _ Ha) as [?|?]; [done|exfalso; apply Hnt; by exists a]).
  assert (Hl : length l = if partly r then 0 else 1).
  { unfold all_told in Hready. rewrite Pl, length_app in Hready. lia. }
  pose proof (untraversed_kids _ _ _ _ _ H Pl Tl) as Hu.
  assert (Hulen : length (untraversed rs (adj rs0 r)) ≤ length l).
  { rewrite Hu. apply length_filter. }
  set (a1 := set_search TRAVERSING 0 (children_visited_count a) 0 a).
  assert (Hrr : r ∉ adj rs0 r) by (by eapply graph_irrefl).
  destruct (scan_other rs r a1 (adj rs0 r) Hrr) as [Eu Ec].
  unfold traverse. rewrite Ha. simpl. rewrite Hla. simpl.
  assert (Hv : (children_visited_count a =? Z.of_nat (length (adjacent_regions a)) - 1)%Z ||
    (children_visited_count a =? Z.of_nat (length (adjacent_regions a)))%Z = true).
  { rewrite (C _ _ Ha), <-Hadj, Hready. destruct (partly r).
    - rewrite orb_true_iff, !Z.eqb_eq. lia. - rewrite orb_true_iff, !Z.eqb_eq. lia. }
  rewrite Hv. simpl. rewrite (upd_run _ _ _ _ Ha). simpl. fold a1.
  rewrite <-Hadj, scan_adjacent_run.
  2:{ intros x. by eapply neighbour_lists. }
  2:{ simpl. rewrite Eu. destruct (partly r); lia. }
  simpl. rewrite Eu, Ec. destruct (count_of rs (adj rs0 r) 0 0) as [desc dep] eqn:Ecount. simpl.
  rewrite (upd_run _ _ _ a1) by (by apply list_lookup_insert_eq). simpl.
  rewrite list_insert_insert_eq.
  set (a' := set_search TRAVERSED dep _ desc a1). set (o := head _).
  assert (Ho : option_list o = untraversed rs (adj rs0 r)).
  { unfold o. destruct (untraversed rs (adj rs0 r)) as [|p [|]]; simpl in *; try done.
    destruct (partly r); lia. }
  exists (<[r:=a']> rs), o. split_and!; [done| |].
  - split; [|done]. exists a, a'. split_and!; try done. by apply list_lookup_insert_eq.
  - destruct o as [p|]; [right|by left]. simpl in Ho.
    destruct (partly r); [rewrite <-Ho in Hulen; simpl in *; lia|]. split; [done|].
    exists p. split; [done|]. rewrite Pl. f_equiv. rewrite <-Ho in Hu.
    destruct l as [|x [|]]; simpl in *; try done. unfold untraversed in Hu. rewrite filter_cons in Hu.
    case_decide; [|by apply Permutation_length in Hu].
    simpl in Hu. apply Permutation_singleton_inj in Hu. by rewrite Hu.
Qed.

(** ** The search goes on at the parent *)

Lemma fixed_insert (rs : list region) r a b :
  rs !! r = Some a → fixed_part b = fixed_part a → fixed_part <$> <[r:=b]> rs = fixed_part <$> rs.
Proof.
  intros Ha E. rewrite list_fmap_insert, E. apply list_insert_id. by rewrite list_lookup_fmap, Ha.
Qed.
Lemma lookup_insert_cases (rs : list region) r a z c :
  <[r:=a]> rs !! z = Some c → z = r ∧ c = a ∨ z ≠ r ∧ rs !! z = Some c.
Proof.
  intros H. destruct (decide (z = r)) as [->|]; [left|right; by rewrite list_lookup_insert_ne in H].
  assert (r < length rs) by (apply lookup_lt_Some in H; by rewrite length_insert in H).
  rewrite list_lookup_insert_eq in H by done. split; [done|]. by injection H.
Qed.

Lemma trav_insert (rs : list region) r a b z :
  rs !! r = Some a → (level a = TRAVERSED → level b = TRAVERSED) → trav rs z → trav (<[r:=b]> rs) z.
Proof.
  intros Ha Hab (c & Hc & Hl). destruct (decide (z = r)) as [->|].
  - exists b. split; [apply list_lookup_insert_eq; by eapply lookup_lt_Some|]. apply Hab. congruence.
  - exists c. by rewrite list_lookup_insert_ne.
Qed.

(** A write to [r] that keeps its part in the search. *)
Lemma search_write i rs K r a b :
  search i rs K → rs !! r = Some a → fixed_part b = fixed_part a →
  children_visited_count b = children_visited_count a →
  level b = TRAVERSED → (level a ≠ TRAVERSED → leaf r → r < i) → adj rs0 r ≠ [] →
  search i (<[r:=b]> rs) K.
Proof.
  intros [A B C D E F G] Ha Hf Hv Hl Hi Hlive. split; try done.
  - by rewrite (fixed_insert _ _ _ _ Ha Hf).
  - intros z c [[-> ->]|[_ ?]]%lookup_insert_cases; eauto.
  - intros z c [[-> ->]|[_ ?]]%lookup_insert_cases; [rewrite Hv|]; eauto.
  - intros c p (T & ? & ?)%E. split_and!; [|done..]. by eapply trav_insert.
  - intros z (c & Hc & Hcl) Hz. apply lookup_insert_cases in Hc as [[-> ->]|[_ Hc]].
    + destruct (decide (level a = TRAVERSED)); [apply F; [by exists a|done]|auto].
    + apply F; [by exists c|done].
  - intros z (c & Hc & Hcl). apply lookup_insert_cases in Hc as [[-> _]|[_ Hc]]; [done|].
    apply G. by exists c.
Qed.

(** The parent is told of [r]. *)
Lemma search_tell i rs K r p b :
  search i rs K → trav rs r → ¬ trav rs p → rs !! p = Some b → r ∉ K.*1 →
  hasf rs0 r open_flags = false → adj rs0 r ≡ₚ kids K r ++ [p] →
  search i (<[p:=set_visited (to_short (children_visited_count b + 1)) b]> rs) ((r, p) :: K).
Proof.
  intros H Hr Hp Hb HrK Hopen' Padj. pose proof H as [A B C D E F G].
  assert (Hkids : ∀ z, kids ((r, p) :: K) z = if decide (p = z) then r :: kids K z else kids K z).
  { intros z. unfold kids. rewrite filter_cons. simpl. by case_decide. }
  assert (Hpr : p ≠ r) by congruence.
  assert (Hrp : r ∈ adj rs0 p).
  { apply (graph_elem _ _ _ _ Hgraph). rewrite Padj. set_solver. }
  assert (Hlen : S (length (kids K p)) ≤ mx).
  { etrans; [|apply (graph_length _ _ Hgraph p)].
    apply (submseteq_length (r :: kids K p)), NoDup_submseteq.
    - apply NoDup_cons. split; [|by apply NoDup_kids]. intros Hk%elem_kids. apply HrK.
      apply list_elem_of_fmap. by exists (r, p).
    - intros x [->|Hx%elem_kids]%elem_of_cons; [done|]. destruct (E _ _ Hx) as (_ & _ & P).
      apply (graph_elem _ _ _ _ Hgraph). rewrite P. set_solver. }
  split.
  - by rewrite (fixed_insert _ _ _ _ Hb).
  - intros z c [[-> ->]|[_ ?]]%lookup_insert_cases; [by apply (B p b)|eauto].
  - intros z c [[-> ->]|[Hz Hc]]%lookup_insert_cases; rewrite Hkids.
    + rewrite decide_True by done. simpl. rewrite (C _ _ Hb).
      replace (Z.of_nat (length (kids K p)) + 1)%Z with (Z.of_nat (S (length (kids K p)))) by lia.
      apply to_short_id. lia.
    + rewrite decide_False by done. eauto.
  - simpl. by apply NoDup_cons.
  - intros c q [[= -> ->]|Hcq]%elem_of_cons.
    + split_and!; [by eapply trav_insert|done|]. rewrite Hkids, decide_False by done. done.
    + destruct (E _ _ Hcq) as (T & O & P). split_and!; [by eapply trav_insert|done|].
      rewrite Hkids, decide_False; [done|]. by intros ->.
  - intros z (c & Hc & Hcl) Hz. apply lookup_insert_cases in Hc as [[-> ->]|[_ Hc]].
    + exfalso. apply Hp. by exists b.
    + apply F; [by exists c|done].
  - intros z (c & Hc & Hcl). apply lookup_insert_cases in Hc as [[-> ->]|[_ Hc]].
    + exfalso. apply Hp. by exists b.
    + apply G. by exists c.
Qed.

(** The candidates so far: the regions traversed whose counts fit. *)
Definition wanted (a : region) : bool :=
  exact_count ft (descendent_count a) (depth a) || target_count ft (descendent_count a) (depth a).
Definition nearly (a : region) : bool := fuzzy_count ft (descendent_count a) (depth a).

Record roots_ok (rs : list region) (roots : list nat) : Prop := RootsOk {
  roots_NoDup : NoDup roots;
  roots_trav r : r ∈ roots → trav rs r;
  roots_wanted r a : rs !! r = Some a → level a = TRAVERSED →
    r ∈ roots ↔ wanted a || nearly a = true;
  roots_lost r a : r ∈ roots → rs !! r = Some a → wanted a = false →
    has_flag (flags a) LOST_SYMBOL_FLAG = true;
  roots_clear r a : rs !! r = Some a → has_flag (flags a) LOST_SYMBOL_FLAG = true →
    level a = TRAVERSED ∧ wanted a = false;
}.

Lemma link_candidate_ok i rs rs1 K roots r o :
  search i rs K → roots_ok rs roots → traversed rs rs1 r o → (leaf r → r < i) → adj rs0 r ≠ [] →
  ∃ rs2 roots' a, link_candidate ft rs1 roots r = Ok (rs2, roots') ∧ rs2 !! r = Some a ∧
    search i rs2 K ∧ roots_ok rs2 roots' ∧ trav rs2 r ∧ rs2 = <[r:=a]> rs ∧
    (descendent_count a, depth a) = count_of rs (adj rs0 r) 0 0.
Proof.
  intros H HR [(a & a1 & Ha & Ha1 & -> & Hla & Hl1 & Hv & Hf & Hcount & Hflags) _] Hleaf Hlive.
  assert (H1 : search i (<[r:=a1]> rs) K) by (eapply search_write; eauto).
  assert (Hnr : r ∉ roots).
  { intros (b & Hb & Hbl)%(roots_trav _ _ HR). rewrite Ha in Hb. injection Hb as <-. by rewrite Hla in Hbl. }
  assert (R : ∀ b roots', level b = TRAVERSED → wanted b = wanted a1 → nearly b = nearly a1 →
    roots' = (if wanted a1 || nearly a1 then roots ++ [r] else roots) →
    (wanted a1 = false → nearly a1 = true → has_flag (flags b) LOST_SYMBOL_FLAG = true) →
    (wanted a1 = true → flags b = flags a) → roots_ok (<[r:=b]> rs) roots').
  { intros b roots' Hb Hw Hn -> Hlost Hkeep. destruct HR as [R1 R2 R3 R4 R5].
    assert (Hin : ∀ z, z ∈ (if wanted a1 || nearly a1 then roots ++ [r] else roots) ↔
      z ∈ roots ∨ z = r ∧ wanted a1 || nearly a1 = true).
    { intros z. destruct (wanted a1 || nearly a1); [set_solver|]. naive_solver. }
    split.
    - destruct (wanted a1 || nearly a1); [|done]. apply NoDup_app. split_and!; [done| |apply NoDup_singleton].
      intros z Hz ->%list_elem_of_singleton. done.
    - intros z [Hz|[-> _]]%Hin; [eapply trav_insert; eauto; by rewrite Hla|].
      exists b. split; [apply list_lookup_insert_eq; by eapply lookup_lt_Some|done].
    - intros z c Hc Hcl. rewrite Hin. apply lookup_insert_cases in Hc as [[-> ->]|[Hz Hc]].
      + rewrite Hw, Hn. naive_solver.
      + rewrite (R3 _ _ Hc Hcl). naive_solver.
    - intros z c Hz Hc Hwc. apply Hin in Hz. apply lookup_insert_cases in Hc as [[-> ->]|[Hne Hc]].
      + rewrite Hw in Hwc. rewrite Hwc in Hz. destruct Hz as [?|[_ ?]]; [done|]. auto.
      + destruct Hz as [Hz|[-> _]]; [eauto|done].
    - intros z c Hc Hcl. apply lookup_insert_cases in Hc as [[-> ->]|[_ Hc]]; [|eauto].
      split; [done|]. rewrite Hw. destruct (wanted a1); [|done]. rewrite Hkeep in Hcl by done.
      destruct (R5 _ _ Ha Hcl) as [Hla' _]. by rewrite Hla in Hla'. }
  unfold link_candidate. rewrite Ha1. cbn -[exact_count target_count fuzzy_count].
  fold (wanted a1). fold (nearly a1).
  pose proof (lookup_lt_Some _ _ _ Ha) as Lr.
  destruct (wanted a1) eqn:Ew; [|destruct (nearly a1) eqn:En].
  - exists (<[r:=a1]> rs), (roots ++ [r]), a1. split_and!; [done|done|done| |by exists a1|done|done].
    apply R; by rewrite ?Ew.
  - unfold upd. rewrite Ha1. cbn -[exact_count target_count fuzzy_count].
    rewrite list_insert_insert_eq. set (a2 := or_flag _ a1).
    assert (Hfix : fixed_part a2 = fixed_part a1).
    { unfold fixed_part, a2, or_flag. simpl. f_equal. f_equal. rewrite Z.land_lor_distr_l. apply Z.lor_0_r. }
    exists (<[r:=a2]> rs), (roots ++ [r]), a2.
    assert (Ha2 : <[r:=a2]> rs !! r = Some a2) by (by apply list_lookup_insert_eq).
    split_and!; [done|done| | |by exists a2|done|done].
    + eapply search_write; eauto; congruence.
    + apply R; rewrite ?Ew, ?En; try done. intros _ _. unfold a2, or_flag. simpl.
      rewrite has_flag_lor. by rewrite orb_comm.
  - exists (<[r:=a1]> rs), roots, a1. split_and!; [done|done|done| |by exists a1|done|done].
    apply R; by rewrite ?Ew, ?En.
Qed.

Definition left_over (rs : list region) : nat :=
  length (filter (λ a, level a = NOT_TRAVERSED) rs).
Lemma left_over_insert (rs : list region) r a b :
  rs !! r = Some a →
  left_over (<[r:=b]> rs) + (if decide (level a = NOT_TRAVERSED) then 1 else 0) =
  left_over rs + (if decide (level b = NOT_TRAVERSED) then 1 else 0).
Proof.
  intros H. unfold left_over. rewrite (insert_take_drop _ _ _ (lookup_lt_Some _ _ _ H)).
  rewrite <-(take_drop_middle _ _ _ H) at 3. rewrite !filter_app, !filter_cons, !length_app.
  repeat case_decide; simpl; lia.
Qed.

Lemma all_told_not_leaf K p : all_told K p → kids K p ≠ [] → ¬ leaf p.
Proof.
  intros Hr Hk (a & Ha & Hl). apply andb_true_iff in Hl as [Hlen%bool_decide_eq_true Hfl%negb_true_iff].
  unfold all_told in Hr. rewrite (adj_lookup _ _ _ Ha), Hlen in Hr.
  destruct (kids K p) as [|x [|]] eqn:E; [done| |simpl in Hr; destruct (partly p); lia].
  assert (partly p = false) as Hp; [|rewrite Hp in Hr; simpl in Hr; lia].
  unfold partly, hasf. rewrite (fl_lookup _ _ _ Ha), has_flag_split. rewrite !has_flag_split in Hfl.
  repeat (apply orb_false_elim in Hfl as [? Hfl]). by apply orb_false_intro.
Qed.

Lemma parent_ready_ok i rs K p b :
  search i rs K → rs !! p = Some b → parent_ready b = true → all_told K p.
Proof.
  intros [A B C D E F G] Hb Hr. destruct (fixed_lookup _ _ _ A Hb) as (Hadj & Hfl & _).
  unfold parent_ready in Hr. rewrite (C _ _ Hb), <-Hadj in Hr.
  rewrite <-(Hfl (Z.lor ADJACENT_TO_ROOT_REGION_FLAG FRAGMENTED_REGION_FLAG)) in Hr by done.
  fold (partly p) in Hr.
  apply andb_true_iff in Hr as [_ Hr]. unfold all_told. destruct (partly p); simpl in Hr.
  - apply Z.eqb_eq in Hr. lia. - rewrite orb_false_r in Hr. apply Z.eqb_eq in Hr. lia.
Qed.

Lemma contains_fixed i rs K r p :
  search i rs K → r < length rs → p ∈ adj rs0 r → r1_adjacent_contains_r2 rs r p = Ok true.
Proof.
  intros H Hr Hp. rewrite contains_run by done. rewrite bool_decide_true; [done|].
  apply lookup_lt_is_Some in Hr as [a Ha].
  destruct (fixed_lookup _ _ _ (search_fixed _ _ _ H) Ha) as (E & _).
  by rewrite (adj_lookup _ _ _ Ha), <-E.
Qed.

Lemma left_over_pos (rs : list region) r a :
  rs !! r = Some a → level a = NOT_TRAVERSED → left_over rs ≠ 0.
Proof.
  intros Ha Hl Hz%length_zero_iff_nil.
  assert (a ∈ filter (λ a, level a = NOT_TRAVERSED) rs) as Hin
    by (apply list_elem_of_filter; split; [done|by eapply list_elem_of_lookup_2]).
  rewrite Hz in Hin. by apply elem_of_nil in Hin.
Qed.

Lemma told_not_open i rs K r a :
  search i rs K → rs !! r = Some a → partly r = false →
  has_flag (flags a) (Z.lor SATURATED_REGION_FLAG
    (Z.lor ADJACENT_TO_ROOT_REGION_FLAG FREE_REGION_FLAG)) = false →
  hasf rs0 r open_flags = false.
Proof.
  intros H Ha Hpart Hfl. destruct (fixed_lookup _ _ _ (search_fixed _ _ _ H) Ha) as (_ & Hfl2 & _).
  rewrite hasf_open. rewrite !has_flag_split in Hfl. apply orb_false_elim in Hfl as [F1 [F2 _]%orb_false_elim].
  unfold partly, hasf in Hpart. rewrite has_flag_split in Hpart.
  apply orb_false_elim in Hpart as [P1 P2]. rewrite (Hfl2 SATURATED_REGION_FLAG) by done.
  by rewrite F1, (P2 : hasf rs0 r FRAGMENTED_REGION_FLAG = false),
    (P1 : hasf rs0 r ADJACENT_TO_ROOT_REGION_FLAG = false).
Qed.

Lemma roots_tell rs roots p b v :
  roots_ok rs roots → ¬ trav rs p → rs !! p = Some b → roots_ok (<[p:=set_visited v b]> rs) roots.
Proof.
  intros [R1 R2 R3 R4 R5] Hpt Hb. split; [done| | | |].
  - intros z ?%R2. by eapply trav_insert.
  - intros z c [[-> ->]|[_ ?]]%lookup_insert_cases ?; [|eauto]. exfalso. apply Hpt. by exists b.
  - intros z c Hzr [[-> ->]|[_ ?]]%lookup_insert_cases ?; [|eauto]. exfalso. by apply Hpt, R2.
  - intros z c [[-> ->]|[_ ?]]%lookup_insert_cases ?; [|eauto]. by apply (R5 p b).
Qed.

(** The traversed regions form trees, when there are so few regions that no count
    overflows. *)
Definition few_trees (rs : list region) : Prop :=
  length rs0 < Z.to_nat 32768 → ∃ F, forest rs F.

Lemma search_adj i rs K x : search i rs K → adj rs x = adj rs0 x.
Proof.
  intros H. pose proof (search_fixed _ _ _ H) as A. destruct (rs !! x) as [a|] eqn:Ha.
  - destruct (fixed_lookup _ _ _ A Ha) as (E & _). by rewrite (adj_lookup _ _ _ Ha).
  - unfold adj. rewrite Ha. assert (E : (fixed_part <$> rs) !! x = (fixed_part <$> rs0) !! x) by (by rewrite A).
    rewrite !list_lookup_fmap, Ha in E. by destruct (rs0 !! x).
Qed.

(** Where the search stands: at a leaf, or at a region one of its children told of
    itself. *)
Lemma told_or_leaf i rs K r a :
  search i rs K → rs !! r = Some a → leaf r ∨ kids K r ≠ [] →
  (∀ x, x ∈ adj rs0 r → ¬ trav rs x) → is_leaf a = true.
Proof.
  intros H Ha [Hl|Hk] Hx.
  - destruct Hl as (b & Hb & Hl). destruct (fixed_lookup _ _ _ (search_fixed _ _ _ H) Ha) as (Hadj & Hfl & _).
    unfold is_leaf in *. rewrite <-Hadj, (adj_lookup _ _ _ Hb). rewrite <-Hfl by done.
    unfold hasf. by rewrite (fl_lookup _ _ _ Hb).
  - exfalso. destruct (kids K r) as [|c k] eqn:E; [done|].
    assert (Hc : (c, r) ∈ K) by (apply elem_kids; rewrite E; by left).
    destruct (search_kid _ _ _ H _ _ Hc) as (Hct & _ & P). apply (Hx c); [|done].
    apply (graph_elem _ _ _ _ Hgraph). rewrite P. set_solver.
Qed.

Lemma trees_grow i rs K r a0 a o :
  search i rs K → few_trees rs → ¬ trav rs r → rs !! r = Some a0 → level a = TRAVERSED →
  search i (<[r:=a]> rs) K →
  (descendent_count a, depth a) = count_of rs (adj rs0 r) 0 0 →
  option_list o = untraversed rs (adj rs0 r) → adj rs0 r ≠ [] →
  ((∀ x, x ∈ adj rs0 r → ¬ trav rs x) → is_leaf a = true) → few_trees (<[r:=a]> rs).
Proof.
  intros H HF Hnt Ha0 Hl H' Hc Ho Hlive Hleaf Hlen. destruct (HF Hlen) as [F HF'].
  assert (Ha : <[r:=a]> rs !! r = Some a) by (apply list_lookup_insert_eq; by eapply lookup_lt_Some).
  eexists. apply (forest_grow rs F r HF') with (a0 := a0) (o := o); try done.
  - intros x y. unfold edges. rewrite !(search_adj _ _ _ _ H). apply (graph_sym _ _ Hgraph).
  - rewrite <-(adj_lookup _ _ _ Ha0), <-(adj_lookup _ _ _ Ha).
    by rewrite (search_adj _ _ _ _ H), (search_adj _ _ _ _ H').
  - by rewrite (search_adj _ _ _ _ H).
  - by rewrite (search_adj _ _ _ _ H).
  - by rewrite <-(length_fmap fixed_part rs), (search_fixed _ _ _ H), length_fmap.
  - rewrite (search_adj _ _ _ _ H). by eapply graph_irrefl.
  - by rewrite (search_adj _ _ _ _ H).
  - by rewrite (search_adj _ _ _ _ H).
Qed.
Lemma trees_write rs r a b :
  few_trees rs → rs !! r = Some a → level b = level a → descendent_count b = descendent_count a →
  depth b = depth a → adjacent_regions b = adjacent_regions a → is_leaf b = is_leaf a →
  few_trees (<[r:=b]> rs).
Proof. intros HF ? ? ? ? ? ? Hlen. destruct (HF Hlen) as [F ?]. exists F. by eapply forest_write. Qed.

Lemma propagate_ok i fuel : ∀ rs K roots r,
  search i rs K → roots_ok rs roots → few_trees rs → r < length rs → ¬ trav rs r → all_told K r →
  (leaf r → r < i) → leaf r ∨ kids K r ≠ [] → adj rs0 r ≠ [] → left_over rs ≤ fuel →
  ∃ rs' K' roots', propagate ft fuel rs roots r = Ok (rs', roots') ∧ search i rs' K' ∧
    roots_ok rs' roots' ∧ few_trees rs' ∧ length rs' = length rs.
Proof.
  induction fuel as [|fuel IH]; intros rs K roots r H HR HF Hlt Hnt Hready Hleaf Hstand Hlive Hfuel;
    destruct (traverse_ok _ _ _ _ H Hlt Hnt Hready) as (rs1 & o & Et & Tr & Ho);
    pose proof (traversed_region _ _ _ _ Tr) as (a0 & a1 & Ha0 & _ & _ & Hl0 & _).
  { exfalso. pose proof (left_over_pos _ _ _ Ha0 Hl0). lia. }
  destruct (link_candidate_ok _ _ _ _ _ _ _ H HR Tr Hleaf Hlive)
    as (rs2 & roots' & a & El & Ha & H2 & HR2 & (a' & Ha' & Hla) & E2 & Hcount).
  rewrite Ha in Ha'. injection Ha' as <-.
  assert (Hz : ∀ z, z ≠ r → rs2 !! z = rs !! z) by (intros; subst rs2; by apply list_lookup_insert_ne).
  assert (Hlen : length rs2 = length rs) by (subst rs2; by rewrite length_insert).
  assert (HF2 : few_trees rs2).
  { subst rs2. eapply (trees_grow i rs K r a0 a o); try done; [apply (traversed_parent _ _ _ _ Tr)|]. intros Hx.
    eapply (told_or_leaf i _ K r); [exact H2|exact Ha|done|]. intros x Hin Hxt. apply (Hx x Hin).
    destruct Hxt as (c & Hc & Hcl). rewrite list_lookup_insert_ne in Hc; [by exists c|].
    intros ->. by eapply graph_irrefl in Hin. }
  cbn [propagate]. rewrite Et. cbn [mbind res_bind]. rewrite El. cbn [mbind res_bind].
  rewrite Ha. cbn [mbind res_bind deref].
  destruct Ho as [->|(Hpart & p & -> & Padj)]; [by exists rs2, K, roots'|].
  destruct (exact_count _ _ _); [by exists rs2, K, roots'|]. simpl orb.
  destruct (has_flag (flags a) _) eqn:Hfl; [by exists rs2, K, roots'|].
  assert (Hpadj : p ∈ adj rs0 r) by (rewrite Padj; set_solver).
  assert (Hpr : p ≠ r) by (intros ->; by eapply graph_irrefl in Hpadj).
  assert (Hpt : ¬ trav rs2 p).
  { unfold trav. rewrite Hz by done. intros Hp%travb_trav.
    assert (p ∈ untraversed rs (adj rs0 r)) as Hu by (rewrite <-(traversed_parent _ _ _ _ Tr); set_solver).
    unfold untraversed in Hu. apply list_elem_of_filter in Hu as [Hu _]. congruence. }
  pose proof (search_fixed _ _ _ H2) as A2.
  assert (Ell : length rs2 = length rs0) by (by rewrite <-(length_fmap fixed_part rs2), A2, length_fmap).
  assert (Hp : p < length rs2).
  { rewrite Ell. apply (adj_in_range _ _ r). by apply (graph_elem _ _ _ _ Hgraph). }
  pose proof Hp as [b Hb]%lookup_lt_is_Some. rewrite (upd_run _ _ _ _ Hb). cbn [mbind res_bind].
  pose proof (told_not_open _ _ _ _ _ H2 Ha Hpart Hfl) as Hopen'.
  assert (HrK : r ∉ K.*1).
  { intros ([x y] & -> & Hxy)%list_elem_of_fmap. apply Hnt. by destruct (search_kid _ _ _ H _ _ Hxy). }
  pose proof (search_tell i rs2 K r p b H2 ltac:(by exists a) Hpt Hb HrK Hopen' Padj) as H3.
  set (b' := set_visited _ b) in *. set (rs3 := <[p:=b']> rs2) in *.
  assert (Hb' : rs3 !! p = Some b') by (by apply list_lookup_insert_eq).
  rewrite Hb'. cbn [mbind res_bind deref].
  assert (HR3 : roots_ok rs3 roots') by (by apply roots_tell).
  assert (HF3 : few_trees rs3) by (by apply (trees_write rs2 p b b')).
  assert (Hlen3 : length rs3 = length rs) by (unfold rs3; by rewrite length_insert).
  destruct (_ && parent_ready b') eqn:Hgo; [|by exists rs3, ((r, p) :: K), roots'].
  apply andb_true_iff in Hgo as [_ Hgo]. pose proof (parent_ready_ok _ _ _ _ _ H3 Hb' Hgo) as Hready3.
  rewrite (contains_fixed _ _ _ r p H3); [|lia|done].
  rewrite (contains_fixed _ _ _ p r H3); [|lia|by apply (graph_elem _ _ _ _ Hgraph)].
  cbn [mbind res_bind assert_].
  destruct (IH rs3 ((r, p) :: K) roots' p) as (rs' & K' & roots'' & E & ? & ? & ? & L'); try done.
  - lia.
  - intros (c & Hc & Hcl). rewrite Hb' in Hc. injection Hc as <-. apply Hpt. by exists b.
  - intros Hl. exfalso. eapply all_told_not_leaf; [exact Hready3| |done].
    intros Hk. assert (r ∈ kids ((r, p) :: K) p) as Hin by (apply elem_kids; by left).
    rewrite Hk in Hin. by apply elem_of_nil in Hin.
  - right. intros Hk. assert (r ∈ kids ((r, p) :: K) p) as Hin by (apply elem_kids; by left).
    rewrite Hk in Hin. by apply elem_of_nil in Hin.
  - intros Hnil. apply (graph_elem _ _ _ _ Hgraph) in Hpadj. rewrite Hnil in Hpadj.
    by apply elem_of_nil in Hpadj.
  - pose proof (left_over_insert rs r a0 a Ha0) as M1. pose proof (left_over_insert rs2 p b b' Hb) as M2.
    rewrite <-E2, Hl0, Hla in M1. fold rs3 in M2. change (level b') with (level b) in M2.
    rewrite decide_True, decide_False in M1 by done. lia.
  - exists rs', K', roots''. split_and!; [done|done|done|done|lia].
Qed.

Lemma search_mono i j rs K : i ≤ j → search i rs K → search j rs K.
Proof.
  intros Hij [A B C D E F G]. split; try done. intros r Hr Hl. specialize (F r Hr Hl). lia.
Qed.

Lemma leaves_loop_ok n : ∀ i rs K roots,
  search i rs K → roots_ok rs roots → few_trees rs → i + n = length rs →
  ∃ rs' K' roots', leaves_loop ft rs roots i n = Ok (rs', roots') ∧ search (i + n) rs' K' ∧
    roots_ok rs' roots' ∧ few_trees rs'.
Proof.
  induction n as [|n IH]; intros i rs K roots H HR HF Hn.
  { exists rs, K, roots. by rewrite Nat.add_0_r. }
  destruct (lookup_lt_is_Some_2 rs i) as [a Ha]; [lia|].
  cbn [leaves_loop]. rewrite Ha. cbn [mbind res_bind deref].
  assert (Hsi : search (S i) rs K) by (eapply search_mono; [|done]; lia).
  replace (i + S n) with (S i + n) in * by lia.
  destruct (is_leaf a) eqn:El; [|by eapply IH].
  destruct (fixed_lookup _ _ _ (search_fixed _ _ _ H) Ha) as (Hadj & Hfl & Hlt).
  assert (Hleaf : leaf i).
  { apply lookup_lt_is_Some in Hlt as [b Hb]. exists b. split; [done|]. unfold is_leaf in *.
    rewrite <-(adj_lookup _ _ _ Hb), Hadj. rewrite <-Hfl in El by done.
    unfold hasf in El. by rewrite (fl_lookup _ _ _ Hb) in El. }
  assert (Hnt : ¬ trav rs i) by (intros Ht; specialize (search_leaf _ _ _ H i Ht Hleaf); lia).
  pose proof (leaf_not_told _ _ _ _ H Hleaf) as Hk.
  destruct (search_level _ _ _ H _ _ Ha) as [Hl|Hl]; [|exfalso; apply Hnt; by exists a].
  rewrite Hl, (search_visited _ _ _ H _ _ Ha), Hk. cbn [assert_ mbind res_bind length Z.of_nat Z.eqb].
  change (NOT_TRAVERSED =? NOT_TRAVERSED)%Z with true. cbn [assert_ mbind res_bind].
  apply andb_true_iff in El as [Hlen%bool_decide_eq_true Hff%negb_true_iff].
  destruct (propagate_ok (S i) (length rs) rs K roots i) as (rs' & K' & roots' & E & H' & HR' & HF' & L');
    [done|done|done|lia|done| |lia|by left|by rewrite Hadj; destruct (adjacent_regions a)|apply length_filter|].
  - unfold all_told. rewrite Hk. rewrite Hadj, Hlen. unfold partly. rewrite Hfl by done.
    rewrite !has_flag_split in *. apply orb_false_elim in Hff as [_ [F1 [F2 _]%orb_false_elim]%orb_false_elim].
    by rewrite F1, F2.
  - rewrite E. cbn [mbind res_bind]. apply (IH (S i) rs' K' roots'); [done|done|done|lia].
Qed.
End search.

Lemma scan_ok ft source w h s :
  segmentable source w h → allocated s = true → width s = w → height s = h →
  length (regions_under_construction s) = 2 * w → max_adjacent_regions s < Z.to_nat 32768 →
  ∃ s1 L s2 roots, step_segmenter s source = Ok s1 ∧ segmented source w h s1 L ∧
    find_roots ft s1 = Ok (s2, roots) ∧ NoDup roots ∧
    (∀ r a, regions s2 !! r = Some a → level a = TRAVERSED →
      r ∈ roots ↔ wanted ft a || nearly ft a = true) ∧
    (∀ r, r ∈ roots → ∃ a, regions s2 !! r = Some a ∧ level a = TRAVERSED ∧ r ∈ L ∧
      has_flag (flags a) LOST_SYMBOL_FLAG = negb (wanted ft a)) ∧
    fixed_part <$> regions s2 = fixed_part <$> regions s1 ∧
    (length (regions s1) < Z.to_nat 32768 → ∃ F, forest (regions s2) F).
Proof.
  intros Himg Ha Hw Hh Hr Hmx.
  destruct (build_regions_ok source w h (max_adjacent_regions s) Himg s)
    as (s1 & L & E & Hlen & H); try done.
  pose proof (state_segmented source w h _ Himg s1 L H Hlen) as Hseg.
  pose proof (segmented_initial _ _ _ _ _ Hseg) as HI.
  exists s1, L.
  destruct (leaves_loop_ok ft (max_adjacent_regions s) (regions s1)) with
    (n := length (regions s1)) (i := 0) (rs := regions s1) (K := @nil (nat * nat)) (roots := @nil nat)
    as (rs' & K' & roots & El & S' & R' & T'); try done.
  { rewrite <-(state_max _ _ _ _ _ _ _ _ _ H). apply (segmented_graph _ _ _ _ _ Hseg). }
  { by eapply segmented_reaches_open. }
  { split; try done.
    - intros r a (? & _)%HI. by left.
    - by intros r a (_ & ? & _)%HI.
    - constructor.
    - by intros c p ?%elem_of_nil.
    - intros r (a & (Hl & _)%HI & Ht). by rewrite Hl in Ht.
    - intros r (a & (Hl & _)%HI & Ht). by rewrite Hl in Ht. }
  { split; [constructor|by intros r ?%elem_of_nil| |by intros r a ?%elem_of_nil|by intros r a (_ & _ & _ & ->)%HI].
    intros r a (Hl & _)%HI Ht. by rewrite Hl in Ht. }
  { intros _. exists []. split; [constructor|constructor| |by intros r a (_ & _ & ? & _)%HI| |by intros t u ?%elem_of_nil];
    intros r (a & (Hl & _)%HI & Ht); by rewrite Hl in Ht. }
  exists (set_regions rs' s1), roots. unfold step_segmenter. rewrite Ha, E. split_and!; [done|done| | | | |apply (search_fixed _ _ _ _ S')|exact T'].
  - unfold find_roots.
    assert (forallb initial_values (regions s1) = true) as ->.
    { apply forallb_forall. intros a Hin%list_elem_of_In. apply list_elem_of_lookup in Hin as [r Hin].
      destruct (HI _ _ Hin) as (E1 & E2 & E3 & _). unfold initial_values. by rewrite E1, E2, E3. }
    cbn [assert_ mbind res_bind]. by rewrite El.
  - apply (roots_NoDup _ _ _ R').
  - apply (roots_wanted _ _ _ R').
  - intros r Hin. pose proof (roots_trav _ _ _ R' _ Hin) as Ht. pose proof Ht as (a & Hra & Hl). exists a.
    split_and!; [done|done| |].
    2:{ destruct (wanted ft a) eqn:Ew; simpl; [|by apply (roots_lost _ _ _ R' r a)].
        destruct (has_flag (flags a) _) eqn:Ef; [|done]. destruct (roots_clear _ _ _ R' r a Hra Ef). congruence. }
    apply (search_live _ _ _ _ S') in Ht. unfold adj in Ht.
    destruct (regions s1 !! r) as [a0|] eqn:Ha0; [|done].
    destruct (decide (r ∈ L)); [done|]. exfalso. apply Ht. by apply (segmented_free _ _ _ _ _ Hseg r).
Qed.

(** C9: on the regions of any binary image, with lists that fit a short, the
    search for roots returns: no assertion of the traversal fails, so every
    region is traversed at most once and has at most one parent.  The list of roots
    holds, each once, exactly the traversed regions whose number of descendents and
    depth are in the range of the tracker or near it, only the latter
    marked as lost. *)
Theorem find_roots_safe ft source w h s :
  segmentable source w h → allocated s = true → width s = w → height s = h →
  length (regions_under_construction s) = 2 * w → max_adjacent_regions s < Z.to_nat 32768 →
  ∃ s1 L s2 roots, step_segmenter s source = Ok s1 ∧ segmented source w h s1 L ∧
    find_roots ft s1 = Ok (s2, roots) ∧ NoDup roots ∧
    (∀ r a, regions s2 !! r = Some a → level a = TRAVERSED →
      r ∈ roots ↔ wanted ft a || nearly ft a = true) ∧
    (∀ r, r ∈ roots → ∃ a, regions s2 !! r = Some a ∧ level a = TRAVERSED ∧ r ∈ L ∧
      has_flag (flags a) LOST_SYMBOL_FLAG = negb (wanted ft a)).
Proof.
  intros H1 H2 H3 H4 H5 H6.
  destruct (scan_ok ft source w h s) as (s1 & L & s2 & roots & ? & ? & ? & ? & ? & ? & _); eauto 12.
Qed.

Lemma find_roots_safe_witness :
  ∃ s1 L s2 roots, step_segmenter (initialize_segmenter true (replicate 10 7) 5 5 19) ring_image = Ok s1 ∧
    segmented ring_image 5 5 s1 L ∧
    find_roots (initialize_fidtrackerX 2 2 1 1) s1 = Ok (s2, roots) ∧ NoDup roots ∧
    (∀ r a, regions s2 !! r = Some a → level a = TRAVERSED →
      r ∈ roots ↔ wanted (initialize_fidtrackerX 2 2 1 1) a || nearly (initialize_fidtrackerX 2 2 1 1) a = true) ∧
    (∀ r, r ∈ roots → ∃ a, regions s2 !! r = Some a ∧ level a = TRAVERSED ∧ r ∈ L ∧
      has_flag (flags a) LOST_SYMBOL_FLAG = negb (wanted (initialize_fidtrackerX 2 2 1 1) a)).
Proof.
  apply (find_roots_safe (initialize_fidtrackerX 2 2 1 1) ring_image 5 5
    (initialize_segmenter true (replicate 10 7) 5 5 19));
    [exact ring_segmentable|reflexivity..|simpl; lia].
Defined.

(** The dark ring with its hole is found. *)
Example ring_found :
  (s ← step_segmenter (initialize_segmenter true (replicate 10 7) 5 5 19) ring_image;
   '(_, roots) ← find_roots (initialize_fidtrackerX 2 2 1 1) s; Ok roots) = Ok [1].
Proof. vm_compute. reflexivity. Qed.

(** The same ring without one of its corner pixels still encloses the hole and
    touches nothing but the hole and the frame; but the frame is twice in its list, so
    it is never traversed and not found. *)
Definition cut_ring_image : list Z :=
  [255; 255; 255; 255; 255;
   255; 0; 0; 0; 255;
   255; 0; 255; 0; 255;
   255; 255; 0; 0; 255;
   255; 255; 255; 255; 255]%Z.
Example cut_ring_missed :
  segmentable cut_ring_image 5 5 ∧
  (s ← step_segmenter (initialize_segmenter true (replicate 10 7) 5 5 19) cut_ring_image;
   '(_, roots) ← find_roots (initialize_fidtrackerX 2 2 1 1) s;
   Ok (adjacent_regions <$> regions s !! 1, roots)) = Ok (Some [0; 2; 0], []).
Proof.
  split; [split; [done|lia|lia|by apply (bool_decide_unpack _)]|vm_compute; reflexivity].
Qed.
