(* ===== verification/FidtrackSeen.v ===== *)
(** What the functions that compute a fiducial see of the regions below its root:
    [set_depth] and [sum_leaf_centers] of src/contrib/libfidtrack/fidtrackX.cpp walk through
    the tree of the root. *)
From S2P Require Import Prelude Numeric Segment SegmentGraph Fidtrack FidtrackX DepthString FidtrackForest.
Local Open Scope nat_scope.

(** ** The tree the code walks through *)

(** A region with one neighbour is a leaf; the children of another one are the
    traversed neighbours with fewer descendents, and it has at most one more
    neighbour. *)
Inductive seen (rs : list region) : option nat → rtree → Prop :=
  | seen_leaf up r a : rs !! r = Some a → is_single a = true → seen rs up (RNode r [])
  | seen_node up r ch a :
      rs !! r = Some a → is_single a = false → ch ≠ [] →
      adjacent_regions a ≡ₚ (root <$> ch) ++ option_list up →
      (∀ x, x ∈ root <$> ch → ∃ b, rs !! x = Some b ∧ is_below b a = true) →
      (∀ x, up = Some x → ∃ b, rs !! x = Some b ∧ (descendent_count b <? descendent_count a)%Z = false) →
      Forall (seen rs (Some r)) ch → seen rs up (RNode r ch).

(** A root with one neighbour is taken for a leaf, even when that neighbour is below
    it. *)
Definition trim (up : option nat) (t : rtree) : rtree :=
  match up, t with None, RNode r [_] => RNode r [] | _, _ => t end.

(** What the tree hangs on has more descendents. *)
Definition above (rs : list region) (up : option nat) (t : rtree) : Prop :=
  ∀ p, up = Some p → ∃ b, rs !! p = Some b ∧ (Z.of_nat (tree_size t) ≤ descendent_count b)%Z.

Definition lively (rs : list region) : Prop := ∀ r, trav rs r → adj rs r ≠ [].

Lemma length_single a up (ch : list rtree) :
  adjacent_regions a ≡ₚ (root <$> ch) ++ option_list up →
  is_single a = bool_decide (length ch + length (option_list up) = 1).
Proof. intros E. unfold is_single. apply bool_decide_ext. by rewrite E, length_app, length_fmap. Qed.

Lemma grown_seen rs t : ∀ up, lively rs → grown rs up t → above rs up t → seen rs up (trim up t).
Proof.
  induction t as [r ch IH] using rtree_nested_ind. intros up Hlive H Hup.
  pose proof H as Hg. inversion H as [? ? ? a Ha Hl Hd Hadj Hch]; subst.
  pose proof (length_single _ _ _ Hadj) as Hs.
  assert (Hne : length ch + length (option_list up) ≠ 0).
  { intros E. apply (Hlive r); [by exists a|]. rewrite (adj_lookup _ _ _ Ha). apply length_zero_iff_nil.
    by rewrite Hadj, length_app, length_fmap. }
  destruct (decide (length ch + length (option_list up) = 1)) as [E1|E1].
  - assert (trim up (RNode r ch) = RNode r []) as ->.
    { destruct up, ch as [|c [|c' ch]]; simpl in *; try done; lia. }
    apply (seen_leaf _ _ _ a); [done|]. by rewrite Hs, bool_decide_true.
  - assert (trim up (RNode r ch) = RNode r ch) as ->.
    { destruct up, ch as [|c [|c' ch]]; simpl in *; try done; lia. }
    apply (seen_node _ _ _ _ a); try done.
    + by rewrite Hs, bool_decide_false.
    + intros ->. destruct up; simpl in *; lia.
    + intros x (t & -> & Ht)%list_elem_of_fmap.
      destruct (grown_root _ _ _ (proj1 (Forall_forall _ _) Hch t Ht)) as (b & Hb & Hbl & Hbd & _).
      exists b. split; [done|]. unfold is_below. rewrite Hbl, Hbd, Hd, Z.eqb_refl. simpl. apply Z.ltb_lt.
      pose proof (size_child r ch t Ht). lia.
    + intros x ->. destruct (Hup x eq_refl) as (b & Hb & Hbd). exists b. split; [done|]. apply Z.ltb_ge. lia.
    + apply Forall_forall. intros t Ht. apply (proj1 (Forall_forall _ _) IH t Ht (Some r)); [done| |].
      * by apply (proj1 (Forall_forall _ _) Hch).
      * intros p [= <-]. exists a. split; [done|]. pose proof (size_child r ch t Ht). lia.
Qed.

(** The tree of a traversed region. *)
Lemma subtree_at rs t : ∀ up x,
  grown rs up t → above rs up t → x ∈ nodes t →
  ∃ up' u, root u = x ∧ u ∈ subtrees t ∧ grown rs up' u ∧ above rs up' u ∧ sublist (nodes u) (nodes t).
Proof.
  induction t as [r ch IH] using rtree_nested_ind. intros up x H Hup Hx.
  pose proof H as Hg. inversion H as [? ? ? a Ha Hl Hd Hadj Hch]; subst.
  simpl in Hx. apply elem_of_cons in Hx as [->|(t & Ht & Hx)%elem_concat_map].
  { exists up, (RNode r ch). split_and!; [done|simpl; by left|done|done|done]. }
  destruct (proj1 (Forall_forall _ _) IH t Ht (Some r) x) as (up' & u & E & Hu & G & A & N); [| |done|].
  - by apply (proj1 (Forall_forall _ _) Hch).
  - intros p [= <-]. exists a. split; [done|]. pose proof (size_child r ch t Ht). lia.
  - exists up', u. split_and!; [done| |done|done|].
    + simpl. right. apply elem_concat_map. eauto.
    + etrans; [exact N|]. simpl. apply sublist_cons. clear -Ht.
      induction Ht as [|y ch ? _ IH]; simpl; [apply sublist_inserts_r; done|by apply sublist_inserts_l].
Qed.

Lemma grown_count rs t : ∀ up x, grown rs up t → x ∈ nodes t →
  ∃ b, rs !! x = Some b ∧ (descendent_count b < Z.of_nat (tree_size t))%Z.
Proof.
  induction t as [r ch IH] using rtree_nested_ind. intros up x H Hx.
  inversion H as [? ? ? a Ha Hl Hd Hadj Hch]; subst.
  simpl in Hx. apply elem_of_cons in Hx as [->|(t & Ht & Hx)%elem_concat_map].
  - exists a. split; [done|lia].
  - destruct (proj1 (Forall_forall _ _) IH t Ht (Some r) x) as (b & Hb & Hlt); [|done|].
    + by apply (proj1 (Forall_forall _ _) Hch).
    + exists b. split; [done|]. pose proof (size_child r ch t Ht). lia.
Qed.

Lemma forest_tree rs F r :
  forest rs F → (∀ a b, edges rs a b = edges rs b a) → length rs < Z.to_nat 32768 → trav rs r →
  ∃ up t, root t = r ∧ grown rs up t ∧ above rs up t ∧ deep rs t ∧ NoDup (nodes t) ∧
    (∀ p, up = Some p → p ∉ nodes t) ∧
    (∀ u, u ∈ subtrees t → children u = [] → ∃ a, rs !! root u = Some a ∧ is_leaf a = true).
Proof.
  intros HF Hsym Hlen Hr. pose proof (forest_all _ _ HF r Hr) as (T & HT & Hx)%elem_all_nodes.
  destruct (proj1 (Forall_forall _ _) (forest_trees _ _ HF) T HT) as (D & up & G & U).
  assert (Hsub : ∀ t u v, u ∈ subtrees t → v ∈ subtrees u → v ∈ subtrees t).
  { clear. intros t. induction t as [r ch IH] using rtree_nested_ind. intros u v Hu Hv. simpl in Hu.
    apply elem_of_cons in Hu as [->|(t & Ht & Hu)%elem_concat_map]; [done|]. simpl. right.
    apply elem_concat_map. exists t. split; [done|]. by eapply (proj1 (Forall_forall _ _) IH t Ht). }
  assert (HTlen : tree_size T ≤ length rs).
  { etrans; [|apply (forest_bound _ _ HF)]. rewrite length_all_nodes. clear -HT.
    induction HT as [|? ? ? _ IH]; csimpl; lia. }
  assert (HA : above rs up T).
  { intros p ->. destruct (grown_root _ _ _ G) as (a & Ha & _ & _ & E).
    assert (Hp : p ∈ adj rs (root T)) by (rewrite (adj_lookup _ _ _ Ha), E; set_solver).
    rewrite edges_elem, Hsym, <-edges_elem in Hp. apply adj_in_range in Hp.
    apply lookup_lt_is_Some in Hp as [b Hb]. exists b. split; [done|].
    rewrite (forest_rest _ _ HF p b Hb); [lia|]. intros Hbl. apply (U p); [done|by exists b]. }
  destruct (subtree_at _ _ _ _ G HA Hx) as (up' & u & E & Hu & G' & A' & N).
  exists up', u. split_and!; try done.
  - apply Forall_forall. intros v Hv. apply (proj1 (Forall_forall _ _) D). by eapply Hsub.
  - eapply sublist_NoDup; [|exact N]. eapply sublist_NoDup; [apply (forest_once _ _ HF)|].
    unfold all_nodes. clear -HT. induction HT as [|y l ? _ IH]; simpl; [by apply sublist_inserts_r|by apply sublist_inserts_l].
  - intros p -> Hp. destruct (A' p eq_refl) as (b & Hb & Hbd).
    destruct (grown_count _ _ _ _ G' Hp) as (b' & Hb' & Hlt). rewrite Hb in Hb'. injection Hb' as <-. lia.
  - intros v Hv Hn. eapply (forest_leaves _ _ HF T v); [done|by eapply Hsub|done].
Qed.

(** ** Writes the tree does not depend on *)

Lemma is_single_same a b : same_node a b → is_single b = is_single a.
Proof. intros (_ & _ & E). unfold is_single. apply bool_decide_ext. by rewrite E. Qed.
Lemma is_below_same a a' b b' : same_node a a' → same_node b b' → is_below b' a' = is_below b a.
Proof. intros (_ & E2 & _) (E1 & E2' & _). unfold is_below. by rewrite E1, E2', E2. Qed.

Lemma seen_same rs rs' t : ∀ up, same_nodes rs rs' → seen rs up t → seen rs' up t.
Proof.
  induction t as [r ch IH] using rtree_nested_ind. intros up Hx H.
  assert (L : ∀ x b, rs !! x = Some b → ∃ b', rs' !! x = Some b' ∧ same_node b b').
  { intros x b Hb. apply same_some. rewrite <-Hb. apply Hx. }
  inversion H as [? ? a Ha Hs|? ? ? a Ha Hs Hne Hadj Hb Hup Hch]; subst; destruct (L _ _ Ha) as (a' & Ha' & S).
  - apply (seen_leaf _ _ _ a'); [done|]. by rewrite (is_single_same _ _ S).
  - apply (seen_node _ _ _ _ a'); try done.
    + by rewrite (is_single_same _ _ S).
    + by destruct S as (_ & _ & ->).
    + intros x Hin. destruct (Hb x Hin) as (b & Hbx & E). destruct (L _ _ Hbx) as (b' & Hb' & Sb).
      exists b'. by rewrite (is_below_same a a' b b').
    + intros x E. destruct (Hup x E) as (b & Hbx & El). destruct (L _ _ Hbx) as (b' & Hb' & _ & Eb & _).
      exists b'. split; [done|]. destruct S as (_ & Ea & _). by rewrite Ea, Eb.
    + apply Forall_forall. intros t Ht. apply (proj1 (Forall_forall _ _) IH t Ht); [done|].
      by apply (proj1 (Forall_forall _ _) Hch).
Qed.

(** ** Loops over the neighbours of a region *)

(** [Inv] holds of the children done so far and of the other neighbour, once it was
    met. *)
Lemma each_rule {S} (f : S → nat → res S) (Inv : list rtree → option nat → S → Prop) (ch : list rtree) up l s :
  l ≡ₚ (root <$> ch) ++ option_list up →
  Inv [] None s →
  (∀ done t rest u s, done ++ t :: rest ≡ₚ ch → Inv done u s → ∃ s', f s (root t) = Ok s' ∧ Inv (t :: done) u s') →
  (∀ done s p, up = Some p → Inv done None s → ∃ s', f s p = Ok s' ∧ Inv done (Some p) s') →
  ∃ s' done, each f l s = Ok s' ∧ done ≡ₚ ch ∧ Inv done up s'.
Proof.
  intros Hl H0 Hstep Hup.
  assert (G : ∀ l ch' up' done u s, l ≡ₚ (root <$> ch') ++ option_list up' → done ++ ch' ≡ₚ ch →
    (u = None ∧ up' = up ∨ u = up ∧ up' = None) → Inv done u s →
    ∃ s' done', each f l s = Ok s' ∧ done' ≡ₚ ch ∧ Inv done' up s').
  { clear Hl H0 l s. induction l as [|x l IH]; intros ch' up' done u s Hl Hd Hu HI.
    - apply Permutation_nil_l, eq_sym, app_eq_nil in Hl as [E1 E2]. destruct ch'; [|done].
      exists s, done. rewrite app_nil_r in Hd. split_and!; [done|done|].
      destruct up'; [done|]. by destruct Hu as [[-> <-]|[-> _]].
    - assert (Hx : x ∈ (root <$> ch') ++ option_list up') by (rewrite <-Hl; by left).
      apply elem_of_app in Hx as [(t & -> & Ht)%list_elem_of_fmap|Hx].
      + apply elem_of_Permutation in Ht as [rest Hr].
        destruct (Hstep done t rest u s) as (s' & E & HI'); [by rewrite <-Hd, Hr|done|].
        simpl. rewrite E. apply (IH rest up' (t :: done) u s'); [| |done|done].
        * rewrite Hr in Hl. csimpl in Hl. by apply Permutation_cons_inv in Hl.
        * rewrite <-Hd, Hr. simpl. apply Permutation_middle.
      + destruct up' as [p|]; simpl in Hx; [|by apply elem_of_nil in Hx].
        apply list_elem_of_singleton in Hx as ->.
        destruct Hu as [[-> E]|[_ ?]]; [|done].
        destruct (Hup done s p) as (s' & Ef & HI'); [done|done|]. simpl. rewrite Ef.
        apply (IH ch' None done (Some p) s'); [|done|by right|done]. simpl in *. rewrite app_nil_r.
        rewrite (comm (++)) in Hl. by apply Permutation_cons_inv in Hl. }
  apply (G l ch up [] None s); [done|done|by left|done].
Qed.

(** ** set_depth *)

Inductive marked (rs : list region) : nat → rtree → Prop :=
  | marked_node d r ch a :
      rs !! r = Some a → depth a = Z.of_nat d → Forall (marked rs (S d)) ch → marked rs d (RNode r ch).

Lemma marked_same rs rs' t : ∀ d,
  (∀ x, x ∈ nodes t → rs' !! x = rs !! x) → marked rs d t → marked rs' d t.
Proof.
  induction t as [r ch IH] using rtree_nested_ind. intros d Hx H. inversion H as [? ? ? a Ha Hd Hch]; subst.
  apply (marked_node _ _ _ _ a); [rewrite Hx; [done|simpl; by left]|done|].
  apply Forall_forall. intros t Ht. apply (proj1 (Forall_forall _ _) IH t Ht).
  - intros x Hin. apply Hx. simpl. right. by eapply nodes_child.
  - by apply (proj1 (Forall_forall _ _) Hch).
Qed.

Definition only_depth (rs rs' : list region) : Prop :=
  ∀ x, option_Forall2 (λ a b, ∃ z, b = with_depth z a) (rs !! x) (rs' !! x).
#[export] Instance only_depth_refl : Reflexive only_depth.
Proof. intros rs x. destruct (rs !! x) as [a|]; constructor. exists (depth a). by destruct a. Qed.
#[export] Instance only_depth_trans : Transitive only_depth.
Proof.
  intros r1 r2 r3 H1 H2 x. specialize (H1 x). specialize (H2 x).
  destruct H1 as [a b (z & ->)|]; inversion H2 as [? c (z' & ->)|]; constructor. by exists z'.
Qed.
Lemma only_depth_same rs rs' : only_depth rs rs' → same_nodes rs rs'.
Proof. intros H x. specialize (H x). destruct H as [a b (z & ->)|]; by constructor. Qed.
Lemma only_depth_insert rs r a z : rs !! r = Some a → only_depth rs (<[r:=with_depth z a]> rs).
Proof.
  intros Ha x. destruct (decide (x = r)) as [->|].
  - rewrite Ha, list_lookup_insert_eq by (by eapply lookup_lt_Some). constructor. by exists z.
  - rewrite list_lookup_insert_ne by done. apply only_depth_refl.
Qed.

Lemma NoDup_child r ch t : NoDup (nodes (RNode r ch)) → t ∈ ch → NoDup (nodes t) ∧ r ∉ nodes t.
Proof.
  simpl. intros [Hr H]%NoDup_cons Ht. split.
  - clear Hr. induction Ht as [t ch|t y ch _ IH]; simpl in H; apply NoDup_app in H as (H1 & _ & H2); auto.
  - intros Hin. apply Hr. by eapply nodes_child.
Qed.
Lemma NoDup_apart r ch done t rest u x :
  NoDup (nodes (RNode r ch)) → done ++ t :: rest ≡ₚ ch → u ∈ done → x ∈ nodes u → x ∉ nodes t.
Proof.
  simpl. intros [_ H]%NoDup_cons Hd Hu Hx Hin. rewrite <-(concat_map_perm _ _ _ Hd) in H.
  rewrite map_app, concat_app in H. apply NoDup_app in H as (_ & H & _). apply (H x); [by eapply nodes_child|].
  simpl. apply elem_of_app. by left.
Qed.
Lemma elem_mid {A} (done rest ch : list A) t : done ++ t :: rest ≡ₚ ch → t ∈ ch ∧ ∀ u, u ∈ done → u ∈ ch.
Proof. intros H. split; [|intros u Hu]; rewrite <-H; set_solver. Qed.

Lemma marked_perm rs d r ch ch' a :
  ch' ≡ₚ ch → rs !! r = Some a → depth a = Z.of_nat d → Forall (marked rs (S d)) ch' →
  marked rs d (RNode r ch).
Proof. intros Hp Ha Hd H. apply (marked_node _ _ _ _ a); [done|done|]. by rewrite <-Hp. Qed.

Lemma set_depth_run fuel : ∀ t up rs d,
  seen rs up t → NoDup (nodes t) → (∀ p, up = Some p → p ∉ nodes t) → tree_height t < fuel →
  (Z.of_nat d + Z.of_nat (tree_height t) < 32768)%Z →
  ∃ rs', set_depth fuel (Z.of_nat d) rs (root t) = Ok rs' ∧
    (∀ x, x ∉ nodes t → rs' !! x = rs !! x) ∧ only_depth rs rs' ∧ marked rs' d t.
Proof.
  induction fuel as [|fuel IH]; intros [r ch] up rs d H Hnd Hup Hf Hd; [lia|].
  cbn [set_depth root].
  assert (L : ∃ a, rs !! r = Some a) by (inversion H; eauto). destruct L as [a Ha].
  rewrite (upd_run _ _ _ _ Ha). cbn [mbind res_bind].
  set (a1 := with_depth (Z.of_nat d) a). set (rs1 := <[r:=a1]> rs).
  assert (Ha1 : rs1 !! r = Some a1) by (apply list_lookup_insert_eq; by eapply lookup_lt_Some).
  assert (O1 : only_depth rs rs1) by (by apply only_depth_insert).
  rewrite Ha1. cbn [deref mbind res_bind].
  inversion H as [? ? a0 Ha0 Hs|? ? ? a0 Ha0 Hs Hne Hadj Hb Hu Hch]; subst; rewrite Ha in Ha0; injection Ha0 as <-.
  { change (is_single a1) with (is_single a). rewrite Hs. exists rs1. split_and!; [done| |done|].
    - intros x Hx. apply list_lookup_insert_ne. set_solver.
    - by apply (marked_node _ _ _ _ a1). }
  change (is_single a1) with (is_single a). rewrite Hs. change (adjacent_regions a1) with (adjacent_regions a).
  change (descendent_count a1) with (descendent_count a).
  assert (Hch0 : ch ≠ [] → (Z.of_nat d + 1 < 32768)%Z).
  { intros. destruct ch as [|c ch]; [done|]. simpl in Hd. lia. }
  rewrite (to_short_small (Z.of_nat d + 1)) by (specialize (Hch0 Hne); lia).
  replace (Z.of_nat d + 1)%Z with (Z.of_nat (S d)) by lia.
  destruct (each_rule (λ rs x, b ← deref (rs !! x);
      if (descendent_count b <? descendent_count a)%Z then set_depth fuel (Z.of_nat (S d)) rs x else Ok rs)
    (λ done _ rs', only_depth rs rs' ∧ rs' !! r = Some a1 ∧
      (∀ x, x ∉ nodes (RNode r done) → rs' !! x = rs !! x) ∧ Forall (marked rs' (S d)) done)
    ch up (adjacent_regions a) rs1 Hadj) as (rs' & done & E & Pd & O & Hr & Hx & M).
  - split_and!; [done|done| |constructor]. intros x Hx. apply list_lookup_insert_ne. set_solver.
  - intros done t rest u rs2 Hp (O & Hr & Hx & M). destruct (elem_mid _ _ _ _ Hp) as [Ht Hdone].
    destruct (NoDup_child _ _ _ Hnd Ht) as [Hnt Hrt].
    assert (St : seen rs2 (Some r) t).
    { eapply seen_same; [by apply only_depth_same|]. by apply (proj1 (Forall_forall _ _) Hch). }
    destruct (Hb (root t)) as (b & Hbx & Hbelow); [by apply list_elem_of_fmap; eauto|].
    assert (Hb2 : rs2 !! root t = Some b).
    { rewrite Hx; [done|]. intros Hin. simpl in Hin. apply elem_of_cons in Hin as [Er|Hin].
      - apply Hrt. rewrite <-Er. apply root_nodes.
      - apply elem_concat_map in Hin as (u' & Hu' & Hin). eapply (NoDup_apart _ _ _ _ _ _ _ Hnd Hp Hu' Hin).
        apply root_nodes. }
    rewrite Hb2. cbn [deref mbind res_bind].
    apply andb_true_iff in Hbelow as [_ Hlt]. rewrite Hlt.
    pose proof (tree_height_child r ch t Ht).
    destruct (IH t (Some r) rs2 (S d)) as (rs3 & E & Hx3 & O3 & M3); try done.
    + by intros p [= <-]. + lia. + lia.
    + exists rs3. split_and!; [done|by etrans| | |].
      * by rewrite Hx3.
      * intros x Hin. rewrite Hx3, Hx; [done|set_solver|set_solver].
      * constructor; [done|]. apply Forall_forall. intros u' Hu'.
        apply (marked_same rs2); [|by apply (proj1 (Forall_forall _ _) M)].
        intros x Hin. apply Hx3. by eapply NoDup_apart.
  - intros done rs2 p -> (O & Hr & Hx & M). destruct (Hu p eq_refl) as (b & Hbx & Hlt).
    specialize (O p) as Op. rewrite Hbx in Op. inversion Op as [? b' (z & ->) Eb Eb'|]; subst.
    cbn [deref mbind res_bind].
    change (descendent_count (with_depth z b)) with (descendent_count b). rewrite Hlt. by exists rs2.
  - exists rs'. split_and!; [done| |done|].
    + intros x Hin. apply Hx. intros Hin'. apply Hin. simpl in *.
      by rewrite <-(concat_map_perm nodes _ _ Pd).
    + by eapply (marked_perm _ _ _ _ done a1).
Qed.

(** ** sum_leaf_centers *)

Fixpoint leaf_nodes (t : rtree) : list nat :=
  match t with RNode r ch => match ch with [] => [r] | _ => concat (map leaf_nodes ch) end end.

Lemma each_app {S} (f : S → nat → res S) l k : ∀ s, each f (l ++ k) s = (s ← each f l s; each f k s).
Proof.
  induction l as [|x l IH]; intros s; [done|]. simpl. destruct (f s x) as [s'|]; [|done]. apply IH.
Qed.

Lemma each_flat {S} (f g : S → nat → res S) (ch : list rtree) up l :
  l ≡ₚ (root <$> ch) ++ option_list up →
  (∀ t, t ∈ ch → ∃ ls, ls ≡ₚ leaf_nodes t ∧ ∀ s, f s (root t) = each g ls s) →
  (∀ p s, up = Some p → f s p = Ok s) →
  ∃ ls, ls ≡ₚ concat (map leaf_nodes ch) ∧ ∀ s, each f l s = each g ls s.
Proof.
  revert ch up. induction l as [|x l IH]; intros ch up Hl Hch Hup.
  - apply Permutation_nil_l, eq_sym, app_eq_nil in Hl as [E _]. destruct ch; [|done]. by exists [].
  - assert (Hx : x ∈ (root <$> ch) ++ option_list up) by (rewrite <-Hl; by left).
    apply elem_of_app in Hx as [(t & -> & Ht)%list_elem_of_fmap|Hx].
    + destruct (Hch t Ht) as (k & Hk & Ek). apply elem_of_Permutation in Ht as [rest Hr].
      destruct (IH rest up) as (ls & Hls & E); [| |done|].
      * rewrite Hr in Hl. csimpl in Hl. by apply Permutation_cons_inv in Hl.
      * intros u Hu. apply Hch. rewrite Hr. by right.
      * exists (k ++ ls). split; [rewrite (concat_map_perm _ _ _ Hr), Hk, Hls; done|].
        intros s. rewrite each_app. simpl. rewrite Ek. destruct (each g k s) as [s'|]; [apply E|done].
    + destruct up as [p|]; simpl in Hx; [|by apply elem_of_nil in Hx].
      apply list_elem_of_singleton in Hx as ->.
      destruct (IH ch None) as (ls & Hls & E); [|done|done|].
      * simpl in *. rewrite app_nil_r. rewrite (comm (++)) in Hl. by apply Permutation_cons_inv in Hl.
      * exists ls. split; [done|]. intros s. simpl. rewrite (Hup p s) by done. apply E.
Qed.

(** The sums are those of the leaves of the tree, in some order. *)
Lemma sum_leaf_centers_run fuel warp w h rs : ∀ t up,
  seen rs up t → tree_height t < fuel →
  ∃ ls, ls ≡ₚ leaf_nodes t ∧ ∀ s, sum_leaf_centers fuel warp w h rs s (root t) =
    each (λ s x, a ← deref (rs !! x); add_leaf warp w h a s) ls s.
Proof.
  induction fuel as [|fuel IH]; intros [r ch] up H Hf; [lia|].
  inversion H as [? ? a Ha Hs|? ? ? a Ha Hs Hne Hadj Hb Hu Hch]; subst.
  { exists [r]. split; [done|]. intros s. cbn [sum_leaf_centers root each]. rewrite Ha.
    cbn [deref mbind res_bind]. rewrite Hs. by destruct (add_leaf _ _ _ _ _). }
  destruct (each_flat (λ s x, b ← deref (rs !! x);
      if is_below b a then sum_leaf_centers fuel warp w h rs s x else Ok s)
    (λ s x, a ← deref (rs !! x); add_leaf warp w h a s) ch up (adjacent_regions a) Hadj)
    as (ls & Hls & E).
  - intros t Ht. pose proof (tree_height_child r ch t Ht).
    destruct (IH t (Some r)) as (ls & Hls & E); [by apply (proj1 (Forall_forall _ _) Hch)|lia|].
    exists ls. split; [done|]. intros s.
    destruct (Hb (root t)) as (b & Hbx & Hbelow); [by apply list_elem_of_fmap; eauto|].
    rewrite Hbx. cbn [deref mbind res_bind]. rewrite Hbelow. apply E.
  - intros p s Ep. destruct (Hu p Ep) as (b & Hbx & Hlt). rewrite Hbx. cbn [deref mbind res_bind].
    unfold is_below. by rewrite Hlt, andb_false_r.
  - exists ls. split; [by destruct ch|]. intros s. cbn [sum_leaf_centers root]. rewrite Ha.
    cbn [deref mbind res_bind]. rewrite Hs. apply E.
Qed.
