(* ===== verification/FidtrackStrings.v ===== *)
(** [build_left_heavy_depth_string] of src/contrib/libfidtrack/fidtrackX.cpp writes the
    string of the tree it sees, inside the block that was allocated for it. *)
From stdpp Require Import sorting.
From S2P Require Import Prelude Numeric Segment SegmentGraph Fidtrack FidtrackX DepthString FidtrackForest FidtrackSeen.
Local Open Scope nat_scope.

(** ** Strings in memory *)

Record holds (mem : list ascii) (p : nat) (str : list ascii) : Prop := Holds {
  holds_char j c : str !! j = Some c → mem !! (p + j) = Some c;
  holds_end : mem !! (p + length str) = Some NUL;
  holds_nul : NUL ∉ str;
}.
Record written (mem mem' : list ascii) (p : nat) (str : list ascii) : Prop := Written {
  written_length : length mem' = length mem;
  written_char j c : str !! j = Some c → mem' !! (p + j) = Some c;
  written_rest q : q < p ∨ p + length str ≤ q → mem' !! q = mem !! q;
}.

Lemma holds_cons mem p c str : holds mem p (c :: str) → mem !! p = Some c ∧ c ≠ NUL ∧ holds mem (S p) str.
Proof.
  intros [H1 H2 H3]. split_and!.
  - rewrite <-(Nat.add_0_r p). by apply H1.
  - intros ->. apply H3. by left.
  - split.
    + intros j e He. replace (S p + j) with (p + S j) by lia. by apply H1.
    + by replace (S p + length str) with (p + length (c :: str)) by (simpl; lia).
    + intros ?. apply H3. by right.
Qed.
Lemma holds_same mem mem' p str :
  (∀ q, p ≤ q ≤ p + length str → mem' !! q = mem !! q) → holds mem p str → holds mem' p str.
Proof.
  intros E [H1 H2 H3]. split; [|by rewrite E by lia|done].
  intros j c Hj. pose proof (lookup_lt_Some _ _ _ Hj). rewrite E by lia. by apply H1.
Qed.
Lemma holds_bound mem p str : holds mem p str → p + length str < length mem.
Proof. intros H. eapply lookup_lt_Some, holds_end, H. Qed.

Lemma string_at_holds mem p str : holds mem p str → string_at mem p = Ok str.
Proof.
  unfold string_at. revert p. induction str as [|c str IH]; intros p H.
  - pose proof (holds_end _ _ _ H) as E. simpl in E. rewrite Nat.add_0_r in E.
    by rewrite (drop_S _ _ _ E).
  - apply holds_cons in H as (Hc & Hn & H). rewrite (drop_S _ _ _ Hc). simpl.
    rewrite bool_decide_false by done. by rewrite (IH _ H).
Qed.

Lemma write_char_run mem p c : p < length mem → write_char mem p c = Ok (<[p:=c]> mem).
Proof. intros H. unfold write_char. by rewrite decide_True. Qed.

Lemma copy_depth_string_run fuel : ∀ str mem p p2,
  holds mem p2 str → length str < fuel → p + length str ≤ length mem →
  p + length str ≤ p2 ∨ p2 + length str < p →
  ∃ mem', copy_depth_string fuel mem p p2 = Ok (mem', p + length str) ∧ written mem mem' p str.
Proof.
  induction fuel as [|fuel IH]; intros str mem p p2 H Hf Hp Hd; [lia|]. cbn [copy_depth_string].
  destruct str as [|c str].
  - pose proof (holds_end _ _ _ H) as E. simpl in E. rewrite Nat.add_0_r in E. rewrite E. simpl.
    exists mem. rewrite Nat.add_0_r. split; [done|]. by split.
  - pose proof H as (Hc & Hn & H')%holds_cons. rewrite Hc. cbn [deref mbind res_bind].
    rewrite bool_decide_false by done. simpl in *. rewrite write_char_run by lia. cbn [mbind res_bind].
    destruct (IH str (<[p:=c]> mem) (S p) (S p2)) as (mem' & E & W); [|lia|rewrite length_insert; lia|lia|].
    { eapply holds_same; [|done]. intros q Hq. apply list_lookup_insert_ne. lia. }
    exists mem'. rewrite E. split; [by rewrite Nat.add_succ_r|]. destruct W as [W1 W2 W3]. split.
    + by rewrite W1, length_insert.
    + intros [|j] e He; simpl in He.
      * injection He as <-. rewrite Nat.add_0_r, W3 by lia. apply list_lookup_insert_eq. lia.
      * replace (p + S j) with (S p + j) by lia. by apply W2.
    + intros q Hq. simpl in Hq. rewrite W3 by lia. apply list_lookup_insert_ne. lia.
Qed.

(** ** Sorting the children *)

Lemma depth_string_cmp_total a b : (depth_string_cmp a b ≤ 0 ∨ depth_string_cmp b a ≤ 0)%Z.
Proof.
  unfold depth_string_cmp. destruct a as [x [s|]], b as [y [t|]]; simpl; try lia.
  rewrite (strcmp_opp s t). lia.
Qed.
Lemma depth_string_cmp_trans a b c :
  (depth_string_cmp a b ≤ 0 → depth_string_cmp b c ≤ 0 → depth_string_cmp a c ≤ 0)%Z.
Proof.
  unfold depth_string_cmp. destruct a as [x [s|]], b as [y [t|]], c as [z [u|]]; simpl; try lia.
  intros H1 H2. assert (left_heavy s u); [|unfold left_heavy in *; lia].
  etrans; [|unfold left_heavy; instantiate (1 := t)]; unfold left_heavy; lia.
Qed.

Lemma sorted_strings (k : nat → option (list ascii)) l :
  StronglySorted (λ a b, depth_string_cmp a b ≤ 0)%Z ((λ x, (x, k x)) <$> l) →
  Sorted left_heavy (omap k l).
Proof.
  intros H. apply StronglySorted_Sorted. induction l as [|x l IH]; [constructor|].
  csimpl in H. inversion H as [|? ? Hl Hx]; subst. csimpl. specialize (IH Hl).
  destruct (k x) as [s|] eqn:E; [|done]. constructor; [done|]. apply Forall_forall.
  intros t (y & Hy & Et)%list_elem_of_omap.
  assert (depth_string_cmp (x, Some s) (y, k y) ≤ 0)%Z as Hc.
  { apply (proj1 (Forall_forall _ _) Hx (y, k y)). apply list_elem_of_fmap. eauto. }
  rewrite Et in Hc. unfold depth_string_cmp in Hc. simpl in Hc. unfold left_heavy. lia.
Qed.

Lemma omap_perm {A B} (k : A → option B) l l' : l ≡ₚ l' → omap k l ≡ₚ omap k l'.
Proof.
  induction 1; csimpl; [done|by destruct (k x); f_equiv| |by etrans].
  destruct (k x), (k y); try done. apply Permutation_swap.
Qed.

(** The key [qsort] uses for a region. *)
Definition key (s : builder) (x : nat) : option (list ascii) :=
  match bd_strings s !! x with
  | Some p => match string_at (bd_mem s) p with Ok str => Some str | _ => None end
  | None => None
  end.
Definition readable (s : builder) (x : nat) : Prop :=
  ∀ p, bd_strings s !! x = Some p → ∃ str, holds (bd_mem s) p str.

Lemma depth_strings_of_run s l :
  Forall (readable s) l → depth_strings_of s l = Ok ((λ x, (x, key s x)) <$> l).
Proof.
  induction 1 as [|x l Hx _ IH]; [done|]. csimpl. unfold key at 1.
  destruct (bd_strings s !! x) as [p|] eqn:E; cbn [mbind res_bind]; [|by rewrite IH].
  destruct (Hx p E) as (str & Hs%string_at_holds). rewrite Hs. simpl. by rewrite IH.
Qed.

(** The order [qsort] leaves. *)
Lemma sort_children `{Qsort} s l :
  let l' := (qsort depth_string_cmp ((λ x, (x, key s x)) <$> l)).*1 in
  l' ≡ₚ l ∧ omap (key s) l' = merge_sort left_heavy (omap (key s) l).
Proof.
  set (ks := (λ x, (x, key s x)) <$> l). set (srt := qsort depth_string_cmp ks).
  assert (P : srt ≡ₚ ks) by apply qsort_perm.
  assert (E : srt = (λ x, (x, key s x)) <$> srt.*1).
  { assert (F : Forall (λ e, e.2 = key s e.1) srt).
    { rewrite P. apply Forall_fmap, Forall_true. done. }
    clearbody srt. clear P. induction F as [|[x k] srt Hx _ IH]; [done|]. csimpl in *. by f_equal; [rewrite Hx|]. }
  assert (P1 : srt.*1 ≡ₚ l).
  { rewrite P. unfold ks. by rewrite <-list_fmap_compose, list_fmap_id. }
  split; [done|]. apply sorted_unique; [|by apply omap_perm].
  apply sorted_strings. rewrite <-E. apply qsort_sorted; [apply depth_string_cmp_total|].
  intros a b c. apply depth_string_cmp_trans.
Qed.

(** ** Joining the strings of the children *)

Lemma written_nil mem p : written mem mem p [].
Proof. by split. Qed.
Lemma written_app mem mem1 mem2 p s t :
  written mem mem1 p s → written mem1 mem2 (p + length s) t → written mem mem2 p (s ++ t).
Proof.
  intros [A1 A2 A3] [B1 B2 B3]. split; [congruence| |].
  - intros j c Hj. destruct (decide (j < length s)) as [Hlt|Hge].
    + rewrite lookup_app_l in Hj by done. rewrite B3 by lia. by apply A2.
    + rewrite lookup_app_r in Hj by lia. replace (p + j) with (p + length s + (j - length s)) by lia. by apply B2.
  - intros q Hq. rewrite length_app in Hq. rewrite B3 by lia. apply A3. lia.
Qed.

Lemma append_run (top : nat) l : ∀ s p,
  NoDup l → (∀ x p2, x ∈ l → bd_strings s !! x = Some p2 → top ≤ p2 ∧ ∃ str, holds (bd_mem s) p2 str) →
  p + length (concat (omap (key s) l)) ≤ top → top ≤ length (bd_mem s) →
  ∃ s', each append_string l (s, p) = Ok (s', p + length (concat (omap (key s) l))) ∧
    written (bd_mem s) (bd_mem s') p (concat (omap (key s) l)) ∧
    bd_regions s' = bd_regions s ∧ next_depth_string s' = next_depth_string s ∧
    ∀ x, x ∉ l → bd_strings s' !! x = bd_strings s !! x.
Proof.
  induction l as [|x l IH]; intros s p Hnd Hl Hp Ht.
  { exists s. simpl. rewrite Nat.add_0_r. split_and!; [done|apply written_nil|done..]. }
  apply NoDup_cons in Hnd as [Hx Hnd]. cbn [each]. unfold append_string at 1. csimpl in *.
  destruct (bd_strings s !! x) as [p2|] eqn:E.
  2:{ assert (key s x = None) as Ek by (unfold key; by rewrite E). rewrite Ek in *. cbn [mbind res_bind].
      destruct (IH s p) as (s' & Es & W & R & N & Q); [done|intros y p2 Hy; apply (Hl y p2); by right|done|done|].
      exists s'. split_and!; try done. intros y Hy. apply Q. set_solver. }
  destruct (Hl x p2) as (Hge & str & Hs); [by left|done|].
  assert (key s x = Some str) as Ek by (unfold key; by rewrite E, (string_at_holds _ _ _ Hs)).
  rewrite Ek in *. csimpl in *. rewrite length_app in *. pose proof (holds_bound _ _ _ Hs).
  destruct (copy_depth_string_run (length (bd_mem s)) str (bd_mem s) p p2) as (mem & Ec & W); [done|lia|lia|lia|].
  rewrite Ec. cbn [mbind res_bind]. set (s1 := with_string x None (with_mem mem s)).
  assert (Hs1 : ∀ y, y ≠ x → bd_strings s1 !! y = bd_strings s !! y) by (intros; by apply lookup_delete_ne).
  assert (Hh : ∀ y p3 u, y ∈ l → bd_strings s !! y = Some p3 → holds (bd_mem s) p3 u → holds mem p3 u).
  { intros y p3 u Hy Ey Hu. destruct (Hl y p3) as [? _]; [by right|done|].
    eapply holds_same; [|done]. intros q Hq. apply W. lia. }
  assert (Hk : omap (key s1) l = omap (key s) l).
  { apply list_omap_ext. apply Forall_Forall2_diag, Forall_forall. intros y Hy. unfold key.
    rewrite Hs1 by (by intros ->). destruct (bd_strings s !! y) as [p3|] eqn:Ey; [|done].
    destruct (Hl y p3) as (_ & u & Hu); [by right|done|].
    change (bd_mem s1) with mem.
    by rewrite (string_at_holds _ _ _ Hu), (string_at_holds _ _ _ (Hh _ _ _ Hy Ey Hu)). }
  destruct (IH s1 (p + length str)) as (s' & Es & W' & R & N & Q).
  - done.
  - intros y p3 Hy. rewrite Hs1 by (by intros ->). intros Ey.
    destruct (Hl y p3) as (? & u & Hu); [by right|done|]. split; [done|]. exists u. by eapply Hh.
  - rewrite Hk. lia.
  - change (bd_mem s1) with mem. rewrite (written_length _ _ _ _ W). lia.
  - rewrite Hk in *. exists s'. split_and!; [fold append_string; by rewrite Es, Nat.add_assoc|by eapply written_app|done|done|].
    intros y [Hyx Hy]%not_elem_of_cons. by rewrite Q, Hs1.
Qed.

(** ** Building the string of a tree *)

(** The lists of neighbours may be in another order. *)
Definition reordered (rs rs' : list region) : Prop :=
  ∀ x, option_Forall2 (λ a b, ∃ l, l ≡ₚ adjacent_regions a ∧ b = set_adjacent_regions l a) (rs !! x) (rs' !! x).
#[export] Instance reordered_refl : Reflexive reordered.
Proof. intros rs x. destruct (rs !! x) as [a|]; constructor. exists (adjacent_regions a). by destruct a. Qed.
#[export] Instance reordered_trans : Transitive reordered.
Proof.
  intros r1 r2 r3 H1 H2 x. specialize (H1 x). specialize (H2 x).
  destruct H1 as [a b (l & Hl & ->)|]; inversion H2 as [? c (l' & Hl' & ->)|]; constructor.
  exists l'. split; [by rewrite Hl', <-Hl|done].
Qed.
Lemma reordered_same rs rs' : reordered rs rs' → same_nodes rs rs'.
Proof. intros H x. specialize (H x). destruct H as [a b (l & Hl & ->)|]; by constructor. Qed.
Lemma reordered_insert rs r a l :
  rs !! r = Some a → l ≡ₚ adjacent_regions a → reordered rs (<[r:=set_adjacent_regions l a]> rs).
Proof.
  intros Ha Hl x. destruct (decide (x = r)) as [->|].
  - rewrite Ha, list_lookup_insert_eq by (by eapply lookup_lt_Some). constructor. by exists l.
  - rewrite list_lookup_insert_ne by done. apply reordered_refl.
Qed.
Lemma reordered_marked rs rs' t : ∀ d, reordered rs rs' → marked rs d t → marked rs' d t.
Proof.
  induction t as [r ch IH] using rtree_nested_ind. intros d O H. inversion H as [? ? ? a Ha Hd Hch]; subst.
  specialize (O r) as Or. rewrite Ha in Or. inversion Or as [? b (l & _ & ->) Eb Eb'|]; subst.
  eapply marked_node; [by rewrite <-Eb'|done|]. apply Forall_forall. intros t Ht.
  apply (proj1 (Forall_forall _ _) IH t Ht); [done|]. by apply (proj1 (Forall_forall _ _) Hch).
Qed.

Section build.
Context `{Qsort} (len : nat).

(** What building the string of [t] in row [next_depth_string s] leaves behind. *)
Record built (s s' : builder) (up : option nat) (t : rtree) (d : nat) : Prop := Built {
  built_next : next_depth_string s' = next_depth_string s + tree_size t;
  built_length : length (bd_mem s') = length (bd_mem s);
  built_string : holds (bd_mem s') (len * next_depth_string s) (dstring d t);
  built_rest q : q < len * next_depth_string s ∨ len * next_depth_string s' ≤ q →
    bd_mem s' !! q = bd_mem s !! q;
  built_order : reordered (bd_regions s) (bd_regions s');
  built_outside x : x ∉ nodes t → bd_regions s' !! x = bd_regions s !! x;
  built_strings x : x ∉ nodes t → up ≠ Some x → bd_strings s' !! x = bd_strings s !! x;
}.

Definition builds (fuel : nat) (t : rtree) : Prop := ∀ up s d,
  seen (bd_regions s) up t → marked (bd_regions s) d t → NoDup (nodes t) →
  (∀ p, up = Some p → p ∉ nodes t) → d + tree_height t ≤ max_char_depth → tree_size t < len →
  len * (next_depth_string s + tree_size t) ≤ length (bd_mem s) →
  ∃ s', build_left_heavy_depth_string len fuel s (root t) = Ok (s', len * next_depth_string s) ∧
    built s s' up t d.

(** The first loop, after the children [done] and perhaps the other neighbour [u]. *)
Record children_built (s0 : builder) (r : nat) (up : option nat) (d : nat)
    (done : list rtree) (u : option nat) (s : builder) : Prop := ChildrenBuilt {
  cb_next : next_depth_string s = next_depth_string s0 + sum_list (tree_size <$> done);
  cb_length : length (bd_mem s) = length (bd_mem s0);
  cb_strings : Forall (λ t, ∃ m, bd_strings s !! root t = Some (len * m) ∧
    next_depth_string s0 ≤ m < next_depth_string s ∧ holds (bd_mem s) (len * m) (dstring (S d) t)) done;
  cb_other p : u = Some p → bd_strings s !! p = None;
  cb_rest q : q < len * next_depth_string s0 ∨ len * next_depth_string s ≤ q →
    bd_mem s !! q = bd_mem s0 !! q;
  cb_order : reordered (bd_regions s0) (bd_regions s);
  cb_outside x : x ∉ all_nodes done → bd_regions s !! x = bd_regions s0 !! x;
  cb_elsewhere x : x ∉ nodes (RNode r done) → up ≠ Some x → bd_strings s !! x = bd_strings s0 !! x;
}.

(** The neighbour that is not below has no string. *)
Lemma other_met s0 r p d done s :
  children_built s0 r (Some p) d done None s → (∀ t, t ∈ done → root t ≠ p) →
  children_built s0 r (Some p) d done (Some p) (with_string p None s).
Proof.
  intros [C1 C2 C3 C4 C5 C6 C7 C8] Hp. split; simpl; try done.
  - apply Forall_forall. intros t Ht. destruct (proj1 (Forall_forall _ _) C3 t Ht) as (m & E & ? & ?).
    exists m. split_and!; [|lia|lia|done]. rewrite lookup_delete_ne; [done|]. intros Ep. by apply (Hp t).
  - intros q [= <-]. apply lookup_delete_eq.
  - intros x Hx Hxp. rewrite lookup_delete_ne; [by apply C8|congruence].
Qed.

Lemma sum_size_mid done t rest ch :
  done ++ t :: rest ≡ₚ ch → sum_list (tree_size <$> done) + tree_size t ≤ sum_list (tree_size <$> ch).
Proof.
  intros Hp. rewrite <-!length_all_nodes. unfold all_nodes at 2.
  rewrite <-(concat_map_perm nodes _ _ Hp). fold (all_nodes (done ++ t :: rest)).
  rewrite all_nodes_app, length_app, (length_all_nodes (t :: rest)). csimpl. lia.
Qed.

Lemma child_built fuel s0 r up d ch done t rest u s :
  NoDup (nodes (RNode r ch)) → (∀ p, up = Some p → p ∉ nodes (RNode r ch)) → (u = None ∨ u = up) →
  done ++ t :: rest ≡ₚ ch → builds fuel t → children_built s0 r up d done u s →
  seen (bd_regions s0) (Some r) t → marked (bd_regions s0) (S d) t →
  S d + tree_height t ≤ max_char_depth → tree_size (RNode r ch) < len →
  len * (next_depth_string s0 + sum_list (tree_size <$> ch)) ≤ length (bd_mem s0) →
  ∃ s', build_left_heavy_depth_string len fuel s (root t) = Ok (s', len * next_depth_string s) ∧
    children_built s0 r up d (t :: done) u (with_string (root t) (Some (len * next_depth_string s)) s').
Proof.
  intros Hnd Hup Hu Hp Hb [C1 C2 C3 C4 C5 C6 C7 C8] Hs Hm Hd Hsz Hlen.
  destruct (elem_mid _ _ _ _ Hp) as [Ht Hdone]. destruct (NoDup_child _ _ _ Hnd Ht) as [Hnt Hrt].
  pose proof (sum_size_mid _ _ _ _ Hp) as Hsum.
  destruct (Hb (Some r) s (S d)) as (s' & E & [B1 B2 B3 B4 B5 B6 B7]); try done.
  { eapply seen_same; [by apply reordered_same|done]. }
  { by eapply reordered_marked. }
  { by intros p [= <-]. }
  { pose proof (size_child r ch t Ht). lia. }
  { rewrite C1, C2. etrans; [|exact Hlen]. apply Nat.mul_le_mono_l. lia. }
  assert (Hrow : ∀ m, m < next_depth_string s → len * m + len ≤ len * next_depth_string s) by nia.
  exists s'. split; [done|].
  split; cbn [with_string bd_mem bd_strings bd_regions next_depth_string].
  - csimpl. rewrite B1, C1. lia.
  - congruence.
  - constructor.
    + exists (next_depth_string s). rewrite lookup_insert_eq. split_and!; [done|lia| |done].
      destruct t. rewrite B1, size_node. lia.
    + apply Forall_forall. intros v Hv. destruct (proj1 (Forall_forall _ _) C3 v Hv) as (m & Em & Hmr & Hh).
      assert (Hapart : ∀ x, x ∈ nodes v → x ∉ nodes t) by (intros x Hx; by eapply NoDup_apart).
      exists m. split_and!; [|lia|lia|].
      * rewrite lookup_insert_ne.
        { rewrite B7; [done|by apply Hapart, root_nodes|]. intros [= ->].
          destruct (NoDup_child _ _ _ Hnd (Hdone _ Hv)) as [_ Hrv]. apply Hrv, root_nodes. }
        intros Ev. apply (Hapart (root v)); [apply root_nodes|]. rewrite <-Ev. apply root_nodes.
      * eapply holds_same; [|done]. intros q Hq. apply B4. left. rewrite length_dstring in Hq.
        specialize (Hrow m ltac:(lia)).
        pose proof (size_child r ch v (Hdone _ Hv)). lia.
  - intros p Ep. assert (Hpn : p ∉ nodes (RNode r ch)) by (apply Hup; destruct Hu; congruence).
    rewrite lookup_insert_ne.
    + rewrite B7; [by apply C4| |].
      * intros Hin. apply Hpn. simpl. right. by eapply nodes_child.
      * intros [= ->]. apply Hpn. simpl. by left.
    + intros <-. apply Hpn. simpl. right. eapply nodes_child; [done|apply root_nodes].
  - intros q Hq. rewrite B4; [apply C5|]; nia.
  - by etrans.
  - intros x Hx. unfold all_nodes in Hx. simpl in Hx. rewrite B6, C7; [done| |]; set_solver.
  - intros x Hx Hxu. rewrite lookup_insert_ne.
    + rewrite B7, C8; [done| |done| |]; simpl in *; set_solver.
    + intros <-. apply Hx. simpl. right. apply elem_of_app. left. apply root_nodes.
Qed.

(** All children are built: what [qsort] and the last loop work on. *)
Lemma children_keys s0 r up d ch done s l :
  children_built s0 r up d done up s → done ≡ₚ ch → l ≡ₚ (root <$> ch) ++ option_list up →
  omap (key s) l ≡ₚ map (dstring (S d)) ch ∧ Forall (readable s) l ∧
  ∀ x p2, x ∈ l → bd_strings s !! x = Some p2 → len * next_depth_string s0 ≤ p2.
Proof.
  intros C Hd Hl. pose proof (cb_strings _ _ _ _ _ _ _ C) as Cs. rewrite Hd in Cs.
  assert (Hch : ∀ t, t ∈ ch → ∃ m, bd_strings s !! root t = Some (len * m) ∧
    next_depth_string s0 ≤ m ∧ holds (bd_mem s) (len * m) (dstring (S d) t)).
  { intros t Ht. destruct (proj1 (Forall_forall _ _) Cs t Ht) as (m & ? & ? & ?). exists m. split_and!; [done|lia|done]. }
  assert (Hup : ∀ p, up = Some p → bd_strings s !! p = None) by apply (cb_other _ _ _ _ _ _ _ C).
  assert (Hcase : ∀ x, x ∈ l → (∃ t, t ∈ ch ∧ x = root t) ∨ up = Some x).
  { intros x Hx. rewrite Hl in Hx. apply elem_of_app in Hx as [(t & -> & Ht)%list_elem_of_fmap|Hx]; [eauto|].
    right. destruct up; [|by apply elem_of_nil in Hx]. by apply list_elem_of_singleton in Hx as ->. }
  split_and!.
  - rewrite (omap_perm _ _ _ Hl), omap_app.
    assert (omap (key s) (option_list up) = []) as ->.
    { destruct up as [p|]; [|done]. simpl. unfold key. by rewrite (Hup p). }
    rewrite app_nil_r. clear -Hch. induction ch as [|t ch IH]; [done|]. csimpl.
    destruct (Hch t) as (m & E & _ & Hh); [by left|]. unfold key at 1. rewrite E, (string_at_holds _ _ _ Hh).
    f_equiv. apply IH. intros. apply Hch. by right.
  - apply Forall_forall. intros x Hx p2 E. destruct (Hcase x Hx) as [(t & Ht & ->)|Eu].
    + destruct (Hch t Ht) as (m & Em & _ & Hh). rewrite Em in E. injection E as <-. eauto.
    + by rewrite (Hup x Eu) in E.
  - intros x p2 Hx E. destruct (Hcase x Hx) as [(t & Ht & ->)|Eu].
    + destruct (Hch t Ht) as (m & Em & Hm & _). rewrite Em in E. injection E as <-. nia.
    + by rewrite (Hup x Eu) in E.
Qed.

Lemma NoDup_neighbours r ch up :
  NoDup (nodes (RNode r ch)) → (∀ p, up = Some p → p ∉ nodes (RNode r ch)) →
  NoDup ((root <$> ch) ++ option_list up).
Proof.
  intros Hnd Hup. apply NoDup_app. split_and!.
  - apply NoDup_roots. by apply NoDup_cons in Hnd as [_ Hnd].
  - intros x (t & -> & Ht)%list_elem_of_fmap Hx. destruct up as [p|]; [|by apply elem_of_nil in Hx].
    apply list_elem_of_singleton in Hx as Ex. apply (Hup _ eq_refl). rewrite <-Ex. simpl. right.
    eapply nodes_child; [done|apply root_nodes].
  - destruct up; simpl; [apply NoDup_singleton|constructor].
Qed.

(** The first character of a string and its end. *)
Lemma first_char_run s r a d :
  bd_regions s !! r = Some a → depth a = Z.of_nat d → d ≤ max_char_depth → 1 < len →
  len * S (next_depth_string s) ≤ length (bd_mem s) →
  let p := len * next_depth_string s in
  ∃ mem, (m ← write_char (bd_mem s) p (ascii_of_N (Z.to_N ((48 + depth a) `mod` 256))); write_char m (S p) NUL) = Ok mem ∧
    length mem = length (bd_mem s) ∧ holds mem p [depth_char d] ∧
    ∀ q, q < p ∨ S p < q → mem !! q = bd_mem s !! q.
Proof.
  intros Ha Hd Hc Hl Hm p.
  assert (ascii_of_N (Z.to_N ((48 + depth a) `mod` 256)) = depth_char d) as ->.
  { unfold depth_char. f_equal. rewrite Hd. apply N2Z.inj.
    rewrite Z2N.id by (by apply Z.mod_pos_bound). rewrite N2Z.inj_mod. f_equal. lia. }
  assert (Hp : S p < length (bd_mem s)) by (unfold p; nia).
  rewrite write_char_run by lia. cbn [mbind res_bind].
  rewrite write_char_run by (rewrite length_insert; lia).
  eexists. split; [done|]. split; [by rewrite !length_insert|]. split.
  - split.
    + intros [|j] c Hj; [|done]. injection Hj as <-. rewrite Nat.add_0_r.
      rewrite list_lookup_insert_ne by lia. apply list_lookup_insert_eq. lia.
    + simpl. rewrite Nat.add_1_r. apply list_lookup_insert_eq. rewrite length_insert. lia.
    + intros E%list_elem_of_singleton. by apply (depth_char_nul d).
  - intros q Hq. by rewrite !list_lookup_insert_ne by lia.
Qed.

(** The children are joined and the string is closed. *)
Lemma finish_run s0 r up d ch done s l a mem :
  children_built s0 r up d done up s → done ≡ₚ ch → adjacent_regions a ≡ₚ (root <$> ch) ++ option_list up →
  bd_regions s !! r = Some a → l = adjacent_regions a → 1 ≤ next_depth_string s0 →
  let p := len * pred (next_depth_string s0) in
  bd_mem s0 = mem → holds mem p [depth_char d] → d + tree_height (RNode r ch) ≤ max_char_depth →
  NoDup (nodes (RNode r ch)) → (∀ p, up = Some p → p ∉ nodes (RNode r ch)) →
  tree_size (RNode r ch) < len → len * next_depth_string s0 ≤ length (bd_mem s) →
  ∃ s', (keys ← depth_strings_of s l;
     let l := (qsort depth_string_cmp keys).*1 in
     rs ← upd (bd_regions s) r (set_adjacent_regions l);
     '(s, q) ← each append_string l (with_regions rs s, S p);
     mem ← write_char (bd_mem s) q NUL;
     Ok (with_mem mem s, p)) = Ok (s', p) ∧
    next_depth_string s' = next_depth_string s ∧ length (bd_mem s') = length (bd_mem s) ∧
    holds (bd_mem s') p (dstring d (RNode r ch)) ∧
    (∀ q, q < p ∨ len * next_depth_string s0 ≤ q → bd_mem s' !! q = bd_mem s !! q) ∧
    reordered (bd_regions s) (bd_regions s') ∧
    (∀ x, x ≠ r → bd_regions s' !! x = bd_regions s !! x) ∧
    (∀ x, x ∉ (root <$> ch) ++ option_list up → bd_strings s' !! x = bd_strings s !! x).
Proof.
  intros C Hd Hadj Ha -> Hn p Hmem Hh Hht Hnd Hup Hsz Hlen.
  destruct (children_keys _ _ _ _ _ _ _ _ C Hd Hadj) as (Kp & Kr & Kt).
  rewrite (depth_strings_of_run _ _ Kr). cbn [mbind res_bind].
  destruct (sort_children s (adjacent_regions a)) as [Pl Sl].
  set (l := (qsort depth_string_cmp _).*1) in *. rewrite (upd_run _ _ _ _ Ha). cbn [mbind res_bind].
  set (s1 := with_regions _ s).
  assert (Hkey : omap (key s1) l = merge_sort left_heavy (map (dstring (S d)) ch)).
  { change (key s1) with (key s). rewrite Sl. by apply merge_sort_perm. }
  assert (Hstr : dstring d (RNode r ch) = depth_char d :: concat (omap (key s1) l)) by (by rewrite Hkey).
  pose proof (length_dstring (RNode r ch) d) as Hsl. rewrite Hstr in Hsl. simpl in Hsl.
  assert (Hp : len * next_depth_string s0 = p + len) by (unfold p; nia).
  destruct (append_run (len * next_depth_string s0) l s1 (S p)) as (s2 & E & W & R & N & Q).
  { rewrite Pl, Hadj. by apply (NoDup_neighbours r). }
  { intros x p2 Hx E. rewrite Pl in Hx. split; [by eapply Kt|].
    by apply (proj1 (Forall_forall _ _) Kr x Hx). }
  { lia. }
  { done. }
  rewrite E. cbn [mbind res_bind]. change (bd_mem s1) with (bd_mem s) in W.
  rewrite write_char_run by (rewrite (written_length _ _ _ _ W); lia). cbn [mbind res_bind].
  set (q := S p + _). eexists. split; [done|]. cbn [with_mem next_depth_string bd_mem bd_regions bd_strings].
  rewrite length_insert, N, R, (written_length _ _ _ _ W). split_and!; [done|done| | | | |].
  - assert (Hc : bd_mem s !! p = Some (depth_char d)).
    { rewrite (cb_rest _ _ _ _ _ _ _ C), Hmem by lia. rewrite <-(Nat.add_0_r p). by apply (holds_char _ _ _ Hh). }
    split; [| |by apply dstring_not_nul].
    + intros j c Hj. pose proof (lookup_lt_Some _ _ _ Hj) as Hlt. rewrite Hstr in Hj, Hlt. simpl in Hlt.
      rewrite list_lookup_insert_ne by (unfold q; lia). destruct j as [|j]; simpl in Hj.
      * injection Hj as <-. rewrite Nat.add_0_r, (written_rest _ _ _ _ W) by lia. done.
      * replace (p + S j) with (S p + j) by lia. by apply (written_char _ _ _ _ W).
    + rewrite Hstr. simpl. replace (p + S _) with q by (unfold q; lia). apply list_lookup_insert_eq.
      rewrite (written_length _ _ _ _ W). unfold q. lia.
  - intros q' Hq. rewrite list_lookup_insert_ne by (unfold q; lia). apply W. lia.
  - by apply reordered_insert.
  - intros x Hx. by apply list_lookup_insert_ne.
  - intros x Hx. rewrite Q; [done|]. by rewrite Pl, Hadj.
Qed.

Lemma leaf_size r : tree_size (RNode r []) = 1.
Proof. done. Qed.

Lemma build_run fuel : ∀ t, tree_height t < fuel → builds fuel t.
Proof.
  induction fuel as [|fuel IH]; [lia|]. intros [r ch] Hf up s d Hs Hm Hnd Hup Hht Hsz Hlen.
  inversion Hm as [? ? ? a Ha Hda Hmch]; subst.
  cbn [build_left_heavy_depth_string root]. rewrite Ha. cbn [deref mbind res_bind].
  rewrite size_node in Hsz, Hlen.
  destruct (first_char_run s r a d) as (mem & E & Lm & Hh & Hrest); [done|done|lia|lia|nia|].
  destruct (write_char (bd_mem s) _ _) as [m|f]; [|done]. cbn [mbind res_bind] in E |- *.
  rewrite E. cbn [mbind res_bind].
  set (s1 := Builder (bd_regions s) (bd_strings s) mem (S (next_depth_string s))).
  inversion Hs as [? ? a0 Ha0 Hsi|? ? ? a0 Ha0 Hsi Hne Hadj Hb Hu Hch]; subst;
    rewrite Ha in Ha0; injection Ha0 as <-; rewrite Hsi.
  { exists s1. split; [done|]. split; simpl; try done.
    - rewrite leaf_size. lia.
    - intros q Hq. apply Hrest. nia. }
  destruct (each_rule (λ s x, b ← deref (bd_regions s !! x);
      if is_below b a then
        '(s, p) ← build_left_heavy_depth_string len fuel s x; Ok (with_string x (Some p) s)
      else Ok (with_string x None s))
    (λ done u s, (u = None ∨ u = up) ∧ (∀ t, t ∈ done → t ∈ ch) ∧ children_built s1 r up d done u s)
    ch up (adjacent_regions a) s1 Hadj) as (s2 & done & Ee & Pd & _ & _ & C).
  - split_and!; [by left|by intros t ?%elem_of_nil|]. split; simpl; try done; lia.
  - intros done t rest u s2 Hp (Huu & Hin & C). destruct (elem_mid _ _ _ _ Hp) as [Ht _].
    destruct (Hb (root t)) as (b & Hbx & Hbelow); [by apply list_elem_of_fmap; eauto|].
    assert (Hb2 : bd_regions s2 !! root t = Some b).
    { rewrite (cb_outside _ _ _ _ _ _ _ C); [done|]. intros (v & Hv & Hin')%elem_all_nodes.
      eapply (NoDup_apart _ _ _ _ _ _ _ Hnd Hp Hv Hin'), root_nodes. }
    rewrite Hb2. cbn [deref mbind res_bind]. rewrite Hbelow.
    pose proof (tree_height_child r ch t Ht).
    destruct (child_built fuel s1 r up d ch done t rest u s2) as (s3 & E3 & C3); try done.
    + apply IH. lia.
    + by apply (proj1 (Forall_forall _ _) Hch).
    + by apply (proj1 (Forall_forall _ _) Hmch).
    + lia.
    + by rewrite size_node.
    + change (bd_mem s1) with mem. rewrite Lm. change (next_depth_string s1) with (S (next_depth_string s)). nia.
    + rewrite E3. cbn [mbind res_bind]. eexists. split_and!; [done|done| |done].
      intros v [->|Hv]%elem_of_cons; [done|auto].
  - intros done s2 p Ep (_ & Hin & C). destruct (Hu p Ep) as (b & Hbx & Hlt).
    assert (Hpn : p ∉ nodes (RNode r ch)) by (by apply Hup).
    specialize (cb_order _ _ _ _ _ _ _ C p) as Op. change (bd_regions s1) with (bd_regions s) in Op.
    rewrite Hbx in Op. inversion Op as [? b' (z & _ & ->) Eb Eb'|]; subst. cbn [deref mbind res_bind].
    change (is_below (set_adjacent_regions z b) a) with (is_below b a).
    unfold is_below. rewrite Hlt, andb_false_r. eexists. split_and!; [done|by right|done|].
    apply other_met; [done|]. intros t Ht <-. apply Hpn. simpl. right.
    eapply nodes_child; [by apply Hin|apply root_nodes].
  - rewrite Ee. cbn [mbind res_bind].
    destruct (finish_run s1 r up d ch done s2 (adjacent_regions a) a mem)
      as (s3 & E3 & F1 & F2 & F3 & F4 & F5 & F6 & F7); try done.
    + rewrite (cb_outside _ _ _ _ _ _ _ C); [done|]. unfold all_nodes. rewrite (concat_map_perm nodes _ _ Pd).
      by apply NoDup_cons in Hnd as [? _].
    + simpl. lia.
    + by rewrite size_node.
    + rewrite (cb_length _ _ _ _ _ _ _ C). change (bd_mem s1) with mem. rewrite Lm. simpl. nia.
    + exists s3. split; [exact E3|]. split.
      * rewrite F1, (cb_next _ _ _ _ _ _ _ C), size_node. simpl.
        rewrite <-!length_all_nodes. unfold all_nodes. rewrite (concat_map_perm nodes _ _ Pd). lia.
      * by rewrite F2, (cb_length _ _ _ _ _ _ _ C).
      * done.
      * intros q Hq. rewrite F1 in Hq. pose proof (cb_next _ _ _ _ _ _ _ C) as Hn. simpl in Hn, F4.
        rewrite F4 by nia. rewrite (cb_rest _ _ _ _ _ _ _ C); [apply Hrest; nia|simpl; nia].
      * etrans; [|exact F5]. apply (cb_order _ _ _ _ _ _ _ C).
      * intros x Hx. simpl in Hx. apply not_elem_of_cons in Hx as [Hxr Hx].
        rewrite F6 by done. apply (cb_outside _ _ _ _ _ _ _ C). unfold all_nodes.
        by rewrite (concat_map_perm nodes _ _ Pd).
      * intros x Hx Hxu. simpl in Hx. rewrite F7, (cb_elsewhere _ _ _ _ _ _ _ C); [done| |done|].
        -- simpl. by rewrite (concat_map_perm nodes _ _ Pd).
        -- rewrite elem_of_app. intros [(t & -> & Ht)%list_elem_of_fmap|Hin].
           ++ apply Hx. right. eapply nodes_child; [done|apply root_nodes].
           ++ destruct up; [|by apply elem_of_nil in Hin]. apply list_elem_of_singleton in Hin as ->. done.
Qed.
End build.
