(* ===== verification/FidtrackPlace.v ===== *)
(** The position of a fiducial (src/contrib/libfidtrack/fidtrackX.cpp): with the table of
    pixels moFiducialFinderModule sets up and trees of the height the program is built
    for, every leaf is counted at a corrected position, so no fiducial is lost. *)
From Stdlib Require Import SpecFloat.
From S2P Require Import Prelude Numeric Calibration Segment SegmentGraph Fidtrack FidtrackX DepthString FidtrackForest FidtrackSeen.
Local Open Scope Z_scope.

(** The loops of [moFiducialFinderModule::allocateBuffers] that fill [dmap]. *)
Definition identity_map (width height : nat) : list (Z * Z) :=
  concat (map (λ y, map (λ x, (to_short (Z.of_nat x), to_short (Z.of_nat y))) (seq 0 width)) (seq 0 height)).

Lemma lookup_concat_rows {A} (f : nat → list A) w h y x :
  (∀ y, length (f y) = w) → (y < h)%nat → (x < w)%nat → ∀ k,
  concat (map f (seq k h)) !! (y * w + x)%nat = f (k + y)%nat !! x.
Proof.
  intros Hw Hy Hx. revert y Hy. induction h as [|h IH]; intros y Hy k; [lia|]. simpl.
  destruct y as [|y].
  - rewrite lookup_app_l by (rewrite Hw; lia). by rewrite Nat.add_0_r.
  - rewrite lookup_app_r by (rewrite Hw; lia). rewrite Hw.
    replace (S y * w + x - w)%nat with (y * w + x)%nat by lia. rewrite (IH y) by lia. f_equal. f_equal. lia.
Qed.
Lemma length_concat_rows {A} (f : nat → list A) w l :
  (∀ y, length (f y) = w) → length (concat (map f l)) = (length l * w)%nat.
Proof. intros Hw. induction l as [|y l IH]; [done|]. simpl. rewrite length_app, Hw, IH. done. Qed.

Lemma identity_map_length w h : length (identity_map w h) = (h * w)%nat.
Proof.
  unfold identity_map. rewrite (length_concat_rows _ w), length_seq; [done|].
  intros. by rewrite length_map, length_seq.
Qed.
Lemma identity_map_lookup w h x y :
  (x < w)%nat → (y < h)%nat → (w ≤ Z.to_nat 32768)%nat → (h ≤ Z.to_nat 32768)%nat →
  identity_map w h !! (y * w + x)%nat = Some (Z.of_nat x, Z.of_nat y).
Proof.
  intros Hx Hy Hw Hh. unfold identity_map.
  rewrite (lookup_concat_rows _ w) by (rewrite ?length_map, ?length_seq; done || (intros; by rewrite length_map, length_seq)).
  rewrite list_lookup_fmap, lookup_seq_lt by lia. simpl. by rewrite !to_short_small by lia.
Qed.

(** ** Facts of arithmetic, checked for all values *)

Fixpoint check_below (n : nat) (z : Z) (P : Z → bool) : bool :=
  match n with O => true | S n => P z && check_below n (z + 1) P end.
Lemma check_below_spec n P : ∀ z, check_below n z P = true → ∀ i, z <= i < z + Z.of_nat n → P i = true.
Proof.
  induction n as [|n IH]; intros z H i Hi; [lia|]. simpl in H. apply andb_true_iff in H as [H1 H2].
  destruct (decide (i = z)) as [->|]; [done|]. apply (IH (z + 1) H2). lia.
Qed.

Lemma half_to_int z : 0 <= z < 8192 → f_to_int (f_mul (f_of_Z z) f_half) = z / 2.
Proof.
  intros H. apply Z.eqb_eq. revert z H.
  apply (check_below_spec (Z.to_nat 8192) (λ z, f_to_int (f_mul (f_of_Z z) f_half) =? z / 2)). vm_compute. reflexivity.
Qed.
Lemma short_positive z : 1 <= z < 4096 → d_ltb dzero (widen (f_of_Z z)) = true.
Proof.
  intros H. revert z H. apply (check_below_spec (Z.to_nat 4095) (λ z, d_ltb dzero (widen (f_of_Z z))) 1).
  vm_compute. reflexivity.
Qed.
Lemma total_leaf_1 z : 0 <= z < 1000 → d_to_int (d_add (d_of_Z z) (leaf_weight 1)) = z + 7.
Proof.
  intros H. apply Z.eqb_eq. revert z H.
  apply (check_below_spec (Z.to_nat 1000) (λ z, d_to_int (d_add (d_of_Z z) (leaf_weight 1)) =? z + 7)). vm_compute. reflexivity.
Qed.
Lemma total_leaf_2 z : 0 <= z < 1000 → d_to_int (d_add (d_of_Z z) (leaf_weight 2)) = z + 19.
Proof.
  intros H. apply Z.eqb_eq. revert z H.
  apply (check_below_spec (Z.to_nat 1000) (λ z, d_to_int (d_add (d_of_Z z) (leaf_weight 2)) =? z + 19)). vm_compute. reflexivity.
Qed.

(** The sum of [k] equal weights. *)
Definition weights (n : double) (k : nat) : double := Nat.iter k (λ x, d_add x n) dzero.
Definition enough_weight (k1 k2 : nat) : bool :=
  let total := d_of_Z (7 * Z.of_nat k1 + 19 * Z.of_nat k2) in
  negb (d_ltb (d_add (weights (leaf_weight 1) k1) (weights (leaf_weight 2) k2)) total) &&
  negb (d_ltb (d_add (weights (leaf_weight 2) k2) (weights (leaf_weight 1) k1)) total).
Lemma weights_enough k1 k2 : (k1 < 25)%nat → (k2 < 25)%nat → enough_weight k1 k2 = true.
Proof.
  intros H1 H2.
  assert (E : forallb (λ i, forallb (enough_weight i) (seq 0 25)) (seq 0 25) = true) by (vm_compute; reflexivity).
  rewrite forallb_forall in E. specialize (E k1). rewrite forallb_forall in E. apply E; apply in_seq; lia.
Qed.

(** ** Adding up the leaves *)

Section place.
Context (w h : nat).
Hypothesis Hw : (0 < w ≤ Z.to_nat 4096)%nat.
Hypothesis Hh : (0 < h ≤ Z.to_nat 4096)%nat.

Lemma size_fits : wrap32 (Z.of_nat w * Z.of_nat h) = Z.of_nat w * Z.of_nat h.
Proof. apply wrap32_id, in_int_iff. nia. Qed.

(** Reading the table never leaves it. *)
Lemma warp_in_table x y i : warp_pixel (Z.of_nat w) (Z.of_nat h) x y = Some i → is_Some (identity_map w h !! i).
Proof.
  unfold warp_pixel. rewrite size_fits. set (p := wrap32 _).
  destruct ((0 <=? p) && (p <? Z.of_nat w * Z.of_nat h)) eqn:E; [|done]. intros [= <-].
  apply andb_true_iff in E as [E1%Z.leb_le E2%Z.ltb_lt]. apply lookup_lt_is_Some.
  rewrite identity_map_length. nia.
Qed.
Lemma warp_inside x y :
  0 <= x < Z.of_nat w → 0 <= y < Z.of_nat h → warp_pixel (Z.of_nat w) (Z.of_nat h) x y = Some (Z.to_nat y * w + Z.to_nat x)%nat.
Proof.
  intros Hx Hy. unfold warp_pixel. rewrite size_fits.
  rewrite !wrap32_id by (apply in_int_iff; rewrite ?wrap32_id by (apply in_int_iff; nia); nia).
  rewrite (proj2 (Z.leb_le _ _)), (proj2 (Z.ltb_lt _ _)) by nia. simpl. f_equal. nia.
Qed.

(** The corrected sums of one colour. *)
Definition warped (is_black : bool) (s : leaf_sums) : colour_sum :=
  if is_black then black_warped s else white_warped s.

Lemma add_leaf_total a s :
  ∃ s', add_leaf (Some (identity_map w h)) (Z.of_nat w) (Z.of_nat h) a s = Ok s' ∧
    total_leaf_count s' = d_to_int (d_add (d_of_Z (total_leaf_count s)) (leaf_weight (depth a))) ∧
    let b := colour a =? 0 in
    warped (negb b) s' = warped (negb b) s ∧
    (leaf_count (warped b s') = leaf_count (warped b s) ∨
     leaf_count (warped b s') = d_add (leaf_count (warped b s)) (leaf_weight (depth a))).
Proof.
  unfold add_leaf. set (x := f_mul (f_of_Z (left a + right a)) _). set (y := f_mul (f_of_Z (top a + bottom a)) _).
  assert (E : ∃ x' y', match warp_pixel (Z.of_nat w) (Z.of_nat h) (f_to_int x) (f_to_int y) with
    | Some i => q ← deref (identity_map w h !! i); Ok (f_of_Z q.1, f_of_Z q.2)
    | None => Ok (x, y) end = Ok (x', y')).
  { destruct (warp_pixel _ _ _ _) as [i|] eqn:Ei; [|eauto].
    destruct (warp_in_table _ _ _ Ei) as [q ->]. simpl. eauto. }
  destruct E as (x' & y' & ->). cbn [mbind res_bind].
  destruct (_ && _), (colour a =? 0); cbn [mbind res_bind]; eexists; (split; [reflexivity|]); simpl;
    (split_and!; [done|done|by (left; reflexivity) || (right; reflexivity)]).
Qed.

(** A leaf whose box does not touch the upper or the left border is counted. *)
Lemma add_leaf_inside a s :
  1 <= left a <= right a → right a < Z.of_nat w → 1 <= top a <= bottom a → bottom a < Z.of_nat h →
  ∃ s', add_leaf (Some (identity_map w h)) (Z.of_nat w) (Z.of_nat h) a s = Ok s' ∧
    total_leaf_count s' = d_to_int (d_add (d_of_Z (total_leaf_count s)) (leaf_weight (depth a))) ∧
    let b := colour a =? 0 in
    warped (negb b) s' = warped (negb b) s ∧
    leaf_count (warped b s') = d_add (leaf_count (warped b s)) (leaf_weight (depth a)).
Proof.
  intros Hl Hr Ht Hb. unfold add_leaf.
  rewrite !half_to_int by lia.
  assert (Hx : 1 <= (left a + right a) / 2 < Z.of_nat w) by (split; [apply Z.div_le_lower_bound|apply Z.div_lt_upper_bound]; lia).
  assert (Hy : 1 <= (top a + bottom a) / 2 < Z.of_nat h) by (split; [apply Z.div_le_lower_bound|apply Z.div_lt_upper_bound]; lia).
  rewrite warp_inside by lia. rewrite identity_map_lookup by lia. cbn [deref mbind res_bind fst snd].
  rewrite !Z2Nat.id by lia. rewrite !short_positive by lia. cbn [andb].
  destruct (colour a =? 0); cbn [mbind res_bind]; eexists; (split; [reflexivity|]); by simpl.
Qed.

(** A leaf one or two levels below a root, black if [b0]: the colours alternate. *)
Definition leaf_at (rs : list region) (b0 : bool) (x : nat) : Prop :=
  ∃ a, rs !! x = Some a ∧
    (depth a = 1 ∧ (colour a =? 0) = negb b0 ∨ depth a = 2 ∧ (colour a =? 0) = b0) ∧
    1 <= left a <= right a ∧ right a < Z.of_nat w ∧ 1 <= top a <= bottom a ∧ bottom a < Z.of_nat h.

(** [k1] leaves at depth 1 and [k2] at depth 2 were added. *)
Definition summed (b0 : bool) (s : leaf_sums) (k1 k2 : nat) : Prop :=
  leaf_count (warped (negb b0) s) = weights (leaf_weight 1) k1 ∧
  leaf_count (warped b0 s) = weights (leaf_weight 2) k2 ∧
  total_leaf_count s = 7 * Z.of_nat k1 + 19 * Z.of_nat k2.

Lemma add_leaf_summed rs b0 x s k1 k2 :
  leaf_at rs b0 x → summed b0 s k1 k2 → (k1 + k2 < 25)%nat →
  ∃ s' k1' k2', (a ← deref (rs !! x); add_leaf (Some (identity_map w h)) (Z.of_nat w) (Z.of_nat h) a s) = Ok s' ∧
    summed b0 s' k1' k2' ∧ (k1' + k2' = S (k1 + k2))%nat.
Proof.
  intros (a & Ha & Hd & Hl & Hr & Ht & Hb) (S1 & S2 & S3) Hk. rewrite Ha. cbn [deref mbind res_bind].
  destruct (add_leaf_inside a s) as (s' & E & T & Q & R); try done. rewrite S3 in T.
  destruct Hd as [[D C]|[D C]]; rewrite C, D in *.
  - rewrite total_leaf_1 in T by lia. rewrite negb_involutive in Q. exists s', (S k1), k2.
    split_and!; [done| |lia]. split_and!; [by rewrite R, S1|by rewrite Q|lia].
  - rewrite total_leaf_2 in T by lia. exists s', k1, (S k2).
    split_and!; [done| |lia]. split_and!; [by rewrite Q|by rewrite R, S2|lia].
Qed.

Lemma sums_run rs b0 ls : ∀ s k1 k2,
  Forall (leaf_at rs b0) ls → summed b0 s k1 k2 → (k1 + k2 + length ls < 25)%nat →
  ∃ s' k1' k2', each (λ s x, a ← deref (rs !! x); add_leaf (Some (identity_map w h)) (Z.of_nat w) (Z.of_nat h) a s) ls s = Ok s' ∧
    summed b0 s' k1' k2' ∧ (k1' + k2' = k1 + k2 + length ls)%nat.
Proof.
  induction ls as [|x ls IH]; intros s k1 k2 Hl Hs Hk.
  { exists s, k1, k2. split_and!; [done|done|simpl; lia]. }
  apply Forall_cons in Hl as [Hx Hl]. simpl in Hk.
  destruct (add_leaf_summed rs b0 x s k1 k2) as (s1 & j1 & j2 & E & S1 & K1); [done|done|lia|].
  destruct (IH s1 j1 j2) as (s2 & m1 & m2 & E2 & S2 & K2); [done|done|lia|].
  exists s2, m1, m2. cbn [each]. rewrite E. cbn [mbind res_bind]. split_and!; [done|done|simpl; lia].
Qed.

Lemma fiducial_place_summed `{Libm} b0 s k1 k2 old :
  summed b0 s k1 k2 → (k1 < 25)%nat → (k2 < 25)%nat →
  fiducial_place (Some (identity_map w h)) (Z.of_nat w) (Z.of_nat h) s old =
    Ok (mean_place (black_warped s) (white_warped s)).
Proof.
  intros (S1 & S2 & S3) H1 H2. unfold fiducial_place. rewrite S3.
  pose proof (weights_enough k1 k2 H1 H2) as E. apply andb_true_iff in E as [E1%negb_true_iff E2%negb_true_iff].
  destruct b0; simpl in S1, S2; rewrite S1, S2; by rewrite ?E1, ?E2.
Qed.

(** A root that is taken for a leaf is not lost either. *)
Lemma fiducial_place_single `{Libm} a s old :
  depth a = 0 → add_leaf (Some (identity_map w h)) (Z.of_nat w) (Z.of_nat h) a no_leaves = Ok s →
  fiducial_place (Some (identity_map w h)) (Z.of_nat w) (Z.of_nat h) s old =
    Ok (mean_place (black_warped s) (white_warped s)).
Proof.
  intros D E. destruct (add_leaf_total a no_leaves) as (s' & E' & T & Q & R). rewrite E in E'. injection E' as <-.
  unfold fiducial_place. rewrite T, D. rewrite D in R.
  assert (Z0 : d_to_int (d_add (d_of_Z (total_leaf_count no_leaves)) (leaf_weight 0)) = 0) by (vm_compute; reflexivity).
  rewrite Z0.
  assert (E0 : d_ltb (d_add (leaf_count (black_warped s)) (leaf_count (white_warped s))) (d_of_Z 0) = false).
  { destruct (colour a =? 0); cbn [warped negb] in Q, R; rewrite Q; destruct R as [-> | ->]; vm_compute; reflexivity. }
  by rewrite E0.
Qed.

(** ** The leaves of a tree *)

Definition alternating (rs : list region) : Prop := ∀ r a x b,
  rs !! r = Some a → x ∈ adjacent_regions a → rs !! x = Some b → (colour b =? 0) = negb (colour a =? 0).
Definition boxed (a : region) : Prop :=
  1 <= left a <= right a ∧ right a < Z.of_nat w ∧ 1 <= top a <= bottom a ∧ bottom a < Z.of_nat h.

Lemma leaves_at rs b0 t : ∀ up d,
  seen rs up t → marked rs d t → alternating rs → (d + tree_height t ≤ 2)%nat →
  (∀ a, rs !! root t = Some a → (colour a =? 0) = xorb b0 (Nat.odd d)) →
  (∀ u, u ∈ subtrees t → children u = [] → ∃ a, rs !! root u = Some a ∧ boxed a) →
  (d = 0%nat → children t ≠ []) → Forall (leaf_at rs b0) (leaf_nodes t).
Proof.
  induction t as [r ch IH] using rtree_nested_ind. intros up d Hs Hm Halt Hd Hc Hbox Hz.
  inversion Hm as [? ? ? a Ha Hda Hmch]; subst.
  inversion Hs as [? ? a0 Ha0 Hsi|? ? ? a0 Ha0 Hsi Hne Hadj Hb Hu Hch]; subst;
    rewrite Ha in Ha0; injection Ha0 as <-.
  - destruct (Hbox (RNode r [])) as (a' & Ha' & B); [simpl; by left|done|]. simpl in Ha'. rewrite Ha in Ha'. injection Ha' as <-.
    specialize (Hc a Ha). simpl. constructor; [|done]. exists a. split; [done|]. split; [|exact B].
    destruct d as [|[|[|d]]]; [by specialize (Hz eq_refl)| | |simpl in Hd; lia]; simpl in Hc.
    + left. split; [done|]. by destruct b0.
    + right. split; [done|]. by destruct b0.
  - replace (leaf_nodes (RNode r ch)) with (concat (map leaf_nodes ch)) by (by destruct ch).
    apply Forall_concat, Forall_fmap, Forall_forall. intros t Ht. simpl.
    pose proof (tree_height_child r ch t Ht).
    apply (proj1 (Forall_forall _ _) IH t Ht (Some r) (S d)); try done.
    + by apply (proj1 (Forall_forall _ _) Hch).
    + by apply (proj1 (Forall_forall _ _) Hmch).
    + lia.
    + intros b Hbt. rewrite (Halt r a (root t) b), (Hc a Ha); [|done| |done].
      * rewrite Nat.odd_succ, <-Nat.negb_odd. by destruct b0, (Nat.odd d).
      * rewrite Hadj. apply elem_of_app. left. apply list_elem_of_fmap. eauto.
    + intros u Hu' Hn. apply Hbox; [|done]. simpl. right. apply elem_concat_map. eauto.
Qed.

Lemma leaf_nodes_size t : (length (leaf_nodes t) ≤ tree_size t)%nat.
Proof.
  induction t as [r ch IH] using rtree_nested_ind. rewrite size_node.
  destruct ch as [|c ch]; [simpl; lia|]. etrans; [|apply Nat.le_succ_diag_r]. cbn [leaf_nodes].
  clear r. induction IH as [|t l Ht _ IHl]; csimpl; [lia|]. rewrite length_app. lia.
Qed.

(** The place of a root is computed and it is not lost. *)
Lemma fiducial_place_run `{Libm} rs up t fuel old :
  seen rs up t → marked rs 0 t → alternating rs → (tree_height t ≤ 2)%nat → (tree_size t < 25)%nat →
  (tree_height t < fuel)%nat →
  (∀ u, u ∈ subtrees t → children u = [] → u = t ∨ ∃ a, rs !! root u = Some a ∧ boxed a) →
  ∃ s, sum_leaf_centers fuel (Some (identity_map w h)) (Z.of_nat w) (Z.of_nat h) rs no_leaves (root t) = Ok s ∧
    fiducial_place (Some (identity_map w h)) (Z.of_nat w) (Z.of_nat h) s old =
      Ok (mean_place (black_warped s) (white_warped s)).
Proof.
  intros Hs Hm Halt Hh' Hsz Hf Hbox.
  destruct (sum_leaf_centers_run fuel (Some (identity_map w h)) (Z.of_nat w) (Z.of_nat h) rs t up Hs Hf) as (ls & Hls & E).
  rewrite E. inversion Hm as [? r ch a Ha Hda Hmch]; subst. destruct ch as [|c ch].
  - simpl in Hls. apply Permutation_singleton_r in Hls as ->. cbn [each]. rewrite Ha. cbn [deref mbind res_bind].
    destruct (add_leaf_total a no_leaves) as (s & Es & _). exists s. rewrite Es. split; [done|].
    by apply (fiducial_place_single a).
  - destruct (sums_run rs (colour a =? 0) ls no_leaves 0 0) as (s & k1 & k2 & Es & Sm & K).
    + rewrite Hls. apply (leaves_at _ _ _ up 0); try done.
      * intros a' Ha'. simpl in Ha'. rewrite Ha in Ha'. injection Ha' as <-. by destruct (colour a =? 0).
      * intros u Hu Hn. destruct (Hbox u Hu Hn) as [->|?]; done.
    + by destruct (colour a =? 0).
    + rewrite Hls. pose proof (leaf_nodes_size (RNode r (c :: ch))). lia.
    + exists s. split; [done|]. pose proof (leaf_nodes_size (RNode r (c :: ch))). rewrite Hls in K.
      apply (fiducial_place_summed (colour a =? 0) s k1 k2); [done|lia|lia].
Qed.
End place.
