(* ===== verification/Fiducials.v ===== *)
(** The fiducials of a frame: moFiducialFinderModule sets up libfidtrack, gives it a
    binary image and gets the ids of the trees in it. *)
From S2P Require Import Prelude Numeric Calibration Peaks Blobs Segment SegmentGraph SegmentLabels SegmentSpec Fidtrack TreeIds FidtrackX DepthString FidtrackForest FidtrackSafe FidtrackSeen FidtrackStrings FidtrackPlace.
Local Open Scope nat_scope.

(** ** The set-up of moFiducialFinderModule *)

(** [MAX_FIDUCIALS], the length of the array of fiducials. *)
Definition max_fiducials : nat := 512.

(** [fiducials_data_t] *)
Record fiducials_data := FiducialsData {
  fd_segmenter : segmenter;
  fd_fiducials : list fiducialX;
  fd_tracker : trackerX;
}.

(** [moFiducialFinderModule::allocateBuffers]: the table of pixels, the tracker, and the
    segmenter, whose lists are as long as a tree has nodes.  [rows], [junk] and [fids] are
    what the memory holds. *)
Definition fiducial_allocateBuffers (mem : bool) (rows : list nat) (junk : nat → ascii)
    (fids : list fiducialX) (width height : nat) : fiducials_data :=
  let m := initialize_treeidmap in
  FiducialsData
    (initialize_segmenter mem rows width height (Z.to_nat (max_node_count m))) fids
    (new_fidtrackerX m (Some (identity_map width height)) junk).

(** The calls of libfidtrack in [applyFilter]: the fiducials found in a frame. *)
Definition fiducial_frame `{Libm, Qsort} (d : fiducials_data) (width height : nat) (source : list Z)
    : res (fiducials_data * list fiducialX) :=
  s ← step_segmenter (fd_segmenter d) source;
  '(t, s, fids, n) ← find_fiducialsX (fd_tracker d) (Z.of_nat width) (Z.of_nat height) max_fiducials s
    (fd_fiducials d);
  Ok (FiducialsData s fids t, take n fids).

(** ** What the regions of a frame are *)

Definition kept (a b : region) : Prop :=
  same_node a b ∧ flags b = flags a ∧ picture_part b = picture_part a.
Definition all_kept (rs rs' : list region) : Prop := ∀ x, option_Forall2 kept (rs !! x) (rs' !! x).

#[export] Instance same_node_preorder : PreOrder same_node.
Proof.
  split; [by intros a|]. intros a b c (? & ? & E1) (? & ? & E2). split_and!; [congruence..|by rewrite E2].
Qed.
#[export] Instance kept_preorder : PreOrder kept.
Proof.
  split; [by intros a|]. intros a b c (S1 & ? & ?) (S2 & ? & ?). split_and!; [by etrans|congruence..].
Qed.
#[export] Instance all_kept_preorder : PreOrder all_kept.
Proof.
  split; [intros rs x; by destruct (rs !! x); constructor|].
  intros r1 r2 r3 H1 H2 x. specialize (H1 x). specialize (H2 x).
  destruct H1; inversion H2; constructor. by etrans.
Qed.
Lemma only_depth_kept rs rs' : only_depth rs rs' → all_kept rs rs'.
Proof. intros H x. specialize (H x). destruct H as [a b (z & ->)|]; by constructor. Qed.
Lemma reordered_kept rs rs' : reordered rs rs' → all_kept rs rs'.
Proof. intros H x. specialize (H x). destruct H as [a b (l & Hl & ->)|]; by constructor. Qed.
Lemma kept_some rs rs' x a : all_kept rs rs' → rs !! x = Some a → ∃ b, rs' !! x = Some b ∧ kept a b.
Proof. intros H Ha. specialize (H x). rewrite Ha in H. inversion H; eauto. Qed.
Lemma kept_some_inv rs rs' x b : all_kept rs rs' → rs' !! x = Some b → ∃ a, rs !! x = Some a ∧ kept a b.
Proof. intros H Hb. specialize (H x). rewrite Hb in H. inversion H; eauto. Qed.
Lemma kept_same rs rs' : all_kept rs rs' → same_nodes rs rs'.
Proof. intros H x. specialize (H x). destruct H as [a b (? & _)|]; by constructor. Qed.
Lemma kept_length rs rs' : all_kept rs rs' → length rs' = length rs.
Proof.
  intros H. destruct (decide (length rs' = length rs)) as [|Hne]; [done|exfalso].
  destruct (decide (length rs < length rs')).
  - destruct (lookup_lt_is_Some_2 rs' (length rs)) as [b Hb]; [done|].
    destruct (kept_some_inv _ _ _ _ H Hb) as (a & Ha & _). apply lookup_lt_Some in Ha. lia.
  - destruct (lookup_lt_is_Some_2 rs (length rs')) as [b Hb]; [lia|].
    destruct (kept_some _ _ _ _ H Hb) as (a & Ha & _). apply lookup_lt_Some in Ha. lia.
Qed.
Lemma kept_alternating rs rs' : all_kept rs rs' → alternating rs → alternating rs'.
Proof.
  intros H Halt r a x b Ha Hx Hb. destruct (kept_some_inv _ _ _ _ H Ha) as (a' & Ha' & (_ & _ & E) & _ & P).
  destruct (kept_some_inv _ _ _ _ H Hb) as (b' & Hb' & _ & _ & P'). unfold picture_part in P, P'.
  injection P as -> _ _ _ _. injection P' as -> _ _ _ _.
  eapply (Halt r a' x b'); [done| |done]. by rewrite <-E.
Qed.
Lemma kept_boxed w h a b : kept a b → boxed w h a → boxed w h b.
Proof.
  intros (_ & _ & P). unfold picture_part, boxed in *. injection P as _ -> -> -> ->. done.
Qed.

(** The regions of the segmenter, also after the search. *)
Lemma fixed_kept (rs rs' : list region) x b :
  fixed_part <$> rs' = fixed_part <$> rs → rs' !! x = Some b → ∃ a, rs !! x = Some a ∧ fixed_part b = fixed_part a.
Proof.
  intros E Hb. assert (F : (fixed_part <$> rs') !! x = (fixed_part <$> rs) !! x) by (by rewrite E).
  rewrite !list_lookup_fmap, Hb in F. destruct (rs !! x) as [a|]; [|done]. exists a. split; [done|].
  change (Some (fixed_part b) = Some (fixed_part a)) in F. congruence.
Qed.

Lemma frame_alternating source w h s L rs :
  segmentable source w h → segmented source w h s L → fixed_part <$> rs = fixed_part <$> regions s →
  alternating rs.
Proof.
  intros Himg Hseg E r a x b Ha Hx Hb.
  destruct (fixed_kept _ _ _ _ E Ha) as (a' & Ha' & Fa). destruct (fixed_kept _ _ _ _ E Hb) as (b' & Hb' & Fb).
  unfold fixed_part, picture_part in Fa, Fb. injection Fa as Ea _ -> _ _ _ _. injection Fb as _ _ -> _ _ _ _.
  rewrite Ea in Hx. rewrite <-(adj_lookup _ _ _ Ha') in Hx.
  pose proof (graph_colours _ _ (segmented_graph _ _ _ _ _ Hseg) r x Hx) as Hc.
  unfold col in Hc. rewrite Ha', Hb' in Hc.
  assert (B : ∀ y c, regions s !! y = Some c → adjacent_regions c ≠ [] → colour c = 0%Z ∨ colour c = 255%Z).
  { intros y c Hy Hn. destruct (decide (y ∈ L)) as [[i Hi]%list_elem_of_lookup|Hy'].
    - destruct (segmented_colour _ _ _ _ _ Hseg i y Hi) as (c' & Hc' & Hs). rewrite Hy in Hc'. injection Hc' as <-.
      apply (proj1 (Forall_forall _ _) (segmentable_binary _ _ _ Himg)). by eapply list_elem_of_lookup_2.
    - by apply (segmented_free _ _ _ _ _ Hseg y c Hy) in Hy'. }
  assert (Hx' : r ∈ adj (regions s) x) by (eapply graph_elem; [apply (segmented_graph _ _ _ _ _ Hseg)|done]).
  rewrite (adj_lookup _ _ _ Ha') in Hx. rewrite (adj_lookup _ _ _ Hb') in Hx'.
  destruct (B _ _ Ha') as [E1|E1]; [by intros E1; rewrite E1 in Hx; apply elem_of_nil in Hx| |];
    (destruct (B _ _ Hb') as [E2|E2]; [by intros E2; rewrite E2 in Hx'; apply elem_of_nil in Hx'| |]);
    simpl in Hc; rewrite E1, E2 in Hc |- *; done.
Qed.

Lemma frame_boxed source w h s L rs r a :
  segmented source w h s L → 0 < w → fixed_part <$> rs = fixed_part <$> regions s →
  rs !! r = Some a → is_leaf a = true → boxed w h a.
Proof.
  intros Hseg Hw E Ha Hl. destruct (fixed_kept _ _ _ _ E Ha) as (b & Hb & F).
  unfold fixed_part, picture_part in F. injection F as Ea Ef _ E1 E2 E3 E4.
  unfold boxed. rewrite E1, E2, E3, E4.
  apply andb_true_iff in Hl as [Hlen%bool_decide_eq_true Hfl%negb_true_iff].
  assert (HrL : r ∈ L).
  { destruct (decide (r ∈ L)) as [|Hn]; [done|]. apply (segmented_free _ _ _ _ _ Hseg r b Hb) in Hn.
    by rewrite Ea, Hn in Hlen. }
  assert (Hadj : has_flag (flags b) ADJACENT_TO_ROOT_REGION_FLAG = false).
  { rewrite !has_flag_split in Hfl. apply orb_false_elim in Hfl as [_ [_ [Hfl _]%orb_false_elim]%orb_false_elim].
    rewrite <-Hfl. unfold has_flag. change ADJACENT_TO_ROOT_REGION_FLAG with (Z.land 15 ADJACENT_TO_ROOT_REGION_FLAG).
    by rewrite !Z.land_assoc, Ef. }
  assert (Hin : ∀ i, L !! i = Some r → ¬ on_border w h i ∧ i < h * w).
  { intros i Hi. split.
    - intros Hbd. assert (has_flag (flags b) ADJACENT_TO_ROOT_REGION_FLAG = true); [|congruence].
      apply (proj2 (segmented_border _ _ _ _ _ Hseg r b HrL Hb)). eauto.
    - apply lookup_lt_Some in Hi. rewrite (segmented_length _ _ _ _ _ Hseg) in Hi. lia. }
  destruct (segmented_box _ _ _ _ _ Hseg r b HrL Hb Hadj) as ((i1 & I1 & ->) & (i2 & I2 & ->) & (i3 & I3 & ->) & (i4 & I4 & ->) & Hall).
  assert (Hx : ∀ i, L !! i = Some r → (1 ≤ X w i < Z.of_nat w ∧ 1 ≤ Y w i < Z.of_nat h)%Z).
  { intros i Hi. destruct (Hin i Hi) as [Hbd Hlt]. unfold on_border in Hbd. unfold X, Y.
    pose proof (Nat.mod_upper_bound i w ltac:(lia)).
    assert (1 ≤ i / w < h); [|lia]. split; [apply Nat.div_le_lower_bound; lia|apply Nat.Div0.div_lt_upper_bound; lia]. }
  pose proof (Hx _ I1). pose proof (Hx _ I2). pose proof (Hx _ I3). pose proof (Hx _ I4).
  destruct (Hall _ I1) as [? ?]. destruct (Hall _ I3) as [? ?]. lia.
Qed.

(** ** One fiducial *)

Definition colour_char (a : region) : ascii := if (colour a =? 0)%Z then "b"%char else "w"%char.
Definition tree_name (a : region) (t : rtree) : string := unchars (colour_char a :: dstring 0 t).

Section frame.
Context `{Libm, Qsort} (w h : nat).
Hypothesis Hw : 0 < w ≤ Z.to_nat 4096.
Hypothesis Hh : 0 < h ≤ Z.to_nat 4096.

(** A tracker as [allocateBuffers] leaves it. *)
Record ready (T : trackerX) : Prop := Ready {
  ready_map : tk_treeidmap T = initialize_treeidmap;
  ready_warp : tk_pixelwarp T = Some (identity_map w h);
  ready_length : depth_string_length T = 20;
  ready_strings : length (depth_strings T) = 380;
}.

(** What the code sees of a root [r] of [rs]. *)
Record root_tree (rs : list region) (r : nat) (a : region) (up : option nat) (t : rtree) : Prop := RootTree {
  rt_region : rs !! r = Some a;
  rt_root : root t = r;
  rt_seen : seen rs up t;
  rt_once : NoDup (nodes t);
  rt_up p : up = Some p → p ∉ nodes t;
  rt_height : tree_height t ≤ 2;
  rt_size : tree_size t ≤ 20 ∧ tree_size t ≤ length rs;
  rt_fits : has_flag (flags a) LOST_SYMBOL_FLAG = false → tree_size t ≤ 19;
  rt_boxed u : u ∈ subtrees t → children u = [] → u = t ∨ ∃ b, rs !! root u = Some b ∧ boxed w h b;
}.

Lemma seen_kept rs rs' up t : all_kept rs rs' → seen rs up t → seen rs' up t.
Proof. intros K. by apply seen_same, kept_same. Qed.

Lemma fiducial_id_run T rs r a up t :
  ready T → root_tree rs r a up t → marked rs 0 t → tree_size t ≤ 19 →
  ∃ rs' mem, fiducial_id T rs r = Ok (treestring_to_id initialize_treeidmap (tree_name a t), rs', mem) ∧
    all_kept rs rs' ∧ length mem = 380.
Proof.
  intros [R1 R2 R3 R4] [A1 A2 A3 A4 A5 A6 A7 _ _] Hm Hsz. unfold fiducial_id.
  assert (Hf : tree_height t < length rs) by (pose proof (height_size t); lia).
  destruct (build_run (depth_string_length T) (length rs) t Hf up (Builder rs ∅ (depth_strings T) 0) 0)
    as (s & E & B); [exact A3|exact Hm|exact A4|exact A5|unfold max_char_depth; lia|lia| |].
  { cbn [bd_mem next_depth_string]. rewrite R3, R4. lia. }
  rewrite <-A2, E. cbn [mbind res_bind].
  pose proof (reordered_kept _ _ (built_order _ _ _ _ _ _ B)) as K. simpl in K.
  destruct (kept_some _ _ _ _ K A1) as (b & Hb & (_ & _ & P)). rewrite A2, Hb. cbn [deref mbind res_bind].
  rewrite (string_at_holds _ _ _ (built_string _ _ _ _ _ _ B)). cbn [mbind res_bind].
  rewrite decide_True by (rewrite length_dstring, R3; lia). cbn [mbind res_bind]. rewrite R1.
  unfold tree_name, colour_char. unfold picture_part in P. injection P as -> _ _ _ _.
  eexists _, _. split; [reflexivity|]. split; [exact K|]. by rewrite (built_length _ _ _ _ _ _ B).
Qed.

Lemma root_tree_kept rs rs' r a up t :
  all_kept rs rs' → root_tree rs r a up t → ∃ a', kept a a' ∧ root_tree rs' r a' up t.
Proof.
  intros K [A1 A2 A3 A4 A5 A6 A7 A8 A9]. destruct (kept_some _ _ _ _ K A1) as (a' & Ha' & Ka).
  exists a'. split; [done|]. split; try done.
  - by eapply seen_kept.
  - by rewrite (kept_length _ _ K).
  - destruct Ka as (_ & -> & _). done.
  - intros u Hu Hn. destruct (A9 u Hu Hn) as [?|(b & Hb & Bx)]; [by left|right].
    destruct (kept_some _ _ _ _ K Hb) as (b' & Hb' & Kb). exists b'. split; [done|]. by eapply kept_boxed.
Qed.

Lemma ready_keep T mem : ready T → length mem = 380 → ready (with_strings mem T).
Proof. intros [R1 R2 R3 R4] Hl. split; [exact R1|exact R2|exact R3|exact Hl]. Qed.

Lemma statistics_run T rs f r a up t :
  ready T → alternating rs → root_tree rs r a up t →
  ∃ T' rs' f', compute_fiducial_statistics T (Z.of_nat w) (Z.of_nat h) rs f r = Ok (T', rs', f') ∧
    ready T' ∧ all_kept rs rs' ∧ fx_root_colour f' = colour a ∧ fx_node_count f' = descendent_count a ∧
    fx_id f' = (if has_flag (flags a) LOST_SYMBOL_FLAG then INVALID_TREE_ID
                else treestring_to_id initialize_treeidmap (tree_name a t)).
Proof.
  intros HT Halt HR. pose proof HR as [A1 A2 A3 A4 A5 A6 A7 A8 A9]. unfold compute_fiducial_statistics.
  pose proof (height_size t) as Hhs. change 0%Z with (Z.of_nat 0).
  destruct (set_depth_run (length rs) t up rs 0) as (rs1 & E1 & _ & O1 & M1); [done|done|done|lia|lia|].
  rewrite A2 in E1. rewrite E1. cbn [mbind res_bind].
  pose proof (only_depth_kept _ _ O1) as K1. destruct (root_tree_kept _ _ _ _ _ _ K1 HR) as (a1 & Ka & HR1).
  pose proof HR1 as [B1 B2 B3 _ _ _ B7 _ B9].
  destruct (fiducial_place_run w h Hw Hh rs1 up t (length rs1) (fx_x f, fx_y f, fx_angle f)) as (s & E2 & E3); try done.
  { by eapply kept_alternating. }
  { lia. }
  { lia. }
  rewrite (ready_warp _ HT). rewrite A2 in E2. rewrite E2. cbn [mbind res_bind]. rewrite E3. cbn [mbind res_bind mean_place].
  rewrite B1. cbn [deref mbind res_bind].
  destruct Ka as ((_ & Ed & _) & Ef & P). rewrite Ef. unfold picture_part in P. injection P as Ec _ _ _ _.
  destruct (has_flag (flags a) LOST_SYMBOL_FLAG) eqn:El; cbn [mbind res_bind].
  - eexists _, _, _. split; [reflexivity|]. cbn [fx_root_colour fx_node_count fx_id].
    split; [by apply ready_keep; [|apply (ready_strings _ HT)]|]. split; [exact K1|]. rewrite Ec, Ed. split_and!; reflexivity.
  - destruct (fiducial_id_run T rs1 r a1 up t HT HR1 M1 (A8 eq_refl)) as (rs2 & mem & E4 & K2 & Lm).
    rewrite E4. cbn [mbind res_bind]. eexists _, _, _. split; [reflexivity|].
    cbn [fx_root_colour fx_node_count fx_id].
    split; [by apply ready_keep|]. split; [by etrans|]. rewrite Ec, Ed. split_and!; [reflexivity..|].
    unfold tree_name, colour_char. rewrite Ec. reflexivity.
Qed.

(** ** All roots of a frame *)

(** The region [r] of the regions [rs] of a frame is the root of the tree [t] of
    traversed regions, and [f] is what was computed of it; [Q] is what is known of the
    region and its tree. *)
Context (Q : region → rtree → Prop).
Definition identified (rs : list region) (r : nat) (f : fiducialX) : Prop :=
  ∃ a up t, rs !! r = Some a ∧ root t = r ∧ grown rs up t ∧ Q a t ∧
    fx_root_colour f = colour a ∧ fx_node_count f = descendent_count a ∧
    fx_id f = (if has_flag (flags a) LOST_SYMBOL_FLAG then INVALID_TREE_ID
               else treestring_to_id initialize_treeidmap (tree_name a (trim up t))).
Definition rooted (rs : list region) (r : nat) : Prop :=
  ∃ a up t, root_tree rs r a up (trim up t) ∧ root t = r ∧ grown rs up t ∧ Q a t.

Lemma roots_loop_run rs2 roots : ∀ T rs fids i,
  ready T → all_kept rs2 rs → alternating rs2 → Forall (rooted rs2) roots →
  length fids = max_fiducials → i < max_fiducials →
  ∃ T' rs' fids', roots_loop T (Z.of_nat w) (Z.of_nat h) max_fiducials rs fids i roots =
      Ok (T', rs', fids', Nat.min max_fiducials (i + length roots)) ∧
    length fids' = max_fiducials ∧ (∀ j, j < i → fids' !! j = fids !! j) ∧
    ∀ j r, roots !! j = Some r → i + j < max_fiducials →
      ∃ f, fids' !! (i + j) = Some f ∧ identified rs2 r f.
Proof.
  induction roots as [|r roots IH]; intros T rs fids i HT K Halt Hr Hl Hi.
  { exists T, rs, fids. cbn [roots_loop length]. rewrite Nat.add_0_r, Nat.min_r by lia. by split_and!. }
  apply Forall_cons in Hr as [(a & up & t & HR & Ht & Hg & HQ) Hr]. cbn [roots_loop].
  destruct (lookup_lt_is_Some_2 fids i) as [f0 Hf0]; [lia|]. rewrite Hf0. cbn [deref mbind res_bind].
  destruct (root_tree_kept _ _ _ _ _ _ K HR) as (a1 & Ka & HR1).
  destruct (statistics_run T rs f0 r a1 up (trim up t)) as (T1 & rs1 & f & E & HT1 & K1 & Fc & Fn & Fi); [done| |done|].
  { by eapply kept_alternating. }
  rewrite E. cbn [mbind res_bind].
  assert (Hid : identified rs2 r f).
  { exists a, up, t. destruct Ka as ((_ & Ed & _) & Ef & P). unfold picture_part in P. injection P as Ec _ _ _ _.
    split_and!; [apply (rt_region _ _ _ _ _ HR)|exact Ht|exact Hg|exact HQ|congruence|congruence|].
    rewrite Fi, Ef. unfold tree_name, colour_char. rewrite Ec. reflexivity. }
  assert (Hfi : <[i:=f]> fids !! i = Some f) by (apply list_lookup_insert_eq; lia).
  case_decide as Hmax.
  - exists T1, rs1, (<[i:=f]> fids). split_and!.
    + rewrite Nat.min_l by (simpl; lia). replace (S i) with max_fiducials by lia. reflexivity.
    + by rewrite length_insert.
    + intros j Hj. apply list_lookup_insert_ne. lia.
    + intros [|j] r' Hj Hlt; [|lia]. injection Hj as <-. exists f. by rewrite Nat.add_0_r.
  - destruct (IH T1 rs1 (<[i:=f]> fids) (S i)) as (T2 & rs3 & fids' & E2 & L2 & P2 & R2);
      [done|by etrans|done|done|by rewrite length_insert|lia|].
    exists T2, rs3, fids'. split_and!.
    + replace (i + length (r :: roots)) with (S i + length roots) by (simpl; lia). exact E2.
    + done.
    + intros j Hj. rewrite P2 by lia. apply list_lookup_insert_ne. lia.
    + intros [|j] r' Hj Hlt.
      * injection Hj as <-. exists f. rewrite Nat.add_0_r, P2 by lia. done.
      * replace (i + S j) with (S i + j) by lia. apply R2; [done|lia].
Qed.
End frame.

(** ** The ids name the trees *)

Lemma first_index_some s l k i : first_index s l k = Some i → (k ≤ i)%Z ∧ l !! Z.to_nat (i - k) = Some s.
Proof.
  revert k. induction l as [|x l IH]; intros k E; simpl in E; [done|]. case_bool_decide as Ex.
  - injection E as <-. subst. rewrite Z.sub_diag. split; [lia|done].
  - destruct (IH _ E) as [Hk Hl]. split; [lia|].
    replace (Z.to_nat (i - k)) with (S (Z.to_nat (i - (k + 1)))) by lia. done.
Qed.
Lemma valid_id s i :
  treestring_to_id initialize_treeidmap s = i → (0 ≤ i)%Z → default_tree !! Z.to_nat i = Some s.
Proof.
  intros E Hi. rewrite initialize_treeidmap_ids in E.
  destruct (first_index s default_tree 0) as [j|] eqn:Ej; simpl in E; [|unfold INVALID_TREE_ID in E; lia].
  subst j. apply first_index_some in Ej as [_ Ej]. by rewrite Z.sub_0_r in Ej.
Qed.
Lemma default_tree_length s : s ∈ default_tree → slen s = 20.
Proof.
  assert (E : forallb (λ s, slen s =? 20) default_tree = true) by (vm_compute; reflexivity).
  rewrite forallb_forall in E. intros Hs%list_elem_of_In. by apply Nat.eqb_eq, E.
Qed.

Lemma tree_name_inj a b t t' :
  tree_name a t = tree_name b t' → (colour a =? 0)%Z = (colour b =? 0)%Z ∧ dstring 0 t = dstring 0 t'.
Proof.
  unfold tree_name. intros E%(f_equal chars). rewrite !chars_unchars in E. injection E as E1 E2.
  split; [|done]. unfold colour_char in E1. by destruct (colour a =? 0)%Z, (colour b =? 0)%Z.
Qed.
Lemma alike_size t t' : alike t t' → tree_size t = tree_size t'.
Proof. intros H. by rewrite <-!(length_dstring _ 0), (alike_same_string t t' 0 H). Qed.
Lemma trim_size up t : tree_size (trim up t) = 1 ∨ trim up t = t.
Proof. destruct up, t as [r [|c [|]]]; simpl; auto. Qed.

(** [t] is what the code sees of the tree of the root [r]; [f] is the fiducial with its
    colour, its number of nodes below the root and, when it has the number of nodes the
    program looks for, the id of its name. *)
Definition recognised (rs : list region) (r : nat) (t : rtree) (f : fiducialX) : Prop :=
  ∃ a up t0, rs !! r = Some a ∧ root t0 = r ∧ grown rs up t0 ∧ tree_height t0 = 2 ∧ t = trim up t0 ∧
    fx_root_colour f = colour a ∧ fx_node_count f = (Z.of_nat (tree_size t0) - 1)%Z ∧
    fx_id f = (if decide (tree_size t0 = 19) then treestring_to_id initialize_treeidmap (tree_name a t)
               else INVALID_TREE_ID).

Lemma valid_size a t : (0 ≤ treestring_to_id initialize_treeidmap (tree_name a t))%Z → tree_size t = 19.
Proof.
  intros Hi. pose proof (valid_id _ _ eq_refl Hi) as Hs. apply list_elem_of_lookup_2, default_tree_length in Hs.
  unfold tree_name, slen in Hs. rewrite chars_unchars in Hs. simpl in Hs. rewrite length_dstring in Hs. lia.
Qed.

Lemma trim_height up t : tree_height (trim up t) ≤ tree_height t.
Proof. destruct up, t as [r [|c [|]]]; simpl; lia. Qed.

Lemma same_id_alike rs rs' r r' t t' f g :
  recognised rs r t f → recognised rs' r' t' g → (0 ≤ fx_id f)%Z →
  fx_id f = fx_id g ↔ (fx_root_colour f =? 0)%Z = (fx_root_colour g =? 0)%Z ∧ alike t t'.
Proof.
  intros (a & up & t0 & _ & _ & _ & H0 & -> & Ca & _ & Ia) (b & up' & t1 & _ & _ & _ & H1 & -> & Cb & _ & Ib) Hv.
  rewrite Ca, Cb. pose proof (trim_height up t0). pose proof (trim_height up' t1).
  assert (Hcan : dstring 0 (trim up t0) = dstring 0 (trim up' t1) ↔ alike (trim up t0) (trim up' t1))
    by (apply depth_string_canonical; unfold max_char_depth; lia).
  rewrite Ia in Hv. case_decide as Hs; [|unfold INVALID_TREE_ID in Hv; lia].
  pose proof (valid_size _ _ Hv) as Hsz. rewrite Ia, Ib. split.
  - intros E. case_decide; [|unfold INVALID_TREE_ID in E; lia].
    pose proof (valid_id _ _ eq_refl Hv) as V1. rewrite E in V1. rewrite E in Hv.
    pose proof (valid_id _ _ eq_refl Hv) as V2. rewrite V1 in V2. apply (inj Some) in V2.
    apply tree_name_inj in V2 as [? ?]. split; [done|]. by apply Hcan.
  - intros [Ec Hal]. pose proof (alike_size _ _ Hal) as Hsame.
    destruct (trim_size up' t1) as [?|E]; [lia|]. rewrite decide_True by (rewrite <-E; lia).
    unfold tree_name, colour_char. rewrite Ec, (proj2 Hcan Hal). reflexivity.
Qed.

(** ** The whole frame *)

Definition default_search : fidtracker := initialize_fidtrackerX 19 19 2 2.

Lemma default_tracker warp junk :
  tk_search (new_fidtrackerX initialize_treeidmap warp junk) = default_search ∧
  depth_string_length (new_fidtrackerX initialize_treeidmap warp junk) = 20 ∧
  length (depth_strings (new_fidtrackerX initialize_treeidmap warp junk)) = 380.
Proof.
  destruct default_tree_counts as (E1 & E2 & E3 & E4 & _). unfold new_fidtrackerX.
  cbn [tk_search depth_string_length depth_strings]. rewrite E1, E2, E3, E4. split_and!; [reflexivity..|].
  by rewrite length_fmap, length_seq.
Qed.

(** The counts of a root. *)
Lemma root_counts a :
  wanted default_search a || nearly default_search a = true →
  (depth a = 2 ∧ 16 ≤ descendent_count a < 20 ∧ (wanted default_search a = true ↔ descendent_count a = 18))%Z.
Proof.
  unfold wanted, nearly, exact_count, target_count, fuzzy_count, depth_in_range, default_search, FUZZY_NODE_RANGE. simpl.
  intros Hwn. repeat match goal with
    | |- context [(?x =? ?y)%Z] => destruct (Z.eqb_spec x y)
    | |- context [(?x <=? ?y)%Z] => destruct (Z.leb_spec x y)
    | |- context [(?x <? ?y)%Z] => destruct (Z.ltb_spec x y)
    | H : context [(?x =? ?y)%Z] |- _ => destruct (Z.eqb_spec x y)
    | H : context [(?x <=? ?y)%Z] |- _ => destruct (Z.leb_spec x y)
    | H : context [(?x <? ?y)%Z] |- _ => destruct (Z.ltb_spec x y)
    end; unfold FUZZY_NODE_RANGE in *; simpl in *; try done; split_and!; try lia; split; try done; lia.
Qed.

Lemma nodes_trim up t : sublist (nodes (trim up t)) (nodes t).
Proof.
  destruct up as [p|], t as [r [|c [|c' ch]]]; try done. simpl. apply sublist_skip, sublist_nil_l.
Qed.

Lemma grown_size_le rs up t : grown rs up t → NoDup (nodes t) → tree_size t ≤ length rs.
Proof.
  intros Hg Hn. unfold tree_size. rewrite <-(length_seq (length rs) 0). apply submseteq_length, NoDup_submseteq; [done|].
  intros x Hx. destruct (grown_trav _ _ _ _ Hg Hx) as (b & Hb & _). apply elem_of_seq.
  apply lookup_lt_Some in Hb. lia.
Qed.

(** The tree of a root, as the functions above need it. *)
Lemma rooted_root w h rs F r a :
  forest rs F → (∀ x y, edges rs x y = edges rs y x) → length rs < Z.to_nat 32768 →
  (∀ x b, rs !! x = Some b → is_leaf b = true → boxed w h b) →
  rs !! r = Some a → level a = TRAVERSED → wanted default_search a || nearly default_search a = true →
  has_flag (flags a) LOST_SYMBOL_FLAG = negb (wanted default_search a) →
  ∃ up t, root_tree w h rs r a up (trim up t) ∧ root t = r ∧ grown rs up t ∧ tree_height t = 2 ∧
    descendent_count a = (Z.of_nat (tree_size t) - 1)%Z ∧
    has_flag (flags a) LOST_SYMBOL_FLAG = negb (bool_decide (tree_size t = 19)).
Proof.
  intros HF Hsym Hlen Hbox Ha Hl Hwn Hlost.
  destruct (forest_tree rs F r HF Hsym Hlen) as (up & t & Ht & Hg & Hab & Hd & Hn & Hup & Hlv); [by exists a|].
  destruct (root_counts a Hwn) as (Hdep & Hcnt & Hwant).
  destruct (grown_root _ _ _ Hg) as (a' & Ha' & _ & Hdesc & _). rewrite Ht, Ha in Ha'. injection Ha' as <-.
  assert (Hheight : tree_height t = 2).
  { destruct (proj1 (Forall_forall _ _) Hd t) as (a' & Ha' & E); [destruct t; simpl; by left|].
    rewrite Ht, Ha in Ha'. injection Ha' as <-. lia. }
  assert (Hflag : has_flag (flags a) LOST_SYMBOL_FLAG = negb (bool_decide (tree_size t = 19))).
  { rewrite Hlost. f_equal. destruct (wanted default_search a).
    - rewrite bool_decide_true; [done|]. destruct Hwant as [Hw1 _]. specialize (Hw1 eq_refl). lia.
    - rewrite bool_decide_false; [done|]. intros E. destruct Hwant as [_ Hw2]. by discriminate Hw2; lia. }
  assert (Hts : tree_size (trim up t) ≤ tree_size t).
  { destruct (trim_size up t) as [-> | ->]; [destruct t; rewrite size_node; lia|done]. }
  exists up, t. split_and!; [|done..]. split.
  - done.
  - by destruct up, t as [? [|c [|]]].
  - apply grown_seen; [|done|done]. intros x Hx. by apply (forest_live _ _ HF).
  - eapply sublist_NoDup; [exact Hn|apply nodes_trim].
  - intros p Hp Hin. apply (Hup p Hp).
    eapply elem_of_submseteq; [exact Hin|]. apply sublist_submseteq, nodes_trim.
  - pose proof (trim_height up t). lia.
  - pose proof (grown_size_le _ _ _ Hg Hn). lia.
  - intros Hnl. rewrite Hflag in Hnl. apply negb_false_iff, bool_decide_eq_true in Hnl. lia.
  - intros u Hu Hc. assert (trim up t = RNode (root t) [] ∨ trim up t = t) as [E|E].
    { destruct up, t as [? [|c [|]]]; auto. }
    + rewrite E in Hu |- *. simpl in Hu. apply list_elem_of_singleton in Hu. by left.
    + rewrite E in Hu. right. destruct (Hlv u Hu Hc) as (b & Hb & Hbl). exists b. split; [done|]. by eapply Hbox.
Qed.

Lemma fixed_adj (rs rs' : list region) x : fixed_part <$> rs' = fixed_part <$> rs → adj rs' x = adj rs x.
Proof.
  intros E. assert (F : (fixed_part <$> rs') !! x = (fixed_part <$> rs) !! x) by (by rewrite E).
  unfold adj. rewrite !list_lookup_fmap in F. destruct (rs' !! x), (rs !! x); try done.
  unfold fixed_part in F. simpl in F. by injection F.
Qed.

(** The roots of a frame and their trees. *)
Lemma frame_roots source w h s :
  segmentable source w h → allocated s = true → width s = w → height s = h →
  length (regions_under_construction s) = 2 * w → max_adjacent_regions s < Z.to_nat 32768 →
  ∃ s1 s2 roots, step_segmenter s source = Ok s1 ∧ find_roots default_search s1 = Ok (s2, roots) ∧
    (length (regions s1) < Z.to_nat 32768 → alternating (regions s2) ∧
     ∀ r, r ∈ roots → ∃ a up t, root_tree w h (regions s2) r a up (trim up t) ∧
       root t = r ∧ grown (regions s2) up t ∧ tree_height t = 2 ∧
       descendent_count a = (Z.of_nat (tree_size t) - 1)%Z ∧
       has_flag (flags a) LOST_SYMBOL_FLAG = negb (bool_decide (tree_size t = 19))).
Proof.
  intros Himg H1 H2 H3 H4 H5. pose proof (segmentable_width _ _ _ Himg).
  destruct (scan_ok default_search source w h s)
    as (s1 & L & s2 & roots & E1 & Hseg & Er & _ & Hwant & Hroot & Hfix & Hfor); try done.
  exists s1, s2, roots. split; [exact E1|]. split; [exact Er|]. intros Hfew. destruct (Hfor Hfew) as [F HF].
  assert (Hlen2 : length (regions s2) = length (regions s1))
    by (by rewrite <-(length_fmap fixed_part), Hfix, length_fmap).
  split; [by eapply frame_alternating|].
  intros r Hr. destruct (Hroot r Hr) as (a & Ha & Hla & _ & Hlost). exists a.
  apply (rooted_root w h (regions s2) F); try done.
  - intros x y. unfold edges. rewrite !(fixed_adj _ _ _ Hfix).
    apply (graph_sym _ _ (segmented_graph _ _ _ _ _ Hseg)).
  - by rewrite Hlen2.
  - intros x b Hb Hbl. eapply frame_boxed; [exact Hseg|lia|exact Hfix|exact Hb|exact Hbl].
  - by apply (Hwant r a).
Qed.

Lemma new_ready w h junk : ready w h (new_fidtrackerX initialize_treeidmap (Some (identity_map w h)) junk).
Proof.
  destruct (default_tracker (Some (identity_map w h)) junk) as (_ & D2 & D3).
  split; [reflexivity|reflexivity|exact D2|exact D3].
Qed.

(** C8: what the fiducial finder does to a binary frame of at most 4096 pixels a
    side with fewer than 2^15 regions: libfidtrack returns without leaving one of its
    buffers, and of the roots of the search the first 512 become fiducials, each with the
    colour of its root, the number of regions below it and the id of its tree: the tree of
    19 regions whose name is in the table has that place as its id, every other one has
    the invalid id.  Two fiducials of which one has a valid id have the same id exactly
    when their roots are of one colour and their trees are alike up to the order of the
    branches. *)
Theorem fiducials_identified `{Libm, Qsort} source w h rows junk fids s1 :
  segmentable source w h → w ≤ Z.to_nat 4096 → h ≤ Z.to_nat 4096 →
  length rows = 2 * w → length fids = max_fiducials →
  let d := fiducial_allocateBuffers true rows junk fids w h in
  step_segmenter (fd_segmenter d) source = Ok s1 → length (regions s1) < Z.to_nat 32768 →
  ∃ s2 roots d' found,
    find_roots (tk_search (fd_tracker d)) s1 = Ok (s2, roots) ∧
    fiducial_frame d w h source = Ok (d', found) ∧
    length found = Nat.min max_fiducials (length roots) ∧
    (∀ i r f, roots !! i = Some r → found !! i = Some f → ∃ t, recognised (regions s2) r t f) ∧
    (∀ r r' t t' f g, recognised (regions s2) r t f → recognised (regions s2) r' t' g → (0 ≤ fx_id f)%Z →
      fx_id f = fx_id g ↔ (fx_root_colour f =? 0)%Z = (fx_root_colour g =? 0)%Z ∧ alike t t').
Proof.
  intros Himg Hw Hh Hrows Hfids d Estep Hfew.
  pose proof (segmentable_width _ _ _ Himg). pose proof (segmentable_height _ _ _ Himg).
  destruct default_tree_counts as (_ & E2 & _).
  destruct (default_tracker (Some (identity_map w h)) junk) as (D1 & _ & _).
  destruct (frame_roots source w h (fd_segmenter d)) as (s1' & s2 & roots & E1 & Er & Hall);
    [exact Himg|reflexivity|reflexivity|reflexivity|exact Hrows| |].
  { change (max_adjacent_regions _) with (Z.to_nat (max_node_count initialize_treeidmap)). rewrite E2. lia. }
  rewrite Estep in E1. injection E1 as <-. destruct (Hall Hfew) as [Halt Hroot].
  set (Q := λ (a : region) t, tree_height t = 2 ∧ descendent_count a = (Z.of_nat (tree_size t) - 1)%Z ∧
    has_flag (flags a) LOST_SYMBOL_FLAG = negb (bool_decide (tree_size t = 19))).
  destruct (roots_loop_run w h ltac:(lia) ltac:(lia) Q (regions s2) roots (fd_tracker d) (regions s2) fids 0)
    as (T' & rs' & fids' & El & Lf & _ & Hf);
    [apply new_ready|reflexivity|exact Halt| |exact Hfids|unfold max_fiducials; lia|].
  { apply Forall_forall. intros r Hr. destruct (Hroot r Hr) as (a & up & t & R1 & R2 & R3 & R4).
    exists a, up, t. exact (conj R1 (conj R2 (conj R3 R4))). }
  change (tk_search (fd_tracker d)) with (tk_search (new_fidtrackerX initialize_treeidmap (Some (identity_map w h)) junk)).
  exists s2, roots, (FiducialsData (set_regions rs' s2) fids' T'),
    (take (Nat.min max_fiducials (length roots)) fids').
  rewrite D1. split; [exact Er|]. split; [|split; [|split]].
  - unfold fiducial_frame, find_fiducialsX. rewrite Estep. cbn [mbind res_bind].
    change (tk_search (fd_tracker d)) with (tk_search (new_fidtrackerX initialize_treeidmap (Some (identity_map w h)) junk)).
    rewrite D1, Er. cbn [mbind res_bind]. change (fd_fiducials d) with fids. rewrite El. reflexivity.
  - rewrite length_take, Lf. lia.
  - intros i r f Hi Hfi.
    assert (Hlt : i < Nat.min max_fiducials (length roots)).
    { apply lookup_lt_Some in Hfi. rewrite length_take, Lf in Hfi. lia. }
    rewrite lookup_take_lt in Hfi by done.
    destruct (Hf i r Hi) as (f' & Hf' & a & up & t & A1 & A2 & A3 & (A4 & A5 & A6) & A7 & A8 & A9); [simpl; lia|].
    simpl in Hf'. rewrite Hfi in Hf'. injection Hf' as <-. exists (trim up t), a, up, t.
    rewrite A6 in A9. rewrite A5 in A8. split_and!; [exact A1|exact A2|exact A3|exact A4|reflexivity|exact A7|exact A8|].
    rewrite A9. destruct (decide (tree_size t = 19)) as [E|E]; [rewrite bool_decide_true|rewrite bool_decide_false]; reflexivity || exact E.
  - intros r r' t t' f g. apply same_id_alike.
Qed.

(** ** A frame with a fiducial *)

(** An order for [qsort] and a function for [atan]. *)
Lemma insertion_qsort_sorted {A} (cmp : A → A → Z) l :
  (∀ a b, cmp a b ≤ 0 ∨ cmp b a ≤ 0)%Z → (∀ a b c, cmp a b ≤ 0 → cmp b c ≤ 0 → cmp a c ≤ 0)%Z →
  StronglySorted (λ a b, cmp a b ≤ 0)%Z (insertion_sort (λ a b, (cmp a b <=? 0)%Z) l).
Proof.
  intros Htot Htr. induction l as [|x l IH]; [constructor|]. simpl.
  induction IH as [|y k Hk IHk Hy]; simpl; [repeat constructor|].
  destruct (Z.leb_spec (cmp x y) 0).
  - constructor; [by constructor|]. constructor; [lia|]. eapply Forall_impl; [exact Hy|].
    intros z Hz. apply (Htr x y z); [lia|done].
  - constructor; [done|]. rewrite insert_sorted_perm. constructor; [destruct (Htot y x); lia|done].
Qed.
#[local] Instance insertion_qsort : Qsort := {|
  qsort A cmp := insertion_sort (λ a b, (cmp a b <=? 0)%Z);
  qsort_perm A cmp := insertion_sort_perm _;
  qsort_sorted := @insertion_qsort_sorted;
|}.
#[local] Instance some_libm : Libm := {| atan := λ x, x |}.

(** Seven dark rings and four dark dots in a light field inside a dark frame. *)
Definition drawn (rows : list string) : list Z :=
  rows ≫= λ s, (λ c, if bool_decide (c = "#"%char) then 0%Z else 255%Z) <$> chars s.
Definition fiducial_image : list Z := drawn [
   "###############################";
   "#.............................#";
   "#.###.###.###.###.###.###.###.#";
   "#.#.#.#.#.#.#.#.#.#.#.#.#.#.#.#";
   "#.###.###.###.###.###.###.###.#";
   "#.............................#";
   "#.#...#...#...#...............#";
   "#.............................#";
   "###############################"]%string.
Definition no_fiducial : fiducialX :=
  {| fx_id := 0; fx_x := fzero; fx_y := fzero; fx_angle := fzero; fx_leaf_size := fzero;
     fx_root_size := fzero; fx_root_colour := 0; fx_node_count := 0 |}.
Definition fiducial_demo : fiducials_data :=
  fiducial_allocateBuffers true (replicate 62 7) (λ _, "x"%char) (replicate 512 no_fiducial) 31 9.

Lemma fiducial_image_segmentable : segmentable fiducial_image 31 9.
Proof. split; [reflexivity|lia|lia|]. apply (bool_decide_unpack _). vm_compute. exact I. Qed.

(** The fiducial is found, with its place in the table of trees as its id. *)
Example fiducial_found :
  match fiducial_frame fiducial_demo 31 9 fiducial_image with
  | Ok (_, found) => map fx_id found = [49%Z]
  | Fault _ => False
  end.
Proof. vm_compute. reflexivity. Qed.

Definition fiducial_segments : segmenter :=
  match step_segmenter (fd_segmenter fiducial_demo) fiducial_image with
  | Ok s => s
  | Fault _ => fd_segmenter fiducial_demo
  end.

Lemma fiducials_identified_witness :
  ∃ s2 roots d' found,
    find_roots (tk_search (fd_tracker fiducial_demo)) fiducial_segments = Ok (s2, roots) ∧
    fiducial_frame fiducial_demo 31 9 fiducial_image = Ok (d', found) ∧
    length found = Nat.min max_fiducials (length roots) ∧
    (∀ i r f, roots !! i = Some r → found !! i = Some f → ∃ t, recognised (regions s2) r t f) ∧
    (∀ r r' t t' f g, recognised (regions s2) r t f → recognised (regions s2) r' t' g → (0 ≤ fx_id f)%Z →
      fx_id f = fx_id g ↔ (fx_root_colour f =? 0)%Z = (fx_root_colour g =? 0)%Z ∧ alike t t').
Proof.
  apply (fiducials_identified fiducial_image 31 9 (replicate 62 7) (λ _, "x"%char) (replicate 512 no_fiducial)
    fiducial_segments);
    [exact fiducial_image_segmentable|lia|lia|reflexivity|reflexivity|vm_compute; reflexivity|apply Nat.ltb_lt; vm_compute; reflexivity].
Defined.
