(* ===== verification/Json.v ===== *)
(** The JSON library (src/contrib/cJSON/cJSON.c): the trees the web server
    builds, their printing into buffers of a computed size, and the parser.

    A C string is the list of its characters before the terminator, a pointer
    into it is what is left of it; moving past the terminator is [FBadAccess].
    So is a buffer too small for what is written into it, or a length that does
    not fit an [int].  Memory is never exhausted.  The links between the items
    of an array or object are the list of the items; references to shared items
    are not used by the program. *)
From Stdlib Require Import SpecFloat.
From S2P Require Import Prelude Numeric.
#[local] Open Scope Z_scope.


(** ** Items *)

Inductive json :=
  | JNull
  | JFalse
  | JTrue
  | JNumber (d : double)
  | JString (s : string)
  | JArray (l : list json)
  | JObject (l : list (string * json)).

Definition jint (z : Z) : json := JNumber (d_of_Z z).
Definition jbool (b : bool) : json := jint (if b then 1 else 0).

Definition c_str (s : string) : list ascii := c_chars (chars s).

(** [cJSON_AddItemToArray], [cJSON_AddItemToObject] and the macros around them;
    on another item the child is linked all the same and never printed. *)
Definition cJSON_AddItemToArray (item : json) (array : json) : json :=
  match array with JArray l => JArray (l ++ [item]) | j => j end.
Definition cJSON_AddItemToObject (name : string) (item : json) (object : json) : json :=
  match object with JObject l => JObject (l ++ [(name, item)]) | j => j end.
Definition cJSON_AddStringToObject (name s : string) (object : json) : json :=
  cJSON_AddItemToObject name (JString s) object.
Definition cJSON_AddNumberToObject (name : string) (n : double) (object : json) : json :=
  cJSON_AddItemToObject name (JNumber n) object.

Definition cJSON_GetArraySize (j : json) : Z :=
  match j with JArray l => Z.of_nat (length l) | JObject l => Z.of_nat (length l) | _ => 0 end.
(** A negative index is the first item. *)
Definition cJSON_GetArrayItem (i : Z) (j : json) : option json :=
  match j with
  | JArray l => l !! Z.to_nat i
  | JObject l => snd <$> l !! Z.to_nat i
  | _ => None
  end.
(** Names are compared without regard to case. *)
Definition cJSON_same (a b : list ascii) : bool := bool_decide (lower <$> a = lower <$> b).
Definition cJSON_GetObjectItem (name : string) (j : json) : option json :=
  match j with
  | JObject l => snd <$> head (filter (λ kv, cJSON_same (c_str kv.1) (c_str name) = true) l)
  | _ => None
  end.

(** ** Characters *)

Definition code (c : ascii) : Z := Z.of_nat (nat_of_ascii c).
Definition quote : ascii := "034".
Definition backslash : ascii := "\".
Definition tab : ascii := "009".
Definition newline : ascii := "010".
Definition return_ : ascii := "013".
Definition backspace : ascii := "008".
Definition formfeed : ascii := "012".
Definition between (a b c : ascii) : bool := (code a <=? code c) && (code c <=? code b).

(** ** Printing *)

(** A text and its terminator written into [size] bytes. *)
Definition emit (size : Z) (t : list ascii) : res (list ascii) :=
  if (0 <=? wrap32 size) && (Z.of_nat (length t) + 1 <=? wrap32 size) then Ok t else Fault FBadAccess.

Definition DBL_EPSILON : double := S754_finite false (2 ^ 52) (-104).
Definition d_leb : double → double → bool := SFleb.
(** [floor]. *)
Definition d_floor (d : double) : double :=
  match d with
  | S754_finite s m e =>
      if 0 <=? e then d
      else d_of_Z (if s then - ((Z.pos m + 2 ^ (- e) - 1) / 2 ^ (- e)) else Z.pos m / 2 ^ (- e))
  | _ => d
  end.
(** [printf("%.0f", d)]. *)
Definition print_f0 (d : double) : string :=
  match d with
  | S754_nan => "nan"
  | S754_infinity s => sign_str s +:+ "inf"
  | S754_zero s => sign_str s +:+ "0"
  | S754_finite s m e => let '(p, q) := ratio_of m e in sign_str s +:+ pN (round_half_even p q)
  end.
(** [printf("%e", d)]. *)
Definition fmt_e (p q : Z) : string :=
  let x := exp10 p q in
  let n := if x <=? 6 then round_half_even (p * 10 ^ (6 - x)) q else round_half_even p (q * 10 ^ (x - 6)) in
  let '(n, x) := if n =? 10 ^ 7 then (10 ^ 6, x + 1) else (n, x) in
  stake 1 (pN n) +:+ "." +:+ sdrop 1 (pN n) +:+ "e" +:+ (if x <? 0 then "-" else "+") +:+ pad0 2 (pN (Z.abs x)).
Definition print_e (d : double) : string :=
  match d with
  | S754_nan => "nan"
  | S754_infinity s => sign_str s +:+ "inf"
  | S754_zero s => sign_str s +:+ "0.000000e+00"
  | S754_finite s m e => let '(p, q) := ratio_of m e in sign_str s +:+ fmt_e p q
  end.

Definition print_number (d : double) : res (list ascii) :=
  let valueint := d_to_int d in
  if d_leb (d_abs (d_sub (d_of_Z valueint) d)) DBL_EPSILON
     && d_leb d (d_of_Z INT_MAX) && d_leb (d_of_Z INT_MIN) d
  then emit 21 (chars (print_int valueint))
  else
    emit 64 (chars (
      if d_leb (d_abs (d_sub (d_floor d) d)) DBL_EPSILON then print_f0 d
      else if d_ltb (d_abs d) (d_of_ratio false 1 (10 ^ 6)) || d_ltb (d_of_Z (10 ^ 9)) (d_abs d) then print_e d
      else print_f d)).

Definition plain_char (c : ascii) : bool :=
  (31 <? code c) && negb (bool_decide (c = quote)) && negb (bool_decide (c = backslash)).
(** What one character of a string becomes. *)
Definition escape (c : ascii) : list ascii :=
  if plain_char c then [c]
  else if decide (c = backslash) then [backslash; backslash]
  else if decide (c = quote) then [backslash; quote]
  else if decide (c = backspace) then [backslash; "b"%char]
  else if decide (c = formfeed) then [backslash; "f"%char]
  else if decide (c = newline) then [backslash; "n"%char]
  else if decide (c = return_) then [backslash; "r"%char]
  else if decide (c = tab) then [backslash; "t"%char]
  else [].
(** The length counted for it. *)
Definition escape_len (c : ascii) : Z := if plain_char c then 1 else 2.
Fixpoint string_len (l : list ascii) : Z := match l with [] => 0 | c :: l => escape_len c + string_len l end.
Definition print_string_ptr (s : string) : res (list ascii) :=
  emit (string_len (c_str s) + 3) (quote :: (c_str s ≫= escape) ++ [quote]).

Definition b2z (b : bool) : Z := if b then 1 else 0.
Definition when (b : bool) (l : list ascii) : list ascii := if b then l else [].
Fixpoint tabs (n : nat) : list ascii := match n with O => [] | S n => tab :: tabs n end.

(** [print_array] once its entries are printed. *)
Fixpoint array_len (fmt : bool) (entries : list (list ascii)) : Z :=
  match entries with [] => 5 | e :: l => Z.of_nat (length e) + 2 + b2z fmt + array_len fmt l end.
Fixpoint array_body (fmt : bool) (entries : list (list ascii)) : list ascii :=
  match entries with
  | [] => []
  | [e] => e
  | e :: l => e ++ ("," :: when fmt [" "]) ++ array_body fmt l
  end%char.
Definition array_text (fmt : bool) (entries : list (list ascii)) : list ascii :=
  ("[" :: array_body fmt entries ++ ["]"])%char.

(** [print_object] once its names and entries are printed; [depth] is that of
    the members. *)
Fixpoint object_len (fmt : bool) (depth : nat) (l : list (list ascii * list ascii)) : Z :=
  match l with
  | [] => 7 + (if fmt then Z.of_nat depth else 0)
  | (n, e) :: l =>
      Z.of_nat (length e) + Z.of_nat (length n) + 2 + (if fmt then 2 + Z.of_nat depth else 0)
      + object_len fmt depth l
  end.
Definition member_text (fmt : bool) (depth : nat) (n e : list ascii) : list ascii :=
  when fmt (tabs depth) ++ n ++ (":" :: when fmt [tab])%char ++ e.
Fixpoint object_body (fmt : bool) (depth : nat) (l : list (list ascii * list ascii)) : list ascii :=
  match l with
  | [] => []
  | [(n, e)] => member_text fmt depth n e ++ when fmt [newline]
  | (n, e) :: l => member_text fmt depth n e ++ ["," ] ++ when fmt [newline] ++ object_body fmt depth l
  end%char.
Definition object_text (fmt : bool) (depth : nat) (l : list (list ascii * list ascii)) : list ascii :=
  ("{" :: when fmt [newline] ++ object_body fmt depth l ++ when fmt (tabs (depth - 1)) ++ ["}"])%char.

(** The loop over the children. *)
Section print_each.
  Context {A B : Type} (print : A → res B).
Fixpoint print_each (l : list A) : res (list B) :=
  match l with
  | [] => Ok []
  | c :: l => e ← print c; r ← print_each l; Ok (e :: r)
  end.
End print_each.

Fixpoint print_value (j : json) (depth : nat) (fmt : bool) : res (list ascii) :=
  match j with
  | JNull => Ok (chars "null")
  | JFalse => Ok (chars "false")
  | JTrue => Ok (chars "true")
  | JNumber d => print_number d
  | JString s => print_string_ptr s
  | JArray l =>
      entries ← print_each (λ c, print_value c (S depth) fmt) l;
      emit (array_len fmt entries) (array_text fmt entries)
  | JObject l =>
      entries ← print_each (λ '(k, c), n ← print_string_ptr k; e ← print_value c (S depth) fmt; Ok (n, e)) l;
      emit (object_len fmt (S depth) entries) (object_text fmt (S depth) entries)
  end.

Definition cJSON_Print (j : json) : res string := unchars <$> print_value j 0 true.
Definition cJSON_PrintUnformatted (j : json) : res string := unchars <$> print_value j 0 false.

(** ** Parsing *)

(** A parser reaches the end of its item, returns 0, stops the program, or has
    run out of fuel. *)
Inductive presult (A : Type) :=
  | PDone (a : A) (rest : list ascii)
  | PFail
  | PFault (f : fault)
  | POut.
Arguments PDone {A} a rest.
Arguments PFail {A}.
Arguments PFault {A} f.
Arguments POut {A}.
Definition pbind {A B} (r : presult A) (k : A → list ascii → presult B) : presult B :=
  match r with PDone a rest => k a rest | PFail => PFail | PFault f => PFault f | POut => POut end.
Definition pres {A B} (r : res A) (k : A → presult B) : presult B :=
  match r with Ok a => k a | Fault f => PFault f end.

(** [*ptr] and [ptr + 1]. *)
Definition peek (s : list ascii) : ascii := match s with [] => zero | c :: _ => c end.
Definition next (s : list ascii) : res (list ascii) := match s with [] => Fault FBadAccess | _ :: s => Ok s end.

(** Is the next character [c]?  What follows it. *)
Definition eat (c : ascii) (s : list ascii) : option (list ascii) :=
  match s with d :: t => if decide (d = c) then Some t else None | [] => None end.

(** The terminator counts as white space. *)
Fixpoint json_skip (s : list ascii) : res (list ascii) :=
  match s with
  | [] => Fault FBadAccess
  | c :: t => if code c <=? 32 then json_skip t else Ok s
  end.

Definition digit (c : ascii) : bool := between "0" "9" c.
(** [*num - '0'], [char] being signed. *)
Definition digit_value (c : ascii) : Z := (if code c <? 128 then code c else code c - 256) - 48.
Definition push_digit (n : double) (c : ascii) : double := d_add (d_mul n (d_of_Z 10)) (d_of_Z (digit_value c)).
(** The digits that follow: the number, how many, what is left. *)
Fixpoint number_digits (n : double) (count : Z) (s : list ascii) : double * Z * list ascii :=
  match s with
  | c :: t => if digit c then number_digits (push_digit n c) (count + 1) t else (n, count, s)
  | [] => (n, count, s)
  end.
Fixpoint read_subscale (k : Z) (s : list ascii) : Z * list ascii :=
  match s with
  | c :: t => if digit c then read_subscale (wrap32 (k * 10 + digit_value c)) t else (k, s)
  | [] => (k, s)
  end.
(** [pow(10.0, e)] for an integer [e], correctly rounded; beyond 10^400 it is
    infinite, below 10^-400 zero. *)
Definition pow10 (e : Z) : double :=
  if 400 <? e then S754_infinity false
  else if e <? -400 then dzero
  else if 0 <=? e then d_of_Z (10 ^ e) else d_of_ratio false 1 (10 ^ (- e)).

Definition parse_number (num : list ascii) : presult json :=
  let '(sign, num) := match eat "-" num with Some t => (d_of_Z (-1), t) | None => (d_of_Z 1, num) end in
  let num := default num (eat "0" num) in
  let '(n, num) := if between "1" "9" (peek num) then let '(n, _, t) := number_digits dzero 0 num in (n, t)
                   else (dzero, num) in
  pres (match eat "." num with
        | Some t =>
            u ← next t;
            let '(n, k, u) := number_digits (push_digit n (peek t)) 1 u in Ok (n, - k, u)
        | None => Ok (n, 0, num)
        end) (λ '(n, scale, num),
  let '(e, num) :=
    match (match eat "e" num with Some t => Some t | None => eat "E" num end) with
    | Some t =>
        let '(sg, t) := match eat "+" t, eat "-" t with
                        | Some t, _ => (1, t) | None, Some t => (-1, t) | None, None => (1, t) end in
        let '(k, t) := read_subscale 0 t in (wrap32 (k * sg), t)
    | None => (0, num)
    end in
  PDone (JNumber (d_mul (d_mul sign n) (pow10 (scale + e)))) num).

(** *** Strings *)

(** [sscanf(s, "%4x", &uc)]: white space, a sign, [0x] and hexadecimal digits,
    at most four characters after the white space; [None] leaves [uc] alone. *)
Fixpoint hex_digits (width : nat) (acc : Z) (s : list ascii) : Z :=
  match width, s with
  | S w, c :: t => match hex_val c with Some d => hex_digits w (acc * 16 + Z.of_nat d) t | None => acc end
  | _, _ => acc
  end.
Definition scan_hex (width : nat) (s : list ascii) : option Z :=
  match s with
  | [] => None
  | c :: t =>
      match hex_val c with
      | None => None
      | Some _ =>
          match (if decide (c = "0"%char) then (match eat "x" t with Some u => Some u | None => eat "X" t end) else None) with
          | Some u => Some (if decide (2 ≤ width)%nat then hex_digits (width - 2) 0 u else 0)
          | None => Some (hex_digits width 0 s)
          end
      end
  end.
Fixpoint sscanf_4x (s : list ascii) : option Z :=
  match s with
  | [] => None
  | c :: t =>
      if between tab return_ c || bool_decide (c = " "%char) then sscanf_4x t
      else if decide (c = "-"%char) then (λ z, (- z) mod 2 ^ 32) <$> scan_hex 3 t
      else if decide (c = "+"%char) then scan_hex 3 t
      else scan_hex 4 s
  end.

Definition byte (z : Z) : ascii := ascii_of_nat (Z.to_nat (z mod 256)).
(** The UTF-8 bytes of [uc], and [uc] after its shifts. *)
Definition utf8 (uc : Z) : list ascii * Z :=
  let low u := byte (Z.land (Z.lor u 128) 191) in
  if uc <? 128 then ([byte uc], uc)
  else if uc <? 2048 then let u := Z.shiftr uc 6 in ([byte (Z.lor u 192); low uc], u)
  else let u := Z.shiftr uc 6 in let v := Z.shiftr u 6 in ([byte (Z.lor v 224); low u; low uc], v).

(** The first pass: one for every character or escape up to the quote. *)
Fixpoint scan_string (s : list ascii) : res Z :=
  match s with
  | [] => Ok 0
  | c :: t =>
      if bool_decide (c = quote) || (code c <=? 31) then Ok 0
      else if decide (c = backslash) then
        match t with [] => Fault FBadAccess | _ :: u => n ← scan_string u; Ok (n + 1) end
      else n ← scan_string t; Ok (n + 1)
  end.

(** What one escape other than [u] stands for. *)
Definition unescape (c : ascii) : ascii :=
  if decide (c = "b"%char) then backspace
  else if decide (c = "f"%char) then formfeed
  else if decide (c = "n"%char) then newline
  else if decide (c = "r"%char) then return_
  else if decide (c = "t"%char) then tab
  else c.
(** The second pass; [uc] is the variable of that name, [None] before it is set. *)
Fixpoint copy_string (uc : option Z) (s : list ascii) : res (list ascii * list ascii) :=
  match s with
  | [] => Ok ([], [])
  | c :: t =>
      if bool_decide (c = quote) || (code c <=? 31) then Ok ([], s)
      else if decide (c = backslash) then
        match t with
        | [] => Fault FBadAccess
        | d :: u =>
            if decide (d = "u"%char) then
              v ← deref (match sscanf_4x u with Some v => Some v | None => uc end);
              match u with
              | _ :: _ :: _ :: _ :: w => r ← copy_string (Some (utf8 v).2) w; Ok ((utf8 v).1 ++ r.1, r.2)
              | _ => Fault FBadAccess
              end
            else r ← copy_string uc u; Ok (unescape d :: r.1, r.2)
        end
      else r ← copy_string uc t; Ok (c :: r.1, r.2)
  end.

(** [parse_string]: the bytes are written into a buffer of the size of the
    first pass. *)
Definition parse_string (s : list ascii) : presult string :=
  match s with
  | c :: t =>
      if decide (c = quote) then
        pres (len ← scan_string t; r ← copy_string None t; out ← emit (len + 1) r.1; Ok (out, r.2)) (λ '(out, rest),
        PDone (unchars (c_chars out)) (match rest with d :: r => if decide (d = quote) then r else rest | [] => rest end))
      else PFail
  | [] => PFail
  end.

(** *** Values *)

Fixpoint starts (w s : list ascii) : bool :=
  match w, s with
  | [], _ => true
  | c :: w, d :: s => bool_decide (c = d) && starts w s
  | _, _ => false
  end.

(** The children of an array or object, read by [parse]. *)
Section parse_children.
  Context (parse : list ascii → presult json).

(** The loop of [parse_array], and its end. *)
Fixpoint parse_items (fuel : nat) (value : list ascii) : presult (list json) :=
  match fuel with
  | O => POut
  | S fuel =>
      match eat "," value with
      | Some t =>
          pres (json_skip t) (λ t, pbind (parse t) (λ item rest, pres (json_skip rest) (λ rest,
          pbind (parse_items fuel rest) (λ items rest, PDone (item :: items) rest))))
      | None => match eat "]" value with Some t => PDone [] t | None => PFail end
      end
  end.
Definition parse_array (fuel : nat) (value : list ascii) : presult json :=
  match eat "[" value with
  | None => PFail
  | Some t =>
      pres (json_skip t) (λ value,
      match eat "]" value with
      | Some t => PDone (JArray []) t
      | None =>
          pbind (parse value) (λ item rest, pres (json_skip rest) (λ rest,
          pbind (parse_items fuel rest) (λ items rest, PDone (JArray (item :: items)) rest)))
      end)
  end.

(** A name, a colon and a value. *)
Definition parse_member (value : list ascii) : presult (string * json) :=
  pbind (parse_string value) (λ name rest, pres (json_skip rest) (λ rest,
  match eat ":" rest with
  | Some t => pres (json_skip t) (λ t, pbind (parse t) (λ item rest, PDone (name, item) rest))
  | None => PFail
  end)).
(** The loop of [parse_object], and its end. *)
Fixpoint parse_members (fuel : nat) (value : list ascii) : presult (list (string * json)) :=
  match fuel with
  | O => POut
  | S fuel =>
      match eat "," value with
      | Some t =>
          pres (json_skip t) (λ t, pbind (parse_member t) (λ item rest, pres (json_skip rest) (λ rest,
          pbind (parse_members fuel rest) (λ items rest, PDone (item :: items) rest))))
      | None => match eat "}" value with Some t => PDone [] t | None => PFail end
      end
  end.
Definition parse_object (fuel : nat) (value : list ascii) : presult json :=
  match eat "{" value with
  | None => PFail
  | Some t =>
      pres (json_skip t) (λ value,
      match eat "}" value with
      | Some t => PDone (JObject []) t
      | None =>
          pbind (parse_member value) (λ item rest, pres (json_skip rest) (λ rest,
          pbind (parse_members fuel rest) (λ items rest, PDone (JObject (item :: items)) rest)))
      end)
  end.
End parse_children.

Fixpoint parse_value (fuel : nat) (value : list ascii) : presult json :=
  match fuel with
  | O => POut
  | S fuel =>
      if starts (chars "null") value then PDone JNull (drop 4 value)
      else if starts (chars "false") value then PDone JFalse (drop 5 value)
      else if starts (chars "true") value then PDone JTrue (drop 4 value)
      else if decide (peek value = quote) then pbind (parse_string value) (λ s rest, PDone (JString s) rest)
      else if bool_decide (peek value = "-"%char) || digit (peek value) then parse_number value
      else if decide (peek value = "["%char) then parse_array (parse_value fuel) fuel value
      else if decide (peek value = "{"%char) then parse_object (parse_value fuel) fuel value
      else PFail
  end.

(** [cJSON_Parse]: whatever follows the value is ignored. *)
Definition cJSON_Parse (fuel : nat) (value : string) : presult json :=
  pres (json_skip (chars value)) (λ value, parse_value fuel value).
