(* ===== verification/JsonText.v ===== *)
(** JSON texts: a tree is printed without leaving a buffer, and reading the
    text gives the tree back. *)
From Stdlib Require Import SpecFloat.
From S2P Require Import Prelude Numeric FloatExact Json.
#[local] Open Scope Z_scope.

(** ** Buffers *)

Lemma emit_ok size t : Z.of_nat (length t) + 1 <= size < 2 ^ 31 → emit size t = Ok t.
Proof.
  intros H. unfold emit. rewrite wrap32_id by (apply in_int_iff; lia).
  by rewrite !(proj2 (Z.leb_le _ _)) by lia.
Qed.

(** ** Strings *)

(** The characters that survive printing. *)
Definition kept (c : ascii) : Prop := escape c ≠ [].
#[export] Instance kept_dec c : Decision (kept c) := _.
Definition clean_string (s : string) : string := unchars (filter kept (c_str s)).

Lemma plain_not_special c : plain_char c = true → 31 < code c ∧ c ≠ quote ∧ c ≠ backslash.
Proof.
  unfold plain_char. rewrite !andb_true_iff, !negb_true_iff, !bool_decide_eq_false. intros [[?%Z.ltb_lt ?] ?]. done.
Qed.
(** Every character is printed as itself, as an escape, or not at all. *)
Lemma escape_cases c :
  (plain_char c = true ∧ escape c = [c])
  ∨ (plain_char c = false ∧ ∃ d, escape c = [backslash; d] ∧ unescape d = c ∧ d ≠ "u"%char)
  ∨ (plain_char c = false ∧ escape c = []).
Proof.
  unfold escape. destruct (plain_char c) eqn:E; [by left|right].
  repeat case_decide; subst; (by right) || (left; split; [done|]; eexists; split; [reflexivity|by split]).
Qed.
Lemma escape_length c : Z.of_nat (length (escape c)) <= escape_len c.
Proof.
  unfold escape_len. destruct (escape_cases c) as [[-> ->]|[(-> & d & -> & _)|[-> ->]]]; simpl; lia.
Qed.
Lemma escaped_length l : Z.of_nat (length (l ≫= escape)) <= string_len l.
Proof.
  induction l as [|c l IH]; [done|]. rewrite bind_cons, length_app. simpl. pose proof (escape_length c). lia.
Qed.
Lemma string_len_bound l : 0 <= string_len l <= 2 * Z.of_nat (length l).
Proof. induction l as [|c l IH]; [done|]. simpl string_len. unfold escape_len. case_match; simpl length; lia. Qed.

Definition string_text (s : string) : list ascii := quote :: (c_str s ≫= escape) ++ [quote].
Lemma print_string_run s :
  2 * Z.of_nat (length (c_str s)) + 3 < 2 ^ 31 → print_string_ptr s = Ok (string_text s).
Proof.
  intros H. apply emit_ok. pose proof (escaped_length (c_str s)). pose proof (string_len_bound (c_str s)).
  simpl. rewrite length_app. simpl. lia.
Qed.


Section reading.
  Context (rest : list ascii).

Lemma scan_run l : scan_string ((l ≫= escape) ++ quote :: rest) = Ok (Z.of_nat (length (filter kept l))).
Proof.
  induction l as [|c l IH]; [done|]. rewrite bind_cons, <-app_assoc, filter_cons.
  destruct (escape_cases c) as [[Hp E]|[(Hp & d & E & Hu & Hd)|[Hp E]]].
  - apply plain_not_special in Hp as (H31 & Hq & Hb). rewrite decide_True by (unfold kept; by rewrite E).
    rewrite E. cbn [app scan_string]. rewrite bool_decide_false, (proj2 (Z.leb_gt _ _)) by (done || lia). cbn [orb].
    rewrite decide_False by done. rewrite IH. cbn [mbind res_bind length]. f_equal. lia.
  - rewrite decide_True by (unfold kept; by rewrite E). rewrite E. cbn [app scan_string].
    change (bool_decide (backslash = quote) || (code backslash <=? 31)) with false. cbv iota.
    rewrite decide_True by done. rewrite IH. cbn [mbind res_bind length]. f_equal. lia.
  - rewrite decide_False by (unfold kept; rewrite E; intros Hk; by apply Hk). by rewrite E.
Qed.
Lemma copy_run uc l : copy_string uc ((l ≫= escape) ++ quote :: rest) = Ok (filter kept l, quote :: rest).
Proof.
  induction l as [|c l IH]; [done|]. rewrite bind_cons, <-app_assoc, filter_cons.
  destruct (escape_cases c) as [[Hp E]|[(Hp & d & E & Hu & Hd)|[Hp E]]].
  - apply plain_not_special in Hp as (H31 & Hq & Hb). rewrite decide_True by (unfold kept; by rewrite E).
    rewrite E. cbn [app copy_string]. rewrite bool_decide_false, (proj2 (Z.leb_gt _ _)) by (done || lia). cbn [orb].
    rewrite decide_False by done. by rewrite IH.
  - rewrite decide_True by (unfold kept; by rewrite E). rewrite E. cbn [app copy_string].
    change (bool_decide (backslash = quote) || (code backslash <=? 31)) with false. cbv iota.
    rewrite decide_True, decide_False by done. rewrite IH. cbn [mbind res_bind fst snd]. by rewrite Hu.
  - rewrite decide_False by (unfold kept; rewrite E; intros Hk; by apply Hk). by rewrite E.
Qed.
Lemma parse_string_run s :
  2 * Z.of_nat (length (c_str s)) + 3 < 2 ^ 31 → parse_string (string_text s ++ rest) = PDone (clean_string s) rest.
Proof.
  intros H. unfold string_text, parse_string. cbn [app]. rewrite decide_True by done. rewrite <-app_assoc. cbn [app].
  rewrite scan_run. cbn [mbind res_bind]. rewrite copy_run. cbn [mbind res_bind fst snd].
  pose proof (length_filter kept (c_str s)). rewrite emit_ok by lia. cbn [mbind res_bind pres].
  rewrite decide_True by done. rewrite c_chars_id; [done|].
  intros [_ Hz]%list_elem_of_filter. by apply c_chars_nonzero in Hz.
Qed.
End reading.

(** ** Numbers *)

(** What follows a number: nothing the number could go on with. *)
Definition stops (rest : list ascii) : Prop :=
  match rest with [] => True | c :: _ => digit c = false ∧ c ∉ ["."; "e"; "E"]%char end.
Lemma stops_digits n k rest : stops rest → number_digits n k rest = (n, k, rest).
Proof. destruct rest as [|c rest]; [done|]. intros [H _]. simpl. by rewrite H. Qed.
Lemma stops_eat c rest : stops rest → c ∈ ["."; "e"; "E"]%char → eat c rest = None.
Proof. destruct rest as [|d rest]; [done|]. intros [_ H] Hc. simpl. rewrite decide_False; [done|]. by intros ->. Qed.

Lemma pretty_char x :
  (x < 10)%N →
  digit (pretty_N_char x) = true ∧ digit_value (pretty_N_char x) = Z.of_N x
  ∧ ((0 < x)%N → between "1" "9" (pretty_N_char x) = true ∧ pretty_N_char x ≠ "0"%char).
Proof.
  intros. assert (x = 0 ∨ x = 1 ∨ x = 2 ∨ x = 3 ∨ x = 4 ∨ x = 5 ∨ x = 6
    ∨ x = 7 ∨ x = 8 ∨ x = 9)%N as Hx by lia.
  repeat destruct Hx as [->|Hx]; [..|subst x]; by split_and!.
Qed.

Lemma push_digit_exact y c :
  0 <= y < 2 ^ 40 → 0 <= digit_value c <= 9 → push_digit (d_of_Z y) c = d_of_Z (10 * y + digit_value c).
Proof.
  intros Hy Hc. unfold push_digit. rewrite d_mul_exact by lia. rewrite d_add_exact by lia. f_equal. lia.
Qed.

Lemma number_digits_pretty x s :
  Z.of_N x < 2 ^ 40 →
  ∃ k, number_digits dzero 0 (chars (pretty_N_go x s)) = number_digits (d_of_Z (Z.of_N x)) k (chars s).
Proof.
  revert s. apply (pretty_N_go_ind (λ x s, Z.of_N x < 2 ^ 40 →
    ∃ k, number_digits dzero 0 (chars (pretty_N_go x s)) = number_digits (d_of_Z (Z.of_N x)) k (chars s))).
  { intros s _. by exists 0. }
  clear. intros x s Hx IH Hb. pose proof (N.div_mod x 10 ltac:(lia)) as Hdm. pose proof (N.mod_lt x 10 ltac:(lia)) as Hm.
  assert (Hlt : (x / 10 < x)%N) by (apply N.div_lt; lia). set (y := (x / 10)%N) in *. set (m := (x mod 10)%N) in *.
  destruct IH as [k IH]; [lia|]. rewrite pretty_N_go_step by done. fold y m. rewrite IH. cbn [chars number_digits].
  destruct (pretty_char _ Hm) as (-> & Hv & _). exists (k + 1). f_equal.
  rewrite push_digit_exact by lia. rewrite Hv. f_equal. lia.
Qed.
Lemma pretty_go_head x s :
  (0 < x)%N → ∃ c t, chars (pretty_N_go x s) = c :: t ∧ between "1" "9" c = true ∧ c ≠ "0"%char.
Proof.
  revert s. apply (pretty_N_go_ind (λ x s, (0 < x)%N →
    ∃ c t, chars (pretty_N_go x s) = c :: t ∧ between "1" "9" c = true ∧ c ≠ "0"%char)); [lia|].
  clear. intros x s Hx IH _. rewrite pretty_N_go_step by done.
  destruct (decide (x / 10 = 0)%N) as [E|E]; [|apply IH; by apply N.neq_0_lt_0].
  rewrite E, pretty_N_go_0. cbn [chars]. pose proof (N.mod_lt x 10 ltac:(lia)) as Hm.
  pose proof (N.div_mod x 10 ltac:(lia)) as Hdm. destruct (pretty_char _ Hm) as (_ & _ & H).
  eexists _, _. split; [reflexivity|]. apply H. lia.
Qed.
Lemma pretty_go_app x s rest : chars (pretty_N_go x s) ++ rest = chars (pretty_N_go x (s +:+ unchars rest)).
Proof.
  revert s. apply (pretty_N_go_ind (λ x s, chars (pretty_N_go x s) ++ rest = chars (pretty_N_go x (s +:+ unchars rest)))).
  - intros s. rewrite !pretty_N_go_0, chars_app. by rewrite chars_unchars.
  - clear. intros x s Hx IH. by rewrite !(pretty_N_go_step x) by done.
Qed.

(** Reading the digits of a positive number, after its sign. *)
Lemma parse_digits p rest :
  Z.pos p < 2 ^ 40 → stops rest →
  ∃ c t, chars (pretty (N.pos p)) ++ rest = c :: t ∧ between "1" "9" c = true ∧ c ≠ "0"%char
    ∧ ∃ k, number_digits dzero 0 (c :: t) = (d_of_Z (Z.pos p), k, rest).
Proof.
  intros Hp Hs. assert (E : pretty (N.pos p) = pretty_N_go (N.pos p) EmptyString) by done.
  rewrite E, pretty_go_app. destruct (pretty_go_head (N.pos p) (EmptyString +:+ unchars rest)) as (c & t & Hc & H1 & H2); [lia|].
  exists c, t. split_and!; [done..|]. rewrite <-Hc.
  destruct (number_digits_pretty (N.pos p) (EmptyString +:+ unchars rest)) as [k ->]; [lia|].
  exists k. rewrite sapp_nil_l, chars_unchars. by apply stops_digits.
Qed.

Lemma pow10_0 : pow10 0 = d_of_Z 1.
Proof. done. Qed.
Lemma eat_ne c d t : d ≠ c → eat c (d :: t) = None.
Proof. intros H. simpl. by rewrite decide_False. Qed.
Lemma eat_eq c t : eat c (c :: t) = Some t.
Proof. simpl. by rewrite decide_True. Qed.
Lemma between_ne a b c d : between a b c = true → between a b d = false → c ≠ d.
Proof. intros H1 H2 ->. congruence. Qed.

Lemma parse_number_run z rest :
  in_int z = true → stops rest → parse_number (chars (print_int z) ++ rest) = PDone (JNumber (d_of_Z z)) rest.
Proof.
  intros Hz Hs. apply in_int_iff in Hz.
  assert (Htail : ∀ (sign n r : double), d_mul (d_mul sign n) (d_of_Z 1) = r →
    pres (match eat "." rest with
        | Some t => u ← next t; let '(n, k, u) := number_digits (push_digit n (peek t)) 1 u in Ok (n, - k, u)
        | None => Ok (n, 0, rest)
        end) (λ '(n, scale, num),
      let '(e, num) :=
        match (match eat "e" num with Some t => Some t | None => eat "E" num end) with
        | Some t =>
            let '(sg, t) := match eat "+" t, eat "-" t with
                            | Some t, _ => (1, t) | None, Some t => (-1, t) | None, None => (1, t) end in
            let '(k, t) := read_subscale 0 t in (wrap32 (k * sg), t)
        | None => (0, num)
        end in
      PDone (JNumber (d_mul (d_mul sign n) (pow10 (scale + e)))) num) = PDone (JNumber r) rest).
  { intros sign n r Hr. rewrite (stops_eat ".") by (done || set_solver). cbn [pres].
    rewrite (stops_eat "e"), (stops_eat "E") by (done || set_solver). change (0 + 0) with 0. by rewrite pow10_0, Hr. }
  unfold print_int, parse_number. destruct z as [|p|p].
  - change (chars (pretty 0) ++ rest) with ("0"%char :: rest). rewrite eat_ne by done. rewrite eat_eq. cbn [from_option id].
    assert (Hb : between "1" "9" (peek rest) = false).
    { destruct rest as [|c rest]; [done|]. destruct Hs as [Hd _]. simpl. unfold digit, between in *.
      apply andb_false_iff in Hd as [Hd|Hd]; apply andb_false_iff; [left|right; done].
      apply Z.leb_gt in Hd. apply Z.leb_gt. change (code "1") with 49. change (code "0") with 48 in Hd. lia. }
    rewrite Hb. by apply Htail.
  - change (pretty (Z.pos p)) with (pretty (N.pos p)).
    destruct (parse_digits p rest) as (c & t & -> & Hc & H0 & k & Hk); [lia|done|].
    rewrite eat_ne by (by eapply between_ne). rewrite eat_ne by done. cbn [from_option id peek]. rewrite Hc, Hk.
    apply Htail. rewrite !d_mul_exact by lia. f_equal. lia.
  - change (chars (pretty (Z.neg p)) ++ rest) with ("-"%char :: (chars (pretty (N.pos p)) ++ rest)). rewrite eat_eq.
    destruct (parse_digits p rest) as (c & t & -> & Hc & H0 & k & Hk); [lia|done|].
    rewrite eat_ne by done. cbn [from_option id peek]. rewrite Hc, Hk.
    apply Htail. rewrite !d_mul_exact by lia. f_equal. lia.
Qed.

(** A 32-bit integer is printed as such. *)
Lemma print_number_run z :
  in_int z = true → print_number (d_of_Z z) = emit 21 (chars (print_int z)).
Proof.
  intros Hz. pose proof (proj1 (in_int_iff z) Hz). unfold print_number. rewrite d_to_int_of_Z by done.
  rewrite d_sub_self by lia. unfold d_leb. rewrite (SFleb_of_Z z INT_MAX), (SFleb_of_Z INT_MIN z) by (unfold INT_MAX, INT_MIN; lia).
  done.
Qed.

(** ** Trees *)

(** Induction on the tree, through the lists of children. *)
Section json_ind.
  Context (P : json → Prop).
  Hypothesis Hnull : P JNull.
  Hypothesis Hfalse : P JFalse.
  Hypothesis Htrue : P JTrue.
  Hypothesis Hnumber : ∀ d, P (JNumber d).
  Hypothesis Hstring : ∀ s, P (JString s).
  Hypothesis Harray : ∀ l, Forall P l → P (JArray l).
  Hypothesis Hobject : ∀ l, Forall (λ kv, P kv.2) l → P (JObject l).
Fixpoint json_tree_ind (j : json) : P j :=
  match j with
  | JNull => Hnull | JFalse => Hfalse | JTrue => Htrue | JNumber d => Hnumber d | JString s => Hstring s
  | JArray l =>
      Harray l ((fix go l : Forall P l :=
        match l with [] => Forall_nil_2 _ | c :: l => Forall_cons_2 _ _ _ (json_tree_ind c) (go l) end) l)
  | JObject l =>
      Hobject l ((fix go l : Forall (λ kv, P kv.2) l :=
        match l with [] => Forall_nil_2 _ | kv :: l => Forall_cons_2 _ _ _ (json_tree_ind kv.2) (go l) end) l)
  end.
End json_ind.

(** The text of a tree. *)
Fixpoint json_text (fmt : bool) (depth : nat) (j : json) : list ascii :=
  match j with
  | JNull => chars "null"
  | JFalse => chars "false"
  | JTrue => chars "true"
  | JNumber d => chars (print_int (d_to_int d))
  | JString s => string_text s
  | JArray l => array_text fmt (map (json_text fmt (S depth)) l)
  | JObject l => object_text fmt (S depth) (map (λ kv, (string_text kv.1, json_text fmt (S depth) kv.2)) l)
  end.

(** All its numbers are 32-bit integers. *)
Fixpoint json_ints (j : json) : Prop :=
  match j with
  | JNumber d => ∃ z, in_int z = true ∧ d = d_of_Z z
  | JArray l => (fix go l := match l with [] => True | c :: l => json_ints c ∧ go l end) l
  | JObject l => (fix go (l : list (string * json)) := match l with [] => True | kv :: l => json_ints kv.2 ∧ go l end) l
  | _ => True
  end.

(** The bytes its printing asks for. *)
Definition string_room (s : string) : Z := 2 * Z.of_nat (length (c_str s)) + 3.
Fixpoint zsum (l : list Z) : Z := match l with [] => 0 | x :: l => x + zsum l end.
Fixpoint room (depth : nat) (j : json) : Z :=
  match j with
  | JNull | JFalse | JTrue => 8
  | JNumber _ => 21
  | JString s => string_room s
  | JArray l => 8 + zsum (map (λ c, room (S depth) c + 3) l)
  | JObject l => 8 + Z.of_nat depth + zsum (map (λ kv, string_room kv.1 + room (S depth) kv.2 + Z.of_nat depth + 5) l)
  end.

(** What reading makes of it: the control characters without an escape, and
    what follows a NUL, are gone from its strings. *)
Fixpoint clean (j : json) : json :=
  match j with
  | JString s => JString (clean_string s)
  | JArray l => JArray (map clean l)
  | JObject l => JObject (map (λ kv, (clean_string kv.1, clean kv.2)) l)
  | _ => j
  end.

Lemma json_ints_array l : json_ints (JArray l) ↔ Forall json_ints l.
Proof. simpl. induction l as [|c l IH]; [by split|]. rewrite Forall_cons, <-IH. done. Qed.
Lemma json_ints_object l : json_ints (JObject l) ↔ Forall (λ kv, json_ints kv.2) l.
Proof. simpl. induction l as [|c l IH]; [by split|]. rewrite Forall_cons, <-IH. done. Qed.

Lemma room_pos depth j : 0 < room depth j.
Proof.
  revert depth. induction j as [| | |d|s|l IH|l IH] using json_tree_ind; intros depth; simpl; try lia.
  - unfold string_room. lia.
  - assert (0 <= zsum (map (λ c, room (S depth) c + 3) l)); [|lia].
    induction IH as [|c l Hc _ IHl]; simpl; [lia|]. specialize (Hc (S depth)). lia.
  - assert (0 <= zsum (map (λ kv, string_room kv.1 + room (S depth) kv.2 + Z.of_nat depth + 5) l)); [|lia].
    induction IH as [|c l Hc _ IHl]; simpl; [lia|]. specialize (Hc (S depth)). unfold string_room in *. lia.
Qed.

(** ** Printing a tree *)

Lemma print_int_length z : in_int z = true → Z.of_nat (length (chars (print_int z))) + 1 <= 21.
Proof.
  intros Hz%in_int_iff. assert (Hp : ∀ p, Z.pos p <= 2 ^ 31 → Z.of_nat (length (chars (pretty (N.pos p)))) <= 10).
  { intros p Hp. change (pretty (N.pos p)) with (pretty_N_go (N.pos p) EmptyString).
    pose proof (slen_pretty_go_bound 10 (N.pos p) EmptyString) as H. unfold slen in H. simpl (length (chars EmptyString)) in H.
    change (10 ^ N.of_nat 10)%N with 10000000000%N in H. lia. }
  unfold print_int. destruct z as [|p|p]; [by vm_compute| |].
  - change (pretty (Z.pos p)) with (pretty (N.pos p)). specialize (Hp p). lia.
  - change (chars (pretty (Z.neg p))) with ("-"%char :: chars (pretty (N.pos p))). specialize (Hp p). simpl. lia.
Qed.

Lemma array_sizes fmt es :
  Z.of_nat (length (array_text fmt es)) + 1 <= array_len fmt es.
Proof.
  unfold array_text. simpl. rewrite length_app. simpl.
  assert (H : Z.of_nat (length (array_body fmt es)) + 5 <= array_len fmt es).
  { induction es as [|e es IH]; [done|]. destruct es as [|e' es]; [simpl; destruct fmt; simpl; lia|].
    cbn [array_body array_len] in *. rewrite !length_app. simpl. destruct fmt; simpl in *; lia. }
  lia.
Qed.
Lemma tabs_length n : length (tabs n) = n.
Proof. induction n; simpl; congruence. Qed.
Lemma member_length fmt depth n e :
  Z.of_nat (length (member_text fmt depth n e))
  = Z.of_nat (length n) + Z.of_nat (length e) + 1 + (if fmt then Z.of_nat depth + 1 else 0).
Proof. unfold member_text. destruct fmt; simpl; rewrite ?length_app, ?tabs_length; simpl; rewrite ?length_app; simpl; lia. Qed.
Lemma object_sizes fmt depth l :
  Z.of_nat (length (object_text fmt (S depth) l)) + 1 <= object_len fmt (S depth) l.
Proof.
  unfold object_text.
  assert (H : Z.of_nat (length (object_body fmt (S depth) l)) + 7 + (if fmt then Z.of_nat (S depth) else 0) <= object_len fmt (S depth) l).
  { induction l as [|[n e] l IH]; [simpl; destruct fmt; lia|]. destruct l as [|[n' e'] l].
    - cbn [object_body object_len]. rewrite length_app. pose proof (member_length fmt (S depth) n e). destruct fmt; simpl in *; lia.
    - cbn [object_body object_len] in *. rewrite !length_app. pose proof (member_length fmt (S depth) n e).
      destruct fmt; simpl in *; lia. }
  cbn [length]. rewrite !length_app. replace (S depth - 1)%nat with depth by lia.
  destruct fmt; cbn [when length] in *; rewrite ?tabs_length in *; lia.
Qed.

(** The loop prints every child, in a bounded total length. *)
Lemma print_each_run {A B} (print : A → res B) (f : A → B) (len : B → Z) (size : A → Z) (l : list A) :
  Forall (λ c, print c = Ok (f c) ∧ len (f c) <= size c) l →
  print_each print l = Ok (map f l) ∧ zsum (map len (map f l)) <= zsum (map size l).
Proof.
  induction 1 as [|c l [Hc Hs] _ [IH1 IH2]]; [done|]. cbn [print_each map zsum]. rewrite Hc, IH1. split; [done|lia].
Qed.
Lemma zsum_nonneg {A} (f : A → Z) l : (∀ a, 0 <= f a) → 0 <= zsum (map f l).
Proof. intros H. induction l as [|a l IH]; simpl; [lia|]. specialize (H a). lia. Qed.
Lemma zsum_elem {A} (f : A → Z) l a : (∀ a, 0 <= f a) → a ∈ l → f a <= zsum (map f l).
Proof.
  intros H. induction 1 as [a l|a b l _ IH]; simpl; [pose proof (zsum_nonneg f l H)|specialize (H b)]; lia.
Qed.

Lemma string_text_length s : Z.of_nat (length (string_text s)) + 1 <= string_room s.
Proof.
  unfold string_text, string_room. simpl. rewrite length_app. pose proof (escaped_length (c_str s)).
  pose proof (string_len_bound (c_str s)). simpl. lia.
Qed.
Lemma array_len_sum fmt es : array_len fmt es <= 5 + zsum (map (λ e, Z.of_nat (length e) + 3) es).
Proof. induction es as [|e es IH]; [done|]. cbn [array_len map zsum]. destruct fmt; simpl; lia. Qed.
Lemma object_len_sum fmt depth l :
  object_len fmt (S depth) l
  <= 8 + Z.of_nat depth + zsum (map (λ ne : list ascii * list ascii, Z.of_nat (length ne.1) + Z.of_nat (length ne.2) + Z.of_nat depth + 5) l).
Proof.
  induction l as [|[n e] l IH]; cbn [object_len map zsum fst snd]; [destruct fmt; lia|]. destruct fmt; lia.
Qed.

Definition printed (fmt : bool) (depth : nat) (j : json) : Prop :=
  print_value j depth fmt = Ok (json_text fmt depth j) ∧ Z.of_nat (length (json_text fmt depth j)) + 1 <= room depth j.

Lemma print_array_run fmt depth l :
  Forall (printed fmt (S depth)) l → room depth (JArray l) < 2 ^ 31 → printed fmt depth (JArray l).
Proof.
  intros Hl Hr. unfold printed. cbn [print_value json_text room] in *.
  destruct (print_each_run (λ c, print_value c (S depth) fmt) (json_text fmt (S depth))
    (λ e, Z.of_nat (length e) + 3) (λ c, room (S depth) c + 3) l) as [-> Hsum].
  { eapply Forall_impl; [exact Hl|]. intros c [H1 H2]. split; [done|lia]. }
  cbn [mbind res_bind]. pose proof (array_len_sum fmt (map (json_text fmt (S depth)) l)).
  pose proof (array_sizes fmt (map (json_text fmt (S depth)) l)). rewrite emit_ok by lia. split; [done|lia].
Qed.
Lemma print_object_run fmt depth l :
  Forall (λ kv, printed fmt (S depth) kv.2) l → room depth (JObject l) < 2 ^ 31 → printed fmt depth (JObject l).
Proof.
  intros Hl Hr. unfold printed. cbn [print_value json_text room] in *.
  set (f := λ kv : string * json, string_room kv.1 + room (S depth) kv.2 + Z.of_nat depth + 5) in *.
  set (g := λ kv : string * json, (string_text kv.1, json_text fmt (S depth) kv.2)).
  destruct (print_each_run (λ '(k, c), n ← print_string_ptr k; e ← print_value c (S depth) fmt; Ok (n, e)) g
    (λ ne, Z.of_nat (length ne.1) + Z.of_nat (length ne.2) + Z.of_nat depth + 5) f l) as [-> Hsum].
  { apply Forall_forall. intros [k c] Hkc. pose proof (proj1 (Forall_forall _ _) Hl _ Hkc) as [H1 H2]. cbn [snd] in *.
    assert (Hf : string_room k + room (S depth) c + Z.of_nat depth + 5 <= zsum (map f l)).
    { apply (zsum_elem f l (k, c)); [|done]. intros [k' c']. pose proof (room_pos (S depth) c'). unfold f, string_room. simpl. lia. }
    pose proof (string_text_length k). pose proof (room_pos (S depth) c).
    rewrite print_string_run by (unfold string_room in *; lia). rewrite H1. split; [done|]. unfold f, g. cbn [fst snd]. lia. }
  cbn [mbind res_bind]. pose proof (object_len_sum fmt depth (map g l)).
  pose proof (object_sizes fmt depth (map g l)). rewrite emit_ok by lia. split; [done|lia].
Qed.

(** A child needs less room than its parent. *)
Lemma room_elem depth l c : c ∈ l → room (S depth) c < room depth (JArray l).
Proof.
  intros Hc. cbn [room]. assert (Hp : ∀ a, 0 <= room (S depth) a + 3) by (intros a; pose proof (room_pos (S depth) a); lia).
  pose proof (zsum_elem (λ c, room (S depth) c + 3) l c Hp Hc) as Hs. cbv beta in Hs. lia.
Qed.
Lemma room_member depth l kv :
  kv ∈ l → room (S depth) kv.2 < room depth (JObject l) ∧ string_room kv.1 < room depth (JObject l).
Proof.
  intros Hc. cbn [room].
  assert (Hp : ∀ a : string * json, 0 <= string_room a.1 + room (S depth) a.2 + Z.of_nat depth + 5)
    by (intros a; pose proof (room_pos (S depth) a.2); unfold string_room; lia).
  pose proof (zsum_elem (λ kv, string_room kv.1 + room (S depth) kv.2 + Z.of_nat depth + 5) l kv Hp Hc) as Hs. cbv beta in Hs.
  assert (0 < string_room kv.1) by (unfold string_room; lia). pose proof (room_pos (S depth) kv.2). lia.
Qed.

Lemma print_value_run fmt j depth : json_ints j → room depth j < 2 ^ 31 → printed fmt depth j.
Proof.
  revert depth. induction j as [| | |d|s|l IH|l IH] using json_tree_ind; intros depth Hi Hr; try (by split).
  - destruct Hi as (z & Hz & ->). unfold printed. cbn [print_value json_text room].
    rewrite print_number_run, d_to_int_of_Z by done. pose proof (print_int_length z Hz). by rewrite emit_ok by lia.
  - unfold printed. cbn [print_value json_text room] in *.
    split; [by apply print_string_run|apply string_text_length].
  - apply print_array_run; [|done]. apply json_ints_array in Hi. rewrite !Forall_forall in *. intros c Hc.
    apply IH; [done|by apply Hi|]. pose proof (room_elem depth l c Hc). lia.
  - apply print_object_run; [|done]. apply json_ints_object in Hi. rewrite !Forall_forall in *. intros kv Hkv.
    apply IH; [done|by apply Hi|]. pose proof (room_member depth l kv Hkv). lia.
Qed.

(** ** Reading a tree *)

Lemma skip_char c t : 32 < code c → json_skip (c :: t) = Ok (c :: t).
Proof. intros H. simpl. by rewrite (proj2 (Z.leb_gt _ _)) by lia. Qed.
Lemma skip_blank w c t : Forall (λ c, code c <= 32) w → 32 < code c → json_skip (w ++ c :: t) = Ok (c :: t).
Proof.
  intros Hw Hc. induction Hw as [|d w Hd _ IH]; [by apply skip_char|]. simpl. by rewrite (proj2 (Z.leb_le _ _)) by lia.
Qed.
Lemma blank_tabs n : Forall (λ c, code c <= 32) (tabs n).
Proof. induction n; simpl; constructor; done. Qed.
Lemma blank_when fmt w : Forall (λ c, code c <= 32) w → Forall (λ c, code c <= 32) (when fmt w).
Proof. by destruct fmt; simpl. Qed.

(** A text starts with a character that is no white space, and closes nothing. *)
Definition opens (t : list ascii) : Prop :=
  ∃ c u, t = c :: u ∧ 32 < code c ∧ c ≠ "]"%char ∧ c ≠ "}"%char.
Lemma print_int_opens z :
  ∃ c u, chars (print_int z) = c :: u ∧ (c = "-"%char ∨ digit c = true).
Proof.
  unfold print_int. destruct z as [|p|p]; [by exists "0"%char, []; split; [|right]| |].
  - change (pretty (Z.pos p)) with (pretty_N_go (N.pos p) EmptyString).
    destruct (pretty_go_head (N.pos p) EmptyString) as (c & u & -> & Hc & _); [lia|].
    exists c, u. split; [done|right]. unfold digit, between in *. apply andb_true_iff in Hc as [H1 H2].
    rewrite H2, andb_true_r. apply Z.leb_le in H1. apply Z.leb_le. change (code "1") with 49 in H1. change (code "0") with 48. lia.
  - exists "-"%char. eexists. split; [reflexivity|by left].
Qed.
Lemma number_char c : c = "-"%char ∨ digit c = true → 32 < code c ∧ c ∉ ["]"; "}"; "n"; "f"; "t"; quote]%char.
Proof.
  intros H. assert (Hc : 45 <= code c <= 57).
  { destruct H as [->|H]; [by vm_compute|]. unfold digit, between in H. apply andb_true_iff in H as [H1%Z.leb_le H2%Z.leb_le].
    change (code "0") with 48 in H1. change (code "9") with 57 in H2. lia. }
  split; [lia|]. rewrite !elem_of_cons, elem_of_nil. destruct Hc as [H1%Z.leb_le H2%Z.leb_le].
  intros [->|[->|[->|[->|[->|[->|[]]]]]]]; vm_compute in H1, H2; congruence.
Qed.
Lemma text_opens fmt depth j : opens (json_text fmt depth j).
Proof.
  destruct j; cbn [json_text]; try (by eexists _, _; split; [reflexivity|by split_and!]).
  destruct (print_int_opens (d_to_int d)) as (c & u & -> & H). apply number_char in H as [H1 H2].
  exists c, u. split_and!; [done|done|set_solver..].
Qed.
Lemma skip_opens w t rest : Forall (λ c, code c <= 32) w → opens t → json_skip (w ++ t ++ rest) = Ok (t ++ rest).
Proof. intros Hw (c & u & -> & Hc & _). by apply skip_blank. Qed.
Lemma opens_eat t rest c : opens t → c ∈ ["]"; "}"]%char → eat c (t ++ rest) = None.
Proof. intros (d & u & -> & _ & H1 & H2) Hc. apply eat_ne. intros ->. set_solver. Qed.

Definition reads (fmt : bool) (depth : nat) (j : json) : Prop :=
  ∀ rest fuel, (length (json_text fmt depth j) ≤ fuel)%nat → stops rest →
    parse_value fuel (json_text fmt depth j ++ rest) = PDone (clean j) rest.

(** *** Arrays *)

(** An entry after the first. *)
Definition comma (fmt : bool) (e : list ascii) : list ascii := ("," :: when fmt [" "] ++ e)%char.
Lemma array_body_cons fmt e es :
  array_body fmt (e :: es) = e ++ (es ≫= comma fmt).
Proof.
  revert e. induction es as [|e' es IH]; intros e; [by rewrite app_nil_r|].
  change (array_body fmt (e :: e' :: es)) with (e ++ ("," :: when fmt [" "])%char ++ array_body fmt (e' :: es)).
  rewrite IH. rewrite bind_cons. unfold comma at 2. cbn [app]. by rewrite <-!app_assoc.
Qed.
Lemma items_stop fmt es rest :
  let t := (es ≫= comma fmt) ++ "]"%char :: rest in
  stops t ∧ json_skip t = Ok t.
Proof. destruct es; split; try done; split; (done || set_solver). Qed.

(** [parse] reads the text of [c] back, whatever number-free text follows. *)
Definition parses (parse : list ascii → presult json) (fmt : bool) (depth : nat) (c : json) : Prop :=
  ∀ rest, stops rest → parse (json_text fmt depth c ++ rest) = PDone (clean c) rest.
Lemma reads_parses fmt depth c fuel :
  reads fmt depth c → (length (json_text fmt depth c) ≤ fuel)%nat → parses (parse_value fuel) fmt depth c.
Proof. intros H Hf rest Hs. by apply H. Qed.

Ltac lengths := do 4 (rewrite ?length_app; cbn [length]).
Lemma bind_elem_length {A} (f : A → list ascii) l a : a ∈ l → (length (f a) ≤ length (l ≫= f))%nat.
Proof. induction 1 as [a l|a b l _ IH]; rewrite bind_cons, length_app; lia. Qed.

Lemma items_run parse fmt depth l rest fuel :
  Forall (parses parse fmt (S depth)) l →
  let t := map (json_text fmt (S depth)) l ≫= comma fmt in
  (length t + 1 ≤ fuel)%nat → parse_items parse fuel (t ++ "]"%char :: rest) = PDone (map clean l) rest.
Proof.
  intros Hl. revert fuel. induction Hl as [|c l Hc Hl IH]; intros fuel; cbn [map]; [by destruct fuel; simpl; [lia|]|].
  rewrite bind_cons. destruct fuel as [|fuel]; [simpl; lia|]. cbv zeta. unfold comma at 1 3. lengths.
  intros Hf. cbn [parse_items app]. rewrite eat_eq. rewrite <-!app_assoc.
  rewrite skip_opens by (apply text_opens || by destruct fmt; repeat constructor). cbn [pres].
  destruct (items_stop fmt (map (json_text fmt (S depth)) l) rest) as [Hs Hk]. cbv zeta in Hs, Hk.
  rewrite Hc by done. cbn [pbind]. rewrite Hk. cbn [pres]. rewrite IH by lia. done.
Qed.

(** The first characters that lead to [parse_array] and [parse_object]. *)
Lemma parse_value_array fuel t : parse_value (S fuel) ("["%char :: t) = parse_array (parse_value fuel) fuel ("["%char :: t).
Proof. done. Qed.
Lemma parse_value_object fuel t : parse_value (S fuel) ("{"%char :: t) = parse_object (parse_value fuel) fuel ("{"%char :: t).
Proof. done. Qed.

Lemma array_run fmt depth l : Forall (reads fmt (S depth)) l → reads fmt depth (JArray l).
Proof.
  intros Hl rest fuel Hf Hs. cbn [json_text] in *. unfold array_text in *. destruct fuel as [|fuel]; [simpl in Hf; lia|].
  cbn [app]. rewrite parse_value_array. unfold parse_array. rewrite eat_eq, <-app_assoc. cbn [app].
  destruct Hl as [|c l Hc Hl]; [done|]. cbn [map] in *. rewrite array_body_cons in *. rewrite <-app_assoc.
  pose proof (text_opens fmt (S depth) c) as Ho.
  pose proof (skip_opens [] _ ((map (json_text fmt (S depth)) l ≫= comma fmt) ++ "]"%char :: rest) (Forall_nil_2 _) Ho) as E.
  cbn [app] in E. rewrite E. cbn [pres]. rewrite opens_eat by (done || set_solver). revert Hf. lengths. intros Hf.
  destruct (items_stop fmt (map (json_text fmt (S depth)) l) rest) as [Hs' Hk]. cbv zeta in Hs', Hk.
  rewrite Hc by (done || lia). cbn [pbind]. rewrite Hk. cbn [pres]. rewrite items_run; [done| |lia].
  rewrite Forall_forall in *. intros d Hd. apply reads_parses; [by apply Hl|].
  pose proof (bind_elem_length (comma fmt) _ (json_text fmt (S depth) d) (list_elem_of_fmap_2 _ _ _ Hd)) as H.
  unfold comma at 1 in H. cbn [length] in H. rewrite length_app in H. change (json_text fmt (S depth) <$> l) with (map (json_text fmt (S depth)) l) in H. lia.
Qed.

(** *** Objects *)

(** A member after the first. *)
Definition comma_member (fmt : bool) (depth : nat) (m : list ascii * list ascii) : list ascii :=
  ("," :: when fmt [newline] ++ member_text fmt depth m.1 m.2)%char.
Lemma object_body_cons fmt depth m ms :
  object_body fmt depth (m :: ms)
  = member_text fmt depth m.1 m.2 ++ (ms ≫= comma_member fmt depth) ++ when fmt [newline].
Proof.
  revert m. induction ms as [|m' ms IH]; intros [n e]; [done|].
  change (object_body fmt depth ((n, e) :: m' :: ms))
    with (member_text fmt depth n e ++ [","%char] ++ when fmt [newline] ++ object_body fmt depth (m' :: ms)).
  rewrite IH, bind_cons. unfold comma_member at 2. cbn [fst snd app]. by rewrite <-!app_assoc.
Qed.

Definition member_of (fmt : bool) (depth : nat) (kv : string * json) : list ascii * list ascii :=
  (string_text kv.1, json_text fmt depth kv.2).
Definition clean_member (kv : string * json) : string * json := (clean_string kv.1, clean kv.2).
(** The end of an object, white space first. *)
Definition closing (fmt : bool) (depth : nat) (rest : list ascii) : list ascii :=
  when fmt [newline] ++ when fmt (tabs depth) ++ "}"%char :: rest.

Lemma skip_closing fmt depth rest : json_skip (closing fmt depth rest) = Ok ("}"%char :: rest).
Proof.
  unfold closing. rewrite app_assoc. apply skip_blank; [|done]. apply Forall_app_2; apply blank_when; [|apply blank_tabs].
  by constructor.
Qed.
Lemma closing_stops fmt depth ms d rest : stops ((ms ≫= comma_member fmt depth) ++ closing fmt d rest).
Proof. destruct ms; [destruct fmt|]; split; (done || set_solver). Qed.

Lemma string_opens s : opens (string_text s).
Proof. by eexists _, _; split; [reflexivity|by split_and!]. Qed.

Section members.
  Context (parse : list ascii → presult json) (fmt : bool) (depth : nat).

Definition member_parses (kv : string * json) : Prop := parses parse fmt depth kv.2 ∧ string_room kv.1 < 2 ^ 31.

(** After its indentation. *)
Lemma member_run kv rest :
  member_parses kv → stops rest →
  parse_member parse (string_text kv.1 ++ ":"%char :: when fmt [tab] ++ json_text fmt depth kv.2 ++ rest)
  = PDone (clean_member kv) rest.
Proof.
  intros [Hv Hk] Hs. unfold parse_member. rewrite parse_string_run by done. cbn [pbind].
  rewrite skip_char by done. cbn [pres]. rewrite eat_eq.
  rewrite skip_opens by (apply text_opens || by destruct fmt; repeat constructor). cbn [pres]. by rewrite Hv.
Qed.

Lemma members_run l d rest fuel :
  Forall member_parses l →
  let t := map (member_of fmt depth) l ≫= comma_member fmt depth in
  (length t + 1 ≤ fuel)%nat →
  ∃ s, json_skip (t ++ closing fmt d rest) = Ok s ∧ parse_members parse fuel s = PDone (map clean_member l) rest.
Proof.
  intros Hl. revert fuel. induction Hl as [|kv l Hkv Hl IH]; intros fuel; cbn [map].
  { intros Hf. exists ("}"%char :: rest). split; [apply skip_closing|]. destruct fuel; [simpl in Hf; lia|done]. }
  rewrite bind_cons. destruct fuel as [|fuel]; [simpl; lia|]. cbv zeta. unfold comma_member at 1 3, member_text.
  cbn [fst snd member_of]. lengths. intros Hf. cbn [app]. rewrite <-!app_assoc. cbn [app].
  eexists. split; [apply skip_char; done|]. cbn [parse_members]. rewrite eat_eq.
  rewrite (app_assoc (when fmt [newline])).
  rewrite skip_opens; [|apply Forall_app_2; apply blank_when; [by constructor|apply blank_tabs]|apply string_opens].
  cbn [pres]. pose proof (closing_stops fmt depth (map (member_of fmt depth) l) d rest) as Hs.
  rewrite <-?app_assoc. rewrite member_run by done. cbn [pbind]. destruct (IH fuel) as (s & Hs1 & Hs2); [lia|].
  rewrite Hs1. cbn [pres]. by rewrite Hs2.
Qed.
End members.

Lemma member_text_length fmt depth n e : (length e ≤ length (member_text fmt depth n e))%nat.
Proof. unfold member_text. lengths. lia. Qed.

Lemma object_run fmt depth l :
  Forall (λ kv, reads fmt (S depth) kv.2 ∧ string_room kv.1 < 2 ^ 31) l → reads fmt depth (JObject l).
Proof.
  intros Hl rest fuel Hf Hs. cbn [json_text clean] in *. fold clean_member. fold (member_of fmt (S depth)) in *.
  unfold object_text in *. destruct fuel as [|fuel]; [simpl in Hf; lia|].
  cbn [app]. rewrite parse_value_object. unfold parse_object. rewrite eat_eq, <-!app_assoc.
  replace (S depth - 1)%nat with depth in * by lia. destruct Hl as [|kv l [Hkv Hk] Hl]; cbn [map] in *.
  { change (object_body fmt (S depth) []) with (@nil ascii). cbn [app]. fold (closing fmt depth rest).
    rewrite skip_closing. cbn [pres]. by rewrite eat_eq. }
  rewrite object_body_cons in *. revert Hf. lengths. intros Hf. unfold member_text in *. cbn [fst snd member_of] in *.
  rewrite <-!app_assoc. cbn [app]. rewrite (app_assoc (when fmt [newline])).
  rewrite skip_opens; [|apply Forall_app_2; apply blank_when; [by constructor|apply blank_tabs]|apply string_opens].
  cbn [pres]. rewrite opens_eat by (apply string_opens || set_solver). fold (closing fmt depth rest). revert Hf. lengths. intros Hf.
  pose proof (closing_stops fmt (S depth) (map (member_of fmt (S depth)) l) depth rest) as Hst. rewrite <-?app_assoc.
  rewrite (member_run (parse_value fuel) fmt (S depth) kv); [|split; [apply reads_parses; [done|lia]|done]|done]. cbn [pbind].
  destruct (members_run (parse_value fuel) fmt (S depth) l depth rest fuel) as (s & Hs1 & Hs2); [|lia|].
  2: { rewrite Hs1. cbn [pres]. by rewrite Hs2. }
  rewrite Forall_forall in *. intros e He. destruct (Hl e He) as [H1 H2]. split; [|done]. apply reads_parses; [done|].
  pose proof (bind_elem_length (comma_member fmt (S depth)) _ _ (list_elem_of_fmap_2 (member_of fmt (S depth)) _ _ He)) as H.
  unfold comma_member at 1 in H. cbn [length fst snd member_of] in H. rewrite length_app in H.
  pose proof (member_text_length fmt (S depth) (string_text e.1) (json_text fmt (S depth) e.2)).
  change (member_of fmt (S depth) <$> l) with (map (member_of fmt (S depth)) l) in H. lia.
Qed.

(** ** Every tree *)

Lemma number_reads fmt depth z : in_int z = true → reads fmt depth (JNumber (d_of_Z z)).
Proof.
  intros Hz rest fuel Hf Hs. cbn [json_text clean] in *. rewrite d_to_int_of_Z in * by done.
  pose proof (parse_number_run z rest Hz Hs) as Hp. destruct (print_int_opens z) as (c & u & E & Hc). rewrite E in *.
  destruct fuel as [|fuel]; [simpl in Hf; lia|]. cbn [app] in *.
  pose proof (number_char c Hc) as [_ Hn]. rewrite !not_elem_of_cons in Hn. destruct Hn as (_ & _ & Hn & Hff & Ht & Hq & _).
  cbn [parse_value]. assert (Hst : ∀ d w, c ≠ d → starts (d :: w) (c :: u ++ rest) = false).
  { intros d w Hd. simpl. by rewrite bool_decide_false. }
  cbn [chars]. rewrite !Hst by done. rewrite decide_False by done.
  replace (bool_decide (c = "-"%char) || digit c) with true; [done|].
  symmetry. apply orb_true_iff. destruct Hc as [->|Hc]; [by left|by right].
Qed.
Lemma string_reads fmt depth s : string_room s < 2 ^ 31 → reads fmt depth (JString s).
Proof.
  intros Hr rest fuel Hf Hs. cbn [json_text clean]. destruct fuel as [|fuel]; [simpl in Hf; lia|].
  pose proof (parse_string_run rest s Hr) as Hp. unfold string_text in *. cbn [parse_value app] in *.
  change (starts (chars "null") (quote :: _)) with false. change (starts (chars "false") (quote :: _)) with false.
  change (starts (chars "true") (quote :: _)) with false. cbv iota. rewrite decide_True by done. by rewrite Hp.
Qed.
Lemma value_reads fmt j depth : json_ints j → room depth j < 2 ^ 31 → reads fmt depth j.
Proof.
  revert depth. induction j as [| | |d|s|l IH|l IH] using json_tree_ind; intros depth Hi Hr.
  1-3: intros rest [|fuel] Hf Hs; [simpl in Hf; lia|done].
  - destruct Hi as (z & Hz & ->). by apply number_reads.
  - by apply string_reads.
  - apply array_run. apply json_ints_array in Hi. rewrite !Forall_forall in *. intros c Hc. apply IH; [done|by apply Hi|].
    pose proof (room_elem depth l c Hc). lia.
  - apply object_run. apply json_ints_object in Hi. rewrite !Forall_forall in *. intros kv Hkv.
    pose proof (room_member depth l kv Hkv) as [H1 H2]. split; [apply IH; [done|by apply Hi|]|]; lia.
Qed.

(** ** Termination of the parser *)

(** No step of the parser goes back. *)
Lemma skip_length s t : json_skip s = Ok t → (length t ≤ length s)%nat.
Proof. induction s as [|c s IH]; [done|]. simpl. case_match; [intros ?%IH; lia|by intros [= <-]]. Qed.
Lemma eat_length c s t : eat c s = Some t → length s = S (length t).
Proof. destruct s as [|d s]; [done|]. simpl. case_decide; [|done]. by intros [= ->]. Qed.
Lemma number_digits_length n k s n' k' t : number_digits n k s = (n', k', t) → (length t ≤ length s)%nat.
Proof.
  revert n k. induction s as [|c s IH]; intros n k; simpl; [by intros [= _ _ <-]|].
  case_match; [intros ?%IH; lia|by intros [= _ _ <-]].
Qed.
Lemma read_subscale_length k s k' t : read_subscale k s = (k', t) → (length t ≤ length s)%nat.
Proof.
  revert k. induction s as [|c s IH]; intros k; simpl; [by intros [= _ <-]|]. case_match; [intros ?%IH; lia|by intros [= _ <-]].
Qed.

(** Not out of fuel, and at most [n] characters are left. *)
Definition good {A} (n : nat) (r : presult A) : Prop :=
  match r with PDone _ rest => (length rest ≤ n)%nat | POut => False | _ => True end.
Lemma good_pres {A B} n (r : res A) (k : A → presult B) : (∀ a, r = Ok a → good n (k a)) → good n (pres r k).
Proof. destruct r; [|done]. intros H. by apply H. Qed.
Lemma good_pbind {A B} m n (r : presult A) (k : A → list ascii → presult B) :
  good m r → (∀ a rest, (length rest ≤ m)%nat → good n (k a rest)) → good n (pbind r k).
Proof. destruct r; simpl; auto. Qed.

Lemma parse_number_good s : good (length s) (parse_number s).
Proof.
  unfold parse_number.
  assert (H1 : ∀ sign t, match eat "-" s with Some t => (d_of_Z (-1), t) | None => (d_of_Z 1, s) end = (sign, t) →
    (length t ≤ length s)%nat).
  { intros sign t. destruct (eat "-" s) as [u|] eqn:E; intros [= _ <-]; [apply eat_length in E; lia|done]. }
  destruct (match eat "-" s with _ => _ end) as [sign t]. specialize (H1 _ _ eq_refl). cbv iota.
  assert (H2 : (length (default t (eat "0" t)) ≤ length t)%nat).
  { destruct (eat "0" t) as [u|] eqn:E; [apply eat_length in E; simpl; lia|done]. }
  set (t1 := default t (eat "0" t)) in *. clearbody t1.
  destruct (if between "1" "9" (peek t1) then _ else _) as [n t2] eqn:E2.
  assert (H3 : (length t2 ≤ length t1)%nat).
  { destruct (between "1" "9" (peek t1)); [|by injection E2 as _ <-].
    destruct (number_digits dzero 0 t1) as [[n' k] u] eqn:E. injection E2 as _ <-. by apply number_digits_length in E. }
  apply good_pres. intros [[n' scale] t3] E3.
  assert (H4 : (length t3 ≤ length t2)%nat).
  { destruct (eat "." t2) as [u|] eqn:E; [|by injection E3 as _ _ <-]. apply eat_length in E.
    destruct u as [|c u]; [done|]. cbn [next mbind res_bind peek] in E3.
    destruct (number_digits (push_digit n c) 1 u) as [[n2 k2] v] eqn:Ed. injection E3 as _ _ <-.
    apply number_digits_length in Ed. simpl in E. lia. }
  destruct (match eat "e" t3 with Some _ => _ | None => _ end) as [u|] eqn:E4; cbn [good]; [|lia].
  assert (H5 : length t3 = S (length u)) by (destruct (eat "e" t3) eqn:E5; [injection E4 as <-; by apply eat_length in E5|by apply eat_length in E4]).
  destruct (match eat "+" u with Some _ => _ | None => _ end) as [sg v] eqn:E6.
  assert (H6 : (length v ≤ length u)%nat).
  { destruct (eat "+" u) as [w|] eqn:E7; [injection E6 as _ <-; apply eat_length in E7; lia|].
    destruct (eat "-" u) as [w|] eqn:E8; injection E6 as _ <-; [apply eat_length in E8; lia|done]. }
  destruct (read_subscale 0 v) as [k w] eqn:E9. apply read_subscale_length in E9. cbn [good]. lia.
Qed.

Lemma copy_string_length uc s out rest : copy_string uc s = Ok (out, rest) → (length rest ≤ length s)%nat.
Proof.
  remember (length s) as n eqn:Hn. assert (Hle : (length s ≤ n)%nat) by lia. clear Hn. revert uc s out rest Hle.
  induction n as [|n IH]; intros uc [|c s] out rest Hle H; simpl in Hle; try lia; simpl in H.
  1,2: by injection H as _ <-.
  case_match; [by injection H as _ <-; simpl; lia|]. destruct (decide (c = backslash)).
  2: { apply res_bind_Ok in H as ([o r] & Hr & [= _ <-]). apply IH in Hr; [lia|]. lia. }
  destruct s as [|d s]; [done|]. simpl in Hle. destruct (decide (d = "u"%char)).
  - apply res_bind_Ok in H as (v & _ & H). destruct s as [|? [|? [|? [|? s]]]]; try done. simpl in Hle.
    apply res_bind_Ok in H as ([o r] & Hr & [= _ <-]). apply IH in Hr; lia.
  - apply res_bind_Ok in H as ([o r] & Hr & [= _ <-]). apply IH in Hr; lia.
Qed.
Lemma parse_string_good s : good (length s - 1) (parse_string s).
Proof.
  destruct s as [|c s]; [done|]. simpl. destruct (decide (c = quote)); [|done]. apply good_pres. intros [out rest] H.
  apply res_bind_Ok in H as (len & _ & H). apply res_bind_Ok in H as ([o r] & Hr & H).
  apply res_bind_Ok in H as (o' & _ & [= -> ->]). apply copy_string_length in Hr. cbn [good].
  destruct rest as [|d rest]; [simpl; lia|]. destruct (decide (d = quote)); simpl in *; lia.
Qed.

(** Between two calls. *)
Lemma good_skip {A} n (t : list ascii) (k : list ascii → presult A) :
  (∀ u, (length u ≤ length t)%nat → good n (k u)) → good n (pres (json_skip t) k).
Proof. intros Hk. apply good_pres. intros u Hu%skip_length. by apply Hk. Qed.

Section parse_good.
  Context (parse : list ascii → presult json) (bound : nat).
  Hypothesis Hparse : ∀ s, (length s < bound)%nat → good (length s) (parse s).

Lemma items_good fuel s : (length s < fuel)%nat → (length s ≤ bound)%nat → good (length s) (parse_items parse fuel s).
Proof.
  revert s. induction fuel as [|fuel IH]; intros s Hs Hb; [lia|]. cbn [parse_items]. destruct (eat "," s) as [t|] eqn:E.
  - apply eat_length in E. apply good_skip. intros t' Ht'. eapply good_pbind; [apply Hparse; lia|]. intros item rest Hr.
    apply good_skip. intros u Hu. eapply good_pbind; [apply IH; lia|]. intros items rest' Hr'. simpl. lia.
  - destruct (eat "]" s) as [t|] eqn:E'; [apply eat_length in E'; simpl; lia|done].
Qed.
Lemma member_good s : (length s ≤ bound)%nat → good (length s - 1) (parse_member parse s).
Proof.
  intros Hb. unfold parse_member. eapply good_pbind; [apply parse_string_good|]. intros name rest Hr.
  apply good_skip. intros t Ht. destruct (eat ":" t) as [u|] eqn:E; [|done]. apply eat_length in E.
  apply good_skip. intros v Hv. eapply good_pbind; [apply Hparse; lia|]. intros item rest' Hr'. simpl. lia.
Qed.
Lemma members_good fuel s : (length s < fuel)%nat → (length s ≤ bound)%nat → good (length s) (parse_members parse fuel s).
Proof.
  revert s. induction fuel as [|fuel IH]; intros s Hs Hb; [lia|]. cbn [parse_members]. destruct (eat "," s) as [t|] eqn:E.
  - apply eat_length in E. apply good_skip. intros t' Ht'. eapply good_pbind; [apply member_good; lia|]. intros item rest Hr.
    apply good_skip. intros u Hu. eapply good_pbind; [apply IH; lia|]. intros items rest' Hr'. simpl. lia.
  - destruct (eat "}" s) as [t|] eqn:E'; [apply eat_length in E'; simpl; lia|done].
Qed.
Lemma array_good fuel s : (length s ≤ fuel)%nat → (length s ≤ bound)%nat → good (length s) (parse_array parse fuel s).
Proof.
  intros Hs Hb. unfold parse_array. destruct (eat "[" s) as [t|] eqn:E; [|done]. apply eat_length in E.
  apply good_skip. intros u Hu. destruct (eat "]" u) as [v|] eqn:E'; [apply eat_length in E'; simpl; lia|].
  eapply good_pbind; [apply Hparse; lia|]. intros item rest Hr. apply good_skip. intros v Hv.
  eapply good_pbind; [apply items_good; lia|]. intros items rest' Hr'. simpl. lia.
Qed.
Lemma object_good fuel s : (length s ≤ fuel)%nat → (length s ≤ bound)%nat → good (length s) (parse_object parse fuel s).
Proof.
  intros Hs Hb. unfold parse_object. destruct (eat "{" s) as [t|] eqn:E; [|done]. apply eat_length in E.
  apply good_skip. intros u Hu. destruct (eat "}" u) as [v|] eqn:E'; [apply eat_length in E'; simpl; lia|].
  eapply good_pbind; [apply member_good; lia|]. intros item rest Hr. apply good_skip. intros v Hv.
  eapply good_pbind; [apply members_good; lia|]. intros items rest' Hr'. simpl. lia.
Qed.
End parse_good.

Lemma parse_good fuel s : (length s < fuel)%nat → good (length s) (parse_value fuel s).
Proof.
  revert s. induction fuel as [|fuel IH]; intros s Hs; [lia|]. cbn [parse_value].
  do 3 (case_match; [simpl; rewrite ?length_drop; lia|]).
  destruct (decide (peek s = quote)); [eapply good_pbind; [apply parse_string_good|]; intros str rest Hr; simpl; lia|].
  destruct (bool_decide (peek s = "-"%char) || digit (peek s)); [apply parse_number_good|].
  destruct (decide (peek s = "["%char)); [apply (array_good _ fuel IH); lia|].
  destruct (decide (peek s = "{"%char)); [apply (object_good _ fuel IH); lia|done].
Qed.

(** ** Properties *)

(** Printing and reading a tree. *)
Lemma json_text_reads (j : json) :
  json_ints j → room 0 j < 2 ^ 31 →
  (∃ t, cJSON_Print j = Ok t ∧ cJSON_Parse (S (slen t)) t = PDone (clean j) [])
  ∧ (∃ t, cJSON_PrintUnformatted j = Ok t ∧ cJSON_Parse (S (slen t)) t = PDone (clean j) []).
Proof.
  intros Hi Hr. unfold cJSON_Print, cJSON_PrintUnformatted, cJSON_Parse, slen.
  split; [destruct (print_value_run true j 0 Hi Hr) as [-> _]|destruct (print_value_run false j 0 Hi Hr) as [-> _]];
    (eexists; split; [reflexivity|]); rewrite chars_unchars.
  - pose proof (skip_opens [] _ [] (Forall_nil_2 _) (text_opens true 0 j)) as E. cbn [app] in E. rewrite app_nil_r in E.
    rewrite E. cbn [pres]. pose proof (value_reads true j 0 Hi Hr [] (S (length (json_text true 0 j)))) as H.
    rewrite app_nil_r in H. apply H; [lia|done].
  - pose proof (skip_opens [] _ [] (Forall_nil_2 _) (text_opens false 0 j)) as E. cbn [app] in E. rewrite app_nil_r in E.
    rewrite E. cbn [pres]. pose proof (value_reads false j 0 Hi Hr [] (S (length (json_text false 0 j)))) as H.
    rewrite app_nil_r in H. apply H; [lia|done].
Qed.

(** C33: a tree whose numbers are 32-bit integers and whose texts fit 2 GB is
    printed, indented or not, without overrunning any buffer, and reading the
    text gives back the tree: same structure, order and numbers, its strings
    without the control characters that have no escape. *)
Theorem json_roundtrip (j : json) :
  json_ints j → room 0 j < 2 ^ 31 →
  (∃ t, cJSON_Print j = Ok t ∧ cJSON_Parse (S (slen t)) t = PDone (clean j) [])
  ∧ (∃ t, cJSON_PrintUnformatted j = Ok t ∧ cJSON_Parse (S (slen t)) t = PDone (clean j) []).
Proof. apply json_text_reads. Qed.

Definition demo_json : json :=
  JObject [("success", jint 1); ("message", JString "a\b/c"); ("list", JArray [jint (-20); JNull; JString EmptyString]);
           ("details", JObject [("x y", JTrue)])].
Lemma json_roundtrip_witness :
  (∃ t, cJSON_Print demo_json = Ok t ∧ cJSON_Parse (S (slen t)) t = PDone demo_json [])
  ∧ cJSON_PrintUnformatted (JArray [jint (-20); JNull]) = Ok "[-20,null]".
Proof.
  split; [|vm_compute; reflexivity].
  destruct (json_roundtrip demo_json) as [(t & Ht & Hp) _].
  - split; [exists 1; by split|]. split; [done|]. split; [split; [exists (-20); by split|done]|]. by split_and!.
  - vm_compute. reflexivity.
  - exists t. split; [exact Ht|]. rewrite Hp. vm_compute. reflexivity.
Defined.

(** Reading any text comes back with an item, a failure or an access past
    the text: one round of recursion per character is enough. *)
Theorem cJSON_Parse_returns (s : string) : good (slen s) (cJSON_Parse (S (slen s)) s).
Proof.
  unfold cJSON_Parse. apply good_pres. intros t Ht%skip_length. fold (slen s) in Ht.
  pose proof (parse_good (S (slen s)) t ltac:(lia)) as H. destruct (parse_value (S (slen s)) t); simpl in *; try done. lia.
Qed.

(** [json_skip] takes the terminator for white space: reading a text that ends inside
    an array, or is blank, runs past its end. *)
Example skip_overruns : cJSON_Parse 10 "[1" = PFault FBadAccess ∧ cJSON_Parse 10 " " = PFault FBadAccess.
Proof. by vm_compute. Qed.
(** 64 characters are not enough for [%.0f]. *)
Example print_number_overflows : print_number (d_of_Z (10 ^ 70)) = Fault FBadAccess.
Proof. by vm_compute. Qed.
(** An escape [u] followed by a line break is counted as one character and
    written as three. *)
Example parse_string_overflows :
  parse_string ([quote; backslash; "u"; newline; "1"; "2"; "3"; "4"; quote])%char = PFault FBadAccess.
Proof. by vm_compute. Qed.
(** The characters without an escape are lost. *)
Example control_characters_lost :
  cJSON_PrintUnformatted (JString (String "001" "x")) = cJSON_PrintUnformatted (JString "x").
Proof. by vm_compute. Qed.
