(* ===== verification/Evbuffer.v ===== *)
(** The byte buffers of libevent (src/contrib/libevent-1.4.13-stable/buffer.c):
    requests are read from them and replies written to them.

    The block of memory is a list of bytes, indeterminate until written;
    [buffer] is the offset of the data in it.  Sizes are 64-bit words; memory is
    never exhausted.  Every access is checked against the block. *)
From S2P Require Import Prelude Numeric.
#[local] Open Scope Z_scope.

(** ** Outcomes *)

(** A call returns, leaves the memory it owns, or never comes back. *)
Inductive outcome (A : Type) := Done (a : A) | Overrun | Hang.
Arguments Done {A} a.
Arguments Overrun {A}.
Arguments Hang {A}.
#[export] Instance outcome_bind : MBind outcome := λ A B k m,
  match m with Done a => k a | Overrun => Overrun | Hang => Hang end.
Definition check (b : bool) : outcome unit := if b then Done tt else Overrun.

(** ** State *)

Record evbuffer := {
  eb_mem : list (option ascii);
  eb_buffer : Z;
  eb_misalign : Z;
  eb_totallen : Z;
  eb_off : Z;
  eb_cb : bool;
  eb_calls : list (Z * Z);
}.
Definition evbuffer_new : evbuffer :=
  {| eb_mem := []; eb_buffer := 0; eb_misalign := 0; eb_totallen := 0; eb_off := 0; eb_cb := false; eb_calls := [] |}.

Definition u64 (z : Z) : Z := z mod 2 ^ 64.
Definition u32 (z : Z) : Z := z mod 2 ^ 32.

(** Setting the fields. *)
Definition set_data (mem : list (option ascii)) (buffer misalign totallen off : Z) (b : evbuffer) : evbuffer :=
  {| eb_mem := mem; eb_buffer := buffer; eb_misalign := misalign; eb_totallen := totallen; eb_off := off;
     eb_cb := eb_cb b; eb_calls := eb_calls b |}.
Definition set_off (off : Z) (b : evbuffer) : evbuffer :=
  set_data (eb_mem b) (eb_buffer b) (eb_misalign b) (eb_totallen b) off b.
(** The callback, when there is one, is called with the old and the new length. *)
Definition notify (cond : bool) (oldoff : Z) (b : evbuffer) : evbuffer :=
  {| eb_mem := eb_mem b; eb_buffer := eb_buffer b; eb_misalign := eb_misalign b; eb_totallen := eb_totallen b;
     eb_off := eb_off b; eb_cb := eb_cb b;
     eb_calls := if cond && eb_cb b then eb_calls b ++ [(oldoff, eb_off b)] else eb_calls b |}.
Definition evbuffer_setcb (cb : bool) (b : evbuffer) : evbuffer :=
  {| eb_mem := eb_mem b; eb_buffer := eb_buffer b; eb_misalign := eb_misalign b; eb_totallen := eb_totallen b;
     eb_off := eb_off b; eb_cb := cb; eb_calls := eb_calls b |}.

(** ** Memory *)

Definition zlength {A} (l : list A) : Z := Z.of_nat (length l).
(** [memcpy] out of and into the block. *)
Definition read_mem (mem : list (option ascii)) (pos n : Z) : outcome (list ascii) :=
  check ((0 <=? pos) && (0 <=? n) && (pos + n <=? zlength mem)) ≫= λ _,
  match mapM id (take (Z.to_nat n) (drop (Z.to_nat pos) mem)) with Some l => Done l | None => Overrun end.
Definition write_mem (mem : list (option ascii)) (pos : Z) (data : list ascii) : outcome (list (option ascii)) :=
  check ((0 <=? pos) && (pos + zlength data <=? zlength mem)) ≫= λ _,
  Done (take (Z.to_nat pos) mem ++ (Some <$> data) ++ drop (Z.to_nat pos + length data) mem).

(** ** Operations *)

Definition evbuffer_align (b : evbuffer) : outcome evbuffer :=
  data ← read_mem (eb_mem b) (eb_buffer b) (eb_off b);
  mem ← write_mem (eb_mem b) 0 data;
  Done (set_data mem 0 0 (eb_totallen b) (eb_off b) b).

(** [while (length < need) length <<= 1]: after 64 rounds the length is 0 and
    stays so. *)
Fixpoint grow (fuel : nat) (length need : Z) : outcome Z :=
  if length <? need then
    match fuel with O => Hang | S fuel => grow fuel (u64 (length * 2)) need end
  else Done length.

Definition evbuffer_expand (datlen : Z) (b : evbuffer) : outcome evbuffer :=
  let need := u64 (eb_misalign b + eb_off b + datlen) in
  if need <=? eb_totallen b then Done b
  else if datlen <=? eb_misalign b then evbuffer_align b
  else
    length ← grow 64 (if eb_totallen b <? 256 then 256 else eb_totallen b) need;
    b ← (if eb_buffer b =? 0 then Done b else evbuffer_align b);
    Done (set_data (resize (Z.to_nat length) None (eb_mem b)) 0 (eb_misalign b) length (eb_off b) b).

Definition evbuffer_add (data : list ascii) (b : evbuffer) : outcome evbuffer :=
  let datlen := zlength data in
  let need := u64 (eb_misalign b + eb_off b + datlen) in
  let oldoff := eb_off b in
  b ← (if eb_totallen b <? need then evbuffer_expand datlen b else Done b);
  mem ← write_mem (eb_mem b) (eb_buffer b + eb_off b) data;
  let b := set_data mem (eb_buffer b) (eb_misalign b) (eb_totallen b) (u64 (eb_off b + datlen)) b in
  Done (notify (negb (datlen =? 0)) oldoff b).

Definition evbuffer_drain (len : Z) (b : evbuffer) : evbuffer :=
  let oldoff := eb_off b in
  let b := if eb_off b <=? len then set_data (eb_mem b) 0 0 (eb_totallen b) 0 b
           else set_data (eb_mem b) (eb_buffer b + len) (eb_misalign b + len) (eb_totallen b) (eb_off b - len) b in
  notify (negb (eb_off b =? oldoff)) oldoff b.

(** The bytes read. *)
Definition evbuffer_remove (datlen : Z) (b : evbuffer) : outcome (list ascii * evbuffer) :=
  let nread := if eb_off b <=? datlen then eb_off b else datlen in
  data ← read_mem (eb_mem b) (eb_buffer b) nread;
  Done (data, evbuffer_drain nread b).

(** The data of the second buffer moves to the first: the blocks are swapped
    when the first is empty. *)
Definition evbuffer_add_buffer (outbuf inbuf : evbuffer) : outcome (evbuffer * evbuffer) :=
  if eb_off outbuf =? 0 then
    let oldoff := eb_off inbuf in
    let take_data (src dst : evbuffer) :=
      set_data (eb_mem src) (eb_buffer src) (eb_misalign src) (eb_totallen src) (eb_off src) dst in
    let inbuf' := take_data outbuf inbuf in
    let outbuf' := take_data inbuf outbuf in
    Done (notify (negb (oldoff =? 0)) 0 outbuf', notify (negb (eb_off inbuf' =? oldoff)) oldoff inbuf')
  else
    data ← read_mem (eb_mem inbuf) (eb_buffer inbuf) (eb_off inbuf);
    outbuf ← evbuffer_add data outbuf;
    Done (outbuf, evbuffer_drain (eb_off inbuf) inbuf).

(** [evbuffer_add_vprintf] of a format that gives the text [t]: [vsnprintf]
    writes what fits, and its terminator; it fails on a text whose length is not
    an [int].  The length added, or -1. *)
Fixpoint vprintf_loop (fuel : nat) (t : list ascii) (oldoff : Z) (b : evbuffer) : outcome (Z * evbuffer) :=
  match fuel with
  | O => Hang
  | S fuel =>
      let used := eb_misalign b + eb_off b in
      check (used <=? eb_totallen b) ≫= λ _,
      let space := eb_totallen b - used in
      mem ← (if space =? 0 then Done (eb_mem b)
             else write_mem (eb_mem b) (eb_buffer b + eb_off b) (take (Z.to_nat (space - 1)) t ++ [zero]));
      let b := set_data mem (eb_buffer b) (eb_misalign b) (eb_totallen b) (eb_off b) b in
      if 2 ^ 31 <=? zlength t then Done (-1, b)
      else if zlength t <? space then Done (zlength t, notify true oldoff (set_off (u64 (eb_off b + zlength t)) b))
      else b ← evbuffer_expand (u64 (wrap32 (zlength t + 1))) b; vprintf_loop fuel t oldoff b
  end.
Definition evbuffer_add_printf (t : list ascii) (b : evbuffer) : outcome (Z * evbuffer) :=
  let oldoff := eb_off b in
  b ← evbuffer_expand 64 b;
  vprintf_loop 2 t oldoff b.

Definition line_end (c : ascii) : bool := bool_decide (c = "013"%char ∨ c = "010"%char).
(** The index of the first line end. *)
Fixpoint find_end (l : list ascii) : option nat :=
  match l with
  | [] => None
  | c :: l => if line_end c then Some O else S <$> find_end l
  end.
(** Up to the first line end, of one character or two different ones.  The
    index is 32 bits wide: over more bytes without a line end the search starts
    again and never ends. *)
Definition evbuffer_readline (b : evbuffer) : outcome (option (list ascii) * evbuffer) :=
  data ← read_mem (eb_mem b) (eb_buffer b) (eb_off b);
  match find_end data with
  | None => if 2 ^ 32 <=? zlength data then Hang else Done (None, b)
  | Some i =>
      if 2 ^ 32 <=? Z.of_nat i then Hang else
      check (Z.of_nat i <=? u32 (Z.of_nat i + 1)) ≫= λ _,
      let two := match data !! i, data !! S i with
                 | Some fch, Some sch => line_end sch && negb (bool_decide (sch = fch))
                 | _, _ => false
                 end in
      Done (Some (take i data), evbuffer_drain (u32 (Z.of_nat (if two then S i else i) + 1)) b)
  end.

Definition EVBUFFER_MAX_READ : Z := 4096.
(** [evbuffer_read]: [avail] is what FIONREAD says, if it works, and [rd] the
    bytes [read] delivers for a size, [None] on error.  The bytes read. *)
Definition read_size (avail : option Z) (howmuch : Z) (b : evbuffer) : Z :=
  let n := match avail with
           | None => EVBUFFER_MAX_READ
           | Some n =>
               if n <=? 0 then EVBUFFER_MAX_READ
               else if (EVBUFFER_MAX_READ <? n) && (howmuch <? n) then
                 let n := if u64 (eb_totallen b * 4) <? n then wrap32 (u64 (eb_totallen b * 4)) else n in
                 if n <? EVBUFFER_MAX_READ then EVBUFFER_MAX_READ else n
               else n
           end in
  if (howmuch <? 0) || (n <? howmuch) then n else howmuch.
Definition evbuffer_read (avail : option Z) (rd : Z → option (list ascii)) (howmuch : Z) (b : evbuffer)
    : outcome (Z * evbuffer) :=
  let oldoff := eb_off b in
  let howmuch := read_size avail howmuch b in
  b ← evbuffer_expand (u64 howmuch) b;
  match rd howmuch with
  | None => Done (-1, b)
  | Some [] => Done (0, b)
  | Some data =>
      mem ← write_mem (eb_mem b) (eb_buffer b + eb_off b) data;
      let b := set_data mem (eb_buffer b) (eb_misalign b) (eb_totallen b) (u64 (eb_off b + zlength data)) b in
      Done (zlength data, notify (negb (eb_off b =? oldoff)) oldoff b)
  end.
(** [evbuffer_write]: [wr] is what [write] accepts of the data, [None] on error. *)
Definition evbuffer_write (wr : list ascii → option nat) (b : evbuffer) : outcome (Z * evbuffer) :=
  data ← read_mem (eb_mem b) (eb_buffer b) (eb_off b);
  match wr data with
  | None => Done (-1, b)
  | Some O => Done (0, b)
  | Some n => Done (Z.of_nat n, evbuffer_drain (Z.of_nat n) b)
  end.

(** [evbuffer_find]: [memchr] for the first byte, then [memcmp]. *)
Fixpoint find_from (what : list ascii) (i : nat) (l : list ascii) : option nat :=
  match l with
  | [] => None
  | c :: t =>
      if decide (head what = Some c) then
        if decide (length l < length what)%nat then None
        else if decide (take (length what) l = what) then Some i else find_from what (S i) t
      else find_from what (S i) t
  end.
Definition evbuffer_find (what : list ascii) (b : evbuffer) : outcome (option nat) :=
  data ← read_mem (eb_mem b) (eb_buffer b) (eb_off b);
  Done (find_from what 0 data).

(** ** The contents *)

(** The buffer holds the bytes [l]. *)
Record holds (b : evbuffer) (l : list ascii) : Prop := {
  ho_buffer : eb_buffer b = eb_misalign b;
  ho_misalign : 0 <= eb_misalign b;
  ho_off : eb_off b = zlength l;
  ho_fits : eb_misalign b + eb_off b <= eb_totallen b;
  ho_mem : zlength (eb_mem b) = eb_totallen b;
  ho_small : eb_totallen b < 2 ^ 62;
  ho_data : take (length l) (drop (Z.to_nat (eb_buffer b)) (eb_mem b)) = Some <$> l;
}.
Lemma holds_new : holds evbuffer_new [].
Proof. by split. Qed.
Lemma zlength_nonneg {A} (l : list A) : 0 <= zlength l.
Proof. unfold zlength. lia. Qed.
Lemma zlength_app {A} (l k : list A) : zlength (l ++ k) = zlength l + zlength k.
Proof. unfold zlength. rewrite length_app. lia. Qed.
#[local] Hint Resolve zlength_nonneg : core.

Lemma done_bind {A B} (a : A) (k : A → outcome B) : Done a ≫= k = k a.
Proof. done. Qed.
Lemma mapM_Some (l : list ascii) : mapM id (Some <$> l) = Some l.
Proof. apply mapM_Some_2. by induction l; constructor. Qed.

Section contents.
  Context (b : evbuffer) (l : list ascii).
  Hypothesis Hb : holds b l.

Lemma holds_off_nonneg : 0 <= eb_off b.
Proof. rewrite (ho_off b l Hb). apply zlength_nonneg. Qed.
Lemma read_run n : 0 <= n <= eb_off b → read_mem (eb_mem b) (eb_buffer b) n = Done (take (Z.to_nat n) l).
Proof.
  destruct Hb as [Hbuf Hmis Hoff Hfit Hmem Hsm Hdata]. intros Hn. unfold read_mem, check.
  rewrite !(proj2 (Z.leb_le _ _)) by lia. simpl.
  replace (take (Z.to_nat n) (drop (Z.to_nat (eb_buffer b)) (eb_mem b))) with (Some <$> take (Z.to_nat n) l).
  - by rewrite mapM_Some.
  - rewrite fmap_take, <-Hdata, take_take. f_equal. unfold zlength in *. lia.
Qed.
Lemma read_all : read_mem (eb_mem b) (eb_buffer b) (eb_off b) = Done l.
Proof.
  pose proof holds_off_nonneg. rewrite read_run by lia. rewrite take_ge; [done|].
  rewrite (ho_off b l Hb). unfold zlength. lia.
Qed.
(** Appending to the data in place. *)
Lemma write_run data extra :
  eb_misalign b + eb_off b + zlength (data ++ extra) <= eb_totallen b → eb_off b + zlength data < 2 ^ 62 →
  ∃ mem, write_mem (eb_mem b) (eb_buffer b + eb_off b) (data ++ extra) = Done mem
    ∧ holds (set_data mem (eb_buffer b) (eb_misalign b) (eb_totallen b) (u64 (eb_off b + zlength data)) b) (l ++ data).
Proof.
  destruct Hb as [Hbuf Hmis Hoff Hfit Hmem Hsm Hdata]. intros Hroom Hs. pose proof (zlength_nonneg l).
  pose proof (zlength_nonneg data). pose proof (zlength_nonneg extra). rewrite zlength_app in Hroom.
  unfold write_mem, check. rewrite !(proj2 (Z.leb_le _ _)) by (rewrite ?zlength_app; lia). simpl.
  eexists. split; [reflexivity|].
  assert (Hpos : Z.to_nat (eb_buffer b + eb_off b) = (Z.to_nat (eb_buffer b) + length l)%nat) by (unfold zlength in *; lia).
  assert (Hlen : (Z.to_nat (eb_buffer b) + length l + length (data ++ extra) ≤ length (eb_mem b))%nat)
    by (rewrite length_app; unfold zlength in *; lia).
  split; cbn [eb_buffer eb_misalign eb_off eb_totallen eb_mem set_data]; try done.
  - unfold u64. rewrite Z.mod_small by lia. rewrite zlength_app. lia.
  - unfold u64. rewrite Z.mod_small by lia. lia.
  - rewrite <-Hmem. unfold zlength. rewrite !length_app, length_take, length_fmap, length_drop, Hpos.
    rewrite length_app in *. lia.
  - rewrite Hpos. rewrite drop_app_le by (rewrite length_take; lia).
    rewrite skipn_firstn_comm. replace (Z.to_nat (eb_buffer b) + length l - Z.to_nat (eb_buffer b))%nat with (length l) by lia.
    rewrite Hdata, !fmap_app, length_app. rewrite take_app_ge by (rewrite length_fmap; lia).
    rewrite length_fmap. replace (length l + length data - length l)%nat with (length data) by lia.
    rewrite <-app_assoc, take_app_length' by by rewrite length_fmap. done.
Qed.
End contents.

(** ** Making room *)

Lemma align_run b l :
  holds b l →
  ∃ b', evbuffer_align b = Done b' ∧ holds b' l ∧ eb_misalign b' = 0 ∧ eb_totallen b' = eb_totallen b
    ∧ eb_buffer b' = 0 ∧ eb_off b' = eb_off b ∧ eb_cb b' = eb_cb b ∧ eb_calls b' = eb_calls b.
Proof.
  intros Hb. unfold evbuffer_align. rewrite (read_all b l Hb). simpl. pose proof Hb as [Hbuf Hmis Hoff Hfit Hmem Hsm Hdata].
  pose proof (zlength_nonneg l). unfold write_mem, check. rewrite !(proj2 (Z.leb_le _ _)) by lia. simpl.
  eexists. split; [reflexivity|]. split; [|done].
  split; cbn [eb_buffer eb_misalign eb_off eb_totallen eb_mem set_data]; try done; [lia| |].
  - rewrite <-Hmem. unfold zlength in *. rewrite length_app, length_fmap, length_drop. lia.
  - rewrite drop_0, take_app_length'; [done|by rewrite length_fmap].
Qed.

Lemma grow_run fuel length need :
  0 < length → need <= length * 2 ^ Z.of_nat fuel → need < 2 ^ 62 →
  ∃ r, grow fuel length need = Done r ∧ need <= r ∧ length <= r ∧ (r = length ∨ r < 2 * need).
Proof.
  revert length. induction fuel as [|fuel IH]; intros length Hl Hn Hs; cbn [grow].
  - rewrite (proj2 (Z.ltb_ge _ _)) by lia. exists length. split_and!; [done|lia..|by left].
  - destruct (Z.ltb_spec length need) as [H|H]; [|exists length; split_and!; [done|lia..|by left]].
    unfold u64. rewrite Z.mod_small by lia. rewrite Nat2Z.inj_succ, Z.pow_succ_r in Hn by lia.
    destruct (IH (length * 2)) as (r & -> & H1 & H2 & H3); [lia|lia|done|]. exists r. split_and!; [done|lia|lia|].
    destruct H3 as [->|?]; [right; lia|by right].
Qed.

Lemma expand_run datlen b l :
  holds b l → 0 <= datlen → eb_totallen b + datlen < 2 ^ 61 →
  ∃ b', evbuffer_expand datlen b = Done b' ∧ holds b' l ∧ eb_misalign b' + eb_off b' + datlen <= eb_totallen b'
    ∧ (eb_misalign b' <= eb_misalign b
       ∧ eb_totallen b' <= Z.max (Z.max 256 (eb_totallen b)) (2 * (eb_misalign b + eb_off b + datlen)))
    ∧ eb_off b' = eb_off b ∧ eb_cb b' = eb_cb b ∧ eb_calls b' = eb_calls b.
Proof.
  intros Hb Hd Hs. pose proof Hb as [Hbuf Hmis Hoff Hfit Hmem Hsm Hdata]. pose proof (zlength_nonneg l).
  unfold evbuffer_expand. unfold u64 at 1 2. rewrite Z.mod_small by lia.
  destruct (Z.leb_spec (eb_misalign b + eb_off b + datlen) (eb_totallen b)) as [Hr|Hr]; [exists b; split_and!; try done; lia|].
  destruct (Z.leb_spec datlen (eb_misalign b)) as [Hm|Hm].
  { destruct (align_run b l Hb) as (b' & -> & Hb' & E1 & E2 & E3 & E4 & E5 & E6). exists b'.
    split_and!; try done; lia. }
  destruct (grow_run 64 (if eb_totallen b <? 256 then 256 else eb_totallen b) (eb_misalign b + eb_off b + datlen))
    as (r & -> & Hr1 & Hr2 & Hr3); [by case_match; lia|case_match; lia|lia|]. simpl.
  assert (Hal : ∃ b', (if eb_buffer b =? 0 then Done b else evbuffer_align b) = Done b' ∧ holds b' l ∧ eb_misalign b' <= eb_misalign b ∧ eb_buffer b' = 0
    ∧ eb_off b' = eb_off b ∧ eb_totallen b' = eb_totallen b ∧ eb_cb b' = eb_cb b ∧ eb_calls b' = eb_calls b).
  { destruct (Z.eqb_spec (eb_buffer b) 0) as [E|E]; [by exists b; split_and!|].
    destruct (align_run b l Hb) as (b' & -> & Hb' & E1 & E2 & E3 & E4 & E5 & E6). exists b'. split_and!; try done. lia. }
  destruct Hal as (b' & -> & Hb' & Hmb & E0 & E1 & E2 & E3 & E4). simpl. eexists. split; [reflexivity|].
  destruct Hb' as [Hbuf' Hmis' Hoff' Hfit' Hmem' Hsm' Hdata'].
  assert (Hrl : eb_totallen b <= r) by (case_match; lia). 
  assert (Hrt : r <= Z.max (Z.max 256 (eb_totallen b)) (2 * (eb_misalign b + eb_off b + datlen))) by (destruct Hr3 as [->|?]; [case_match; lia|lia]).
  split; [|cbn; split_and!; try done; lia].
  split; cbn [eb_buffer eb_misalign eb_off eb_totallen eb_mem set_data]; try done; try lia.
  - unfold zlength. rewrite length_resize. lia.
  - rewrite drop_0, take_resize_le by (unfold zlength in *; lia). rewrite <-Hdata', E0, drop_0. unfold zlength in *.
    rewrite resize_le; [done|lia].
Qed.

(** ** The operations on the contents *)

Inductive ev_op :=
  | OpAdd (data : list ascii)
  | OpPrintf (t : list ascii)
  | OpDrain (n : Z)
  | OpRemove (n : Z)
  | OpReadline
  | OpRead (avail : option Z) (howmuch : Z) (data : list ascii)
  | OpWrite (n : nat).

(** The operation on the buffer, and the bytes it gives.  [OpRead] reads from a
    socket where [data] is ready, [OpWrite] writes to one that takes [n] bytes. *)
Definition ev_step (op : ev_op) (b : evbuffer) : outcome (option (list ascii) * evbuffer) :=
  match op with
  | OpAdd data => b ← evbuffer_add data b; Done (None, b)
  | OpPrintf t => r ← evbuffer_add_printf t b; Done (None, r.2)
  | OpDrain n => Done (None, evbuffer_drain n b)
  | OpRemove n => r ← evbuffer_remove n b; Done (Some r.1, r.2)
  | OpReadline => evbuffer_readline b
  | OpRead avail howmuch data =>
      r ← evbuffer_read avail (λ n, Some (take (Z.to_nat n) data)) howmuch b; Done (None, r.2)
  | OpWrite n =>
      data ← read_mem (eb_mem b) (eb_buffer b) (eb_off b);
      r ← evbuffer_write (λ d, Some (n `min` length d)%nat) b;
      Done (Some (take (Z.to_nat r.1) data), r.2)
  end.

(** What is left after the line ended at [i]. *)
Definition after_line (i : nat) (l : list ascii) : list ascii :=
  match drop i l with
  | fch :: sch :: t => if line_end sch && negb (bool_decide (sch = fch)) then t else sch :: t
  | _ => []
  end.
(** The queue of bytes the buffer stands for. *)
Inductive ev_spec : ev_op → list ascii → option (list ascii) → list ascii → Prop :=
  | spec_add data l : ev_spec (OpAdd data) l None (l ++ data)
  | spec_printf t l : ev_spec (OpPrintf t) l None (l ++ t)
  | spec_drain n l : ev_spec (OpDrain n) l None (drop (Z.to_nat n) l)
  | spec_remove n l : ev_spec (OpRemove n) l (Some (take (Z.to_nat n) l)) (drop (Z.to_nat n) l)
  | spec_no_line l : Forall (λ c, line_end c = false) l → ev_spec OpReadline l None l
  | spec_line i l :
      Forall (λ c, line_end c = false) (take i l) → (∃ c, l !! i = Some c ∧ line_end c = true) →
      ev_spec OpReadline l (Some (take i l)) (after_line i l)
  | spec_read avail howmuch data n l :
      (0 <= howmuch → n <= howmuch) → (howmuch ≠ 0 → 0 < n) →
      ev_spec (OpRead avail howmuch data) l None (l ++ take (Z.to_nat n) data)
  | spec_write n l : ev_spec (OpWrite n) l (Some (take n l)) (drop n l).

(** The room an operation asks for, and how far the memory may grow: to twice
    what the data and the bytes drained before it take. *)
Definition room (op : ev_op) (b : evbuffer) : Z :=
  match op with
  | OpAdd data => zlength data
  | OpPrintf t => zlength t + 65
  | OpRead avail howmuch _ => read_size avail howmuch b
  | _ => 0
  end.
Definition grows (n : Z) (b b' : evbuffer) : Prop :=
  eb_misalign b' + eb_off b' <= eb_misalign b + eb_off b + n
  ∧ eb_totallen b' <= Z.max (Z.max 256 (eb_totallen b)) (2 * (eb_misalign b + eb_off b + n)).
(** Sizes that no allocation refuses. *)
Definition op_fits (op : ev_op) (b : evbuffer) : Prop :=
  eb_totallen b < 2 ^ 58 ∧
  match op with
  | OpAdd data => zlength data < 2 ^ 58
  | OpPrintf t => zlength t < 2 ^ 31 - 1
  | OpDrain n | OpRemove n => 0 <= n < 2 ^ 58
  | OpReadline => eb_off b < 2 ^ 32 - 1
  | OpRead avail howmuch _ => in_int howmuch = true ∧ match avail with Some n => in_int n = true | None => True end
  | _ => True
  end.
(** The callback hears of every change of the length; of [printf] always. *)
Definition told (op : ev_op) (l l' : list ascii) (b b' : evbuffer) : Prop :=
  eb_cb b' = eb_cb b ∧
  eb_calls b' = eb_calls b ++
    (if eb_cb b && (bool_decide (zlength l' ≠ zlength l) || match op with OpPrintf _ => true | _ => false end)
     then [(zlength l, zlength l')] else []).

Lemma notify_holds b l cond old : holds b l → holds (notify cond old b) l.
Proof. by intros []; split. Qed.
Lemma notify_told cond old b :
  eb_cb (notify cond old b) = eb_cb b
  ∧ eb_calls (notify cond old b) = eb_calls b ++ (if eb_cb b && cond then [(old, eb_off b)] else []).
Proof. split; [done|]. cbn [notify eb_calls]. rewrite andb_comm. destruct (eb_cb b && cond); [done|by rewrite app_nil_r]. Qed.

Lemma add_run data b l :
  holds b l → op_fits (OpAdd data) b →
  ∃ b', evbuffer_add data b = Done b' ∧ holds b' (l ++ data) ∧ told (OpAdd data) l (l ++ data) b b' ∧ grows (zlength data) b b'.
Proof.
  intros Hb [Ht Hd]. pose proof (zlength_nonneg data). pose proof Hb as [Hbuf Hmis Hoff Hfit Hmem Hsm Hdata].
  pose proof (zlength_nonneg l).
  unfold evbuffer_add. cbv zeta. assert (En : u64 (eb_misalign b + eb_off b + zlength data) = eb_misalign b + eb_off b + zlength data)
    by (unfold u64; rewrite Z.mod_small; lia).
  rewrite En.
  assert (Hex : ∃ b1, (if eb_totallen b <? eb_misalign b + eb_off b + zlength data then evbuffer_expand (zlength data) b else Done b) = Done b1
    ∧ holds b1 l ∧ eb_misalign b1 + eb_off b1 + zlength data <= eb_totallen b1 ∧ eb_off b1 = eb_off b ∧ eb_cb b1 = eb_cb b ∧ eb_calls b1 = eb_calls b
    ∧ eb_misalign b1 <= eb_misalign b ∧ eb_totallen b1 <= Z.max (Z.max 256 (eb_totallen b)) (2 * (eb_misalign b + eb_off b + zlength data))).
  { destruct (Z.ltb_spec (eb_totallen b) (eb_misalign b + eb_off b + zlength data)); [|exists b; split_and!; try done; lia].
    destruct (expand_run (zlength data) b l Hb) as (b1 & -> & Hx1 & Hx2 & [? ?] & Hx3 & Hx4 & Hx5); [done|lia|]. by exists b1. }
  destruct Hex as (b1 & -> & Hb1 & Hr1 & Ho1 & Hc1 & Hl1 & Hm1 & Ht1). simpl.
  destruct (write_run b1 l Hb1 data []) as (mem & Hw & Hh); [rewrite app_nil_r; lia|lia|]. rewrite app_nil_r in Hw.
  rewrite Hw. simpl. eexists. split; [reflexivity|]. split; [by apply notify_holds|].
  assert (Hu : u64 (eb_off b1 + zlength data) = eb_off b1 + zlength data) by (unfold u64; rewrite Z.mod_small; lia).
  split; [|by split; cbn [notify set_data eb_misalign eb_off eb_totallen]; rewrite ?Hu; lia].
  destruct (notify_told (negb (zlength data =? 0)) (eb_off b) (set_data mem (eb_buffer b1) (eb_misalign b1) (eb_totallen b1) (u64 (eb_off b1 + zlength data)) b1)) as [E1 E2].
  split; [by rewrite E1|]. rewrite E2. cbn [set_data eb_cb eb_calls eb_off]. rewrite Hc1, Hl1. rewrite zlength_app, orb_false_r.
  rewrite Hu, Ho1, Hoff. f_equal.
  destruct (Z.eqb_spec (zlength data) 0) as [E|E]; cbn [negb]; [rewrite bool_decide_false by lia|rewrite bool_decide_true by lia]; done.
Qed.

Lemma drain_run n b l op :
  holds b l → 0 <= n < 2 ^ 59 → match op with OpPrintf _ => False | _ => True end →
  holds (evbuffer_drain n b) (drop (Z.to_nat n) l) ∧ told op l (drop (Z.to_nat n) l) b (evbuffer_drain n b)
  ∧ grows 0 b (evbuffer_drain n b).
Proof.
  intros Hb Hn Hop. pose proof Hb as [Hbuf Hmis Hoff Hfit Hmem Hsm Hdata]. pose proof (zlength_nonneg l).
  unfold evbuffer_drain. cbv zeta.
  set (b1 := if eb_off b <=? n then _ else _).
  assert (H1 : holds b1 (drop (Z.to_nat n) l) ∧ eb_off b1 = zlength (drop (Z.to_nat n) l) ∧ eb_cb b1 = eb_cb b ∧ eb_calls b1 = eb_calls b
    ∧ eb_misalign b1 + eb_off b1 <= eb_misalign b + eb_off b ∧ eb_totallen b1 = eb_totallen b).
  { unfold b1. destruct (Z.leb_spec (eb_off b) n) as [Hle|Hlt].
    - rewrite drop_ge by (unfold zlength in *; lia). split; [split; cbn; try done; lia|]. cbn. split_and!; try done; lia.
    - assert (El : zlength (drop (Z.to_nat n) l) = eb_off b - n) by (unfold zlength in *; rewrite length_drop; lia).
      split; [|cbn; rewrite El; split_and!; try done; lia]. split; cbn [set_data eb_buffer eb_misalign eb_off eb_totallen eb_mem]; try done; try lia.
      rewrite length_drop, fmap_drop, <-Hdata, skipn_firstn_comm, drop_drop. f_equal. f_equal. lia. }
  destruct H1 as (Hh & Ho & Hc & Hl & Hg1 & Hg2). split; [by apply notify_holds|].
  split; [|by split; cbn [notify eb_misalign eb_off eb_totallen]; lia].
  destruct (notify_told (negb (eb_off b1 =? eb_off b)) (eb_off b) b1) as [E1 E2]. split; [by rewrite E1|].
  rewrite E2, Hc, Hl, Ho, Hoff. f_equal. destruct op; try done; rewrite orb_false_r;
    (destruct (Z.eqb_spec (zlength (drop (Z.to_nat n) l)) (zlength l)) as [E|E]; cbn [negb];
     [rewrite bool_decide_false by (intros Hne; by apply Hne)|rewrite bool_decide_true by done]; done).
Qed.

Lemma printf_run t b l :
  holds b l → op_fits (OpPrintf t) b →
  ∃ b', evbuffer_add_printf t b = Done (zlength t, b') ∧ holds b' (l ++ t) ∧ told (OpPrintf t) l (l ++ t) b b'
    ∧ grows (zlength t + 65) b b'.
Proof.
  intros Hb [Ht Hd]. cbn beta iota in Hd. pose proof (ho_off b l Hb) as Hoff0. pose proof (zlength_nonneg t). pose proof (zlength_nonneg l).
  (** With room for the text and its terminator the loop ends. *)
  assert (Hlast : ∀ fuel b1, holds b1 l → eb_cb b1 = eb_cb b → eb_calls b1 = eb_calls b →
    eb_misalign b1 + eb_off b1 + zlength t + 1 <= eb_totallen b1 → grows 65 b b1 ∨ grows (zlength t + 65) b b1 ∧ eb_misalign b1 <= eb_misalign b →
    eb_misalign b1 <= eb_misalign b →
    ∃ b', vprintf_loop (S fuel) t (eb_off b) b1 = Done (zlength t, b') ∧ holds b' (l ++ t) ∧ told (OpPrintf t) l (l ++ t) b b'
      ∧ grows (zlength t + 65) b b').
  { intros fuel b1 Hb1 Hc Hl Hroom Hg Hm1. pose proof Hb1 as [Hbuf Hmis Hoff Hfit Hmem Hsm Hdata]. cbn [vprintf_loop]. unfold check.
    rewrite (proj2 (Z.leb_le (eb_misalign b1 + eb_off b1) _)) by lia. rewrite done_bind. cbv zeta. rewrite (proj2 (Z.eqb_neq _ 0)) by lia.
    rewrite take_ge by (unfold zlength in *; lia).
    destruct (write_run b1 l Hb1 t [zero]) as (mem & -> & Hh); [rewrite zlength_app; change (zlength [zero]) with 1; lia|lia|]. rewrite done_bind. cbv zeta.
    rewrite (proj2 (Z.leb_gt (2 ^ 31) (zlength t))) by lia. rewrite (proj2 (Z.ltb_lt _ _)) by lia. eexists. split; [reflexivity|]. split; [by apply notify_holds|].
    split; [|by split; cbn [notify set_off set_data eb_misalign eb_off eb_totallen]; unfold u64; rewrite ?Z.mod_small by lia; unfold grows in Hg; lia].
    set (b2 := set_off _ _). destruct (notify_told true (eb_off b) b2) as [E1 E2]. split; [by rewrite E1|].
    rewrite E2. unfold b2. cbn [set_off set_data eb_cb eb_calls eb_off]. rewrite Hc, Hl, orb_true_r, zlength_app.
    unfold u64. rewrite Z.mod_small by lia. by rewrite Hoff, Hoff0. }
  unfold evbuffer_add_printf. pose proof (ho_fits b l Hb). pose proof (ho_misalign b l Hb).
  destruct (expand_run 64 b l Hb) as (b1 & -> & Hb1 & Hr1 & [Hm1 Ht1] & Ho1 & Hc1 & Hl1); [lia|lia|].
  cbv zeta. rewrite done_bind.
  destruct (Z_lt_le_dec (zlength t) (eb_totallen b1 - (eb_misalign b1 + eb_off b1))) as [Hs|Hs]; [by apply (Hlast 1%nat); try done; try lia; left; split; lia|].
  pose proof Hb1 as [Hbuf Hmis Hoff Hfit Hmem Hsm Hdata]. remember 1%nat as one eqn:Eone. cbn [vprintf_loop]. unfold check.
  rewrite (proj2 (Z.leb_le (eb_misalign b1 + eb_off b1) _)) by lia. rewrite done_bind. cbv zeta. rewrite (proj2 (Z.eqb_neq _ 0)) by lia.
  destruct (write_run b1 l Hb1 [] (take (Z.to_nat (eb_totallen b1 - (eb_misalign b1 + eb_off b1) - 1)) t ++ [zero])) as (mem & Hw & Hh).
  { cbn [app]. rewrite zlength_app. unfold zlength in *. rewrite length_take. simpl. lia. }
  { unfold zlength at 1. simpl. lia. }
  cbn [app] in Hw. rewrite Hw, done_bind. cbv zeta. rewrite (proj2 (Z.leb_gt (2 ^ 31) (zlength t))) by lia.
  rewrite (proj2 (Z.ltb_ge _ _)) by lia. rewrite app_nil_r in Hh.
  rewrite wrap32_id by (apply in_int_iff; lia). replace (u64 (zlength t + 1)) with (zlength t + 1) by (unfold u64; rewrite Z.mod_small; lia).
  change (zlength (@nil ascii)) with 0 in Hh. rewrite Z.add_0_r in Hh. replace (u64 (eb_off b1)) with (eb_off b1) in Hh
    by (unfold u64; rewrite Z.mod_small; lia).
  destruct (expand_run (zlength t + 1) _ l Hh) as (b2 & -> & Hb2 & Hr2 & [Hm2 Ht2] & Ho2 & Hc2 & Hl2); [lia|cbn; lia|].
  cbn [set_data eb_misalign eb_off eb_totallen] in *. rewrite done_bind. subst one.
  apply (Hlast 0%nat); try done; [by rewrite Hc2|by rewrite Hl2|lia|right; split; [split|]; lia|lia].
Qed.

Lemma find_end_spec l :
  match find_end l with
  | None => Forall (λ c, line_end c = false) l
  | Some i => Forall (λ c, line_end c = false) (take i l) ∧ ∃ c, l !! i = Some c ∧ line_end c = true
  end.
Proof.
  induction l as [|c l IH]; simpl; [constructor|]. destruct (line_end c) eqn:E; [split; [constructor|by exists c]|].
  destruct (find_end l) as [i|]; simpl; [|by constructor]. destruct IH as [H1 H2]. split; [by constructor|done].
Qed.
Lemma u32_id z : 0 <= z < 2 ^ 32 → u32 z = z.
Proof. apply Z.mod_small. Qed.
Lemma readline_run b l :
  holds b l → op_fits OpReadline b →
  ∃ out b' l', evbuffer_readline b = Done (out, b') ∧ ev_spec OpReadline l out l' ∧ holds b' l' ∧ told OpReadline l l' b b'
    ∧ grows 0 b b'.
Proof.
  intros Hb [Ht Hr]. unfold evbuffer_readline. rewrite (read_all b l Hb), done_bind. pose proof (find_end_spec l) as Hf.
  destruct (find_end l) as [i|].
  2: { rewrite (proj2 (Z.leb_gt _ _)) by (rewrite <-(ho_off b l Hb); lia). exists None, b, l. split; [done|]. split; [by constructor|]. split; [done|]. split; [split; [done|]|by split; lia].
       rewrite bool_decide_false by (intros Hne; by apply Hne). by rewrite andb_false_r, app_nil_r. }
  destruct Hf as (H1 & c & Hc & Hce). pose proof (lookup_lt_Some _ _ _ Hc) as Hi0. pose proof (ho_off b l Hb) as Ho.
  rewrite (proj2 (Z.leb_gt _ _)) by (unfold zlength in Ho; lia). unfold check.
  rewrite (proj2 (Z.leb_le _ (u32 _))) by (unfold u32; rewrite Z.mod_small; unfold zlength in Ho; lia). rewrite done_bind. set (two := match l !! i with Some _ => _ | None => _ end).
  pose proof (lookup_lt_Some _ _ _ Hc) as Hi. pose proof Hb as [_ ? Hoff Hfit _ _ _].
  assert (Hn : 0 <= Z.of_nat (if two then S i else i) + 1 < 2 ^ 59) by (unfold zlength in *; destruct two; lia).
  rewrite (u32_id (Z.of_nat (if two then S i else i) + 1)) by (unfold zlength in *; destruct two; lia).
  destruct (drain_run (Z.of_nat (if two then S i else i) + 1) b l OpReadline Hb Hn I) as (Hh & Htold & Hg).
  assert (El : drop (Z.to_nat (Z.of_nat (if two then S i else i) + 1)) l = after_line i l).
  { unfold after_line, two. rewrite (drop_S _ _ _ Hc). rewrite Hc. destruct (l !! S i) as [d|] eqn:Ed.
    - rewrite (drop_S _ _ _ Ed). destruct (line_end d && negb (bool_decide (d = c))).
      + f_equal. lia.
      + rewrite <-(drop_S _ _ _ Ed). f_equal. lia.
    - apply lookup_ge_None in Ed. rewrite (drop_ge l (S i)) by done. apply drop_ge. lia. }
  rewrite El in *. exists (Some (take i l)), (evbuffer_drain (Z.of_nat (if two then S i else i) + 1) b), (after_line i l).
  split; [done|]. split; [apply spec_line; [done|by exists c]|done].
Qed.

Lemma read_size_spec avail howmuch b :
  in_int howmuch = true → match avail with Some n => in_int n = true | None => True end → 0 <= eb_totallen b < 2 ^ 58 →
  0 <= read_size avail howmuch b < 2 ^ 31 ∧ (0 <= howmuch → read_size avail howmuch b <= howmuch)
  ∧ (howmuch ≠ 0 → 0 < read_size avail howmuch b).
Proof.
  intros Hh%in_int_iff Ha Ht. unfold read_size. cbv zeta.
  set (n := match avail with None => _ | Some _ => _ end).
  assert (Hn : 0 < n < 2 ^ 31).
  { unfold n, EVBUFFER_MAX_READ. destruct avail as [k|]; [|lia]. apply in_int_iff in Ha.
    destruct (Z.leb_spec k 0); [lia|]. destruct ((4096 <? k) && (howmuch <? k)) eqn:E; [|lia].
    unfold u64. rewrite Z.mod_small by lia. destruct (Z.ltb_spec (eb_totallen b * 4) k).
    - rewrite wrap32_id by (apply in_int_iff; lia). case_match; lia.
    - case_match; lia. }
  clearbody n. destruct (Z.ltb_spec howmuch 0), (Z.ltb_spec n howmuch); simpl; lia.
Qed.
Lemma socket_read_run avail howmuch data b l :
  holds b l → op_fits (OpRead avail howmuch data) b →
  ∃ b' l', ev_step (OpRead avail howmuch data) b = Done (None, b') ∧ ev_spec (OpRead avail howmuch data) l None l'
    ∧ holds b' l' ∧ told (OpRead avail howmuch data) l l' b b' ∧ grows (read_size avail howmuch b) b b'.
Proof.
  intros Hb (Ht & Hh & Ha). pose proof Hb as [_ Hmis Hoff Hfit _ _ _]. pose proof (zlength_nonneg l).
  destruct (read_size_spec avail howmuch b Hh Ha ltac:(lia)) as (Hs1 & Hs2 & Hs3). cbn [ev_step].
  unfold evbuffer_read. cbv zeta. set (n := read_size avail howmuch b) in *.
  exists (match evbuffer_read avail (λ n, Some (take (Z.to_nat n) data)) howmuch b with Done r => r.2 | _ => b end).
  unfold evbuffer_read. cbv zeta. fold n.
  assert (En : u64 n = n) by (unfold u64; rewrite Z.mod_small; lia). rewrite En.
  destruct (expand_run n b l Hb) as (b1 & -> & Hb1 & Hr1 & [Hm1 Ht1] & Ho1 & Hc1 & Hl1); [lia|lia|]. rewrite !done_bind.
  exists (l ++ take (Z.to_nat n) data). destruct (take (Z.to_nat n) data) as [|c d] eqn:Ed.
  - split; [done|]. split; [rewrite <-Ed; by constructor|]. rewrite app_nil_r. split; [done|]. split; [split; [done|]|by split; cbn [fst snd]; lia].
    rewrite bool_decide_false by (intros Hne; by apply Hne). rewrite andb_false_r, app_nil_r. done.
  - assert (Hlen : zlength (c :: d) <= n) by (rewrite <-Ed; unfold zlength; rewrite length_take; lia).
    pose proof Hb1 as [_ Hmis1 Hoff1 Hfit1 _ Hsm1 _]. pose proof (zlength_nonneg (c :: d)).
    destruct (write_run b1 l Hb1 (c :: d) []) as (mem & Hw & Hh1); [rewrite app_nil_r; lia|lia|]. rewrite app_nil_r in Hw.
    rewrite Hw, !done_bind. cbn [fst snd]. split; [done|]. split; [rewrite <-Ed; by constructor|].
    split; [by apply notify_holds|].
    split; [|by split; cbn [notify set_data eb_misalign eb_off eb_totallen]; unfold u64; rewrite ?Z.mod_small by lia; lia].
    set (b2 := set_data _ _ _ _ _ _) in *.
    destruct (notify_told (negb (eb_off b2 =? eb_off b)) (eb_off b) b2) as [E1 E2]. split; [by rewrite E1|]. rewrite E2.
    assert (Hob : eb_off b2 = zlength (l ++ c :: d)) by apply Hh1. rewrite Hob, Hoff. unfold b2. cbn [set_data eb_cb eb_calls].
    rewrite Hc1, Hl1, orb_false_r. f_equal.
    destruct (Z.eqb_spec (zlength (l ++ c :: d)) (zlength l)) as [E|E]; cbn [negb];
      [rewrite bool_decide_false by (intros Hne; by apply Hne)|rewrite bool_decide_true by done]; done.
Qed.

Lemma remove_run n b l :
  holds b l → op_fits (OpRemove n) b →
  ∃ out b' l', ev_step (OpRemove n) b = Done (out, b') ∧ ev_spec (OpRemove n) l out l' ∧ holds b' l' ∧ told (OpRemove n) l l' b b' ∧ grows 0 b b'.
Proof.
  intros Hb Hf. cbn [ev_step].
  destruct Hf as [_ Hn]. unfold evbuffer_remove. pose proof (holds_off_nonneg b l Hb). cbv zeta.
  set (k := if eb_off b <=? n then eb_off b else n). assert (Hk : 0 <= k <= eb_off b) by (unfold k; case_match; lia).
  pose proof (ho_fits b l Hb). pose proof (ho_misalign b l Hb).
  assert (Hkn : take (Z.to_nat k) l = take (Z.to_nat n) l ∧ drop (Z.to_nat k) l = drop (Z.to_nat n) l).
  { unfold k. destruct (Z.leb_spec (eb_off b) n); [|done]. pose proof (ho_off b l Hb). unfold zlength in *.
    rewrite !take_ge, !drop_ge by lia. done. }
  destruct (drain_run k b l (OpRemove n) Hb ltac:(unfold k in *; case_match; lia) I) as (Hh & Ht & Hg).
  rewrite (read_run b l Hb) by lia. rewrite done_bind. destruct Hkn as [-> Hd]. rewrite Hd in *. eexists _, _, _. split; [done|]. by split; [constructor|].
Qed.
Lemma write_out_run n b l :
  holds b l → op_fits (OpWrite n) b →
  ∃ out b' l', ev_step (OpWrite n) b = Done (out, b') ∧ ev_spec (OpWrite n) l out l' ∧ holds b' l' ∧ told (OpWrite n) l l' b b' ∧ grows 0 b b'.
Proof.
  intros Hb Hf. cbn [ev_step].
  destruct Hf as [Ht _]. unfold evbuffer_write. rewrite (read_all b l Hb), !done_bind. pose proof Hb as [_ ? Hoff Hfit _ _ _].
  destruct (n `min` length l)%nat as [|k] eqn:E.
  + rewrite done_bind. cbn [fst snd]. change (take (Z.to_nat 0) l) with (@nil ascii). exists (Some []), b, l. assert (Hnil : take n l = [] ∧ drop n l = l).
    { destruct n; [done|]. destruct l; [done|simpl in E; lia]. }
    destruct Hnil as [H1 H2]. split; [done|]. split; [pose proof (spec_write n l) as Hw; rewrite H1, H2 in Hw; exact Hw|]. split; [done|]. split; [split; [done|]|by split; lia].
    rewrite bool_decide_false by (intros Hne; by apply Hne). by rewrite andb_false_r, app_nil_r.
  + assert (Hkn : take (S k) l = take n l ∧ drop (S k) l = drop n l).
    { rewrite <-E. destruct (Nat.le_gt_cases n (length l)); [by rewrite Nat.min_l|].
      rewrite Nat.min_r, !take_ge, !drop_ge by lia. done. }
    destruct (drain_run (Z.of_nat (S k)) b l (OpWrite n) Hb) as (Hh & Hto & Hg); [unfold zlength in *; lia|done|].
    rewrite done_bind. cbn [fst snd]. rewrite Nat2Z.id in *. destruct Hkn as [H1 H2]. rewrite H1. rewrite H2 in *.
    eexists _, _, _. split; [done|]. by split; [constructor|].
Qed.

(** ** Properties *)

(** C17: the buffer is a queue of bytes: whatever the operation (append,
    formatted append, drain, remove, read a line, read from and write to a
    socket), on a buffer that holds the bytes [l] it returns without leaving
    its memory and without growing forever, gives the bytes and leaves the
    contents the queue would have, tells the callback of every change of the
    length, and takes no more memory than twice what the data and the bytes
    drained before it need. *)
Theorem evbuffer_refines (op : ev_op) (b : evbuffer) (l : list ascii) :
  holds b l → op_fits op b →
  ∃ out b' l', ev_step op b = Done (out, b') ∧ ev_spec op l out l' ∧ holds b' l' ∧ told op l l' b b'
    ∧ grows (room op b) b b'.
Proof.
  intros Hb Hf. destruct op as [data|t|n|n| |avail howmuch data|n].
  - cbn [ev_step]. destruct (add_run data b l Hb Hf) as (b' & -> & Hh & Ht & Hg). rewrite done_bind. eexists _, b', _. split; [done|]. by split; [constructor|].
  - cbn [ev_step]. destruct (printf_run t b l Hb Hf) as (b' & -> & Hh & Ht & Hg). rewrite done_bind. eexists _, b', _. split; [done|]. by split; [constructor|].
  - destruct Hf as [_ Hn]. destruct (drain_run n b l (OpDrain n) Hb ltac:(lia) I) as (? & ? & ?). eexists _, _, _. split; [done|]. by split; [constructor|].
  - by apply remove_run.
  - by apply readline_run.
  - destruct (socket_read_run avail howmuch data b l Hb Hf) as (b' & l' & H). by exists None, b', l'.
  - by apply write_out_run.
Qed.

Definition demo_buffer : outcome evbuffer :=
  b ← evbuffer_add (chars "GET /a") (evbuffer_setcb true evbuffer_new);
  r ← evbuffer_add_printf (chars " 1") (evbuffer_drain 4 b); Done r.2.
Lemma evbuffer_refines_witness :
  ∃ b, demo_buffer = Done b ∧ eb_calls b = [(0, 6); (6, 2); (2, 4)]
    ∧ ∃ b' l', ev_step (OpRemove 3) b = Done (Some (chars "/a "), b') ∧ holds b' l' ∧ l' = chars "1".
Proof.
  destruct demo_buffer as [b| |] eqn:E; [|vm_compute in E; discriminate..]. exists b. vm_compute in E. injection E as <-.
  split; [done|]. split; [done|].
  match goal with |- context [ev_step _ ?b] =>
    destruct (evbuffer_refines (OpRemove 3) b (chars "/a 1")) as (out & b' & l' & Hrun & Hspec & Hh & _);
      [split; try done; vm_compute; reflexivity|split; [vm_compute; reflexivity|split; [done|vm_compute; reflexivity]]|] end.
  inversion Hspec; subst. exists b', (drop 3 (chars "/a 1")). split; [exact Hrun|]. split; [exact Hh|done].
Defined.

(** Moving the data of one buffer behind that of another. *)
Theorem add_buffer_moves (outbuf inbuf : evbuffer) (l k : list ascii) :
  holds outbuf l → holds inbuf k → eb_totallen outbuf < 2 ^ 58 → eb_totallen inbuf < 2 ^ 58 →
  ∃ outbuf' inbuf', evbuffer_add_buffer outbuf inbuf = Done (outbuf', inbuf') ∧ holds outbuf' (l ++ k) ∧ holds inbuf' [].
Proof.
  intros Ho Hi Hto Hti. unfold evbuffer_add_buffer. pose proof (ho_off _ _ Ho) as Eo. pose proof (ho_off _ _ Hi) as Ei.
  pose proof (zlength_nonneg k). destruct (Z.eqb_spec (eb_off outbuf) 0) as [E|E].
  - assert (l = []) as -> by (destruct l; [done|unfold zlength in Eo; simpl in Eo; lia]). cbv zeta. eexists _, _. split; [done|].
    split; apply notify_holds; [destruct Hi|destruct Ho]; by split.
  - rewrite (read_all inbuf k Hi), done_bind. pose proof (ho_fits _ _ Hi). pose proof (ho_misalign _ _ Hi).
    destruct (add_run k outbuf l Ho) as (b' & -> & Hh & _); [split; [done|lia]|]. rewrite done_bind. eexists _, _. split; [done|].
    split; [done|]. destruct (drain_run (eb_off inbuf) inbuf k (OpDrain 0) Hi) as (Hd & _ & _); [lia|done|].
    rewrite drop_ge in Hd; [done|]. rewrite Ei. unfold zlength. lia.
Qed.

(** The sum of the sizes wraps around: asked for room for nearly 2^64 bytes,
    [evbuffer_expand] says there is room and does nothing; and from 2^63 bytes
    on it doubles the length to zero and never returns. *)
Example expand_wraps :
  (b ← evbuffer_add (chars "abc") evbuffer_new; b' ← evbuffer_expand (2 ^ 64 - 2) b; Done (eb_totallen b'))
  = Done 256.
Proof. by vm_compute. Qed.
Example expand_hangs : evbuffer_expand (2 ^ 63 + 1) evbuffer_new = Hang.
Proof. by vm_compute. Qed.
