(* ===== verification/MinHeap.v ===== *)
(** The timer heap of libevent: src/contrib/libevent-1.4.13-stable/min_heap.h.

    A binary heap of pointers to events, ordered by their timeouts, in which
    every event knows its own index.  Events are at addresses of a map; the
    array is the list [mh_p] of [mh_a] cells, of which the first [mh_n] are in
    use.  An access outside the array, or to a cell or an event that is not
    there, is [FBadAccess]. *)
From stdpp Require Import gmap.
From S2P Require Import Prelude Numeric.

(** ** Events *)

Record timeval := { tv_sec : Z; tv_usec : Z }.
(** [evutil_timercmp(a, b, >)]. *)
Definition tv_gtb (a b : timeval) : bool :=
  if (tv_sec a =? tv_sec b)%Z then (tv_usec b <? tv_usec a)%Z else (tv_sec b <? tv_sec a)%Z.

(** [struct event]; [ev_callback] and [ev_arg] are one number, the queues are
    lists of the base, and [ev_pncalls] tells whether the pointer is set. *)
Record event := {
  min_heap_idx : Z;
  ev_fd : Z;
  ev_events : Z;
  ev_ncalls : Z;
  ev_pncalls : bool;
  ev_timeout : timeval;
  ev_pri : nat;
  ev_callback : nat;
  ev_res : Z;
  ev_flags : Z;
}.
Abbreviation events := (gmap nat event).

Definition set_idx (i : Z) (ev : event) : event :=
  {| min_heap_idx := i; ev_fd := ev_fd ev; ev_events := ev_events ev; ev_ncalls := ev_ncalls ev; ev_pncalls := ev_pncalls ev;
     ev_timeout := ev_timeout ev; ev_pri := ev_pri ev; ev_callback := ev_callback ev; ev_res := ev_res ev; ev_flags := ev_flags ev |}.
(** [(unsigned int) -1]. *)
Definition NO_IDX : Z := 2 ^ 32 - 1.

Definition get_event (evs : events) (e : nat) : res event :=
  match evs !! e with Some ev => Ok ev | None => Fault FBadAccess end.

(** ** The heap *)

Record min_heap := { mh_p : list (option nat); mh_n : nat; mh_a : nat }.
Definition mh_set_p (p : list (option nat)) (s : min_heap) : min_heap := {| mh_p := p; mh_n := mh_n s; mh_a := mh_a s |}.
Definition mh_set_n (n : nat) (s : min_heap) : min_heap := {| mh_p := mh_p s; mh_n := n; mh_a := mh_a s |}.

Definition min_heap_ctor : min_heap := {| mh_p := []; mh_n := 0; mh_a := 0 |}.
Definition min_heap_empty (s : min_heap) : bool := mh_n s =? 0.
Definition min_heap_size (s : min_heap) : nat := mh_n s.

(** [s->p[i]]. *)
Definition mh_get (s : min_heap) (i : nat) : res nat :=
  match mh_p s !! i with Some (Some e) => Ok e | _ => Fault FBadAccess end.
Definition min_heap_top (s : min_heap) : res (option nat) :=
  if mh_n s =? 0 then Ok None else e ← mh_get s 0; Ok (Some e).
(** [(s->p[i] = e)->min_heap_idx = i]. *)
Definition mh_put (s : min_heap) (evs : events) (i e : nat) : res (min_heap * events) :=
  if i <? length (mh_p s) then
    ev ← get_event evs e;
    Ok (mh_set_p (<[i := Some e]> (mh_p s)) s, <[e := set_idx (Z.of_nat i) ev]> evs)
  else Fault FBadAccess.

Definition min_heap_elem_greater (evs : events) (a b : nat) : res bool :=
  x ← get_event evs a; y ← get_event evs b; Ok (tv_gtb (ev_timeout x) (ev_timeout y)).

(** The unsigned capacity doubles; [room] tells whether realloc gives that many
    cells.  New cells hold anything. *)
Definition double_cap (a : nat) : nat := Z.to_nat (Z.of_nat a * 2 mod 2 ^ 32).
Definition min_heap_reserve (room : nat → bool) (s : min_heap) (n : nat) : Z * min_heap :=
  if mh_a s <? n then
    let a := if mh_a s =? 0 then 8 else double_cap (mh_a s) in
    let a := if a <? n then n else a in
    if room a then (0%Z, {| mh_p := resize a None (mh_p s); mh_n := mh_n s; mh_a := a |}) else ((-1)%Z, s)
  else (0%Z, s).

(** The loops have as much fuel as the index can still move. *)
Fixpoint shift_up_loop (fuel : nat) (s : min_heap) (evs : events) (hole_index e : nat) : res (min_heap * events) :=
  match fuel with
  | O => mh_put s evs hole_index e
  | S fuel =>
      if hole_index =? 0 then mh_put s evs hole_index e
      else
        let parent := (hole_index - 1) / 2 in
        q ← mh_get s parent;
        g ← min_heap_elem_greater evs q e;
        if g : bool then
          '(s, evs) ← mh_put s evs hole_index q;
          shift_up_loop fuel s evs parent e
        else mh_put s evs hole_index e
  end.
Definition min_heap_shift_up_ (s : min_heap) (evs : events) (hole_index e : nat) : res (min_heap * events) :=
  shift_up_loop hole_index s evs hole_index e.

Fixpoint shift_down_loop (fuel : nat) (s : min_heap) (evs : events) (hole_index e : nat) : res (min_heap * events) :=
  match fuel with
  | O => min_heap_shift_up_ s evs hole_index e
  | S fuel =>
      let min_child := 2 * (hole_index + 1) in
      if min_child <=? mh_n s then
        min_child ← (if min_child =? mh_n s then Ok (min_child - 1)
                     else b ← mh_get s min_child; c ← mh_get s (min_child - 1);
                          g ← min_heap_elem_greater evs b c; Ok (if g : bool then min_child - 1 else min_child));
        c ← mh_get s min_child;
        g ← min_heap_elem_greater evs e c;
        if g : bool then
          '(s, evs) ← mh_put s evs hole_index c;
          shift_down_loop fuel s evs min_child e
        else min_heap_shift_up_ s evs hole_index e
      else min_heap_shift_up_ s evs hole_index e
  end.
Definition min_heap_shift_down_ (s : min_heap) (evs : events) (hole_index e : nat) : res (min_heap * events) :=
  shift_down_loop (mh_n s - hole_index) s evs hole_index e.

Definition min_heap_push (room : nat → bool) (s : min_heap) (evs : events) (e : nat) : res (Z * min_heap * events) :=
  let '(r, s) := min_heap_reserve room s (mh_n s + 1) in
  if (r =? 0)%Z then
    '(s, evs) ← min_heap_shift_up_ (mh_set_n (mh_n s + 1) s) evs (mh_n s) e;
    Ok (0%Z, s, evs)
  else Ok ((-1)%Z, s, evs).

Definition min_heap_elem_init (evs : events) (e : nat) : res events :=
  ev ← get_event evs e; Ok (<[e := set_idx NO_IDX ev]> evs).

Definition min_heap_pop (s : min_heap) (evs : events) : res (option nat * min_heap * events) :=
  if mh_n s =? 0 then Ok (None, s, evs)
  else
    e ← mh_get s 0;
    let s := mh_set_n (mh_n s - 1) s in
    last ← mh_get s (mh_n s);
    '(s, evs) ← min_heap_shift_down_ s evs 0 last;
    evs ← min_heap_elem_init evs e;
    Ok (Some e, s, evs).

Definition min_heap_erase (s : min_heap) (evs : events) (e : nat) : res (Z * min_heap * events) :=
  ev ← get_event evs e;
  if (min_heap_idx ev =? NO_IDX)%Z then Ok ((-1)%Z, s, evs)
  else
    let s := mh_set_n (mh_n s - 1) s in
    last ← mh_get s (mh_n s);
    let idx := Z.to_nat (min_heap_idx ev) in
    up ← (if (0 <? idx)%nat then q ← mh_get s ((idx - 1) / 2); min_heap_elem_greater evs q last else Ok false);
    '(s, evs) ← (if up : bool then min_heap_shift_up_ s evs idx last else min_heap_shift_down_ s evs idx last);
    evs ← min_heap_elem_init evs e;
    Ok (0%Z, s, evs).

(** ** The order of timeouts *)

Definition tv_le (a b : timeval) : Prop := tv_gtb a b = false.
#[export] Instance tv_le_preorder : PreOrder tv_le.
Proof.
  split; unfold tv_le, tv_gtb.
  - intros a. rewrite Z.eqb_refl. lia.
  - intros a b c. repeat case_match; lia.
Qed.
Lemma tv_gtb_le a b : tv_gtb a b = true → tv_le b a.
Proof. unfold tv_le, tv_gtb. repeat case_match; lia. Qed.

(** ** Heaps as lists *)

Section Lists.
  Context (key : nat → timeval).
  Implicit Types (v : list nat) (i h : nat).

Definition below (x y : nat) : Prop := tv_le (key x) (key y).
#[local] Instance below_preorder : PreOrder below.
  Proof. split; unfold below; [by intros x|]. intros x y z. apply tv_le_preorder. Qed.

Definition parent (i : nat) : nat := (i - 1) / 2.
Lemma parent_lt i : 0 < i → parent i < i.
  Proof. intros Hi. unfold parent. apply Nat.Div0.div_lt_upper_bound; lia. Qed.
Lemma parent_children i h : 0 < i → parent i = h ↔ i = 2 * h + 1 ∨ i = 2 * h + 2.
  Proof.
    intros Hi. unfold parent. split.
    - intros <-. pose proof (Nat.div_mod (i - 1) 2 ltac:(lia)). pose proof (Nat.mod_upper_bound (i - 1) 2 ltac:(lia)). lia.
    - intros [->| ->]; symmetry; [apply (Nat.div_unique _ _ _ 0)|apply (Nat.div_unique _ _ _ 1)]; lia.
  Qed.

  (** Parents are below their children; everywhere but for the index [h] and its
      parent, or but for [h] and its children. *)
Definition heap_order v : Prop :=
    ∀ i x y, 0 < i → v !! parent i = Some x → v !! i = Some y → below x y.
Definition up_order v h : Prop :=
    (∀ i x y, 0 < i → i ≠ h → v !! parent i = Some x → v !! i = Some y → below x y)
    ∧ ∀ i x y, 0 < i → 0 < h → parent i = h → v !! parent h = Some x → v !! i = Some y → below x y.
Definition down_order v h : Prop :=
    (∀ i x y, 0 < i → parent i ≠ h → v !! parent i = Some x → v !! i = Some y → below x y)
    ∧ ∀ i x y, 0 < i → 0 < h → parent i = h → v !! parent h = Some x → v !! i = Some y → below x y.

Lemma heap_up v h : heap_order v → up_order v h.
  Proof.
    intros Ho. split; [intros i x y Hi _; by apply Ho|]. intros i x y Hi Hh Hp Hx Hy.
    assert (Hl : is_Some (v !! h)).
    { apply lookup_lt_is_Some. apply lookup_lt_Some in Hy. rewrite <-Hp. pose proof (parent_lt i Hi). lia. }
    destruct Hl as [z Hz]. etrans; [by apply (Ho h x z)|]. apply (Ho i z y); [done|by rewrite Hp|done].
  Qed.
Lemma up_heap v h :
    up_order v h → (∀ x y, 0 < h → v !! parent h = Some x → v !! h = Some y → below x y) → heap_order v.
  Proof. intros [Ho _] Hh i x y Hi. destruct (decide (i = h)) as [->|]; [by apply Hh|by apply Ho]. Qed.
Lemma down_heap v h :
    down_order v h → (∀ i x y, 0 < i → parent i = h → v !! h = Some x → v !! i = Some y → below x y) → heap_order v.
  Proof.
    intros [Ho _] Hh i x y Hi Hx. destruct (decide (parent i = h)) as [E|]; [|by apply Ho].
    rewrite E in Hx. by apply Hh.
  Qed.

  (** Exchanging [h] with its parent [p] when the parent is above it. *)
Lemma lookup_swap v p h q e i :
    v !! p = Some q → v !! h = Some e →
    <[p := e]> (<[h := q]> v) !! i = if decide (i = p) then Some e else if decide (i = h) then Some q else v !! i.
  Proof.
    intros Hp Hh. pose proof (lookup_lt_Some _ _ _ Hp). pose proof (lookup_lt_Some _ _ _ Hh). case_decide as E1; [subst i|].
    - rewrite list_lookup_insert_eq; [done|]. by rewrite length_insert.
    - rewrite list_lookup_insert_ne by done. case_decide as E2; [subst i; by apply list_lookup_insert_eq|]. by rewrite list_lookup_insert_ne.
  Qed.
Lemma up_swap v h q e :
    0 < h → v !! parent h = Some q → v !! h = Some e → below e q → up_order v h →
    up_order (<[parent h := e]> (<[h := q]> v)) (parent h).
  Proof.
    intros Hh Hq He Hle [Ho Hc]. pose proof (parent_lt h Hh) as Hlt.
    assert (Hl := λ i, lookup_swap v (parent h) h q e i Hq He). split.
    - intros i x y Hi Hne. rewrite !Hl. rewrite (decide_False (P := i = parent h)) by done.
      destruct (decide (parent i = parent h)) as [E|E].
      + intros [= <-]. case_decide as Eh; [intros [= <-]; done|]. intros Hy. etrans; [done|]. apply (Ho i q y); [done|done|by rewrite E|done].
      + case_decide as Eh.
        * intros [= <-]. assert (i ≠ h) by (intros ->; pose proof (parent_lt h Hh); lia). rewrite decide_False by done. by apply (Hc i q y).
        * intros Hx. case_decide as Ei; [subst i; done|]. intros Hy. by apply (Ho i x y).
    - intros i x y Hi Hp Hpi. rewrite !Hl. pose proof (parent_lt (parent h) Hp) as Hlt2.
      rewrite (decide_False (P := parent (parent h) = parent h)), (decide_False (P := parent (parent h) = h)) by lia.
      intros Hx. rewrite (decide_False (P := i = parent h)) by (intros ->; pose proof (parent_lt (parent h) Hp); lia).
      assert (Hxq : below x q) by (by apply (Ho (parent h) x q); [|lia|..]).
      case_decide as Eh; [intros [= <-]; done|]. intros Hy. etrans; [done|]. apply (Ho i q y); [done|done|by rewrite Hpi|done].
  Qed.
  (** Exchanging [h] with its smallest child [c]. *)
Lemma down_swap v h c q e :
    0 < c → parent c = h → v !! c = Some q → v !! h = Some e → below q e →
    (∀ i y, 0 < i → parent i = h → v !! i = Some y → below q y) → down_order v h →
    down_order (<[c := e]> (<[h := q]> v)) c.
  Proof.
    intros Hc Hp Hq He Hle Hmin [Ho Hg]. pose proof (parent_lt c Hc) as Hlt. rewrite Hp in Hlt.
    assert (Hl := λ i, lookup_swap v c h q e i Hq He). split.
    - intros i x y Hi Hne. rewrite !Hl. rewrite (decide_False (P := parent i = c)) by done. case_decide as E.
      + intros [= <-]. case_decide as Eic; [intros [= <-]; done|].
        assert (i ≠ h) by (intros ->; pose proof (parent_lt h ltac:(lia)); lia). rewrite decide_False by done. by apply Hmin.
      + intros Hx. case_decide as Eic; [congruence|].
        case_decide as Eih; [|intros Hy; by apply (Ho i x y)]. subst i. intros [= <-]. by apply (Hg c x q).
    - intros i x y Hi _ Hpi. rewrite !Hl, Hp. rewrite (decide_False (P := h = c)) by lia. rewrite decide_True by done. intros [= <-].
      pose proof (parent_lt i Hi). rewrite !decide_False by lia. intros Hy.
      apply (Ho i q y); [done|lia|by rewrite Hpi|done].
  Qed.
Lemma swap_perm v p h q e :
    p ≠ h → v !! p = Some q → v !! h = Some e → <[p := e]> (<[h := q]> v) ≡ₚ v.
  Proof.
    intros Hne Hp Hh. symmetry. apply (Permutation_inj). split; [by rewrite !length_insert|].
    exists (λ i, if decide (i = p) then h else if decide (i = h) then p else i). split.
    - intros i j. repeat case_decide; congruence.
    - intros i. rewrite (lookup_swap v p h q e) by done. repeat case_decide; congruence.
  Qed.
End Lists.

(** ** Arrays that hold a list *)

Definition tv_zero : timeval := {| tv_sec := 0; tv_usec := 0 |}.
Definition key_of (evs : events) (x : nat) : timeval := default tv_zero (ev_timeout <$> evs !! x).
Definition forget (ev : event) : event := set_idx 0 ev.

(** Only the indices of members of [v] may differ. *)
Record moved (v : list nat) (evs evs' : events) : Prop := {
  mv_same x : forget <$> evs' !! x = forget <$> evs !! x;
  mv_else x : x ∉ v → evs' !! x = evs !! x;
}.
#[export] Instance moved_preorder v : PreOrder (moved v).
Proof.
  split; [done|]. intros evs1 evs2 evs3 [H1 E1] [H2 E2]. split.
  - intros x. by rewrite H2.
  - intros x Hx. by rewrite E2, E1.
Qed.
Lemma moved_weaken v v' evs evs' : (∀ x, x ∈ v → x ∈ v') → moved v evs evs' → moved v' evs evs'.
Proof. intros Hv [? He]. split; [done|]. intros x Hx. apply He. auto. Qed.
Lemma moved_key v evs evs' x : moved v evs evs' → key_of evs' x = key_of evs x.
Proof.
  intros [H _]. specialize (H x). unfold key_of. destruct (evs !! x) as [a|], (evs' !! x) as [b|]; cbn in *; try done.
  change (ev_timeout b) with (ev_timeout (forget b)). assert (forget b = forget a) as -> by congruence. done.
Qed.
Lemma moved_live v evs evs' x : moved v evs evs' → is_Some (evs !! x) → is_Some (evs' !! x).
Proof. intros [H _] [ev Hev]. specialize (H x). rewrite Hev in H. destruct (evs' !! x); [by eexists|done]. Qed.
Lemma moved_insert v evs x ev i : x ∈ v → evs !! x = Some ev → moved v evs (<[x := set_idx i ev]> evs).
Proof.
  intros Hx Hev. split; intros y.
  - destruct (decide (x = y)) as [<-|]; [by rewrite lookup_insert_eq, Hev|by rewrite lookup_insert_ne].
  - intros Hy. rewrite lookup_insert_ne; [done|]. by intros ->.
Qed.

Definition same_array (s s' : min_heap) : Prop :=
  mh_n s' = mh_n s ∧ mh_a s' = mh_a s ∧ length (mh_p s') = length (mh_p s).
#[export] Instance same_array_preorder : PreOrder same_array.
Proof. split; unfold same_array; [done|]. intros s1 s2 s3 (-> & -> & ->) (-> & -> & ->). done. Qed.

Definition cell (s : min_heap) (evs : events) (i x : nat) : Prop :=
  mh_p s !! i = Some (Some x) ∧ ∃ ev, evs !! x = Some ev ∧ min_heap_idx ev = Z.of_nat i.
(** The array holds [v]; all of it, or all but [e] at the index [h]. *)
Definition laid (s : min_heap) (evs : events) (v : list nat) : Prop := ∀ i x, v !! i = Some x → cell s evs i x.
Record holed (s : min_heap) (evs : events) (v : list nat) (h e : nat) : Prop := {
  ho_len : length v ≤ length (mh_p s);
  ho_at : v !! h = Some e;
  ho_nodup : NoDup v;
  ho_e : is_Some (evs !! e);
  ho_rep i x : i ≠ h → v !! i = Some x → cell s evs i x;
}.

Lemma get_event_run evs x ev : evs !! x = Some ev → get_event evs x = Ok ev.
Proof. unfold get_event. by intros ->. Qed.
Lemma greater_run evs a b :
  is_Some (evs !! a) → is_Some (evs !! b) → min_heap_elem_greater evs a b = Ok (tv_gtb (key_of evs a) (key_of evs b)).
Proof.
  intros [x Hx] [y Hy]. unfold min_heap_elem_greater, key_of. rewrite (get_event_run _ _ _ Hx). cbn. rewrite (get_event_run _ _ _ Hy). cbn.
  by rewrite Hx, Hy.
Qed.
Lemma cell_live s evs i x : cell s evs i x → is_Some (evs !! x).
Proof. intros (_ & ev & Hev & _). by exists ev. Qed.
Lemma cell_get s evs i x : cell s evs i x → mh_get s i = Ok x.
Proof. intros [Hp _]. unfold mh_get. by rewrite Hp. Qed.
Lemma mh_put_run s evs i x ev :
  i < length (mh_p s) → evs !! x = Some ev →
  mh_put s evs i x = Ok (mh_set_p (<[i := Some x]> (mh_p s)) s, <[x := set_idx (Z.of_nat i) ev]> evs).
Proof. intros Hi Hx. unfold mh_put. rewrite (proj2 (Nat.ltb_lt _ _) Hi). by rewrite (get_event_run _ _ _ Hx). Qed.

(** Writing [x] at [i]: what is at other indices stays. *)
Lemma put_cells s evs i x s' evs' :
  mh_put s evs i x = Ok (s', evs') → is_Some (evs !! x) →
  cell s' evs' i x ∧ (∀ j y, j ≠ i → y ≠ x → cell s evs j y → cell s' evs' j y) ∧ same_array s s'.
Proof.
  intros Hrun [ev Hev]. unfold mh_put in Hrun. destruct (Nat.ltb_spec i (length (mh_p s))) as [Hi|]; [|done].
  rewrite (get_event_run _ _ _ Hev) in Hrun. injection Hrun as <- <-. split_and!.
  - split; [by apply list_lookup_insert_eq|]. exists (set_idx (Z.of_nat i) ev). by rewrite lookup_insert_eq.
  - intros j y Hj Hy [Hp (ev' & Hev' & Hx)]. split; [by rewrite <-Hp; apply list_lookup_insert_ne|].
    exists ev'. by rewrite lookup_insert_ne.
  - split_and!; [done|done|apply length_insert].
Qed.

Lemma place_run s evs v h e :
  holed s evs v h e → ∃ s' evs', mh_put s evs h e = Ok (s', evs') ∧ laid s' evs' v ∧ moved v evs evs' ∧ same_array s s'.
Proof.
  intros [Hlen Hat Hnd [ev Hev] Hrep]. assert (Hh : h < length (mh_p s)) by (apply lookup_lt_Some in Hat; lia).
  pose proof (mh_put_run s evs h e ev Hh Hev) as Hrun. eexists _, _. split; [exact Hrun|].
  apply put_cells in Hrun as (Hc & Ho & Hs); [|by eexists]. split_and!; [|apply moved_insert; [by eapply list_elem_of_lookup_2|done]|done].
  intros i x Hi. destruct (decide (i = h)) as [->|Hne]; [congruence|]. apply Ho; [done| |by apply Hrep].
  intros ->. by eapply Hne, NoDup_lookup.
Qed.
Lemma step_run s evs v h e c q :
  holed s evs v h e → v !! c = Some q → c ≠ h →
  ∃ s' evs', mh_put s evs h q = Ok (s', evs') ∧ holed s' evs' (<[c := e]> (<[h := q]> v)) c e ∧ moved v evs evs' ∧ same_array s s'.
Proof.
  intros [Hlen Hat Hnd He Hrep] Hq Hne. assert (Hh : h < length (mh_p s)) by (apply lookup_lt_Some in Hat; lia).
  destruct (Hrep c q Hne Hq) as (_ & ev & Hev & _).
  pose proof (mh_put_run s evs h q ev Hh Hev) as Hrun. eexists _, _. split; [exact Hrun|].
  apply put_cells in Hrun as (Hc & Ho & Hs); [|by eexists].
  assert (Hm : moved v evs (<[q:=set_idx (Z.of_nat h) ev]> evs)) by (apply moved_insert; [by eapply list_elem_of_lookup_2|done]).
  split_and!; [|done|done]. assert (Hl := λ i, lookup_swap v c h q e i Hq Hat). split.
  - rewrite !length_insert. by destruct Hs as (_ & _ & ->).
  - by rewrite Hl, decide_True.
  - by rewrite (swap_perm v c h q e).
  - by eapply moved_live.
  - intros i x Hi. rewrite Hl, decide_False by done. case_decide as Eh; [intros [= <-]; by subst|]. intros Hx.
    apply Ho; [done| |by apply Hrep]. intros ->. by eapply Hi, NoDup_lookup.
Qed.

(** ** Sifting *)

(** What both loops do: the array then holds a heap with the same members. *)
Definition sifted (s : min_heap) (evs : events) (v : list nat) (r : res (min_heap * events)) : Prop :=
  ∃ s' evs' v', r = Ok (s', evs') ∧ laid s' evs' v' ∧ heap_order (key_of evs) v' ∧ v' ≡ₚ v ∧ moved v evs evs' ∧ same_array s s'.

Lemma heap_order_ext k k' v : (∀ x, k' x = k x) → heap_order k v → heap_order k' v.
Proof. intros Hk Ho i x y Hi Hx Hy. unfold below. rewrite !Hk. by apply (Ho i). Qed.
Lemma up_order_ext k k' v h : (∀ x, k' x = k x) → up_order k v h → up_order k' v h.
Proof. intros Hk [Ho Hc]. split; intros i x y **; unfold below; rewrite !Hk; [by apply (Ho i)|by apply (Hc i)]. Qed.
Lemma down_order_ext k k' v h : (∀ x, k' x = k x) → down_order k v h → down_order k' v h.
Proof. intros Hk [Ho Hc]. split; intros i x y **; unfold below; rewrite !Hk; [by apply (Ho i)|by apply (Hc i)]. Qed.

Lemma sifted_step s evs v s1 evs1 v1 r :
  moved v evs evs1 → same_array s s1 → v1 ≡ₚ v → sifted s1 evs1 v1 r → sifted s evs v r.
Proof.
  intros Hm Hs Hv (s' & evs' & v' & -> & Hl & Ho & Hp & Hm' & Hs'). exists s', evs', v'. split_and!; [done|done| |by rewrite Hp| |by trans s1].
  - eapply heap_order_ext, Ho. intros x. by rewrite (moved_key v evs evs1).
  - trans evs1; [done|]. eapply moved_weaken, Hm'. intros x. by rewrite Hv.
Qed.
Lemma sifted_place s evs v h e : holed s evs v h e → heap_order (key_of evs) v → sifted s evs v (mh_put s evs h e).
Proof. intros Hh Ho. destruct (place_run s evs v h e Hh) as (s' & evs' & -> & Hl & Hm & Hs). by exists s', evs', v. Qed.

Lemma shift_up_spec fuel : ∀ s evs v h e,
  h ≤ fuel → holed s evs v h e → up_order (key_of evs) v h → sifted s evs v (shift_up_loop fuel s evs h e).
Proof.
  induction fuel as [|fuel IH]; intros s evs v h e Hf Hh Ho; cbn [shift_up_loop].
  { apply sifted_place; [done|]. eapply up_heap; [done|lia]. }
  destruct (Nat.eqb_spec h 0) as [->|Hh0].
  { apply sifted_place; [done|]. eapply up_heap; [done|lia]. }
  assert (Hpos : 0 < h) by lia. pose proof (parent_lt h Hpos) as Hlt. fold (parent h).
  destruct (lookup_lt_is_Some_2 v (parent h)) as [q Hq]; [pose proof (lookup_lt_Some _ _ _ (ho_at _ _ _ _ _ Hh)); lia|].
  assert (Hcell : cell s evs (parent h) q) by (eapply ho_rep; [done|lia|done]).
  rewrite (cell_get _ _ _ _ Hcell). cbn [mbind res_bind].
  rewrite greater_run by (eapply cell_live, Hcell || eapply ho_e, Hh). cbn [mbind res_bind].
  destruct (tv_gtb _ _) eqn:Hg.
  - destruct (step_run s evs v h e (parent h) q Hh Hq) as (s1 & evs1 & -> & Hh1 & Hm & Hs); [lia|]. cbn [mbind res_bind].
    apply (sifted_step s evs v s1 evs1 (<[parent h := e]> (<[h := q]> v))); [done|done|apply swap_perm; [lia|done|by eapply ho_at]|].
    apply IH; [lia|done|]. eapply up_order_ext; [intros x; by eapply moved_key|].
    apply up_swap; [done|done|by eapply ho_at|by apply tv_gtb_le|done].
  - apply sifted_place; [done|]. eapply up_heap; [done|]. intros x y _ Hx Hy. rewrite (ho_at _ _ _ _ _ Hh) in Hy. by simplify_eq.
Qed.
Lemma shift_up_heap s evs v h e :
  holed s evs v h e → heap_order (key_of evs) v → sifted s evs v (min_heap_shift_up_ s evs h e).
Proof. intros Hh Ho. apply shift_up_spec; [done|done|]. by apply heap_up. Qed.

(** The child the loop compares with is the smaller one. *)
Lemma min_child_run s evs v h e :
  holed s evs v h e → mh_n s = length v → 2 * (h + 1) ≤ mh_n s →
  ∃ c q, (if 2 * (h + 1) =? mh_n s then Ok (2 * (h + 1) - 1)
          else b ← mh_get s (2 * (h + 1)); c ← mh_get s (2 * (h + 1) - 1);
               g ← min_heap_elem_greater evs b c; Ok (if g : bool then 2 * (h + 1) - 1 else 2 * (h + 1))) = Ok c
    ∧ 0 < c ∧ parent c = h ∧ v !! c = Some q ∧ ∀ i y, 0 < i → parent i = h → v !! i = Some y → below (key_of evs) q y.
Proof.
  intros Hh Hn Hc. remember (2 * (h + 1) - 1) as l eqn:El. remember (2 * (h + 1)) as r eqn:Er.
  destruct (lookup_lt_is_Some_2 v l) as [x Hx]; [lia|].
  assert (Hlp : parent l = h) by (apply parent_children; lia).
  assert (Hrp : parent r = h) by (apply parent_children; lia).
  assert (Hcl : cell s evs l x) by (eapply ho_rep; [done|lia|done]).
  destruct (Nat.eqb_spec r (mh_n s)) as [E|E].
  - exists l, x. split_and!; [done|lia|done|done|]. intros i y Hi Hp Hy. apply parent_children in Hp; [|done].
    assert (i < length v) by (by eapply lookup_lt_Some). assert (i = l) as -> by lia. simplify_eq. apply tv_le_preorder.
  - destruct (lookup_lt_is_Some_2 v r) as [y Hy]; [lia|].
    assert (Hcr : cell s evs r y) by (eapply ho_rep; [done|lia|done]).
    rewrite (cell_get _ _ _ _ Hcr). cbn [mbind res_bind]. rewrite (cell_get _ _ _ _ Hcl). cbn [mbind res_bind].
    rewrite greater_run by (eapply cell_live; done). cbn [mbind res_bind].
    destruct (tv_gtb _ _) eqn:Hg; [exists l, x|exists r, y]; (split_and!; [done|lia|done|done|]);
      intros i z Hi Hp Hz; apply parent_children in Hp; [|done| |done];
      assert (i = l ∨ i = r) as [->| ->] by lia; simplify_eq; try apply tv_le_preorder; [by apply tv_gtb_le|done].
Qed.

Lemma shift_down_spec fuel : ∀ s evs v h e,
  mh_n s = length v → mh_n s - h ≤ fuel → holed s evs v h e → down_order (key_of evs) v h →
  sifted s evs v (shift_down_loop fuel s evs h e).
Proof.
  induction fuel as [|fuel IH]; intros s evs v h e Hn Hf Hh Ho; cbn [shift_down_loop].
  { pose proof (lookup_lt_Some _ _ _ (ho_at _ _ _ _ _ Hh)). lia. }
  destruct (Nat.leb_spec (2 * (h + 1)) (mh_n s)) as [Hc|Hc].
  - destruct (min_child_run s evs v h e Hh Hn Hc) as (c & q & -> & Hc0 & Hp & Hq & Hmin). cbn [mbind res_bind].
    pose proof (parent_lt c Hc0) as Hlt.
    assert (Hcell : cell s evs c q) by (eapply ho_rep; [done|lia|done]).
    rewrite (cell_get _ _ _ _ Hcell). cbn [mbind res_bind].
    rewrite greater_run by (eapply cell_live, Hcell || eapply ho_e, Hh). cbn [mbind res_bind]. destruct (tv_gtb _ _) eqn:Hg.
    + destruct (step_run s evs v h e c q Hh Hq) as (s1 & evs1 & -> & Hh1 & Hm & Hs); [lia|]. cbn [mbind res_bind].
      apply (sifted_step s evs v s1 evs1 (<[c := e]> (<[h := q]> v))); [done|done|apply swap_perm; [lia|done|by eapply ho_at]|].
      pose proof Hs as (En & _ & _). apply IH; [by rewrite !length_insert, En|lia|done|].
      eapply down_order_ext; [intros x; by eapply moved_key|].
      eapply down_swap; [done|done|done|by eapply ho_at|by apply tv_gtb_le|done|done].
    + apply shift_up_heap; [done|]. eapply down_heap; [done|]. intros i x y Hi Hpi Hx Hy.
      rewrite (ho_at _ _ _ _ _ Hh) in Hx. injection Hx as <-. unfold below. etrans; [exact Hg|]. by apply (Hmin i).
  - apply shift_up_heap; [done|]. eapply down_heap; [done|]. intros i x y Hi Hpi _ Hy.
    apply parent_children in Hpi; [|done]. apply lookup_lt_Some in Hy. lia.
Qed.

(** ** The invariant of the heap *)

(** The heap holds the events [l]: the array is laid out, parents come before
    their children, and every event that is not in it has no index. *)
Record heap_inv (s : min_heap) (evs : events) (l : list nat) : Prop := {
  hi_n : mh_n s = length l;
  hi_a : mh_a s = length (mh_p s);
  hi_fits : length l ≤ length (mh_p s);
  hi_nodup : NoDup l;
  hi_laid : laid s evs l;
  hi_order : heap_order (key_of evs) l;
  hi_out x ev : evs !! x = Some ev → x ∉ l → min_heap_idx ev = NO_IDX;
}.

Lemma heap_inv_new evs : (∀ x ev, evs !! x = Some ev → min_heap_idx ev = NO_IDX) → heap_inv min_heap_ctor evs [].
Proof. intros H. by split; try done; [constructor|intros x ev Hx _; by eapply H]. Qed.

Lemma laid_holed s evs l i e : heap_inv s evs l → l !! i = Some e → holed s evs l i e.
Proof. intros Hi He. split; try done; try apply Hi; [by eapply cell_live, Hi|intros j x _; apply Hi]. Qed.

(** After sifting a list with the members of [l']. *)
Lemma sifted_inv s evs v s' evs' v' :
  laid s' evs' v' → heap_order (key_of evs) v' → v' ≡ₚ v → moved v evs evs' → same_array s s' →
  NoDup v → mh_n s = length v → mh_a s = length (mh_p s) → length v ≤ length (mh_p s) →
  (∀ x ev, evs !! x = Some ev → x ∉ v → min_heap_idx ev = NO_IDX) → heap_inv s' evs' v'.
Proof.
  intros Hl Ho Hp Hm (En & Ea & El) Hnd Hn Ha Hf Hout. split.
  - rewrite En, Hn. by rewrite Hp.
  - by rewrite Ea, El.
  - rewrite El. by rewrite Hp.
  - by rewrite Hp.
  - done.
  - eapply heap_order_ext, Ho. intros x. by eapply moved_key.
  - intros x ev Hx Hv. rewrite Hp in Hv. rewrite (mv_else _ _ _ Hm) in Hx by done. by apply (Hout x ev).
Qed.

(** *** Adding *)

Lemma reserve_run room s n :
  mh_a s = length (mh_p s) →
  let '(r, s') := min_heap_reserve room s n in
  r = (-1)%Z ∧ s' = s ∧ mh_a s < n
  ∨ r = 0%Z ∧ mh_n s' = mh_n s ∧ mh_a s' = length (mh_p s') ∧ n ≤ length (mh_p s') ∧ length (mh_p s) ≤ length (mh_p s')
    ∧ ∀ i c, mh_p s !! i = Some c → mh_p s' !! i = Some c.
Proof.
  intros Ha. unfold min_heap_reserve. destruct (Nat.ltb_spec (mh_a s) n) as [Hlt|Hle].
  2: { right. split_and!; [done|done|done|lia|done|done]. }
  set (a := if mh_a s =? 0 then 8 else double_cap (mh_a s)).
  assert (Hn : n ≤ (if a <? n then n else a)) by (destruct (Nat.ltb_spec a n); lia).
  destruct (room _); [right|left; by split_and!]. cbn [mh_n mh_a mh_p]. rewrite length_resize. split_and!; [done|done|done|done|lia|].
  intros i c Hi. rewrite lookup_resize; [done| |]; apply lookup_lt_Some in Hi; lia.
Qed.

Lemma append_up_order k l e : heap_order k l → up_order k (l ++ [e]) (length l).
Proof.
  intros Ho. split.
  - intros i x y Hi Hne Hx Hy. assert (i < length l) by (apply lookup_lt_Some in Hy; rewrite length_app in Hy; simpl in Hy; lia).
    pose proof (parent_lt i Hi). rewrite lookup_app_l in Hx, Hy by lia. by apply (Ho i).
  - intros i x y Hi _ Hp _ Hy. pose proof (parent_lt i Hi). apply lookup_lt_Some in Hy. rewrite length_app in Hy. simpl in Hy. lia.
Qed.

Lemma push_run room s evs l e ev :
  heap_inv s evs l → evs !! e = Some ev → min_heap_idx ev = NO_IDX → e ∉ l →
  ∃ r s' evs', min_heap_push room s evs e = Ok (r, s', evs')
    ∧ (r = (-1)%Z ∧ s' = s ∧ evs' = evs ∧ mh_a s = length l
       ∨ r = 0%Z ∧ ∃ l', heap_inv s' evs' l' ∧ l' ≡ₚ e :: l ∧ moved l' evs evs').
Proof.
  intros Hi Hev Hidx He. unfold min_heap_push. pose proof (reserve_run room s (mh_n s + 1) (hi_a _ _ _ Hi)) as Hres.
  destruct (min_heap_reserve room s (mh_n s + 1)) as [r s1]. destruct Hres as [(-> & -> & Hfull)|(-> & En & Ea & Hlen & _ & Hkeep)].
  { exists (-1)%Z, s, evs. split; [done|]. left. split_and!; try done. destruct Hi as [Hn Ha Hf _ _ _ _]. lia. }
  change (0 =? 0)%Z with true. cbv iota. set (s2 := mh_set_n (mh_n s1 + 1) s1).
  assert (Hmn : mh_n s1 = length l) by (rewrite En; apply Hi).
  assert (Hp : l ++ [e] ≡ₚ e :: l) by (by rewrite Permutation_app_comm).
  assert (Hh : holed s2 evs (l ++ [e]) (length l) e).
  { split.
    - rewrite length_app. cbn. rewrite <-Hmn, En. lia.
    - by rewrite lookup_app_r, Nat.sub_diag.
    - rewrite Hp. apply NoDup_cons. split; [done|apply Hi].
    - by eexists.
    - intros i x Hne Hx. assert (i < length l) by (apply lookup_lt_Some in Hx; rewrite length_app in Hx; simpl in Hx; lia).
      rewrite lookup_app_l in Hx by done. destruct (hi_laid _ _ _ Hi i x Hx) as [Hc Hd]. split; [by apply Hkeep|done]. }
  destruct (shift_up_spec (length l) s2 evs (l ++ [e]) (length l) e (le_n _) Hh) as (s' & evs' & v' & Hrun & Hl & Ho & Hpv & Hm & Hs);
    [apply append_up_order, Hi|].
  exists 0%Z, s', evs'. unfold min_heap_shift_up_. rewrite Hmn, Hrun. split; [done|]. right. split; [done|]. exists v'.
  split_and!; [|by rewrite Hpv|eapply moved_weaken, Hm; intros x; by rewrite Hpv].
  eapply (sifted_inv s2 evs (l ++ [e])); try done.
  - rewrite Hp. apply NoDup_cons. split; [done|apply Hi].
  - cbn. rewrite length_app, Hmn. done.
  - rewrite length_app. cbn. rewrite <-Hmn, En. lia.
  - intros x ev' Hx Hv. apply not_elem_of_app in Hv as [Hv _]. by eapply hi_out.
Qed.

(** *** Taking out *)

Lemma shift_up_stay s evs i e q :
  (i = 0 ∨ mh_get s (parent i) = Ok q ∧ min_heap_elem_greater evs q e = Ok false) →
  min_heap_shift_up_ s evs i e = mh_put s evs i e.
Proof.
  intros H. unfold min_heap_shift_up_. destruct i as [|i]; [done|]. destruct H as [H|[Hq Hg]]; [done|].
  cbn [shift_up_loop]. change (S i =? 0) with false. cbv iota. fold (parent (S i)). rewrite Hq. cbn [mbind res_bind]. by rewrite Hg.
Qed.

(** [l] without its last member, which takes the place of the one at [i]. *)
Lemma replace_perm (l : list nat) last i e :
  l !! i = Some e → e :: <[i := last]> l ≡ₚ last :: l.
Proof.
  intros He. rewrite <-(take_drop_middle l i e He) at 2. rewrite insert_take_drop by (by eapply lookup_lt_Some).
  by rewrite <-!Permutation_middle, Permutation_swap.
Qed.

Lemma lookup_replaced (l : list nat) i x j y : <[i := x]> l !! j = Some y → j = i ∧ y = x ∨ j ≠ i ∧ l !! j = Some y.
Proof.
  destruct (decide (i = j)) as [<-|Hne]; [|rewrite list_lookup_insert_ne by done; auto].
  intros H. left. split; [done|]. rewrite list_lookup_insert_eq in H; [by injection H|].
  apply lookup_lt_Some in H. by rewrite length_insert in H.
Qed.

Lemma prefix_order k l last : heap_order k (l ++ [last]) → heap_order k l.
Proof. intros Ho j x y Hj Hx Hy. apply (Ho j); [done|by apply lookup_app_l_Some..]. Qed.

Section Replace.
  Context (k : nat → timeval) (l : list nat) (last i e : nat).
  Hypothesis (Ho : heap_order k (l ++ [last])) (He : l !! i = Some e).
Let app_order := prefix_order k l last Ho.

Lemma across x y j : 0 < i → l !! parent i = Some x → 0 < j → parent j = i → l !! j = Some y → below k x y ∧ below k e y.
  Proof.
    intros Hi Hx Hj Hp Hy. assert (below k e y) by (apply (app_order j); [done|by rewrite Hp|done]). split; [|done].
    unfold below in *. trans (k e); [|done]. by apply (app_order i).
  Qed.
Lemma replace_up q :
    0 < i → l !! parent i = Some q → below k last q → up_order k (<[i := last]> l) i.
  Proof.
    intros Hi Hq Hl. pose proof (parent_lt i Hi) as Hlt. split.
    - intros j x y Hj Hne Hx Hy. apply lookup_replaced in Hy as [[? _]|[_ Hy]]; [done|].
      apply lookup_replaced in Hx as [[Hp ->]|[_ Hx]]; [|by apply (app_order j)].
      destruct (across q y j Hi Hq Hj Hp Hy) as [Hqy _]. unfold below in *. by trans (k q).
    - intros j x y Hj _ Hp Hx Hy. pose proof (parent_lt j Hj). apply lookup_replaced in Hx as [[? _]|[_ Hx]]; [lia|].
      apply lookup_replaced in Hy as [[? _]|[_ Hy]]; [lia|]. by destruct (across x y j Hi Hx Hj Hp Hy).
  Qed.
Lemma replace_down :
    (∀ q, 0 < i → l !! parent i = Some q → below k q last) → down_order k (<[i := last]> l) i.
  Proof.
    intros Hq. split.
    - intros j x y Hj Hne Hx Hy. apply lookup_replaced in Hx as [[? _]|[_ Hx]]; [done|].
      apply lookup_replaced in Hy as [[-> ->]|[_ Hy]]; [by apply Hq|by apply (app_order j)].
    - intros j x y Hj Hi Hp Hx Hy. pose proof (parent_lt j Hj). pose proof (parent_lt i Hi).
      apply lookup_replaced in Hx as [[? _]|[_ Hx]]; [lia|]. apply lookup_replaced in Hy as [[? _]|[_ Hy]]; [lia|].
      by destruct (across x y j Hi Hx Hj Hp Hy).
  Qed.
End Replace.

(** What is left when [e] is marked as out of the heap. *)
Lemma init_inv s evs l e :
  (∀ x ev, evs !! x = Some ev → x ∉ l → x ≠ e → min_heap_idx ev = NO_IDX) → e ∉ l → is_Some (evs !! e) →
  mh_n s = length l → mh_a s = length (mh_p s) → length l ≤ length (mh_p s) → NoDup l → laid s evs l → heap_order (key_of evs) l →
  ∃ evs', min_heap_elem_init evs e = Ok evs' ∧ heap_inv s evs' l ∧ moved [e] evs evs'.
Proof.
  intros Hout He [ev Hev] Hn Ha Hf Hnd Hl Ho. unfold min_heap_elem_init. rewrite (get_event_run _ _ _ Hev). cbn [mbind res_bind].
  eexists. split; [done|].
  assert (Hm : moved [e] evs (<[e:=set_idx NO_IDX ev]> evs)) by (apply moved_insert; [by left|done]). split; [|done]. split; try done.
  - intros i x Hx. destruct (Hl i x Hx) as [Hp (ev' & Hev' & Hix)]. split; [done|]. exists ev'. split; [|done].
    rewrite lookup_insert_ne; [done|]. intros <-. by eapply He, list_elem_of_lookup_2.
  - eapply heap_order_ext, Ho. intros x. by eapply moved_key.
  - intros x ev' Hx Hv. destruct (decide (e = x)) as [<-|Hne]; [rewrite lookup_insert_eq in Hx; by injection Hx as <-|].
    rewrite lookup_insert_ne in Hx by done. by apply (Hout x ev').
Qed.

(** The last event takes the place of [e], at the index [i]. *)
Definition take_out (s : min_heap) (evs : events) (i last e : nat) : res (min_heap * events) :=
  up ← (if (0 <? i)%nat then q ← mh_get s ((i - 1) / 2); min_heap_elem_greater evs q last else Ok false);
  '(s, evs) ← (if up : bool then min_heap_shift_up_ s evs i last else min_heap_shift_down_ s evs i last);
  evs ← min_heap_elem_init evs e;
  Ok (s, evs).

Section TakeOut.
  Context (s : min_heap) (evs : events) (l : list nat) (last : nat).
  Hypothesis (Hi : heap_inv s evs (l ++ [last])).
Let s1 := mh_set_n (mh_n s - 1) s.

Lemma cell_s1 i x : (l ++ [last]) !! i = Some x → cell s1 evs i x.
  Proof. apply (hi_laid _ _ _ Hi). Qed.
Lemma last_at : (l ++ [last]) !! length l = Some last.
  Proof. by rewrite lookup_app_r, Nat.sub_diag. Qed.
Lemma n_s1 : mh_n s1 = length l.
  Proof. cbn. rewrite (hi_n _ _ _ Hi), length_app. simpl. lia. Qed.

  (** The test of the parent. *)
Lemma parent_test i :
    i ≤ length l →
    ∃ up, (if (0 <? i)%nat then q ← mh_get s1 ((i - 1) / 2); min_heap_elem_greater evs q last else Ok false) = Ok up
      ∧ (up = true → 0 < i ∧ is_Some (l !! parent i))
      ∧ ∀ q, 0 < i → l !! parent i = Some q →
          up = tv_gtb (key_of evs q) (key_of evs last) ∧ mh_get s1 (parent i) = Ok q ∧ min_heap_elem_greater evs q last = Ok up.
  Proof.
    intros Hl. destruct (Nat.ltb_spec 0 i) as [Hpos|]; [|exists false; split; [done|]; split; [done|lia]].
    fold (parent i). pose proof (parent_lt i Hpos). destruct (lookup_lt_is_Some_2 l (parent i)) as [q Hq]; [lia|].
    assert (Hc : cell s1 evs (parent i) q) by (apply cell_s1; by apply lookup_app_l_Some).
    assert (Hg : min_heap_elem_greater evs q last = Ok (tv_gtb (key_of evs q) (key_of evs last)))
      by (apply greater_run; eapply cell_live; [exact Hc|exact (cell_s1 _ _ last_at)]).
    pose proof (cell_get _ _ _ _ Hc) as Hget. exists (tv_gtb (key_of evs q) (key_of evs last)).
    split; [by rewrite Hget|]. split; [done|]. intros q' _ Hq'. rewrite Hq in Hq'. by injection Hq' as <-.
  Qed.

Lemma out_of_l x ev : evs !! x = Some ev → x ∉ l → x ≠ last → min_heap_idx ev = NO_IDX.
  Proof. intros Hx Hl Hne. eapply hi_out; [done|done|]. rewrite elem_of_app, list_elem_of_singleton. tauto. Qed.
Lemma nodup_parts : NoDup l ∧ last ∉ l.
  Proof. pose proof (hi_nodup _ _ _ Hi) as H. apply NoDup_app in H as (H1 & H2 & _). split; [done|]. intros Hin. by apply (H2 last Hin), list_elem_of_singleton. Qed.

  (** The last one itself. *)
Lemma take_out_last :
    ∃ s' evs', take_out s1 evs (length l) last last = Ok (s', evs') ∧ heap_inv s' evs' l ∧ moved (l ++ [last]) evs evs' ∧ mh_a s' = mh_a s.
  Proof.
    unfold take_out. destruct (parent_test (length l)) as (up & -> & Hpos & Hup); [done|]. cbn [mbind res_bind].
    assert (up = false) as ->.
    { destruct up; [|done]. destruct (Hpos eq_refl) as [H0 [q Hq]]. destruct (Hup q H0 Hq) as [-> _].
      apply (hi_order _ _ _ Hi (length l)); [done|by apply lookup_app_l_Some|apply last_at]. }
    assert (Hrun : min_heap_shift_down_ s1 evs (length l) last = mh_put s1 evs (length l) last).
    { unfold min_heap_shift_down_. rewrite n_s1, Nat.sub_diag. cbn [shift_down_loop].
      destruct (decide (length l = 0)) as [E|E]; [apply (shift_up_stay _ _ _ _ 0); by left|].
      destruct (lookup_lt_is_Some_2 l (parent (length l))) as [q Hq]; [pose proof (parent_lt (length l)); lia|].
      apply (shift_up_stay _ _ _ _ q). right. destruct (Hup q) as (_ & ? & ?); [lia|done..]. }
    rewrite Hrun. destruct (place_run s1 evs (l ++ [last]) (length l) last) as (s2 & evs2 & -> & Hl2 & Hm2 & Hs2).
    { destruct (laid_holed s evs _ _ _ Hi last_at). by split. }
    cbn [mbind res_bind]. destruct nodup_parts as [Hnd Hlast].
    destruct (init_inv s2 evs2 l last) as (evs3 & -> & Hi3 & Hm3).
    - intros x ev Hx Hv Hne. rewrite (mv_else _ _ _ Hm2) in Hx by (rewrite elem_of_app, list_elem_of_singleton; tauto). by apply (out_of_l x ev).
    - done.
    - eapply moved_live; [done|]. eapply cell_live, (cell_s1 _ _ last_at).
    - destruct Hs2 as (-> & _). apply n_s1.
    - destruct Hs2 as (_ & -> & ->). apply Hi.
    - destruct Hs2 as (_ & _ & ->). pose proof (hi_fits _ _ _ Hi). rewrite length_app in *. simpl in *. lia.
    - done.
    - intros i x Hx. apply Hl2. by apply lookup_app_l_Some.
    - eapply heap_order_ext; [intros x; by eapply moved_key|]. eapply prefix_order, Hi.
    - exists s2, evs3. split_and!; [done|done| |by destruct Hs2 as (_ & -> & _)]. trans evs2; [done|]. eapply moved_weaken, Hm3. set_solver.
  Qed.

  (** One before the last. *)
Lemma take_out_inner i e :
    l !! i = Some e →
    ∃ s' evs' l', take_out s1 evs i last e = Ok (s', evs') ∧ heap_inv s' evs' l' ∧ e :: l' ≡ₚ l ++ [last] ∧ moved (l ++ [last]) evs evs' ∧ mh_a s' = mh_a s.
  Proof.
    intros He. pose proof (lookup_lt_Some _ _ _ He) as Hlt. destruct nodup_parts as [Hnd Hlast].
    set (v := <[i := last]> l). assert (Hv : e :: v ≡ₚ l ++ [last]).
    { unfold v. rewrite (replace_perm l last i e He). by rewrite Permutation_app_comm. }
    assert (HndV : NoDup (e :: v)) by (rewrite Hv; apply Hi). apply NoDup_cons in HndV as [Hev HndV].
    assert (Hin : ∀ x, x ∈ v → x ∈ l ++ [last]) by (intros x Hx; rewrite <-Hv; by right).
    assert (Hh : holed s1 evs v i last).
    { split; [| | done| |].
      - unfold v. rewrite length_insert. pose proof (hi_fits _ _ _ Hi). rewrite length_app in *. cbn in *. lia.
      - unfold v. by apply list_lookup_insert_eq.
      - eapply cell_live, (cell_s1 _ _ last_at).
      - intros j x Hj Hx. unfold v in Hx. rewrite list_lookup_insert_ne in Hx by done. apply cell_s1. by apply lookup_app_l_Some. }
    unfold take_out. destruct (parent_test i) as (up & -> & Hpos & Hup); [lia|]. cbn [mbind res_bind].
    assert (Hsift : sifted s1 evs v (if up then min_heap_shift_up_ s1 evs i last else min_heap_shift_down_ s1 evs i last)).
    { destruct up.
      - destruct (Hpos eq_refl) as [H0 [q Hq]]. destruct (Hup q H0 Hq) as [Hg _]. apply shift_up_spec; [done|done|].
        eapply replace_up; [apply Hi|done|done|done|]. by apply tv_gtb_le.
      - apply shift_down_spec; [unfold v; rewrite length_insert; apply n_s1|done|done|].
        eapply replace_down; [apply Hi|done|]. intros q H0 Hq. by destruct (Hup q H0 Hq) as [Hg _]. }
    destruct Hsift as (s2 & evs2 & v' & -> & Hl2 & Ho2 & Hp2 & Hm2 & Hs2). cbn [mbind res_bind].
    destruct (init_inv s2 evs2 v' e) as (evs3 & -> & Hi3 & Hm3).
    - intros x ev Hx Hv' Hne. rewrite Hp2 in Hv'. rewrite (mv_else _ _ _ Hm2) in Hx by done. eapply hi_out; [done|done|].
      rewrite <-Hv. by apply not_elem_of_cons.
    - by rewrite Hp2.
    - eapply moved_live; [done|]. eapply cell_live, cell_s1. by apply lookup_app_l_Some.
    - destruct Hs2 as (-> & _). rewrite n_s1, Hp2. unfold v. by rewrite length_insert.
    - destruct Hs2 as (_ & -> & ->). apply Hi.
    - destruct Hs2 as (_ & _ & ->). rewrite Hp2. apply Hh.
    - by rewrite Hp2.
    - done.
    - eapply heap_order_ext, Ho2. intros x. by eapply moved_key.
    - exists s2, evs3, v'. split_and!; [done|done|by rewrite Hp2| |by destruct Hs2 as (_ & -> & _)]. trans evs2; [by eapply moved_weaken|].
      eapply moved_weaken, Hm3. intros x ->%list_elem_of_singleton. rewrite <-Hv. by left.
  Qed.
End TakeOut.

Lemma heap_out_run s evs l i e :
  heap_inv s evs l → l !! i = Some e →
  ∃ last, mh_get (mh_set_n (mh_n s - 1) s) (mh_n s - 1) = Ok last
    ∧ ∃ s' evs' l', take_out (mh_set_n (mh_n s - 1) s) evs i last e = Ok (s', evs')
        ∧ heap_inv s' evs' l' ∧ e :: l' ≡ₚ l ∧ moved l evs evs' ∧ mh_a s' = mh_a s.
Proof.
  intros Hi He. destruct l as [|last l _] using rev_ind; [done|]. exists last.
  pose proof (hi_n _ _ _ Hi) as Hn. rewrite length_app in Hn. simpl in Hn. split.
  { replace (mh_n s - 1) with (length l) by lia. eapply cell_get, (cell_s1 s evs l last Hi), last_at. }
  destruct (decide (i = length l)) as [->|Hne].
  - rewrite last_at in He. injection He as <-. destruct (take_out_last s evs l last Hi) as (s' & evs' & Hrun & Hi' & Hm & Ha).
    exists s', evs', l. split_and!; [done|done|by rewrite Permutation_app_comm|done|done].
  - apply (take_out_inner s evs l last Hi i e). apply lookup_app_Some in He as [He|[Hle He]]; [done|].
    apply list_lookup_singleton_Some in He. lia.
Qed.

(** ** What the operations do *)

Lemma top_least k l x : heap_order k l → l !! 0 = Some x → ∀ i y, l !! i = Some y → below k x y.
Proof.
  intros Ho Hx i. induction i as [i IH] using lt_wf_ind. intros y Hy. unfold below.
  destruct (decide (i = 0)) as [->|Hne]; [simplify_eq; apply tv_le_preorder|].
  pose proof (parent_lt i ltac:(lia)) as Hlt. destruct (lookup_lt_is_Some_2 l (parent i)) as [z Hz]; [apply lookup_lt_Some in Hy; lia|].
  trans (k z); [by apply (IH (parent i))|]. apply (Ho i); [lia|done|done].
Qed.

Lemma erase_run s evs l e :
  heap_inv s evs l → e ∈ l → (Z.of_nat (length l) < NO_IDX)%Z →
  ∃ s' evs' l', min_heap_erase s evs e = Ok (0%Z, s', evs') ∧ heap_inv s' evs' l' ∧ e :: l' ≡ₚ l ∧ moved l evs evs' ∧ mh_a s' = mh_a s.
Proof.
  intros Hi [i He]%list_elem_of_lookup Hsmall. destruct (hi_laid _ _ _ Hi i e He) as [_ (ev & Hev & Hidx)].
  pose proof (lookup_lt_Some _ _ _ He) as Hlt. unfold min_heap_erase. rewrite (get_event_run _ _ _ Hev). cbn [mbind res_bind].
  rewrite (proj2 (Z.eqb_neq _ _)) by lia. rewrite Hidx, Nat2Z.id. cbn [mh_n mh_set_n].
  destruct (heap_out_run s evs l i e Hi He) as (last & Hlast & s' & evs' & l' & Hrun & H). exists s', evs', l'.
  split; [|done]. cbn [mh_n mh_set_n] in Hlast. rewrite Hlast. cbn [mbind res_bind]. unfold take_out in Hrun.
  destruct (if 0 <? i then _ else _) as [up|]; [|done]. cbn [mbind res_bind] in Hrun |- *.
  destruct (if up : bool then _ else _) as [[s2 evs2]|]; [|done]. cbn [mbind res_bind] in Hrun |- *.
  destruct (min_heap_elem_init evs2 e) as [evs3|]; [|done]. cbn [mbind res_bind] in Hrun |- *. by injection Hrun as -> ->.
Qed.
Lemma pop_run s evs l :
  heap_inv s evs l →
  match l with
  | [] => min_heap_pop s evs = Ok (None, s, evs)
  | e :: _ => ∃ s' evs' l', min_heap_pop s evs = Ok (Some e, s', evs') ∧ heap_inv s' evs' l' ∧ e :: l' ≡ₚ l ∧ moved l evs evs'
  end.
Proof.
  intros Hi. unfold min_heap_pop. rewrite (hi_n _ _ _ Hi). destruct l as [|e l]; [done|]. cbn [length Nat.eqb].
  rewrite (cell_get s evs 0 e) by (by apply (hi_laid _ _ _ Hi)). cbn [mbind res_bind].
  destruct (heap_out_run s evs (e :: l) 0 e Hi eq_refl) as (last & Hlast & s' & evs' & l' & Hrun & H1 & H2 & H3 & _). exists s', evs', l'.
  split; [|done]. pose proof (hi_n _ _ _ Hi) as Hn. rewrite Hn in Hlast, Hrun. cbn [mh_n mh_set_n length] in *.
  rewrite Hlast. cbn [mbind res_bind]. unfold take_out in Hrun. cbn [Nat.ltb Nat.leb mbind res_bind] in Hrun.
  destruct (min_heap_shift_down_ _ _ _ _) as [[s2 evs2]|]; [|done]. cbn [mbind res_bind] in Hrun |- *.
  destruct (min_heap_elem_init evs2 e) as [evs3|]; [|done]. cbn [mbind res_bind] in Hrun |- *. by injection Hrun as -> ->.
Qed.

(** C18: the timer heap implements a priority queue of events.  For a
    heap that holds the events [l]: pushing one that is not in it either reports
    that there is no memory, when the array is full, and changes nothing, or adds
    exactly it; erasing one takes exactly it out, and reports an error for one
    that is not there; the top is the event with the earliest timeout, and
    popping takes out that one.  No operation leaves the array, every event in
    the heap knows its index, and nothing but the indices of events changes. *)
Theorem min_heap_refines (room : nat → bool) (s : min_heap) (evs : events) (l : list nat) (e : nat) (ev : event) :
  heap_inv s evs l → (Z.of_nat (length l) < NO_IDX)%Z → evs !! e = Some ev →
  (if decide (e ∈ l) then
     ∃ s' evs' l', min_heap_erase s evs e = Ok (0%Z, s', evs') ∧ heap_inv s' evs' l' ∧ e :: l' ≡ₚ l ∧ moved l evs evs'
   else
     min_heap_erase s evs e = Ok ((-1)%Z, s, evs)
     ∧ ∃ r s' evs', min_heap_push room s evs e = Ok (r, s', evs')
         ∧ (r = (-1)%Z ∧ s' = s ∧ evs' = evs ∧ mh_a s = length l
            ∨ r = 0%Z ∧ ∃ l', heap_inv s' evs' l' ∧ l' ≡ₚ e :: l ∧ moved l' evs evs'))
  ∧ match l with
    | [] => min_heap_top s = Ok None ∧ min_heap_pop s evs = Ok (None, s, evs)
    | x :: _ => min_heap_top s = Ok (Some x) ∧ (∀ y, y ∈ l → tv_le (key_of evs x) (key_of evs y))
        ∧ ∃ s' evs' l', min_heap_pop s evs = Ok (Some x, s', evs') ∧ heap_inv s' evs' l' ∧ x :: l' ≡ₚ l ∧ moved l evs evs'
    end.
Proof.
  intros Hi Hsmall Hev. split.
  - destruct (decide (e ∈ l)) as [He|He]; [destruct (erase_run s evs l e Hi He Hsmall) as (s' & evs' & l' & H1 & H2 & H3 & H4 & _); by exists s', evs', l'|]. pose proof (hi_out _ _ _ Hi e ev Hev He) as Hidx. split; [|by eapply push_run].
    unfold min_heap_erase. rewrite (get_event_run _ _ _ Hev). cbn [mbind res_bind]. by rewrite Hidx, Z.eqb_refl.
  - pose proof (pop_run s evs l Hi) as Hpop. unfold min_heap_top. rewrite (hi_n _ _ _ Hi). destruct l as [|x l]; [done|]. split_and!.
    + cbn [length Nat.eqb]. by rewrite (cell_get s evs 0 x) by (by apply (hi_laid _ _ _ Hi)).
    + intros y [i Hy]%list_elem_of_lookup. eapply (top_least _ (x :: l)); [apply Hi|done|done].
    + done.
Qed.

Definition demo_event (sec : Z) : event :=
  {| min_heap_idx := NO_IDX; ev_fd := -1; ev_events := 1; ev_ncalls := 0; ev_pncalls := false; ev_timeout := {| tv_sec := sec; tv_usec := 0 |};
     ev_pri := 0; ev_callback := 0; ev_res := 0; ev_flags := 128 |}.
Definition demo_events : events := <[1 := demo_event 5]> (<[2 := demo_event 3]> ∅).

Lemma min_heap_refines_witness :
  ∃ s evs l, min_heap_push (λ _, true) min_heap_ctor demo_events 1 = Ok (0%Z, s, evs) ∧ heap_inv s evs l ∧ l ≡ₚ [1].
Proof.
  assert (Hi : heap_inv min_heap_ctor demo_events []).
  { apply heap_inv_new. intros x ev. unfold demo_events. destruct (decide (x = 1)) as [->|]; [rewrite lookup_insert_eq; by intros [= <-]|].
    rewrite lookup_insert_ne by done. destruct (decide (x = 2)) as [->|]; [rewrite lookup_insert_eq; by intros [= <-]|]. rewrite lookup_insert_ne by done. done. }
  destruct (min_heap_refines (λ _, true) min_heap_ctor demo_events [] 1 (demo_event 5) Hi) as [H _]; [reflexivity|reflexivity|].
  destruct (decide (1 ∈ [])) as [Hin|_]; [by apply elem_of_nil in Hin|]. destruct H as [_ (r & s & evs & Hrun & [(-> & _)|(-> & l & Hl & Hp & _)])].
  - vm_compute in Hrun. discriminate.
  - by exists s, evs, l.
Defined.
