(* ===== verification/Events.v ===== *)
(** The event loop of libevent: src/contrib/libevent-1.4.13-stable/event.c.

    Events are structures at addresses of [bs_events]; the lists and the timer
    heap of the base hold addresses.  The system call that waits for file
    descriptors is the interface [Backend], the callbacks of the program are the
    interface [Callbacks], and the clock gives the readings [bs_ticks] one after
    the other.  An exit of the library (event_errx) and a failed assert are
    [FAssert].  Signals are not modelled. *)
From stdpp Require Import gmap.
From S2P Require Import Prelude Numeric MinHeap.
#[local] Open Scope Z_scope.

(** ** Constants and time *)

Definition EVLIST_TIMEOUT : Z := 1.
Definition EVLIST_INSERTED : Z := 2.
Definition EVLIST_ACTIVE : Z := 8.
Definition EVLIST_INTERNAL : Z := 16.
Definition EVLIST_INIT : Z := 128.
Definition EVLIST_ALL : Z := Z.lor 61440 159.
Definition EV_TIMEOUT : Z := 1.
Definition EV_READ : Z := 2.
Definition EV_WRITE : Z := 4.
Definition EV_SIGNAL : Z := 8.
Definition EV_PERSIST : Z := 16.
Definition EVLOOP_ONCE : Z := 1.
Definition EVLOOP_NONBLOCK : Z := 2.
(** [x & flag]. *)
Definition hasb (x flag : Z) : bool := negb (Z.land x flag =? 0).

Definition evutil_timeradd (t u : timeval) : timeval :=
  let sec := tv_sec t + tv_sec u in
  let usec := tv_usec t + tv_usec u in
  if 1000000 <=? usec then {| tv_sec := sec + 1; tv_usec := usec - 1000000 |} else {| tv_sec := sec; tv_usec := usec |}.
Definition evutil_timersub (t u : timeval) : timeval :=
  let sec := tv_sec t - tv_sec u in
  let usec := tv_usec t - tv_usec u in
  if usec <? 0 then {| tv_sec := sec - 1; tv_usec := usec + 1000000 |} else {| tv_sec := sec; tv_usec := usec |}.

(** ** The fields of an event *)

Definition set_flags (f : Z) (ev : event) : event :=
  {| min_heap_idx := min_heap_idx ev; ev_fd := ev_fd ev; ev_events := ev_events ev; ev_ncalls := ev_ncalls ev; ev_pncalls := ev_pncalls ev;
     ev_timeout := ev_timeout ev; ev_pri := ev_pri ev; ev_callback := ev_callback ev; ev_res := ev_res ev; ev_flags := f |}.
Definition set_timeout (t : timeval) (ev : event) : event :=
  {| min_heap_idx := min_heap_idx ev; ev_fd := ev_fd ev; ev_events := ev_events ev; ev_ncalls := ev_ncalls ev; ev_pncalls := ev_pncalls ev;
     ev_timeout := t; ev_pri := ev_pri ev; ev_callback := ev_callback ev; ev_res := ev_res ev; ev_flags := ev_flags ev |}.
Definition set_res (r ncalls : Z) (pncalls : bool) (ev : event) : event :=
  {| min_heap_idx := min_heap_idx ev; ev_fd := ev_fd ev; ev_events := ev_events ev; ev_ncalls := ncalls; ev_pncalls := pncalls;
     ev_timeout := ev_timeout ev; ev_pri := ev_pri ev; ev_callback := ev_callback ev; ev_res := r; ev_flags := ev_flags ev |}.
Definition set_pri (p : nat) (ev : event) : event :=
  {| min_heap_idx := min_heap_idx ev; ev_fd := ev_fd ev; ev_events := ev_events ev; ev_ncalls := ev_ncalls ev; ev_pncalls := ev_pncalls ev;
     ev_timeout := ev_timeout ev; ev_pri := p; ev_callback := ev_callback ev; ev_res := ev_res ev; ev_flags := ev_flags ev |}.

(** ** The base *)

(** [struct eventop]: what [add], [del] and [dispatch] return and the state they
    leave; [dispatch] gives the events that are ready, with what they are ready
    for. *)
Class Backend := {
  backend : Type;
  evsel_add : event → backend → Z * backend;
  evsel_del : event → backend → Z * backend;
  evsel_dispatch : option timeval → backend → Z * list (nat * Z) * backend;
}.

Section Base.
Context {B : Backend}.

(** [bs_ncalls] is the local variable of [event_process_active] while that
    function runs; [bs_once] the callbacks of events set up with [event_once]. *)
Record event_base := {
  bs_events : events;
  bs_next : nat;
  bs_once : gmap nat nat;
  bs_count : Z;
  bs_count_active : Z;
  bs_gotterm : bool;
  bs_break : bool;
  bs_activequeues : list (list nat);
  bs_eventqueue : list nat;
  bs_event_tv : timeval;
  bs_timeheap : min_heap;
  bs_tv_cache : timeval;
  bs_ncalls : option Z;
  bs_backend : backend;
  bs_monotonic : bool;
  bs_now : timeval;
  bs_ticks : list timeval;
}.

(** Changing one field. *)
Definition upd_bs_events (g : events → events) (b : event_base) : event_base :=
  {| bs_events := g (bs_events b); bs_next := bs_next b; bs_once := bs_once b; bs_count := bs_count b; bs_count_active := bs_count_active b; bs_gotterm := bs_gotterm b; bs_break := bs_break b; bs_activequeues := bs_activequeues b; bs_eventqueue := bs_eventqueue b; bs_event_tv := bs_event_tv b; bs_timeheap := bs_timeheap b; bs_tv_cache := bs_tv_cache b; bs_ncalls := bs_ncalls b; bs_backend := bs_backend b; bs_monotonic := bs_monotonic b; bs_now := bs_now b; bs_ticks := bs_ticks b |}.
Definition upd_bs_next (g : nat → nat) (b : event_base) : event_base :=
  {| bs_events := bs_events b; bs_next := g (bs_next b); bs_once := bs_once b; bs_count := bs_count b; bs_count_active := bs_count_active b; bs_gotterm := bs_gotterm b; bs_break := bs_break b; bs_activequeues := bs_activequeues b; bs_eventqueue := bs_eventqueue b; bs_event_tv := bs_event_tv b; bs_timeheap := bs_timeheap b; bs_tv_cache := bs_tv_cache b; bs_ncalls := bs_ncalls b; bs_backend := bs_backend b; bs_monotonic := bs_monotonic b; bs_now := bs_now b; bs_ticks := bs_ticks b |}.
Definition upd_bs_once (g : gmap nat nat → gmap nat nat) (b : event_base) : event_base :=
  {| bs_events := bs_events b; bs_next := bs_next b; bs_once := g (bs_once b); bs_count := bs_count b; bs_count_active := bs_count_active b; bs_gotterm := bs_gotterm b; bs_break := bs_break b; bs_activequeues := bs_activequeues b; bs_eventqueue := bs_eventqueue b; bs_event_tv := bs_event_tv b; bs_timeheap := bs_timeheap b; bs_tv_cache := bs_tv_cache b; bs_ncalls := bs_ncalls b; bs_backend := bs_backend b; bs_monotonic := bs_monotonic b; bs_now := bs_now b; bs_ticks := bs_ticks b |}.
Definition upd_bs_count (g : Z → Z) (b : event_base) : event_base :=
  {| bs_events := bs_events b; bs_next := bs_next b; bs_once := bs_once b; bs_count := g (bs_count b); bs_count_active := bs_count_active b; bs_gotterm := bs_gotterm b; bs_break := bs_break b; bs_activequeues := bs_activequeues b; bs_eventqueue := bs_eventqueue b; bs_event_tv := bs_event_tv b; bs_timeheap := bs_timeheap b; bs_tv_cache := bs_tv_cache b; bs_ncalls := bs_ncalls b; bs_backend := bs_backend b; bs_monotonic := bs_monotonic b; bs_now := bs_now b; bs_ticks := bs_ticks b |}.
Definition upd_bs_count_active (g : Z → Z) (b : event_base) : event_base :=
  {| bs_events := bs_events b; bs_next := bs_next b; bs_once := bs_once b; bs_count := bs_count b; bs_count_active := g (bs_count_active b); bs_gotterm := bs_gotterm b; bs_break := bs_break b; bs_activequeues := bs_activequeues b; bs_eventqueue := bs_eventqueue b; bs_event_tv := bs_event_tv b; bs_timeheap := bs_timeheap b; bs_tv_cache := bs_tv_cache b; bs_ncalls := bs_ncalls b; bs_backend := bs_backend b; bs_monotonic := bs_monotonic b; bs_now := bs_now b; bs_ticks := bs_ticks b |}.
Definition upd_bs_gotterm (g : bool → bool) (b : event_base) : event_base :=
  {| bs_events := bs_events b; bs_next := bs_next b; bs_once := bs_once b; bs_count := bs_count b; bs_count_active := bs_count_active b; bs_gotterm := g (bs_gotterm b); bs_break := bs_break b; bs_activequeues := bs_activequeues b; bs_eventqueue := bs_eventqueue b; bs_event_tv := bs_event_tv b; bs_timeheap := bs_timeheap b; bs_tv_cache := bs_tv_cache b; bs_ncalls := bs_ncalls b; bs_backend := bs_backend b; bs_monotonic := bs_monotonic b; bs_now := bs_now b; bs_ticks := bs_ticks b |}.
Definition upd_bs_break (g : bool → bool) (b : event_base) : event_base :=
  {| bs_events := bs_events b; bs_next := bs_next b; bs_once := bs_once b; bs_count := bs_count b; bs_count_active := bs_count_active b; bs_gotterm := bs_gotterm b; bs_break := g (bs_break b); bs_activequeues := bs_activequeues b; bs_eventqueue := bs_eventqueue b; bs_event_tv := bs_event_tv b; bs_timeheap := bs_timeheap b; bs_tv_cache := bs_tv_cache b; bs_ncalls := bs_ncalls b; bs_backend := bs_backend b; bs_monotonic := bs_monotonic b; bs_now := bs_now b; bs_ticks := bs_ticks b |}.
Definition upd_bs_activequeues (g : list (list nat) → list (list nat)) (b : event_base) : event_base :=
  {| bs_events := bs_events b; bs_next := bs_next b; bs_once := bs_once b; bs_count := bs_count b; bs_count_active := bs_count_active b; bs_gotterm := bs_gotterm b; bs_break := bs_break b; bs_activequeues := g (bs_activequeues b); bs_eventqueue := bs_eventqueue b; bs_event_tv := bs_event_tv b; bs_timeheap := bs_timeheap b; bs_tv_cache := bs_tv_cache b; bs_ncalls := bs_ncalls b; bs_backend := bs_backend b; bs_monotonic := bs_monotonic b; bs_now := bs_now b; bs_ticks := bs_ticks b |}.
Definition upd_bs_eventqueue (g : list nat → list nat) (b : event_base) : event_base :=
  {| bs_events := bs_events b; bs_next := bs_next b; bs_once := bs_once b; bs_count := bs_count b; bs_count_active := bs_count_active b; bs_gotterm := bs_gotterm b; bs_break := bs_break b; bs_activequeues := bs_activequeues b; bs_eventqueue := g (bs_eventqueue b); bs_event_tv := bs_event_tv b; bs_timeheap := bs_timeheap b; bs_tv_cache := bs_tv_cache b; bs_ncalls := bs_ncalls b; bs_backend := bs_backend b; bs_monotonic := bs_monotonic b; bs_now := bs_now b; bs_ticks := bs_ticks b |}.
Definition upd_bs_event_tv (g : timeval → timeval) (b : event_base) : event_base :=
  {| bs_events := bs_events b; bs_next := bs_next b; bs_once := bs_once b; bs_count := bs_count b; bs_count_active := bs_count_active b; bs_gotterm := bs_gotterm b; bs_break := bs_break b; bs_activequeues := bs_activequeues b; bs_eventqueue := bs_eventqueue b; bs_event_tv := g (bs_event_tv b); bs_timeheap := bs_timeheap b; bs_tv_cache := bs_tv_cache b; bs_ncalls := bs_ncalls b; bs_backend := bs_backend b; bs_monotonic := bs_monotonic b; bs_now := bs_now b; bs_ticks := bs_ticks b |}.
Definition upd_bs_timeheap (g : min_heap → min_heap) (b : event_base) : event_base :=
  {| bs_events := bs_events b; bs_next := bs_next b; bs_once := bs_once b; bs_count := bs_count b; bs_count_active := bs_count_active b; bs_gotterm := bs_gotterm b; bs_break := bs_break b; bs_activequeues := bs_activequeues b; bs_eventqueue := bs_eventqueue b; bs_event_tv := bs_event_tv b; bs_timeheap := g (bs_timeheap b); bs_tv_cache := bs_tv_cache b; bs_ncalls := bs_ncalls b; bs_backend := bs_backend b; bs_monotonic := bs_monotonic b; bs_now := bs_now b; bs_ticks := bs_ticks b |}.
Definition upd_bs_tv_cache (g : timeval → timeval) (b : event_base) : event_base :=
  {| bs_events := bs_events b; bs_next := bs_next b; bs_once := bs_once b; bs_count := bs_count b; bs_count_active := bs_count_active b; bs_gotterm := bs_gotterm b; bs_break := bs_break b; bs_activequeues := bs_activequeues b; bs_eventqueue := bs_eventqueue b; bs_event_tv := bs_event_tv b; bs_timeheap := bs_timeheap b; bs_tv_cache := g (bs_tv_cache b); bs_ncalls := bs_ncalls b; bs_backend := bs_backend b; bs_monotonic := bs_monotonic b; bs_now := bs_now b; bs_ticks := bs_ticks b |}.
Definition upd_bs_ncalls (g : option Z → option Z) (b : event_base) : event_base :=
  {| bs_events := bs_events b; bs_next := bs_next b; bs_once := bs_once b; bs_count := bs_count b; bs_count_active := bs_count_active b; bs_gotterm := bs_gotterm b; bs_break := bs_break b; bs_activequeues := bs_activequeues b; bs_eventqueue := bs_eventqueue b; bs_event_tv := bs_event_tv b; bs_timeheap := bs_timeheap b; bs_tv_cache := bs_tv_cache b; bs_ncalls := g (bs_ncalls b); bs_backend := bs_backend b; bs_monotonic := bs_monotonic b; bs_now := bs_now b; bs_ticks := bs_ticks b |}.
Definition upd_bs_backend (g : backend → backend) (b : event_base) : event_base :=
  {| bs_events := bs_events b; bs_next := bs_next b; bs_once := bs_once b; bs_count := bs_count b; bs_count_active := bs_count_active b; bs_gotterm := bs_gotterm b; bs_break := bs_break b; bs_activequeues := bs_activequeues b; bs_eventqueue := bs_eventqueue b; bs_event_tv := bs_event_tv b; bs_timeheap := bs_timeheap b; bs_tv_cache := bs_tv_cache b; bs_ncalls := bs_ncalls b; bs_backend := g (bs_backend b); bs_monotonic := bs_monotonic b; bs_now := bs_now b; bs_ticks := bs_ticks b |}.
Definition upd_bs_monotonic (g : bool → bool) (b : event_base) : event_base :=
  {| bs_events := bs_events b; bs_next := bs_next b; bs_once := bs_once b; bs_count := bs_count b; bs_count_active := bs_count_active b; bs_gotterm := bs_gotterm b; bs_break := bs_break b; bs_activequeues := bs_activequeues b; bs_eventqueue := bs_eventqueue b; bs_event_tv := bs_event_tv b; bs_timeheap := bs_timeheap b; bs_tv_cache := bs_tv_cache b; bs_ncalls := bs_ncalls b; bs_backend := bs_backend b; bs_monotonic := g (bs_monotonic b); bs_now := bs_now b; bs_ticks := bs_ticks b |}.
Definition upd_bs_now (g : timeval → timeval) (b : event_base) : event_base :=
  {| bs_events := bs_events b; bs_next := bs_next b; bs_once := bs_once b; bs_count := bs_count b; bs_count_active := bs_count_active b; bs_gotterm := bs_gotterm b; bs_break := bs_break b; bs_activequeues := bs_activequeues b; bs_eventqueue := bs_eventqueue b; bs_event_tv := bs_event_tv b; bs_timeheap := bs_timeheap b; bs_tv_cache := bs_tv_cache b; bs_ncalls := bs_ncalls b; bs_backend := bs_backend b; bs_monotonic := bs_monotonic b; bs_now := g (bs_now b); bs_ticks := bs_ticks b |}.
Definition upd_bs_ticks (g : list timeval → list timeval) (b : event_base) : event_base :=
  {| bs_events := bs_events b; bs_next := bs_next b; bs_once := bs_once b; bs_count := bs_count b; bs_count_active := bs_count_active b; bs_gotterm := bs_gotterm b; bs_break := bs_break b; bs_activequeues := bs_activequeues b; bs_eventqueue := bs_eventqueue b; bs_event_tv := bs_event_tv b; bs_timeheap := bs_timeheap b; bs_tv_cache := bs_tv_cache b; bs_ncalls := bs_ncalls b; bs_backend := bs_backend b; bs_monotonic := bs_monotonic b; bs_now := bs_now b; bs_ticks := g (bs_ticks b) |}.

(** [ev->f = x]. *)
Definition with_event (e : nat) (f : event → event) (b : event_base) : res event_base :=
  ev ← get_event (bs_events b) e;
  Ok (upd_bs_events (λ m, <[e := f ev]> m) b).
Definition the_event (b : event_base) (e : nat) : res event := get_event (bs_events b) e.

(** [gettime]: the cached time, or what the clock reads. *)
Definition read_clock (b : event_base) : timeval * event_base :=
  match bs_ticks b with
  | [] => (bs_now b, b)
  | t :: ts => (t, upd_bs_now (λ _, t) (upd_bs_ticks (λ _, ts) b))
  end.
Definition gettime (b : event_base) : timeval * event_base :=
  if negb (tv_sec (bs_tv_cache b) =? 0) then (bs_tv_cache b, b) else read_clock b.

(** [event_base_new], with the backend [s] that [init] gave and one queue of
    active events; [monotonic] is what [detect_monotonic] found. *)
Definition event_base_new (s : backend) (monotonic : bool) (now : timeval) (ticks : list timeval) : event_base :=
  let b := {| bs_events := ∅; bs_next := O; bs_once := ∅; bs_count := 0; bs_count_active := 0; bs_gotterm := false; bs_break := false;
              bs_activequeues := []; bs_eventqueue := []; bs_event_tv := tv_zero; bs_timeheap := min_heap_ctor; bs_tv_cache := tv_zero;
              bs_ncalls := None; bs_backend := s; bs_monotonic := monotonic; bs_now := now; bs_ticks := ticks |} in
  let '(t, b) := gettime b in
  upd_bs_activequeues (λ _, [[]]) (upd_bs_event_tv (λ _, t) b).

(** ** Queues *)

Definition tailq_remove (e : nat) (l : list nat) : list nat := filter (λ x, x ≠ e) l.
(** [base->activequeues[pri]]. *)
Definition on_queue (pri : nat) (g : list nat → list nat) (b : event_base) : res event_base :=
  match bs_activequeues b !! pri with
  | Some q => Ok (upd_bs_activequeues (λ qs, <[pri := g q]> qs) b)
  | None => Fault FBadAccess
  end.
Definition count_event (d : Z) (ev : event) (b : event_base) : event_base :=
  if hasb (ev_flags ev) EVLIST_INTERNAL then b else upd_bs_count (λ n, n + d) b.

Definition event_queue_remove (e : nat) (queue : Z) (b : event_base) : res event_base :=
  ev ← the_event b e;
  if negb (hasb (ev_flags ev) queue) then Fault FAssert
  else
    b ← with_event e (set_flags (Z.ldiff (ev_flags ev) queue)) (count_event (-1) ev b);
    if queue =? EVLIST_INSERTED then Ok (upd_bs_eventqueue (tailq_remove e) b)
    else if queue =? EVLIST_ACTIVE then on_queue (ev_pri ev) (tailq_remove e) (upd_bs_count_active (λ n, n - 1) b)
    else if queue =? EVLIST_TIMEOUT then
      '(_, h, evs) ← min_heap_erase (bs_timeheap b) (bs_events b) e;
      Ok (upd_bs_timeheap (λ _, h) (upd_bs_events (λ _, evs) b))
    else Fault FAssert.

(** [room]: memory for the heap. *)
Definition event_queue_insert (room : nat → bool) (e : nat) (queue : Z) (b : event_base) : res event_base :=
  ev ← the_event b e;
  if hasb (ev_flags ev) queue then if hasb queue EVLIST_ACTIVE then Ok b else Fault FAssert
  else
    b ← with_event e (set_flags (Z.lor (ev_flags ev) queue)) (count_event 1 ev b);
    if queue =? EVLIST_INSERTED then Ok (upd_bs_eventqueue (λ l, l ++ [e]) b)
    else if queue =? EVLIST_ACTIVE then on_queue (ev_pri ev) (λ l, l ++ [e]) (upd_bs_count_active (λ n, n + 1) b)
    else if queue =? EVLIST_TIMEOUT then
      '(_, h, evs) ← min_heap_push room (bs_timeheap b) (bs_events b) e;
      Ok (upd_bs_timeheap (λ _, h) (upd_bs_events (λ _, evs) b))
    else Fault FAssert.

(** ** Adding and deleting events *)

(** [if (ev->ev_ncalls && ev->ev_pncalls) *ev->ev_pncalls = 0]. *)
Definition abort_loop (ev : event) (b : event_base) : res event_base :=
  if negb (ev_ncalls ev =? 0) && ev_pncalls ev then
    match bs_ncalls b with Some _ => Ok (upd_bs_ncalls (λ _, Some 0) b) | None => Fault FBadAccess end
  else Ok b.

Definition event_del (e : nat) (b : event_base) : res (Z * event_base) :=
  ev ← the_event b e;
  if negb (Z.ldiff (ev_flags ev) EVLIST_ALL =? 0) then Fault FAssert
  else
    b ← abort_loop ev b;
    b ← (if hasb (ev_flags ev) EVLIST_TIMEOUT then event_queue_remove e EVLIST_TIMEOUT b else Ok b);
    b ← (if hasb (ev_flags ev) EVLIST_ACTIVE then event_queue_remove e EVLIST_ACTIVE b else Ok b);
    if hasb (ev_flags ev) EVLIST_INSERTED then
      b ← event_queue_remove e EVLIST_INSERTED b;
      ev ← the_event b e;
      let '(r, s) := evsel_del ev (bs_backend b) in
      Ok (r, upd_bs_backend (λ _, s) b)
    else Ok (0, b).

Definition event_active (room : nat → bool) (e : nat) (res_ ncalls : Z) (b : event_base) : res event_base :=
  ev ← the_event b e;
  if hasb (ev_flags ev) EVLIST_ACTIVE then
    with_event e (set_res (Z.lor (ev_res ev) res_) (ev_ncalls ev) (ev_pncalls ev)) b
  else
    b ← with_event e (set_res res_ ncalls false) b;
    event_queue_insert room e EVLIST_ACTIVE b.

(** The timeout part of [event_add]. *)
Definition add_timeout (room : nat → bool) (e : nat) (tv : timeval) (b : event_base) : res event_base :=
  ev ← the_event b e;
  b ← (if hasb (ev_flags ev) EVLIST_TIMEOUT then event_queue_remove e EVLIST_TIMEOUT b else Ok b);
  b ← (if hasb (ev_flags ev) EVLIST_ACTIVE && hasb (ev_res ev) EV_TIMEOUT then
         b ← abort_loop ev b;
         event_queue_remove e EVLIST_ACTIVE b
       else Ok b);
  let '(now, b) := gettime b in
  b ← with_event e (set_timeout (evutil_timeradd now tv)) b;
  event_queue_insert room e EVLIST_TIMEOUT b.

(** The part for files and signals: the backend gets the event. *)
Definition add_io (room : nat → bool) (e : nat) (ev : event) (b : event_base) : res (Z * event_base) :=
  if hasb (ev_events ev) (Z.lor EV_READ (Z.lor EV_WRITE EV_SIGNAL)) && negb (hasb (ev_flags ev) (Z.lor EVLIST_INSERTED EVLIST_ACTIVE)) then
    let '(r, s) := evsel_add ev (bs_backend b) in
    let b := upd_bs_backend (λ _, s) b in
    if negb (r =? -1) then b ← event_queue_insert room e EVLIST_INSERTED b; Ok (r, b) else Ok (r, b)
  else Ok (0, b).

Definition event_add (room : nat → bool) (e : nat) (tv : option timeval) (b : event_base) : res (Z * event_base) :=
  ev ← the_event b e;
  if negb (Z.ldiff (ev_flags ev) EVLIST_ALL =? 0) then Fault FAssert
  else
    let '(r, h) := match tv with
                   | Some _ => if hasb (ev_flags ev) EVLIST_TIMEOUT then (0, bs_timeheap b)
                               else min_heap_reserve room (bs_timeheap b) (1 + min_heap_size (bs_timeheap b))
                   | None => (0, bs_timeheap b)
                   end in
    if r =? -1 then Ok (-1, b)
    else
      let b := upd_bs_timeheap (λ _, h) b in
      '(r, b) ← add_io room e ev b;
      match tv with
      | Some tv => if negb (r =? -1) then b ← add_timeout room e tv b; Ok (r, b) else Ok (r, b)
      | None => Ok (r, b)
      end.

(** [event_set], on the structure at [e]; [event_base_set]. *)
Definition event_set (fd events : Z) (callback : nat) (b : event_base) : event :=
  {| min_heap_idx := NO_IDX; ev_fd := fd; ev_events := events; ev_ncalls := 0; ev_pncalls := false; ev_timeout := tv_zero;
     ev_pri := length (bs_activequeues b) / 2; ev_callback := callback; ev_res := 0; ev_flags := EVLIST_INIT |}.
Definition event_base_set (e : nat) (b : event_base) : res (Z * event_base) :=
  ev ← the_event b e;
  if negb (ev_flags ev =? EVLIST_INIT) then Ok (-1, b)
  else b ← with_event e (set_pri (length (bs_activequeues b) / 2)) b; Ok (0, b).

(** [event_base_once]; [ONCE] stands for [event_once_cb], and [mem n] says
    whether [calloc] has memory for one more structure when [n] are in use. *)
Definition ONCE : nat := 0.
Definition event_base_once (mem room : nat → bool) (fd events : Z) (callback : nat) (tv : option timeval) (b : event_base)
    : res (Z * event_base) :=
  if hasb events EV_SIGNAL then Ok (-1, b)
  else if negb (mem (size (bs_events b))) then Ok (-1, b)
  else
    let add (ev : event) (tv : option timeval) :=
      let e := bs_next b in
      let b1 := upd_bs_next S (upd_bs_events (λ m, <[e := ev]> m) (upd_bs_once (λ m, <[e := callback]> m) b)) in
      '(r, b1) ← event_base_set e b1;
      '(r, b1) ← (if r =? 0 then event_add room e tv b1 else Ok (r, b1));
      if negb (r =? 0) then
        Ok (r, upd_bs_events (λ m, delete e m) (upd_bs_once (λ m, delete e m) b1))
      else Ok (0, b1) in
    if events =? EV_TIMEOUT then add (event_set (-1) 0 ONCE b) (Some (default tv_zero tv))
    else if hasb events (Z.lor EV_READ EV_WRITE) then
      add (event_set fd (Z.land events (Z.lor EV_READ EV_WRITE)) ONCE b) tv
    else Ok (-1, b).

(** [event_priority_set]; [event_base_priority_init]. *)
Definition event_priority_set (e : nat) (pri : Z) (b : event_base) : res (Z * event_base) :=
  ev ← the_event b e;
  if hasb (ev_flags ev) EVLIST_ACTIVE then Ok (-1, b)
  else if (pri <? 0) || (Z.of_nat (length (bs_activequeues b)) <=? pri) then Ok (-1, b)
  else b ← with_event e (set_pri (Z.to_nat pri)) b; Ok (0, b).
Definition event_base_priority_init (npriorities : nat) (b : event_base) : Z * event_base :=
  if negb (bs_count_active b =? 0) then (-1, b)
  else (0, upd_bs_activequeues (λ _, replicate npriorities []) b).

(** [event_pending]: which of the events asked for [e] waits for, and, when the
    caller gave a place for it ([want]), its timeout on the clock of the day, which
    reads [today]. *)
Definition event_pending (e : nat) (event : Z) (want : bool) (today : timeval) (b : event_base) : res (Z * option timeval * event_base) :=
  ev ← the_event b e;
  let flags := if hasb (ev_flags ev) EVLIST_INSERTED then Z.land (ev_events ev) (Z.lor EV_READ (Z.lor EV_WRITE EV_SIGNAL)) else 0 in
  let flags := if hasb (ev_flags ev) EVLIST_ACTIVE then Z.lor flags (ev_res ev) else flags in
  let flags := if hasb (ev_flags ev) EVLIST_TIMEOUT then Z.lor flags EV_TIMEOUT else flags in
  let event := Z.land event (Z.lor EV_TIMEOUT (Z.lor EV_READ (Z.lor EV_WRITE EV_SIGNAL))) in
  if want && hasb (Z.land flags event) EV_TIMEOUT then
    let '(now, b) := gettime b in
    Ok (Z.land flags event, Some (evutil_timeradd today (evutil_timersub (ev_timeout ev) now)), b)
  else Ok (Z.land flags event, None, b).

(** [event_base_free], up to the release of the memory: the events of a queue are
    deleted one after the other (deleting one leaves the others on the queue),
    then the timers, then the active events; the asserts at the end. *)
Fixpoint free_events (l : list nat) (b : event_base) : res event_base :=
  match l with
  | [] => Ok b
  | e :: l =>
      ev ← the_event b e;
      b ← (if hasb (ev_flags ev) EVLIST_INTERNAL then Ok b else '(_, b) ← event_del e b; Ok b);
      free_events l b
  end.
Fixpoint free_timers (fuel : nat) (b : event_base) : res event_base :=
  match fuel with
  | O => Ok b
  | S fuel =>
      top ← min_heap_top (bs_timeheap b);
      match top with
      | None => Ok b
      | Some e => '(_, b) ← event_del e b; free_timers fuel b
      end
  end.
Fixpoint free_queues (i n : nat) (b : event_base) : res event_base :=
  match n with
  | O => Ok b
  | S n => match bs_activequeues b !! i with
           | None => Fault FBadAccess
           | Some q => b ← free_events q b; free_queues (S i) n b
           end
  end.
Definition event_base_free (b : event_base) : res event_base :=
  b ← free_events (bs_eventqueue b) b;
  b ← free_timers (mh_n (bs_timeheap b)) b;
  b ← free_queues 0 (length (bs_activequeues b)) b;
  if forallb (λ q, match q with [] => true | _ => false end) (bs_activequeues b)
     && min_heap_empty (bs_timeheap b) && match bs_eventqueue b with [] => true | _ => false end
  then Ok b else Fault FAssert.

(** ** Time *)

(** How long to wait: [None] without a limit. *)
Definition timeout_next (b : event_base) : res (option timeval * event_base) :=
  top ← min_heap_top (bs_timeheap b);
  match top with
  | None => Ok (None, b)
  | Some e =>
      let '(now, b) := gettime b in
      ev ← the_event b e;
      if negb (tv_gtb (ev_timeout ev) now) then Ok (Some tv_zero, b)
      else
        let tv := evutil_timersub (ev_timeout ev) now in
        if (0 <=? tv_sec tv) && (0 <=? tv_usec tv) then Ok (Some tv, b) else Fault FAssert
  end.

(** The clock went back: every timeout is moved by as much. *)
Fixpoint shift_timeouts (off : timeval) (size : nat) (i : nat) (b : event_base) : res event_base :=
  match size with
  | O => Ok b
  | S size =>
      e ← mh_get (bs_timeheap b) i;
      ev ← the_event b e;
      b ← with_event e (set_timeout (evutil_timersub (ev_timeout ev) off)) b;
      shift_timeouts off size (S i) b
  end.
Definition timeout_correct (b : event_base) : res event_base :=
  if bs_monotonic b then Ok b
  else
    let '(tv, b) := gettime b in
    if negb (tv_gtb (bs_event_tv b) tv) then Ok (upd_bs_event_tv (λ _, tv) b)
    else
      let off := evutil_timersub (bs_event_tv b) tv in
      b ← shift_timeouts off (mh_n (bs_timeheap b)) 0 b;
      Ok (upd_bs_event_tv (λ _, tv) b).

(** The fuel is the number of timers, and each round takes one out. *)
Fixpoint timeout_loop (room : nat → bool) (fuel : nat) (now : timeval) (b : event_base) : res event_base :=
  match fuel with
  | O => Ok b
  | S fuel =>
      top ← min_heap_top (bs_timeheap b);
      match top with
      | None => Ok b
      | Some e =>
          ev ← the_event b e;
          if tv_gtb (ev_timeout ev) now then Ok b
          else
            '(_, b) ← event_del e b;
            b ← event_active room e EV_TIMEOUT 1 b;
            timeout_loop room fuel now b
      end
  end.
Definition timeout_process (room : nat → bool) (b : event_base) : res event_base :=
  if min_heap_empty (bs_timeheap b) then Ok b
  else let '(now, b) := gettime b in timeout_loop room (mh_n (bs_timeheap b)) now b.
End Base.

(** ** The loop *)

(** What the callbacks of the program do to the base: the callback, its file
    descriptor and what happened. *)
Class Callbacks {B : Backend} := run_callback : nat → Z → Z → event_base → res event_base.

Section Loop.
Context {B : Backend} {C : Callbacks}.

(** The call through [ev->ev_callback]; [event_once_cb] frees the event. *)
Definition call_event (e : nat) (ev : event) (b : event_base) : res event_base :=
  if (ev_callback ev =? ONCE)%nat then
    match bs_once b !! e with
    | None => Fault FBadAccess
    | Some cb =>
        b ← run_callback cb (ev_fd ev) (ev_res ev) b;
        Ok (upd_bs_events (λ m, delete e m) (upd_bs_once (λ m, delete e m) b))
    end
  else run_callback (ev_callback ev) (ev_fd ev) (ev_res ev) b.

(** [while (ncalls)]; the result tells whether the loop was broken.  The event
    is read again each time. *)
Fixpoint calls_loop (fuel : nat) (e : nat) (b : event_base) : res (option (bool * event_base)) :=
  match fuel with
  | O => Ok None
  | S fuel =>
      match bs_ncalls b with
      | None => Fault FBadAccess
      | Some n =>
          if n =? 0 then Ok (Some (false, b))
          else
            let b := upd_bs_ncalls (λ _, Some (n - 1)) b in
            ev ← the_event b e;
            b ← with_event e (set_res (ev_res ev) (n - 1) (ev_pncalls ev)) b;
            b ← call_event e ev b;
            if bs_break b then Ok (Some (true, b)) else calls_loop fuel e b
      end
  end.

(** The queue that is processed is the first that is not empty. *)
Fixpoint first_queue (i : nat) (qs : list (list nat)) : option nat :=
  match qs with
  | [] => None
  | [] :: qs => first_queue (S i) qs
  | _ => Some i
  end.
(** [None]: the fuel ran out. *)
Fixpoint active_loop (fuel : nat) (pri : nat) (b : event_base) : res (option event_base) :=
  match fuel with
  | O => Ok None
  | S fuel =>
      match bs_activequeues b !! pri with
      | None => Fault FBadAccess
      | Some [] => Ok (Some b)
      | Some (e :: _) =>
          ev ← the_event b e;
          b ← (if hasb (ev_events ev) EV_PERSIST then event_queue_remove e EVLIST_ACTIVE b
               else '(_, b) ← event_del e b; Ok b);
          ev ← the_event b e;
          let b := upd_bs_ncalls (λ _, Some (ev_ncalls ev)) b in
          b ← with_event e (set_res (ev_res ev) (ev_ncalls ev) true) b;
          r ← calls_loop fuel e b;
          match r with
          | None => Ok None
          | Some (true, b) => Ok (Some b)
          | Some (false, b) => active_loop fuel pri b
          end
      end
  end.
Definition event_process_active (fuel : nat) (b : event_base) : res (option event_base) :=
  match first_queue 0 (bs_activequeues b) with
  | None => Fault FAssert
  | Some pri =>
      r ← active_loop fuel pri b;
      Ok (option_map (upd_bs_ncalls (λ _, None)) r)
  end.

(** The events that are ready are activated by the backend. *)
Fixpoint activate (room : nat → bool) (l : list (nat * Z)) (b : event_base) : res event_base :=
  match l with
  | [] => Ok b
  | (e, what) :: l => b ← event_active room e what 1 b; activate room l b
  end.
Definition clear_cache (b : event_base) : event_base :=
  upd_bs_tv_cache (λ t, {| tv_sec := 0; tv_usec := tv_usec t |}) b.

(** One round of [event_base_loop]: the value it returns, or that it goes on. *)
Definition loop_round (room : nat → bool) (fuel : nat) (flags : Z) (b : event_base) : res (option (option Z * event_base)) :=
  if bs_gotterm b then Ok (Some (Some 0, clear_cache (upd_bs_gotterm (λ _, false) b)))
  else if bs_break b then Ok (Some (Some 0, clear_cache (upd_bs_break (λ _, false) b)))
  else
    b ← timeout_correct b;
    '(tv, b) ← (if (bs_count_active b =? 0) && negb (hasb flags EVLOOP_NONBLOCK) then timeout_next b else Ok (Some tv_zero, b));
    if negb (0 <? bs_count b) then Ok (Some (Some 1, b))
    else
      let '(now, b) := gettime b in
      let b := clear_cache (upd_bs_event_tv (λ _, now) b) in
      let '(r, ready, s) := evsel_dispatch tv (bs_backend b) in
      b ← activate room ready (upd_bs_backend (λ _, s) b);
      if r =? -1 then Ok (Some (Some (-1), b))
      else
        let '(now, b) := gettime b in
        b ← timeout_process room (upd_bs_tv_cache (λ _, now) b);
        if negb (bs_count_active b =? 0) then
          r ← event_process_active fuel b;
          match r with
          | None => Ok None
          | Some b =>
              if (bs_count_active b =? 0) && hasb flags EVLOOP_ONCE then Ok (Some (Some 0, clear_cache b)) else Ok (Some (None, b))
          end
        else if hasb flags EVLOOP_NONBLOCK then Ok (Some (Some 0, clear_cache b))
        else Ok (Some (None, b)).
Fixpoint loop_rounds (room : nat → bool) (fuel : nat) (flags : Z) (b : event_base) : res (option (Z * event_base)) :=
  match fuel with
  | O => Ok None
  | S fuel =>
      r ← loop_round room fuel flags b;
      match r with
      | None => Ok None
      | Some (Some v, b) => Ok (Some (v, b))
      | Some (None, b) => loop_rounds room fuel flags b
      end
  end.
Definition event_base_loop (room : nat → bool) (fuel : nat) (flags : Z) (b : event_base) : res (option (Z * event_base)) :=
  loop_rounds room fuel flags (clear_cache b).
End Loop.
