(* ===== verification/EventLoop.v ===== *)
(** The invariant of the event loop: the flags of the events, the queues, the
    heap of timers and the counters of the base agree; and how each operation of
    event.c keeps it. *)
From stdpp Require Import gmap.
From S2P Require Import Prelude Numeric MinHeap Events.
#[local] Open Scope Z_scope.

(** ** Flags *)

Definition flag (k : Z) : Z := 2 ^ k.
Lemma hasb_flag f k : 0 <= k → hasb f (flag k) = Z.testbit f k.
Proof.
  intros Hk. unfold hasb, flag. destruct (Z.testbit f k) eqn:E.
  - apply negb_true_iff, Z.eqb_neq. intros H. assert (Z.testbit (Z.land f (2 ^ k)) k = true) as Ht
      by (rewrite Z.land_spec, E, Z.pow2_bits_true by done; done).
    rewrite H, Z.bits_0 in Ht. done.
  - apply negb_false_iff, Z.eqb_eq. apply Z.bits_inj'. intros j Hj. rewrite Z.land_spec, Z.bits_0.
    destruct (decide (k = j)) as [<-|]; [by rewrite E|]. rewrite Z.pow2_bits_false by done. apply andb_false_r.
Qed.
Lemma hasb_lor f j k : 0 <= j → 0 <= k → hasb (Z.lor f (flag j)) (flag k) = hasb f (flag k) || bool_decide (j = k).
Proof.
  intros Hj Hk. rewrite !hasb_flag, Z.lor_spec by done. f_equal. unfold flag. case_bool_decide; [subst; by apply Z.pow2_bits_true|by apply Z.pow2_bits_false].
Qed.
Lemma hasb_ldiff f j k : 0 <= j → 0 <= k → hasb (Z.ldiff f (flag j)) (flag k) = hasb f (flag k) && negb (bool_decide (j = k)).
Proof.
  intros Hj Hk. rewrite !hasb_flag, Z.ldiff_spec by done. f_equal. f_equal. unfold flag. case_bool_decide; [subst; by apply Z.pow2_bits_true|by apply Z.pow2_bits_false].
Qed.
Lemma all_lor f j : 0 <= j → Z.testbit EVLIST_ALL j = true → Z.ldiff f EVLIST_ALL = 0 → Z.ldiff (Z.lor f (flag j)) EVLIST_ALL = 0.
Proof.
  intros Hj Ha Hf. apply Z.bits_inj'. intros n Hn. rewrite Z.ldiff_spec, Z.lor_spec, Z.bits_0.
  assert (Z.testbit f n && negb (Z.testbit EVLIST_ALL n) = false) as H by (rewrite <-Z.ldiff_spec, Hf; apply Z.bits_0).
  unfold flag. destruct (decide (j = n)) as [<-|]; [rewrite Ha; apply andb_false_r|]. rewrite Z.pow2_bits_false by done. by rewrite orb_false_r.
Qed.
Lemma all_ldiff f g : Z.ldiff f EVLIST_ALL = 0 → Z.ldiff (Z.ldiff f g) EVLIST_ALL = 0.
Proof.
  intros Hf. apply Z.bits_inj'. intros n Hn. rewrite !Z.ldiff_spec, Z.bits_0.
  assert (Z.testbit f n && negb (Z.testbit EVLIST_ALL n) = false) as H by (rewrite <-Z.ldiff_spec, Hf; apply Z.bits_0).
  destruct (Z.testbit f n), (Z.testbit g n), (Z.testbit EVLIST_ALL n); done.
Qed.
Lemma hasb_lor2 f j k : 0 <= j → 0 <= k → hasb f (Z.lor (flag j) (flag k)) = hasb f (flag j) || hasb f (flag k).
Proof.
  intros Hj Hk. unfold hasb. rewrite Z.land_lor_distr_r.
  destruct (Z.eqb_spec (Z.land f (flag j)) 0) as [E1|E1], (Z.eqb_spec (Z.land f (flag k)) 0) as [E2|E2]; simpl.
  - by rewrite E1, E2.
  - apply negb_true_iff, Z.eqb_neq. rewrite Z.lor_eq_0_iff. tauto.
  - apply negb_true_iff, Z.eqb_neq. rewrite Z.lor_eq_0_iff. tauto.
  - apply negb_true_iff, Z.eqb_neq. rewrite Z.lor_eq_0_iff. tauto.
Qed.

(** ** The invariant *)

(** The event at [x], when [T], [I] and [A] are the events in the timer heap, in
    the queue of inserted events and in the queue of active ones. *)
Record event_ok (T I A : list nat) (x : nat) (ev : event) : Prop := {
  eo_timeout : hasb (ev_flags ev) (flag 0) = bool_decide (x ∈ T);
  eo_inserted : hasb (ev_flags ev) (flag 1) = bool_decide (x ∈ I);
  eo_active : hasb (ev_flags ev) (flag 3) = bool_decide (x ∈ A);
  eo_internal : hasb (ev_flags ev) (flag 4) = false;
  eo_all : Z.ldiff (ev_flags ev) EVLIST_ALL = 0;
  eo_pri : ev_pri ev = O;
  eo_ncalls : ev_pncalls ev = true → ev_ncalls ev = 0;
  eo_one : x ∈ A → ev_ncalls ev = 1;
}.

Section Invariant.
Context {B : Backend}.
Implicit Types (b : event_base) (T I A : list nat).

Record base_inv b T I A : Prop := {
  bi_heap : heap_inv (bs_timeheap b) (bs_events b) T;
  bi_size : Z.of_nat (size (bs_events b)) < 2 ^ 31;
  bi_queue : bs_eventqueue b = I;
  bi_active : bs_activequeues b = [A];
  bi_event x ev : bs_events b !! x = Some ev → event_ok T I A x ev;
  bi_live x : x ∈ I ∨ x ∈ A → is_Some (bs_events b !! x);
  bi_nodup_I : NoDup I;
  bi_nodup_A : NoDup A;
  bi_count : bs_count b = Z.of_nat (length T + length I + length A);
  bi_count_active : bs_count_active b = Z.of_nat (length A);
}.

Lemma heap_live h evs T x : heap_inv h evs T → x ∈ T → is_Some (evs !! x).
Proof. intros Hi [i Hx]%list_elem_of_lookup. eapply cell_live, (hi_laid _ _ _ Hi i x Hx). Qed.
Lemma heap_small b T I A : base_inv b T I A → Z.of_nat (length T) < NO_IDX.
Proof.
  intros Hb. assert (length T ≤ size (bs_events b))%nat.
  { rewrite <-(size_list_to_set (C := gset nat) T) by apply Hb. rewrite <-size_dom. apply subseteq_size.
    intros x Hx. apply elem_of_list_to_set in Hx. apply elem_of_dom. by eapply heap_live; [apply Hb|]. }
  pose proof (bi_size _ _ _ _ Hb). unfold NO_IDX. lia.
Qed.

(** *** Changing the flags of one event *)

Lemma ok_same T I A T' I' A' x ev :
  (x ∈ T' ↔ x ∈ T) → (x ∈ I' ↔ x ∈ I) → (x ∈ A' ↔ x ∈ A) → event_ok T I A x ev → event_ok T' I' A' x ev.
Proof.
  intros HT HI HA []. split; try done; [rewrite eo_timeout0|rewrite eo_inserted0|rewrite eo_active0|by rewrite HA];
    by apply bool_decide_ext.
Qed.
Lemma ok_ldiff k T I A T' I' A' x ev :
  0 <= k → k ≠ 4 → (x ∈ T' ↔ x ∈ T ∧ k ≠ 0) → (x ∈ I' ↔ x ∈ I ∧ k ≠ 1) → (x ∈ A' ↔ x ∈ A ∧ k ≠ 3) →
  event_ok T I A x ev → event_ok T' I' A' x (set_flags (Z.ldiff (ev_flags ev) (flag k)) ev).
Proof.
  intros Hk H4 HT HI HA []. split; cbn [set_flags ev_flags ev_pri ev_pncalls ev_ncalls]; try done; try (rewrite hasb_ldiff by done).
  - rewrite eo_timeout0, <-bool_decide_not, <-bool_decide_and. by apply bool_decide_ext.
  - rewrite eo_inserted0, <-bool_decide_not, <-bool_decide_and. by apply bool_decide_ext.
  - rewrite eo_active0, <-bool_decide_not, <-bool_decide_and. by apply bool_decide_ext.
  - by rewrite eo_internal0.
  - by apply all_ldiff.
  - rewrite HA. tauto.
Qed.
Lemma ok_lor k T I A T' I' A' x ev :
  0 <= k → k ≠ 4 → Z.testbit EVLIST_ALL k = true →
  (x ∈ T' ↔ x ∈ T ∨ k = 0) → (x ∈ I' ↔ x ∈ I ∨ k = 1) → (x ∈ A' ↔ x ∈ A ∨ k = 3) → (k = 3 → ev_ncalls ev = 1) →
  event_ok T I A x ev → event_ok T' I' A' x (set_flags (Z.lor (ev_flags ev) (flag k)) ev).
Proof.
  intros Hk H4 Hall HT HI HA Hone []. split; cbn [set_flags ev_flags ev_pri ev_pncalls ev_ncalls]; try done; try (rewrite hasb_lor by done).
  - rewrite eo_timeout0, <-bool_decide_or. by apply bool_decide_ext.
  - rewrite eo_inserted0, <-bool_decide_or. by apply bool_decide_ext.
  - rewrite eo_active0, <-bool_decide_or. by apply bool_decide_ext.
  - by rewrite eo_internal0, bool_decide_false.
  - by apply all_lor.
  - rewrite HA. intros [?|?]; auto.
Qed.
(** The index in the heap does not matter. *)
Lemma ok_forget T I A x ev ev' : forget ev' = forget ev → event_ok T I A x ev → event_ok T I A x ev'.
Proof.
  intros E []. assert (ev_flags ev' = ev_flags ev ∧ ev_pri ev' = ev_pri ev ∧ ev_pncalls ev' = ev_pncalls ev ∧ ev_ncalls ev' = ev_ncalls ev) as (Ef & Ep & En & Ec).
  { unfold forget, set_idx in E. injection E. auto. }
  split; rewrite ?Ef, ?Ep, ?En, ?Ec; done.
Qed.

(** *** What an operation leaves alone *)

(** Everything in the base but the queues, the counters and the backend. *)
Definition frame b b' : Prop :=
  (bs_next b', bs_once b', bs_gotterm b', bs_break b', bs_event_tv b', bs_ncalls b', bs_monotonic b', bs_tv_cache b', bs_now b', bs_ticks b')
  = (bs_next b, bs_once b, bs_gotterm b, bs_break b, bs_event_tv b, bs_ncalls b, bs_monotonic b, bs_tv_cache b, bs_now b, bs_ticks b).
#[export] Instance frame_preorder : PreOrder frame.
Proof. split; unfold frame; [done|]. congruence. Qed.
(** Everything in the events but their flags and indices. *)
Definition plain (ev : event) : event := set_flags 0 (forget ev).
Definition calm b b' : Prop := frame b b' ∧ ∀ x, plain <$> bs_events b' !! x = plain <$> bs_events b !! x.
#[export] Instance calm_preorder : PreOrder calm.
Proof. split; [done|]. intros b1 b2 b3 [F1 H1] [F2 H2]. split; [by trans b2|]. intros x. by rewrite H2. Qed.
Lemma calm_key b b' x : calm b b' → key_of (bs_events b') x = key_of (bs_events b) x.
Proof.
  intros [_ H]. specialize (H x). unfold key_of. destruct (bs_events b !! x) as [ev|], (bs_events b' !! x) as [ev'|]; cbn in *; try done.
  change (ev_timeout ev') with (ev_timeout (plain ev')). assert (plain ev' = plain ev) as -> by congruence. done.
Qed.
Lemma calm_event b b' x ev :
  calm b b' → bs_events b !! x = Some ev → ∃ ev', bs_events b' !! x = Some ev' ∧ plain ev' = plain ev.
Proof. intros [_ H] Hx. specialize (H x). rewrite Hx in H. destruct (bs_events b' !! x) as [ev'|]; [|done]. exists ev'. cbn in H. split; [done|congruence]. Qed.
Lemma calm_dom b b' : calm b b' → dom (bs_events b') = dom (bs_events b).
Proof.
  intros [_ H]. apply set_eq. intros x. rewrite !elem_of_dom. specialize (H x).
  destruct (bs_events b !! x), (bs_events b' !! x); try done; split; intros [? ?]; done.
Qed.
(** The callback of each event, and whether the event is persistent. *)
Definition cb_of (ev : event) : nat * bool := (ev_callback ev, hasb (ev_events ev) EV_PERSIST).
Definition cbs b : gmap nat (nat * bool) := cb_of <$> bs_events b.
Lemma calm_cbs b b' : calm b b' → cbs b' = cbs b.
Proof.
  intros [_ H]. apply map_eq. intros x. unfold cbs. rewrite !lookup_fmap. specialize (H x).
  destruct (bs_events b !! x) as [ev|], (bs_events b' !! x) as [ev'|]; cbn in *; try done.
  change (cb_of ev') with (cb_of (plain ev')). assert (plain ev' = plain ev) as -> by congruence. done.
Qed.
Lemma cbs_dom b b' : cbs b' = cbs b → dom (bs_events b') = dom (bs_events b).
Proof. intros H. rewrite <-(dom_fmap_L cb_of (bs_events b')), <-(dom_fmap_L cb_of (bs_events b)). by f_equal. Qed.
Lemma calm_size b b' : calm b b' → size (bs_events b') = size (bs_events b).
Proof. intros H. by rewrite <-!size_dom, (calm_dom b b'). Qed.
Lemma calm_live b b' x : calm b b' → is_Some (bs_events b !! x) → is_Some (bs_events b' !! x).
Proof. intros H. rewrite <-!elem_of_dom. by rewrite (calm_dom b b'). Qed.

(** Events with the same indices and timeouts make the same heap. *)
Lemma heap_inv_same h evs evs' l :
  (∀ x, (λ ev, (min_heap_idx ev, ev_timeout ev)) <$> evs' !! x = (λ ev, (min_heap_idx ev, ev_timeout ev)) <$> evs !! x) →
  heap_inv h evs l → heap_inv h evs' l.
Proof.
  intros H [Hn Ha Hf Hnd Hlaid Ho Hout]. split; try done.
  - intros i x Hx. destruct (Hlaid i x Hx) as [Hp (ev & Hev & Hidx)]. split; [done|]. specialize (H x). rewrite Hev in H.
    destruct (evs' !! x) as [ev'|] eqn:E; [|done]. exists ev'. split; [done|]. cbn in H. congruence.
  - eapply heap_order_ext, Ho. intros x. unfold key_of. specialize (H x). destruct (evs !! x), (evs' !! x); cbn in *; congruence.
  - intros x ev' Hx Hl. specialize (H x). rewrite Hx in H. destruct (evs !! x) as [ev|] eqn:E; [|done]. cbn in H.
    pose proof (Hout x ev E Hl). congruence.
Qed.
Lemma heap_inv_set h evs l e ev ev' :
  evs !! e = Some ev → min_heap_idx ev' = min_heap_idx ev → ev_timeout ev' = ev_timeout ev → heap_inv h evs l → heap_inv h (<[e := ev']> evs) l.
Proof.
  intros He Hi Ht. apply heap_inv_same. intros x. destruct (decide (e = x)) as [<-|]; [|by rewrite lookup_insert_ne].
  rewrite lookup_insert_eq, He. cbn. congruence.
Qed.

(** *** Counting *)

Lemma elem_of_tailq x e l : x ∈ tailq_remove e l ↔ x ∈ l ∧ x ≠ e.
Proof. unfold tailq_remove. rewrite list_elem_of_filter. tauto. Qed.
Lemma tailq_cons e (l : list nat) : NoDup l → e ∈ l → e :: tailq_remove e l ≡ₚ l.
Proof.
  intros Hnd He. apply NoDup_Permutation; [|done|].
  - apply NoDup_cons. split; [rewrite elem_of_tailq; tauto|by apply NoDup_filter].
  - intros x. rewrite elem_of_cons, elem_of_tailq. destruct (decide (x = e)) as [->|]; naive_solver.
Qed.
Lemma tailq_length e (l : list nat) : NoDup l → e ∈ l → Z.of_nat (length (tailq_remove e l)) = Z.of_nat (length l) - 1.
Proof. intros Hnd He. rewrite <-(tailq_cons e l Hnd He) at 2. cbn [length]. lia. Qed.
Lemma tailq_not_in e (l : list nat) : e ∉ l → tailq_remove e l = l.
Proof. intros He. unfold tailq_remove. induction l as [|x l IH]; [done|]. apply not_elem_of_cons in He as [? ?]. rewrite filter_cons_True by done. f_equal. auto. Qed.

(** *** The queues *)

(** The base after the flags of [e] changed and it was counted. *)
Lemma with_event_run e f b ev : bs_events b !! e = Some ev → with_event e f b = Ok (upd_bs_events (λ m, <[e := f ev]> m) b).
Proof. intros He. unfold with_event. by rewrite (get_event_run _ _ _ He). Qed.
Lemma the_event_run e b ev : bs_events b !! e = Some ev → the_event b e = Ok ev.
Proof. apply get_event_run. Qed.
Lemma count_event_run d ev b T I A e : event_ok T I A e ev → count_event d ev b = upd_bs_count (λ n, n + d) b.
Proof. intros []. unfold count_event. change EVLIST_INTERNAL with (flag 4). by rewrite eo_internal0. Qed.

Lemma plain_set_flags f ev : plain (set_flags f ev) = plain ev.
Proof. reflexivity. Qed.
Lemma calm_flags e f b b' ev :
  bs_events b !! e = Some ev → frame b b' → bs_events b' = <[e := set_flags f ev]> (bs_events b) → calm b b'.
Proof.
  intros He Hf Hb'. split; [done|]. intros x. rewrite Hb'. destruct (decide (e = x)) as [<-|]; [by rewrite lookup_insert_eq, He|by rewrite lookup_insert_ne].
Qed.
(** New flags for [e], new lists: what has to be checked of the events. *)
Lemma events_ok_set T I A T' I' A' e ev ev' b b' :
  base_inv b T I A → bs_events b !! e = Some ev → bs_events b' = <[e := ev']> (bs_events b) →
  (∀ x, x ≠ e → (x ∈ T' ↔ x ∈ T) ∧ (x ∈ I' ↔ x ∈ I) ∧ (x ∈ A' ↔ x ∈ A)) → event_ok T' I' A' e ev' →
  ∀ x evx, bs_events b' !! x = Some evx → event_ok T' I' A' x evx.
Proof.
  intros Hb He Hb' Hx Hok x evx. rewrite Hb'. destruct (decide (e = x)) as [<-|Hne]; [rewrite lookup_insert_eq; by intros [= <-]|].
  rewrite lookup_insert_ne by done. intros Hev. destruct (Hx x) as (HT & HI & HA); [done|].
  eapply ok_same; [done|done|done|]. by eapply bi_event.
Qed.

Lemma remove_inserted e b T I A :
  base_inv b T I A → e ∈ I →
  ∃ b', event_queue_remove e EVLIST_INSERTED b = Ok b' ∧ base_inv b' T (tailq_remove e I) A ∧ calm b b' ∧ bs_backend b' = bs_backend b
        ∧ bs_timeheap b' = bs_timeheap b.
Proof.
  intros Hb He. destruct (bi_live _ _ _ _ Hb e) as [ev Hev]; [by left|]. pose proof (bi_event _ _ _ _ Hb e ev Hev) as Hok.
  unfold event_queue_remove. rewrite (the_event_run _ _ _ Hev). cbn [mbind res_bind]. change EVLIST_INSERTED with (flag 1).
  rewrite (eo_inserted _ _ _ _ _ Hok), bool_decide_true by done. cbn [negb]. rewrite (count_event_run _ _ _ _ _ _ _ Hok).
  rewrite (with_event_run _ _ _ ev) by done. cbn [mbind res_bind]. change (flag 1 =? flag 1) with true. cbv iota.
  set (b1 := upd_bs_events _ _). eexists. split; [done|].
  assert (Hc : calm b (upd_bs_eventqueue (tailq_remove e) b1)) by (by eapply (calm_flags e)). split_and!; [|done|done|done]. split.
  - by eapply heap_inv_set, Hb.
  - rewrite (calm_size _ _ Hc). apply Hb.
  - cbn. by rewrite (bi_queue _ _ _ _ Hb).
  - apply Hb.
  - eapply (events_ok_set T I A); [done|done|done| |].
    + intros x Hx. rewrite elem_of_tailq. naive_solver.
    + eapply ok_ldiff, Hok; [lia|lia|naive_solver|rewrite elem_of_tailq; naive_solver|naive_solver].
  - intros x Hx. eapply calm_live; [exact Hc|]. apply (bi_live _ _ _ _ Hb). rewrite elem_of_tailq in Hx. tauto.
  - apply NoDup_filter, Hb.
  - apply Hb.
  - cbn. rewrite (bi_count _ _ _ _ Hb). pose proof (tailq_length e I (bi_nodup_I _ _ _ _ Hb) He). lia.
  - apply Hb.
Qed.

Lemma remove_active e b T I A :
  base_inv b T I A → e ∈ A →
  ∃ b', event_queue_remove e EVLIST_ACTIVE b = Ok b' ∧ base_inv b' T I (tailq_remove e A) ∧ calm b b' ∧ bs_backend b' = bs_backend b
        ∧ bs_timeheap b' = bs_timeheap b.
Proof.
  intros Hb He. destruct (bi_live _ _ _ _ Hb e) as [ev Hev]; [by right|]. pose proof (bi_event _ _ _ _ Hb e ev Hev) as Hok.
  unfold event_queue_remove. rewrite (the_event_run _ _ _ Hev). cbn [mbind res_bind]. change EVLIST_ACTIVE with (flag 3).
  rewrite (eo_active _ _ _ _ _ Hok), bool_decide_true by done. cbn [negb]. rewrite (count_event_run _ _ _ _ _ _ _ Hok).
  rewrite (with_event_run _ _ _ ev) by done. cbn [mbind res_bind]. change (flag 3 =? EVLIST_INSERTED) with false. change (flag 3 =? flag 3) with true. cbv iota.
  set (b1 := upd_bs_events _ _). unfold on_queue. cbn [bs_activequeues upd_bs_count_active]. change (bs_activequeues b1) with (bs_activequeues b).
  rewrite (bi_active _ _ _ _ Hb), (eo_pri _ _ _ _ _ Hok). cbn [lookup list_lookup]. eexists. split; [done|].
  set (b2 := upd_bs_activequeues _ _). assert (Hc : calm b b2) by (by eapply (calm_flags e)). split_and!; [|done|done|done]. split.
  - by eapply heap_inv_set, Hb.
  - rewrite (calm_size _ _ Hc). apply Hb.
  - apply Hb.
  - cbn. by rewrite (bi_active _ _ _ _ Hb).
  - eapply (events_ok_set T I A); [done|done|done| |].
    + intros x Hx. rewrite elem_of_tailq. naive_solver.
    + eapply ok_ldiff, Hok; [lia|lia|naive_solver|naive_solver|rewrite elem_of_tailq; naive_solver].
  - intros x Hx. eapply calm_live; [exact Hc|]. apply (bi_live _ _ _ _ Hb). rewrite elem_of_tailq in Hx. tauto.
  - apply Hb.
  - apply NoDup_filter, Hb.
  - cbn. rewrite (bi_count _ _ _ _ Hb). pose proof (tailq_length e A (bi_nodup_A _ _ _ _ Hb) He). lia.
  - cbn. rewrite (bi_count_active _ _ _ _ Hb). pose proof (tailq_length e A (bi_nodup_A _ _ _ _ Hb) He). lia.
Qed.

(** After the heap moved events around. *)
Lemma moved_event v evs evs' x ev' : moved v evs evs' → evs' !! x = Some ev' → ∃ ev, evs !! x = Some ev ∧ forget ev' = forget ev.
Proof. intros [H _] Hx. specialize (H x). rewrite Hx in H. destruct (evs !! x) as [ev|]; [|done]. exists ev. cbn in H. split; [done|congruence]. Qed.
Lemma calm_moved v b b' : frame b b' → moved v (bs_events b) (bs_events b') → calm b b'.
Proof.
  intros Hf [H _]. split; [done|]. intros x. specialize (H x).
  destruct (bs_events b !! x), (bs_events b' !! x); cbn in *; try done. unfold plain. congruence.
Qed.

Lemma remove_timeout e b T I A :
  base_inv b T I A → e ∈ T →
  ∃ b' T', event_queue_remove e EVLIST_TIMEOUT b = Ok b' ∧ base_inv b' T' I A ∧ e :: T' ≡ₚ T ∧ calm b b' ∧ bs_backend b' = bs_backend b
           ∧ mh_a (bs_timeheap b') = mh_a (bs_timeheap b).
Proof.
  intros Hb He. destruct (heap_live _ _ _ e (bi_heap _ _ _ _ Hb) He) as [ev Hev]. pose proof (bi_event _ _ _ _ Hb e ev Hev) as Hok.
  unfold event_queue_remove. rewrite (the_event_run _ _ _ Hev). cbn [mbind res_bind]. change EVLIST_TIMEOUT with (flag 0).
  rewrite (eo_timeout _ _ _ _ _ Hok), bool_decide_true by done. cbn [negb]. rewrite (count_event_run _ _ _ _ _ _ _ Hok).
  rewrite (with_event_run _ _ _ ev) by done. cbn [mbind res_bind]. change (flag 0 =? EVLIST_INSERTED) with false. change (flag 0 =? EVLIST_ACTIVE) with false.
  change (flag 0 =? flag 0) with true. cbv iota. set (ev1 := set_flags _ ev). set (b1 := upd_bs_events _ _).
  assert (Hh1 : heap_inv (bs_timeheap b1) (bs_events b1) T) by (by eapply heap_inv_set, Hb).
  destruct (erase_run _ _ _ e Hh1 He (heap_small _ _ _ _ Hb)) as (h & evs & T' & -> & Hh & Hp & Hm & Ha). cbn [mbind res_bind].
  eexists _, T'. split; [done|]. set (b2 := upd_bs_timeheap _ _).
  assert (Hc : calm b b2).
  { trans b1; [by eapply (calm_flags e)|]. by eapply (calm_moved T). }
  assert (Hnd : NoDup (e :: T')) by (rewrite Hp; apply Hb). apply NoDup_cons in Hnd as [HeT _].
  assert (Hin : ∀ x, x ∈ T ↔ x = e ∨ x ∈ T') by (intros x; rewrite <-Hp; apply elem_of_cons).
  split_and!; [|done|done|done|done]. split.
  - done.
  - rewrite (calm_size _ _ Hc). apply Hb.
  - apply Hb.
  - apply Hb.
  - intros x evx Hx. destruct (moved_event _ _ _ x evx Hm Hx) as (ev' & Hev' & Ef). eapply ok_forget; [done|].
    revert Hev'. apply (events_ok_set T I A T' I A e ev ev1 b b1 Hb Hev eq_refl).
    + intros y Hy. rewrite Hin. naive_solver.
    + eapply ok_ldiff, Hok; [lia|lia|rewrite Hin; naive_solver|naive_solver|naive_solver].
  - intros x Hx. eapply calm_live; [exact Hc|]. by apply (bi_live _ _ _ _ Hb).
  - apply Hb.
  - apply Hb.
  - cbn. rewrite (bi_count _ _ _ _ Hb). apply Permutation_length in Hp. cbn [length] in Hp. lia.
  - apply Hb.
Qed.

Lemma insert_inserted room e b T I A :
  base_inv b T I A → e ∉ I → is_Some (bs_events b !! e) →
  ∃ b', event_queue_insert room e EVLIST_INSERTED b = Ok b' ∧ base_inv b' T (I ++ [e]) A ∧ calm b b' ∧ bs_backend b' = bs_backend b
        ∧ bs_timeheap b' = bs_timeheap b.
Proof.
  intros Hb He [ev Hev]. pose proof (bi_event _ _ _ _ Hb e ev Hev) as Hok.
  unfold event_queue_insert. rewrite (the_event_run _ _ _ Hev). cbn [mbind res_bind]. change EVLIST_INSERTED with (flag 1).
  rewrite (eo_inserted _ _ _ _ _ Hok), bool_decide_false by done. cbn [negb]. rewrite (count_event_run _ _ _ _ _ _ _ Hok).
  rewrite (with_event_run _ _ _ ev) by done. cbn [mbind res_bind]. change (flag 1 =? flag 1) with true. cbv iota.
  set (b1 := upd_bs_events _ _). eexists. split; [done|]. set (b2 := upd_bs_eventqueue _ _).
  assert (Hc : calm b b2) by (by eapply (calm_flags e)). split_and!; [|done|done|done]. split.
  - by eapply heap_inv_set, Hb.
  - rewrite (calm_size _ _ Hc). apply Hb.
  - cbn. by rewrite (bi_queue _ _ _ _ Hb).
  - apply Hb.
  - eapply (events_ok_set T I A); [done|done|done| |].
    + intros x Hx. rewrite elem_of_app, list_elem_of_singleton. naive_solver.
    + eapply ok_lor, Hok; [lia|lia|done|naive_solver|rewrite elem_of_app, list_elem_of_singleton; naive_solver|naive_solver|lia].
  - intros x Hx. eapply calm_live; [exact Hc|]. rewrite elem_of_app, list_elem_of_singleton in Hx.
    destruct Hx as [[Hx| ->]|Hx]; [apply (bi_live _ _ _ _ Hb); by left|by eexists|apply (bi_live _ _ _ _ Hb); by right].
  - apply NoDup_app. split_and!; [apply Hb| |apply NoDup_singleton]. by intros x Hx ->%list_elem_of_singleton.
  - apply Hb.
  - cbn. rewrite (bi_count _ _ _ _ Hb), length_app. cbn [length]. lia.
  - apply Hb.
Qed.

Lemma insert_active room e b T I A ev :
  base_inv b T I A → e ∉ A → bs_events b !! e = Some ev → ev_ncalls ev = 1 →
  ∃ b', event_queue_insert room e EVLIST_ACTIVE b = Ok b' ∧ base_inv b' T I (A ++ [e]) ∧ calm b b' ∧ bs_backend b' = bs_backend b
        ∧ bs_timeheap b' = bs_timeheap b.
Proof.
  intros Hb He Hev Hone. pose proof (bi_event _ _ _ _ Hb e ev Hev) as Hok.
  unfold event_queue_insert. rewrite (the_event_run _ _ _ Hev). cbn [mbind res_bind]. change EVLIST_ACTIVE with (flag 3).
  rewrite (eo_active _ _ _ _ _ Hok), bool_decide_false by done. cbn [negb]. rewrite (count_event_run _ _ _ _ _ _ _ Hok).
  rewrite (with_event_run _ _ _ ev) by done. cbn [mbind res_bind]. change (flag 3 =? EVLIST_INSERTED) with false. change (flag 3 =? flag 3) with true. cbv iota.
  set (b1 := upd_bs_events _ _). unfold on_queue. cbn [bs_activequeues upd_bs_count_active]. change (bs_activequeues b1) with (bs_activequeues b).
  rewrite (bi_active _ _ _ _ Hb), (eo_pri _ _ _ _ _ Hok). cbn [lookup list_lookup]. eexists. split; [done|].
  set (b2 := upd_bs_activequeues _ _). assert (Hc : calm b b2) by (by eapply (calm_flags e)). split_and!; [|done|done|done]. split.
  - by eapply heap_inv_set, Hb.
  - rewrite (calm_size _ _ Hc). apply Hb.
  - apply Hb.
  - cbn. by rewrite (bi_active _ _ _ _ Hb).
  - eapply (events_ok_set T I A); [done|done|done| |].
    + intros x Hx. rewrite elem_of_app, list_elem_of_singleton. naive_solver.
    + eapply ok_lor, Hok; [lia|lia|done|naive_solver|naive_solver|rewrite elem_of_app, list_elem_of_singleton; naive_solver|done].
  - intros x Hx. eapply calm_live; [exact Hc|]. rewrite elem_of_app, list_elem_of_singleton in Hx.
    destruct Hx as [Hx|[Hx| ->]]; [apply (bi_live _ _ _ _ Hb); by left|apply (bi_live _ _ _ _ Hb); by right|by eexists].
  - apply Hb.
  - apply NoDup_app. split_and!; [apply Hb| |apply NoDup_singleton]. by intros x Hx ->%list_elem_of_singleton.
  - cbn. rewrite (bi_count _ _ _ _ Hb), length_app. cbn [length]. lia.
  - cbn. rewrite (bi_count_active _ _ _ _ Hb), length_app. cbn [length]. lia.
Qed.

Lemma insert_timeout room e b T I A :
  base_inv b T I A → e ∉ T → is_Some (bs_events b !! e) → (length T < mh_a (bs_timeheap b))%nat →
  ∃ b' T', event_queue_insert room e EVLIST_TIMEOUT b = Ok b' ∧ base_inv b' T' I A ∧ T' ≡ₚ e :: T ∧ calm b b' ∧ bs_backend b' = bs_backend b.
Proof.
  intros Hb He [ev Hev] Hroom. pose proof (bi_event _ _ _ _ Hb e ev Hev) as Hok.
  unfold event_queue_insert. rewrite (the_event_run _ _ _ Hev). cbn [mbind res_bind]. change EVLIST_TIMEOUT with (flag 0).
  rewrite (eo_timeout _ _ _ _ _ Hok), bool_decide_false by done. cbn [negb]. rewrite (count_event_run _ _ _ _ _ _ _ Hok).
  rewrite (with_event_run _ _ _ ev) by done. cbn [mbind res_bind]. change (flag 0 =? EVLIST_INSERTED) with false. change (flag 0 =? EVLIST_ACTIVE) with false.
  change (flag 0 =? flag 0) with true. cbv iota. set (ev1 := set_flags _ ev). set (b1 := upd_bs_events _ _).
  assert (Hh1 : heap_inv (bs_timeheap b1) (bs_events b1) T) by (by eapply heap_inv_set, Hb).
  destruct (push_run room (bs_timeheap b1) (bs_events b1) T e ev1) as (r & h & evs & -> & [(-> & _ & _ & Hfull)|(-> & T' & Hh & Hp & Hm)]);
    [done|apply lookup_insert_eq|apply (hi_out _ _ _ (bi_heap _ _ _ _ Hb) e ev Hev He)|done|cbn in Hfull; lia|]. cbn [mbind res_bind].
  eexists _, T'. split; [done|]. set (b2 := upd_bs_timeheap _ _).
  assert (Hc : calm b b2) by (trans b1; [by eapply (calm_flags e)|by eapply (calm_moved T')]).
  assert (Hin : ∀ x, x ∈ T' ↔ x = e ∨ x ∈ T) by (intros x; rewrite Hp; apply elem_of_cons).
  split_and!; [|done|done|done]. split.
  - done.
  - rewrite (calm_size _ _ Hc). apply Hb.
  - apply Hb.
  - apply Hb.
  - intros x evx Hx. destruct (moved_event _ _ _ x evx Hm Hx) as (ev' & Hev' & Ef). eapply ok_forget; [done|].
    revert Hev'. apply (events_ok_set T I A T' I A e ev ev1 b b1 Hb Hev eq_refl).
    + intros y Hy. rewrite Hin. naive_solver.
    + eapply ok_lor, Hok; [lia|lia|done|rewrite Hin; naive_solver|naive_solver|naive_solver|lia].
  - intros x Hx. eapply calm_live; [exact Hc|]. by apply (bi_live _ _ _ _ Hb).
  - apply Hb.
  - apply Hb.
  - cbn. rewrite (bi_count _ _ _ _ Hb). apply Permutation_length in Hp. cbn [length] in Hp. lia.
  - apply Hb.
Qed.

(** *** Deleting *)

Lemma tailq_perm e (l l' : list nat) : NoDup l → e :: l' ≡ₚ l → l' ≡ₚ tailq_remove e l.
Proof.
  intros Hnd Hp. assert (He : e ∈ l) by (rewrite <-Hp; by left). apply (Permutation_cons_inv (a := e)).
  rewrite Hp. symmetry. by apply tailq_cons.
Qed.
Lemma base_inv_backend f b T I A : base_inv b T I A → base_inv (upd_bs_backend f b) T I A.
Proof. by intros []. Qed.
Lemma abort_loop_run e ev b T I A : base_inv b T I A → bs_events b !! e = Some ev → abort_loop ev b = Ok b.
Proof.
  intros Hb Hev. pose proof (bi_event _ _ _ _ Hb e ev Hev) as []. unfold abort_loop.
  destruct (ev_pncalls ev); [rewrite eo_ncalls0 by done; done|]. by rewrite andb_false_r.
Qed.
(** Taking [e] out of each queue it is on. *)
Lemma drop_timeout e ev b T I A :
  base_inv b T I A → bs_events b !! e = Some ev →
  ∃ b' T', (if hasb (ev_flags ev) EVLIST_TIMEOUT then event_queue_remove e EVLIST_TIMEOUT b else Ok b) = Ok b'
    ∧ base_inv b' T' I A ∧ T' ≡ₚ tailq_remove e T ∧ calm b b' ∧ bs_backend b' = bs_backend b ∧ mh_a (bs_timeheap b') = mh_a (bs_timeheap b).
Proof.
  intros Hb Hev. change EVLIST_TIMEOUT with (flag 0). rewrite (eo_timeout _ _ _ _ _ (bi_event _ _ _ _ Hb e ev Hev)). case_bool_decide as He.
  - destruct (remove_timeout e b T I A Hb He) as (b' & T' & Hrun & Hb' & Hp & Hc & Hs & Ha). exists b', T'.
    split_and!; try done. apply tailq_perm; [apply Hb|done].
  - exists b, T. split_and!; try done. by rewrite tailq_not_in.
Qed.
Lemma drop_active (c : bool) e ev b T I A :
  base_inv b T I A → bs_events b !! e = Some ev →
  ∃ b' A', (if hasb (ev_flags ev) EVLIST_ACTIVE && c then event_queue_remove e EVLIST_ACTIVE b else Ok b) = Ok b'
    ∧ base_inv b' T I A' ∧ A' = (if c then tailq_remove e A else A) ∧ calm b b' ∧ bs_backend b' = bs_backend b ∧ bs_timeheap b' = bs_timeheap b.
Proof.
  intros Hb Hev. change EVLIST_ACTIVE with (flag 3). rewrite (eo_active _ _ _ _ _ (bi_event _ _ _ _ Hb e ev Hev)). destruct c; [rewrite andb_true_r|rewrite andb_false_r; by exists b, A].
  case_bool_decide as He.
  - destruct (remove_active e b T I A Hb He) as (b' & Hrun & Hb' & Hc & Hs & Ha). by exists b', (tailq_remove e A).
  - exists b, A. split_and!; try done. by rewrite tailq_not_in.
Qed.
Lemma plain_fields ev ev' :
  plain ev' = plain ev → ev_res ev' = ev_res ev ∧ ev_ncalls ev' = ev_ncalls ev ∧ ev_timeout ev' = ev_timeout ev ∧ ev_events ev' = ev_events ev.
Proof. unfold plain, set_flags, forget, set_idx. intros E. injection E. auto. Qed.

Lemma del_run e b T I A ev :
  base_inv b T I A → bs_events b !! e = Some ev →
  ∃ r b' T', event_del e b = Ok (r, b') ∧ base_inv b' T' (tailq_remove e I) (tailq_remove e A) ∧ T' ≡ₚ tailq_remove e T
    ∧ calm b b' ∧ mh_a (bs_timeheap b') = mh_a (bs_timeheap b).
Proof.
  intros Hb Hev. pose proof (bi_event _ _ _ _ Hb e ev Hev) as Hok. unfold event_del. rewrite (the_event_run _ _ _ Hev). cbn [mbind res_bind].
  rewrite (eo_all _ _ _ _ _ Hok). cbn [negb Z.eqb]. rewrite (abort_loop_run e ev b T I A) by done. cbn [mbind res_bind].
  destruct (drop_timeout e ev b T I A Hb Hev) as (b1 & T' & -> & Hb1 & HT & Hc1 & Hs1 & Ha1). cbn [mbind res_bind].
  destruct (calm_event b b1 e ev Hc1 Hev) as (ev1 & Hev1 & _).
  assert (Hact : (if hasb (ev_flags ev) EVLIST_ACTIVE then event_queue_remove e EVLIST_ACTIVE b1 else Ok b1)
               = (if hasb (ev_flags ev1) EVLIST_ACTIVE && true then event_queue_remove e EVLIST_ACTIVE b1 else Ok b1)).
  { change EVLIST_ACTIVE with (flag 3). rewrite andb_true_r, (eo_active _ _ _ _ _ Hok), (eo_active _ _ _ _ _ (bi_event _ _ _ _ Hb1 e ev1 Hev1)). done. }
  rewrite Hact. destruct (drop_active true e ev1 b1 T' I A Hb1 Hev1) as (b2 & A' & -> & Hb2 & -> & Hc2 & Hs2 & Ha2). cbn [mbind res_bind].
  assert (Hc : calm b b2) by (by trans b1).
  change EVLIST_INSERTED with (flag 1). rewrite (eo_inserted _ _ _ _ _ Hok). case_bool_decide as He.
  - destruct (remove_inserted e b2 T' I _ Hb2 He) as (b3 & Hrun & Hb3 & Hc3 & Hs3 & Ha3). change EVLIST_INSERTED with (flag 1) in Hrun. rewrite Hrun. cbn [mbind res_bind].
    destruct (calm_event b2 b3 e) with (ev := default ev (bs_events b2 !! e)) as (ev3 & Hev3 & _); [done| |].
    { destruct (calm_event b b2 e ev Hc Hev) as (ev2 & -> & _). done. }
    rewrite (the_event_run _ _ _ Hev3). cbn [mbind res_bind]. destruct (evsel_del ev3 (bs_backend b3)) as [r s'].
    eexists r, _, T'. split; [done|]. split_and!; [by apply base_inv_backend|done| |cbn; congruence].
    trans b3; [by trans b2|done].
  - exists 0, b2, T'. rewrite (tailq_not_in e I) by done. split_and!; try done. congruence.
Qed.

(** *** Activating *)

(** Everything in the events but flags, indices and results. *)
Definition steady (ev : event) : event := set_res 0 0 false (plain ev).
Definition calls b b' : Prop := frame b b' ∧ ∀ x, steady <$> bs_events b' !! x = steady <$> bs_events b !! x.
#[export] Instance calls_preorder : PreOrder calls.
Proof. split; [done|]. intros b1 b2 b3 [F1 H1] [F2 H2]. split; [by trans b2|]. intros x. by rewrite H2. Qed.
Lemma calm_calls b b' : calm b b' → calls b b'.
Proof. intros [F H]. split; [done|]. intros x. specialize (H x). destruct (bs_events b !! x), (bs_events b' !! x); cbn in *; try done. unfold steady. congruence. Qed.
Lemma calls_key b b' x : calls b b' → key_of (bs_events b') x = key_of (bs_events b) x.
Proof.
  intros [_ H]. specialize (H x). unfold key_of. destruct (bs_events b !! x) as [ev|], (bs_events b' !! x) as [ev'|]; cbn in *; try done.
  change (ev_timeout ev') with (ev_timeout (steady ev')). assert (steady ev' = steady ev) as -> by congruence. done.
Qed.
Lemma calls_dom b b' : calls b b' → dom (bs_events b') = dom (bs_events b).
Proof.
  intros [_ H]. apply set_eq. intros x. rewrite !elem_of_dom. specialize (H x).
  destruct (bs_events b !! x), (bs_events b' !! x); try done; split; intros [? ?]; done.
Qed.

Lemma set_res_run e r n pn b T I A ev :
  base_inv b T I A → bs_events b !! e = Some ev → (pn = true → n = 0) → (e ∈ A → n = 1) →
  ∃ b', with_event e (set_res r n pn) b = Ok b' ∧ base_inv b' T I A ∧ calls b b' ∧ bs_events b' !! e = Some (set_res r n pn ev)
        ∧ bs_backend b' = bs_backend b ∧ bs_timeheap b' = bs_timeheap b.
Proof.
  intros Hb Hev Hpn HA. rewrite (with_event_run _ _ _ ev) by done. eexists. split; [done|]. set (b' := upd_bs_events _ _).
  assert (Hc : calls b b').
  { split; [done|]. intros x. cbn. destruct (decide (e = x)) as [<-|]; [by rewrite lookup_insert_eq, Hev|by rewrite lookup_insert_ne]. }
  split_and!; [|done|apply lookup_insert_eq|done|done]. split; try apply Hb.
  - by eapply heap_inv_set, Hb.
  - cbn. rewrite map_size_insert_Some; [apply Hb|by eexists].
  - eapply (events_ok_set T I A); [done|done|done|done|]. destruct (bi_event _ _ _ _ Hb e ev Hev). by split.
  - intros x Hx. cbn. destruct (decide (e = x)) as [<-|]; [rewrite lookup_insert_eq; by eexists|rewrite lookup_insert_ne by done; by apply (bi_live _ _ _ _ Hb)].
Qed.

Lemma active_run room e r b T I A :
  base_inv b T I A → is_Some (bs_events b !! e) →
  ∃ b', event_active room e r 1 b = Ok b' ∧ base_inv b' T I (if decide (e ∈ A) then A else A ++ [e]) ∧ calls b b' ∧ bs_timeheap b' = bs_timeheap b.
Proof.
  intros Hb [ev Hev]. pose proof (bi_event _ _ _ _ Hb e ev Hev) as Hok. unfold event_active. rewrite (the_event_run _ _ _ Hev). cbn [mbind res_bind].
  change EVLIST_ACTIVE with (flag 3) at 1. rewrite (eo_active _ _ _ _ _ Hok). destruct (decide (e ∈ A)) as [He|He].
  - rewrite bool_decide_true by done.
    destruct (set_res_run e (Z.lor (ev_res ev) r) (ev_ncalls ev) (ev_pncalls ev) b T I A ev Hb Hev) as (b' & -> & Hb' & Hc & _ & _ & Ht);
      [apply Hok|apply Hok|]. by exists b'.
  - rewrite bool_decide_false by done. destruct (set_res_run e r 1 false b T I A ev Hb Hev) as (b1 & -> & Hb1 & Hc1 & Hev1 & _ & Ht1); [done|done|].
    cbn [mbind res_bind]. destruct (insert_active room e b1 T I A _ Hb1 He Hev1 eq_refl) as (b2 & -> & Hb2 & Hc2 & _ & Ht2).
    exists b2. split_and!; [done|done|trans b1; [done|by apply calm_calls]|congruence].
Qed.

(** *** Timers that are due *)

Definition others (fired l : list nat) : list nat := filter (λ x, x ∉ fired) l.
Lemma others_cons e fired l : others (e :: fired) l = others fired (tailq_remove e l).
Proof.
  unfold others, tailq_remove. rewrite list_filter_filter. apply list_filter_iff. intros x. rewrite not_elem_of_cons. tauto.
Qed.
Lemma others_nil l : others [] l = l.
Proof. induction l as [|x l IH]; [done|]. unfold others in *. rewrite filter_cons_True by apply not_elem_of_nil. by f_equal. Qed.

(** [fired] are the timers due at [now], in the order of their timeouts. *)
Record due (now : timeval) (key : nat → timeval) (T fired T' : list nat) : Prop := {
  du_parts : fired ++ T' ≡ₚ T;
  du_sorted : StronglySorted (below key) fired;
  du_due : Forall (λ x, tv_gtb (key x) now = false) fired;
  du_later : Forall (λ x, tv_gtb (key x) now = true) T';
}.
Lemma due_ext now key key' T fired T' : (∀ x, key' x = key x) → due now key T fired T' → due now key' T fired T'.
Proof.
  intros Hk [Hp Hs Hd Hl]. split; [done| | |].
  - clear -Hs Hk. induction Hs as [|x l _ IH Hf]; constructor; [done|]. eapply Forall_impl; [done|]. intros y. unfold below. by rewrite !Hk.
  - eapply Forall_impl; [done|]. intros x. by rewrite Hk.
  - eapply Forall_impl; [done|]. intros x. by rewrite Hk.
Qed.

Lemma top_run b T I A :
  base_inv b T I A →
  match T with
  | [] => min_heap_top (bs_timeheap b) = Ok None
  | e :: _ => min_heap_top (bs_timeheap b) = Ok (Some e) ∧ ∀ y, y ∈ T → below (key_of (bs_events b)) e y
  end.
Proof.
  intros Hb. pose proof (bi_heap _ _ _ _ Hb) as Hi. unfold min_heap_top. rewrite (hi_n _ _ _ Hi). destruct T as [|e T]; [done|]. split.
  - cbn [length Nat.eqb]. by rewrite (cell_get (bs_timeheap b) (bs_events b) 0 e) by (by apply (hi_laid _ _ _ Hi)).
  - intros y [i Hy]%list_elem_of_lookup. eapply (top_least _ (e :: T)); [apply Hi|done|done].
Qed.

Lemma timeout_loop_run room now fuel : ∀ b T I A,
  base_inv b T I A → (length T ≤ fuel)%nat →
  ∃ b' fired T', timeout_loop room fuel now b = Ok b' ∧ base_inv b' T' (others fired I) (others fired A ++ fired)
    ∧ due now (key_of (bs_events b)) T fired T' ∧ calls b b'.
Proof.
  induction fuel as [|fuel IH]; intros b T I A Hb Hf.
  { destruct T as [|? ?]; [|simpl in Hf; lia]. exists b, [], []. rewrite !others_nil, app_nil_r. cbn. split_and!; try done. by split; try constructor. }
  cbn [timeout_loop]. pose proof (top_run b T I A Hb) as Htop. destruct T as [|e T0] eqn:ET.
  { rewrite Htop. cbn [mbind res_bind]. exists b, [], []. rewrite !others_nil, app_nil_r. split_and!; try done. by split; try constructor. }
  rewrite <-ET in *. assert (He : e ∈ T) by (rewrite ET; by left). destruct Htop as [-> Hleast]. cbn [mbind res_bind].
  destruct (heap_live _ _ _ e (bi_heap _ _ _ _ Hb) He) as [ev Hev]. rewrite (the_event_run _ _ _ Hev). cbn [mbind res_bind].
  assert (Hkey : key_of (bs_events b) e = ev_timeout ev) by (unfold key_of; by rewrite Hev).
  destruct (tv_gtb (ev_timeout ev) now) eqn:Hg.
  - exists b, [], T. rewrite !others_nil, app_nil_r. split_and!; try done. split; [done|constructor|constructor|]. apply Forall_forall. intros x Hx.
    specialize (Hleast x Hx). unfold below, tv_le in Hleast. rewrite <-Hkey in Hg. revert Hg Hleast. unfold tv_gtb. repeat case_match; lia.
  - destruct (del_run e b T I A ev Hb Hev) as (r & b1 & T1 & -> & Hb1 & HT1 & Hc1 & _). cbn [mbind res_bind].
    destruct (active_run room e EV_TIMEOUT b1 _ _ _ Hb1) as (b2 & -> & Hb2 & Hc2 & _); [by eapply calm_live|]. cbn [mbind res_bind].
    rewrite decide_False in Hb2 by (rewrite elem_of_tailq; tauto).
    pose proof (tailq_cons e T (hi_nodup _ _ _ (bi_heap _ _ _ _ Hb)) He) as HTe.
    assert (Hlen : (length T1 ≤ fuel)%nat) by (rewrite HT1; apply Permutation_length in HTe; cbn [length] in HTe; lia).
    destruct (IH b2 T1 _ _ Hb2 Hlen) as (b3 & fired & T' & -> & Hb3 & Hdue & Hc3).
    assert (Hall : calls b b2) by (trans b1; [by apply calm_calls|done]).
    assert (Hk := λ x, calls_key b b2 x Hall). apply (due_ext _ _ (key_of (bs_events b))) in Hdue; [|intros x; symmetry; apply Hk]. destruct Hdue as [Hp Hs Hd Hl].
    assert (Hfe : e ∉ fired).
    { intros Hin. assert (e ∈ tailq_remove e T) as Hx by (rewrite <-HT1, <-Hp; apply elem_of_app; by left). rewrite elem_of_tailq in Hx. tauto. }
    exists b3, (e :: fired), T'. split; [done|]. split; [|split; [|by trans b2]].
    + rewrite !others_cons. unfold others in Hb3 |- *. rewrite filter_app in Hb3. rewrite (filter_cons_True _ e []) in Hb3 by done. cbn in Hb3. by rewrite <-app_assoc in Hb3.
    + split; [cbn; by rewrite Hp, HT1| | |done].
      * constructor; [done|]. apply Forall_forall. intros x Hx. apply Hleast.
        assert (x ∈ tailq_remove e T) as Hxt by (rewrite <-HT1, <-Hp; apply elem_of_app; by left). by apply elem_of_tailq in Hxt as [? _].
      * constructor; [by rewrite Hkey|done].
Qed.

(** *** Adding *)

(** All of the frame but the clock. *)
Definition settings b := (bs_next b, bs_once b, bs_gotterm b, bs_break b, bs_event_tv b, bs_ncalls b, bs_monotonic b, bs_tv_cache b).
Lemma frame_settings b b' : frame b b' → settings b' = settings b.
Proof. unfold frame, settings. congruence. Qed.

(** What [gettime] depends on. *)
Definition clock b := (bs_tv_cache b, bs_now b, bs_ticks b).
Lemma frame_clock b b' : frame b b' → clock b' = clock b.
Proof. unfold frame, clock. congruence. Qed.
Lemma gettime_clock b b' : clock b' = clock b → (gettime b').1 = (gettime b).1 ∧ clock (gettime b').2 = clock (gettime b).2.
Proof.
  unfold clock. intros E. assert (bs_tv_cache b' = bs_tv_cache b ∧ bs_now b' = bs_now b ∧ bs_ticks b' = bs_ticks b) as (E1 & E2 & E3) by (split_and!; congruence).
  unfold gettime, read_clock. rewrite E1, E3. destruct (negb _); [done|]. destruct (bs_ticks b) eqn:Et; cbn; split; congruence.
Qed.
Lemma gettime_run b T I A :
  base_inv b T I A →
  ∃ now b', gettime b = (now, b') ∧ base_inv b' T I A ∧ bs_events b' = bs_events b ∧ bs_timeheap b' = bs_timeheap b ∧ settings b' = settings b
    ∧ bs_backend b' = bs_backend b.
Proof.
  intros Hb. unfold gettime, read_clock. destruct (negb _); [by exists (bs_tv_cache b), b|].
  destruct (bs_ticks b) as [|t ts]; [by exists (bs_now b), b|]. eexists t, _. split; [done|]. split_and!; try done. by destruct Hb.
Qed.

Lemma heap_inv_out h evs T e ev ev' :
  evs !! e = Some ev → e ∉ T → min_heap_idx ev' = min_heap_idx ev → heap_inv h evs T → heap_inv h (<[e := ev']> evs) T.
Proof.
  intros Hev He Hidx [Hn Ha Hf Hnd Hl Ho Hout]. assert (Hne : ∀ i x, T !! i = Some x → e ≠ x) by (intros i x Hx <-; by eapply He, list_elem_of_lookup_2).
  split; try done.
  - intros i x Hx. destruct (Hl i x Hx) as [Hp (evx & Hevx & Hix)]. split; [done|]. exists evx. split; [|done]. rewrite lookup_insert_ne; [done|by eapply Hne].
  - intros i x y Hi Hx Hy. unfold below, key_of. rewrite !lookup_insert_ne by (by eapply Hne). by apply (Ho i).
  - intros x evx Hx HxT. destruct (decide (e = x)) as [<-|]; [|rewrite lookup_insert_ne in Hx by done; by apply (Hout x evx)].
    rewrite lookup_insert_eq in Hx. injection Hx as <-. rewrite Hidx. by apply (Hout e ev).
Qed.
Lemma set_timeout_run e t b T I A ev :
  base_inv b T I A → bs_events b !! e = Some ev → e ∉ T →
  ∃ b', with_event e (set_timeout t) b = Ok b' ∧ base_inv b' T I A ∧ frame b b' ∧ bs_timeheap b' = bs_timeheap b ∧ bs_backend b' = bs_backend b
        ∧ bs_events b' = <[e := set_timeout t ev]> (bs_events b).
Proof.
  intros Hb Hev He. rewrite (with_event_run _ _ _ ev) by done. eexists. split; [done|]. split_and!; try done. split; try apply Hb.
  - by eapply heap_inv_out, Hb.
  - cbn. rewrite map_size_insert_Some; [apply Hb|by eexists].
  - eapply (events_ok_set T I A); [done|done|done|done|]. destruct (bi_event _ _ _ _ Hb e ev Hev). by split.
  - intros x Hx. cbn. destruct (decide (e = x)) as [<-|]; [rewrite lookup_insert_eq; by eexists|rewrite lookup_insert_ne by done; by apply (bi_live _ _ _ _ Hb)].
Qed.
Lemma key_timeout e t ev evs x :
  key_of (<[e := set_timeout t ev]> evs) x = if decide (x = e) then t else key_of evs x.
Proof. unfold key_of. case_decide as E; [subst; by rewrite lookup_insert_eq|by rewrite lookup_insert_ne]. Qed.

Lemma add_timeout_run room e tv b T I A ev :
  base_inv b T I A → bs_events b !! e = Some ev → (length (tailq_remove e T) < mh_a (bs_timeheap b))%nat →
  ∃ b' T', add_timeout room e tv b = Ok b'
    ∧ base_inv b' T' I (if hasb (ev_res ev) EV_TIMEOUT then tailq_remove e A else A) ∧ T' ≡ₚ e :: tailq_remove e T
    ∧ (∀ x, key_of (bs_events b') x = if decide (x = e) then evutil_timeradd (gettime b).1 tv else key_of (bs_events b) x)
    ∧ settings b' = settings b ∧ cbs b' = cbs b ∧ bs_backend b' = bs_backend b
    ∧ clock b' = clock (gettime b).2.
Proof.
  intros Hb Hev Hroom. unfold add_timeout. rewrite (the_event_run _ _ _ Hev). cbn [mbind res_bind].
  destruct (drop_timeout e ev b T I A Hb Hev) as (b1 & T1 & -> & Hb1 & HT1 & Hc1 & Hs1 & Ha1). cbn [mbind res_bind].
  destruct (calm_event b b1 e ev Hc1 Hev) as (ev1 & Hev1 & Hp1).
  assert (Hact : (if hasb (ev_flags ev) EVLIST_ACTIVE && hasb (ev_res ev) EV_TIMEOUT then b ← abort_loop ev b1; event_queue_remove e EVLIST_ACTIVE b else Ok b1)
               = (if hasb (ev_flags ev1) EVLIST_ACTIVE && hasb (ev_res ev) EV_TIMEOUT then event_queue_remove e EVLIST_ACTIVE b1 else Ok b1)).
  { assert (Hab : abort_loop ev b1 = Ok b1).
    { pose proof (bi_event _ _ _ _ Hb e ev Hev) as []. unfold abort_loop. destruct (ev_pncalls ev); [by rewrite eo_ncalls0|by rewrite andb_false_r]. }
    rewrite Hab. change EVLIST_ACTIVE with (flag 3).
    by rewrite (eo_active _ _ _ _ _ (bi_event _ _ _ _ Hb e ev Hev)), (eo_active _ _ _ _ _ (bi_event _ _ _ _ Hb1 e ev1 Hev1)). }
  rewrite Hact. destruct (drop_active (hasb (ev_res ev) EV_TIMEOUT) e ev1 b1 T1 I A Hb1 Hev1) as (b2 & A' & -> & Hb2 & -> & Hc2 & Hs2 & Ha2). cbn [mbind res_bind].
  assert (Hc : calm b b2) by (by trans b1). destruct (calm_event b b2 e ev Hc Hev) as (ev2 & Hev2 & _).
  destruct (gettime_clock b b2) as [Enow Eclk]; [apply frame_clock, Hc|].
  destruct (gettime_run b2 _ _ _ Hb2) as (now & b3 & Eg & Hb3 & Ee3 & Eh3 & Es3 & Ek3). rewrite Eg in Enow, Eclk |- *. cbn [fst snd] in Enow, Eclk.
  assert (HeT : e ∉ T1) by (rewrite HT1, elem_of_tailq; tauto).
  destruct (set_timeout_run e (evutil_timeradd now tv) b3 _ _ _ ev2 Hb3) as (b4 & -> & Hb4 & Hf4 & Eh4 & Ek4 & Ee4); [by rewrite Ee3|done|]. cbn [mbind res_bind].
  destruct (insert_timeout room e b4 _ _ _ Hb4 HeT) as (b5 & T' & -> & Hb5 & HT' & Hc5 & Ek5).
  { rewrite Ee4, lookup_insert_eq. by eexists. }
  { rewrite Eh4, Eh3, Ha2, Ha1, HT1. done. }
  exists b5, T'. split; [done|]. split; [done|]. split; [by rewrite HT', HT1|]. split_and!.
  - intros x. rewrite (calm_key _ _ x Hc5), Ee4, key_timeout, Ee3, Enow. case_decide; [done|]. by apply calm_key.
  - rewrite (frame_settings _ _ (proj1 Hc5)), (frame_settings _ _ Hf4), Es3. apply frame_settings, Hc.
  - rewrite (calm_cbs _ _ Hc5), <-(calm_cbs _ _ Hc). unfold cbs. rewrite Ee4, Ee3, fmap_insert.
    apply insert_id. by rewrite lookup_fmap, Hev2.
  - congruence.
  - by rewrite (frame_clock _ _ (proj1 Hc5)), (frame_clock _ _ Hf4).
Qed.

Lemma reserve_inv room h evs T n :
  heap_inv h evs T →
  let '(r, h') := min_heap_reserve room h n in
  r = -1 ∧ h' = h ∨ r = 0 ∧ heap_inv h' evs T ∧ (n ≤ mh_a h')%nat.
Proof.
  intros [Hn Ha Hf Hnd Hl Ho Hout]. pose proof (reserve_run room h n Ha) as H. destruct (min_heap_reserve room h n) as [r h'].
  destruct H as [(-> & -> & _)|(-> & En & Ea & Hlen & Hmore & Hkeep)]; [by left|right]. split; [done|]. split; [|lia].
  split; try done; [congruence|lia|]. intros i x Hx. destruct (Hl i x Hx) as [Hp Hev]. split; [by apply Hkeep|done].
Qed.
Lemma base_inv_heap h b T I A : base_inv b T I A → heap_inv h (bs_events b) T → base_inv (upd_bs_timeheap (λ _, h) b) T I A.
Proof. intros [] Hh. by split. Qed.

(** The part of [event_add] that hands the event to the backend. *)
Lemma add_inserted room e b T I A ev :
  base_inv b T I A → bs_events b !! e = Some ev →
  ∃ r b' I', add_io room e ev b = Ok (r, b')
    ∧ base_inv b' T I' A ∧ calm b b' ∧ bs_timeheap b' = bs_timeheap b ∧ (∀ x, x ∈ I' → x ∈ I ∨ x = e)
    ∧ (hasb (ev_events ev) (Z.lor EV_READ (Z.lor EV_WRITE EV_SIGNAL)) = false → r = 0 ∧ I' = I).
Proof.
  intros Hb Hev. unfold add_io. destruct (hasb (ev_events ev) _) eqn:Hio; cbn [andb]; [|exists 0, b, I; split_and!; try done; auto].
  change (Z.lor EVLIST_INSERTED EVLIST_ACTIVE) with (Z.lor (flag 1) (flag 3)). rewrite hasb_lor2 by lia.
  rewrite (eo_inserted _ _ _ _ _ (bi_event _ _ _ _ Hb e ev Hev)). destruct (decide (e ∈ I)) as [He|He];
    [rewrite bool_decide_true by done|rewrite bool_decide_false by done]; cbn [orb negb]; [exists 0, b, I; split_and!; try done; auto|].
  destruct (hasb (ev_flags ev) (flag 3)); cbn [negb]; [exists 0, b, I; split_and!; try done; auto|].
  destruct (evsel_add ev (bs_backend b)) as [r s']. cbv zeta. pose proof (base_inv_backend (λ _, s') b T I A Hb) as Hb1.
  destruct (negb (r =? -1)); [|exists r, (upd_bs_backend (λ _, s') b), I; split_and!; try done; auto].
  destruct (insert_inserted room e _ T I A Hb1 He) as (b2 & -> & Hb2 & Hc & _ & Ht); [by eexists|]. cbn [mbind res_bind].
  exists r, b2, (I ++ [e]). split_and!; try done. intros x. by rewrite elem_of_app, list_elem_of_singleton.
Qed.

(** What adding [e] with [tv] leaves. *)
Record added (e : nat) (tv : option timeval) (r : Z) b T b' T' : Prop := {
  ad_settings : settings b' = settings b;
  ad_cbs : cbs b' = cbs b;
  ad_timer t : tv = Some t → r ≠ -1 → T' ≡ₚ e :: tailq_remove e T
    ∧ (∀ x, key_of (bs_events b') x = if decide (x = e) then evutil_timeradd (gettime b).1 t else key_of (bs_events b) x)
    ∧ clock b' = clock (gettime b).2;
  ad_none : tv = None ∨ r = -1 → T' = T ∧ frame b b' ∧ ∀ x, key_of (bs_events b') x = key_of (bs_events b) x;
}.

Lemma event_add_run room e tv b T I A ev :
  base_inv b T I A → bs_events b !! e = Some ev →
  ∃ r b' T' I' A', event_add room e tv b = Ok (r, b') ∧ base_inv b' T' I' A' ∧ added e tv r b T b' T'
    ∧ (∀ x, x ∈ I' → x ∈ I ∨ x = e) ∧ (A' = A ∨ A' = tailq_remove e A)
    ∧ (hasb (ev_events ev) (Z.lor EV_READ (Z.lor EV_WRITE EV_SIGNAL)) = false → I' = I ∧ (r = 0 ∨ r = -1 ∧ ¬ ∀ n, room n = true)).
Proof.
  intros Hb Hev. pose proof (bi_event _ _ _ _ Hb e ev Hev) as Hok. unfold event_add. rewrite (the_event_run _ _ _ Hev). cbn [mbind res_bind].
  rewrite (eo_all _ _ _ _ _ Hok). cbn [negb Z.eqb].
  assert (Hres : ∃ r h, match tv with
                   | Some _ => if hasb (ev_flags ev) EVLIST_TIMEOUT then (0, bs_timeheap b)
                               else min_heap_reserve room (bs_timeheap b) (1 + min_heap_size (bs_timeheap b))
                   | None => (0, bs_timeheap b) end = (r, h)
    ∧ (r = -1 ∧ h = bs_timeheap b ∧ ¬ (∀ n, room n = true) ∨ r = 0 ∧ heap_inv h (bs_events b) T ∧ (is_Some tv → length (tailq_remove e T) < mh_a h)%nat)).
  { destruct tv as [t|]; [|eexists _, _; split; [done|]; right; split_and!; [done|apply Hb|by intros [? ?]]].
    change EVLIST_TIMEOUT with (flag 0). rewrite (eo_timeout _ _ _ _ _ Hok). pose proof (bi_heap _ _ _ _ Hb) as Hh. case_bool_decide as He.
    - eexists _, _. split; [done|]. right. split_and!; [done|done|]. intros _.
      pose proof (tailq_cons e T (hi_nodup _ _ _ Hh) He) as Hp. apply Permutation_length in Hp. cbn [length] in Hp. destruct Hh. lia.
    - pose proof (reserve_inv room _ _ T (1 + min_heap_size (bs_timeheap b)) Hh) as Hr.
      assert (Hroom : (∀ n, room n = true) → (min_heap_reserve room (bs_timeheap b) (1 + min_heap_size (bs_timeheap b))).1 ≠ -1).
      { intros Hall. unfold min_heap_reserve. destruct (_ <? _)%nat; [|done]. by rewrite Hall. }
      destruct (min_heap_reserve _ _ _) as [r h]. eexists _, _. split; [done|]. destruct Hr as [[-> ->]|(-> & Hh' & Hn)].
      + left. split_and!; [done|done|]. intros Hall. by apply (Hroom Hall).
      + right. split_and!; [done|done|]. intros _. rewrite tailq_not_in by done. unfold min_heap_size in Hn. rewrite (hi_n _ _ _ Hh) in Hn. lia. }
  destruct Hres as (r0 & h & -> & [(-> & -> & Hno)|(-> & Hh & Hcap)]).
  { change (-1 =? -1) with true. cbv iota. exists (-1), b, T, I, A. split_and!; [done|done| |auto|auto|auto]. split; try done. }
  change (0 =? -1) with false. cbv iota zeta. set (b0 := upd_bs_timeheap (λ _, h) b).
  assert (Hb0 : base_inv b0 T I A) by (by apply base_inv_heap).
  destruct (add_inserted room e b0 T I A ev Hb0 Hev) as (r & b1 & I' & -> & Hb1 & Hc1 & Ht1 & HI & Hpure). cbn [mbind res_bind].
  destruct (calm_event b0 b1 e ev Hc1 Hev) as (ev1 & Hev1 & _).
  assert (Hstay : added e tv r b T b1 T → ∃ r1 b' T' I2 A', Ok (r, b1) = Ok (r1, b') ∧ base_inv b' T' I2 A' ∧ added e tv r1 b T b' T'
    ∧ (∀ x, x ∈ I2 → x ∈ I ∨ x = e) ∧ (A' = A ∨ A' = tailq_remove e A)
    ∧ (hasb (ev_events ev) (Z.lor EV_READ (Z.lor EV_WRITE EV_SIGNAL)) = false → I2 = I ∧ (r1 = 0 ∨ r1 = -1 ∧ ¬ ∀ n, room n = true))).
  { intros Had. exists r, b1, T, I', A. split_and!; try done; [by left|]. intros Hf. destruct (Hpure Hf). auto. }
  assert (Hkeep : settings b1 = settings b ∧ cbs b1 = cbs b ∧ frame b b1 ∧ ∀ x, key_of (bs_events b1) x = key_of (bs_events b) x).
  { assert (Hf : frame b b1) by (trans b0; [done|apply Hc1]). split_and!; [by apply frame_settings|apply (calm_cbs b0 b1 Hc1)|done|intros x; apply (calm_key b0 b1 x Hc1)]. }
  destruct Hkeep as (Hset & Hdom & Hfr & Hkey). destruct tv as [t|]; [|apply Hstay; split; try done].
  destruct (Z.eqb_spec r (-1)) as [->|Hr]; cbn [negb]; [apply Hstay; split; try done|].
  destruct (add_timeout_run room e t b1 T I' A ev1 Hb1 Hev1) as (b2 & T' & -> & Hb2 & HT' & Hk2 & Hs2 & Hd2 & Hk & Hclk);
    [rewrite Ht1; by apply Hcap|]. cbn [mbind res_bind].
  exists r, b2, T', I', (if hasb (ev_res ev1) EV_TIMEOUT then tailq_remove e A else A). split_and!; try done.
  - split; [congruence|congruence| |intros [?|?]; done]. destruct (gettime_clock b b1) as [Enow Eclk]; [by apply frame_clock|].
    intros t' [= <-] _. split; [done|]. split; [|congruence]. intros x. rewrite Hk2, Enow. case_decide; [done|apply Hkey].
  - destruct (hasb (ev_res ev1) EV_TIMEOUT); auto.
  - intros Hf. destruct (Hpure Hf). auto.
Qed.

(** *** New events *)

Lemma members_live b T I A x : base_inv b T I A → x ∈ T ∨ x ∈ I ∨ x ∈ A → is_Some (bs_events b !! x).
Proof. intros Hb [Hx|Hx]; [by eapply heap_live; [apply Hb|]|]. apply (bi_live _ _ _ _ Hb). tauto. Qed.
Lemma new_event_ok (T I A : list nat) x ev :
  x ∉ T → x ∉ I → x ∉ A → ev_flags ev = EVLIST_INIT → ev_pri ev = O → ev_pncalls ev = false → event_ok T I A x ev.
Proof. intros HT HI HA Ef Ep En. split; rewrite ?Ef, ?Ep, ?En; rewrite ?bool_decide_false by done; done. Qed.
Lemma alloc_run x ev b T I A :
  base_inv b T I A → bs_events b !! x = None → Z.of_nat (S (size (bs_events b))) < 2 ^ 31 →
  min_heap_idx ev = NO_IDX → ev_flags ev = EVLIST_INIT → ev_pri ev = O → ev_pncalls ev = false →
  base_inv (upd_bs_events (λ m, <[x := ev]> m) b) T I A.
Proof.
  intros Hb Hx Hsz Hidx Ef Ep En.
  assert (Hno : (x ∉ T) ∧ (x ∉ I) ∧ (x ∉ A)).
  { split_and!; intros Hin; destruct (members_live b T I A x Hb) as [? ?]; auto; congruence. }
  destruct Hno as (HT & HI & HA). assert (Hne : ∀ y, is_Some (bs_events b !! y) → x ≠ y) by (intros y [? ?] <-; congruence). split; try apply Hb.
  - destruct (bi_heap _ _ _ _ Hb) as [Hn Ha Hf Hnd Hl Ho Hout]. split; try done.
    + intros i y Hy. destruct (Hl i y Hy) as [Hp (evy & Hevy & Hiy)]. split; [done|]. exists evy. cbn. rewrite lookup_insert_ne; [done|]. apply Hne. by eexists.
    + intros i y z Hi Hy Hz. unfold below, key_of. cbn. rewrite !lookup_insert_ne; [by apply (Ho i)|apply Hne|apply Hne];
        (eapply cell_live, Hl; done).
    + intros y evy. cbn. destruct (decide (x = y)) as [<-|]; [rewrite lookup_insert_eq; by intros [= <-]|]. rewrite lookup_insert_ne by done. apply Hout.
  - cbn. rewrite map_size_insert_None by done. lia.
  - intros y evy. cbn. destruct (decide (x = y)) as [<-|]; [rewrite lookup_insert_eq; intros [= <-]; by apply new_event_ok|].
    rewrite lookup_insert_ne by done. apply Hb.
  - intros y Hy. cbn. rewrite lookup_insert_ne; [by apply (bi_live _ _ _ _ Hb)|]. apply Hne. by apply (bi_live _ _ _ _ Hb).
Qed.
(** An event that is on no queue may be freed. *)
Lemma free_run x f b T I A :
  base_inv b T I A → x ∉ T → x ∉ I → x ∉ A → base_inv (upd_bs_events (λ m, delete x m) (upd_bs_once f b)) T I A.
Proof.
  intros Hb HT HI HA. split; try apply Hb.
  - destruct (bi_heap _ _ _ _ Hb) as [Hn Ha Hf Hnd Hl Ho Hout].
    assert (Hne : ∀ i y, T !! i = Some y → x ≠ y) by (intros i y Hy <-; by eapply HT, list_elem_of_lookup_2). split; try done.
    + intros i y Hy. destruct (Hl i y Hy) as [Hp (evy & Hevy & Hiy)]. split; [done|]. exists evy. cbn. rewrite lookup_delete_ne; [done|by eapply Hne].
    + intros i y z Hi Hy Hz. unfold below, key_of. cbn. rewrite !lookup_delete_ne by (by eapply Hne). by apply (Ho i).
    + intros y evy. cbn. intros [_ Hy]%lookup_delete_Some. by apply Hout.
  - cbn. pose proof (bi_size _ _ _ _ Hb). assert (size (delete x (bs_events b)) ≤ size (bs_events b))%nat; [|lia].
    rewrite <-!size_dom. apply subseteq_size. rewrite dom_delete_L. set_solver.
  - intros y evy. cbn. intros [_ Hy]%lookup_delete_Some. by apply Hb.
  - intros y Hy. cbn. rewrite lookup_delete_ne; [by apply (bi_live _ _ _ _ Hb)|]. intros <-. tauto.
Qed.

(** Addresses are fresh, and events set up once have their callback. *)
Record alloc_inv b : Prop := {
  al_fresh x : is_Some (cbs b !! x) → (x < bs_next b)%nat;
  al_once x p : cbs b !! x = Some (ONCE, p) → p = false ∧ is_Some (bs_once b !! x);
}.
Lemma cbs_live b x : is_Some (cbs b !! x) ↔ is_Some (bs_events b !! x).
Proof. unfold cbs. by rewrite lookup_fmap, fmap_is_Some. Qed.

Lemma one_queue b T I A : base_inv b T I A → (length (bs_activequeues b) / 2)%nat = O.
Proof. intros Hb. by rewrite (bi_active _ _ _ _ Hb). Qed.

End Invariant.
