(* ===== verification/EventRuns.v ===== *)
(** What the event loop guarantees: whatever the program adds and deletes, no
    operation fails and the queues stay in step with the flags of the events;
    the timers that are due, and only those, become active, in the order of
    their timeouts; and a turn of the loop, as the program calls it, returns. *)
From stdpp Require Import gmap.
From S2P Require Import Prelude Numeric MinHeap Events EventLoop.
#[local] Open Scope Z_scope.

(** ** Time *)

(** A time with its microseconds below one second. *)
Definition norm (t : timeval) : Prop := 0 <= tv_usec t < 1000000.
#[export] Instance norm_dec t : Decision (norm t).
Proof. unfold norm. apply _. Defined.
Definition total (t : timeval) : Z := tv_sec t * 1000000 + tv_usec t.

Lemma tv_gtb_total a c : norm a → norm c → tv_gtb a c = (total c <? total a).
Proof. unfold norm, tv_gtb, total. intros. destruct a, c; cbn in *. repeat case_match; try lia. Qed.
Lemma timeradd_norm a c : norm a → norm c → norm (evutil_timeradd a c).
Proof. unfold norm, evutil_timeradd. intros. case_match; cbn; lia. Qed.
Lemma timeradd_total a c : total (evutil_timeradd a c) = total a + total c.
Proof. unfold total, evutil_timeradd. case_match; cbn; lia. Qed.
Lemma timersub_norm a c : norm a → norm c → norm (evutil_timersub a c).
Proof. unfold norm, evutil_timersub. intros. case_match; cbn; lia. Qed.
Lemma timersub_total a c : total (evutil_timersub a c) = total a - total c.
Proof. unfold total, evutil_timersub. case_match; cbn; lia. Qed.
Lemma tv_le_total a c : norm a → norm c → tv_le a c ↔ total a <= total c.
Proof. intros. unfold tv_le. rewrite tv_gtb_total by done. lia. Qed.

Section Runs.
Context {B : Backend}.
Implicit Types (b : event_base) (T I A : list nat).

(** *** The clock goes back *)

Lemma shift_run off T : ∀ size i b,
  NoDup T → (length T = i + size)%nat →
  (∀ j x, T !! j = Some x → mh_get (bs_timeheap b) j = Ok x ∧ is_Some (bs_events b !! x)) →
  ∃ evs, shift_timeouts off size i b = Ok (upd_bs_events (λ _, evs) b)
    ∧ ∀ x, evs !! x = (if decide (x ∈ drop i T) then λ ev, set_timeout (evutil_timersub (ev_timeout ev) off) ev else id) <$> bs_events b !! x.
Proof.
  induction size as [|size IH]; intros i b Hnd Hlen Hget; cbn [shift_timeouts].
  { exists (bs_events b). split; [by destruct b|]. intros x. rewrite drop_ge by lia. rewrite decide_False by apply not_elem_of_nil. by destruct (_ !! x). }
  destruct (lookup_lt_is_Some_2 T i) as [e He]; [lia|]. destruct (Hget i e He) as [-> [ev Hev]]. cbn [mbind res_bind].
  rewrite (the_event_run _ _ _ Hev). cbn [mbind res_bind]. rewrite (with_event_run _ _ _ ev) by done. cbn [mbind res_bind].
  set (b1 := upd_bs_events _ b). destruct (IH (S i) b1) as (evs & -> & Hevs); [done|lia| |].
  { intros j x Hx. destruct (Hget j x Hx) as [Hg Hl]. split; [done|]. cbn. destruct (decide (e = x)) as [<-|]; [rewrite lookup_insert_eq; by eexists|by rewrite lookup_insert_ne]. }
  exists evs. split; [done|]. intros x. rewrite Hevs, (drop_S _ _ _ He). cbn.
  destruct (decide (e = x)) as [<-|Hne].
  - rewrite lookup_insert_eq, Hev. rewrite (decide_True (P := e ∈ e :: _)) by (by left). rewrite decide_False; [done|].
    rewrite <-(take_drop_middle T i e He) in Hnd. apply NoDup_app in Hnd as (_ & _ & [Hn _]%NoDup_cons). done.
  - rewrite lookup_insert_ne by done. destruct (decide (x ∈ drop (S i) T)) as [Hin|Hin].
    + rewrite decide_True by (by right). done.
    + rewrite decide_False; [done|]. intros [->|?]%elem_of_cons; done.
Qed.

(** The times of a base whose clock may go back. *)
Record timed b T : Prop := {
  td_cache : norm (bs_tv_cache b);
  td_now : norm (bs_now b);
  td_ticks : Forall norm (bs_ticks b);
  td_event : norm (bs_event_tv b);
  td_keys x : x ∈ T → norm (key_of (bs_events b) x);
}.
Definition times_ok b T : Prop := bs_monotonic b = true ∨ timed b T.
Lemma gettime_norm b T : timed b T → let '(t, b') := gettime b in norm t ∧ timed b' T.
Proof.
  intros [Hc Hn Ht He Hk]. unfold gettime, read_clock. destruct (negb _); [by split|].
  destruct (bs_ticks b) as [|t ts] eqn:Et; [split; [done|]; split; try done; by rewrite Et|].
  apply Forall_cons in Ht as [Ht Hts]. split; [done|]. by split.
Qed.

(** All of the base that neither the clock nor the queues change. *)
Definition core b := (bs_next b, bs_once b, bs_gotterm b, bs_break b, bs_ncalls b, bs_monotonic b).
Lemma settings_core b b' : settings b' = settings b → core b' = core b.
Proof. unfold settings, core. congruence. Qed.

(** The same heap, with all timeouts moved by [off]. *)
Lemma heap_inv_shift h evs evs' T off :
  norm off → (∀ x, x ∈ T → norm (key_of evs x)) →
  (∀ x, evs' !! x = (if decide (x ∈ T) then λ ev, set_timeout (evutil_timersub (ev_timeout ev) off) ev else id) <$> evs !! x) →
  heap_inv h evs T → heap_inv h evs' T.
Proof.
  intros Hoff Hk Hevs [Hn Ha Hf Hnd Hl Ho Hout].
  assert (Hkey : ∀ x, x ∈ T → is_Some (evs !! x) → key_of evs' x = evutil_timersub (key_of evs x) off).
  { intros x Hx [ev Hev]. unfold key_of. rewrite Hevs, decide_True, Hev by done. done. }
  split; try done.
  - intros i x Hx. destruct (Hl i x Hx) as [Hp (ev & Hev & Hi)]. split; [done|]. rewrite Hevs, Hev. cbn. eexists. split; [done|]. by case_decide.
  - intros i x y Hi Hx Hy. specialize (Ho i x y Hi Hx Hy). assert (HxT := list_elem_of_lookup_2 _ _ _ Hx). assert (HyT := list_elem_of_lookup_2 _ _ _ Hy).
    unfold below in *. rewrite !Hkey by (try done; eapply cell_live, Hl; done). apply tv_le_total in Ho; [|auto..].
    apply tv_le_total; [apply timersub_norm; auto..|]. rewrite !timersub_total. lia.
  - intros x ev' Hx HxT. rewrite Hevs, decide_False in Hx by done. destruct (evs !! x) as [ev|] eqn:E; [|done]. injection Hx as <-. by apply (Hout x ev).
Qed.
Lemma base_inv_shift b T I A off evs :
  norm off → (∀ x, x ∈ T → norm (key_of (bs_events b) x)) → base_inv b T I A →
  (∀ x, evs !! x = (if decide (x ∈ T) then λ ev, set_timeout (evutil_timersub (ev_timeout ev) off) ev else id) <$> bs_events b !! x) →
  base_inv (upd_bs_events (λ _, evs) b) T I A ∧ cbs (upd_bs_events (λ _, evs) b) = cbs b.
Proof.
  intros Hoff Hk Hb Hevs. set (b' := upd_bs_events _ b).
  assert (Hcbs : cbs b' = cbs b).
  { apply map_eq. intros x. unfold cbs. rewrite !lookup_fmap. cbn. rewrite Hevs. destruct (bs_events b !! x); [|done]. cbn. by case_decide. }
  split; [|done]. pose proof (cbs_dom b b' Hcbs) as Hdom. split; try apply Hb.
  - by eapply heap_inv_shift, Hb.
  - rewrite <-size_dom, Hdom, size_dom. apply Hb.
  - intros x ev' Hx. cbn in Hx. rewrite Hevs in Hx. destruct (bs_events b !! x) as [ev|] eqn:E; [|done]. injection Hx as <-.
    pose proof (bi_event _ _ _ _ Hb x ev E) as Hok. destruct (decide (x ∈ T)); [|done]. destruct Hok. by split.
  - intros x Hx. apply elem_of_dom. rewrite Hdom. apply elem_of_dom, (bi_live _ _ _ _ Hb x Hx).
Qed.

Lemma correct_run b T I A :
  base_inv b T I A → times_ok b T →
  ∃ b', timeout_correct b = Ok b' ∧ base_inv b' T I A ∧ times_ok b' T ∧ core b' = core b ∧ cbs b' = cbs b
    ∧ bs_tv_cache b' = bs_tv_cache b ∧ bs_backend b' = bs_backend b
    ∧ (bs_monotonic b = false → ∃ b1, gettime b = (bs_event_tv b', b1)
         ∧ ∀ x, x ∈ T → total (key_of (bs_events b') x)
                      = total (key_of (bs_events b) x) - Z.max 0 (total (bs_event_tv b) - total (bs_event_tv b'))).
Proof.
  intros Hb Hti. unfold timeout_correct. destruct (bs_monotonic b) eqn:Hm; [by exists b; split_and!; auto|].
  destruct Hti as [?|Htd]; [congruence|]. pose proof (gettime_norm b T Htd) as Hg.
  destruct (gettime_run b T I A Hb) as (t & b1 & Eg & Hb1 & Ee1 & Eh1 & Es1 & Ek1). rewrite Eg in Hg |- *. destruct Hg as [Hnt Htd1].
  assert (Ecore := settings_core _ _ Es1). assert (Hev : bs_event_tv b1 = bs_event_tv b ∧ bs_tv_cache b1 = bs_tv_cache b ∧ bs_monotonic b1 = bs_monotonic b) by (unfold settings in Es1; split_and!; congruence).
  destruct Hev as (Etv & Ecache & Emono).
  destruct (tv_gtb (bs_event_tv b1) t) eqn:Hgt; cbn [negb]; rewrite tv_gtb_total in Hgt by (try done; apply Htd1).
  - set (off := evutil_timersub (bs_event_tv b1) t).
    assert (Hoff : norm off) by (apply timersub_norm; [apply Htd1|done]).
    destruct (shift_run off T (mh_n (bs_timeheap b1)) 0 b1) as (evs & -> & Hevs).
    { apply Hb1. } { rewrite (hi_n _ _ _ (bi_heap _ _ _ _ Hb1)). lia. }
    { intros j x Hx. pose proof (hi_laid _ _ _ (bi_heap _ _ _ _ Hb1) j x Hx) as Hc. split; [by eapply cell_get|by eapply cell_live]. }
    cbn [mbind res_bind]. rewrite drop_0 in Hevs.
    destruct (base_inv_shift b1 T I A off evs Hoff) as [Hb2 Hcbs]; [apply Htd1|done|done|].
    assert (Hkey : ∀ x, x ∈ T → key_of evs x = evutil_timersub (key_of (bs_events b) x) off).
    { intros x Hx. destruct (heap_live _ _ _ x (bi_heap _ _ _ _ Hb) Hx) as [ev Hx']. unfold key_of. rewrite Hevs, decide_True, Ee1, Hx' by done. done. }
    eexists. split; [done|]. split_and!; try done.
    + by destruct Hb2.
    + right. destruct Htd1. split; try done. intros x Hx. cbn. rewrite Hkey by done. apply timersub_norm; [by apply Htd|done].
    + cbn. unfold cbs in *. cbn in *. by rewrite Hcbs, Ee1.
    + intros _. exists b1. split; [done|]. intros x Hx. cbn. rewrite Hkey by done. rewrite timersub_total. unfold off. rewrite timersub_total, Etv. rewrite Etv in Hgt. lia.
  - eexists. split; [done|]. split_and!; try done.
    + by destruct Hb1.
    + right. destruct Htd1. by split.
    + unfold cbs. cbn. by rewrite Ee1.
    + intros _. exists b1. split; [done|]. intros x Hx. cbn. rewrite Ee1. rewrite Etv in Hgt. lia.
Qed.

(** *** The whole invariant *)

Record well b T I A : Prop := {
  we_base : base_inv b T I A;
  we_alloc : alloc_inv b;
  we_times : times_ok b T;
}.
Lemma alloc_same b b' : cbs b' = cbs b → bs_next b' = bs_next b → bs_once b' = bs_once b → alloc_inv b → alloc_inv b'.
Proof. intros E1 E2 E3 [Hf Ho]. split; intros x; rewrite ?E1, ?E2, ?E3; [apply Hf|apply Ho]. Qed.
Lemma alloc_core b b' : cbs b' = cbs b → core b' = core b → alloc_inv b → alloc_inv b'.
Proof. intros E1 E2. unfold core in E2. apply alloc_same; [done|congruence..]. Qed.
Lemma times_same b b' T T' :
  clock b' = clock b → bs_monotonic b' = bs_monotonic b → bs_event_tv b' = bs_event_tv b →
  (∀ x, x ∈ T' → x ∈ T) → (∀ x, x ∈ T' → key_of (bs_events b') x = key_of (bs_events b) x) → times_ok b T → times_ok b' T'.
Proof.
  unfold clock. intros Ec Em Ee HT Hk [Hm|[H1 H2 H3 H4 H5]]; [left; congruence|right].
  assert (bs_tv_cache b' = bs_tv_cache b ∧ bs_now b' = bs_now b ∧ bs_ticks b' = bs_ticks b) as (E1 & E2 & E3) by (split_and!; congruence).
  split; rewrite ?E1, ?E2, ?E3, ?Ee; try done. intros x Hx. rewrite Hk by done. auto.
Qed.
Lemma times_frame b b' T T' :
  frame b b' → (∀ x, x ∈ T' → x ∈ T) → (∀ x, x ∈ T' → key_of (bs_events b') x = key_of (bs_events b) x) → times_ok b T → times_ok b' T'.
Proof. intros Hf. assert (Hc := frame_clock _ _ Hf). unfold frame in Hf. apply times_same; [done|congruence..]. Qed.
Lemma calls_cbs b b' : calls b b' → cbs b' = cbs b.
Proof.
  intros [_ H]. apply map_eq. intros x. unfold cbs. rewrite !lookup_fmap. specialize (H x).
  destruct (bs_events b !! x) as [ev|], (bs_events b' !! x) as [ev'|]; cbn in *; try done.
  change (cb_of ev') with (cb_of (steady ev')). assert (steady ev' = steady ev) as -> by congruence. done.
Qed.
Lemma calls_well b b' T I A T' I' A' : calls b b' → (∀ x, x ∈ T' → x ∈ T) → base_inv b' T' I' A' → well b T I A → well b' T' I' A'.
Proof.
  intros Hc HT Hb' [Hb Ha Ht]. split; [done| |].
  - pose proof (proj1 Hc) as Hf. unfold frame in Hf. eapply alloc_same, Ha; [by apply calls_cbs|congruence..].
  - eapply times_frame, Ht; [apply Hc|done|]. intros x _. by apply calls_key.
Qed.

Lemma del_well e b T I A :
  well b T I A → is_Some (bs_events b !! e) →
  ∃ r b' T', event_del e b = Ok (r, b') ∧ well b' T' (tailq_remove e I) (tailq_remove e A) ∧ T' ≡ₚ tailq_remove e T ∧ calm b b'.
Proof.
  intros Hw [ev Hev]. destruct (del_run e b T I A ev (we_base _ _ _ _ Hw) Hev) as (r & b' & T' & E & Hb' & HT & Hc & _).
  exists r, b', T'. split_and!; try done. eapply calls_well, Hw; [by apply calm_calls| |done]. intros x. rewrite HT, elem_of_tailq. tauto.
Qed.
Lemma active_well room e r b T I A :
  well b T I A → is_Some (bs_events b !! e) →
  ∃ b', event_active room e r 1 b = Ok b' ∧ well b' T I (if decide (e ∈ A) then A else A ++ [e]) ∧ calls b b'.
Proof.
  intros Hw Hev. destruct (active_run room e r b T I A (we_base _ _ _ _ Hw) Hev) as (b' & E & Hb' & Hc & _).
  exists b'. split_and!; try done. by eapply calls_well, Hw.
Qed.
Lemma gettime_well b T I A :
  well b T I A →
  ∃ now b', gettime b = (now, b') ∧ well b' T I A ∧ bs_events b' = bs_events b ∧ settings b' = settings b ∧ bs_backend b' = bs_backend b
    ∧ (bs_monotonic b = true ∨ norm now).
Proof.
  intros [Hb Ha Ht]. destruct (gettime_run b T I A Hb) as (now & b' & E & Hb' & Ee & _ & Es & Ek). exists now, b'.
  assert (Hcbs : cbs b' = cbs b) by (unfold cbs; by rewrite Ee). assert (Hco := settings_core _ _ Es).
  assert (Hn : times_ok b' T ∧ (bs_monotonic b = true ∨ norm now)).
  { destruct Ht as [Hm|Ht]; [split; left; [unfold core in Hco; congruence|done]|]. pose proof (gettime_norm b T Ht) as Hg. rewrite E in Hg. split; right; apply Hg. }
  split_and!; try done; [|apply Hn]. split; [done|by eapply alloc_core|apply Hn].
Qed.
Lemma process_well room b T I A :
  well b T I A →
  ∃ b' fired T', timeout_process room b = Ok b' ∧ well b' T' (others fired I) (others fired A ++ fired)
    ∧ due (gettime b).1 (key_of (bs_events b)) T fired T' ∧ cbs b' = cbs b ∧ settings b' = settings b
    ∧ ∀ x, key_of (bs_events b') x = key_of (bs_events b) x.
Proof.
  intros Hw. unfold timeout_process, min_heap_empty. rewrite (hi_n _ _ _ (bi_heap _ _ _ _ (we_base _ _ _ _ Hw))). destruct T as [|e T].
  { exists b, [], []. rewrite !others_nil, app_nil_r. cbn. split_and!; try done. split; try done; constructor. }
  cbn [length Nat.eqb]. destruct (gettime_well b _ _ _ Hw) as (now & b1 & -> & Hw1 & Ee & Es & _ & _).
  rewrite (hi_n _ _ _ (bi_heap _ _ _ _ (we_base _ _ _ _ Hw1))).
  destruct (timeout_loop_run room now (length (e :: T)) b1 _ _ _ (we_base _ _ _ _ Hw1)) as (b2 & fired & T' & -> & Hb2 & Hd & Hc); [done|].
  exists b2, fired, T'. split; [done|]. split; [|split_and!].
  - eapply calls_well, Hw1; [done| |done]. intros x Hx. rewrite <-(du_parts _ _ _ _ _ Hd), elem_of_app. by right.
  - by rewrite Ee in Hd.
  - rewrite (calls_cbs _ _ Hc). unfold cbs. by rewrite Ee.
  - rewrite <-Es. apply frame_settings, Hc.
  - intros x. by rewrite (calls_key _ _ x Hc), Ee.
Qed.

(** A timeout that keeps the heap in order when the clock goes back. *)
Definition tv_fit b (tv : option timeval) : Prop := bs_monotonic b = true ∨ ∀ t, tv = Some t → norm t.

Lemma add_well room e tv b T I A ev :
  well b T I A → bs_events b !! e = Some ev → tv_fit b tv →
  ∃ r b' T' I' A', event_add room e tv b = Ok (r, b') ∧ well b' T' I' A' ∧ added e tv r b T b' T'
    ∧ (∀ x, x ∈ T' → x ∈ T ∨ x = e) ∧ (∀ x, x ∈ I' → x ∈ I ∨ x = e) ∧ (A' = A ∨ A' = tailq_remove e A)
    ∧ (hasb (ev_events ev) (Z.lor EV_READ (Z.lor EV_WRITE EV_SIGNAL)) = false → I' = I ∧ (r = 0 ∨ r = -1 ∧ ¬ ∀ n, room n = true)).
Proof.
  intros Hw Hev Htv. destruct (event_add_run room e tv b T I A ev (we_base _ _ _ _ Hw) Hev) as (r & b' & T' & I' & A' & E & Hb' & Had & HI & HA & Hpure).
  assert (Hset := settings_core _ _ (ad_settings _ _ _ _ _ _ _ Had)). pose proof (ad_settings _ _ _ _ _ _ _ Had) as Hs.
  exists r, b', T', I', A'. split; [done|]. split; [|split_and!; try done].
  - split; [done|by eapply alloc_core, Hw; [apply Had|]|]. destruct (we_times _ _ _ _ Hw) as [Hm|Htd]; [left; unfold core in Hset; congruence|].
    destruct tv as [t|]; [|destruct (ad_none _ _ _ _ _ _ _ Had) as (-> & Hf & Hk); [by left|]; eapply times_frame, or_intror, Htd; [done|done|intros x _; apply Hk]].
    destruct (decide (r = -1)) as [Er|Er]; [destruct (ad_none _ _ _ _ _ _ _ Had) as (-> & Hf & Hk); [by right|]; eapply times_frame, or_intror, Htd; [done|done|intros x _; apply Hk]|].
    destruct (ad_timer _ _ _ _ _ _ _ Had t) as (HT & Hk & Hclk); [done|done|]. destruct Htv as [Hm|Hn]; [left; unfold core in Hset; congruence|].
    pose proof (gettime_norm b T Htd) as Hg. destruct (gettime b) as [now b1] eqn:Eg. cbn [fst snd] in *. destruct Hg as [Hnow [H1 H2 H3 _ _]]. right.
    unfold clock in Hclk. assert (bs_tv_cache b' = bs_tv_cache b1 ∧ bs_now b' = bs_now b1 ∧ bs_ticks b' = bs_ticks b1) as (E1 & E2 & E3) by (split_and!; congruence).
    split; rewrite ?E1, ?E2, ?E3; try done.
    + assert (bs_event_tv b' = bs_event_tv b) as -> by (unfold settings in Hs; congruence). apply Htd.
    + intros x. rewrite HT, elem_of_cons, elem_of_tailq, Hk. intros Hx. case_decide; [apply timeradd_norm; auto|]. apply Htd. tauto.
  - intros x Hx. destruct tv as [t|]; [|destruct (ad_none _ _ _ _ _ _ _ Had) as (-> & _ & _); [by left|]; by left].
    destruct (decide (r = -1)) as [Er|Er]; [destruct (ad_none _ _ _ _ _ _ _ Had) as (-> & _ & _); [by right|]; by left|].
    destruct (ad_timer _ _ _ _ _ _ _ Had t) as (HT & _); [done|done|]. rewrite HT, elem_of_cons, elem_of_tailq in Hx. tauto.
Qed.

Lemma fresh_next b x : alloc_inv b → is_Some (bs_events b !! x) → x ≠ bs_next b.
Proof. intros Ha Hx ->. apply cbs_live, (al_fresh _ Ha) in Hx. lia. Qed.
Lemma next_none b : alloc_inv b → bs_events b !! bs_next b = None.
Proof. intros Ha. destruct (bs_events b !! bs_next b) eqn:E; [|done]. exfalso. by eapply (fresh_next b (bs_next b)); [|rewrite E; by eexists|]. Qed.

(** A new event at the next address. *)
Definition with_new (ev : event) (f : gmap nat nat → gmap nat nat) b : event_base :=
  upd_bs_next S (upd_bs_events (λ m, <[bs_next b := ev]> m) (upd_bs_once f b)).
Lemma new_well ev f b T I A :
  well b T I A → Z.of_nat (S (size (bs_events b))) < 2 ^ 31 →
  min_heap_idx ev = NO_IDX → ev_flags ev = EVLIST_INIT → ev_pri ev = O → ev_pncalls ev = false →
  (∀ x, x ≠ bs_next b → f (bs_once b) !! x = bs_once b !! x) → (ev_callback ev = ONCE → hasb (ev_events ev) EV_PERSIST = false ∧ is_Some (f (bs_once b) !! bs_next b)) →
  well (with_new ev f b) T I A.
Proof.
  intros [Hb Ha Ht] Hsz Hi Hf Hp Hn Hold Hnew. pose proof (next_none b Ha) as Hno. split.
  - pose proof (alloc_run (bs_next b) ev b T I A Hb Hno Hsz Hi Hf Hp Hn) as H. by destruct H.
  - unfold with_new. split; intros x; unfold cbs; cbn; rewrite lookup_fmap; (destruct (decide (x = bs_next b)) as [->|Hne];
      [rewrite lookup_insert_eq|rewrite lookup_insert_ne, <-lookup_fmap by done]).
    + lia.
    + intros Hx. pose proof (al_fresh _ Ha x Hx). lia.
    + cbn. intros p [= Hcb <-]. by apply Hnew.
    + intros p Hx. rewrite Hold by done. by apply (al_once _ Ha).
  - eapply times_same, Ht; try done. intros x Hx. unfold key_of. cbn. rewrite lookup_insert_ne; [done|]. intros <-.
    destruct (members_live b T I A (bs_next b) Hb) as [? ?]; [by left|congruence].
Qed.
Lemma free_well x f b T I A :
  well b T I A → x ∉ T → x ∉ I → x ∉ A → (∀ y, y ≠ x → f (bs_once b) !! y = bs_once b !! y) →
  well (upd_bs_events (λ m, delete x m) (upd_bs_once f b)) T I A.
Proof.
  intros [Hb Ha Ht] HT HI HA Hold. split; [by apply free_run| |].
  - split; intros y; unfold cbs; cbn; rewrite lookup_fmap; (destruct (decide (y = x)) as [->|Hne];
      [rewrite lookup_delete_eq|rewrite lookup_delete_ne, <-lookup_fmap by done]); try (by intros [? ?]); try done.
    + apply (al_fresh _ Ha).
    + intros p. rewrite Hold by done. apply (al_once _ Ha).
  - eapply times_same, Ht; try done. intros y Hy. unfold key_of. cbn. rewrite lookup_delete_ne; [done|]. by intros <-.
Qed.

(** *** What the program does to the base *)

(** What the loop itself keeps in the base. *)
Definition loop_fields b := (bs_gotterm b, bs_break b, bs_ncalls b, bs_monotonic b, bs_tv_cache b, bs_event_tv b).
Definition out (x : nat) T I A : Prop := (x ∉ T) ∧ (x ∉ I) ∧ (x ∉ A).
Record kept b T I A b' T' I' A' : Prop := {
  kp_fields : loop_fields b' = loop_fields b;
  kp_active x : x ∈ A' → x ∈ A;
  kp_once x : cbs b !! x = Some (ONCE, false) → out x T I A → cbs b' !! x = Some (ONCE, false) ∧ out x T' I' A';
  kp_stay x : cbs b !! x = Some (ONCE, false) → x ∈ A → cbs b' !! x = Some (ONCE, false) ∧ x ∈ A';
  kp_next : (bs_next b ≤ bs_next b')%nat;
  kp_gone x : (x < bs_next b)%nat → cbs b !! x = None → cbs b' !! x = None;
}.
Lemma kept_refl b T I A : kept b T I A b T I A.
Proof. by split. Qed.
Lemma kept_trans b1 T1 I1 A1 b2 T2 I2 A2 b3 T3 I3 A3 :
  kept b1 T1 I1 A1 b2 T2 I2 A2 → kept b2 T2 I2 A2 b3 T3 I3 A3 → kept b1 T1 I1 A1 b3 T3 I3 A3.
Proof.
  intros [F1 H1 O1 S1 N1 G1] [F2 H2 O2 S2 N2 G2]. split; [congruence|auto| | |lia|].
  - intros x Hx Ho. destruct (O1 x Hx Ho). by apply O2.
  - intros x Hx Ho. destruct (S1 x Hx Ho). by apply S2.
  - intros x Hx Hg. apply G2; [lia|]. by apply G1.
Qed.
Lemma settings_fields b b' : settings b' = settings b → loop_fields b' = loop_fields b.
Proof. unfold settings, loop_fields. congruence. Qed.
(** [e], which was not set up once, may change queues. *)
Lemma kept_other e b T I A b' T' I' A' :
  settings b' = settings b → cbs b' = cbs b → cbs b !! e ≠ Some (ONCE, false) →
  (∀ x, x ∈ T' → x ∈ T ∨ x = e) → (∀ x, x ∈ I' → x ∈ I ∨ x = e) → (A' = A ∨ A' = tailq_remove e A) → kept b T I A b' T' I' A'.
Proof.
  intros Hs Hc He HT HI HA. assert (HA' : ∀ x, x ∈ A' → x ∈ A) by (intros x; destruct HA as [->| ->]; [done|rewrite elem_of_tailq; tauto]).
  split; rewrite ?Hc; [by apply settings_fields|done| | |unfold settings in Hs; assert (bs_next b' = bs_next b) by congruence; lia|done].
  - intros x Hx (H1 & H2 & H3). assert (x ≠ e) by (intros ->; done). split; [done|]. split_and!; [intros Hin%HT|intros Hin%HI|intros Hin%HA']; tauto.
  - intros x Hx Hin. split; [done|]. destruct HA as [->| ->]; [done|]. rewrite elem_of_tailq. split; [done|]. by intros ->.
Qed.
(** Nothing but structures that are not on a queue changes. *)
Lemma kept_alloc b T I A b' T' :
  loop_fields b' = loop_fields b → (bs_next b ≤ bs_next b')%nat → (∀ x, (x < bs_next b)%nat → cbs b' !! x = cbs b !! x) → alloc_inv b →
  (∀ x, x ∈ T' → x ∈ T ∨ (bs_next b ≤ x)%nat) → kept b T I A b' T' I A.
Proof.
  intros Hf Hn Hc Ha HT. assert (Hold : ∀ x cb, cbs b !! x = Some cb → (x < bs_next b)%nat) by (intros x cb Hx; apply (al_fresh _ Ha); by eexists).
  split; [done|done| | |done|].
  - intros x Hx (H1 & H2 & H3). pose proof (Hold x _ Hx). rewrite Hc by done. split; [done|]. split_and!; [|done|done]. intros [?|?]%HT; [done|lia].
  - intros x Hx Hin. by rewrite Hc by (by eapply Hold).
  - intros x Hx. by rewrite Hc.
Qed.

(** There is no room for 2^31 events. *)
Definition bounded (mem : nat → bool) : Prop := ∀ n, mem n = true → Z.of_nat (S n) < 2 ^ 31.

Lemma base_set_run ev f b :
  ev_flags ev = EVLIST_INIT → ev_pri ev = (length (bs_activequeues b) / 2)%nat →
  event_base_set (bs_next b) (with_new ev f b) = Ok (0, with_new ev f b).
Proof.
  intros Hf Hp. unfold event_base_set. rewrite (the_event_run _ _ ev) by apply lookup_insert_eq. cbn [mbind res_bind]. rewrite Hf, Z.eqb_refl. cbn [negb].
  rewrite (with_event_run _ _ _ ev) by apply lookup_insert_eq. cbn [mbind res_bind]. change (bs_activequeues (with_new ev f b)) with (bs_activequeues b).
  rewrite <-Hp. do 2 f_equal. unfold with_new, upd_bs_next, upd_bs_events, upd_bs_once. cbn. rewrite insert_insert_eq. by destruct ev.
Qed.

Lemma once_well mem room cb t b T I A :
  well b T I A → bounded mem → tv_fit b (Some t) →
  ∃ r b' T', event_base_once mem room (-1) EV_TIMEOUT cb (Some t) b = Ok (r, b') ∧ well b' T' I A ∧ kept b T I A b' T' I A
    ∧ (r = -1 ∧ T' ≡ₚ T ∧ ¬ ((∀ n, room n = true) ∧ mem (size (bs_events b)) = true)
       ∨ r = 0 ∧ T' ≡ₚ bs_next b :: T ∧ bs_once b' = <[bs_next b := cb]> (bs_once b) ∧ bs_next b' = S (bs_next b)
         ∧ cbs b' !! bs_next b = Some (ONCE, false)
         ∧ ∀ x, key_of (bs_events b') x = if decide (x = bs_next b) then evutil_timeradd (gettime b).1 t else key_of (bs_events b) x).
Proof.
  intros Hw Hmem Htv. unfold event_base_once. change (hasb EV_TIMEOUT EV_SIGNAL) with false. cbv iota.
  destruct (mem (size (bs_events b))) eqn:Em; cbn [negb].
  2: { exists (-1), b, T. split; [done|]. split; [done|]. split; [apply kept_refl|]. left. split_and!; [done|done|]. by intros []. }
  change (EV_TIMEOUT =? EV_TIMEOUT) with true. cbv iota zeta. change (default tv_zero (Some t)) with t. set (e := bs_next b). set (ev := event_set (-1) 0 ONCE b).
  set (f := λ m : gmap nat nat, <[e := cb]> m). change (upd_bs_next _ _) with (with_new ev f b).
  assert (Epri : ev_pri ev = O) by apply (one_queue b T I A), Hw.
  assert (Hw1 : well (with_new ev f b) T I A).
  { apply new_well; try done; [by apply Hmem|intros x Hx; by apply lookup_insert_ne|intros _; unfold f; rewrite lookup_insert_eq; split; [done|by eexists]]. }
  unfold e. rewrite base_set_run by done. cbn [mbind res_bind]. change (0 =? 0) with true. cbv iota. fold e.
  assert (Hev : bs_events (with_new ev f b) !! e = Some ev) by apply lookup_insert_eq.
  assert (Hout : out e T I A).
  { assert (Hno := next_none b (we_alloc _ _ _ _ Hw)). split_and!; intros Hin; destruct (members_live b T I A e (we_base _ _ _ _ Hw)) as [? ?]; auto; unfold e in *; congruence. }
  destruct (add_well room e (Some t) _ T I A ev Hw1 Hev Htv) as (r & b2 & T' & I' & A' & -> & Hw2 & Had & HT & HI & HA & Hpure). cbn [mbind res_bind].
  destruct (Hpure eq_refl) as [-> Hr]. clear Hpure HI.
  assert (A' = A) as -> by (destruct HA as [->| ->]; [done|]; apply tailq_not_in, Hout).
  assert (Hset : loop_fields b2 = loop_fields b) by apply (settings_fields (with_new ev f b)), Had.
  assert (Hcbs : ∀ x, x ≠ e → cbs b2 !! x = cbs b !! x).
  { intros x Hx. rewrite (ad_cbs _ _ _ _ _ _ _ Had). unfold cbs, with_new. cbn. rewrite !lookup_fmap, lookup_insert_ne by done. done. }
  destruct Hr as [->|[-> Hroom]].
  - change (negb (0 =? 0)) with false. cbv iota. destruct (ad_timer _ _ _ _ _ _ _ Had t) as (HT' & Hk & _); [done|done|].
    rewrite tailq_not_in in HT' by apply Hout. pose proof (ad_settings _ _ _ _ _ _ _ Had) as Hs. unfold settings in Hs. injection Hs as En Eo _ _ _ _ _ _.
    exists 0, b2, T'. split; [done|]. split; [done|]. split.
    + apply kept_alloc; [done|cbn in En; lia|intros x Hx; apply Hcbs; unfold e; lia|apply Hw|]. intros x. rewrite HT', elem_of_cons. intros [->|?]; [right; unfold e; lia|by left].
    + right. split_and!; try done; [rewrite (ad_cbs _ _ _ _ _ _ _ Had); unfold cbs, with_new; cbn; by rewrite lookup_fmap, lookup_insert_eq|].
      intros x. rewrite Hk, (proj1 (gettime_clock b (with_new ev f b) eq_refl)).
      destruct (decide (x = e)); [done|]. unfold key_of, with_new. cbn. by rewrite lookup_insert_ne.
  - change (negb (-1 =? 0)) with true. cbv iota. destruct (ad_none _ _ _ _ _ _ _ Had) as (-> & _ & _); [by right|].
    pose proof (ad_settings _ _ _ _ _ _ _ Had) as Hs. unfold settings in Hs. injection Hs as En _ _ _ _ _ _ _.
    eexists (-1), _, T. split; [done|]. split; [|split].
    + apply free_well; try apply Hout; [done|]. intros y Hy. by apply lookup_delete_ne.
    + apply kept_alloc; [done|cbn in En |- *; lia| |apply Hw|auto]. intros x Hx. unfold cbs. cbn. rewrite lookup_fmap, lookup_delete_ne by (unfold e; lia).
      rewrite <-lookup_fmap. fold (cbs b2). apply Hcbs. unfold e. lia.
    + left. split_and!; [done|done|]. tauto.
Qed.

(** What the program may do: it sets up events of its own, adds, deletes and
    frees them, and has callbacks called once after a time.  It does not know the
    events that [event_base_once] sets up. *)
Inductive program_step b : event_base → Prop :=
  | step_set fd events cb :
      cb ≠ ONCE → Z.of_nat (S (size (bs_events b))) < 2 ^ 31 → program_step b (with_new (event_set fd events cb b) id b)
  | step_add room e tv cb r b' :
      cbs b !! e = Some cb → cb.1 ≠ ONCE → tv_fit b tv → event_add room e tv b = Ok (r, b') → program_step b b'
  | step_del e cb r b' : cbs b !! e = Some cb → cb.1 ≠ ONCE → event_del e b = Ok (r, b') → program_step b b'
  | step_once mem room cb t r b' :
      bounded mem → tv_fit b (Some t) → event_base_once mem room (-1) EV_TIMEOUT cb (Some t) b = Ok (r, b') → program_step b b'
  | step_free e ev :
      bs_events b !! e = Some ev → ev_callback ev ≠ ONCE →
      hasb (ev_flags ev) EVLIST_TIMEOUT = false → hasb (ev_flags ev) EVLIST_INSERTED = false → hasb (ev_flags ev) EVLIST_ACTIVE = false →
      program_step b (upd_bs_events (λ m, delete e m) (upd_bs_once id b)).

Lemma live_cb b e cb : cbs b !! e = Some cb → is_Some (bs_events b !! e).
Proof. intros H. apply cbs_live. by eexists. Qed.
Lemma step_well b T I A b' :
  well b T I A → program_step b b' → ∃ T' I' A', well b' T' I' A' ∧ kept b T I A b' T' I' A'.
Proof.
  intros Hw [fd events cb Hcb Hsz|room e tv cb r b1 Hcb Hne Htv Hrun|e cb r b1 Hcb Hne Hrun|mem room cb t r b1 Hmem Htv Hrun|e ev Hev Hne F0 F1 F3].
  - exists T, I, A. split; [apply new_well; try done; by apply (one_queue b T I A), Hw|].
    apply kept_alloc; [done|cbn; lia| |apply Hw|auto]. intros x Hx. unfold cbs, with_new. cbn. rewrite lookup_fmap, lookup_insert_ne, <-lookup_fmap by lia. done.
  - destruct (live_cb b e cb Hcb) as [ev Hev]. destruct (add_well room e tv b T I A ev Hw Hev Htv) as (r' & b2 & T' & I' & A' & E & Hw' & Had & HT & HI & HA & _).
    rewrite E in Hrun. injection Hrun as <- <-. exists T', I', A'. split; [done|]. apply (kept_other e); try done; [apply Had|apply Had|]. rewrite Hcb. by intros [= ->].
  - destruct (del_well e b T I A Hw (live_cb b e cb Hcb)) as (r' & b2 & T' & E & Hw' & HT & Hc). rewrite E in Hrun. injection Hrun as <- <-.
    exists T', (tailq_remove e I), (tailq_remove e A). split; [done|].
    apply (kept_other e); [apply frame_settings, Hc|by apply calm_cbs|rewrite Hcb; by intros [= ->]| | |by right]; intros x; rewrite ?HT, elem_of_tailq; tauto.
  - destruct (once_well mem room cb t b T I A Hw Hmem Htv) as (r' & b2 & T' & E & Hw' & Hk & _). rewrite E in Hrun. injection Hrun as <- <-. by exists T', I, A.
  - pose proof (bi_event _ _ _ _ (we_base _ _ _ _ Hw) e ev Hev) as Hok.
    change EVLIST_TIMEOUT with (flag 0) in F0. change EVLIST_INSERTED with (flag 1) in F1. change EVLIST_ACTIVE with (flag 3) in F3.
    rewrite (eo_timeout _ _ _ _ _ Hok) in F0. rewrite (eo_inserted _ _ _ _ _ Hok) in F1. rewrite (eo_active _ _ _ _ _ Hok) in F3.
    apply bool_decide_eq_false in F0, F1, F3. exists T, I, A. split; [by apply free_well|].
    assert (Hc : cbs (upd_bs_events (λ m, delete e m) (upd_bs_once id b)) = delete e (cbs b)) by (unfold cbs; cbn; apply fmap_delete).
    assert (Hn : ∀ x, cbs b !! x = Some (ONCE, false) → delete e (cbs b) !! x = Some (ONCE, false)).
    { intros x Hx. rewrite lookup_delete_ne; [done|]. intros <-. unfold cbs in Hx. rewrite lookup_fmap, Hev in Hx. cbn in Hx. unfold cb_of in Hx. congruence. }
    split; rewrite ?Hc; try done; [by split; [apply Hn|]..|]. intros x _ Hx. rewrite lookup_delete_None. by right.
Qed.
Lemma steps_well b b' : rtc program_step b b' → ∀ T I A, well b T I A → ∃ T' I' A', well b' T' I' A' ∧ kept b T I A b' T' I' A'.
Proof.
  induction 1 as [b|b1 b2 b3 Hs _ IH]; intros T I A Hw; [exists T, I, A; split; [done|apply kept_refl]|].
  destruct (step_well b1 T I A b2 Hw Hs) as (T2 & I2 & A2 & Hw2 & Hk2). destruct (IH T2 I2 A2 Hw2) as (T3 & I3 & A3 & Hw3 & Hk3).
  exists T3, I3, A3. split; [done|]. by eapply kept_trans.
Qed.

(** What the base does between the steps of the program. *)
Inductive base_step b : event_base → Prop :=
  | base_program b' : program_step b b' → base_step b b'
  | base_ready room e what b' : e ∈ bs_eventqueue b → event_active room e what 1 b = Ok b' → base_step b b'
  | base_timeouts room b' : timeout_process room b = Ok b' → base_step b b'
  | base_correct b' : timeout_correct b = Ok b' → base_step b b'.

Lemma new_base_well s mono now ticks :
  mono = true ∨ norm now ∧ Forall norm ticks → well (event_base_new s mono now ticks) [] [] [].
Proof.
  intros Hn. unfold event_base_new, gettime, read_clock. cbn [bs_tv_cache tv_sec tv_zero Z.eqb negb bs_ticks]. split.
  - assert (Hh : heap_inv min_heap_ctor (∅ : events) []) by (apply heap_inv_new; intros x ev Hx; by rewrite lookup_empty in Hx).
    destruct ticks as [|t ts]; split; try done; try (by intros x ev Hx; cbn in Hx; rewrite lookup_empty in Hx);
      try (by intros x [Hx|Hx]; apply elem_of_nil in Hx); constructor.
  - destruct ticks as [|t ts]; split; intros x; unfold cbs; cbn; rewrite fmap_empty, lookup_empty; try done; intros [? ?]; done.
  - destruct Hn as [->|[Hn Ht]]; [left; by destruct ticks|right]. destruct ticks as [|t ts]; cbn.
    + by split; cbn.
    + apply Forall_cons in Ht as [? ?]. by split; cbn.
Qed.
Lemma base_step_well b b' T I A : well b T I A → base_step b b' → ∃ T' I' A', well b' T' I' A'.
Proof.
  intros Hw [b1 Hs|room e what b1 He Hrun|room b1 Hrun|b1 Hrun].
  - destruct (step_well b T I A b1 Hw Hs) as (T' & I' & A' & Hw' & _). by exists T', I', A'.
  - rewrite (bi_queue _ _ _ _ (we_base _ _ _ _ Hw)) in He. destruct (active_well room e what b T I A Hw) as (b2 & E & Hw' & _).
    { eapply members_live; [apply Hw|]. auto. }
    rewrite E in Hrun. injection Hrun as <-. by eexists _, _, _.
  - destruct (process_well room b T I A Hw) as (b2 & fired & T' & E & Hw' & _). rewrite E in Hrun. injection Hrun as <-. by eexists _, _, _.
  - destruct Hw as [Hb Ha Ht]. destruct (correct_run b T I A Hb Ht) as (b2 & E & Hb' & Ht' & Hco & Hcb & _). rewrite E in Hrun. injection Hrun as <-.
    exists T, I, A. split; [done|by eapply alloc_core|done].
Qed.
Lemma base_steps_well b b' : rtc base_step b b' → ∀ T I A, well b T I A → ∃ T' I' A', well b' T' I' A'.
Proof.
  induction 1 as [b|b1 b2 b3 Hs _ IH]; intros T I A Hw; [by exists T, I, A|].
  destruct (base_step_well b1 b2 _ _ _ Hw Hs) as (T1 & I1 & A1 & Hw1). by eapply IH.
Qed.

(** Freeing a base takes every event off its queues. *)
Lemma free_events_run l : ∀ b T I A,
  well b T I A → Forall (λ x, is_Some (bs_events b !! x)) l →
  ∃ b' T', free_events l b = Ok b' ∧ well b' T' (others l I) (others l A) ∧ T' ≡ₚ others l T.
Proof.
  induction l as [|e l IH]; intros b T I A Hw Hl; cbn [free_events].
  { exists b, T. rewrite !others_nil. by split_and!. }
  apply Forall_cons in Hl as [[ev Hev] Hl]. rewrite (the_event_run _ _ _ Hev). cbn [mbind res_bind]. change EVLIST_INTERNAL with (flag 4).
  rewrite (eo_internal _ _ _ _ _ (bi_event _ _ _ _ (we_base _ _ _ _ Hw) e ev Hev)).
  destruct (del_well e b T I A Hw) as (r & b1 & T1 & -> & Hw1 & HT1 & Hc); [by eexists|]. cbn [mbind res_bind].
  destruct (IH b1 T1 _ _ Hw1) as (b' & T' & -> & Hw' & HT'); [eapply Forall_impl, (λ x, calm_live b b1 x Hc); done|].
  exists b', T'. rewrite !others_cons. split_and!; [done|done|]. rewrite HT'. unfold others. by rewrite HT1.
Qed.
Lemma others_all l l' : (∀ x, x ∈ l' → x ∈ l) → others l l' = [].
Proof. intros H. unfold others. induction l' as [|x l' IH]; [done|]. rewrite filter_cons_False; [apply IH; intros y Hy; apply H; by right|]. intros Hx. apply Hx, H. by left. Qed.
Lemma free_timers_run fuel : ∀ b T I A,
  well b T I A → (length T ≤ fuel)%nat →
  ∃ b' I' A', free_timers fuel b = Ok b' ∧ well b' [] I' A' ∧ (I = [] → I' = []).
Proof.
  induction fuel as [|fuel IH]; intros b T I A Hw Hf; cbn [free_timers]; [destruct T; [|cbn in Hf; lia]; by exists b, I, A|].
  pose proof (top_run b T I A (we_base _ _ _ _ Hw)) as Htop. destruct T as [|e T0] eqn:ET; [rewrite Htop; by exists b, I, A|].
  destruct Htop as [-> _]. rewrite <-ET in *. cbn [mbind res_bind]. assert (He : e ∈ T) by (rewrite ET; by left).
  destruct (del_well e b T I A Hw) as (r & b1 & T1 & -> & Hw1 & HT1 & _); [by eapply heap_live; [apply Hw|]|]. cbn [mbind res_bind].
  assert (Hl := tailq_length e T (hi_nodup _ _ _ (bi_heap _ _ _ _ (we_base _ _ _ _ Hw))) He).
  destruct (IH b1 T1 _ _ Hw1) as (b' & I' & A' & -> & Hw' & HI); [rewrite HT1; lia|]. exists b', I', A'. split_and!; [done|done|]. intros ->. by apply HI.
Qed.
Lemma free_run_all b T I A : well b T I A → ∃ b', event_base_free b = Ok b' ∧ well b' [] [] [].
Proof.
  intros Hw. unfold event_base_free. rewrite (bi_queue _ _ _ _ (we_base _ _ _ _ Hw)).
  destruct (free_events_run I b T I A Hw) as (b1 & T1 & -> & Hw1 & HT1).
  { apply Forall_forall. intros x Hx. apply (members_live b T I A x (we_base _ _ _ _ Hw)). auto. }
  cbn [mbind res_bind]. rewrite (others_all I I) in Hw1 by done. rewrite (hi_n _ _ _ (bi_heap _ _ _ _ (we_base _ _ _ _ Hw1))).
  destruct (free_timers_run (length T1) b1 T1 [] _ Hw1) as (b2 & I2 & A2 & -> & Hw2 & HI2); [done|]. rewrite (HI2 eq_refl) in Hw2. cbn [mbind res_bind].
  rewrite (bi_active _ _ _ _ (we_base _ _ _ _ Hw2)). cbn [length free_queues]. rewrite (bi_active _ _ _ _ (we_base _ _ _ _ Hw2)). cbn [lookup list_lookup].
  destruct (free_events_run A2 b2 [] [] A2 Hw2) as (b3 & T3 & -> & Hw3 & HT3).
  { apply Forall_forall. intros x Hx. apply (members_live b2 [] [] A2 x (we_base _ _ _ _ Hw2)). auto. }
  cbn [mbind res_bind]. rewrite (others_all A2 A2) in Hw3 by done. apply Permutation_nil_r in HT3 as ->. exists b3. split; [|done].
  unfold min_heap_empty. by rewrite (bi_active _ _ _ _ (we_base _ _ _ _ Hw3)), (hi_n _ _ _ (bi_heap _ _ _ _ (we_base _ _ _ _ Hw3))), (bi_queue _ _ _ _ (we_base _ _ _ _ Hw3)).
Qed.

(** C19: from a new base, whatever sequence of events the program sets
    up, adds, deletes and frees, and whichever inserted events become ready and
    timers run out in between, the base stays consistent: the heap holds the
    events flagged as timers in the order of their timeouts, the queues hold the
    ones flagged as inserted and as active, once each, and the counters count
    them.  Times are normalised and fit their type throughout.  No operation on an event that exists then fails or touches memory that
    was freed: adding and deleting return, and so do handling the timeouts and
    correcting the clock; and the base can be freed at any time, which takes every
    event off its queues, as the asserts at the end of event_base_free demand. *)
Theorem events_consistent (s : backend) (mono : bool) (now : timeval) (ticks : list timeval) (b : event_base) :
  mono = true ∨ norm now ∧ Forall norm ticks → rtc base_step (event_base_new s mono now ticks) b →
  (∃ T I A, base_inv b T I A)
  ∧ (∀ room e tv, is_Some (bs_events b !! e) → tv_fit b tv → ∃ r b', event_add room e tv b = Ok (r, b'))
  ∧ (∀ e, is_Some (bs_events b !! e) → ∃ r b', event_del e b = Ok (r, b'))
  ∧ (∀ room e what, is_Some (bs_events b !! e) → ∃ b', event_active room e what 1 b = Ok b')
  ∧ (∀ room, ∃ b', timeout_process room b = Ok b')
  ∧ (∃ b', timeout_correct b = Ok b')
  ∧ ∃ b', event_base_free b = Ok b' ∧ base_inv b' [] [] [].
Proof.
  intros Hn Hrun. assert (∃ T I A, well b T I A) as (T & I & A & Hw).
  { apply (base_steps_well _ _ Hrun [] [] []). by apply new_base_well. }
  split_and!.
  - exists T, I, A. apply Hw.
  - intros room e tv [ev Hev] Htv. destruct (add_well room e tv b T I A ev Hw Hev Htv) as (r & b' & ? & ? & ? & E & _). by exists r, b'.
  - intros e He. destruct (del_well e b T I A Hw He) as (r & b' & ? & E & _). by exists r, b'.
  - intros room e what He. destruct (active_well room e what b T I A Hw He) as (b' & E & _). by exists b'.
  - intros room. destruct (process_well room b T I A Hw) as (b' & ? & ? & E & _). by exists b'.
  - destruct (correct_run b T I A) as (b' & E & _); [apply Hw..|]. by exists b'.
  - destruct (free_run_all b T I A Hw) as (b' & E & Hw'). exists b'. split; [done|apply Hw'].
Qed.

(** C20: handling the timeouts of a consistent base at the time [now]
    makes exactly the timers whose timeout has passed active, in the order of
    their timeouts, after the events that were active before; they leave the heap
    and the queue of inserted events, every other timer stays, with the timeout
    it had. *)
Theorem timers_fire_in_order (room : nat → bool) (b : event_base) (T I A : list nat) :
  base_inv b T I A →
  ∃ b' fired T', timeout_process room b = Ok b' ∧ base_inv b' T' (others fired I) (others fired A ++ fired)
    ∧ fired ++ T' ≡ₚ T ∧ StronglySorted (λ x y, tv_le (key_of (bs_events b) x) (key_of (bs_events b) y)) fired
    ∧ (∀ x, x ∈ T → x ∈ fired ↔ tv_le (key_of (bs_events b) x) (gettime b).1)
    ∧ ∀ x, key_of (bs_events b') x = key_of (bs_events b) x.
Proof.
  intros Hb. unfold timeout_process, min_heap_empty. rewrite (hi_n _ _ _ (bi_heap _ _ _ _ Hb)). destruct T as [|e T].
  { exists b, [], []. rewrite !others_nil, app_nil_r. cbn. split_and!; try done; [constructor|]. intros x Hx. by apply elem_of_nil in Hx. }
  cbn [length Nat.eqb]. destruct (gettime_run b _ _ _ Hb) as (now & b1 & -> & Hb1 & Ee & _). cbn [fst]. rewrite (hi_n _ _ _ (bi_heap _ _ _ _ Hb1)).
  destruct (timeout_loop_run room now (length (e :: T)) b1 _ _ _ Hb1) as (b2 & fired & T' & -> & Hb2 & Hd & Hc); [done|]. rewrite Ee in Hd.
  exists b2, fired, T'. split_and!; try done; [apply Hd|apply Hd| |intros x; by rewrite (calls_key _ _ x Hc), Ee].
  intros x Hx. destruct Hd as [Hp _ Hdue Hlater]. rewrite Forall_forall in Hdue, Hlater. rewrite <-Hp, elem_of_app in Hx. unfold tv_le.
  split; [apply Hdue|]. intros Hle. destruct Hx as [Hx|Hx]; [done|]. apply Hlater in Hx. congruence.
Qed.

(** When the clock went back, by [d] microseconds since the base last
    read it, every timeout is moved back by the same [d]; when it did not, no
    timeout moves.  The heap of timers stays in order.  This needs the times to
    have their microseconds below one second. *)
Theorem clock_back_moves_timers (b : event_base) (T I A : list nat) :
  base_inv b T I A → bs_monotonic b = false → timed b T →
  ∃ b', timeout_correct b = Ok b' ∧ base_inv b' T I A ∧ bs_event_tv b' = (gettime b).1
    ∧ ∀ x, x ∈ T → total (key_of (bs_events b') x)
                 = total (key_of (bs_events b) x) - Z.max 0 (total (bs_event_tv b) - total (gettime b).1).
Proof.
  intros Hb Hm Ht. destruct (correct_run b T I A Hb (or_intror Ht)) as (b' & E & Hb' & _ & _ & _ & _ & _ & Hmove).
  destruct (Hmove Hm) as (b1 & Eg & Hk). exists b'. rewrite Eg. by split_and!.
Qed.
End Runs.

(** ** The loop *)

(** A program whose callbacks do what programs may do to the base. *)
Class Program {B : Backend} {C : Callbacks} :=
  callback_steps cb fd what b T I A : well b T I A → ∃ b', run_callback cb fd what b = Ok b' ∧ rtc program_step b b'.

Section Turn.
Context {B : Backend} {C : Callbacks} {P : Program}.
Implicit Types (b : event_base) (T I A : list nat).

(** What one event of the queue leaves: the event [e] is no longer active, and is
    freed when it was set up once. *)
Definition turn_fields b := (bs_gotterm b, bs_break b, bs_monotonic b, bs_tv_cache b, bs_event_tv b).
Record served b A b' A' : Prop := {
  sv_fields : turn_fields b' = turn_fields b;
  sv_active x : x ∈ A' → x ∈ A;
  sv_once x : cbs b !! x = Some (ONCE, false) → x ∈ A → x ∈ A' ∧ cbs b' !! x = Some (ONCE, false) ∨ (x ∉ A') ∧ cbs b' !! x = None;
  sv_next : (bs_next b ≤ bs_next b')%nat;
  sv_gone x : (x < bs_next b)%nat → cbs b !! x = None → cbs b' !! x = None;
}.

Lemma well_ncalls n b T I A : well b T I A → well (upd_bs_ncalls (λ _, n) b) T I A.
Proof. intros [Hb Ha Ht]. split; [by destruct Hb|by eapply alloc_same, Ha|]. by eapply times_same, Ht. Qed.
(** Off the queue, before its callback is called. *)
Lemma take_off e b T I A ev :
  well b T I (e :: A) → bs_events b !! e = Some ev →
  ∃ b' T' I', (if hasb (ev_events ev) EV_PERSIST then event_queue_remove e EVLIST_ACTIVE b else '(_, b) ← event_del e b; Ok b) = Ok b'
    ∧ well b' T' I' A ∧ calm b b' ∧ (hasb (ev_events ev) EV_PERSIST = false → out e T' I' A).
Proof.
  intros Hw Hev. pose proof (bi_nodup_A _ _ _ _ (we_base _ _ _ _ Hw)) as [Hne Hnd]%NoDup_cons.
  assert (EA : tailq_remove e (e :: A) = A).
  { unfold tailq_remove. rewrite filter_cons_False by (intros H; by apply H). by apply tailq_not_in. }
  destruct (hasb (ev_events ev) EV_PERSIST).
  - destruct (remove_active e b T I (e :: A) (we_base _ _ _ _ Hw)) as (b' & -> & Hb' & Hc & _); [by left|]. rewrite EA in Hb'.
    exists b', T, I. split_and!; try done. eapply calls_well, Hw; [by apply calm_calls|done|done].
  - destruct (del_well e b T I (e :: A) Hw) as (r & b' & T' & -> & Hw' & HT & Hc); [by eexists|]. rewrite EA in Hw'. cbn [mbind res_bind].
    exists b', T', (tailq_remove e I). split_and!; try done. intros _. split_and!; [rewrite HT|..|done]; rewrite elem_of_tailq; tauto.
Qed.

(** The base while the callback of [e] runs. *)
Definition calling e ev b : event_base := upd_bs_events (λ m, <[e := set_res (ev_res ev) 0 true ev]> m) (upd_bs_ncalls (λ _, Some 0) b).
Lemma calling_well e ev b T I A :
  well b T I A → bs_events b !! e = Some ev → e ∉ A → well (calling e ev b) T I A ∧ cbs (calling e ev b) = cbs b.
Proof.
  intros Hw Hev He. pose proof (well_ncalls (Some 0) _ _ _ _ Hw) as Hw0.
  destruct (set_res_run e (ev_res ev) 0 true _ T I A ev (we_base _ _ _ _ Hw0) Hev) as (b' & E & Hb' & Hc & _); [done|done|].
  rewrite (with_event_run _ _ _ ev) in E by done. injection E as <-. split; [by eapply calls_well, Hw0|]. apply (calls_cbs _ _ Hc).
Qed.
Lemma calls_loop_one fuel e ev b :
  bs_events b !! e = Some ev → ev_ncalls ev = 1 →
  (b ← with_event e (set_res (ev_res ev) (ev_ncalls ev) true) (upd_bs_ncalls (λ _, Some (ev_ncalls ev)) b); calls_loop (S fuel) e b)
  = (b ← call_event e (set_res (ev_res ev) 1 true ev) (calling e ev b); if bs_break b then Ok (Some (true, b)) else calls_loop fuel e b).
Proof.
  intros Hev Hn. rewrite Hn, (with_event_run _ _ _ ev) by done. cbn [mbind res_bind calls_loop bs_ncalls upd_bs_events upd_bs_ncalls].
  change (1 =? 0) with false. cbv iota. rewrite (the_event_run _ _ (set_res (ev_res ev) 1 true ev)) by apply lookup_insert_eq. cbn [mbind res_bind].
  rewrite (with_event_run _ _ _ (set_res (ev_res ev) 1 true ev)) by apply lookup_insert_eq. cbn [mbind res_bind].
  unfold calling, upd_bs_ncalls, upd_bs_events. cbn. rewrite insert_insert_eq. done.
Qed.

(** The callback of [e], which is off the queues when it was set up once. *)
Lemma call_well e ev b T I A :
  well b T I A → bs_events b !! e = Some ev → e ∉ A → (cb_of ev = (ONCE, false) → out e T I A) →
  ∃ b' T' I' A', call_event e (set_res (ev_res ev) 1 true ev) (calling e ev b) = Ok b' ∧ well b' T' I' A' ∧ bs_ncalls b' = Some 0
    ∧ served b A b' A' ∧ (cb_of ev = (ONCE, false) → cbs b' !! e = None).
Proof.
  intros Hw Hev He Hout. destruct (calling_well e ev b T I A Hw Hev He) as [Hw1 Hc1]. set (b1 := calling e ev b) in *.
  assert (Hcb : cbs b !! e = Some (cb_of ev)) by (unfold cbs; by rewrite lookup_fmap, Hev).
  assert (Hf : turn_fields b1 = turn_fields b) by done. assert (Hn1 : bs_next b1 = bs_next b) by done.
  assert (Hserved : ∀ b2 T2 I2 A2, kept b1 T I A b2 T2 I2 A2 → served b A b2 A2 ∧ bs_ncalls b2 = Some 0).
  { intros b2 T2 I2 A2 [Kf Ka _ Ks Kn Kg]. unfold loop_fields in Kf. split; [|change (Some 0) with (bs_ncalls b1); congruence].
    rewrite Hc1 in Ks, Kg. split; [unfold turn_fields in *; congruence|done| |lia|by rewrite <-Hn1].
    intros x Hx Hin. left. destruct (Ks x Hx Hin). done. }
  unfold call_event. cbn [set_res ev_callback ev_fd ev_res]. destruct (Nat.eqb_spec (ev_callback ev) ONCE) as [Eo|Eo].
  - assert (Hal : hasb (ev_events ev) EV_PERSIST = false ∧ is_Some (bs_once b1 !! e)).
    { apply (al_once _ (we_alloc _ _ _ _ Hw1) e). rewrite Hc1, Hcb. unfold cb_of. by rewrite Eo. }
    destruct Hal as [Hp [cb Hcb1]]. assert (Ecb : cb_of ev = (ONCE, false)) by (unfold cb_of; congruence). rewrite Hcb1.
    destruct (callback_steps cb (ev_fd ev) (ev_res ev) b1 T I A Hw1) as (b2 & -> & Hsteps). cbn [mbind res_bind].
    destruct (steps_well b1 b2 Hsteps T I A Hw1) as (T2 & I2 & A2 & Hw2 & Hk). destruct (Hserved b2 T2 I2 A2 Hk) as [Hs Hn].
    destruct (kp_once _ _ _ _ _ _ _ _ Hk e) as [_ (O1 & O2 & O3)]; [by rewrite Hc1, Hcb, Ecb|by apply Hout|].
    assert (Hd : ∀ f, cbs (upd_bs_events (λ m, delete e m) (upd_bs_once f b2)) = delete e (cbs b2)) by (intros f; unfold cbs; cbn; apply fmap_delete).
    eexists _, T2, I2, A2. split; [done|]. split; [apply free_well; try done; intros y Hy; by apply lookup_delete_ne|]. split; [done|]. rewrite Hd. split.
    + destruct Hs as [S1 S2 S3 S4 S5]. split; [done|done| |done|].
      * intros x Hx Hin. rewrite Hd, lookup_delete_ne by (intros <-; done). auto.
      * intros x Hx Hg. rewrite Hd, lookup_delete_None. auto.
    + intros _. apply lookup_delete_eq.
  - destruct (callback_steps (ev_callback ev) (ev_fd ev) (ev_res ev) b1 T I A Hw1) as (b2 & -> & Hsteps).
    destruct (steps_well b1 b2 Hsteps T I A Hw1) as (T2 & I2 & A2 & Hw2 & Hk). destruct (Hserved b2 T2 I2 A2 Hk) as [Hs Hn].
    exists b2, T2, I2, A2. split_and!; try done. unfold cb_of. congruence.
Qed.

Lemma served_trans b1 A1 b2 A2 b3 A3 : alloc_inv b1 → served b1 A1 b2 A2 → served b2 A2 b3 A3 → served b1 A1 b3 A3.
Proof.
  intros Ha [F1 H1 O1 N1 G1] [F2 H2 O2 N2 G2]. split; [congruence|auto| |lia|].
  - intros x Hx Hin. assert (x < bs_next b1)%nat by (apply (al_fresh _ Ha); by eexists). destruct (O1 x Hx Hin) as [[Hi Hc]|[Hi Hc]]; [by apply O2|].
    right. split; [auto|]. apply G2; [lia|done].
  - intros x Hx Hg. apply G2; [lia|]. by apply G1.
Qed.

Lemma active_one e b T I A :
  well b T I (e :: A) → bs_break b = false →
  ∃ b' T' I' A', well b' T' I' A' ∧ served b (e :: A) b' A' ∧ (length A' ≤ length A)%nat
    ∧ ∀ fuel, (2 ≤ fuel)%nat → active_loop (S fuel) 0 b = active_loop fuel 0 b'.
Proof.
  intros Hw Hbr. destruct (members_live b T I (e :: A) e (we_base _ _ _ _ Hw)) as [ev Hev]; [right; right; by left|].
  pose proof (bi_nodup_A _ _ _ _ (we_base _ _ _ _ Hw)) as [Hne _]%NoDup_cons.
  destruct (take_off e b T I A ev Hw Hev) as (b0 & T0 & I0 & Eoff & Hw0 & Hc & Hout). destruct (calm_event b b0 e ev Hc Hev) as (ev0 & Hev0 & Hpl).
  destruct (plain_fields _ _ Hpl) as (_ & En & _ & Ee). pose proof (eo_one _ _ _ _ _ (bi_event _ _ _ _ (we_base _ _ _ _ Hw) e ev Hev)) as Hone. rewrite Hone in En by (by left).
  assert (Ecb : cbs b0 = cbs b) by (by apply calm_cbs). assert (Hev' : cbs b !! e = Some (cb_of ev0)) by (rewrite <-Ecb; unfold cbs; by rewrite lookup_fmap, Hev0).
  destruct (call_well e ev0 b0 T0 I0 A Hw0 Hev0 Hne) as (b1 & T1 & I1 & A1 & Ecall & Hw1 & Hn1 & [S1 S2 S3 S4 S5] & Hfree).
  { unfold cb_of. intros [= _ Hp]. apply Hout. congruence. }
  pose proof (proj1 Hc) as Hf. unfold frame in Hf. assert (Etf : turn_fields b0 = turn_fields b) by (unfold turn_fields; congruence).
  assert (Enx : bs_next b0 = bs_next b) by congruence.
  exists b1, T1, I1, A1. split; [done|]. split; [|split].
  - rewrite Ecb in S3, S5. rewrite Enx in S4, S5. split; [congruence|intros x Hx; right; auto| |done|done].
    intros x Hx [->|Hin]%elem_of_cons; [|auto]. right. split; [intros ?%S2; done|]. apply Hfree. congruence.
  - assert (Hsub : A1 ⊆ A) by (intros x; apply S2). apply submseteq_length, NoDup_submseteq; [apply Hw1|done].
  - intros fuel Hfu. cbn [active_loop]. rewrite (bi_active _ _ _ _ (we_base _ _ _ _ Hw)). cbn [lookup list_lookup].
    rewrite (the_event_run _ _ _ Hev). cbn [mbind res_bind]. rewrite Eoff. cbn [mbind res_bind]. rewrite (the_event_run _ _ _ Hev0). cbn [mbind res_bind].
    destruct fuel as [|fuel]; [lia|]. pose proof (calls_loop_one fuel e ev0 b0 Hev0 En) as Hcalls. rewrite Ecall in Hcalls.
    rewrite (with_event_run _ _ _ ev0) in Hcalls |- * by done. cbn [mbind res_bind] in Hcalls |- *. rewrite Hcalls.
    assert (Hb1 : bs_break b1 = false) by (unfold turn_fields in *; congruence). rewrite Hb1.
    destruct fuel as [|fuel]; [lia|]. cbn [calls_loop]. rewrite Hn1. change (0 =? 0) with true. cbv iota. cbn [mbind res_bind]. done.
Qed.
Lemma active_loop_run fuel : ∀ b T I A,
  well b T I A → bs_break b = false → (length A + 2 ≤ fuel)%nat →
  ∃ b' T' I', active_loop fuel 0 b = Ok (Some b') ∧ well b' T' I' [] ∧ served b A b' [].
Proof.
  induction fuel as [|fuel IH]; intros b T I A Hw Hbr Hf; [lia|]. destruct A as [|e A].
  - exists b, T, I. cbn [active_loop]. rewrite (bi_active _ _ _ _ (we_base _ _ _ _ Hw)). cbn. split_and!; [done|done|]. split; try done. intros x _ Hx. by apply elem_of_nil in Hx.
  - destruct (active_one e b T I A Hw Hbr) as (b1 & T1 & I1 & A1 & Hw1 & Hs1 & Hl & Hrun). cbn [length] in Hf. rewrite Hrun by lia.
    assert (bs_break b1 = false) by (pose proof (sv_fields _ _ _ _ Hs1) as Hfi; unfold turn_fields in Hfi; congruence).
    destruct (IH b1 T1 I1 A1) as (b2 & T2 & I2 & E & Hw2 & Hs2); [done|done|lia|]. exists b2, T2, I2. split_and!; [done|done|]. eapply served_trans; [apply Hw|done|done].
Qed.

(** *** A turn *)

Lemma well_cache f b T I A : well b T I A → (timed b T → norm (f (bs_tv_cache b))) → well (upd_bs_tv_cache f b) T I A.
Proof.
  intros [Hb Ha Ht] Hn. split; [by destruct Hb|by eapply alloc_same, Ha|]. destruct Ht as [?|Ht]; [by left|right]. pose proof (Hn Ht). destruct Ht. by split.
Qed.
Lemma well_event_tv t b T I A : well b T I A → (timed b T → norm t) → well (upd_bs_event_tv (λ _, t) b) T I A.
Proof.
  intros [Hb Ha Ht] Hn. split; [by destruct Hb|by eapply alloc_same, Ha|]. destruct Ht as [?|Ht]; [by left|right]. pose proof (Hn Ht). destruct Ht. by split.
Qed.
Lemma well_clear b T I A : well b T I A → well (clear_cache b) T I A.
Proof. intros Hw. apply well_cache; [done|]. intros []. done. Qed.
Lemma well_backend s b T I A : well b T I A → well (upd_bs_backend (λ _, s) b) T I A.
Proof. intros [Hb Ha Ht]. split; [by apply base_inv_backend|by eapply alloc_same, Ha|by eapply times_same, Ht]. Qed.
(** Reading the clock into the base. *)
Lemma gettime_into b T I A :
  well b T I A → ∃ now b', gettime b = (now, b') ∧ well b' T I A ∧ (timed b' T → norm now) ∧ bs_events b' = bs_events b ∧ settings b' = settings b
    ∧ bs_backend b' = bs_backend b ∧ (bs_ticks b = [] → tv_sec (bs_tv_cache b) = 0 → now = bs_now b ∧ b' = b).
Proof.
  intros Hw. destruct (gettime_well b T I A Hw) as (now & b' & E & Hw' & Ee & Es & Ek & Hn). exists now, b'. split_and!; try done.
  - intros Ht. destruct Hn as [Hm|?]; [|done]. revert Hw' Ht. unfold gettime, read_clock in E. destruct (negb _); [injection E as <- <-; by intros _ []|].
    destruct (bs_ticks b) as [|t ts]; injection E as <- <-; by intros _ [].
  - intros Et Ec. unfold gettime, read_clock in E. rewrite Ec, Et in E. cbn in E. by injection E as <- <-.
Qed.

Lemma activate_run room ready : ∀ b T I A,
  well b T I A → Forall (λ p, p.1 ∈ I) ready →
  ∃ b' A', activate room ready b = Ok b' ∧ well b' T I A' ∧ calls b b' ∧ (∀ x, x ∈ A → x ∈ A') ∧ (length A' ≤ length A + length ready)%nat.
Proof.
  induction ready as [|[e what] ready IH]; intros b T I A Hw Hr; [exists b, A; split_and!; try done; cbn; lia|].
  apply Forall_cons in Hr as [He Hr]. cbn [activate]. destruct (active_well room e what b T I A Hw) as (b1 & -> & Hw1 & Hc1).
  { apply (members_live b T I A e (we_base _ _ _ _ Hw)). auto. }
  cbn [mbind res_bind]. destruct (IH b1 T I _ Hw1 Hr) as (b2 & A2 & -> & Hw2 & Hc2 & Hin & Hl). exists b2, A2. split_and!; try done.
  - by trans b1.
  - intros x Hx. apply Hin. case_decide; [done|]. apply elem_of_app. by left.
  - cbn [length]. case_decide; [lia|]. rewrite length_app in Hl. cbn [length] in Hl. lia.
Qed.
Lemma due_length now key T fired T' : due now key T fired T' → (length fired ≤ length T)%nat.
Proof. intros [Hp _ _ _]. rewrite <-Hp, length_app. lia. Qed.

(** The events left after the timeouts are handled: either none is active, or
    each is called. *)
Lemma process_round fuel b T I A :
  well b T I A → bs_break b = false → (length A + 2 ≤ fuel)%nat →
  ∃ b' T' I', (if negb (bs_count_active b =? 0) then
      r ← event_process_active fuel b;
      match r with
      | None => Ok None
      | Some b => if (bs_count_active b =? 0) && hasb (Z.lor EVLOOP_ONCE EVLOOP_NONBLOCK) EVLOOP_ONCE then Ok (Some (Some 0, clear_cache b)) else Ok (Some (None, b))
      end
    else if hasb (Z.lor EVLOOP_ONCE EVLOOP_NONBLOCK) EVLOOP_NONBLOCK then Ok (Some (Some 0, clear_cache b)) else Ok (Some (None, b)))
    = Ok (Some (Some 0, clear_cache b')) ∧ well b' T' I' [] ∧ served b A b' [].
Proof.
  intros Hw Hbr Hf. rewrite (bi_count_active _ _ _ _ (we_base _ _ _ _ Hw)). destruct A as [|e A].
  { exists b, T, I. split_and!; [done|done|]. split; try done. intros x _ Hx. by apply elem_of_nil in Hx. }
  change (negb (Z.of_nat (length (e :: A)) =? 0)) with true. cbv iota. unfold event_process_active.
  rewrite (bi_active _ _ _ _ (we_base _ _ _ _ Hw)). cbn [first_queue].
  destruct (active_loop_run fuel b T I (e :: A) Hw Hbr Hf) as (b' & T' & I' & -> & Hw' & Hs). cbn [mbind res_bind option_map].
  rewrite (bi_count_active _ _ _ _ (we_base _ _ _ _ (well_ncalls None _ _ _ _ Hw'))).
  eexists (upd_bs_ncalls (λ _, None) b'), T', I'. split; [done|]. split; [by apply well_ncalls|]. destruct Hs. by split.
Qed.

(** The flags with which the main loop of the program calls the event loop. *)
Definition POLL : Z := Z.lor EVLOOP_ONCE EVLOOP_NONBLOCK.
(** What the backend would report now are events that were given to it. *)
Definition ready b : list (nat * Z) := (evsel_dispatch (Some tv_zero) (bs_backend b)).1.2.
Definition ready_inserted b : Prop := Forall (λ p, p.1 ∈ bs_eventqueue b) (ready b).

(** From the dispatch of the backend to the end of the round. *)
Lemma dispatched room fuel b T I A :
  well b T I A → bs_break b = false → tv_sec (bs_tv_cache b) = 0 → (length A + length T + 2 ≤ fuel)%nat →
  ∃ b' T' I', (let '(now, b) := gettime b in
      b ← timeout_process room (upd_bs_tv_cache (λ _, now) b);
      if negb (bs_count_active b =? 0) then
        r ← event_process_active fuel b;
        match r with
        | None => Ok None
        | Some b => if (bs_count_active b =? 0) && hasb POLL EVLOOP_ONCE then Ok (Some (Some 0, clear_cache b)) else Ok (Some (None, b))
        end
      else if hasb POLL EVLOOP_NONBLOCK then Ok (Some (Some 0, clear_cache b)) else Ok (Some (None, b))) = Ok (Some (Some 0, clear_cache b'))
    ∧ well b' T' I' [] ∧ (bs_gotterm b', bs_break b') = (bs_gotterm b, bs_break b)
    ∧ (∀ x, cbs b !! x = Some (ONCE, false) →
         x ∈ A ∨ x ∈ T ∧ bs_ticks b = [] ∧ tv_sec (bs_now b) ≠ 0 ∧ tv_le (key_of (bs_events b) x) (bs_now b) → cbs b' !! x = None).
Proof.
  intros Hw Hbr Hca Hf. destruct (gettime_into b T I A Hw) as (now & b1 & -> & Hw1 & Hn & Ee1 & Es1 & _ & Hnow).
  pose proof (well_cache (λ _, now) b1 T I A Hw1 Hn) as Hw2. set (b2 := upd_bs_tv_cache _ b1) in *.
  destruct (process_well room b2 T I A Hw2) as (b3 & fired & T3 & -> & Hw3 & Hd & Hc3 & Es3 & _). cbn [mbind res_bind].
  pose proof (due_length _ _ _ _ _ Hd) as Hl.
  assert (Hlo : (length (others fired A) ≤ length A)%nat) by (unfold others; apply length_filter).
  assert (E1 : (bs_gotterm b1, bs_break b1) = (bs_gotterm b, bs_break b)) by (unfold settings in Es1; congruence).
  assert (E3 : (bs_gotterm b3, bs_break b3) = (bs_gotterm b, bs_break b)) by (unfold settings in Es3; cbn in Es3; congruence).
  destruct (process_round fuel b3 T3 _ _ Hw3) as (b4 & T4 & I4 & E & Hw4 & Hs4); [congruence|rewrite length_app; lia|].
  exists b4, T4, I4. split; [exact E|]. split; [done|]. split; [pose proof (sv_fields _ _ _ _ Hs4) as Hv; unfold turn_fields in Hv; congruence|].
  assert (Hcb : cbs b3 = cbs b) by (rewrite Hc3; unfold cbs; cbn; by rewrite Ee1).
  intros x Hx Hin. rewrite <-Hcb in Hx. assert (Hact : x ∈ others fired A ++ fired).
  { rewrite elem_of_app. unfold others. rewrite list_elem_of_filter. destruct (decide (x ∈ fired)) as [|Hnf]; [by right|left]. split; [done|].
    destruct Hin as [?|(HT & Et & Ens & Hle)]; [done|]. exfalso. apply Hnf. destruct (Hnow Et Hca) as [-> ->].
    rewrite <-(du_parts _ _ _ _ _ Hd), elem_of_app in HT. destruct HT as [?|HT]; [done|]. pose proof (du_later _ _ _ _ _ Hd) as Hlat.
    rewrite Forall_forall in Hlat. specialize (Hlat x HT). unfold tv_le in Hle. revert Hlat. unfold gettime. cbn.
    destruct (Z.eqb_spec (tv_sec (bs_now b)) 0); [done|]. cbn. congruence. }
  destruct (sv_once _ _ _ _ Hs4 x Hx Hact) as [[Hn' _]|[_ ?]]; [by apply elem_of_nil in Hn'|done].
Qed.

Lemma correct_well b T I A :
  well b T I A → ∃ b', timeout_correct b = Ok b' ∧ well b' T I A ∧ core b' = core b ∧ cbs b' = cbs b ∧ bs_tv_cache b' = bs_tv_cache b
    ∧ bs_backend b' = bs_backend b ∧ (bs_monotonic b = true → b' = b).
Proof.
  intros [Hb Ha Ht]. destruct (correct_run b T I A Hb Ht) as (b' & E & Hb' & Ht' & Hco & Hcb & Hca & Hk & _). exists b'. split_and!; try done.
  - split; [done|by eapply alloc_core|done].
  - intros Hm. unfold timeout_correct in E. rewrite Hm in E. congruence.
Qed.

(** C13: the main loop calls the event loop with EVLOOP_ONCE and
    EVLOOP_NONBLOCK.  When the callbacks of the program only set up, add, delete
    and free events and timers, however short the timers they set, such a call
    returns after one round, whatever the clock reads: with 1 when there are no
    events, with -1 when the backend failed, and otherwise with 0, after every
    active event was handled.  Events that were set up once and were active, and
    (while the clock stands still) timers set up once that were due, have been
    called and freed. *)
Theorem poll_returns (room : nat → bool) (fuel : nat) (b : event_base) (T I A : list nat) :
  well b T I A → ready_inserted b → bs_gotterm b = false → bs_break b = false →
  (length T + length A + length (ready b) + 3 ≤ fuel)%nat →
  ∃ r b' T' I' A', event_base_loop room fuel POLL b = Ok (Some (r, b')) ∧ well b' T' I' A' ∧ tv_sec (bs_tv_cache b') = 0
    ∧ bs_gotterm b' = false ∧ bs_break b' = false
    ∧ (r = 1 ∧ T = [] ∧ I = [] ∧ A = []
       ∨ r = -1 ∧ (evsel_dispatch (Some tv_zero) (bs_backend b)).1.1 = -1
       ∨ r = 0 ∧ A' = [] ∧ ∀ x, cbs b !! x = Some (ONCE, false) →
           x ∈ A ∨ x ∈ T ∧ bs_monotonic b = true ∧ bs_ticks b = [] ∧ tv_sec (bs_now b) ≠ 0 ∧ tv_le (key_of (bs_events b) x) (bs_now b) →
           cbs b' !! x = None).
Proof.
  intros Hw Hr Hgt Hbr Hf. unfold event_base_loop. destruct fuel as [|fuel]; [lia|]. cbn [loop_rounds].
  assert (Hw0 := well_clear b T I A Hw). set (b0 := clear_cache b) in *.
  destruct (correct_well b0 T I A Hw0) as (b1 & E1 & Hw1 & Hco1 & Hcb1 & Hca1 & Hk1 & Hm1).
  unfold core in Hco1. cbn in Hco1. assert (Ef1 : bs_gotterm b1 = false ∧ bs_break b1 = false) by (split; congruence). destruct Ef1 as [Eg1 Eb1].
  assert (Htail : loop_round room fuel POLL b0 = (if negb (0 <? bs_count b1) then Ok (Some (Some 1, b1)) else
      let '(now, b) := gettime b1 in let b := clear_cache (upd_bs_event_tv (λ _, now) b) in
      let '(r, ready, s) := evsel_dispatch (Some tv_zero) (bs_backend b) in
      b ← activate room ready (upd_bs_backend (λ _, s) b);
      if r =? -1 then Ok (Some (Some (-1), b)) else
      let '(now, b) := gettime b in
      b ← timeout_process room (upd_bs_tv_cache (λ _, now) b);
      if negb (bs_count_active b =? 0) then
        r ← event_process_active fuel b;
        match r with
        | None => Ok None
        | Some b => if (bs_count_active b =? 0) && hasb POLL EVLOOP_ONCE then Ok (Some (Some 0, clear_cache b)) else Ok (Some (None, b))
        end
      else if hasb POLL EVLOOP_NONBLOCK then Ok (Some (Some 0, clear_cache b)) else Ok (Some (None, b)))).
  { unfold loop_round. change (bs_gotterm b0) with (bs_gotterm b). change (bs_break b0) with (bs_break b). rewrite Hgt, Hbr, E1. cbn [mbind res_bind].
    change (hasb POLL EVLOOP_NONBLOCK) with true. cbn [negb]. rewrite andb_false_r. cbn [mbind res_bind]. done. }
  rewrite Htail. clear Htail. pose proof (bi_count _ _ _ _ (we_base _ _ _ _ Hw1)) as Hcount.
  destruct (Z.ltb_spec 0 (bs_count b1)) as [Hpos|Hzero]; cbn [negb].
  2: { exists 1, b1, T, I, A. split; [done|]. split_and!; [done|by rewrite Hca1|done|done|]. left.
       destruct T, I, A; cbn [length] in Hcount; try lia. done. }
  destruct (gettime_into b1 T I A Hw1) as (now & b2 & Eg & Hw2 & Hn2 & Ee2 & Es2 & Ek2 & Hs2). rewrite Eg. cbv zeta in *.
  set (b3 := clear_cache (upd_bs_event_tv (λ _, now) b2)) in *. assert (Hw3 : well b3 T I A) by (by apply well_clear, well_event_tv).
  assert (Ek3 : bs_backend b3 = bs_backend b) by (etrans; [exact Ek2|exact Hk1]). rewrite Ek3.
  unfold ready, ready_inserted, ready in *. destruct (evsel_dispatch (Some tv_zero) (bs_backend b)) as [[r rdy] s'] eqn:Ed. cbn [fst snd] in *.
  rewrite (bi_queue _ _ _ _ (we_base _ _ _ _ Hw)) in Hr.
  destruct (activate_run room rdy _ T I A (well_backend s' _ _ _ _ Hw3) Hr) as (b4 & A4 & -> & Hw4 & Hc4 & Hin4 & Hl4). cbn [mbind res_bind].
  assert (Hfr := proj1 Hc4). unfold frame in Hfr. injection Hfr as _ _ Fg Fb _ _ _ Fc Fn Ft. unfold settings in Es2.
  assert (Eca4 : tv_sec (bs_tv_cache b4) = 0) by (by rewrite Fc).
  assert (Ef2 : bs_gotterm b2 = false ∧ bs_break b2 = false) by (split; congruence). destruct Ef2 as [Eg2 Eb2].
  assert (Eg4 : bs_gotterm b4 = false) by (by rewrite Fg). assert (Eb4 : bs_break b4 = false) by (by rewrite Fb).
  destruct (Z.eqb_spec r (-1)) as [->|Hne]; [exists (-1), b4, T, I, A4; split_and!; auto|].
  destruct (dispatched room fuel b4 T I A4 Hw4) as (b5 & T5 & I5 & E5 & Hw5 & Ef5 & Honce); [done|done|lia|]. rewrite E5.
  exists 0, (clear_cache b5), T5, I5, []. split_and!; [done|by apply well_clear|done|cbn; congruence|cbn; congruence|].
  right; right. split_and!; [done|done|]. intros x Hx Hxin. change (cbs (clear_cache b5)) with (cbs b5). apply Honce.
  - rewrite (calls_cbs _ _ Hc4). change (cbs _) with (cbs b2). unfold cbs. rewrite Ee2. fold (cbs b1). rewrite Hcb1. done.
  - destruct Hxin as [?|(HT & Hm & Et & Ens & Hle)]; [left; auto|]. right. rewrite (Hm1 Hm) in *. destruct (Hs2 Et eq_refl) as [-> ->].
    rewrite (calls_key _ _ x Hc4), Ft, Fn. done.
Qed.
End Turn.

(** ** The timer of an image stream *)

(** How long [web_pipeline_stream_trickle] waits until it is called again. *)
Definition trickle_when (delay : Z) : timeval := {| tv_sec := 0; tv_usec := delay * 1000 |}.

(** A backend with no file that is ready. *)
#[local] Instance quiet : Backend := {|
  backend := unit; evsel_add _ _ := (0, tt); evsel_del _ _ := (0, tt); evsel_dispatch _ _ := (0, [], tt) |}.
(** Callbacks that set the timer of their stream again. *)
#[local] Instance trickles (mem room : nat → bool) (delay : Z) : Callbacks := λ cb _ _ b,
  '(_, b) ← event_base_once mem room (-1) EV_TIMEOUT cb (Some (trickle_when delay)) b; Ok b.

Lemma trickle_norm delay : 0 <= delay < 1000 → norm (trickle_when delay).
Proof. unfold norm, trickle_when. cbn. lia. Qed.
Lemma trickles_program mem room delay : bounded mem → 0 <= delay < 1000 → @Program quiet (trickles mem room delay).
Proof.
  intros Hmem Hd cb fd what b T I A Hw. assert (Htv : tv_fit b (Some (trickle_when delay))) by (right; intros t [= <-]; by apply trickle_norm).
  destruct (once_well mem room cb _ b T I A Hw Hmem Htv) as (r & b' & T' & E & _). exists b'. unfold run_callback, trickles. rewrite E. cbn [mbind res_bind].
  split; [done|]. apply rtc_once. by eapply step_once.
Qed.

(** Room for a million events. *)
Definition some_mem (n : nat) : bool := Z.of_nat n <? 1000000.
Definition some_room (n : nat) : bool := true.
Lemma some_mem_bounded : bounded some_mem.
Proof. intros n. unfold some_mem. lia. Qed.
Definition at_sec (s us : Z) : timeval := {| tv_sec := s; tv_usec := us |}.
(** A base on which one stream waits; the clock gives [ticks]. *)
Definition waiting_base (mono : bool) (ticks : list timeval) : event_base := event_base_new tt mono (at_sec 10 900000) ticks.
Definition one_stream (mono : bool) (ticks : list timeval) (delay : Z) : res (Z * event_base) :=
  event_base_once some_mem some_room (-1) EV_TIMEOUT 7%nat (Some (trickle_when delay)) (waiting_base mono ticks).

Lemma one_stream_well mono ticks delay :
  Forall norm ticks → 0 <= delay < 1000 →
  ∃ b, one_stream mono ticks delay = Ok (0, b) ∧ well b [0%nat] [] [] ∧ cbs b !! 0%nat = Some (ONCE, false) ∧ base_step (waiting_base mono ticks) b
    ∧ bs_monotonic b = mono.
Proof.
  intros Hti Hd. set (b0 := waiting_base mono ticks).
  assert (Hw : well b0 [] [] []) by (apply new_base_well; right; split; [unfold norm; cbn; lia|done]).
  assert (Htv : tv_fit b0 (Some (trickle_when delay))) by (right; intros t [= <-]; by apply trickle_norm).
  destruct (once_well some_mem some_room 7 _ _ _ _ _ Hw some_mem_bounded Htv) as (r & b & T' & E & Hw' & Hk & [(_ & _ & Hno)|(-> & HT & _ & _ & Hcb & _)]).
  { exfalso. apply Hno. unfold b0, waiting_base, event_base_new. by destruct ticks. }
  assert (En : bs_next b0 = 0%nat) by (unfold b0; by destruct ticks). rewrite En in HT, Hcb. apply Permutation_singleton_r in HT as ->.
  exists b. split_and!; try done; [apply base_program; by eapply (step_once _ some_mem some_room); [apply some_mem_bounded| |]|].
  destruct Hk as [Hf _ _ _ _ _]. unfold loop_fields in Hf. assert (bs_monotonic b = bs_monotonic b0) as -> by congruence. unfold b0. by destruct ticks.
Qed.

Lemma events_consistent_witness : ∃ b b' r, one_stream false [] 100 = Ok (0, b) ∧ event_del 0 b = Ok (r, b').
Proof.
  destruct (one_stream_well false [] 100) as (b & E & Hw & Hcb & Hs & _); [done|lia|].
  destruct (events_consistent (B := quiet) tt false (at_sec 10 900000) [] b) as (_ & _ & Hdel & _).
  - right. by split; [unfold norm; cbn; lia|].
  - by apply rtc_once.
  - destruct (Hdel 0%nat) as (r & b' & Ed); [by eapply live_cb|]. by exists b, b', r.
Defined.

Lemma timers_fire_in_order_witness :
  ∃ b b' fired T', one_stream true [] 0 = Ok (0, b) ∧ timeout_process some_room b = Ok b' ∧ fired ++ T' ≡ₚ [0%nat] ∧ base_inv b' T' [] fired.
Proof.
  destruct (one_stream_well true [] 0) as (b & E & Hw & _); [done|lia|].
  destruct (timers_fire_in_order some_room b [0%nat] [] [] (we_base _ _ _ _ Hw)) as (b' & fired & T' & Ep & Hb' & Hp & _).
  exists b, b', fired, T'. by split_and!.
Defined.

(** The clock goes from 10.9 s back to 5 s. *)
Lemma clock_back_moves_timers_witness :
  ∃ b b', one_stream false [at_sec 10 900000; at_sec 10 900000; at_sec 5 0] 100 = Ok (0, b)
    ∧ timeout_correct b = Ok b' ∧ total (key_of (bs_events b) 0) = 11000000 ∧ total (key_of (bs_events b') 0) = 5100000.
Proof.
  destruct (one_stream_well false [at_sec 10 900000; at_sec 10 900000; at_sec 5 0] 100) as (b & E & Hw & _ & _ & Hm); [|lia|].
  { repeat constructor; cbn; lia. }
  assert (Ht : timed b [0%nat]) by (destruct (we_times _ _ _ _ Hw); [congruence|done]).
  destruct (clock_back_moves_timers b [0%nat] [] [] (we_base _ _ _ _ Hw) Hm Ht) as (b' & Ec & _ & _ & Hk).
  exists b, b'. split_and!; [done|done| |]; [|rewrite Hk by (by left)]; vm_compute in E; injection E as <-; reflexivity.
Defined.

(** A stream with no delay: its callback sets the timer again at once, and the
    call still returns. *)
Lemma poll_returns_witness :
  ∃ b b', one_stream true [] 0 = Ok (0, b) ∧ @event_base_loop quiet (trickles some_mem some_room 0) some_room 10 POLL b = Ok (Some (0, b'))
    ∧ cbs b' !! 0%nat = None.
Proof.
  destruct (one_stream_well true [] 0) as (b & E & Hw & Hcb & _); [done|lia|].
  assert (Hp : @Program quiet (trickles some_mem some_room 0)) by (apply trickles_program; [apply some_mem_bounded|lia]).
  assert (Hf : bs_gotterm b = false ∧ bs_break b = false ∧ bs_monotonic b = true ∧ bs_ticks b = [] ∧ tv_sec (bs_now b) ≠ 0
             ∧ tv_le (key_of (bs_events b) 0) (bs_now b)).
  { vm_compute in E. injection E as <-. by split_and!. }
  destruct Hf as (Hg & Hb & Hrest).
  destruct (poll_returns (P := Hp) some_room 10 b [0%nat] [] [] Hw) as (r & b' & T' & I' & A' & Er & _ & _ & _ & _ & Hcase);
    [by constructor|done|done|cbn; lia|].
  destruct Hcase as [(_ & HT & _)|[(_ & Hd)|(-> & _ & Honce)]]; [done|done|]. exists b, b'. split_and!; [done|done|].
  apply Honce; [done|]. right. split; [by left|done].
Defined.

(** A stream whose delay is two seconds or more is called again after at most two
    seconds: [evutil_timeradd] carries one second only, and the timeout that it
    leaves, with a million microseconds or more, is compared by its seconds. *)
Theorem long_delay_early (delay : Z) (now : timeval) :
  norm now → 2000 <= delay →
  tv_le (evutil_timeradd now (trickle_when delay)) (at_sec (tv_sec now + 2) 0)
  ∧ total (at_sec (tv_sec now + 2) 0) <= total now + delay * 1000.
Proof.
  unfold norm, tv_le, tv_gtb, evutil_timeradd, trickle_when, at_sec, total. cbn [tv_sec tv_usec]. intros Hn Hd.
  rewrite (proj2 (Z.leb_le 1000000 _)) by lia. cbn [tv_sec tv_usec]. split; [|lia]. destruct (Z.eqb_spec (tv_sec now + 0 + 1) (tv_sec now + 2)); lia.
Qed.
