(* ===== verification/HttpText.v ===== *)
(** The text of the HTTP protocol (src/contrib/libevent-1.4.13-stable/http.c):
    splitting and escaping, URIs and their queries, lists of headers.

    A C string is a [string] without NUL; what the code copies with [strdup] or
    reads as a C string ends at the first NUL ([c_text]). *)
From S2P Require Import Prelude Numeric Evbuffer.
#[local] Open Scope Z_scope.

(** ** Strings *)

Definition c_text (s : string) : string := unchars (c_chars (chars s)).

(** [strsep(&s, del)] with one delimiter: the token, and what [s] points to. *)
Fixpoint strsep (del : ascii) (s : string) : string * option string :=
  match s with
  | EmptyString => (EmptyString, None)
  | String c s =>
      if bool_decide (c = del) then (EmptyString, Some s)
      else let r := strsep del s in (String c r.1, r.2)
  end.

(** [strpbrk(s, set)] and [s + strspn(s, set)]. *)
Fixpoint strpbrk (set s : string) : option string :=
  match s with
  | EmptyString => None
  | String c t => if smem c set then Some s else strpbrk set t
  end.
Fixpoint skip_set (set s : string) : string :=
  match s with
  | EmptyString => EmptyString
  | String c t => if smem c set then skip_set set t else s
  end.

Definition CR : ascii := "013"%char.
Definition LF : ascii := "010"%char.
Definition crlf : string := String CR (String LF EmptyString).

(** ** Escaping for HTML *)

Definition html_replace (ch : ascii) : string :=
  if bool_decide (ch = "<"%char) then "&lt;"
  else if bool_decide (ch = ">"%char) then "&gt;"
  else if bool_decide (ch = "034"%char) then "&quot;"
  else if bool_decide (ch = "'"%char) then "&#039;"
  else if bool_decide (ch = "&"%char) then "&amp;"
  else String ch EmptyString.
Fixpoint replace_all (s : string) : string :=
  match s with EmptyString => EmptyString | String c s => html_replace c +:+ replace_all s end.
(** The size is added up in an [int]; more than that is a failed allocation,
    which ends the program, or a block that is too small. *)
Definition evhttp_htmlescape (html : string) : outcome string :=
  let new_size := wrap32 (Z.of_nat (slen (replace_all html))) in
  check ((Z.of_nat (slen html) <? 2 ^ 31) && (Z.of_nat (slen (replace_all html)) <=? new_size)) ≫= λ _,
  Done (replace_all html).

(** ** URIs *)

Definition uri_chars : list Z := [
  0; 0; 0; 0; 0; 0; 0; 0;   0; 0; 0; 0; 0; 0; 0; 0;
  0; 0; 0; 0; 0; 0; 0; 0;   0; 0; 0; 0; 0; 0; 0; 0;
  0; 1; 0; 0; 1; 0; 0; 1;   1; 1; 1; 1; 1; 1; 1; 1;
  1; 1; 1; 1; 1; 1; 1; 1;   1; 1; 1; 0; 0; 1; 0; 0;
  1; 1; 1; 1; 1; 1; 1; 1;   1; 1; 1; 1; 1; 1; 1; 1;
  1; 1; 1; 1; 1; 1; 1; 1;   1; 1; 1; 0; 0; 0; 0; 1;
  0; 1; 1; 1; 1; 1; 1; 1;   1; 1; 1; 1; 1; 1; 1; 1;
  1; 1; 1; 1; 1; 1; 1; 1;   1; 1; 1; 0; 0; 0; 1; 0] ++ replicate 128 0.
Definition uri_char (c : ascii) : bool := negb (nth (nat_of_ascii c) uri_chars 0 =? 0).

Definition hex_digit (n : nat) : ascii :=
  nth n (chars "0123456789ABCDEF") zero.
(** [%%%02X]. *)
Definition percent (c : ascii) : string :=
  String "%" (String (hex_digit (nat_of_ascii c / 16)) (String (hex_digit (nat_of_ascii c mod 16)) EmptyString)).

Fixpoint encode_loop (uri : string) (buf : evbuffer) : outcome evbuffer :=
  match uri with
  | EmptyString => Done buf
  | String c uri =>
      buf ← (if uri_char c then evbuffer_add [c] buf
             else r ← evbuffer_add_printf (chars (percent c)) buf; Done r.2);
      encode_loop uri buf
  end.
Definition evhttp_encode_uri (uri : string) : outcome string :=
  buf ← encode_loop uri evbuffer_new;
  buf ← evbuffer_add [zero] buf;
  data ← read_mem (eb_mem buf) (eb_buffer buf) (eb_off buf);
  Done (c_text (unchars data)).

(** [evhttp_decode_uri_internal]: the bytes written to [ret] before its
    terminator.  [in_query] starts as [always_decode_plus]. *)
Definition isxdigit (c : ascii) : bool := match hex_val c with Some _ => true | None => false end.
Definition hex_value (c : ascii) : nat := default O (hex_val c).
Fixpoint decode_uri_internal (in_query : bool) (uri : string) : string :=
  match uri with
  | EmptyString => EmptyString
  | String c t =>
      if bool_decide (c = "?"%char) then String c (decode_uri_internal true t)
      else if bool_decide (c = "+"%char) && in_query then String " " (decode_uri_internal in_query t)
      else if bool_decide (c = "%"%char) then
        match t with
        | String h (String l u) =>
            if isxdigit h && isxdigit l
            then String (ascii_of_nat (16 * hex_value h + hex_value l)) (decode_uri_internal in_query u)
            else String c (decode_uri_internal in_query t)
        | _ => String c (decode_uri_internal in_query t)
        end
      else String c (decode_uri_internal in_query t)
  end.
(** Into a block of [strlen(uri) + 1] bytes; the C string there. *)
Definition evhttp_decode_uri (uri : string) : outcome string :=
  let ret := decode_uri_internal false uri in
  check (Z.of_nat (slen ret) + 1 <=? Z.of_nat (slen uri) + 1) ≫= λ _, Done (c_text ret).

(** ** Headers *)

Definition headers : Type := list (string * string).

(** Names of headers are compared without regard to case. *)
Fixpoint same_name (a b : string) : bool :=
  match a, b with
  | EmptyString, EmptyString => true
  | String x a, String y b => bool_decide (lower x = lower y) && same_name a b
  | _, _ => false
  end.
Fixpoint find_header (l : list (string * string)) (key : string) : option string :=
  match l with
  | [] => None
  | (k, v) :: l => if same_name k key then Some v else find_header l key
  end.
Fixpoint remove_header (l : list (string * string)) (key : string) : list (string * string) :=
  match l with
  | [] => []
  | (k, v) :: l => if same_name k key then l else (k, v) :: remove_header l key
  end.

Fixpoint valid_loop (fuel : nat) (p : string) : bool :=
  match fuel with
  | O => true
  | S fuel =>
      match strpbrk crlf p with
      | None => true
      | Some p =>
          match skip_set crlf p with
          | EmptyString => false
          | String c _ as p =>
              if bool_decide (c = " "%char) || bool_decide (c = "009"%char) then valid_loop fuel p else false
          end
      end
  end.
Definition evhttp_header_is_valid_value (value : string) : bool := valid_loop (S (slen value)) value.

Definition evhttp_add_header_internal (hs : headers) (key value : string) : headers :=
  hs ++ [(c_text key, c_text value)].
(** The result of the call, and the list. *)
Definition evhttp_add_header (hs : headers) (key value : string) : Z * headers :=
  if smem CR key || smem LF key then (-1, hs)
  else if negb (evhttp_header_is_valid_value value) then (-1, hs)
  else (0, evhttp_add_header_internal hs key value).
Definition evhttp_clear_headers (hs : headers) : headers := [].

(** The last header takes the line at its end. *)
Definition evhttp_append_to_last_header (hs : headers) (line : string) : Z * headers :=
  match last hs with
  | None => (-1, hs)
  | Some (k, v) => (0, removelast hs ++ [(k, v +:+ line)])
  end.

(** ** Queries *)

(** One argument a round: it stops at one without [=].  The value is decoded
    into a block of its own length, the key is not decoded. *)
Fixpoint query_loop (fuel : nat) (p : option string) (hs : headers) : outcome headers :=
  match p with
  | None | Some EmptyString => Done hs
  | Some p =>
      match fuel with
      | O => Hang
      | S fuel =>
          let '(argument, p) := strsep "&" p in
          let '(key, value) := strsep "=" argument in
          match value with
          | None => Done hs
          | Some value =>
              let decoded_value := decode_uri_internal true value in
              check (Z.of_nat (slen decoded_value) + 1 <=? Z.of_nat (slen value) + 1) ≫= λ _,
              query_loop fuel p (evhttp_add_header_internal hs key decoded_value)
          end
      end
  end.
Definition evhttp_parse_query (uri : string) : outcome headers :=
  if negb (smem "?" uri) then Done []
  else query_loop (S (slen uri)) (strsep "?" uri).2 [].
