(* ===== verification/HttpUri.v ===== *)
(** Theorems about the text of HttpText: encoding and decoding of URIs and
    queries, escaping for HTML, validity of headers. *)
From S2P Require Import Prelude Numeric Evbuffer HttpText.
#[local] Open Scope Z_scope.

(** ** The buffer as a queue with room *)

(** [queue K b l]: the buffer holds [l], and at most [K] bytes of room were ever
    asked for. *)
Definition queue (K : Z) (b : evbuffer) (l : list ascii) : Prop :=
  holds b l ∧ eb_misalign b + eb_off b <= K ∧ eb_totallen b <= 2 * K + 256.
(** Sums of sizes that fit in memory. *)
Definition MAX_ROOM : Z := 2 ^ 50.

Lemma queue_new : queue 0 evbuffer_new [].
Proof. split; [apply holds_new|]. by vm_compute. Qed.
Lemma queue_bounds K b l : queue K b l → 0 <= zlength l <= K.
Proof. intros ([_ ? ? _ _ _ _] & ? & ?). pose proof (zlength_nonneg l). lia. Qed.
Lemma queue_weaken K K' b l : queue K b l → K <= K' → queue K' b l.
Proof. intros (H & ? & ?) ?. split; [done|lia]. Qed.
Lemma queue_grows K n b b' l l' : queue K b l → holds b' l' → grows n b b' → 0 <= n → queue (K + n) b' l'.
Proof. intros (? & ? & ?) Hb' [? ?] ?. pose proof (holds_off_nonneg _ _ Hb'). pose proof (ho_misalign _ _ Hb'). split; [done|lia]. Qed.

Section room.
  Context (K : Z) (b : evbuffer) (l : list ascii).
  Hypothesis Hq : queue K b l.

Lemma queue_add data :
  K + zlength data < MAX_ROOM → ∃ b', evbuffer_add data b = Done b' ∧ queue (K + zlength data) b' (l ++ data).
Proof.
  unfold MAX_ROOM. intros HK. pose proof (zlength_nonneg data). pose proof (queue_bounds _ _ _ Hq). destruct Hq as (Hb & ? & ?).
  destruct (add_run data b l Hb) as (b' & -> & Hb' & _ & Hg); [split; lia|].
  exists b'. split; [done|]. by eapply queue_grows.
Qed.
Lemma queue_printf t :
  K + zlength t + 65 < MAX_ROOM → zlength t < 2 ^ 31 - 1 →
  ∃ b', evbuffer_add_printf t b = Done (zlength t, b') ∧ queue (K + (zlength t + 65)) b' (l ++ t).
Proof.
  unfold MAX_ROOM. intros HK Ht. pose proof (zlength_nonneg t). pose proof (queue_bounds _ _ _ Hq). destruct Hq as (Hb & ? & ?).
  destruct (printf_run t b l Hb) as (b' & -> & Hb' & _ & Hg); [split; lia|].
  exists b'. split; [done|]. eapply queue_grows; [done..|lia].
Qed.
Lemma queue_data : read_mem (eb_mem b) (eb_buffer b) (eb_off b) = Done l.
Proof. apply read_all, Hq. Qed.
Lemma queue_off : eb_off b = zlength l.
Proof. apply Hq. Qed.
Lemma queue_drain n : 0 <= n → K < MAX_ROOM → n < MAX_ROOM → queue K (evbuffer_drain n b) (drop (Z.to_nat n) l).
Proof.
  unfold MAX_ROOM. intros Hn HK Hm. destruct Hq as (Hb & ? & ?).
  destruct (drain_run n b l (OpDrain n) Hb) as (Hd & _ & Hg); [lia|done|].
  rewrite <-(Z.add_0_r K). by eapply queue_grows.
Qed.
Lemma queue_readline :
  K < MAX_ROOM → zlength l < 2 ^ 32 - 1 →
  ∃ out b' l', evbuffer_readline b = Done (out, b') ∧ ev_spec OpReadline l out l' ∧ queue K b' l'.
Proof.
  unfold MAX_ROOM. intros HK Hl. pose proof Hq as (Hb & ? & ?).
  destruct (readline_run b l Hb) as (out & b' & l' & E & Hs & Hb' & _ & Hg); [split; [lia|by rewrite queue_off]|].
  exists out, b', l'. split; [done|]. split; [done|]. rewrite <-(Z.add_0_r K). by eapply queue_grows.
Qed.
End room.

(** Moving the data of one buffer behind that of another. *)
Lemma queue_add_buffer K K' outbuf inbuf l k :
  queue K outbuf l → queue K' inbuf k → K + K' < MAX_ROOM →
  ∃ outbuf' inbuf', evbuffer_add_buffer outbuf inbuf = Done (outbuf', inbuf') ∧ queue (K + K') outbuf' (l ++ k) ∧ queue (K + K') inbuf' [].
Proof.
  intros Ho Hi HK. pose proof (queue_bounds _ _ _ Ho). pose proof (queue_bounds _ _ _ Hi). unfold evbuffer_add_buffer.
  pose proof (queue_off _ _ _ Ho) as Eo. pose proof (queue_off _ _ _ Hi) as Ei.
  destruct (Z.eqb_spec (eb_off outbuf) 0) as [E|E].
  - assert (l = []) as -> by (destruct l; [done|unfold zlength in Eo; simpl in Eo; lia]). cbv zeta. eexists _, _. split; [done|].
    destruct Ho as (Ho & ? & ?), Hi as (Hi & ? & ?). split; (split; [apply notify_holds; destruct Ho, Hi; by split|cbn; lia]).
  - rewrite (queue_data _ _ _ Hi), done_bind. destruct (queue_add _ _ _ Ho k) as (b' & -> & Hq); [lia|]. rewrite done_bind.
    eexists _, _. split; [done|]. split; [eapply queue_weaken; [exact Hq|lia]|]. pose proof (queue_drain _ _ _ Hi (eb_off inbuf)) as Hd.
    rewrite drop_ge in Hd by (rewrite Ei; unfold zlength; lia). eapply queue_weaken; [apply Hd; lia|lia].
Qed.

(** ** Encoding and decoding *)

Fixpoint encode_text (s : string) : string :=
  match s with
  | EmptyString => EmptyString
  | String c s => (if uri_char c then String c EmptyString else percent c) +:+ encode_text s
  end.
(** What a plus is read as in a query. *)
Definition plus_to_space (in_query : bool) (c : ascii) : ascii :=
  if bool_decide (c = "+"%char) && in_query then " "%char else c.
Definition smap (f : ascii → ascii) (s : string) : string := unchars (f <$> chars s).

Lemma every_ascii (f : ascii → bool) :
  forallb (λ n, f (ascii_of_nat n)) (seq 0 256) = true → ∀ c, f c = true.
Proof.
  intros Hall c. rewrite forallb_forall in Hall. pose proof (nat_ascii_bounded c).
  specialize (Hall (nat_of_ascii c)). rewrite ascii_nat_embedding in Hall. apply Hall, in_seq. lia.
Qed.
(** A decidable fact about all characters, by trying them. *)
Ltac by_ascii :=
  let c := fresh "c" in intros c; match goal with |- ?P => apply (bool_decide_eq_true_1 P) end; revert c;
  match goal with |- ∀ c, @?f c = true => apply (every_ascii f); vm_compute; reflexivity end.
Lemma percent_decodes : ∀ c, 
  isxdigit (hex_digit (nat_of_ascii c / 16)) = true ∧ isxdigit (hex_digit (nat_of_ascii c mod 16)) = true
  ∧ ascii_of_nat (16 * hex_value (hex_digit (nat_of_ascii c / 16)) + hex_value (hex_digit (nat_of_ascii c mod 16))) = c.
Proof. by_ascii. Qed.
Lemma uri_char_plain : ∀ c, uri_char c = true →
  c ≠ "?"%char ∧ c ≠ "%"%char ∧ c ≠ "&"%char ∧ c ≠ zero ∧ c ≠ " "%char ∧ line_end c = false.
Proof. by_ascii. Qed.
Lemma percent_chars : ∀ c, Forall (λ d, uri_char d = true ∨ d = "%"%char) (chars (percent c)).
Proof. by_ascii. Qed.

Lemma decode_encode q s : decode_uri_internal q (encode_text s) = smap (plus_to_space q) s.
Proof.
  induction s as [|c s IH]; [done|]. cbn [encode_text]. destruct (uri_char c) eqn:E.
  - apply uri_char_plain in E as (H1 & H2 & _). rewrite sapp_cons, sapp_nil_l. cbn [decode_uri_internal].
    rewrite bool_decide_false by done. unfold smap. cbn [chars fmap list_fmap unchars]. unfold plus_to_space at 1.
    destruct (bool_decide (c = "+"%char) && q); [by rewrite IH|]. rewrite bool_decide_false by done. by rewrite IH.
  - destruct (percent_decodes c) as (H1 & H2 & H3). unfold percent. rewrite !sapp_cons, sapp_nil_l. cbn [decode_uri_internal].
    rewrite H1, H2, H3, IH. unfold smap. simpl. unfold plus_to_space at 2. rewrite bool_decide_false; [done|].
    intros ->. by vm_compute in E.
Qed.
Lemma smap_id s : smap (plus_to_space false) s = s.
Proof. induction s as [|c s IH]; [done|]. unfold smap, plus_to_space in *. simpl. rewrite andb_false_r. by f_equal. Qed.

Lemma decode_length q s : (slen (decode_uri_internal q s) ≤ slen s)%nat.
Proof.
  remember (slen s) as n eqn:En. assert (Hn : (slen s ≤ n)%nat) by lia. clear En. revert q s Hn.
  induction n as [n IH] using lt_wf_ind. intros q [|c t] Hn; [simpl; lia|].
  assert (Hlt : ∀ q u, (slen u < slen (String c t))%nat → (slen (decode_uri_internal q u) ≤ slen u)%nat)
    by (intros q' u Hu; eapply IH; [|done]; lia).
  assert (Ht : ∀ q d, (slen (String d (decode_uri_internal q t)) ≤ n)%nat).
  { intros q' d. specialize (Hlt q' t ltac:(unfold slen; simpl; lia)). unfold slen in *. simpl in *. lia. }
  cbn [decode_uri_internal]. repeat (case_match; try apply Ht). subst. 
  match goal with |- context [decode_uri_internal q ?u] => specialize (Hlt q u ltac:(unfold slen; simpl; lia)) end.
  unfold slen in *. simpl in *. lia.
Qed.

Lemma encode_text_chars s : Forall (λ d, uri_char d = true ∨ d = "%"%char) (chars (encode_text s)).
Proof.
  induction s as [|c s IH]; [constructor|]. cbn [encode_text]. rewrite chars_app, Forall_app. split; [|done].
  destruct (uri_char c) eqn:E; [cbn [chars]; apply Forall_singleton; by left|]. apply percent_chars.
Qed.
Lemma encode_text_free c s : uri_char c = false → c ≠ "%"%char → smem c (encode_text s) = false.
Proof.
  intros Hc Hp. apply not_true_is_false. rewrite smem_elem. intros He.
  pose proof (encode_text_chars s) as Hf. rewrite Forall_forall in Hf. destruct (Hf c He); congruence.
Qed.
Lemma c_text_id s : zero ∉ chars s → c_text s = s.
Proof. intros H. unfold c_text. by rewrite c_chars_id, unchars_chars. Qed.

Lemma c_chars_terminated l rest : zero ∉ l → c_chars (l ++ zero :: rest) = l.
Proof. induction l as [|c l IH]; [done|]. rewrite not_elem_of_cons. intros [Hc Hl]. simpl. rewrite bool_decide_false by done. by rewrite IH. Qed.
Lemma smem_not_elem c s : smem c s = false ↔ c ∉ chars s.
Proof. rewrite <-smem_elem. by destruct (smem c s). Qed.

Lemma encode_loop_run uri : ∀ K b l,
  queue K b l → K + 70 * Z.of_nat (slen uri) < MAX_ROOM →
  ∃ b', encode_loop uri b = Done b' ∧ queue (K + 70 * Z.of_nat (slen uri)) b' (l ++ chars (encode_text uri)).
Proof.
  induction uri as [|c uri IH]; intros K b l Hq HK; cbn [encode_loop encode_text].
  { exists b. split; [done|]. rewrite app_nil_r. eapply queue_weaken; [done|lia]. }
  assert (Hs : slen (String c uri) = S (slen uri)) by done. rewrite Hs in *.
  assert (Hstep : ∃ b', (if uri_char c then evbuffer_add [c] b else r ← evbuffer_add_printf (chars (percent c)) b; Done r.2) = Done b'
    ∧ queue (K + 70) b' (l ++ chars (if uri_char c then String c EmptyString else percent c))).
  { destruct (uri_char c).
    - destruct (queue_add K b l Hq [c]) as (b' & -> & Hq'); [change (zlength [c]) with 1; lia|]. exists b'. split; [done|].
      eapply queue_weaken; [done|]. change (zlength [c]) with 1. lia.
    - destruct (queue_printf K b l Hq (chars (percent c))) as (b' & -> & Hq'); [change (zlength (chars (percent c))) with 3; lia|done|].
      exists b'. split; [done|]. eapply queue_weaken; [done|]. change (zlength (chars (percent c))) with 3. lia. }
  destruct Hstep as (b1 & -> & Hq1). rewrite done_bind. destruct (IH (K + 70) b1 _ Hq1) as (b' & -> & Hq'); [lia|].
  exists b'. split; [done|]. rewrite chars_app, app_assoc. eapply queue_weaken; [done|lia].
Qed.
Lemma encode_run uri : 70 * Z.of_nat (slen uri) + 1 < MAX_ROOM → evhttp_encode_uri uri = Done (encode_text uri).
Proof.
  intros HK. unfold evhttp_encode_uri. destruct (encode_loop_run uri 0 _ _ queue_new) as (b & -> & Hq); [lia|]. rewrite done_bind.
  destruct (queue_add _ _ _ Hq [zero]) as (b' & -> & Hq'); [change (zlength [zero]) with 1; lia|]. rewrite done_bind.
  rewrite (queue_data _ _ _ Hq'), done_bind. f_equal. cbn [app]. unfold c_text. rewrite chars_unchars.
  rewrite c_chars_terminated, unchars_chars; [done|]. apply smem_not_elem, encode_text_free; by vm_compute.
Qed.

(** Decoding an encoded URI gives it back. *)
Theorem uri_roundtrip (uri : string) :
  zero ∉ chars uri → 70 * Z.of_nat (slen uri) + 1 < MAX_ROOM →
  ∃ t, evhttp_encode_uri uri = Done t ∧ evhttp_decode_uri t = Done uri.
Proof.
  intros Hz HK. exists (encode_text uri). split; [by apply encode_run|]. unfold evhttp_decode_uri, check. cbv zeta.
  pose proof (decode_length false (encode_text uri)). rewrite (proj2 (Z.leb_le _ _)) by lia.
  rewrite done_bind, decode_encode, smap_id. by rewrite c_text_id.
Qed.

(** ** Names of headers *)

Lemma same_name_lower a b : same_name a b = bool_decide (map lower (chars a) = map lower (chars b)).
Proof.
  revert b. induction a as [|x a IH]; intros [|y b]; try done. simpl. rewrite IH.
  apply eq_iff_eq_true. rewrite andb_true_iff, !bool_decide_eq_true.
  split; [by intros [-> ->]|by intros [= -> ->]].
Qed.

(** ** Queries *)

(** [path?k1=v1&k2=v2...]. *)
Fixpoint join_args (args : list (string * string)) : string :=
  match args with
  | [] => EmptyString
  | [(k, v)] => k +:+ String "=" v
  | (k, v) :: args => k +:+ String "=" (v +:+ String "&" (join_args args))
  end.
Definition query_uri (path : string) (args : list (string * string)) : string := path +:+ String "?" (join_args args).

Lemma strsep_at del s t : smem del s = false → strsep del (s +:+ String del t) = (s, Some t).
Proof.
  induction s as [|c s IH]; [intros _; rewrite sapp_nil_l; cbn [strsep]; by rewrite bool_decide_true|].
  rewrite sapp_cons. cbn [smem strsep]. rewrite orb_false_iff, bool_decide_eq_false. intros [Hc Hs].
  rewrite bool_decide_false by congruence. by rewrite IH.
Qed.
Lemma strsep_none del s : smem del s = false → strsep del s = (s, None).
Proof.
  induction s as [|c s IH]; [done|]. cbn [smem strsep]. rewrite orb_false_iff, bool_decide_eq_false. intros [Hc Hs].
  rewrite bool_decide_false by congruence. by rewrite IH.
Qed.

(** A key that can be written as it is, and a value a C string can hold. *)
Definition query_arg (kv : string * string) : Prop :=
  smem "=" kv.1 = false ∧ smem "&" kv.1 = false ∧ (zero ∉ chars kv.1) ∧ (zero ∉ chars kv.2)
  ∧ 70 * Z.of_nat (slen kv.2) + 1 < MAX_ROOM.
Definition as_read (kv : string * string) : string * string := (kv.1, smap (plus_to_space true) kv.2).

Lemma smap_plus_nonzero q s : zero ∉ chars s → zero ∉ chars (smap (plus_to_space q) s).
Proof.
  unfold smap. rewrite chars_unchars. intros Hz (c & Hc & Hin)%list_elem_of_fmap. unfold plus_to_space in Hc.
  destruct (_ && _); [done|by subst].
Qed.
Lemma argument_run k v : smem "=" k = false → smem "&" k = false →
  strsep "&" (k +:+ String "=" (encode_text v)) = (k +:+ String "=" (encode_text v), None)
  ∧ ∀ t, strsep "&" (k +:+ String "=" (encode_text v +:+ String "&" t)) = (k +:+ String "=" (encode_text v), Some t).
Proof.
  intros He Ha. assert (Hv : smem "&" (k +:+ String "=" (encode_text v)) = false).
  { rewrite smem_app, Ha. cbn [smem orb]. rewrite bool_decide_false by done. by rewrite encode_text_free. }
  split; [by apply strsep_none|]. intros t. by rewrite <-(strsep_at _ _ t Hv), <-sapp_assoc, sapp_cons.
Qed.
Lemma query_loop_run args : ∀ fuel hs,
  Forall query_arg args → (length args ≤ fuel)%nat →
  query_loop fuel (Some (join_args (prod_map id encode_text <$> args))) hs = Done (hs ++ (as_read <$> args)).
Proof.
  induction args as [|[k v] args IH]; intros fuel hs Hall Hf; [cbn; destruct fuel; by rewrite app_nil_r|].
  apply Forall_cons in Hall as [(He & Ha & Hzk & Hzv & Hlen) Hall]. cbn [fst snd] in *. destruct fuel as [|fuel]; [simpl in Hf; lia|].
  destruct (argument_run k v He Ha) as [Hlast Hmore].
  assert (Hne : ∀ t, k +:+ String "=" t ≠ EmptyString) by by destruct k.
  assert (Hround : ∀ p p' , strsep "&" p = (k +:+ String "=" (encode_text v), p') → p ≠ EmptyString →
    query_loop (S fuel) (Some p) hs = query_loop fuel p' (hs ++ [as_read (k, v)])).
  { intros p p' Hp Hpn. cbn [query_loop]. destruct p as [|c p]; [done|]. rewrite Hp, (strsep_at _ _ _ He). cbv zeta.
    pose proof (decode_length true (encode_text v)). unfold check. rewrite (proj2 (Z.leb_le _ _)) by lia. rewrite done_bind.
    rewrite decode_encode. unfold evhttp_add_header_internal. rewrite !c_text_id; [done|by apply smap_plus_nonzero|done]. }
  destruct args as [|kv args].
  - cbn [fmap list_fmap join_args prod_map fst snd id]. rewrite (Hround _ _ Hlast) by done. by destruct fuel.
  - cbn [fmap list_fmap]. cbn [join_args]. destruct (prod_map id encode_text (k, v)) as [k' v'] eqn:Ekv. injection Ekv as <- <-.
    rewrite (Hround _ _ (Hmore _)) by done. rewrite (IH fuel _ Hall) by (simpl in *; lia). by rewrite <-app_assoc.
Qed.
Lemma join_args_length args : (length args ≤ slen (join_args args))%nat.
Proof.
  induction args as [|[k v] args IH]; [simpl; lia|]. destruct args as [|kv args].
  - cbn [join_args]. rewrite slen_app. unfold slen. simpl. lia.
  - change (join_args ((k, v) :: kv :: args)) with (k +:+ String "=" (v +:+ String "&" (join_args (kv :: args)))). rewrite slen_app. change (slen (String "=" ?x)) with (S (slen x)). rewrite slen_app. change (slen (String "&" ?x)) with (S (slen x)).
    cbn [length] in *. lia.
Qed.

(** Parsing the query of a URI built from arguments. *)
Lemma query_parses (path : string) (args : list (string * string)) :
  smem "?" path = false → Forall query_arg args →
  evhttp_parse_query (query_uri path (prod_map id encode_text <$> args)) = Done (as_read <$> args).
Proof.
  intros Hp Hall. unfold evhttp_parse_query, query_uri. rewrite smem_app. cbn [smem]. rewrite bool_decide_true by done. rewrite orb_true_r.
  rewrite (strsep_at _ _ _ Hp). cbn [negb snd]. apply (query_loop_run args _ []); [done|].
  pose proof (join_args_length (prod_map id encode_text <$> args)) as Hl. rewrite length_fmap in Hl.
  rewrite slen_app. change (slen (String "?" ?x)) with (S (slen x)). lia.
Qed.

(** C32: the arguments a page sends are the arguments the handlers read:
    for any path, keys without separators and values, the values encoded with
    [evhttp_encode_uri] and joined to a query are parsed by
    [evhttp_parse_query], which returns without overrunning a block, into the
    same keys and values in order; only a plus sign, which the encoder leaves
    as it is, is read as a blank. *)
Theorem query_roundtrip (path : string) (args : list (string * string)) :
  smem "?" path = false → Forall query_arg args →
  ∃ texts, Forall2 (λ kv t, evhttp_encode_uri kv.2 = Done t) args texts
    ∧ evhttp_parse_query (query_uri path (zip args.*1 texts)) = Done (as_read <$> args).
Proof.
  intros Hp Hall. exists (encode_text <$> args.*2). split.
  - induction Hall as [|kv args Hkv Hall IH]; constructor; [|done]. apply encode_run. by destruct Hkv as (_ & _ & _ & _ & ?).
  - replace (zip args.*1 (encode_text <$> args.*2)) with (prod_map id encode_text <$> args)
      by (clear; induction args as [|[k v] args IH]; [done|cbn; by f_equal]).
    by apply query_parses.
Qed.
Definition demo_args : list (string * string) := [("objectname", "a b&c=d"); ("value", "1+1")].
Lemma query_roundtrip_witness :
  ∃ texts, evhttp_parse_query (query_uri "/pipeline/set" (zip demo_args.*1 texts))
    = Done [("objectname", "a b&c=d"); ("value", "1 1")].
Proof.
  destruct (query_roundtrip "/pipeline/set" demo_args) as (texts & _ & E); [reflexivity| |by exists texts].
  repeat (apply Forall_cons; split); [..|apply Forall_nil; exact I];
    (split_and!; [reflexivity|reflexivity|apply smem_not_elem; reflexivity|apply smem_not_elem; reflexivity|vm_compute; reflexivity]).
Defined.

(** An encoded plus sign is not encoded: a query reads a blank. *)
Example plus_is_lost : evhttp_encode_uri "1+1" = Done "1+1" ∧ evhttp_parse_query "/?v=1+1" = Done [("v", "1 1")].
Proof. split; by vm_compute. Qed.
(** An argument without a value hides those after it. *)
Example argument_stops : evhttp_parse_query "/?a=1&b&c=2" = Done [("a", "1")].
Proof. by vm_compute. Qed.

(** ** Escaping *)

Definition markup : list ascii := ["<"; ">"; "034"; "'"]%char.
Lemma html_replace_free c : ∀ d, d ∈ markup → smem d (html_replace c) = false.
Proof.
  assert (H : Forall (λ d, smem d (html_replace c) = false) markup) by (revert c; by_ascii). by apply Forall_forall.
Qed.
(** The escaped text holds no markup. *)
Theorem htmlescape_safe (s : string) :
  6 * Z.of_nat (slen s) < 2 ^ 31 →
  ∃ t, evhttp_htmlescape s = Done t ∧ Forall (λ c, smem c t = false) markup.
Proof.
  intros Hs. assert (Hl : (slen (replace_all s) ≤ 6 * slen s)%nat).
  { clear. induction s as [|c s IH]; [done|]. cbn [replace_all]. rewrite slen_app.
    assert (slen (html_replace c) ≤ 6)%nat by (unfold html_replace; repeat case_match; vm_compute; lia).
    change (slen (String c s)) with (S (slen s)). lia. }
  exists (replace_all s). split.
  - unfold evhttp_htmlescape, check. cbv zeta. rewrite wrap32_id by (apply in_int_iff; lia).
    rewrite (proj2 (Z.ltb_lt _ _)) by lia. rewrite (proj2 (Z.leb_le _ _)) by lia. done.
  - clear Hs Hl. rewrite Forall_forall. intros d Hd. induction s as [|c s IH]; [done|]. cbn [replace_all]. rewrite smem_app, IH.
    rewrite orb_false_r. by apply html_replace_free.
Qed.
