(* ===== verification/Http.v ===== *)
(** Requests and connections of the HTTP server
    (src/contrib/libevent-1.4.13-stable/http.c): reading a request from the
    bytes that arrive, calling the handler, and writing the reply.

    The connections are those a server accepts; the client half of http.c is
    present where it prints a request and parses a reply.  The event loop is the
    field [ec_event]: the event the connection waits for.  A connection carries
    one request at a time. *)
From S2P Require Import Prelude Numeric Evbuffer HttpText.
#[local] Open Scope Z_scope.

(** ** Requests *)

Inductive evhttp_cmd_type := EVHTTP_REQ_GET | EVHTTP_REQ_POST | EVHTTP_REQ_HEAD.
Inductive evhttp_request_kind := EVHTTP_REQUEST | EVHTTP_RESPONSE.
Inductive message_read_status := ALL_DATA_READ | MORE_DATA_EXPECTED | DATA_CORRUPTED | REQUEST_CANCELED.
Inductive evhttp_connection_error := EVCON_HTTP_TIMEOUT | EVCON_HTTP_EOF | EVCON_HTTP_INVALID_HEADER.
#[export] Instance cmd_type_eq_dec : EqDecision evhttp_cmd_type.
Proof. solve_decision. Defined.
#[export] Instance kind_eq_dec : EqDecision evhttp_request_kind.
Proof. solve_decision. Defined.

Record evhttp_request := {
  er_own : bool;
  er_proxy : bool;
  er_input_headers : headers;
  er_output_headers : headers;
  er_kind : evhttp_request_kind;
  er_type : evhttp_cmd_type;
  er_uri : option string;
  er_major : Z;
  er_minor : Z;
  er_response_code : Z;
  er_response_code_line : option string;
  er_input_buffer : evbuffer;
  er_ntoread : Z;
  er_chunked : bool;
  er_output_buffer : evbuffer;
}.

(** Setting fields. *)
Definition er_set_proxy (proxy : bool) (r : evhttp_request) : evhttp_request :=
  {| er_own := er_own r; er_proxy := proxy; er_input_headers := er_input_headers r;
     er_output_headers := er_output_headers r; er_kind := er_kind r; er_type := er_type r;
     er_uri := er_uri r; er_major := er_major r; er_minor := er_minor r;
     er_response_code := er_response_code r; er_response_code_line := er_response_code_line r;
     er_input_buffer := er_input_buffer r; er_ntoread := er_ntoread r; er_chunked := er_chunked r;
     er_output_buffer := er_output_buffer r |}.
Definition er_set_input_headers (input_headers : headers) (r : evhttp_request) : evhttp_request :=
  {| er_own := er_own r; er_proxy := er_proxy r; er_input_headers := input_headers;
     er_output_headers := er_output_headers r; er_kind := er_kind r; er_type := er_type r;
     er_uri := er_uri r; er_major := er_major r; er_minor := er_minor r;
     er_response_code := er_response_code r; er_response_code_line := er_response_code_line r;
     er_input_buffer := er_input_buffer r; er_ntoread := er_ntoread r; er_chunked := er_chunked r;
     er_output_buffer := er_output_buffer r |}.
Definition er_set_output_headers (output_headers : headers) (r : evhttp_request) : evhttp_request :=
  {| er_own := er_own r; er_proxy := er_proxy r; er_input_headers := er_input_headers r;
     er_output_headers := output_headers; er_kind := er_kind r; er_type := er_type r; er_uri := er_uri r;
     er_major := er_major r; er_minor := er_minor r; er_response_code := er_response_code r;
     er_response_code_line := er_response_code_line r; er_input_buffer := er_input_buffer r;
     er_ntoread := er_ntoread r; er_chunked := er_chunked r; er_output_buffer := er_output_buffer r |}.
Definition er_set_kind (kind : evhttp_request_kind) (r : evhttp_request) : evhttp_request :=
  {| er_own := er_own r; er_proxy := er_proxy r; er_input_headers := er_input_headers r;
     er_output_headers := er_output_headers r; er_kind := kind; er_type := er_type r; er_uri := er_uri r;
     er_major := er_major r; er_minor := er_minor r; er_response_code := er_response_code r;
     er_response_code_line := er_response_code_line r; er_input_buffer := er_input_buffer r;
     er_ntoread := er_ntoread r; er_chunked := er_chunked r; er_output_buffer := er_output_buffer r |}.
Definition er_set_type (type : evhttp_cmd_type) (r : evhttp_request) : evhttp_request :=
  {| er_own := er_own r; er_proxy := er_proxy r; er_input_headers := er_input_headers r;
     er_output_headers := er_output_headers r; er_kind := er_kind r; er_type := type; er_uri := er_uri r;
     er_major := er_major r; er_minor := er_minor r; er_response_code := er_response_code r;
     er_response_code_line := er_response_code_line r; er_input_buffer := er_input_buffer r;
     er_ntoread := er_ntoread r; er_chunked := er_chunked r; er_output_buffer := er_output_buffer r |}.
Definition er_set_uri (uri : option string) (r : evhttp_request) : evhttp_request :=
  {| er_own := er_own r; er_proxy := er_proxy r; er_input_headers := er_input_headers r;
     er_output_headers := er_output_headers r; er_kind := er_kind r; er_type := er_type r; er_uri := uri;
     er_major := er_major r; er_minor := er_minor r; er_response_code := er_response_code r;
     er_response_code_line := er_response_code_line r; er_input_buffer := er_input_buffer r;
     er_ntoread := er_ntoread r; er_chunked := er_chunked r; er_output_buffer := er_output_buffer r |}.
Definition er_set_version (major : Z) (minor : Z) (r : evhttp_request) : evhttp_request :=
  {| er_own := er_own r; er_proxy := er_proxy r; er_input_headers := er_input_headers r;
     er_output_headers := er_output_headers r; er_kind := er_kind r; er_type := er_type r;
     er_uri := er_uri r; er_major := major; er_minor := minor; er_response_code := er_response_code r;
     er_response_code_line := er_response_code_line r; er_input_buffer := er_input_buffer r;
     er_ntoread := er_ntoread r; er_chunked := er_chunked r; er_output_buffer := er_output_buffer r |}.
Definition er_set_response (response_code : Z) (response_code_line : option string) (r : evhttp_request) : evhttp_request :=
  {| er_own := er_own r; er_proxy := er_proxy r; er_input_headers := er_input_headers r;
     er_output_headers := er_output_headers r; er_kind := er_kind r; er_type := er_type r;
     er_uri := er_uri r; er_major := er_major r; er_minor := er_minor r; er_response_code := response_code;
     er_response_code_line := response_code_line; er_input_buffer := er_input_buffer r;
     er_ntoread := er_ntoread r; er_chunked := er_chunked r; er_output_buffer := er_output_buffer r |}.
Definition er_set_body (input_buffer : evbuffer) (ntoread : Z) (r : evhttp_request) : evhttp_request :=
  {| er_own := er_own r; er_proxy := er_proxy r; er_input_headers := er_input_headers r;
     er_output_headers := er_output_headers r; er_kind := er_kind r; er_type := er_type r;
     er_uri := er_uri r; er_major := er_major r; er_minor := er_minor r;
     er_response_code := er_response_code r; er_response_code_line := er_response_code_line r;
     er_input_buffer := input_buffer; er_ntoread := ntoread; er_chunked := er_chunked r;
     er_output_buffer := er_output_buffer r |}.
Definition er_set_chunked (chunked : bool) (r : evhttp_request) : evhttp_request :=
  {| er_own := er_own r; er_proxy := er_proxy r; er_input_headers := er_input_headers r;
     er_output_headers := er_output_headers r; er_kind := er_kind r; er_type := er_type r;
     er_uri := er_uri r; er_major := er_major r; er_minor := er_minor r;
     er_response_code := er_response_code r; er_response_code_line := er_response_code_line r;
     er_input_buffer := er_input_buffer r; er_ntoread := er_ntoread r; er_chunked := chunked;
     er_output_buffer := er_output_buffer r |}.
Definition er_set_output_buffer (output_buffer : evbuffer) (r : evhttp_request) : evhttp_request :=
  {| er_own := er_own r; er_proxy := er_proxy r; er_input_headers := er_input_headers r;
     er_output_headers := er_output_headers r; er_kind := er_kind r; er_type := er_type r;
     er_uri := er_uri r; er_major := er_major r; er_minor := er_minor r;
     er_response_code := er_response_code r; er_response_code_line := er_response_code_line r;
     er_input_buffer := er_input_buffer r; er_ntoread := er_ntoread r; er_chunked := er_chunked r;
     er_output_buffer := output_buffer |}.

Definition evhttp_request_new : evhttp_request :=
  {| er_own := false; er_proxy := false; er_input_headers := []; er_output_headers := [];
     er_kind := EVHTTP_RESPONSE; er_type := EVHTTP_REQ_GET; er_uri := None; er_major := 0; er_minor := 0;
     er_response_code := 0; er_response_code_line := None; er_input_buffer := evbuffer_new; er_ntoread := 0;
     er_chunked := false; er_output_buffer := evbuffer_new |}.

(** ** The first line *)

Definition evhttp_method (type : evhttp_cmd_type) : string :=
  match type with EVHTTP_REQ_GET => "GET" | EVHTTP_REQ_POST => "POST" | EVHTTP_REQ_HEAD => "HEAD" end.
Definition method_type (method : string) : option evhttp_cmd_type :=
  if bool_decide (method = "GET") then Some EVHTTP_REQ_GET
  else if bool_decide (method = "POST") then Some EVHTTP_REQ_POST
  else if bool_decide (method = "HEAD") then Some EVHTTP_REQ_HEAD
  else None.
Definition version_of (version : string) : option (Z * Z) :=
  if bool_decide (version = "HTTP/1.0") then Some (1, 0)
  else if bool_decide (version = "HTTP/1.1") then Some (1, 1)
  else None.

(** The result, 0 or -1, and the request as it is left. *)
Definition evhttp_parse_request_line (req : evhttp_request) (line : string) : Z * evhttp_request :=
  let '(method, line) := strsep " " line in
  match line with
  | None => (-1, req)
  | Some line =>
      let '(uri, line) := strsep " " line in
      match line with
      | None => (-1, req)
      | Some line =>
          let '(version, line) := strsep " " line in
          match line with
          | Some _ => (-1, req)
          | None =>
              match method_type method with
              | None => (-1, req)
              | Some type =>
                  let req := er_set_type type req in
                  match version_of version with
                  | None => (-1, req)
                  | Some (major, minor) =>
                      let req := er_set_uri (Some uri) (er_set_version major minor req) in
                      (0, match uri with
                          | EmptyString => req
                          | String c _ => if bool_decide (c = "/"%char) then req else er_set_proxy true req
                          end)
                  end
              end
          end
      end
  end.

Definition evhttp_valid_response_code (code : Z) : bool := negb (code =? 0).
Definition evhttp_parse_response_line (req : evhttp_request) (line : string) : Z * evhttp_request :=
  let '(protocol, line) := strsep " " line in
  match line with
  | None => (-1, req)
  | Some line =>
      let '(number, line) := strsep " " line in
      match line with
      | None => (-1, req)
      | Some readable =>
          match version_of protocol with
          | None => (-1, req)
          | Some (major, minor) =>
              let code := atoi number in
              let req := er_set_response code (er_response_code_line req) (er_set_version major minor req) in
              if negb (evhttp_valid_response_code code) then (-1, req)
              else (0, er_set_response code (Some readable) req)
          end
      end
  end.

(** A line read from the buffer is a C string: it ends at a NUL in it. *)
Definition line_text (line : list ascii) : string := unchars (c_chars line).
Definition evhttp_parse_firstline (req : evhttp_request) (buffer : evbuffer)
    : outcome (message_read_status * evhttp_request * evbuffer) :=
  '(line, buffer) ← evbuffer_readline buffer;
  match line with
  | None => Done (MORE_DATA_EXPECTED, req, buffer)
  | Some line =>
      let '(res, req) := match er_kind req with
                         | EVHTTP_REQUEST => evhttp_parse_request_line req (line_text line)
                         | EVHTTP_RESPONSE => evhttp_parse_response_line req (line_text line)
                         end in
      Done (if res =? -1 then DATA_CORRUPTED else ALL_DATA_READ, req, buffer)
  end.

(** ** Header lines *)

(** One line: the headers with it, or an error. *)
Definition header_line (hs : headers) (line : string) : Z * headers :=
  match line with
  | EmptyString => (-1, hs)
  | String c _ =>
      if bool_decide (c = " "%char) || bool_decide (c = "009"%char) then evhttp_append_to_last_header hs line
      else
        let '(skey, svalue) := strsep ":" line in
        match svalue with
        | None => (-1, hs)
        | Some svalue => evhttp_add_header hs skey (skip_set " " svalue)
        end
  end.
Fixpoint headers_loop (fuel : nat) (hs : headers) (buffer : evbuffer) : outcome (message_read_status * headers * evbuffer) :=
  match fuel with
  | O => Hang
  | S fuel =>
      '(line, buffer) ← evbuffer_readline buffer;
      match line_text <$> line with
      | None => Done (MORE_DATA_EXPECTED, hs, buffer)
      | Some EmptyString => Done (ALL_DATA_READ, hs, buffer)
      | Some line =>
          let '(res, hs) := header_line hs line in
          if res =? -1 then Done (DATA_CORRUPTED, hs, buffer) else headers_loop fuel hs buffer
      end
  end.
Definition evhttp_parse_headers (req : evhttp_request) (buffer : evbuffer)
    : outcome (message_read_status * evhttp_request * evbuffer) :=
  '(status, hs, buffer) ← headers_loop (S (Z.to_nat (eb_off buffer))) (er_input_headers req) buffer;
  Done (status, er_set_input_headers hs req, buffer).

(** ** The body *)

(** [strtoll(s, &endp, base)] for bases 10 and 16: the value and [endp]. *)
Definition base_digit (base : Z) (c : ascii) : option nat :=
  match hex_val c with Some d => if Z.of_nat d <? base then Some d else None | None => None end.
Definition strtoll (base : Z) (s : string) : Z * string :=
  let t := skip_space s in
  let '(neg, t) := match t with
                   | String c u => if bool_decide (c = "-"%char) then (true, u)
                                   else if bool_decide (c = "+"%char) then (false, u) else (false, t)
                   | EmptyString => (false, t)
                   end in
  let t := match t with
           | String z (String x (String d _ as u)) =>
               if (base =? 16) && bool_decide (z = "0"%char) && bool_decide (lower x = "x"%char) && isxdigit d then u else t
           | _ => t
           end in
  let '(v, n, rest) := read_digits (base_digit base) base 0 0 t in
  if bool_decide (n = O) then (0, s) else (clamp64 (if neg then - v else v), rest).

Definition evhttp_get_body_length (req : evhttp_request) : Z * evhttp_request :=
  let hs := er_input_headers req in
  let set_ntoread n := er_set_body (er_input_buffer req) n req in
  match find_header hs "Content-Length", find_header hs "Connection" with
  | None, None => (0, set_ntoread (-1))
  | None, Some connection => if same_name connection "Close" then (0, set_ntoread (-1)) else (-1, req)
  | Some content_length, _ =>
      let '(ntoread, endp) := strtoll 10 content_length in
      if bool_decide (content_length = EmptyString) || negb (bool_decide (endp = EmptyString)) || (ntoread <? 0)
      then (-1, req) else (0, set_ntoread ntoread)
  end.

(** Moving [n] bytes from the front of [buf] to the end of [into]. *)
Definition move_bytes (n : Z) (into buf : evbuffer) : outcome (evbuffer * evbuffer) :=
  data ← read_mem (eb_mem buf) (eb_buffer buf) n;
  into ← evbuffer_add data into;
  Done (into, evbuffer_drain n buf).

(** Chunks; no callback is set for them. *)
Fixpoint chunked_loop (fuel : nat) (req : evhttp_request) (buf : evbuffer)
    : outcome (message_read_status * evhttp_request * evbuffer) :=
  match fuel with
  | O => Hang
  | S fuel =>
      let len := wrap32 (eb_off buf) in
      if len <=? 0 then Done (MORE_DATA_EXPECTED, req, buf)
      else if er_ntoread req <? 0 then
        '(p, buf) ← evbuffer_readline buf;
        match line_text <$> p with
        | None => Done (MORE_DATA_EXPECTED, req, buf)
        | Some EmptyString => chunked_loop fuel req buf
        | Some p =>
            let '(ntoread, endp) := strtoll 16 p in
            if negb (match endp with EmptyString => true | String c _ => bool_decide (c = " "%char) end) || (ntoread <? 0)
            then Done (DATA_CORRUPTED, req, buf)
            else
              let req := er_set_body (er_input_buffer req) ntoread req in
              if ntoread =? 0 then Done (ALL_DATA_READ, req, buf) else chunked_loop fuel req buf
        end
      else if len <? er_ntoread req then Done (MORE_DATA_EXPECTED, req, buf)
      else
        '(into, buf) ← move_bytes (er_ntoread req) (er_input_buffer req) buf;
        chunked_loop fuel (er_set_body into (-1) req) buf
  end.
Definition evhttp_handle_chunked_read (req : evhttp_request) (buf : evbuffer)
    : outcome (message_read_status * evhttp_request * evbuffer) :=
  chunked_loop (S (2 * Z.to_nat (eb_off buf))) req buf.

(** ** Printing *)

(** [EVHTTP_PROXY_REQUEST] is [proxy]. *)
Definition evhttp_is_connection_close (proxy : bool) (hs : headers) : bool :=
  if proxy then
    match find_header hs "Proxy-Connection" with None => true | Some c => negb (same_name c "keep-alive") end
  else match find_header hs "Connection" with None => false | Some c => same_name c "close" end.
Definition evhttp_is_connection_keepalive (hs : headers) : bool :=
  match find_header hs "Connection" with None => false | Some c => starts_ci "keep-alive" c end.

(** [strftime] of the time; the text is an input. *)
Definition evhttp_maybe_add_date_header (date : string) (hs : headers) : headers :=
  match find_header hs "Date" with None => (evhttp_add_header hs "Date" date).2 | Some _ => hs end.
Definition content_length_text (n : Z) : string := snprintf 12 (print_int n).
Definition evhttp_maybe_add_content_length_header (hs : headers) (content_length : Z) : headers :=
  match find_header hs "Transfer-Encoding", find_header hs "Content-Length" with
  | None, None => (evhttp_add_header hs "Content-Length" (content_length_text content_length)).2
  | _, _ => hs
  end.

Definition printf (t : string) (b : evbuffer) : outcome evbuffer := r ← evbuffer_add_printf (chars t) b; Done r.2.

Definition evhttp_make_header_request (req : evhttp_request) (out : evbuffer) : outcome (evhttp_request * evbuffer) :=
  let req := er_set_output_headers (remove_header (er_output_headers req) "Proxy-Connection") req in
  out ← printf (evhttp_method (er_type req) +:+ " " +:+ default "(null)" (er_uri req) +:+ " HTTP/" +:+ print_int (er_major req)
                +:+ "." +:+ print_int (er_minor req) +:+ crlf) out;
  let hs := er_output_headers req in
  let hs := if bool_decide (er_type req = EVHTTP_REQ_POST) && bool_decide (find_header hs "Content-Length" = None)
            then (evhttp_add_header hs "Content-Length" (content_length_text (eb_off (er_output_buffer req)))).2 else hs in
  Done (er_set_output_headers hs req, out).

(** The headers of a reply. *)
Definition response_headers (date : string) (req : evhttp_request) : headers :=
  let is_keepalive := evhttp_is_connection_keepalive (er_input_headers req) in
  let length := eb_off (er_output_buffer req) in
  let hs := er_output_headers req in
  let hs :=
    if er_major req =? 1 then
      let hs := if er_minor req =? 1 then evhttp_maybe_add_date_header date hs else hs in
      let hs := if (er_minor req =? 0) && is_keepalive then (evhttp_add_header hs "Connection" "keep-alive").2 else hs in
      if (er_minor req =? 1) || is_keepalive then evhttp_maybe_add_content_length_header hs length else hs
    else hs in
  let hs := if negb (length =? 0) && bool_decide (find_header hs "Content-Type" = None)
            then (evhttp_add_header hs "Content-Type" "text/html; charset=ISO-8859-1").2 else hs in
  if evhttp_is_connection_close (er_proxy req) (er_input_headers req) then
    let hs := remove_header hs "Connection" in
    let hs := if er_proxy req then hs else (evhttp_add_header hs "Connection" "close").2 in
    remove_header hs "Proxy-Connection"
  else hs.
Definition evhttp_make_header_response (date : string) (req : evhttp_request) (out : evbuffer)
    : outcome (evhttp_request * evbuffer) :=
  out ← printf ("HTTP/" +:+ print_int (er_major req) +:+ "." +:+ print_int (er_minor req) +:+ " "
                +:+ print_int (er_response_code req) +:+ " " +:+ default "(null)" (er_response_code_line req) +:+ crlf) out;
  Done (er_set_output_headers (response_headers date req) req, out).

Fixpoint print_headers (hs : headers) (out : evbuffer) : outcome evbuffer :=
  match hs with
  | [] => Done out
  | (k, v) :: hs => out ← printf (k +:+ ": " +:+ v +:+ crlf) out; print_headers hs out
  end.
(** On the output buffer of the connection. *)
Definition evhttp_make_header (date : string) (req : evhttp_request) (out : evbuffer) : outcome (evhttp_request * evbuffer) :=
  '(req, out) ← match er_kind req with
                | EVHTTP_REQUEST => evhttp_make_header_request req out
                | EVHTTP_RESPONSE => evhttp_make_header_response date req out
                end;
  out ← print_headers (er_output_headers req) out;
  out ← evbuffer_add (chars crlf) out;
  if 0 <? eb_off (er_output_buffer req) then
    '(out, body) ← evbuffer_add_buffer out (er_output_buffer req);
    Done (er_set_output_buffer body req, out)
  else Done (req, out).

(** ** Connections *)

Inductive evhttp_connection_state :=
  | EVCON_DISCONNECTED | EVCON_CONNECTING | EVCON_IDLE | EVCON_READING_FIRSTLINE | EVCON_READING_HEADERS
  | EVCON_READING_BODY | EVCON_READING_TRAILER | EVCON_WRITING.
(** The event the connection is registered for. *)
Inductive pending := EvNone | EvRead | EvWrite.

(** [ec_cb] says whether [evhttp_send_done] is called when the output is
    written; [ec_handled] is the list of requests that were handed out. *)
Record evhttp_connection := {
  ec_input_buffer : evbuffer;
  ec_output_buffer : evbuffer;
  ec_state : evhttp_connection_state;
  ec_request : option evhttp_request;
  ec_cb : bool;
  ec_event : pending;
  ec_freed : bool;
  ec_handled : list evhttp_request;
}.

(** Setting fields. *)
Definition ec_set_input (input_buffer : evbuffer) (r : evhttp_connection) : evhttp_connection :=
  {| ec_input_buffer := input_buffer; ec_output_buffer := ec_output_buffer r; ec_state := ec_state r;
     ec_request := ec_request r; ec_cb := ec_cb r; ec_event := ec_event r; ec_freed := ec_freed r;
     ec_handled := ec_handled r |}.
Definition ec_set_output (output_buffer : evbuffer) (r : evhttp_connection) : evhttp_connection :=
  {| ec_input_buffer := ec_input_buffer r; ec_output_buffer := output_buffer; ec_state := ec_state r;
     ec_request := ec_request r; ec_cb := ec_cb r; ec_event := ec_event r; ec_freed := ec_freed r;
     ec_handled := ec_handled r |}.
Definition ec_set_state (state : evhttp_connection_state) (r : evhttp_connection) : evhttp_connection :=
  {| ec_input_buffer := ec_input_buffer r; ec_output_buffer := ec_output_buffer r; ec_state := state;
     ec_request := ec_request r; ec_cb := ec_cb r; ec_event := ec_event r; ec_freed := ec_freed r;
     ec_handled := ec_handled r |}.
Definition ec_set_request (request : option evhttp_request) (r : evhttp_connection) : evhttp_connection :=
  {| ec_input_buffer := ec_input_buffer r; ec_output_buffer := ec_output_buffer r; ec_state := ec_state r;
     ec_request := request; ec_cb := ec_cb r; ec_event := ec_event r; ec_freed := ec_freed r;
     ec_handled := ec_handled r |}.
Definition ec_set_cb (cb : bool) (r : evhttp_connection) : evhttp_connection :=
  {| ec_input_buffer := ec_input_buffer r; ec_output_buffer := ec_output_buffer r; ec_state := ec_state r;
     ec_request := ec_request r; ec_cb := cb; ec_event := ec_event r; ec_freed := ec_freed r;
     ec_handled := ec_handled r |}.
Definition ec_set_event (event : pending) (r : evhttp_connection) : evhttp_connection :=
  {| ec_input_buffer := ec_input_buffer r; ec_output_buffer := ec_output_buffer r; ec_state := ec_state r;
     ec_request := ec_request r; ec_cb := ec_cb r; ec_event := event; ec_freed := ec_freed r;
     ec_handled := ec_handled r |}.
Definition ec_set_freed (freed : bool) (r : evhttp_connection) : evhttp_connection :=
  {| ec_input_buffer := ec_input_buffer r; ec_output_buffer := ec_output_buffer r; ec_state := ec_state r;
     ec_request := ec_request r; ec_cb := ec_cb r; ec_event := ec_event r; ec_freed := freed;
     ec_handled := ec_handled r |}.
Definition ec_set_handled (handled : list evhttp_request) (r : evhttp_connection) : evhttp_connection :=
  {| ec_input_buffer := ec_input_buffer r; ec_output_buffer := ec_output_buffer r; ec_state := ec_state r;
     ec_request := ec_request r; ec_cb := ec_cb r; ec_event := ec_event r; ec_freed := ec_freed r;
     ec_handled := handled |}.

(** What a handler does with a request: an error page, a reply, the start of a
    reply in chunks, nothing; or it does not return. *)
Inductive answer :=
  | AError (code : Z) (reason : string)
  | AReply (hs : headers) (code : Z) (reason : string) (body : list ascii)
  | AStart (hs : headers) (code : Z) (reason : string)
  | ANone
  | AFault.

Section server.
(** The callback or generic callback a request goes to, if there is one. *)
Variable handler : evhttp_request → option answer.
Variable date : string.

Definition evhttp_connection_free (c : evhttp_connection) : evhttp_connection :=
  ec_set_freed true (ec_set_event EvNone (ec_set_request None c)).

Definition evhttp_write_buffer (cb : bool) (c : evhttp_connection) : evhttp_connection :=
  ec_set_event EvWrite (ec_set_cb cb c).

Definition evhttp_response_code (code : Z) (reason : string) (req : evhttp_request) : evhttp_request :=
  er_set_response code (Some reason) (er_set_kind EVHTTP_RESPONSE req).

(** The header, on the connection. *)
Definition make_header (c : evhttp_connection) (req : evhttp_request) : outcome evhttp_connection :=
  '(req, out) ← evhttp_make_header date req (ec_output_buffer c);
  Done (ec_set_request (Some req) (ec_set_output out c)).
Definition evhttp_send (databuf : evbuffer) (c : evhttp_connection) (req : evhttp_request) : outcome evhttp_connection :=
  '(body, _) ← evbuffer_add_buffer (er_output_buffer req) databuf;
  c ← make_header c (er_set_output_buffer body req);
  Done (evhttp_write_buffer true c).
Definition evhttp_send_reply (code : Z) (reason : string) (databuf : evbuffer) (c : evhttp_connection) (req : evhttp_request)
    : outcome evhttp_connection :=
  evhttp_send databuf c (evhttp_response_code code reason req).

Definition evhttp_send_page (databuf : evbuffer) (c : evhttp_connection) (req : evhttp_request) : outcome evhttp_connection :=
  let req := if (er_major req =? 0) || (er_minor req =? 0) then er_set_version 1 1 req else req in
  let req := match er_kind req with EVHTTP_RESPONSE => req | EVHTTP_REQUEST => evhttp_response_code 200 "OK" req end in
  let hs := evhttp_clear_headers (er_output_headers req) in
  let hs := (evhttp_add_header hs "Content-Type" "text/html").2 in
  let hs := (evhttp_add_header hs "Connection" "close").2 in
  evhttp_send databuf c (er_set_output_headers hs req).

Definition nl : string := String LF EmptyString.
Definition error_page (code : Z) (reason : string) : string :=
  "<HTML><HEAD>" +:+ nl +:+ "<TITLE>" +:+ print_int code +:+ " " +:+ reason +:+ "</TITLE>" +:+ nl +:+ "</HEAD><BODY>" +:+ nl
  +:+ "<H1>Method Not Implemented</H1>" +:+ nl +:+ "Invalid method in request<P>" +:+ nl +:+ "</BODY></HTML>" +:+ nl.
Definition evhttp_send_error (code : Z) (reason : string) (c : evhttp_connection) (req : evhttp_request)
    : outcome evhttp_connection :=
  let req := er_set_output_headers (evhttp_add_header (er_output_headers req) "Connection" "close").2 req in
  let req := evhttp_response_code code reason req in
  buf ← printf (error_page code reason) evbuffer_new;
  evhttp_send_page buf c req.

Definition evhttp_send_reply_start (code : Z) (reason : string) (c : evhttp_connection) (req : evhttp_request)
    : outcome evhttp_connection :=
  let req := evhttp_response_code code reason req in
  let req := if (er_major req =? 1) && (er_minor req =? 1)
             then er_set_chunked true (er_set_output_headers (evhttp_add_header (er_output_headers req) "Transfer-Encoding" "chunked").2 req)
             else req in
  c ← make_header c req;
  Done (evhttp_write_buffer false c).

(** [%x]. *)
Fixpoint hex_loop (fuel : nat) (n : Z) (s : string) : string :=
  match fuel with
  | O => s
  | S fuel =>
      let s := String (nth (Z.to_nat (n mod 16)) (chars "0123456789abcdef") zero) s in
      if n <? 16 then s else hex_loop fuel (n / 16) s
  end.
Definition print_hex (n : Z) : string := hex_loop 8 (n mod 2 ^ 32) EmptyString.

(** The connection the request is on, and its output buffer after the calls. *)
Definition evhttp_send_reply_chunk (databuf : evbuffer) (c : evhttp_connection) : outcome evhttp_connection :=
  match ec_request c with
  | None => Overrun
  | Some req =>
      out ← (if er_chunked req then printf (print_hex (eb_off databuf) +:+ crlf) (ec_output_buffer c)
             else Done (ec_output_buffer c));
      '(out, _) ← evbuffer_add_buffer out databuf;
      out ← (if er_chunked req then evbuffer_add (chars crlf) out else Done out);
      Done (evhttp_write_buffer false (ec_set_output out c))
  end.

(** A new request for the connection, which starts to read. *)
Definition evhttp_start_read (c : evhttp_connection) : evhttp_connection :=
  ec_set_state EVCON_READING_FIRSTLINE (ec_set_event EvRead c).
Definition new_request : evhttp_request :=
  {| er_own := true; er_proxy := er_proxy evhttp_request_new; er_input_headers := er_input_headers evhttp_request_new;
     er_output_headers := er_output_headers evhttp_request_new; er_kind := EVHTTP_REQUEST;
     er_type := er_type evhttp_request_new; er_uri := er_uri evhttp_request_new; er_major := er_major evhttp_request_new;
     er_minor := er_minor evhttp_request_new; er_response_code := er_response_code evhttp_request_new;
     er_response_code_line := er_response_code_line evhttp_request_new; er_input_buffer := er_input_buffer evhttp_request_new;
     er_ntoread := er_ntoread evhttp_request_new; er_chunked := er_chunked evhttp_request_new;
     er_output_buffer := er_output_buffer evhttp_request_new |}.
Definition evhttp_associate_new_request_with_connection (c : evhttp_connection) : evhttp_connection :=
  evhttp_start_read (ec_set_request (Some new_request) c).

(** An accepted connection. *)
Definition evhttp_connection_new : evhttp_connection :=
  {| ec_input_buffer := evbuffer_new; ec_output_buffer := evbuffer_new; ec_state := EVCON_DISCONNECTED; ec_request := None;
     ec_cb := false; ec_event := EvNone; ec_freed := false; ec_handled := [] |}.
Definition evhttp_get_request_connection : evhttp_connection := ec_set_state EVCON_READING_FIRSTLINE evhttp_connection_new.
Definition evhttp_get_request : evhttp_connection :=
  evhttp_associate_new_request_with_connection evhttp_get_request_connection.

Definition need_close (req : evhttp_request) : bool :=
  ((er_minor req =? 0) && negb (evhttp_is_connection_keepalive (er_input_headers req)))
  || evhttp_is_connection_close (er_proxy req) (er_input_headers req)
  || evhttp_is_connection_close (er_proxy req) (er_output_headers req).
Definition evhttp_send_done (c : evhttp_connection) : outcome evhttp_connection :=
  match ec_request c with
  | None => Overrun
  | Some req =>
      check (er_own req) ≫= λ _,
      let c := ec_set_request None c in
      if need_close req then Done (evhttp_connection_free c)
      else Done (evhttp_associate_new_request_with_connection c)
  end.
Definition evhttp_send_reply_end (c : evhttp_connection) : outcome evhttp_connection :=
  match ec_request c with
  | None => Overrun
  | Some req =>
      if er_chunked req then
        out ← evbuffer_add (chars ("0" +:+ crlf +:+ crlf)) (ec_output_buffer c);
        Done (ec_set_request (Some (er_set_chunked false req)) (evhttp_write_buffer true (ec_set_output out c)))
      else match ec_event c with
           | EvWrite => Done (ec_set_cb true c)
           | _ => evhttp_send_done c
           end
  end.

(** ** Handing out a request *)

Definition not_found_page (escaped : string) : string :=
  "<html><head><title>404 Not Found</title></head><body><h1>Not Found</h1><p>The requested URL " +:+ escaped
  +:+ " was not found on this server.</p></body></html>" +:+ nl.
Definition perform (a : answer) (c : evhttp_connection) (req : evhttp_request) : outcome evhttp_connection :=
  let with_headers hs := er_set_output_headers (foldl (λ l kv, (evhttp_add_header l kv.1 kv.2).2) (er_output_headers req) hs) req in
  match a with
  | AError code reason => evhttp_send_error code reason c req
  | AReply hs code reason body =>
      databuf ← evbuffer_add body evbuffer_new;
      evhttp_send_reply code reason databuf c (with_headers hs)
  | AStart hs code reason => evhttp_send_reply_start code reason c (with_headers hs)
  | ANone => Done (ec_set_request (Some req) c)
  | AFault => Overrun
  end.
Definition evhttp_handle_request (c : evhttp_connection) (req : evhttp_request) : outcome evhttp_connection :=
  match er_uri req with
  | None => evhttp_send_error 400 "Bad Request" c req
  | Some uri =>
      match handler req with
      | Some a => perform a (ec_set_handled (ec_handled c ++ [req]) c) req
      | None =>
          escaped_html ← evhttp_htmlescape uri;
          let req := evhttp_response_code 404 "Not Found" req in
          buf ← printf (not_found_page escaped_html) evbuffer_new;
          evhttp_send_page buf c req
      end
  end.

Definition evhttp_connection_done (c : evhttp_connection) (req : evhttp_request) : outcome evhttp_connection :=
  evhttp_handle_request (ec_set_state EVCON_WRITING c) req.
Definition evhttp_connection_fail (error : evhttp_connection_error) (c : evhttp_connection) (req : evhttp_request)
    : outcome evhttp_connection :=
  match error with
  | EVCON_HTTP_TIMEOUT | EVCON_HTTP_EOF => Done (evhttp_connection_free c)
  | EVCON_HTTP_INVALID_HEADER => evhttp_handle_request c (er_set_uri None req)
  end.

(** ** Reading *)

(** The request and the input buffer, back on the connection. *)
Definition keep (c : evhttp_connection) (req : evhttp_request) (buf : evbuffer) : evhttp_connection :=
  ec_set_request (Some req) (ec_set_input buf c).
Definition wait_read (c : evhttp_connection) : evhttp_connection := ec_set_event EvRead c.

Definition evhttp_read_trailer (c : evhttp_connection) (req : evhttp_request) : outcome evhttp_connection :=
  '(status, req, buf) ← evhttp_parse_headers req (ec_input_buffer c);
  let c := keep c req buf in
  match status with
  | DATA_CORRUPTED => evhttp_connection_fail EVCON_HTTP_INVALID_HEADER c req
  | ALL_DATA_READ => evhttp_connection_done (ec_set_event EvNone c) req
  | _ => Done (wait_read c)
  end.
Definition evhttp_read_body (c : evhttp_connection) (req : evhttp_request) : outcome evhttp_connection :=
  if er_chunked req then
    '(status, req, buf) ← evhttp_handle_chunked_read req (ec_input_buffer c);
    let c := keep c req buf in
    match status with
    | ALL_DATA_READ => evhttp_read_trailer (ec_set_state EVCON_READING_TRAILER c) req
    | DATA_CORRUPTED => evhttp_connection_fail EVCON_HTTP_INVALID_HEADER c req
    | REQUEST_CANCELED => Done (ec_set_request None c)
    | MORE_DATA_EXPECTED => Done (wait_read c)
    end
  else if er_ntoread req <? 0 then
    '(into, buf) ← evbuffer_add_buffer (er_input_buffer req) (ec_input_buffer c);
    Done (wait_read (keep c (er_set_body into (er_ntoread req) req) buf))
  else if er_ntoread req <=? eb_off (ec_input_buffer c) then
    '(into, buf) ← move_bytes (er_ntoread req) (er_input_buffer req) (ec_input_buffer c);
    let req := er_set_body into 0 req in
    evhttp_connection_done (keep c req buf) req
  else Done (wait_read c).
Definition evhttp_get_body (c : evhttp_connection) (req : evhttp_request) : outcome evhttp_connection :=
  if bool_decide (er_kind req = EVHTTP_REQUEST) && negb (bool_decide (er_type req = EVHTTP_REQ_POST))
  then evhttp_connection_done c req
  else
    let c := ec_set_state EVCON_READING_BODY c in
    let is_chunked := match find_header (er_input_headers req) "Transfer-Encoding" with
                      | Some xfer_enc => same_name xfer_enc "chunked"
                      | None => false
                      end in
    if is_chunked then
      let req := er_set_body (er_input_buffer req) (-1) (er_set_chunked true req) in
      evhttp_read_body (ec_set_request (Some req) c) req
    else
      let '(res, req) := evhttp_get_body_length req in
      let c := ec_set_request (Some req) c in
      if res =? -1 then evhttp_connection_fail EVCON_HTTP_INVALID_HEADER c req else evhttp_read_body c req.
Definition evhttp_read_header (c : evhttp_connection) (req : evhttp_request) : outcome evhttp_connection :=
  '(status, req, buf) ← evhttp_parse_headers req (ec_input_buffer c);
  let c := keep c req buf in
  match status with
  | DATA_CORRUPTED => evhttp_connection_fail EVCON_HTTP_INVALID_HEADER c req
  | ALL_DATA_READ => evhttp_get_body c req
  | _ => Done (wait_read c)
  end.
Definition evhttp_read_firstline (c : evhttp_connection) (req : evhttp_request) : outcome evhttp_connection :=
  '(status, req, buf) ← evhttp_parse_firstline req (ec_input_buffer c);
  let c := keep c req buf in
  match status with
  | DATA_CORRUPTED => evhttp_connection_fail EVCON_HTTP_INVALID_HEADER c req
  | ALL_DATA_READ => evhttp_read_header (ec_set_state EVCON_READING_HEADERS c) req
  | _ => Done (wait_read c)
  end.

(** What the socket does when the event fires: a timeout; or [read] on it, with
    what FIONREAD says and whether an error is temporary. *)
Inductive socket_in :=
  | InTimeout
  | InRead (avail : option Z) (rd : Z → option (list ascii)) (again : bool).
Definition evhttp_read (what : socket_in) (c : evhttp_connection) : outcome evhttp_connection :=
  match ec_request c with
  | None => Overrun
  | Some req =>
      let c := ec_set_event EvNone c in
      match what with
      | InTimeout => evhttp_connection_fail EVCON_HTTP_TIMEOUT c req
      | InRead avail rd again =>
          '(n, buf) ← evbuffer_read avail rd (-1) (ec_input_buffer c);
          let c := ec_set_input buf c in
          if n =? -1 then
            if again then Done (wait_read c) else evhttp_connection_fail EVCON_HTTP_EOF c req
          else if n =? 0 then evhttp_connection_done c req
          else match ec_state c with
               | EVCON_READING_FIRSTLINE => evhttp_read_firstline c req
               | EVCON_READING_HEADERS => evhttp_read_header c req
               | EVCON_READING_BODY => evhttp_read_body c req
               | EVCON_READING_TRAILER => evhttp_read_trailer c req
               | _ => Overrun
               end
      end
  end.

(** ** Writing *)

Inductive socket_out := OutTimeout | OutWrite (wr : list ascii → option nat).
Definition evhttp_write (what : socket_out) (c : evhttp_connection) : outcome evhttp_connection :=
  match ec_request c with
  | None => Overrun
  | Some req =>
      let c := ec_set_event EvNone c in
      match what with
      | OutTimeout => evhttp_connection_fail EVCON_HTTP_TIMEOUT c req
      | OutWrite wr =>
          '(n, out) ← evbuffer_write wr (ec_output_buffer c);
          let c := ec_set_output out c in
          if (n =? -1) || (n =? 0) then evhttp_connection_fail EVCON_HTTP_EOF c req
          else if negb (eb_off out =? 0) then Done (ec_set_event EvWrite c)
          else if ec_cb c then evhttp_send_done c else Done c
      end
  end.
End server.
