(* ===== verification/HttpSpec.v ===== *)
(** Reading requests: whatever the pieces a request arrives in, the handler is
    called once with what the client sent. *)
From S2P Require Import Prelude Numeric Evbuffer HttpText HttpUri Http.
#[local] Open Scope Z_scope.

(** ** Numbers *)

Lemma base_digit_pretty base x : (x < 10)%N → 10 <= base → base_digit base (pretty_N_char x) = Some (N.to_nat x).
Proof.
  intros Hx Hb. unfold base_digit.
  assert (Hh : hex_val (pretty_N_char x) = Some (N.to_nat x)).
  { assert (x = 0 ∨ x = 1 ∨ x = 2 ∨ x = 3 ∨ x = 4 ∨ x = 5 ∨ x = 6 ∨ x = 7 ∨ x = 8 ∨ x = 9)%N as Hc by lia.
    repeat destruct Hc as [->|Hc]; try reflexivity. by subst. }
  rewrite Hh. rewrite (proj2 (Z.ltb_lt _ _)) by lia. done.
Qed.
Lemma read_digits_pretty_go x s :
  ∃ k, read_digits (base_digit 10) 10 0 0 (pretty_N_go x s) = read_digits (base_digit 10) 10 (Z.of_N x) k s ∧ ((0 < x)%N → (0 < k)%nat).
Proof.
  revert s. apply (pretty_N_go_ind (λ x s,
    ∃ k, read_digits (base_digit 10) 10 0 0 (pretty_N_go x s) = read_digits (base_digit 10) 10 (Z.of_N x) k s ∧ ((0 < x)%N → (0 < k)%nat))).
  - intros t. exists O. split; [done|lia].
  - clear. intros x s Hx (k & IH & Hk). rewrite pretty_N_go_step by done. rewrite IH. cbn [read_digits].
    rewrite base_digit_pretty by (try (apply N.mod_lt; lia); lia). exists (S k). split; [|lia].
    f_equal. pose proof (N.div_mod x 10). lia.
Qed.
Lemma digit_headed_plain c t : digit_headed (String c t) →
  Ascii.is_space c = false ∧ c ≠ "-"%char ∧ c ≠ "+"%char.
Proof. cbn [digit_headed]. revert c. assert (∀ c, is_digit c → Ascii.is_space c = false ∧ c ≠ "-"%char ∧ c ≠ "+"%char) by by_ascii. done. Qed.
Lemma print_int_headed n : 0 <= n → digit_headed (print_int n).
Proof. intros Hn. unfold print_int. destruct n as [|p|p]; [by eexists| |lia]. apply (pretty_N_digit_headed (N.pos p)). Qed.
Lemma strtoll_10_print n : 0 <= n < 2 ^ 63 → strtoll 10 (print_int n) = (n, EmptyString).
Proof.
  intros Hn. assert (Ht : ∃ k, read_digits (base_digit 10) 10 0 0 (print_int n) = (n, S k, EmptyString)).
  { unfold print_int. destruct n as [|p|p]; [by exists O| |lia]. change (pretty (Z.pos p)) with (pretty (N.pos p)).
    unfold pretty, pretty_N. rewrite decide_False by done. destruct (read_digits_pretty_go (N.pos p) EmptyString) as (k & -> & Hk).
    destruct k as [|k]; [lia|]. by exists k. }
  pose proof (print_int_headed n ltac:(lia)) as Hd.
  destruct Ht as (k & Ht). unfold strtoll. destruct (print_int n) as [|c t] eqn:E; [done|].
  destruct (digit_headed_plain c t Hd) as (H1 & H2 & H3). cbn [skip_space]. rewrite H1.
  rewrite !bool_decide_false by done. change (10 =? 16) with false.
  assert (Hm : match String c t with
           | String z (String x (String d _ as u)) =>
               if false && bool_decide (z = "0"%char) && bool_decide (lower x = "x"%char) && isxdigit d then u else String c t
           | _ => String c t end = String c t) by by destruct t as [|? [|? ?]].
  cbv zeta. rewrite Hm, Ht. rewrite bool_decide_false by done. unfold clamp64. f_equal. lia.
Qed.
Lemma content_length_exact n : 0 <= n < 10 ^ 11 → content_length_text n = print_int n.
Proof.
  intros Hn. unfold content_length_text, snprintf. apply chars_inj. rewrite chars_stake. apply take_ge.
  change (slen (print_int n) ≤ 11)%nat. unfold print_int. destruct n as [|p|p]; [by vm_compute; lia| |lia].
  change (pretty (Z.pos p)) with (pretty (N.pos p)). unfold pretty, pretty_N. rewrite decide_False by done.
  etrans; [apply (slen_pretty_go_bound 11)|by vm_compute]. change (10 ^ N.of_nat 11)%N with 100000000000%N. lia.
Qed.

(** ** Lines *)

Definition plain (c : ascii) : Prop := line_end c = false ∧ c ≠ zero.
#[export] Instance plain_dec c : Decision (plain c).
Proof. unfold plain. apply _. Defined.
Definition plain_text (s : string) : Prop := Forall plain (chars s).

Lemma plain_no_end l : Forall plain l → Forall (λ c, line_end c = false) l.
Proof. intros H. eapply Forall_impl; [exact H|]. by intros c []. Qed.
Lemma plain_c_chars l : Forall plain l → c_chars l = l.
Proof. intros H. apply c_chars_id. intros Hz. rewrite Forall_forall in H. by destruct (H _ Hz). Qed.
Lemma readline_spec_line line rest out l' :
  Forall (λ c, line_end c = false) line → ev_spec OpReadline (line ++ CR :: LF :: rest) out l' → out = Some line ∧ l' = rest.
Proof.
  intros Hline Hspec. inversion Hspec as [| | | |? Hno|i ? Hbefore (c & Hc & Hce)| |]; subst.
  - apply Forall_app in Hno as [_ Hno]. by apply Forall_cons in Hno as [? _].
  - assert (Hi : i = length line).
    { destruct (lt_eq_lt_dec i (length line)) as [[Hlt|]|Hgt]; [|done|].
      - rewrite lookup_app_l in Hc by done. rewrite Forall_lookup in Hline. by rewrite (Hline _ _ Hc) in Hce.
      - rewrite Forall_lookup in Hbefore. specialize (Hbefore (length line) CR). rewrite lookup_take_lt in Hbefore by lia. rewrite list_lookup_middle in Hbefore by done. by specialize (Hbefore eq_refl). }
    subst i. unfold after_line. rewrite take_app_length, drop_app_length. done.
Qed.

Section lines.
  Context (K : Z) (b : evbuffer).
  Hypothesis HK : K < MAX_ROOM.

Lemma readline_full line rest :
  queue K b (line ++ CR :: LF :: rest) → zlength (line ++ CR :: LF :: rest) < 2 ^ 32 - 1 → Forall plain line →
  ∃ b', evbuffer_readline b = Done (Some line, b') ∧ queue K b' rest.
Proof.
  intros Hq Hl Hp. destruct (queue_readline K b _ Hq HK Hl) as (out & b' & l' & E & Hs & Hq').
  apply readline_spec_line in Hs as [-> ->]; [|by apply plain_no_end]. by exists b'.
Qed.
Lemma readline_part l :
  queue K b l → zlength l < 2 ^ 32 - 1 → Forall (λ c, line_end c = false) l →
  ∃ b', evbuffer_readline b = Done (None, b') ∧ queue K b' l.
Proof.
  intros Hq Hl Hp. destruct (queue_readline K b _ Hq HK Hl) as (out & b' & l' & E & Hs & Hq').
  inversion Hs as [| | | |? Hno|i ? Hbefore (c & Hc & Hce)| |]; subst; [by exists b'|].
  rewrite Forall_lookup in Hp. by rewrite (Hp _ _ Hc) in Hce.
Qed.
End lines.

(** [l] has arrived and [f] has not: the cut does not part the two characters
    that end a line of the head, before [body]. *)
Definition clean_cut (body l f : list ascii) : Prop := last l = Some CR → (length f ≤ length body)%nat.

Lemma clean_cut_drop body k l f : clean_cut body (k ++ l) f → clean_cut body l f.
Proof. intros H E. apply H. rewrite last_app, E. done. Qed.
Lemma cut_line body line tail l f :
  l ++ f = line ++ CR :: LF :: tail → Forall plain line → clean_cut body l f → (length body ≤ length tail)%nat →
  (∃ l2, l = line ++ CR :: LF :: l2 ∧ l2 ++ f = tail) ∨ Forall (λ c, line_end c = false) l.
Proof.
  intros E Hp Hcut Hlen. apply app_eq_inv in E as [(k & E1 & E2)|(k & E1 & E2)].
  - destruct k as [|c k].
    + right. rewrite app_nil_r in E1. subst. by apply plain_no_end.
    + injection E2 as <- E2. destruct k as [|d k].
      * exfalso. subst l. simpl in E2. assert (Hf : (length f ≤ length body)%nat) by (apply Hcut; by rewrite last_snoc).
        rewrite <-E2 in Hf. simpl in Hf. lia.
      * left. injection E2 as <- E2. exists k. split; [by rewrite E1|done].
  - right. subst line. apply Forall_app in Hp as [Hp _]. by apply plain_no_end.
Qed.

(** ** Header lines *)

(** A header that is one line, with the blank the printer adds. *)
Definition good_header (kv : string * string) : Prop :=
  plain_text kv.1 ∧ plain_text kv.2 ∧ smem ":" kv.1 = false
  ∧ match kv.1 with String c _ => c ≠ " "%char ∧ c ≠ "009"%char | EmptyString => True end
  ∧ match kv.2 with String c _ => c ≠ " "%char | EmptyString => True end.
Definition header_text (kv : string * string) : string := kv.1 +:+ ": " +:+ kv.2.
(** The lines, and the blank line that ends them. *)
Definition crlf_lines (ls : list string) : list ascii := ls ≫= λ line, chars line ++ [CR; LF].
Definition head_text (hs : headers) : list ascii := crlf_lines (header_text <$> hs) ++ [CR; LF].

Lemma plain_text_app s t : plain_text (s +:+ t) ↔ plain_text s ∧ plain_text t.
Proof. unfold plain_text. by rewrite chars_app, Forall_app. Qed.
Lemma good_header_plain kv : good_header kv → plain_text (header_text kv).
Proof.
  intros (Hk & Hv & _). unfold header_text. rewrite !plain_text_app. split_and!; [done| |done].
  unfold plain_text. repeat (apply Forall_cons; split; [by vm_compute|]). by apply Forall_nil.
Qed.
Lemma plain_text_free s c : plain_text s → line_end c = true ∨ c = zero → smem c s = false.
Proof.
  intros Hp Hc. apply smem_not_elem. intros Hin. unfold plain_text in Hp. rewrite Forall_forall in Hp.
  destruct (Hp c Hin) as [? ?], Hc; congruence.
Qed.
Lemma plain_text_c s : plain_text s → c_text s = s.
Proof. intros Hp. apply c_text_id, smem_not_elem. apply plain_text_free; [done|by right]. Qed.
Lemma strpbrk_plain s : plain_text s → strpbrk crlf s = None.
Proof.
  intros Hp. induction s as [|c s IH]; [done|]. apply Forall_cons in Hp as [[Hc _] Hs]. cbn [strpbrk].
  assert (Hm : smem c crlf = false); [|rewrite Hm; by apply IH]. revert c Hc.
  assert (∀ c, line_end c = false → smem c crlf = false) by by_ascii. done.
Qed.
Lemma add_header_plain hs k v : plain_text k → plain_text v → evhttp_add_header hs k v = (0, hs ++ [(k, v)]).
Proof.
  intros Hk Hv. unfold evhttp_add_header. rewrite !(plain_text_free k) by (done || by left). cbn [orb].
  unfold evhttp_header_is_valid_value. cbn [valid_loop]. rewrite strpbrk_plain by done. cbn [negb].
  unfold evhttp_add_header_internal. by rewrite !plain_text_c.
Qed.
Lemma header_line_parsed hs kv : good_header kv → header_line hs (header_text kv) = (0, hs ++ [kv]).
Proof.
  destruct kv as [k v]. intros (Hk & Hv & Hc & H1 & H2). cbn [fst snd] in *. unfold header_line, header_text. cbn [fst snd].
  assert (Hsep : strsep ":" (k +:+ ": " +:+ v) = (k, Some (String " " v))) by (rewrite sapp_cons; by apply strsep_at).
  assert (Hskip : skip_set " " (String " " v) = v).
  { cbn [skip_set smem]. rewrite bool_decide_true by done. cbn [orb]. destruct v as [|c v]; [done|]. cbn [skip_set smem].
    by rewrite bool_decide_false. }
  rewrite Hsep, Hskip, add_header_plain by done. destruct k as [|c k]; [done|]. destruct H1. rewrite sapp_cons.
  by rewrite !bool_decide_false by done.
Qed.
Lemma header_text_cons kv : good_header kv → ∃ c t, header_text kv = String c t.
Proof. intros _. unfold header_text. destruct kv as [[|c k] v]; cbn [fst snd]; rewrite ?sapp_nil_l, ?sapp_cons; eauto. Qed.

Lemma line_text_plain s : plain_text s → line_text (chars s) = s.
Proof. intros H. unfold line_text. by rewrite plain_c_chars, unchars_chars. Qed.

(** The lines of the buffer that are complete are parsed: either the head goes
    on, and the buffer holds a part of its next line, or it ended and the
    buffer holds a part of the body. *)
Lemma headers_run body hls : ∀ fuel hs K b l f,
  Forall good_header hls → queue K b l → K < MAX_ROOM → zlength l < 2 ^ 32 - 1 →
  l ++ f = head_text hls ++ body → clean_cut body l f → (length l < fuel)%nat →
  (∃ parsed rest b' l', hls = parsed ++ rest ∧ headers_loop fuel hs b = Done (MORE_DATA_EXPECTED, hs ++ parsed, b')
     ∧ queue K b' l' ∧ l' ++ f = head_text rest ++ body ∧ clean_cut body l' f ∧ Forall (λ c, line_end c = false) l')
  ∨ (∃ b' l', headers_loop fuel hs b = Done (ALL_DATA_READ, hs ++ hls, b') ∧ queue K b' l' ∧ l' ++ f = body).
Proof.
  induction hls as [|kv hls IH]; intros fuel hs K b l f Hall Hq HK Hl E Hcut Hf; (destruct fuel as [|fuel]; [lia|]).
  - destruct (cut_line body [] body l f E) as [(l2 & -> & E2)|Hpart]; [by apply Forall_nil|done|lia| |].
    + right. destruct (readline_full K b HK [] l2 Hq Hl) as (b' & Er & Hq'); [by apply Forall_nil|].
      exists b', l2. cbn [headers_loop]. rewrite Er, done_bind. cbn [fmap option_fmap option_map line_text c_chars unchars]. by rewrite app_nil_r.
    + left. destruct (readline_part K b HK l Hq Hl Hpart) as (b' & Er & Hq'). exists [], [], b', l.
      cbn [headers_loop]. rewrite Er, done_bind. rewrite !app_nil_r. by split_and!.
  - apply Forall_cons in Hall as [Hkv Hall]. pose proof (good_header_plain kv Hkv) as Hp.
    assert (E0 : l ++ f = chars (header_text kv) ++ CR :: LF :: head_text hls ++ body).
    { rewrite E. unfold head_text, crlf_lines. cbn [fmap list_fmap mbind list_bind]. by rewrite <-!app_assoc. }
    destruct (cut_line body _ _ l f E0 Hp Hcut) as [(l2 & -> & E2)|Hpart]; [rewrite length_app; lia| |].
    + destruct (readline_full K b HK _ l2 Hq Hl Hp) as (b' & Er & Hq').
      rewrite length_app in Hf. simpl in Hf. rewrite zlength_app in Hl. pose proof (zlength_nonneg (chars (header_text kv))).
      destruct (IH fuel (hs ++ [kv]) K b' l2 f Hall Hq' HK) as [(parsed & rest & b2 & l' & -> & Eh & H1)|(b2 & l' & Eh & H1)];
        [unfold zlength in *; simpl in *; lia|done|by eapply (clean_cut_drop _ (chars (header_text kv) ++ [CR; LF])); rewrite <-app_assoc|lia| |].
      all: rewrite <-app_assoc in Eh.
      * left. exists (kv :: parsed), rest, b2, l'. split; [done|]. split; [|done]. 
        cbn [headers_loop]. rewrite Er, done_bind. cbn [fmap option_fmap option_map]. rewrite line_text_plain by done.
        destruct (header_text_cons kv Hkv) as (c & t & Ec). rewrite Ec. rewrite <-Ec, header_line_parsed by done. exact Eh.
      * right. exists b2, l'. split; [|done]. cbn [headers_loop]. rewrite Er, done_bind. cbn [fmap option_fmap option_map].
        rewrite line_text_plain by done. destruct (header_text_cons kv Hkv) as (c & t & Ec). rewrite Ec.
        rewrite <-Ec, header_line_parsed by done. exact Eh.
    + left. destruct (readline_part K b HK l Hq Hl Hpart) as (b' & Er & Hq'). exists [], (kv :: hls), b', l.
      cbn [headers_loop]. rewrite Er, done_bind. rewrite !app_nil_r. by split_and!.
Qed.

(** ** A request that arrives in pieces *)

Definition is_proxy (uri : string) : bool :=
  match uri with EmptyString => false | String c _ => negb (bool_decide (c = "/"%char)) end.
(** The request after its first line. *)
Definition with_line (type : evhttp_cmd_type) (uri : string) (minor : Z) : evhttp_request :=
  er_set_proxy (is_proxy uri) (er_set_uri (Some uri) (er_set_version 1 minor (er_set_type type new_request))).
Definition first_line (type : evhttp_cmd_type) (uri : string) (minor : Z) : string :=
  evhttp_method type +:+ " " +:+ uri +:+ " HTTP/" +:+ print_int 1 +:+ "." +:+ print_int minor.

Lemma read_exact K b l p :
  queue K b l → p ≠ [] → zlength p <= 4096 → K + zlength p < MAX_ROOM →
  ∃ b', evbuffer_read (Some (zlength p)) (λ n, Some (take (Z.to_nat n) p)) (-1) b = Done (zlength p, b')
    ∧ queue (K + zlength p) b' (l ++ p).
Proof.
  unfold MAX_ROOM. intros Hq Hp Hlen HK. pose proof (zlength_nonneg p). pose proof (queue_bounds _ _ _ Hq). pose proof Hq as (Hb & ? & ?).
  assert (0 < zlength p) by (destruct p; [done|unfold zlength; simpl; lia]).
  unfold evbuffer_read. cbv zeta.
  assert (Es : read_size (Some (zlength p)) (-1) b = zlength p).
  { unfold read_size, EVBUFFER_MAX_READ. cbv zeta. rewrite (proj2 (Z.leb_gt _ _)) by lia. rewrite (proj2 (Z.ltb_ge 4096 _)) by lia. done. }
  rewrite Es. replace (u64 (zlength p)) with (zlength p) by (unfold u64; rewrite Z.mod_small; lia).
  destruct (expand_run (zlength p) b l Hb) as (b1 & -> & Hb1 & Hr1 & [Hm1 Ht1] & Ho1 & _ & _); [lia|lia|]. rewrite done_bind.
  replace (take (Z.to_nat (zlength p)) p) with p by (rewrite take_ge; [done|unfold zlength; lia]).
  destruct p as [|c p]; [done|]. pose proof Hb1 as [_ Hmis1 Hoff1 Hfit1 _ Hsm1 _].
  destruct (write_run b1 l Hb1 (c :: p) []) as (mem & Hw & Hh1); [rewrite app_nil_r; lia|lia|]. rewrite app_nil_r in Hw.
  rewrite Hw, done_bind. eexists. split; [reflexivity|]. split; [by apply notify_holds|].
  pose proof (holds_off_nonneg _ _ Hb). cbn [notify set_data eb_misalign eb_off eb_totallen]. unfold u64. rewrite Z.mod_small by lia. lia.
Qed.
Lemma move_run K K' n b l into k :
  queue K b l → queue K' into k → 0 <= n <= zlength l → K < MAX_ROOM → K' + n < MAX_ROOM →
  ∃ into' b', move_bytes n into b = Done (into', b') ∧ queue K b' (drop (Z.to_nat n) l) ∧ queue (K' + n) into' (k ++ take (Z.to_nat n) l).
Proof.
  intros Hq Hi Hn HK HK'. unfold move_bytes. rewrite (read_run b l) by (try apply Hq; rewrite (queue_off _ _ _ Hq); lia). rewrite done_bind.
  assert (El : zlength (take (Z.to_nat n) l) = n) by (unfold zlength in *; rewrite length_take; lia).
  destruct (queue_add K' into k Hi (take (Z.to_nat n) l)) as (into' & -> & Hi'); [lia|]. rewrite done_bind.
  eexists _, _. split; [reflexivity|]. rewrite El in Hi'. split; [|done].
  pose proof (queue_bounds _ _ _ Hq). unfold MAX_ROOM in *. apply queue_drain; try done; unfold MAX_ROOM; lia.
Qed.

#[local] Opaque evhttp_handle_request.
Section arrival.
  Context (handler : evhttp_request → option answer) (date : string).
  Context (type : evhttp_cmd_type) (uri : string) (minor : Z) (hs : headers) (body : list ascii) (c0 : evhttp_connection).
  Hypothesis Huri : plain_text uri.
  Hypothesis Hblank : smem " " uri = false.
  Hypothesis Hminor : minor = 0 ∨ minor = 1.
  Hypothesis Hhs : Forall good_header hs.
  Hypothesis Hpost : type = EVHTTP_REQ_POST →
    find_header hs "Transfer-Encoding" = None ∧ find_header hs "Content-Length" = Some (print_int (zlength body)).
  Hypothesis Hget : type ≠ EVHTTP_REQ_POST → body = [].

(** The connection waits for more, with the request as far as it is known. *)
Definition waiting (st : evhttp_connection_state) (req : evhttp_request) (b : evbuffer) : evhttp_connection :=
  ec_set_event EvRead (ec_set_state st (ec_set_request (Some req) (ec_set_input b c0))).
Definition finished (req : evhttp_request) (b : evbuffer) : evhttp_connection :=
  ec_set_event EvNone (ec_set_state EVCON_WRITING (ec_set_request (Some req) (ec_set_input b c0))).
Definition with_headers (hs : headers) : evhttp_request := er_set_input_headers hs (with_line type uri minor).

Inductive awaiting (K : Z) (f : list ascii) : evhttp_connection → Prop :=
  | await_line b l :
      queue K b l → l ++ f = chars (first_line type uri minor) ++ CR :: LF :: head_text hs ++ body →
      clean_cut body l f → Forall (λ c, line_end c = false) l → awaiting K f (waiting EVCON_READING_FIRSTLINE new_request b)
  | await_head parsed rest b l :
      queue K b l → hs = parsed ++ rest → l ++ f = head_text rest ++ body → clean_cut body l f →
      Forall (λ c, line_end c = false) l → awaiting K f (waiting EVCON_READING_HEADERS (with_headers parsed) b)
  | await_body b l :
      queue K b l → type = EVHTTP_REQ_POST → l ++ f = body → zlength l < zlength body →
      awaiting K f (waiting EVCON_READING_BODY (er_set_body evbuffer_new (zlength body) (with_headers hs)) b).
(** The request the handler gets. *)
Definition handed_out (req : evhttp_request) : Prop :=
  ∃ into n, req = er_set_body into n (with_headers hs) ∧ holds into body.
Definition progress (K : Z) (f : list ascii) (r : outcome evhttp_connection) : Prop :=
  (∃ c, r = Done c ∧ awaiting K f c)
  ∨ (f = [] ∧ ∃ req b, r = evhttp_handle_request handler date (finished req b) req ∧ handed_out req ∧ queue K b []).

Lemma awaiting_more K f c : awaiting K f c → f ≠ [].
Proof.
  intros Ha ->. destruct Ha as [b l _ E _ Hno|parsed rest b l _ _ E _ Hno|b l _ _ E Hlt]; rewrite app_nil_r in E; subst l.
  - apply Forall_app in Hno as [_ Hno]. by apply Forall_cons in Hno as [? _].
  - apply Forall_app in Hno as [Hno _]. unfold head_text in Hno. apply Forall_app in Hno as [_ Hno]. by apply Forall_cons in Hno as [? _].
  - lia.
Qed.

Lemma body_progress K b l f :
  type = EVHTTP_REQ_POST → queue K b l → K < MAX_ROOM → zlength body < MAX_ROOM → l ++ f = body →
  let req := er_set_body evbuffer_new (zlength body) (with_headers hs) in
  progress K f (evhttp_read_body handler date (ec_set_event EvNone (waiting EVCON_READING_BODY req b)) req).
Proof.
  intros Hty Hq HK HB E req. pose proof (zlength_nonneg body). 
  unfold evhttp_read_body. change (er_chunked req) with false. change (er_ntoread req) with (zlength body).
  rewrite (proj2 (Z.ltb_ge _ _)) by lia. change (ec_input_buffer _) with b. rewrite (queue_off _ _ _ Hq).
  destruct (Z.leb_spec (zlength body) (zlength l)) as [Hle|Hgt].
  - right. assert (f = []) as ->.
    { rewrite <-E in Hle. rewrite zlength_app in Hle. destruct f; [done|unfold zlength in Hle; simpl in Hle; lia]. }
    rewrite app_nil_r in E. subst l. split; [done|].
    destruct (move_run K 0 (zlength body) b body evbuffer_new [] Hq queue_new) as (into & b' & Em & Hq' & Hi'); [lia|done|lia|].
    change (er_input_buffer req) with evbuffer_new. rewrite Em, done_bind.
    rewrite drop_ge in Hq' by (unfold zlength; lia). rewrite take_ge in Hi' by (unfold zlength; lia).
    exists (er_set_body into 0 (with_headers hs)), b'. split; [reflexivity|]. split; [exists into, 0; split; [done|apply Hi']|done].
  - left. eexists. split; [reflexivity|]. by apply await_body with l.
Qed.
Lemma get_body_progress K b l f :
  queue K b l → K < MAX_ROOM → zlength body < MAX_ROOM → l ++ f = body →
  progress K f (evhttp_get_body handler date (ec_set_event EvNone (waiting EVCON_READING_HEADERS (with_headers hs) b)) (with_headers hs)).
Proof.
  intros Hq HK HB E. unfold evhttp_get_body. change (er_kind (with_headers hs)) with EVHTTP_REQUEST.
  change (er_type (with_headers hs)) with type. change (er_input_headers (with_headers hs)) with hs.
  rewrite (bool_decide_true (EVHTTP_REQUEST = _)) by done. cbn [andb]. case_bool_decide as Hty; cbn [negb].
  - destruct (Hpost Hty) as [Hte Hcl]. rewrite Hte. cbv zeta. unfold evhttp_get_body_length.
    change (er_input_headers (with_headers hs)) with hs. rewrite Hcl. cbv zeta. pose proof (zlength_nonneg body).
    rewrite strtoll_10_print by (unfold MAX_ROOM in HB; lia). rewrite (bool_decide_true (EmptyString = EmptyString)) by done.
    assert (Hne : print_int (zlength body) ≠ EmptyString).
    { pose proof (print_int_headed (zlength body) ltac:(lia)) as Hd. by destruct (print_int (zlength body)). }
    rewrite bool_decide_false by done. rewrite (proj2 (Z.ltb_ge (zlength body) 0)) by lia. cbn [negb orb].
    change (0 =? -1) with false. apply (body_progress K b l f); try done.
  - rewrite (Hget Hty) in E. apply app_eq_nil in E as [-> ->]. right. split; [done|].
    exists (with_headers hs), b. split; [done|]. split; [|done]. exists evbuffer_new, 0. rewrite (Hget Hty). split; [done|apply holds_new].
Qed.
Lemma parse_headers_progress K b l f parsed rest :
  queue K b l → K < MAX_ROOM → zlength l < 2 ^ 32 - 1 → zlength body < MAX_ROOM → hs = parsed ++ rest →
  l ++ f = head_text rest ++ body → clean_cut body l f →
  progress K f (evhttp_read_header handler date (ec_set_event EvNone (waiting EVCON_READING_HEADERS (with_headers parsed) b)) (with_headers parsed)).
Proof.
  intros Hq HK Hl HB Eh E Hcut. unfold evhttp_read_header, evhttp_parse_headers. change (ec_input_buffer _) with b.
  change (er_input_headers (with_headers parsed)) with parsed.
  assert (Hrest : Forall good_header rest) by (rewrite Eh in Hhs; by apply Forall_app in Hhs as [_ ?]).
  destruct (headers_run body rest (S (Z.to_nat (eb_off b))) parsed K b l f Hrest Hq HK Hl E Hcut)
    as [(parsed' & rest' & b' & l' & -> & Er & Hq' & E' & Hcut' & Hno)|(b' & l' & Er & Hq' & E')].
  { rewrite (queue_off _ _ _ Hq). unfold zlength. lia. }
  - rewrite Er, !done_bind. left. eexists. split; [reflexivity|]. rewrite app_assoc in Eh.
    exact (await_head K f (parsed ++ parsed') rest' b' l' Hq' Eh E' Hcut' Hno).
  - rewrite Er, !done_bind. rewrite <-Eh. exact (get_body_progress K b' l' f Hq' HK HB E').
Qed.

Lemma request_line_parsed : evhttp_parse_request_line new_request (first_line type uri minor) = (0, with_line type uri minor).
Proof.
  unfold evhttp_parse_request_line, first_line.
  assert (Hm : smem " " (evhttp_method type) = false) by by destruct type.
  rewrite sapp_cons, sapp_nil_l, (strsep_at _ _ _ Hm), sapp_cons, (strsep_at _ _ _ Hblank).
  assert (Hv : ∃ v, "HTTP/" +:+ print_int 1 +:+ "." +:+ print_int minor = v ∧ smem " " v = false ∧ version_of v = Some (1, minor))
    by (destruct Hminor as [->| ->]; eexists; split; [reflexivity|by vm_compute|reflexivity|by vm_compute]).
  destruct Hv as (v & -> & Hv1 & Hv2). rewrite (strsep_none _ _ Hv1).
  assert (Ht : method_type (evhttp_method type) = Some type) by by destruct type. rewrite Ht, Hv2.
  f_equal. unfold with_line, is_proxy. destruct uri as [|c u]; [done|]. by case_bool_decide.
Qed.
Lemma first_line_plain : plain_text (first_line type uri minor).
Proof.
  unfold first_line. rewrite !plain_text_app. split_and!; try done; unfold plain_text.
  - by destruct type; apply (bool_decide_eq_true_1 (Forall _ _)).
  - by apply (bool_decide_eq_true_1 (Forall _ _)).
  - by apply (bool_decide_eq_true_1 (Forall _ _)).
  - by apply (bool_decide_eq_true_1 (Forall _ _)).
  - by apply (bool_decide_eq_true_1 (Forall _ _)).
  - by destruct Hminor as [->| ->]; apply (bool_decide_eq_true_1 (Forall _ _)).
Qed.
Lemma firstline_progress K b l f :
  queue K b l → K < MAX_ROOM → zlength l < 2 ^ 32 - 1 → zlength body < MAX_ROOM →
  l ++ f = chars (first_line type uri minor) ++ CR :: LF :: head_text hs ++ body → clean_cut body l f →
  progress K f (evhttp_read_firstline handler date (ec_set_event EvNone (waiting EVCON_READING_FIRSTLINE new_request b)) new_request).
Proof.
  intros Hq HK Hl HB E Hcut. unfold evhttp_read_firstline, evhttp_parse_firstline. change (ec_input_buffer _) with b.
  destruct (cut_line body _ _ l f E first_line_plain Hcut) as [(l2 & -> & E2)|Hpart]; [rewrite length_app; lia| |].
  - destruct (readline_full K b HK _ l2 Hq Hl first_line_plain) as (b' & -> & Hq'). rewrite !done_bind.
    change (er_kind new_request) with EVHTTP_REQUEST. rewrite line_text_plain by apply first_line_plain. rewrite request_line_parsed.
    change (0 =? -1) with false. rewrite done_bind.
    apply (parse_headers_progress K b' l2 f [] hs); try done.
    + rewrite zlength_app in Hl. pose proof (zlength_nonneg (chars (first_line type uri minor))). unfold zlength in *. simpl in *. lia.
    + eapply (clean_cut_drop _ (chars (first_line type uri minor) ++ [CR; LF])). by rewrite <-app_assoc.
  - destruct (readline_part K b HK l Hq Hl Hpart) as (b' & -> & Hq'). rewrite !done_bind. left. eexists. split; [reflexivity|].
    by apply await_line with l.
Qed.

(** The next piece. *)
Definition arrive (p : list ascii) : socket_in := InRead (Some (zlength p)) (λ n, Some (take (Z.to_nat n) p)) false.
Lemma read_progress K p f c :
  awaiting K (p ++ f) c → p ≠ [] → zlength p <= 4096 → clean_cut body p f → K + zlength p < 2 ^ 31 →
  zlength body < MAX_ROOM → progress (K + zlength p) f (evhttp_read handler date (arrive p) c).
Proof.
  intros Ha Hp Hlen Hcut HK HB. assert (HK' : K + zlength p < MAX_ROOM) by (unfold MAX_ROOM; lia).
  assert (Hcat : ∀ l, clean_cut body (l ++ p) f) by (intros l Hl; apply Hcut; rewrite last_app in Hl; destruct p using rev_ind; [done|by rewrite last_snoc in *]).
  assert (Hpos : 0 < zlength p) by (destruct p; [done|unfold zlength; simpl; lia]).
  assert (Hread : ∀ st req b l, queue K b l → ∃ b', queue (K + zlength p) b' (l ++ p)
    ∧ evhttp_read handler date (arrive p) (waiting st req b)
      = let c := ec_set_event EvNone (waiting st req b') in
        match st with
        | EVCON_READING_FIRSTLINE => evhttp_read_firstline handler date c req
        | EVCON_READING_HEADERS => evhttp_read_header handler date c req
        | EVCON_READING_BODY => evhttp_read_body handler date c req
        | EVCON_READING_TRAILER => evhttp_read_trailer handler date c req
        | _ => Overrun
        end).
  { intros st req b l Hq. destruct (read_exact K b l p Hq Hp Hlen HK') as (b' & Er & Hq'). exists b'. split; [done|].
    unfold evhttp_read, arrive. change (ec_request _) with (Some req). change (ec_input_buffer _) with b. rewrite Er, done_bind.
    rewrite (proj2 (Z.eqb_neq _ _)) by lia. rewrite (proj2 (Z.eqb_neq _ _)) by lia. by destruct st. }
  assert (Hsmall : ∀ b' l, queue (K + zlength p) b' l → zlength l < 2 ^ 32 - 1) by (intros b' l Hq; apply queue_bounds in Hq; lia).
  destruct Ha as [b l Hq E Hcl Hno|parsed rest b l Hq Eh E Hcl Hno|b l Hq Hty E Hlt].
  - destruct (Hread EVCON_READING_FIRSTLINE new_request b l Hq) as (b' & Hq' & ->). eapply firstline_progress; eauto. by rewrite <-app_assoc.
  - destruct (Hread EVCON_READING_HEADERS (with_headers parsed) b l Hq) as (b' & Hq' & ->). 
    eapply parse_headers_progress; eauto. by rewrite <-app_assoc.
  - destruct (Hread EVCON_READING_BODY (er_set_body evbuffer_new (zlength body) (with_headers hs)) b l Hq) as (b' & Hq' & ->).
    eapply body_progress; eauto. by rewrite <-app_assoc.
Qed.
End arrival.

Fixpoint receive (handler : evhttp_request → option answer) (date : string) (pieces : list (list ascii)) (c : evhttp_connection)
    : outcome evhttp_connection :=
  match pieces with
  | [] => Done c
  | p :: pieces => c ← evhttp_read handler date (arrive p) c; receive handler date pieces c
  end.
(** Pieces a read delivers whole, none of which ends between the two characters
    that end a line of the head. *)
Definition good_pieces (body : list ascii) (pieces : list (list ascii)) : Prop :=
  Forall (λ p, p ≠ [] ∧ zlength p <= 4096) pieces
  ∧ ∀ pre p suf, pieces = pre ++ p :: suf → clean_cut body p (concat suf).

Lemma outcome_bind_Done {A} (m : outcome A) : m ≫= Done = m.
Proof. by destruct m. Qed.
Lemma receive_run handler date type uri minor hs body c0 pieces : ∀ K c,
  plain_text uri → smem " " uri = false → minor = 0 ∨ minor = 1 → Forall good_header hs →
  (type = EVHTTP_REQ_POST →
     find_header hs "Transfer-Encoding" = None ∧ find_header hs "Content-Length" = Some (print_int (zlength body))) →
  (type ≠ EVHTTP_REQ_POST → body = []) →
  awaiting type uri minor hs body c0 K (concat pieces) c → good_pieces body pieces →
  K + zlength (concat pieces) < 2 ^ 31 → zlength body < MAX_ROOM →
  ∃ req b, receive handler date pieces c = evhttp_handle_request handler date (finished c0 req b) req
    ∧ handed_out type uri minor hs body req ∧ holds b [].
Proof.
  induction pieces as [|p pieces IH]; intros K c Huri Hblank Hminor Hhs Hpost Hget Ha [Hall Hcuts] HK HB.
  { by apply awaiting_more in Ha. }
  apply Forall_cons in Hall as [[Hp Hlen] Hall]. cbn [concat] in *. rewrite zlength_app in HK.
  pose proof (zlength_nonneg (concat pieces)). cbn [receive].
  destruct (read_progress handler date type uri minor hs body c0 Huri Hblank Hminor Hhs Hpost Hget K p (concat pieces) c Ha Hp Hlen)
    as [(c1 & -> & Ha1)|(Hf & req & b & Er & Hout & Hq)]; [by apply (Hcuts [] p pieces)|lia|done| |].
  - rewrite done_bind. apply (IH (K + zlength p)); try done; [|lia]. split; [done|]. intros pre q suf ->. by apply (Hcuts (p :: pre) q suf).
  - assert (pieces = []) as -> by (destruct pieces as [|q ps]; [done|]; apply Forall_cons in Hall as [[Hq0 _] _]; by destruct q).
    exists req, b. cbn [receive]. rewrite outcome_bind_Done. split; [done|]. split; [done|apply Hq].
Qed.

(** ** The client's side *)

Lemma queue_print K b l t :
  queue K b l → K + zlength (chars t) + 65 < MAX_ROOM → zlength (chars t) < 2 ^ 31 - 1 →
  ∃ b', printf t b = Done b' ∧ queue (K + (zlength (chars t) + 65)) b' (l ++ chars t).
Proof. intros Hq HK Ht. unfold printf. destruct (queue_printf K b l Hq (chars t) HK Ht) as (b' & -> & Hq'). by exists b'. Qed.
Lemma lines_text_cons line ls : crlf_lines (line :: ls) = chars line ++ CR :: LF :: crlf_lines ls.
Proof. unfold crlf_lines. cbn [mbind list_bind]. by rewrite <-app_assoc. Qed.
Lemma print_headers_run hs : ∀ K b l,
  queue K b l → K + 66 * zlength (crlf_lines (header_text <$> hs)) < MAX_ROOM → zlength (crlf_lines (header_text <$> hs)) < 2 ^ 31 - 1 →
  ∃ b', print_headers hs b = Done b' ∧ queue (K + 66 * zlength (crlf_lines (header_text <$> hs))) b' (l ++ crlf_lines (header_text <$> hs)).
Proof.
  induction hs as [|[k v] hs IH]; intros K b l Hq HK Hs.
  { exists b. split; [done|]. rewrite app_nil_r. eapply queue_weaken; [done|]. change (zlength (crlf_lines (header_text <$> []))) with 0. lia. }
  cbn [fmap list_fmap] in *. rewrite lines_text_cons in *. set (t := crlf_lines _) in *.
  assert (Ec : chars (k +:+ ": " +:+ v +:+ crlf) = chars (header_text (k, v)) ++ [CR; LF])
    by (unfold header_text; cbn [fst snd]; by rewrite !chars_app, <-!app_assoc).
  assert (El : zlength (chars (header_text (k, v)) ++ CR :: LF :: t) = zlength (chars (k +:+ ": " +:+ v +:+ crlf)) + zlength t)
    by (rewrite Ec, <-zlength_app, <-app_assoc; done).
  rewrite El in *. pose proof (zlength_nonneg t). 
  assert (2 <= zlength (chars (k +:+ ": " +:+ v +:+ crlf))) by (rewrite Ec, zlength_app; pose proof (zlength_nonneg (chars (header_text (k, v)))); change (zlength [CR; LF]) with 2; lia).
  cbn [print_headers]. destruct (queue_print K b l (k +:+ ": " +:+ v +:+ crlf) Hq) as (b1 & -> & Hq1); [lia|lia|]. rewrite done_bind.
  apply queue_weaken with (K' := K + 66 * zlength (chars (k +:+ ": " +:+ v +:+ crlf))) in Hq1; [|lia].
  destruct (IH _ b1 _ Hq1) as (b2 & -> & Hq2); [lia|lia|].
  exists b2. split; [done|]. rewrite Ec, <-!app_assoc in Hq2. eapply queue_weaken; [exact Hq2|]. rewrite <-Ec. lia.
Qed.

(** The headers, the blank line and the body. *)
Lemma head_run req K K' out l body :
  queue K out l → queue K' (er_output_buffer req) body →
  K + 66 * zlength (crlf_lines (header_text <$> er_output_headers req)) + 2 + K' < MAX_ROOM →
  zlength (crlf_lines (header_text <$> er_output_headers req)) < 2 ^ 31 - 1 →
  ∃ rest out',
    (out ← print_headers (er_output_headers req) out;
     out ← evbuffer_add (chars crlf) out;
     if 0 <? eb_off (er_output_buffer req) then
       '(out, body) ← evbuffer_add_buffer out (er_output_buffer req);
       Done (er_set_output_buffer body req, out)
     else Done (req, out)) = Done (er_set_output_buffer rest req, out')
    ∧ queue (K + 66 * zlength (crlf_lines (header_text <$> er_output_headers req)) + 2 + K') out' (l ++ head_text (er_output_headers req) ++ body)
    ∧ queue (K + 66 * zlength (crlf_lines (header_text <$> er_output_headers req)) + 2 + K') rest [].
Proof.
  intros Ho Hb HK Hs. pose proof (queue_bounds _ _ _ Ho). pose proof (queue_bounds _ _ _ Hb). set (hl := crlf_lines _) in *.
  pose proof (zlength_nonneg hl).
  destruct (print_headers_run (er_output_headers req) K out l Ho) as (b2 & -> & Hq2); [fold hl; lia|fold hl; lia|]. fold hl in Hq2. rewrite done_bind.
  destruct (queue_add _ b2 _ Hq2 (chars crlf)) as (b3 & -> & Hq3); [change (zlength (chars crlf)) with 2; lia|].
  change (zlength (chars crlf)) with 2 in Hq3. rewrite done_bind.
  assert (Et : ((l ++ hl) ++ chars crlf) ++ body = l ++ head_text (er_output_headers req) ++ body).
  { unfold head_text. fold hl. by rewrite <-!app_assoc. }
  rewrite (queue_off _ _ _ Hb). destruct (Z.ltb_spec 0 (zlength body)) as [Hpos|Hz].
  - destruct (queue_add_buffer _ _ _ _ _ _ Hq3 Hb) as (out' & rest & -> & Hq4 & Hq5); [lia|]. rewrite done_bind.
    exists rest, out'. split; [done|]. rewrite Et in Hq4. done.
  - assert (body = []) as -> by (destruct body; [done|unfold zlength in Hz; simpl in Hz; lia]). rewrite app_nil_r in Et.
    exists (er_output_buffer req), b3. split; [by destruct req|]. split; [rewrite <-Et; eapply queue_weaken; [exact Hq3|lia]|].
    eapply queue_weaken; [exact Hb|lia].
Qed.

Lemma find_header_app l k key : find_header (l ++ k) key = match find_header l key with Some v => Some v | None => find_header k key end.
Proof. induction l as [|[a v] l IH]; [done|]. cbn [app find_header]. by destruct (same_name a key). Qed.
Lemma remove_header_sublist l key : sublist (remove_header l key) l.
Proof. induction l as [|[k v] l IH]; [done|]. cbn [remove_header]. destruct (same_name k key); by constructor. Qed.
Lemma find_header_sublist l l' key : sublist l l' → find_header l' key = None → find_header l key = None.
Proof.
  induction 1 as [|[k v] l l' _ IH|[k v] l l' _ IH]; [done|cbn [find_header]; by destruct (same_name k key)..].
Qed.
Lemma Forall_sublist {A} (P : A → Prop) l l' : sublist l l' → Forall P l' → Forall P l.
Proof. induction 1; [done|rewrite !Forall_cons; naive_solver..]. Qed.

(** A request a client can print. *)
Record sendable (req : evhttp_request) (uri : string) (body : list ascii) : Prop := {
  se_kind : er_kind req = EVHTTP_REQUEST;
  se_uri : er_uri req = Some uri;
  se_plain : plain_text uri;
  se_blank : smem " " uri = false;
  se_major : er_major req = 1;
  se_minor : er_minor req = 0 ∨ er_minor req = 1;
  se_headers : Forall good_header (er_output_headers req);
  se_body : queue (2 ^ 48) (er_output_buffer req) body;
  se_post : er_type req = EVHTTP_REQ_POST →
    find_header (er_output_headers req) "Transfer-Encoding" = None ∧ find_header (er_output_headers req) "Content-Length" = None;
  se_get : er_type req ≠ EVHTTP_REQ_POST → body = [];
}.
Definition sent_headers (req : evhttp_request) (body : list ascii) : headers :=
  let hs := remove_header (er_output_headers req) "Proxy-Connection" in
  if bool_decide (er_type req = EVHTTP_REQ_POST) then hs ++ [("Content-Length", print_int (zlength body))] else hs.
Definition request_text (req : evhttp_request) (uri : string) (body : list ascii) : list ascii :=
  chars (first_line (er_type req) uri (er_minor req)) ++ CR :: LF :: head_text (sent_headers req body) ++ body.

Lemma numeric_plain s : numeric s → plain_text s.
Proof.
  intros H. eapply Forall_impl; [exact H|]. cbv beta. 
  assert (∀ c, numchar c = true → plain c) by by_ascii. done.
Qed.
Lemma content_length_good n : good_header ("Content-Length", print_int n).
Proof.
  assert (Hp : plain_text (print_int n)) by apply numeric_plain, numeric_print_int.
  split_and!; [by apply (bool_decide_eq_true_1 (Forall _ _))|done|done|done|]. cbn [snd].
  pose proof (numeric_print_int n) as Hn. destruct (print_int n) as [|c t]; [done|]. intros ->.
  apply Forall_cons in Hn as [Hc _]. by vm_compute in Hc.
Qed.
Section sending.
  Context (req : evhttp_request) (uri : string) (body : list ascii).
  Hypothesis Hs : sendable req uri body.

Lemma sent_headers_good : Forall good_header (sent_headers req body).
Proof.
  assert (Forall good_header (remove_header (er_output_headers req) "Proxy-Connection"))
    by (eapply Forall_sublist; [apply remove_header_sublist|apply Hs]).
  unfold sent_headers. case_bool_decide; [|done]. apply Forall_app. split; [done|]. apply Forall_singleton, content_length_good.
Qed.
Lemma sent_headers_post : er_type req = EVHTTP_REQ_POST →
  find_header (sent_headers req body) "Transfer-Encoding" = None
  ∧ find_header (sent_headers req body) "Content-Length" = Some (print_int (zlength body)).
Proof.
  intros Hp. destruct (se_post _ _ _ Hs Hp) as [H1 H2]. unfold sent_headers. rewrite bool_decide_true by done.
  rewrite !find_header_app. by rewrite !(find_header_sublist _ _ _ (remove_header_sublist _ _)).
Qed.

Lemma make_header_request_run date :
  zlength (request_text req uri body) < 2 ^ 31 - 1 →
  ∃ req' out, evhttp_make_header date req evbuffer_new = Done (req', out) ∧ holds out (request_text req uri body).
Proof.
  intros Hsize. unfold request_text in *. rewrite zlength_app in Hsize. set (first := first_line _ _ _) in *.
  pose proof (zlength_nonneg (chars first)). pose proof (zlength_nonneg body).
  assert (Hb : zlength (CR :: LF :: head_text (sent_headers req body) ++ body) = 2 + zlength (crlf_lines (header_text <$> sent_headers req body)) + 2 + zlength body).
  { unfold head_text. change (CR :: LF :: ?x) with ([CR; LF] ++ x). rewrite !zlength_app. change (zlength [CR; LF]) with 2. lia. }
  rewrite Hb in Hsize. pose proof (zlength_nonneg (crlf_lines (header_text <$> sent_headers req body))).
  unfold evhttp_make_header. rewrite (se_kind _ _ _ Hs). unfold evhttp_make_header_request. cbv zeta.
  change (er_type (er_set_output_headers ?x req)) with (er_type req). change (er_uri (er_set_output_headers ?x req)) with (er_uri req).
  change (er_major (er_set_output_headers ?x req)) with (er_major req). change (er_minor (er_set_output_headers ?x req)) with (er_minor req).
  change (er_output_headers (er_set_output_headers ?x req)) with x.
  change (er_output_buffer (er_set_output_headers ?x req)) with (er_output_buffer req).
  rewrite (se_uri _ _ _ Hs), (se_major _ _ _ Hs). cbn [default].
  match goal with |- context [printf ?t evbuffer_new] => assert (Ht : chars t = chars first ++ [CR; LF]) end.
  { unfold first, first_line. by rewrite !chars_app, <-!app_assoc. }
  match goal with |- context [printf ?t evbuffer_new] => destruct (queue_print 0 evbuffer_new [] t queue_new) as (b1 & -> & Hq1) end;
    [rewrite Ht, zlength_app; change (zlength [CR; LF]) with 2; unfold MAX_ROOM; lia..|]. rewrite !done_bind.
  rewrite Ht in Hq1. rewrite zlength_app in Hq1. change (zlength [CR; LF]) with 2 in Hq1. cbn [app] in Hq1.
  set (hs := if _ && _ then _ else _). assert (Ehs : hs = sent_headers req body).
  { unfold hs, sent_headers. case_bool_decide as Hp; [|done]. cbn [andb]. destruct (se_post _ _ _ Hs Hp) as [Hte Hcl].
    rewrite (find_header_sublist _ _ _ (remove_header_sublist _ _) Hcl). rewrite bool_decide_true by done.
    rewrite (queue_off _ _ _ (se_body _ _ _ Hs)), content_length_exact by lia.
    destruct (content_length_good (zlength body)) as (G1 & G2 & _). by rewrite (add_header_plain _ _ _ G1 G2). }
  rewrite Ehs.
  set (req1 := er_set_output_headers (sent_headers req body) _).
  destruct (head_run req1 _ (2 ^ 48) b1 _ body Hq1 (se_body _ _ _ Hs)) as (rest & out & -> & Hq2 & _);
    [change (er_output_headers req1) with (sent_headers req body); unfold MAX_ROOM; lia
    |change (er_output_headers req1) with (sent_headers req body); lia|].
  eexists _, out. split; [reflexivity|]. rewrite <-app_assoc in Hq2. apply Hq2.
Qed.
End sending.

(** What the server gets from the bytes of a client. *)
Lemma request_arrives handler date (req : evhttp_request) (uri : string) (body : list ascii) (pieces : list (list ascii)) :
  sendable req uri body → zlength (request_text req uri body) < 2 ^ 31 - 1 →
  concat pieces = request_text req uri body → good_pieces body pieces →
  (∃ req' out, evhttp_make_header date req evbuffer_new = Done (req', out) ∧ holds out (concat pieces))
  ∧ ∃ received b,
      receive handler date pieces evhttp_get_request
      = evhttp_handle_request handler date (finished evhttp_get_request received b) received
    ∧ er_type received = er_type req ∧ er_uri received = er_uri req
    ∧ (er_major received, er_minor received) = (er_major req, er_minor req)
    ∧ er_input_headers received = sent_headers req body ∧ holds (er_input_buffer received) body ∧ holds b []
    ∧ er_output_headers received = [] ∧ er_output_buffer received = evbuffer_new ∧ er_own received = true.
Proof.
  intros Hs Hsize Hcat Hpieces. rewrite Hcat. split; [by apply make_header_request_run|].
  assert (HB : zlength body < MAX_ROOM).
  { unfold request_text in Hsize. rewrite zlength_app in Hsize. change (CR :: LF :: ?x) with ([CR; LF] ++ x) in Hsize. rewrite !zlength_app in Hsize.
    pose proof (zlength_nonneg (head_text (sent_headers req body))). pose proof (zlength_nonneg (chars (first_line (er_type req) uri (er_minor req)))).
    change (zlength [CR; LF]) with 2 in Hsize. unfold MAX_ROOM. lia. }
  destruct (receive_run handler date (er_type req) uri (er_minor req) (sent_headers req body) body evhttp_get_request pieces 0 evhttp_get_request)
    as (received & b & Er & (into & n & -> & Hinto) & Hb); try apply Hs; try done.
  - by apply (sent_headers_good req uri).
  - by apply (sent_headers_post req uri).
  - rewrite Hcat. refine (await_line (er_type req) uri (er_minor req) (sent_headers req body) body evhttp_get_request 0 _ evbuffer_new [] _ _ _ _); [apply queue_new|done|done|by apply Forall_nil].
  - rewrite Hcat. lia.
  - eexists _, b. split; [exact Er|]. by rewrite (se_uri _ _ _ Hs), (se_major _ _ _ Hs).
Qed.

(** C14: a request reaches the handler as it was sent: the bytes the
    client half prints for it, for any method, URI, version, headers and body
    that fit their syntax, are read by the server in whatever pieces they
    arrive in, as long as none is cut between the two characters that end a
    line of the head; no buffer is overrun, no loop runs on, and with the last
    piece, not before, the handler is called with the method, URI, version,
    headers and body of the client, the input buffer empty. *)
Theorem request_roundtrip handler date (req : evhttp_request) (uri : string) (body : list ascii) (pieces : list (list ascii)) :
  sendable req uri body → zlength (request_text req uri body) < 2 ^ 31 - 1 →
  concat pieces = request_text req uri body → good_pieces body pieces →
  (∃ req' out, evhttp_make_header date req evbuffer_new = Done (req', out) ∧ holds out (concat pieces))
  ∧ ∃ received b,
      receive handler date pieces evhttp_get_request
      = evhttp_handle_request handler date (finished evhttp_get_request received b) received
    ∧ er_type received = er_type req ∧ er_uri received = er_uri req
    ∧ (er_major received, er_minor received) = (er_major req, er_minor req)
    ∧ er_input_headers received = sent_headers req body ∧ holds (er_input_buffer received) body ∧ holds b []
    ∧ er_output_headers received = [] ∧ er_output_buffer received = evbuffer_new ∧ er_own received = true.
Proof. apply request_arrives. Qed.

Definition demo_request : evhttp_request :=
  er_set_output_headers [("Host", "localhost"); ("Connection", "close")]
    (er_set_uri (Some "/pipeline/status") (er_set_version 1 1 (er_set_kind EVHTTP_REQUEST evhttp_request_new))).
Definition demo_handler (req : evhttp_request) : option answer := Some (AReply [] 200 "OK" (chars "hello")).
Lemma demo_sendable : sendable demo_request "/pipeline/status" [].
Proof.
  split; [done|done|by apply (bool_decide_eq_true_1 (Forall _ _))|done|done|by right| | |done|done].
  - apply Forall_cons. split; [|apply Forall_singleton];
      (split_and!; [by apply (bool_decide_eq_true_1 (Forall _ _))|by apply (bool_decide_eq_true_1 (Forall _ _))|done..]).
  - eapply queue_weaken; [apply queue_new|by vm_compute].
Qed.
Lemma request_roundtrip_witness :
  ∃ received b,
    receive demo_handler "now" [take 20 (request_text demo_request "/pipeline/status" []);
      drop 20 (request_text demo_request "/pipeline/status" [])] evhttp_get_request
    = evhttp_handle_request demo_handler "now" (finished evhttp_get_request received b) received
    ∧ er_input_headers received = [("Host", "localhost"); ("Connection", "close")] ∧ holds b [].
Proof.
  destruct (request_roundtrip demo_handler "now" demo_request "/pipeline/status" []
    [take 20 (request_text demo_request "/pipeline/status" []); drop 20 (request_text demo_request "/pipeline/status" [])])
    as [_ (received & b & Er & _ & _ & _ & Eh & _ & Hb & _)].
  - exact demo_sendable.
  - vm_compute. reflexivity.
  - vm_compute. reflexivity.
  - split.
    + apply Forall_cons. split; [split; [vm_compute; discriminate|vm_compute; discriminate]|].
      apply Forall_singleton. split; [vm_compute; discriminate|vm_compute; discriminate].
    + intros pre p suf E Hl. destruct pre as [|p0 [|p1 pre]]; [| |by destruct pre].
      * injection E as <- <-. vm_compute in Hl. discriminate.
      * injection E as <- <- <-. vm_compute. lia.
  - exists received, b. split; [exact Er|]. split; [exact Eh|exact Hb].
Defined.

(** A cut between the two characters that end the first line: the second is
    taken for the blank line that ends the head, and the headers stay behind
    to be read as the next request. *)
Example split_line_loses_headers :
  let text := request_text demo_request "/pipeline/status" [] in
  let n := S (slen (first_line EVHTTP_REQ_GET "/pipeline/status" 1)) in
  match receive demo_handler "now" [take n text; drop n text] evhttp_get_request with
  | Done c => er_input_headers <$> ec_handled c = [[]] ∧ eb_off (ec_input_buffer c) = 38
  | _ => False
  end.
Proof. vm_compute. split; reflexivity. Qed.
