(* ===== verification/HttpReply.v ===== *)
(** Sending replies: the bytes a reply is written as, in whatever portions the
    socket takes them, and what a client reads from them. *)
From S2P Require Import Prelude Numeric Evbuffer HttpText HttpUri Http HttpSpec.
#[local] Open Scope Z_scope.

(** ** Headers *)

Lemma find_header_remove l key key' :
  same_name key key' = false → find_header (remove_header l key') key = find_header l key.
Proof.
  intros Hne. induction l as [|[k v] l IH]; [done|]. cbn [remove_header find_header].
  destruct (same_name k key') eqn:E'; [|cbn [find_header]; by rewrite IH].
  destruct (same_name k key) eqn:E; [|done]. exfalso.
  rewrite same_name_lower, ?bool_decide_eq_true, ?bool_decide_eq_false in *. congruence.
Qed.
Lemma remove_header_Forall P l key : Forall P l → Forall P (remove_header l key).
Proof. apply Forall_sublist, remove_header_sublist. Qed.
Lemma add_header_good hs k v : good_header (k, v) → evhttp_add_header hs k v = (0, hs ++ [(k, v)]).
Proof. intros (H1 & H2 & _). by apply add_header_plain. Qed.

(** A header text that is known is good by evaluation. *)
Definition good_headerb (kv : string * string) : bool :=
  bool_decide (Forall plain (chars kv.1)) && bool_decide (Forall plain (chars kv.2)) && negb (smem ":" kv.1)
  && match kv.1 with String c _ => negb (bool_decide (c = " "%char)) && negb (bool_decide (c = "009"%char)) | EmptyString => true end
  && match kv.2 with String c _ => negb (bool_decide (c = " "%char)) | EmptyString => true end.
Lemma good_headerb_ok kv : good_headerb kv = true → good_header kv.
Proof.
  unfold good_headerb. rewrite !andb_true_iff, !bool_decide_eq_true, negb_true_iff. intros ((((H1 & H2) & H3) & H4) & H5).
  split_and!; try done; [destruct kv.1 as [|c ?]|destruct kv.2 as [|c ?]]; try done.
  - rewrite andb_true_iff, !negb_true_iff, !bool_decide_eq_false in H4. done.
  - by rewrite negb_true_iff, bool_decide_eq_false in H5.
Qed.

(** The reply a handler may send: headers of one line that do not say how long
    the body is. *)
Record good_reply (date : string) (hs : headers) (code : Z) (reason : string) (body : list ascii) : Prop := {
  gr_date : good_header ("Date", date);
  gr_headers : Forall good_header hs;
  gr_length : find_header hs "Content-Length" = None;
  gr_encoding : find_header hs "Transfer-Encoding" = None;
  gr_code : 0 < code < 2 ^ 31;
  gr_reason : plain_text reason;
  gr_size : zlength body < 2 ^ 30;
}.

(** Adding a good header. *)
Definition added (hs : headers) (kv : string * string) : headers := hs ++ [kv].
Lemma maybe_date_spec date hs :
  good_header ("Date", date) → Forall good_header hs →
  Forall good_header (evhttp_maybe_add_date_header date hs)
  ∧ ∀ key, same_name "Date" key = false → find_header (evhttp_maybe_add_date_header date hs) key = find_header hs key.
Proof.
  intros Hd Hhs. unfold evhttp_maybe_add_date_header. destruct (find_header hs "Date"); [done|].
  rewrite add_header_good by done. cbn [snd]. split; [apply Forall_app; split; [done|by apply Forall_singleton]|].
  intros key Hk. rewrite find_header_app. cbn [find_header]. rewrite Hk. by destruct (find_header hs key).
Qed.
Section response.
  Context (date : string) (req : evhttp_request) (K : Z) (body : list ascii).
  Hypothesis Hdate : good_header ("Date", date).
  Hypothesis Hgood : Forall good_header (er_output_headers req).
  Hypothesis Hlen : find_header (er_output_headers req) "Content-Length" = None.
  Hypothesis Henc : find_header (er_output_headers req) "Transfer-Encoding" = None.
  Hypothesis Hbody : queue K (er_output_buffer req) body.
  Hypothesis Hsize : zlength body < 2 ^ 30.
  Hypothesis Hver : er_major req = 1 ∧ er_minor req = 1.

Lemma response_headers_spec :
  Forall good_header (response_headers date req)
  ∧ find_header (response_headers date req) "Content-Length" = Some (print_int (zlength body))
  ∧ find_header (response_headers date req) "Transfer-Encoding" = None.
Proof.
  destruct Hver as [Hmaj Hmin]. pose proof (zlength_nonneg body). unfold response_headers. cbv zeta.
  rewrite Hmaj, Hmin, (queue_off _ _ _ Hbody). change (1 =? 1) with true. change (1 =? 0) with false. cbn [andb orb].
  destruct (maybe_date_spec date _ Hdate Hgood) as [Hg1 Hf1]. set (hs1 := evhttp_maybe_add_date_header date _) in *.
  assert (Hl1 : find_header hs1 "Content-Length" = None) by (rewrite Hf1; done).
  assert (He1 : find_header hs1 "Transfer-Encoding" = None) by (rewrite Hf1; done).
  unfold evhttp_maybe_add_content_length_header. rewrite Hl1, He1, content_length_exact by lia.
  rewrite add_header_good by apply content_length_good. cbn [snd].
  set (hs2 := hs1 ++ _). assert (Hs2 : Forall good_header hs2 ∧ find_header hs2 "Content-Length" = Some (print_int (zlength body))
    ∧ find_header hs2 "Transfer-Encoding" = None).
  { unfold hs2. rewrite Forall_app, !find_header_app, Hl1, He1. split; [split; [done|apply Forall_singleton, content_length_good]|done]. }
  clearbody hs2.
  match goal with |- context [if ?x then (evhttp_add_header hs2 ?k ?v).2 else hs2] =>
    set (hs3 := if x then (evhttp_add_header hs2 k v).2 else hs2) end.
  assert (Hs3 : Forall good_header hs3 ∧ find_header hs3 "Content-Length" = Some (print_int (zlength body))
    ∧ find_header hs3 "Transfer-Encoding" = None).
  { unfold hs3. destruct (_ && _); [|done]. destruct Hs2 as (G & L & E). rewrite add_header_good by by apply good_headerb_ok. cbn [snd].
    rewrite Forall_app, !find_header_app, L, E. split; [split; [done|by apply Forall_singleton, good_headerb_ok]|done]. }
  clearbody hs3. destruct (evhttp_is_connection_close _ _); [|done]. destruct Hs3 as (G & L & E).
  rewrite !find_header_remove by done. destruct (er_proxy req).
  - rewrite !find_header_remove by done. split; [by do 2 apply remove_header_Forall|done].
  - rewrite add_header_good by by apply good_headerb_ok. cbn [snd]. rewrite !find_header_app, !find_header_remove by done. rewrite L, E.
    split; [|done]. apply remove_header_Forall, Forall_app. split; [by apply remove_header_Forall|by apply Forall_singleton, good_headerb_ok].
Qed.
End response.

(** The headers of the handler are all sent, but for those that manage the
    connection. *)
Lemma remove_header_elem k v l key : same_name k key = false → (k, v) ∈ l → (k, v) ∈ remove_header l key.
Proof.
  intros Hk. induction l as [|[a b] l IH]; [done|]. cbn [remove_header]. rewrite elem_of_cons. intros [[= <- <-]|Hin].
  - rewrite Hk. apply elem_of_cons. by left.
  - destruct (same_name a key); [done|]. apply elem_of_cons. right. by apply IH.
Qed.
Lemma add_header_elem kv hs k v : kv ∈ hs → kv ∈ (evhttp_add_header hs k v).2.
Proof. intros Hin. unfold evhttp_add_header. repeat case_match; try done. cbn [snd]. apply elem_of_app. by left. Qed.
Lemma response_headers_keep date req k v :
  same_name k "Connection" = false → same_name k "Proxy-Connection" = false →
  (k, v) ∈ er_output_headers req → (k, v) ∈ response_headers date req.
Proof.
  intros Hc Hp Hin. unfold response_headers. cbv zeta.
  assert (Hdate : ∀ hs, (k, v) ∈ hs → (k, v) ∈ evhttp_maybe_add_date_header date hs)
    by (intros hs H; unfold evhttp_maybe_add_date_header; case_match; [done|by apply add_header_elem]).
  assert (Hcl : ∀ hs n, (k, v) ∈ hs → (k, v) ∈ evhttp_maybe_add_content_length_header hs n)
    by (intros hs n H; unfold evhttp_maybe_add_content_length_header; repeat case_match; try done; by apply add_header_elem).
  assert (Hif : ∀ (b : bool) (x y : headers), (k, v) ∈ x → (k, v) ∈ y → (k, v) ∈ (if b then x else y)) by by intros [].
  repeat first [apply Hif | apply Hdate | apply Hcl | apply add_header_elem | apply remove_header_elem; [done|] | exact Hin].
Qed.
Lemma fold_add_headers hs : ∀ acc, Forall good_header hs →
  foldl (λ l kv, (evhttp_add_header l kv.1 kv.2).2) acc hs = acc ++ hs.
Proof.
  induction hs as [|[k v] hs IH]; intros acc Hall; [by rewrite app_nil_r|]. apply Forall_cons in Hall as [Hkv Hall].
  cbn [foldl fst snd]. rewrite add_header_good by done. cbn [snd]. rewrite IH by done. by rewrite <-app_assoc.
Qed.

(** ** The reply on the connection *)

Definition status_line (code : Z) (reason : string) : string :=
  "HTTP/" +:+ print_int 1 +:+ "." +:+ print_int 1 +:+ " " +:+ print_int code +:+ " " +:+ reason.
Definition reply_text (code : Z) (reason : string) (hs : headers) (body : list ascii) : list ascii :=
  chars (status_line code reason) ++ CR :: LF :: head_text hs ++ body.

Section replying.
  Context (handler : evhttp_request → option answer) (date : string).
  Context (c : evhttp_connection) (req : evhttp_request) (K : Z).
  Context (hs : headers) (code : Z) (reason : string) (body : list ascii).
  Hypothesis Hreply : good_reply date hs code reason body.
  Hypothesis Huri : is_Some (er_uri req).
  Hypothesis Hans : handler req = Some (AReply hs code reason body).
  Hypothesis Hver : er_major req = 1 ∧ er_minor req = 1.
  Hypothesis Hnone : er_output_headers req = [].
  Hypothesis Hout : queue K (ec_output_buffer c) [].
  Hypothesis Hbuf : queue K (er_output_buffer req) [].

(** The request with the reply set up. *)
Definition answered (b : evbuffer) : evhttp_request :=
  er_set_output_buffer b (evhttp_response_code code reason (er_set_output_headers hs req)).

Lemma reply_run :
  let size := zlength (chars (status_line code reason)) + 2 in
  (∀ b, eb_off b = zlength body → K + size + 65 + 66 * zlength (crlf_lines (header_text <$> response_headers date (answered b))) + 2
     + (K + zlength body) < MAX_ROOM
     ∧ size < 2 ^ 31 - 1 ∧ zlength (crlf_lines (header_text <$> response_headers date (answered b))) < 2 ^ 31 - 1) →
  ∃ b rest out,
    evhttp_handle_request handler date c req
    = Done (evhttp_write_buffer true (ec_set_request (Some (er_set_output_buffer rest (er_set_output_headers (response_headers date (answered b)) (answered b))))
        (ec_set_output out (ec_set_handled (ec_handled c ++ [req]) c))))
    ∧ eb_off b = zlength body
    ∧ queue MAX_ROOM out (reply_text code reason (response_headers date (answered b)) body).
Proof.
  intros size Hsz. destruct Huri as [uri Eu]. pose proof (zlength_nonneg body). destruct Hreply as [Hd Hg Hcl Hte Hcode Hreason Hsize].
  pose proof (queue_bounds _ _ _ Hout) as HK. change (zlength (@nil ascii)) with 0 in HK.
  unfold evhttp_handle_request. rewrite Eu, Hans. cbn [perform].
  destruct (queue_add 0 evbuffer_new [] queue_new body) as (db & -> & Hdb); [unfold MAX_ROOM; lia|]. rewrite done_bind.
  rewrite Hnone, fold_add_headers by done. cbn [app] in Hdb |- *.
  unfold evhttp_send_reply, evhttp_send.
  change (er_output_buffer (evhttp_response_code code reason (er_set_output_headers hs req))) with (er_output_buffer req).
  assert (Hfits : K + (0 + zlength body) < MAX_ROOM).
  { destruct (Hsz {| eb_mem := []; eb_buffer := 0; eb_misalign := 0; eb_totallen := 0; eb_off := zlength body; eb_cb := false; eb_calls := [] |} eq_refl) as [Hk _].
    unfold size in Hk. pose proof (zlength_nonneg (chars (status_line code reason))).
    match type of Hk with context [crlf_lines ?x] => pose proof (zlength_nonneg (crlf_lines x)) end. lia. }
  destruct (queue_add_buffer _ _ _ _ _ _ Hbuf Hdb Hfits) as (b & db' & -> & Hb & _). rewrite done_bind. cbn [app] in Hb.
  change (er_set_output_buffer b _) with (answered b). pose proof (queue_off _ _ _ Hb) as Eb. destruct (Hsz b Eb) as (H1 & H2 & H3).
  unfold make_header, evhttp_make_header. change (er_kind (answered b)) with EVHTTP_RESPONSE. cbv beta iota.
  unfold evhttp_make_header_response. destruct Hver as [Hmaj Hmin].
  change (er_major (answered b)) with (er_major req). change (er_minor (answered b)) with (er_minor req). rewrite Hmaj, Hmin.
  change (er_response_code (answered b)) with code. change (er_response_code_line (answered b)) with (Some reason). change (default "(null)" (Some reason)) with reason.
  change (ec_output_buffer (ec_set_handled _ c)) with (ec_output_buffer c).
  match goal with |- context [printf ?t _] => assert (Ht : chars t = chars (status_line code reason) ++ [CR; LF]) end.
  { unfold status_line. by rewrite !chars_app, <-!app_assoc. }
  match goal with |- context [printf ?t _] => destruct (queue_print K _ [] t Hout) as (o1 & -> & Hq1) end;
    [rewrite Ht, zlength_app; change (zlength [CR; LF]) with 2; unfold size in *;
     pose proof (zlength_nonneg (crlf_lines (header_text <$> response_headers date (answered b)))); lia..|].
  rewrite !done_bind. rewrite Ht in Hq1. rewrite zlength_app in Hq1. change (zlength [CR; LF]) with 2 in Hq1. cbn [app] in Hq1.
  set (req1 := er_set_output_headers (response_headers date (answered b)) (answered b)).
  destruct (head_run req1 _ _ o1 _ body Hq1 Hb) as (rest & out & -> & Hq2 & _);
    [change (er_output_headers req1) with (response_headers date (answered b)); unfold size in *; lia
    |change (er_output_headers req1) with (response_headers date (answered b)); lia|].
  rewrite !done_bind. exists b, rest, out. split; [reflexivity|]. split; [done|].
  rewrite <-app_assoc in Hq2. eapply queue_weaken; [exact Hq2|]. change (er_output_headers req1) with (response_headers date (answered b)).
  unfold size in *. lia.
Qed.
End replying.

(** ** Sizes *)

Definition hsize (hs : headers) : Z := zlength (crlf_lines (header_text <$> hs)).
Lemma hsize_cons kv hs : hsize (kv :: hs) = Z.of_nat (slen kv.1) + Z.of_nat (slen kv.2) + 4 + hsize hs.
Proof.
  unfold hsize. cbn [fmap list_fmap]. rewrite lines_text_cons, zlength_app. unfold header_text. rewrite !chars_app, !zlength_app.
  unfold slen, zlength. simpl. lia.
Qed.
Lemma hsize_nonneg hs : 0 <= hsize hs.
Proof. apply zlength_nonneg. Qed.
Lemma hsize_snoc hs kv : hsize (hs ++ [kv]) = hsize hs + Z.of_nat (slen kv.1) + Z.of_nat (slen kv.2) + 4.
Proof.
  induction hs as [|a hs IH]; cbn [app]; rewrite ?hsize_cons, ?IH; [|lia]. change (hsize []) with 0. lia.
Qed.
Lemma c_text_size s : (slen (c_text s) ≤ slen s)%nat.
Proof.
  unfold c_text, slen. rewrite chars_unchars. induction (chars s) as [|c l IH]; [done|]. simpl. case_bool_decide; simpl; lia.
Qed.
Lemma add_header_size hs k v : hsize (evhttp_add_header hs k v).2 <= hsize hs + Z.of_nat (slen k) + Z.of_nat (slen v) + 4.
Proof.
  unfold evhttp_add_header. repeat case_match; cbn [snd]; try lia. unfold evhttp_add_header_internal. rewrite hsize_snoc. cbn [fst snd].
  pose proof (c_text_size k). pose proof (c_text_size v). lia.
Qed.
Lemma remove_header_size hs key : hsize (remove_header hs key) <= hsize hs.
Proof. induction hs as [|[k v] hs IH]; [done|]. cbn [remove_header]. rewrite hsize_cons. case_match; [|rewrite hsize_cons]; lia. Qed.
Lemma response_headers_size date req :
  hsize (response_headers date req) <= hsize (er_output_headers req) + Z.of_nat (slen date) + 125.
Proof.
  unfold response_headers. cbv zeta. set (len := eb_off _).
  assert (Hd : ∀ hs, hsize (evhttp_maybe_add_date_header date hs) <= hsize hs + Z.of_nat (slen date) + 8).
  { intros hs. unfold evhttp_maybe_add_date_header. case_match; [lia|]. pose proof (add_header_size hs "Date" date). change (slen "Date") with 4%nat in *. lia. }
  assert (Hl : ∀ hs, hsize (evhttp_maybe_add_content_length_header hs len) <= hsize hs + 29).
  { intros hs. unfold evhttp_maybe_add_content_length_header. repeat case_match; try lia.
    pose proof (add_header_size hs "Content-Length" (content_length_text len)) as Hadd. change (slen "Content-Length") with 14%nat in Hadd.
    assert (slen (content_length_text len) ≤ 11)%nat by (unfold content_length_text, snprintf; rewrite slen_stake; lia). lia. }
  assert (Hk : ∀ hs, hsize (evhttp_add_header hs "Connection" "keep-alive").2 <= hsize hs + 24) by (intros hs; etrans; [apply add_header_size|]; change (slen "Connection") with 10%nat; change (slen "keep-alive") with 10%nat; lia).
  assert (Ht : ∀ hs, hsize (evhttp_add_header hs "Content-Type" "text/html; charset=ISO-8859-1").2 <= hsize hs + 45)
    by (intros hs; etrans; [apply add_header_size|]; change (slen "Content-Type") with 12%nat; change (slen "text/html; charset=ISO-8859-1") with 29%nat; lia).
  assert (Hc : ∀ hs, hsize (evhttp_add_header hs "Connection" "close").2 <= hsize hs + 19) by (intros hs; etrans; [apply add_header_size|]; change (slen "Connection") with 10%nat; change (slen "close") with 5%nat; lia).
  set (hs1 := if er_major req =? 1 then _ else _). assert (H1 : hsize hs1 <= hsize (er_output_headers req) + Z.of_nat (slen date) + 61).
  { unfold hs1. destruct (er_major req =? 1); [|lia]. set (a := if er_minor req =? 1 then _ else _).
    assert (hsize a <= hsize (er_output_headers req) + Z.of_nat (slen date) + 8) by (unfold a; destruct (er_minor req =? 1); [apply Hd|lia]).
    set (d := if (er_minor req =? 0) && _ then _ else a).
    assert (hsize d <= hsize a + 24) by (unfold d; destruct (_ && _); [apply Hk|lia]).
    destruct (_ || _); [specialize (Hl d)|]; lia. }
  clearbody hs1.
  match goal with |- context [if ?x then (evhttp_add_header hs1 ?k ?v).2 else hs1] => set (hs2 := if x then (evhttp_add_header hs1 k v).2 else hs1) end.
  assert (H2 : hsize hs2 <= hsize hs1 + 45) by (unfold hs2; destruct (_ && _); [apply Ht|lia]). clearbody hs2.
  destruct (evhttp_is_connection_close _ _); [|lia]. etrans; [apply remove_header_size|]. pose proof (remove_header_size hs2 "Connection").
  destruct (er_proxy req); [lia|]. specialize (Hc (remove_header hs2 "Connection")). lia.
Qed.

(** ** The client's side *)

(** What a client does with the bytes of a reply: the first line, the headers,
    the length of the body. *)
Definition client_parse (b : evbuffer) : outcome (message_read_status * message_read_status * Z * evhttp_request * evbuffer) :=
  '(first, req, b) ← evhttp_parse_firstline evhttp_request_new b;
  '(head, req, b) ← evhttp_parse_headers req b;
  let '(res, req) := evhttp_get_body_length req in
  Done (first, head, res, req, b).

Lemma status_line_parsed code reason :
  0 < code < 2 ^ 31 →
  evhttp_parse_response_line evhttp_request_new (status_line code reason)
  = (0, er_set_response code (Some reason) (er_set_version 1 1 evhttp_request_new)).
Proof.
  intros Hc. unfold evhttp_parse_response_line, status_line.
  change ("HTTP/" +:+ print_int 1 +:+ "." +:+ print_int 1 +:+ " " +:+ print_int code +:+ " " +:+ reason)
    with ("HTTP/1.1" +:+ String " " (print_int code +:+ String " " reason)).
  rewrite strsep_at by done. rewrite strsep_at by (apply numeric_not_mem; [apply numeric_print_int|done]).
  change (version_of "HTTP/1.1") with (Some (1, 1)). cbv beta iota zeta. rewrite atoi_print_int by (apply in_int_iff; lia).
  unfold evhttp_valid_response_code. rewrite (proj2 (Z.eqb_neq code 0)) by lia. done.
Qed.
Lemma client_parse_run K b code reason hs body :
  queue K b (reply_text code reason hs body) → K <= MAX_ROOM - 1 → zlength (reply_text code reason hs body) < 2 ^ 32 - 1 →
  0 < code < 2 ^ 31 → plain_text reason → Forall good_header hs →
  find_header hs "Content-Length" = Some (print_int (zlength body)) → zlength body < 2 ^ 30 →
  ∃ req b', client_parse b = Done (ALL_DATA_READ, ALL_DATA_READ, 0, req, b') ∧ queue K b' body
    ∧ er_response_code req = code ∧ er_response_code_line req = Some reason ∧ er_input_headers req = hs ∧ er_ntoread req = zlength body.
Proof.
  intros Hq HK Hl Hc Hr Hhs Hcl Hb. assert (HK' : K < MAX_ROOM) by lia. unfold client_parse, evhttp_parse_firstline.
  assert (Hp : plain_text (status_line code reason)).
  { unfold status_line. rewrite !plain_text_app. split_and!; try done; try apply numeric_plain, numeric_print_int;
      by apply (bool_decide_eq_true_1 (Forall _ _)). }
  unfold reply_text in *. destruct (readline_full K b HK' _ _ Hq Hl Hp) as (b1 & -> & Hq1). rewrite !done_bind.
  change (er_kind evhttp_request_new) with EVHTTP_RESPONSE. cbv iota. rewrite line_text_plain, status_line_parsed by done.
  change (0 =? -1) with false. cbv iota. rewrite done_bind. unfold evhttp_parse_headers.
  set (req1 := er_set_response code _ _). change (er_input_headers req1) with (@nil (string * string)).
  pose proof (queue_bounds _ _ _ Hq1) as Hb1. assert (Hl1 : zlength (head_text hs ++ body) < 2 ^ 32 - 1).
  { rewrite zlength_app in Hl. pose proof (zlength_nonneg (chars (status_line code reason))). unfold zlength in *. simpl in *. lia. }
  destruct (headers_run body hs (S (Z.to_nat (eb_off b1))) [] K b1 _ [] Hhs Hq1 HK' Hl1)
    as [(parsed & rest & b' & l' & -> & _ & Hq' & E' & _ & Hno)|(b' & l' & -> & Hq' & E')].
  - by rewrite app_nil_r.
  - intros _. simpl. lia.
  - rewrite (queue_off _ _ _ Hq1). unfold zlength. lia.
  - exfalso. rewrite app_nil_r in E'. subst l'. unfold head_text in Hno. rewrite !Forall_app in Hno. destruct Hno as [[_ Hno] _].
    by apply Forall_cons in Hno as [? _].
  - rewrite app_nil_r in E'. subst l'. rewrite !done_bind. cbn [app]. unfold evhttp_get_body_length.
    change (er_input_headers (er_set_input_headers hs req1)) with hs. cbv zeta. rewrite Hcl. pose proof (zlength_nonneg body).
    rewrite strtoll_10_print by lia. rewrite (bool_decide_true (EmptyString = EmptyString)) by done.
    rewrite (bool_decide_false (print_int (zlength body) = EmptyString)).
    2: { pose proof (print_int_headed (zlength body) ltac:(lia)) as Hd. by destruct (print_int (zlength body)). }
    rewrite (proj2 (Z.ltb_ge (zlength body) 0)) by lia. cbn [negb orb]. eexists _, b'. split; [reflexivity|]. done.
Qed.

(** ** Writing *)

(** The socket takes [n] bytes at a time; the bytes written, until the
    connection waits for something else. *)
Fixpoint transmit (handler : evhttp_request → option answer) (date : string) (ns : list nat) (c : evhttp_connection)
    : outcome (list ascii * evhttp_connection) :=
  match ns, ec_event c with
  | n :: ns, EvWrite =>
      data ← read_mem (eb_mem (ec_output_buffer c)) (eb_buffer (ec_output_buffer c)) (eb_off (ec_output_buffer c));
      c ← evhttp_write handler date (OutWrite (λ d, Some (n `min` length d)%nat)) c;
      r ← transmit handler date ns c;
      Done (take n data ++ r.1, r.2)
  | _, _ => Done ([], c)
  end.

Lemma queue_write K b l n :
  queue K b l → K <= MAX_ROOM → l ≠ [] → (0 < n)%nat →
  ∃ b', evbuffer_write (λ d, Some (n `min` length d)%nat) b = Done (Z.of_nat (n `min` length l)%nat, b') ∧ queue K b' (drop n l).
Proof.
  intros Hq HK Hl Hn. unfold evbuffer_write. rewrite (queue_data _ _ _ Hq), done_bind.
  assert (0 < length l)%nat by (destruct l; [done|simpl; lia]).
  destruct (n `min` length l)%nat as [|k] eqn:E; [lia|]. eexists. split; [reflexivity|]. pose proof (queue_bounds _ _ _ Hq) as Hb.
  destruct Hq as (Hh & ? & ?). unfold MAX_ROOM in *.
  destruct (drain_run (Z.of_nat (S k)) b l (OpDrain 0) Hh) as (Hd & _ & Hg); [unfold zlength in Hb; lia|done|].
  rewrite Nat2Z.id in Hd. assert (Ed : drop (S k) l = drop n l).
  { rewrite <-E. destruct (Nat.le_gt_cases n (length l)); [by rewrite Nat.min_l|]. rewrite Nat.min_r, !drop_ge by lia. done. }
  rewrite Ed in Hd. rewrite <-(Z.add_0_r K). eapply (queue_grows K 0 b); [split; [exact Hh|done]|exact Hd|exact Hg|lia].
Qed.

(** After the reply: closed, or ready for the next request. *)
Definition after_reply (req : evhttp_request) (c : evhttp_connection) : Prop :=
  if need_close req then ec_freed c = true
  else ec_freed c = false ∧ ec_event c = EvRead ∧ ec_state c = EVCON_READING_FIRSTLINE ∧ ec_request c = Some new_request
       ∧ holds (ec_output_buffer c) [].

Lemma transmit_run handler date req : er_own req = true → ∀ ns c l,
  ec_event c = EvWrite → ec_cb c = true → ec_freed c = false → ec_request c = Some req →
  queue MAX_ROOM (ec_output_buffer c) l → l ≠ [] → Forall (λ n, 0 < n)%nat ns → (length l ≤ sum_list ns)%nat →
  ∃ c', transmit handler date ns c = Done (l, c') ∧ after_reply req c' ∧ ec_handled c' = ec_handled c ∧ ec_input_buffer c' = ec_input_buffer c.
Proof.
  intros Hown. induction ns as [|n ns IH]; intros c l Hev Hcb Hfr Hreq Hq Hl Hns Hsum.
  { destruct l; [done|simpl in Hsum; lia]. }
  apply Forall_cons in Hns as [Hn Hns]. cbn [transmit]. rewrite Hev, (queue_data _ _ _ Hq), done_bind. unfold evhttp_write. rewrite Hreq.
  cbv zeta. change (ec_output_buffer (ec_set_event EvNone c)) with (ec_output_buffer c).
  destruct (queue_write _ _ _ n Hq ltac:(lia) Hl Hn) as (b' & -> & Hq'). rewrite !done_bind.
  assert (0 < length l)%nat by (destruct l; [done|simpl; lia]).
  rewrite (proj2 (Z.eqb_neq _ (-1))) by lia. rewrite (proj2 (Z.eqb_neq _ 0)) by lia. cbn [orb].
  rewrite (queue_off _ _ _ Hq'). destruct (Z.eqb_spec (zlength (drop n l)) 0) as [Hz|Hnz]; cbn [negb].
  - assert (Hd : drop n l = []) by (destruct (drop n l); [done|unfold zlength in Hz; simpl in Hz; lia]).
    assert (Ht : take n l = l) by (rewrite <-(take_drop n l) at 2; by rewrite Hd, app_nil_r).
    change (ec_cb (ec_set_output b' _)) with (ec_cb c). rewrite Hcb. unfold evhttp_send_done.
    change (ec_request (ec_set_output b' _)) with (ec_request c). rewrite Hreq, Hown. cbn [check]. rewrite !done_bind. unfold after_reply.
    destruct (need_close req).
    + rewrite done_bind. destruct ns; cbn; rewrite Ht, app_nil_r; by eexists.
    + rewrite done_bind. rewrite Hd in Hq'. destruct ns; cbn; rewrite Ht, app_nil_r; (eexists; split; [reflexivity|]; split; [split_and!; try done; apply Hq'|done]).
  - assert (Hne : drop n l ≠ []) by (intros E; rewrite E in Hnz; by apply Hnz). rewrite done_bind.
    edestruct (IH (ec_set_event EvWrite (ec_set_output b' (ec_set_event EvNone c))) (drop n l)) as (c' & -> & H1 & H2 & H3); try done.
    + rewrite length_drop. simpl in Hsum. lia.
    + rewrite done_bind. cbn [fst snd]. rewrite take_drop. by exists c'.
Qed.

(** What the client gets from the answer of a handler. *)
Lemma reply_arrives handler date (c : evhttp_connection) (req : evhttp_request) hs code reason body (ns : list nat) :
  handler req = Some (AReply hs code reason body) → good_reply date hs code reason body →
  hsize hs + Z.of_nat (slen date) + Z.of_nat (slen reason) < 2 ^ 30 →
  er_own req = true → is_Some (er_uri req) → er_major req = 1 ∧ er_minor req = 1 → er_output_headers req = [] →
  queue (2 ^ 40) (ec_output_buffer c) [] → queue (2 ^ 40) (er_output_buffer req) [] → ec_freed c = false →
  Forall (λ n, 0 < n)%nat ns → 2 ^ 31 + zlength body <= Z.of_nat (sum_list ns) →
  ∃ c1 c2 sent text, 
    evhttp_handle_request handler date c req = Done c1 ∧ ec_handled c1 = ec_handled c ++ [req]
    ∧ transmit handler date ns c1 = Done (text, c2) ∧ ec_request c1 = Some sent ∧ after_reply sent c2
    ∧ (∀ k v, (k, v) ∈ hs → same_name k "Connection" = false → same_name k "Proxy-Connection" = false → (k, v) ∈ er_output_headers sent)
    ∧ ∀ b, queue (2 ^ 40) b text → ∃ got b',
        client_parse b = Done (ALL_DATA_READ, ALL_DATA_READ, 0, got, b') ∧ er_response_code got = code
        ∧ er_response_code_line got = Some reason ∧ er_input_headers got = er_output_headers sent
        ∧ er_ntoread got = zlength body ∧ holds b' body.
Proof.
  intros Hans Hgood Hsz Hown Huri Hver Hnone Hout Hbuf Hfr Hns Hsum. pose proof Hgood as [Hd Hg Hcl Hte Hcode Hreason Hsize].
  pose proof (hsize_nonneg hs). pose proof (zlength_nonneg body).
  assert (Hst : zlength (chars (status_line code reason)) <= 20 + Z.of_nat (slen reason)).
  { unfold status_line. rewrite !chars_app, !zlength_app. assert (Hc : zlength (chars (print_int code)) <= 10).
    { unfold print_int. destruct code as [|p|p]; [lia| |lia]. change (pretty (Z.pos p)) with (pretty_N_go (N.pos p) EmptyString).
      pose proof (slen_pretty_go_bound 10 (N.pos p) EmptyString) as Hp. change (10 ^ N.of_nat 10)%N with 10000000000%N in Hp.
      unfold slen, zlength in *. simpl (length (chars EmptyString)) in Hp. lia. }
    change (zlength (chars "HTTP/")) with 5. change (zlength (chars (print_int 1))) with 1. change (zlength (chars ".")) with 1.
    change (zlength (chars " ")) with 1. unfold slen, zlength in *. lia. }
  pose proof (zlength_nonneg (chars (status_line code reason))) as Hst0.
  assert (Hrh : ∀ b, 0 <= hsize (response_headers date (answered req hs code reason b)) <= hsize hs + Z.of_nat (slen date) + 125)
    by (intros b; split; [apply hsize_nonneg|]; apply (response_headers_size date (answered req hs code reason b))).
  destruct (reply_run handler date c req (2 ^ 40) hs code reason body Hgood Huri Hans Hver Hnone Hout Hbuf) as (b & rest & out & Eh & Eb & Hq).
  { intros b Eb. specialize (Hrh b). fold (hsize (response_headers date (answered req hs code reason b))). unfold MAX_ROOM. lia. }
  set (rh := response_headers date (answered req hs code reason b)) in *. specialize (Hrh b). fold rh in Hrh.
  assert (Hlen : zlength (reply_text code reason rh body) = zlength (chars (status_line code reason)) + 4 + hsize rh + zlength body).
  { unfold reply_text, head_text, hsize. change (CR :: LF :: ?x) with ([CR; LF] ++ x). rewrite !zlength_app. change (zlength [CR; LF]) with 2. lia. }
  assert (Hspec : Forall good_header rh ∧ find_header rh "Content-Length" = Some (print_int (zlength body)) ∧ find_header rh "Transfer-Encoding" = None).
  { assert (Hrq : ∃ b', queue (2 ^ 40 + (0 + zlength body)) b' body ∧ eb_off b' = zlength body).
    { destruct (queue_add 0 evbuffer_new [] queue_new body) as (db & _ & Hdb); [unfold MAX_ROOM; lia|]. exists db.
      split; [eapply queue_weaken; [exact Hdb|lia]|apply (queue_off _ _ _ Hdb)]. }
    destruct Hrq as (b' & Hb' & Eb'). 
    assert (Erh : rh = response_headers date (answered req hs code reason b')) by (unfold rh, response_headers; cbn; by rewrite Eb, Eb').
    rewrite Erh. by apply (response_headers_spec date (answered req hs code reason b') _ body Hd Hg Hcl Hte Hb'). }
  destruct Hspec as (Hgrh & Hclrh & _).
  set (sent := er_set_output_buffer rest (er_set_output_headers rh (answered req hs code reason b))) in *.
  set (c1 := evhttp_write_buffer true _) in Eh.
  destruct (transmit_run handler date sent Hown ns c1 (reply_text code reason rh body)) as (c2 & Et & Ha & _ & _); try done.
  { unfold zlength in *. lia. }
  exists c1, c2, sent, (reply_text code reason rh body). split; [exact Eh|]. split; [reflexivity|]. split; [exact Et|]. split; [reflexivity|].
  split; [exact Ha|]. split.
  - intros k v Hin Hc Hp. by apply (response_headers_keep date (answered req hs code reason b)).
  - intros bb Hqb. destruct (client_parse_run _ bb code reason rh body Hqb) as (got & b' & Ec & Hq' & H1 & H2 & H3 & H4); try done; try (unfold MAX_ROOM; lia).
    exists got, b'. split_and!; try done. apply Hq'.
Qed.

(** C16: a reply reaches the client as the handler gave it: to a request of
    HTTP/1.1 the server writes the status line, the headers and the body without
    overrunning a buffer; in whatever portions the socket takes them, exactly
    these bytes are written; then the connection is closed when one side asked
    for it and otherwise waits for the next request; and the client half reads
    from the bytes the code, the reason, the headers the server sent, all of the
    handler's among them, and the length of the body, which is what is left. *)
Theorem reply_roundtrip handler date (c : evhttp_connection) (req : evhttp_request) hs code reason body (ns : list nat) :
  handler req = Some (AReply hs code reason body) → good_reply date hs code reason body →
  hsize hs + Z.of_nat (slen date) + Z.of_nat (slen reason) < 2 ^ 30 →
  er_own req = true → is_Some (er_uri req) → er_major req = 1 ∧ er_minor req = 1 → er_output_headers req = [] →
  queue (2 ^ 40) (ec_output_buffer c) [] → queue (2 ^ 40) (er_output_buffer req) [] → ec_freed c = false →
  Forall (λ n, 0 < n)%nat ns → 2 ^ 31 + zlength body <= Z.of_nat (sum_list ns) →
  ∃ c1 c2 sent text, 
    evhttp_handle_request handler date c req = Done c1 ∧ ec_handled c1 = ec_handled c ++ [req]
    ∧ transmit handler date ns c1 = Done (text, c2) ∧ ec_request c1 = Some sent ∧ after_reply sent c2
    ∧ (∀ k v, (k, v) ∈ hs → same_name k "Connection" = false → same_name k "Proxy-Connection" = false → (k, v) ∈ er_output_headers sent)
    ∧ ∀ b, queue (2 ^ 40) b text → ∃ got b',
        client_parse b = Done (ALL_DATA_READ, ALL_DATA_READ, 0, got, b') ∧ er_response_code got = code
        ∧ er_response_code_line got = Some reason ∧ er_input_headers got = er_output_headers sent
        ∧ er_ntoread got = zlength body ∧ holds b' body.
Proof. apply reply_arrives. Qed.

Definition demo_reply : list (string * string) := [("Content-Type", "application/json")].
Definition demo_answer (req : evhttp_request) : option answer := Some (AReply demo_reply 200 "Everything is fine" (chars "{}")).
Definition demo_received : evhttp_request :=
  er_set_version 1 1 (er_set_uri (Some "/pipeline/status") (er_set_input_headers [("Host", "localhost")] new_request)).
Lemma reply_roundtrip_witness :
  ∃ c1, evhttp_handle_request demo_answer "Thu, 01 Jan 1970 00:00:00 GMT" evhttp_get_request demo_received = Done c1
    ∧ ec_handled c1 = [demo_received]
    ∧ ∃ c2 text, transmit demo_answer "Thu, 01 Jan 1970 00:00:00 GMT" [Z.to_nat (2 ^ 31 + 2)] c1 = Done (text, c2)
      ∧ ec_event c2 = EvRead.
Proof.
  destruct (reply_roundtrip demo_answer "Thu, 01 Jan 1970 00:00:00 GMT" evhttp_get_request demo_received demo_reply 200
    "Everything is fine" (chars "{}") [Z.to_nat (2 ^ 31 + 2)]) as (c1 & c2 & sent & text & E1 & E2 & E3 & E4 & Ha & _).
  - reflexivity.
  - split; [by apply good_headerb_ok|by apply Forall_singleton, good_headerb_ok|reflexivity|reflexivity|lia
      |by apply (bool_decide_eq_true_1 (Forall _ _))|reflexivity].
  - reflexivity.
  - reflexivity.
  - by eexists.
  - done.
  - reflexivity.
  - eapply queue_weaken; [apply queue_new|lia].
  - eapply queue_weaken; [apply queue_new|lia].
  - reflexivity.
  - apply Forall_singleton. lia.
  - change (sum_list [?n]) with (n + 0)%nat. change (zlength (chars "{}")) with 2. lia.
  - exists c1. split; [exact E1|]. split; [exact E2|]. exists c2, text. split; [exact E3|].
    assert (Hs : need_close sent = false) by (vm_compute in E1; injection E1 as <-; vm_compute in E4; injection E4 as <-; reflexivity).
    unfold after_reply in Ha. rewrite Hs in Ha. apply Ha.
Defined.
