(* ===== verification/HttpChunks.v ===== *)
(** Replies in chunks, as the image stream of the web interface sends them:
    what the server appends to the output is what the client half takes the
    chunks from. *)
From S2P Require Import Prelude Numeric Evbuffer HttpText HttpUri Http HttpSpec.
#[local] Open Scope Z_scope.

(** ** Hexadecimal numbers *)

Definition hex_char (n : Z) : ascii := nth (Z.to_nat (n mod 16)) (chars "0123456789abcdef") zero.
Lemma hex_char_digit n : base_digit 16 (hex_char n) = Some (Z.to_nat (n mod 16)).
Proof.
  unfold hex_char. pose proof (Z.mod_pos_bound n 16 ltac:(lia)). remember (Z.to_nat (n mod 16)) as k eqn:Ek. assert (k < 16)%nat by lia.
  clear Ek. do 16 (destruct k as [|k]; [by vm_compute|]). lia.
Qed.
Lemma hex_loop_read fuel : ∀ n s, 0 <= n < 16 ^ Z.of_nat (S fuel) →
  ∃ k, read_digits (base_digit 16) 16 0 0 (hex_loop (S fuel) n s) = read_digits (base_digit 16) 16 n (S k) s.
Proof.
  induction fuel as [|fuel IH]; intros n s Hn; cbn [hex_loop]; fold (hex_char n).
  - assert (En : n mod 16 = n) by (apply Z.mod_small; change (16 ^ Z.of_nat 1) with 16 in Hn; lia).
    assert (Hr : ∃ k, read_digits (base_digit 16) 16 0 0 (String (hex_char n) s) = read_digits (base_digit 16) 16 n (S k) s).
    { exists O. cbn [read_digits]. rewrite hex_char_digit, En. f_equal. lia. }
    destruct (n <? 16); exact Hr.
  - destruct (Z.ltb_spec n 16).
    + exists O. cbn [read_digits]. rewrite hex_char_digit, Z.mod_small by lia. f_equal. lia.
    + assert (0 <= n / 16 < 16 ^ Z.of_nat (S fuel)).
      { rewrite (Nat2Z.inj_succ (S fuel)), Z.pow_succ_r in Hn by lia. remember (16 ^ Z.of_nat (S fuel)) as P eqn:EP. clear EP. split; [apply Z.div_pos; lia|apply Z.div_lt_upper_bound; lia]. }
      destruct (IH (n / 16) (String (hex_char n) s)) as (k & Ek); [done|]. cbn [hex_loop] in Ek. rewrite Ek. exists (S k).
      cbn [read_digits]. rewrite hex_char_digit. f_equal. pose proof (Z.div_mod n 16 ltac:(lia)). rewrite Z2Nat.id by (apply Z.mod_pos_bound; lia). lia.
Qed.
Lemma hex_loop_chars fuel : ∀ n s, Forall (λ c, isxdigit c = true) (chars s) → Forall (λ c, isxdigit c = true) (chars (hex_loop fuel n s)).
Proof.
  assert (Hd : ∀ n, isxdigit (hex_char n) = true).
  { intros n. pose proof (hex_char_digit n) as H. unfold base_digit in H. unfold isxdigit. by destruct (hex_val (hex_char n)). }
  induction fuel as [|fuel IH]; intros n s Hs; [done|]. cbn [hex_loop]. fold (hex_char n).
  assert (Hc : Forall (λ c, isxdigit c = true) (chars (String (hex_char n) s))) by (cbn [chars]; by constructor).
  destruct (n <? 16); [done|]. by apply IH.
Qed.
Lemma xdigit_plain : ∀ c, isxdigit c = true → plain c ∧ Ascii.is_space c = false ∧ c ≠ "-"%char ∧ c ≠ "+"%char ∧ lower c ≠ "x"%char.
Proof. by_ascii. Qed.
Lemma print_hex_chars n : Forall (λ c, isxdigit c = true) (chars (print_hex n)).
Proof. apply hex_loop_chars, Forall_nil. done. Qed.
Lemma print_hex_plain n : plain_text (print_hex n).
Proof. eapply Forall_impl; [apply print_hex_chars|]. intros c Hc. by apply xdigit_plain. Qed.
Lemma strtoll_hex s n k :
  Forall (λ c, isxdigit c = true) (chars s) → read_digits (base_digit 16) 16 0 0 s = (n, S k, EmptyString) →
  0 <= n < 2 ^ 63 → strtoll 16 s = (n, EmptyString).
Proof.
  intros Hf Ek Hn. unfold strtoll. destruct s as [|c t]; [done|].
  apply Forall_cons in Hf as [Hc Ht]. destruct (xdigit_plain c Hc) as (_ & H1 & H2 & H3 & _). cbn [skip_space]. rewrite H1.
  rewrite !bool_decide_false by done.
  assert (Hm : match String c t with
           | String z (String x (String d _ as u)) =>
               if (16 =? 16) && bool_decide (z = "0"%char) && bool_decide (lower x = "x"%char) && isxdigit d then u else String c t
           | _ => String c t end = String c t).
  { destruct t as [|x [|d u]]; [done..|]. apply Forall_cons in Ht as [Hx _]. destruct (xdigit_plain x Hx) as (_ & _ & _ & _ & H4).
    rewrite (bool_decide_false (lower x = "x"%char)) by done. by rewrite !andb_false_r. }
  cbv zeta. rewrite Hm, Ek. rewrite bool_decide_false by done. unfold clamp64. f_equal. lia.
Qed.
Lemma strtoll_16_print n : 0 <= n < 2 ^ 32 → strtoll 16 (print_hex n) = (n, EmptyString).
Proof.
  intros Hn. destruct (hex_loop_read 7 (n mod 2 ^ 32) EmptyString) as (k & Ek); [apply Z.mod_pos_bound; lia|].
  cbn [read_digits] in Ek. rewrite Z.mod_small in Ek at 2 by lia. eapply strtoll_hex; [apply print_hex_chars|exact Ek|lia].
Qed.
Lemma print_hex_cons n : ∃ c t, print_hex n = String c t.
Proof.
  destruct (hex_loop_read 7 (n mod 2 ^ 32) EmptyString) as (k & Ek); [apply Z.mod_pos_bound; lia|].
  unfold print_hex. destruct (hex_loop 8 _ _) as [|c t]; [done|by exists c, t].
Qed.
Lemma print_hex_length n : zlength (chars (print_hex n)) <= 8.
Proof.
  unfold print_hex. assert (H : ∀ f m s, zlength (chars (hex_loop f m s)) <= Z.of_nat f + zlength (chars s)).
  { induction f as [|f IH]; intros m s; cbn [hex_loop]; [lia|]. fold (hex_char m).
    assert (E : zlength (chars (String (hex_char m) s)) = 1 + zlength (chars s)) by (unfold zlength; simpl; lia).
    destruct (m <? 16); [|specialize (IH (m / 16) (String (hex_char m) s))]; lia. }
  specialize (H 8%nat (n mod 2 ^ 32) EmptyString). change (zlength (chars EmptyString)) with 0 in H. lia.
Qed.

(** ** Sending *)

Definition chunk_text (data : list ascii) : list ascii :=
  chars (print_hex (zlength data)) ++ CR :: LF :: data ++ [CR; LF].
Definition last_chunk : list ascii := "0"%char :: CR :: LF :: [CR; LF].

(** A chunk that was filled in a buffer of its own is sent. *)
Fixpoint send_chunks (chunks : list (list ascii)) (c : evhttp_connection) : outcome evhttp_connection :=
  match chunks with
  | [] => evhttp_send_reply_end c
  | data :: chunks =>
      databuf ← evbuffer_add data evbuffer_new;
      c ← evhttp_send_reply_chunk databuf c;
      send_chunks chunks c
  end.

Lemma send_buffer_run K Kd c req l databuf data :
  ec_request c = Some req → er_chunked req = true → queue K (ec_output_buffer c) l → queue Kd databuf data →
  K + Kd + 80 < MAX_ROOM →
  ∃ out, evhttp_send_reply_chunk databuf c = Done (evhttp_write_buffer false (ec_set_output out c))
    ∧ queue (K + Kd + 80) out (l ++ chunk_text data).
Proof.
  intros Hreq Hch Hq Hdb HK. pose proof (zlength_nonneg data). pose proof (queue_bounds _ _ _ Hq). pose proof (queue_bounds _ _ _ Hdb).
  unfold evhttp_send_reply_chunk. rewrite Hreq, Hch, (queue_off _ _ _ Hdb). pose proof (print_hex_length (zlength data)) as Hx.
  pose proof (zlength_nonneg (chars (print_hex (zlength data)))) as Hx0.
  assert (Ex : zlength (chars (print_hex (zlength data) +:+ crlf)) = zlength (chars (print_hex (zlength data))) + 2)
    by (rewrite chars_app, zlength_app; done).
  destruct (queue_print K _ l (print_hex (zlength data) +:+ crlf) Hq) as (o1 & -> & Hq1); [rewrite Ex; lia|rewrite Ex; lia|]. rewrite done_bind.
  destruct (queue_add_buffer _ _ _ _ _ _ Hq1 Hdb) as (o2 & db' & -> & Hq2 & _); [rewrite Ex; lia|]. rewrite done_bind.
  destruct (queue_add _ _ _ Hq2 (chars crlf)) as (o3 & -> & Hq3); [rewrite Ex; change (zlength (chars crlf)) with 2; lia|]. rewrite done_bind.
  exists o3. split; [reflexivity|]. rewrite Ex in Hq3. change (zlength (chars crlf)) with 2 in Hq3. rewrite chars_app, <-!app_assoc in Hq3.
  eapply queue_weaken; [exact Hq3|lia].
Qed.
Lemma send_chunk_run K c req l data :
  ec_request c = Some req → er_chunked req = true → queue K (ec_output_buffer c) l → K + zlength data + 100 < MAX_ROOM →
  ∃ out, (databuf ← evbuffer_add data evbuffer_new; evhttp_send_reply_chunk databuf c) = Done (evhttp_write_buffer false (ec_set_output out c))
    ∧ queue (K + zlength data + 80) out (l ++ chunk_text data).
Proof.
  intros Hreq Hch Hq HK. pose proof (zlength_nonneg data). pose proof (queue_bounds _ _ _ Hq).
  destruct (queue_add 0 evbuffer_new [] queue_new data) as (db & -> & Hdb); [lia|]. rewrite done_bind.
  apply (send_buffer_run K (zlength data) c req l db data); [done..|lia].
Qed.
Lemma send_chunks_run chunks : ∀ K c req l,
  ec_request c = Some req → er_chunked req = true → queue K (ec_output_buffer c) l →
  Forall (λ d, zlength d < 2 ^ 31) chunks → K + 2 * zlength (concat chunks) + 100 * zlength chunks + 10 < MAX_ROOM →
  ∃ c', send_chunks chunks c = Done c' ∧ holds (ec_output_buffer c') (l ++ (chunks ≫= chunk_text) ++ last_chunk)
    ∧ ec_event c' = EvWrite ∧ ec_cb c' = true ∧ ec_request c' = Some (er_set_chunked false req).
Proof.
  induction chunks as [|data chunks IH]; intros K c req l Hreq Hch Hq Hall HK.
  - cbn [send_chunks]. unfold evhttp_send_reply_end. rewrite Hreq, Hch. change (zlength (concat [])) with 0 in HK. pose proof (zlength_nonneg (@nil (list ascii))).
    destruct (queue_add _ _ _ Hq (chars ("0" +:+ crlf +:+ crlf))) as (o & -> & Hq'); [change (zlength (chars ("0" +:+ crlf +:+ crlf))) with 5; lia|].
    rewrite done_bind. eexists. split; [reflexivity|]. split; [apply Hq'|done].
  - apply Forall_cons in Hall as [Hd Hall]. cbn [concat] in HK. rewrite zlength_app in HK.
    assert (El : zlength (data :: chunks) = 1 + zlength chunks) by (unfold zlength; simpl; lia). rewrite El in HK.
    pose proof (zlength_nonneg data). pose proof (zlength_nonneg (concat chunks)). pose proof (zlength_nonneg chunks).
    destruct (send_chunk_run K c req l data Hreq Hch Hq) as (out & Eo & Hq'); [lia|]. cbn [send_chunks].
    destruct (evbuffer_add data evbuffer_new) as [db| |]; [|done..]. rewrite done_bind in Eo |- *. rewrite Eo, done_bind.
    destruct (IH (K + zlength data + 80) (evhttp_write_buffer false (ec_set_output out c)) req (l ++ chunk_text data)) as (c' & -> & Hh & Hrest); try done; [lia|].
    exists c'. split; [done|]. split; [|done]. cbn [mbind list_bind]. by rewrite <-!app_assoc in Hh |- *.
Qed.

(** ** Receiving *)

Lemma zlength_crlf l : zlength (CR :: LF :: l) = 2 + zlength l.
Proof. unfold zlength. simpl. lia. Qed.
(** The loop takes the chunks; it then stands before what follows them. *)
Lemma chunked_loop_chunks rest chunks : ∀ fuel K Ki b req l,
  Forall (λ d, d ≠ []) chunks →
  queue K b ((chunks ≫= chunk_text) ++ rest) → K < MAX_ROOM → zlength ((chunks ≫= chunk_text) ++ rest) < 2 ^ 31 →
  er_ntoread req < 0 → queue Ki (er_input_buffer req) l → Ki + zlength (concat chunks) < MAX_ROOM →
  ∃ into n b', chunked_loop (3 * length chunks + fuel) req b = chunked_loop fuel (er_set_body into n req) b'
    ∧ n < 0 ∧ holds into (l ++ concat chunks) ∧ queue K b' rest.
Proof.
  induction chunks as [|data chunks IH]; intros fuel K Ki b req l Hne Hq HK Hs Hn Hi HKi.
  - exists (er_input_buffer req), (er_ntoread req), b. split; [by destruct req|]. cbn [concat]. rewrite app_nil_r. by split_and!; [|apply Hi|].
  - apply Forall_cons in Hne as [Hd Hne]. cbn [mbind list_bind] in Hq, Hs. change (mbind chunk_text chunks) with (chunks ≫= chunk_text) in *.
    set (tail := (chunks ≫= chunk_text) ++ rest) in *.
    replace (3 * length (data :: chunks) + fuel)%nat with (S (S (S (3 * length chunks + fuel)))) by (cbn [length]; lia).
    rewrite <-app_assoc in Hq, Hs. fold tail in Hq, Hs. unfold chunk_text in Hq, Hs. rewrite <-!app_assoc in Hq, Hs. cbn [app] in Hq, Hs.
    rewrite <-!app_assoc in Hq, Hs. cbn [app] in Hq, Hs.
    cbn [concat] in HKi |- *. rewrite zlength_app in HKi.
    pose proof (zlength_nonneg data) as Hd0. assert (Hdpos : 0 < zlength data) by (destruct data; [done|unfold zlength; simpl; lia]).
    pose proof (zlength_nonneg (concat chunks)). pose proof (zlength_nonneg (chars (print_hex (zlength data)))). pose proof (zlength_nonneg tail).
    assert (Hlen : zlength (chars (print_hex (zlength data)) ++ CR :: LF :: data ++ CR :: LF :: tail)
      = zlength (chars (print_hex (zlength data))) + zlength data + zlength tail + 4).
    { repeat first [rewrite zlength_app | rewrite zlength_crlf]. lia. }
    rewrite Hlen in Hs.
    (** The size. *)
    cbn [chunked_loop]. rewrite (queue_off _ _ _ Hq), Hlen, wrap32_id by (apply in_int_iff; lia).
    rewrite (proj2 (Z.leb_gt _ 0)) by lia. rewrite (proj2 (Z.ltb_lt (er_ntoread req) 0)) by done.
    destruct (readline_full K b HK _ _ Hq) as (b1 & -> & Hq1); [rewrite Hlen; lia|apply print_hex_plain|]. rewrite done_bind.
    cbn [fmap option_fmap option_map]. rewrite line_text_plain by apply print_hex_plain.
    destruct (print_hex_cons (zlength data)) as (hc & ht & Eh). pose proof (strtoll_16_print (zlength data) ltac:(lia)) as Hst.
    rewrite Eh in Hst |- *. rewrite Hst. cbn [negb orb]. rewrite (proj2 (Z.ltb_ge (zlength data) 0)) by lia. cbn [orb].
    rewrite (proj2 (Z.eqb_neq (zlength data) 0)) by lia. cbv zeta.
    (** The data. *)
    set (req1 := er_set_body _ _ _).
    assert (Hl1 : zlength (data ++ CR :: LF :: tail) = zlength data + 2 + zlength tail).
    { repeat first [rewrite zlength_app | rewrite zlength_crlf]. lia. }
    cbn [chunked_loop]. rewrite (queue_off _ _ _ Hq1), Hl1, wrap32_id by (apply in_int_iff; lia).
    rewrite (proj2 (Z.leb_gt _ 0)) by lia. change (er_ntoread req1) with (zlength data). rewrite (proj2 (Z.ltb_ge (zlength data) 0)) by lia.
    rewrite (proj2 (Z.ltb_ge _ (zlength data))) by lia. change (er_input_buffer req1) with (er_input_buffer req).
    destruct (move_run K Ki (zlength data) b1 _ _ l Hq1 Hi) as (into & b2 & -> & Hq2 & Hi2); [lia|done|lia|]. rewrite done_bind.
    replace (Z.to_nat (zlength data)) with (length data) in Hq2, Hi2 by (unfold zlength; lia).
    rewrite drop_app_length in Hq2. rewrite take_app_length in Hi2.
    (** The end of its line. *)
    set (req2 := er_set_body into (-1) req1).
    assert (Hl2 : zlength (CR :: LF :: tail) = 2 + zlength tail) by (unfold zlength; simpl; lia).
    cbn [chunked_loop]. rewrite (queue_off _ _ _ Hq2), Hl2, wrap32_id by (apply in_int_iff; lia).
    rewrite (proj2 (Z.leb_gt _ 0)) by lia. change (er_ntoread req2 <? 0) with true. cbv iota.
    destruct (readline_full K b2 HK [] tail Hq2) as (b3 & -> & Hq3); [cbn [app]; rewrite Hl2; lia|by apply Forall_nil|]. rewrite done_bind.
    cbn [fmap option_fmap option_map line_text c_chars unchars].
    destruct (IH fuel K (Ki + zlength data) b3 req2 (l ++ data)) as (into' & n & b' & E & Hneg & Hh & Hq4); try done; [fold tail; lia|lia|].
    exists into', n, b'. rewrite E. split; [done|]. by rewrite <-app_assoc in Hh.
Qed.
Lemma chunked_loop_run chunks fuel K Ki b req l :
  Forall (λ d, d ≠ []) chunks →
  queue K b ((chunks ≫= chunk_text) ++ last_chunk) → K < MAX_ROOM → zlength ((chunks ≫= chunk_text) ++ last_chunk) < 2 ^ 31 →
  er_ntoread req < 0 → queue Ki (er_input_buffer req) l → Ki + zlength (concat chunks) < MAX_ROOM →
  (3 * length chunks < fuel)%nat →
  ∃ into b', chunked_loop fuel req b = Done (ALL_DATA_READ, er_set_body into 0 req, b')
    ∧ holds into (l ++ concat chunks) ∧ queue K b' [CR; LF].
Proof.
  intros Hne Hq HK Hs Hn Hi HKi Hf.
  replace fuel with (3 * length chunks + S (fuel - 3 * length chunks - 1))%nat by lia.
  destruct (chunked_loop_chunks last_chunk chunks (S (fuel - 3 * length chunks - 1)) K Ki b req l Hne Hq HK Hs Hn Hi HKi)
    as (into & n & b1 & -> & Hneg & Hh & Hq1). cbn [chunked_loop]. rewrite (queue_off _ _ _ Hq1), wrap32_id by done.
  change (zlength last_chunk <=? 0) with false. change (er_ntoread (er_set_body into n req)) with n. rewrite (proj2 (Z.ltb_lt _ _)) by done.
  destruct (readline_full K b1 HK ["0"%char] [CR; LF] Hq1) as (b' & -> & Hq'); [done|by apply (bool_decide_eq_true_1 (Forall _ _))|].
  rewrite done_bind. by exists into, b'.
Qed.
(** Between two chunks nothing is missing but the next one. *)
Lemma chunked_loop_open chunks fuel K Ki b req l :
  Forall (λ d, d ≠ []) chunks →
  queue K b (chunks ≫= chunk_text) → K < MAX_ROOM → zlength (chunks ≫= chunk_text) < 2 ^ 31 →
  er_ntoread req < 0 → queue Ki (er_input_buffer req) l → Ki + zlength (concat chunks) < MAX_ROOM →
  (3 * length chunks < fuel)%nat →
  ∃ into n b', chunked_loop fuel req b = Done (MORE_DATA_EXPECTED, er_set_body into n req, b')
    ∧ holds into (l ++ concat chunks) ∧ holds b' [].
Proof.
  intros Hne Hq HK Hs Hn Hi HKi Hf. rewrite <-(app_nil_r (chunks ≫= chunk_text)) in Hq, Hs.
  replace fuel with (3 * length chunks + S (fuel - 3 * length chunks - 1))%nat by lia.
  destruct (chunked_loop_chunks [] chunks (S (fuel - 3 * length chunks - 1)) K Ki b req l Hne Hq HK Hs Hn Hi HKi)
    as (into & n & b1 & -> & _ & Hh & Hq1). cbn [chunked_loop]. rewrite (queue_off _ _ _ Hq1), wrap32_id by done.
  exists into, n, b1. split; [done|]. split; [done|apply Hq1].
Qed.

Lemma chunks_length chunks : zlength (concat chunks) + 4 * zlength chunks <= zlength (chunks ≫= chunk_text).
Proof.
  induction chunks as [|d chunks IH]; [done|]. rewrite bind_cons. cbn [concat]. rewrite !zlength_app. unfold chunk_text at 1.
  repeat first [rewrite zlength_app | rewrite zlength_crlf]. change (zlength (@nil ascii)) with 0. pose proof (zlength_nonneg (chars (print_hex (zlength d)))).
  assert (zlength (d :: chunks) = 1 + zlength chunks) by (unfold zlength; simpl; lia). lia.
Qed.

(** C39: a reply in chunks reaches the client: for chunks that are not
    empty, the server appends to the output of the connection, whatever is there
    already, the sizes and the data and ends the reply; the bytes appended are
    read by the client half as the data of all chunks one after the other, and
    what is left is the empty trailer, with which the reply is complete. *)
Theorem chunked_roundtrip (chunks : list (list ascii)) (c : evhttp_connection) (req : evhttp_request) (l : list ascii)
    (b : evbuffer) (creq : evhttp_request) :
  Forall (λ d, d ≠ []) chunks → zlength ((chunks ≫= chunk_text) ++ last_chunk) < 2 ^ 31 →
  ec_request c = Some req → er_chunked req = true → queue (2 ^ 40) (ec_output_buffer c) l →
  er_ntoread creq < 0 → holds (er_input_buffer creq) [] → eb_totallen (er_input_buffer creq) <= 256 → er_input_headers creq = [] →
  queue (2 ^ 40) b ((chunks ≫= chunk_text) ++ last_chunk) →
  (∃ c', send_chunks chunks c = Done c' ∧ holds (ec_output_buffer c') (l ++ (chunks ≫= chunk_text) ++ last_chunk)
     ∧ ec_event c' = EvWrite ∧ ec_cb c' = true)
  ∧ ∃ got b1 got2 b2, evhttp_handle_chunked_read creq b = Done (ALL_DATA_READ, got, b1) ∧ holds (er_input_buffer got) (concat chunks)
     ∧ evhttp_parse_headers got b1 = Done (ALL_DATA_READ, got2, b2) ∧ er_input_headers got2 = [] ∧ holds b2 [].
Proof.
  intros Hne Hs Hreq Hch Hout Hn Hin Htot Hhs Hq.
  assert (Hsz : zlength (concat chunks) + zlength chunks + 2 <= zlength ((chunks ≫= chunk_text) ++ last_chunk) ∧ (3 * length chunks < S (2 * Z.to_nat (zlength ((chunks ≫= chunk_text) ++ last_chunk))))%nat).
  { clear. pose proof (chunks_length chunks) as H.
    rewrite zlength_app. change (zlength last_chunk) with 5. pose proof (zlength_nonneg (concat chunks)). pose proof (zlength_nonneg chunks).
    split; [lia|]. unfold zlength in *. lia. }
  destruct Hsz as [Hsz Hfuel]. pose proof (zlength_nonneg (concat chunks)). pose proof (zlength_nonneg chunks). split.
  - destruct (send_chunks_run chunks (2 ^ 40) c req l Hreq Hch Hout) as (c' & -> & Hh & He & Hc & _); [|unfold MAX_ROOM; lia|by exists c'].
    apply Forall_forall. intros d Hd. apply list_elem_of_split in Hd as (l1 & l2 & ->). rewrite concat_app, zlength_app in Hsz. cbn [concat] in Hsz.
    rewrite zlength_app in Hsz. pose proof (zlength_nonneg (concat l1)). pose proof (zlength_nonneg (concat l2)). lia.
  - assert (Hi : queue (2 ^ 40) (er_input_buffer creq) []) by (split; [done|pose proof (ho_fits _ _ Hin); lia]).
    destruct (chunked_loop_run chunks (S (2 * Z.to_nat (eb_off b))) (2 ^ 40) (2 ^ 40) b creq [] Hne Hq) as (into & b1 & E & Hh & Hq1);
      [unfold MAX_ROOM; lia|done|done|done|unfold MAX_ROOM; lia|by rewrite (queue_off _ _ _ Hq)|].
    unfold evhttp_handle_chunked_read. rewrite E. exists (er_set_body into 0 creq), b1.
    destruct (readline_full (2 ^ 40) b1 ltac:(unfold MAX_ROOM; lia) [] [] Hq1) as (b2 & Er & Hq2); [done|by apply Forall_nil|].
    eexists (er_set_input_headers [] (er_set_body into 0 creq)), b2. split; [done|]. split; [exact Hh|]. split; [|split; [done|apply Hq2]].
    unfold evhttp_parse_headers. change (er_input_headers (er_set_body into 0 creq)) with (er_input_headers creq). rewrite Hhs.
    cbn [headers_loop]. rewrite Er. by rewrite !done_bind.
Qed.

Definition demo_client : evhttp_request := er_set_chunked true (er_set_body evbuffer_new (-1) evhttp_request_new).
Definition demo_stream : evhttp_connection := ec_set_request (Some (er_set_chunked true new_request)) evhttp_connection_new.
Lemma chunked_roundtrip_witness :
  ∃ b, evbuffer_add (([chars "hello"; chars ", world"] ≫= chunk_text) ++ last_chunk) evbuffer_new = Done b
    ∧ ∃ got b1, evhttp_handle_chunked_read demo_client b = Done (ALL_DATA_READ, got, b1)
      ∧ holds (er_input_buffer got) (chars "hello, world").
Proof.
  destruct (queue_add 0 evbuffer_new [] queue_new (([chars "hello"; chars ", world"] ≫= chunk_text) ++ last_chunk)) as (b & Eb & Hb);
    [vm_compute; reflexivity|].
  exists b. split; [exact Eb|].
  destruct (chunked_roundtrip [chars "hello"; chars ", world"] demo_stream (er_set_chunked true new_request) [] b demo_client)
    as [_ (got & b1 & _ & _ & E & Hh & _)].
  - apply Forall_cons. split; [discriminate|]. apply Forall_singleton. discriminate.
  - vm_compute. reflexivity.
  - reflexivity.
  - reflexivity.
  - eapply queue_weaken; [apply queue_new|lia].
  - reflexivity.
  - apply holds_new.
  - vm_compute. discriminate.
  - reflexivity.
  - eapply queue_weaken; [exact Hb|]. vm_compute. discriminate.
  - exists got, b1. split; [exact E|]. exact Hh.
Defined.

(** An empty chunk ends the reply: what follows is not read as data. *)
Example empty_chunk_ends :
  match (b ← evbuffer_add (([chars "a"; []; chars "b"] ≫= chunk_text) ++ last_chunk) evbuffer_new; evhttp_handle_chunked_read demo_client b) with
  | Done (ALL_DATA_READ, got, b) => eb_off (er_input_buffer got) = 1 ∧ eb_off b = 13
  | _ => False
  end.
Proof. vm_compute. split; reflexivity. Qed.
