(* ===== verification/ImageStream.v ===== *)
(** What an image stream of the web server sends: the events of
    [otStreamModule] (data, stop) and of its timer in src/src/movid.cpp, from the
    image on the input to the parts of the reply.

    Of an image the header counts; the encoder of OpenCV gives the bytes of the
    JPEG.  The members of the module are the record [image_sink], with the data
    of the input stream and the value of the property "scale". *)
From S2P Require Import Prelude Numeric Utils Container Module World Filters JsonText Evbuffer HttpText HttpUri Http HttpSpec HttpChunks.
#[local] Open Scope Z_scope.

(** ** The module *)

Record image_sink := {
  is_data : option IplImage;
  is_scale : Z;
  is_buffer : option IplImage;
}.
Definition sink_with_buffer (b : option IplImage) (s : image_sink) : image_sink :=
  {| is_data := is_data s; is_scale := is_scale s; is_buffer := b |}.
Definition sink_with_data (d : option IplImage) (s : image_sink) : image_sink :=
  {| is_data := d; is_scale := is_scale s; is_buffer := is_buffer s |}.
Definition new_sink (scale : Z) : image_sink := {| is_data := None; is_scale := scale; is_buffer := None |}.

(** [cvCreateImage]: a negative size is an error of OpenCV. *)
Definition cvCreateImage (width height depth nChannels : Z) : res IplImage :=
  if (width <? 0) || (height <? 0) then Fault FAssert
  else Ok {| img_width := width; img_height := height; img_depth := depth; img_nChannels := nChannels |}.
(** [a /= b] on ints. *)
Definition int_div (a b : Z) : res Z := if b =? 0 then Fault FDivZero else Ok (wrap32 (cdiv a b)).

Definition sink_notifyData (s : image_sink) : res image_sink :=
  match is_data s with
  | None => Ok s
  | Some src =>
      if match is_buffer s with None => true | Some b => negb (img_nChannels b =? img_nChannels src) end then
        width ← int_div (img_width src) (is_scale s);
        height ← int_div (img_height src) (is_scale s);
        b ← cvCreateImage width height (img_depth src) (img_nChannels src);
        Ok (sink_with_buffer (Some b) s)
      else Ok s
  end.
Definition sink_stop (s : image_sink) : image_sink := sink_with_buffer None s.

(** [cvCopy] wants images of one size and type, [cvResize] images that are not
    empty and of one type. *)
Definition cvCopy (src dst : IplImage) : res unit :=
  if (img_width dst =? img_width src) && (img_height dst =? img_height src) && (img_depth dst =? img_depth src) && (img_nChannels dst =? img_nChannels src)
  then Ok tt else Fault FAssert.
Definition cvResize (src dst : IplImage) : res unit :=
  if (0 <? img_width src) && (0 <? img_height src) && (0 <? img_width dst) && (0 <? img_height dst)
     && (img_depth dst =? img_depth src) && (img_nChannels dst =? img_nChannels src)
  then Ok tt else Fault FAssert.

Definition sink_copy (s : image_sink) : res bool :=
  match is_buffer s, is_data s with
  | Some b, Some src =>
      if negb (img_nChannels b =? img_nChannels src) then Ok false
      else
        (if is_scale s =? 1 then cvCopy src b else cvResize src b);;
        Ok true
  | _, _ => Ok false
  end.

(** ** The timer of an open stream *)

(** The image that goes to the encoder: converted when it has not 8 bits.
    (The colours of three channels are swapped in place before.) *)
Definition trickle_image (s : image_sink) : res (option IplImage) :=
  copied ← sink_copy s;
  match is_buffer s with
  | Some img =>
      if copied : bool then
        if img_depth img =? 8 then Ok (Some img)
        else img ← cvCreateImage (img_width img) (img_height img) 8 (img_nChannels img); Ok (Some img)
      else Ok None
  | None => Ok None
  end.
(** The part is printed and sent as a chunk. *)
Definition part_head (outlen : Z) : string := "Content-Length: " +:+ print_int outlen +:+ crlf +:+ crlf.
Definition trickle_send (outbuf : list ascii) (c : evhttp_connection) : outcome evhttp_connection :=
  evb ← printf ("--mjpegstream" +:+ crlf) evbuffer_new;
  evb ← printf ("Content-Type: image/jpeg" +:+ crlf) evb;
  evb ← printf (part_head (zlength outbuf)) evb;
  evb ← evbuffer_add outbuf evb;
  evhttp_send_reply_chunk evb c.

(** ** Runs *)

(** A frame arrives, the timer runs, or the module is stopped. *)
Definition sink_event (e : event) (s : image_sink) : res (image_sink * list IplImage) :=
  match e with
  | Frame img => s ← sink_notifyData (sink_with_data img s); Ok (s, [])
  | Poll => img ← trickle_image s; Ok (s, match img with Some img => [img] | None => [] end)
  | Stop => Ok (sink_stop s, [])
  end.
Fixpoint sink_run (es : list event) (s : image_sink) : res (list IplImage) :=
  match es with
  | [] => Ok []
  | e :: es => r ← sink_event e s; rest ← sink_run es r.1; Ok (r.2 ++ rest)
  end.
(** The timer of a stream with an image each time. *)
Fixpoint trickle_sends (jpegs : list (list ascii)) (c : evhttp_connection) : outcome evhttp_connection :=
  match jpegs with
  | [] => Done c
  | jpeg :: jpegs => c ← trickle_send jpeg c; trickle_sends jpegs c
  end.

(** ** What a reader of the stream sees *)

(** A line up to CRLF. *)
Fixpoint take_line (l : list ascii) : option (list ascii * list ascii) :=
  match l with
  | [] => None
  | c :: rest =>
      if bool_decide (c = CR) then match rest with d :: rest => if bool_decide (d = LF) then Some ([], rest) else None | [] => None end
      else '(line, rest) ← take_line rest; Some (c :: line, rest)
  end.
Definition take_this_line (line : string) (l : list ascii) : option (list ascii) :=
  '(got, l) ← take_line l; if bool_decide (got = chars line) then Some l else None.
(** A part of multipart/x-mixed-replace with the boundary the server announced. *)
Definition read_part (l : list ascii) : option (list ascii * list ascii) :=
  l ← take_this_line "--mjpegstream" l;
  l ← take_this_line "Content-Type: image/jpeg" l;
  '(size, l) ← take_line l;
  if bool_decide (take 16 size = chars "Content-Length: ") then
    l ← take_this_line EmptyString l;
    let n := Z.to_nat (atoi (unchars (drop 16 size))) in
    Some (take n l, drop n l)
  else None.
Fixpoint read_parts (fuel : nat) (l : list ascii) : option (list (list ascii)) :=
  match fuel with
  | O => None
  | S fuel =>
      match l with
      | [] => Some []
      | _ => '(part, l) ← read_part l; parts ← read_parts fuel l; Some (part :: parts)
      end
  end.

Definition jpeg_part (jpeg : list ascii) : list ascii :=
  chars "--mjpegstream" ++ CR :: LF :: chars "Content-Type: image/jpeg" ++ CR :: LF ::
  chars ("Content-Length: " +:+ print_int (zlength jpeg)) ++ CR :: LF :: CR :: LF :: jpeg.

Lemma take_line_app line l : Forall (λ c, c ≠ CR) line → take_line (line ++ CR :: LF :: l) = Some (line, l).
Proof.
  induction line as [|c line IH]; intros Hl; [done|]. apply Forall_cons in Hl as [Hc Hl]. cbn [app take_line].
  rewrite bool_decide_false by done. by rewrite IH.
Qed.
Lemma take_this_line_app line l : Forall (λ c, c ≠ CR) (chars line) → take_this_line line (chars line ++ CR :: LF :: l) = Some l.
Proof. intros Hl. unfold take_this_line. rewrite take_line_app by done. cbn. by rewrite bool_decide_true. Qed.
Lemma print_int_no_cr n : Forall (λ c, c ≠ CR) (chars (print_int n)).
Proof. eapply Forall_impl; [apply numeric_print_int|]. by_ascii. Qed.

Lemma read_part_app jpeg l : zlength jpeg < 2 ^ 31 → read_part (jpeg_part jpeg ++ l) = Some (jpeg, l).
Proof.
  intros Hj. pose proof (zlength_nonneg jpeg). unfold read_part, jpeg_part.
  rewrite <-!app_assoc. cbn [app]. rewrite <-app_assoc. cbn [app]. rewrite <-app_assoc. cbn [app].
  rewrite take_this_line_app by (by apply (bool_decide_eq_true_1 (Forall _ _))). cbn [mbind option_bind].
  rewrite take_this_line_app by (by apply (bool_decide_eq_true_1 (Forall _ _))). cbn [mbind option_bind].
  rewrite take_line_app.
  2: { rewrite chars_app. apply Forall_app. split; [by apply (bool_decide_eq_true_1 (Forall _ _))|apply print_int_no_cr]. }
  cbn [mbind option_bind]. rewrite chars_app.
  rewrite (take_app_length' _ _ 16), (drop_app_length' _ _ 16), bool_decide_true by done.
  pose proof (take_this_line_app EmptyString (jpeg ++ l) (Forall_nil_2 _)) as He. cbn [chars app] in He. rewrite He. cbn [mbind option_bind].
  rewrite unchars_chars, atoi_print_int by (apply in_int_iff; lia).
  replace (Z.to_nat (zlength jpeg)) with (length jpeg) by (unfold zlength; lia).
  by rewrite take_app_length, drop_app_length.
Qed.
Lemma jpeg_part_cons jpeg : ∃ c l, jpeg_part jpeg = c :: l.
Proof. unfold jpeg_part. by eexists _, _. Qed.
Lemma read_parts_concat jpegs fuel :
  Forall (λ j, zlength j < 2 ^ 31) jpegs → (length jpegs < fuel)%nat → read_parts fuel (concat (jpeg_part <$> jpegs)) = Some jpegs.
Proof.
  revert fuel. induction jpegs as [|j jpegs IH]; intros fuel Hj Hf; (destruct fuel as [|fuel]; [simpl in Hf; lia|]); [done|].
  apply Forall_cons in Hj as [Hj Hall]. cbn [fmap list_fmap concat read_parts]. simpl in Hf.
  destruct (jpeg_part_cons j) as (c & l & E). pose proof (read_part_app j (concat (jpeg_part <$> jpegs)) Hj) as Hr.
  rewrite E in Hr |- *. cbn [app] in Hr |- *. rewrite Hr. cbn [mbind option_bind]. change (list_fmap _ _ jpeg_part jpegs) with (jpeg_part <$> jpegs).
  rewrite IH by (done || lia). done.
Qed.

(** ** Sending *)

Lemma print_int_bound n : 0 <= n < 2 ^ 31 → zlength (chars (print_int n)) <= 20.
Proof. intros Hn. pose proof (print_int_length n ltac:(apply in_int_iff; lia)). unfold zlength. lia. Qed.

Lemma trickle_send_run K c req l jpeg :
  ec_request c = Some req → er_chunked req = true → queue K (ec_output_buffer c) l → zlength jpeg < 2 ^ 31 → K + zlength jpeg + 400 < MAX_ROOM →
  ∃ out, trickle_send jpeg c = Done (evhttp_write_buffer false (ec_set_output out c))
    ∧ queue (K + zlength jpeg + 400) out (l ++ chunk_text (jpeg_part jpeg)).
Proof.
  intros Hreq Hch Hq Hj HK. pose proof (zlength_nonneg jpeg). pose proof (queue_bounds _ _ _ Hq).
  pose proof (print_int_bound (zlength jpeg) ltac:(lia)) as Hp.
  assert (Hh : zlength (chars (part_head (zlength jpeg))) <= 40).
  { unfold part_head. rewrite !chars_app, !zlength_app. change (zlength (chars "Content-Length: ")) with 16. change (zlength (chars crlf)) with 2. lia. }
  pose proof (zlength_nonneg (chars (part_head (zlength jpeg)))). unfold trickle_send.
  destruct (queue_print 0 evbuffer_new [] ("--mjpegstream" +:+ crlf) queue_new) as (b1 & -> & Hq1); [by vm_compute..|]. rewrite done_bind.
  change (0 + (zlength (chars ("--mjpegstream" +:+ crlf)) + 65)) with 80 in Hq1.
  destruct (queue_print 80 b1 _ ("Content-Type: image/jpeg" +:+ crlf) Hq1) as (b2 & -> & Hq2); [by vm_compute..|]. rewrite done_bind.
  change (80 + (zlength (chars ("Content-Type: image/jpeg" +:+ crlf)) + 65)) with 171 in Hq2.
  destruct (queue_print 171 b2 _ (part_head (zlength jpeg)) Hq2) as (b3 & -> & Hq3); [unfold MAX_ROOM; lia|lia|]. rewrite done_bind.
  destruct (queue_add _ b3 _ Hq3 jpeg) as (b4 & -> & Hq4); [lia|]. rewrite done_bind.
  match type of Hq4 with queue _ _ ?x => assert (E : x = jpeg_part jpeg) end.
  { unfold part_head, jpeg_part. rewrite !chars_app. rewrite <-!app_assoc. reflexivity. }
  rewrite E in Hq4. destruct (send_buffer_run _ _ c req l b4 _ Hreq Hch Hq Hq4) as (out & -> & Ho); [lia|].
  exists out. split; [done|]. eapply queue_weaken; [exact Ho|lia].
Qed.
Lemma trickle_sends_run jpegs : ∀ K c req l,
  ec_request c = Some req → er_chunked req = true → queue K (ec_output_buffer c) l →
  Forall (λ j, zlength j < 2 ^ 31) jpegs → K + zlength (concat jpegs) + 400 * zlength jpegs < MAX_ROOM →
  ∃ c', trickle_sends jpegs c = Done c' ∧ holds (ec_output_buffer c') (l ++ ((jpeg_part <$> jpegs) ≫= chunk_text))
    ∧ ec_request c' = Some req.
Proof.
  induction jpegs as [|j jpegs IH]; intros K c req l Hreq Hch Hq Hall HK.
  - exists c. cbn. rewrite app_nil_r. split_and!; [done|apply Hq|done].
  - apply Forall_cons in Hall as [Hj Hall]. cbn [concat] in HK. rewrite zlength_app in HK.
    assert (El : zlength (j :: jpegs) = 1 + zlength jpegs) by (unfold zlength; simpl; lia). rewrite El in HK.
    pose proof (zlength_nonneg j). pose proof (zlength_nonneg (concat jpegs)). pose proof (zlength_nonneg jpegs).
    destruct (trickle_send_run K c req l j Hreq Hch Hq Hj) as (out & E & Ho); [lia|]. cbn [trickle_sends]. rewrite E, done_bind.
    destruct (IH (K + zlength j + 400) (evhttp_write_buffer false (ec_set_output out c)) req (l ++ chunk_text (jpeg_part j)))
      as (c' & -> & Hh & Hr); try done; [lia|].
    exists c'. split_and!; [done| |done]. cbn [fmap list_fmap mbind list_bind]. by rewrite <-app_assoc in Hh.
Qed.

(** C25: the images of a stream arrive: whatever the output of the
    connection holds already, each turn of the timer appends the JPEG as one
    chunk, and the chunks of any number of turns, read by the client half of the
    HTTP code, are a multipart text in which a reader that goes by the boundary
    and the lengths finds exactly the JPEGs, in order; the client then waits for
    the next chunk. *)
Theorem stream_images_arrive (jpegs : list (list ascii)) (c : evhttp_connection) (req : evhttp_request) (l : list ascii)
    (b : evbuffer) (creq : evhttp_request) :
  zlength ((jpeg_part <$> jpegs) ≫= chunk_text) < 2 ^ 31 →
  ec_request c = Some req → er_chunked req = true → queue (2 ^ 40) (ec_output_buffer c) l →
  er_ntoread creq < 0 → queue (2 ^ 40) (er_input_buffer creq) [] →
  queue (2 ^ 40) b ((jpeg_part <$> jpegs) ≫= chunk_text) →
  (∃ c', trickle_sends jpegs c = Done c' ∧ holds (ec_output_buffer c') (l ++ ((jpeg_part <$> jpegs) ≫= chunk_text)))
  ∧ ∃ got b' text, evhttp_handle_chunked_read creq b = Done (MORE_DATA_EXPECTED, got, b') ∧ holds b' []
      ∧ holds (er_input_buffer got) text ∧ read_parts (S (length text)) text = Some jpegs.
Proof.
  intros Hs Hreq Hch Hout Hn Hin Hq. pose proof (chunks_length (jpeg_part <$> jpegs)) as Hlen.
  assert (Hparts : zlength (concat jpegs) + zlength jpegs <= zlength (concat (jpeg_part <$> jpegs))).
  { clear. induction jpegs as [|j jpegs IH]; [done|]. cbn [fmap list_fmap concat]. rewrite !zlength_app. unfold jpeg_part at 1.
    rewrite zlength_app, zlength_crlf. repeat first [rewrite zlength_app | rewrite zlength_crlf]. change (zlength (chars "--mjpegstream")) with 13.
    assert (zlength (j :: jpegs) = 1 + zlength jpegs) by (unfold zlength; simpl; lia).
    pose proof (zlength_nonneg (chars "Content-Type: image/jpeg")).
    pose proof (zlength_nonneg (chars ("Content-Length: " +:+ print_int (zlength j)))). lia. }
  assert (Hall : Forall (λ j, zlength j < 2 ^ 31) jpegs).
  { apply Forall_forall. intros j Hj. apply list_elem_of_split in Hj as (l1 & l2 & ->). rewrite concat_app, zlength_app in Hparts.
    cbn [concat] in Hparts. rewrite zlength_app in Hparts. pose proof (zlength_nonneg (concat l1)). pose proof (zlength_nonneg (concat l2)).
    pose proof (zlength_nonneg (l1 ++ j :: l2)). pose proof (zlength_nonneg (jpeg_part <$> (l1 ++ j :: l2))). lia. }
  pose proof (zlength_nonneg (concat jpegs)). pose proof (zlength_nonneg jpegs). pose proof (zlength_nonneg (jpeg_part <$> jpegs)). split.
  - destruct (trickle_sends_run jpegs (2 ^ 40) c req l Hreq Hch Hout Hall) as (c' & E & Hh & _); [unfold MAX_ROOM; lia|]. by exists c'.
  - unfold evhttp_handle_chunked_read. rewrite (queue_off _ _ _ Hq).
    destruct (chunked_loop_open (jpeg_part <$> jpegs) (S (2 * Z.to_nat (zlength ((jpeg_part <$> jpegs) ≫= chunk_text)))) (2 ^ 40) (2 ^ 40) b creq [])
      as (into & n & b' & -> & Hh & Hb); try done; [|unfold MAX_ROOM; lia|unfold zlength in *; lia|].
    + apply Forall_fmap, Forall_true. intros j. unfold compose. destruct (jpeg_part_cons j) as (? & ? & ->). done.
    + eexists _, b', _. split; [done|]. split; [done|]. split; [exact Hh|]. cbn [app]. apply read_parts_concat; [done|]. unfold zlength in *. lia.
Qed.

Lemma stream_images_arrive_witness :
  ∃ b c', evbuffer_add ((jpeg_part <$> [chars "first"; chars "second"]) ≫= chunk_text) evbuffer_new = Done b
    ∧ trickle_sends [chars "first"; chars "second"] demo_stream = Done c'
    ∧ ∃ got b' text, evhttp_handle_chunked_read demo_client b = Done (MORE_DATA_EXPECTED, got, b')
      ∧ holds (er_input_buffer got) text ∧ read_parts (S (length text)) text = Some [chars "first"; chars "second"].
Proof.
  destruct (queue_add 0 evbuffer_new [] queue_new ((jpeg_part <$> [chars "first"; chars "second"]) ≫= chunk_text)) as (b & Eb & Hb);
    [vm_compute; reflexivity|].
  destruct (stream_images_arrive [chars "first"; chars "second"] demo_stream (er_set_chunked true new_request) [] b demo_client)
    as [(c' & Ec & _) (got & b' & text & E & _ & Hh & Hr)].
  - vm_compute. reflexivity.
  - reflexivity.
  - reflexivity.
  - eapply queue_weaken; [apply queue_new|lia].
  - reflexivity.
  - eapply queue_weaken; [apply queue_new|lia].
  - eapply queue_weaken; [exact Hb|apply Z.leb_le; vm_compute; reflexivity].
  - exists b, c'. split; [exact Eb|]. split; [exact Ec|]. exists got, b', text. split; [exact E|]. split; [exact Hh|exact Hr].
Defined.

(** ** Sizes *)

Record sink_inv (w h d : Z) (s : image_sink) : Prop := {
  si_data src : is_data s = Some src → same_size w h d src;
  si_buffer b : is_buffer s = Some b → same_size (w / is_scale s) (h / is_scale s) d b;
}.

Lemma int_div_exact a b : 0 < a <= INT_MAX → 1 <= b → int_div a b = Ok (a / b).
Proof.
  intros Ha Hb. unfold int_div. rewrite (proj2 (Z.eqb_neq b 0)) by lia. unfold cdiv. rewrite Z.quot_div_nonneg by lia.
  rewrite wrap32_id; [done|]. apply in_int_iff. unfold INT_MAX in *. assert (a / b <= a) by (apply Z.div_le_upper_bound; nia).
  pose proof (Z.div_pos a b ltac:(lia) ltac:(lia)). lia.
Qed.

Lemma sink_frame w h d img s :
  0 < w <= INT_MAX → 0 < h <= INT_MAX → 1 <= is_scale s → (∀ src, img = Some src → same_size w h d src) → sink_inv w h d s →
  ∃ s', sink_notifyData (sink_with_data img s) = Ok s' ∧ is_scale s' = is_scale s ∧ sink_inv w h d s'.
Proof.
  intros Hw Hh Hs Himg [_ Hb]. unfold sink_notifyData. cbn [sink_with_data is_data is_scale is_buffer].
  destruct img as [src|]; [|eexists; split_and!; [done|done|by split]].
  destruct (Himg src eq_refl) as (Ew & Eh & Ed).
  destruct (match is_buffer s with None => true | Some b => _ end).
  - rewrite Ew, Eh, !int_div_exact by done. cbn [mbind res_bind].
    pose proof (Z.div_pos w (is_scale s) ltac:(lia) ltac:(lia)). pose proof (Z.div_pos h (is_scale s) ltac:(lia) ltac:(lia)).
    unfold cvCreateImage. rewrite !(proj2 (Z.ltb_ge _ 0)) by lia. cbn [orb mbind res_bind].
    eexists. split_and!; [done|done|]. split; cbn; intros; simplify_eq; [by eapply Himg|by split_and!].
  - eexists. split_and!; [done|done|]. split; cbn; intros; simplify_eq; [by eapply Himg|by apply Hb].
Qed.

Lemma sink_trickle w h d s :
  0 < w → 0 < h → 1 <= is_scale s <= Z.min w h → sink_inv w h d s →
  ∃ img, trickle_image s = Ok img ∧ ∀ i, img = Some i → same_size (w / is_scale s) (h / is_scale s) 8 i.
Proof.
  intros Hw Hh Hs [Hd Hb]. unfold trickle_image, sink_copy.
  destruct (is_buffer s) as [b|]; [|by exists None]. destruct (is_data s) as [src|]; [|by exists None].
  destruct (Hd src eq_refl) as (Ew & Eh & Ed), (Hb b eq_refl) as (Bw & Bh & Bd).
  destruct (Z.eqb_spec (img_nChannels b) (img_nChannels src)) as [En|En]; [|by exists None]. cbn [negb].
  assert (0 < w / is_scale s ∧ 0 < h / is_scale s) as [Pw Ph] by (split; apply Z.div_str_pos; lia).
  assert (Hcopy : (if is_scale s =? 1 then cvCopy src b else cvResize src b) = Ok tt).
  { destruct (Z.eqb_spec (is_scale s) 1) as [E|E].
    - unfold cvCopy. rewrite Bw, Bh, Bd, Ew, Eh, Ed, En, E, !Z.div_1_r, !Z.eqb_refl. done.
    - unfold cvResize. rewrite Bw, Bh, Bd, Ew, Eh, Ed, En, !Z.eqb_refl. rewrite !(proj2 (Z.ltb_lt 0 _)) by lia. done. }
  rewrite Hcopy. cbn [mbind res_bind]. destruct (Z.eqb_spec (img_depth b) 8) as [E|E].
  - exists (Some b). split; [done|]. intros i [= <-]. by split_and!.
  - unfold cvCreateImage. rewrite !(proj2 (Z.ltb_ge _ 0)) by lia. cbn [orb mbind res_bind].
    eexists. split; [done|]. intros i [= <-]. by split_and!.
Qed.

(** An image stream opened with a scale from 1 to the size of the
    frames, through any sequence of frames (of one size and depth, any channels),
    turns of the timer and stops, never divides by zero and never hands OpenCV
    images that do not fit; every image it encodes has 8 bits and the size of the
    frames divided by the scale. *)
Theorem stream_sizes (w h d scale : Z) (es : list event) :
  0 < w <= INT_MAX → 0 < h <= INT_MAX → 1 <= scale <= Z.min w h → frames_of w h d es →
  ∃ imgs, sink_run es (new_sink scale) = Ok imgs ∧ Forall (same_size (w / scale) (h / scale) 8) imgs.
Proof.
  intros Hw Hh Hs Hes. assert (Hinv : is_scale (new_sink scale) = scale ∧ sink_inv w h d (new_sink scale)) by (by split).
  revert Hinv. generalize (new_sink scale). induction es as [|e es IH]; intros s [Es Hi]; [by exists []|].
  assert (Hrest : frames_of w h d es) by (intros img Hin; apply Hes; apply elem_of_cons; by right).
  assert (Hgo : ∀ s' out, is_scale s' = scale → sink_inv w h d s' → Forall (same_size (w / scale) (h / scale) 8) out →
    ∃ imgs, (rest ← sink_run es s'; Ok (out ++ rest)) = Ok imgs ∧ Forall (same_size (w / scale) (h / scale) 8) imgs).
  { intros s' out Es' Hi' Ho. destruct (IH Hrest s' (conj Es' Hi')) as (imgs & -> & Hf). cbn. eexists. split; [done|]. by apply Forall_app. }
  cbn [sink_run]. destruct e as [img| |]; cbn [sink_event].
  - destruct (sink_frame w h d img s) as (s' & -> & Es' & Hi'); [done|done|lia| |done|].
    { intros src ->. apply Hes, elem_of_cons. by left. }
    cbn [mbind res_bind fst snd]. apply Hgo; [congruence|done|done].
  - destruct (sink_trickle w h d s) as (img & -> & Himg); [lia|lia|lia|done|]. cbn [mbind res_bind fst snd]. apply Hgo; [done|done|].
    destruct img as [i|]; [|done]. apply Forall_singleton. rewrite <-Es. by apply Himg.
  - cbn [mbind res_bind fst snd]. apply Hgo; [done| |done]. destruct Hi as [Hd _]. split; cbn; [done|by intros].
Qed.
Lemma stream_sizes_witness :
  ∃ imgs, sink_run [Frame (Some (demo_image 640 480 3)); Poll; Frame (Some (demo_image 640 480 1)); Poll; Stop; Poll] (new_sink 2) = Ok imgs
    ∧ Forall (same_size 320 240 8) imgs.
Proof.
  apply (stream_sizes 640 480 8 2); [vm_compute; split; [reflexivity|discriminate]..|vm_compute; split; discriminate|]. intros img Hin.
  repeat (apply elem_of_cons in Hin as [E|Hin]; [first [discriminate E|injection E as ->; split_and!; reflexivity]|]). by apply elem_of_nil in Hin.
Defined.

(** A client may ask for scale 0 (or text, which reads as 0): the first frame
    then divides by zero. *)
Theorem scale_zero_divides (img : IplImage) (es : list event) :
  sink_run (Frame (Some img) :: es) (new_sink 0) = Fault FDivZero.
Proof. reflexivity. Qed.
