(* ===== verification/Web.v ===== *)
(** The web server of src/src/movid.cpp: the handler of every address, the file
    server, the command line and the main loop.

    A handler reads the query of the request (already split by libevent into
    names and values), works on the server's state (the pipeline, the quit flag
    and the files of the slots) and on the world of modules, and gives a reply.
    JSON replies are trees: the cJSON_Add... calls append to an object or array;
    Json prints them and Http sends them (HttpWeb).
    What the machine decides (dates, modification times, which files can be
    written, the other files) is the record [env]. *)
From S2P Require Import Prelude StdMap Numeric Utils Property Container Module World Wiring.
From S2P Require Import Lifecycle Catalogue Factory Pipeline Json HttpText.

(** ** Requests and replies *)

Record request := { rq_uri : option string; rq_query : list (string * string) }.

Inductive reply :=
  | RJson (root : json)
  | RText (reason content_type body : string)
  | RDownload (body : string)
  | RRedirect (location : string)
  | RError (code : Z) (reason : string)
  | RFile (content_type filename content : string)
  | RStream (content_type reason : string)
  | RNothing.

Definition web_message (message : string) (success : bool) : reply :=
  RJson (JObject [("success", jbool success); ("message", JString message)]).
Definition web_error (message : string) : reply := web_message message false.
Definition web_ok (message : string) : reply := web_message message true.

(** ** The server *)

Definition MO_VERSION : string := "0.2".
Definition MO_SLOTMAX : Z := 10.
Definition MO_SLOTDIR : string := "presets/slots/slot-".
Definition MO_SLOTEXT : string := ".txt".

(** The state of an image stream: the module that collects the images, whether
    the client has closed the connection, and the delay between images. *)
Record chunk_req_state := { cs_stream : nat; cs_closed : bool; cs_delay : Z }.

(** A file of a slot: modification time and content.  [sv_streams]: the streams
    whose timer is pending. *)
Record server := {
  sv_pl : moPipeline;
  sv_quit : bool;
  sv_files : gmap string (Z * string);
  sv_streams : list chunk_req_state;
}.

Definition on_pl (f : moPipeline → moPipeline) (sv : server) : server :=
  {| sv_pl := f (sv_pl sv); sv_quit := sv_quit sv; sv_files := sv_files sv; sv_streams := sv_streams sv |}.
Definition set_pl (pl : moPipeline) (sv : server) : server := on_pl (λ _, pl) sv.
Definition set_quit (b : bool) (sv : server) : server :=
  {| sv_pl := sv_pl sv; sv_quit := b; sv_files := sv_files sv; sv_streams := sv_streams sv |}.
Definition set_files (f : gmap string (Z * string)) (sv : server) : server :=
  {| sv_pl := sv_pl sv; sv_quit := sv_quit sv; sv_files := f; sv_streams := sv_streams sv |}.
Definition set_streams (l : list chunk_req_state) (sv : server) : server :=
  {| sv_pl := sv_pl sv; sv_quit := sv_quit sv; sv_files := sv_files sv; sv_streams := l |}.

(** Opening and reading a file: it may be missing, its size may be more than
    [malloc] gives, a read may fail. *)
Inductive file_read :=
  | Missing
  | NoMemory
  | ReadFails
  | Content (content : string).

Record env := {
  e_date : string;
  e_now : Z;
  e_writable : string → bool;
  e_guidir : string;
  e_read : string → file_read;
}.

Definition handled : Type := M (reply * server).

(** [uri = evhttp_request_uri(req); if (uri == NULL) return web_error(...)]. *)
Definition with_uri (rq : request) (sv : server) (k : handled) : handled :=
  match rq_uri rq with
  | None => mret (web_error "unable to retreive uri", sv)
  | Some _ => k
  end.

(** [if (evhttp_find_header(&headers, key) == NULL) return web_error(missing)]. *)
Definition with_header (key missing : string) (rq : request) (sv : server) (k : string → handled)
    : handled :=
  match find_header (rq_query rq) key with
  | None => mret (web_error missing, sv)
  | Some v => k v
  end.

(** [idx = atoi(header)] when it is there, 0 otherwise. *)
Definition index_header (key : string) (rq : request) : Z :=
  match find_header (rq_query rq) key with Some v => atoi v | None => 0%Z end.

Definition module_id (a : nat) : M string := p ← property_of a "id"; lift (asString p).

(** ** Describing modules *)

(** [cJSON_AddStringToObject(properties, it->first, it->second->asString())]. *)
Fixpoint json_properties (l : smap string moProperty) : res (list (string * json)) :=
  match l with
  | [] => Ok []
  | (k, p) :: l => s ← asString p; rest ← json_properties l; Ok ((k, JString s) :: rest)
  end.

Definition json_property_info (p : moProperty) : json :=
  JObject ([("type", JString (getPropertyTypeName (getType p))); ("readonly", jbool (isReadOnly p))]
           ++ (if haveMax p then [("max", jint (getMax p))] else [])
           ++ (if haveMin p then [("min", jint (getMin p))] else [])
           ++ (if haveChoices p then [("choices", JString (getChoices p))] else [])).

(** Index, name and type of a port. *)
Definition json_port (k : Z) (info : option moDataStreamInfo) : res (list (string * json)) :=
  i ← deref info;
  Ok [("index", jint k); ("name", JString (i_name i)); ("type", JString (i_type i))].

Fixpoint json_ports (f : Z → M json) (fuel : nat) (k : Z) : M (list json) :=
  match fuel with
  | O => mret []
  | S fuel => j ← f k; rest ← json_ports f fuel (k + 1)%Z; mret (j :: rest)
  end.

(** [if (count) AddItemToObject(mod, key, array)]. *)
Definition json_port_list (key : string) (count : Z) (f : Z → M json) : M (list (string * json)) :=
  if (count =? 0)%Z then mret []
  else l ← json_ports f (Z.to_nat count) 0; mret [(key, JArray l)].

Fixpoint json_observers (j : nat) (obs : list nat) : M (list (string * json)) :=
  match obs with
  | [] => mret []
  | a :: obs =>
      id ← module_id a;
      rest ← json_observers (S j) obs;
      mret ((snprintf 64 (print_int (Z.of_nat j)), JString id) :: rest)
  end.

Definition status_input (a : nat) (k : Z) : M json :=
  m ← getm a;
  p ← lift (json_port k (getInputInfos k m));
  mret (JObject (p ++ [("used", jbool (bool_decide (getInput k m ≠ None)))])).

Definition status_output (a : nat) (k : Z) : M json :=
  m ← getm a;
  p ← lift (json_port k (getOutputInfos k m));
  obs ← match getOutput k m with
        | None => mret []
        | Some s => st ← gets_at s; json_observers 0 (s_observers st)
        end;
  mret (JObject (p ++ [("used", jbool (bool_decide (getOutput k m ≠ None))); ("observers", JObject obs)])).

Definition plain_input (a : nat) (k : Z) : M json :=
  m ← getm a; p ← lift (json_port k (getInputInfos k m)); mret (JObject p).
Definition plain_output (a : nat) (k : Z) : M json :=
  m ← getm a; p ← lift (json_port k (getOutputInfos k m)); mret (JObject p).

Definition json_names (m : moModule) : list (string * json) :=
  [("name", JString (m_name m)); ("description", JString (m_description m)); ("author", JString (m_author m))].
Definition json_gui (m : moModule) : string * json := ("gui", jbool (has_cap MO_MODULE_GUI m)).

(** One entry of [web_pipeline_status]. *)
Definition status_module (a : nat) : M (string * json) :=
  id ← module_id a;
  m ← getm a;
  props ← lift (json_properties (m_properties m));
  ins ← json_port_list "inputs" (getInputCount m) (status_input a);
  outs ← json_port_list "outputs" (getOutputCount m) (status_output a);
  mret (id, JObject (json_names m ++ [("running", jbool (m_is_started m)); json_gui m;
         ("properties", JObject props);
         ("propertiesInfos", JObject ((λ kp, (kp.1, json_property_info kp.2)) <$> m_properties m))]
         ++ ins ++ outs)).

Fixpoint map_M {A B} (f : A → M B) (l : list A) : M (list B) :=
  match l with
  | [] => mret []
  | a :: l => b ← f a; rest ← map_M f l; mret (b :: rest)
  end.

Definition web_pipeline_status (sv : server) : handled :=
  self ← getm (pl_self (sv_pl sv));
  mods ← map_M status_module (pl_modules (sv_pl sv));
  mret (RJson (JObject [("success", jint 1); ("message", JString "ok");
          ("status", JObject [("version", JString MO_VERSION);
             ("size", jint (Z.of_nat (size (sv_pl sv))));
             ("running", jbool (m_is_started self)); ("modules", JObject mods)])]), sv).

Definition stats_module (a : nat) : M (string * json) :=
  id ← module_id a;
  m ← getm a;
  let s := m_stats m in
  mret (id, JObject [("average_fps", JNumber (average_fps s));
          ("average_process_time", JNumber (average_process_time s));
          ("average_wait_time", JNumber (average_wait_time s));
          ("total_process_frame", jint (total_process_frame s));
          ("total_process_time", JNumber (total_process_time s));
          ("total_wait_time", JNumber (total_wait_time s))]).

Definition web_pipeline_stats (sv : server) : handled :=
  mods ← map_M stats_module (pl_modules (sv_pl sv));
  mret (RJson (JObject [("success", jint 1); ("message", JString "ok"); ("stats", JObject mods)]), sv).

Section Handlers.
Context {V : Virtuals}.

(** ** The factory *)

Definition list_module (db : database) (name : string) : M (string * json) :=
  r ← factory_create db name;
  a ← lift (deref r);
  m ← getm a;
  ins ← json_port_list "inputs" (getInputCount m) (plain_input a);
  outs ← json_port_list "outputs" (getOutputCount m) (plain_output a);
  delete_module a;;
  mret (m_name m, JObject (json_names m ++ [json_gui m] ++ ins ++ outs)).

Definition web_factory_list (db : database) (sv : server) : handled :=
  details ← map_M (list_module db) (factory_list db);
  mret (RJson (JObject [("success", jint 1); ("message", JString "ok");
          ("list", JArray (JString <$> factory_list db)); ("details", JObject details)]), sv).

Definition web_factory_describe (db : database) (rq : request) (sv : server) : handled :=
  with_uri rq sv (with_header "name" "missing name" rq sv (λ name,
    r ← factory_create db name;
    match r with
    | None => mret (web_error "invalid name", sv)
    | Some a =>
        m ← getm a;
        props ← lift (json_properties (m_properties m));
        ins ← json_port_list "inputs" (getInputCount m) (plain_input a);
        outs ← json_port_list "outputs" (getOutputCount m) (plain_output a);
        delete_module a;;
        mret (RJson (JObject [("success", jint 1); ("message", JString "ok");
                ("describe", JObject (json_names m
                   ++ [("running", jbool (m_is_started m)); json_gui m; ("properties", JObject props)]
                   ++ ins ++ outs))]), sv)
    end)).

(** ** Editing the pipeline *)

Definition web_pipeline_create (db : database) (rq : request) (sv : server) : handled :=
  with_uri rq sv (with_header "objectname" "missing objectname" rq sv (λ name,
    r ← factory_create db name;
    match r with
    | None => mret (web_error "invalid objectname", sv)
    | Some a =>
        pl ← addElement a (sv_pl sv);
        id ← module_id a;
        mret (web_ok id, set_pl pl sv)
    end)).

Definition web_pipeline_connect (rq : request) (sv : server) : handled :=
  with_uri rq sv (with_header "out" "missing out" rq sv (λ out_id,
    with_header "in" "missing in" rq sv (λ in_id,
      let outidx := index_header "outidx" rq in
      let inidx := index_header "inidx" rq in
      in_ ← getModuleById in_id (sv_pl sv);
      out ← getModuleById out_id (sv_pl sv);
      match in_ with
      | None => mret (web_error "in object not found", sv)
      | Some in_ =>
          if bool_decide (out_id = "NULL") then setInput in_ None inidx;; mret (web_ok "ok", sv)
          else
            match out with
            | None => mret (web_error "out object not found", sv)
            | Some out =>
                m ← getm out;
                setInput in_ (getOutput outidx m) inidx;;
                mret (web_ok "ok", sv)
            end
      end))).

(** *** The image stream *)

(** The constructor of [otStreamModule]: its input starts on a stream of its
    own. *)
Definition new_otStreamModule : M nat :=
  self ← gets w_next;
  modify (λ w, upd_w_next S (put_module self (upd_m_is_internal (λ _, true)
    (new_module "Stream" EmptyString EmptyString MO_MODULE_INPUT self)) w));;
  input ← alloc_stream "stream";
  mod_module self (set_field "input" (Some input));;
  id ← createId "WebStream";
  p ← lift (new_string id EmptyString);
  mod_module self (store_property "id" p);;
  p ← lift (new_int 1 EmptyString);
  mod_module self (store_property "scale" p);;
  mod_module self (declareInput 0 "input"
    {| i_name := "stream"; i_type := "IplImage,IplImage8"; i_description := "Image to stream on webbrowser" |});;
  mret self.

Definition web_pipeline_stream (rq : request) (sv : server) : handled :=
  with_uri rq sv (with_header "objectname" "missing objectname" rq sv (λ id,
    o ← getModuleById id (sv_pl sv);
    match o with
    | None => mret (web_error "object not found", sv)
    | Some b =>
        let idx := index_header "index" rq in
        m ← getm b;
        if ((idx <? 0) || (getOutputCount m <=? idx))%Z then mret (web_error "invalid index", sv)
        else
          a ← new_otStreamModule;
          (match find_header (rq_query rq) "scale" with
           | Some v => set_property_string a "scale" v
           | None => skip
           end);;
          let delay := match find_header (rq_query rq) "delay" with Some v => atoi v | None => 100%Z end in
          m ← getm b;
          setInput a (getOutput idx m) 0;;
          mret (RStream "multipart/x-mixed-replace; boundary=mjpegstream" "Everything is fine",
                set_streams (sv_streams sv ++ [{| cs_stream := a; cs_closed := false; cs_delay := delay |}]) sv)
    end)).

(** The close callback of the connection of the [n]-th stream. *)
Definition web_pipeline_stream_close (n : nat) (sv : server) : server :=
  set_streams (alter (λ st, {| cs_stream := cs_stream st; cs_closed := true; cs_delay := cs_delay st |}) n (sv_streams sv)) sv.
(** The timer of the [n]-th stream, when the stream is closed: the module is
    disconnected and deleted, and the timer not set again.  (The images of an
    open stream are in WebStream.) *)
Definition web_pipeline_stream_end (n : nat) (sv : server) : M server :=
  match sv_streams sv !! n with
  | Some st =>
      if cs_closed st then
        setInput (cs_stream st) None 0;;
        delete_module (cs_stream st);;
        mret (set_streams (delete n (sv_streams sv)) sv)
      else mret sv
  | None => mret sv
  end.

Definition web_pipeline_get (rq : request) (sv : server) : handled :=
  with_uri rq sv (with_header "objectname" "missing objectname" rq sv (λ id,
    with_header "name" "missing name" rq sv (λ name,
      a ← getModuleById id (sv_pl sv);
      match a with
      | None => mret (web_error "object not found", sv)
      | Some a => p ← property_of a name; v ← lift (asString p); mret (web_ok v, sv)
      end))).

(** The loop of [web_pipeline_set]: each turn takes one name and one value. *)
Fixpoint set_loop (fuel : nat) (a : nat) (headers : list (string * string)) : M unit :=
  match fuel with
  | O => skip
  | S fuel =>
      match find_header headers "name", find_header headers "value" with
      | Some name, Some value =>
          set_property_string a name value;;
          set_loop fuel a (remove_header (remove_header headers "name") "value")
      | _, _ => skip
      end
  end.

Definition web_pipeline_set (rq : request) (sv : server) : handled :=
  with_uri rq sv (with_header "objectname" "missing objectname" rq sv (λ id,
    a ← getModuleById id (sv_pl sv);
    match a with
    | None => mret (web_error "object not found", sv)
    | Some a => set_loop (length (rq_query rq)) a (rq_query rq);; mret (web_ok "ok", sv)
    end)).

(** [for (i = 0; i < count; i++)] over the ports of a module. *)
Fixpoint for_ports (f : Z → M unit) (fuel : nat) (i : Z) : M unit :=
  match fuel with
  | O => skip
  | S fuel => f i;; for_ports f fuel (i + 1)%Z
  end.

Definition disconnect_input (a : nat) (i : Z) : M unit :=
  m ← getm a;
  match getInput i m with
  | None => skip
  | Some s => mod_stream s (s_removeObserver a)
  end.
Definition disconnect_output (a : nat) (i : Z) : M unit :=
  m ← getm a;
  match getOutput i m with
  | None => skip
  | Some s => _ ← removeObservers s; skip
  end.

Definition web_pipeline_remove (rq : request) (sv : server) : handled :=
  with_uri rq sv (with_header "objectname" "missing objectname" rq sv (λ id,
    a ← getModuleById id (sv_pl sv);
    match a with
    | None => mret (web_error "object not found", sv)
    | Some a =>
        pipeline_stop (sv_pl sv);;
        v_stop a;;
        m ← getm a;
        for_ports (disconnect_input a) (Z.to_nat (getInputCount m)) 0;;
        for_ports (disconnect_output a) (Z.to_nat (getOutputCount m)) 0;;
        pl ← removeElement a (sv_pl sv);
        delete_module a;;
        mret (web_ok "ok", set_pl pl sv)
    end)).

Fixpoint lines_text (l : list string) : string :=
  match l with [] => EmptyString | s :: l => s +:+ endl +:+ lines_text l end.

Definition web_pipeline_gui (rq : request) (sv : server) : handled :=
  _ ← lift (deref (rq_uri rq));
  with_header "objectname" "missing objectname" rq sv (λ id,
    a ← getModuleById id (sv_pl sv);
    match a with
    | None => mret (web_error "object not found", sv)
    | Some a => gui ← getGui a; mret (RText "Everything is fine" "text/plain" (lines_text gui), sv)
    end).

Definition web_pipeline_start (sv : server) : handled :=
  pipeline_start (sv_pl sv);; mret (web_ok "ok", sv).
Definition web_pipeline_stop (sv : server) : handled :=
  pipeline_stop (sv_pl sv);; mret (web_ok "ok", sv).

(** ** Slots *)

Definition slot_name (idx : Z) : string := MO_SLOTDIR +:+ print_int idx +:+ MO_SLOTEXT.

Definition web_pipeline_slot_refresh (sv : server) : handled :=
  mret (RJson (JObject [("success", jint 1); ("message", JString "ok");
          ("slots", JArray ((λ i, JObject [("lastmod",
             jint (match sv_files sv !! slot_name (Z.of_nat i) with Some f => f.1 | None => 0 end))])
             <$> seq 1 (Z.to_nat MO_SLOTMAX)))]), sv).

Definition valid_slot (idx : Z) : bool := negb ((idx <? 1) || (MO_SLOTMAX <? idx))%Z.

Definition web_pipeline_slot_load (db : database) (rq : request) (sv : server) : handled :=
  with_uri rq sv (with_header "idx" "missing idx" rq sv (λ s_idx,
    let slotidx := atoi s_idx in
    if valid_slot slotidx then
      pl ← clear (sv_pl sv);
      r ← parse db (snd <$> sv_files sv !! slot_name slotidx) pl;
      mret (if r.1 : bool then web_ok "ok" else web_error "unable to parse slot", set_pl r.2 sv)
    else mret (web_error "invalid idx", sv))).

Definition web_pipeline_slot_save (e : env) (rq : request) (sv : server) : handled :=
  sout ← pipeline_serializeCreation (e_date e) (sv_pl sv);
  with_uri rq sv (with_header "idx" "missing idx" rq sv (λ s_idx,
    let slotidx := atoi s_idx in
    if valid_slot slotidx then
      if e_writable e (slot_name slotidx) then
        mret (web_ok "ok", set_files (<[slot_name slotidx := (e_now e, sout)]> (sv_files sv)) sv)
      else mret (web_error "unable to open slot for writing", sv)
    else mret (web_error "invalid idx", sv))).

Definition web_pipeline_dump (e : env) (rq : request) (sv : server) : handled :=
  sout ← pipeline_serializeCreation (e_date e) (sv_pl sv);
  with_uri rq sv
    (mret (match find_header (rq_query rq) "download" with
           | Some _ => RDownload sout
           | None => RText "OK" "text/plain" sout
           end, sv)).

(** The flag is set to [false]. *)
Definition web_pipeline_quit (sv : server) : handled := mret (web_ok "bye", set_quit false sv).
End Handlers.

(** ** The file server *)

Fixpoint starts_with (w s : string) : bool :=
  match w, s with
  | EmptyString, _ => true
  | String a w, String c s => bool_decide (a = c) && starts_with w s
  | _, _ => false
  end.

(** [strstr(s, w) != NULL]. *)
Fixpoint contains (w s : string) : bool :=
  starts_with w s || match s with EmptyString => false | String _ s => contains w s end.

(** [strncmp(s + strlen(s) - strlen(w), w, strlen(w)) == 0]. *)
Definition ends_with (w s : string) : bool :=
  (slen w <=? slen s) && bool_decide (sdrop (slen s - slen w) s = w).

(** [strsep(&uri, "?")]. *)
Definition before_query (uri : string) : string :=
  match find_first_of "?" uri with Some i => stake i uri | None => uri end.

Definition content_type (filename : string) : string :=
  if ends_with "js" filename then "application/javascript"
  else if ends_with "css" filename then "text/css"
  else if ends_with "png" filename then "image/png"
  else if ends_with "swf" filename then "application/x-shockwave-flash"
  else "text/html".

(** The name [web_file] builds in its 256-byte buffer. *)
Definition gui_filename (guidir uri : string) : string :=
  snprintf 256 (guidir +:+ "/" +:+ sdrop 5 (before_query uri)).

Definition web_file (e : env) (uri : string) : reply :=
  if negb (starts_with "/gui/" uri) then RError 404 "Not found"
  else if contains ".." uri then RError 403 "Security error"
  else
    let filename := gui_filename (e_guidir e) uri in
    match e_read e filename with
    | Missing => RError 404 "Not found"
    | NoMemory => web_error "memory error"
    | ReadFails => RNothing
    | Content content => RFile (content_type filename) filename content
    end.

Definition web_index : reply := RRedirect "/gui/index.html".

(** ** Addresses *)

Section Serve.
Context {V : Virtuals}.

(** The callbacks [main] registers with [evhttp_set_cb]. *)
Definition routes (e : env) (db : database) : list (string * (request → server → handled)) :=
  [("/", λ _ sv, mret (web_index, sv));
   ("/factory/list", λ _ sv, web_factory_list db sv);
   ("/factory/describe", web_factory_describe db);
   ("/pipeline/create", web_pipeline_create db);
   ("/pipeline/remove", web_pipeline_remove);
   ("/pipeline/status", λ _ sv, web_pipeline_status sv);
   ("/pipeline/connect", web_pipeline_connect);
   ("/pipeline/set", web_pipeline_set);
   ("/pipeline/get", web_pipeline_get);
   ("/pipeline/gui", web_pipeline_gui);
   ("/pipeline/stream", web_pipeline_stream);
   ("/pipeline/start", λ _ sv, web_pipeline_start sv);
   ("/pipeline/stop", λ _ sv, web_pipeline_stop sv);
   ("/pipeline/quit", λ _ sv, web_pipeline_quit sv);
   ("/pipeline/dump", web_pipeline_dump e);
   ("/pipeline/stats", λ _ sv, web_pipeline_stats sv);
   ("/pipeline/slot/refresh", λ _ sv, web_pipeline_slot_refresh sv);
   ("/pipeline/slot/load", web_pipeline_slot_load db);
   ("/pipeline/slot/save", web_pipeline_slot_save e)].

Fixpoint route (l : list (string * (request → server → handled))) (path : string)
    : option (request → server → handled) :=
  match l with
  | [] => None
  | (p, h) :: l => if bool_decide (p = path) then Some h else route l path
  end.

Definition serve (e : env) (db : database) (rq : request) (sv : server) : handled :=
  let uri := default EmptyString (rq_uri rq) in
  match route (routes e db) (before_query uri) with
  | Some h => h rq sv
  | None => mret (web_file e uri, sv)
  end.

(** ** The main loop *)

(** One turn up to the event loop; [None] when the error loop does not end
    within the fuel. *)
Definition main_poll (fuel : nat) (test_mode : bool) (sv : server) : M (option server) :=
  self ← getm (pl_self (sv_pl sv));
  if m_is_started self then
    pipeline_poll (sv_pl sv);;
    errs ← drain_errors fuel (sv_pl sv);
    mret (match errs with
          | None => None
          | Some [] => Some sv
          | Some _ => Some (if test_mode then set_quit true sv else sv)
          end)
  else mret (Some sv).

(** ** The command line *)

Record config := {
  config_detach : bool;
  config_syslog : bool;
  config_httpserver : bool;
  test_mode : bool;
  config_pipelinefn : string;
  config_guidir : string;
  config_pidfile : string;
}.

Definition default_config : config :=
  {| config_detach := false; config_syslog := false; config_httpserver := true; test_mode := false;
     config_pipelinefn := EmptyString; config_guidir := "gui/html";
     config_pidfile := "/var/run/movid.pid" |}.

(** What the command line asks for besides running. *)
Inductive command :=
  | Run
  | Describe (name : string)
  | Usage.

(** [parse_options]: the options as getopt returns them, with their argument. *)
Fixpoint parse_options (opts : list (ascii * string)) (c : config) : command * config :=
  match opts with
  | [] => (Run, c)
  | (ch, optarg) :: opts =>
      match ch with
      | "s"%char => parse_options opts
          {| config_detach := config_detach c; config_syslog := true;
             config_httpserver := config_httpserver c; test_mode := test_mode c;
             config_pipelinefn := config_pipelinefn c; config_guidir := config_guidir c;
             config_pidfile := config_pidfile c |}
      | "d"%char => parse_options opts
          {| config_detach := true; config_syslog := config_syslog c;
             config_httpserver := config_httpserver c; test_mode := test_mode c;
             config_pipelinefn := config_pipelinefn c; config_guidir := config_guidir c;
             config_pidfile := config_pidfile c |}
      | "p"%char => parse_options opts
          {| config_detach := config_detach c; config_syslog := config_syslog c;
             config_httpserver := config_httpserver c; test_mode := test_mode c;
             config_pipelinefn := config_pipelinefn c; config_guidir := config_guidir c;
             config_pidfile := optarg |}
      | "g"%char => parse_options opts
          {| config_detach := config_detach c; config_syslog := config_syslog c;
             config_httpserver := config_httpserver c; test_mode := test_mode c;
             config_pipelinefn := config_pipelinefn c; config_guidir := optarg;
             config_pidfile := config_pidfile c |}
      | "n"%char => parse_options opts
          {| config_detach := config_detach c; config_syslog := config_syslog c;
             config_httpserver := false; test_mode := test_mode c;
             config_pipelinefn := config_pipelinefn c; config_guidir := config_guidir c;
             config_pidfile := config_pidfile c |}
      | "l"%char => parse_options opts
          {| config_detach := config_detach c; config_syslog := config_syslog c;
             config_httpserver := config_httpserver c; test_mode := test_mode c;
             config_pipelinefn := optarg; config_guidir := config_guidir c;
             config_pidfile := config_pidfile c |}
      | "t"%char => parse_options opts
          {| config_detach := config_detach c; config_syslog := config_syslog c;
             config_httpserver := config_httpserver c; test_mode := true;
             config_pipelinefn := config_pipelinefn c; config_guidir := config_guidir c;
             config_pidfile := config_pidfile c |}
      | "i"%char => (Describe optarg, c)
      | _ => (Usage, c)
      end
  end.

(** The start of [main] after the options: [None] is the critical exit.
    [read] gives the content of a pipeline file. *)
Definition main_start (db : database) (read : string → option string) (c : config)
    : M (option moPipeline) :=
  if bool_decide (config_pipelinefn c ≠ EmptyString) then
    pl ← new_pipeline;
    r ← parse db (read (config_pipelinefn c)) pl;
    if r.1 : bool then pipeline_start r.2;; mret (Some r.2) else mret None
  else if config_httpserver c then pl ← new_pipeline; mret (Some pl)
  else mret None.
End Serve.
