(* ===== verification/Removal.v ===== *)
(** Taking a module out of a running graph.

    Deleting a module that nothing is connected to keeps the graph well formed
    ([delete_isolated]).  The handler of /pipeline/remove gets there in two
    loops that leave the module's own input members as they are: the world in
    between is a well-formed world with the old module put back
    ([disconnect_inputs_run], [disconnect_outputs_run]). *)
From S2P Require Import Prelude StdMap Numeric Utils Property Container Module World Wiring.
From S2P Require Import Lifecycle Catalogue Factory Pipeline PipelineSafe PipelineRuns Web.

(** ** Isolated modules *)

(** No input connected, no observer on any output. *)
Record isolated (w : world) (m : moModule) : Prop := {
  iso_in n : getInput n m = None;
  iso_out n s st : getOutput n m = Some s → w_streams w !! s = Some st → s_observers st = [];
}.

Lemma no_input_inputs_on m s : (∀ n, getInput n m = None) → inputs_on s m = 0.
Proof.
  intros H. unfold inputs_on. rewrite (filter_ext_elem _ (λ _, False)).
  - by induction (keys _).
  - intros n _. by rewrite H.
Qed.

(** The outputs and the destructor of two versions of a module agree. *)
Definition same_outputs (m m' : moModule) : Prop := ∀ n, getOutput n m' = getOutput n m.

Lemma put_heap_wf a m m' w :
  world_wf w → w_modules w !! a = Some m → module_wf m' → cbs_self a m' → same_outputs m m' →
  heap_wf (put_module a m' w).
Proof.
  intros Hw Hm Hm' Hcb Hout. split.
  - intros b x. rewrite lookup_put_module. case_decide; [by intros [= <-]; subst|].
    intros Hb. split; [by eapply (wwf_modules w Hw)|by apply (wwf_cbs w Hw)].
  - apply (own_wf_step a m m' w); [apply Hw|done|done|apply lookup_put_module|done|done].
Qed.

(** [m] is what the heap holds at [a] in place of the isolated [m0]. *)
Lemma delete_isolated a m0 m w :
  world_wf w → w_modules w !! a = Some m0 → isolated w m0 →
  module_wf m → cbs_self a m → same_outputs m0 m →
  ∃ w', delete_module a (put_module a m w) = Ok (tt, w') ∧ world_wf w'
        ∧ w_modules w' = delete a (w_modules w)
        ∧ ∀ s, (∀ n, getOutput n m ≠ Some s) → w_streams w' !! s = w_streams w !! s.
Proof.
  intros Hw Hm0 [Hin Hobs] Hm Hcb Hout.
  destruct (delete_module_spec a m (put_module a m w)) as (w' & Hrun & Hh & Hmods & Hback & Hkeep);
    [by eapply put_heap_wf|apply put_module_lookup|].
  assert (Hmods' : w_modules w' = delete a (w_modules w)) by (rewrite Hmods; simpl; by rewrite delete_insert_eq).
  assert (Hlk : ∀ b x, w_modules w' !! b = Some x → b ≠ a ∧ w_modules w !! b = Some x).
  { intros b x. rewrite Hmods'. intros [? ?]%lookup_delete_Some. auto. }
  exists w'. split_and!; [done| |done|done]. split.
  - intros b x Hb. apply (hw_mod w' Hh b x Hb).
  - intros s st b x Hs Hb. apply Hlk in Hb as [_ Hb]. apply (wwf_wired w Hw s st b x); [|done].
    exact (Hback s st Hs).
  - intros s st b Hs Hb. rewrite Hmods'. rewrite lookup_delete_ne.
    + eapply (wwf_obs_live w Hw); [exact (Hback s st Hs)|done].
    + intros <-. apply occ_elem in Hb.
      rewrite (wwf_wired w Hw s st a m0 (Hback s st Hs) Hm0), no_input_inputs_on in Hb by done. lia.
  - intros b x n s Hb Hs. apply Hlk in Hb as [_ Hb].
    destruct (wwf_in_live w Hw b x n s Hb Hs) as [st Hst]. rewrite Hkeep; [by eexists|].
    intros k Hk. rewrite Hout in Hk. pose proof (Hobs k s st Hk Hst) as Hnil.
    pose proof (wwf_wired w Hw s st b x Hst Hb) as Hocc. rewrite Hnil in Hocc.
    apply inputs_on_pos in Hs. rewrite <-Hocc in Hs. unfold occ in Hs. simpl in Hs. lia.
  - apply Hh.
  - intros b x Hb. apply (hw_mod w' Hh b x Hb).
Qed.

(** ** Unplugging *)

(** From [w] to [w'], inputs stay or lose a stream of [D]. *)
Definition cut (D : nat → Prop) (w w' : world) : Prop :=
  ∀ b x, w_modules w !! b = Some x → ∃ x', w_modules w' !! b = Some x'
    ∧ ∀ n, getInput n x' = getInput n x ∨ getInput n x' = None ∧ ∃ s, getInput n x = Some s ∧ D s.

#[export] Instance cut_preorder D : PreOrder (cut D).
Proof.
  split; [intros w b x Hx; eauto|]. intros w1 w2 w3 H12 H23 b x Hx.
  destruct (H12 b x Hx) as (x2 & Hx2 & H2). destruct (H23 b x2 Hx2) as (x3 & Hx3 & H3).
  exists x3. split; [done|]. intros n. destruct (H2 n) as [E2|[E2 ?]], (H3 n) as [E3|[E3 (s & Hs & ?)]]; rewrite ?E2 in *.
  - by left.
  - right. eauto.
  - right. rewrite E3. done.
  - done.
Qed.
Lemma cut_sub (D D' : nat → Prop) w w' : (∀ s, D s → D' s) → cut D w w' → cut D' w w'.
Proof.
  intros HD Hc b x Hx. destruct (Hc b x Hx) as (x' & Hx' & H). exists x'. split; [done|]. intros n.
  destruct (H n) as [?|(? & s & ? & ?)]; [by left|right]. eauto.
Qed.
Lemma quiet_cut D w w' : quiet w w' → cut D w w'.
Proof.
  intros Hq b x Hx. destruct (q_mod w w' Hq b x Hx) as (x' & Hx' & Hk & _). exists x'. split; [done|].
  intros n. left. by apply ports_getInput, Hk.
Qed.
Lemma detach_cut b x f s w : w_modules w !! b = Some x → field f x = Some s → cut (eq s) w (detach b x f w).
Proof.
  intros Hx Hf c y Hy. rewrite detach_modules. case_decide; [|eauto]. subst. simplify_eq.
  exists (set_field f None x). split; [done|]. intros n. rewrite getInput_set_field.
  case_decide as Hn; [|by left]. right. split; [done|]. exists s. by rewrite (getInput_field x n f Hn).
Qed.

(** Once [m] is disconnected, an input of another module is as it was, or was
    fed by [m] and is free. *)
Definition unplugged (m x x' : moModule) : Prop := ∀ n,
  match getInput n x with
  | None => getInput n x' = None
  | Some s => getInput n x' = None ∧ (∃ k, getOutput k m = Some s)
              ∨ getInput n x' = Some s ∧ ∀ k, getOutput k m ≠ Some s
  end.

(** ** Beside a module

    Operations on the streams and modules other than [a] do not see what is
    put at [a]. *)

Lemma put_module_comm a b m x w :
  a ≠ b → put_module a m (put_module b x w) = put_module b x (put_module a m w).
Proof. intros H. unfold put_module, upd_w_modules. simpl. by rewrite insert_insert_ne. Qed.

Lemma detach_beside a b m x f w :
  a ≠ b → put_module a m (detach b x f w) = put_module b (set_field f None x) (unhooked b x f (put_module a m w)).
Proof.
  intros H. rewrite detach_unhooked, put_module_comm by done. f_equal. unfold unhooked.
  destruct (field f x) as [s|]; [|done]. change (w_streams (put_module a m w)) with (w_streams w).
  by destruct (w_streams w !! s).
Qed.

Lemma setInput_none_beside a b m x n f w :
  a ≠ b → world_wf w → w_modules w !! b = Some x → find n (m_input_map x) = Some f →
  setInput b None n (put_module a m w) = Ok (tt, put_module a m (detach b x f w)).
Proof.
  intros Hne Hw Hx Hn. unfold setInput.
  rewrite bind_run, (getm_run b x) by (by rewrite lookup_put_module, decide_False). rewrite Hn.
  cbv beta iota zeta. rewrite bind_run.
  assert ((match field f x with Some s => mod_stream s (s_removeObserver b) | None => skip end)
    (put_module a m w) = Ok (tt, unhooked b x f (put_module a m w))) as ->.
  { unfold unhooked. destruct (field f x) as [s|] eqn:E; [|done].
    rewrite <-(getInput_field x n f Hn) in E. destruct (wwf_in_live w Hw b x n s Hx E) as [st Hst].
    rewrite (mod_stream_run s st) by done. simpl. by rewrite Hst. }
  rewrite bind_run, (mod_module_run b x); [by rewrite detach_beside|].
  rewrite unhooked_modules, lookup_put_module. by rewrite decide_False.
Qed.

Lemma scan_observers_beside a m s obs w r :
  a ∉ obs → scan_observers s obs w = Ok (r, w) →
  scan_observers s obs (put_module a m w) = Ok (r, put_module a m w).
Proof.
  induction obs as [|b obs IH]; intros Ha; simpl; [by intros [= <-]|].
  rewrite not_elem_of_cons in Ha. rewrite !bind_run. unfold getm.
  rewrite lookup_put_module, decide_False by naive_solver.
  destruct (w_modules w !! b) as [x|]; [|done]. destruct (scan_inputs _ _ _ _); [by intros [= <-]|].
  apply IH. naive_solver.
Qed.

Lemma removeObservers_beside a m fuel s st w :
  world_wf w → w_streams w !! s = Some st → length (s_observers st) < fuel → a ∉ s_observers st →
  ∃ w', removeObservers_loop fuel s (put_module a m w) = Ok (true, put_module a m w') ∧ world_wf w'
        ∧ (∃ st', w_streams w' !! s = Some st' ∧ s_observers st' = [])
        ∧ (∀ t, t ≠ s → w_streams w' !! t = w_streams w !! t)
        ∧ (∀ b, is_Some (w_modules w' !! b) ↔ is_Some (w_modules w !! b))
        ∧ w_modules w' !! a = w_modules w !! a ∧ stable w w' ∧ cut (eq s) w w'.
Proof.
  revert st w. induction fuel as [|fuel IH]; intros st w Hw Hst Hlen Ha; [lia|]. simpl.
  rewrite bind_run, (gets_at_run s st) by done. cbv beta iota.
  destruct (scan_observers_spec s (s_observers st) w Hw) as (r & Hscan & Hr);
    [intros; by eapply wwf_obs_live|].
  rewrite bind_run, (scan_observers_beside a m s _ w r) by done. destruct r as [[b i]|].
  - destruct Hr as (Hb & x & Hx & Hi). assert (Hne : a ≠ b) by congruence.
    destruct (find i (m_input_map x)) as [f|] eqn:Hf;
      [|unfold getInput in Hi; by rewrite Hf in Hi].
    rewrite bind_run, (setInput_none_beside a b m x i f) by done.
    rewrite (getInput_field x i f Hf) in Hi.
    destruct (IH (s_removeObserver b st) (detach b x f w)) as (w' & Hrun & Hw' & Hobs & Hoth & Hdom & Ha' & Hst' & Hcut).
    + by eapply detach_wf.
    + rewrite detach_streams, decide_True by done. by rewrite Hst.
    + simpl. rewrite (length_remove1 b) in Hlen by done. lia.
    + intros Hin. by apply elem_of_remove1 in Hin.
    + exists w'. split_and!; try done.
      * intros t Ht. rewrite Hoth by done. rewrite detach_streams, decide_False; [done|congruence].
      * intros c. rewrite Hdom, detach_modules. case_decide; [subst; rewrite Hx|]; naive_solver.
      * rewrite Ha', detach_modules. by rewrite decide_False.
      * trans (detach b x f w); [|done]. by apply (stable_put b x (set_field f None x)); [..|apply detach_modules].
      * trans (detach b x f w); [|done]. by apply detach_cut.
  - assert (Hnil : s_observers st = []).
    { destruct (s_observers st) as [|b obs] eqn:E; [done|exfalso].
      assert (b ∈ s_observers st) as Hb by (rewrite E; by left).
      destruct (wwf_obs_live w Hw s st b Hst Hb) as [x Hx].
      pose proof (wwf_wired w Hw s st b x Hst Hx) as Hocc. rewrite (Hr b x) in Hocc by (rewrite ?E in *; done).
      apply occ_elem in Hb. lia. }
    rewrite bind_run, (mod_stream_run s st) by done.
    rewrite upd_observers_nil, put_stream_id by done. exists w. split_and!; eauto; reflexivity.
Qed.

(** ** The two loops of [web_pipeline_remove] *)

Lemma input_in_range m n : module_wf m → is_Some (getInput n m) → (0 <= n < getInputCount m)%Z.
Proof.
  intros Hm [s Hs]. unfold getInput in Hs. destruct (find n (m_input_map m)) as [f|] eqn:E; [|done].
  apply find_key in E. rewrite (mwf_in_keys m Hm) in E.
  apply contiguous_lt in E; [|apply Hm]. unfold keys in E. by rewrite length_fmap in E.
Qed.
Lemma output_in_range m n : module_wf m → is_Some (getOutput n m) → (0 <= n < getOutputCount m)%Z.
Proof.
  intros Hm [s Hs]. unfold getOutput in Hs. destruct (find n (m_output_map m)) as [f|] eqn:E; [|done].
  apply find_key in E. rewrite (mwf_out_keys m Hm) in E.
  apply contiguous_lt in E; [|apply Hm]. unfold keys in E. by rewrite length_fmap in E.
Qed.

(** [m1] is [m] with the inputs below [i] disconnected. *)
Record below (i : Z) (m m1 : moModule) : Prop := {
  bl_map : m_input_map m1 = m_input_map m;
  bl_in n : getInput n m1 = if decide (n < i)%Z then None else getInput n m;
  bl_out : same_outputs m m1;
}.

Lemma below_next i m m1 : getInput i m = None → below i m m1 → below (i + 1) m m1.
Proof.
  intros Hi [Hm Hin Ho]. split; [done| |done]. intros n. rewrite Hin.
  repeat case_decide; try done; try lia. by replace n with i by lia.
Qed.

Lemma below_detach i f m m1 :
  module_wf m1 → find i (m_input_map m) = Some f → below i m m1 → below (i + 1) m (set_field f None m1).
Proof.
  intros Hwf Hf [Hm Hin Ho]. rewrite <-Hm in Hf. split; [done| |].
  - intros n. rewrite getInput_set_field, Hin. destruct (decide (find n _ = Some f)) as [Hn|Hn].
    + rewrite (mwf_in_inj m1 Hwf n i f Hn Hf). by rewrite decide_True by lia.
    + assert (n ≠ i) by congruence. repeat case_decide; try done; lia.
  - intros n. by rewrite (getOutput_set_field m1 i f).
Qed.

Lemma disconnect_inputs_run a m fuel i w m1 :
  world_wf w → w_modules w !! a = Some m1 → below i m m1 →
  ∃ w' m', for_ports (disconnect_input a) fuel i (put_module a m w) = Ok (tt, put_module a m w')
           ∧ world_wf w' ∧ w_modules w' !! a = Some m' ∧ below (i + Z.of_nat fuel) m m'
           ∧ ∀ b, b ≠ a → w_modules w' !! b = w_modules w !! b.
Proof.
  revert i w m1. induction fuel as [|fuel IH]; intros i w m1 Hw Hm1 Hb; simpl.
  { exists w, m1. replace (i + Z.of_nat 0)%Z with i by lia. by split_and!. }
  rewrite bind_run. unfold disconnect_input at 1.
  rewrite bind_run, (getm_run a m) by apply put_module_lookup. cbv beta iota.
  replace (i + Z.of_nat (S fuel))%Z with (i + 1 + Z.of_nat fuel)%Z by lia.
  destruct (getInput i m) as [s|] eqn:Hi; [|apply (IH (i + 1)%Z w m1); [done|done|by apply below_next]].
  destruct (find i (m_input_map m)) as [f|] eqn:Hf; [|unfold getInput in Hi; by rewrite Hf in Hi].
  assert (Hf1 : find i (m_input_map m1) = Some f) by (by rewrite (bl_map i m m1 Hb)).
  assert (Hi1 : getInput i m1 = Some s) by (rewrite (bl_in i m m1 Hb), decide_False; [done|lia]).
  destruct (wwf_in_live w Hw a m1 i s Hm1 Hi1) as [st Hst].
  rewrite (mod_stream_run s st) by done.
  destruct (IH (i + 1)%Z (detach a m1 f w) (set_field f None m1)) as (w' & m' & Hrun & Hw' & Hm' & Hb' & Hoth).
  - by eapply detach_wf.
  - rewrite detach_modules. by rewrite decide_True.
  - apply below_detach; [by apply (wwf_modules w Hw a)|done|done].
  - exists w', m'. split_and!; [|done..|].
    + rewrite <-Hrun. f_equal. rewrite detach_unhooked, put_module_twice, put_module_stream.
      unfold unhooked. rewrite <-(getInput_field m1 i f Hf1), Hi1. by rewrite Hst.
    + intros b Hne. rewrite Hoth by done. rewrite detach_modules. by rewrite decide_False.
Qed.

(** Outputs below [i] have no observer. *)
Definition quiet_below (i : Z) (m : moModule) (w : world) : Prop :=
  ∀ n s st, (n < i)%Z → getOutput n m = Some s → w_streams w !! s = Some st → s_observers st = [].

Lemma disconnect_outputs_run a m fuel i w m1 :
  world_wf w → w_modules w !! a = Some m1 → (∀ n, getInput n m1 = None) → same_outputs m m1 →
  quiet_below i m w →
  ∃ w', for_ports (disconnect_output a) fuel i (put_module a m w) = Ok (tt, put_module a m w')
        ∧ world_wf w' ∧ w_modules w' !! a = Some m1 ∧ quiet_below (i + Z.of_nat fuel) m w'
        ∧ (∀ b, is_Some (w_modules w' !! b) ↔ is_Some (w_modules w !! b)) ∧ stable w w'
        ∧ cut (λ s, ∃ n, getOutput n m = Some s) w w'.
Proof.
  revert i w. induction fuel as [|fuel IH]; intros i w Hw Hm1 Hin Hout Hq; simpl.
  { exists w. replace (i + Z.of_nat 0)%Z with i by lia. by split_and!. }
  rewrite bind_run. unfold disconnect_output at 1.
  rewrite bind_run, (getm_run a m) by apply put_module_lookup. cbv beta iota.
  replace (i + Z.of_nat (S fuel))%Z with (i + 1 + Z.of_nat fuel)%Z by lia.
  destruct (getOutput i m) as [s|] eqn:Hi.
  2: { apply (IH (i + 1)%Z w); try done. intros n s st Hn Hs. apply (Hq n); [|done].
       assert (n ≠ i) by congruence. lia. }
  assert (getOutput i m1 = Some s) as Hi1 by (by rewrite Hout).
  destruct (own_out_live w (wwf_own w Hw) a m1 i s Hm1 Hi1) as [st Hst].
  assert (a ∉ s_observers st) as Ha.
  { intros Ha%occ_elem. rewrite (wwf_wired w Hw s st a m1 Hst Hm1), no_input_inputs_on in Ha by done. lia. }
  destruct (removeObservers_beside a m (S (length (s_observers st))) s st w)
    as (w1 & Hrun1 & Hw1 & (st1 & Hst1 & Hnil) & Hoth & Hdom & Ha1 & Hs1 & Hc1); [done|done|lia|done|].
  destruct (IH (i + 1)%Z w1) as (w2 & Hrun2 & Hw2 & Hm2 & Hq2 & Hdom2 & Hs2 & Hc2); [done|by rewrite Ha1|done|done|..].
  { intros n t st' Hn Ht. destruct (decide (t = s)) as [->|Hne]; [rewrite Hst1; by intros [= <-]|].
    rewrite Hoth by done. apply (Hq n); [|done]. assert (n ≠ i) by congruence. lia. }
  exists w2. split_and!; [|done..|intros b; by rewrite Hdom2|by trans w1|trans w1; [|done]].
  2: { eapply cut_sub; [|done]. intros ? <-. eauto. }
  rewrite bind_run. unfold removeObservers. rewrite bind_run, (gets_at_run s st) by done.
  cbv beta iota. rewrite Hrun1. cbn [skip mret M_ret]. exact Hrun2.
Qed.

(** Both loops: what is left is the old module in a world where an isolated
    version of it would be well formed. *)
Lemma disconnect_run a m w :
  world_wf w → w_modules w !! a = Some m →
  ∃ w' m', (for_ports (disconnect_input a) (Z.to_nat (getInputCount m)) 0;;
            for_ports (disconnect_output a) (Z.to_nat (getOutputCount m)) 0) w
           = Ok (tt, put_module a m w')
    ∧ world_wf w' ∧ w_modules w' !! a = Some m' ∧ isolated w' m' ∧ same_outputs m m'
    ∧ (∀ b, is_Some (w_modules w' !! b) ↔ is_Some (w_modules w !! b))
    ∧ ∀ b x, b ≠ a → w_modules w !! b = Some x →
      ∃ x', w_modules w' !! b = Some x' ∧ shape x' = shape x ∧ unplugged m x x'.
Proof.
  intros Hw Hm. pose proof (wwf_modules w Hw a m Hm) as Hwf.
  destruct (disconnect_inputs_run a m (Z.to_nat (getInputCount m)) 0 w m)
    as (w1 & m1 & Hrun1 & Hw1 & Hm1 & [Hmap Hin Hout] & Hoth1); [done|done| |].
  { split; [done| |done]. intros n. case_decide as Hn; [|done].
    destruct (getInput n m) eqn:E; [|done]. pose proof (input_in_range m n Hwf ltac:(by eexists)). lia. }
  rewrite put_module_id in Hrun1 by done.
  assert (Hnone : ∀ n, getInput n m1 = None).
  { intros n. rewrite Hin. case_decide as Hn; [done|]. destruct (getInput n m) eqn:E; [|done].
    pose proof (input_in_range m n Hwf ltac:(by eexists)). unfold getInputCount in *. lia. }
  destruct (disconnect_outputs_run a m (Z.to_nat (getOutputCount m)) 0 w1 m1)
    as (w2 & Hrun2 & Hw2 & Hm2 & Hq & Hdom & Hst & Hcut); [done|done|done|done| |].
  { intros n s st Hn Hs. pose proof (output_in_range m n Hwf ltac:(by eexists)). lia. }
  assert (Hfree : ∀ n s st, getOutput n m1 = Some s → w_streams w2 !! s = Some st → s_observers st = []).
  { intros n s st Hs. apply (Hq n s st); [|by rewrite <-Hout].
    pose proof (output_in_range m n Hwf) as Hr. rewrite <-Hout in Hr.
    specialize (Hr ltac:(by eexists)). unfold getOutputCount in *. lia. }
  exists w2, m1. rewrite bind_run, Hrun1. split_and!; [done|done|done|by split|done| |].
  - intros b. rewrite Hdom. destruct (decide (b = a)) as [->|]; [rewrite Hm1, Hm; naive_solver|].
    by rewrite Hoth1.
  - intros b x Hb Hx. rewrite <-Hoth1 in Hx by done. destruct (Hst b x Hx) as (x' & Hx' & _ & Hsh).
    exists x'. split_and!; [done|done|]. destruct (Hcut b x Hx) as (y & Hy & Hn). simplify_eq. intros n.
    destruct (getInput n x) as [s|] eqn:Es; [|destruct (Hn n) as [?|(? & _)]; congruence].
    destruct (Hn n) as [E|(E & t & Ht & k & Hk)]; [right; split; [congruence|]|left; simplify_eq; eauto].
    intros k Hk. rewrite Es in E. destruct (wwf_in_live w2 Hw2 b x' n s Hx' E) as [st Hs].
    pose proof (wwf_wired w2 Hw2 s st b x' Hs Hx') as Hocc. rewrite (Hfree k s st) in Hocc; [|by rewrite Hout|done].
    symmetry in Hocc. apply inputs_on_0 with (n := n) in Hocc. done.
Qed.
