(* ===== verification/WebStream.v ===== *)
(** The image streams of the web server: opening one connects a module of its
    own to the output the client asked for, closing it disconnects and deletes
    that module.

    [new_otStreamModule] leaves the input of the module on a stream the module
    does not observe, so the graph is not well formed until the first
    [setInput].  [open_stream_run] goes through that state: [setInput] does the
    same there as on the graph where the input is still null. *)
From S2P Require Import Prelude StdMap Numeric Utils Property Container Module World Wiring.
From S2P Require Import Lifecycle Catalogue Factory Pipeline PipelineSafe Json HttpText Web Removal.

(** ** Opening *)

(** The module, its input null, with a given value of "scale". *)
Definition stream_module (self : nat) (id scale : moProperty) : moModule :=
  declareInput 0 "input"
    {| i_name := "stream"; i_type := "IplImage,IplImage8"; i_description := "Image to stream on webbrowser" |}
    (store_property "scale" scale (store_property "id" id (set_field "input" None
       (upd_m_is_internal (λ _, true) (new_module "Stream" EmptyString EmptyString MO_MODULE_INPUT self))))).

Definition stream_shape : smap Z string * smap Z string := ([(0%Z, "input")], []).

Lemma stream_module_wf self id scale :
  prop_wf id → prop_wf scale → p_callbacks id = [] → p_callbacks scale = [] →
  module_wf (stream_module self id scale) ∧ cbs_self self (stream_module self id scale)
  ∧ shape (stream_module self id scale) = stream_shape.
Proof.
  intros Hid Hsc Cid Csc.
  assert (Hint : module_wf (upd_m_is_internal (λ _, true)
    (new_module "Stream" EmptyString EmptyString MO_MODULE_INPUT self))).
  { destruct (new_module_wf "Stream" EmptyString EmptyString MO_MODULE_INPUT self). by split. }
  split_and!; [|..|done].
  - apply declareInput_wf; [|done|split; [by eexists|done]].
    by apply store_property_wf, Hsc; apply store_property_wf, Hid; apply set_field_wf.
  - assert (Hnil : ∀ p c, p_callbacks p = [] → c ∈ p_callbacks p → c.2 = self)
      by (intros p c -> ?%elem_of_nil; done).
    apply (cbs_self_store self "scale" scale (store_property "id" id _)); [|eauto].
    apply (cbs_self_store self "id" id); [|eauto]. apply (cbs_self_new "Stream" EmptyString EmptyString MO_MODULE_INPUT).
Qed.

(** The world where that module has just been made, its input still null. *)
Definition stream_world (id scale : moProperty) (w : world) : world :=
  add_stream "stream" (add_module (stream_module (w_next w) id scale) w).

Lemma stream_world_wf id scale w :
  world_wf w → prop_wf id → prop_wf scale → p_callbacks id = [] → p_callbacks scale = [] →
  world_wf (stream_world id scale w).
Proof.
  intros Hw ? ? ? ?. apply add_stream_wf.
  destruct (stream_module_wf (w_next w) id scale) as (? & ? & _); [done..|].
  apply add_module_wf; try done. intros n. unfold getInput. cbn. by destruct (kcmp n 0%Z).
Qed.

Lemma stream_world_module id scale w :
  w_modules (stream_world id scale w) !! w_next w = Some (stream_module (w_next w) id scale).
Proof. unfold stream_world. simpl. by rewrite lookup_insert_eq. Qed.
Lemma stream_world_stable id scale w : world_wf w → stable w (stream_world id scale w).
Proof.
  intros Hw a m Ha. exists m. split; [|done]. unfold stream_world. simpl. rewrite lookup_insert_ne; [done|].
  intros <-. by rewrite fresh_module in Ha.
Qed.
Lemma stream_world_streams id scale w s :
  is_Some (w_streams w !! s) → is_Some (w_streams (stream_world id scale w) !! s).
Proof. apply (add_stream_live "stream" (add_module _ w)). Qed.

(** The same world with the input on the stream made by the constructor. *)
Definition stray_world (id scale : moProperty) (w : world) : world :=
  put_module (w_next w) (set_field "input" (Some (S (w_next w))) (stream_module (w_next w) id scale))
    (stream_world id scale w).

Lemma stray_world_other id scale w b m :
  world_wf w → w_modules w !! b = Some m → w_modules (stray_world id scale w) !! b = Some m.
Proof.
  intros Hw Hb. assert (w_next w ≠ b) by (intros <-; by rewrite fresh_module in Hb).
  unfold stray_world, stream_world. simpl. by rewrite !lookup_insert_ne.
Qed.
Lemma stream_world_put id scale scale' m w :
  put_module (w_next w) m (stream_world id scale w) = put_module (w_next w) m (stream_world id scale' w).
Proof. unfold stream_world, add_stream, add_module, put_module, upd_w_modules. simpl. by rewrite !insert_insert_eq. Qed.

Lemma mod_module_put a g m w : mod_module a g (put_module a m w) = Ok (tt, put_module a (g m) w).
Proof. rewrite (mod_module_run a m) by apply put_module_lookup. by rewrite put_module_twice. Qed.

Lemma new_otStreamModule_run w :
  ∃ id scale, prop_wf id ∧ prop_wf scale ∧ p_callbacks id = [] ∧ p_callbacks scale = []
    ∧ new_otStreamModule w
      = Ok (w_next w, stray_world id scale (upd_w_idcount (λ n, (n + 1) mod 2 ^ 32)%Z w)).
Proof.
  set (name := "WebStream" +:+ print_int (w_idcount w)).
  exists (alloc MO_PROPERTY_STRING (VString name) EmptyString), (alloc MO_PROPERTY_INTEGER (VInt 1) EmptyString).
  split_and!; [by apply (alloc_wf (VString name))|by apply (alloc_wf (VInt 1))|done|done|].
  unfold new_otStreamModule. rewrite bind_run. cbn [gets]. rewrite bind_run. cbn [modify].
  rewrite bind_run, alloc_stream_run.
  set (w1 := upd_w_next S (upd_w_next S (put_stream (S (w_next w)) (new_stream "stream") w))).
  set (m0 := upd_m_is_internal _ _).
  assert (Hw1 : add_stream "stream" (upd_w_next S (put_module (w_next w) m0 w)) = put_module (w_next w) m0 w1) by done.
  rewrite Hw1. cbv beta iota. rewrite bind_run, mod_module_put. cbv beta iota. rewrite bind_run.
  set (m1 := set_field _ _ m0).
  assert (Hid : createId "WebStream" (put_module (w_next w) m1 w1)
    = Ok (name, put_module (w_next w) m1 (upd_w_idcount (λ n, (n + 1) mod 2 ^ 32)%Z w1))) by done.
  rewrite Hid. cbv beta iota. rewrite bind_run.
  assert (Hs : new_string name EmptyString = Ok (alloc MO_PROPERTY_STRING (VString name) EmptyString)) by done.
  assert (Hn : new_int 1 EmptyString = Ok (alloc MO_PROPERTY_INTEGER (VInt 1) EmptyString)) by done.
  rewrite Hs. cbn [lift]. rewrite bind_run, mod_module_put. cbv beta iota. rewrite bind_run, Hn. cbn [lift].
  rewrite bind_run, mod_module_put. cbv beta iota. rewrite bind_run, mod_module_put. cbv beta iota.
  unfold mret, M_ret. do 2 f_equal. unfold stray_world, stream_world, add_module, add_stream, put_module, put_stream, upd_w_modules, upd_w_streams, upd_w_next.
  simpl. by rewrite insert_insert_eq.
Qed.

(** [property("scale").set(value)] on that module runs no callback. *)
Lemma set_scale_run {V : Virtuals} value id scale w :
  prop_wf scale → p_callbacks scale = [] →
  ∃ scale', prop_wf scale' ∧ p_callbacks scale' = []
    ∧ set_property_string (w_next w) "scale" value (stray_world id scale w) = Ok (tt, stray_world id scale' w).
Proof.
  intros Hsc Csc. unfold set_property_string, set_property. set (v := VString value).
  pose proof (set_value_cases v scale Hsc I) as Hset. change MO_PROPERTY_STRING with (type_of v).
  destruct (set_value (type_of v) v scale) as [[p calls]|] eqn:E; [|by destruct Hset as (_ & _ & _ & ?)].
  destruct (set_value_callbacks _ v scale p calls E) as [Cp Hcalls]. rewrite Csc in Cp.
  assert (calls = []) as ->.
  { destruct calls as [|c calls]; [done|]. assert (c ∈ p_callbacks scale) as Hc by (apply Hcalls; by left).
    rewrite Csc in Hc. by apply elem_of_nil in Hc. }
  exists p. split_and!; [by eapply (set_value_wf v)|done|].
  set (m := set_field "input" (Some (S (w_next w))) (stream_module (w_next w) id scale)).
  assert (Hm : w_modules (stray_world id scale w) !! w_next w = Some m) by apply put_module_lookup.
  assert (property "scale" m = (scale, m)) as Hp by done.
  rewrite bind_run. unfold property_of. rewrite bind_run, (getm_run _ m), Hp by done. cbv beta iota.
  rewrite bind_run. cbn [modify]. rewrite (put_module_id _ m) by exact Hm. cbn [mret M_ret].
  rewrite bind_run. rewrite E. cbn [lift]. rewrite bind_run, (mod_module_run _ m) by done. cbn [for_each fst snd].
  unfold stray_world. rewrite put_module_twice. by rewrite (stream_world_put id scale p).
Qed.

(** The first [setInput] of the module. *)
Lemma stray_setInput id scale stream w :
  setInput (w_next w) stream 0 (stray_world id scale w) = setInput (w_next w) stream 0 (stream_world id scale w).
Proof.
  set (a := w_next w). set (m := stream_module a id scale). set (m' := set_field "input" (Some (S a)) m).
  assert (Hm : w_modules (stream_world id scale w) !! a = Some m) by apply stream_world_module.
  assert (Hm' : w_modules (stray_world id scale w) !! a = Some m') by apply put_module_lookup.
  assert (Hs : w_streams (stray_world id scale w) !! S a = Some (new_stream "stream")) by apply lookup_insert_eq.
  assert (find 0%Z (m_input_map m) = Some "input" ∧ field "input" m = None) as [Hi Hf] by done.
  assert (find 0%Z (m_input_map m') = Some "input" ∧ field "input" m' = Some (S a)) as [Hi' Hf'] by done.
  assert (Hrm : s_removeObserver a (new_stream "stream") = new_stream "stream") by done.
  assert (Hp : put_module a (set_field "input" stream m') (stray_world id scale w)
             = put_module a (set_field "input" stream m) (stream_world id scale w)).
  { unfold stray_world. fold a. rewrite put_module_twice. unfold m'. by rewrite set_field_set_field. }
  unfold setInput. rewrite !bind_run, (getm_run a m _ Hm), (getm_run a m' _ Hm'). cbv beta iota.
  rewrite Hi, Hi'. cbv beta iota zeta. rewrite Hf, Hf', !bind_run.
  rewrite (mod_stream_run _ _ (s_removeObserver a) _ Hs), Hrm, (put_stream_id _ _ _ Hs). cbn [skip mret M_ret].
  rewrite !bind_run, (mod_module_run a m _ _ Hm), (mod_module_run a m' _ _ Hm'), Hp. done.
Qed.

(** Up to the first [setInput]. *)
Lemma make_stream_run {V : Virtuals} value w :
  ∃ id scale, prop_wf id ∧ prop_wf scale ∧ p_callbacks id = [] ∧ p_callbacks scale = []
    ∧ (a ← new_otStreamModule;
       (match value with Some v => set_property_string a "scale" v | None => skip end);; mret a) w
      = Ok (w_next w, stray_world id scale (upd_w_idcount (λ n, (n + 1) mod 2 ^ 32)%Z w)).
Proof.
  destruct (new_otStreamModule_run w) as (id & scale & Hid & Hsc & Cid & Csc & Hrun).
  destruct value as [v|].
  - set (w1 := upd_w_idcount _ w) in *. destruct (set_scale_run v id scale w1 Hsc Csc) as (scale' & ? & ? & Hset).
    exists id, scale'. split_and!; [done..|]. rewrite bind_run, Hrun. cbv beta iota.
    rewrite bind_run. change (set_property_string (w_next w)) with (set_property_string (w_next w1)). by rewrite Hset.
  - exists id, scale. split_and!; [done..|]. by rewrite bind_run, Hrun.
Qed.

(** ** Closing *)

Lemma sink_isolated w m : shape m = stream_shape → isolated w (set_field "input" None m).
Proof.
  unfold shape, stream_shape. intros [= Hin Hout]. split.
  - intros n. rewrite getInput_set_field. case_decide as Hn; [done|]. unfold getInput. rewrite Hin in Hn |- *.
    simpl in *. by destruct (kcmp n 0%Z).
  - intros n s st. unfold getOutput. simpl. by rewrite Hout.
Qed.

Lemma close_stream_run {V : Virtuals} a m w :
  world_wf w → w_modules w !! a = Some m → shape m = stream_shape →
  ∃ w', (setInput a None 0;; delete_module a) w = Ok (tt, w') ∧ world_wf w'
        ∧ w_modules w' = delete a (w_modules w).
Proof.
  intros Hw Hm Hsh. assert (Hn : find 0%Z (m_input_map m) = Some "input")
    by (unfold shape in Hsh; injection Hsh as -> _; done).
  set (m' := set_field "input" None m). set (w1 := detach a m "input" w).
  assert (Hw1 : world_wf w1) by (by eapply detach_wf).
  assert (Hm' : w_modules w1 !! a = Some m') by (unfold w1; rewrite detach_modules; by rewrite decide_True).
  destruct (delete_isolated a m' m' w1 Hw1 Hm') as (w2 & Hrun & Hw2 & Hmods & _);
    [by apply sink_isolated|by eapply (wwf_modules w1 Hw1)|by apply (wwf_cbs w1 Hw1)|done|].
  rewrite put_module_id in Hrun by done. exists w2. split_and!; [|done|].
  - by rewrite bind_run, (setInput_none a m 0 "input").
  - rewrite Hmods. apply map_eq. intros b. destruct (decide (a = b)) as [<-|]; [by rewrite !lookup_delete_eq|].
    rewrite !lookup_delete_ne by done. unfold w1. rewrite detach_modules. by rewrite decide_False.
Qed.
