(* ===== verification/WebSafe.v ===== *)
(** What the web server guarantees.

    [web_inv]: the graph is well formed, the pipeline and its modules are live,
    each module is listed once.  Whatever the requests, the handlers that
    return keep it ([serve_safe]), and the framework touches no deleted object and
    leaves no dangling connection; what can fault is a method that a class
    overrides ([blamed]).  Loading a slot is left out (it deletes every module of the
    pipeline without disconnecting anything), and asking for the interface of a
    module that has none stops the program ([gui_request_aborts] in WebFiles). *)
From S2P Require Import Prelude StdMap Numeric Utils Property Container Module World Wiring.
From S2P Require Import Lifecycle Catalogue Factory Pipeline PipelineSafe PipelineRuns Json HttpText Web Removal WebStream.

(** ** Reading without faults *)

Lemma safe_wf {A} (x : M A) w : (world_wf w → safe x w) → safe x w.
Proof. intros H Hw. by apply H. Qed.

Lemma safe_getm_bind {A} a m (k : moModule → M A) w :
  w_modules w !! a = Some m → safe (k m) w → safe (getm a ≫= k) w.
Proof.
  intros Hm Hk Hw. destruct (Hk Hw) as (r & w' & Hrun & Hq). exists r, w'.
  by rewrite bind_run, (getm_run a m).
Qed.

Lemma safe_gets_at_bind {A} s st (k : moDataStream → M A) w :
  w_streams w !! s = Some st → safe (k st) w → safe (gets_at s ≫= k) w.
Proof.
  intros Hs Hk Hw. destruct (Hk Hw) as (r & w' & Hrun & Hq). exists r, w'.
  by rewrite bind_run, (gets_at_run s st).
Qed.

Lemma safe_lift_bind {A B} (x : res A) v (k : A → M B) w : x = Ok v → safe (k v) w → safe (lift x ≫= k) w.
Proof. intros -> Hk Hw. destruct (Hk Hw) as (r & w' & Hrun & Hq). exists r, w'. by rewrite bind_run. Qed.

Lemma safe_property_string a k w :
  is_Some (w_modules w !! a) → safe (p ← property_of a k; lift (asString p)) w.
Proof.
  intros Ha Hw. destruct (safe_property a k w Ha Hw) as (p & w' & m' & Hrun & Hq & Hp & _).
  destruct (asString_total p Hp) as [s Hs]. exists s, w'. by rewrite bind_run, Hrun, Hs.
Qed.

Lemma safe_module_id a w : is_Some (w_modules w !! a) → safe (module_id a) w.
Proof. apply safe_property_string. Qed.

(** Every property of a well-formed module can be printed. *)
Definition printable (l : smap string moProperty) : Prop := ∀ k p, (k, p) ∈ l → ∃ s, asString p = Ok s.

Lemma module_printable m : module_wf m → printable (m_properties m).
Proof.
  intros Hm k p Hp. apply asString_total. apply (mwf_props m Hm k).
  by apply find_elem_ordered; [apply Hm|].
Qed.

Lemma printable_cons k p l : printable ((k, p) :: l) → (∃ s, asString p = Ok s) ∧ printable l.
Proof. intros H. split; [apply (H k); by left|]. intros j q Hq. apply (H j). by right. Qed.

Lemma json_properties_total l : printable l → ∃ r, json_properties l = Ok r.
Proof.
  induction l as [|[k p] l IH]; intros H; [by eexists|]. apply printable_cons in H as [[s Hs] Hl].
  destruct (IH Hl) as [r Hr]. simpl. rewrite Hs. cbn [mbind res_bind]. rewrite Hr. by eexists.
Qed.
Lemma serialize_sets_total id l : printable l → ∃ r, serialize_sets id l = Ok r.
Proof.
  induction l as [|[k p] l IH]; intros H; [by eexists|]. apply printable_cons in H as [[s Hs] Hl].
  destruct (IH Hl) as [r Hr]. simpl. rewrite Hs, Hr. destruct (isText p); by eexists.
Qed.
Lemma serialize_texts_total id l : printable l → ∃ r, serialize_texts id l = Ok r.
Proof.
  induction l as [|[k p] l IH]; intros H; [by eexists|]. apply printable_cons in H as [[s Hs] Hl].
  destruct (IH Hl) as [r Hr]. simpl. rewrite Hs, Hr. destruct (isText p); by eexists.
Qed.

(** ** Describing a module *)

Lemma safe_json_ports f fuel k w :
  (∀ j w', (k <= j < k + Z.of_nat fuel)%Z → quiet w w' → safe (f j) w') → safe (json_ports f fuel k) w.
Proof.
  revert k w. induction fuel as [|fuel IH]; intros k w H; [apply safe_ret|].
  apply safe_bind; [apply H; [lia|done]|]. intros j w1 _ Hq1.
  apply safe_bind; [|intros; apply safe_ret]. apply IH. intros i w2 Hi Hq2.
  apply H; [lia|by trans w1].
Qed.

Lemma safe_port_list key count f w :
  (∀ j w', (0 <= j < count)%Z → quiet w w' → safe (f j) w') → safe (json_port_list key count f) w.
Proof.
  intros H. unfold json_port_list. case_match; [apply safe_ret|].
  apply safe_bind; [|intros; apply safe_ret]. apply safe_json_ports. intros j w' Hj. apply H. lia.
Qed.

Lemma info_total {A} (m : smap Z A) n :
  contiguous (keys m) → (0 <= n < Z.of_nat (length m))%Z → is_Some (find n m).
Proof.
  intros Hc Hn. destruct (find n m) as [v|] eqn:E; [by eexists|]. exfalso.
  apply find_None_keys in E. apply E. rewrite Hc. apply list_elem_of_fmap.
  exists (Z.to_nat n). split; [lia|]. apply elem_of_seq. unfold keys. rewrite length_fmap. lia.
Qed.

Lemma json_port_in m k : module_wf m → (0 <= k < getInputCount m)%Z → ∃ r, json_port k (getInputInfos k m) = Ok r.
Proof.
  intros Hm Hk. destruct (info_total (m_input_infos m) k) as [i Hi]; [apply Hm|done|].
  unfold json_port, getInputInfos. rewrite Hi. by eexists.
Qed.
Lemma json_port_out m k : module_wf m → (0 <= k < getOutputCount m)%Z → ∃ r, json_port k (getOutputInfos k m) = Ok r.
Proof.
  intros Hm Hk. destruct (info_total (m_output_infos m) k) as [i Hi]; [apply Hm|done|].
  unfold json_port, getOutputInfos. rewrite Hi. by eexists.
Qed.

(** The module at [a] has the ports of [m]. *)
Definition same_ports_at (a : nat) (m : moModule) (w : world) : Prop :=
  ∃ m', w_modules w !! a = Some m' ∧ ports m' = ports m.

Lemma same_ports_start a m w : w_modules w !! a = Some m → same_ports_at a m w.
Proof. intros. by exists m. Qed.
Lemma same_ports_quiet a m w w' : quiet w w' → same_ports_at a m w → same_ports_at a m w'.
Proof.
  intros Hq (x & Hx & E). destruct (q_mod w w' Hq a x Hx) as (y & Hy & Hk & _).
  exists y. split; [done|]. by rewrite (kept_ports x y Hk).
Qed.
Lemma same_ports_live a m w : same_ports_at a m w → is_Some (w_modules w !! a).
Proof. intros (x & Hx & _). by eexists. Qed.

Lemma ports_counts m m' :
  ports m' = ports m → getInputCount m' = getInputCount m ∧ getOutputCount m' = getOutputCount m.
Proof. unfold ports, getInputCount, getOutputCount. intros [= _ _ -> -> _ _]. done. Qed.

Lemma safe_plain_input a m k w :
  same_ports_at a m w → (0 <= k < getInputCount m)%Z → safe (plain_input a k) w.
Proof.
  intros (x & Hx & E) Hk. destruct (ports_counts m x E) as [Ei _]. apply safe_wf. intros Hw.
  apply (safe_getm_bind a x); [done|].
  destruct (json_port_in x k) as [r Hr]; [by eapply (wwf_modules w Hw)|lia|].
  apply (safe_lift_bind _ r); [done|apply safe_ret].
Qed.
Lemma safe_plain_output a m k w :
  same_ports_at a m w → (0 <= k < getOutputCount m)%Z → safe (plain_output a k) w.
Proof.
  intros (x & Hx & E) Hk. destruct (ports_counts m x E) as [_ Eo]. apply safe_wf. intros Hw.
  apply (safe_getm_bind a x); [done|].
  destruct (json_port_out x k) as [r Hr]; [by eapply (wwf_modules w Hw)|lia|].
  apply (safe_lift_bind _ r); [done|apply safe_ret].
Qed.
Lemma safe_status_input a m k w :
  same_ports_at a m w → (0 <= k < getInputCount m)%Z → safe (status_input a k) w.
Proof.
  intros (x & Hx & E) Hk. destruct (ports_counts m x E) as [Ei _]. apply safe_wf. intros Hw.
  apply (safe_getm_bind a x); [done|].
  destruct (json_port_in x k) as [r Hr]; [by eapply (wwf_modules w Hw)|lia|].
  apply (safe_lift_bind _ r); [done|apply safe_ret].
Qed.

Lemma safe_json_observers j obs w : all_live w obs → safe (json_observers j obs) w.
Proof.
  revert j w. induction obs as [|a obs IH]; intros j w Hl; [apply safe_ret|].
  apply safe_bind; [apply safe_module_id, Hl; by left|]. intros id w1 _ Hq.
  apply safe_bind; [|intros; apply safe_ret]. apply IH. intros b Hb.
  eapply quiet_live; [done|]. apply Hl. by right.
Qed.

Lemma safe_status_output a m k w :
  same_ports_at a m w → (0 <= k < getOutputCount m)%Z → safe (status_output a k) w.
Proof.
  intros (x & Hx & E) Hk. destruct (ports_counts m x E) as [_ Eo]. apply safe_wf. intros Hw.
  apply (safe_getm_bind a x); [done|].
  destruct (json_port_out x k) as [r Hr]; [by eapply (wwf_modules w Hw)|lia|].
  apply (safe_lift_bind _ r); [done|]. apply safe_bind; [|intros; apply safe_ret].
  destruct (getOutput k x) as [s|] eqn:Hs; [|apply safe_ret].
  destruct (own_out_live w (wwf_own w Hw) a x k s Hx Hs) as [st Hst].
  apply (safe_gets_at_bind s st); [done|]. apply safe_json_observers.
  intros b Hb. by eapply (wwf_obs_live w Hw).
Qed.

Lemma safe_status_module a w : is_Some (w_modules w !! a) → safe (status_module a) w.
Proof.
  intros Ha. apply safe_bind; [by apply safe_module_id|]. intros id w1 _ Hq1.
  destruct (quiet_live w w1 a Hq1 Ha) as [m Hm]. apply (safe_getm_bind a m); [done|].
  apply safe_wf. intros Hw1. destruct (json_properties_total (m_properties m)) as [r Hr];
    [by apply module_printable, (wwf_modules w1 Hw1 a)|].
  apply (safe_lift_bind _ r); [done|]. pose proof (same_ports_start a m w1 Hm) as Hp.
  apply safe_bind.
  { apply safe_port_list. intros j w2 Hj Hq2. apply (safe_status_input a m); [|done].
    by eapply same_ports_quiet. }
  intros ins w2 _ Hq2. apply safe_bind; [|intros; apply safe_ret].
  apply safe_port_list. intros j w3 Hj Hq3. apply (safe_status_output a m); [|done].
  eapply same_ports_quiet; [|done]. by trans w2.
Qed.

Lemma safe_stats_module a w : is_Some (w_modules w !! a) → safe (stats_module a) w.
Proof.
  intros Ha. apply safe_bind; [by apply safe_module_id|]. intros id w1 _ Hq1.
  apply safe_bind; [apply safe_getm; by eapply quiet_live|]. intros; apply safe_ret.
Qed.

Lemma safe_map_M {A B} (f : A → M B) l w :
  (∀ a w', a ∈ l → quiet w w' → safe (f a) w') → safe (map_M f l) w.
Proof.
  revert w. induction l as [|a l IH]; intros w H; [apply safe_ret|].
  apply safe_bind; [apply H; [by left|done]|]. intros b w1 _ Hq1.
  apply safe_bind; [|intros; apply safe_ret]. apply IH. intros c w2 Hc Hq2.
  apply H; [by right|by trans w1].
Qed.

(** ** Saving *)

Lemma safe_module_serialize b a w : is_Some (w_modules w !! a) → safe (module_serialize b a) w.
Proof.
  intros [m Hm] Hw. pose proof (wwf_modules w Hw a m Hm) as Hwf.
  destruct (property_wf "id" m Hwf) as [Hp Hwf1].
  destruct (asString_total _ Hp) as [id Hid].
  pose proof (module_printable _ Hwf1) as Hpr.
  assert (∃ text, serializeCreation b m = Ok (text, (property "id" m).2)) as [text E].
  { unfold serializeCreation. rewrite (surjective_pairing (property "id" m)), Hid.
    destruct (serialize_texts_total id _ Hpr) as [t Ht], (serialize_sets_total id _ Hpr) as [s Hs].
    cbn [mbind res_bind]. rewrite Ht, Hs. destruct b; by eexists. }
  exists text, (put_module a (property "id" m).2 w). split.
  - unfold module_serialize. rewrite bind_run, (getm_run a m) by done. cbv beta iota.
    by rewrite bind_run, E.
  - eapply quiet_put; [done|apply property_kept|]. intros [_ Hcb]. split; [done|].
    by apply cbs_self_property.
Qed.

Lemma safe_connect_lines id i s obs w : all_live w obs → safe (connect_lines id i s obs) w.
Proof.
  revert w. induction obs as [|o obs IH]; intros w Hl; [apply safe_ret|]. simpl.
  assert (Ho : is_Some (w_modules w !! o)) by (apply Hl; by left).
  assert (Hobs : ∀ w', quiet w w' → all_live w' obs)
    by (intros w' Hq b Hb; eapply quiet_live; [done|]; apply Hl; by right).
  destruct Ho as [m Hm]. apply (safe_getm_bind o m); [done|].
  destruct (m_is_internal m); [by apply IH, Hobs|]. apply safe_wf. intros Hw.
  destruct (safe_property o "id" w (mk_is_Some _ _ Hm) Hw) as (p & w1 & m1 & Hrun & Hq & Hp & _ & Hm1 & _).
  destruct (asString_total p Hp) as [oid Hoid].
  apply safe_bind; [intros _; by exists p, w1|]. intros p' w' Hrun' _. simplify_eq/=.
  rewrite Hrun in Hrun'. injection Hrun' as <- <-. apply (safe_lift_bind _ oid); [done|].
  apply (safe_getm_bind o m1); [done|]. apply safe_bind; [|intros; apply safe_ret]. by apply IH, Hobs.
Qed.

Lemma safe_connections_loop a id fuel i w :
  is_Some (w_modules w !! a) → safe (connections_loop a id fuel i) w.
Proof.
  revert i w. induction fuel as [|fuel IH]; intros i w Ha; [apply safe_ret|]. simpl.
  destruct Ha as [m Hm]. apply (safe_getm_bind a m); [done|]. apply safe_wf. intros Hw.
  apply safe_bind.
  - destruct (getOutput i m) as [s|] eqn:Hs; [|apply safe_ret].
    destruct (own_out_live w (wwf_own w Hw) a m i s Hm Hs) as [st Hst].
    apply (safe_gets_at_bind s st); [done|]. apply safe_connect_lines.
    intros b Hb. by eapply (wwf_obs_live w Hw).
  - intros line w1 _ Hq. apply safe_bind; [|intros; apply safe_ret]. apply IH.
    eapply quiet_live; [done|]. by eexists.
Qed.

Lemma safe_serializeConnections a w : is_Some (w_modules w !! a) → safe (serializeConnections a) w.
Proof.
  intros Ha. apply safe_wf. intros Hw.
  destruct (safe_property a "id" w Ha Hw) as (p & w1 & m1 & Hrun & Hq & Hp & _ & Hm1 & _).
  destruct (asString_total p Hp) as [id Hid].
  apply safe_bind; [intros _; by exists p, w1|]. intros p' w' Hrun' _.
  rewrite Hrun in Hrun'. injection Hrun' as <- <-. apply (safe_lift_bind _ id); [done|].
  apply (safe_getm_bind a m1); [done|]. apply safe_connections_loop. by eexists.
Qed.

Lemma safe_concat_all f mods w :
  (∀ a w', a ∈ mods → quiet w w' → safe (f a) w') → safe (concat_all f mods) w.
Proof.
  revert w. induction mods as [|a mods IH]; intros w H; [apply safe_ret|].
  apply safe_bind; [apply H; [by left|done]|]. intros s w1 _ Hq1.
  apply safe_bind; [|intros; apply safe_ret]. apply IH. intros c w2 Hc Hq2.
  apply H; [by right|by trans w1].
Qed.

Lemma safe_pipeline_serialize date pl w :
  all_live w (pl_modules pl) → safe (pipeline_serializeCreation date pl) w.
Proof.
  intros Hl. apply safe_bind.
  { apply safe_concat_all. intros a w' Ha Hq. apply safe_module_serialize.
    by eapply quiet_live, Hl. }
  intros c w1 _ Hq1. apply safe_bind.
  { apply safe_concat_all. intros a w' Ha Hq. apply safe_serializeConnections.
    eapply quiet_live, Hl; [|done]. by trans w1. }
  intros d w2 _ Hq2. apply safe_bind; [|intros; apply safe_ret].
  apply safe_concat_all. intros a w' Ha Hq. apply safe_module_serialize.
  eapply quiet_live, Hl; [|done]. trans w1; [done|]. by trans w2.
Qed.

(** The module of an image stream: one input, no output. *)
Definition sink (w : world) (a : nat) : Prop :=
  ∃ m, w_modules w !! a = Some m ∧ shape m = stream_shape.
Lemma sink_alive w w' a : alive w w' → sink w a → sink w' a.
Proof. intros Hl (m & Hm & Hs). destruct (Hl a m Hm) as (m' & ? & ?). exists m'. split; [done|congruence]. Qed.
Definition streams (sv : server) : list nat := cs_stream <$> sv_streams sv.

(** ** The invariant of the server *)

Record web_inv (sv : server) (w : world) : Prop := {
  wi_wf : world_wf w;
  wi_self : is_Some (w_modules w !! pl_self (sv_pl sv));
  wi_apart : pl_self (sv_pl sv) ∉ pl_modules (sv_pl sv);
  wi_NoDup : NoDup (pl_modules (sv_pl sv));
  wi_live : all_live w (pl_modules (sv_pl sv));
  wi_error : pl_error (sv_pl sv) = EmptyString;
  wi_sinks : Forall (sink w) (streams sv);
  wi_streams : NoDup (streams sv);
  wi_beside a : a ∈ streams sv → a ≠ pl_self (sv_pl sv) ∧ a ∉ pl_modules (sv_pl sv);
}.

(** A handler returns, and the invariant holds of what it leaves; or a method of
    one of the kinds [K] that a class overrides stopped it. *)
Definition serves {V : Virtuals} (K : list vkind) (x : handled) (w : world) : Prop :=
  yields (blamed K) x w (λ rs w', web_inv rs.2 w').

Lemma web_inv_live sv w w' :
  world_wf w' → alive w w' → web_inv sv w → web_inv sv w'.
Proof.
  intros Hw' Hl []. split; try done; [by eapply alive_live|intros a Ha; by eapply alive_live; [|auto]|].
  eapply Forall_impl; [done|]. intros a. by apply sink_alive.
Qed.

Lemma web_inv_quiet sv w w' : quiet w w' → web_inv sv w → web_inv sv w'.
Proof.
  intros Hq Hi. eapply web_inv_live; [|by apply quiet_alive|done].
  by eapply quiet_wf; [apply Hi|].
Qed.

Lemma web_inv_stable sv w w' : world_wf w' → stable w w' → web_inv sv w → web_inv sv w'.
Proof. intros Hw' Hs. apply web_inv_live; [done|]. by apply stable_alive. Qed.

Section Serves.
Context {V : Virtuals} (K : list vkind).

Lemma serves_run (x : handled) w r sv w' : x w = Ok ((r, sv), w') → web_inv sv w' → serves K x w.
Proof. intros Hrun Hi. by eapply yields_run. Qed.

Lemma serves_ret r sv w : web_inv sv w → serves K (mret (r, sv)) w.
Proof. intros. by eapply serves_run. Qed.

Lemma serves_guard {A} (x : M A) (k : A → handled) sv w :
  web_inv sv w → guarded (blamed K) x w →
  (∀ r w', x w = Ok (r, w') → web_inv sv w' → quiet w w' → serves K (k r) w') → serves K (x ≫= k) w.
Proof.
  intros Hi Hx Hk. eapply (yields_bind _); [by apply Hx, Hi|]. intros r w1 Hrun Hq.
  split; [by apply quiet_alive|]. apply Hk; [done| |done]. by apply (web_inv_quiet sv w w1).
Qed.
Lemma serves_bind {A} (x : M A) (k : A → handled) sv w :
  web_inv sv w → safe x w →
  (∀ r w', x w = Ok (r, w') → web_inv sv w' → quiet w w' → serves K (k r) w') → serves K (x ≫= k) w.
Proof. intros Hi Hx. apply serves_guard; [done|]. by apply guarded_safe. Qed.

Lemma serves_good {A} (x : M A) (k : A → handled) w (P : A → world → Prop) :
  good x w P → (∀ r w', world_wf w' → stable w w' → P r w' → serves K (k r) w') → serves K (x ≫= k) w.
Proof.
  intros (r & w1 & Hrun & Hw1 & Hs & HP) Hk. eapply (yields_after _); [done|by apply stable_alive|]. by apply Hk.
Qed.

Lemma serves_uri rq sv k w : web_inv sv w → serves K k w → serves K (with_uri rq sv k) w.
Proof. unfold with_uri. intros. case_match; [done|by apply serves_ret]. Qed.
Lemma serves_header key missing rq sv k w :
  web_inv sv w → (∀ v, find_header (rq_query rq) key = Some v → serves K (k v) w) →
  serves K (with_header key missing rq sv k) w.
Proof. unfold with_header. intros ? H. case_match; [by apply H|by apply serves_ret]. Qed.
End Serves.

(** Looking a module up. *)
Lemma safe_find_by_id mods id w : all_live w mods → safe (find_by_id mods id) w.
Proof.
  revert w. induction mods as [|a mods IH]; intros w Hl; [apply safe_ret|]. simpl.
  apply safe_wf. intros Hw.
  destruct (safe_property a "id" w (Hl a ltac:(by left)) Hw) as (p & w1 & m1 & Hrun & Hq & Hp & _).
  destruct (asString_total p Hp) as [s Hs].
  apply safe_bind; [intros _; by exists p, w1|]. intros p' w' Hrun' _.
  rewrite Hrun in Hrun'. injection Hrun' as <- <-. apply (safe_lift_bind _ s); [done|].
  case_bool_decide; [apply safe_ret|]. apply IH. intros b Hb. eapply quiet_live; [done|].
  apply Hl. by right.
Qed.

Lemma find_by_id_elem mods id w a w' : find_by_id mods id w = Ok (Some a, w') → a ∈ mods.
Proof.
  revert w. induction mods as [|b mods IH]; intros w; simpl; [done|]. rewrite bind_run.
  destruct (property_of b "id" w) as [[p w1]|]; [|done]. rewrite bind_run.
  destruct (asString p) as [s|]; [|done]. cbn [lift]. case_bool_decide.
  - intros [= <- <-]. by left.
  - intros Hin%IH. by right.
Qed.

Lemma serves_lookup {V : Virtuals} K id sv k w :
  web_inv sv w →
  (∀ r w', web_inv sv w' → quiet w w' → (∀ a, r = Some a → a ∈ pl_modules (sv_pl sv)) → serves K (k r) w') →
  serves K (getModuleById id (sv_pl sv) ≫= k) w.
Proof.
  intros Hi Hk. apply (serves_bind _ _ _ sv); [done|apply safe_find_by_id, Hi|].
  intros r w' Hrun Hi' Hq. apply Hk; [done|done|]. intros a ->. by eapply find_by_id_elem.
Qed.

Section Handlers.
Context {V : Virtuals} {VL : VirtualLaws V}.
Implicit Types (rq : request) (sv : server) (w : world).

(** ** Setting properties

    The id of a module made through the web is an ordinary property: setting
    it keeps the module alive and the graph well formed, not its name. *)
Lemma set_string_alive a k value w :
  world_wf w → is_Some (w_modules w !! a) →
  yields (blamed on_set) (set_property_string a k value) w (λ _ w', world_wf w' ∧ alive w w').
Proof.
  intros Hw [m Hm].
  destruct (set_property_run a m k (VString value) w Hw Hm I ltac:(done)) as (calls & w2 & Hrun & Hw2 & Hl & _ & Hc).
  pose proof (guarded_calls on_set a k calls w2 ltac:(by left) ltac:(by right; left)
    (alive_live w w2 a Hl (mk_is_Some _ _ Hm)) (λ c Hin, proj1 (Hc c Hin)) Hw2) as Hrest.
  unfold yields, set_property_string in *. change MO_PROPERTY_STRING with (type_of (VString value)). rewrite Hrun.
  destruct (for_each _ calls w2) as [[r w3]|f]; [|by eapply (pulls (B := blamed on_set))].
  split; [by eapply quiet_wf|]. trans w2; [done|]. by apply quiet_alive.
Qed.

Lemma set_loop_alive fuel a headers w :
  world_wf w → is_Some (w_modules w !! a) →
  yields (blamed on_set) (set_loop fuel a headers) w (λ _ w', world_wf w' ∧ alive w w').
Proof.
  assert (Hstop : ∀ w, world_wf w → yields (blamed on_set) skip w (λ _ w', world_wf w' ∧ alive w w'))
    by (intros w0 Hw0; by apply (yields_run _ _ _ _ tt w0)).
  revert headers w. induction fuel as [|fuel IH]; intros headers w Hw Ha; simpl; [by apply Hstop|].
  destruct (find_header headers "name") as [name|]; [|by apply Hstop].
  destruct (find_header headers "value") as [value|]; [|by apply Hstop].
  eapply (yields_bind _); [by apply set_string_alive|]. intros _ w1 _ [Hw1 Hl1]. split; [done|].
  eapply yields_impl; [apply IH; [done|by eapply alive_live]|done|].
  intros _ w2 _ [Hw2 Hl2]. split; [done|]. by trans w1.
Qed.

(** ** Handlers that read or run *)

Lemma status_serves sv w : web_inv sv w → serves [] (web_pipeline_status sv) w.
Proof.
  intros Hi. apply (serves_bind _ _ _ sv); [done|apply safe_getm, Hi|]. intros self w1 _ Hi1 _.
  apply (serves_bind _ _ _ sv); [done| |intros; by apply serves_ret].
  apply safe_map_M. intros a w2 Ha Hq. apply safe_status_module. eapply quiet_live; [done|].
  by apply (wi_live sv w1 Hi1).
Qed.

Lemma stats_serves sv w : web_inv sv w → serves [] (web_pipeline_stats sv) w.
Proof.
  intros Hi. apply (serves_bind _ _ _ sv); [done| |intros; by apply serves_ret].
  apply safe_map_M. intros a w2 Ha Hq. apply safe_stats_module. eapply quiet_live; [done|].
  by apply (wi_live sv w Hi).
Qed.

Lemma get_serves rq sv w : web_inv sv w → serves [] (web_pipeline_get rq sv) w.
Proof.
  intros Hi. apply serves_uri; [done|]. apply serves_header; [done|]. intros id _.
  apply serves_header; [done|]. intros name _. apply serves_lookup; [done|].
  intros [a|] w1 Hi1 _ Ha; [|by apply serves_ret].
  assert (Hl : is_Some (w_modules w1 !! a)) by (apply (wi_live sv w1 Hi1); auto).
  destruct (safe_property a name w1 Hl (wi_wf sv w1 Hi1)) as (p & w2 & m2 & Hrun & Hq & Hp & _).
  destruct (asString_total p Hp) as [s Hs].
  apply (serves_run _ _ _ (web_ok s) sv w2); [|by eapply web_inv_quiet].
  rewrite bind_run, Hrun. cbv beta iota. by rewrite bind_run, Hs.
Qed.

Lemma set_serves rq sv w : web_inv sv w → serves on_set (web_pipeline_set rq sv) w.
Proof.
  intros Hi. apply serves_uri; [done|]. apply serves_header; [done|]. intros id _.
  apply serves_lookup; [done|]. intros [a|] w1 Hi1 _ Ha; [|by apply serves_ret].
  eapply (yields_bind _); [apply set_loop_alive; [apply Hi1|apply (wi_live sv w1 Hi1); auto]|].
  intros _ w2 _ [Hw2 Hl]. split; [done|]. apply serves_ret. by eapply web_inv_live.
Qed.

Lemma connect_serves rq sv w : web_inv sv w → serves [] (web_pipeline_connect rq sv) w.
Proof.
  intros Hi. apply serves_uri; [done|]. apply serves_header; [done|]. intros out_id _.
  apply serves_header; [done|]. intros in_id _. apply serves_lookup; [done|].
  intros in_ w1 Hi1 _ Hin. apply serves_lookup; [done|]. intros out w2 Hi2 Hq2 Hout.
  destruct in_ as [a|]; [|by apply serves_ret].
  destruct (wi_live sv w2 Hi2 a) as [m Hm]; [by apply Hin|].
  assert (Hset : ∀ stream n, (∀ s, stream = Some s → is_Some (w_streams w2 !! s)) →
    serves [] (setInput a stream n;; mret (web_ok "ok", sv)) w2).
  { intros stream n Hs. eapply serves_good; [apply (good_setInput a m); [apply Hi2|done|done]|].
    intros ? w3 Hw3 Hst _. apply serves_ret. by eapply web_inv_stable. }
  case_bool_decide; [by apply Hset|]. destruct out as [b|]; [|by apply serves_ret].
  destruct (wi_live sv w2 Hi2 b) as [x Hx]; [by apply Hout|].
  apply (serves_bind _ _ _ sv); [done|apply safe_getm; by eexists|]. intros y w3 Hrun _ _.
  rewrite (getm_run b x) in Hrun by done. injection Hrun as <- <-. apply Hset. intros s Hs.
  by apply (own_out_live w2 (wwf_own w2 (wi_wf sv w2 Hi2)) b x (index_header "outidx" rq)).
Qed.

Lemma start_serves sv w : web_inv sv w → serves [KStart] (web_pipeline_start sv) w.
Proof.
  intros Hi. apply (serves_guard _ _ _ sv); [done| |intros; by apply serves_ret].
  apply guarded_pipeline_start; apply Hi.
Qed.
Lemma stop_serves sv w : web_inv sv w → serves [KStop] (web_pipeline_stop sv) w.
Proof.
  intros Hi. apply (serves_guard _ _ _ sv); [done| |intros; by apply serves_ret].
  apply guarded_pipeline_stop; apply Hi.
Qed.

Lemma save_serves e rq sv w : web_inv sv w → serves [] (web_pipeline_slot_save e rq sv) w.
Proof.
  intros Hi. apply (serves_bind _ _ _ sv); [done|apply safe_pipeline_serialize, Hi|].
  intros text w1 _ Hi1 _. apply serves_uri; [done|]. apply serves_header; [done|]. intros idx _.
  cbv zeta. repeat case_match; apply serves_ret; try done. by destruct Hi1.
Qed.
Lemma dump_serves e rq sv w : web_inv sv w → serves [] (web_pipeline_dump e rq sv) w.
Proof.
  intros Hi. apply (serves_bind _ _ _ sv); [done|apply safe_pipeline_serialize, Hi|].
  intros text w1 _ Hi1 _. apply serves_uri; [done|]. by apply serves_ret.
Qed.

(** ** Creating modules *)

(** A module [a] of [w1] that was not there in [w]: nothing is connected to it
    and every other module is as before. *)
Record newborn (w : world) (a : nat) (m : moModule) (w1 : world) : Prop := {
  nb_fresh : w_modules w !! a = None;
  nb_here : w_modules w1 !! a = Some m;
  nb_isolated : isolated w1 m;
  nb_stable : stable w w1;
}.

Lemma factory_create_newborn name w :
  world_wf w →
  ∃ r w1, factory_create factory_init name w = Ok (r, w1) ∧ world_wf w1 ∧
    match r with
    | None => w1 = w ∧ find (short_name name) factory_init = None
    | Some a => ∃ m, newborn w a m w1
    end.
Proof.
  intros Hw. unfold factory_create. destruct (find (short_name name) factory_init) as [c|] eqn:E.
  2: { by exists None, w. }
  apply factory_find_ok in E as [Hok _].
  destruct (construct_spec c w Hok Hw) as (w1 & m & Hrun & Hw1 & Hm & Hin & Hout & _ & Hf & _).
  exists (Some (w_next w)), w1. rewrite bind_run, Hrun. split_and!; [done|done|]. exists m.
  split; [by apply fresh_module|done| |by eapply frame_stable]. split; [done|].
  intros n s st Hs Hst. destruct (s_observers st) as [|b obs] eqn:Hobs; [done|exfalso].
  destruct (observer_has_input w1 s st b Hw1 Hst) as (x & k & Hx & Hk); [rewrite Hobs; by left|].
  destruct (fr_back w (w_next w) w1 Hf b) as [->|[y Hy]]; [by eexists| |].
  - rewrite Hm in Hx. injection Hx as <-. by rewrite Hin in Hk.
  - destruct (fr_mod w (w_next w) w1 Hf b y Hy) as (x' & Hx' & Hkept). simplify_eq.
    rewrite (ports_getInput y x k (kept_ports y x Hkept)) in Hk.
    destruct (wwf_in_live w Hw b y k s Hy Hk) as [st' Hst']. by rewrite (Hout n s Hs) in Hst'.
Qed.

Lemma newborn_quiet w a m w1 w2 :
  newborn w a m w1 → quiet w1 w2 → ∃ m2, newborn w a m2 w2 ∧ ports m2 = ports m.
Proof.
  intros [Hfr Hm [Hin Hout] Hs] Hq. destruct (q_mod w1 w2 Hq a m Hm) as (m2 & Hm2 & Hk & _).
  pose proof (kept_ports m m2 Hk) as Hp. exists m2. split; [|done]. split; [done|done| |].
  - split; [intros n; by rewrite (ports_getInput m)|]. intros n s st Hn Hst.
    rewrite (ports_getOutput m) in Hn by done.
    destruct (quiet_str_inv w1 w2 s st Hq Hst) as (st1 & Hst1 & -> & _). by apply (Hout n s).
  - trans w1; [done|by apply quiet_stable].
Qed.

Lemma delete_newborn w a m w1 :
  world_wf w1 → newborn w a m w1 →
  ∃ w2, delete_module a w1 = Ok (tt, w2) ∧ world_wf w2 ∧ alive w w2.
Proof.
  intros Hw1 [Hfr Hm Hiso Hs].
  destruct (delete_isolated a m m w1 Hw1 Hm Hiso) as (w2 & Hrun & Hw2 & Hmods & _);
    [by eapply (wwf_modules w1 Hw1)|by apply (wwf_cbs w1 Hw1)|done|].
  rewrite put_module_id in Hrun by done. exists w2. split_and!; [done|done|].
  intros b x Hb. rewrite Hmods, lookup_delete_ne; [by apply (stable_alive w w1)|congruence].
Qed.

(** Looking at a new module and deleting it. *)
Lemma inspect_alive {A} (body : M A) w a m w1 :
  world_wf w1 → newborn w a m w1 → safe body w1 →
  ∃ r w2, (r ← body; delete_module a;; mret r) w1 = Ok (r, w2) ∧ world_wf w2 ∧ alive w w2.
Proof.
  intros Hw1 Hn Hb. destruct (Hb Hw1) as (r & w2 & Hrun & Hq).
  destruct (newborn_quiet w a m w1 w2 Hn Hq) as (m2 & Hn2 & _).
  assert (Hw2 : world_wf w2) by (by eapply quiet_wf).
  destruct (delete_newborn w a m2 w2 Hw2 Hn2) as (w3 & Hrun3 & Hw3 & Hl).
  exists r, w3. rewrite bind_run, Hrun. cbv beta iota. rewrite bind_run, Hrun3. done.
Qed.

Lemma safe_plain_ports {A} a m (k : list (string * json) → list (string * json) → M A) w :
  same_ports_at a m w → (∀ ins outs w', quiet w w' → safe (k ins outs) w') →
  safe (ins ← json_port_list "inputs" (getInputCount m) (plain_input a);
        outs ← json_port_list "outputs" (getOutputCount m) (plain_output a);
        k ins outs) w.
Proof.
  intros Hp Hk. apply safe_bind.
  { apply safe_port_list. intros j w2 Hj Hq2. apply (safe_plain_input a m); [|done].
    by eapply same_ports_quiet. }
  intros ins w2 _ Hq2. apply safe_bind; [|intros outs w3 _ Hq3; apply Hk; by trans w2].
  apply safe_port_list. intros j w3 Hj Hq3. apply (safe_plain_output a m); [|done].
  eapply same_ports_quiet; [|done]. by trans w2.
Qed.

(** Undoing the association of binds at the end of a handler. *)
Lemma ports_then_delete {A} a m (f : list (string * json) → list (string * json) → A) w :
  (ins ← json_port_list "inputs" (getInputCount m) (plain_input a);
   outs ← json_port_list "outputs" (getOutputCount m) (plain_output a);
   delete_module a;; mret (f ins outs)) w
  = (r ← (ins ← json_port_list "inputs" (getInputCount m) (plain_input a);
          outs ← json_port_list "outputs" (getOutputCount m) (plain_output a);
          mret (f ins outs)); delete_module a;; mret r) w.
Proof.
  rewrite !bind_run. destruct (json_port_list "inputs" _ _ w) as [[ins w1]|]; [|done].
  rewrite !bind_run. by destruct (json_port_list "outputs" _ _ w1) as [[outs w2]|].
Qed.

Lemma inspect_ports {A} (f : list (string * json) → list (string * json) → A) w a m w1 :
  world_wf w1 → newborn w a m w1 →
  ∃ r w2, (ins ← json_port_list "inputs" (getInputCount m) (plain_input a);
           outs ← json_port_list "outputs" (getOutputCount m) (plain_output a);
           delete_module a;; mret (f ins outs)) w1 = Ok (r, w2)
          ∧ world_wf w2 ∧ alive w w2 ∧ ∃ ins outs, r = f ins outs.
Proof.
  intros Hw1 Hn. rewrite ports_then_delete.
  set (body := (ins ← _; outs ← _; mret (f ins outs)) : M A).
  assert (Hb : safe body w1).
  { apply safe_plain_ports; [by apply same_ports_start, Hn|]. intros; apply safe_ret. }
  destruct (inspect_alive body w a m w1 Hw1 Hn Hb) as (r & w2 & Hrun & Hw2 & Hl).
  exists r, w2. split_and!; [done|done|done|]. rewrite bind_run in Hrun.
  destruct (body w1) as [[r' w']|] eqn:E; [|done].
  assert (r' = r) as ->.
  { rewrite bind_run in Hrun. destruct (delete_module a w') as [[? ?]|]; [|done]. by injection Hrun. }
  unfold body in E. rewrite bind_run in E.
  destruct (json_port_list "inputs" _ _ w1) as [[ins w1']|]; [|done]. rewrite bind_run in E.
  destruct (json_port_list "outputs" _ _ w1') as [[outs w2']|]; [|done].
  injection E as <- <-. eauto.
Qed.

Lemma list_module_alive name w :
  world_wf w → find (short_name name) factory_init ≠ None →
  ∃ r w', list_module factory_init name w = Ok (r, w') ∧ world_wf w' ∧ alive w w'.
Proof.
  intros Hw Hname. destruct (factory_create_newborn name w Hw) as ([a|] & w1 & Hrun & Hw1 & Hr);
    [|by destruct Hr]. destruct Hr as [m Hn].
  unfold list_module. rewrite bind_run, Hrun. cbv beta iota. rewrite bind_run. cbn [deref lift].
  rewrite bind_run, (getm_run a m) by apply Hn. cbv beta iota.
  destruct (inspect_ports (λ ins outs, (m_name m, JObject (json_names m ++ [json_gui m] ++ ins ++ outs)))
    w a m w1 Hw1 Hn) as (r & w2 & Hrun2 & Hw2 & Hl & _). eauto.
Qed.

Lemma map_M_alive {A B} (f : A → M B) l w :
  (∀ a w', a ∈ l → world_wf w' → ∃ r w2, f a w' = Ok (r, w2) ∧ world_wf w2 ∧ alive w' w2) →
  world_wf w → ∃ r w', map_M f l w = Ok (r, w') ∧ world_wf w' ∧ alive w w'.
Proof.
  revert w. induction l as [|a l IH]; intros w Hf Hw; simpl; [exists [], w; by split_and!|].
  destruct (Hf a w ltac:(by left) Hw) as (r & w1 & Hrun & Hw1 & Hl1).
  destruct (IH w1) as (rs & w2 & Hrun2 & Hw2 & Hl2); [intros b w' Hb; apply Hf; by right|done|].
  exists (r :: rs), w2. rewrite bind_run, Hrun. cbv beta iota. rewrite bind_run, Hrun2.
  split_and!; [done|done|]. by trans w1.
Qed.

Lemma factory_list_found name : name ∈ factory_list factory_init → find (short_name name) factory_init ≠ None.
Proof.
  intros Hin. assert (forallb (λ n, bool_decide (find (short_name n) factory_init ≠ None))
    (factory_list factory_init) = true) as H by (vm_compute; reflexivity).
  rewrite forallb_forall in H. specialize (H name). rewrite bool_decide_eq_true in H.
  apply H. by apply list_elem_of_In.
Qed.

Lemma list_serves sv w : web_inv sv w → serves [] (web_factory_list factory_init sv) w.
Proof.
  intros Hi. destruct (map_M_alive (list_module factory_init) (factory_list factory_init) w)
    as (r & w' & Hrun & Hw' & Hl); [|apply Hi|].
  - intros name w' Hn Hw'. apply list_module_alive; [done|]. by apply factory_list_found.
  - eapply serves_run; [|by eapply web_inv_live]. unfold web_factory_list. by rewrite bind_run, Hrun.
Qed.

Lemma describe_serves rq sv w : web_inv sv w → serves [] (web_factory_describe factory_init rq sv) w.
Proof.
  intros Hi. apply serves_uri; [done|]. apply serves_header; [done|]. intros name _.
  destruct (factory_create_newborn name w (wi_wf sv w Hi)) as ([a|] & w1 & Hrun & Hw1 & Hr).
  2: { destruct Hr as [-> _]. apply (serves_run _ _ _ (web_error "invalid name") sv w); [|done]. by rewrite bind_run, Hrun. }
  destruct Hr as [m Hn].
  destruct (json_properties_total (m_properties m)) as [props Hprops];
    [by apply module_printable, (wwf_modules w1 Hw1 a), Hn|].
  set (f := λ ins outs, (RJson (JObject [("success", jint 1); ("message", JString "ok");
                ("describe", JObject (json_names m
                   ++ [("running", jbool (m_is_started m)); json_gui m; ("properties", JObject props)]
                   ++ ins ++ outs))]), sv)).
  destruct (inspect_ports f w a m w1 Hw1 Hn) as (r & w2 & Hrun2 & Hw2 & Hl & ins & outs & ->).
  eapply serves_run; [|by eapply web_inv_live].
  rewrite bind_run, Hrun. cbv beta iota. rewrite bind_run, (getm_run a m) by apply Hn. cbv beta iota.
  rewrite bind_run, Hprops. cbn [lift]. exact Hrun2.
Qed.

Lemma create_serves rq sv w : web_inv sv w → serves [] (web_pipeline_create factory_init rq sv) w.
Proof.
  intros Hi. apply serves_uri; [done|]. apply serves_header; [done|]. intros name _.
  destruct (factory_create_newborn name w (wi_wf sv w Hi)) as ([a|] & w1 & Hrun & Hw1 & Hr).
  2: { destruct Hr as [-> _]. apply (serves_run _ _ _ (web_error "invalid objectname") sv w); [|done]. by rewrite bind_run, Hrun. }
  destruct Hr as [m Hn]. pose proof (web_inv_stable sv w w1 Hw1 (nb_stable w a m w1 Hn) Hi) as Hi1.
  destruct (addElement_good a (sv_pl sv) w1 Hw1) as (pl & w2 & Hrun2 & Hw2 & Hs2 & ->);
    [exists m; apply Hn|apply Hi1|].
  pose proof (web_inv_stable sv w1 w2 Hw2 Hs2 Hi1) as Hi2.
  assert (Ha : is_Some (w_modules w2 !! a)) by (eapply stable_live; [done|]; exists m; apply Hn).
  assert (Hnew : ∀ b, is_Some (w_modules w !! b) → b ≠ a)
    by (intros b Hb ->; rewrite (nb_fresh w a m w1 Hn) in Hb; by destruct Hb).
  set (sv2 := set_pl (with_modules (pl_modules (sv_pl sv) ++ [a]) (sv_pl sv)) sv).
  assert (Hi3 : web_inv sv2 w2).
  { destruct Hi2 as [? ? Hap Hnd Hlv Her Hsk Hsn Hbs]. split; [done|done|..]; simpl.
    - intros [?|Hb%list_elem_of_singleton]%elem_of_app; [done|]. by apply (Hnew (pl_self (sv_pl sv))), Hb; apply Hi.
    - apply NoDup_app. split_and!; [done| |apply NoDup_singleton].
      intros b Hb ->%list_elem_of_singleton. by apply (Hnew a); [apply (wi_live sv w Hi)|].
    - intros b [Hb| ->%list_elem_of_singleton]%elem_of_app; [by apply Hlv|done].
    - done.
    - done.
    - done.
    - intros b Hb. destruct (Hbs b Hb) as [? Hn']. split; [done|]. intros [?| ->%list_elem_of_singleton]%elem_of_app; [done|].
      pose proof (wi_sinks sv w Hi) as Hsw. rewrite Forall_forall in Hsw. destruct (Hsw a Hb) as (x & Hx & _). by apply (Hnew a); [eexists|]. }
  destruct (safe_module_id a w2 Ha Hw2) as (id & w3 & Hrun3 & Hq3).
  apply (serves_run _ _ _ (web_ok id) sv2 w3); [|by eapply web_inv_quiet].
  rewrite bind_run, Hrun. cbv beta iota. rewrite bind_run, Hrun2. cbv beta iota.
  by rewrite bind_run, Hrun3.
Qed.

(** ** Removing a module *)

Lemma elem_of_remove1_ne b a (l : list nat) : NoDup l → b ∈ remove1 a l ↔ b ∈ l ∧ b ≠ a.
Proof.
  induction l as [|c l IH]; intros Hnd; simpl; [set_solver|].
  apply NoDup_cons in Hnd as [Hc Hnd]. case_bool_decide; [set_solver|].
  rewrite elem_of_cons, IH by done. set_solver.
Qed.
Lemma NoDup_remove1 a (l : list nat) : NoDup l → NoDup (remove1 a l).
Proof.
  induction l as [|c l IH]; intros Hnd; simpl; [done|]. apply NoDup_cons in Hnd as [Hc Hnd].
  case_bool_decide; [done|]. apply NoDup_cons. split; [|auto].
  rewrite elem_of_remove1_ne by done. naive_solver.
Qed.

(** [removeElement] only logs: on a module put beside a well-formed world. *)
Lemma removeElement_beside a m m0 pl w :
  world_wf w → w_modules w !! a = Some m0 → module_wf m → cbs_self a m →
  is_Some (w_modules w !! pl_self pl) → pl_self pl ≠ a →
  ∃ m' w', removeElement a pl (put_module a m w)
           = Ok (with_modules (remove1 a (pl_modules pl)) pl, put_module a m' w')
    ∧ module_wf m' ∧ cbs_self a m' ∧ ports m' = ports m ∧ quiet w w' ∧ w_modules w' !! a = Some m0.
Proof.
  intros Hw Hm0 Hm Hcb [x Hx] Hne.
  destruct (log_id_run MO_TRACE a m (put_module a m w)) as (m' & Hrun1 & Hm');
    [apply put_module_lookup|by apply module_props_wf|]. rewrite put_module_twice in Hrun1.
  assert (module_wf m' ∧ cbs_self a m' ∧ ports m' = ports m) as (? & ? & ?).
  { destruct Hm' as [->| ->]; [done|]. split_and!; [by apply property_wf|by apply cbs_self_property|].
    apply property_ports. }
  assert (Hwx : module_wf x ∧ cbs_self (pl_self pl) x)
    by (split; [by eapply (wwf_modules w Hw)|by apply (wwf_cbs w Hw)]).
  destruct (log_id_run MO_TRACE (pl_self pl) x (put_module a m' w)) as (x' & Hrun2 & Hx');
    [rewrite lookup_put_module; by rewrite decide_False|by apply module_props_wf|].
  rewrite <-put_module_comm in Hrun2 by done.
  exists m', (put_module (pl_self pl) x' w). split_and!; [|done..| |].
  - unfold removeElement. rewrite bind_run, Hrun1. cbv beta iota. by rewrite bind_run, Hrun2.
  - destruct Hx' as [->| ->]; [by rewrite put_module_id|].
    eapply quiet_put; [done|apply property_kept|]. intros _.
    split; [by apply property_wf, Hwx|by apply cbs_self_property, Hwx].
  - rewrite lookup_put_module. by rewrite decide_False.
Qed.

(** Everything after the two [stop] calls. *)
Lemma take_out_run a m pl w :
  world_wf w → w_modules w !! a = Some m → is_Some (w_modules w !! pl_self pl) → pl_self pl ≠ a →
  ∃ w', (for_ports (disconnect_input a) (Z.to_nat (getInputCount m)) 0;;
         for_ports (disconnect_output a) (Z.to_nat (getOutputCount m)) 0;;
         pl ← removeElement a pl; delete_module a;; mret pl) w
        = Ok (with_modules (remove1 a (pl_modules pl)) pl, w')
    ∧ world_wf w' ∧ (∀ b, is_Some (w_modules w' !! b) ↔ b ≠ a ∧ is_Some (w_modules w !! b))
    ∧ ∀ b x, b ≠ a → w_modules w !! b = Some x →
      ∃ x', w_modules w' !! b = Some x' ∧ shape x' = shape x ∧ unplugged m x x'.
Proof.
  intros Hw Hm Hself Hne.
  destruct (disconnect_run a m w Hw Hm) as (w1 & m1 & Hrun1 & Hw1 & Hm1 & Hiso & Hout & Hdom1 & Hsh1).
  destruct (removeElement_beside a m m1 pl w1) as (m' & w2 & Hrun2 & Hwf' & Hcb' & Hp' & Hq & Hm1');
    [done|done|by eapply (wwf_modules w Hw)|by apply (wwf_cbs w Hw)|by apply Hdom1|done|].
  assert (Hiso2 : isolated w2 m1).
  { destruct Hiso as [Hin Ho]. split; [done|]. intros n s st Hs Hst.
    destruct (quiet_str_inv w1 w2 s st Hq Hst) as (st1 & Hst1 & -> & _). by apply (Ho n s). }
  destruct (delete_isolated a m1 m' w2) as (w3 & Hrun3 & Hw3 & Hmods & _);
    [by eapply quiet_wf|done|done|done|done| |].
  { intros n. rewrite (ports_getOutput m m' n Hp'). by rewrite Hout. }
  exists w3. split_and!; [|done| |].
  - rewrite bind_run in Hrun1. rewrite bind_run.
    destruct (for_ports (disconnect_input a) _ 0%Z w) as [[[] wx]|]; [|done].
    rewrite bind_run, Hrun1. cbv beta iota. rewrite bind_run, Hrun2. cbv beta iota.
    by rewrite bind_run, Hrun3.
  - intros b. rewrite Hmods, lookup_delete_is_Some. rewrite <-Hdom1.
    split; (intros [? Hb]; split; [done|]); [by apply (q_mod_back w1 w2 Hq)|by eapply quiet_live].
  - intros b x Hb Hx. destruct (Hsh1 b x Hb Hx) as (x1 & Hx1 & E1 & Hu).
    destruct (q_mod w1 w2 Hq b x1 Hx1) as (x2 & Hx2 & Hk & _).
    destruct (quiet_alive w1 w2 Hq b x1 Hx1) as (y & Hy & E2). rewrite Hx2 in Hy. injection Hy as <-.
    exists x2. split_and!; [by rewrite Hmods, lookup_delete_ne|by rewrite E2, E1|].
    intros n. rewrite (ports_getInput x1 x2 n) by apply Hk. apply Hu.
Qed.

(** The id a module answers to. *)
Definition id_text (m : moModule) : res string := asString (property "id" m).1.
Definition named (w : world) (id : string) (a : nat) : Prop :=
  ∃ m, w_modules w !! a = Some m ∧ id_text m = Ok id.
(** [property("id")] has nothing to create. *)
Definition with_ids (w : world) (mods : list nat) : Prop :=
  ∀ b m, b ∈ mods → w_modules w !! b = Some m → is_Some (find "id" (m_properties m)).

(** What [web_pipeline_remove] did.  A request without the name of a module
    changes nothing; nor does one that names no module of the pipeline (asking a
    module for its id gives it an empty one if it has none).  Otherwise the first
    module of that id is gone, and the others live with the inputs that it did not
    feed. *)
Definition removed (rq : request) (sv sv' : server) (r : reply) (w w' : world) : Prop :=
  match rq_uri rq, find_header (rq_query rq) "objectname" with
  | Some _, Some id =>
      r = web_error "object not found" ∧ sv' = sv ∧ quiet w w'
      ∧ (with_ids w (pl_modules (sv_pl sv)) → w' = w) ∧ (∀ b, b ∈ pl_modules (sv_pl sv) → ¬ named w id b)
      ∨ ∃ i a m, pl_modules (sv_pl sv) !! i = Some a ∧ w_modules w !! a = Some m ∧ id_text m = Ok id
          ∧ (∀ j b, j < i → pl_modules (sv_pl sv) !! j = Some b → ¬ named w id b)
          ∧ r = web_ok "ok"
          ∧ sv' = set_pl (with_modules (remove1 a (pl_modules (sv_pl sv))) (sv_pl sv)) sv
          ∧ (∀ b, is_Some (w_modules w' !! b) ↔ b ≠ a ∧ is_Some (w_modules w !! b))
          ∧ ∀ b x, b ≠ a → w_modules w !! b = Some x →
              ∃ x', w_modules w' !! b = Some x' ∧ shape x' = shape x ∧ unplugged m x x'
  | _, _ => (∃ msg, r = web_error msg) ∧ sv' = sv ∧ w' = w
  end.

Lemma quiet_dom w w' b : quiet w w' → is_Some (w_modules w' !! b) ↔ is_Some (w_modules w !! b).
Proof. intros Hq. split; [by apply (q_mod_back w w' Hq)|by apply quiet_live]. Qed.

Lemma property_again k m : (property k (property k m).2).1 = (property k m).1.
Proof. unfold property. destruct (find k (m_properties m)) eqn:E; simpl; [by rewrite E|]. by rewrite find_insert_eq. Qed.

(** Reading an id changes no id. *)
Lemma named_read a x w id b :
  w_modules w !! a = Some x → named (put_module a (property "id" x).2 w) id b ↔ named w id b.
Proof.
  intros Hx. unfold named, id_text. split; intros (m & Hm & Hid); revert Hm; rewrite ?lookup_put_module.
  - case_decide; [|eauto]. subst. intros [= <-]. rewrite property_again in Hid. eauto.
  - intros Hm. case_decide; [|eauto]. subst. simplify_eq. eexists. split; [done|]. by rewrite property_again.
Qed.

Lemma find_by_id_named mods id w r w' :
  find_by_id mods id w = Ok (r, w') →
  match r with
  | Some a => ∃ i, mods !! i = Some a ∧ named w id a ∧ ∀ j b, j < i → mods !! j = Some b → ¬ named w id b
  | None => ∀ b, b ∈ mods → ¬ named w id b
  end ∧ (with_ids w mods → w' = w).
Proof.
  revert w. induction mods as [|b mods IH]; intros w; simpl; [intros [= <- <-]; split; [set_solver|done]|].
  rewrite bind_run. destruct (w_modules w !! b) as [x|] eqn:Hx.
  2: { unfold property_of, getm. by rewrite bind_run, Hx. }
  rewrite (property_of_run b "id" x), bind_run by done. fold (id_text x).
  set (w1 := put_module b (property "id" x).2 w).
  assert (Hsame : with_ids w (b :: mods) → w1 = w).
  { intros H. destruct (H b x ltac:(by left) Hx) as [p Hp]. unfold w1, property. rewrite Hp. by apply put_module_id. }
  destruct (id_text x) as [s|] eqn:Es; [|done]. cbn [lift]. case_bool_decide as E.
  - intros [= <- <-]. split; [|done]. subst. exists 0. split_and!; [done|by exists x|lia].
  - intros Hrun. destruct (IH w1 Hrun) as [Hr Hw].
    assert (Hb : ¬ named w id b) by (intros (y & Hy & Hid); congruence).
    split.
    + destruct r as [a|].
      * destruct Hr as (i & Hi & Hn & Hfirst). exists (S i). split_and!; [done|by apply (named_read b x w)|].
        intros [|j] c Hj; simpl; [by intros [= <-]|]. intros Hc. rewrite <-(named_read b x w) by done.
        apply (Hfirst j); [lia|done].
      * intros c [->|Hc]%elem_of_cons; [done|]. rewrite <-(named_read b x w) by done. by apply Hr.
    + intros Hids. rewrite Hw; [by apply Hsame|]. rewrite (Hsame Hids). intros c m Hc. apply Hids. by right.
Qed.

Lemma unplugged_ports m m1 x x1 y :
  ports m1 = ports m → ports x1 = ports x → unplugged m1 x1 y → unplugged m x y.
Proof.
  intros Hm Hx Hu n. specialize (Hu n). rewrite (ports_getInput x x1 n Hx) in Hu.
  assert (Ho : ∀ k, getOutput k m1 = getOutput k m) by (intros; by apply ports_getOutput).
  destruct (getInput n x); [|done]. destruct Hu as [[? [k Hk]]|[? Hk]]; [left|right]; (split; [done|]).
  - exists k. by rewrite <-Ho.
  - intros k. rewrite <-Ho. apply Hk.
Qed.

Lemma remove_module_run rq id sv w :
  web_inv sv w → is_Some (rq_uri rq) → find_header (rq_query rq) "objectname" = Some id →
  yields (blamed [KStop]) (a ← getModuleById id (sv_pl sv);
    match a with
    | None => mret (web_error "object not found", sv)
    | Some a =>
        pipeline_stop (sv_pl sv);; v_stop a;; m ← getm a;
        for_ports (disconnect_input a) (Z.to_nat (getInputCount m)) 0;;
        for_ports (disconnect_output a) (Z.to_nat (getOutputCount m)) 0;;
        pl ← removeElement a (sv_pl sv); delete_module a;; mret (web_ok "ok", set_pl pl sv)
    end) w (λ rs w', web_inv rs.2 w' ∧ removed rq sv rs.2 rs.1 w w').
Proof.
  intros Hi [u Hu] Hid. unfold removed. rewrite Hu, Hid. pose proof (wi_live sv w Hi) as Hl.
  destruct (safe_find_by_id (pl_modules (sv_pl sv)) id w Hl (wi_wf sv w Hi)) as (o & w1 & Hrun1 & Hq1).
  pose proof (web_inv_quiet sv w w1 Hq1 Hi) as Hi1.
  destruct (find_by_id_named _ _ _ _ _ Hrun1) as [Hname Hsame].
  eapply (yields_after _); [exact Hrun1|by apply quiet_alive|]. destruct o as [a|].
  2: { eapply yields_run; [done|]. split; [done|]. left. by split_and!. }
  apply find_by_id_elem in Hrun1 as Ha.
  eapply (yields_bind _); [apply guarded_pipeline_stop; apply Hi1|]. intros [] w2 _ Hq2.
  split; [by apply quiet_alive|]. pose proof (web_inv_quiet sv w1 w2 Hq2 Hi1) as Hi2.
  eapply (yields_bind _); [apply (guarded_call [KStop] (CallStop a)); [by apply (wi_live sv w2 Hi2)|by left|apply Hi2]|].
  intros [] w3 _ Hq3. split; [by apply quiet_alive|].
  pose proof (web_inv_quiet sv w2 w3 Hq3 Hi2) as Hi3.
  destruct (wi_live sv w3 Hi3 a Ha) as [m3 Hm].
  assert (pl_self (sv_pl sv) ≠ a) as Hne by (intros E; apply (wi_apart sv w Hi); by rewrite E).
  destruct (take_out_run a m3 (sv_pl sv) w3 (wi_wf sv w3 Hi3) Hm (wi_self sv w3 Hi3) Hne)
    as (w4 & Hrun4 & Hw4 & Hdom & Hoth).
  assert (Hq : quiet w w3) by (trans w1; [done|]; by trans w2).
  eapply (yields_after _); [by apply (getm_run a m3)|done|].
  eapply (yields_run _ _ _ _ (web_ok "ok", set_pl _ sv) w4).
  - rewrite bind_run in Hrun4. rewrite bind_run.
    destruct (for_ports (disconnect_input a) _ 0%Z w3) as [[[] wx]|]; [|done].
    rewrite bind_run in Hrun4. rewrite bind_run.
    destruct (for_ports (disconnect_output a) _ 0%Z wx) as [[[] wy]|]; [|done].
    rewrite bind_run in Hrun4. rewrite bind_run.
    destruct (removeElement a (sv_pl sv) wy) as [[pl' wz]|]; [|done].
    rewrite bind_run in Hrun4. rewrite bind_run. destruct (delete_module a wz) as [[[] wt]|]; [|done].
    injection Hrun4 as -> ->. reflexivity.
  - cbn [fst snd]. split; [|right; destruct Hname as (i & Hi' & (m & Hma & Hmid) & Hfirst); exists i, a, m].
    + destruct Hi3 as [_ Hs Hap Hnd Hlv Her Hsk Hsn Hbs]. split; [done|..]; simpl.
      * by apply Hdom.
      * intros Hin%elem_of_remove1. done.
      * by apply NoDup_remove1.
      * intros b [Hb Hba]%elem_of_remove1_ne; [|done]. apply Hdom. auto.
      * done.
      * rewrite Forall_forall in Hsk |- *. intros b Hb. destruct (Hsk b Hb) as (x & Hx & Hsx).
        destruct (Hoth b x) as (x' & Hx' & E & _); [|done|exists x'; split; [done|congruence]].
        intros ->. by destruct (Hbs a Hb) as [_ []].
      * done.
      * intros b Hb. destruct (Hbs b Hb) as [? Hn]. split; [done|]. by intros ?%elem_of_remove1.
    + split_and!; [done..|intros b; rewrite Hdom; by rewrite (quiet_dom w w3)|].
      intros b x Hb Hx. destruct (q_mod w w3 Hq b x Hx) as (x3 & Hx3 & Hk & _).
      destruct (quiet_alive w w3 Hq b x Hx) as (y & Hy & E). destruct (q_mod w w3 Hq a m Hma) as (m' & Hm' & Hkm & _).
      rewrite Hx3 in Hy. injection Hy as <-. rewrite Hm in Hm'. injection Hm' as <-.
      destruct (Hoth b x3 Hb Hx3) as (x' & Hx' & E' & Hun). exists x'. split_and!; [done|by rewrite E', E|].
      eapply unplugged_ports; [apply Hkm|apply Hk|done].
Qed.

Lemma remove_serves rq sv w : web_inv sv w → serves [KStop] (web_pipeline_remove rq sv) w.
Proof.
  intros Hi. unfold web_pipeline_remove, with_uri. destruct (rq_uri rq) as [u|] eqn:Hu; [|by apply serves_ret].
  apply serves_header; [done|]. intros id Hid.
  eapply yields_impl; [by apply (remove_module_run rq id sv w Hi (mk_is_Some _ _ Hu))|done|]. by intros [r sv'] w' _ [? _].
Qed.

(** ** The interface of a module *)

Lemma find_by_id_caps mods id w r w' :
  find_by_id mods id w = Ok (r, w') →
  ∀ a m', w_modules w' !! a = Some m' → ∃ m, w_modules w !! a = Some m ∧ m_capabilities m' = m_capabilities m.
Proof.
  revert w. induction mods as [|b mods IH]; intros w; simpl; [intros [= _ <-]; eauto|].
  rewrite bind_run. destruct (w_modules w !! b) as [x|] eqn:Hx.
  2: { unfold property_of, getm. rewrite bind_run, Hx. done. }
  rewrite (property_of_run b "id" x) by done. rewrite bind_run.
  assert (Hput : ∀ a m', w_modules (put_module b (property "id" x).2 w) !! a = Some m' →
    ∃ m, w_modules w !! a = Some m ∧ m_capabilities m' = m_capabilities m).
  { intros a m'. rewrite lookup_put_module. case_decide; [|eauto]. subst. intros [= <-]. exists x.
    split; [done|]. unfold property. by destruct (find "id" (m_properties x)). }
  destruct (asString _) as [s|]; [|done]. cbn [lift]. case_bool_decide; [by intros [= _ <-]|].
  intros Hrun a m' Hm'. destruct (IH _ Hrun a m' Hm') as (m1 & Hm1 & ->). by apply Hput.
Qed.

(** The request names a module without an interface. *)
Definition gui_missing (rq : request) (sv : server) (w : world) : Prop :=
  ∃ id a m, find_header (rq_query rq) "objectname" = Some id ∧ a ∈ pl_modules (sv_pl sv)
    ∧ w_modules w !! a = Some m ∧ id_text m = Ok id ∧ has_cap MO_MODULE_GUI m = false.

Lemma gui_outcome rq sv w :
  web_inv sv w → rq_uri rq ≠ None →
  serves [KGuiBuild] (web_pipeline_gui rq sv) w
  ∨ web_pipeline_gui rq sv w = Fault FAssert ∧ gui_missing rq sv w.
Proof.
  intros Hi Hu. unfold web_pipeline_gui. destruct (rq_uri rq) as [u|] eqn:E; [|done].
  unfold with_header. destruct (find_header _ _) as [id|] eqn:Hid.
  2: { left. by apply (serves_run _ _ _ (web_error "missing objectname") sv w). }
  unfold getModuleById.
  destruct (safe_find_by_id (pl_modules (sv_pl sv)) id w (wi_live sv w Hi) (wi_wf sv w Hi))
    as (o & w1 & Hrun & Hq). pose proof (web_inv_quiet sv w w1 Hq Hi) as Hi1.
  destruct o as [a|].
  2: { left. apply (serves_run _ _ _ (web_error "object not found") sv w1); [|done].
       rewrite bind_run. cbn [deref lift]. by rewrite bind_run, Hrun. }
  pose proof (find_by_id_elem _ _ _ _ _ Hrun) as Ha. destruct (wi_live sv w1 Hi1 a Ha) as [m Hm].
  destruct (has_cap MO_MODULE_GUI m) eqn:Hcap.
  - left. eapply (yields_after _); [done|done|].
    eapply (yields_after _); [exact Hrun|by apply quiet_alive|]. eapply (serves_guard _ _ _ sv); [done| |].
    + by apply (guarded_getGui _ a m); [left|..].
    + intros gui w2 _ Hi2 _. by apply serves_ret.
  - right. split.
    + rewrite bind_run. cbn [deref lift]. rewrite bind_run, Hrun. cbv beta iota. unfold getGui. rewrite bind_run, bind_run, (getm_run a m) by done.
      cbv beta iota. rewrite bind_run, Hcap. done.
    + destruct (find_by_id_caps _ _ _ _ _ Hrun a m Hm) as (m0 & Hm0 & Hc).
      destruct (find_by_id_named _ _ _ _ _ Hrun) as [(i & _ & (m1 & Hm1 & Hmid) & _) _]. simplify_eq.
      exists id, a, m0. split_and!; try done. unfold has_cap, getCapabilities in *. by rewrite <-Hc.
Qed.

(** ** Image streams *)

(** A new stream: its module was not there, and is nowhere else. *)
Lemma web_inv_open sv w w' a closed delay :
  web_inv sv w → world_wf w' → alive w w' → w_modules w !! a = None → sink w' a →
  web_inv (set_streams (sv_streams sv ++ [{| cs_stream := a; cs_closed := closed; cs_delay := delay |}]) sv) w'.
Proof.
  intros Hi Hw' Hl Ha Hsk. destruct (web_inv_live sv w w' Hw' Hl Hi) as [? ? Hap Hnd Hlv Her Hsks Hsn Hbs].
  assert (Hnew : ∀ b, is_Some (w_modules w !! b) → b ≠ a) by (intros b Hb ->; rewrite Ha in Hb; by destruct Hb).
  split; try done; unfold streams in *; simpl; rewrite fmap_app; simpl.
  - by apply Forall_app, conj, Forall_singleton.
  - apply NoDup_app. split_and!; [done| |apply NoDup_singleton]. intros b Hb ->%list_elem_of_singleton.
    pose proof (wi_sinks sv w Hi) as Hs. rewrite Forall_forall in Hs. destruct (Hs a Hb) as (m & Hm & _). congruence.
  - intros b [Hb| ->%list_elem_of_singleton]%elem_of_app; [by apply Hbs|]. split.
    + intros E. apply (Hnew (pl_self (sv_pl sv))); [apply Hi|done].
    + intros Hin. by apply (Hnew a); [apply (wi_live sv w Hi)|].
Qed.

Lemma stream_serves rq sv w : web_inv sv w → serves [] (web_pipeline_stream rq sv) w.
Proof.
  intros Hi. apply serves_uri; [done|]. apply serves_header; [done|]. intros id _.
  apply serves_lookup; [done|]. intros [b|] w1 Hi1 _ Hb; [|by apply serves_ret].
  destruct (wi_live sv w1 Hi1 b) as [m Hm]; [by apply Hb|].
  eapply (yields_after _); [by apply (getm_run b m)|done|]. cbv zeta.
  destruct (_ || _)%bool; [by apply serves_ret|]. pose proof (wi_wf sv w1 Hi1) as Hw1.
  destruct (make_stream_run (find_header (rq_query rq) "scale") w1) as (pid & scale & ? & ? & ? & ? & Hmake).
  set (w2 := upd_w_idcount _ w1) in Hmake. change (w_next w1) with (w_next w2) in Hmake.
  assert (Hq : quiet w1 w2) by (by apply quiet_same). assert (Hw2 : world_wf w2) by (by eapply quiet_wf).
  assert (Hstr : ∀ s, getOutput (index_header "index" rq) m = Some s →
    is_Some (w_streams (stream_world pid scale w2) !! s)).
  { intros s Hs. apply stream_world_streams. by apply (own_out_live w1 (wwf_own w1 Hw1) b m (index_header "index" rq)). }
  destruct (good_setInput (w_next w2) _ (getOutput (index_header "index" rq) m) 0 _
    (stream_world_wf pid scale w2 Hw2 ltac:(done) ltac:(done) ltac:(done) ltac:(done))
    (stream_world_module pid scale w2) Hstr) as ([] & w3 & Hset & Hw3 & Hst & _).
  assert (Hall : alive w1 w3).
  { trans w2; [by apply quiet_alive|]. apply stable_alive. trans (stream_world pid scale w2); [|done].
    by apply stream_world_stable. }
  destruct (new_otStreamModule w1) as [[a wa]|] eqn:Hnew; rewrite bind_run, Hnew in Hmake; [|done].
  cbv beta iota in Hmake. rewrite bind_run in Hmake.
  destruct (match find_header _ _ with Some v => set_property_string a "scale" v | None => skip end wa)
    as [[[] wb]|] eqn:Hscale; [|done]. injection Hmake as -> ->.
  eapply serves_run; [|apply (web_inv_open sv w1 w3 (w_next w2)); [done|done|done|exact (fresh_module w1 Hw1)|]].
  - rewrite bind_run, Hnew. cbv beta iota. rewrite bind_run, Hscale. cbv beta iota.
    rewrite bind_run, (getm_run b m) by (by apply stray_world_other). cbv beta iota.
    rewrite <-(stray_setInput pid scale) in Hset. rewrite bind_run.
    change (setInput (w_next w1)) with (setInput (w_next w2)). by rewrite Hset.
  - destruct (Hst _ _ (stream_world_module pid scale w2)) as (x & Hx & _ & Hsx). exists x. split; [done|].
    rewrite Hsx. by apply stream_module_wf.
Qed.

Lemma close_inv n sv w : web_inv sv w → web_inv (web_pipeline_stream_close n sv) w.
Proof.
  intros []. assert (E : streams (web_pipeline_stream_close n sv) = streams sv).
  { unfold streams, web_pipeline_stream_close. simpl. apply list_eq. intros i. rewrite !list_lookup_fmap.
    destruct (decide (n = i)) as [->|]; [rewrite list_lookup_alter_eq|by rewrite list_lookup_alter_ne].
    by destruct (sv_streams sv !! i). }
  split; try done; by rewrite E.
Qed.

(** The timer of a stream: nothing, or the module of a closed stream is gone
    and the stream with it. *)
Lemma end_run n sv w :
  web_inv sv w →
  ∃ sv' w', web_pipeline_stream_end n sv w = Ok (sv', w') ∧ web_inv sv' w'
    ∧ (sv' = sv ∧ w' = w ∨ ∃ st, sv_streams sv !! n = Some st ∧ cs_closed st = true
         ∧ sv' = set_streams (delete n (sv_streams sv)) sv
         ∧ w_modules w' = delete (cs_stream st) (w_modules w)).
Proof.
  intros Hi. unfold web_pipeline_stream_end. destruct (sv_streams sv !! n) as [st|] eqn:Hn;
    [|exists sv, w; split_and!; by try left].
  destruct (cs_closed st) eqn:Hc; [|exists sv, w; split_and!; by try left].
  destruct Hi as [Hw Hs Hap Hnd Hlv Her Hsk Hsn Hbs]. set (a := cs_stream st).
  assert (Hin : streams sv !! n = Some a) by (unfold streams; by rewrite list_lookup_fmap, Hn).
  assert (Hdel : streams (set_streams (delete n (sv_streams sv)) sv) = delete n (streams sv))
    by (unfold streams; simpl; apply list_fmap_delete).
  assert (Hrest : ∀ b, b ∈ delete n (streams sv) → b ∈ streams sv ∧ b ≠ a).
  { rewrite <-(take_drop_middle _ _ _ Hin) in Hsn. apply NoDup_app in Hsn as (_ & Hta & Hd).
    apply NoDup_cons in Hd as [Hda _]. rewrite delete_take_drop.
    intros b [Hb|Hb]%elem_of_app; rewrite <-(take_drop_middle _ _ _ Hin), elem_of_app, elem_of_cons; (split; [tauto|]).
    - intros ->. apply (Hta a Hb). by left.
    - by intros ->. }
  pose proof Hsk as Hsk'. rewrite Forall_forall in Hsk'.
  destruct (Hsk' a) as (m & Hm & Hsh); [by eapply list_elem_of_lookup_2|].
  destruct (close_stream_run a m w Hw Hm Hsh) as (w' & Hrun & Hw' & Hmods).
  assert (Hkeep : ∀ b, b ≠ a → w_modules w' !! b = w_modules w !! b) by (intros; rewrite Hmods; by apply lookup_delete_ne).
  destruct (Hbs a) as [Hna Hma]; [by eapply list_elem_of_lookup_2|].
  exists (set_streams (delete n (sv_streams sv)) sv), w'. split_and!.
  - rewrite bind_run in Hrun. rewrite bind_run. destruct (setInput a None 0 w) as [[[] w1]|]; [|done].
    by rewrite bind_run, Hrun.
  - split; simpl; [done|by rewrite Hkeep|done|done| |done|..]; rewrite ?Hdel.
    + intros b Hb. rewrite Hkeep; [by apply Hlv|]. by intros ->.
    + apply Forall_forall. intros b [Hb Hne]%Hrest. destruct (Hsk' b Hb) as (x & Hx & ?). exists x.
      by rewrite Hkeep.
    + by eapply sublist_NoDup, sublist_delete.
    + intros b [Hb _]%Hrest. by apply Hbs.
  - right. by exists st.
Qed.

(** ** Any request *)

Definition path_of (rq : request) : string := before_query (default EmptyString (rq_uri rq)).

(** The methods of the classes that a request makes the program call. *)
Definition may_call (path : string) : list vkind :=
  if bool_decide (path = "/pipeline/start") then [KStart]
  else if bool_decide (path = "/pipeline/stop" ∨ path = "/pipeline/remove") then [KStop]
  else if bool_decide (path = "/pipeline/set") then [KGuiFeedback; KCallback]
  else if bool_decide (path = "/pipeline/gui") then [KGuiBuild]
  else [].

Definition served (rq : request) (sv : server) (w : world) (x : res (reply * server * world)) : Prop :=
  match x with
  | Ok (r, sv', w') => web_inv sv' w'
  | Fault f => f = FAssert ∧ path_of rq = "/pipeline/gui" ∧ gui_missing rq sv w
               ∨ blamed (may_call (path_of rq)) w f
  end.

Lemma serves_served rq sv K x w : serves K x w → K ⊆ may_call (path_of rq) → served rq sv w (x w).
Proof.
  unfold serves, yields, served. intros Hx HK. destruct (x w) as [[[r sv'] w']|f]; [done|]. right.
  by eapply blamed_sub.
Qed.

Lemma serve_any e rq sv w :
  web_inv sv w → path_of rq ≠ "/pipeline/slot/load" → served rq sv w (serve e factory_init rq sv w).
Proof.
  intros Hi Hload. unfold serve. fold (path_of rq).
  assert (Hquiet : ∀ x, serves [] x w → served rq sv w (x w))
    by (intros x Hx; eapply serves_served; [exact Hx|apply list_subseteq_nil]).
  assert (Hcall : ∀ K x, serves K x w → may_call (path_of rq) = K → served rq sv w (x w))
    by (intros K x Hx <-; by eapply serves_served).
  assert (Hret : ∀ r, serves [] (mret (r, sv)) w) by (intros; by apply serves_ret).
  unfold routes. cbn [route].
  case_bool_decide; [apply Hquiet, Hret|].
  case_bool_decide; [by apply Hquiet, list_serves|].
  case_bool_decide; [by apply Hquiet, describe_serves|].
  case_bool_decide; [by apply Hquiet, create_serves|].
  case_bool_decide as E; [by eapply Hcall; [apply remove_serves|rewrite <-E]|].
  case_bool_decide; [by apply Hquiet, status_serves|].
  case_bool_decide; [by apply Hquiet, connect_serves|].
  case_bool_decide as E1; [by eapply Hcall; [apply set_serves|rewrite <-E1]|].
  case_bool_decide; [by apply Hquiet, get_serves|].
  case_bool_decide as Hg.
  { destruct (gui_outcome rq sv w Hi) as [Hs|[-> Hm]]; [|by eapply Hcall; [|rewrite <-Hg]|by left].
    intros E2. unfold path_of in Hg. by rewrite E2 in Hg. }
  case_bool_decide; [by apply Hquiet, stream_serves|].
  case_bool_decide as E2; [by eapply Hcall; [apply start_serves|rewrite <-E2]|].
  case_bool_decide as E3; [by eapply Hcall; [apply stop_serves|rewrite <-E3]|].
  case_bool_decide; [apply Hquiet, serves_ret; by destruct Hi|].
  case_bool_decide; [by apply Hquiet, dump_serves|].
  case_bool_decide; [by apply Hquiet, stats_serves|].
  case_bool_decide; [apply Hquiet, Hret|].
  case_bool_decide; [congruence|].
  case_bool_decide; [by apply Hquiet, save_serves|]. apply Hquiet, Hret.
Qed.

(** ** The main loop *)

Lemma guarded_pipeline_poll pl w :
  is_Some (w_modules w !! pl_self pl) → all_live w (pl_modules pl) → guarded (blamed [KPoll]) (pipeline_poll pl) w.
Proof.
  intros Hs Hl. apply guarded_bind; [apply _|by apply guarded_safe, safe_log|]. intros _ w1 _ Hq1.
  apply guarded_for_each; [apply _|]. intros a w2 Ha Hq2.
  apply (guarded_call [KPoll] (CallPoll a)); [|by left]. eapply quiet_live; [|by apply Hl]. by trans w1.
Qed.

Lemma main_poll_run fuel test sv w :
  web_inv sv w → length (pl_modules (sv_pl sv)) < fuel →
  yields (blamed [KPoll]) (main_poll fuel test sv) w (λ o w',
    ∃ sv', o = Some sv' ∧ web_inv sv' w' ∧ quiet w w' ∧ (sv' = sv ∨ test = true ∧ sv' = set_quit true sv)).
Proof.
  intros Hi Hfuel. destruct (wi_self sv w Hi) as [self Hself]. unfold main_poll.
  eapply (yields_after _); [by apply (getm_run _ self)|done|].
  destruct (m_is_started self); [|eapply yields_run; [done|]; exists sv; split_and!; by try left].
  eapply (yields_bind _); [apply guarded_pipeline_poll; apply Hi|]. intros [] w1 _ Hq1.
  split; [by apply quiet_alive|]. pose proof (web_inv_quiet sv w w1 Hq1 Hi) as Hi1.
  pose proof (erroneous_length w1 (pl_modules (sv_pl sv))).
  destruct (drain_errors_run (sv_pl sv) fuel w1) as (msgs & w2 & Hrun2 & _ & _ & Hq2);
    [apply Hi1..|lia|]. pose proof (web_inv_quiet sv w1 w2 Hq2 Hi1) as Hi2.
  eapply (yields_after _); [exact Hrun2|by apply quiet_alive|]. assert (Hq : quiet w w2) by (by trans w1).
  destruct msgs as [|e msgs]; [eapply yields_run; [done|]; by exists sv; split_and!; try left|].
  destruct test; [|eapply yields_run; [done|]; by exists sv; split_and!; try left].
  eapply yields_run; [done|]. exists (set_quit true sv). split_and!; [done|by destruct Hi2|done|by right].
Qed.
End Handlers.

(** ** Properties *)

(** C2: whatever a client asks for, with any query, the server answers and its
    invariant still holds: the graph is well formed (no dangling connection, no
    module observing a stream it is not connected to), and the pipeline's
    modules are live and listed once.  The only faults a request can cause are the
    assertion of [getGui], by naming a module of the pipeline that has no interface,
    and the fault of a method that the class of a live module overrides and that the
    request calls: [start] for /pipeline/start (a camera that runs asserts), [stop]
    for /pipeline/stop and /pipeline/remove, the callbacks and [guiFeedback] for
    /pipeline/set, [guiBuild] for /pipeline/gui, none for the others.  Of the classes
    it is only assumed that a method that returns has not rewired the graph
    ([VirtualLaws]).  /pipeline/slot/load is not covered: it deletes modules that are
    still connected. *)
Theorem serve_safe (V : Virtuals) (VL : VirtualLaws V) (e : env) (rq : request) (sv : server) (w : world) :
  web_inv sv w → path_of rq ≠ "/pipeline/slot/load" →
  match serve e factory_init rq sv w with
  | Ok (r, sv', w') => web_inv sv' w'
  | Fault f => f = FAssert ∧ path_of rq = "/pipeline/gui" ∧ gui_missing rq sv w
               ∨ blamed (may_call (path_of rq)) w f
  end.
Proof. apply serve_any. Qed.

(** A server on the demo world: module 1 is the pipeline. *)
Definition demo_server : server := {| sv_pl := demo_pipeline; sv_quit := false; sv_files := ∅; sv_streams := [] |}.
Definition demo_env : env :=
  {| e_date := "today"; e_now := 0; e_writable := λ _, true; e_guidir := "gui/html"; e_read := λ _, Missing |}.
Definition ask (path : string) (query : list (string * string)) : request :=
  {| rq_uri := Some path; rq_query := query |}.

Lemma demo_server_inv : web_inv demo_server demo_world.
Proof.
  split; [exact demo_world_wf|by eexists|apply not_elem_of_nil|constructor|by intros a ?%elem_of_nil|done|constructor|constructor|by intros a ?%elem_of_nil].
Qed.

(** ** The main loop as a state machine *)

(** A turn: the pipeline is polled, a request is answered (the machine's
    files and dates may differ each time), a client leaves its image stream,
    the timer of a stream runs, or time passes. *)
Inductive turn {V : Virtuals} : server * world → server * world → Prop :=
  | turn_poll test sv w sv' w' :
      main_poll (S (length (pl_modules (sv_pl sv)))) test sv w = Ok (Some sv', w') →
      turn (sv, w) (sv', w')
  | turn_request e rq r sv w sv' w' :
      path_of rq ≠ "/pipeline/slot/load" → serve e factory_init rq sv w = Ok (r, sv', w') →
      turn (sv, w) (sv', w')
  | turn_close n sv w : turn (sv, w) (web_pipeline_stream_close n sv, w)
  | turn_end n sv w sv' w' :
      web_pipeline_stream_end n sv w = Ok (sv', w') → turn (sv, w) (sv', w')
  | turn_time now sv w : turn (sv, w) (sv, upd_w_now (λ _, now) w).

Lemma turn_inv {V : Virtuals} {VL : VirtualLaws V} s s' :
  turn s s' → web_inv s.1 s.2 → web_inv s'.1 s'.2.
Proof.
  destruct 1 as [test sv w sv' w' Hrun|e rq r sv w sv' w' Hp Hrun|n sv w|n sv w sv' w' Hrun|now sv w]; simpl; intros Hi.
  - pose proof (main_poll_run _ test sv w Hi (Nat.lt_succ_diag_r _)) as H. unfold yields in H. rewrite Hrun in H.
    by destruct H as (sv2 & [= <-] & ? & _).
  - pose proof (serve_any e rq sv w Hi Hp) as H. by rewrite Hrun in H.
  - by apply close_inv.
  - destruct (end_run n sv w Hi) as (sv2 & w2 & Hrun2 & Hi2 & _). rewrite Hrun in Hrun2. by injection Hrun2 as -> ->.
  - eapply web_inv_quiet; [|done]. by apply quiet_same.
Qed.

Lemma turns_inv {V : Virtuals} {VL : VirtualLaws V} sv w sv' w' :
  rtc turn (sv, w) (sv', w') → web_inv sv w → web_inv sv' w'.
Proof.
  intros Ht Hi. change (web_inv (sv', w').1 (sv', w').2).
  apply (rtc_ind_r (R := turn) (λ s, web_inv s.1 s.2) (sv, w)); [done| |done].
  intros s1 s2 _ H12 IH. by apply (turn_inv s1).
Qed.

(** The state in which [main] enters its loop when no pipeline is given. *)
Definition fresh_server (pl : moPipeline) : server := {| sv_pl := pl; sv_quit := false; sv_files := ∅; sv_streams := [] |}.

Lemma fresh_server_inv {V : Virtuals} :
  ∃ pl w, new_pipeline world0 = Ok (pl, w) ∧ web_inv (fresh_server pl) w.
Proof.
  assert (class_ok moPipeline_class = true) as Hok by (vm_compute; reflexivity).
  destruct (construct_spec moPipeline_class world0 Hok world0_wf) as (w & m & Hrun & Hw & Hm & _).
  eexists _, w. split; [unfold new_pipeline; by rewrite bind_run, Hrun|].
  split; simpl; [done|by eexists|apply not_elem_of_nil|constructor|by intros a ?%elem_of_nil|done|constructor|constructor|by intros a ?%elem_of_nil].
Qed.

(** C10: started with the web server and no pipeline file, the program only
    reaches states where the invariant holds, through any sequence of polls,
    closed and expired streams and requests other than /pipeline/slot/load (which
    deletes connected modules, and leaves an error that is reported for ever when
    the slot is missing, [drain_errors_diverges]); and from each of them the next
    poll returns, error loop included, unless the [poll] of a class stops by a fault
    of its own.  Of the classes it is only assumed that a method that returns has
    not rewired the graph ([VirtualLaws]). *)
Theorem reachable_safe (V : Virtuals) (VL : VirtualLaws V) (c : config) (read : string → option string)
    (pl : moPipeline) (w0 : world) (sv : server) (w : world) (test : bool) :
  config_pipelinefn c = EmptyString → config_httpserver c = true →
  main_start factory_init read c world0 = Ok (Some pl, w0) →
  rtc turn (fresh_server pl, w0) (sv, w) →
  web_inv sv w
  ∧ match main_poll (S (length (pl_modules (sv_pl sv)))) test sv w with
    | Ok (o, w') => ∃ sv', o = Some sv' ∧ web_inv sv' w'
    | Fault f => blamed [KPoll] w f
    end.
Proof.
  intros Hfn Hhttp Hstart Hturns.
  assert (Hi : web_inv sv w).
  { destruct fresh_server_inv as (pl' & w0' & Hnew & Hi0).
    unfold main_start in Hstart. rewrite Hfn, Hhttp, bool_decide_false in Hstart by tauto.
    rewrite bind_run, Hnew in Hstart. injection Hstart as <- <-.
    by eapply turns_inv. }
  split; [done|].
  pose proof (main_poll_run (S (length (pl_modules (sv_pl sv)))) test sv w Hi (Nat.lt_succ_diag_r _)) as H.
  unfold yields in H. destruct (main_poll _ test sv w) as [[o w']|f]; [|done].
  destruct H as (sv' & ? & ? & _). eauto.
Qed.

(** What a short session leaves: two modules created, connected and started. *)
Definition session : list request :=
  [ask "/pipeline/create" [("objectname", "Image")]; ask "/pipeline/create" [("objectname", "Smooth")];
   ask "/pipeline/connect" [("out", "Image1"); ("in", "Smooth2")]; ask "/pipeline/start" []].

Section Sessions.
Context {V : Virtuals} {VL : VirtualLaws V}.

Fixpoint serve_list (l : list request) (sv : server) : M server :=
  match l with
  | [] => mret sv
  | rq :: l => r ← serve demo_env factory_init rq sv; serve_list l r.2
  end.
Definition run_session (l : list request) : res (server * world) :=
  (pl ← new_pipeline; serve_list l (fresh_server pl)) world0.

Lemma serve_list_turns l sv w sv' w' :
  forallb (λ rq, negb (bool_decide (path_of rq = "/pipeline/slot/load"))) l = true →
  serve_list l sv w = Ok (sv', w') → rtc turn (sv, w) (sv', w').
Proof.
  revert sv w. induction l as [|rq l IH]; intros sv w; simpl; [intros _ [= <- <-]; apply rtc_refl|].
  intros [Hp Hl]%andb_true_iff. apply negb_true_iff, bool_decide_eq_false in Hp. rewrite bind_run.
  destruct (serve _ _ rq sv w) as [[[r sv1] w1]|] eqn:E; [|done]. intros Hrun. simpl in Hrun.
  eapply rtc_l; [by eapply turn_request|by apply IH].
Qed.

Lemma session_inv l sv w :
  forallb (λ rq, negb (bool_decide (path_of rq = "/pipeline/slot/load"))) l = true →
  run_session l = Ok (sv, w) → web_inv sv w.
Proof.
  intros Hl Hrun. destruct fresh_server_inv as (pl & w0 & Hnew & Hi0). unfold run_session in Hrun.
  rewrite bind_run, Hnew in Hrun. apply serve_list_turns in Hrun; [|done]. by eapply turns_inv.
Qed.
End Sessions.

(** A camera is created and started.  Starting the pipeline again stops the
    program, in the [start] of the class; stopping it is answered. *)
Definition camera_session : list request :=
  [ask "/pipeline/create" [("objectname", "Camera")]; ask "/pipeline/start" []].

Lemma serve_safe_witness :
  ∃ sv w, run_session (V := camera_virtuals demo_shot) camera_session = Ok (sv, w)
    ∧ serve (V := camera_virtuals demo_shot) demo_env factory_init (ask "/pipeline/start" []) sv w = Fault FAssert
    ∧ blamed (V := camera_virtuals demo_shot) [KStart] w FAssert
    ∧ ∃ sv' w', serve (V := camera_virtuals demo_shot) demo_env factory_init (ask "/pipeline/stop" []) sv w
                = Ok (web_ok "ok", sv', w') ∧ web_inv sv' w'.
Proof.
  destruct (run_session (V := camera_virtuals demo_shot) camera_session) as [[sv w]|] eqn:Hrun;
    [|vm_compute in Hrun; discriminate].
  pose proof (session_inv (VL := camera_virtual_laws demo_shot) camera_session sv w eq_refl Hrun) as Hi.
  pose proof (serve_safe (camera_virtuals demo_shot) (camera_virtual_laws demo_shot) demo_env
    (ask "/pipeline/start" []) sv w Hi ltac:(by vm_compute)) as Hagain.
  pose proof (serve_safe (camera_virtuals demo_shot) (camera_virtual_laws demo_shot) demo_env
    (ask "/pipeline/stop" []) sv w Hi ltac:(by vm_compute)) as Hstop.
  assert (serve (V := camera_virtuals demo_shot) demo_env factory_init (ask "/pipeline/start" []) sv w = Fault FAssert) as E1
    by (vm_compute in Hrun; injection Hrun as <- <-; vm_compute; reflexivity).
  assert (match serve (V := camera_virtuals demo_shot) demo_env factory_init (ask "/pipeline/stop" []) sv w with
          | Ok (r, _, _) => r = web_ok "ok" | Fault _ => False end) as E2
    by (vm_compute in Hrun; injection Hrun as <- <-; vm_compute; reflexivity).
  exists sv, w. split; [reflexivity|]. split; [exact E1|]. rewrite E1 in Hagain. split.
  - destruct Hagain as [(_ & Hgui & _)|Hb]; [vm_compute in Hgui; discriminate|exact Hb].
  - destruct (serve _ _ (ask "/pipeline/stop" []) sv w) as [[[r sv'] w']|]; [|destruct E2].
    subst r. exists sv', w'. split; [reflexivity|exact Hstop].
Defined.

(** The session of an image and a filter, then the camera, polled. *)
Lemma reachable_safe_witness :
  ∃ pl w0 sv w, main_start (V := camera_virtuals demo_shot) factory_init (λ _, None) default_config world0 = Ok (Some pl, w0)
    ∧ rtc (turn (V := camera_virtuals demo_shot)) (fresh_server pl, w0) (sv, w)
    ∧ pl_modules (sv_pl sv) = [1; 3; 6] ∧ web_inv sv w
    ∧ ∃ sv' w', main_poll (V := camera_virtuals demo_shot) 4 true sv w = Ok (Some sv', w') ∧ web_inv sv' w'.
Proof.
  destruct (main_start (V := camera_virtuals demo_shot) factory_init (λ _, None) default_config world0)
    as [[[pl|] w0]|] eqn:Hstart; [|vm_compute in Hstart; discriminate..].
  set (l := take 3 session ++ camera_session).
  destruct (serve_list (V := camera_virtuals demo_shot) l (fresh_server pl) w0) as [[sv w]|] eqn:Hrun.
  2: { vm_compute in Hstart. injection Hstart as <- <-. vm_compute in Hrun. discriminate. }
  pose proof (serve_list_turns (V := camera_virtuals demo_shot) l (fresh_server pl) w0 sv w eq_refl Hrun) as Hturns.
  destruct (reachable_safe (camera_virtuals demo_shot) (camera_virtual_laws demo_shot) default_config (λ _, None) pl w0 sv w true
    eq_refl eq_refl Hstart Hturns) as [Hi Hpoll].
  assert (pl_modules (sv_pl sv) = [1; 3; 6] ∧ is_ok (main_poll (V := camera_virtuals demo_shot) 4 true sv w) = true) as [E1 E2].
  { vm_compute in Hstart. injection Hstart as <- <-. vm_compute in Hrun. injection Hrun as <- <-.
    vm_compute. split; reflexivity. }
  exists pl, w0, sv, w. split; [reflexivity|]. split; [exact Hturns|]. split; [exact E1|]. split; [exact Hi|].
  rewrite E1 in Hpoll. change (S (length [1; 3; 6])) with 4 in Hpoll.
  destruct (main_poll 4 true sv w) as [[o w']|]; [|discriminate E2].
  destruct Hpoll as (sv' & -> & Hi'). exists sv', w'. split; [reflexivity|exact Hi'].
Defined.

(** C21: /pipeline/remove without the name of a module reports an error and
    changes nothing, and so it does when no module of the pipeline has that name.
    Otherwise it takes out the first module of that name and no other: it is no
    longer listed nor alive, every other module stays, an input that it fed is free
    and every other input is connected as before, and the graph is well formed again
    (although the handler's first loop leaves the module's inputs pointing at streams
    that no longer list it).  The only faults are those of a [stop] that a class
    overrides, since the pipeline is stopped first; of the classes it is only assumed
    that a method that returns has not rewired the graph ([VirtualLaws]). *)
Theorem remove_correct (V : Virtuals) (VL : VirtualLaws V) (rq : request) (sv : server) (w : world) :
  web_inv sv w →
  match web_pipeline_remove rq sv w with
  | Ok (r, sv', w') => web_inv sv' w' ∧ removed rq sv sv' r w w'
  | Fault f => blamed [KStop] w f
  end.
Proof.
  intros Hi. destruct (rq_uri rq) as [u|] eqn:Hu.
  2: { unfold web_pipeline_remove, with_uri, removed. rewrite Hu. cbn. split; [done|]. split_and!; [by eexists|done|done]. }
  destruct (find_header (rq_query rq) "objectname") as [id|] eqn:Hid.
  2: { unfold web_pipeline_remove, with_uri, with_header, removed. rewrite Hu, Hid. cbn. split; [done|].
       split_and!; [by eexists|done|done]. }
  pose proof (remove_module_run rq id sv w Hi (mk_is_Some _ _ Hu) Hid) as H. unfold yields in H.
  unfold web_pipeline_remove, with_uri, with_header. rewrite Hu, Hid.
  match type of H with match ?x with _ => _ end => destruct x as [[[r sv'] w']|f] end; done.
Qed.

(** The session's world, then the source of the connection is removed. *)
Lemma remove_correct_witness :
  ∃ sv w sv' w', run_session (V := camera_virtuals demo_shot) session = Ok (sv, w)
    ∧ web_pipeline_remove (V := camera_virtuals demo_shot) (ask "/pipeline/remove" [("objectname", "Image1")]) sv w
      = Ok (web_ok "ok", sv', w')
    ∧ web_inv sv' w' ∧ pl_modules (sv_pl sv') = [3] ∧ w_modules w' !! 1 = None.
Proof.
  destruct (run_session (V := camera_virtuals demo_shot) session) as [[sv w]|] eqn:Hrun; [|vm_compute in Hrun; discriminate].
  pose proof (session_inv (VL := camera_virtual_laws demo_shot) session sv w eq_refl Hrun) as Hi.
  pose proof (remove_correct (camera_virtuals demo_shot) (camera_virtual_laws demo_shot)
    (ask "/pipeline/remove" [("objectname", "Image1")]) sv w Hi) as Hrem.
  assert (match web_pipeline_remove (V := camera_virtuals demo_shot) (ask "/pipeline/remove" [("objectname", "Image1")]) sv w with
          | Ok (r, sv', w') => r = web_ok "ok" ∧ pl_modules (sv_pl sv') = [3] ∧ w_modules w' !! 1 = None
          | Fault _ => False
          end) as H by (vm_compute in Hrun; injection Hrun as <- <-; vm_compute; split_and!; reflexivity).
  destruct (web_pipeline_remove (V := camera_virtuals demo_shot) _ sv w) as [[[r sv'] w']|] eqn:E; [|destruct H].
  destruct Hrem as [Hi' _]. destruct H as (-> & H1 & H2).
  exists sv, w, sv', w'. split; [reflexivity|]. split; [exact E|]. split; [exact Hi'|]. split; [exact H1|exact H2].
Defined.
