(* ===== verification/WebFiles.v ===== *)
(** What requests read and write: the file server, the slots, the loop of
    /pipeline/set, and the request that stops the program. *)
From S2P Require Import Prelude StdMap Numeric Utils Property Container Module World Wiring.
From S2P Require Import Lifecycle Catalogue Factory Pipeline PipelineSafe PipelineRuns HttpText HttpUri Web Removal WebSafe.

(** ** Substrings *)

Lemma starts_with_stake u n s : starts_with u (stake n s) = true → starts_with u s = true.
Proof.
  revert n s. induction u as [|a u IH]; intros n s; [done|]. destruct n, s; simpl; try done.
  rewrite !andb_true_iff. naive_solver.
Qed.
Lemma contains_stake u n s : contains u (stake n s) = true → contains u s = true.
Proof.
  revert n. induction s as [|c s IH]; intros n.
  { destruct n; done. }
  destruct n; simpl.
  - destruct u; simpl; [done|]. done.
  - rewrite !orb_true_iff. intros [H|H]; [left|right; by eapply IH].
    by apply (starts_with_stake u (S n) (String c s)).
Qed.
Lemma contains_sdrop u n s : contains u (sdrop n s) = true → contains u s = true.
Proof.
  revert s. induction n as [|n IH]; intros s; [by destruct s|]. destruct s as [|c s]; [done|]. simpl.
  intros H. rewrite orb_true_iff. right. by apply IH.
Qed.

Lemma contains_cons u c s : contains u (String c s) = starts_with u (String c s) || contains u s.
Proof. reflexivity. Qed.

(** Two dots do not straddle a slash. *)
Lemma contains_dots_sep g r :
  contains ".." (g +:+ String "/" r) = contains ".." g || contains ".." r.
Proof.
  induction g as [|c g IH]; [done|]. rewrite sapp_cons, !contains_cons, IH.
  assert (starts_with ".." (String c (g +:+ String "/" r)) = starts_with ".." (String c g)) as ->
    by (by destruct g).
  by rewrite orb_assoc.
Qed.

Lemma before_query_spec uri :
  ∃ n, before_query uri = stake n uri ∧ avoids "?" (before_query uri).
Proof.
  unfold before_query. destruct (find_first_of "?" uri) as [i|] eqn:E.
  - apply find_first_of_Some in E as (c & _ & _ & _ & Ha). by exists i.
  - exists (slen uri). rewrite stake_all by done. split; [done|]. by apply find_first_of_None.
Qed.

(** C38: the file server only ever opens one file per request, below the
    directory of the interface: the name is that directory, a slash and what
    follows /gui/ in the address up to the query, cut at 255 characters; it has
    no question mark after the directory, and the two dots that would climb out
    are absent from it unless the configured directory itself has them. *)
Theorem web_file_confined (e : env) (uri ct fn content : string) :
  web_file e uri = RFile ct fn content →
  e_read e fn = Content content
  ∧ ∃ rest, fn = snprintf 256 (e_guidir e +:+ "/" +:+ rest) ∧ avoids "?" rest
            ∧ contains ".." rest = false
            ∧ (contains ".." (e_guidir e) = false → contains ".." fn = false).
Proof.
  unfold web_file. destruct (starts_with "/gui/" uri); [|done]. simpl.
  destruct (contains ".." uri) eqn:Hdots; [done|].
  destruct (e_read e _) as [| | |text] eqn:E; try done. intros [= <- <- <-]. split; [done|].
  destruct (before_query_spec uri) as (n & Hn & Ha).
  exists (sdrop 5 (before_query uri)). split_and!; [done|..].
  - apply avoids_alt. intros c Hc. rewrite avoids_alt in Ha. apply Ha.
    rewrite chars_sdrop in Hc. by apply (subseteq_drop 5).
  - apply not_true_iff_false. intros H%contains_sdrop. rewrite Hn in H. apply contains_stake in H. congruence.
  - intros Hg. apply not_true_iff_false. unfold gui_filename, snprintf. intros H%contains_stake.
    rewrite sapp_cons, sapp_nil_l, contains_dots_sep, Hg, orb_false_l in H. apply contains_sdrop in H.
    rewrite Hn in H. apply contains_stake in H. congruence.
Qed.

Definition file_env : env :=
  {| e_date := "today"; e_now := 0; e_writable := λ _, true; e_guidir := "gui/html";
     e_read := λ fn, if bool_decide (fn = "gui/html/js/a.js") then Content "x" else Missing |}.

Lemma web_file_confined_witness :
  web_file file_env "/gui/js/a.js?v=1" = RFile "application/javascript" "gui/html/js/a.js" "x"
  ∧ contains ".." "gui/html/js/a.js" = false.
Proof.
  split; [reflexivity|].
  destruct (web_file_confined file_env "/gui/js/a.js?v=1" "application/javascript" "gui/html/js/a.js" "x"
    eq_refl) as (_ & rest & _ & _ & _ & H). apply H. reflexivity.
Defined.

(** ** The loop of /pipeline/set *)

(** The values of the headers called [key], in order. *)
Fixpoint named_values (key : string) (l : list (string * string)) : list string :=
  match l with
  | [] => []
  | (k, v) :: l => if same_name k key then v :: named_values key l else named_values key l
  end.

Lemma find_header_head l key : find_header l key = head (named_values key l).
Proof. induction l as [|[k v] l IH]; simpl; [done|]. by destruct (same_name k key). Qed.

Lemma named_remove_same key l : named_values key (remove_header l key) = tail (named_values key l).
Proof.
  induction l as [|[k v] l IH]; simpl; [done|]. destruct (same_name k key) eqn:E; [done|].
  simpl. by rewrite E.
Qed.


Lemma named_remove_other key key' l :
  same_name key key' = false → named_values key (remove_header l key') = named_values key l.
Proof.
  rewrite same_name_lower, bool_decide_eq_false. intros Hne.
  induction l as [|[k v] l IH]; simpl; [done|]. destruct (same_name k key') eqn:E'; simpl; [|by rewrite IH].
  destruct (same_name k key) eqn:E; [|done]. rewrite same_name_lower, bool_decide_eq_true in *. congruence.
Qed.

Lemma length_named key l : length (named_values key l) ≤ length l.
Proof. induction l as [|[k v] l IH]; simpl; [done|]. destruct (same_name k key); simpl; lia. Qed.

Section SetLoop.
Context {V : Virtuals}.

Lemma set_loop_zip fuel a headers w :
  length (named_values "name" headers) ≤ fuel →
  set_loop fuel a headers w
  = for_each (λ nv, set_property_string a nv.1 nv.2)
      (zip (named_values "name" headers) (named_values "value" headers)) w.
Proof.
  revert headers w. induction fuel as [|fuel IH]; intros headers w Hf; simpl.
  { by destruct (named_values "name" headers); [|simpl in Hf; lia]. }
  rewrite !find_header_head.
  destruct (named_values "name" headers) as [|n ns] eqn:En; [done|]. simpl.
  destruct (named_values "value" headers) as [|v vs] eqn:Ev; [done|]. simpl.
  rewrite !bind_run. destruct (set_property_string a n v w) as [[[] w1]|]; [|done].
  assert (Hn : named_values "name" (remove_header (remove_header headers "name") "value") = ns)
    by (rewrite named_remove_other by done; rewrite named_remove_same; by rewrite En).
  assert (Hv : named_values "value" (remove_header (remove_header headers "name") "value") = vs)
    by (rewrite named_remove_same, named_remove_other by done; by rewrite Ev).
  rewrite IH; [by rewrite Hn, Hv|]. rewrite Hn. simpl in Hf. lia.
Qed.
End SetLoop.

(** The endless loop of /pipeline/set ends on every query: it sets, in
    order, the property called by the first "name" to the first "value", the
    second to the second, and so on until one of the two runs out; other
    parameters are ignored and the names of parameters are compared without
    regard to case. *)
Theorem set_applies_pairs (V : Virtuals) (a : nat) (headers : list (string * string)) (w : world) (fuel : nat) :
  length headers ≤ fuel →
  set_loop fuel a headers w
  = for_each (λ nv, set_property_string a nv.1 nv.2)
      (zip (named_values "name" headers) (named_values "value" headers)) w.
Proof. intros Hf. apply set_loop_zip. pose proof (length_named "name" headers). lia. Qed.

Lemma set_applies_pairs_witness :
  set_loop (V := base_virtuals) 3 1 [("name", "x"); ("Name", "y"); ("value", "5")] demo_world
  = set_property_string (V := base_virtuals) 1 "x" "5" demo_world.
Proof.
  rewrite (set_applies_pairs base_virtuals 1 [("name", "x"); ("Name", "y"); ("value", "5")] demo_world 3
    (le_n 3)). vm_compute. reflexivity.
Defined.

(** ** Slots *)

Lemma slot_name_inj i j : valid_slot i = true → valid_slot j = true → slot_name i = slot_name j → i = j.
Proof.
  intros Hi Hj. assert (H : ∀ k, valid_slot k = true → k ∈ (Z.of_nat <$> seq 1 10)).
  { intros k Hk. unfold valid_slot, MO_SLOTMAX in Hk. apply negb_true_iff, orb_false_iff in Hk as [? ?].
    apply list_elem_of_fmap. exists (Z.to_nat k). rewrite elem_of_seq. lia. }
  assert (forallb (λ k, forallb (λ l, bool_decide (slot_name k = slot_name l → k = l)) (Z.of_nat <$> seq 1 10))
    (Z.of_nat <$> seq 1 10) = true) as Hall by (vm_compute; reflexivity).
  rewrite forallb_forall in Hall. specialize (Hall i). rewrite forallb_forall in Hall.
  rewrite <-list_elem_of_In in Hall. specialize (Hall (H i Hi) j).
  rewrite <-list_elem_of_In in Hall. specialize (Hall (H j Hj)).
  by apply bool_decide_eq_true in Hall.
Qed.

(** Saving into a slot that can be written answers ok and changes that file
    only: loading the slot afterwards parses exactly the text the pipeline was
    serialised to at the time, whatever was loaded or saved in other slots. *)
Theorem slot_roundtrip (V : Virtuals) (e : env) (rq : request) (sv : server) (w w1 : world)
    (u s_idx text : string) :
  rq_uri rq = Some u → find_header (rq_query rq) "idx" = Some s_idx → valid_slot (atoi s_idx) = true →
  e_writable e (slot_name (atoi s_idx)) = true →
  pipeline_serializeCreation (e_date e) (sv_pl sv) w = Ok (text, w1) →
  ∃ sv', web_pipeline_slot_save e rq sv w = Ok (web_ok "ok", sv', w1) ∧ sv_pl sv' = sv_pl sv
    ∧ (∀ j, valid_slot j = true → j ≠ atoi s_idx → sv_files sv' !! slot_name j = sv_files sv !! slot_name j)
    ∧ ∀ db w2,
        web_pipeline_slot_load db rq sv' w2
        = (pl ← clear (sv_pl sv); r ← parse db (Some text) pl;
           mret (if r.1 : bool then web_ok "ok" else web_error "unable to parse slot", set_pl r.2 sv')) w2.
Proof.
  intros Hu Hidx Hv Hw Hser.
  exists (set_files (<[slot_name (atoi s_idx) := (e_now e, text)]> (sv_files sv)) sv). split_and!.
  - unfold web_pipeline_slot_save. rewrite bind_run, Hser. unfold with_uri, with_header.
    rewrite Hu, Hidx, Hv, Hw. done.
  - done.
  - intros j Hj Hne. simpl. rewrite lookup_insert_ne; [done|]. intros E. apply Hne. symmetry.
    by apply slot_name_inj.
  - intros db w2. unfold web_pipeline_slot_load, with_uri, with_header. rewrite Hu, Hidx, Hv.
    simpl. by rewrite lookup_insert_eq.
Qed.

Lemma slot_roundtrip_witness :
  ∃ text sv', pipeline_serializeCreation "today" demo_pipeline demo_world = Ok (text, demo_world)
    ∧ web_pipeline_slot_save demo_env (ask "/pipeline/slot/save" [("idx", "3")]) demo_server demo_world
      = Ok (web_ok "ok", sv', demo_world).
Proof.
  destruct (pipeline_serializeCreation "today" demo_pipeline demo_world) as [[text w1]|] eqn:E;
    [|vm_compute in E; discriminate].
  assert (w1 = demo_world) as -> by (unfold pipeline_serializeCreation in E; simpl in E; by injection E as _ <-).
  destruct (slot_roundtrip base_virtuals demo_env (ask "/pipeline/slot/save" [("idx", "3")]) demo_server
    demo_world demo_world "/pipeline/slot/save" "3" text eq_refl eq_refl eq_refl eq_refl E) as (sv' & Hrun & _).
  exists text, sv'. split; [reflexivity|exact Hrun].
Defined.

(** ** The request that stops the program *)

(** A client can stop the program with two ordinary requests: create a
    module without an interface, then ask for its interface; the handler does
    not test the capability that [getGui] asserts. *)
Theorem gui_request_aborts :
  (pl ← new_pipeline (V := base_virtuals);
   serve_list (V := base_virtuals) [ask "/pipeline/create" [("objectname", "Smooth")];
               ask "/pipeline/gui" [("objectname", "Smooth1")]] (fresh_server pl)) world0
  = Fault FAssert.
Proof. vm_compute. reflexivity. Qed.
