(* ===== verification/HttpWeb.v ===== *)
(** The web interface from end to end: a page asks through HTTP, a handler of
    src/src/movid.cpp answers, and the page reads the reply. *)
From S2P Require Import Prelude StdMap Numeric Utils Property Container Module World Wiring.
From S2P Require Import Lifecycle Catalogue Factory Pipeline Json JsonText Evbuffer HttpText HttpUri Http HttpSpec HttpReply Web.
From S2P Require Import PipelineSafe PipelineRuns Removal WebSafe.
#[local] Open Scope Z_scope.

(** ** The handlers as callbacks of the server *)

(** How the functions of movid.cpp hand their reply to evhttp. *)
Definition json_type : headers := [("Content-Type", "application/json")].
Definition answer_of (r : reply) : answer :=
  match r with
  | RJson root =>
      match cJSON_Print root with
      | Ok out => AReply json_type 200 "Everything is fine" (chars out)
      | Fault _ => AFault
      end
  | RText reason content_type body => AReply [("Content-Type", content_type)] 200 reason (chars body)
  | RDownload body =>
      AReply [("Content-Type", "application/force-download; name=" +:+ String "034" "movid-pipeline.txt" +:+ String "034" EmptyString);
              ("Content-Disposition", "attachment; filename=" +:+ String "034" "movid-pipeline.txt" +:+ String "034" EmptyString)]
        200 "OK" (chars body)
  | RRedirect location => AReply [("Location", location)] 302 "Everything is fine" []
  | RError code reason => AError code reason
  | RStream content_type reason => AStart [("Content-Type", content_type)] 200 reason
  | RFile content_type _ content => AReply [("Content-Type", content_type)] 200 "Everything is fine" (chars content)
  | RNothing => ANone
  end.

Section Web.
Context {V : Virtuals}.

(** The callback a request goes to, in the state [sv], [w] of the program: it
    parses the query of the URI and serves the request. *)
Definition web_handler (e : env) (db : database) (sv : server) (w : world) (req : evhttp_request) : option answer :=
  match er_uri req with
  | None => None
  | Some uri =>
      match evhttp_parse_query uri with
      | Done query =>
          match serve e db {| rq_uri := Some uri; rq_query := query |} sv w with
          | Ok (r, _, _) => Some (answer_of r)
          | Fault _ => Some AFault
          end
      | _ => Some AFault
      end
  end.

(** ** A call *)

(** The request a page sends for a path and arguments. *)
Definition call_uri (path : string) (args : list (string * string)) : string :=
  query_uri path (prod_map id encode_text <$> args).
Definition call_request (path : string) (args : list (string * string)) (hs : headers) : evhttp_request :=
  er_set_output_headers hs (er_set_uri (Some (call_uri path args)) (er_set_version 1 1 (er_set_kind EVHTTP_REQUEST evhttp_request_new))).
(** Text that can stand in a URI as it is. *)
Definition uri_text (s : string) : Prop := plain_text s ∧ smem " " s = false.

Lemma uri_text_app s t : uri_text (s +:+ t) ↔ uri_text s ∧ uri_text t.
Proof. unfold uri_text. rewrite plain_text_app, smem_app, orb_false_iff. naive_solver. Qed.
Lemma uri_text_nil : uri_text EmptyString.
Proof. split; [by apply Forall_nil|done]. Qed.
Lemma encode_uri_text s : uri_text (encode_text s).
Proof.
  split; [|by apply encode_text_free]. eapply Forall_impl; [apply encode_text_chars|]. cbv beta. 
  assert (∀ c, uri_char c = true ∨ c = "%"%char → plain c) by by_ascii. done.
Qed.
Lemma uri_text_char c s : plain c → c ≠ " "%char → uri_text s → uri_text (String c s).
Proof. intros Hc Hb [Hp Hs]. split; [by apply Forall_cons|]. cbn [smem]. by rewrite bool_decide_false. Qed.
Lemma join_uri_text args : Forall (λ kv, uri_text kv.1) args → uri_text (join_args (prod_map id encode_text <$> args)).
Proof.
  induction args as [|[k v] args IH]; intros Hall; [apply uri_text_nil|]. apply Forall_cons in Hall as [Hk Hall]. specialize (IH Hall). cbn [fst] in Hk.
  assert (Hkv : ∀ t, uri_text t → uri_text (k +:+ String "=" (encode_text v +:+ t))).
  { intros t Ht. apply uri_text_app. split; [done|]. apply uri_text_char; [by vm_compute|done|]. apply uri_text_app. split; [apply encode_uri_text|done]. }
  destruct args as [|kv args].
  - specialize (Hkv EmptyString). rewrite sapp_nil_r in Hkv. apply Hkv, uri_text_nil.
  - apply Hkv. by apply uri_text_char; [by vm_compute| |].
Qed.
Lemma call_uri_text path args : uri_text path → Forall (λ kv, uri_text kv.1) args → uri_text (call_uri path args).
Proof.
  intros Hp Ha. unfold call_uri, query_uri. apply uri_text_app. split; [done|]. apply uri_text_char; [by vm_compute|done|]. by apply join_uri_text.
Qed.
Lemma call_sendable path args hs :
  uri_text path → Forall (λ kv, uri_text kv.1) args → Forall good_header hs →
  sendable (call_request path args hs) (call_uri path args) [].
Proof.
  intros Hp Ha Hh. destruct (call_uri_text path args Hp Ha) as [H1 H2].
  split; [done|done|done|done|done|by right|done| |done|done]. eapply queue_weaken; [apply queue_new|lia].
Qed.

(** C12: a call of the web interface, from end to end: a page encodes its
    arguments in a URI and sends the request, in pieces that do not part the
    end of a line; the handler of the path gets the arguments, a plus sign read
    as a blank, and answers with a JSON tree of integers and strings; the reply
    is written in whatever portions the socket takes, and the page finds in it
    the code 200 and a body of the announced length, from which the JSON parser
    reads the tree of the handler, strings without control characters. *)
Theorem web_call_roundtrip (e : env) (db : database) (sv sv' : server) (w w' : world) (path : string)
    (args : list (string * string)) (hs : headers) (date : string) (root : json) (pieces : list (list ascii)) (ns : list nat) :
  uri_text path → smem "?" path = false → Forall query_arg args → Forall (λ kv, uri_text kv.1) args → Forall good_header hs →
  serve e db {| rq_uri := Some (call_uri path args); rq_query := as_read <$> args |} sv w = Ok (RJson root, sv', w') →
  json_ints root → JsonText.room 0 root < 2 ^ 29 → good_header ("Date", date) → Z.of_nat (slen date) < 2 ^ 20 →
  zlength (request_text (call_request path args hs) (call_uri path args) []) < 2 ^ 31 - 1 →
  concat pieces = request_text (call_request path args hs) (call_uri path args) [] → good_pieces [] pieces →
  Forall (λ n, 0 < n)%nat ns → 2 ^ 32 <= Z.of_nat (sum_list ns) →
  ∃ c1 c2 text,
    receive (web_handler e db sv w) date pieces evhttp_get_request = Done c1
    ∧ transmit (web_handler e db sv w) date ns c1 = Done (text, c2)
    ∧ ∀ b, queue (2 ^ 40) b text → ∃ got b' t,
        client_parse b = Done (ALL_DATA_READ, ALL_DATA_READ, 0, got, b') ∧ er_response_code got = 200
        ∧ ("Content-Type", "application/json") ∈ er_input_headers got
        ∧ er_ntoread got = zlength (chars t) ∧ holds b' (chars t) ∧ cJSON_Parse (S (slen t)) t = PDone (clean root) [].
Proof.
  intros Hpath Hq Hargs Hkeys Hhs Hserve Hints Hroom Hdate Hdl Hsize Hcat Hpieces Hns Hsum.
  pose proof (call_sendable path args hs Hpath Hkeys Hhs) as Hsend. set (creq := call_request path args hs) in *.
  destruct (request_arrives (web_handler e db sv w) date creq (call_uri path args) [] pieces Hsend Hsize Hcat Hpieces)
    as [_ (req & b0 & Er & Hty & Huri & Hver & Hin & Hbody & Hb0 & Hout & Hobuf & Hown)].
  destruct (print_value_run true root 0 Hints ltac:(lia)) as [Hpr Hlen]. destruct (json_text_reads root Hints ltac:(lia)) as [(t & Ht & Hparse) _].
  assert (Hts : zlength (chars t) < 2 ^ 29).
  { unfold cJSON_Print in Ht. rewrite Hpr in Ht. injection Ht as <-. rewrite chars_unchars. unfold zlength. lia. }
  assert (Hans : web_handler e db sv w req = Some (AReply json_type 200 "Everything is fine" (chars t))).
  { unfold web_handler. rewrite Huri. change (er_uri creq) with (Some (call_uri path args)). cbv iota. unfold call_uri at 1.
    rewrite query_parses by done. rewrite Hserve. cbn [answer_of]. by rewrite Ht. }
  injection Hver as Hmaj Hmin.
  assert (Hgood : good_reply date json_type 200 "Everything is fine" (chars t)).
  { split; [done|by apply Forall_singleton, good_headerb_ok|done|done|lia|by apply (bool_decide_eq_true_1 (Forall _ _))|lia]. }
  assert (Hempty : queue (2 ^ 40) evbuffer_new []) by (eapply queue_weaken; [apply queue_new|lia]).
  destruct (reply_arrives (web_handler e db sv w) date (finished evhttp_get_request req b0) req json_type 200 "Everything is fine" (chars t) ns)
    as (c1 & c2 & sent & text & E1 & _ & E2 & _ & _ & Hsent & Hclient); try done.
  - change (hsize json_type) with 32. change (slen "Everything is fine") with 18%nat. lia.
  - by rewrite Huri.
  - by rewrite Hobuf.
  - lia.
  - exists c1, c2, text. split; [by rewrite Er|]. split; [done|]. intros b Hb.
    destruct (Hclient b Hb) as (got & b' & Hp & Hc & _ & Hh & Hn & Hl). exists got, b', t. split_and!; try done.
    rewrite Hh. apply Hsent; [apply elem_of_cons; by left|done|done].
Qed.

End Web.

(** ** A page creates a module *)
Definition demo_args : list (string * string) := [("objectname", "Smooth")].
Definition demo_headers : headers := [("Host", "localhost")].
Definition demo_date : string := "Thu, 01 Jan 1970 00:00:00 GMT".
Definition demo_call : list ascii :=
  request_text (call_request "/pipeline/create" demo_args demo_headers) (call_uri "/pipeline/create" demo_args) [].

Lemma web_call_roundtrip_witness :
  ∃ root c1 c2 text,
    web_ok "Smooth0" = RJson root
    ∧ receive (web_handler (V := base_virtuals) demo_env factory_init demo_server demo_world) demo_date [demo_call] evhttp_get_request
      = Done c1
    ∧ transmit (web_handler (V := base_virtuals) demo_env factory_init demo_server demo_world) demo_date [Z.to_nat (2 ^ 32)] c1
      = Done (text, c2)
    ∧ ∀ b, queue (2 ^ 40) b text → ∃ got b' t,
        client_parse b = Done (ALL_DATA_READ, ALL_DATA_READ, 0, got, b') ∧ er_response_code got = 200
        ∧ cJSON_Parse (S (slen t)) t = PDone (clean root) [].
Proof.
  destruct (serve (V := base_virtuals) demo_env factory_init
    {| rq_uri := Some (call_uri "/pipeline/create" demo_args); rq_query := as_read <$> demo_args |} demo_server demo_world)
    as [[[r sv'] w']|] eqn:Hserve; [|vm_compute in Hserve; discriminate].
  assert (Hr : r = web_ok "Smooth0") by (vm_compute in Hserve; injection Hserve as <- _ _; vm_compute; reflexivity).
  destruct (web_ok "Smooth0") as [root| | | | | | |] eqn:Hroot; [|discriminate..]. subst r.
  assert (Hj : json_ints root ∧ JsonText.room 0 root < 2 ^ 29).
  { injection Hroot as <-. split; [|vm_compute; reflexivity]. split; [exists 1; split; reflexivity|]. split; [exact I|exact I]. }
  destruct (web_call_roundtrip (V := base_virtuals) demo_env factory_init demo_server sv' demo_world w' "/pipeline/create"
    demo_args demo_headers demo_date root [demo_call] [Z.to_nat (2 ^ 32)]) as (c1 & c2 & text & E1 & E2 & E3).
  - split; [apply (bool_decide_eq_true_1 (Forall _ _)); vm_compute; reflexivity|reflexivity].
  - reflexivity.
  - apply Forall_singleton. split; [reflexivity|]. split; [reflexivity|]. split; [apply (bool_decide_eq_true_1 (_ ∉ _)); reflexivity|].
    split; [apply (bool_decide_eq_true_1 (_ ∉ _)); reflexivity|vm_compute; reflexivity].
  - apply Forall_singleton. split; [apply (bool_decide_eq_true_1 (Forall _ _)); vm_compute; reflexivity|reflexivity].
  - by apply Forall_singleton, good_headerb_ok.
  - exact Hserve.
  - apply Hj.
  - apply Hj.
  - by apply good_headerb_ok.
  - vm_compute. reflexivity.
  - vm_compute. reflexivity.
  - apply app_nil_r.
  - split; [apply Forall_singleton; split; [vm_compute; discriminate|vm_compute; discriminate]|].
    intros pre p suf E Hl. destruct pre as [|p0 pre]; [|by destruct pre].
    injection E as <- <-. vm_compute. lia.
  - apply Forall_singleton. lia.
  - change (sum_list [?n]) with (n + 0)%nat. lia.
  - exists root, c1, c2, text. split; [reflexivity|]. split; [exact E1|]. split; [exact E2|]. intros b Hb.
    destruct (E3 b Hb) as (got & b' & t & Hp & Hc & _ & _ & _ & Ht). exists got, b', t. split; [exact Hp|]. split; [exact Hc|exact Ht].
Defined.
